(* ===== verification/_CoqProject ===== *)
-Q . S2P
Prelude.v
Machine.v
CString.v
Kalloc.v
Vm.v
PageTable.v
Mapping.v
Uvm.v
FreeWalk.v
CopyUser.v
UvmCopy.v
Bio.v
Cache.v
Log.v
Txn.v
Fs.v
FsBlocks.v
FsInode.v
FsFile.v
FsWrite.v
FsDir.v
FsWitness.v
FsPath.v
FsBadSource.v
Grep.v
Wc.v
Xargs.v
Umalloc.v
Pipe.v
Spinlock.v
Printf.v
Ulib.v
Console.v
Plic.v
Kernel.v
File.v
Proc.v
Exec.v
Syscall.v
Sysfile.v
Trap.v
Frame.v
ProcAlloc.v
ConsoleWrite.v
ProcTable.v
FileRefs.v
ProcTree.v
ProcKill.v
Sched.v
Harts.v
Shell.v
ShellLine.v
ShellParse.v
ShellShow.v
ShellRun.v
Virtio.v
VirtioSys.v
VirtioRefine.v
VirtioSleep.v
Mkfs.v
MkfsImage.v
MkfsMain.v
Riscv.v
Asm.v
TrapAsm.v
SwitchAsm.v
BootAsm.v
Mmu.v
Crossing.v
InitCode.v
Find.v
UserSys.v
UserProgs.v
UserLogic.v
UserFiles.v
UserTree.v
UserInit.v
UserPing.v
UserSettle.v
UserPrimes.v
