(* ===== verification/Prelude.v ===== *)
(** * Verification of the xv6 (RISC-V) kernel, its disk image and its user programs

    ** The program

    src/kernel is a small Unix kernel for a RISC-V machine with several harts, a
    virtio disk and a serial port; src/user are the programs that run on it
    (among them those of the labs: primes, find, xargs and a shell with
    completion); src/mkfs builds the disk image.  A user program enters the kernel
    through the trampoline ([uservec]), which saves its registers in its trapframe;
    [usertrap] dispatches the system call, whose arguments are in the trapframe;
    the call works on the process table, the open files, pipes, the console or the
    file system.  The file system keeps its blocks in the buffer cache and groups
    its writes into transactions of the write-ahead log; the cache uses the disk
    driver.  Page tables and user memory come from the page allocator.
    [usertrapret] and [userret] lead back to the program.

    ** How the code is modelled

    A C function is a computation [M S A] on the state [S] of its component: it
    returns a value, panics with the message of the code, is undefined (a store
    outside of an array), gives up the processor in [sleep] or [sched] ([Sleep]),
    or runs out of fuel.  [wp] is total correctness.  [wpp] allows a panic besides.
    [wlp] is partial: it speaks of the states in which the computation returns or
    sleeps, and allows every other outcome.  Integers
    are [Z] with the wrap-around of their C type written out ([u8] ... [u64],
    [s32]); memory is a function from addresses to bytes with little-endian
    accesses; pointers into a table of the kernel are indices, and [NULL] is a
    value outside of it.  Prelude.v has the monad, the program logic, its tactics
    and hints, and the lemmas on lists and integers; Machine.v the memory, the
    page-table macros of riscv.h and the layout of memlayout.h.

    ** Files, and what they show

    Memory.  CString.v is string.c; Kalloc.v is kalloc.c: no sequence of [kalloc]
    and [kfree] hands out a page twice.  Vm.v is vm.c; PageTable.v, Mapping.v,
    Uvm.v, FreeWalk.v, CopyUser.v and UvmCopy.v prove its operations against an
    abstract address space: growing maps zeroed pages or restores everything,
    freeing returns every page once, [copyout] succeeds exactly on accessible
    ranges and [copyin] reads the bytes back, [uvmcopy] copies all or nothing.

    The processor reaches memory through these tables.  Mmu.v is the Sv39
    translation: user mode sees an address exactly where [walkaddr] finds it, and
    whatever a program stores, only its own pages change.  ProcTable.v:
    [proc_pagetable] maps the trampoline and the trapframe and nothing else, or
    returns every page.

    Disk.  Virtio.v is virtio_disk.c; VirtioSys.v and VirtioRefine.v put any number
    of processes, the interrupt and a device that obeys its documentation together
    and prove that the driver refines the disk that Bio.v uses.  VirtioSleep.v adds
    which processes sleep, and shows that no wakeup is lost.
    Bio.v is bio.c and sleeplock.c; Cache.v abstracts it to a store of blocks.
    Log.v is log.c: commit is atomic for every crash point, recovery included.
    Txn.v is the log as its clients use it: the class [BlockStore] is the
    interface and the log an instance.  The reservation of [begin_op] keeps a log
    of LOGSIZE blocks besides its header from overflowing in every interleaving of
    operations that log at most MAXOPBLOCKS distinct blocks; but [log_write] tests
    for space before it looks whether the block is in the log, so that an operation
    that logs a block again panics when the log is full.  The log that mkfs lays
    out is one block smaller, and overflows.  After recovery
    the reference counts of the installed blocks are too low, with a deadlock as a
    consequence.

    File system.  Fs.v is fs.c over a [BlockStore].  FsBlocks.v (bitmap), FsInode.v
    (inodes), FsFile.v (block map), FsWrite.v (contents), FsDir.v (directories)
    prove its layers: written bytes are read back and no other file changes, a
    linked name is found.  FsWitness.v is a mounted file system on which the
    theorems are applied.  FsPath.v: [namex] follows a path to the inode that it
    means and gives back every other reference it took.  FsBadSource.v: [writei]
    from an address that cannot be read reports success and writes nothing.  Mkfs.v
    is mkfs.c; MkfsImage.v and MkfsMain.v prove that the image it leaves satisfies
    the invariants of the file system, with a bitmap that marks exactly the blocks
    in use, and holds the files of the command line, except that a root directory
    whose entries fill their last block gets the size of a block that it does not
    have.

    Processes and system calls.  Kernel.v is the state of the kernel; File.v is
    file.c, Proc.v proc.c, Exec.v exec.c, Syscall.v syscall.c and sysproc.c,
    Sysfile.v sysfile.c, Trap.v trap.c, the table of system calls and main.c.
    Frame.v and ProcAlloc.v are the frame rules; FileRefs.v shows that every system
    call that returns leaves the reference counts of files exact, ProcTree.v that
    it keeps the process tree where it returns or sleeps, ProcKill.v that [kill] of
    pid 0 dooms a later child, Sched.v that no trap takes the turn of another
    process.  Harts.v has the functions of proc.c that change the states of processes
    as threads on any number of harts, interleaved at every access to the process
    table: no process runs on two harts, and while a hart completes a scan of the
    table every process that was runnable at its begin is switched to.

    Pipe.v is pipe.c (a FIFO queue: what is received is what was sent), Spinlock.v
    spinlock.c (mutual exclusion for any number of CPUs, interleaved at every
    access), Console.v uart.c and console.c (the interrupt and line editing),
    Printf.v the two printf.c, Plic.v plic.c.  ConsoleWrite.v: a write to the
    console that does not fit in the transmit ring panics, since it sleeps with the
    console lock held.

    Assembly.  Riscv.v is a hart: registers, control registers with the accessors
    of riscv.h, the instructions that the kernel uses, traps, and start.c.  Asm.v
    has entry.S, kernelvec.S, swtch.S and trampoline.S instruction by instruction.
    Its address translation is a parameter, for which Mmu.v has the real one.
    TrapAsm.v composes [usertrapret] with the trampoline, and Crossing.v puts the
    page tables behind it: the program gets the registers of its trapframe, and
    whatever it stores, its next trap arrives in [usertrap] with the right stack,
    page table and hart.  SwitchAsm.v: a thread gets its registers back by a switch
    to its context, and a trap in the kernel preserves the registers but tp, if
    [kerneltrap] keeps the calling convention.  BootAsm.v: a hart boots into
    [main], and timer interrupts keep coming without disturbing the interrupted
    code.  InitCode.v decodes and runs the bytes of the first user program: they
    lead to [exec] of "/init".

    User programs.  Ulib.v is ulib.c, Umalloc.v umalloc.c (blocks never
    overlap for requests below 2^30 bytes; one of 2^32 - 1 bytes gets memory that
    does not exist), Grep.v grep.c (the matcher decides the language of the
    expression), Wc.v, Xargs.v and Find.v the programs of their names:
    xargs runs its command once instead of once per line; find terminates on every
    file system, and prints the matching entries, directories that it descends into
    apart, of a tree for which it has enough descriptors and whose paths fit its
    buffer.  Shell.v, ShellLine.v,
    ShellParse.v, ShellShow.v and ShellRun.v sh.c: the parser is total and inverts
    printing, every program of a command line gets the descriptors the line
    denotes; completion replaces the last word, past the end of the buffer if the
    word does not fit, and cd before a semicolon loses a character.

    UserProgs.v has the small programs and the [main] of wc and grep as interaction
    trees over their system calls; UserSys.v is the world they run in: processes
    with descriptors, pipes, opened files and devices, of which one makes a call at
    a time.  What the kernel may decide is an input of a step, so that the theorems
    hold for every decision.  This world is an abstraction of the system calls of
    Syscall.v and Sysfile.v that is not proved from them: it has a flat name space,
    in which calls that change the directory tree may put anything, and unbounded
    process ids.  UserLogic.v is a program logic for one process; UserFiles.v (cat,
    wc, grep, ls, echo) and UserTree.v (rm, mkdir, ln) use it.  UserInit.v: init
    keeps a shell running, whatever the shell does.  UserPing.v: pingpong prints
    ping and then pong in every interleaving.  UserSettle.v is a logic for several
    processes of which one at a time does more than close descriptors and wait;
    with it UserPrimes.v proves that the processes of primes.c end in every
    interleaving and print the primes.

    ** Fuel and bounds

    Loops over a table or a list are recursion on the list of their indices.  A
    loop without such a bound has fuel, computed from a quantity that the loop
    decreases: the bytes or blocks that are left ([readi], [writei], [iappend],
    [copyout], [copyin]), the number of pages ([mappages], [uvmalloc], [uvmcopy]),
    three levels ([freewalk]), the length of the text (the parser), the room that is
    left for the path ([find]), the size of a ring or of a list of buffers
    ([virtio_disk_intr], [bget]).  The theorems stated as an existing result, with
    [wp] or with [wpp] include that this fuel is enough; those of malloc and free
    say that some fuel is.  The invariants of system calls (FileRefs.v, ProcTree.v,
    and the trap theorem of Sched.v) are partial: they claim nothing of a call that
    panics, is undefined or runs out of fuel.  The constants are those of param.h,
    fs.h and mkfs.c.

    ** What is not modelled

    A call that sleeps in the kernel ends in the outcome [Sleep] with the state at
    that point; its continuation is not run.  Wakeups are run: those of buffers and
    inodes are recorded in the state of their component, and Kernel.v runs them on
    the process table; those of the disk driver are run in VirtioSleep.v.  Only the
    pipe on its own (Pipe.v) and
    the disk driver (VirtioSys.v, VirtioSleep.v) and, for the states of processes
    only, Harts.v resume a call after it has slept;
    Txn.v interleaves operations that [begin_op] has admitted, and a call that
    waits there makes no step.  Kernel code under a spin-lock is one step, and
    interrupts are not interleaved with it: Spinlock.v proves the exclusion that
    this rests on, for sequentially consistent memory, but the reduction itself is
    not proved.  The refinement of the disk driver is a theorem about the disk of
    Bio.v; the kernel's system calls run on that disk and not on the driver.

    Compiled code, the stacks of C functions and caches are below the model.  A
    routine of assembly is a list of instructions in one page; its fetches are
    translated, the address of each instruction is not tracked.  The translation
    look-aside buffer is not modelled: every access walks the tables.  The writes
    of trap.c, main.c, plic.c and uart.c to control registers and devices are calls
    of a parameter in Trap.v; [consoleinit] and [trapinit], which initialize locks
    and a table, are left out.

    Not modelled at all: ramdisk.c, which the Makefile does not link; the stubs of
    usys.pl, which are generated; the test programs (usertests, grind, forktest,
    stressfs), whose expectations are about the kernel and not part of it; and the
    grading scripts. *)

From stdpp Require Export base list gmap strings numbers fin_maps.
From Stdlib Require Export ZArith Lia ZifyBool.

#[global] Open Scope Z_scope.

(** ** Outcomes of kernel code

    A C function that may stop the machine or the calling thread returns an
    [outcome]: it returns a value, calls [panic] with a message, performs an
    access that C leaves undefined (an array index out of bounds), puts the
    calling thread to sleep on a channel, or exhausts the iteration bound of a
    loop that the C code does not bound itself. *)

(** A sleep channel: the C code uses the address of an object; here the name
    of the object and its index in the table it belongs to. *)
Definition chan : Type := string * Z.

Inductive outcome (S A : Type) : Type :=
| Ret (a : A) (s : S)
| Panic (msg : string)
| Undefined (why : string)
| Sleep (c : chan) (s : S)
| OutOfFuel.
Arguments Ret {S A} a s.
Arguments Panic {S A} msg.
Arguments Undefined {S A} why.
Arguments Sleep {S A} c s.
Arguments OutOfFuel {S A}.

(** The channel on which an outcome waits, if it waits. *)
Definition sleeps_on {S A} (o : outcome S A) : option chan :=
  match o with Sleep c _ => Some c | _ => None end.

(** The state-and-outcome monad of the development.  It uses the monad
    notations of stdpp: [x ← m; k], [m ;; k] and [mret x]. *)
Definition M (S A : Type) : Type := S → outcome S A.

#[export] Instance M_ret {S} : MRet (M S) := λ A a s, Ret a s.

#[export] Instance M_bind {S} : MBind (M S) := λ A B f m s,
  match m s with
  | Ret a s' => f a s'
  | Panic msg => Panic msg
  | Undefined why => Undefined why
  | Sleep c s' => Sleep c s'
  | OutOfFuel => OutOfFuel
  end.

Definition panic {S A} (msg : string) : M S A := λ _, Panic msg.
Definition undefined {S A} (why : string) : M S A := λ _, Undefined why.
Definition sleep_on {S A} (c : chan) : M S A := λ s, Sleep c s.
Definition out_of_fuel {S A} : M S A := λ _, OutOfFuel.
Definition gets {S A} (f : S → A) : M S A := λ s, Ret (f s) s.
Definition modify {S} (f : S → S) : M S unit := λ s, Ret tt (f s).

(** [for_each l f] runs [f] on the elements of [l] in order: the [for] loops
    of the C code whose index runs over a fixed range. *)
Fixpoint for_each {S A} (l : list A) (f : A → M S unit) : M S unit :=
  match l with
  | [] => mret tt
  | x :: l' => f x ;; for_each l' f
  end.

(** [zoom get put m] runs [m] on the part of the state that [get] selects. *)
Definition zoom {S T A} (get : S → T) (put : T → S → S) (m : M T A) : M S A := λ s,
  match m (get s) with
  | Ret a t => Ret a (put t s)
  | Panic msg => Panic msg
  | Undefined why => Undefined why
  | Sleep c t => Sleep c (put t s)
  | OutOfFuel => OutOfFuel
  end.

(** A table of objects, indexed like a C array, and its update at one index. *)
Definition fset {A} (f : Z → A) (k : Z) (v : A) : Z → A := λ x, if x =? k then v else f x.

(** The first element that passes a test, as a search loop finds it. *)
Fixpoint first_such {A} (p : A → bool) (l : list A) : option A :=
  match l with
  | [] => None
  | x :: l' => if p x then Some x else first_such p l'
  end.

(** ** Total-correctness weakest preconditions

    [wp m Q s]: started in [s], [m] returns (it does not panic, sleep, run out
    of fuel or do something undefined) and its result and final state satisfy
    [Q]. *)
Definition wp {S A} (m : M S A) (Q : A → S → Prop) (s : S) : Prop :=
  match m s with
  | Ret a s' => Q a s'
  | _ => False
  end.

(** [wlp m Q R s]: started in [s], if [m] returns then its result and final
    state satisfy [Q], and if it puts the thread to sleep then the state
    satisfies [R]. *)
Definition wlp {S A} (m : M S A) (Q : A → S → Prop) (R : S → Prop) (s : S) : Prop :=
  match m s with
  | Ret a s' => Q a s'
  | Sleep _ s' => R s'
  | _ => True
  end.

(** [wpp m Q s]: started in [s], [m] returns a result that satisfies [Q], or
    panics; it does not sleep, run out of fuel or do something undefined. *)
Definition wpp {S A} (m : M S A) (Q : A → S → Prop) (s : S) : Prop :=
  match m s with
  | Ret a s' => Q a s'
  | Panic _ => True
  | _ => False
  end.

(** ** Machine integers *)

Definition u8 (z : Z) : Z := z `mod` 2 ^ 8.
Definition u16 (z : Z) : Z := z `mod` 2 ^ 16.
Definition u32 (z : Z) : Z := z `mod` 2 ^ 32.
Definition u64 (z : Z) : Z := z `mod` 2 ^ 64.

(** Conversion of a bit pattern to a signed w-bit integer (two's complement). *)
Definition sext (w z : Z) : Z := (z + 2 ^ (w - 1)) `mod` 2 ^ w - 2 ^ (w - 1).
Definition s8 (z : Z) : Z := sext 8 z.
Definition s16 (z : Z) : Z := sext 16 z.
Definition s32 (z : Z) : Z := sext 32 z.

(** C truth value of a bit test. *)
Definition nonzero (z : Z) : bool := negb (z =? 0).

(** * Lemmas *)

(** ** Weakest preconditions *)

Section wp.
Context {S : Type}.

Lemma wp_ret {A} (a : A) (Q : A → S → Prop) s : Q a s → wp (mret a) Q s.
Proof. done. Qed.

Lemma wp_bind {A B} (m : M S A) (f : A → M S B) Q s :
  wp m (λ a s', wp (f a) Q s') s → wp (m ≫= f) Q s.
Proof. unfold wp, mbind, M_bind. by destruct (m s). Qed.

Lemma wp_mono {A} (m : M S A) (P Q : A → S → Prop) s :
  wp m P s → (∀ a s', P a s' → Q a s') → wp m Q s.
Proof. unfold wp. destruct (m s); naive_solver. Qed.

Lemma wp_gets {A} (f : S → A) (Q : A → S → Prop) s : Q (f s) s → wp (gets f) Q s.
Proof. done. Qed.

Lemma wp_modify (f : S → S) (Q : unit → S → Prop) s : Q tt (f s) → wp (modify f) Q s.
Proof. done. Qed.

Lemma wp_inv {A} (m : M S A) (Q : A → S → Prop) s :
  wp m Q s → ∃ a s', m s = Ret a s' ∧ Q a s'.
Proof. unfold wp. destruct (m s); naive_solver. Qed.

Lemma wp_of_eq {A} (m : M S A) (Q : A → S → Prop) s a s' :
  m s = Ret a s' → Q a s' → wp m Q s.
Proof. unfold wp. by intros ->. Qed.

Lemma wp_if {A} (b : bool) (m1 m2 : M S A) (Q : A → S → Prop) s :
  (b = true → wp m1 Q s) → (b = false → wp m2 Q s) → wp (if b then m1 else m2) Q s.
Proof. destruct b; auto. Qed.

(** Three statements run as a block before the rest. *)
Lemma wp_seq3 {A} (m1 m2 m3 : M S unit) (k : M S A) (Q : A → S → Prop) s :
  wp (m1 ;; m2 ;; m3) (λ _ s', wp k Q s') s → wp (m1 ;; m2 ;; m3 ;; k) Q s.
Proof.
  unfold wp, mbind, M_bind. destruct (m1 s) as [? s1| | | |]; try done.
  destruct (m2 s1) as [? s2| | | |]; try done. by destruct (m3 s2).
Qed.

Lemma wp_panic {A} msg (Q : A → S → Prop) s : False → wp (panic msg) Q s.
Proof. done. Qed.

Lemma wp_zoom {T A} (get : S → T) (put : T → S → S) (m : M T A) (Q : A → S → Prop) s :
  wp m (λ a t, Q a (put t s)) (get s) → wp (zoom get put m) Q s.
Proof. unfold wp, zoom. by destruct (m (get s)). Qed.

(** A loop over a list keeps an invariant indexed by the elements still to be
    visited. *)
Lemma wp_for_each {A} (l : list A) (f : A → M S unit) (I : list A → S → Prop)
    (Q : unit → S → Prop) s :
  I l s →
  (∀ x l' s', I (x :: l') s' → wp (f x) (λ _ s'', I l' s'') s') →
  (∀ s', I [] s' → Q tt s') →
  wp (for_each l f) Q s.
Proof.
  intros HI Hstep HQ. revert s HI.
  induction l as [|x l IH]; intros s HI; simpl; [by apply HQ|].
  apply wp_bind. eapply wp_mono; [by apply Hstep|].
  intros [] s' HI'. by apply IH.
Qed.

(** A loop over the indices below [n] keeps an invariant indexed by the next
    index. *)
Lemma wp_for_seqZ (n : Z) (f : Z → M S unit) (I : Z → S → Prop) (Q : unit → S → Prop) s :
  0 ≤ n → I 0 s →
  (∀ i s', 0 ≤ i < n → I i s' → wp (f i) (λ _ s'', I (i + 1) s'') s') →
  (∀ s', I n s' → Q tt s') →
  wp (for_each (seqZ 0 n) f) Q s.
Proof.
  intros Hn HI Hstep HQ.
  eapply (wp_for_each _ _ (λ rest s', ∃ i, rest = seqZ i (n - i) ∧ 0 ≤ i ≤ n ∧ I i s')).
  - exists 0. by rewrite Z.sub_0_r.
  - intros x l' s' (i & Hi & Hr & HIi). destruct (decide (i = n)) as [->|Hne].
    { rewrite Z.sub_diag in Hi. done. }
    rewrite seqZ_cons in Hi by lia. injection Hi as -> ->.
    eapply wp_mono; [apply Hstep; [lia|done]|]. intros [] s'' HI'. exists (Z.succ i).
    split; [f_equal; lia|]. split; [lia|done].
  - intros s' (i & Hi & Hr & HIi). apply HQ. destruct (decide (i = n)) as [->|Hne]; [done|].
    rewrite seqZ_cons in Hi by lia. done.
Qed.

Lemma wlp_ret {A} (a : A) (Q : A → S → Prop) R s : Q a s → wlp (mret a) Q R s.
Proof. done. Qed.

Lemma wlp_bind {A B} (m : M S A) (f : A → M S B) Q R s :
  wlp m (λ a s', wlp (f a) Q R s') R s → wlp (m ≫= f) Q R s.
Proof. unfold wlp, mbind, M_bind. by destruct (m s). Qed.

Lemma wlp_bind_inv {A B} (m : M S A) (f : A → M S B) Q R s :
  wlp (m ≫= f) Q R s → wlp m (λ a s', wlp (f a) Q R s') R s.
Proof. unfold wlp, mbind, M_bind. by destruct (m s). Qed.

Lemma wlp_mono {A} (m : M S A) (Q Q' : A → S → Prop) (R R' : S → Prop) s :
  wlp m Q R s → (∀ a s', Q a s' → Q' a s') → (∀ s', R s' → R' s') → wlp m Q' R' s.
Proof. unfold wlp. destruct (m s); auto. Qed.

Lemma wlp_gets {A} (f : S → A) (Q : A → S → Prop) R s : Q (f s) s → wlp (gets f) Q R s.
Proof. done. Qed.

Lemma wlp_modify (f : S → S) (Q : unit → S → Prop) R s : Q tt (f s) → wlp (modify f) Q R s.
Proof. done. Qed.

Lemma wlp_panic {A} msg (Q : A → S → Prop) R s : wlp (panic msg) Q R s.
Proof. done. Qed.

(** A loop over a list keeps an invariant indexed by the elements still to be
    visited. *)
Lemma wlp_for_each {A} (l : list A) (f : A → M S unit) (I : list A → S → Prop) (Q : unit → S → Prop) R s :
  I l s →
  (∀ x l' s', I (x :: l') s' → wlp (f x) (λ _ s'', I l' s'') R s') →
  (∀ s', I [] s' → Q tt s') →
  wlp (for_each l f) Q R s.
Proof.
  intros HI Hstep HQ. revert s HI. induction l as [|x l IH]; intros s HI; simpl; [by apply HQ|].
  apply wlp_bind. eapply wlp_mono; [by apply Hstep| |done]. intros [] s' HI'. by apply IH.
Qed.

Lemma wpp_bind {A B} (m : M S A) (f : A → M S B) Q s :
  wpp m (λ a s', wpp (f a) Q s') s → wpp (m ≫= f) Q s.
Proof. unfold wpp, mbind, M_bind. by destruct (m s). Qed.

Lemma wpp_mono {A} (m : M S A) (P Q : A → S → Prop) s :
  wpp m P s → (∀ a s', P a s' → Q a s') → wpp m Q s.
Proof. unfold wpp. destruct (m s); auto. Qed.

Lemma wpp_ret {A} (a : A) (Q : A → S → Prop) s : Q a s → wpp (mret a) Q s.
Proof. done. Qed.

Lemma wpp_gets {A} (f : S → A) (Q : A → S → Prop) s : Q (f s) s → wpp (gets f) Q s.
Proof. done. Qed.

Lemma wpp_modify (f : S → S) (Q : unit → S → Prop) s : Q tt (f s) → wpp (modify f) Q s.
Proof. done. Qed.

Lemma wpp_for_each {A} (l : list A) (f : A → M S unit) (I : list A → S → Prop) s :
  I [] s →
  (∀ done a rest s', l = done ++ a :: rest → I done s' → wpp (f a) (λ _ s'', I (done ++ [a]) s'') s') →
  wpp (for_each l f) (λ _ s', I l s') s.
Proof.
  intros H0 Hstep. assert (∀ rest done s', l = done ++ rest → I done s' → wpp (for_each rest f) (λ _ s'', I l s'') s') as H.
  { induction rest as [|a rest IH]; intros done s' E Hd; cbn [for_each].
    - rewrite app_nil_r in E. subst. by apply wpp_ret.
    - apply wpp_bind. eapply wpp_mono; [by eapply Hstep|]. intros u s'' H'. apply (IH (done ++ [a])); [|done].
      by rewrite <-app_assoc. }
  by apply (H l []).
Qed.

Lemma wpp_panic {A} msg (Q : A → S → Prop) s : wpp (panic msg) Q s.
Proof. done. Qed.

Lemma bind_Ret {A B} (m : M S A) (f : A → M S B) s a s' :
  m s = Ret a s' → (m ≫= f) s = f a s'.
Proof. unfold mbind, M_bind. by intros ->. Qed.

Lemma bind_Ret_inv {A B} (m : M S A) (f : A → M S B) s b s' :
  (m ≫= f) s = Ret b s' → ∃ a s1, m s = Ret a s1 ∧ f a s1 = Ret b s'.
Proof. unfold mbind, M_bind. destruct (m s); naive_solver. Qed.

End wp.

(** The steps of a symbolic execution: [wp_step] runs one statement,
    [wp_run] as many as it can. *)
Ltac wp_step :=
  match goal with
  | |- wp (_ ≫= _) _ _ => apply wp_bind
  | |- wp (mret _) _ _ => apply wp_ret
  | |- wp (gets _) _ _ => apply wp_gets
  | |- wp (modify _) _ _ => apply wp_modify
  end; cbv beta.
Ltac wp_run := repeat wp_step.

Ltac wlp_step :=
  match goal with
  | |- wlp (_ ≫= _) _ _ _ => apply wlp_bind
  | |- wlp (mret _) _ _ _ => apply wlp_ret
  | |- wlp (gets _) _ _ _ => apply wlp_gets
  | |- wlp (modify _) _ _ _ => apply wlp_modify
  | |- wlp (panic _) _ _ _ => apply wlp_panic
  end; cbv beta.
Ltac wlp_run := repeat wlp_step.

Ltac wpp_step :=
  match goal with
  | |- wpp (_ ≫= _) _ _ => apply wpp_bind
  | |- wpp (mret _) _ _ => apply wpp_ret
  | |- wpp (gets _) _ _ => apply wpp_gets
  | |- wpp (modify _) _ _ => apply wpp_modify
  | |- wpp (panic _) _ _ => apply wpp_panic
  end; cbv beta.
Ltac wpp_run := repeat wpp_step.

(** ** Searches *)

Lemma first_such_Some {A} (p : A → bool) l x :
  first_such p l = Some x → x ∈ l ∧ p x = true.
Proof.
  induction l as [|y l IH]; simpl; [done|]. destruct (p y) eqn:E.
  - intros [= ->]. by split; [left|].
  - intros [? ?]%IH. by split; [right|].
Qed.

Lemma first_such_None {A} (p : A → bool) l :
  first_such p l = None ↔ ∀ x, x ∈ l → p x = false.
Proof.
  induction l as [|y l IH]; simpl; [by split; [intros _ x ?%elem_of_nil|]|].
  setoid_rewrite elem_of_cons. destruct (p y) eqn:E; [naive_solver congruence|].
  rewrite IH. naive_solver.
Qed.

Lemma first_such_ext {A} (p q : A → bool) l :
  (∀ x, x ∈ l → p x = q x) → first_such p l = first_such q l.
Proof.
  induction l as [|y l IH]; simpl; intros Hpq; [done|].
  rewrite (Hpq y), IH; [done| |left]. intros x Hx. apply Hpq. by right.
Qed.

Lemma first_such_app {A} (p : A → bool) l1 l2 :
  first_such p (l1 ++ l2) =
  match first_such p l1 with Some x => Some x | None => first_such p l2 end.
Proof. induction l1 as [|y l1 IH]; simpl; [done|]. by destruct (p y). Qed.

(** The first index of a range that passes a test. *)
Lemma first_such_split (p : Z → bool) lo n :
  (∃ i, first_such p (seqZ lo n) = Some i ∧ lo ≤ i < lo + n ∧ p i = true ∧
     ∀ j, lo ≤ j < i → p j = false) ∨
  first_such p (seqZ lo n) = None ∧ ∀ j, lo ≤ j < lo + n → p j = false.
Proof.
  destruct (decide (0 ≤ n)) as [Hn|Hn].
  2: { right. rewrite seqZ_nil by lia. split; [done|]. lia. }
  revert lo. pattern n. revert n Hn. apply natlike_ind; [|intros n Hn IH]; intros lo.
  - right. rewrite seqZ_nil by lia. split; [done|]. lia.
  - rewrite seqZ_cons by lia. simpl. destruct (p lo) eqn:E.
    + left. exists lo. split_and!; [done|lia|lia|done|lia].
    + replace (Z.pred (Z.succ n)) with n by lia. destruct (IH (Z.succ lo)) as [(i & Ei & Hi & Hp & Hb)|[Ei Hno]].
      * left. exists i. split_and!; [done|lia|lia|done|]. intros j Hj.
        destruct (decide (j = lo)) as [->|]; [done|]. apply Hb. lia.
      * right. split; [done|]. intros j Hj. destruct (decide (j = lo)) as [->|]; [done|]. apply Hno. lia.
Qed.

(** ** Removal from a list without duplicates *)

Lemma filter_ne_id (b : Z) (l : list Z) : (b ∉ l) → filter (λ i, i ≠ b) l = l.
Proof.
  induction l as [|x l IH]; [done|]. rewrite not_elem_of_cons. intros [Hx Hl].
  rewrite filter_cons_True by done. by rewrite IH.
Qed.

Lemma filter_ne_split (b : Z) (l1 l2 : list Z) :
  NoDup (l1 ++ b :: l2) → filter (λ i, i ≠ b) (l1 ++ b :: l2) = l1 ++ l2.
Proof.
  intros (_ & Hd & [Hb2 _]%NoDup_cons)%NoDup_app.
  rewrite filter_app, filter_cons_False by naive_solver.
  rewrite !filter_ne_id; [done|done|]. intros Hb1. apply (Hd b Hb1). by left.
Qed.

(** ** Tables *)

Lemma fset_eq {A} (f : Z → A) k v : fset f k v k = v.
Proof. unfold fset. by rewrite Z.eqb_refl. Qed.

Lemma fset_ne {A} (f : Z → A) k v x : x ≠ k → fset f k v x = f x.
Proof. unfold fset. by destruct (Z.eqb_spec x k). Qed.

(** ** Arithmetic *)

(** [lia] with the defining equations of [/] and [mod]. *)
Ltac dlia := Z.to_euclidean_division_equations; lia.

Lemma nonzero_true z : nonzero z = true ↔ z ≠ 0.
Proof. unfold nonzero. destruct (Z.eqb_spec z 0); naive_solver. Qed.

Lemma nonzero_false z : nonzero z = false ↔ z = 0.
Proof. unfold nonzero. destruct (Z.eqb_spec z 0); naive_solver. Qed.

Lemma u64_small z : 0 ≤ z < 2 ^ 64 → u64 z = z.
Proof. apply Z.mod_small. Qed.

Lemma u64_range z : 0 ≤ u64 z < 2 ^ 64.
Proof. apply Z.mod_pos_bound. lia. Qed.

Lemma u32_small z : 0 ≤ z < 2 ^ 32 → u32 z = z.
Proof. apply Z.mod_small. Qed.

Lemma u32_range z : 0 ≤ u32 z < 2 ^ 32.
Proof. apply Z.mod_pos_bound. lia. Qed.

Lemma u8_range z : 0 ≤ u8 z < 256.
Proof. apply Z.mod_pos_bound. lia. Qed.

Lemma u8_small z : 0 ≤ z < 256 → u8 z = z.
Proof. apply Z.mod_small. Qed.

Lemma sext_small w z : 0 < w → - 2 ^ (w - 1) ≤ z < 2 ^ (w - 1) → sext w z = z.
Proof.
  intros Hw Hz. unfold sext.
  assert (2 ^ w = 2 * 2 ^ (w - 1)) as E.
  { rewrite <-Z.pow_succ_r by lia. f_equal. lia. }
  rewrite Z.mod_small by lia. lia.
Qed.

Lemma s32_small z : - 2 ^ 31 ≤ z < 2 ^ 31 → s32 z = z.
Proof. intros. by apply sext_small. Qed.

Lemma s32_range z : - 2 ^ 31 ≤ s32 z < 2 ^ 31.
Proof. unfold s32, sext. pose proof (Z.mod_pos_bound (z + 2 ^ (32 - 1)) (2 ^ 32)). simpl in *. lia. Qed.

Create HintDb xv6.
Create Rewrite HintDb machint.
#[export] Hint Resolve u64_range u32_range u8_range s32_range : xv6.
#[export] Hint Rewrite u64_small u32_small u8_small s32_small using lia : machint.
