(* ===== verification/Machine.v ===== *)
(** * The machine: address-space constants, page-table entries and memory

    Models kernel/riscv.h (page and page-table-entry macros), kernel/memlayout.h
    (physical and virtual layout) and byte-addressed physical memory with
    little-endian loads and stores, which the kernel reaches through its direct
    map. *)

From S2P Require Import Prelude.

(** ** riscv.h: pages *)

Definition PGSIZE : Z := 4096.
Definition PGSHIFT : Z := 12.

Definition PGROUNDUP (sz : Z) : Z := Z.land (u64 (sz + PGSIZE - 1)) (Z.lnot (PGSIZE - 1)).
Definition PGROUNDDOWN (a : Z) : Z := Z.land a (Z.lnot (PGSIZE - 1)).

(** ** riscv.h: page-table entries *)

Definition PTE_V : Z := Z.shiftl 1 0.
Definition PTE_R : Z := Z.shiftl 1 1.
Definition PTE_W : Z := Z.shiftl 1 2.
Definition PTE_X : Z := Z.shiftl 1 3.
Definition PTE_U : Z := Z.shiftl 1 4.

Definition PA2PTE (pa : Z) : Z := u64 (Z.shiftl (Z.shiftr pa 12) 10).
Definition PTE2PA (pte : Z) : Z := u64 (Z.shiftl (Z.shiftr pte 10) 12).
Definition PTE_FLAGS (pte : Z) : Z := Z.land pte 0x3FF.

Definition PXMASK : Z := 0x1FF.
Definition PXSHIFT (level : Z) : Z := PGSHIFT + 9 * level.
Definition PX (level va : Z) : Z := Z.land (Z.shiftr va (PXSHIFT level)) PXMASK.

Definition MAXVA : Z := Z.shiftl 1 (9 + 9 + 9 + 12 - 1).

(** ** memlayout.h *)

Definition UART0 : Z := 0x10000000.
Definition VIRTIO0 : Z := 0x10001000.
Definition CLINT : Z := 0x2000000.
Definition PLIC : Z := 0x0c000000.
Definition KERNBASE : Z := 0x80000000.
Definition PHYSTOP : Z := KERNBASE + 128 * 1024 * 1024.
Definition TRAMPOLINE : Z := MAXVA - PGSIZE.
Definition KSTACK (p : Z) : Z := TRAMPOLINE - (p + 1) * 2 * PGSIZE.
Definition TRAPFRAME : Z := TRAMPOLINE - PGSIZE.

(** ** The linked kernel image

    [end], [etext] and [trampoline] are symbols that the linker script
    kernel/kernel.ld places: the kernel is linked at [KERNBASE], its text is
    page-aligned at its end, and [end] is the first address after the kernel,
    below [PHYSTOP]. *)
Class Image := {
  img_end : Z;
  img_etext : Z;
  img_trampoline : Z;
  img_etext_ok : KERNBASE < img_etext ≤ img_end ∧ img_etext `mod` PGSIZE = 0;
  img_end_ok : KERNBASE < img_end ≤ PHYSTOP;
  img_trampoline_ok :
    KERNBASE ≤ img_trampoline < img_etext ∧ img_trampoline `mod` PGSIZE = 0
}.

(** ** Memory

    A memory gives a value to every physical address; the byte it holds is
    the value modulo 256, as in a [char] assignment. *)
Definition memory : Type := Z → Z.

Definition upd (m : memory) (a v : Z) : memory := λ x, if x =? a then v else m x.

Definition load8 (m : memory) (a : Z) : Z := u8 (m a).
Definition store8 (m : memory) (a v : Z) : memory := upd m a (u8 v).

(** Little-endian access to [n] consecutive bytes. *)
Fixpoint loadn (n : nat) (m : memory) (a : Z) : Z :=
  match n with
  | O => 0
  | S n' => load8 m a + 256 * loadn n' m (a + 1)
  end.

Fixpoint storen (n : nat) (m : memory) (a v : Z) : memory :=
  match n with
  | O => m
  | S n' => storen n' (store8 m a v) (a + 1) (v / 256)
  end.

Definition load64 : memory → Z → Z := loadn 8.
Definition store64 : memory → Z → Z → memory := storen 8.
Definition load32 : memory → Z → Z := loadn 4.
Definition store32 : memory → Z → Z → memory := storen 4.
Definition load16 : memory → Z → Z := loadn 2.
Definition store16 : memory → Z → Z → memory := storen 2.

(** The bytes of a range of addresses. *)
Fixpoint load_bytes (n : nat) (m : memory) (a : Z) : list Z :=
  match n with
  | O => []
  | S n' => load8 m a :: load_bytes n' m (a + 1)
  end.

(** Store bytes that come from outside the memory at hand. *)
Fixpoint store_bytes (m : memory) (a : Z) (l : list Z) : memory :=
  match l with
  | [] => m
  | b :: l' => store_bytes (store8 m a b) (a + 1) l'
  end.

(** * Lemmas *)

(** ** Bits and pages *)

Lemma lor_disjoint_add x f k : 0 ≤ k → 0 ≤ f < 2 ^ k → Z.lor (Z.shiftl x k) f = x * 2 ^ k + f.
Proof.
  intros Hk Hf. rewrite <-(Z.shiftl_mul_pow2 x k) by done.
  assert (Z.land (Z.shiftl x k) f = 0) as E.
  { apply Z.bits_inj'. intros i Hi. rewrite Z.land_spec, Z.bits_0.
    destruct (Z.lt_ge_cases i k) as [?|?].
    - by rewrite Z.shiftl_spec_low.
    - rewrite <-(Z.mod_small f (2 ^ k)) by done.
      rewrite Z.mod_pow2_bits_high by lia. apply andb_false_r. }
  rewrite <-Z.lxor_lor by done. by rewrite Z.add_nocarry_lxor.
Qed.

Lemma land_lnot_ones a k : 0 ≤ k → Z.land a (Z.lnot (Z.ones k)) = a - a `mod` 2 ^ k.
Proof.
  intros Hk. rewrite <-Z.ldiff_land, Z.ldiff_ones_r, Z.shiftr_div_pow2, Z.shiftl_mul_pow2 by done.
  pose proof (Z.div_mod a (2 ^ k)). lia.
Qed.

Lemma PGROUNDDOWN_eq a : PGROUNDDOWN a = a - a `mod` PGSIZE.
Proof. apply (land_lnot_ones a 12). lia. Qed.

Lemma PGROUNDUP_eq sz : PGROUNDUP sz = PGROUNDDOWN (u64 (sz + PGSIZE - 1)).
Proof. done. Qed.

Lemma PGROUNDDOWN_aligned a : PGROUNDDOWN a `mod` PGSIZE = 0.
Proof. rewrite PGROUNDDOWN_eq. unfold PGSIZE. dlia. Qed.

Lemma PGROUNDDOWN_le a : a - PGSIZE < PGROUNDDOWN a ≤ a.
Proof. rewrite PGROUNDDOWN_eq. unfold PGSIZE. dlia. Qed.

Lemma PGROUNDDOWN_id a : a `mod` PGSIZE = 0 → PGROUNDDOWN a = a.
Proof. rewrite PGROUNDDOWN_eq. lia. Qed.

Lemma PGROUNDUP_aligned a : PGROUNDUP a `mod` PGSIZE = 0.
Proof. rewrite PGROUNDUP_eq. apply PGROUNDDOWN_aligned. Qed.

Lemma PGROUNDUP_ge a : 0 ≤ a ≤ 2 ^ 64 - PGSIZE → a ≤ PGROUNDUP a < a + PGSIZE.
Proof.
  intros Ha. rewrite PGROUNDUP_eq.
  unfold PGSIZE in *. rewrite u64_small by lia.
  pose proof (PGROUNDDOWN_le (a + 4096 - 1)). unfold PGSIZE in *. lia.
Qed.

Lemma PGROUNDUP_id a : 0 ≤ a ≤ 2 ^ 64 - PGSIZE → a `mod` PGSIZE = 0 → PGROUNDUP a = a.
Proof.
  intros Ha Hm. pose proof (PGROUNDUP_ge a Ha). pose proof (PGROUNDUP_aligned a).
  unfold PGSIZE in *. dlia.
Qed.

Lemma PX_eq l va : 0 ≤ l → PX l va = (va / 2 ^ (12 + 9 * l)) `mod` 512.
Proof.
  intros Hl. unfold PX, PXSHIFT, PXMASK, PGSHIFT.
  change 0x1FF with (Z.ones 9). rewrite Z.land_ones, Z.shiftr_div_pow2 by lia. done.
Qed.

Lemma PX_range l va : 0 ≤ l → 0 ≤ PX l va < 512.
Proof. intros Hl. rewrite PX_eq by done. apply Z.mod_pos_bound. lia. Qed.

(** A physical address that a page-table entry can hold. *)
Definition pa_ok (pa : Z) : Prop := pa `mod` PGSIZE = 0 ∧ 0 ≤ pa < 2 ^ 56.

Lemma PA2PTE_eq pa : pa_ok pa → PA2PTE pa = pa / 4096 * 1024.
Proof.
  intros [Ha Hr]. unfold PA2PTE. rewrite Z.shiftl_mul_pow2, Z.shiftr_div_pow2 by lia.
  change (2 ^ 12) with 4096. change (2 ^ 10) with 1024.
  apply u64_small. unfold PGSIZE in *. dlia.
Qed.

Lemma PTE_make pa f : pa_ok pa → 0 ≤ f < 1024 → Z.lor (PA2PTE pa) f = pa / 4096 * 1024 + f.
Proof.
  intros Hpa Hf. rewrite PA2PTE_eq by done.
  change 1024 with (2 ^ 10) in *. rewrite <-(Z.shiftl_mul_pow2 _ 10) at 1 by lia.
  by apply lor_disjoint_add.
Qed.

Lemma PTE2PA_make pa f : pa_ok pa → 0 ≤ f < 1024 → PTE2PA (Z.lor (PA2PTE pa) f) = pa.
Proof.
  intros Hpa Hf. rewrite PTE_make by done. destruct Hpa as [Ha Hr]. unfold PTE2PA.
  rewrite Z.shiftl_mul_pow2, Z.shiftr_div_pow2 by lia.
  change (2 ^ 12) with 4096. change (2 ^ 10) with 1024.
  rewrite Z.div_add_l, (Z.div_small f) by lia. unfold PGSIZE in *.
  rewrite u64_small by dlia. dlia.
Qed.

Lemma PTE_FLAGS_make pa f : pa_ok pa → 0 ≤ f < 1024 → PTE_FLAGS (Z.lor (PA2PTE pa) f) = f.
Proof.
  intros Hpa Hf. rewrite PTE_make by done. unfold PTE_FLAGS. change 0x3FF with (Z.ones 10).
  rewrite Z.land_ones by lia. change (2 ^ 10) with 1024.
  rewrite Z.add_comm, Z.mod_add by lia. by apply Z.mod_small.
Qed.

Lemma PTE_make_range pa f : pa_ok pa → 0 ≤ f < 1024 → 0 ≤ Z.lor (PA2PTE pa) f < 2 ^ 64.
Proof.
  intros Hpa Hf. rewrite PTE_make by done. destruct Hpa as [Ha Hr]. unfold PGSIZE in *. dlia.
Qed.

(** Testing a flag of an entry tests the flag bits it was made with. *)
Lemma land_flags pte g : 0 ≤ g < 1024 → Z.land pte g = Z.land (PTE_FLAGS pte) g.
Proof.
  intros Hg. unfold PTE_FLAGS. rewrite <-Z.land_assoc. f_equal.
  change 0x3FF with (Z.ones 10). rewrite Z.land_comm, Z.land_ones by lia.
  symmetry. by apply Z.mod_small.
Qed.

(** ** Memory *)

Lemma load8_store8 m a v x : load8 (store8 m a v) x = if x =? a then u8 v else load8 m x.
Proof.
  unfold load8, store8, upd. destruct (x =? a); [|done]. unfold u8. apply Z.mod_mod. lia.
Qed.

Lemma load8_range m a : 0 ≤ load8 m a < 256.
Proof. apply u8_range. Qed.

(** Two memories that hold the same bytes. *)
Definition mem_eq_on (P : Z → Prop) (m1 m2 : memory) : Prop := ∀ x, P x → load8 m1 x = load8 m2 x.

Lemma load8_storen n m a v x :
  ¬ (a ≤ x < a + Z.of_nat n) → load8 (storen n m a v) x = load8 m x.
Proof.
  revert m a v. induction n as [|n IH]; intros m a v Hx; simpl; [done|].
  rewrite IH by lia. rewrite load8_store8. destruct (Z.eqb_spec x a); [lia|done].
Qed.

Lemma loadn_ext n m1 m2 a :
  mem_eq_on (λ x, a ≤ x < a + Z.of_nat n) m1 m2 → loadn n m1 a = loadn n m2 a.
Proof.
  revert a. induction n as [|n IH]; intros a H; simpl; [done|].
  rewrite (H a) by lia. rewrite (IH (a + 1)); [done|].
  intros x Hx. apply H. lia.
Qed.

Lemma loadn_range n m a : 0 ≤ loadn n m a < 256 ^ Z.of_nat n.
Proof.
  revert a. induction n as [|n IH]; intros a; simpl loadn; [lia|].
  rewrite Nat2Z.inj_succ, Z.pow_succ_r by lia.
  pose proof (load8_range m a). specialize (IH (a + 1)). lia.
Qed.

Lemma loadn_storen n m a v : loadn n (storen n m a v) a = v `mod` 256 ^ Z.of_nat n.
Proof.
  revert m a v. induction n as [|n IH]; intros m a v; simpl loadn; simpl storen.
  { by rewrite Z.mod_1_r. }
  rewrite load8_storen by lia. rewrite load8_store8, Z.eqb_refl.
  rewrite IH. rewrite Nat2Z.inj_succ, Z.pow_succ_r by lia.
  rewrite Z.rem_mul_r by lia. done.
Qed.

Lemma loadn_storen_ne n k m a b v :
  b + Z.of_nat n ≤ a ∨ a + Z.of_nat k ≤ b → loadn n (storen k m a v) b = loadn n m b.
Proof. intros H. apply loadn_ext. intros x Hx. apply load8_storen. lia. Qed.

Lemma load64_range m a : 0 ≤ load64 m a < 2 ^ 64.
Proof. apply (loadn_range 8). Qed.

Lemma load64_store64 m a v : 0 ≤ v < 2 ^ 64 → load64 (store64 m a v) a = v.
Proof. intros Hv. unfold load64, store64. rewrite loadn_storen. by apply Z.mod_small. Qed.

Lemma load64_store64_ne m a b v :
  b + 8 ≤ a ∨ a + 8 ≤ b → load64 (store64 m a v) b = load64 m b.
Proof. intros H. apply loadn_storen_ne. lia. Qed.

Lemma load8_store64_ne m a x v : ¬ (a ≤ x < a + 8) → load8 (store64 m a v) x = load8 m x.
Proof. intros H. apply load8_storen. lia. Qed.

Lemma load64_ext m1 m2 a : mem_eq_on (λ x, a ≤ x < a + 8) m1 m2 → load64 m1 a = load64 m2 a.
Proof. apply (loadn_ext 8). Qed.

Lemma load32_range m a : 0 ≤ load32 m a < 2 ^ 32.
Proof. apply (loadn_range 4). Qed.

Lemma load32_store32 m a v : load32 (store32 m a v) a = u32 v.
Proof. apply (loadn_storen 4). Qed.

Lemma load32_store32_ne m a b v :
  b + 4 ≤ a ∨ a + 4 ≤ b → load32 (store32 m a v) b = load32 m b.
Proof. intros H. apply loadn_storen_ne. lia. Qed.

Lemma load32_ext m1 m2 a : mem_eq_on (λ x, a ≤ x < a + 4) m1 m2 → load32 m1 a = load32 m2 a.
Proof. apply (loadn_ext 4). Qed.

Lemma load16_range m a : 0 ≤ load16 m a < 2 ^ 16.
Proof. apply (loadn_range 2). Qed.

Lemma load16_store16 m a v : load16 (store16 m a v) a = u16 v.
Proof. apply (loadn_storen 2). Qed.

Lemma load16_ext m1 m2 a : mem_eq_on (λ x, a ≤ x < a + 2) m1 m2 → load16 m1 a = load16 m2 a.
Proof. apply (loadn_ext 2). Qed.

Lemma length_load_bytes n m a : length (load_bytes n m a) = n.
Proof. revert a. induction n as [|n IH]; intros a; simpl; [done|]. by rewrite IH. Qed.

Lemma lookup_load_bytes n m a (i : nat) :
  (i < n)%nat → load_bytes n m a !! i = Some (load8 m (a + Z.of_nat i)).
Proof.
  revert a i. induction n as [|n IH]; intros a i Hi; [lia|]. simpl.
  destruct i as [|i]; simpl; [by rewrite Z.add_0_r|].
  rewrite IH by lia. do 2 f_equal. lia.
Qed.

Lemma load_bytes_ext n m1 m2 a :
  mem_eq_on (λ x, a ≤ x < a + Z.of_nat n) m1 m2 → load_bytes n m1 a = load_bytes n m2 a.
Proof.
  revert a. induction n as [|n IH]; intros a H; simpl; [done|].
  rewrite (H a) by lia. f_equal. apply IH. intros x Hx. apply H. lia.
Qed.

Lemma load_bytes_app n k m a :
  load_bytes (n + k) m a = load_bytes n m a ++ load_bytes k m (a + Z.of_nat n).
Proof.
  revert a. induction n as [|n IH]; intros a; simpl.
  - f_equal. lia.
  - rewrite IH. do 3 f_equal. lia.
Qed.

Lemma load8_store_bytes m a l x :
  load8 (store_bytes m a l) x =
  match (if a <=? x then l !! Z.to_nat (x - a) else None) with
  | Some b => u8 b
  | None => load8 m x
  end.
Proof.
  revert m a. induction l as [|b l IH]; intros m a; cbn [store_bytes].
  - by destruct (a <=? x).
  - rewrite IH, load8_store8. destruct (Z.leb_spec (a + 1) x), (Z.leb_spec a x); try lia.
    + replace (Z.to_nat (x - a)) with (S (Z.to_nat (x - (a + 1)))) by lia. simpl.
      destruct (l !! _); [done|]. by destruct (Z.eqb_spec x a); [lia|].
    + replace x with a by lia. by rewrite Z.eqb_refl, Z.sub_diag.
    + by destruct (Z.eqb_spec x a); [lia|].
Qed.

Lemma load8_store_bytes_out m a l x :
  ¬ (a ≤ x < a + Z.of_nat (length l)) → load8 (store_bytes m a l) x = load8 m x.
Proof.
  intros Hx. rewrite load8_store_bytes. destruct (Z.leb_spec a x); [|done].
  by rewrite lookup_ge_None_2 by lia.
Qed.

Lemma load_bytes_store_bytes m a l :
  Forall (λ b, 0 ≤ b < 256) l → load_bytes (length l) (store_bytes m a l) a = l.
Proof.
  intros Hl. apply list_eq. intros i. destruct (decide (i < length l)%nat) as [Hi|Hi].
  - rewrite lookup_load_bytes by done. rewrite load8_store_bytes.
    destruct (Z.leb_spec a (a + Z.of_nat i)); [|lia].
    replace (Z.to_nat (a + Z.of_nat i - a)) with i by lia.
    destruct (lookup_lt_is_Some_2 l i Hi) as [b Hb]. rewrite Hb. f_equal. apply u8_small.
    by eapply Forall_lookup_1 in Hl.
  - rewrite !lookup_ge_None_2; [done|lia|]. rewrite length_load_bytes. lia.
Qed.

(** Inhabitant of [Image]: an image of 0x22000 bytes with 0x8000 of text. *)
#[export] Program Instance example_image : Image := {|
  img_end := KERNBASE + 0x22000;
  img_etext := KERNBASE + 0x8000;
  img_trampoline := KERNBASE + 0x7000
|}.
Solve All Obligations with (unfold KERNBASE, PHYSTOP, PGSIZE; vm_compute; intuition congruence).

#[global] Opaque load32 store32 load16 store16.
