(* ===== verification/CString.v ===== *)
(** * Memory and string routines: kernel/string.c

    Routines that write through a pointer act on [memory]; those that only read
    take their arrays as functions from an index to a byte, so that they apply
    to a memory ([bytes_at]) and to an array held in a list ([bytes_of]). *)

From S2P Require Import Prelude Machine.

(** An array that is only read: index to byte. *)
Definition array : Type := Z → Z.
Definition bytes_at (m : memory) (a : Z) : array := λ i, load8 m (a + i).
Definition bytes_of (l : list Z) : array := λ i, default 0 (l !! Z.to_nat i).
Definition shift (p : array) (k : Z) : array := λ i, p (k + i).

(** ** memset, memmove *)

Fixpoint memset_loop (n : nat) (m : memory) (cdst c i : Z) : memory :=
  match n with
  | O => m
  | S n' => memset_loop n' (store8 m (cdst + i) c) cdst c (i + 1)
  end.

Definition memset (m : memory) (dst c n : Z) : memory := memset_loop (Z.to_nat n) m dst c 0.

(** [while(n-- > 0)], copying upwards. *)
Fixpoint copy_forward (n : nat) (m : memory) (d s : Z) : memory :=
  match n with
  | O => m
  | S n' => copy_forward n' (store8 m d (load8 m s)) (d + 1) (s + 1)
  end.

(** [while(n-- > 0)], copying downwards from the ends. *)
Fixpoint copy_backward (n : nat) (m : memory) (d s : Z) : memory :=
  match n with
  | O => m
  | S n' => copy_backward n' (store8 m (d - 1) (load8 m (s - 1))) (d - 1) (s - 1)
  end.

Definition memmove (m : memory) (dst src n : Z) : memory :=
  if (src <? dst) && (src + n >? dst)
  then copy_backward (Z.to_nat n) m (dst + n) (src + n)
  else copy_forward (Z.to_nat n) m dst src.

Definition memcpy (m : memory) (dst src n : Z) : memory := memmove m dst src n.

(** ** memcmp, strncmp, strlen *)

Fixpoint memcmp_loop (n : nat) (s1 s2 : array) : Z :=
  match n with
  | O => 0
  | S n' => if s1 0 =? s2 0 then memcmp_loop n' (shift s1 1) (shift s2 1) else s1 0 - s2 0
  end.

Definition memcmp (v1 v2 : array) (n : Z) : Z := memcmp_loop (Z.to_nat n) v1 v2.

Fixpoint strncmp_loop (n : nat) (p q : array) : Z :=
  match n with
  | O => 0
  | S n' =>
      if nonzero (p 0) && (p 0 =? q 0) then strncmp_loop n' (shift p 1) (shift q 1)
      else p 0 - q 0
  end.

Definition strncmp (p q : array) (n : Z) : Z := strncmp_loop (Z.to_nat n) p q.

(** [strlen] reads until the first NUL; [fuel] bounds how far it looks. *)
Fixpoint strlen_loop (fuel : nat) (s : array) (n : Z) : option Z :=
  match fuel with
  | O => None
  | S fuel' => if s n =? 0 then Some n else strlen_loop fuel' s (n + 1)
  end.

Definition strlen (fuel : nat) (s : array) : option Z := strlen_loop fuel s 0.

(** ** strncpy, safestrcpy *)

(** The second loop of [strncpy]: zero the rest. *)
Fixpoint zero_fill (n : nat) (m : memory) (s : Z) : memory :=
  match n with
  | O => m
  | S n' => zero_fill n' (store8 m s 0) (s + 1)
  end.

(** The first loop of [strncpy], then the second one on what is left of [n]. *)
Fixpoint strncpy_loop (n : nat) (m : memory) (s t : Z) : memory :=
  match n with
  | O => m
  | S n' =>
      let c := load8 m t in
      let m' := store8 m s c in
      if nonzero c then strncpy_loop n' m' (s + 1) (t + 1) else zero_fill n' m' (s + 1)
  end.

Definition strncpy (m : memory) (s t n : Z) : memory := strncpy_loop (Z.to_nat n) m s t.

(** The loop of [safestrcpy] with [k] = n - 1 copies left, and its final store of
    a NUL.  After a copied NUL the pointer [s] is one past it. *)
Fixpoint safestrcpy_loop (k : nat) (m : memory) (s t : Z) : memory :=
  match k with
  | O => store8 m s 0
  | S k' =>
      let c := load8 m t in
      let m' := store8 m s c in
      if nonzero c then safestrcpy_loop k' m' (s + 1) (t + 1) else store8 m' (s + 1) 0
  end.

Definition safestrcpy (m : memory) (s t n : Z) : memory :=
  if n <=? 0 then m else safestrcpy_loop (Z.to_nat (n - 1)) m s t.

(** The bytes that [strncpy] stores when source and destination are disjoint. *)
Fixpoint strncpy_bytes (n : nat) (t : array) : list Z :=
  match n with
  | O => []
  | S n' =>
      if nonzero (t 0) then t 0 :: strncpy_bytes n' (shift t 1) else 0 :: replicate n' 0
  end.

(** * Lemmas *)

Lemma load8_memset_loop n m d c i x :
  load8 (memset_loop n m d c i) x =
    if (d + i <=? x) && (x <? d + i + Z.of_nat n) then u8 c else load8 m x.
Proof.
  revert m i. induction n as [|n IH]; intros m i; simpl memset_loop.
  { repeat case_match; try done; lia. }
  rewrite IH, load8_store8.
  destruct (Z.eqb_spec x (d + i)); repeat case_match; try done; lia.
Qed.

Lemma load8_memset m d c n x :
  0 ≤ n →
  load8 (memset m d c n) x = if (d <=? x) && (x <? d + n) then u8 c else load8 m x.
Proof.
  intros Hn. unfold memset. rewrite load8_memset_loop, Z.add_0_r, Z2Nat.id by done. done.
Qed.

Lemma load8_memset_in m d c n x : d ≤ x < d + n → load8 (memset m d c n) x = u8 c.
Proof.
  intros H. rewrite load8_memset by lia. repeat case_match; try done; lia.
Qed.

Lemma load8_memset_out m d c n x : 0 ≤ n → ¬ (d ≤ x < d + n) → load8 (memset m d c n) x = load8 m x.
Proof.
  intros Hn H. rewrite load8_memset by lia. repeat case_match; try done; lia.
Qed.

Lemma load64_memset0 m d n a : d ≤ a → a + 8 ≤ d + n → load64 (memset m d 0 n) a = 0.
Proof.
  intros H1 H2. unfold load64.
  assert (∀ k a, d ≤ a → a + Z.of_nat k ≤ d + n → loadn k (memset m d 0 n) a = 0) as G.
  { clear a H1 H2. induction k as [|k IH]; intros a H1 H2; simpl; [done|].
    rewrite load8_memset_in by lia. rewrite IH by lia. done. }
  apply G; lia.
Qed.

Lemma load8_copy_forward n m d s x :
  d ≤ s ∨ s + Z.of_nat n ≤ d →
  load8 (copy_forward n m d s) x =
    if (d <=? x) && (x <? d + Z.of_nat n) then load8 m (s + (x - d)) else load8 m x.
Proof.
  revert m d s. induction n as [|n IH]; intros m d s Hd; simpl copy_forward.
  { repeat case_match; try done; lia. }
  rewrite IH by lia. rewrite !load8_store8.
  rewrite (u8_small (load8 m s)) by apply load8_range.
  destruct (Z.eqb_spec x d) as [->|].
  - replace (s + (d - d)) with s by lia. repeat case_match; try done; lia.
  - repeat case_match; try lia; f_equal; lia.
Qed.

Lemma load8_copy_backward n m d s x :
  s ≤ d →
  load8 (copy_backward n m d s) x =
    if (d - Z.of_nat n <=? x) && (x <? d) then load8 m (s - d + x) else load8 m x.
Proof.
  revert m d s. induction n as [|n IH]; intros m d s Hd; simpl copy_backward.
  { repeat case_match; try done; lia. }
  rewrite IH by lia. rewrite !load8_store8.
  rewrite (u8_small (load8 m (s - 1))) by apply load8_range.
  destruct (Z.eqb_spec x (d - 1)) as [->|].
  - replace (s - d + (d - 1)) with (s - 1) by lia. repeat case_match; try done; lia.
  - repeat case_match; try lia; f_equal; lia.
Qed.

(** Shared form of the correctness of [memmove], for overlapping regions too. *)
Lemma load8_memmove m d s n x :
  0 ≤ n →
  load8 (memmove m d s n) x =
    if (d <=? x) && (x <? d + n) then load8 m (s + (x - d)) else load8 m x.
Proof.
  intros Hn. unfold memmove. case_match.
  - rewrite load8_copy_backward, Z2Nat.id by lia.
    replace (d + n - n) with d by lia. replace (s + n - (d + n) + x) with (s + (x - d)) by lia.
    done.
  - rewrite load8_copy_forward, Z2Nat.id by lia. done.
Qed.

Lemma load8_memmove_out m d s n x :
  0 ≤ n → ¬ (d ≤ x < d + n) → load8 (memmove m d s n) x = load8 m x.
Proof. intros Hn H. rewrite load8_memmove by lia. repeat case_match; try done; lia. Qed.

Lemma load_bytes_memmove m d s n :
  0 ≤ n → load_bytes (Z.to_nat n) (memmove m d s n) d = load_bytes (Z.to_nat n) m s.
Proof.
  intros Hn. apply list_eq. intros i.
  destruct (decide (i < Z.to_nat n)%nat) as [Hi|Hi].
  - rewrite !lookup_load_bytes by done. rewrite load8_memmove by done.
    repeat case_match; try lia. do 2 f_equal. lia.
  - rewrite !lookup_ge_None_2 by (rewrite length_load_bytes; lia). done.
Qed.

Lemma zero_fill_memset n m s x : load8 (zero_fill n m s) x = load8 (memset_loop n m s 0 0) x.
Proof.
  rewrite load8_memset_loop. revert m s. induction n as [|n IH]; intros m s; simpl zero_fill.
  { repeat case_match; try done; lia. }
  rewrite IH, load8_store8. destruct (Z.eqb_spec x s); repeat case_match; try done; lia.
Qed.

Lemma length_strncpy_bytes n t : length (strncpy_bytes n t) = n.
Proof.
  revert t. induction n as [|n IH]; intros t; simpl; [done|].
  destruct (nonzero (t 0)); simpl; [by rewrite IH|by rewrite length_replicate].
Qed.

Lemma strncpy_bytes_ext n t1 t2 :
  (∀ i, 0 ≤ i < Z.of_nat n → t1 i = t2 i) → strncpy_bytes n t1 = strncpy_bytes n t2.
Proof.
  revert t1 t2. induction n as [|n IH]; intros t1 t2 H; simpl; [done|].
  rewrite (H 0) by lia. case_match; [|done]. f_equal. apply IH.
  intros i Hi. unfold shift. apply H. lia.
Qed.

Lemma load_bytes_memset0 n m s : load_bytes n (memset_loop n m s 0 0) s = replicate n 0.
Proof.
  apply list_eq. intros i. destruct (decide (i < n)%nat).
  - rewrite lookup_load_bytes, lookup_replicate_2, load8_memset_loop by done.
    repeat case_match; try done; lia.
  - rewrite !lookup_ge_None_2; rewrite ?length_load_bytes, ?length_replicate; try done; lia.
Qed.

Lemma load8_strncpy_loop_out n m s t x :
  ¬ (s ≤ x < s + Z.of_nat n) → load8 (strncpy_loop n m s t) x = load8 m x.
Proof.
  revert m s t. induction n as [|n IH]; intros m s t Hx; simpl; [done|]. case_match.
  - rewrite IH by lia. rewrite load8_store8. destruct (Z.eqb_spec x s); [lia|done].
  - rewrite zero_fill_memset, load8_memset_loop, load8_store8.
    destruct (Z.eqb_spec x s); repeat case_match; try done; lia.
Qed.

(** [strncpy] between disjoint regions stores [strncpy_bytes] of the source. *)
Lemma strncpy_loop_bytes n m s t :
  s + Z.of_nat n ≤ t ∨ t + Z.of_nat n ≤ s →
  load_bytes n (strncpy_loop n m s t) s = strncpy_bytes n (bytes_at m t).
Proof.
  revert m s t. induction n as [|n IH]; intros m s t Hd; simpl; [done|].
  unfold bytes_at at 1 2. rewrite Z.add_0_r.
  destruct (nonzero (load8 m t)) eqn:Ec.
  - f_equal.
    + rewrite load8_strncpy_loop_out by lia. rewrite load8_store8, Z.eqb_refl.
      apply u8_small, load8_range.
    + rewrite IH by lia. apply strncpy_bytes_ext. intros i Hi.
      unfold bytes_at, shift. rewrite load8_store8.
      destruct (Z.eqb_spec (t + 1 + i) s); [lia|]. f_equal. lia.
  - apply nonzero_false in Ec. f_equal.
    + rewrite zero_fill_memset, load8_memset_loop, load8_store8, Z.eqb_refl, Ec.
      repeat case_match; try done; lia.
    + rewrite <-(load_bytes_memset0 n (store8 m s (load8 m t)) (s + 1)).
      apply load_bytes_ext. intros x Hx. apply zero_fill_memset.
Qed.

Lemma strncmp_loop_0 n p q :
  (∀ i, 0 ≤ p i < 256 ∧ 0 ≤ q i < 256) →
  strncmp_loop n p q = 0 ↔
  (∀ i, 0 ≤ i < Z.of_nat n → (∀ j, 0 ≤ j < i → p j ≠ 0) → p i = q i).
Proof.
  revert p q. induction n as [|n IH]; intros p q Hb; simpl strncmp_loop.
  { split; [intros _ i Hi; lia|done]. }
  destruct (nonzero (p 0)) eqn:Ep; simpl.
  - apply nonzero_true in Ep. destruct (Z.eqb_spec (p 0) (q 0)) as [Eq|Eq].
    + rewrite IH by (intros i; unfold shift; auto). unfold shift. split.
      * intros H i Hi Hp. destruct (decide (i = 0)) as [->|]; [done|].
        replace i with (1 + (i - 1)) by lia. apply H; [lia|].
        intros j Hj. apply Hp. lia.
      * intros H i Hi Hp. apply H; [lia|]. intros j Hj.
        destruct (decide (j = 0)) as [->|]; [done|].
        replace j with (1 + (j - 1)) by lia. apply Hp. lia.
    + split; [lia|]. intros H. destruct Eq. apply H; lia.
  - apply nonzero_false in Ep. rewrite Ep. split.
    + intros H i Hi Hp. destruct (decide (i = 0)) as [->|]; [lia|].
      exfalso. apply (Hp 0); [lia|done].
    + intros H. specialize (H 0). rewrite Ep in H. rewrite <-H; lia.
Qed.

Lemma strlen_loop_spec fuel s n k :
  n ≤ k < n + Z.of_nat fuel → (∀ i, n ≤ i < k → s i ≠ 0) → s k = 0 →
  strlen_loop fuel s n = Some k.
Proof.
  revert n. induction fuel as [|fuel IH]; intros n Hk Hs Hz; [lia|]. simpl.
  destruct (Z.eqb_spec (s n) 0) as [E|E].
  - destruct (decide (n = k)) as [->|]; [done|]. exfalso. apply (Hs n); [lia|done].
  - apply IH; [|intros; apply Hs; lia|done]. destruct (decide (n = k)) as [->|]; [done|lia].
Qed.

(** * Properties *)

(** [memmove] copies correctly whether or not the regions overlap: after
    [memmove(dst, src, n)] the byte at [dst + i] is the one that was at
    [src + i] before the call, for every [i < n], and every byte outside the
    destination is unchanged. *)
Theorem memmove_correct m dst src n :
  0 ≤ n →
  load_bytes (Z.to_nat n) (memmove m dst src n) dst = load_bytes (Z.to_nat n) m src ∧
  (∀ x, ¬ (dst ≤ x < dst + n) → load8 (memmove m dst src n) x = load8 m x).
Proof.
  intros Hn. split; [by apply load_bytes_memmove|].
  intros x Hx. by apply load8_memmove_out.
Qed.

(** Overlapping regions, in both directions. *)
Lemma memmove_correct_witness :
  load_bytes 4 (memmove (λ a, a) 12 10 4) 12 = [10; 11; 12; 13] ∧
  load_bytes 4 (memmove (λ a, a) 10 12 4) 10 = [12; 13; 14; 15].
Proof.
  split.
  - apply (memmove_correct (λ a, a) 12 10 4). lia.
  - apply (memmove_correct (λ a, a) 10 12 4). lia.
Defined.

Lemma load8_safestrcpy_loop_out k m s t x :
  ¬ (s ≤ x ≤ s + Z.of_nat k) → load8 (safestrcpy_loop k m s t) x = load8 m x.
Proof.
  revert m s t. induction k as [|k IH]; intros m s t Hx; simpl.
  { rewrite load8_store8. destruct (Z.eqb_spec x s); [lia|done]. }
  case_match; [rewrite IH by lia|]; rewrite !load8_store8;
    repeat case_match; try done; lia.
Qed.

Lemma safestrcpy_loop_spec k m s t len :
  s + Z.of_nat k < t ∨ t + Z.of_nat k < s →
  0 ≤ len ≤ Z.of_nat k → (∀ i, 0 ≤ i < len → load8 m (t + i) ≠ 0) →
  len = Z.of_nat k ∨ load8 m (t + len) = 0 →
  let m' := safestrcpy_loop k m s t in
  (∀ i, 0 ≤ i < len → load8 m' (s + i) = load8 m (t + i)) ∧ load8 m' (s + len) = 0.
Proof.
  revert m s t len. induction k as [|k IH]; intros m s t len Hd Hl Hs Hz; cbn [safestrcpy_loop].
  { assert (len = 0) as -> by lia. rewrite Z.add_0_r, load8_store8, Z.eqb_refl.
    split; [lia|done]. }
  destruct (nonzero (load8 m t)) eqn:Ec.
  - apply nonzero_true in Ec.
    assert (len ≠ 0) by (intros ->; rewrite Z.add_0_r in Hz; destruct Hz; [lia|done]).
    assert (∀ i, 0 ≤ i ≤ Z.of_nat k →
      load8 (store8 m s (load8 m t)) (t + 1 + i) = load8 m (t + (i + 1))) as Ht.
    { intros i Hi. rewrite load8_store8. destruct (Z.eqb_spec (t + 1 + i) s); [lia|].
      f_equal. lia. }
    destruct (IH (store8 m s (load8 m t)) (s + 1) (t + 1) (len - 1)) as [IH1 IH2].
    { lia. } { lia. } { intros i Hi. rewrite Ht by lia. apply Hs. lia. }
    { destruct Hz as [Hz|Hz]; [left; lia|right]. rewrite Ht by lia. rewrite <-Hz. f_equal. lia. }
    split.
    + intros i Hi. destruct (decide (i = 0)) as [->|].
      * rewrite !Z.add_0_r, load8_safestrcpy_loop_out, load8_store8, Z.eqb_refl by lia.
        apply u8_small, load8_range.
      * replace (s + i) with (s + 1 + (i - 1)) by lia. rewrite IH1 by lia.
        rewrite Ht by lia. f_equal. lia.
    + replace (s + len) with (s + 1 + (len - 1)) by lia. done.
  - apply nonzero_false in Ec.
    assert (len = 0) as ->.
    { destruct (decide (len = 0)); [done|]. exfalso. apply (Hs 0); [lia|]. by rewrite Z.add_0_r. }
    split; [lia|]. rewrite Z.add_0_r, !load8_store8, Z.eqb_refl, Ec.
    destruct (Z.eqb_spec s (s + 1)); [lia|done].
Qed.

(** [safestrcpy(s, t, n)] with [n > 0], on disjoint regions, copies the
    first [len] bytes of the string [t], where [len] is its length or [n - 1]
    if the string is longer, NUL-terminates the copy inside the [n] bytes of
    the destination, and writes nothing else. *)
Theorem safestrcpy_correct m s t n len :
  0 < n → s + n ≤ t ∨ t + n ≤ s →
  0 ≤ len ≤ n - 1 → (∀ i, 0 ≤ i < len → load8 m (t + i) ≠ 0) →
  len = n - 1 ∨ load8 m (t + len) = 0 →
  let m' := safestrcpy m s t n in
  (∀ i, 0 ≤ i < len → load8 m' (s + i) = load8 m (t + i)) ∧
  load8 m' (s + len) = 0 ∧
  (∀ x, ¬ (s ≤ x < s + n) → load8 m' x = load8 m x).
Proof.
  intros Hn Hd Hl Hs Hz m'. unfold m', safestrcpy.
  destruct (Z.leb_spec n 0); [lia|].
  destruct (safestrcpy_loop_spec (Z.to_nat (n - 1)) m s t len) as [H1 H2];
    [lia|lia|done|destruct Hz; [left; lia|by right]|].
  split_and!; [done|done|]. intros x Hx. apply load8_safestrcpy_loop_out. lia.
Qed.

(** The string "aa" (at 100) copied into a 2-byte and into an 8-byte buffer. *)
Lemma safestrcpy_correct_witness :
  load_bytes 2 (safestrcpy (λ a, if a =? 102 then 0 else 97) 0 100 2) 0 = [97; 0] ∧
  (let m' := safestrcpy (λ a, if a =? 102 then 0 else 97) 0 100 8 in
   load8 m' 2 = 0 ∧ load8 m' 8 = 97).
Proof.
  split; [reflexivity|].
  destruct (safestrcpy_correct (λ a, if a =? 102 then 0 else 97) 0 100 8 2)
    as (H1 & H2 & H3); [lia|lia|lia| |right; reflexivity|].
  - intros i Hi. unfold load8. destruct (Z.eqb_spec (100 + i) 102); [lia|discriminate].
  - split; [exact H2|]. apply (H3 8). lia.
Defined.

(** Proofs use the lemmas above, not the loops. *)
#[global] Opaque memset memmove load64 store64.
