(* ===== verification/Kalloc.v ===== *)
(** * Physical page allocator: kernel/kalloc.c

    The free pages form a linked list threaded through the pages themselves:
    the first eight bytes of a free page hold the address of the next one. The
    abstract state of the allocator is the list of its free pages; the
    theorems show that [kfree] pushes and [kalloc] pops.  The critical sections
    guarded by [kmem.lock] are atomic here (Spinlock.v models the lock). *)

From S2P Require Import Prelude Machine CString.

(** The part of the kernel state the memory code works on: physical memory and
    [kmem.freelist] (a null pointer is 0). *)
Record machine := Machine { mem : memory; freelist : Z }.

Definition set_mem (m : memory) (s : machine) : machine := Machine m (freelist s).
Definition set_freelist (p : Z) (s : machine) : machine := Machine (mem s) p.

(** Memory accesses as statements. *)
Definition do_mem (f : memory → memory) : M machine unit := modify (λ s, set_mem (f (mem s)) s).
Definition read64 (a : Z) : M machine Z := gets (λ s, load64 (mem s) a).
Definition write64 (a v : Z) : M machine unit := do_mem (λ m, store64 m a v).

Section Kalloc.
Context `{Image}.

Definition kfree (pa : Z) : M machine unit :=
  if nonzero (pa `mod` PGSIZE) || (pa <? img_end) || (pa >=? PHYSTOP)
  then panic "kfree"
  else
    do_mem (λ m, memset m pa 1 PGSIZE) ;;
    head ← gets freelist;
    write64 pa head ;;
    modify (set_freelist pa).

Definition kalloc : M machine Z :=
  r ← gets freelist;
  (if nonzero r then
     next ← read64 r;
     modify (set_freelist next)
   else mret tt) ;;
  (if nonzero r then do_mem (λ m, memset m r 5 PGSIZE) else mret tt) ;;
  mret r.

(** [for(; p + PGSIZE <= pa_end; p += PGSIZE) kfree(p);] with a bound on the
    number of iterations. *)
Fixpoint freerange_loop (fuel : nat) (p pa_end : Z) : M machine unit :=
  match fuel with
  | O => out_of_fuel
  | S fuel' =>
      if p + PGSIZE <=? pa_end then kfree p ;; freerange_loop fuel' (p + PGSIZE) pa_end
      else mret tt
  end.

Definition freerange (pa_start pa_end : Z) : M machine unit :=
  freerange_loop (Z.to_nat ((pa_end - pa_start) / PGSIZE + 2)) (PGROUNDUP pa_start) pa_end.

Definition kinit : M machine unit := freerange img_end PHYSTOP.

(** ** Abstraction *)

(** A page the allocator manages. *)
Definition page_ok (pa : Z) : Prop := pa `mod` PGSIZE = 0 ∧ img_end ≤ pa ∧ pa + PGSIZE ≤ PHYSTOP.

(** Address [x] lies in the page at [pa]. *)
Definition in_page (pa x : Z) : Prop := pa ≤ x < pa + PGSIZE.

(** The list of pages reached from pointer [p] in memory [m] is [l]. *)
Fixpoint linked (m : memory) (p : Z) (l : list Z) : Prop :=
  match l with
  | [] => p = 0
  | q :: l' => p = q ∧ linked m (load64 m q) l'
  end.

Record kmem_inv (s : machine) (l : list Z) : Prop := {
  kmem_linked : linked (mem s) (freelist s) l;
  kmem_pages : Forall page_ok l;
  kmem_nodup : NoDup l
}.

(** The [n] pages from address [p] on. *)
Fixpoint pages_from (p : Z) (n : nat) : list Z :=
  match n with
  | O => []
  | S n' => p :: pages_from (p + PGSIZE) n'
  end.

(** ** Clients

    A client of the allocator holds a set [A] of pages.  It may allocate, free
    a page it holds, and write to the pages it holds; the steps below are the
    interleavings of any number of such clients. *)
Inductive client_step : machine * gset Z → machine * gset Z → Prop :=
| client_alloc s s' A p :
    kalloc s = Ret p s' → p ≠ 0 → client_step (s, A) (s', {[p]} ∪ A)
| client_alloc_fail s s' A :
    kalloc s = Ret 0 s' → client_step (s, A) (s', A)
| client_free s s' A p :
    p ∈ A → kfree p s = Ret tt s' → client_step (s, A) (s', A ∖ {[p]})
| client_write s A p x v :
    p ∈ A → in_page p x → client_step (s, A) (set_mem (store8 (mem s) x v) s, A).

(** What the allocator promises its clients: the pages held and the free pages
    partition the pages the allocator manages. *)
Definition partition_inv (st : machine * gset Z) : Prop :=
  ∃ l, kmem_inv st.1 l ∧
    (∀ p, p ∈ l → p ∉ st.2) ∧ (∀ p, page_ok p ↔ p ∈ l ∨ p ∈ st.2).

(** * Lemmas *)

Lemma page_ok_nonzero pa : page_ok pa → pa ≠ 0.
Proof. intros (?&?&?). pose proof img_end_ok. unfold KERNBASE in *. lia. Qed.

Lemma page_ok_pa_ok pa : page_ok pa → pa_ok pa.
Proof.
  intros (?&?&?). pose proof img_end_ok. split; [done|].
  unfold PHYSTOP, KERNBASE, PGSIZE in *. lia.
Qed.

Lemma pages_disjoint p q x y :
  p `mod` PGSIZE = 0 → q `mod` PGSIZE = 0 → p ≠ q → in_page p x → in_page q y → x ≠ y.
Proof.
  unfold in_page, PGSIZE. intros Hp Hq Hne Hx Hy Hxy. subst y. apply Hne.
  assert (p = p / 4096 * 4096 ∧ q = q / 4096 * 4096) as [? ?] by dlia. dlia.
Qed.

(** Memories that agree on the pages of a list link it the same way. *)
Lemma linked_ext m1 m2 p l :
  (∀ q, q ∈ l → mem_eq_on (in_page q) m1 m2) → linked m1 p l → linked m2 p l.
Proof.
  revert p. induction l as [|q l IH]; intros p Hm; simpl; [done|]. intros [-> Hl].
  split; [done|]. apply IH; [set_solver|].
  rewrite <-(load64_ext m1 m2); [done|].
  intros x Hx. apply (Hm q); [set_solver|]. unfold in_page, PGSIZE. lia.
Qed.

Lemma kmem_inv_ext s m' l :
  kmem_inv s l → (∀ q, q ∈ l → mem_eq_on (in_page q) (mem s) m') → kmem_inv (set_mem m' s) l.
Proof. intros [??] Hm. split; try done. by eapply linked_ext. Qed.

Lemma elem_page_ok l p : Forall page_ok l → p ∈ l → page_ok p.
Proof. intros Hl Hp. rewrite Forall_forall in Hl. auto. Qed.

(** [kfree] pushes the page. *)
Lemma wp_kfree s l pa (Q : unit → machine → Prop) :
  kmem_inv s l → page_ok pa → pa ∉ l →
  (∀ s', kmem_inv s' (pa :: l) → mem_eq_on (λ x, ¬ in_page pa x) (mem s) (mem s') → Q tt s') →
  wp (kfree pa) Q s.
Proof.
  intros Hinv Hpa Hnin HQ. unfold kfree.
  pose proof Hpa as (Hal & Hlo & Hhi).
  replace (_ || _) with false; cycle 1.
  { rewrite Hal. unfold PGSIZE in *. simpl. symmetry.
    apply orb_false_iff. split; lia. }
  wp_run. unfold do_mem. wp_run. unfold write64, do_mem. wp_run. apply HQ.
  - destruct Hinv as [Hl Hp Hd]. split; simpl; [|by constructor|by constructor].
    split; [done|]. rewrite load64_store64.
    + eapply linked_ext, Hl. intros q Hq x Hx.
      assert (¬ in_page pa x) as Hx'.
      { intros Hx'. apply (pages_disjoint pa q x x); try done.
        - by apply (elem_page_ok l).
        - set_solver. }
      unfold in_page in Hx'. rewrite load8_store64_ne by (unfold PGSIZE in *; lia).
      rewrite load8_memset_out; [done|unfold PGSIZE; lia|done].
    + destruct l as [|q l]; simpl in Hl.
      * rewrite Hl. lia.
      * destruct Hl as [-> _]. apply Forall_cons in Hp as [Hq _].
        apply page_ok_pa_ok in Hq as [_ ?]. lia.
  - intros x Hx. simpl. unfold in_page in Hx. rewrite load8_store64_ne by (unfold PGSIZE in *; lia).
    rewrite load8_memset_out; [done|unfold PGSIZE; lia|done].
Qed.

(** [kalloc] pops a page, whose bytes it sets to 5. *)
Lemma wp_kalloc_cons s p l (Q : Z → machine → Prop) :
  kmem_inv s (p :: l) →
  (∀ s', kmem_inv s' l → mem_eq_on (λ x, ¬ in_page p x) (mem s) (mem s') →
     (∀ x, in_page p x → load8 (mem s') x = 5) → Q p s') →
  wp kalloc Q s.
Proof.
  intros [[Hf Hl] Hp Hd] HQ. unfold kalloc. wp_run. rewrite Hf.
  apply Forall_cons in Hp as [Hpp Hp]. apply NoDup_cons in Hd as [Hnin Hd].
  rewrite (proj2 (nonzero_true p)) by (by apply page_ok_nonzero).
  unfold read64, do_mem. wp_run. simpl. apply HQ.
  - split; simpl; [|done|done]. eapply linked_ext, Hl. intros q Hq x Hx.
    rewrite load8_memset_out; [done|unfold PGSIZE; lia|]. intros Hx'.
    apply (pages_disjoint p q x x); try done.
    + apply Hpp.
    + by apply (elem_page_ok l).
    + set_solver.
  - intros x Hx. simpl. rewrite load8_memset_out; [done|unfold PGSIZE; lia|done].
  - intros x Hx. simpl. rewrite load8_memset_in by done. done.
Qed.

Lemma kalloc_nil s : kmem_inv s [] → kalloc s = Ret 0 s.
Proof. intros [Hf _ _]. simpl in Hf. destruct s as [m f]. simpl in Hf. by subst f. Qed.

Lemma wp_kalloc s l (Q : Z → machine → Prop) :
  kmem_inv s l →
  (l = [] → Q 0 s) →
  (∀ p l' s', l = p :: l' → page_ok p → kmem_inv s' l' →
     mem_eq_on (λ x, ¬ in_page p x) (mem s) (mem s') →
     (∀ x, in_page p x → load8 (mem s') x = 5) → Q p s') →
  wp kalloc Q s.
Proof.
  intros Hinv HQ0 HQ1. destruct l as [|p l].
  - eapply wp_of_eq; [by apply kalloc_nil|auto].
  - eapply wp_kalloc_cons; [done|]. intros s' ???. eapply HQ1; eauto.
    destruct Hinv as [_ Hp _]. by apply Forall_cons in Hp as [? _].
Qed.

Lemma elem_pages_from p n q :
  q ∈ pages_from p n ↔ ∃ i, 0 ≤ i < Z.of_nat n ∧ q = p + i * PGSIZE.
Proof.
  revert p. induction n as [|n IH]; intros p; simpl.
  { split; [set_solver|]. intros (i & ? & ?). lia. }
  rewrite elem_of_cons, IH. unfold PGSIZE. split.
  - intros [->|(i & Hi & ->)]; [exists 0; lia|exists (i + 1); lia].
  - intros (i & Hi & ->). destruct (decide (i = 0)) as [->|]; [left; lia|].
    right. exists (i - 1). lia.
Qed.

(** The loop of [freerange], given enough fuel, frees every whole page of the
    range. *)
Lemma wp_freerange_loop n fuel p hi s l (Q : unit → machine → Prop) :
  kmem_inv s l → p `mod` PGSIZE = 0 → img_end ≤ p → hi ≤ PHYSTOP →
  (∀ q, q ∈ l → q < p) →
  p + Z.of_nat n * PGSIZE ≤ hi < p + (Z.of_nat n + 1) * PGSIZE → (n < fuel)%nat →
  (∀ s', kmem_inv s' (reverse (pages_from p n) ++ l) → Q tt s') →
  wp (freerange_loop fuel p hi) Q s.
Proof.
  revert fuel p s l Q. induction n as [|n IH];
    intros [|fuel] p s l Q Hinv Hal Hlo Hhi Hlt Hn Hf HQ; try lia; simpl.
  - destruct (Z.leb_spec (p + PGSIZE) hi); [lia|]. apply wp_ret, HQ. done.
  - destruct (Z.leb_spec (p + PGSIZE) hi); [|unfold PGSIZE in *; lia]. wp_step.
    eapply wp_kfree; [done|split; [done|unfold PGSIZE in *; lia]| |].
    { intros Hp. specialize (Hlt p Hp). lia. }
    intros s' Hinv' _. eapply IH; [done| |unfold PGSIZE in *; lia|done| | |lia|].
    + unfold PGSIZE in *. rewrite <-Z.add_mod_idemp_l, Hal by lia. done.
    + intros q Hq. apply elem_of_cons in Hq as [->|Hq]; [|specialize (Hlt q Hq)]; unfold PGSIZE; lia.
    + unfold PGSIZE in *. lia.
    + intros s'' Hinv''. apply HQ. cbn [pages_from]. by rewrite reverse_cons, <-app_assoc.
Qed.

Lemma wp_kinit s (Q : unit → machine → Prop) :
  freelist s = 0 →
  (∀ s' l, kmem_inv s' l → (∀ p, p ∈ l ↔ page_ok p) → Q tt s') →
  wp kinit Q s.
Proof.
  intros Hf HQ. unfold kinit, freerange.
  pose proof img_end_ok. pose proof (PGROUNDUP_aligned img_end) as Hal.
  assert (img_end ≤ PGROUNDUP img_end < img_end + PGSIZE).
  { apply PGROUNDUP_ge. unfold PHYSTOP, KERNBASE, PGSIZE in *. lia. }
  set (p := PGROUNDUP img_end) in *.
  assert (PHYSTOP `mod` PGSIZE = 0) as HPS by done.
  assert (p ≤ PHYSTOP) as Hp by (unfold PGSIZE in *; dlia).
  eapply (wp_freerange_loop (Z.to_nat ((PHYSTOP - p) / PGSIZE)) _ p _ _ []); try done.
  - split; [done|constructor|constructor].
  - lia.
  - set_solver.
  - unfold PGSIZE in *. rewrite Z2Nat.id by dlia. dlia.
  - unfold PGSIZE in *. apply Nat2Z.inj_lt. rewrite !Z2Nat.id by dlia. dlia.
  - intros s' Hinv. eapply HQ; [done|]. intros q.
    rewrite app_nil_r, elem_of_reverse, elem_pages_from.
    unfold page_ok, PGSIZE in *. rewrite Z2Nat.id by dlia. split.
    + intros (i & Hi & ->). split; [|dlia].
      rewrite Z.mod_add by lia. done.
    + intros (Hq & Hq1 & Hq2). exists ((q - p) / 4096). dlia.
Qed.

(** * Properties *)

(** [kalloc] refines popping from the list of free pages. With no free page
    it returns 0 and changes nothing; otherwise it returns the first free page,
    removes exactly that page from the list, fills the page with junk and
    leaves every byte outside it as it was. *)
Theorem kalloc_pops_free_list s l :
  kmem_inv s l →
  match l with
  | [] => kalloc s = Ret 0 s
  | p :: l' => ∃ s', kalloc s = Ret p s' ∧ p ≠ 0 ∧ page_ok p ∧ kmem_inv s' l' ∧
      mem_eq_on (λ x, ¬ in_page p x) (mem s) (mem s') ∧
      (∀ x, in_page p x → load8 (mem s') x = 5)
  end.
Proof.
  intros Hinv. destruct l as [|p l]; [by apply kalloc_nil|].
  assert (page_ok p) by (destruct Hinv as [_ Hp _]; by apply Forall_cons in Hp as [? _]).
  assert (wp kalloc (λ r s', r = p ∧ kmem_inv s' l ∧
      mem_eq_on (λ x, ¬ in_page p x) (mem s) (mem s') ∧
      (∀ x, in_page p x → load8 (mem s') x = 5)) s) as Hwp.
  { eapply wp_kalloc_cons; [done|]. auto. }
  apply wp_inv in Hwp as (r & s' & E & -> & ?). exists s'.
  split_and!; try naive_solver. by apply page_ok_nonzero.
Qed.

(** [kfree] checks its argument: it panics exactly on addresses that are
    not the address of a page the allocator manages, and otherwise refines
    pushing the page on the list of free pages, leaving every byte outside the
    page as it was. *)
Theorem kfree_pushes_or_panics s l pa :
  kmem_inv s l → pa ∉ l →
  (page_ok pa → ∃ s', kfree pa s = Ret tt s' ∧ kmem_inv s' (pa :: l) ∧
     mem_eq_on (λ x, ¬ in_page pa x) (mem s) (mem s')) ∧
  (¬ page_ok pa → kfree pa s = Panic "kfree").
Proof.
  intros Hinv Hnin. split.
  - intros Hpa.
    assert (wp (kfree pa) (λ _ s', kmem_inv s' (pa :: l) ∧
      mem_eq_on (λ x, ¬ in_page pa x) (mem s) (mem s')) s) as Hwp.
    { eapply wp_kfree; eauto. }
    apply wp_inv in Hwp as ([] & s' & E & ?). eauto.
  - intros Hpa. unfold kfree. replace (_ || _) with true; [done|]. symmetry.
    apply Bool.not_false_iff_true. intros Hf. apply Hpa.
    apply orb_false_iff in Hf as [[Hm ?]%orb_false_iff ?].
    apply nonzero_false in Hm.
    assert (PHYSTOP `mod` PGSIZE = 0) by done.
    split; [done|]. unfold PGSIZE in *. dlia.
Qed.

(** [kinit], started with the empty free list of the zeroed kernel data
    segment, terminates without panicking and makes every page between [end]
    and [PHYSTOP] free, once. *)
Theorem kinit_frees_all_pages s :
  freelist s = 0 →
  ∃ s' l, kinit s = Ret tt s' ∧ kmem_inv s' l ∧ (∀ p, p ∈ l ↔ page_ok p).
Proof.
  intros Hf.
  assert (wp kinit (λ _ s', ∃ l, kmem_inv s' l ∧ (∀ p, p ∈ l ↔ page_ok p)) s) as Hwp.
  { eapply wp_kinit; [done|]. eauto. }
  apply wp_inv in Hwp as ([] & s' & E & l & ?). eauto.
Qed.

Lemma client_step_partition st st' :
  client_step st st' → partition_inv st → partition_inv st'.
Proof.
  intros Hstep (l & Hinv & Hd & Hall).
  destruct Hstep as [s s' A p E Hp|s s' A E|s s' A p Hp E|s A p x v Hp Hx]; simpl in *.
  - assert (wp kalloc (λ r s', r ≠ 0 → ∃ l', l = r :: l' ∧ kmem_inv s' l') s) as Hwp.
    { eapply wp_kalloc; [done|naive_solver|]. intros q l' s1 -> ?????. eauto. }
    unfold wp in Hwp. rewrite E in Hwp. destruct (Hwp Hp) as (l' & -> & Hinv').
    exists l'. split; [done|]. destruct Hinv as [_ _ [Hnin ?]%NoDup_cons].
    split; [set_solver|]. intros q. rewrite Hall. set_solver.
  - assert (wp kalloc (λ r s', r = 0 → kmem_inv s' l) s) as Hwp.
    { eapply wp_kalloc; [done|done|]. intros q l' s1 -> Hq ???. intros ->.
      by apply page_ok_nonzero in Hq. }
    unfold wp in Hwp. rewrite E in Hwp. exists l. auto.
  - assert (page_ok p) by (apply Hall; auto).
    assert (p ∉ l) by set_solver.
    assert (wp (kfree p) (λ _ s', kmem_inv s' (p :: l)) s) as Hwp.
    { eapply wp_kfree; eauto. }
    unfold wp in Hwp. rewrite E in Hwp. exists (p :: l). split; [done|]. simpl.
    split; [set_solver|]. intros q. rewrite Hall.
    destruct (decide (q = p)); set_solver.
  - exists l. split; [|done]. apply kmem_inv_ext; [done|]. intros q Hq y Hy.
    rewrite load8_store8. destruct (Z.eqb_spec y x) as [->|]; [|done]. exfalso.
    assert (page_ok p) by (apply Hall; auto). assert (page_ok q) by (apply Hall; auto).
    apply (pages_disjoint p q x x); try done; [apply H0|apply H1|set_solver].
Qed.

(** C17: from the state [kinit] leaves, any interleaving of allocations, frees
    of held pages and writes to held pages keeps the free pages and the held
    pages a partition of the managed pages. In particular [kalloc] never
    returns a page that is still held, and freeing a held page never panics. *)
Theorem kalloc_never_hands_out_held_page s0 s A :
  freelist s0 = 0 →
  (∃ s1, kinit s0 = Ret tt s1 ∧ rtc client_step (s1, ∅) (s, A)) →
  partition_inv (s, A) ∧
  (∀ p s', kalloc s = Ret p s' → p ≠ 0 → p ∉ A) ∧
  (∀ p, p ∈ A → ∃ s', kfree p s = Ret tt s').
Proof.
  intros Hf (s1 & E & Hsteps).
  assert (partition_inv (s1, ∅)) as Hinv.
  { assert (wp kinit (λ _ s', partition_inv (s', ∅)) s0) as Hwp.
    { eapply wp_kinit; [done|]. intros s' l Hl Hall. exists l.
      split; [done|]. split; [set_solver|]. intros p. rewrite <-Hall. set_solver. }
    unfold wp in Hwp. by rewrite E in Hwp. }
  assert (partition_inv (s, A)) as Hfin.
  { remember (s1, ∅) as st1. remember (s, A) as st2. clear Heqst1 Heqst2 E.
    induction Hsteps; eauto using client_step_partition. }
  split; [done|]. destruct Hfin as (l & Hl & Hd & Hall). simpl in *. split.
  - intros p s' Ek Hp.
    assert (wp kalloc (λ r _, r ≠ 0 → r ∈ l) s) as Hwp.
    { eapply wp_kalloc; [done|done|]. intros q l' s2 -> ?????. set_solver. }
    unfold wp in Hwp. rewrite Ek in Hwp. auto.
  - intros p Hp. assert (wp (kfree p) (λ _ _, True) s) as Hwp.
    { eapply wp_kfree; [done|apply Hall; auto|set_solver|done]. }
    apply wp_inv in Hwp as ([] & s' & ? & _). eauto.
Qed.

End Kalloc.

(** ** Witnesses *)

(** The first page after the example image. *)
Definition ex_page : Z := KERNBASE + 0x22000.
Definition ex_machine : machine := Machine (λ _, 0) ex_page.

Lemma ex_page_ok : page_ok ex_page.
Proof. vm_compute. intuition congruence. Qed.

Lemma ex_kmem_inv : kmem_inv ex_machine [ex_page].
Proof.
  split; [done| |apply NoDup_singleton]. apply Forall_singleton, ex_page_ok.
Qed.

Lemma kalloc_pops_free_list_witness :
  ∃ s', kalloc ex_machine = Ret ex_page s' ∧ kmem_inv s' [].
Proof.
  destruct (kalloc_pops_free_list ex_machine [ex_page] ex_kmem_inv)
    as (s' & E & _ & _ & Hinv & _). exists s'. split; [exact E|exact Hinv].
Defined.

Lemma kfree_pushes_or_panics_witness :
  kfree (ex_page + 1) ex_machine = Panic "kfree" ∧
  ∃ s', kfree (ex_page + PGSIZE) ex_machine = Ret tt s' ∧
    kmem_inv s' [ex_page + PGSIZE; ex_page].
Proof.
  split.
  - apply (kfree_pushes_or_panics ex_machine [ex_page]); [apply ex_kmem_inv| |].
    + rewrite list_elem_of_singleton. discriminate.
    + intros [Hm _]. discriminate Hm.
  - destruct (kfree_pushes_or_panics ex_machine [ex_page] (ex_page + PGSIZE)) as [Hok _];
      [apply ex_kmem_inv| |].
    + rewrite list_elem_of_singleton. discriminate.
    + destruct Hok as (s' & E & Hinv & _); [|exists s'; split; [exact E|exact Hinv]].
      vm_compute. intuition congruence.
Defined.

Lemma kinit_frees_all_pages_witness :
  ∃ s' l, kinit (Machine (λ _, 0) 0) = Ret tt s' ∧ kmem_inv s' l ∧ ex_page ∈ l.
Proof.
  destruct (kinit_frees_all_pages (Machine (λ _, 0) 0) eq_refl) as (s' & l & E & Hinv & Hall).
  exists s', l. split; [exact E|]. split; [exact Hinv|]. apply Hall, ex_page_ok.
Defined.

Lemma kalloc_never_hands_out_held_page_witness :
  ∃ s1 p s2, kinit (Machine (λ _, 0) 0) = Ret tt s1 ∧ kalloc s1 = Ret p s2 ∧ p ≠ 0 ∧
    let s3 := set_mem (store8 (mem s2) p 1) s2 in
    (∀ q s', kalloc s3 = Ret q s' → q ≠ 0 → q ≠ p) ∧ ∃ s', kfree p s3 = Ret tt s'.
Proof.
  assert (wp kinit (λ _ s, ∃ l, kmem_inv s l ∧ PHYSTOP - PGSIZE ∈ l) (Machine (λ _, 0) 0)) as Hwp.
  { apply wp_kinit; [reflexivity|]. intros s' l Hl Hall. exists l. split; [exact Hl|]. apply Hall. vm_compute. repeat split; discriminate. }
  apply wp_inv in Hwp as ([] & s1 & E & l & Hl & Hin). exists s1.
  assert (wp kalloc (λ p _, p ≠ 0) s1) as Hwp.
  { clear E. apply (wp_kalloc s1 l); [exact Hl|intros ->; by apply elem_of_nil in Hin|intros; by apply page_ok_nonzero]. }
  apply wp_inv in Hwp as (p & s2 & Ek & Hp). exists p, s2.
  split; [exact E|]. split; [exact Ek|]. split; [exact Hp|].
  assert (p ∈ {[p]} ∪ (∅ : gset Z)) as Hpin by (clear; set_solver).
  assert (in_page p p) as Hpp by (clear; unfold in_page, PGSIZE; lia).
  destruct (kalloc_never_hands_out_held_page (Machine (λ _, 0) 0) (set_mem (store8 (mem s2) p 1) s2) ({[p]} ∪ ∅) eq_refl) as (_ & Hne & Hfree).
  - exists s1. split; [exact E|]. eapply rtc_l; [exact (client_alloc s1 s2 ∅ p Ek Hp)|].
    exact (rtc_once _ _ (client_write s2 _ p p 1 Hpin Hpp)).
  - split; [|exact (Hfree p Hpin)]. intros q s' Eq Hq Heq. apply (Hne q s' Eq Hq). rewrite Heq. exact Hpin.
Defined.
