(* ===== verification/Vm.v ===== *)
(** * Virtual memory: kernel/vm.c

    The operations of vm.c on three-level Sv39 page tables held in physical
    memory.  A [pagetable_t] is the physical address of its root page and a
    [pte_t *] the physical address of an entry; a null pointer is 0.  Buffers of
    the kernel itself (the source of [copyout], the destination of [copyin] and
    [copyinstr]) are lists of bytes. *)

From S2P Require Import Prelude Machine CString Kalloc.

(** The address of entry [i] of the page-table page at [pagetable]. *)
Definition pte_addr (pagetable i : Z) : Z := pagetable + 8 * i.

(** [for(int i = 0; i < 512; i++)]: the indices of a page-table page. *)
Definition pte_indices : list Z := seqZ 0 512.

Section Vm.
Context `{Image}.

(** ** walk *)

(** The [for] loop of [walk], from [level] down to 1, and the final index. *)
Fixpoint walk_levels (level : nat) (pagetable va : Z) (alloc : bool) : M machine Z :=
  match level with
  | O => mret (pte_addr pagetable (PX 0 va))
  | S level' =>
      let pte := pte_addr pagetable (PX (Z.of_nat level) va) in
      v ← read64 pte;
      if nonzero (Z.land v PTE_V) then walk_levels level' (PTE2PA v) va alloc
      else if negb alloc then mret 0
      else
        pg ← kalloc;
        if pg =? 0 then mret 0
        else
          do_mem (λ m, memset m pg 0 PGSIZE) ;;
          write64 pte (Z.lor (PA2PTE pg) PTE_V) ;;
          walk_levels level' pg va alloc
  end.

Definition walk (pagetable va : Z) (alloc : bool) : M machine Z :=
  if va >=? MAXVA then panic "walk" else walk_levels 2 pagetable va alloc.

Definition walkaddr (pagetable va : Z) : M machine Z :=
  if va >=? MAXVA then mret 0
  else
    pte ← walk pagetable va false;
    if pte =? 0 then mret 0
    else
      v ← read64 pte;
      if Z.land v PTE_V =? 0 then mret 0
      else if Z.land v PTE_U =? 0 then mret 0
      else mret (PTE2PA v).

(** ** mappages *)

Fixpoint mappages_loop (fuel : nat) (pagetable a last pa perm : Z) : M machine Z :=
  match fuel with
  | O => out_of_fuel
  | S fuel' =>
      pte ← walk pagetable a true;
      if pte =? 0 then mret (-1)
      else
        v ← read64 pte;
        if nonzero (Z.land v PTE_V) then panic "remap"
        else
          write64 pte (Z.lor (Z.lor (PA2PTE pa) perm) PTE_V) ;;
          if a =? last then mret 0
          else mappages_loop fuel' pagetable (u64 (a + PGSIZE)) last (u64 (pa + PGSIZE)) perm
  end.

(** When [last] is below [a] (size 0) the loop runs upwards until [walk]
    panics at [MAXVA]. *)
Definition mappages_fuel (a last : Z) : nat :=
  Z.to_nat ((if a <=? last then last - a else MAXVA - a) / PGSIZE + 2).

Definition mappages (pagetable va size pa perm : Z) : M machine Z :=
  let a := PGROUNDDOWN va in
  let last := PGROUNDDOWN (u64 (va + size - 1)) in
  mappages_loop (mappages_fuel a last) pagetable a last pa perm.

(** ** The kernel page table *)

Definition kvmmap (kernel_pagetable va pa sz perm : Z) : M machine unit :=
  r ← mappages kernel_pagetable va sz pa perm;
  if nonzero r then panic "kvmmap" else mret tt.

(** Returns the new [kernel_pagetable].  A failed [kalloc] is not checked: the
    [memset] through the null pointer is undefined. *)
Definition kvminit : M machine Z :=
  kernel_pagetable ← kalloc;
  if kernel_pagetable =? 0 then undefined "kvminit: null page table"
  else
    do_mem (λ m, memset m kernel_pagetable 0 PGSIZE) ;;
    kvmmap kernel_pagetable UART0 UART0 PGSIZE (Z.lor PTE_R PTE_W) ;;
    kvmmap kernel_pagetable VIRTIO0 VIRTIO0 PGSIZE (Z.lor PTE_R PTE_W) ;;
    kvmmap kernel_pagetable CLINT CLINT 0x10000 (Z.lor PTE_R PTE_W) ;;
    kvmmap kernel_pagetable PLIC PLIC 0x400000 (Z.lor PTE_R PTE_W) ;;
    kvmmap kernel_pagetable KERNBASE KERNBASE (u64 (img_etext - KERNBASE)) (Z.lor PTE_R PTE_X) ;;
    kvmmap kernel_pagetable img_etext img_etext (u64 (PHYSTOP - img_etext)) (Z.lor PTE_R PTE_W) ;;
    kvmmap kernel_pagetable TRAMPOLINE img_trampoline PGSIZE (Z.lor PTE_R PTE_X) ;;
    mret kernel_pagetable.

Definition kvmpa (kernel_pagetable va : Z) : M machine Z :=
  let off := va `mod` PGSIZE in
  pte ← walk kernel_pagetable va false;
  if pte =? 0 then panic "kvmpa"
  else
    v ← read64 pte;
    if Z.land v PTE_V =? 0 then panic "kvmpa"
    else mret (u64 (PTE2PA v + off)).

(** ** User address spaces *)

Fixpoint uvmunmap_loop (fuel : nat) (pagetable a last : Z) (do_free : bool) : M machine unit :=
  match fuel with
  | O => out_of_fuel
  | S fuel' =>
      if a <? last then
        pte ← walk pagetable a false;
        if pte =? 0 then panic "uvmunmap: walk"
        else
          v ← read64 pte;
          if Z.land v PTE_V =? 0 then panic "uvmunmap: not mapped"
          else if PTE_FLAGS v =? PTE_V then panic "uvmunmap: not a leaf"
          else
            (if do_free then kfree (PTE2PA v) else mret tt) ;;
            write64 pte 0 ;;
            uvmunmap_loop fuel' pagetable (u64 (a + PGSIZE)) last do_free
      else mret tt
  end.

Definition uvmunmap (pagetable va npages : Z) (do_free : bool) : M machine unit :=
  if nonzero (va `mod` PGSIZE) then panic "uvmunmap: not aligned"
  else
    let last := u64 (va + u64 (npages * PGSIZE)) in
    uvmunmap_loop (Z.to_nat ((last - va) / PGSIZE + 2)) pagetable va last do_free.

Definition uvmcreate : M machine Z :=
  pagetable ← kalloc;
  if pagetable =? 0 then mret 0
  else do_mem (λ m, memset m pagetable 0 PGSIZE) ;; mret pagetable.

(** The result of [kalloc] and of [mappages] is not checked: a null page is
    undefined behaviour. *)
Definition uvminit (pagetable : Z) (src : list Z) : M machine unit :=
  if Z.of_nat (length src) >=? PGSIZE then panic "inituvm: more than a page"
  else
    page ← kalloc;
    if page =? 0 then undefined "uvminit: null page"
    else
      do_mem (λ m, memset m page 0 PGSIZE) ;;
      mappages pagetable 0 PGSIZE page (Z.lor (Z.lor (Z.lor PTE_W PTE_R) PTE_X) PTE_U) ;;
      do_mem (λ m, store_bytes m page src).

Definition uvmdealloc (pagetable oldsz newsz : Z) : M machine Z :=
  if newsz >=? oldsz then mret oldsz
  else
    (if PGROUNDUP newsz <? PGROUNDUP oldsz then
       let npages := s32 (u64 (PGROUNDUP oldsz - PGROUNDUP newsz) / PGSIZE) in
       uvmunmap pagetable (PGROUNDUP newsz) (u64 npages) true
     else mret tt) ;;
    mret newsz.

Fixpoint uvmalloc_loop (fuel : nat) (pagetable oldsz a newsz : Z) : M machine Z :=
  match fuel with
  | O => out_of_fuel
  | S fuel' =>
      if a <? newsz then
        page ← kalloc;
        if page =? 0 then uvmdealloc pagetable a oldsz ;; mret 0
        else
          do_mem (λ m, memset m page 0 PGSIZE) ;;
          r ← mappages pagetable a PGSIZE page (Z.lor (Z.lor (Z.lor PTE_W PTE_X) PTE_R) PTE_U);
          if nonzero r then
            kfree page ;;
            uvmdealloc pagetable a oldsz ;;
            mret 0
          else uvmalloc_loop fuel' pagetable oldsz (u64 (a + PGSIZE)) newsz
      else mret newsz
  end.

Definition uvmalloc (pagetable oldsz newsz : Z) : M machine Z :=
  if newsz <? oldsz then mret oldsz
  else
    let oldsz := PGROUNDUP oldsz in
    uvmalloc_loop (Z.to_nat ((newsz - oldsz) / PGSIZE + 2)) pagetable oldsz oldsz newsz.

(** [depth] bounds the recursion: 3 for a well-formed table. *)
Fixpoint freewalk_depth (depth : nat) (pagetable : Z) : M machine unit :=
  match depth with
  | O => out_of_fuel
  | S depth' =>
      for_each pte_indices (λ i,
        pte ← read64 (pte_addr pagetable i);
        if nonzero (Z.land pte PTE_V) &&
           (Z.land pte (Z.lor (Z.lor PTE_R PTE_W) PTE_X) =? 0) then
          freewalk_depth depth' (PTE2PA pte) ;;
          write64 (pte_addr pagetable i) 0
        else if nonzero (Z.land pte PTE_V) then panic "freewalk: leaf"
        else mret tt) ;;
      kfree pagetable
  end.

Definition freewalk (pagetable : Z) : M machine unit := freewalk_depth 3 pagetable.

Definition uvmfree (pagetable sz : Z) : M machine unit :=
  (if sz >? 0 then uvmunmap pagetable 0 (PGROUNDUP sz / PGSIZE) true else mret tt) ;;
  freewalk pagetable.

Fixpoint uvmcopy_loop (fuel : nat) (old new i sz : Z) : M machine Z :=
  match fuel with
  | O => out_of_fuel
  | S fuel' =>
      if i <? sz then
        pte ← walk old i false;
        if pte =? 0 then panic "uvmcopy: pte should exist"
        else
          v ← read64 pte;
          if Z.land v PTE_V =? 0 then panic "uvmcopy: page not present"
          else
            let pa := PTE2PA v in
            let flags := PTE_FLAGS v in
            page ← kalloc;
            if page =? 0 then uvmunmap new 0 (i / PGSIZE) true ;; mret (-1)
            else
              do_mem (λ m, memmove m page pa PGSIZE) ;;
              r ← mappages new i PGSIZE page flags;
              if nonzero r then
                kfree page ;;
                uvmunmap new 0 (i / PGSIZE) true ;;
                mret (-1)
              else uvmcopy_loop fuel' old new (u64 (i + PGSIZE)) sz
      else mret 0
  end.

Definition uvmcopy (old new sz : Z) : M machine Z :=
  uvmcopy_loop (Z.to_nat (sz / PGSIZE + 2)) old new 0 sz.

Definition uvmclear (pagetable va : Z) : M machine unit :=
  pte ← walk pagetable va false;
  if pte =? 0 then panic "uvmclear"
  else
    v ← read64 pte;
    write64 pte (Z.land v (Z.lnot PTE_U)).

(** ** Copying between kernel and user *)

(** [src] holds the bytes still to be copied, so [len] is its length. *)
Fixpoint copyout_loop (fuel : nat) (pagetable dstva : Z) (src : list Z) : M machine Z :=
  match fuel with
  | O => out_of_fuel
  | S fuel' =>
      let len := Z.of_nat (length src) in
      if len >? 0 then
        let va0 := PGROUNDDOWN dstva in
        pa0 ← walkaddr pagetable va0;
        if pa0 =? 0 then mret (-1)
        else
          let n := PGSIZE - (dstva - va0) in
          let n := if n >? len then len else n in
          do_mem (λ m, store_bytes m (pa0 + (dstva - va0)) (take (Z.to_nat n) src)) ;;
          copyout_loop fuel' pagetable (u64 (va0 + PGSIZE)) (drop (Z.to_nat n) src)
      else mret 0
  end.

Definition copyout (pagetable dstva : Z) (src : list Z) : M machine Z :=
  copyout_loop (length src / Z.to_nat PGSIZE + 3) pagetable dstva src.

(** Returns the C result and the bytes stored in [dst]; [acc] are the bytes
    copied so far. *)
Fixpoint copyin_loop (fuel : nat) (pagetable : Z) (acc : list Z) (srcva len : Z)
    : M machine (Z * list Z) :=
  match fuel with
  | O => out_of_fuel
  | S fuel' =>
      if len >? 0 then
        let va0 := PGROUNDDOWN srcva in
        pa0 ← walkaddr pagetable va0;
        if pa0 =? 0 then mret (-1, acc)
        else
          let n := PGSIZE - (srcva - va0) in
          let n := if n >? len then len else n in
          bytes ← gets (λ s, load_bytes (Z.to_nat n) (mem s) (pa0 + (srcva - va0)));
          copyin_loop fuel' pagetable (acc ++ bytes) (u64 (va0 + PGSIZE)) (len - n)
      else mret (0, acc)
  end.

Definition copyin (pagetable srcva len : Z) : M machine (Z * list Z) :=
  copyin_loop (Z.to_nat (len / PGSIZE + 3)) pagetable [] srcva len.

(** The inner loop of [copyinstr]: copy at most [n] bytes from [p], stopping
    after a NUL.  Returns the bytes stored and whether a NUL was found. *)
Fixpoint copyinstr_page (n : nat) (m : memory) (p : Z) : list Z * bool :=
  match n with
  | O => ([], false)
  | S n' =>
      if load8 m p =? 0 then ([0], true)
      else let '(l, got_null) := copyinstr_page n' m (p + 1) in (load8 m p :: l, got_null)
  end.

Fixpoint copyinstr_loop (fuel : nat) (pagetable : Z) (acc : list Z) (srcva max : Z)
    : M machine (Z * list Z) :=
  match fuel with
  | O => out_of_fuel
  | S fuel' =>
      if max >? 0 then
        let va0 := PGROUNDDOWN srcva in
        pa0 ← walkaddr pagetable va0;
        if pa0 =? 0 then mret (-1, acc)
        else
          let n := PGSIZE - (srcva - va0) in
          let n := if n >? max then max else n in
          '(l, got_null) ← gets (λ s, copyinstr_page (Z.to_nat n) (mem s) (pa0 + (srcva - va0)));
          if got_null : bool then mret (0, acc ++ l)
          else copyinstr_loop fuel' pagetable (acc ++ l) (u64 (va0 + PGSIZE)) (max - n)
      else mret (-1, acc)
  end.

Definition copyinstr (pagetable srcva max : Z) : M machine (Z * list Z) :=
  copyinstr_loop (Z.to_nat (max / PGSIZE + 3)) pagetable [] srcva max.

End Vm.

Lemma elem_pte_indices i : i ∈ pte_indices ↔ 0 ≤ i < 512.
Proof. unfold pte_indices. rewrite elem_of_seqZ. lia. Qed.

Lemma NoDup_pte_indices : NoDup pte_indices.
Proof. apply NoDup_seqZ. Qed.

#[global] Opaque pte_indices.
