(* ===== verification/PageTable.v ===== *)
(** * Page tables: the representation invariant and [walk]

    A page table is described by a finite map [T] from positions in the
    three-level tree to page-table pages: the key [(level, prefix)] is the level
    and the part of the virtual page number that selects the page.  [pt_inv]
    says that memory holds the table [T] describes; [pte_of] is the leaf entry
    of a virtual address.  The lemmas show that [walk] finds the leaf entry,
    and that an allocating [walk] extends [T] with pages of the free list,
    keeps every leaf entry and touches no byte outside the table. *)

From S2P Require Import Prelude Machine CString Kalloc Vm.

Abbreviation ptmap := (gmap (Z * Z) Z).

(** The prefix that selects the level-[l] page of virtual address [va]. *)
Definition vkey (l va : Z) : Z := va / 2 ^ (21 + 9 * l).

(** [pa] is one of the pages of the table. *)
Definition owns (T : ptmap) (pa : Z) : Prop := ∃ k, T !! k = Some pa.

(** The leaf entry of a virtual address (0 when its page is missing). *)
Definition pte_of (m : memory) (T : ptmap) (va : Z) : Z :=
  match T !! (0, vkey 0 va) with
  | Some pa => load64 m (pte_addr pa (PX 0 va))
  | None => 0
  end.

(** The address of the leaf entry, as [walk] returns it. *)
Definition slot_of (T : ptmap) (va : Z) : Z :=
  match T !! (0, vkey 0 va) with
  | Some pa => pte_addr pa (PX 0 va)
  | None => 0
  end.

Section PageTable.
Context `{Image}.

Record pt_inv (m : memory) (root : Z) (T : ptmap) : Prop := {
  pt_root : T !! (2, 0) = Some root;
  pt_dom l p pa : T !! (l, p) = Some pa → 0 ≤ l ≤ 2 ∧ (0 ≤ p ∧ p * 2 ^ (21 + 9 * l) < MAXVA) ∧ page_ok pa;
  pt_inj k1 k2 pa : T !! k1 = Some pa → T !! k2 = Some pa → k1 = k2;
  pt_link l p pa i : T !! (l, p) = Some pa → 0 < l → 0 ≤ i < 512 →
    match T !! (l - 1, p * 512 + i) with
    | Some pa' => load64 m (pte_addr pa i) = Z.lor (PA2PTE pa') PTE_V
    | None => Z.land (load64 m (pte_addr pa i)) PTE_V = 0
    end;
  pt_parent l p pa : T !! (l, p) = Some pa → l < 2 → is_Some (T !! (l + 1, p / 512))
}.

(** Allocator and page table together. *)
Record vm_inv (s : machine) (root : Z) (T : ptmap) (l : list Z) : Prop := {
  vm_kmem : kmem_inv s l;
  vm_pt : pt_inv (mem s) root T;
  vm_sep pa : owns T pa → pa ∉ l
}.

(** What an operation on a table may do besides changing leaf entries: extend
    the table with pages taken from the free list. *)
Record vm_ext (s : machine) (T : ptmap) (l : list Z) (s' : machine) (T' : ptmap) (l' : list Z)
    : Prop := {
  ext_sub : T ⊆ T';
  ext_suffix : ∃ used, l = used ++ l' ∧ (∀ pa, owns T' pa ↔ owns T pa ∨ pa ∈ used);
  ext_frame : mem_eq_on (λ x, ∀ pa, owns T' pa → ¬ in_page pa x) (mem s) (mem s')
}.

(** * Lemmas *)

Lemma vkey_step l va : 0 < l → vkey (l - 1) va = vkey l va * 512 + PX l va.
Proof.
  intros Hl. unfold vkey. rewrite PX_eq by lia.
  replace (21 + 9 * (l - 1)) with (12 + 9 * l) by lia.
  replace (21 + 9 * l) with ((12 + 9 * l) + 9) by lia.
  rewrite (Z.pow_add_r 2 (12 + 9 * l) 9), <-Z.div_div by lia. change (2 ^ 9) with 512.
  generalize (va / 2 ^ (12 + 9 * l)). intros x. dlia.
Qed.

Lemma vkey_parent l va : 0 ≤ l → vkey l va / 512 = vkey (l + 1) va.
Proof.
  intros Hl. unfold vkey. replace (21 + 9 * (l + 1)) with ((21 + 9 * l) + 9) by lia.
  by rewrite (Z.pow_add_r 2 (21 + 9 * l) 9), <-Z.div_div by lia.
Qed.

Lemma vkey_top va : 0 ≤ va < MAXVA → vkey 2 va = 0.
Proof.
  intros Hva. unfold vkey, MAXVA in *. change (Z.shiftl 1 (9 + 9 + 9 + 12 - 1)) with (2 ^ 38) in Hva.
  change (21 + 9 * 2) with 39. apply Z.div_small. lia.
Qed.

Lemma vkey_below l va : 0 ≤ va < MAXVA → vkey l va * 2 ^ (21 + 9 * l) < MAXVA.
Proof.
  intros Hva. unfold vkey. destruct (decide (0 ≤ 21 + 9 * l)); [|rewrite (Z.pow_neg_r 2) by lia; lia].
  assert (0 < 2 ^ (21 + 9 * l)) by (apply Z.pow_pos_nonneg; lia).
  pose proof (Z.mul_div_le va (2 ^ (21 + 9 * l)) ltac:(lia)). lia.
Qed.

Lemma PTE_V_1 : PTE_V = 1.
Proof. done. Qed.

Lemma flag_test pa f g :
  pa_ok pa → 0 ≤ f < 1024 → 0 ≤ g < 1024 → Z.land (Z.lor (PA2PTE pa) f) g = Z.land f g.
Proof. intros. rewrite land_flags by done. by rewrite PTE_FLAGS_make. Qed.

Lemma pte_addr_in_page pa i x :
  0 ≤ i < 512 → pte_addr pa i ≤ x < pte_addr pa i + 8 → in_page pa x.
Proof. unfold pte_addr, in_page, PGSIZE. lia. Qed.

(** Distinct entries do not overlap. *)
Lemma pte_addr_disjoint p q i j :
  p `mod` PGSIZE = 0 → q `mod` PGSIZE = 0 → 0 ≤ i < 512 → 0 ≤ j < 512 → (p, i) ≠ (q, j) →
  pte_addr p i + 8 ≤ pte_addr q j ∨ pte_addr q j + 8 ≤ pte_addr p i.
Proof.
  unfold pte_addr, PGSIZE. intros Hp Hq Hi Hj Hne.
  assert (p = p / 4096 * 4096 ∧ q = q / 4096 * 4096) as [? ?] by dlia.
  assert (p ≠ q ∨ i ≠ j) by (destruct (decide (p = q)); [right; congruence|by left]). lia.
Qed.

Section table.
Context {m : memory} {root : Z} {T : ptmap} (Hpt : pt_inv m root T).

Lemma pt_page_ok k pa : T !! k = Some pa → page_ok pa.
Proof. destruct k. intros E. by apply (pt_dom _ _ _ Hpt) in E as (_&_&?). Qed.

Lemma owns_page_ok pa : owns T pa → page_ok pa.
Proof. intros [k E]. by eapply pt_page_ok. Qed.

(** A missing page has no descendants. *)
Lemma pt_child_None l p i : l ≤ 2 → T !! (l, p) = None → 0 ≤ i < 512 → T !! (l - 1, p * 512 + i) = None.
Proof.
  intros Hl E Hi. destruct (T !! (l - 1, p * 512 + i)) as [pa|] eqn:E'; [|done].
  apply (pt_parent _ _ _ Hpt) in E' as [pa' E'']; [|lia].
  replace (l - 1 + 1) with l in E'' by lia.
  rewrite Z.div_add_l, (Z.div_small i), Z.add_0_r in E'' by lia. congruence.
Qed.

Lemma pt_vkey_None l va : 0 < l ≤ 2 → T !! (l, vkey l va) = None → T !! (l - 1, vkey (l - 1) va) = None.
Proof.
  intros Hl E. rewrite vkey_step by lia. apply pt_child_None; [lia|done|apply PX_range; lia].
Qed.

(** Other memory does not matter. *)
Lemma pt_inv_frame m' : (∀ pa, owns T pa → mem_eq_on (in_page pa) m m') → pt_inv m' root T.
Proof.
  intros Hm. destruct Hpt as [Hr Hd Hi Hl Hp]. split; [done|done|done| |done].
  intros l p pa i E Hl0 Hi0. specialize (Hl l p pa i E Hl0 Hi0).
  rewrite <-(load64_ext m m'); [done|].
  intros x Hx. eapply Hm; [by exists (l, p)|by eapply pte_addr_in_page].
Qed.

Lemma pte_of_frame m' va :
  (∀ pa, owns T pa → mem_eq_on (in_page pa) m m') → pte_of m' T va = pte_of m T va.
Proof.
  intros Hm. unfold pte_of. destruct (T !! _) as [pa|] eqn:E; [|done].
  symmetry. apply load64_ext. intros x Hx.
  eapply Hm; [eexists; done|]. eapply pte_addr_in_page; [|done]. apply PX_range. lia.
Qed.

(** Two entries of the table at different positions are disjoint. *)
Lemma pt_slots_disjoint k1 k2 p q i j :
  T !! k1 = Some p → T !! k2 = Some q → 0 ≤ i < 512 → 0 ≤ j < 512 → (k1, i) ≠ (k2, j) →
  pte_addr p i + 8 ≤ pte_addr q j ∨ pte_addr q j + 8 ≤ pte_addr p i.
Proof.
  intros E1 E2 Hi Hj Hne. apply pte_addr_disjoint; try done.
  - by apply (pt_page_ok k1).
  - by apply (pt_page_ok k2).
  - intros [= -> ->]. apply Hne. f_equal. by apply (pt_inj _ _ _ Hpt _ _ q).
Qed.

(** Linking a zeroed page under a missing position. *)
Lemma pt_extend l k pt i p :
  T !! (l, k) = Some pt → 0 < l → 0 ≤ i < 512 → (k * 512 + i) * 2 ^ (21 + 9 * (l - 1)) < MAXVA →
  T !! (l - 1, k * 512 + i) = None → page_ok p → ¬ owns T p → (∀ x, in_page p x → load8 m x = 0) →
  let m' := store64 m (pte_addr pt i) (Z.lor (PA2PTE p) PTE_V) in
  let T' := <[(l - 1, k * 512 + i) := p]> T in
  pt_inv m' root T' ∧ ∀ va, pte_of m' T' va = pte_of m T va.
Proof.
  intros Ek Hl Hi Hlow Enone Hp Hown Hz m' T'.
  pose proof (pt_dom _ _ _ Hpt _ _ _ Ek) as (Hl2 & Hk & Hptok).
  assert (Z.lor (PA2PTE p) PTE_V = load64 m' (pte_addr pt i)) as Hnew.
  { unfold m'. rewrite load64_store64; [done|]. apply PTE_make_range; [|done].
    by apply page_ok_pa_ok. }
  assert (∀ j, 0 ≤ j < 512 → load64 m' (pte_addr p j) = 0) as Hzero.
  { intros j Hj. unfold m'. rewrite load64_store64_ne.
    - change 0 with (load64 (λ _, 0) (pte_addr p j)). apply load64_ext. intros x Hx.
      rewrite Hz; [done|]. by eapply pte_addr_in_page.
    - apply pte_addr_disjoint; [apply Hp|apply Hptok|done|done|].
      intros [= -> ->]. apply Hown. by eexists. }
  assert (∀ l' k' pa j, T !! (l', k') = Some pa → 0 ≤ j < 512 → (l', k', j) ≠ (l, k, i) →
    load64 m' (pte_addr pa j) = load64 m (pte_addr pa j)) as Hold.
  { intros l' k' pa j E Hj Hne. unfold m'. apply load64_store64_ne.
    eapply (pt_slots_disjoint (l', k') (l, k)); done || congruence. }
  split.
  - split.
    + unfold T'. rewrite lookup_insert_ne; [apply (pt_root _ _ _ Hpt)|]. intros [= ? ?]. lia.
    + intros l' k' pa. unfold T'. rewrite lookup_insert_Some.
      intros [[[= <- <-] <-]|[_ E]]; [|by apply (pt_dom _ _ _ Hpt)].
      split; [lia|]. split; [|done]. split; [lia|done].
    + intros k1 k2 pa. unfold T'. rewrite !lookup_insert_Some.
      intros [[<- <-]|[Hne1 E1]] [[<- E]|[Hne2 E2]]; try done.
      * destruct Hown. by eexists.
      * subst pa. destruct Hown. by eexists.
      * by apply (pt_inj _ _ _ Hpt _ _ pa).
    + intros l' k' pa j. unfold T' at 1. rewrite lookup_insert_Some.
      intros [[[= <- <-] <-]|[Hne E]] Hl' Hj.
      * unfold T'. rewrite lookup_insert_ne by (intros [= ? ?]; lia).
        rewrite (pt_child_None (l - 1) (k * 512 + i) j) by (done || lia).
        by rewrite Hzero.
      * destruct (decide ((l', k', j) = (l, k, i))) as [[= -> -> ->]|Hne'].
        -- unfold T'. rewrite lookup_insert_eq. congruence.
        -- rewrite (Hold l' k') by done. unfold T'. rewrite lookup_insert_ne.
           { by apply (pt_link _ _ _ Hpt). }
           intros [= ? ?]. apply Hne'. assert (k' = k) by lia. f_equal; [f_equal|]; lia.
    + intros l' k' pa. unfold T'. rewrite lookup_insert_Some.
      intros [[[= <- <-] _]|[Hne E]] Hlt.
      * rewrite Z.div_add_l, (Z.div_small i), Z.add_0_r by lia.
        replace (l - 1 + 1) with l by lia. rewrite lookup_insert_ne; [by eexists|].
        intros [= ? ?]. lia.
      * apply (pt_parent _ _ _ Hpt) in E as [pa' E]; [|done].
        destruct (decide ((l - 1, k * 512 + i) = (l' + 1, k' / 512))) as [Heq|Hne'].
        -- rewrite <-Heq, lookup_insert_eq. by eexists.
        -- rewrite lookup_insert_ne by done. by eexists.
  - intros va. unfold pte_of, T'.
    destruct (decide ((l - 1, k * 512 + i) = (0, vkey 0 va))) as [Heq|Hne].
    + rewrite Heq, lookup_insert_eq, Hzero by (apply PX_range; lia). by rewrite <-Heq, Enone.
    + rewrite lookup_insert_ne by done. destruct (T !! (0, vkey 0 va)) as [pa|] eqn:E; [|done].
      apply (Hold 0 (vkey 0 va)); [done|apply PX_range; lia|]. intros [= ? ? ?]. lia.
Qed.

Lemma pt_vkey_None_0 (n : nat) va :
  (n ≤ 2)%nat → T !! (Z.of_nat n, vkey (Z.of_nat n) va) = None → T !! (0, vkey 0 va) = None.
Proof.
  induction n as [|n IH]; intros Hn E; [done|]. apply IH; [lia|].
  replace (Z.of_nat n) with (Z.of_nat (S n) - 1) by lia. apply pt_vkey_None; [lia|done].
Qed.

Lemma slot_of_nonzero va : is_Some (T !! (0, vkey 0 va)) → slot_of T va ≠ 0.
Proof.
  intros [pa E]. unfold slot_of. rewrite E.
  pose proof (pt_page_ok _ _ E) as (_ & ? & _). pose proof img_end_ok.
  pose proof (PX_range 0 va). unfold pte_addr, KERNBASE in *. lia.
Qed.

Lemma slot_of_Some va pa : T !! (0, vkey 0 va) = Some pa → slot_of T va = pte_addr pa (PX 0 va).
Proof. intros E. unfold slot_of. by rewrite E. Qed.

Lemma load64_slot_of va : is_Some (T !! (0, vkey 0 va)) → load64 m (slot_of T va) = pte_of m T va.
Proof. intros [pa E]. unfold slot_of, pte_of. by rewrite E. Qed.

End table.

Lemma owns_insert T k pa x : T !! k = None → owns (<[k := pa]> T) x ↔ x = pa ∨ owns T x.
Proof.
  intros Hk. unfold owns. setoid_rewrite lookup_insert_Some. split.
  - intros (k' & [[<- <-]|[? ?]]); eauto.
  - intros [->|[k' E]]; [by exists k; left|]. exists k'. right. split; [congruence|done].
Qed.

Lemma vm_ext_refl s T l : vm_ext s T l s T l.
Proof.
  split; [done| |done]. exists []. split; [done|]. intros pa. set_solver.
Qed.

Lemma vm_ext_trans s T l s1 T1 l1 s2 T2 l2 :
  vm_ext s T l s1 T1 l1 → vm_ext s1 T1 l1 s2 T2 l2 → vm_ext s T l s2 T2 l2.
Proof.
  intros [Hs1 (u1 & -> & Ho1) Hf1] [Hs2 (u2 & -> & Ho2) Hf2]. split.
  - by etrans.
  - exists (u1 ++ u2). rewrite app_assoc. split; [done|]. intros pa.
    rewrite Ho2, Ho1, elem_of_app. tauto.
  - intros x Hx. rewrite Hf1 by (intros pa Hpa; apply Hx, Ho2; auto). by apply Hf2.
Qed.

(** ** walk without allocation *)

Lemma walk_levels_noalloc n s root T pt va :
  pt_inv (mem s) root T → (n ≤ 2)%nat →
  T !! (Z.of_nat n, vkey (Z.of_nat n) va) = Some pt →
  walk_levels n pt va false s = Ret (slot_of T va) s.
Proof.
  intros Hpt. revert pt. induction n as [|n IH]; intros pt Hn E.
  { simpl. unfold slot_of. change (Z.of_nat 0) with 0 in E. by rewrite E. }
  cbn [walk_levels]. unfold read64, gets, mbind, M_bind.
  pose proof (pt_link _ _ _ Hpt _ _ _ (PX (Z.of_nat (S n)) va) E) as Hlink.
  rewrite <-vkey_step in Hlink by lia.
  specialize (Hlink ltac:(lia) ltac:(apply PX_range; lia)).
  replace (Z.of_nat (S n) - 1) with (Z.of_nat n) in Hlink by lia.
  destruct (T !! (Z.of_nat n, vkey (Z.of_nat n) va)) as [pa|] eqn:E'.
  - assert (pa_ok pa) by (by eapply page_ok_pa_ok, (pt_page_ok Hpt)).
    rewrite Hlink, flag_test by (rewrite ?PTE_V_1; done || lia). simpl.
    rewrite PTE2PA_make by (rewrite ?PTE_V_1; done || lia). apply IH; [lia|done].
  - rewrite Hlink. simpl. unfold slot_of.
    rewrite (pt_vkey_None_0 Hpt n) by (done || lia). done.
Qed.

Lemma walk_noalloc s root T va :
  pt_inv (mem s) root T → 0 ≤ va < MAXVA → walk root va false s = Ret (slot_of T va) s.
Proof.
  intros Hpt Hva. unfold walk. destruct (Z.geb_spec va MAXVA); [lia|].
  eapply (walk_levels_noalloc 2); [done|lia|]. change (Z.of_nat 2) with 2.
  rewrite vkey_top by done. apply (pt_root _ _ _ Hpt).
Qed.

(** ** walk with allocation *)

(** One page-table page: [kalloc], [memset] to zero and the link. *)
Lemma alloc_pt_page s root T p l lv k pt i :
  vm_inv s root T l → T !! (lv, k) = Some pt → 0 < lv → 0 ≤ i < 512 → (k * 512 + i) * 2 ^ (21 + 9 * (lv - 1)) < MAXVA →
  T !! (lv - 1, k * 512 + i) = None →
  page_ok p → p ∉ l → ¬ owns T p →
  let s' := set_mem (store64 (memset (mem s) p 0 PGSIZE) (pte_addr pt i)
                      (Z.lor (PA2PTE p) PTE_V)) s in
  let T' := <[(lv - 1, k * 512 + i) := p]> T in
  vm_inv s' root T' l ∧ T ⊆ T' ∧ (∀ pa, owns T' pa ↔ owns T pa ∨ pa = p) ∧
  mem_eq_on (λ x, ∀ pa, owns T' pa → ¬ in_page pa x) (mem s) (mem s') ∧
  (∀ va, pte_of (mem s') T' va = pte_of (mem s) T va).
Proof.
  intros [Hk Hpt Hsep] E Hlv Hi Hlow En Hp Hnin Hown s' T'.
  set (m1 := memset (mem s) p 0 PGSIZE).
  assert (∀ x, ¬ in_page p x → load8 m1 x = load8 (mem s) x) as Hm1.
  { intros x Hx. apply load8_memset_out; [unfold PGSIZE; lia|done]. }
  assert (∀ pa, owns T pa → mem_eq_on (in_page pa) (mem s) m1) as Hm1o.
  { intros pa Ho x Hx. rewrite Hm1; [done|]. intros Hx'.
    eapply (pages_disjoint pa p x x); try done.
    - by eapply owns_page_ok.
    - apply Hp.
    - intros ->. done. }
  assert (pt_inv m1 root T) as Hpt1 by (by eapply pt_inv_frame).
  destruct (pt_extend Hpt1 lv k pt i p) as [Hpt' Hpte']; try done.
  { intros x Hx. by apply load8_memset_in. }
  assert (∀ x, ¬ in_page pt x → ¬ in_page p x → load8 (mem s') x = load8 (mem s) x) as Hfr.
  { intros x Hx1 Hx2. simpl. rewrite load8_store64_ne; [by apply Hm1|].
    intros Hx. apply Hx1. by eapply pte_addr_in_page. }
  split_and!.
  - split; [|done|].
    + apply kmem_inv_ext; [done|]. intros q Hq x Hx. symmetry. apply Hfr; intros Hx'.
      * eapply (pages_disjoint pt q x x); try done.
        -- by apply (pt_page_ok Hpt _ _ E).
        -- by eapply elem_page_ok, Hq; apply Hk.
        -- intros ->. by eapply Hsep, Hq; eexists.
      * eapply (pages_disjoint p q x x); try done.
        -- apply Hp.
        -- by eapply elem_page_ok, Hq; apply Hk.
        -- intros ->. done.
    + intros pa. unfold T'. rewrite owns_insert by done. intros [->|Ho]; [done|by apply Hsep].
  - by apply insert_subseteq.
  - intros pa. unfold T'. rewrite owns_insert by done. tauto.
  - intros x Hx. symmetry. apply Hfr; apply Hx; unfold T'; apply owns_insert; [done| |done|by left].
    right. by eexists.
  - intros va. etrans; [apply Hpte'|]. by apply pte_of_frame.
Qed.

Lemma wp_walk_levels_alloc n pt va s root T l (Q : Z → machine → Prop) :
  vm_inv s root T l → (n ≤ 2)%nat → 0 ≤ va < MAXVA → T !! (Z.of_nat n, vkey (Z.of_nat n) va) = Some pt →
  (∀ r s' T' l', vm_inv s' root T' l' → vm_ext s T l s' T' l' →
     (∀ va', pte_of (mem s') T' va' = pte_of (mem s) T va') →
     (r = 0 ∧ l' = [] ∨ is_Some (T' !! (0, vkey 0 va)) ∧ r = slot_of T' va ∧ r ≠ 0) → Q r s') →
  wp (walk_levels n pt va true) Q s.
Proof.
  revert pt s T l Q. induction n as [|n IH]; intros pt s T l Q Hvm Hn Hva E HQ.
  { cbn [walk_levels]. apply wp_ret. change (Z.of_nat 0) with 0 in E.
    rewrite <-(slot_of_Some va pt) by done. eapply HQ; [done|apply vm_ext_refl|done|].
    right. split_and!; [by eexists|done|]. eapply slot_of_nonzero; [apply Hvm|by eexists]. }
  cbn [walk_levels]. unfold read64. wp_run.
  pose proof (pt_link _ _ _ (vm_pt _ _ _ _ Hvm) _ _ _ (PX (Z.of_nat (S n)) va) E) as Hlink.
  specialize (Hlink ltac:(lia) ltac:(apply PX_range; lia)).
  destruct (T !! (Z.of_nat (S n) - 1, _)) as [pa|] eqn:E'.
  - assert (pa_ok pa) by (by eapply page_ok_pa_ok, (pt_page_ok (vm_pt _ _ _ _ Hvm))).
    rewrite Hlink, flag_test by (rewrite ?PTE_V_1; done || lia). simpl.
    rewrite PTE2PA_make by (rewrite ?PTE_V_1; done || lia).
    eapply IH; [done|lia|done| |done]. rewrite <-vkey_step in E' by lia.
    replace (Z.of_nat (S n) - 1) with (Z.of_nat n) in E' by lia. done.
  - rewrite Hlink. simpl. wp_step.
    destruct l as [|p l].
    { eapply wp_of_eq; [apply kalloc_nil, Hvm|]. simpl. apply wp_ret.
      eapply HQ; [done|apply vm_ext_refl|done|by left]. }
    destruct Hvm as [Hk Hpt Hsep].
    assert (page_ok p ∧ p ∉ l) as [Hp Hnin].
    { destruct Hk as [_ [? _]%Forall_cons [? _]%NoDup_cons]. done. }
    assert (¬ owns T p) as Hown by (intros Ho; apply (Hsep p Ho); set_solver).
    eapply wp_kalloc_cons; [done|]. intros s1 Hk1 Hfr1 _.
    assert (vm_inv s1 root T l) as Hvm1.
    { split; [done| |].
      - eapply pt_inv_frame; [done|]. intros pa Ho x Hx. apply Hfr1. intros Hx'.
        eapply (pages_disjoint pa p x x); try done.
        + by eapply owns_page_ok.
        + apply Hp.
        + intros ->. done.
      - intros pa Ho Hpa. apply (Hsep pa Ho). set_solver. }
    rewrite (proj2 (Z.eqb_neq p 0)) by (by apply page_ok_nonzero).
    destruct (alloc_pt_page s1 root T p l (Z.of_nat (S n)) (vkey (Z.of_nat (S n)) va) pt
      (PX (Z.of_nat (S n)) va)) as (Hvm2 & Hsub & Ho2 & Hfr2 & Hpte2);
      [done|done|lia|apply PX_range; lia|rewrite <-vkey_step by lia; by apply vkey_below|done|done|done|done|].
    unfold write64, do_mem. wp_run.
    eapply IH; [exact Hvm2|lia|done| |].
    { rewrite <-vkey_step by lia. replace (Z.of_nat (S n) - 1) with (Z.of_nat n) by lia.
      apply lookup_insert_eq. }
    intros r s' T' l' Hvm' Hext' Hpte' Hr. eapply HQ; [done| | |done].
    + eapply vm_ext_trans; [|exact Hext']. split; [done| |].
      * exists [p]. split; [done|]. intros pa. rewrite Ho2. set_solver.
      * intros x Hx. rewrite Hfr1; [by apply Hfr2|]. apply Hx, Ho2. by right.
    + intros va'. rewrite Hpte', Hpte2. apply pte_of_frame.
      intros pa Ho x Hx. apply Hfr1. intros Hx'.
      eapply (pages_disjoint pa p x x); try done.
      * by eapply (owns_page_ok Hpt).
      * apply Hp.
      * intros ->. done.
Qed.

Lemma wp_walk_alloc va s root T l (Q : Z → machine → Prop) :
  vm_inv s root T l → 0 ≤ va < MAXVA →
  (∀ r s' T' l', vm_inv s' root T' l' → vm_ext s T l s' T' l' →
     (∀ va', pte_of (mem s') T' va' = pte_of (mem s) T va') →
     (r = 0 ∧ l' = [] ∨ is_Some (T' !! (0, vkey 0 va)) ∧ r = slot_of T' va ∧ r ≠ 0) → Q r s') →
  wp (walk root va true) Q s.
Proof.
  intros Hvm Hva HQ. unfold walk. destruct (Z.geb_spec va MAXVA); [lia|].
  eapply (wp_walk_levels_alloc 2); [done|lia|done| |done]. change (Z.of_nat 2) with 2.
  rewrite vkey_top by done. apply (pt_root _ _ _ (vm_pt _ _ _ _ Hvm)).
Qed.

End PageTable.
