(* ===== verification/Mapping.v ===== *)
(** * Mapping and unmapping pages: [mappages] and [uvmunmap]

    The effect of the two operations on the leaf entries of a table, on the
    free list and on the rest of memory. *)

From S2P Require Import Prelude Machine CString Kalloc Vm PageTable.

(** The entry that [mappages] stores. *)
Definition leaf_pte (pa perm : Z) : Z := Z.lor (Z.lor (PA2PTE pa) perm) PTE_V.

Section Mapping.
Context `{Image}.

(** * Lemmas *)

Lemma leaf_pte_eq pa perm : leaf_pte pa perm = Z.lor (PA2PTE pa) (Z.lor perm PTE_V).
Proof. unfold leaf_pte. by rewrite Z.lor_assoc. Qed.

Lemma lor_flags_range f g : 0 ≤ f < 1024 → 0 ≤ g < 1024 → 0 ≤ Z.lor f g < 1024.
Proof.
  intros Hf Hg. assert (0 ≤ Z.lor f g) by (apply Z.lor_nonneg; lia). split; [done|].
  destruct (decide (Z.lor f g = 0)) as [->|]; [lia|].
  change 1024 with (2 ^ 10). apply Z.log2_lt_pow2; [lia|].
  rewrite Z.log2_lor by lia. apply Z.max_lub_lt.
  - destruct (decide (f = 0)) as [->|]; [simpl; lia|]. apply Z.log2_lt_pow2; lia.
  - destruct (decide (g = 0)) as [->|]; [simpl; lia|]. apply Z.log2_lt_pow2; lia.
Qed.

Lemma leaf_pte_range pa perm : pa_ok pa → 0 ≤ perm < 1024 → 0 ≤ leaf_pte pa perm < 2 ^ 64.
Proof.
  intros. rewrite leaf_pte_eq. apply PTE_make_range; [done|]. apply lor_flags_range; [done|].
  rewrite PTE_V_1. lia.
Qed.

Lemma PTE2PA_leaf pa perm : pa_ok pa → 0 ≤ perm < 1024 → PTE2PA (leaf_pte pa perm) = pa.
Proof.
  intros. rewrite leaf_pte_eq. apply PTE2PA_make; [done|]. apply lor_flags_range; [done|].
  rewrite PTE_V_1. lia.
Qed.

Lemma PTE_FLAGS_leaf pa perm :
  pa_ok pa → 0 ≤ perm < 1024 → PTE_FLAGS (leaf_pte pa perm) = Z.lor perm PTE_V.
Proof.
  intros. rewrite leaf_pte_eq. apply PTE_FLAGS_make; [done|]. apply lor_flags_range; [done|].
  rewrite PTE_V_1. lia.
Qed.

Lemma leaf_pte_valid pa perm : Z.land (leaf_pte pa perm) PTE_V = PTE_V.
Proof.
  unfold leaf_pte. apply Z.bits_inj'. intros i Hi. rewrite Z.land_spec, Z.lor_spec.
  destruct (Z.testbit PTE_V i); [by rewrite orb_true_r|by rewrite andb_false_r].
Qed.

Lemma vpn_split va : va / PGSIZE = vkey 0 va * 512 + PX 0 va.
Proof.
  unfold vkey. rewrite PX_eq by lia.
  change (2 ^ (21 + 9 * 0)) with (2 ^ (12 + 9 * 0) * 512).
  rewrite <-Z.div_div by lia. change PGSIZE with (2 ^ (12 + 9 * 0)).
  generalize (va / 2 ^ (12 + 9 * 0)). intros x. dlia.
Qed.

Lemma pte_of_page m T va va' : va / PGSIZE = va' / PGSIZE → pte_of m T va = pte_of m T va'.
Proof.
  intros E. unfold pte_of. rewrite !vpn_split in E.
  pose proof (PX_range 0 va ltac:(lia)). pose proof (PX_range 0 va' ltac:(lia)).
  replace (vkey 0 va') with (vkey 0 va) by lia. replace (PX 0 va') with (PX 0 va) by lia. done.
Qed.

(** Writing a leaf entry. *)
Lemma vm_set_leaf s root T l va v :
  vm_inv s root T l → is_Some (T !! (0, vkey 0 va)) → 0 ≤ v < 2 ^ 64 →
  let s' := set_mem (store64 (mem s) (slot_of T va) v) s in
  vm_inv s' root T l ∧ vm_ext s T l s' T l ∧
  (∀ va', pte_of (mem s') T va' = if va' / PGSIZE =? va / PGSIZE then v else pte_of (mem s) T va').
Proof.
  intros [Hk Hpt Hsep] [pa E] Hv s'.
  assert (0 ≤ PX 0 va < 512) as HPX by (apply PX_range; lia).
  assert (∀ x, ¬ in_page pa x → load8 (mem s') x = load8 (mem s) x) as Hfr.
  { intros x Hx. simpl. rewrite (slot_of_Some _ _ E). apply load8_store64_ne.
    intros Hx'. apply Hx. by eapply pte_addr_in_page. }
  assert (∀ k q j, T !! k = Some q → 0 ≤ j < 512 → (k, j) ≠ ((0, vkey 0 va), PX 0 va) →
    load64 (mem s') (pte_addr q j) = load64 (mem s) (pte_addr q j)) as Hold.
  { intros k q j Ek Hj Hne. simpl. rewrite (slot_of_Some _ _ E).
    apply load64_store64_ne. by apply (pt_slots_disjoint Hpt k (0, vkey 0 va)). }
  split_and!.
  - split; [| |done].
    + apply kmem_inv_ext; [done|]. intros q Hq x Hx. symmetry. apply Hfr. intros Hx'.
      eapply (pages_disjoint pa q x x); try done.
      * by apply (pt_page_ok Hpt _ _ E).
      * by eapply elem_page_ok, Hq; apply Hk.
      * intros ->. by eapply Hsep, Hq; eexists.
    + destruct Hpt as [Hr Hd Hi Hl Hp]. split; [done|done|done| |done].
      intros lv k q j Ek Hlv Hj. rewrite (Hold (lv, k)); [by apply Hl|done|done|].
      intros [= ? ? ?]. lia.
  - split; [done| |].
    + exists []. split; [done|]. intros. set_solver.
    + intros x Hx. symmetry. apply Hfr, Hx. by eexists.
  - intros va'. unfold pte_of. destruct (Z.eqb_spec (va' / PGSIZE) (va / PGSIZE)) as [Heq|Hne].
    + rewrite !vpn_split in Heq. pose proof (PX_range 0 va' ltac:(lia)).
      replace (vkey 0 va') with (vkey 0 va) by lia. replace (PX 0 va') with (PX 0 va) by lia.
      rewrite E. simpl. rewrite (slot_of_Some _ _ E). by apply load64_store64.
    + destruct (T !! (0, vkey 0 va')) as [q|] eqn:E'; [|done].
      apply (Hold (0, vkey 0 va')); [done|apply PX_range; lia|].
      intros [= Hk' Hp']. apply Hne. rewrite !vpn_split. lia.
Qed.

(** ** mappages *)

(** The entries after mapping [k] pages from [a] to [pa]. *)
Definition mapped (pte : Z → Z) (a pa perm k : Z) (va : Z) : Z :=
  if (a <=? va) && (va <? a + k * PGSIZE) then leaf_pte (pa + (PGROUNDDOWN va - a)) perm
  else pte va.

(** One iteration of the loop. *)
Lemma wp_mappages_step fuel s root T l a last pa perm (Q : Z → machine → Prop) :
  vm_inv s root T l → 0 ≤ a < MAXVA → 0 ≤ perm < 1024 → pa_ok pa →
  Z.land (pte_of (mem s) T a) PTE_V = 0 →
  (∀ s' T', vm_inv s' root T' [] → vm_ext s T l s' T' [] →
     (∀ va, pte_of (mem s') T' va = pte_of (mem s) T va) → Q (-1) s') →
  (∀ s' T' l', vm_inv s' root T' l' → vm_ext s T l s' T' l' →
     (∀ va, pte_of (mem s') T' va =
        if va / PGSIZE =? a / PGSIZE then leaf_pte pa perm else pte_of (mem s) T va) →
     wp (if a =? last then mret 0
         else mappages_loop fuel root (u64 (a + PGSIZE)) last (u64 (pa + PGSIZE)) perm) Q s') →
  wp (mappages_loop (S fuel) root a last pa perm) Q s.
Proof.
  intros Hvm Ha Hperm Hpa Hinv HQ1 HQ2. cbn [mappages_loop]. wp_step.
  eapply wp_walk_alloc; [done|done|]. intros r s1 T1 l1 Hvm1 Hext1 Hpte1 [[-> ->]|(Hs & -> & Hnz)].
  { simpl. apply wp_ret. by eapply HQ1. }
  rewrite (proj2 (Z.eqb_neq _ _) Hnz). unfold read64. wp_run.
  rewrite (load64_slot_of a) by done. rewrite Hpte1, Hinv. simpl.
  pose proof (leaf_pte_range pa perm Hpa Hperm) as Hrange.
  destruct (vm_set_leaf s1 root T1 l1 a (leaf_pte pa perm) Hvm1 Hs Hrange)
    as (Hvm2 & Hext2 & Hpte2).
  unfold write64, do_mem. wp_run. fold (leaf_pte pa perm).
  eapply HQ2; [exact Hvm2|by eapply vm_ext_trans|].
  intros va. rewrite Hpte2, Hpte1. done.
Qed.

Lemma mapped_0 pte a pa perm va : mapped pte a pa perm 0 va = pte va.
Proof. unfold mapped. repeat case_match; try done; lia. Qed.

(** Mapping one page and then [k] more. *)
Lemma mapped_step pte pte' a pa perm k va :
  a `mod` PGSIZE = 0 → 0 ≤ k →
  (∀ va, pte' va = if va / PGSIZE =? a / PGSIZE then leaf_pte pa perm else pte va) →
  mapped pte' (a + PGSIZE) (pa + PGSIZE) perm k va = mapped pte a pa perm (k + 1) va.
Proof.
  intros Ha Hk Hpte. unfold mapped. rewrite Hpte.
  assert (va / PGSIZE = a / PGSIZE ↔ a ≤ va < a + PGSIZE) as Hpage.
  { unfold PGSIZE in *. split; intros; dlia. }
  destruct (Z.eqb_spec (va / PGSIZE) (a / PGSIZE)) as [E|E].
  - apply Hpage in E as Hr. rewrite PGROUNDDOWN_eq.
    replace (va - va `mod` PGSIZE) with a by (unfold PGSIZE in *; dlia).
    rewrite Z.sub_diag, Z.add_0_r.
    repeat case_match; try done; unfold PGSIZE in *; lia.
  - assert (¬ (a ≤ va < a + PGSIZE)) by naive_solver.
    repeat case_match; try done; try (unfold PGSIZE in *; lia). f_equal. lia.
Qed.

Lemma wp_mappages_loop n fuel s root T l a pa perm (Q : Z → machine → Prop) :
  vm_inv s root T l → 0 ≤ a → a `mod` PGSIZE = 0 → a + Z.of_nat n * PGSIZE < MAXVA →
  0 ≤ perm < 1024 → pa `mod` PGSIZE = 0 → 0 ≤ pa → pa + Z.of_nat n * PGSIZE < 2 ^ 56 →
  (∀ i, 0 ≤ i ≤ Z.of_nat n → Z.land (pte_of (mem s) T (a + i * PGSIZE)) PTE_V = 0) →
  (n < fuel)%nat →
  (∀ r s' T' l' k, vm_inv s' root T' l' → vm_ext s T l s' T' l' → 0 ≤ k →
     (∀ va, pte_of (mem s') T' va = mapped (pte_of (mem s) T) a pa perm k va) →
     (r = 0 ∧ k = Z.of_nat n + 1 ∨ r = -1 ∧ k ≤ Z.of_nat n ∧ l' = []) → Q r s') →
  wp (mappages_loop fuel root a (a + Z.of_nat n * PGSIZE) pa perm) Q s.
Proof.
  revert fuel s T l a pa Q.
  induction n as [|n IH]; intros [|fuel] s T l a pa Q Hvm Ha Hal Hmax Hperm Hpal Hpa0 Hpa Hun Hf HQ;
    try lia;
    (eapply wp_mappages_step; [done|unfold PGSIZE in *; lia|done|split; [done|unfold PGSIZE in *; lia]| | |]).
  1, 4: rewrite <-(Hun 0) by lia; do 2 f_equal; lia.
  1, 3: intros s1 T1 Hvm1 Hext1 Hpte1; apply (HQ _ _ T1 [] 0);
    [done|done|lia| |right; split_and!; [done|lia|done]]; intros va; by rewrite mapped_0.
  all: intros s1 T1 l1 Hvm1 Hext1 Hpte1.
  - rewrite Z.add_0_r, Z.eqb_refl. apply wp_ret.
    apply (HQ _ _ T1 l1 1); [done|done|lia| |by left].
    intros va. rewrite <-(mapped_step _ (pte_of (mem s1) T1) a pa perm 0 va) by done.
    by rewrite mapped_0.
  - destruct (Z.eqb_spec a (a + Z.of_nat (S n) * PGSIZE)); [unfold PGSIZE in *; lia|].
    assert (MAXVA < 2 ^ 64) by done.
    rewrite !u64_small by (unfold PGSIZE in *; lia).
    replace (a + Z.of_nat (S n) * PGSIZE) with ((a + PGSIZE) + Z.of_nat n * PGSIZE) by lia.
    eapply IH; [done| | | |done| | | | |lia|]; try (unfold PGSIZE in *; lia).
    + unfold PGSIZE in *. rewrite <-Z.add_mod_idemp_l, Hal by lia. done.
    + unfold PGSIZE in *. rewrite <-Z.add_mod_idemp_l, Hpal by lia. done.
    + intros i Hi. rewrite Hpte1. destruct (Z.eqb_spec ((a + PGSIZE + i * PGSIZE) / PGSIZE) (a / PGSIZE)) as [E|_].
      * exfalso. unfold PGSIZE in *. dlia.
      * rewrite <-(Hun (i + 1)) by lia. do 2 f_equal. lia.
    + intros r s2 T2 l2 k Hvm2 Hext2 Hk Hpte2 Hr.
      apply (HQ _ _ T2 l2 (k + 1)); [done|by eapply vm_ext_trans|lia| |lia || naive_solver lia].
      intros va. rewrite Hpte2. by apply mapped_step.
Qed.

(** [mappages] of [n + 1] pages. *)
Lemma wp_mappages n s root T l va size pa perm (Q : Z → machine → Prop) :
  vm_inv s root T l → 0 ≤ va → 0 < size → va + size ≤ MAXVA →
  let a := PGROUNDDOWN va in
  PGROUNDDOWN (va + size - 1) = a + Z.of_nat n * PGSIZE →
  0 ≤ perm < 1024 → pa `mod` PGSIZE = 0 → 0 ≤ pa → pa + Z.of_nat n * PGSIZE < 2 ^ 56 →
  (∀ i, 0 ≤ i ≤ Z.of_nat n → Z.land (pte_of (mem s) T (a + i * PGSIZE)) PTE_V = 0) →
  (∀ r s' T' l' k, vm_inv s' root T' l' → vm_ext s T l s' T' l' → 0 ≤ k →
     (∀ va, pte_of (mem s') T' va = mapped (pte_of (mem s) T) a pa perm k va) →
     (r = 0 ∧ k = Z.of_nat n + 1 ∨ r = -1 ∧ k ≤ Z.of_nat n ∧ l' = []) → Q r s') →
  wp (mappages root va size pa perm) Q s.
Proof.
  intros Hvm Hva Hsz Hmax a Hlast Hperm Hpal Hpa0 Hpa Hun HQ. unfold mappages. fold a.
  assert (MAXVA < 2 ^ 64) by done.
  rewrite u64_small by lia. rewrite Hlast.
  pose proof (PGROUNDDOWN_le va). pose proof (PGROUNDDOWN_le (va + size - 1)).
  pose proof (PGROUNDDOWN_aligned va) as Hal. fold a in Hal.
  assert (0 ≤ a) by (unfold a; rewrite PGROUNDDOWN_eq; unfold PGSIZE; dlia).
  eapply wp_mappages_loop; try done; [lia|].
  unfold mappages_fuel. destruct (Z.leb_spec a (a + Z.of_nat n * PGSIZE)); [|unfold PGSIZE in *; lia].
  replace (a + Z.of_nat n * PGSIZE - a) with (Z.of_nat n * PGSIZE) by lia.
  rewrite Z.div_mul by done. lia.
Qed.

(** [mappages] of one page. *)
Lemma wp_mappages_one s root T l va pa perm (Q : Z → machine → Prop) :
  vm_inv s root T l → 0 ≤ va → va `mod` PGSIZE = 0 → va + PGSIZE ≤ MAXVA →
  0 ≤ perm < 1024 → pa_ok pa →
  Z.land (pte_of (mem s) T va) PTE_V = 0 →
  (∀ s' T', vm_inv s' root T' [] → vm_ext s T l s' T' [] →
     (∀ va', pte_of (mem s') T' va' = pte_of (mem s) T va') → Q (-1) s') →
  (∀ s' T' l', vm_inv s' root T' l' → vm_ext s T l s' T' l' →
     (∀ va', pte_of (mem s') T' va' =
        if va' / PGSIZE =? va / PGSIZE then leaf_pte pa perm else pte_of (mem s) T va') → Q 0 s') →
  wp (mappages root va PGSIZE pa perm) Q s.
Proof.
  intros Hvm Hva Hal Hmax Hperm Hpa Hun HQ1 HQ2. unfold mappages.
  assert (MAXVA < 2 ^ 64) by done.
  rewrite u64_small by (unfold PGSIZE in *; lia). rewrite !PGROUNDDOWN_eq, Hal, Z.sub_0_r.
  replace (va + PGSIZE - 1 - (va + PGSIZE - 1) `mod` PGSIZE) with va by (unfold PGSIZE in *; dlia).
  unfold mappages_fuel. rewrite Z.leb_refl, Z.sub_diag. change (Z.to_nat (0 / PGSIZE + 2)) with 2%nat.
  eapply wp_mappages_step; [done|unfold PGSIZE in *; lia|done|done|done|done|].
  intros s' T' l' ???. rewrite Z.eqb_refl. apply wp_ret. by eapply HQ2.
Qed.

End Mapping.
