(* ===== verification/Uvm.v ===== *)
(** * User address spaces: growing, shrinking and freeing

    An address space is a page table [T], the pages [U] of user memory it maps
    and owns (virtual page number to physical page), and the free list [l].
    [foot] is the set of physical pages of the three; every operation keeps it,
    so that no page is lost or handed to two owners, and leaves memory outside
    it alone. *)

From S2P Require Import Prelude Machine CString Kalloc Vm PageTable Mapping.

Abbreviation umap := (gmap Z Z).

(** [uvmalloc] maps user pages with these permissions. *)
Definition UPERM : Z := Z.lor (Z.lor (Z.lor PTE_W PTE_X) PTE_R) PTE_U.

Section Uvm.
Context `{Image}.

Record uvm_inv (s : machine) (root : Z) (T : ptmap) (l : list Z) (U : umap) : Prop := {
  uvm_vm : vm_inv s root T l;
  uvm_leaf vpn pa : U !! vpn = Some pa →
    (0 ≤ vpn < MAXVA / PGSIZE) ∧ page_ok pa ∧
    Z.land (pte_of (mem s) T (vpn * PGSIZE)) PTE_V ≠ 0 ∧
    PTE_FLAGS (pte_of (mem s) T (vpn * PGSIZE)) ≠ PTE_V ∧
    PTE2PA (pte_of (mem s) T (vpn * PGSIZE)) = pa;
  uvm_inj v1 v2 pa : U !! v1 = Some pa → U !! v2 = Some pa → v1 = v2;
  uvm_sep vpn pa : U !! vpn = Some pa → (pa ∉ l) ∧ ¬ owns T pa
}.

Definition maps_page (U : umap) (pa : Z) : Prop := ∃ vpn, U !! vpn = Some pa.

Definition foot (T : ptmap) (l : list Z) (U : umap) (pa : Z) : Prop :=
  owns T pa ∨ pa ∈ l ∨ maps_page U pa.

Definition outside (T : ptmap) (l : list Z) (U : umap) (x : Z) : Prop :=
  ∀ pa, foot T l U pa → ¬ in_page pa x.

Record uvm_step (s : machine) (T : ptmap) (l : list Z) (U : umap)
    (s' : machine) (T' : ptmap) (l' : list Z) (U' : umap) : Prop := {
  us_foot pa : foot T' l' U' pa ↔ foot T l U pa;
  us_frame : mem_eq_on (outside T l U) (mem s) (mem s');
  us_keep vpn pa : U !! vpn = Some pa → U' !! vpn = Some pa →
    mem_eq_on (in_page pa) (mem s) (mem s')
}.

(** The user pages are exactly the first [n]. *)
Definition covers (U : umap) (n : Z) : Prop := ∀ vpn, is_Some (U !! vpn) ↔ 0 ≤ vpn < n.

(** * Lemmas *)

Lemma uvm_step_refl s T l U : uvm_step s T l U s T l U.
Proof. by split. Qed.

Lemma outside_foot T l U T' l' U' x :
  (∀ pa, foot T' l' U' pa ↔ foot T l U pa) → outside T l U x → outside T' l' U' x.
Proof. intros Hf Ho pa Hpa. by apply Ho, Hf. Qed.

Lemma uvm_step_trans s T l U s1 T1 l1 U1 s2 T2 l2 U2 :
  uvm_step s T l U s1 T1 l1 U1 → uvm_step s1 T1 l1 U1 s2 T2 l2 U2 →
  (∀ vpn pa, U !! vpn = Some pa → U2 !! vpn = Some pa → U1 !! vpn = Some pa) →
  uvm_step s T l U s2 T2 l2 U2.
Proof.
  intros [Hf1 Ho1 Hk1] [Hf2 Ho2 Hk2] Hmid. split.
  - intros pa. by rewrite Hf2, Hf1.
  - intros x Hx. rewrite Ho1 by done. apply Ho2. by eapply outside_foot.
  - intros vpn pa E E2 x Hx. specialize (Hmid _ _ E E2).
    rewrite (Hk1 vpn pa) by done. by apply (Hk2 vpn pa).
Qed.

Lemma page_ok_aligned pa : page_ok pa → pa `mod` PGSIZE = 0.
Proof. by intros [? _]. Qed.

Lemma in_page_unique p q x : page_ok p → page_ok q → in_page p x → in_page q x → p = q.
Proof.
  intros Hp Hq Hx Hy. destruct (decide (p = q)) as [|Hne]; [done|].
  exfalso. by eapply (pages_disjoint p q x x); eauto using page_ok_aligned.
Qed.

Lemma valid_is_Some m T va : Z.land (pte_of m T va) PTE_V ≠ 0 → is_Some (T !! (0, vkey 0 va)).
Proof. unfold pte_of. destruct (T !! (0, vkey 0 va)); [by eexists|done]. Qed.

Section space.
Context {s : machine} {root : Z} {T : ptmap} {l : list Z} {U : umap}.
Context (Hinv : uvm_inv s root T l U).

Lemma foot_page_ok pa : foot T l U pa → page_ok pa.
Proof.
  destruct Hinv as [[Hk Hpt _] Hleaf _ _]. intros [Ho|[Hl|[vpn E]]].
  - by eapply owns_page_ok.
  - eapply elem_page_ok; [apply Hk|done].
  - by apply Hleaf in E as (_ & ? & _).
Qed.

(** Freeing one user page and clearing its entry. *)
Lemma uvm_free_page vpn pa s1 :
  U !! vpn = Some pa →
  kmem_inv s1 (pa :: l) → mem_eq_on (λ x, ¬ in_page pa x) (mem s) (mem s1) →
  let va := vpn * PGSIZE in
  let s2 := set_mem (store64 (mem s1) (slot_of T va) 0) s1 in
  uvm_inv s2 root T (pa :: l) (delete vpn U) ∧
  uvm_step s T l U s2 T (pa :: l) (delete vpn U) ∧
  (∀ va', pte_of (mem s2) T va' = if va' / PGSIZE =? vpn then 0 else pte_of (mem s) T va').
Proof.
  intros E Hk1 Hfr1 va s2. pose proof Hinv as [[Hk Hpt Hsep] Hleaf Hinj Husep].
  destruct (Husep _ _ E) as [Hnin Hown].
  destruct (Hleaf _ _ E) as (Hvpn & Hpok & HV & HF & HPA).
  assert (∀ q, page_ok q → q ≠ pa → mem_eq_on (in_page q) (mem s) (mem s1)) as Hpg.
  { intros q Hq Hne x Hx. apply Hfr1. intros Hx'. by destruct Hne; eapply in_page_unique. }
  assert (∀ q, owns T q → mem_eq_on (in_page q) (mem s) (mem s1)) as Hown1.
  { intros q Hq. apply Hpg; [by eapply owns_page_ok|]. by intros ->. }
  assert (vm_inv s1 root T (pa :: l)) as Hvm1.
  { split; [done|by eapply pt_inv_frame|]. intros q Hq. rewrite elem_of_cons.
    intros [->|Hq']; [done|]. by eapply Hsep. }
  destruct (vm_set_leaf s1 root T (pa :: l) va 0 Hvm1) as (Hvm2 & Hext2 & Hpte2);
    [by eapply valid_is_Some|lia|].
  assert (∀ va', pte_of (mem s2) T va' = if va' / PGSIZE =? vpn then 0 else pte_of (mem s) T va') as Hpte.
  { intros va'. unfold s2. rewrite Hpte2. unfold va. rewrite Z.div_mul by done.
    destruct (va' / PGSIZE =? vpn); [done|]. by apply pte_of_frame. }
  assert (∀ q, page_ok q → q ≠ pa → ¬ owns T q → mem_eq_on (in_page q) (mem s) (mem s2)) as Hpg2.
  { intros q Hq Hne Hnown x Hx. rewrite (Hpg q) by done. apply (ext_frame _ _ _ _ _ _ Hext2).
    intros p Hp Hx'. apply Hnown. rewrite (in_page_unique q p x); try done.
    by eapply owns_page_ok. }
  split_and!; [split|split|done].
  - done.
  - intros v q. rewrite lookup_delete_Some. intros [Hne Eq]. rewrite !Hpte.
    rewrite Z.div_mul by done. destruct (Z.eqb_spec v vpn); [congruence|]. by apply Hleaf.
  - intros v1 v2 q. rewrite !lookup_delete_Some. intros [_ E1] [_ E2]. by eapply Hinj.
  - intros v q. rewrite lookup_delete_Some, elem_of_cons. intros [Hne Eq].
    destruct (Husep _ _ Eq) as [? ?]. split; [|done]. intros [->|?]; [|done].
    apply Hne. by eapply Hinj.
  - intros q. unfold foot, maps_page. rewrite elem_of_cons. setoid_rewrite lookup_delete_Some.
    split; [naive_solver|]. intros [?|[?|(v & Ev)]]; [by left|by auto|].
    destruct (decide (v = vpn)) as [->|]; [|right; right; by exists v].
    right; left; left. congruence.
  - intros x Hx. rewrite Hfr1 by (apply Hx; right; right; by eexists).
    apply (ext_frame _ _ _ _ _ _ Hext2). intros p Hp. apply Hx. by left.
  - intros v q Eq. rewrite lookup_delete_Some. intros [Hne _]. apply Hpg2.
    + by apply Hleaf in Eq as (_ & ? & _).
    + intros ->. apply Hne. by eapply Hinj.
    + by apply Husep in Eq as [_ ?].
Qed.
End space.

(** ** uvmunmap *)

(** The entries after unmapping the pages [lo, hi). *)
Definition unmapped (pte : Z → Z) (lo hi : Z) (va : Z) : Z :=
  if (lo <=? va / PGSIZE) && (va / PGSIZE <? hi) then 0 else pte va.

Definition drop_pages (U : umap) (lo hi : Z) : umap :=
  filter (λ kv, ¬ (lo ≤ kv.1 < hi)) U.

Lemma lookup_drop_pages U lo hi vpn :
  drop_pages U lo hi !! vpn = if decide (lo ≤ vpn < hi) then None else U !! vpn.
Proof.
  unfold drop_pages. rewrite map_lookup_filter. destruct (U !! vpn) as [pa|]; simpl.
  - destruct (decide (lo ≤ vpn < hi)); by rewrite ?option_guard_False, ?option_guard_True by naive_solver.
  - by destruct (decide _).
Qed.

Lemma drop_pages_empty U lo hi : hi ≤ lo → drop_pages U lo hi = U.
Proof.
  intros Hle. apply map_eq. intros vpn. rewrite lookup_drop_pages. by destruct (decide _); [lia|].
Qed.

Lemma drop_pages_step U lo hi : lo < hi → drop_pages (delete lo U) (lo + 1) hi = drop_pages U lo hi.
Proof.
  intros Hlt. apply map_eq. intros vpn. rewrite !lookup_drop_pages, lookup_delete.
  repeat case_decide; try done; lia.
Qed.

Lemma wp_uvmunmap_free_loop n fuel s root T l U lo (Q : unit → machine → Prop) :
  uvm_inv s root T l U → 0 ≤ lo → (lo + Z.of_nat n) * PGSIZE ≤ MAXVA →
  (∀ vpn, lo ≤ vpn < lo + Z.of_nat n → is_Some (U !! vpn)) → (n < fuel)%nat →
  (∀ s' l', let U' := drop_pages U lo (lo + Z.of_nat n) in
     uvm_inv s' root T l' U' → uvm_step s T l U s' T l' U' →
     (∀ va, pte_of (mem s') T va = unmapped (pte_of (mem s) T) lo (lo + Z.of_nat n) va) →
     (∀ pa, pa ∈ l → pa ∈ l') →
     Q tt s') →
  wp (uvmunmap_loop fuel root (lo * PGSIZE) ((lo + Z.of_nat n) * PGSIZE) true) Q s.
Proof.
  revert fuel s l U lo Q.
  induction n as [|n IH]; intros [|fuel] s l U lo Q Hinv Hlo Hmax Hcov Hf HQ; try lia; cbn [uvmunmap_loop].
  { rewrite Z.add_0_r, Z.ltb_irrefl. apply wp_ret. eapply (HQ s l); rewrite ?Z.add_0_r.
    - by rewrite drop_pages_empty.
    - rewrite drop_pages_empty by done. apply uvm_step_refl.
    - intros va. unfold unmapped. repeat case_match; try done; lia.
    - done. }
  destruct (Z.ltb_spec (lo * PGSIZE) ((lo + Z.of_nat (S n)) * PGSIZE)); [|unfold PGSIZE in *; lia].
  destruct (Hcov lo) as [pa E]; [lia|].
  pose proof Hinv as [[Hk Hpt Hsep] Hleaf Hinj Husep].
  destruct (Hleaf _ _ E) as (Hvpn & Hpok & HV & HF & HPA).
  assert (MAXVA < 2 ^ 64) by done.
  assert (is_Some (T !! (0, vkey 0 (lo * PGSIZE)))) as Hs by (by eapply valid_is_Some).
  wp_step. eapply wp_of_eq; [eapply walk_noalloc; [done|unfold PGSIZE in *; lia]|].
  rewrite (proj2 (Z.eqb_neq _ _) (slot_of_nonzero Hpt _ Hs)).
  unfold read64. wp_run. rewrite (load64_slot_of (lo * PGSIZE)) by done.
  rewrite (proj2 (Z.eqb_neq _ _) HV), (proj2 (Z.eqb_neq _ _) HF), HPA. wp_run.
  destruct (Husep _ _ E) as [Hnin Hown].
  eapply wp_kfree; [done|done|done|]. intros s1 Hk1 Hfr1.
  destruct (uvm_free_page Hinv lo pa s1 E Hk1 Hfr1) as (Hinv2 & Hstep2 & Hpte2).
  unfold write64, do_mem. wp_run.
  rewrite u64_small by (unfold PGSIZE in *; lia).
  replace (lo * PGSIZE + PGSIZE) with ((lo + 1) * PGSIZE) by lia.
  replace (lo + Z.of_nat (S n)) with ((lo + 1) + Z.of_nat n) in * by lia.
  eapply IH; [exact Hinv2|lia|lia| |lia|].
  { intros vpn Hv. rewrite lookup_delete_ne by lia. apply Hcov. lia. }
  intros s3 l3 U3 Hinv3 Hstep3 Hpte3 Hl3. unfold U3 in *. clear U3.
  rewrite drop_pages_step in * by lia. eapply (HQ s3 l3).
  - done.
  - eapply uvm_step_trans; [exact Hstep2|exact Hstep3|].
    intros vpn q Eq. rewrite lookup_drop_pages. case_decide; [done|]. intros _.
    rewrite lookup_delete_ne by lia. done.
  - intros va. rewrite Hpte3. unfold unmapped. rewrite Hpte2.
    repeat case_match; try done; lia.
  - intros q Hq. apply Hl3. set_solver.
Qed.

Lemma wp_uvmunmap_free s root T l U lo n (Q : unit → machine → Prop) :
  uvm_inv s root T l U → 0 ≤ lo → 0 ≤ n → (lo + n) * PGSIZE ≤ MAXVA →
  (∀ vpn, lo ≤ vpn < lo + n → is_Some (U !! vpn)) →
  (∀ s' l', let U' := drop_pages U lo (lo + n) in
     uvm_inv s' root T l' U' → uvm_step s T l U s' T l' U' →
     (∀ va, pte_of (mem s') T va = unmapped (pte_of (mem s) T) lo (lo + n) va) →
     (∀ pa, pa ∈ l → pa ∈ l') →
     Q tt s') →
  wp (uvmunmap root (lo * PGSIZE) n true) Q s.
Proof.
  intros Hinv Hlo Hn Hmax Hcov HQ. unfold uvmunmap.
  assert (MAXVA < 2 ^ 64) by done.
  rewrite Z.mod_mul by done. simpl.
  rewrite (u64_small (n * PGSIZE)) by (unfold PGSIZE in *; lia).
  rewrite u64_small by (unfold PGSIZE in *; lia).
  replace (lo * PGSIZE + n * PGSIZE) with ((lo + Z.of_nat (Z.to_nat n)) * PGSIZE) by (unfold PGSIZE; lia).
  replace (lo + n) with (lo + Z.of_nat (Z.to_nat n)) in * by lia.
  eapply wp_uvmunmap_free_loop; try done.
  replace ((lo + Z.of_nat (Z.to_nat n)) * PGSIZE - lo * PGSIZE) with (n * PGSIZE) by (unfold PGSIZE; lia).
  rewrite Z.div_mul by done. lia.
Qed.

(** ** uvmdealloc *)

(** Number of pages of an address space of [sz] bytes. *)
Definition npages (sz : Z) : Z := PGROUNDUP sz / PGSIZE.

Lemma npages_mul sz : npages sz * PGSIZE = PGROUNDUP sz.
Proof.
  unfold npages. pose proof (PGROUNDUP_aligned sz). unfold PGSIZE in *. dlia.
Qed.

Lemma npages_mono a b : 0 ≤ a ≤ b → b ≤ MAXVA → npages a ≤ npages b.
Proof.
  intros Hab Hb. assert (MAXVA < 2 ^ 63) by done.
  pose proof (PGROUNDUP_ge a ltac:(unfold PGSIZE; lia)).
  pose proof (PGROUNDUP_ge b ltac:(unfold PGSIZE; lia)).
  pose proof (PGROUNDUP_aligned a). pose proof (PGROUNDUP_aligned b).
  unfold npages, PGSIZE in *. dlia.
Qed.

Lemma npages_bound a : 0 ≤ a ≤ MAXVA → 0 ≤ npages a ∧ PGROUNDUP a ≤ MAXVA.
Proof.
  intros Ha. assert (MAXVA < 2 ^ 63 ∧ MAXVA `mod` PGSIZE = 0) as [? ?] by done.
  pose proof (PGROUNDUP_ge a ltac:(unfold PGSIZE; lia)).
  pose proof (PGROUNDUP_aligned a). unfold npages, PGSIZE in *. dlia.
Qed.

Lemma wp_uvmdealloc s root T l U oldsz newsz (Q : Z → machine → Prop) :
  uvm_inv s root T l U → 0 ≤ newsz → 0 ≤ oldsz ≤ MAXVA →
  (∀ vpn, npages newsz ≤ vpn < npages oldsz → is_Some (U !! vpn)) →
  (∀ s' l', let U' := drop_pages U (npages newsz) (npages oldsz) in
     newsz < oldsz →
     uvm_inv s' root T l' U' → uvm_step s T l U s' T l' U' →
     (∀ va, pte_of (mem s') T va = unmapped (pte_of (mem s) T) (npages newsz) (npages oldsz) va) →
     Q newsz s') →
  (oldsz ≤ newsz → Q oldsz s) →
  wp (uvmdealloc root oldsz newsz) Q s.
Proof.
  intros Hinv Hn Ho Hcov HQ1 HQ2. unfold uvmdealloc.
  destruct (Z.geb_spec newsz oldsz) as [|Hlt]; [apply wp_ret; auto|].
  pose proof (npages_mul newsz) as En. pose proof (npages_mul oldsz) as Eo.
  pose proof (npages_bound newsz ltac:(lia)). pose proof (npages_bound oldsz ltac:(lia)).
  pose proof (npages_mono newsz oldsz ltac:(lia) ltac:(lia)).
  assert (MAXVA = 2 ^ 38) as HM by done.
  rewrite <-En, <-Eo. wp_step.
  destruct (Z.ltb_spec (npages newsz * PGSIZE) (npages oldsz * PGSIZE)).
  - replace (npages oldsz * PGSIZE - npages newsz * PGSIZE)
      with ((npages oldsz - npages newsz) * PGSIZE) by lia.
    rewrite (u64_small (_ * _)) by (unfold PGSIZE in *; lia).
    rewrite Z.div_mul by done. rewrite s32_small by (unfold PGSIZE in *; lia).
    rewrite u64_small by (unfold PGSIZE in *; lia).
    eapply (wp_uvmunmap_free _ _ _ _ _ (npages newsz)); [done|lia|lia|lia| |].
    { intros vpn Hv. apply Hcov. lia. }
    replace (npages newsz + (npages oldsz - npages newsz)) with (npages oldsz) by lia.
    intros s' l' U' ????. apply wp_ret. by eapply HQ1.
  - apply wp_ret, wp_ret. assert (npages newsz = npages oldsz) as E by (unfold PGSIZE in *; lia).
    eapply (HQ1 s l); [done| | |]; rewrite E, ?drop_pages_empty by done; [done|apply uvm_step_refl|].
    intros va. unfold unmapped. repeat case_match; try done; lia.
Qed.

(** ** uvmalloc *)

Lemma vm_ext_new_page s T l s' T' l' p :
  vm_ext s T l s' T' l' → ¬ owns T p → p ∉ l → ¬ owns T' p ∧ p ∉ l'.
Proof.
  intros [_ (used & -> & Ho) _] Hown Hnin. rewrite Ho. set_solver.
Qed.

(** Operations that only extend the table and change other entries keep the
    user pages. *)
Lemma uvm_inv_ext s root T l U s' T' l' :
  uvm_inv s root T l U → vm_inv s' root T' l' → vm_ext s T l s' T' l' →
  (∀ vpn pa, U !! vpn = Some pa →
     pte_of (mem s') T' (vpn * PGSIZE) = pte_of (mem s) T (vpn * PGSIZE)) →
  uvm_inv s' root T' l' U.
Proof.
  intros [Hvm Hleaf Hinj Hsep] Hvm' Hext Hpte. split; [done| |done|].
  - intros vpn pa E. rewrite (Hpte _ _ E). by apply Hleaf.
  - intros vpn pa E. destruct (Hsep _ _ E).
    by destruct (vm_ext_new_page _ _ _ _ _ _ pa Hext).
Qed.

Lemma uvm_keep_ext s root T l U s' T' l' vpn pa :
  uvm_inv s root T l U → vm_inv s' root T' l' → vm_ext s T l s' T' l' →
  U !! vpn = Some pa → mem_eq_on (in_page pa) (mem s) (mem s').
Proof.
  intros [Hvm Hleaf Hinj Hsep] Hvm' Hext E x Hx. apply (ext_frame _ _ _ _ _ _ Hext).
  intros q Hq Hx'. destruct (Hsep _ _ E) as [Hnin Hown].
  destruct (vm_ext_new_page _ _ _ _ _ _ pa Hext Hown Hnin) as [Hno _]. apply Hno.
  rewrite (in_page_unique pa q x); try done.
  - by apply Hleaf in E as (_ & ? & _).
  - eapply owns_page_ok; [apply Hvm'|done].
Qed.

(** A page taken from the free list and written to. *)
Lemma uvm_take_page s root T p l U s2 :
  uvm_inv s root T (p :: l) U → kmem_inv s2 l →
  mem_eq_on (λ x, ¬ in_page p x) (mem s) (mem s2) →
  uvm_inv s2 root T l U ∧ page_ok p ∧ (p ∉ l) ∧ ¬ owns T p ∧ ¬ maps_page U p ∧
  (∀ va, pte_of (mem s2) T va = pte_of (mem s) T va).
Proof.
  intros [[Hk Hpt Hsep] Hleaf Hinj Husep] Hk2 Hfr.
  destruct Hk as [_ [Hp _]%Forall_cons [Hnin _]%NoDup_cons].
  assert (¬ owns T p) as Hown by (intros Ho; apply (Hsep p Ho); set_solver).
  assert (¬ maps_page U p) as Hmp by (intros [v E]; destruct (Husep _ _ E); set_solver).
  assert (∀ pa, owns T pa → mem_eq_on (in_page pa) (mem s) (mem s2)) as Hfr2.
  { intros q Hq x Hx. apply Hfr. intros Hx'. apply Hown.
    rewrite (in_page_unique p q x); try done. by eapply owns_page_ok. }
  assert (∀ va, pte_of (mem s2) T va = pte_of (mem s) T va) as Hpte.
  { intros va. by apply pte_of_frame. }
  split; [|done]. split.
  - split; [done|by eapply pt_inv_frame|]. intros q Hq Hq'. eapply Hsep; [done|set_solver].
  - intros vpn pa E. rewrite Hpte. by apply Hleaf.
  - done.
  - intros vpn pa E. destruct (Husep _ _ E). set_solver.
Qed.

(** The page [p] added at virtual page [vpn]. *)
Lemma uvm_add_page s root T p l U s2 s3 T3 l3 vpn perm :
  uvm_inv s root T (p :: l) U → uvm_inv s2 root T l U →
  page_ok p → p ∉ l → ¬ owns T p → ¬ maps_page U p →
  mem_eq_on (λ x, ¬ in_page p x) (mem s) (mem s2) →
  vm_inv s3 root T3 l3 → vm_ext s2 T l s3 T3 l3 →
  0 ≤ vpn < MAXVA / PGSIZE → U !! vpn = None → 0 ≤ perm < 1024 → Z.lor perm PTE_V ≠ PTE_V →
  (∀ va, pte_of (mem s3) T3 va =
     if va / PGSIZE =? vpn then leaf_pte p perm else pte_of (mem s2) T va) →
  uvm_inv s3 root T3 l3 (<[vpn := p]> U) ∧
  uvm_step s T (p :: l) U s3 T3 l3 (<[vpn := p]> U) ∧
  mem_eq_on (in_page p) (mem s2) (mem s3).
Proof.
  intros Hinv Hinv2 Hp Hnin Hown Hmp Hfr Hvm3 Hext Hvpn Hnone Hperm Hleafperm Hpte.
  destruct (vm_ext_new_page _ _ _ _ _ _ p Hext Hown Hnin) as [Hown3 Hnin3].
  assert (pa_ok p) as Hpaok by (by apply page_ok_pa_ok).
  split_and!; [split|split|].
  - done.
  - intros v q. rewrite lookup_insert_Some. rewrite Hpte, Z.div_mul by done.
    intros [[<- <-]|[Hne E]].
    + rewrite Z.eqb_refl, leaf_pte_valid, PTE_FLAGS_leaf, PTE2PA_leaf by done. done.
    + destruct (Z.eqb_spec v vpn); [congruence|]. by apply (uvm_leaf _ _ _ _ _ Hinv2).
  - intros v1 v2 q. rewrite !lookup_insert_Some.
    intros [[<- <-]|[? E1]] [[<- E]|[? E2]]; try done.
    + destruct Hmp. by eexists.
    + subst q. destruct Hmp. by eexists.
    + by eapply (uvm_inj _ _ _ _ _ Hinv2).
  - intros v q. rewrite lookup_insert_Some. intros [[<- <-]|[Hne E]]; [done|].
    destruct (uvm_sep _ _ _ _ _ Hinv2 _ _ E).
    by destruct (vm_ext_new_page _ _ _ _ _ _ q Hext).
  - intros q. destruct Hext as [_ (used & -> & Ho) _]. unfold foot. rewrite Ho.
    rewrite elem_of_cons, elem_of_app. unfold maps_page. setoid_rewrite lookup_insert_Some.
    split.
    + intros [[?|?]|[?|(v & [[_ ?]|[_ ?]])]]; eauto 6.
    + intros [?|[[->|[?|?]]|[v E]]]; eauto 7.
      destruct (decide (v = vpn)) as [->|]; [congruence|]. eauto 8.
  - intros x Hx. rewrite Hfr by (apply Hx; right; left; set_solver).
    apply (ext_frame _ _ _ _ _ _ Hext). intros q Hq. apply Hx.
    destruct Hext as [_ (used & -> & Ho) _]. apply Ho in Hq as [?|?]; [by left|].
    right; left. set_solver.
  - intros v q E _ x Hx.
    rewrite Hfr; [by eapply (uvm_keep_ext s2)|]. intros Hx'. apply Hmp. exists v.
    rewrite (in_page_unique p q x); try done.
    by apply (uvm_leaf _ _ _ _ _ Hinv2) in E as (_ & ? & _).
  - intros x Hx. apply (ext_frame _ _ _ _ _ _ Hext). intros q Hq Hx'. apply Hown3.
    rewrite (in_page_unique p q x); try done. eapply owns_page_ok; [apply Hvm3|done].
Qed.

(** The page [p] given back after a failed [mappages]. *)
Lemma uvm_return_page s root T p l U s2 s3 T3 s4 :
  uvm_inv s root T (p :: l) U → uvm_inv s2 root T l U →
  page_ok p → p ∉ l → ¬ owns T p → ¬ maps_page U p →
  mem_eq_on (λ x, ¬ in_page p x) (mem s) (mem s2) →
  vm_inv s3 root T3 [] → vm_ext s2 T l s3 T3 [] →
  (∀ va, pte_of (mem s3) T3 va = pte_of (mem s2) T va) →
  kmem_inv s4 [p] → mem_eq_on (λ x, ¬ in_page p x) (mem s3) (mem s4) →
  uvm_inv s4 root T3 [p] U ∧ uvm_step s T (p :: l) U s4 T3 [p] U ∧
  (∀ va, pte_of (mem s4) T3 va = pte_of (mem s2) T va).
Proof.
  intros Hinv Hinv2 Hp Hnin Hown Hmp Hfr Hvm3 Hext Hpte Hk4 Hfr4.
  destruct (vm_ext_new_page _ _ _ _ _ _ p Hext Hown Hnin) as [Hown3 _].
  assert (uvm_inv s3 root T3 [] U) as Hinv3 by (eapply uvm_inv_ext; eauto).
  assert (∀ q, page_ok q → q ≠ p → mem_eq_on (in_page q) (mem s3) (mem s4)) as Hpg.
  { intros q Hq Hne x Hx. apply Hfr4. intros Hx'. by destruct Hne; eapply in_page_unique. }
  assert (∀ q, owns T3 q → mem_eq_on (in_page q) (mem s3) (mem s4)) as Hpgo.
  { intros q Hq. apply Hpg; [eapply owns_page_ok; [apply Hvm3|done]|]. by intros ->. }
  assert (∀ va, pte_of (mem s4) T3 va = pte_of (mem s2) T va) as Hpte4.
  { intros va. rewrite <-Hpte. by apply pte_of_frame. }
  split_and!; [split|split|done].
  - split; [done|eapply pt_inv_frame; [apply Hvm3|done]|].
    intros q Hq. rewrite list_elem_of_singleton. by intros ->.
  - intros v q E. rewrite Hpte4. by apply (uvm_leaf _ _ _ _ _ Hinv2).
  - apply (uvm_inj _ _ _ _ _ Hinv2).
  - intros v q E. destruct (uvm_sep _ _ _ _ _ Hinv3 _ _ E). split; [|done].
    rewrite list_elem_of_singleton. intros ->. destruct Hmp. by eexists.
  - intros q. destruct Hext as [_ (used & -> & Ho) _]. unfold foot. rewrite Ho, app_nil_r.
    set_solver.
  - intros x Hx. rewrite Hfr by (apply Hx; right; left; set_solver).
    rewrite <-Hfr4 by (apply Hx; right; left; set_solver).
    apply (ext_frame _ _ _ _ _ _ Hext). intros q Hq. apply Hx.
    destruct Hext as [_ (used & -> & Ho) _]. apply Ho in Hq as [?|?]; [by left|].
    right; left. set_solver.
  - intros v q E _ x Hx.
    assert (page_ok q ∧ q ≠ p) as [Hq Hne].
    { split; [by apply (uvm_leaf _ _ _ _ _ Hinv2) in E as (_ & ? & _)|].
      intros ->. apply Hmp. by eexists. }
    rewrite Hfr by (intros Hx'; by destruct Hne; eapply in_page_unique).
    rewrite (uvm_keep_ext s2 root T l U s3 T3 [] v q) by done. by apply (Hpg q Hq Hne).
Qed.

(** Pages have been added to an address space: [base, v), with permissions [perm]
    and contents [byte], by page number and offset. *)
Record grown (perm : Z → Z) (byte : Z → Z → Z) (root base v : Z) (s0 : machine) (T0 : ptmap) (l0 : list Z) (U0 : umap)
    (s : machine) (T : ptmap) (l : list Z) (U : umap) : Prop := {
  gr_inv : uvm_inv s root T l U;
  gr_step : uvm_step s0 T0 l0 U0 s T l U;
  gr_old vpn : ¬ (base ≤ vpn < v) → U !! vpn = U0 !! vpn;
  gr_new vpn : base ≤ vpn < v → ∃ pa, U !! vpn = Some pa ∧
    pte_of (mem s) T (vpn * PGSIZE) = leaf_pte pa (perm vpn) ∧
    (∀ x, in_page pa x → load8 (mem s) x = byte vpn (x - pa));
  gr_pte va : ¬ (base ≤ va / PGSIZE < v) → pte_of (mem s) T va = pte_of (mem s0) T0 va
}.

(** The state of [uvmalloc]'s loop: the new pages are zeroed. *)
Definition growing : Z → Z → Z → machine → ptmap → list Z → umap → machine → ptmap → list Z → umap → Prop :=
  grown (λ _, UPERM) (λ _ _, 0).

Lemma grown_refl perm byte root base s T l U : uvm_inv s root T l U → grown perm byte root base base s T l U s T l U.
Proof. intros Hinv. split; [done|apply uvm_step_refl|done|intros; lia|done]. Qed.

Lemma UPERM_ok : 0 ≤ UPERM < 1024 ∧ Z.lor UPERM PTE_V ≠ PTE_V.
Proof. done. Qed.

(** One more page. *)
Lemma grown_add perm byte root base v s0 T0 l0 U0 s T p l U s2 s3 T3 l3 :
  grown perm byte root base v s0 T0 l0 U0 s T (p :: l) U →
  0 ≤ perm v < 1024 → Z.lor (perm v) PTE_V ≠ PTE_V →
  0 ≤ base ≤ v → v < MAXVA / PGSIZE → U0 !! v = None →
  (∀ vpn, base ≤ vpn → U0 !! vpn = None) →
  kmem_inv s2 l → mem_eq_on (λ x, ¬ in_page p x) (mem s) (mem s2) →
  (∀ x, in_page p x → load8 (mem s2) x = byte v (x - p)) →
  vm_inv s3 root T3 l3 → vm_ext s2 T l s3 T3 l3 →
  (∀ va, pte_of (mem s3) T3 va =
     if va / PGSIZE =? v then leaf_pte p (perm v) else pte_of (mem s2) T va) →
  grown perm byte root base (v + 1) s0 T0 l0 U0 s3 T3 l3 (<[v := p]> U).
Proof.
  intros [Hinv Hstep Hold Hnew Hpte] Hperm Hleaf Hbase Hv Hnone Hnone0 Hk2 Hfr Hz Hvm3 Hext Hpte3.
  destruct (uvm_take_page _ _ _ _ _ _ _ Hinv Hk2 Hfr) as (Hinv2 & Hp & Hnin & Hown & Hmp & Hpte2).
  assert (U !! v = None) as HUv by (rewrite Hold by lia; done).
  destruct (uvm_add_page s root T p l U s2 s3 T3 l3 v (perm v)) as (Hinv3 & Hstep3 & Hpg3);
    try done; [lia|].
  split.
  - done.
  - eapply uvm_step_trans; [done..|]. intros vpn q E0 E3.
    rewrite Hold; [done|]. intros Hr. rewrite Hnone0 in E0 by lia. done.
  - intros vpn Hr. rewrite lookup_insert_ne by lia. apply Hold. lia.
  - intros vpn Hr. destruct (decide (vpn = v)) as [->|Hne].
    + exists p. rewrite lookup_insert_eq, Hpte3, Z.div_mul, Z.eqb_refl by done.
      split_and!; [done..|]. intros x Hx. rewrite <-Hpg3 by done. by apply Hz.
    + destruct (Hnew vpn) as (pa & E & Epte & Hzero); [lia|]. exists pa.
      rewrite lookup_insert_ne by done. rewrite Hpte3, Z.div_mul by done.
      destruct (Z.eqb_spec vpn v); [done|]. rewrite Hpte2. split_and!; [done..|].
      intros x Hx. rewrite <-(us_keep _ _ _ _ _ _ _ _ Hstep3 vpn pa); [by apply Hzero|done| |done].
      by rewrite lookup_insert_ne.
  - intros va Hr. rewrite Hpte3. destruct (Z.eqb_spec (va / PGSIZE) v); [lia|].
    rewrite Hpte2. apply Hpte. lia.
Qed.

(** A step that keeps the user pages. *)
Lemma grown_step perm byte root base v s0 T0 l0 U0 s T l U s' T' l' :
  grown perm byte root base v s0 T0 l0 U0 s T l U →
  uvm_inv s' root T' l' U → uvm_step s T l U s' T' l' U → (∀ va, pte_of (mem s') T' va = pte_of (mem s) T va) →
  grown perm byte root base v s0 T0 l0 U0 s' T' l' U.
Proof.
  intros [_ Hstep Hold Hnew Hpte] Hinv' Hstep' Hpte'. split; [done| |done| |].
  - eapply uvm_step_trans; eauto.
  - intros vpn Hr. destruct (Hnew vpn Hr) as (pa & E & Epte & Hb). exists pa.
    rewrite Hpte'. split_and!; [done..|]. intros x Hx. rewrite <-(us_keep _ _ _ _ _ _ _ _ Hstep' vpn pa); auto.
  - intros va Hr. rewrite Hpte'. by apply Hpte.
Qed.

(** What a failed [uvmalloc] leaves: the user pages and valid entries it
    started with; the table may have gained (empty) page-table pages. *)
Record restored (root base hi : Z) (s0 : machine) (T0 : ptmap) (l0 : list Z) (U0 : umap)
    (s : machine) (T : ptmap) (l : list Z) : Prop := {
  rs_inv : uvm_inv s root T l U0;
  rs_step : uvm_step s0 T0 l0 U0 s T l U0;
  rs_pte va : ¬ (base ≤ va / PGSIZE < hi) → pte_of (mem s) T va = pte_of (mem s0) T0 va;
  rs_inval va : base ≤ va / PGSIZE < hi → Z.land (pte_of (mem s) T va) PTE_V = 0
}.

(** The clean-up: [uvmdealloc(pagetable, a, oldsz)]. *)
Lemma wp_uvmalloc_undo perm byte root base v hi s0 T0 l0 U0 s T l U (Q : Z → machine → Prop) :
  grown perm byte root base v s0 T0 l0 U0 s T l U →
  0 ≤ base ≤ v → v ≤ hi → v * PGSIZE ≤ MAXVA → (∀ vpn, base ≤ vpn → U0 !! vpn = None) →
  (∀ va, base ≤ va / PGSIZE < hi → Z.land (pte_of (mem s0) T0 va) PTE_V = 0) →
  (∀ s' T' l', restored root base hi s0 T0 l0 U0 s' T' l' → Q 0 s') →
  wp (uvmdealloc root (v * PGSIZE) (base * PGSIZE) ;; mret 0) Q s.
Proof.
  intros [Hinv Hstep Hold Hnew Hpte] Hbase Hhi Hmax Hnone0 Hinval HQ. wp_step.
  assert (MAXVA < 2 ^ 63) by done.
  assert (∀ n, 0 ≤ n → n * PGSIZE ≤ MAXVA → npages (n * PGSIZE) = n) as Hnp.
  { intros n ? ?. unfold npages. rewrite PGROUNDUP_id, Z.div_mul; [done|done| |].
    - unfold PGSIZE in *. lia.
    - apply Z.mod_mul. done. }
  assert (base * PGSIZE ≤ MAXVA) by (unfold PGSIZE in *; lia).
  assert (drop_pages U base v = U0) as HU.
  { apply map_eq. intros vpn. rewrite lookup_drop_pages. case_decide.
    - symmetry. apply Hnone0. lia.
    - by apply Hold. }
  eapply wp_uvmdealloc; [done|unfold PGSIZE in *; lia|unfold PGSIZE in *; lia|..];
    rewrite ?Hnp by (lia || done).
  - intros vpn Hv. destruct (Hnew vpn) as (pa & E & _); [lia|]. by eexists.
  - intros s' l' U' Hlt Hinv' Hstep' Hpte'. apply wp_ret. unfold U' in *. rewrite HU in *.
    eapply (HQ s' T l'). split.
    + done.
    + eapply uvm_step_trans; [done..|]. intros vpn pa E0 _. rewrite Hold; [done|].
      intros Hr. rewrite Hnone0 in E0 by lia. done.
    + intros va Hr. rewrite Hpte'. unfold unmapped.
      repeat case_match; try (exfalso; lia). apply Hpte. lia.
    + intros va Hr. rewrite Hpte'. unfold unmapped. case_match; [done|].
      rewrite Hpte by lia. by apply Hinval.
  - intros Hle. apply wp_ret. assert (v = base) as -> by (unfold PGSIZE in *; lia).
    assert (U = U0) as ->. { rewrite <-HU. by rewrite drop_pages_empty. }
    eapply (HQ s T l). split; [done..| |].
    + intros va Hr. apply Hpte. lia.
    + intros va Hr. rewrite Hpte by lia. by apply Hinval.
Qed.

Lemma wp_uvmalloc_loop n fuel root base v newsz s0 T0 l0 U0 s T l U (Q : Z → machine → Prop) :
  growing root base v s0 T0 l0 U0 s T l U →
  0 ≤ base ≤ v → 0 ≤ newsz ≤ MAXVA - PGSIZE → v + Z.of_nat n = Z.max base (npages newsz) →
  (∀ vpn, base ≤ vpn → U0 !! vpn = None) →
  (∀ va, base ≤ va / PGSIZE < Z.max base (npages newsz) → Z.land (pte_of (mem s0) T0 va) PTE_V = 0) →
  base * PGSIZE ≤ MAXVA → (n < fuel)%nat →
  (∀ s' T' l' U', growing root base (Z.max base (npages newsz)) s0 T0 l0 U0 s' T' l' U' → Q newsz s') →
  (∀ s' T' l', restored root base (Z.max base (npages newsz)) s0 T0 l0 U0 s' T' l' → Q 0 s') →
  wp (uvmalloc_loop fuel root (base * PGSIZE) (v * PGSIZE) newsz) Q s.
Proof.
  revert fuel v s T l U.
  induction n as [|n IH];
    intros [|fuel] v s T l U Hgr Hbase Hnew Hn Hnone0 Hinval Hbmax Hf HQ1 HQ2; try lia;
    cbn [uvmalloc_loop];
    pose proof (npages_mul newsz) as Enp;
    (assert (MAXVA < 2 ^ 63) as HM by done);
    (assert (newsz ≤ PGROUNDUP newsz < newsz + PGSIZE) as Hge
      by (apply PGROUNDUP_ge; unfold PGSIZE in *; lia));
    (assert (0 ≤ npages newsz ∧ PGROUNDUP newsz ≤ MAXVA) as Hnb
      by (apply npages_bound; unfold PGSIZE in *; lia)).
  { destruct (Z.ltb_spec (v * PGSIZE) newsz); [unfold PGSIZE in *; lia|].
    apply wp_ret. eapply HQ1. replace (Z.max base (npages newsz)) with v by lia. done. }
  assert (v < npages newsz) by lia.
  destruct (Z.ltb_spec (v * PGSIZE) newsz); [|unfold PGSIZE in *; lia].
  assert (v * PGSIZE + PGSIZE ≤ MAXVA) by (unfold PGSIZE in *; lia).
  wp_step. destruct l as [|p l].
  { eapply wp_of_eq; [apply kalloc_nil, (gr_inv _ _ _ _ _ _ _ _ _ _ _ _ _ Hgr)|]. simpl.
    eapply wp_uvmalloc_undo; [exact Hgr|..]; eauto; unfold PGSIZE in *; lia. }
  pose proof (gr_inv _ _ _ _ _ _ _ _ _ _ _ _ _ Hgr) as Hinv.
  eapply wp_kalloc_cons; [apply Hinv|]. intros s1 Hk1 Hfr1 _.
  set (s2 := set_mem (memset (mem s1) p 0 PGSIZE) s1).
  assert (page_ok p ∧ p ∉ l) as [Hp Hnin].
  { destruct Hinv as [[[_ [? _]%Forall_cons [? _]%NoDup_cons] _ _] _ _ _]. done. }
  rewrite (proj2 (Z.eqb_neq p 0)) by (by apply page_ok_nonzero).
  assert (mem_eq_on (λ x, ¬ in_page p x) (mem s1) (mem s2)) as Hfr12.
  { intros x Hx. simpl. rewrite load8_memset_out; [done|unfold PGSIZE; lia|done]. }
  assert (mem_eq_on (λ x, ¬ in_page p x) (mem s) (mem s2)) as Hfr2.
  { intros x Hx. rewrite Hfr1 by done. by apply Hfr12. }
  assert (∀ x, in_page p x → load8 (mem s2) x = 0) as Hz.
  { intros x Hx. simpl. by rewrite load8_memset_in. }
  assert (kmem_inv s2 l) as Hk2.
  { apply kmem_inv_ext; [done|]. intros q Hq x Hx. apply Hfr12. intros Hx'.
    assert (page_ok q) by (eapply elem_page_ok; [apply Hk1|done]).
    assert (p = q) by (by eapply in_page_unique). set_solver. }
  destruct (uvm_take_page _ _ _ _ _ _ _ Hinv Hk2 Hfr2) as (Hinv2 & _ & _ & Hown & Hmp & Hpte2).
  unfold do_mem. wp_run. fold s2. fold UPERM. destruct UPERM_ok as [Hperm _].
  assert (Z.land (pte_of (mem s2) T (v * PGSIZE)) PTE_V = 0) as Hv0.
  { rewrite Hpte2, (gr_pte _ _ _ _ _ _ _ _ _ _ _ _ _ Hgr), Hinval; rewrite ?Z.div_mul by done; lia || done. }
  eapply wp_mappages_one; [apply Hinv2|unfold PGSIZE in *; lia|by apply Z.mod_mul|done|done|
    by apply page_ok_pa_ok|done|..].
  - intros s3 T3 Hvm3 Hext3 Hpte3. simpl. wp_step.
    eapply wp_kfree; [apply Hvm3|done|set_solver|]. intros s4 Hk4 Hfr4.
    destruct (uvm_return_page s root T p l U s2 s3 T3 s4) as (Hinv4 & Hstep4 & Hpte4); try done.
    eapply (wp_uvmalloc_undo _ _ _ _ _ _ s0 T0 l0 U0 s4 T3 [p] U); eauto; [|unfold PGSIZE in *; lia..].
    eapply (grown_step _ _ _ _ _ s0 T0 l0 U0 s T (p :: l) U s4 T3 [p]); try done. intros va. by rewrite Hpte4, Hpte2.
  - intros s3 T3 l3 Hvm3 Hext3 Hpte3. simpl.
    rewrite u64_small by (unfold PGSIZE in *; lia).
    replace (v * PGSIZE + PGSIZE) with ((v + 1) * PGSIZE) by lia.
    eapply (IH _ _ s3 T3 l3 (<[v := p]> U)); eauto; [|lia..].
    eapply (grown_add _ _ _ _ _ _ _ _ _ s T p l U s2); eauto.
    + change (MAXVA / PGSIZE) with (2 ^ 26). change MAXVA with (2 ^ 38) in *. unfold PGSIZE in *. lia.
    + apply Hnone0. lia.
    + intros va. rewrite Hpte3, Z.div_mul by done. done.
Qed.

Lemma wp_uvmalloc root oldsz newsz s T l U (Q : Z → machine → Prop) :
  uvm_inv s root T l U → 0 ≤ oldsz ≤ newsz → newsz ≤ MAXVA - PGSIZE →
  (∀ vpn, npages oldsz ≤ vpn → U !! vpn = None) →
  (∀ va, npages oldsz ≤ va / PGSIZE < npages newsz → Z.land (pte_of (mem s) T va) PTE_V = 0) →
  (∀ s' T' l' U', growing root (npages oldsz) (npages newsz) s T l U s' T' l' U' → Q newsz s') →
  (∀ s' T' l', restored root (npages oldsz) (npages newsz) s T l U s' T' l' → Q 0 s') →
  wp (uvmalloc root oldsz newsz) Q s.
Proof.
  intros Hinv Hsz Hmax Hnone Hinval HQ1 HQ2. unfold uvmalloc.
  destruct (Z.ltb_spec newsz oldsz); [lia|]. rewrite <-(npages_mul oldsz).
  assert (npages oldsz ≤ npages newsz) by (apply npages_mono; unfold PGSIZE in *; lia).
  assert (0 ≤ npages oldsz ∧ PGROUNDUP oldsz ≤ MAXVA) as [? ?]
    by (apply npages_bound; unfold PGSIZE in *; lia).
  pose proof (npages_mul oldsz). pose proof (npages_mul newsz).
  replace (npages newsz) with (Z.max (npages oldsz) (npages newsz)) in HQ1, HQ2, Hinval by lia.
  eapply (wp_uvmalloc_loop (Z.to_nat (npages newsz - npages oldsz)));
    [by apply grown_refl|lia|lia|lia|done|done|lia| |done|done].
  assert (MAXVA < 2 ^ 63) by done.
  assert (newsz ≤ PGROUNDUP newsz < newsz + PGSIZE) by (apply PGROUNDUP_ge; unfold PGSIZE in *; lia).
  apply Nat2Z.inj_lt. unfold PGSIZE in *.
  assert (-1 ≤ (newsz - npages oldsz * 4096) / 4096) by (apply Z.div_le_lower_bound; lia).
  assert (newsz - npages oldsz * 4096 < ((newsz - npages oldsz * 4096) / 4096 + 1) * 4096) by dlia.
  lia.
Qed.

(** * Properties *)

(** C6: growing an address space. Let the user pages be exactly those below
    [oldsz], none of them mapped between [oldsz] and [newsz]. [uvmalloc] then
    terminates without panicking and either returns [newsz] with exactly the
    pages below [newsz] mapped, the new ones zero-filled and readable, writable,
    executable by the user, or (out of memory) returns 0 with exactly the user
    pages and valid entries it started with. In both cases the contents of the
    old pages and all memory outside the address space and the free list are
    unchanged, and no physical page is lost or gets a second owner. *)
Theorem uvmalloc_grows_or_restores root oldsz newsz s T l U :
  uvm_inv s root T l U → covers U (npages oldsz) →
  0 ≤ oldsz ≤ newsz → newsz ≤ TRAPFRAME →
  (∀ va, npages oldsz ≤ va / PGSIZE < npages newsz → Z.land (pte_of (mem s) T va) PTE_V = 0) →
  ∃ r s', uvmalloc root oldsz newsz s = Ret r s' ∧
    ((r = newsz ∧ ∃ T' l' U', covers U' (npages newsz) ∧
        growing root (npages oldsz) (npages newsz) s T l U s' T' l' U') ∨
     (r = 0 ∧ ∃ T' l', restored root (npages oldsz) (npages newsz) s T l U s' T' l')).
Proof.
  intros Hinv Hcov Hsz Hmax Hinval. unfold covers in *.
  assert (TRAPFRAME ≤ MAXVA - PGSIZE) by done.
  assert (npages oldsz ≤ npages newsz) by (apply npages_mono; unfold PGSIZE in *; lia).
  assert (0 ≤ npages oldsz) by (apply npages_bound; unfold PGSIZE in *; lia).
  apply wp_inv. eapply wp_uvmalloc; [done|done|lia| |done| |].
  - intros vpn Hv. apply eq_None_not_Some. rewrite Hcov. lia.
  - intros s' T' l' U' Hgr. left. split; [done|]. exists T', l', U'. split; [|done].
    intros vpn. destruct (decide (npages oldsz ≤ vpn < npages newsz)) as [Hr|Hr].
    + destruct (gr_new _ _ _ _ _ _ _ _ _ _ _ _ _ Hgr vpn Hr) as (pa & E & _).
      rewrite E. split; [lia|by eexists].
    + rewrite (gr_old _ _ _ _ _ _ _ _ _ _ _ _ _ Hgr vpn Hr), Hcov. lia.
  - intros s' T' l' Hrs. right. eauto.
Qed.

(** Shrinking an address space. [uvmdealloc] from [oldsz] to a smaller
    [newsz] terminates without panicking, returns [newsz], leaves exactly the
    user pages below [newsz], gives the others back to the free list and clears
    their entries; other entries, the remaining pages' contents and memory
    outside the address space are unchanged, and no page is lost. *)
Theorem uvmdealloc_shrinks root oldsz newsz s T l U :
  uvm_inv s root T l U → covers U (npages oldsz) → 0 ≤ newsz < oldsz → oldsz ≤ MAXVA →
  ∃ s' l', let U' := drop_pages U (npages newsz) (npages oldsz) in
    uvmdealloc root oldsz newsz s = Ret newsz s' ∧
    uvm_inv s' root T l' U' ∧ covers U' (npages newsz) ∧ uvm_step s T l U s' T l' U' ∧
    (∀ va, pte_of (mem s') T va =
       unmapped (pte_of (mem s) T) (npages newsz) (npages oldsz) va).
Proof.
  intros Hinv Hcov Hsz Hmax. unfold covers in *.
  assert (npages newsz ≤ npages oldsz) by (apply npages_mono; lia).
  assert (0 ≤ npages newsz) by (apply npages_bound; lia).
  assert (wp (uvmdealloc root oldsz newsz) (λ r s', r = newsz ∧ ∃ l',
    let U' := drop_pages U (npages newsz) (npages oldsz) in
    uvm_inv s' root T l' U' ∧ uvm_step s T l U s' T l' U' ∧
    (∀ va, pte_of (mem s') T va =
       unmapped (pte_of (mem s) T) (npages newsz) (npages oldsz) va)) s) as Hwp.
  { eapply wp_uvmdealloc; [done|lia|lia| | |lia].
    - intros vpn Hv. apply Hcov. lia.
    - intros s' l' U' ????. split; [done|]. exists l'. done. }
  apply wp_inv in Hwp as (r & s' & E & -> & l' & Hinv' & Hstep & Hpte).
  exists s', l'. split_and!; try done. intros vpn. rewrite lookup_drop_pages.
  case_decide; [|rewrite Hcov; lia]. split; [by intros [? [=]]|lia].
Qed.

End Uvm.

(** ** Witnesses

    An address space of one page: the table pages [ex_page], [ex_l1], [ex_l0],
    the user page [ex_user], and one free page. *)

Definition ex_l1 : Z := ex_page + PGSIZE.
Definition ex_l0 : Z := ex_page + 2 * PGSIZE.
Definition ex_user : Z := ex_page + 3 * PGSIZE.
Definition ex_free : Z := ex_page + 4 * PGSIZE.

Definition ex_space : machine :=
  Machine (store64 (store64 (store64 (λ _, 0)
    ex_page (Z.lor (PA2PTE ex_l1) PTE_V))
    ex_l1 (Z.lor (PA2PTE ex_l0) PTE_V))
    ex_l0 (leaf_pte ex_user UPERM)) ex_free.

Definition ex_T : ptmap := {[ (2, 0) := ex_page; (1, 0) := ex_l1; (0, 0) := ex_l0 ]}.
Definition ex_U : umap := {[ 0 := ex_user ]}.

Lemma ex_T_Some l p pa :
  ex_T !! (l, p) = Some pa →
  p = 0 ∧ ((l = 2 ∧ pa = ex_page) ∨ (l = 1 ∧ pa = ex_l1) ∨ (l = 0 ∧ pa = ex_l0)).
Proof.
  unfold ex_T. rewrite !lookup_insert_Some, lookup_singleton_Some. naive_solver.
Qed.

Lemma ex_U_Some vpn pa : ex_U !! vpn = Some pa → vpn = 0 ∧ pa = ex_user.
Proof. unfold ex_U. rewrite lookup_singleton_Some. naive_solver. Qed.

Lemma ex_space_zero pa i :
  pa = ex_page ∨ pa = ex_l1 ∨ pa = ex_l0 ∨ pa = ex_free → 0 < i < 512 ∨ pa = ex_free ∧ i = 0 →
  load64 (mem ex_space) (pte_addr pa i) = 0.
Proof.
  intros Hpa Hi. unfold ex_space. simpl.
  unfold pte_addr, ex_free, ex_l0, ex_l1, ex_user, PGSIZE in *.
  rewrite !load64_store64_ne by (unfold ex_page, KERNBASE in *; lia). vm_compute. reflexivity.
Qed.

Lemma ex_pages_ok : page_ok ex_page ∧ page_ok ex_l1 ∧ page_ok ex_l0 ∧ page_ok ex_user ∧ page_ok ex_free.
Proof. vm_compute. intuition congruence. Qed.

Lemma ex_pt_inv : pt_inv (mem ex_space) ex_page ex_T.
Proof.
  destruct ex_pages_ok as (? & ? & ? & _). split.
  - done.
  - intros l p pa [-> Hc]%ex_T_Some. split; [lia|]. split; [|naive_solver].
    destruct Hc as [[-> _]|[[-> _]|[-> _]]]; done.
  - intros [l1 p1] [l2 p2] pa [-> Hc1]%ex_T_Some [-> Hc2]%ex_T_Some.
    f_equal. unfold ex_l1, ex_l0, PGSIZE in *. lia.
  - intros l p pa i [-> Hc]%ex_T_Some Hl Hi. destruct (decide (i = 0)) as [->|Hne].
    + destruct Hc as [[-> ->]|[[-> ->]|[-> ->]]]; [done|done|lia].
    + rewrite ex_space_zero by naive_solver lia.
      destruct (ex_T !! (l - 1, 0 * 512 + i)) eqn:E; [|done].
      apply ex_T_Some in E as [? _]. lia.
  - intros l p pa [-> Hc]%ex_T_Some Hl. destruct Hc as [[-> ->]|[[-> ->]|[-> ->]]]; [lia| |]; by eexists.
Qed.

Lemma ex_uvm_inv : uvm_inv ex_space ex_page ex_T [ex_free] ex_U.
Proof.
  destruct ex_pages_ok as (? & ? & ? & ? & ?). split.
  - split; [split|apply ex_pt_inv|].
    + split; [done|]. by vm_compute.
    + by apply Forall_singleton.
    + apply NoDup_singleton.
    + intros pa [[l p] [-> Hc]%ex_T_Some] ->%list_elem_of_singleton.
      unfold ex_l1, ex_l0, ex_free, PGSIZE in *. lia.
  - intros vpn pa [-> ->]%ex_U_Some. split_and!; try done.
  - intros v1 v2 pa [-> _]%ex_U_Some [-> _]%ex_U_Some. done.
  - intros vpn pa [-> ->]%ex_U_Some. split.
    + rewrite list_elem_of_singleton. unfold ex_user, ex_free, PGSIZE. lia.
    + intros [[l p] [-> Hc]%ex_T_Some]. unfold ex_l1, ex_l0, ex_user, PGSIZE in *. lia.
Qed.

Lemma ex_covers : covers ex_U (npages 4000).
Proof.
  change (npages 4000) with 1. intros vpn. unfold ex_U. destruct (decide (vpn = 0)) as [->|].
  - rewrite lookup_singleton_eq. split; [lia|by eexists].
  - rewrite lookup_singleton_ne by done. split; [by intros [? ?]|lia].
Qed.

(** The only valid leaf entry is that of page 0. *)
Lemma ex_leaf va : Z.land (pte_of (mem ex_space) ex_T va) PTE_V ≠ 0 → va / PGSIZE = 0.
Proof.
  unfold pte_of. destruct (ex_T !! (0, vkey 0 va)) as [pa|] eqn:E; [|done].
  apply ex_T_Some in E as [E0 Hc]. assert (pa = ex_l0) as -> by naive_solver lia.
  destruct (decide (PX 0 va = 0)) as [E|Hne].
  - intros _. rewrite vpn_split, E0, E. done.
  - pose proof (PX_range 0 va ltac:(lia)). by rewrite ex_space_zero by (auto with lia).
Qed.

Lemma uvmalloc_grows_or_restores_witness :
  ∃ r s', uvmalloc ex_page 4000 9000 ex_space = Ret r s' ∧ (r = 9000 ∨ r = 0).
Proof.
  destruct (uvmalloc_grows_or_restores ex_page 4000 9000 ex_space ex_T [ex_free] ex_U)
    as (r & s' & E & Hc).
  - apply ex_uvm_inv.
  - apply ex_covers.
  - lia.
  - discriminate.
  - intros va Hva. destruct (decide (Z.land (pte_of (mem ex_space) ex_T va) PTE_V = 0)) as [|Hv];
      [assumption|]. apply ex_leaf in Hv. rewrite Hv in Hva. exfalso. apply Hva. reflexivity.
  - exists r, s'. split; [exact E|]. destruct Hc as [[-> _]|[-> _]]; [left|right]; reflexivity.
Defined.

Lemma uvmdealloc_shrinks_witness :
  ∃ s' l', uvmdealloc ex_page 4000 0 ex_space = Ret 0 s' ∧
    uvm_inv s' ex_page ex_T l' (drop_pages ex_U 0 1).
Proof.
  destruct (uvmdealloc_shrinks ex_page 4000 0 ex_space ex_T [ex_free] ex_U)
    as (s' & l' & E & Hinv & _).
  - apply ex_uvm_inv.
  - apply ex_covers.
  - lia.
  - discriminate.
  - exists s', l'. split; [exact E|exact Hinv].
Defined.
