(* ===== verification/FreeWalk.v ===== *)
(** * Freeing an address space: [freewalk] and [uvmfree]

    [sub_pages n T k] lists the page-table pages of the subtree at level [n] and
    prefix [k] in the order in which [freewalk] frees them.  The theorem is that
    freeing an address space returns every page it held to the free list, once. *)

From S2P Require Import Prelude Machine CString Kalloc Vm PageTable Mapping Uvm.

Fixpoint sub_pages (n : nat) (T : ptmap) (k : Z) : list Z :=
  match T !! (Z.of_nat n, k) with
  | None => []
  | Some pa =>
      match n with
      | O => []
      | S n' => (pte_indices ≫= λ i, sub_pages n' T (k * 512 + i))
      end ++ [pa]
  end.

(** An entry of a page-table page points to the child the map describes. *)
Definition entry_ok (T : ptmap) (n : nat) (m : memory) (k pa i : Z) : Prop :=
  match T !! (Z.of_nat n, k * 512 + i) with
  | Some pa' => load64 m (pte_addr pa i) = Z.lor (PA2PTE pa') PTE_V
  | None => Z.land (load64 m (pte_addr pa i)) PTE_V = 0
  end.

(** Memory holds the subtree, whose leaf entries are all invalid. *)
Fixpoint sub_ok (n : nat) (T : ptmap) (m : memory) (k : Z) : Prop :=
  match T !! (Z.of_nat n, k) with
  | None => True
  | Some pa =>
      match n with
      | O => ∀ i, 0 ≤ i < 512 → Z.land (load64 m (pte_addr pa i)) PTE_V = 0
      | S n' => ∀ i, 0 ≤ i < 512 → entry_ok T n' m k pa i ∧ sub_ok n' T m (k * 512 + i)
      end
  end.

Section FreeWalk.
Context `{Image}.

(** * Lemmas *)

Lemma sub_pages_S n T k pa :
  T !! (Z.of_nat (S n), k) = Some pa →
  sub_pages (S n) T k = (pte_indices ≫= λ i, sub_pages n T (k * 512 + i)) ++ [pa].
Proof. intros E. cbn [sub_pages]. by rewrite E. Qed.

Lemma sub_pages_0 T k pa : T !! (0, k) = Some pa → sub_pages 0 T k = [pa].
Proof. intros E. cbn [sub_pages]. change (Z.of_nat 0) with 0. by rewrite E. Qed.

Lemma elem_sub_children n T k q :
  q ∈ (pte_indices ≫= λ i, sub_pages n T (k * 512 + i)) ↔
  ∃ i, 0 ≤ i < 512 ∧ q ∈ sub_pages n T (k * 512 + i).
Proof.
  rewrite list_elem_of_bind. setoid_rewrite elem_pte_indices. naive_solver.
Qed.

Lemma sub_ok_ext n T m m' k :
  (∀ q, q ∈ sub_pages n T k → mem_eq_on (in_page q) m m') → sub_ok n T m k → sub_ok n T m' k.
Proof.
  revert k. induction n as [|n IH]; intros k Hm; cbn [sub_ok].
  - cbn [sub_pages] in Hm. destruct (T !! _) as [pa|] eqn:E; [|done].
    intros Hok i Hi. rewrite <-(load64_ext m m'); [auto|].
    intros x Hx. apply (Hm pa); [set_solver|]. by eapply pte_addr_in_page.
  - destruct (T !! _) as [pa|] eqn:E; [|done]. rewrite (sub_pages_S n T k pa E) in Hm.
    intros Hok i Hi. destruct (Hok i Hi) as [Hent Hsub]. split.
    + unfold entry_ok in *. rewrite <-(load64_ext m m'); [done|].
      intros x Hx. apply (Hm pa); [set_solver|]. by eapply pte_addr_in_page.
    + apply IH; [|done]. intros q Hq. apply Hm. apply elem_of_app. left.
      apply elem_sub_children. eauto.
Qed.

Lemma entry_ok_ext T n m m' k pa i :
  mem_eq_on (λ x, pte_addr pa i ≤ x < pte_addr pa i + 8) m m' →
  entry_ok T n m k pa i → entry_ok T n m' k pa i.
Proof. intros Hm. unfold entry_ok. by rewrite (load64_ext m m'). Qed.

(** The last step: all entries visited, the page itself is freed. *)
Lemma sub_pages_head n T k pa : T !! (Z.of_nat n, k) = Some pa → pa ∈ sub_pages n T k.
Proof. intros E. destruct n; cbn [sub_pages]; rewrite E; set_solver. Qed.

Lemma bind_NoDup_split {A} (f : Z → list A) (l1 : list Z) i (l2 : list Z) :
  NoDup ((l1 ++ i :: l2) ≫= f) →
  NoDup (f i) ∧ (∀ q, q ∈ f i → q ∉ l1 ≫= f) ∧ (∀ j q, j ∈ l2 → q ∈ f i → q ∈ f j → False).
Proof.
  rewrite bind_app, bind_cons, !NoDup_app. intros (_ & Hd1 & ? & Hd & _). split_and!.
  - done.
  - intros q Hi Hl1. apply (Hd1 q Hl1). set_solver.
  - intros j q Hj Hi Hq. apply (Hd q Hi). apply list_elem_of_bind. eauto.
Qed.

(** What the loop over the entries of the page [pa] keeps: the subtrees of the
    entries [dn] are on the free list, the others are still in place. *)
Record walk_inv (n : nat) (T : ptmap) (k pa : Z) (l : list Z) (s0 : machine) (rest : list Z)
    (dn : list Z) (s : machine) : Prop := {
  wi_split : pte_indices = dn ++ rest;
  wi_kmem : kmem_inv s (reverse (dn ≫= λ i, sub_pages n T (k * 512 + i)) ++ l);
  wi_rest i : i ∈ rest → entry_ok T n (mem s) k pa i ∧ sub_ok n T (mem s) (k * 512 + i);
  wi_frame : mem_eq_on (λ x, ∀ q, q ∈ sub_pages (S n) T k → ¬ in_page q x) (mem s0) (mem s)
}.

(** Facts about the pages of a subtree that the loop relies on. *)
Record sub_fresh (n : nat) (T : ptmap) (k pa : Z) (l : list Z) : Prop := {
  sf_root : T !! (Z.of_nat (S n), k) = Some pa;
  sf_nodup : NoDup (pte_indices ≫= λ i, sub_pages n T (k * 512 + i));
  sf_pa : pa ∉ (pte_indices ≫= λ i, sub_pages n T (k * 512 + i)) ++ l;
  sf_pages q : q ∈ sub_pages (S n) T k → page_ok q ∧ q ∉ l
}.

Lemma sf_child n T k pa l dn i rest :
  sub_fresh n T k pa l → pte_indices = dn ++ i :: rest →
  0 ≤ i < 512 ∧ (i ∉ rest) ∧ NoDup (sub_pages n T (k * 512 + i)) ∧
  (∀ q, q ∈ sub_pages n T (k * 512 + i) → q ∈ sub_pages (S n) T k ∧ q ≠ pa ∧ page_ok q ∧
     (q ∉ reverse (dn ≫= λ i, sub_pages n T (k * 512 + i)) ++ l) ∧
     (∀ j, j ∈ rest → q ∉ sub_pages n T (k * 512 + j))).
Proof.
  intros [E Hnd Hpa Hpg] Hdn. split; [apply elem_pte_indices; rewrite Hdn; set_solver|].
  split.
  { pose proof NoDup_pte_indices as Hnds. rewrite Hdn in Hnds.
    by apply NoDup_app in Hnds as (_ & _ & [? _]%NoDup_cons). }
  pose proof Hnd as Hnd'. rewrite Hdn in Hnd'.
  apply bind_NoDup_split in Hnd' as (Hndi & Hdi & Hdr). split; [done|].
  intros q Hq. assert (q ∈ pte_indices ≫= λ i, sub_pages n T (k * 512 + i)) as Hqc.
  { rewrite Hdn, bind_app, bind_cons. set_solver. }
  assert (q ∈ sub_pages (S n) T k) as Hqs by (rewrite (sub_pages_S n T k pa E); set_solver).
  destruct (Hpg q Hqs). split_and!; [done| |done| |].
  - intros ->. set_solver.
  - rewrite elem_of_app, elem_of_reverse. intros [?|?]; [|done]. by eapply Hdi.
  - intros j Hj Hqj. by eapply Hdr.
Qed.

(** An entry whose subtree has been freed is cleared. *)
Lemma walk_inv_step n T k pa l s0 dn i rest s s1 :
  sub_fresh n T k pa l → walk_inv n T k pa l s0 (i :: rest) dn s →
  kmem_inv s1 (reverse (sub_pages n T (k * 512 + i)) ++
               reverse (dn ≫= λ i, sub_pages n T (k * 512 + i)) ++ l) →
  mem_eq_on (λ x, ∀ q, q ∈ sub_pages n T (k * 512 + i) → ¬ in_page q x) (mem s) (mem s1) →
  walk_inv n T k pa l s0 rest (dn ++ [i])
    (set_mem (store64 (mem s1) (pte_addr pa i) 0) s1).
Proof.
  intros Hsf [Hdn Hk Hrest Hfr] Hk1 Hfr1.
  destruct (sf_child _ _ _ _ _ _ _ _ Hsf Hdn) as (Hi & Hir & Hndi & Hq).
  destruct Hsf as [E Hnd Hpa Hpg].
  assert (pa ∈ sub_pages (S n) T k) as Hpain by (by apply sub_pages_head).
  destruct (Hpg pa Hpain) as [Hpaok _].
  (* the page [pa] outside entry [i], and the pages of the other children *)
  assert (∀ x, in_page pa x → ¬ (pte_addr pa i ≤ x < pte_addr pa i + 8) →
    load8 (mem s) x = load8 (store64 (mem s1) (pte_addr pa i) 0) x) as Hmpa.
  { intros x Hx Hne. rewrite load8_store64_ne by done. apply Hfr1. intros q Hqi Hx'.
    destruct (Hq q Hqi) as (_ & Hne' & ? & _). destruct Hne'. by eapply in_page_unique. }
  assert (∀ p, page_ok p → p ≠ pa → (p ∉ sub_pages n T (k * 512 + i)) →
    mem_eq_on (in_page p) (mem s) (store64 (mem s1) (pte_addr pa i) 0)) as Hmp.
  { intros p Hp Hne Hpi x Hx. rewrite load8_store64_ne.
    - apply Hfr1. intros q Hqi Hx'. destruct (Hq q Hqi) as (_ & _ & ? & _).
      apply Hpi. by rewrite (in_page_unique p q x).
    - intros Hx'. apply Hne. eapply in_page_unique; [done|done|done|by eapply pte_addr_in_page]. }
  split; simpl.
  - by rewrite <-app_assoc.
  - rewrite bind_app, bind_singleton, reverse_app, <-app_assoc. apply kmem_inv_ext; [done|].
    intros q Hqin x Hx. rewrite load8_store64_ne; [done|]. intros Hx'.
    assert (page_ok q) by (eapply elem_page_ok; [apply Hk1|done]).
    assert (q = pa) as -> by (eapply in_page_unique; [done|done|done|by eapply pte_addr_in_page]).
    apply Hpa. rewrite !elem_of_app, !elem_of_reverse in *. rewrite Hdn, bind_app, bind_cons.
    set_solver.
  - intros j Hj.
    assert (0 ≤ j < 512) by (apply elem_pte_indices; rewrite Hdn; set_solver).
    destruct (Hrest j ltac:(set_solver)) as [Hent Hsub]. split.
    + eapply entry_ok_ext, Hent. intros x Hx. apply Hmpa; [by eapply pte_addr_in_page|].
      assert (i ≠ j) by (intros ->; done). unfold pte_addr in *. lia.
    + eapply sub_ok_ext, Hsub. intros q Hqj.
      assert (q ∈ pte_indices ≫= λ i, sub_pages n T (k * 512 + i)) as Hqc.
      { apply elem_sub_children. eauto. }
      apply Hmp.
      * apply Hpg. rewrite (sub_pages_S n T k pa E). set_solver.
      * intros ->. set_solver.
      * intros Hqi. destruct (Hq q Hqi) as (_ & _ & _ & _ & Hno). by apply (Hno j Hj).
  - intros x Hx. rewrite Hfr by done. rewrite load8_store64_ne.
    + apply Hfr1. intros q Hqi. apply Hx. by apply Hq.
    + intros Hx'. apply (Hx pa); [done|by eapply pte_addr_in_page].
Qed.

(** One iteration: the subtree is freed first ([IH]), then the entry cleared. *)
Lemma wp_freewalk_entry n T k pa l s0 dn i rest s :
  sub_fresh n T k pa l → walk_inv n T k pa l s0 (i :: rest) dn s →
  (∀ s l k pa (Q : unit → machine → Prop),
     T !! (Z.of_nat n, k) = Some pa → kmem_inv s l → sub_ok n T (mem s) k →
     NoDup (sub_pages n T k) → (∀ q, q ∈ sub_pages n T k → page_ok q ∧ q ∉ l) →
     (∀ s', kmem_inv s' (reverse (sub_pages n T k) ++ l) →
        mem_eq_on (λ x, ∀ q, q ∈ sub_pages n T k → ¬ in_page q x) (mem s) (mem s') → Q tt s') →
     wp (freewalk_depth (S n) pa) Q s) →
  wp (pte ← read64 (pte_addr pa i);
      if nonzero (Z.land pte PTE_V) &&
         (Z.land pte (Z.lor (Z.lor PTE_R PTE_W) PTE_X) =? 0) then
        freewalk_depth (S n) (PTE2PA pte) ;; write64 (pte_addr pa i) 0
      else if nonzero (Z.land pte PTE_V) then panic "freewalk: leaf"
      else mret tt) (λ _ s', walk_inv n T k pa l s0 rest (dn ++ [i]) s') s.
Proof.
  intros Hsf Hwi IH. pose proof Hwi as [Hdn Hk Hrest Hfr].
  destruct (sf_child _ _ _ _ _ _ _ _ Hsf Hdn) as (Hi & Hir & Hndi & Hq).
  destruct (Hrest i ltac:(set_solver)) as [Hent Hsub].
  unfold read64. wp_run. unfold entry_ok in Hent.
  destruct (T !! (Z.of_nat n, k * 512 + i)) as [pa'|] eqn:E'.
  - assert (pa_ok pa') as Hpa'.
    { apply page_ok_pa_ok. apply (Hq pa'). by apply sub_pages_head. }
    rewrite Hent, !flag_test by (done || (vm_compute; intuition congruence)).
    change (nonzero (Z.land PTE_V PTE_V) &&
      (Z.land PTE_V (Z.lor (Z.lor PTE_R PTE_W) PTE_X) =? 0)) with true.
    cbv iota. rewrite PTE2PA_make by (done || (vm_compute; intuition congruence)).
    wp_step. eapply IH; [done|done|done|done|intros q Hqi; split; by apply Hq|].
    intros s1 Hk1 Hfr1. unfold write64, do_mem. wp_step. by eapply walk_inv_step.
  - rewrite Hent. simpl. apply wp_ret.
    assert (sub_pages n T (k * 512 + i) = []) as Hfi.
    { destruct n; cbn [sub_pages]; by rewrite E'. }
    split; [by rewrite <-app_assoc| | |done].
    + by rewrite bind_app, bind_singleton, Hfi, app_nil_r.
    + intros j Hj. apply Hrest. set_solver.
Qed.

Lemma wp_freewalk_depth n s l T k pa (Q : unit → machine → Prop) :
  T !! (Z.of_nat n, k) = Some pa → kmem_inv s l → sub_ok n T (mem s) k →
  NoDup (sub_pages n T k) → (∀ q, q ∈ sub_pages n T k → page_ok q ∧ q ∉ l) →
  (∀ s', kmem_inv s' (reverse (sub_pages n T k) ++ l) →
     mem_eq_on (λ x, ∀ q, q ∈ sub_pages n T k → ¬ in_page q x) (mem s) (mem s') → Q tt s') →
  wp (freewalk_depth (S n) pa) Q s.
Proof.
  revert s l k pa Q. induction n as [|n IH]; intros s l k pa Q E Hk Hok Hnd Hpg HQ;
    destruct (Hpg pa (sub_pages_head _ _ _ _ E)) as [Hpa Hnin].
  - cbn [sub_ok] in Hok. change (Z.of_nat 0) with 0 in *. rewrite E in Hok.
    rewrite (sub_pages_0 T k pa E) in *. rewrite reverse_singleton in HQ.
    cbn [freewalk_depth]. wp_step.
    eapply (wp_for_each _ _ (λ rest s', s' = s ∧ (∀ i, i ∈ rest → 0 ≤ i < 512))).
    + split; [done|]. intros i Hi. by apply elem_pte_indices.
    + intros i rest s' [-> Hr]. unfold read64. wp_run. rewrite Hok by (apply Hr; set_solver).
      simpl. apply wp_ret. split; [done|]. intros j Hj. apply Hr. set_solver.
    + intros s' [-> _]. eapply wp_kfree; [done|done|done|]. intros s' Hk' Hfr.
      apply HQ; [done|]. intros x Hx. apply Hfr, Hx. set_solver.
  - cbn [sub_ok] in Hok. rewrite E in Hok.
    assert (sub_fresh n T k pa l) as Hsf.
    { rewrite (sub_pages_S n T k pa E) in Hnd. apply NoDup_app in Hnd as (Hndc & Hdpa & _).
      split; [done|done| |done]. rewrite elem_of_app. intros [?|?]; [|done].
      apply (Hdpa pa); [done|set_solver]. }
    unfold freewalk_depth. fold (freewalk_depth (S n)). wp_step.
    eapply (wp_for_each _ _ (λ rest s', ∃ dn, walk_inv n T k pa l s rest dn s')).
    + exists []. split; [done|done| |done]. intros i Hi. apply Hok. by apply elem_pte_indices.
    + intros i rest s' (dn & Hwi). eapply wp_mono; [by eapply wp_freewalk_entry|].
      intros ? s'' Hwi'. by exists (dn ++ [i]).
    + intros s' (dn & [Hdn Hk' _ Hfr']). rewrite app_nil_r in Hdn. subst dn.
      destruct Hsf as [_ _ Hpac _].
      eapply wp_kfree; [done|done| |].
      { rewrite elem_of_app, elem_of_reverse, <-elem_of_app. done. }
      intros s'' Hk'' Hfr''. apply HQ.
      * rewrite (sub_pages_S n T k pa E), reverse_app. done.
      * intros x Hx. rewrite Hfr' by done. apply Hfr'', Hx. by apply sub_pages_head.
Qed.

(** ** The pages of the subtree are the pages of the table *)

Section pages.
Context {m : memory} {root : Z} {T : ptmap}.
Context (Hpt : pt_inv m root T).

Lemma elem_sub_pages n k q :
  Z.of_nat n ≤ 2 →
  q ∈ sub_pages n T k ↔
  ∃ l p, 0 ≤ l ≤ Z.of_nat n ∧ T !! (l, p) = Some q ∧ p / 512 ^ (Z.of_nat n - l) = k.
Proof.
  revert k. induction n as [|n IH]; intros k Hn.
  - change (Z.of_nat 0) with 0. split.
    + cbn [sub_pages]. change (Z.of_nat 0) with 0.
      destruct (T !! (0, k)) eqn:E; [|set_solver]. intros Hq.
      exists 0, k. rewrite Z.div_1_r. set_solver.
    + intros (l & p & Hl & E & Hp). replace l with 0 in * by lia. rewrite Z.div_1_r in Hp.
      subst p. by apply sub_pages_head.
  - specialize (IH). split.
    + destruct (T !! (Z.of_nat (S n), k)) as [pa|] eqn:E.
      * rewrite (sub_pages_S n T k pa E), elem_of_app, elem_sub_children.
        intros [(i & Hi & Hq)|Hq].
        -- apply IH in Hq as (l & p & Hl & El & Hp); [|lia]. exists l, p. split_and!; [lia|lia|done|].
           replace (Z.of_nat (S n) - l) with (Z.of_nat n - l + 1) by lia.
           rewrite Z.pow_add_r, <-Z.div_div, Hp by lia. dlia.
        -- exists (Z.of_nat (S n)), k. rewrite Z.sub_diag, Z.div_1_r. set_solver by lia.
      * cbn [sub_pages]. rewrite E. set_solver.
    + intros (l & p & Hl & El & Hp). destruct (decide (l = Z.of_nat (S n))) as [->|Hne].
      { rewrite Z.sub_diag, Z.div_1_r in Hp. subst. by apply sub_pages_head. }
      set (c := p / 512 ^ (Z.of_nat n - l)).
      assert (q ∈ sub_pages n T c) as Hq by (apply IH; [lia|]; exists l, p; split_and!; (done || lia)).
      replace (Z.of_nat (S n) - l) with (Z.of_nat n - l + 1) in Hp by lia.
      rewrite Z.pow_add_r, <-Z.div_div in Hp by lia. fold c in Hp. change (512 ^ 1) with 512 in Hp.
      assert (is_Some (T !! (Z.of_nat n, c))) as [pc Ec].
      { destruct (T !! (Z.of_nat n, c)) eqn:Ec; [by eexists|].
        destruct n; cbn [sub_pages] in Hq; rewrite Ec in Hq; set_solver. }
      destruct (pt_parent _ _ _ Hpt _ _ _ Ec ltac:(lia)) as [pp Epp]. rewrite Hp in Epp.
      replace (Z.of_nat n + 1) with (Z.of_nat (S n)) in Epp by lia.
      rewrite (sub_pages_S n T k pp Epp), elem_of_app, elem_sub_children. left.
      exists (c `mod` 512). split; [dlia|]. by replace (k * 512 + c `mod` 512) with c by dlia.
Qed.

Lemma sub_pages_NoDup n k : Z.of_nat n ≤ 2 → NoDup (sub_pages n T k).
Proof.
  revert k. induction n as [|n IH]; intros k Hn.
  - cbn [sub_pages]. destruct (T !! _); [apply NoDup_singleton|constructor].
  - destruct (T !! (Z.of_nat (S n), k)) as [pa|] eqn:E.
    2: { cbn [sub_pages]. rewrite E. constructor. }
    rewrite (sub_pages_S n T k pa E). apply NoDup_app. split_and!; [|..|apply NoDup_singleton].
    + apply NoDup_bind; [|intros; apply IH; lia|apply NoDup_pte_indices].
      intros i j q _ _. rewrite !elem_sub_pages by lia.
      intros (l1 & p1 & _ & E1 & Hp1) (l2 & p2 & _ & E2 & Hp2).
      pose proof (pt_inj _ _ _ Hpt _ _ _ E1 E2) as [= <- <-]. lia.
    + intros q Hq ->%list_elem_of_singleton. apply elem_sub_children in Hq as (i & Hi & Hq).
      apply elem_sub_pages in Hq as (l1 & p1 & Hl1 & E1 & _); [|lia].
      pose proof (pt_inj _ _ _ Hpt _ _ _ E1 E) as [= -> _]. lia.
Qed.

Lemma elem_table_pages q : q ∈ sub_pages 2 T 0 ↔ owns T q.
Proof.
  rewrite elem_sub_pages by lia. split.
  - intros (l & p & _ & E & _). by eexists.
  - intros [[l p] E]. exists l, p. destruct (pt_dom _ _ _ Hpt _ _ _ E) as (Hl & Hp & _).
    split_and!; [lia|lia|done|]. change (Z.of_nat 2) with 2. apply Z.div_small. change MAXVA with (2 ^ 38) in Hp.
    assert (l = 0 ∨ l = 1 ∨ l = 2) as [->|[->| ->]] by lia; simpl in *; lia.
Qed.

Lemma sub_ok_table n k :
  Z.of_nat n ≤ 2 →
  (∀ p pa i, T !! (0, p) = Some pa → 0 ≤ i < 512 → Z.land (load64 m (pte_addr pa i)) PTE_V = 0) →
  sub_ok n T m k.
Proof.
  intros Hn Hleaf. revert k Hn. induction n as [|n IH]; intros k Hn; cbn [sub_ok].
  - change (Z.of_nat 0) with 0. destruct (T !! (0, k)) eqn:E; [|done]. intros i Hi. by eapply Hleaf.
  - destruct (T !! (Z.of_nat (S n), k)) as [pa|] eqn:E; [|done]. intros i Hi.
    split; [|apply IH; lia]. pose proof (pt_link _ _ _ Hpt _ _ _ i E ltac:(lia) Hi) as Hlink.
    unfold entry_ok. by replace (Z.of_nat (S n) - 1) with (Z.of_nat n) in Hlink by lia.
Qed.

End pages.

Lemma pte_of_slot m T p pa i :
  T !! (0, p) = Some pa → 0 ≤ i < 512 →
  pte_of m T ((p * 512 + i) * PGSIZE) = load64 m (pte_addr pa i).
Proof.
  intros E Hi. unfold pte_of, vkey.
  replace ((p * 512 + i) * PGSIZE / 2 ^ (21 + 9 * 0)) with p
    by (unfold PGSIZE; change (2 ^ (21 + 9 * 0)) with 2097152; dlia).
  rewrite E, PX_eq by lia.
  replace ((p * 512 + i) * PGSIZE / 2 ^ (12 + 9 * 0)) with (p * 512 + i)
    by (unfold PGSIZE; change (2 ^ (12 + 9 * 0)) with 4096; dlia).
  by replace ((p * 512 + i) `mod` 512) with i by dlia.
Qed.

(** Freeing the table itself, once no leaf entry is valid. *)
Lemma wp_freewalk s root T l (Q : unit → machine → Prop) :
  vm_inv s root T l → (∀ va, Z.land (pte_of (mem s) T va) PTE_V = 0) →
  (∀ s' l', kmem_inv s' l' → (∀ pa, pa ∈ l' ↔ owns T pa ∨ pa ∈ l) →
     mem_eq_on (λ x, ∀ pa, owns T pa → ¬ in_page pa x) (mem s) (mem s') → Q tt s') →
  wp (freewalk root) Q s.
Proof.
  intros [Hk Hpt Hsep] Hleaf HQ. unfold freewalk.
  eapply (wp_freewalk_depth 2); [by eapply pt_root|done| |by eapply sub_pages_NoDup| |].
  - eapply sub_ok_table; [done|lia|]. intros p pa i E Hi.
    by rewrite <-(pte_of_slot _ T p) by done.
  - intros q Hq. rewrite (elem_table_pages Hpt) in Hq. split; [by eapply owns_page_ok|auto].
  - intros s' Hk' Hfr. apply (HQ _ _ Hk').
    + intros pa. by rewrite elem_of_app, elem_of_reverse, (elem_table_pages Hpt).
    + intros x Hx. apply Hfr. intros q Hq. apply Hx. by apply (elem_table_pages Hpt).
Qed.

(** * Claims *)

(** C7: freeing an address space. If the user pages are exactly those below
    [sz] and no other leaf entry is valid, [uvmfree] terminates without
    panicking, and afterwards the free list holds, each once, exactly the
    pages that were free, the user pages and the page-table pages; memory
    outside them is unchanged. *)
Theorem uvmfree_returns_every_page root sz s T l U :
  uvm_inv s root T l U → covers U (npages sz) → 0 ≤ sz ≤ MAXVA →
  (∀ va, Z.land (pte_of (mem s) T va) PTE_V ≠ 0 → is_Some (U !! (va / PGSIZE))) →
  ∃ s' l', uvmfree root sz s = Ret tt s' ∧ kmem_inv s' l' ∧
    (∀ pa, pa ∈ l' ↔ foot T l U pa) ∧ mem_eq_on (outside T l U) (mem s) (mem s').
Proof.
  intros Hinv Hcov Hsz Hleaf.
  assert (wp (uvmfree root sz) (λ _ s', ∃ l', kmem_inv s' l' ∧
    (∀ pa, pa ∈ l' ↔ foot T l U pa) ∧ mem_eq_on (outside T l U) (mem s) (mem s')) s) as Hwp.
  2: { apply wp_inv in Hwp as ([] & s' & ? & l' & ?). exists s', l'. done. }
  unfold covers in Hcov. pose proof (npages_bound sz Hsz) as [? Hmax].
  assert (∀ s1 l1 U1, uvm_inv s1 root T l1 U1 → uvm_step s T l U s1 T l1 U1 →
    (∀ va, Z.land (pte_of (mem s1) T va) PTE_V = 0) → (∀ v, U1 !! v = None) →
    wp (freewalk root) (λ _ s', ∃ l', kmem_inv s' l' ∧
    (∀ pa, pa ∈ l' ↔ foot T l U pa) ∧ mem_eq_on (outside T l U) (mem s) (mem s')) s1) as Hend.
  { intros s1 l1 U1 Hinv1 Hst Hl0 HU. eapply wp_freewalk; [apply Hinv1|done|].
    intros s' l' Hk' Hl' Hfr. exists l'. split_and!; [done| |].
    - intros pa. rewrite Hl', <-(us_foot _ _ _ _ _ _ _ _ Hst). unfold foot, maps_page.
      setoid_rewrite HU. naive_solver.
    - intros x Hx. rewrite (us_frame _ _ _ _ _ _ _ _ Hst) by done. apply Hfr.
      intros pa Hpa. apply Hx. by left. }
  unfold uvmfree. wp_step. fold (npages sz). destruct (Z.gtb_spec sz 0).
  - change 0 with (0 * PGSIZE).
    eapply wp_uvmunmap_free; [done|lia|lia|rewrite Z.add_0_l, npages_mul; lia| |].
    { intros vpn Hv. apply Hcov. lia. }
    intros s1 l1 U1 Hinv1 Hst Hpte _. eapply Hend; [done|done| |].
    + intros va. rewrite Hpte. unfold unmapped. rewrite Z.add_0_l.
      destruct (decide (Z.land (pte_of (mem s) T va) PTE_V = 0)) as [|Hv]; [by case_match|].
      apply Hleaf, Hcov in Hv. case_match; [done|lia].
    + intros v. unfold U1. rewrite lookup_drop_pages. case_decide; [done|].
      apply eq_None_not_Some. rewrite Hcov. lia.
  - assert (sz = 0) as -> by lia. change (npages 0) with 0 in *. apply wp_ret.
    eapply (Hend s l U); [done|apply uvm_step_refl| |].
    + intros va. destruct (decide (Z.land (pte_of (mem s) T va) PTE_V = 0)) as [|Hv]; [done|].
      apply Hleaf, Hcov in Hv. lia.
    + intros v. apply eq_None_not_Some. rewrite Hcov. lia.
Qed.

End FreeWalk.

Lemma uvmfree_returns_every_page_witness :
  ∃ s' l', uvmfree ex_page 4000 ex_space = Ret tt s' ∧ kmem_inv s' l' ∧ ex_user ∈ l' ∧ ex_l0 ∈ l'.
Proof.
  destruct (uvmfree_returns_every_page ex_page 4000 ex_space ex_T [ex_free] ex_U)
    as (s' & l' & E & Hk & Hl & _).
  - apply ex_uvm_inv.
  - apply ex_covers.
  - split; discriminate.
  - intros va Hv. apply ex_leaf in Hv. rewrite Hv. exists ex_user. reflexivity.
  - exists s', l'. split; [exact E|]. split; [exact Hk|]. split; apply Hl.
    + right; right. exists 0. reflexivity.
    + left. exists (0, 0). reflexivity.
Defined.
