(* ===== verification/CopyUser.v ===== *)
(** * Copying between kernel and user space

    [copyout], [copyin] and the translation of user addresses that they rely on:
    they touch exactly the bytes that the user can access, stop at the first page
    that the user cannot, and are inverse to each other. *)

From S2P Require Import Prelude Machine CString Kalloc Vm PageTable Mapping Uvm.

(** What [walkaddr] returns. *)
Definition user_pa (m : memory) (T : ptmap) (va : Z) : Z :=
  if va >=? MAXVA then 0
  else
    let v := pte_of m T va in
    if Z.land v PTE_V =? 0 then 0 else if Z.land v PTE_U =? 0 then 0 else PTE2PA v.

(** The user can access the byte at [x]; its physical address. *)
Definition accessible (m : memory) (T : ptmap) (x : Z) : Prop := user_pa m T (PGROUNDDOWN x) ≠ 0.
Definition phys (m : memory) (T : ptmap) (x : Z) : Z := user_pa m T (PGROUNDDOWN x) + (x - PGROUNDDOWN x).

Section CopyUser.
Context `{Image} {root : Z} {T : ptmap} {l : list Z} {U : umap}.

(** An address space whose user-accessible pages are among those of [U]. *)
Record user_space (s : machine) : Prop := {
  usp_inv : uvm_inv s root T l U;
  usp_only va : 0 ≤ va < MAXVA → let v := pte_of (mem s) T va in
    Z.land v PTE_V ≠ 0 → Z.land v PTE_U ≠ 0 → U !! (va / PGSIZE) = Some (PTE2PA v)
}.

(** The first [n] bytes of [src] have been copied to [va]. *)
Record copied (va : Z) (src : list Z) (n : Z) (s s' : machine) : Prop := {
  cp_space : user_space s';
  cp_pte x : pte_of (mem s') T x = pte_of (mem s) T x;
  cp_acc x : va ≤ x < va + n → accessible (mem s) T x;
  cp_in x : va ≤ x < va + n → src !! Z.to_nat (x - va) = Some (load8 (mem s') (phys (mem s) T x));
  cp_out y : (∀ x, va ≤ x < va + n → y ≠ phys (mem s) T x) → load8 (mem s') y = load8 (mem s) y
}.

(** * Lemmas *)

Lemma user_pa_pte m m' va : (∀ x, pte_of m' T x = pte_of m T x) → user_pa m' T va = user_pa m T va.
Proof. intros E. unfold user_pa. by rewrite E. Qed.

Lemma walkaddr_eq s va :
  pt_inv (mem s) root T → 0 ≤ va → walkaddr root va s = Ret (user_pa (mem s) T va) s.
Proof.
  intros Hpt Hva. unfold walkaddr, user_pa. destruct (Z.geb_spec va MAXVA); [done|].
  unfold mbind, M_bind. rewrite (walk_noalloc s root T) by (done || lia).
  destruct (T !! (0, vkey 0 va)) as [pa|] eqn:E.
  - pose proof (slot_of_nonzero Hpt va ltac:(by rewrite E)) as Hnz. rewrite (proj2 (Z.eqb_neq _ 0) Hnz).
    unfold read64, gets. simpl. rewrite (load64_slot_of) by (by rewrite E). by repeat case_match.
  - unfold slot_of, pte_of. by rewrite E.
Qed.

Lemma page_vpn x : PGROUNDDOWN x / PGSIZE = x / PGSIZE.
Proof. rewrite PGROUNDDOWN_eq. unfold PGSIZE. dlia. Qed.

Lemma accessible_below m x : accessible m T x → PGROUNDDOWN x < MAXVA.
Proof. unfold accessible, user_pa. destruct (Z.geb_spec (PGROUNDDOWN x) MAXVA); [done|lia]. Qed.

Lemma user_pa_page s va : user_space s → 0 ≤ va → user_pa (mem s) T va ≠ 0 →
  U !! (va / PGSIZE) = Some (user_pa (mem s) T va).
Proof.
  intros [_ Honly] Hva. unfold user_pa. destruct (Z.geb_spec va MAXVA); [done|].
  destruct (Z.eqb_spec (Z.land (pte_of (mem s) T va) PTE_V) 0); [done|].
  destruct (Z.eqb_spec (Z.land (pte_of (mem s) T va) PTE_U) 0); [done|]. intros _. by apply Honly.
Qed.

Lemma accessible_page s x :
  user_space s → 0 ≤ x → accessible (mem s) T x →
  U !! (x / PGSIZE) = Some (user_pa (mem s) T (PGROUNDDOWN x)) ∧ page_ok (user_pa (mem s) T (PGROUNDDOWN x)) ∧
  in_page (user_pa (mem s) T (PGROUNDDOWN x)) (phys (mem s) T x).
Proof.
  intros Hs Hx Ha. pose proof Hs as [Hinv _].
  assert (U !! (x / PGSIZE) = Some (user_pa (mem s) T (PGROUNDDOWN x))) as E.
  { rewrite <-page_vpn. apply user_pa_page; [done| |done]. rewrite PGROUNDDOWN_eq. unfold PGSIZE. dlia. }
  split_and!; [done|by apply (uvm_leaf _ _ _ _ _ Hinv) in E as (_ & ? & _)|..].
  all: unfold in_page, phys; pose proof (PGROUNDDOWN_le x); lia.
Qed.

Lemma phys_inj s x y :
  user_space s → 0 ≤ x → 0 ≤ y → accessible (mem s) T x → accessible (mem s) T y →
  phys (mem s) T x = phys (mem s) T y → x = y.
Proof.
  intros Hs Hx Hy Ax Ay E. destruct (accessible_page s x Hs Hx Ax) as (Ux & Px & Ix).
  destruct (accessible_page s y Hs Hy Ay) as (Uy & Py & Iy). rewrite E in Ix.
  assert (user_pa (mem s) T (PGROUNDDOWN x) = user_pa (mem s) T (PGROUNDDOWN y)) as Ep by (by eapply in_page_unique).
  rewrite Ep in Ux. pose proof (uvm_inj _ _ _ _ _ (usp_inv _ Hs) _ _ _ Ux Uy) as Ev.
  unfold phys in E. rewrite Ep, !PGROUNDDOWN_eq in E. unfold PGSIZE in *. dlia.
Qed.

(** A write to a page that is neither free nor part of the address space. *)
Lemma user_space_other s m' q : user_space s → page_ok q → q ∉ l → ¬ owns T q →
  mem_eq_on (λ y, ¬ in_page q y) (mem s) m' →
  user_space (set_mem m' s) ∧ ∀ va, pte_of m' T va = pte_of (mem s) T va.
Proof.
  intros [[[Hk Hpt Hsep] Hleaf Hinj Husep] Honly] Hq Hl Ho Hm.
  assert (∀ p, page_ok p → p ≠ q → mem_eq_on (in_page p) (mem s) m') as Hpg.
  { intros p Hp Hne x Hx. apply Hm. intros Hx'. by destruct Hne; eapply in_page_unique. }
  assert (∀ p, owns T p → mem_eq_on (in_page p) (mem s) m') as Hown.
  { intros p Hp. apply Hpg; [by eapply owns_page_ok|]. by intros ->. }
  assert (∀ va, pte_of m' T va = pte_of (mem s) T va) as Hpte by (intros va; by apply pte_of_frame).
  split; [|done]. split; [split|]; simpl.
  - split; [|by eapply pt_inv_frame|done]. apply kmem_inv_ext; [done|]. intros p Hp.
    apply Hpg; [eapply elem_page_ok; [apply Hk|done]|]. by intros ->.
  - intros v p Ev. rewrite Hpte. by apply Hleaf.
  - done.
  - done.
  - intros va Hva. rewrite Hpte. by apply Honly.
Qed.

(** A write to one user page. *)
Lemma user_write s m' vpn pa :
  user_space s → U !! vpn = Some pa → mem_eq_on (λ y, ¬ in_page pa y) (mem s) m' →
  user_space (set_mem m' s) ∧ ∀ va, pte_of m' T va = pte_of (mem s) T va.
Proof.
  intros Hs E. destruct (uvm_sep _ _ _ _ _ (usp_inv _ Hs) _ _ E) as [Hnl Hno].
  destruct (uvm_leaf _ _ _ _ _ (usp_inv _ Hs) _ _ E) as (_ & Hpa & _). by apply user_space_other.
Qed.

(** ** copyout *)

Lemma copied_refl va src s : user_space s → copied va src 0 s s.
Proof. intros Hs. split; try done; intros; lia. Qed.

(** The bytes of one page. *)
Lemma copied_page va src n s :
  user_space s → 0 ≤ va → Forall (λ b, 0 ≤ b < 256) src → 0 ≤ n ≤ Z.of_nat (length src) →
  n ≤ PGSIZE - (va - PGROUNDDOWN va) → accessible (mem s) T va →
  copied va src n s (set_mem (store_bytes (mem s) (phys (mem s) T va) (take (Z.to_nat n) src)) s).
Proof.
  intros Hs Hva Hb Hn Hpage Ha. destruct (accessible_page s va Hs Hva Ha) as (HU & Hpok & Hin).
  pose proof (PGROUNDDOWN_le va) as Hle.
  assert (∀ x, va ≤ x < va + n → PGROUNDDOWN x = PGROUNDDOWN va) as Hsame.
  { intros x Hx. rewrite !PGROUNDDOWN_eq in *. unfold PGSIZE in *. dlia. }
  assert (∀ x, va ≤ x < va + n → phys (mem s) T x = phys (mem s) T va + (x - va)) as Hphys.
  { intros x Hx. unfold phys. rewrite (Hsame x Hx). lia. }
  set (m' := store_bytes _ _ _).
  assert (∀ y, ¬ (phys (mem s) T va ≤ y < phys (mem s) T va + n) → load8 m' y = load8 (mem s) y) as Hout.
  { intros y Hy. apply load8_store_bytes_out. rewrite length_take. lia. }
  destruct (user_write s m' (va / PGSIZE) (user_pa (mem s) T (PGROUNDDOWN va))) as [Hs' Hpte].
  { done. }
  { done. }
  { intros y Hy. symmetry. apply Hout. intros Hr. apply Hy. unfold in_page, phys in *. lia. }
  split; [done|done|..].
  - intros x Hx. unfold accessible. by rewrite (Hsame x Hx).
  - intros x Hx. simpl. rewrite (Hphys x Hx). unfold m'. rewrite load8_store_bytes.
    destruct (Z.leb_spec (phys (mem s) T va) (phys (mem s) T va + (x - va))); [|lia].
    replace (phys (mem s) T va + (x - va) - phys (mem s) T va) with (x - va) by lia.
    rewrite lookup_take_lt by lia. destruct (src !! Z.to_nat (x - va)) as [b|] eqn:Eb; [|apply lookup_ge_None in Eb; lia].
    rewrite u8_small; [done|]. by eapply (Forall_lookup_1 _ _ _ _ Hb).
  - intros y Hy. apply Hout. intros Hr. apply (Hy (va + (y - phys (mem s) T va))); [lia|]. rewrite Hphys by lia. lia.
Qed.

Lemma copied_app va src n1 n2 s s1 s2 :
  user_space s → 0 ≤ va → 0 ≤ n1 → 0 ≤ n2 → copied va src n1 s s1 → copied (va + n1) (drop (Z.to_nat n1) src) n2 s1 s2 →
  copied va src (n1 + n2) s s2.
Proof.
  intros Hs Hva Hn1 Hn2 [H1 E1 A1 I1 O1] [H2 E2 A2 I2 O2].
  assert (∀ x, user_pa (mem s1) T x = user_pa (mem s) T x) as Epa by (intros x; by apply user_pa_pte).
  assert (∀ x, phys (mem s1) T x = phys (mem s) T x) as Ephys by (intros x; unfold phys; by rewrite Epa).
  assert (∀ x, va + n1 ≤ x < va + n1 + n2 → accessible (mem s) T x) as A2'.
  { intros x Hx. unfold accessible. rewrite <-Epa. by apply A2. }
  split; [done| | |..].
  - intros x. by rewrite E2.
  - intros x Hx. destruct (decide (x < va + n1)); [apply A1; lia|apply A2'; lia].
  - intros x Hx. destruct (decide (x < va + n1)).
    + rewrite I1 by lia. f_equal. symmetry. apply O2. intros x' Hx' E. rewrite Ephys in E.
      assert (x = x'); [|lia]. apply (phys_inj s); [done|lia|lia|apply A1; lia|by apply A2'|done].
    + specialize (I2 x ltac:(lia)). rewrite lookup_drop, Ephys in I2. rewrite <-I2. f_equal. lia.
  - intros y Hy. rewrite O2 by (intros x Hx; rewrite Ephys; apply Hy; lia). apply O1. intros x Hx. apply Hy. lia.
Qed.

(** Where a copy of [len] bytes at [va] stops: after [n] bytes. *)
Definition stops (m : memory) (va len r n : Z) : Prop :=
  0 ≤ n ≤ len ∧ (r = 0 ∧ n = len ∨ r = -1 ∧ n < len ∧ ¬ accessible m T (va + n)).

(** The next page of a copy that has not yet stopped. *)
Lemma next_page m va len :
  0 ≤ va → accessible m T va → len > 0 →
  let n := if PGSIZE - (va - PGROUNDDOWN va) >? len then len else PGSIZE - (va - PGROUNDDOWN va) in
  0 < n ≤ len ∧ n ≤ PGSIZE - (va - PGROUNDDOWN va) ∧
  (n < len → u64 (PGROUNDDOWN va + PGSIZE) = va + n ∧ (va + n) `mod` PGSIZE = 0 ∧ n = PGSIZE - va `mod` PGSIZE).
Proof.
  intros Hva Ha Hlen n. pose proof (accessible_below m va Ha) as Hb. pose proof (PGROUNDDOWN_le va).
  assert (MAXVA < 2 ^ 63) by done. unfold n.
  destruct (Z.gtb_spec (PGSIZE - (va - PGROUNDDOWN va)) len); split_and!; try lia.
  intros _. rewrite PGROUNDDOWN_eq in *. unfold PGSIZE in *. split_and!; [rewrite u64_small; dlia|dlia|dlia].
Qed.

Lemma copyout_loop_spec fuel va src s :
  user_space s → 0 ≤ va → Forall (λ b, 0 ≤ b < 256) src →
  Z.of_nat (length src) + va `mod` PGSIZE < (Z.of_nat fuel - 1) * PGSIZE →
  ∃ r n s', copyout_loop fuel root va src s = Ret r s' ∧ copied va src n s s' ∧ stops (mem s) va (Z.of_nat (length src)) r n.
Proof.
  revert va src s. induction fuel as [|fuel IH]; intros va src s Hs Hva Hb Hf; cbn [copyout_loop].
  { exfalso. unfold PGSIZE in *. dlia. }
  destruct (Z.gtb_spec (Z.of_nat (length src)) 0) as [Hlen|Hlen].
  2: { exists 0, 0, s. split; [done|]. split; [by apply copied_refl|]. unfold stops. lia. }
  unfold mbind, M_bind. rewrite walkaddr_eq; [|apply Hs|rewrite PGROUNDDOWN_eq; unfold PGSIZE; dlia].
  destruct (Z.eqb_spec (user_pa (mem s) T (PGROUNDDOWN va)) 0) as [E|Ha].
  { exists (-1), 0, s. split; [done|]. split; [by apply copied_refl|]. split; [lia|]. right. rewrite Z.add_0_r.
    split_and!; [done|lia|]. intros Hacc. by apply Hacc. }
  destruct (next_page (mem s) va (Z.of_nat (length src)) Hva Ha ltac:(lia)) as (Hn & Hnp & Hnext). cbv zeta.
  set (n := if _ >? _ then _ else _) in *. unfold do_mem, modify.
  pose proof (copied_page va src n s Hs Hva Hb ltac:(lia) Hnp Ha) as Hc. fold (phys (mem s) T va).
  set (s1 := set_mem _ s) in *.
  destruct (decide (n < Z.of_nat (length src))) as [Hlt|Hge].
  - destruct (Hnext Hlt) as (Eu & Hal & Hnv). rewrite Eu.
    destruct (IH (va + n) (drop (Z.to_nat n) src) s1) as (r & n2 & s' & E & Hc2 & Hn2 & Hr).
    + apply Hc.
    + lia.
    + by apply Forall_drop.
    + rewrite length_drop, Hal. unfold PGSIZE in *. dlia.
    + rewrite length_drop in *. exists r, (n + n2), s'. split; [done|]. split; [eapply copied_app; try done; lia|].
      split; [lia|]. destruct Hr as [[-> ->]|(-> & Hlt2 & Hna)]; [left; lia|right]. split_and!; [done|lia|].
      rewrite Z.add_assoc. unfold accessible in *. by rewrite (user_pa_pte (mem s)) in Hna by apply Hc.
  - assert (drop (Z.to_nat n) src = []) as Ed by (apply drop_ge; lia).
    exists 0, n, s1. split; [|split; [done|split; [lia|left; lia]]]. rewrite Ed.
    destruct fuel as [|fuel]; [unfold PGSIZE in *; dlia|done].
Qed.

(** ** copyin *)

(** [bytes] are the [n] bytes at [va]. *)
Definition bytes_at (m : memory) (va n : Z) (bytes : list Z) : Prop :=
  Z.of_nat (length bytes) = n ∧
  ∀ x, va ≤ x < va + n → accessible m T x ∧ bytes !! Z.to_nat (x - va) = Some (load8 m (phys m T x)).

Lemma bytes_at_page m va n :
  0 ≤ n ≤ PGSIZE - (va - PGROUNDDOWN va) → accessible m T va →
  bytes_at m va n (load_bytes (Z.to_nat n) m (phys m T va)).
Proof.
  intros Hn Ha. split; [rewrite length_load_bytes; lia|]. intros x Hx.
  assert (PGROUNDDOWN x = PGROUNDDOWN va) as E.
  { pose proof (PGROUNDDOWN_le va). rewrite !PGROUNDDOWN_eq in *. unfold PGSIZE in *. dlia. }
  split; [unfold accessible; by rewrite E|]. rewrite lookup_load_bytes by lia. do 2 f_equal. unfold phys. rewrite E. lia.
Qed.

Lemma bytes_at_app m va n1 n2 b1 b2 :
  0 ≤ n1 → bytes_at m va n1 b1 → bytes_at m (va + n1) n2 b2 → bytes_at m va (n1 + n2) (b1 ++ b2).
Proof.
  intros Hn [L1 B1] [L2 B2]. split; [rewrite length_app; lia|]. intros x Hx. destruct (decide (x < va + n1)).
  - destruct (B1 x) as [? E]; [lia|]. split; [done|]. by rewrite lookup_app_l by lia.
  - destruct (B2 x) as [? E]; [lia|]. split; [done|]. rewrite lookup_app_r by lia. rewrite <-E. f_equal. lia.
Qed.

Lemma copyin_loop_spec fuel acc va len s :
  pt_inv (mem s) root T → 0 ≤ va → 0 ≤ len → len + va `mod` PGSIZE < (Z.of_nat fuel - 1) * PGSIZE →
  ∃ r n bytes, copyin_loop fuel root acc va len s = Ret (r, acc ++ bytes) s ∧ bytes_at (mem s) va n bytes ∧ stops (mem s) va len r n.
Proof.
  intros Hpt. revert acc va len. induction fuel as [|fuel IH]; intros acc va len Hva Hlen0 Hf; cbn [copyin_loop].
  { exfalso. unfold PGSIZE in *. dlia. }
  assert (bytes_at (mem s) va 0 []) as H0 by (split; [done|intros; lia]).
  destruct (Z.gtb_spec len 0) as [Hlen|Hlen].
  2: { exists 0, 0, []. rewrite app_nil_r. split; [done|]. split; [done|]. unfold stops. lia. }
  unfold mbind, M_bind. rewrite walkaddr_eq; [|done|rewrite PGROUNDDOWN_eq; unfold PGSIZE; dlia].
  destruct (Z.eqb_spec (user_pa (mem s) T (PGROUNDDOWN va)) 0) as [E|Ha].
  { exists (-1), 0, []. rewrite app_nil_r. split; [done|]. split; [done|]. split; [lia|]. right. rewrite Z.add_0_r.
    split_and!; [done|lia|]. intros Hacc. by apply Hacc. }
  destruct (next_page (mem s) va len Hva Ha ltac:(lia)) as (Hn & Hnp & Hnext). cbv zeta.
  set (n := if _ >? _ then _ else _) in *. unfold gets. fold (phys (mem s) T va).
  pose proof (bytes_at_page (mem s) va n ltac:(lia) Ha) as Hc. set (b := load_bytes _ _ _) in *.
  destruct (decide (n < len)) as [Hlt|Hge].
  - destruct (Hnext Hlt) as (Eu & Hal & Hnv). rewrite Eu.
    destruct (IH (acc ++ b) (va + n) (len - n)) as (r & n2 & b2 & E & Hc2 & Hn2 & Hr); [lia|lia|rewrite Hal; unfold PGSIZE in *; dlia|].
    exists r, (n + n2), (b ++ b2). rewrite app_assoc. split; [done|]. split; [apply bytes_at_app; [lia|done|done]|].
    split; [lia|]. destruct Hr as [[-> ->]|(-> & Hlt2 & Hna)]; [left; lia|right]. by rewrite Z.add_assoc; split_and!; [|lia|].
  - assert (len - n = 0) as -> by lia. exists 0, n, b. split; [|split; [done|split; [lia|left; lia]]].
    destruct fuel as [|fuel]; [unfold PGSIZE in *; dlia|done].
Qed.

(** * Properties *)

(** C13: [copyout] and [copyin].  Copying bytes to any user address terminates
    without panicking; it succeeds exactly if the user can access every byte of
    the range, and otherwise returns -1; memory outside of the physical addresses
    of the range, and the address space, do not change.  After a success [copyin]
    from the same address returns the bytes. *)
Theorem copyout_copyin_roundtrip va src s :
  user_space s → 0 ≤ va < 2 ^ 64 → Forall (λ b, 0 ≤ b < 256) src →
  ∃ r s', copyout root va src s = Ret r s' ∧ (r = 0 ∨ r = -1) ∧
    (r = 0 ↔ ∀ x, va ≤ x < va + Z.of_nat (length src) → accessible (mem s) T x) ∧
    user_space s' ∧
    (∀ y, (∀ x, va ≤ x < va + Z.of_nat (length src) → y ≠ phys (mem s) T x) → load8 (mem s') y = load8 (mem s) y) ∧
    (r = 0 → copyin root va (Z.of_nat (length src)) s' = Ret (0, src) s').
Proof.
  intros Hs Hva Hb. set (len := Z.of_nat (length src)).
  assert (len + va `mod` PGSIZE < (len / PGSIZE + 2) * PGSIZE) as Hf by (unfold PGSIZE; dlia).
  destruct (copyout_loop_spec (length src / Z.to_nat PGSIZE + 3) va src s) as (r & n & s' & E & Hc & Hn & Hr); [done|lia|done| |].
  { rewrite Nat2Z.inj_add, Nat2Z.inj_div, Z2Nat.id by done. fold len. lia. }
  fold len in Hn, Hr. exists r, s'. split; [exact E|]. destruct Hc as [Hs' Hpte Hacc Hin Hout].
  split_and!.
  - tauto.
  - destruct Hr as [[-> ->]|(-> & Hlt & Hna)]; [done|]. split; [done|]. intros Hall. destruct Hna. apply Hall. lia.
  - done.
  - intros y Hy. apply Hout. intros x Hx. apply Hy. lia.
  - intros ->. destruct Hr as [[_ ->]|(? & _)]; [|done].
    destruct (copyin_loop_spec (Z.to_nat (len / PGSIZE + 3)) [] va len s') as (r & n & b & E' & [Lb Bb] & Hn' & Hr'); [apply Hs'|lia|lia| |].
    { rewrite Z2Nat.id; [lia|]. unfold PGSIZE. dlia. }
    assert (∀ x, user_pa (mem s') T x = user_pa (mem s) T x) as Epa by (intros x; by apply user_pa_pte).
    destruct Hr' as [[-> ->]|(-> & Hlt & Hna)].
    2: { destruct Hna. unfold accessible. rewrite Epa. apply Hacc. lia. }
    unfold copyin. rewrite E'. simpl. do 2 f_equal. apply list_eq. intros i. destruct (decide (i < length src)%nat) as [Hi|Hi].
    + destruct (Bb (va + Z.of_nat i)) as [_ Eb]; [lia|]. specialize (Hin (va + Z.of_nat i) ltac:(lia)).
      replace (Z.to_nat (va + Z.of_nat i - va)) with i in * by lia. rewrite Eb, Hin. unfold phys. by rewrite Epa.
    + rewrite !lookup_ge_None_2; [done|lia|lia].
Qed.

End CopyUser.

Lemma ex_user_space : @user_space _ ex_page ex_T [ex_free] ex_U ex_space.
Proof.
  split; [apply ex_uvm_inv|]. intros va Hva v Hv _. pose proof (ex_leaf va Hv) as E. unfold v.
  rewrite (pte_of_page _ _ va 0) by (by rewrite E). rewrite E. by vm_compute.
Qed.

Lemma copyout_copyin_roundtrip_witness :
  ∃ s', copyout ex_page 4090 [1; 2; 3] ex_space = Ret 0 s' ∧ copyin ex_page 4090 3 s' = Ret (0, [1; 2; 3]) s' ∧
    ∃ s'', copyout ex_page 4090 [1; 2; 3; 4; 5; 6; 7] ex_space = Ret (-1) s''.
Proof.
  assert (∀ x, 4090 ≤ x < 4093 → accessible (mem ex_space) ex_T x) as Hacc.
  { intros x Hx. assert (x = 4090 ∨ x = 4091 ∨ x = 4092) as [->|[->| ->]] by lia; by vm_compute. }
  destruct (copyout_copyin_roundtrip 4090 [1; 2; 3] ex_space ex_user_space) as (r & s' & E & _ & [_ Hr] & _ & _ & Hin);
    [lia|apply (bool_decide_unpack _); exact I|].
  destruct (copyout_copyin_roundtrip 4090 [1; 2; 3; 4; 5; 6; 7] ex_space ex_user_space) as (r' & s'' & E' & Hr01 & [Hr' _] & _);
    [lia|apply (bool_decide_unpack _); exact I|].
  rewrite Hr in * by (intros x Hx; apply Hacc; simpl in Hx; lia).
  exists s'. split; [exact E|]. split; [apply Hin; reflexivity|]. exists s''.
  destruct Hr01 as [E0|E1]; [|rewrite <-E1; exact E'].
  exfalso. apply (Hr' E0 4096); [simpl; lia|reflexivity].
Defined.
