(* ===== verification/UvmCopy.v ===== *)
(** * Copying an address space

    [uvmcopy], the part of [fork] that duplicates the memory of the parent: the
    child gets a page of its own for every page of the parent, with the same
    contents and permissions, or nothing at all; the parent's pages stay as they
    are. *)

From S2P Require Import Prelude Machine CString Kalloc Vm PageTable Mapping Uvm.

Section UvmCopy.
Context `{Image}.

(** The pages of one address space are not in the footprint of another. *)
Definition apart (T1 : ptmap) (U1 : umap) (T2 : ptmap) (l : list Z) (U2 : umap) : Prop :=
  ∀ pa, owns T1 pa ∨ maps_page U1 pa → ¬ foot T2 l U2 pa.

(** Permissions and contents of the pages of an address space. *)
Definition page_perm (s : machine) (T : ptmap) (vpn : Z) : Z := PTE_FLAGS (pte_of (mem s) T (vpn * PGSIZE)).
Definition page_byte (s : machine) (U : umap) (vpn off : Z) : Z :=
  match U !! vpn with Some pa => load8 (mem s) (pa + off) | None => 0 end.

(** * Lemmas *)

(** An operation on one address space keeps the other. *)
Lemma other_kept s root1 T1 U1 s' root2 T2 l U2 T2' l' U2' :
  uvm_inv s root1 T1 l U1 → apart T1 U1 T2 l U2 → uvm_inv s root2 T2 l U2 →
  uvm_inv s' root2 T2' l' U2' → uvm_step s T2 l U2 s' T2' l' U2' →
  uvm_inv s' root1 T1 l' U1 ∧ (∀ vpn pa, U1 !! vpn = Some pa → mem_eq_on (in_page pa) (mem s) (mem s')) ∧
  (∀ va, pte_of (mem s') T1 va = pte_of (mem s) T1 va).
Proof.
  intros [[Hk Hpt Hsep] Hleaf Hinj Husep] Hap Hinv2 Hinv2' [Hfoot Hframe _].
  assert (∀ pa, owns T1 pa ∨ maps_page U1 pa → page_ok pa → mem_eq_on (in_page pa) (mem s) (mem s')) as Hmem.
  { intros pa Hpa Hok x Hx. apply Hframe. intros q Hq Hx'. apply (Hap pa Hpa).
    rewrite (in_page_unique pa q x); try done. by eapply (foot_page_ok Hinv2). }
  assert (∀ pa, owns T1 pa → mem_eq_on (in_page pa) (mem s) (mem s')) as Hown.
  { intros pa Hpa. apply Hmem; [by left|]. by eapply owns_page_ok. }
  assert (∀ va, pte_of (mem s') T1 va = pte_of (mem s) T1 va) as Hpte by (intros va; by apply pte_of_frame).
  assert (∀ pa, owns T1 pa ∨ maps_page U1 pa → pa ∉ l') as Hnl.
  { intros pa Hpa Hl. apply (Hap pa Hpa), Hfoot. right. by left. }
  split_and!; [split|..].
  - split; [apply Hinv2'|by eapply pt_inv_frame|]. intros pa Hpa. apply Hnl. by left.
  - intros vpn pa E. rewrite Hpte. by apply Hleaf.
  - done.
  - intros vpn pa E. split; [|by apply (Husep vpn)]. apply Hnl. right. by exists vpn.
  - intros vpn pa E. apply Hmem; [right; by exists vpn|]. by apply Hleaf in E as (_ & ? & _).
  - done.
Qed.

(** The permissions of a mapped page can be mapped again. *)
Lemma page_perm_ok s root T l U vpn pa :
  uvm_inv s root T l U → U !! vpn = Some pa →
  0 ≤ page_perm s T vpn < 1024 ∧ Z.lor (page_perm s T vpn) PTE_V ≠ PTE_V.
Proof.
  intros Hinv E. destruct (uvm_leaf _ _ _ _ _ Hinv _ _ E) as (_ & _ & HV & HF & _). unfold page_perm, PTE_FLAGS in *.
  set (v := pte_of (mem s) T (vpn * PGSIZE)) in *. change 0x3FF with (Z.ones 10) in *. split.
  - rewrite Z.land_ones by lia. change (2 ^ 10) with 1024. apply Z.mod_pos_bound. lia.
  - replace (Z.lor (Z.land v (Z.ones 10)) PTE_V) with (Z.land v (Z.ones 10)); [done|].
    rewrite PTE_V_1 in *. apply Z.bits_inj. intros i. rewrite Z.lor_spec. destruct (decide (i = 0)) as [->|Hi].
    + rewrite Z.land_spec. change (Z.testbit (Z.ones 10) 0) with true. change (Z.testbit 1 0) with true.
      rewrite orb_true_r, andb_true_r. destruct (Z.testbit v 0) eqn:Eb; [done|]. destruct HV.
      change (Z.land v 1) with (Z.land v (Z.ones 1)). rewrite Z.land_ones by lia. change (2 ^ 1) with 2. rewrite Z.bit0_odd in Eb. by rewrite Zmod_odd, Eb.
    + destruct (decide (i < 0)); [by rewrite !Z.testbit_neg_r by lia|].
      replace (Z.testbit 1 i) with false; [by rewrite orb_false_r|]. symmetry. apply (Z.bits_above_log2 1 i); simpl; lia.
Qed.

(** What a failed copy leaves: no user pages below [v], which is what it began with. *)
Lemma wp_uvmcopy_undo perm byte root v hi s0 T0 l0 U0 s T l U (Q : Z → machine → Prop) :
  grown perm byte root 0 v s0 T0 l0 U0 s T l U → 0 ≤ v ≤ hi → v * PGSIZE ≤ MAXVA → (∀ vpn, 0 ≤ vpn → U0 !! vpn = None) →
  (∀ va, 0 ≤ va / PGSIZE < hi → Z.land (pte_of (mem s0) T0 va) PTE_V = 0) →
  (∀ s' T' l', restored root 0 hi s0 T0 l0 U0 s' T' l' → Q (-1) s') →
  wp (uvmunmap root 0 (v * PGSIZE / PGSIZE) true ;; mret (-1)) Q s.
Proof.
  intros [Hinv Hstep Hold Hnew Hpte] Hv Hmax Hnone0 Hinval HQ. wp_step. rewrite Z.div_mul by done.
  change 0 with (0 * PGSIZE) at 1. eapply wp_uvmunmap_free; [done|lia|lia|lia|..].
  { intros vpn Hr. destruct (Hnew vpn) as (pa & E & _); [lia|]. by eexists. }
  rewrite Z.add_0_l. intros s' l' U' Hinv' Hstep' Hpte' _. apply wp_ret.
  assert (U' = U0) as EU.
  { unfold U'. apply map_eq. intros vpn. rewrite lookup_drop_pages. case_decide; [symmetry; apply Hnone0; lia|by apply Hold]. }
  rewrite EU in *. eapply (HQ s' T l'). split.
  - done.
  - eapply uvm_step_trans; [done..|]. intros vpn pa E0 _. rewrite Hold; [done|]. intros Hr. rewrite Hnone0 in E0 by lia. done.
  - intros va Hr. rewrite Hpte'. unfold unmapped. repeat case_match; try (exfalso; lia). apply Hpte. lia.
  - intros va Hr. rewrite Hpte'. unfold unmapped. case_match; [done|]. rewrite Hpte by lia. by apply Hinval.
Qed.

Section copy.
Context {root1 root2 : Z} {T1 T0 : ptmap} {l0 : list Z} {U1 U0 : umap} {s0 : machine} {sz : Z}.
Context (Hold : uvm_inv s0 root1 T1 l0 U1) (Hnew : uvm_inv s0 root2 T0 l0 U0) (Hap : apart T1 U1 T0 l0 U0).
Context (Hsz : 0 ≤ sz ≤ MAXVA - PGSIZE) (Hcov : ∀ vpn, 0 ≤ vpn < npages sz → is_Some (U1 !! vpn)).
Context (Hnone : ∀ vpn, 0 ≤ vpn → U0 !! vpn = None).
Context (Hinval : ∀ va, 0 ≤ va / PGSIZE < npages sz → Z.land (pte_of (mem s0) T0 va) PTE_V = 0).

Abbreviation copying v := (grown (page_perm s0 T1) (page_byte s0 U1) root2 0 v s0 T0 l0 U0).

(** A fresh page with the contents of the parent's page. *)
Lemma copy_page v s T p l U pa s1 :
  copying v s T (p :: l) U → U1 !! v = Some pa →
  kmem_inv s1 l → mem_eq_on (λ x, ¬ in_page p x) (mem s) (mem s1) →
  let s2 := set_mem (memmove (mem s1) p pa PGSIZE) s1 in
  kmem_inv s2 l ∧ mem_eq_on (λ x, ¬ in_page p x) (mem s) (mem s2) ∧
  (∀ x, in_page p x → load8 (mem s2) x = page_byte s0 U1 v (x - p)).
Proof.
  intros Hgr E Hk1 Hfr1 s2. pose proof (gr_inv _ _ _ _ _ _ _ _ _ _ _ _ _ Hgr) as Hinv.
  destruct (other_kept s0 root1 T1 U1 s root2 T0 l0 U0 T (p :: l) U Hold Hap Hnew Hinv (gr_step _ _ _ _ _ _ _ _ _ _ _ _ _ Hgr))
    as (Hold' & Hkeep & _).
  assert (page_ok p ∧ p ∉ l) as [Hp Hnin] by (destruct Hinv as [[[_ [? _]%Forall_cons [? _]%NoDup_cons] _ _] _ _ _]; done).
  assert (page_ok pa ∧ pa ≠ p) as [Hpa Hne].
  { split; [by apply (uvm_leaf _ _ _ _ _ Hold) in E as (_ & ? & _)|]. intros ->.
    destruct (uvm_sep _ _ _ _ _ Hold' _ _ E) as [Hni _]. set_solver. }
  assert (mem_eq_on (λ x, ¬ in_page p x) (mem s1) (mem s2)) as Hfr2.
  { intros x Hx. simpl. by rewrite load8_memmove_out. }
  split_and!.
  - apply kmem_inv_ext; [done|]. intros q Hq x Hx. apply Hfr2. intros Hx'.
    assert (page_ok q) by (eapply elem_page_ok; [apply Hk1|done]). assert (p = q) by (by eapply in_page_unique). set_solver.
  - intros x Hx. rewrite Hfr1 by done. by apply Hfr2.
  - intros x Hx. simpl. rewrite load8_memmove by done. unfold in_page in Hx.
    destruct (Z.leb_spec p x), (Z.ltb_spec x (p + PGSIZE)); try lia. simpl. unfold page_byte. rewrite E.
    assert (in_page pa (pa + (x - p))) as Hin by (unfold in_page; lia).
    rewrite <-Hfr1 by (intros Hx'; by destruct Hne; eapply in_page_unique). symmetry. by apply (Hkeep v pa E).
Qed.

Lemma wp_uvmcopy_loop n fuel v s T l U (Q : Z → machine → Prop) :
  copying v s T l U → 0 ≤ v → v + Z.of_nat n = npages sz → (n < fuel)%nat →
  (∀ s' T' l' U', copying (npages sz) s' T' l' U' → Q 0 s') →
  (∀ s' T' l', restored root2 0 (npages sz) s0 T0 l0 U0 s' T' l' → Q (-1) s') →
  wp (uvmcopy_loop fuel root1 root2 (v * PGSIZE) sz) Q s.
Proof.
  revert fuel v s T l U. induction n as [|n IH]; intros [|fuel] v s T l U Hgr Hv Hn Hf HQ1 HQ2; try lia; cbn [uvmcopy_loop];
    pose proof (npages_mul sz) as Enp;
    (assert (MAXVA < 2 ^ 63) as HM by done);
    (assert (sz ≤ PGROUNDUP sz < sz + PGSIZE) as Hge by (apply PGROUNDUP_ge; unfold PGSIZE in *; lia));
    (assert (0 ≤ npages sz ∧ PGROUNDUP sz ≤ MAXVA) as Hnb by (apply npages_bound; unfold PGSIZE in *; lia)).
  { destruct (Z.ltb_spec (v * PGSIZE) sz); [unfold PGSIZE in *; lia|]. apply wp_ret. eapply HQ1.
    replace (npages sz) with v by lia. done. }
  assert (v < npages sz) by lia. destruct (Z.ltb_spec (v * PGSIZE) sz); [|unfold PGSIZE in *; lia].
  assert (v * PGSIZE + PGSIZE ≤ MAXVA) by (unfold PGSIZE in *; lia).
  pose proof (gr_inv _ _ _ _ _ _ _ _ _ _ _ _ _ Hgr) as Hinv.
  destruct (other_kept s0 root1 T1 U1 s root2 T0 l0 U0 T l U Hold Hap Hnew Hinv (gr_step _ _ _ _ _ _ _ _ _ _ _ _ _ Hgr))
    as (Hold' & Hkeep & Hpte1).
  destruct (Hcov v) as [pa E]; [lia|]. destruct (uvm_leaf _ _ _ _ _ Hold' _ _ E) as (_ & _ & HV & _ & HPA).
  destruct (page_perm_ok _ _ _ _ _ _ _ Hold E) as [Hperm Hleaf].
  assert (is_Some (T1 !! (0, vkey 0 (v * PGSIZE)))) as Hs by (by eapply valid_is_Some).
  pose proof (vm_pt _ _ _ _ (uvm_vm _ _ _ _ _ Hold')) as Hpt1.
  wp_step. eapply wp_of_eq; [eapply walk_noalloc; [exact Hpt1|unfold PGSIZE in *; lia]|].
  rewrite (proj2 (Z.eqb_neq _ _) (slot_of_nonzero Hpt1 _ Hs)).
  unfold read64. wp_run. rewrite (load64_slot_of (v * PGSIZE)) by done.
  rewrite (proj2 (Z.eqb_neq _ _) HV), HPA. replace (PTE_FLAGS (pte_of (mem s) T1 (v * PGSIZE))) with (page_perm s0 T1 v)
    by (unfold page_perm; by rewrite Hpte1).
  wp_step. destruct l as [|p l].
  { eapply wp_of_eq; [apply kalloc_nil, Hinv|]. simpl. eapply wp_uvmcopy_undo; [exact Hgr|..]; eauto; unfold PGSIZE in *; lia. }
  eapply wp_kalloc_cons; [apply Hinv|]. intros s1 Hk1 Hfr1 _.
  destruct (copy_page v s T p l U pa s1 Hgr E Hk1 Hfr1) as (Hk2 & Hfr2 & Hz). set (s2 := set_mem _ s1) in *.
  destruct (uvm_take_page _ _ _ _ _ _ _ Hinv Hk2 Hfr2) as (Hinv2 & Hp & Hnin & Hown & Hmp & Hpte2).
  rewrite (proj2 (Z.eqb_neq p 0)) by (by apply page_ok_nonzero). unfold do_mem. wp_run. fold s2.
  assert (Z.land (pte_of (mem s2) T (v * PGSIZE)) PTE_V = 0) as Hv0.
  { rewrite Hpte2, (gr_pte _ _ _ _ _ _ _ _ _ _ _ _ _ Hgr), Hinval; rewrite ?Z.div_mul by done; lia || done. }
  eapply wp_mappages_one; [apply Hinv2|unfold PGSIZE in *; lia|by apply Z.mod_mul|done|done|by apply page_ok_pa_ok|done|..].
  - intros s3 T3 Hvm3 Hext3 Hpte3. simpl. wp_step. eapply wp_kfree; [apply Hvm3|done|set_solver|]. intros s4 Hk4 Hfr4.
    destruct (uvm_return_page s root2 T p l U s2 s3 T3 s4) as (Hinv4 & Hstep4 & Hpte4); try done.
    eapply (wp_uvmcopy_undo _ _ _ _ _ s0 T0 l0 U0 s4 T3 [p] U); eauto; [|unfold PGSIZE in *; lia..].
    eapply (grown_step _ _ _ _ _ s0 T0 l0 U0 s T (p :: l) U s4 T3 [p]); try done. intros va. by rewrite Hpte4, Hpte2.
  - intros s3 T3 l3 Hvm3 Hext3 Hpte3. simpl. rewrite u64_small by (unfold PGSIZE in *; lia).
    replace (v * PGSIZE + PGSIZE) with ((v + 1) * PGSIZE) by lia.
    eapply (IH _ _ s3 T3 l3 (<[v := p]> U)); eauto; [|lia..].
    eapply (grown_add _ _ _ _ _ _ _ _ _ s T p l U s2); [exact Hgr|done|done|lia| |by apply Hnone|by apply Hnone|done..|].
    + change (MAXVA / PGSIZE) with (2 ^ 26). change MAXVA with (2 ^ 38) in *. unfold PGSIZE in *. lia.
    + intros va. rewrite Hpte3, Z.div_mul by done. done.
Qed.

End copy.

(** * Properties *)

(** C12: [uvmcopy], for an address space with at least the pages below [sz] and
    an empty one with page-table pages of its own.  It terminates without
    panicking.  Either it returns 0, and every page below [sz] of the new address
    space is a page of its own with the parent's contents and permissions; or
    (out of memory) it returns -1, and the new address space has no user pages and
    all pages are back on the free list.  In both cases the old address space and
    its contents are unchanged, and the pages of the new one and the free list
    together are those there were before. *)
Theorem uvmcopy_copies_or_undoes root1 root2 sz s T1 T0 l U1 U0 :
  uvm_inv s root1 T1 l U1 → uvm_inv s root2 T0 l U0 → apart T1 U1 T0 l U0 →
  0 ≤ sz ≤ TRAPFRAME → (∀ vpn, 0 ≤ vpn < npages sz → is_Some (U1 !! vpn)) →
  (∀ vpn, 0 ≤ vpn → U0 !! vpn = None) →
  (∀ va, 0 ≤ va / PGSIZE < npages sz → Z.land (pte_of (mem s) T0 va) PTE_V = 0) →
  ∃ r s' T' l' U', uvmcopy root1 root2 sz s = Ret r s' ∧
    uvm_inv s' root2 T' l' U' ∧ (∀ pa, foot T' l' U' pa ↔ foot T0 l U0 pa) ∧
    uvm_inv s' root1 T1 l' U1 ∧
    (∀ vpn pa, U1 !! vpn = Some pa → mem_eq_on (in_page pa) (mem s) (mem s')) ∧
    (r = 0 ∧ (∀ vpn pa, 0 ≤ vpn < npages sz → U1 !! vpn = Some pa → ∃ pa', U' !! vpn = Some pa' ∧
        pte_of (mem s') T' (vpn * PGSIZE) = leaf_pte pa' (PTE_FLAGS (pte_of (mem s) T1 (vpn * PGSIZE))) ∧
        ∀ i, 0 ≤ i < PGSIZE → load8 (mem s') (pa' + i) = load8 (mem s) (pa + i)) ∨
     r = -1 ∧ U' = U0 ∧ ∀ va, 0 ≤ va / PGSIZE < npages sz → Z.land (pte_of (mem s') T' va) PTE_V = 0).
Proof.
  intros Hold Hnew Hap Hsz Hcov Hnone Hinval. assert (TRAPFRAME ≤ MAXVA - PGSIZE) by done. assert (0 ≤ sz ≤ MAXVA - PGSIZE) as Hsz' by lia.
  assert (wp (uvmcopy root1 root2 sz) (λ r s',
    r = 0 ∧ (∃ T' l' U', grown (page_perm s T1) (page_byte s U1) root2 0 (npages sz) s T0 l U0 s' T' l' U') ∨
    r = -1 ∧ ∃ T' l', restored root2 0 (npages sz) s T0 l U0 s' T' l') s) as Hwp.
  { unfold uvmcopy. assert (0 ≤ npages sz ∧ PGROUNDUP sz ≤ MAXVA) as [? ?] by (apply npages_bound; unfold PGSIZE in *; lia).
    assert (MAXVA < 2 ^ 63) by done.
    assert (sz ≤ PGROUNDUP sz < sz + PGSIZE) as Hge by (apply PGROUNDUP_ge; unfold PGSIZE in *; lia). pose proof (npages_mul sz).
    change (uvmcopy_loop ?f root1 root2 0 sz) with (uvmcopy_loop f root1 root2 (0 * PGSIZE) sz). eapply (wp_uvmcopy_loop Hold Hnew Hap Hsz' Hcov Hnone Hinval (Z.to_nat (npages sz)));
      [by apply grown_refl|lia|lia| | |].
    - apply Nat2Z.inj_lt. unfold PGSIZE in *. assert (sz < (sz / 4096 + 1) * 4096) by dlia. assert (0 ≤ sz / 4096) by dlia. lia.
    - intros s' T' l' U' Hg. left. eauto.
    - intros s' T' l' Hr. right. eauto. }
  apply wp_inv in Hwp as (r & s' & E & [[-> (T' & l' & U' & Hg)]|[-> (T' & l' & Hr)]]).
  - pose proof Hg as [Hinv Hstep _ Hpages _]. exists 0, s', T', l', U'.
    destruct (other_kept s root1 T1 U1 s' root2 T0 l U0 T' l' U' Hold Hap Hnew Hinv Hstep) as (Hold' & Hkeep & _).
    split_and!; try done; [apply Hstep|]. left. split; [done|]. intros vpn pa Hv E1. destruct (Hpages vpn Hv) as (pa' & E' & Ep & Hb).
    exists pa'. split_and!; try done. intros i Hi. rewrite Hb by (unfold in_page; lia). unfold page_byte. rewrite E1.
    do 2 f_equal. lia.
  - pose proof Hr as [Hinv Hstep _ Hno]. exists (-1), s', T', l', U0.
    destruct (other_kept s root1 T1 U1 s' root2 T0 l U0 T' l' U0 Hold Hap Hnew Hinv Hstep) as (Hold' & Hkeep & _).
    split_and!; try done; [apply Hstep|]. right. done.
Qed.

End UvmCopy.

(** ** An example: the address space of Uvm.v, an empty one, and three free pages *)

Definition ex_root2 : Z := ex_page + 5 * PGSIZE.
Definition ex_free1 : Z := ex_page + 6 * PGSIZE.
Definition ex_free2 : Z := ex_page + 7 * PGSIZE.
Definition ex_two : machine := Machine (store64 (store64 (mem ex_space) ex_free ex_free1) ex_free1 ex_free2) ex_free.
Definition ex_T2 : ptmap := {[ (2, 0) := ex_root2 ]}.
Definition ex_frees : list Z := [ex_free; ex_free1; ex_free2].

Lemma ex_two_page pa : page_ok pa → pa ≠ ex_free → pa ≠ ex_free1 → mem_eq_on (in_page pa) (mem ex_space) (mem ex_two).
Proof.
  intros [Hpa _] H1 H2 x Hx. unfold ex_two. cbn [mem]. unfold in_page, ex_free, ex_free1, ex_page, KERNBASE, PGSIZE in *.
  rewrite !load8_store64_ne by dlia. done.
Qed.

Lemma ex_two_kmem : kmem_inv ex_two ex_frees.
Proof.
  split.
  - by vm_compute.
  - repeat constructor; vm_compute; intuition congruence.
  - apply (bool_decide_unpack _). by vm_compute.
Qed.

Lemma ex_two_old : uvm_inv ex_two ex_page ex_T ex_frees ex_U.
Proof.
  destruct ex_pages_ok as (? & ? & ? & ? & ?).
  assert (∀ pa, owns ex_T pa → pa = ex_page ∨ pa = ex_l1 ∨ pa = ex_l0) as Ho by (intros pa [[l p] [_ Hc]%ex_T_Some]; naive_solver).
  assert (∀ pa, pa = ex_page ∨ pa = ex_l1 ∨ pa = ex_l0 ∨ pa = ex_user → pa ∉ ex_frees) as Hn.
  { intros pa Hpa. unfold ex_frees. rewrite !not_elem_of_cons. unfold ex_free, ex_free1, ex_free2, ex_l1, ex_l0, ex_user, PGSIZE in *.
    split_and!; [lia|lia|lia|apply not_elem_of_nil]. }
  assert (∀ pa, owns ex_T pa → mem_eq_on (in_page pa) (mem ex_space) (mem ex_two)) as Hm.
  { intros pa Hpa%Ho. apply ex_two_page; [naive_solver|..]; unfold ex_free, ex_free1, ex_l1, ex_l0, PGSIZE in *; lia. }
  split; [split; [apply ex_two_kmem|by eapply pt_inv_frame; [apply ex_pt_inv|]|intros pa Hpa%Ho; apply Hn; naive_solver]|..].
  - intros vpn pa [-> ->]%ex_U_Some. rewrite (pte_of_frame (m := mem ex_space)) by done. by split_and!.
  - intros v1 v2 pa [-> _]%ex_U_Some [-> _]%ex_U_Some. done.
  - intros vpn pa [-> ->]%ex_U_Some. split; [apply Hn; auto|]. intros Hc%Ho. unfold ex_l1, ex_l0, ex_user, PGSIZE in *. lia.
Qed.

Lemma ex_two_new : uvm_inv ex_two ex_root2 ex_T2 ex_frees ∅.
Proof.
  assert (∀ l p pa, ex_T2 !! (l, p) = Some pa → l = 2 ∧ p = 0 ∧ pa = ex_root2) as HT.
  { intros l p pa. unfold ex_T2. rewrite lookup_singleton_Some. naive_solver. }
  split; [split; [apply ex_two_kmem|split|]|done..].
  - done.
  - intros l p pa (-> & -> & ->)%HT. by vm_compute.
  - intros [l1 p1] [l2 p2] pa (-> & -> & _)%HT (-> & -> & _)%HT. done.
  - intros l p pa i (-> & -> & ->)%HT _ Hi. destruct (ex_T2 !! (2 - 1, 0 * 512 + i)) eqn:E; [by apply HT in E as (? & _)|].
    unfold ex_two, ex_space. cbn [mem]. unfold pte_addr, ex_root2, ex_free, ex_free1, ex_l1, ex_l0, PGSIZE in *.
    rewrite !load64_store64_ne by (unfold ex_page, KERNBASE in *; lia). by vm_compute.
  - intros l p pa (-> & _)%HT Hl. lia.
  - intros pa [[l p] (-> & -> & ->)%HT]. vm_compute. set_solver.
Qed.

Lemma uvmcopy_copies_or_undoes_witness :
  ∃ s' T' l' U', uvmcopy ex_page ex_root2 4000 ex_two = Ret 0 s' ∧ uvm_inv s' ex_root2 T' l' U' ∧
    ∃ pa', U' !! 0 = Some pa' ∧ ∀ i, 0 ≤ i < PGSIZE → load8 (mem s') (pa' + i) = load8 (mem ex_two) (ex_user + i).
Proof.
  destruct (uvmcopy_copies_or_undoes ex_page ex_root2 4000 ex_two ex_T ex_T2 ex_frees ex_U ∅) as (r & s' & T' & l' & U' & E & Hinv & _ & _ & _ & Hr).
  - apply ex_two_old.
  - apply ex_two_new.
  - intros pa Hpa Hf. assert (pa = ex_page ∨ pa = ex_l1 ∨ pa = ex_l0 ∨ pa = ex_user) as Hpa'.
    { destruct Hpa as [[[l p] [_ Hc]%ex_T_Some]|[vpn [_ Hc]%ex_U_Some]]; naive_solver. }
    assert (pa = ex_root2 ∨ pa = ex_free ∨ pa = ex_free1 ∨ pa = ex_free2) as Hf'.
    { destruct Hf as [[[l p] Hc]|[Hc|[vpn Hc]]]; [|unfold ex_frees in Hc; set_solver|by rewrite lookup_empty in Hc].
      unfold ex_T2 in Hc. apply lookup_singleton_Some in Hc as [_ <-]. by left. }
    unfold ex_root2, ex_free, ex_free1, ex_free2, ex_l1, ex_l0, ex_user, PGSIZE in *. lia.
  - by vm_compute.
  - intros vpn Hv. by apply ex_covers.
  - intros vpn _. apply lookup_empty.
  - intros va Hva. assert (ex_T2 !! (0, vkey 0 va) = None) as En by (unfold ex_T2; by rewrite lookup_singleton_ne).
    unfold pte_of. by rewrite En.
  - assert (match uvmcopy ex_page ex_root2 4000 ex_two with Ret r _ => r | _ => 1 end = 0) as E0 by (vm_compute; reflexivity).
    rewrite E in E0. subst r. exists s', T', l', U'. split; [exact E|]. clear E. split; [exact Hinv|]. destruct Hr as [[_ Hr]|[? _]]; [|lia].
    destruct (Hr 0 ex_user) as (pa' & E' & _ & Hb); [by vm_compute|done|]. exists pa'. split; [exact E'|exact Hb].
Defined.
