(* ===== verification/Bio.v ===== *)
(** * The buffer cache: kernel/bio.c

    The cache is the array [bcache.buf] and the list head [bcache.head], linked
    through [prev]/[next] in order of last use.  A buffer is named by its index
    in the array; the head is index [NBUF].  The sleep-lock of a buffer is the
    pair [locked], [lpid].  Sections of the code under the spin-lock
    [bcache.lock] (or the one inside a sleep-lock) run atomically here; a wait
    for a sleep-lock is the outcome [Sleep].  The process table is not part of
    this state: [woken] lists the channels that were passed to [wakeup], and
    Kernel.v wakes the processes that sleep there.

    The disk is its contents, block by block, and the sequence of the block
    writes it has received, which the crash theorems of the log use.

    The LRU list refines a list [ord] of buffer indices ([dll]); [bcache_inv]
    is the invariant of the cache; the theorems give the behaviour of [bread],
    [bwrite] and [brelse] on the list and on the contents. *)

From S2P Require Import Prelude Machine.

Definition NBUF : Z := 30.
Definition BSIZE : Z := 1024.
Definition ROOTDEV : Z := 1.

(** The bytes of a block, at offsets [0 .. BSIZE - 1]. *)
Definition block : Type := memory.

Record buf := Buf {
  valid : bool;
  dev : Z;
  blockno : Z;
  locked : bool;
  lpid : Z;
  refcnt : Z;
  prev : Z;
  next : Z;
  data : block
}.

Record bio := Bio {
  bufs : Z → buf;
  disk : Z → block;
  trace : list (Z * block);
  cur_pid : Z;
  woken : list chan
}.

(** [&bcache.head] *)
Definition HEAD : Z := NBUF.

(** The array indices, and [i] a valid one. *)
Definition buf_indices : list Z := seqZ 0 NBUF.
Abbreviation idx i := (0 ≤ i < NBUF).

(** ** Field updates *)

Definition set_valid v b := Buf v (dev b) (blockno b) (locked b) (lpid b) (refcnt b) (prev b) (next b) (data b).
Definition set_lock l p b := Buf (valid b) (dev b) (blockno b) l p (refcnt b) (prev b) (next b) (data b).
Definition set_refcnt r b := Buf (valid b) (dev b) (blockno b) (locked b) (lpid b) r (prev b) (next b) (data b).
Definition set_prev p b := Buf (valid b) (dev b) (blockno b) (locked b) (lpid b) (refcnt b) p (next b) (data b).
Definition set_next n b := Buf (valid b) (dev b) (blockno b) (locked b) (lpid b) (refcnt b) (prev b) n (data b).
Definition set_data d b := Buf (valid b) (dev b) (blockno b) (locked b) (lpid b) (refcnt b) (prev b) (next b) d.
Definition set_bufs f s := Bio f (disk s) (trace s) (cur_pid s) (woken s).

Definition getb (b : Z) : M bio buf := gets (λ s, bufs s b).
Definition updb (b : Z) (f : buf → buf) : M bio unit :=
  modify (λ s, set_bufs (fset (bufs s) b (f (bufs s b))) s).

(** [wakeup(c)] *)
Definition woke (c : chan) (s : bio) : bio := Bio (bufs s) (disk s) (trace s) (cur_pid s) (woken s ++ [c]).
Definition wake (c : chan) : M bio unit := modify (woke c).

(** ** Sleep-locks: kernel/sleeplock.c *)

Definition initsleeplock (b : Z) : M bio unit := updb b (set_lock false 0).

Definition acquiresleep (b : Z) : M bio unit :=
  x ← getb b;
  if locked x then sleep_on ("buffer", b)
  else pid ← gets cur_pid; updb b (set_lock true pid).

Definition releasesleep (b : Z) : M bio unit := updb b (set_lock false 0) ;; wake ("buffer", b).

Definition holdingsleep (b : Z) : M bio bool :=
  x ← getb b; pid ← gets cur_pid; mret (locked x && (lpid x =? pid)).

(** ** The cache *)

(** Inserting [b] after the head: the four stores that [binit] and [brelse]
    share. *)
Definition lru_push (b : Z) : M bio unit :=
  h ← getb HEAD;
  updb b (set_next (next h)) ;;
  updb b (set_prev HEAD) ;;
  h ← getb HEAD;
  updb (next h) (set_prev b) ;;
  updb HEAD (set_next b).

Definition binit : M bio unit :=
  updb HEAD (set_prev HEAD) ;;
  updb HEAD (set_next HEAD) ;;
  for_each buf_indices (λ b, initsleeplock b ;; lru_push b).

Fixpoint bget_cached (fuel : nat) (d n b : Z) : M bio (option Z) :=
  match fuel with
  | O => out_of_fuel
  | S fuel' =>
      if b =? HEAD then mret None
      else
        x ← getb b;
        if (dev x =? d) && (blockno x =? n) then mret (Some b)
        else bget_cached fuel' d n (next x)
  end.

Fixpoint bget_unused (fuel : nat) (b : Z) : M bio (option Z) :=
  match fuel with
  | O => out_of_fuel
  | S fuel' =>
      if b =? HEAD then mret None
      else
        x ← getb b;
        if refcnt x =? 0 then mret (Some b) else bget_unused fuel' (prev x)
  end.

(** Both loops visit at most [NBUF] buffers. *)
Definition bget_fuel : nat := S (Z.to_nat NBUF).

Definition bget (d n : Z) : M bio Z :=
  h ← getb HEAD;
  hit ← bget_cached bget_fuel d n (next h);
  match hit with
  | Some b =>
      updb b (λ x, set_refcnt (u32 (refcnt x + 1)) x) ;;
      acquiresleep b ;;
      mret b
  | None =>
      h ← getb HEAD;
      lru ← bget_unused bget_fuel (prev h);
      match lru with
      | Some b =>
          updb b (λ x, Buf false d n (locked x) (lpid x) 1 (prev x) (next x) (data x)) ;;
          acquiresleep b ;;
          mret b
      | None => panic "bget: no buffers"
      end
  end.

(** The effect of the driver's [virtio_disk_rw] once the device has completed
    the request: the device number plays no role. *)
Definition virtio_disk_rw (b : Z) (write : bool) : M bio unit :=
  x ← getb b;
  if write then
    modify (λ s, Bio (bufs s) (fset (disk s) (blockno x) (data x))
                     (trace s ++ [(blockno x, data x)]) (cur_pid s) (woken s))
  else
    d ← gets (λ s, disk s (blockno x));
    updb b (set_data d).

Definition bread (d n : Z) : M bio Z :=
  b ← bget d n;
  x ← getb b;
  (if valid x then mret tt
   else virtio_disk_rw b false ;; updb b (set_valid true)) ;;
  mret b.

Definition bwrite (b : Z) : M bio unit :=
  h ← holdingsleep b;
  if h : bool then virtio_disk_rw b true else panic "bwrite".

Definition brelse (b : Z) : M bio unit :=
  h ← holdingsleep b;
  if h : bool then
    releasesleep b ;;
    updb b (λ x, set_refcnt (u32 (refcnt x - 1)) x) ;;
    x ← getb b;
    if refcnt x =? 0 then
      updb (next x) (set_prev (prev x)) ;;
      x ← getb b;
      updb (prev x) (set_next (next x)) ;;
      lru_push b
    else mret tt
  else panic "brelse".

Definition bpin (b : Z) : M bio unit := updb b (λ x, set_refcnt (u32 (refcnt x + 1)) x).
Definition bunpin (b : Z) : M bio unit := updb b (λ x, set_refcnt (u32 (refcnt x - 1)) x).

(** ** Abstraction *)

(** From [x] to [z], the buffers [l] are linked in both directions. *)
Fixpoint dll (g : Z → buf) (x : Z) (l : list Z) (z : Z) : Prop :=
  match l with
  | [] => next (g x) = z ∧ prev (g z) = x
  | y :: l' => next (g x) = y ∧ prev (g y) = x ∧ dll g y l' z
  end.

(** Buffer [i] caches block [n] of the root device. *)
Definition holds (g : Z → buf) (i n : Z) : Prop :=
  idx i ∧ dev (g i) = ROOTDEV ∧ blockno (g i) = n.

(** The invariant of the cache, whose list is [ord]. *)
Record bcache_inv (g : Z → buf) (ord : list Z) : Prop := {
  bc_dll : dll g HEAD ord HEAD;
  bc_perm : ord ≡ₚ buf_indices;
  bc_uniq i j n : holds g i n → holds g j n → i = j;
  bc_ref i : idx i → 0 ≤ refcnt (g i) < 2 ^ 32;
  bc_dev i : idx i → dev (g i) ≠ ROOTDEV → dev (g i) = 0 ∧ valid (g i) = false
}.

(** Everything in a buffer but its links. *)
Definition payload (x : buf) : buf := set_prev 0 (set_next 0 x).

(** What reading block [n] must return: the cached contents if there are any. *)
Definition view (s : bio) (n : Z) : block :=
  match first_such (λ i, (dev (bufs s i) =? ROOTDEV) && (blockno (bufs s i) =? n) && valid (bufs s i))
          buf_indices with
  | Some i => data (bufs s i)
  | None => disk s n
  end.

(** * Lemmas *)

Lemma elem_buf_indices i : i ∈ buf_indices ↔ idx i.
Proof. unfold buf_indices. rewrite elem_of_seqZ. lia. Qed.

Lemma NoDup_buf_indices : NoDup buf_indices.
Proof. apply NoDup_seqZ. Qed.

Lemma length_buf_indices : length buf_indices = 30%nat.
Proof. done. Qed.

#[global] Opaque buf_indices.

(** ** The doubly linked list *)

Lemma dll_app g x l1 y l2 z : dll g x (l1 ++ y :: l2) z ↔ dll g x l1 y ∧ dll g y l2 z.
Proof. revert x. induction l1 as [|a l1 IH]; intros x; simpl; [|rewrite IH]; tauto. Qed.

Lemma dll_ext g g' x l z :
  (∀ a, a ∈ x :: l → next (g' a) = next (g a)) → (∀ a, a ∈ l ++ [z] → prev (g' a) = prev (g a)) →
  dll g x l z → dll g' x l z.
Proof.
  revert x. induction l as [|y l IH]; intros x Hn Hp; simpl.
  - rewrite Hn, Hp by set_solver. done.
  - intros (? & ? & ?). rewrite Hn, Hp by set_solver. split_and!; try done.
    apply IH; [intros a Ha; apply Hn; set_solver|intros a Ha; apply Hp; set_solver|done].
Qed.

Lemma dll_payload_ext g g' x l z :
  (∀ a, next (g' a) = next (g a) ∧ prev (g' a) = prev (g a)) → dll g x l z → dll g' x l z.
Proof. intros Hl. apply dll_ext; intros a _; apply Hl. Qed.

(** The three shapes of a link update. *)
Lemma next_fset_prev g k v a : next (fset g k (set_prev v (g k)) a) = next (g a).
Proof. unfold fset. by destruct (Z.eqb_spec a k) as [->|]. Qed.
Lemma prev_fset_next g k v a : prev (fset g k (set_next v (g k)) a) = prev (g a).
Proof. unfold fset. by destruct (Z.eqb_spec a k) as [->|]. Qed.
Lemma next_fset_next g k v a : next (fset g k (set_next v (g k)) a) = if a =? k then v else next (g a).
Proof. unfold fset. by destruct (Z.eqb_spec a k) as [->|]. Qed.
Lemma prev_fset_prev g k v a : prev (fset g k (set_prev v (g k)) a) = if a =? k then v else prev (g a).
Proof. unfold fset. by destruct (Z.eqb_spec a k) as [->|]. Qed.
Lemma payload_fset_prev g k v a : payload (fset g k (set_prev v (g k)) a) = payload (g a).
Proof. unfold fset. by destruct (Z.eqb_spec a k) as [->|]. Qed.
Lemma payload_fset_next g k v a : payload (fset g k (set_next v (g k)) a) = payload (g a).
Proof. unfold fset. by destruct (Z.eqb_spec a k) as [->|]. Qed.

Create Rewrite HintDb links.
#[export] Hint Rewrite next_fset_prev prev_fset_next next_fset_next prev_fset_prev
  payload_fset_prev payload_fset_next : links.

Ltac eqb_cases :=
  repeat match goal with
  | |- context [?a =? ?b] => destruct (Z.eqb_spec a b); subst
  end.

Lemma wp_lru_push s b l (Q : unit → bio → Prop) :
  dll (bufs s) HEAD l HEAD → b ∉ HEAD :: l → NoDup (HEAD :: l) →
  (∀ g, dll g HEAD (b :: l) HEAD → (∀ a, payload (g a) = payload (bufs s a)) →
     Q tt (set_bufs g s)) →
  wp (lru_push b) Q s.
Proof.
  intros Hd Hb Hnd HQ. unfold lru_push, getb, updb. wp_run. simpl.
  apply not_elem_of_cons in Hb as [HbH Hb]. apply NoDup_cons in Hnd as [HH Hnd].
  apply HQ; [|intros a; by autorewrite with links].
  autorewrite with links. destruct (Z.eqb_spec HEAD b); [done|].
  simpl in Hd. destruct l as [|y l]; simpl in *.
  - destruct Hd as [Hn Hp]. autorewrite with links. rewrite Hn. split_and!; eqb_cases; congruence.
  - destruct Hd as (Hn & Hp & Hd). autorewrite with links. rewrite Hn.
    apply not_elem_of_cons in HH as [HHy HH]. apply not_elem_of_cons in Hb as [Hby Hb].
    apply NoDup_cons in Hnd as [Hy Hnd].
    split_and!; [by eqb_cases|by eqb_cases|by eqb_cases|by eqb_cases|].
    revert Hd. apply dll_ext; intros a Ha; autorewrite with links.
    + eqb_cases; set_solver.
    + eqb_cases; set_solver.
Qed.

(** The unlinking of [brelse]. *)
Definition unlink (g : Z → buf) (b : Z) : Z → buf :=
  let g1 := fset g (next (g b)) (set_prev (prev (g b)) (g (next (g b)))) in
  fset g1 (prev (g1 b)) (set_next (next (g1 b)) (g1 (prev (g1 b)))).

Lemma dll_first g x l z : dll g x l z → next (g x) = hd z l.
Proof. destruct l; simpl; naive_solver. Qed.

Lemma dll_last g x l z : dll g x l z → prev (g z) = default x (last l).
Proof.
  destruct l as [|y l _] using rev_ind; [simpl; naive_solver|].
  rewrite dll_app, last_snoc. simpl. naive_solver.
Qed.

(** Two segments joined across the buffer between them. *)
Lemma dll_join g g' x l1 b l2 z :
  dll g x l1 b → dll g b l2 z →
  let p := default x (last l1) in
  let q := hd z l2 in
  NoDup (x :: l1) → NoDup (l2 ++ [z]) →
  (∀ a, a ∈ x :: l1 → a ≠ p → next (g' a) = next (g a)) →
  (∀ a, a ∈ l1 → prev (g' a) = prev (g a)) →
  (∀ a, a ∈ l2 → next (g' a) = next (g a)) →
  (∀ a, a ∈ l2 ++ [z] → a ≠ q → prev (g' a) = prev (g a)) →
  next (g' p) = q → prev (g' q) = p → dll g' x (l1 ++ l2) z.
Proof.
  intros Hd1 Hd2 p q Hnd1 Hnd2 Hn1 Hp1 Hn2 Hp2 Hpq Hqp.
  assert (dll g' p l2 z) as Hr.
  { destruct l2 as [|y l2]; simpl in *; [done|]. destruct Hd2 as (_ & _ & Hd2).
    split_and!; [done|done|]. apply NoDup_cons in Hnd2 as [Hy _].
    revert Hd2. apply dll_ext; [auto|]. intros a Ha. apply Hp2; [by right|]. by intros ->. }
  destruct l1 as [|y l1 _] using rev_ind; [done|].
  unfold p in *. rewrite last_snoc in *. simpl in *. rewrite <-app_assoc. apply dll_app.
  split; [|done]. apply dll_app in Hd1 as [Hd1 _].
  assert (y ∉ x :: l1) as Hy.
  { change (x :: l1 ++ [y]) with ((x :: l1) ++ [y]) in Hnd1.
    apply NoDup_app in Hnd1 as (_ & Hdis & _). intros Hy. by apply (Hdis y Hy), list_elem_of_singleton. }
  revert Hd1. apply dll_ext; [|done].
  intros a Ha. apply Hn1; [|by intros ->].
  rewrite elem_of_cons in *. rewrite elem_of_app. tauto.
Qed.

Lemma hd_elem (z : Z) l : hd z l ∈ l ++ [z].
Proof. destruct l; simpl; set_solver. Qed.

Lemma last_elem (x : Z) l : default x (last l) ∈ x :: l.
Proof.
  destruct l as [|y l _] using rev_ind; simpl; [set_solver|]. rewrite last_snoc. simpl. set_solver.
Qed.

Lemma dll_unlink g l1 b l2 :
  dll g HEAD (l1 ++ b :: l2) HEAD → NoDup (HEAD :: l1 ++ b :: l2) →
  dll (unlink g b) HEAD (l1 ++ l2) HEAD ∧ ∀ a, payload (unlink g b a) = payload (g a).
Proof.
  intros Hd Hnd. split; [|intros a; unfold unlink; by autorewrite with links].
  apply dll_app in Hd as [Hd1 Hd2].
  pose proof (dll_last _ _ _ _ Hd1) as Hp. pose proof (dll_first _ _ _ _ Hd2) as Hq.
  pose proof (hd_elem HEAD l2) as Hqe. pose proof (last_elem HEAD l1) as Hpe.
  apply NoDup_cons in Hnd as [HH Hnd]. rewrite elem_of_app, elem_of_cons in HH.
  apply NoDup_app in Hnd as (Hnd1 & Hdis & [Hb2 Hnd2]%NoDup_cons).
  assert (b ∉ l1) as Hb1 by (intros Hb; apply (Hdis b Hb); by left).
  assert (∀ a, a ∈ l1 → a ∉ l2) as Hd12 by (intros a Ha Ha2; apply (Hdis a Ha); by right).
  rewrite elem_of_app, list_elem_of_singleton in Hqe. rewrite elem_of_cons in Hpe.
  pose proof (dll_join g (unlink g b) _ _ _ _ _ Hd1 Hd2) as Hjoin. cbv zeta in Hjoin.
  remember (default HEAD (last l1)) as p eqn:Ep. remember (hd HEAD l2) as q eqn:Eq. clear Ep Eq Hd1 Hd2.
  assert (∀ a, next (unlink g b a) = if a =? p then q else next (g a)) as Hn.
  { intros a. unfold unlink. autorewrite with links. rewrite Hp, Hq. by destruct (b =? q). }
  assert (∀ a, prev (unlink g b a) = if a =? q then p else prev (g a)) as Hpr.
  { intros a. unfold unlink. autorewrite with links. by rewrite Hp, Hq. }
  apply Hjoin.
  - apply NoDup_cons. tauto.
  - apply NoDup_app. split_and!; [done| |apply NoDup_singleton].
    intros a Ha ->%list_elem_of_singleton. tauto.
  - intros a _ Hne. rewrite Hn. by destruct (Z.eqb_spec a p).
  - intros a Ha. rewrite Hpr. destruct (Z.eqb_spec a q) as [->|]; [|done].
    destruct Hqe as [Hq2| ->]; [by destruct (Hd12 q)|tauto].
  - intros a Ha. rewrite Hn. destruct (Z.eqb_spec a p) as [->|]; [|done].
    destruct Hpe as [->|Hp2]; [tauto|by destruct (Hd12 p)].
  - intros a _ Hne. rewrite Hpr. by destruct (Z.eqb_spec a q).
  - rewrite Hn. by rewrite Z.eqb_refl.
  - rewrite Hpr. by rewrite Z.eqb_refl.
Qed.

Lemma payload_fields x y :
  payload x = payload y →
  valid x = valid y ∧ dev x = dev y ∧ blockno x = blockno y ∧ locked x = locked y ∧
  lpid x = lpid y ∧ refcnt x = refcnt y ∧ data x = data y.
Proof. destruct x, y. unfold payload. simpl. intros [=]. naive_solver. Qed.

(** ** The searches of [bget] *)

Lemma bget_cached_run fuel s d n x l :
  dll (bufs s) x l HEAD → HEAD ∉ l → (length l < fuel)%nat →
  bget_cached fuel d n (next (bufs s x)) s =
    Ret (first_such (λ b, (dev (bufs s b) =? d) && (blockno (bufs s b) =? n)) l) s.
Proof.
  revert x l. induction fuel as [|fuel IH]; intros x l Hd HH Hlen; [lia|].
  destruct l as [|y l]; simpl in Hd |- *.
  - destruct Hd as [-> _]. by rewrite Z.eqb_refl.
  - destruct Hd as (-> & _ & Hd). apply not_elem_of_cons in HH as [HHy HH].
    destruct (Z.eqb_spec y HEAD); [done|]. unfold getb. erewrite bind_Ret by done.
    destruct (_ && _); [done|]. apply IH; [done|done|simpl in Hlen; lia].
Qed.

Lemma bget_unused_run fuel s z l :
  dll (bufs s) HEAD l z → HEAD ∉ l → (length l < fuel)%nat →
  bget_unused fuel (prev (bufs s z)) s =
    Ret (first_such (λ b, refcnt (bufs s b) =? 0) (reverse l)) s.
Proof.
  revert z l. induction fuel as [|fuel IH]; intros z l Hd HH Hlen; [lia|].
  destruct l as [|y l _] using rev_ind; simpl.
  - destruct Hd as [_ ->]. by rewrite Z.eqb_refl.
  - apply dll_app in Hd as [Hd [_ ->]]. rewrite reverse_snoc. simpl.
    rewrite elem_of_app, list_elem_of_singleton in HH. destruct (Z.eqb_spec y HEAD) as [->|]; [tauto|].
    unfold getb. erewrite bind_Ret by done. destruct (_ =? _); [done|].
    apply IH; [done|tauto|]. rewrite length_app in Hlen. simpl in Hlen. lia.
Qed.

(** ** The operations *)

Section ops.
Context {s : bio} {ord : list Z}.
Context (Hinv : bcache_inv (bufs s) ord).

Lemma ord_elem i : i ∈ ord ↔ idx i.
Proof. rewrite (bc_perm _ _ Hinv). apply elem_buf_indices. Qed.

Lemma ord_NoDup : NoDup (HEAD :: ord).
Proof.
  apply NoDup_cons. split.
  - rewrite ord_elem. unfold HEAD. lia.
  - rewrite (bc_perm _ _ Hinv). apply NoDup_buf_indices.
Qed.

Lemma ord_length : length ord = 30%nat.
Proof. rewrite (bc_perm _ _ Hinv). apply length_buf_indices. Qed.

Lemma ord_HEAD : HEAD ∉ ord.
Proof. rewrite ord_elem. unfold HEAD. lia. Qed.

Lemma hit_spec n :
  first_such (λ b, (dev (bufs s b) =? ROOTDEV) && (blockno (bufs s b) =? n)) ord = None →
  ∀ i, ¬ holds (bufs s) i n.
Proof.
  rewrite first_such_None. intros Hno i (Hi & Hd & Hb).
  specialize (Hno i). rewrite ord_elem, Hd, Hb, !Z.eqb_refl in Hno. by specialize (Hno Hi).
Qed.

(** How [bget] and [bread] choose the buffer [b] for block [n]: the one that
    caches it, or else the least recently used one without references. *)
Definition chosen (n b : Z) : Prop :=
  holds (bufs s) b n ∨
  (∀ i, ¬ holds (bufs s) i n) ∧
  first_such (λ i, refcnt (bufs s i) =? 0) (reverse ord) = Some b.

Lemma chosen_idx n b : chosen n b → idx b.
Proof.
  intros [[? _]|[_ E]]; [done|]. apply first_such_Some in E as [Hb _].
  by rewrite elem_of_reverse, ord_elem in Hb.
Qed.

Lemma wp_bget n (Q : Z → bio → Prop) :
  (∀ i, holds (bufs s) i n → locked (bufs s i) = false) →
  (∀ i, idx i → refcnt (bufs s i) = 0 → locked (bufs s i) = false) →
  (∃ i, holds (bufs s) i n) ∨ (∃ i, idx i ∧ refcnt (bufs s i) = 0) →
  (∀ b g, chosen n b → (∀ a, a ≠ b → g a = bufs s a) →
     (holds (bufs s) b n →
        g b = set_lock true (cur_pid s) (set_refcnt (u32 (refcnt (bufs s b) + 1)) (bufs s b))) →
     (¬ holds (bufs s) b n →
        g b = Buf false ROOTDEV n true (cur_pid s) 1 (prev (bufs s b)) (next (bufs s b)) (data (bufs s b))) →
     Q b (set_bufs g s)) →
  wp (bget ROOTDEV n) Q s.
Proof.
  intros Hlk Hlk0 Hex HQ. unfold bget, getb, updb. wp_run.
  assert (length ord < bget_fuel)%nat as Hfuel by (rewrite ord_length; vm_compute; lia).
  eapply wp_of_eq; [apply bget_cached_run; [apply Hinv|apply ord_HEAD|done]|].
  destruct (first_such _ ord) as [i|] eqn:E.
  - apply first_such_Some in E as [Hi Hp]. rewrite ord_elem in Hi.
    assert (holds (bufs s) i n) as Hh by (unfold holds; lia).
    unfold acquiresleep, getb, updb. wp_run. simpl. rewrite fset_eq. simpl. rewrite (Hlk i Hh).
    wp_run. simpl. apply HQ; [by left| |intros _; by rewrite !fset_eq|done].
    intros a Ha. by rewrite !fset_ne.
  - pose proof (hit_spec n E) as Hno. wp_run.
    eapply wp_of_eq; [apply bget_unused_run; [apply Hinv|apply ord_HEAD|done]|].
    destruct Hex as [[i Hi]|(i & Hi & Hr)]; [by destruct (Hno i)|].
    destruct (first_such _ (reverse ord)) as [j|] eqn:E'.
    + assert (chosen n j) as Hc by (by right). pose proof (chosen_idx _ _ Hc) as Hj.
      apply first_such_Some in E' as [_ Hr'].
      unfold acquiresleep, getb, updb. wp_run. simpl. rewrite fset_eq. simpl.
      rewrite (Hlk0 j Hj) by lia. wp_run. simpl.
      apply HQ; [done| |intros Hh; by destruct (Hno j)|intros _; by rewrite !fset_eq].
      intros a Ha. by rewrite !fset_ne.
    + rewrite first_such_None in E'. specialize (E' i). rewrite elem_of_reverse, ord_elem in E'.
      specialize (E' Hi). lia.
Qed.

(** What [bread] gives: the chosen buffer, locked, with the contents of the
    block; every other buffer, the list and the disk as before. *)
Record bread_post (n b : Z) (g : Z → buf) : Prop := {
  br_chosen : chosen n b;
  br_inv : bcache_inv g ord;
  br_holds : holds g b n;
  br_valid : valid (g b) = true;
  br_lock : locked (g b) = true ∧ lpid (g b) = cur_pid s;
  br_ref : refcnt (g b) = (if decide (holds (bufs s) b n) then u32 (refcnt (bufs s b) + 1) else 1);
  br_data : data (g b) = view s n;
  br_other a : a ≠ b → g a = bufs s a
}.

Lemma view_hit i n : holds (bufs s) i n → valid (bufs s i) = true → view s n = data (bufs s i).
Proof.
  intros Hi Hv. unfold view. destruct (first_such _ _) as [j|] eqn:E.
  - apply first_such_Some in E as [Hj Hp]. rewrite elem_buf_indices in Hj.
    f_equal. f_equal. apply (bc_uniq _ _ Hinv j i n); [|done]. unfold holds. lia.
  - rewrite first_such_None in E. destruct Hi as (Hi & Hd & Hb). specialize (E i).
    rewrite elem_buf_indices, Hd, Hb, Hv, !Z.eqb_refl in E. by specialize (E Hi).
Qed.

Lemma view_miss n : (∀ i, holds (bufs s) i n → valid (bufs s i) = false) → view s n = disk s n.
Proof.
  intros Hno. unfold view. destruct (first_such _ _) as [j|] eqn:E; [|done].
  apply first_such_Some in E as [Hj Hp]. rewrite elem_buf_indices in Hj.
  assert (holds (bufs s) j n) as Hh by (unfold holds; lia). rewrite (Hno _ Hh) in Hp. lia.
Qed.

(** Changing one buffer and none of its links. *)
Lemma bcache_inv_set g b n :
  idx b → next (g b) = next (bufs s b) → prev (g b) = prev (bufs s b) →
  (∀ a, a ≠ b → g a = bufs s a) →
  holds g b n → 0 ≤ refcnt (g b) < 2 ^ 32 →
  (holds (bufs s) b n ∨ ∀ i, ¬ holds (bufs s) i n) → bcache_inv g ord.
Proof.
  intros Hb Hn Hp Ho Hh Hr Hu. destruct Hinv as [Hd Hperm Huniq Href Hdev].
  assert (∀ i m, i ≠ b → holds g i m ↔ holds (bufs s) i m) as Hho.
  { intros i m Hi. unfold holds. by rewrite Ho. }
  assert (∀ i, i ≠ b → ¬ holds (bufs s) i n) as Hnb.
  { intros i Hi Hin. destruct Hu as [Hu|Hu]; [|by destruct (Hu i)]. by destruct Hi; eapply Huniq. }
  assert (∀ m, holds g b m → m = n) as Hm by (unfold holds in *; naive_solver congruence).
  split; [|done|..].
  - revert Hd. apply dll_payload_ext. intros a. destruct (decide (a = b)) as [->|]; [done|by rewrite Ho].
  - intros i j m Hi Hj. destruct (decide (i = b)) as [->|Hib], (decide (j = b)) as [->|Hjb]; try done.
    + apply Hm in Hi as ->. apply Hho in Hj; [|done]. by destruct (Hnb j).
    + apply Hm in Hj as ->. apply Hho in Hi; [|done]. by destruct (Hnb i).
    + apply Hho in Hi, Hj; [|done..]. by eapply Huniq.
  - intros i Hi. destruct (decide (i = b)) as [->|]; [done|rewrite Ho by done; auto].
  - intros i Hi Hne. destruct (decide (i = b)) as [->|]; [by destruct Hh as (_ & ? & _)|].
    rewrite Ho in * by done. auto.
Qed.

Lemma wp_bread n (Q : Z → bio → Prop) :
  (∀ i, holds (bufs s) i n → locked (bufs s i) = false) →
  (∀ i, idx i → refcnt (bufs s i) = 0 → locked (bufs s i) = false) →
  (∃ i, holds (bufs s) i n) ∨ (∃ i, idx i ∧ refcnt (bufs s i) = 0) →
  (∀ b g, bread_post n b g → Q b (set_bufs g s)) →
  wp (bread ROOTDEV n) Q s.
Proof.
  intros Hlk Hlk0 Hex HQ. unfold bread. wp_step. apply wp_bget; [done|done|done|].
  intros b g Hc Ho Hhit Hmiss. unfold getb. wp_run. simpl.
  pose proof (chosen_idx _ _ Hc) as Hb.
  destruct (decide (holds (bufs s) b n)) as [Hh|Hh].
  - specialize (Hhit Hh). clear Hmiss. destruct (valid (g b)) eqn:Hv.
    + apply wp_ret, wp_ret, HQ. split; rewrite ?Hhit; try done.
      * eapply (bcache_inv_set g b n); rewrite ?Hhit; try done; [|apply u32_range|by left].
        destruct Hh as (? & ? & ?). unfold holds. by rewrite Hhit.
      * destruct Hh as (? & ? & ?). unfold holds. by rewrite Hhit.
      * by rewrite <-Hv, Hhit.
      * by rewrite decide_True.
      * rewrite (view_hit b n Hh); [done|]. by rewrite <-Hv, Hhit.
    + unfold virtio_disk_rw, getb, updb. wp_run. simpl. rewrite !fset_eq. rewrite Hhit in Hv |- *.
      apply (HQ b). destruct Hh as (_ & Hd & Hbn).
      assert (holds (bufs s) b n) as Hh by done.
      split; rewrite ?fset_eq; simpl; try done.
      * eapply (bcache_inv_set _ b n); rewrite ?fset_eq; try done; [|..|apply u32_range|by left].
        -- intros a Ha. by rewrite !fset_ne, Ho.
        -- unfold holds. rewrite fset_eq. done.
      * unfold holds. rewrite fset_eq. done.
      * by rewrite decide_True.
      * rewrite Hbn. symmetry. apply view_miss. intros i Hi.
        by rewrite (bc_uniq _ _ Hinv i b n Hi Hh).
      * intros a Ha. by rewrite !fset_ne, Ho.
  - specialize (Hmiss Hh). clear Hhit. rewrite Hmiss. simpl.
    assert (∀ i, ¬ holds (bufs s) i n) as Hno by (destruct Hc as [?|[? _]]; done).
    unfold virtio_disk_rw, getb, updb. wp_run. simpl. rewrite !fset_eq, Hmiss. simpl.
    apply (HQ b). split; rewrite ?fset_eq; simpl; try done.
    + eapply (bcache_inv_set _ b n); rewrite ?fset_eq; try done; [|..|by right].
      * intros a Ha. by rewrite !fset_ne, Ho.
      * unfold holds. rewrite fset_eq. done.
    + unfold holds. rewrite fset_eq. done.
    + by rewrite decide_False.
    + symmetry. apply view_miss. intros i Hi. by destruct (Hno i).
    + intros a Ha. by rewrite !fset_ne, Ho.
Qed.

Definition mine (b : Z) : Prop := idx b ∧ locked (bufs s b) = true ∧ lpid (bufs s b) = cur_pid s.

Lemma wp_bwrite b (Q : unit → bio → Prop) :
  mine b →
  Q tt (Bio (bufs s) (fset (disk s) (blockno (bufs s b)) (data (bufs s b)))
            (trace s ++ [(blockno (bufs s b), data (bufs s b))]) (cur_pid s) (woken s)) →
  wp (bwrite b) Q s.
Proof.
  intros (Hb & Hl & Hp) HQ. unfold bwrite, holdingsleep, getb. wp_run. rewrite Hl, Hp, Z.eqb_refl.
  simpl. unfold virtio_disk_rw, getb. wp_run. done.
Qed.

(** The list after [brelse]: the buffer moves to the front when its last
    reference goes. *)
Definition touch (b : Z) : list Z :=
  if u32 (refcnt (bufs s b) - 1) =? 0 then b :: filter (λ i, i ≠ b) ord else ord.

Lemma ord_split b : idx b → ∃ l1 l2, ord = l1 ++ b :: l2 ∧ filter (λ i, i ≠ b) ord = l1 ++ l2.
Proof.
  intros Hb. assert (b ∈ ord) as Hin by (by apply ord_elem).
  apply list_elem_of_split in Hin as (l1 & l2 & E). exists l1, l2. split; [done|].
  pose proof ord_NoDup as [_ Hnd]%NoDup_cons. rewrite E in Hnd |- *. by apply filter_ne_split.
Qed.

Lemma touch_perm b : idx b → touch b ≡ₚ ord.
Proof.
  intros Hb. unfold touch. destruct (_ =? 0); [|done].
  destruct (ord_split b Hb) as (l1 & l2 & -> & ->). apply Permutation_middle.
Qed.

(** A cache whose buffers differ from those of another in links only. *)
Lemma bcache_inv_relink g g' ord' :
  bcache_inv g ord → (∀ a, payload (g' a) = payload (g a)) →
  dll g' HEAD ord' HEAD → ord' ≡ₚ ord → bcache_inv g' ord'.
Proof.
  intros [_ Hperm Huniq Href Hdev] Hpay Hd Hp.
  assert (∀ i m, holds g' i m ↔ holds g i m) as Hho.
  { intros i m. unfold holds. by destruct (payload_fields _ _ (Hpay i)) as (_ & -> & -> & _). }
  split; [done|by rewrite Hp| |..].
  - intros i j m. rewrite !Hho. apply Huniq.
  - intros i Hi. destruct (payload_fields _ _ (Hpay i)) as (_ & _ & _ & _ & _ & -> & _). auto.
  - intros i Hi. destruct (payload_fields _ _ (Hpay i)) as (-> & -> & _). auto.
Qed.

Record brelse_post (b : Z) (g : Z → buf) : Prop := {
  rl_inv : bcache_inv g (touch b);
  rl_self : payload (g b) =
    payload (set_refcnt (u32 (refcnt (bufs s b) - 1)) (set_lock false 0 (bufs s b)));
  rl_other a : a ≠ b → payload (g a) = payload (bufs s a)
}.

Lemma wp_brelse b (Q : unit → bio → Prop) :
  mine b → (dev (bufs s b) = ROOTDEV) →
  (∀ g, brelse_post b g → Q tt (set_bufs g (woke ("buffer"%string, b) s))) →
  wp (brelse b) Q s.
Proof.
  intros (Hb & Hl & Hp) Hdev HQ. unfold brelse, holdingsleep, getb. wp_run.
  rewrite Hl, Hp, Z.eqb_refl. simpl.
  unfold releasesleep, wake, updb, getb. wp_run. simpl. rewrite !fset_eq. simpl.
  set (x := set_refcnt (u32 (refcnt (bufs s b) - 1)) (set_lock false 0 (bufs s b))).
  set (g1 := fset _ b x).
  assert (bcache_inv g1 ord) as Hinv1.
  { eapply (bcache_inv_set _ b (blockno (bufs s b))); unfold g1; rewrite ?fset_eq; try done.
    - intros a Ha. by rewrite !fset_ne.
    - unfold holds. by rewrite fset_eq.
    - apply u32_range.
    - by left. }
  assert (g1 b = x) as Hgb by (unfold g1; apply fset_eq).
  assert (∀ a, a ≠ b → g1 a = bufs s a) as Hgo by (intros a Ha; unfold g1; by rewrite !fset_ne).
  destruct (u32 (refcnt (bufs s b) - 1) =? 0) eqn:Er.
  - destruct (ord_split b Hb) as (l1 & l2 & El & Ef).
    pose proof ord_NoDup as Hnd. rewrite El in Hnd.
    pose proof (bc_dll _ _ Hinv1) as Hd. rewrite El in Hd.
    destruct (dll_unlink g1 l1 b l2 Hd Hnd) as [Hd2 Hpay2].
    assert (next (bufs s b) = next (g1 b) ∧ prev (bufs s b) = prev (g1 b)) as [-> ->] by (by rewrite Hgb).
    clearbody g1. wp_run. simpl.
    change (wp (lru_push b) Q (set_bufs (unlink g1 b) (set_bufs g1 (woke ("buffer"%string, b) s)))).
    apply NoDup_cons in Hnd as [HH Hnd]. pose proof Hnd as Hnd'.
    apply NoDup_app in Hnd as (Hn1 & Hdis & [Hb2 Hn2]%NoDup_cons).
    eapply wp_lru_push; [done|..].
    + rewrite elem_of_cons, elem_of_app. intros [->|[Hb1|?]]; [|by apply (Hdis b Hb1); left|done].
      unfold HEAD in Hb. lia.
    + rewrite elem_of_app, elem_of_cons in HH. apply NoDup_cons. split; [rewrite elem_of_app; tauto|].
      apply NoDup_app. split_and!; [done| |done]. intros a Ha Ha2. apply (Hdis a Ha). by right.
    + intros g' Hd' Hpay'. apply HQ. simpl in Hpay'.
      assert (∀ a, payload (g' a) = payload (g1 a)) as Hpay by (intros a; by rewrite Hpay', Hpay2).
      split.
      * eapply (bcache_inv_relink g1); [done|done| |by apply touch_perm].
        unfold touch. rewrite Er, Ef. done.
      * by rewrite Hpay, Hgb.
      * intros a Ha. by rewrite Hpay, Hgo.
  - wp_run. apply (HQ g1). split.
    + unfold touch. by rewrite Er.
    + by rewrite Hgb.
    + intros a Ha. by rewrite Hgo.
Qed.

End ops.

(** ** Initialisation *)

(** The cache as the loader leaves it: zeroed. *)
Definition zeroed (g : Z → buf) : Prop :=
  ∀ i, idx i → dev (g i) = 0 ∧ valid (g i) = false ∧ refcnt (g i) = 0.

(** The cache after [binit]: no block cached, no buffer referenced. *)
Record fresh_cache (g : Z → buf) : Prop := {
  fc_inv : bcache_inv g (reverse buf_indices);
  fc_bufs i : idx i →
    dev (g i) = 0 ∧ valid (g i) = false ∧ refcnt (g i) = 0 ∧ locked (g i) = false
}.

Lemma wp_binit s (Q : unit → bio → Prop) :
  zeroed (bufs s) → (∀ g, fresh_cache g → Q tt (set_bufs g s)) → wp binit Q s.
Proof.
  intros Hz HQ. unfold binit, updb. wp_run. simpl.
  eapply (wp_for_each _ _ (λ rest s', ∃ g dn, s' = set_bufs g s ∧ buf_indices = dn ++ rest ∧
    dll g HEAD (reverse dn) HEAD ∧
    (∀ i, idx i → dev (g i) = 0 ∧ valid (g i) = false ∧ refcnt (g i) = 0) ∧
    (∀ i, i ∈ dn → locked (g i) = false))).
  - eexists _, []. split_and!; [done|done| | |by intros ? ?%elem_of_nil].
    + simpl. by autorewrite with links.
    + intros i Hi. rewrite !fset_ne by (unfold HEAD in *; lia). by apply Hz.
  - intros b rest s' (g & dn & -> & Edn & Hd & Hf & Hl).
    unfold initsleeplock, updb. wp_run. simpl.
    pose proof NoDup_buf_indices as Hnd. rewrite Edn in Hnd.
    apply NoDup_app in Hnd as (Hnd1 & Hdis & [Hbr Hnd2]%NoDup_cons).
    assert (∀ i, i ∈ buf_indices → i ≠ HEAD) as HH.
    { intros i Hi%elem_buf_indices. unfold HEAD. lia. }
    eapply wp_lru_push.
    + simpl. eapply dll_payload_ext, Hd. intros a. unfold fset.
      by destruct (Z.eqb_spec a b) as [->|].
    + rewrite elem_of_cons, elem_of_reverse. intros [->|Hb].
      * destruct (HH HEAD); [rewrite Edn; set_solver|done].
      * apply (Hdis b Hb). by left.
    + apply NoDup_cons. rewrite elem_of_reverse, reverse_Permutation. split; [|done].
      intros Hb. destruct (HH HEAD); [rewrite Edn; set_solver|done].
    + intros g' Hd' Hpay. simpl in Hpay. exists g', (dn ++ [b]). split_and!.
      * done.
      * by rewrite <-app_assoc.
      * by rewrite reverse_snoc.
      * intros i Hi. destruct (payload_fields _ _ (Hpay i)) as (-> & -> & _ & _ & _ & -> & _).
        unfold fset. destruct (Z.eqb_spec i b) as [->|]; simpl; by apply Hf.
      * intros i Hi. destruct (payload_fields _ _ (Hpay i)) as (_ & _ & _ & -> & _).
        unfold fset. destruct (Z.eqb_spec i b) as [->|]; simpl; [done|]. apply Hl. set_solver.
  - intros s' (g & dn & -> & Edn & Hd & Hf & Hl). rewrite app_nil_r in Edn. subst dn.
    apply HQ. split.
    + split; [done|apply reverse_Permutation|..].
      * intros i j n (Hi & Hdev & _). destruct (Hf i Hi) as [Hd0 _]. rewrite Hd0 in Hdev. done.
      * intros i Hi. destruct (Hf i Hi) as (_ & _ & ->). lia.
      * intros i Hi _. by destruct (Hf i Hi) as (-> & -> & _).
    + intros i Hi. destruct (Hf i Hi) as (? & ? & ?). split_and!; try done.
      by apply Hl, elem_buf_indices.
Qed.

(** * Claims *)

(** [bread] returns a locked buffer with the contents of the block. It is
    the buffer that caches the block, or else the least recently used buffer
    without references, whose contents are then read from disk; no other buffer
    changes and neither do the LRU list and the disk. When the block is not
    cached and every buffer is referenced, it panics. *)
Theorem bread_finds_or_recycles s ord n :
  bcache_inv (bufs s) ord →
  (∀ i, holds (bufs s) i n → locked (bufs s i) = false) →
  (∀ i, idx i → refcnt (bufs s i) = 0 → locked (bufs s i) = false) →
  ((∃ i, holds (bufs s) i n) ∨ (∃ i, idx i ∧ refcnt (bufs s i) = 0) →
     ∃ b g, bread ROOTDEV n s = Ret b (set_bufs g s) ∧ bread_post (s := s) (ord := ord) n b g) ∧
  ((∀ i, ¬ holds (bufs s) i n) → (∀ i, idx i → refcnt (bufs s i) ≠ 0) →
     bread ROOTDEV n s = Panic "bget: no buffers").
Proof.
  intros Hinv Hlk Hlk0. split.
  - intros Hex. assert (wp (bread ROOTDEV n)
      (λ b s', ∃ g, s' = set_bufs g s ∧ bread_post (s := s) (ord := ord) n b g) s) as Hwp.
    { eapply wp_bread; [done|done|done|done|]. intros b g Hp. by exists g. }
    apply wp_inv in Hwp as (b & s' & E & g & -> & Hp).
    exists b, g. split; [exact E|exact Hp].
  - intros Hno Hr. unfold bread, bget, getb.
    assert (length ord < bget_fuel)%nat as Hfuel by (rewrite (ord_length Hinv); vm_compute; lia).
    assert (first_such (λ b, (dev (bufs s b) =? ROOTDEV) && (blockno (bufs s b) =? n)) ord = None) as E1.
    { apply first_such_None. intros i Hi%(ord_elem Hinv). specialize (Hno i). unfold holds in Hno. lia. }
    assert (first_such (λ b, refcnt (bufs s b) =? 0) (reverse ord) = None) as E2.
    { apply first_such_None. intros i Hi. rewrite elem_of_reverse, (ord_elem Hinv) in Hi.
      specialize (Hr i Hi). lia. }
    pose proof (bget_cached_run bget_fuel s ROOTDEV n HEAD ord (bc_dll _ _ Hinv) (ord_HEAD Hinv) Hfuel) as R1.
    pose proof (bget_unused_run bget_fuel s HEAD ord (bc_dll _ _ Hinv) (ord_HEAD Hinv) Hfuel) as R2.
    rewrite E1 in R1. rewrite E2 in R2.
    unfold mbind, M_bind, gets in *. rewrite R1. by rewrite R2.
Qed.

(** [brelse] of a buffer the caller has locked unlocks it and drops one
    reference; when that was the last one the buffer moves to the front of the
    LRU list, and it keeps its place otherwise. The processes that sleep on its
    lock are woken. The list stays well formed and
    no other buffer changes. A buffer the caller has not locked makes it panic. *)
Theorem brelse_releases s ord b :
  bcache_inv (bufs s) ord → idx b → dev (bufs s b) = ROOTDEV →
  (locked (bufs s b) = true ∧ lpid (bufs s b) = cur_pid s →
     ∃ g, brelse b s = Ret tt (set_bufs g (woke ("buffer"%string, b) s)) ∧ brelse_post (s := s) (ord := ord) b g) ∧
  (¬ (locked (bufs s b) = true ∧ lpid (bufs s b) = cur_pid s) → brelse b s = Panic "brelse").
Proof.
  intros Hinv Hb Hd. split.
  - intros [Hl Hp]. assert (wp (brelse b)
      (λ _ s', ∃ g, s' = set_bufs g (woke ("buffer"%string, b) s) ∧ brelse_post (s := s) (ord := ord) b g) s) as Hwp.
    { eapply wp_brelse; [done|by split|done|]. intros g Hg. by exists g. }
    apply wp_inv in Hwp as ([] & s' & E & g & -> & Hg).
    exists g. split; [exact E|exact Hg].
  - intros Hn. unfold brelse, holdingsleep, getb, mbind, M_bind, gets, mret, M_ret.
    destruct (locked (bufs s b)) eqn:E1; simpl; [|done].
    destruct (Z.eqb_spec (lpid (bufs s b)) (cur_pid s)); [tauto|done].
Qed.

(** [binit] turns a zeroed cache into a well-formed one with every buffer
    on the LRU list, none of them locked, referenced or valid. *)
Theorem binit_builds_cache s :
  zeroed (bufs s) → ∃ g, binit s = Ret tt (set_bufs g s) ∧ fresh_cache g.
Proof.
  intros Hz. assert (wp binit (λ _ s', ∃ g, s' = set_bufs g s ∧ fresh_cache g) s) as Hwp.
  { apply wp_binit; [done|]. intros g Hg. by exists g. }
  apply wp_inv in Hwp as ([] & s' & E & g & -> & Hg).
    exists g. split; [exact E|exact Hg].
Qed.

(** ** Witnesses *)

Definition ex_bio : bio :=
  Bio (λ _, Buf false 0 0 false 0 0 0 0 (λ _, 0)) (λ _ _, 0) [] 1 [].

Lemma ex_zeroed : zeroed (bufs ex_bio).
Proof. done. Qed.

Lemma ex_fresh : ∃ g, fresh_cache g.
Proof.
  assert (wp binit (λ _ s', fresh_cache (bufs s')) ex_bio) as Hwp by (by apply wp_binit).
  apply wp_inv in Hwp as (_ & s' & _ & Hf). by exists (bufs s').
Qed.

Lemma fresh_unlocked g n :
  fresh_cache g →
  (∀ i, holds g i n → locked (g i) = false) ∧
  (∀ i, idx i → refcnt (g i) = 0 → locked (g i) = false) ∧ (∃ i, idx i ∧ refcnt (g i) = 0).
Proof.
  intros Hf. split_and!.
  - intros i [Hi _]. by destruct (fc_bufs _ Hf i Hi) as (_ & _ & _ & ?).
  - intros i Hi _. by destruct (fc_bufs _ Hf i Hi) as (_ & _ & _ & ?).
  - exists 0. assert (idx 0) as Hi by (unfold NBUF; lia). split; [done|].
    by destruct (fc_bufs _ Hf 0 Hi) as (_ & _ & ? & _).
Qed.

Lemma bread_finds_or_recycles_witness :
  ∃ g b g', bread ROOTDEV 5 (set_bufs g ex_bio) = Ret b (set_bufs g' ex_bio) ∧ holds g' b 5.
Proof.
  destruct ex_fresh as [g Hf]. destruct (fresh_unlocked g 5 Hf) as (H1 & H2 & H3).
  destruct (bread_finds_or_recycles (set_bufs g ex_bio) (reverse buf_indices) 5) as [Hok _];
    [apply Hf|exact H1|exact H2|].
  destruct Hok as (b & g' & E & Hp); [right; exact H3|].
  exists g, b, g'. split; [exact E|apply Hp].
Defined.

Lemma brelse_releases_witness :
  ∃ s b g, brelse b s = Ret tt (set_bufs g (woke ("buffer"%string, b) s)) ∧ refcnt (bufs s b) = 1 ∧ refcnt (g b) = 0.
Proof.
  destruct ex_fresh as [g Hf]. destruct (fresh_unlocked g 5 Hf) as (H1 & H2 & H3).
  assert (wp (bread ROOTDEV 5) (λ b s', ∃ g', s' = set_bufs g' ex_bio ∧
    bread_post (s := set_bufs g ex_bio) (ord := reverse buf_indices) 5 b g') (set_bufs g ex_bio)) as Hwp.
  { eapply wp_bread; [apply Hf|exact H1|exact H2|right; exact H3|]. intros b g' Hp. by exists g'. }
  apply wp_inv in Hwp as (b & s' & _ & g' & -> & [Hc Hinv Hh _ Hl Hr _ _]).
  assert (refcnt (g' b) = 1) as Hr1.
  { rewrite Hr. case_decide as Hd; [|done]. destruct Hd as [Hi _]. simpl.
    by destruct (fc_bufs _ Hf b Hi) as (_ & _ & -> & _). }
  destruct (brelse_releases (set_bufs g' ex_bio) (reverse buf_indices) b) as [Hok _];
    [exact Hinv|apply Hh|apply Hh|].
  destruct Hok as (g2 & E & Hp); [exact Hl|].
  exists (set_bufs g' ex_bio), b, g2. split; [exact E|]. split; [exact Hr1|].
  destruct (payload_fields _ _ (rl_self _ _ Hp)) as (_ & _ & _ & _ & _ & -> & _). simpl. by rewrite Hr1.
Defined.

Lemma binit_builds_cache_witness : ∃ g, binit ex_bio = Ret tt (set_bufs g ex_bio) ∧ fresh_cache g.
Proof. exact (binit_builds_cache ex_bio ex_zeroed). Defined.
