(* ===== verification/Cache.v ===== *)
(** * The buffer cache as a store of blocks

    [cache_inv s V P H D] abstracts the cache and the disk as its users see
    them: every block has contents [V]; [P] gives the extra references of the
    blocks that are pinned (1 for a block of the current transaction; -1 for a
    block whose count has been dropped once too often); [H] maps the blocks
    held by the running thread to their buffers; [D] are the held blocks whose
    modification is neither logged nor written.  The rules of this file are what the log and
    the file system use: [bread] holds a block and shows its contents, storing
    into a held buffer changes the contents, and so on. *)

From S2P Require Import Prelude Machine Bio.

Record cache_inv (s : bio) (V : Z → block) (P : gmap Z Z) (H : gmap Z Z) (D : gset Z) : Prop := {
  ci_bc : ∃ ord, bcache_inv (bufs s) ord;
  ci_data i n : holds (bufs s) i n → valid (bufs s i) = true → data (bufs s i) = V n;
  ci_disk n : n ∉ D → P !! n ≠ Some 1 → disk s n = V n;
  ci_pins n p : P !! n = Some p → p = 1 ∨ p = -1;
  ci_pinned n : n ∈ dom P → ∃ i, holds (bufs s) i n ∧ valid (bufs s i) = true;
  ci_ref i n : holds (bufs s) i n →
    refcnt (bufs s i) = u32 (default 0 (P !! n) + if decide (n ∈ dom H) then 1 else 0);
  ci_none i : idx i → dev (bufs s i) ≠ ROOTDEV → refcnt (bufs s i) = 0 ∧ locked (bufs s i) = false;
  ci_held n b : H !! n = Some b → holds (bufs s) b n ∧ valid (bufs s b) = true ∧
    locked (bufs s b) = true ∧ lpid (bufs s b) = cur_pid s;
  ci_lock i n : holds (bufs s) i n → locked (bufs s i) = true → n ∈ dom H;
  ci_dirty n : n ∈ D → n ∈ dom H
}.

(** * Lemmas *)

Lemma cache_inv_woke c s V P H D : cache_inv s V P H D → cache_inv (woke c s) V P H D.
Proof. intros []. by split. Qed.

Section rules.
Context {s : bio} {V : Z → block} {P H : gmap Z Z} {D : gset Z}.
Context (Hinv : cache_inv s V P H D).

Lemma holds_uniq i j n : holds (bufs s) i n → holds (bufs s) j n → i = j.
Proof. destruct (ci_bc _ _ _ _ _ Hinv) as [ord Hbc]. apply (bc_uniq _ _ Hbc). Qed.

Lemma view_cache n : view s n = V n.
Proof.
  unfold view. destruct (first_such _ _) as [j|] eqn:E.
  - apply first_such_Some in E as [Hj%elem_buf_indices Hp].
    apply (ci_data _ _ _ _ _ Hinv); [unfold holds|]; lia.
  - rewrite first_such_None in E.
    assert (∀ i, holds (bufs s) i n → valid (bufs s i) = false) as Hno.
    { intros i (Hi & Hd & Hb). specialize (E i). rewrite elem_buf_indices in E.
      specialize (E Hi). unfold ROOTDEV in *. lia. }
    apply (ci_disk _ _ _ _ _ Hinv).
    + intros Hn. apply (ci_dirty _ _ _ _ _ Hinv), elem_of_dom in Hn as [b Hb].
      destruct (ci_held _ _ _ _ _ Hinv _ _ Hb) as (Hh & Hv & _). by rewrite (Hno b Hh) in Hv.
    + intros Hp. destruct (ci_pinned _ _ _ _ _ Hinv n) as (i & Hi & Hv); [by apply elem_of_dom; eexists|].
      by rewrite (Hno i Hi) in Hv.
Qed.

(** A buffer with references caches a pinned or held block, so that one
    without references is left. *)
Lemma unused_exists : (size (dom P ∪ dom H) < 30)%nat → ∃ i, idx i ∧ refcnt (bufs s i) = 0.
Proof.
  intros Hsz. destruct (ci_bc _ _ _ _ _ Hinv) as [ord Hbc].
  destruct (first_such (λ i, refcnt (bufs s i) =? 0) buf_indices) as [i|] eqn:E.
  { apply first_such_Some in E as [Hi%elem_buf_indices ?]. exists i. split; [done|lia]. }
  rewrite first_such_None in E.
  assert (∀ i, idx i → holds (bufs s) i (blockno (bufs s i)) ∧ blockno (bufs s i) ∈ dom P ∪ dom H) as Hall.
  { intros i Hi. specialize (E i). rewrite elem_buf_indices in E. specialize (E Hi).
    destruct (decide (dev (bufs s i) = ROOTDEV)) as [Hd|Hd].
    2: { apply (ci_none _ _ _ _ _ Hinv) in Hd; [lia|done]. }
    assert (holds (bufs s) i (blockno (bufs s i))) as Hh by done. split; [done|].
    rewrite (ci_ref _ _ _ _ _ Hinv _ _ Hh) in E. rewrite elem_of_union.
    case_decide as HH; [by right|]. left. apply elem_of_dom.
    destruct (P !! blockno (bufs s i)); [by eexists|]. by simpl in E. }
  assert (NoDup ((λ i, blockno (bufs s i)) <$> buf_indices)) as Hnd.
  { apply NoDup_fmap_2_strong; [|apply NoDup_buf_indices].
    intros i j Hi%elem_buf_indices Hj%elem_buf_indices Eij.
    apply (holds_uniq i j (blockno (bufs s j))); [rewrite <-Eij|]; by apply Hall. }
  assert (list_to_set ((λ i, blockno (bufs s i)) <$> buf_indices) ⊆ dom P ∪ dom H) as Hsub.
  { intros x. rewrite elem_of_list_to_set, list_elem_of_fmap. intros (i & -> & Hi%elem_buf_indices).
    by apply Hall. }
  apply subseteq_size in Hsub. rewrite size_list_to_set in Hsub by done.
  rewrite length_fmap, length_buf_indices in Hsub. lia.
Qed.

Lemma held_dom n b : H !! n = Some b → n ∈ dom H.
Proof. intros E. apply elem_of_dom. by eexists. Qed.

(** A buffer without references caches a block that is neither held nor
    pinned, provided no held block has lost a reference. *)
Lemma unused_free i n :
  (∀ m, m ∈ dom H → P !! m ≠ Some (-1)) →
  holds (bufs s) i n → refcnt (bufs s i) = 0 → (n ∉ dom H) ∧ P !! n = None.
Proof.
  intros HP Hh Hr. rewrite (ci_ref _ _ _ _ _ Hinv i n Hh) in Hr.
  case_decide as HH.
  - exfalso. specialize (HP n HH). destruct (P !! n) as [p|] eqn:E; simpl in Hr; [|done].
    destruct (ci_pins _ _ _ _ _ Hinv n p E) as [->| ->]; done.
  - split; [done|]. destruct (P !! n) as [p|] eqn:E; simpl in Hr; [|done].
    by destruct (ci_pins _ _ _ _ _ Hinv n p E) as [->| ->].
Qed.

(** ** bread *)

Lemma wp_cache_bread n (Q : Z → bio → Prop) :
  n ∉ dom H → (∀ m, m ∈ dom H → P !! m ≠ Some (-1)) →
  n ∈ dom P ∨ (size (dom P ∪ dom H) < 30)%nat →
  (∀ b g, let s' := set_bufs g s in
     cache_inv s' V P (<[n := b]> H) D → data (g b) = V n → Q b s') →
  wp (bread ROOTDEV n) Q s.
Proof.
  intros Hn HP Hsz HQ. destruct (ci_bc _ _ _ _ _ Hinv) as [ord Hbc].
  eapply (wp_bread Hbc).
  - intros i Hi. destruct (locked (bufs s i)) eqn:E; [|done]. by destruct (Hn (ci_lock _ _ _ _ _ Hinv i n Hi E)).
  - intros i Hi Hr. destruct (locked (bufs s i)) eqn:E; [|done].
    destruct (decide (dev (bufs s i) = ROOTDEV)) as [Hd|Hd].
    + assert (holds (bufs s) i (blockno (bufs s i))) as Hh by done.
      destruct (unused_free i _ HP Hh Hr) as [Hno _]. by destruct (Hno (ci_lock _ _ _ _ _ Hinv _ _ Hh E)).
    + by destruct (ci_none _ _ _ _ _ Hinv i Hi Hd) as [_ <-].
  - destruct Hsz as [HnP|Hsz]; [left|right; by apply unused_exists].
    destruct (ci_pinned _ _ _ _ _ Hinv n HnP) as (i & Hi & _). by exists i.
  - intros b g Hp. pose proof Hp as [Hc Hbc' Hh Hv [Hl Hpid] Hr Hd Ho]. rewrite view_cache in Hd.
    apply HQ; [|done].
    assert (∀ i m, i ≠ b → holds g i m ↔ holds (bufs s) i m) as Hho.
    { intros i m Hi. unfold holds. by rewrite Ho. }
    assert (∀ m, holds g b m → m = n) as Hm by (unfold holds in *; naive_solver congruence).
    (* the block that a recycled buffer cached before *)
    assert (∀ m, holds (bufs s) b m → m ≠ n → (m ∉ dom H) ∧ P !! m = None) as Hold.
    { intros m Hm' Hne. destruct Hc as [Hc|[_ E]].
      - unfold holds in *. naive_solver congruence.
      - apply first_such_Some in E as [_ E]. apply (unused_free b m HP Hm'). lia. }
    assert (∀ m i, (m ∈ dom H ∨ m ∈ dom P ∧ m ≠ n) → holds (bufs s) i m → i ≠ b) as Hkeep.
    { intros m i Hmi Hi ->. assert (m ≠ n) as Hne by (destruct Hmi as [?|[_ ?]]; [by intros ->|done]).
      destruct (Hold m Hi Hne) as [? Hnone]. destruct Hmi as [?|[Hd' _]]; [done|].
      by apply elem_of_dom in Hd' as [? Hd']; rewrite Hnone in Hd'. }
    split; simpl.
    + by exists ord.
    + intros i m Hi Hvi. destruct (decide (i = b)) as [->|Hib].
      * by rewrite (Hm m Hi).
      * rewrite Ho in Hvi |- * by done. apply (ci_data _ _ _ _ _ Hinv); [by apply Hho|done].
    + apply (ci_disk _ _ _ _ _ Hinv).
    + apply (ci_pins _ _ _ _ _ Hinv).
    + intros m HmP. destruct (decide (m = n)) as [->|Hne]; [by exists b|].
      destruct (ci_pinned _ _ _ _ _ Hinv m HmP) as (i & Hi & Hvi).
      assert (i ≠ b) as Hib by (eapply Hkeep; [right|]; done).
      exists i. rewrite Ho by done. by rewrite Hho.
    + intros i m Hi. rewrite dom_insert_L. destruct (decide (i = b)) as [->|Hib].
      * rewrite (Hm m Hi). rewrite decide_True by set_solver. rewrite Hr.
        case_decide as Hhb.
        -- rewrite (ci_ref _ _ _ _ _ Hinv b n Hhb), decide_False by done. unfold u32. dlia.
        -- destruct (P !! n) as [p|] eqn:EP; [|done].
           destruct (ci_pinned _ _ _ _ _ Hinv n) as (i & Hin & _); [by apply elem_of_dom; eexists|].
           destruct Hc as [?|[Hno _]]; [done|by destruct (Hno i)].
      * rewrite Ho by done. apply Hho in Hi; [|done]. rewrite (ci_ref _ _ _ _ _ Hinv i m Hi).
        destruct (decide (m = n)) as [->|Hne].
        { destruct Hc as [Hc|[Hno _]]; [by destruct Hib; eapply holds_uniq|by destruct (Hno i)]. }
        do 2 f_equal. by apply decide_ext; set_solver.
    + intros i Hi Hdi. destruct (decide (i = b)) as [->|]; [by destruct Hh as (_ & ? & _)|].
      rewrite Ho in * by done. by apply (ci_none _ _ _ _ _ Hinv).
    + intros m i. rewrite lookup_insert_Some. intros [[<- <-]|[Hne E]]; [done|].
      destruct (ci_held _ _ _ _ _ Hinv m i E) as (Hi & ? & ? & ?).
      assert (i ≠ b) as Hib by (eapply (Hkeep m); [left; by eapply held_dom|done]).
      rewrite Ho by done. by rewrite Hho.
    + intros i m Hi Hli. rewrite dom_insert_L. destruct (decide (i = b)) as [->|Hib].
      * rewrite (Hm m Hi). set_solver.
      * rewrite Ho in Hli by done. apply Hho in Hi; [|done].
        pose proof (ci_lock _ _ _ _ _ Hinv i m Hi Hli). set_solver.
    + intros m Hmd. rewrite dom_insert_L. pose proof (ci_dirty _ _ _ _ _ Hinv m Hmd). set_solver.
Qed.

(** ** Changing a held buffer

    One lemma covers the operations on a held buffer [b] of block [n]: they
    change that buffer only, and [V], [P] and [H] at [n] only. *)
Lemma cache_inv_held n b g ord dk tr wk V' P' H' D' :
  H !! n = Some b → bcache_inv g ord →
  (∀ a, a ≠ b → payload (g a) = payload (bufs s a)) →
  dev (g b) = ROOTDEV → blockno (g b) = n → valid (g b) = true → data (g b) = V' n →
  (∀ m, m ≠ n → V' m = V m ∧ P' !! m = P !! m ∧ H' !! m = H !! m) →
  (∀ p, P' !! n = Some p → p = 1 ∨ p = -1) →
  H' !! n = Some b ∧ locked (g b) = true ∧ lpid (g b) = cur_pid s ∨
    H' !! n = None ∧ locked (g b) = false →
  refcnt (g b) = u32 (default 0 (P' !! n) + if decide (n ∈ dom H') then 1 else 0) →
  (∀ m, m ∉ D' → P' !! m ≠ Some 1 → dk m = V' m) → (∀ m, m ∈ D' → m ∈ dom H') →
  cache_inv (Bio g dk tr (cur_pid s) wk) V' P' H' D'.
Proof.
  intros HHn Hbc Ho Hd Hb Hv Hdat Hm HP Hlk Hr Hdk HD.
  destruct (ci_held _ _ _ _ _ Hinv n b HHn) as (Hh & _).
  assert (holds g b n) as Hgb by (split; [apply Hh|done]).
  assert (∀ i m, i ≠ b → holds g i m → holds (bufs s) i m ∧ m ≠ n) as Hho.
  { intros i m Hi Hg. destruct (payload_fields _ _ (Ho i Hi)) as (_ & E1 & E2 & _).
    split; [unfold holds in *; by rewrite <-E1, <-E2|]. intros ->. destruct Hi.
    eapply (bc_uniq _ _ Hbc); done. }
  assert (∀ i m, holds (bufs s) i m → m ≠ n → i ≠ b ∧ holds g i m) as Hho'.
  { intros i m Hi Hne. assert (i ≠ b) as Hib by (intros ->; unfold holds in *; naive_solver congruence).
    split; [done|]. destruct (payload_fields _ _ (Ho i Hib)) as (_ & E1 & E2 & _).
    unfold holds in *. by rewrite E1, E2. }
  assert (∀ m, holds g b m → m = n) as Hbn by (unfold holds in *; naive_solver congruence).
  assert (∀ m, m ≠ n → m ∈ dom H' ↔ m ∈ dom H) as HdH.
  { intros m Hne. rewrite !elem_of_dom. by destruct (Hm m Hne) as (_ & _ & ->). }
  split; simpl; [by exists ord|..|done].
  - intros i m Hi Hvi. destruct (decide (i = b)) as [->|Hib]; [by rewrite (Hbn m Hi)|].
    destruct (Hho i m Hib Hi) as [Hi' Hne]. destruct (Hm m Hne) as (-> & _).
    destruct (payload_fields _ _ (Ho i Hib)) as (E1 & _ & _ & _ & _ & _ & ->).
    apply (ci_data _ _ _ _ _ Hinv); [done|]. by rewrite <-E1.
  - done.
  - intros m p. destruct (decide (m = n)) as [->|Hne]; [auto|].
    destruct (Hm m Hne) as (_ & -> & _). apply (ci_pins _ _ _ _ _ Hinv).
  - intros m. rewrite elem_of_dom. destruct (decide (m = n)) as [->|Hne]; [by exists b|].
    destruct (Hm m Hne) as (_ & -> & _). rewrite <-elem_of_dom. intros HmP.
    destruct (ci_pinned _ _ _ _ _ Hinv m HmP) as (i & Hi & Hvi). destruct (Hho' i m Hi Hne) as [Hib Hg].
    exists i. split; [done|]. by destruct (payload_fields _ _ (Ho i Hib)) as (-> & _).
  - intros i m Hi. destruct (decide (i = b)) as [->|Hib]; [by rewrite (Hbn m Hi)|].
    destruct (Hho i m Hib Hi) as [Hi' Hne]. destruct (Hm m Hne) as (_ & -> & _).
    destruct (payload_fields _ _ (Ho i Hib)) as (_ & _ & _ & _ & _ & -> & _).
    rewrite (ci_ref _ _ _ _ _ Hinv i m Hi'). do 2 f_equal. apply decide_ext. by rewrite HdH.
  - intros i Hi Hdi. destruct (decide (i = b)) as [->|Hib]; [done|].
    destruct (payload_fields _ _ (Ho i Hib)) as (_ & E1 & _ & -> & _ & -> & _).
    rewrite E1 in Hdi. by apply (ci_none _ _ _ _ _ Hinv).
  - intros m i Hmi. destruct (decide (m = n)) as [->|Hne].
    + destruct Hlk as [(E & ? & ?)|[E _]]; rewrite E in Hmi; [|done]. by injection Hmi as <-.
    + destruct (Hm m Hne) as (_ & _ & EH). rewrite EH in Hmi.
      destruct (ci_held _ _ _ _ _ Hinv m i Hmi) as (Hi & ? & ? & ?).
      destruct (Hho' i m Hi Hne) as [Hib Hg]. split; [done|].
      by destruct (payload_fields _ _ (Ho i Hib)) as (-> & _ & _ & -> & -> & _).
  - intros i m Hi Hli. destruct (decide (i = b)) as [->|Hib].
    + rewrite (Hbn m Hi). destruct Hlk as [(E & _)|[_ E]]; [apply elem_of_dom; by eexists|congruence].
    + destruct (Hho i m Hib Hi) as [Hi' Hne]. rewrite HdH by done.
      destruct (payload_fields _ _ (Ho i Hib)) as (_ & _ & _ & E & _). rewrite E in Hli.
      by apply (ci_lock _ _ _ _ _ Hinv i).
Qed.

Context {n b : Z} (Hheld : H !! n = Some b).

Lemma held_data : data (bufs s b) = V n.
Proof.
  destruct (ci_held _ _ _ _ _ Hinv _ _ Hheld) as (? & ? & _). by apply (ci_data _ _ _ _ _ Hinv).
Qed.

Lemma held_blockno : blockno (bufs s b) = n.
Proof. by destruct (ci_held _ _ _ _ _ Hinv _ _ Hheld) as ((_ & _ & ?) & _). Qed.

(** An update of the held buffer that keeps its identity, lock and links. *)
Lemma cache_inv_upd f P' V' D' :
  let x := bufs s b in
  let x' := f x in
  next x' = next x → prev x' = prev x → dev x' = dev x → blockno x' = blockno x →
  valid x' = true → locked x' = locked x → lpid x' = lpid x →
  data x' = V' n → 0 ≤ refcnt x' < 2 ^ 32 →
  (∀ m, m ≠ n → V' m = V m ∧ P' !! m = P !! m) →
  (∀ p, P' !! n = Some p → p = 1 ∨ p = -1) →
  refcnt x' = u32 (default 0 (P' !! n) + 1) →
  (∀ m, m ∉ D' → P' !! m ≠ Some 1 → disk s m = V' m) → D' ⊆ {[n]} ∪ D →
  cache_inv (set_bufs (fset (bufs s) b x') s) V' P' H D'.
Proof.
  intros x x' En Ep Ed Ebn Ev El Epid Edat Hr Hm HP Href Hdk HD.
  destruct (ci_bc _ _ _ _ _ Hinv) as [ord Hbc].
  destruct (ci_held _ _ _ _ _ Hinv _ _ Hheld) as ((Hi & Hd & Hbn) & Hv & Hl & Hp).
  pose proof (held_dom n b Hheld) as Hdom.
  apply (cache_inv_held n b _ ord); try rewrite fset_eq; try done.
  - eapply (bcache_inv_set Hbc _ b n); rewrite ?fset_eq; try done.
    + intros a Ha. by rewrite fset_ne.
    + unfold holds. rewrite fset_eq. by rewrite Ed, Ebn.
    + by left.
  - intros a Ha. by rewrite fset_ne.
  - by rewrite Ed.
  - by rewrite Ebn.
  - intros m Hne. destruct (Hm m Hne). done.
  - left. by rewrite El, Epid.
  - by rewrite decide_True.
  - intros m Hmd. apply HD in Hmd. rewrite elem_of_union, elem_of_singleton in Hmd.
    destruct Hmd as [->|?]; [done|]. by apply (ci_dirty _ _ _ _ _ Hinv).
Qed.

(** Storing into a held buffer. *)
Lemma wp_cache_store x (Q : unit → bio → Prop) :
  (∀ g, let s' := set_bufs g s in cache_inv s' (fset V n x) P H ({[n]} ∪ D) → Q tt s') →
  wp (updb b (set_data x)) Q s.
Proof.
  intros HQ. unfold updb. wp_run. apply HQ.
  destruct (ci_held _ _ _ _ _ Hinv _ _ Hheld) as (Hh & Hv & Hl & Hp).
  destruct (ci_bc _ _ _ _ _ Hinv) as [ord Hbc].
  eapply (cache_inv_upd (set_data x)); simpl; try done.
  - by rewrite fset_eq.
  - apply (bc_ref _ _ Hbc), Hh.
  - intros m Hne. by rewrite fset_ne.
  - apply (ci_pins _ _ _ _ _ Hinv).
  - rewrite (ci_ref _ _ _ _ _ Hinv b n Hh), decide_True; [done|]. by eapply held_dom.
  - intros m Hmd Hmp. rewrite fset_ne by set_solver. apply (ci_disk _ _ _ _ _ Hinv); [set_solver|done].
Qed.

(** Storing what the buffer holds already changes nothing. *)
Lemma wp_cache_store_same (Q : unit → bio → Prop) :
  (∀ g, let s' := set_bufs g s in cache_inv s' V P H D → Q tt s') → wp (updb b (set_data (V n))) Q s.
Proof.
  intros HQ. unfold updb. wp_run. apply HQ.
  destruct (ci_held _ _ _ _ _ Hinv _ _ Hheld) as (Hh & Hv & Hl & Hp).
  destruct (ci_bc _ _ _ _ _ Hinv) as [ord Hbc].
  eapply (cache_inv_upd (set_data (V n))); simpl; try done.
  - apply (bc_ref _ _ Hbc), Hh.
  - apply (ci_pins _ _ _ _ _ Hinv).
  - rewrite (ci_ref _ _ _ _ _ Hinv b n Hh), decide_True; [done|]. by eapply held_dom.
  - apply (ci_disk _ _ _ _ _ Hinv).
  - set_solver.
Qed.

(** [bpin] of a block of the transaction, and [bunpin] undoing it. *)
Lemma wp_cache_bpin (Q : unit → bio → Prop) :
  P !! n = None →
  (∀ g, let s' := set_bufs g s in cache_inv s' V (<[n := 1]> P) H (D ∖ {[n]}) → Q tt s') →
  wp (bpin b) Q s.
Proof.
  intros HPn HQ. unfold bpin, updb. wp_run. apply HQ.
  destruct (ci_held _ _ _ _ _ Hinv _ _ Hheld) as (Hh & Hv & _).
  eapply (cache_inv_upd (λ x, set_refcnt (u32 (refcnt x + 1)) x)); simpl; try done.
  - apply held_data.
  - apply u32_range.
  - intros m Hne. by rewrite lookup_insert_ne.
  - intros p. rewrite lookup_insert_eq. intros [= <-]. by left.
  - rewrite (ci_ref _ _ _ _ _ Hinv b n Hh), decide_True by (by eapply held_dom).
    by rewrite HPn, lookup_insert_eq.
  - intros m Hmd Hmp. destruct (decide (m = n)) as [->|Hne]; [by rewrite lookup_insert_eq in Hmp|].
    rewrite lookup_insert_ne in Hmp by done. apply (ci_disk _ _ _ _ _ Hinv); [set_solver|done].
  - set_solver.
Qed.

Lemma wp_cache_bunpin (Q : unit → bio → Prop) :
  P !! n = Some 1 → disk s n = V n → n ∉ D →
  (∀ g, let s' := set_bufs g s in cache_inv s' V (delete n P) H D → Q tt s') →
  wp (bunpin b) Q s.
Proof.
  intros HPn Hdk HnD HQ. unfold bunpin, updb. wp_run. apply HQ.
  destruct (ci_held _ _ _ _ _ Hinv _ _ Hheld) as (Hh & Hv & _).
  eapply (cache_inv_upd (λ x, set_refcnt (u32 (refcnt x - 1)) x)); simpl; try done.
  - apply held_data.
  - apply u32_range.
  - intros m Hne. by rewrite lookup_delete_ne.
  - intros p. by rewrite lookup_delete_eq.
  - rewrite (ci_ref _ _ _ _ _ Hinv b n Hh), decide_True by (by eapply held_dom).
    by rewrite HPn, lookup_delete_eq.
  - intros m Hmd Hmp. destruct (decide (m = n)) as [->|Hne]; [done|].
    rewrite lookup_delete_ne in Hmp by done. by apply (ci_disk _ _ _ _ _ Hinv).
  - set_solver.
Qed.

(** [bunpin] of a block that is not pinned. *)
Lemma wp_cache_bunpin_extra (Q : unit → bio → Prop) :
  P !! n = None →
  (∀ g, let s' := set_bufs g s in cache_inv s' V (<[n := -1]> P) H D → Q tt s') →
  wp (bunpin b) Q s.
Proof.
  intros HPn HQ. unfold bunpin, updb. wp_run. apply HQ.
  destruct (ci_held _ _ _ _ _ Hinv _ _ Hheld) as (Hh & Hv & _).
  eapply (cache_inv_upd (λ x, set_refcnt (u32 (refcnt x - 1)) x)); simpl; try done.
  - apply held_data.
  - apply u32_range.
  - intros m Hne. by rewrite lookup_insert_ne.
  - intros p. rewrite lookup_insert_eq. intros [= <-]. by right.
  - rewrite (ci_ref _ _ _ _ _ Hinv b n Hh), decide_True by (by eapply held_dom).
    by rewrite HPn, lookup_insert_eq.
  - intros m Hmd Hmp. destruct (decide (m = n)) as [->|Hne].
    + apply (ci_disk _ _ _ _ _ Hinv); [done|by rewrite HPn].
    + rewrite lookup_insert_ne in Hmp by done. by apply (ci_disk _ _ _ _ _ Hinv).
  - set_solver.
Qed.

Lemma held_mine : mine (s := s) b.
Proof.
  destruct (ci_held _ _ _ _ _ Hinv _ _ Hheld) as ((? & _) & _ & ? & ?). by split.
Qed.

(** [bwrite] of a held block. *)
Lemma wp_cache_bwrite (Q : unit → bio → Prop) :
  (let s' := Bio (bufs s) (fset (disk s) n (V n)) (trace s ++ [(n, V n)]) (cur_pid s) (woken s) in
   cache_inv s' V P H (D ∖ {[n]}) → Q tt s') →
  wp (bwrite b) Q s.
Proof.
  intros HQ. apply wp_bwrite; [apply held_mine|]. rewrite held_data, held_blockno. apply HQ.
  destruct (ci_bc _ _ _ _ _ Hinv) as [ord Hbc].
  destruct (ci_held _ _ _ _ _ Hinv _ _ Hheld) as (Hh & Hv & Hl & Hp).
  eapply (cache_inv_held n b); try done.
  - apply Hh.
  - apply Hh.
  - apply held_data.
  - apply (ci_pins _ _ _ _ _ Hinv).
  - by left.
  - apply (ci_ref _ _ _ _ _ Hinv b n Hh).
  - intros m Hmd Hmp. destruct (decide (m = n)) as [->|Hne]; [by rewrite fset_eq|].
    rewrite fset_ne by done. apply (ci_disk _ _ _ _ _ Hinv); [set_solver|done].
  - intros m Hm. apply (ci_dirty _ _ _ _ _ Hinv). set_solver.
Qed.

(** [brelse] of a held block whose changes are logged or written. *)
Lemma wp_cache_brelse (Q : unit → bio → Prop) :
  n ∉ D →
  (∀ g, let s' := set_bufs g (woke ("buffer"%string, b) s) in cache_inv s' V P (delete n H) D → Q tt s') →
  wp (brelse b) Q s.
Proof.
  intros HnD HQ. destruct (ci_bc _ _ _ _ _ Hinv) as [ord Hbc].
  destruct (ci_held _ _ _ _ _ Hinv _ _ Hheld) as (Hh & Hv & Hl & Hp).
  eapply (wp_brelse Hbc); [apply held_mine|apply Hh|].
  intros g [Hbc' Hself Ho]. apply HQ.
  destruct (payload_fields _ _ Hself) as (Ev & Ed & Eb & El & Epid & Er & Edat). simpl in *.
  eapply (cache_inv_held n b); try done.
  - rewrite Ed. apply Hh.
  - rewrite Eb. apply Hh.
  - by rewrite Ev.
  - rewrite Edat. apply held_data.
  - intros m Hne. by rewrite lookup_delete_ne.
  - apply (ci_pins _ _ _ _ _ Hinv).
  - right. by rewrite lookup_delete_eq.
  - rewrite Er, (ci_ref _ _ _ _ _ Hinv b n Hh), decide_True by (by eapply held_dom).
    rewrite decide_False by set_solver. unfold u32. dlia.
  - apply (ci_disk _ _ _ _ _ Hinv).
  - intros m Hm. rewrite dom_delete_L. pose proof (ci_dirty _ _ _ _ _ Hinv m Hm).
    assert (m ≠ n) by (by intros ->). set_solver.
Qed.

End rules.
