(* ===== verification/Log.v ===== *)
(** * The write-ahead log: kernel/log.c

    [sys] is the buffer cache with the disk, and the in-memory log.  The disk
    layout is that of the header comment of log.c: the header block at [log.start],
    then the logged blocks.  [contents] is what a disk means, i.e. its home
    blocks with the committed transaction, if any, applied; [log_ok] is the
    on-disk format.

    The theorems: [commit] and recovery terminate without panicking; after
    every prefix of the disk writes of [commit] the disk means either the old
    or the new contents of all blocks; recovery keeps the meaning after every
    prefix of its writes and installs it; so a transaction is atomic with
    respect to any number of crashes, during the commit and during
    recovery. *)

From S2P Require Import Prelude Machine Bio Cache.

Definition MAXOPBLOCKS : Z := 10.
Definition LOGSIZE : Z := MAXOPBLOCKS * 3.

(** [struct log] with its [struct logheader]. *)
Record log := Log {
  log_start : Z;
  log_size : Z;
  outstanding : Z;
  committing : bool;
  ldev : Z;
  lh_n : Z;
  lh_block : Z → Z
}.

Record sys := Sys { bc : bio; lg : log }.

Definition set_lh n blk l := Log (log_start l) (log_size l) (outstanding l) (committing l) (ldev l) n blk.
Definition set_ops o c l := Log (log_start l) (log_size l) o c (ldev l) (lh_n l) (lh_block l).

Definition on_bio {A} : M bio A → M sys A := zoom bc (λ b s, Sys b (lg s)).
Definition upd_log (f : log → log) : M sys unit := modify (λ s, Sys (bc s) (f (lg s))).

(** The bytes of [struct logheader] in the header block. *)
Definition encode_head (l : log) (d : block) : block :=
  foldl (λ d i, store32 d (4 + 4 * i) (lh_block l i)) (store32 d 0 (lh_n l)) (seqZ 0 (lh_n l)).

Definition install_trans : M sys unit :=
  l ← gets lg;
  for_each (seqZ 0 (lh_n l)) (λ tail,
    lbuf ← on_bio (bread (ldev l) (u32 (log_start l + tail + 1)));
    dbuf ← on_bio (bread (ldev l) (u32 (lh_block l tail)));
    x ← on_bio (getb lbuf);
    on_bio (updb dbuf (set_data (data x))) ;;
    on_bio (bwrite dbuf) ;;
    on_bio (bunpin dbuf) ;;
    on_bio (brelse lbuf) ;;
    on_bio (brelse dbuf)).

(** A header whose count exceeds the array overruns [log.lh.block]. *)
Definition read_head : M sys unit :=
  l ← gets lg;
  b ← on_bio (bread (ldev l) (u32 (log_start l)));
  x ← on_bio (getb b);
  let n := s32 (load32 (data x) 0) in
  if n >? LOGSIZE then undefined "read_head: log.lh.block"
  else
    upd_log (set_lh n (λ i, if (0 <=? i) && (i <? n) then s32 (load32 (data x) (4 + 4 * i))
                            else lh_block l i)) ;;
    on_bio (brelse b).

Definition write_head : M sys unit :=
  l ← gets lg;
  b ← on_bio (bread (ldev l) (u32 (log_start l)));
  x ← on_bio (getb b);
  on_bio (updb b (set_data (encode_head l (data x)))) ;;
  on_bio (bwrite b) ;;
  on_bio (brelse b).

Definition recover_from_log : M sys unit :=
  read_head ;;
  install_trans ;;
  upd_log (λ l, set_lh 0 (lh_block l) l) ;;
  write_head.

(** [sizeof(struct logheader)] is [4 + 4 * LOGSIZE]. *)
Definition initlog (dev logstart nlog : Z) : M sys unit :=
  if 4 + 4 * LOGSIZE >=? BSIZE then panic "initlog: too big logheader"
  else
    upd_log (λ l, Log logstart nlog (outstanding l) (committing l) dev (lh_n l) (lh_block l)) ;;
    recover_from_log.

(** One pass of the loop; a wait is the outcome [Sleep]. *)
Definition begin_op : M sys unit :=
  l ← gets lg;
  if committing l then sleep_on ("log", 0)
  else if lh_n l + (outstanding l + 1) * MAXOPBLOCKS >? LOGSIZE then sleep_on ("log", 0)
  else upd_log (set_ops (outstanding l + 1) (committing l)).

Definition write_log : M sys unit :=
  l ← gets lg;
  for_each (seqZ 0 (lh_n l)) (λ tail,
    to ← on_bio (bread (ldev l) (u32 (log_start l + tail + 1)));
    from ← on_bio (bread (ldev l) (u32 (lh_block l tail)));
    x ← on_bio (getb from);
    on_bio (updb to (set_data (data x))) ;;
    on_bio (bwrite to) ;;
    on_bio (brelse from) ;;
    on_bio (brelse to)).

Definition commit : M sys unit :=
  l ← gets lg;
  if lh_n l >? 0 then
    write_log ;;
    write_head ;;
    install_trans ;;
    upd_log (λ l, set_lh 0 (lh_block l) l) ;;
    write_head
  else mret tt.

Definition end_op : M sys unit :=
  upd_log (λ l, set_ops (outstanding l - 1) (committing l) l) ;;
  l ← gets lg;
  if committing l then panic "log.committing"
  else if outstanding l =? 0 then
    upd_log (set_ops 0 true) ;;
    commit ;;
    upd_log (λ l, set_ops (outstanding l) false l) ;;
    on_bio (wake ("log", 0))
  else on_bio (wake ("log", 0)).

(** The index at which [log_write] records block [n]. *)
Definition log_slot (l : log) (n : Z) : Z :=
  match first_such (λ i, u32 (lh_block l i) =? n) (seqZ 0 (lh_n l)) with
  | Some i => i
  | None => lh_n l
  end.

Definition log_write (b : Z) : M sys unit :=
  l ← gets lg;
  if (lh_n l >=? LOGSIZE) || (lh_n l >=? log_size l - 1) then panic "too big a transaction"
  else if outstanding l <? 1 then panic "log_write outside of trans"
  else
    x ← on_bio (getb b);
    let i := log_slot l (blockno x) in
    upd_log (λ l, set_lh (lh_n l) (fset (lh_block l) i (s32 (blockno x))) l) ;;
    if i =? lh_n l then
      on_bio (bpin b) ;;
      upd_log (λ l, set_lh (lh_n l + 1) (lh_block l) l)
    else mret tt.

(** ** The meaning of a disk *)

Definition apply_writes (ws : list (Z * block)) (d : Z → block) : Z → block :=
  foldl (λ d w, fset d w.1 w.2) d ws.

(** The count and the block numbers in a header block. *)
Definition head_n (h : block) : Z := s32 (load32 h 0).
Definition head_blocks (h : block) : list Z :=
  (λ i, load32 h (4 + 4 * i)) <$> seqZ 0 (head_n h).

Section disk.
Context (st sz : Z).

(** The blocks outside the log. *)
Definition home (b : Z) : Prop := ¬ (st ≤ b < st + sz).

(** A transaction that fits the log. *)
Record log_fits (L : list Z) : Prop := {
  lf_nodup : NoDup L;
  lf_home b : b ∈ L → home b ∧ 0 ≤ b < 2 ^ 31;
  lf_len : Z.of_nat (length L) < Z.min NBUF sz
}.

Definition log_ok (d : Z → block) : Prop :=
  log_fits (head_blocks (d st)) ∧ 0 ≤ head_n (d st).

Definition committed (d : Z → block) : list (Z * block) :=
  imap (λ i b, (b, d (st + 1 + Z.of_nat i))) (head_blocks (d st)).

Definition contents (d : Z → block) : Z → block := apply_writes (committed d) d.

End disk.

(** The machine at power-up with disk [d]: zeroed memory; then the calls of
    [main] and [fsinit] that reach the log. *)
Definition boot (d : Z → block) : sys :=
  Sys (Bio (λ _, Buf false 0 0 false 0 0 0 0 (λ _, 0)) d [] 1 []) (Log 0 0 0 false 0 0 (λ _, 0)).

Definition mount (st sz : Z) : M sys unit := on_bio binit ;; initlog ROOTDEV st sz.

(** A crash during recovery: some of the recovery's writes reached the disk. *)
Definition crash_step (st sz : Z) (d d' : Z → block) : Prop :=
  ∃ s' k, mount st sz (boot d) = Ret tt s' ∧ d' = apply_writes (take k (trace (bc s'))) d.

(** * Lemmas *)

(** ** Writes *)

Lemma apply_writes_app ws1 ws2 d : apply_writes (ws1 ++ ws2) d = apply_writes ws2 (apply_writes ws1 d).
Proof. apply foldl_app. Qed.

Lemma apply_writes_notin ws d b : b ∉ ws.*1 → apply_writes ws d b = d b.
Proof.
  revert d. induction ws as [|[c x] ws IH]; intros d; [done|].
  rewrite fmap_cons, not_elem_of_cons. intros [Hc Hb]. unfold apply_writes in *. simpl in *.
  rewrite IH by done. by rewrite fset_ne.
Qed.

Lemma apply_writes_in ws d b x : NoDup ws.*1 → (b, x) ∈ ws → apply_writes ws d b = x.
Proof.
  revert d. induction ws as [|[c y] ws IH]; intros d; [by intros _ ?%elem_of_nil|].
  rewrite fmap_cons, NoDup_cons, elem_of_cons. intros [Hc Hnd] [[= -> ->]|Hin].
  - unfold apply_writes. simpl. change (apply_writes ws (fset d c y) c = y).
    rewrite apply_writes_notin by done. by rewrite fset_eq.
  - unfold apply_writes in *. simpl. by apply IH.
Qed.

Lemma imap_take {A B} (f : nat → A → B) l k : take k (imap f l) = imap f (take k l).
Proof.
  apply list_eq. intros i. rewrite lookup_take, !list_lookup_imap, lookup_take.
  by case_decide.
Qed.

(** The blocks [start + 1 + i] that [write_log] writes, and the home blocks
    that [install_trans] writes. *)
Definition log_writes (st : Z) (L : list Z) (V : Z → block) : list (Z * block) :=
  imap (λ i b, (st + 1 + Z.of_nat i, V b)) L.
Definition home_writes (st : Z) (L : list Z) (V : Z → block) : list (Z * block) :=
  imap (λ i b, (b, V (st + 1 + Z.of_nat i))) L.

Lemma log_writes_keys st L V : (log_writes st L V).*1 = imap (λ i _, st + 1 + Z.of_nat i) L.
Proof. unfold log_writes. rewrite fmap_imap. done. Qed.

Lemma home_writes_keys st L V : (home_writes st L V).*1 = L.
Proof.
  unfold home_writes. rewrite fmap_imap. apply list_eq. intros i. rewrite list_lookup_imap.
  by destruct (L !! i).
Qed.

Lemma elem_log_keys st L V x : x ∈ (log_writes st L V).*1 ↔ st + 1 ≤ x < st + 1 + Z.of_nat (length L).
Proof.
  rewrite log_writes_keys, elem_of_lookup_imap. split.
  - intros (i & b & -> & Hi). apply lookup_lt_Some in Hi. lia.
  - intros Hx. destruct (lookup_lt_is_Some_2 L (Z.to_nat (x - st - 1)) ltac:(lia)) as [b Hb].
    exists (Z.to_nat (x - st - 1)), b. split; [lia|done].
Qed.

Lemma NoDup_log_keys st L V : NoDup (log_writes st L V).*1.
Proof.
  rewrite log_writes_keys. apply NoDup_alt. intros i j x. rewrite !list_lookup_imap.
  destruct (L !! i), (L !! j); simpl; try done. intros [= <-] [=]. lia.
Qed.

Lemma apply_log_writes st L V d i b :
  L !! i = Some b → apply_writes (log_writes st L V) d (st + 1 + Z.of_nat i) = V b.
Proof.
  intros Hi. apply apply_writes_in; [apply NoDup_log_keys|].
  apply elem_of_lookup_imap. by exists i, b.
Qed.

Lemma apply_home_writes st L V d i b :
  NoDup L → L !! i = Some b →
  apply_writes (home_writes st L V) d b = V (st + 1 + Z.of_nat i).
Proof.
  intros Hnd Hi. apply apply_writes_in; [by rewrite home_writes_keys|].
  apply elem_of_lookup_imap. by exists i, b.
Qed.

(** ** The header block *)

(** The in-memory header lists the blocks [L]. *)
Record lh_is (l : log) (L : list Z) : Prop := {
  lh_len : lh_n l = Z.of_nat (length L);
  lh_at (i : nat) b : L !! i = Some b → lh_block l (Z.of_nat i) = b
}.

Lemma load32_encode_loop (g : Z → Z) (l : list Z) d j :
  load32 (foldl (λ d i, store32 d (4 + 4 * i) (g i)) d l) (4 + 4 * j) =
  if decide (j ∈ l) then u32 (g j) else load32 d (4 + 4 * j).
Proof.
  revert d. induction l as [|x l IH]; intros d; simpl; [done|]. rewrite IH.
  destruct (decide (j = x)) as [->|Hne].
  - rewrite load32_store32. rewrite (decide_True (P := x ∈ x :: l)) by set_solver. by case_decide.
  - rewrite load32_store32_ne by lia. by rewrite (decide_ext (j ∈ l) (j ∈ x :: l)) by set_solver.
Qed.

Lemma head_n_encode l d : - 2 ^ 31 ≤ lh_n l < 2 ^ 31 → head_n (encode_head l d) = lh_n l.
Proof.
  intros Hn. unfold head_n, encode_head.
  pose proof (load32_encode_loop (lh_block l) (seqZ 0 (lh_n l)) (store32 d 0 (lh_n l)) (-1)) as E.
  rewrite decide_False in E by (rewrite elem_of_seqZ; lia).
  change (4 + 4 * -1) with 0 in E. rewrite E, load32_store32. unfold s32, sext, u32.
  change (2 ^ (32 - 1)) with (2 ^ 31). rewrite Zplus_mod_idemp_l. rewrite Z.mod_small; lia.
Qed.

Lemma head_blocks_encode l L d :
  lh_is l L → (∀ b, b ∈ L → 0 ≤ b < 2 ^ 31) → Z.of_nat (length L) < 2 ^ 31 →
  head_blocks (encode_head l d) = L.
Proof.
  intros [Hlen Hat] Hb Hn. unfold head_blocks. rewrite head_n_encode by lia. rewrite Hlen.
  apply list_eq. intros i. rewrite list_lookup_fmap. unfold encode_head.
  destruct (L !! i) as [b|] eqn:Hi.
  - pose proof (lookup_lt_Some _ _ _ Hi). rewrite lookup_seqZ_lt by lia. simpl. f_equal.
    rewrite load32_encode_loop, decide_True by (rewrite elem_of_seqZ; lia).
    rewrite Z.add_0_l, (Hat i b Hi). apply u32_small.
    specialize (Hb b ltac:(by eapply list_elem_of_lookup_2)). lia.
  - apply lookup_ge_None in Hi. rewrite lookup_seqZ_ge by lia. done.
Qed.

Lemma head_blocks_nil h : head_n h = 0 → head_blocks h = [].
Proof. unfold head_blocks. by intros ->. Qed.

(** ** Bio operations on the system state *)

Lemma wp_on_bio {A} (m : M bio A) (Q : A → sys → Prop) s :
  wp m (λ a b, Q a (Sys b (lg s))) (bc s) → wp (on_bio m) Q s.
Proof. apply (wp_zoom bc (λ b s, Sys b (lg s))). Qed.

Ltac bio_step := wp_step; apply wp_on_bio; cbn [bc lg].

Lemma apply_writes_take ws d k w :
  ws !! k = Some w → apply_writes (take (S k) ws) d = fset (apply_writes (take k ws) d) w.1 w.2.
Proof. intros Hk. by rewrite (take_S_r _ _ _ Hk), apply_writes_app. Qed.

Lemma fst_take_subset {A} k (ws : list (Z * A)) x : x ∈ (take k ws).*1 → x ∈ ws.*1.
Proof.
  rewrite fmap_take, !list_elem_of_lookup. intros [i Hi]. apply lookup_take_Some in Hi as [Hi _].
  by exists i.
Qed.

(** The log lies at [st .. st + sz - 1] of the root device. *)
Record geometry (l : log) (st sz : Z) : Prop := {
  ge_start : log_start l = st;
  ge_size : log_size l = sz;
  ge_dev : ldev l = ROOTDEV;
  ge_range : 0 ≤ st ∧ 1 ≤ sz ∧ st + sz < 2 ^ 31
}.

(** The state after the first [k] of the writes [ws], with the pins [P]. *)
Record written (b0 : bio) (V : Z → block) (ws : list (Z * block)) (k : nat) (P : gmap Z Z)
    (b : bio) : Prop := {
  wr_cache : cache_inv b (apply_writes (take k ws) V) P ∅ ∅;
  wr_disk : disk b = apply_writes (take k ws) (disk b0);
  wr_trace : trace b = trace b0 ++ take k ws;
  wr_pid : cur_pid b = cur_pid b0
}.

Lemma written_0 b V ws P : cache_inv b V P ∅ ∅ → written b V ws 0 P b.
Proof. intros Hc. split; rewrite ?take_0; try done. by rewrite app_nil_r. Qed.

Section code.
Context (st sz : Z) (L : list Z).
Context (Hfit : log_fits st sz L).

Lemma home_key b : b ∈ L → ¬ (st ≤ b < st + sz) ∧ 0 ≤ b < 2 ^ 31.
Proof. apply (lf_home _ _ _ Hfit). Qed.

Lemma log_key (k : nat) b : L !! k = Some b → 0 ≤ Z.of_nat k < sz - 1 ∧ Z.of_nat k < 29.
Proof.
  intros Hk. apply lookup_lt_Some in Hk. pose proof (lf_len _ _ _ Hfit). unfold NBUF in *. lia.
Qed.

Lemma written_snoc b0 V ws k P P' b b' n x :
  written b0 V ws k P b → ws !! k = Some (n, x) →
  cache_inv b' (fset (apply_writes (take k ws) V) n x) P' ∅ ∅ →
  disk b' = fset (disk b) n x → trace b' = trace b ++ [(n, x)] → cur_pid b' = cur_pid b →
  written b0 V ws (S k) P' b'.
Proof.
  intros [Hc Hd Ht Hp] Hk Hc' Hd' Ht' Hp'. split.
  - by rewrite (apply_writes_take _ _ _ _ Hk).
  - by rewrite Hd', Hd, (apply_writes_take _ _ _ _ Hk).
  - by rewrite Ht', Ht, (take_S_r _ _ _ Hk), <-app_assoc.
  - by rewrite Hp'.
Qed.

(** The entry [k] of the transaction: its log block and its home block. *)
Lemma entry l k :
  geometry l st sz → lh_is l L → 0 ≤ k < Z.of_nat (length L) →
  ∃ n2, L !! Z.to_nat k = Some n2 ∧ u32 (lh_block l k) = n2 ∧
    u32 (log_start l + k + 1) = st + 1 + Z.of_nat (Z.to_nat k) ∧
    home st sz n2 ∧ ¬ home st sz (st + 1 + Z.of_nat (Z.to_nat k)).
Proof.
  intros [Hst Hsz Hdev Hrg] [Hn Hat] Hk.
  destruct (lookup_lt_is_Some_2 L (Z.to_nat k) ltac:(lia)) as [n2 Hn2]. exists n2.
  pose proof (log_key _ _ Hn2) as [Hk1 Hk2].
  destruct (home_key n2 ltac:(by eapply list_elem_of_lookup_2)) as [Hhome Hr2].
  assert (lh_block l k = n2) as -> by (rewrite <-(Z2Nat.id k) by lia; by apply Hat).
  rewrite Hst. unfold home. split_and!; [done|apply u32_small; lia| |done|lia].
  rewrite u32_small; lia.
Qed.

(** One block logged: the pinned block [n2] copied to the log block [n1]. *)
Lemma wp_log_one l b V P n1 n2 (Q : unit → sys → Prop) :
  cache_inv b V P ∅ ∅ → n1 ≠ n2 → n1 ∉ dom P → n2 ∈ dom P → (base.size (dom P) < 30)%nat →
  (∀ b', cache_inv b' (fset V n1 (V n2)) P ∅ ∅ → disk b' = fset (disk b) n1 (V n2) →
     trace b' = trace b ++ [(n1, V n2)] → cur_pid b' = cur_pid b → Q tt (Sys b' l)) →
  wp (to ← on_bio (bread ROOTDEV n1);
      from ← on_bio (bread ROOTDEV n2);
      x ← on_bio (getb from);
      on_bio (updb to (set_data (data x))) ;;
      on_bio (bwrite to) ;;
      on_bio (brelse from) ;;
      on_bio (brelse to)) Q (Sys b l).
Proof.
  intros Hcb Hne Hn1 Hn2 Hsz HQ.
  bio_step. eapply (wp_cache_bread Hcb); [set_solver|set_solver| |].
  { right. by rewrite dom_empty_L, union_empty_r_L. }
  intros b1 g1 s1 Hc1 _. bio_step. eapply (wp_cache_bread Hc1).
  { set_solver. }
  { intros m. rewrite dom_insert_L, dom_empty_L, union_empty_r_L, elem_of_singleton.
    intros ->. by rewrite not_elem_of_dom_1. }
  { by left. }
  intros b2 g2 s2 Hc2 Hd2. bio_step. unfold getb. wp_step. simpl. rewrite Hd2.
  bio_step. eapply (wp_cache_store Hc2 (n := n1)); [by rewrite lookup_insert_ne, lookup_insert_eq|].
  intros g3 s3 Hc3. bio_step.
  eapply (wp_cache_bwrite Hc3 (n := n1)); [by rewrite lookup_insert_ne, lookup_insert_eq|].
  rewrite fset_eq. intros s4 Hc4. bio_step.
  eapply (wp_cache_brelse Hc4 (n := n2)); [by rewrite lookup_insert_eq|set_solver|].
  intros g5 s5 Hc5. apply wp_on_bio.
  rewrite delete_insert_id in Hc5 by (by rewrite lookup_insert_ne).
  eapply (wp_cache_brelse Hc5 (n := n1)); [by rewrite lookup_insert_eq|set_solver|].
  intros g6 s6 Hc6. rewrite delete_insert_id in Hc6 by done.
  replace (({[n1]} ∪ ∅) ∖ {[n1]}) with (∅ : gset Z) in Hc6 by set_solver.
  by apply HQ.
Qed.

Lemma size_L : (base.size (list_to_set L : gset Z) < 30)%nat.
Proof.
  rewrite size_list_to_set by apply Hfit. pose proof (lf_len _ _ _ Hfit). unfold NBUF in *. lia.
Qed.

Lemma wp_write_log s V P (Q : unit → sys → Prop) :
  geometry (lg s) st sz → lh_is (lg s) L → cache_inv (bc s) V P ∅ ∅ →
  dom P = list_to_set L →
  (∀ b, written (bc s) V (log_writes st L V) (length L) P b → Q tt (Sys b (lg s))) →
  wp write_log Q s.
Proof.
  intros Hgeo Hlh Hc HP HQ. unfold write_log. wp_run. rewrite (lh_len _ _ Hlh).
  eapply (wp_for_seqZ _ _ (λ k s', ∃ b, s' = Sys b (lg s) ∧
    written (bc s) V (log_writes st L V) (Z.to_nat k) P b)); [lia| | |].
  - exists (bc s). destruct s. split; [done|]. by apply written_0.
  - intros k s' Hk (b & -> & Hw).
    destruct (entry _ k Hgeo Hlh Hk) as (n2 & Hn2 & -> & -> & Hh2 & Hh1).
    set (n1 := st + 1 + Z.of_nat (Z.to_nat k)) in *.
    assert (apply_writes (take (Z.to_nat k) (log_writes st L V)) V n2 = V n2) as HV2.
    { apply apply_writes_notin. intros Hx%fst_take_subset.
      apply elem_log_keys in Hx. pose proof (lf_len _ _ _ Hfit). unfold home in Hh2. lia. }
    replace (Z.to_nat (k + 1)) with (S (Z.to_nat k)) by lia. rewrite (ge_dev _ _ _ Hgeo).
    eapply (wp_log_one _ _ _ _ n1 n2 _ (wr_cache _ _ _ _ _ _ Hw)); rewrite ?HP, ?elem_of_list_to_set.
    + by intros <-.
    + by intros [? _]%(lf_home _ _ _ Hfit).
    + by eapply list_elem_of_lookup_2.
    + apply size_L.
    + rewrite HV2. intros b' Hc' Hd' Ht' Hp'. exists b'. split; [done|].
      eapply written_snoc; [done| |done..]. unfold log_writes. by rewrite list_lookup_imap, Hn2.
  - intros s' (b & -> & Hw). rewrite Nat2Z.id in Hw. by apply HQ.
Qed.

Lemma home_take_notin V k m : ¬ home st sz m → m ∉ (take k (home_writes st L V)).*1.
Proof.
  intros Hm Hx%fst_take_subset. rewrite home_writes_keys in Hx. by apply (lf_home _ _ _ Hfit) in Hx as [? _].
Qed.

(** One block installed: the home block [n2] from the log block [n1].  The
    pins are [P] before and [P'] after: in a commit the block is pinned and
    [bunpin] removes the pin; in recovery it is not and [bunpin] takes one
    reference too many. *)
Lemma wp_install_one l b V P P' n1 n2 (Q : unit → sys → Prop) :
  cache_inv b V P ∅ ∅ → n1 ≠ n2 → n1 ∉ dom P →
  P !! n2 = Some 1 ∧ P' = delete n2 P ∧ (base.size (dom P) < 30)%nat ∨
    P !! n2 = None ∧ P' = <[n2 := -1]> P ∧ (base.size (dom P) < 29)%nat →
  (∀ b', cache_inv b' (fset V n2 (V n1)) P' ∅ ∅ → disk b' = fset (disk b) n2 (V n1) →
     trace b' = trace b ++ [(n2, V n1)] → cur_pid b' = cur_pid b → Q tt (Sys b' l)) →
  wp (lbuf ← on_bio (bread ROOTDEV n1);
      dbuf ← on_bio (bread ROOTDEV n2);
      x ← on_bio (getb lbuf);
      on_bio (updb dbuf (set_data (data x))) ;;
      on_bio (bwrite dbuf) ;;
      on_bio (bunpin dbuf) ;;
      on_bio (brelse lbuf) ;;
      on_bio (brelse dbuf)) Q (Sys b l).
Proof.
  intros Hcb Hne HnP HPk HQ.
  bio_step. eapply (wp_cache_bread Hcb); [set_solver|set_solver| |].
  { right. rewrite dom_empty_L, union_empty_r_L. lia. }
  intros b1 g1 s1 Hc1 Hd1. bio_step. eapply (wp_cache_bread Hc1).
  { set_solver. }
  { intros m. rewrite dom_insert_L, dom_empty_L, union_empty_r_L, elem_of_singleton.
    intros ->. by rewrite not_elem_of_dom_1. }
  { destruct HPk as [(Hp & _)|(Hp & _ & ?)]; [left; apply elem_of_dom; by eexists|right].
    rewrite dom_insert_L, dom_empty_L, union_empty_r_L, size_union by set_solver.
    rewrite size_singleton. lia. }
  intros b2 g2 s2 Hc2 _. bio_step. unfold getb. wp_step.
  assert (data (bufs s2 b1) = V n1) as ->.
  { rewrite (held_data Hc2 (n := n1)); [done|]. by rewrite lookup_insert_ne, lookup_insert_eq. }
  bio_step. eapply (wp_cache_store Hc2 (n := n2)); [by rewrite lookup_insert_eq|].
  intros g3 s3 Hc3. bio_step.
  eapply (wp_cache_bwrite Hc3 (n := n2)); [by rewrite lookup_insert_eq|].
  rewrite fset_eq. intros s4 Hc4. bio_step.
  replace (({[n2]} ∪ ∅) ∖ {[n2]}) with (∅ : gset Z) in Hc4 by set_solver.
  assert (∀ g5, cache_inv (set_bufs g5 s4) (fset V n2 (V n1)) P' (<[n2:=b2]> (<[n1:=b1]> ∅)) ∅ →
    wp (on_bio (brelse b1) ;; on_bio (brelse b2)) Q (Sys (set_bufs g5 s4) l)) as Hend.
  { intros g5 Hc5. bio_step.
    eapply (wp_cache_brelse Hc5 (n := n1));
      [by rewrite lookup_insert_ne, lookup_insert_eq|set_solver|].
    intros g6 s6 Hc6. apply wp_on_bio.
    rewrite delete_insert_ne, delete_insert_id in Hc6 by done.
    eapply (wp_cache_brelse Hc6 (n := n2)); [by rewrite lookup_insert_eq|set_solver|].
    intros g7 s7 Hc7. rewrite delete_insert_id in Hc7 by done. by apply HQ. }
  destruct HPk as [(Hp & -> & _)|(Hp & -> & _)].
  - eapply (wp_cache_bunpin Hc4 (n := n2)); [by rewrite lookup_insert_eq|done| |set_solver|].
    { simpl. by rewrite !fset_eq. }
    intros g5 s5 Hc5. by apply Hend.
  - eapply (wp_cache_bunpin_extra Hc4 (n := n2)); [by rewrite lookup_insert_eq|done|].
    intros g5 s5 Hc5. by apply Hend.
Qed.

Lemma wp_install_trans s V (P : nat → gmap Z Z) (Q : unit → sys → Prop) :
  geometry (lg s) st sz → lh_is (lg s) L → cache_inv (bc s) V (P 0%nat) ∅ ∅ →
  (∀ k m, m ∈ dom (P k) → home st sz m) →
  (∀ k b, L !! k = Some b →
     P k !! b = Some 1 ∧ P (S k) = delete b (P k) ∧ (base.size (dom (P k)) < 30)%nat ∨
     P k !! b = None ∧ P (S k) = <[b := -1]> (P k) ∧ (base.size (dom (P k)) < 29)%nat) →
  (∀ b, written (bc s) V (home_writes st L V) (length L) (P (length L)) b → Q tt (Sys b (lg s))) →
  wp install_trans Q s.
Proof.
  intros Hgeo Hlh Hc HPh HPk HQ. unfold install_trans. wp_run. rewrite (lh_len _ _ Hlh).
  eapply (wp_for_seqZ _ _ (λ k s', ∃ b, s' = Sys b (lg s) ∧
    written (bc s) V (home_writes st L V) (Z.to_nat k) (P (Z.to_nat k)) b)); [lia| | |].
  - exists (bc s). destruct s. split; [done|]. by apply written_0.
  - intros k s' Hk (b & -> & Hw). pose proof Hw as [Hcb _ _ _].
    destruct (entry _ k Hgeo Hlh Hk) as (n2 & Hn2 & -> & -> & Hh2 & Hh1).
    set (n1 := st + 1 + Z.of_nat (Z.to_nat k)) in *.
    assert (apply_writes (take (Z.to_nat k) (home_writes st L V)) V n1 = V n1) as HV1.
    { by apply apply_writes_notin, home_take_notin. }
    assert (home_writes st L V !! Z.to_nat k = Some (n2, V n1)) as Hwk.
    { unfold home_writes. by rewrite list_lookup_imap, Hn2. }
    replace (Z.to_nat (k + 1)) with (S (Z.to_nat k)) by lia. rewrite (ge_dev _ _ _ Hgeo).
    eapply (wp_install_one _ _ _ _ (P (S (Z.to_nat k))) n1 n2 _ Hcb);
      [by intros <-|by intros ?%HPh|by apply HPk|].
    rewrite HV1. intros b' Hc' Hd' Ht' Hp'. exists b'. split; [done|].
    by eapply written_snoc.
  - intros s' (b & -> & Hw). rewrite Nat2Z.id in Hw. by apply HQ.
Qed.

End code.

(** [write_head]. *)
Lemma wp_write_head st sz s V P (Q : unit → sys → Prop) :
  geometry (lg s) st sz → cache_inv (bc s) V P ∅ ∅ → (base.size (dom P) < 30)%nat →
  (∀ b, let h := encode_head (lg s) (V st) in
     cache_inv b (fset V st h) P ∅ ∅ → disk b = fset (disk (bc s)) st h →
     trace b = trace (bc s) ++ [(st, h)] → cur_pid b = cur_pid (bc s) → Q tt (Sys b (lg s))) →
  wp write_head Q s.
Proof.
  intros [Hst Hsz Hdev Hrg] Hc HP HQ. unfold write_head. wp_step. wp_step.
  rewrite Hst, Hdev, u32_small by lia.
  bio_step. eapply (wp_cache_bread Hc); [set_solver|set_solver| |].
  { right. by rewrite dom_empty_L, union_empty_r_L. }
  intros b1 g1 s1 Hc1 Hd1. bio_step. unfold getb. wp_step. simpl. rewrite Hd1.
  bio_step. eapply (wp_cache_store Hc1 (n := st)); [by rewrite lookup_insert_eq|].
  intros g3 s3 Hc3. bio_step. eapply (wp_cache_bwrite Hc3 (n := st)); [by rewrite lookup_insert_eq|].
  rewrite fset_eq. intros s4 Hc4. apply wp_on_bio.
  eapply (wp_cache_brelse Hc4 (n := st)); [by rewrite lookup_insert_eq|set_solver|].
  intros g5 s5 Hc5. rewrite delete_insert_id in Hc5 by done.
  replace (({[st]} ∪ ∅) ∖ {[st]}) with (∅ : gset Z) in Hc5 by set_solver.
  by apply HQ.
Qed.

(** ** What the writes mean *)

Section meaning.
Context (st sz : Z).
Context (Hsz : 1 ≤ sz).

Lemma st_log : ¬ home st sz st.
Proof. unfold home. lia. Qed.

(** The writes of a recovery: install the home blocks, clear the header. *)
Definition recover_writes (d : Z → block) (h0 : block) : list (Z * block) :=
  home_writes st (head_blocks (d st)) d ++ [(st, h0)].

Lemma home_writes_ext L V V' :
  (∀ (i : nat) b, L !! i = Some b → V (st + 1 + Z.of_nat i) = V' (st + 1 + Z.of_nat i)) →
  home_writes st L V = home_writes st L V'.
Proof.
  intros HV. unfold home_writes. apply list_eq. intros i. rewrite !list_lookup_imap.
  destruct (L !! i) eqn:E; simpl; [|done]. by rewrite (HV i z E).
Qed.

Lemma log_fits_nil : log_fits st sz [].
Proof. split; [constructor|by intros ? ?%elem_of_nil|simpl; unfold NBUF; lia]. Qed.

(** Installing some of the home blocks does not change what the disk means. *)
Lemma contents_install d k :
  log_ok st sz d →
  let d' := apply_writes (take k (home_writes st (head_blocks (d st)) d)) d in
  d' st = d st ∧ log_ok st sz d' ∧ ∀ b, home st sz b → contents st d' b = contents st d b.
Proof.
  intros Hok d'. assert (∀ m, ¬ home st sz m → d' m = d m) as Hlog.
  { intros m Hm. apply apply_writes_notin, (home_take_notin st sz); [apply Hok|done]. }
  assert (d' st = d st) as Hst by apply Hlog, st_log.
  split; [done|]. split; [unfold log_ok; by rewrite Hst|]. intros b Hb. destruct Hok as [Hok _].
  set (L := head_blocks (d st)) in *.
  assert (committed st d' = home_writes st L d) as Hcom.
  { unfold committed. rewrite Hst. apply home_writes_ext. intros i c Hi. apply Hlog.
    apply lookup_lt_Some in Hi. assert (Z.of_nat (length L) < Z.min NBUF sz) by apply (lf_len _ _ _ Hok).
    unfold home. lia. }
  unfold contents. rewrite Hcom. change (committed st d) with (home_writes st L d).
  destruct (decide (b ∈ L)) as [HbL|HbL].
  - apply list_elem_of_lookup in HbL as [i Hi].
    by rewrite !(apply_home_writes _ _ _ _ _ _ (lf_nodup _ _ _ Hok) Hi).
  - rewrite !apply_writes_notin by (by rewrite home_writes_keys).
    apply apply_writes_notin. intros Hx%fst_take_subset. by rewrite home_writes_keys in Hx.
Qed.

Lemma contents_empty d b : head_n (d st) = 0 → contents st d b = d b.
Proof. intros E. unfold contents, committed. by rewrite head_blocks_nil. Qed.

Lemma log_ok_empty d : head_n (d st) = 0 → log_ok st sz d.
Proof. intros E. split; [rewrite head_blocks_nil by done; apply log_fits_nil|lia]. Qed.

(** Every prefix of the writes of a recovery means what the disk meant, and
    after all of them the home blocks hold it. *)
Lemma recover_prefix d h0 k :
  log_ok st sz d → head_n h0 = 0 →
  let d' := apply_writes (take k (recover_writes d h0)) d in
  log_ok st sz d' ∧ (∀ b, home st sz b → contents st d' b = contents st d b) ∧
  ((length (recover_writes d h0) ≤ k)%nat →
     head_n (d' st) = 0 ∧ ∀ b, home st sz b → d' b = contents st d b).
Proof.
  intros Hok Hh0 d'. unfold d', recover_writes. set (hw := home_writes st (head_blocks (d st)) d).
  assert (∀ b, home st sz b → fset (apply_writes hw d) st h0 b = contents st d b) as Hfin.
  { intros b Hb. rewrite fset_ne; [done|]. intros ->. by apply st_log. }
  destruct (decide (k ≤ length hw)%nat) as [Hk|Hk].
  - rewrite take_app_le by done. destruct (contents_install d k Hok) as (Hst & Hok' & Hcon).
    split_and!; [done|done|]. rewrite length_app. simpl. lia.
  - rewrite take_ge by (rewrite length_app; simpl; lia). rewrite apply_writes_app.
    change (apply_writes [(st, h0)] (apply_writes hw d)) with (fset (apply_writes hw d) st h0).
    assert (head_n (fset (apply_writes hw d) st h0 st) = 0) as E by (by rewrite fset_eq).
    split_and!; [by apply log_ok_empty| |done].
    intros b Hb. rewrite contents_empty by done. by apply Hfin.
Qed.

(** The writes of a commit. *)
Definition commit_writes (L : list Z) (V : Z → block) (h1 h0 : block) : list (Z * block) :=
  log_writes st L V ++ [(st, h1)] ++ ((λ b, (b, V b)) <$> L) ++ [(st, h0)].

(** Every prefix of the writes of a commit means the old contents up to the
    write of the header, and the new contents from there on. *)
Lemma commit_prefix L V h1 h0 d k :
  log_fits st sz L → head_n (d st) = 0 → head_blocks h1 = L → 0 ≤ head_n h1 → head_n h0 = 0 →
  (∀ b, b ∉ L → home st sz b → d b = V b) →
  let d' := apply_writes (take k (commit_writes L V h1 h0)) d in
  log_ok st sz d' ∧
  ∀ b, home st sz b → contents st d' b = if decide (k ≤ length L)%nat then d b else V b.
Proof.
  intros Hfit Hd0 Hh1 Hn1 Hh0 HV d'. unfold d', commit_writes.
  assert (length (log_writes st L V) = length L) as Hlen by apply length_imap.
  assert (∀ m j, ¬ (st + 1 ≤ m < st + sz) → m ∉ (take j (log_writes st L V)).*1) as Hnk.
  { intros m j Hm Hx%fst_take_subset. apply elem_log_keys in Hx.
    pose proof (lf_len _ _ _ Hfit). lia. }
  case_decide as Hk.
  - rewrite take_app_le by lia. set (d1 := apply_writes _ d).
    assert (d1 st = d st) as Est by (apply apply_writes_notin, Hnk; lia).
    assert (head_n (d1 st) = 0) as E1 by (by rewrite Est).
    split; [by apply log_ok_empty|]. intros b Hb.
    rewrite contents_empty by done. apply apply_writes_notin, Hnk. unfold home in Hb. lia.
  - rewrite take_app_ge by lia. rewrite Hlen.
    destruct (k - length L)%nat as [|j] eqn:Ej; [lia|].
    rewrite apply_writes_app. cbn [app take].
    set (d1 := fset (apply_writes (log_writes st L V) d) st h1).
    change (apply_writes ((st, h1) :: ?ws) _) with (apply_writes ws d1).
    assert (d1 st = h1) as E1 by apply fset_eq.
    assert (∀ (i : nat) b, L !! i = Some b → d1 (st + 1 + Z.of_nat i) = V b) as Hlog1.
    { intros i b Hi. unfold d1. rewrite fset_ne by lia. by apply apply_log_writes. }
    assert (((λ b, (b, V b)) <$> L) = home_writes st L d1) as ->.
    { unfold home_writes. apply list_eq. intros i. rewrite list_lookup_fmap, list_lookup_imap.
      destruct (L !! i) eqn:E; simpl; [|done]. by rewrite (Hlog1 i z E). }
    assert (log_ok st sz d1) as Hok1 by (unfold log_ok; by rewrite E1, Hh1).
    destruct (recover_prefix d1 h0 j Hok1 Hh0) as (Hok' & Hcon & _).
    unfold recover_writes in Hok', Hcon. rewrite E1, Hh1 in Hok', Hcon.
    split; [done|]. intros b Hb. rewrite Hcon by done.
    unfold contents, committed. rewrite E1, Hh1. change (imap _ L) with (home_writes st L d1).
    destruct (decide (b ∈ L)) as [HbL|HbL].
    + apply list_elem_of_lookup in HbL as [i Hi].
      rewrite (apply_home_writes _ _ _ _ _ _ (lf_nodup _ _ _ Hfit) Hi). by apply Hlog1.
    + rewrite apply_writes_notin by (by rewrite home_writes_keys).
      unfold d1. rewrite fset_ne by (intros ->; by apply st_log).
      rewrite <-(take_ge (log_writes st L V) (length (log_writes st L V))) by lia.
      rewrite apply_writes_notin by (apply Hnk; unfold home in Hb; lia). by apply HV.
Qed.

End meaning.

(** ** [commit] *)

(** The pins of a transaction that has logged the blocks [L]. *)
Definition pins (L : list Z) : gmap Z Z := gset_to_gmap 1 (list_to_set L).
(** The blocks that recovery has installed, each with a reference too few. *)
Definition dropped (L : list Z) : gmap Z Z := gset_to_gmap (-1) (list_to_set L).

Lemma lookup_pins L b : pins L !! b = if decide (b ∈ L) then Some 1 else None.
Proof.
  unfold pins. rewrite lookup_gset_to_gmap. case_decide as Hb.
  - by rewrite option_guard_True by (by apply elem_of_list_to_set).
  - by rewrite option_guard_False by (by rewrite elem_of_list_to_set).
Qed.

Lemma lookup_dropped L b : dropped L !! b = if decide (b ∈ L) then Some (-1) else None.
Proof.
  unfold dropped. rewrite lookup_gset_to_gmap. case_decide as Hb.
  - by rewrite option_guard_True by (by apply elem_of_list_to_set).
  - by rewrite option_guard_False by (by rewrite elem_of_list_to_set).
Qed.

Lemma pins_delete L k b :
  NoDup L → L !! k = Some b →
  pins (drop k L) !! b = Some 1 ∧ pins (drop (S k) L) = delete b (pins (drop k L)).
Proof.
  intros Hnd Hk. rewrite (drop_S _ _ _ Hk). split.
  - rewrite lookup_pins, decide_True; [done|by left].
  - assert (b ∉ drop (S k) L) as Hb.
    { rewrite <-(take_drop k L), (drop_S _ _ _ Hk) in Hnd.
      by apply NoDup_app in Hnd as (_ & _ & [? _]%NoDup_cons). }
    apply map_eq. intros m. rewrite lookup_delete, !lookup_pins.
    destruct (decide (b = m)) as [->|Hne]; [by rewrite decide_False|].
    apply decide_ext. rewrite elem_of_cons. naive_solver.
Qed.

Lemma dropped_insert L k b :
  NoDup L → L !! k = Some b →
  dropped (take k L) !! b = None ∧ dropped (take (S k) L) = <[b := -1]> (dropped (take k L)).
Proof.
  intros Hnd Hk. split.
  - rewrite lookup_dropped, decide_False; [done|].
    rewrite <-(take_drop k L), (drop_S _ _ _ Hk) in Hnd.
    apply NoDup_app in Hnd as (_ & Hd & _). intros Hb. apply (Hd b Hb). by left.
  - apply map_eq. intros m. rewrite lookup_insert, !lookup_dropped.
    rewrite (take_S_r _ _ _ Hk). destruct (decide (b = m)) as [->|Hne].
    + rewrite decide_True; [done|]. rewrite elem_of_app. right. by left.
    + apply decide_ext. rewrite elem_of_app, list_elem_of_singleton. naive_solver.
Qed.

Lemma dom_pins L : dom (pins L) = list_to_set L.
Proof. apply dom_gset_to_gmap. Qed.

Lemma pins_nil : pins [] = ∅.
Proof. apply gset_to_gmap_empty. Qed.

Lemma dom_dropped L : dom (dropped L) = list_to_set L.
Proof. apply dom_gset_to_gmap. Qed.

Lemma size_sublist L L' : NoDup L → L' `sublist_of` L → (base.size (list_to_set L' : gset Z) ≤ length L)%nat.
Proof.
  intros Hnd Hs. rewrite size_list_to_set by (by eapply sublist_NoDup). by apply sublist_length.
Qed.

(** The state in which the transaction of the blocks [L] can commit, every
    block having contents [V]. *)
Record txn_inv (st sz : Z) (V : Z → block) (L : list Z) (s : sys) : Prop := {
  ti_geo : geometry (lg s) st sz;
  ti_lh : lh_is (lg s) L;
  ti_fits : log_fits st sz L;
  ti_cache : cache_inv (bc s) V (pins L) ∅ ∅;
  ti_head : head_n (disk (bc s) st) = 0
}.

Definition clear_lh (l : log) : log := set_lh 0 (lh_block l) l.

Lemma head_n_clear l d : head_n (encode_head (clear_lh l) d) = 0.
Proof. rewrite head_n_encode; simpl; lia. Qed.

Lemma wp_commit st sz V L s (Q : unit → sys → Prop) :
  txn_inv st sz V L s → L ≠ [] →
  (∀ b, let h1 := encode_head (lg s) (V st) in
     let ws := commit_writes st L V h1 (encode_head (clear_lh (lg s)) h1) in
     cache_inv b (apply_writes ws V) ∅ ∅ ∅ → disk b = apply_writes ws (disk (bc s)) →
     trace b = trace (bc s) ++ ws → cur_pid b = cur_pid (bc s) →
     Q tt (Sys b (clear_lh (lg s)))) →
  wp commit Q s.
Proof.
  intros [Hgeo Hlh Hfit Hc Hd] HL HQ. unfold commit. wp_step. wp_step.
  rewrite (lh_len _ _ Hlh). destruct (Z.gtb_spec (Z.of_nat (length L)) 0).
  2: { destruct L; [done|]. simpl in *. lia. }
  pose proof (ge_range _ _ _ Hgeo) as Hrg.
  pose proof (lf_len _ _ _ Hfit) as Hlen. unfold NBUF in Hlen.
  assert (¬ home st sz st) as Hst by (unfold home; lia).
  wp_step. eapply (wp_write_log st sz L Hfit); [done|done|done|apply dom_pins|].
  intros b1 [Hc1 Hd1 Ht1 Hp1]. rewrite take_ge in Hc1, Hd1, Ht1 by (unfold log_writes; by rewrite length_imap).
  wp_step. eapply (wp_write_head st sz); [done|done| |].
  { rewrite dom_pins. apply (size_L st sz L Hfit). }
  cbn [bc lg]. rewrite (apply_writes_notin (log_writes st L V) V st).
  2: { rewrite elem_log_keys. lia. }
  set (h1 := encode_head (lg s) (V st)). intros b2 Hc2 Hd2 Ht2 Hp2.
  wp_step. eapply (wp_install_trans st sz L Hfit _ _ (λ k, pins (drop k L))); [done|done|done| | |].
  { intros k m. rewrite dom_pins, elem_of_list_to_set. intros Hm.
    apply (lf_home _ _ _ Hfit). by eapply subseteq_drop. }
  { intros k c Hk. left. destruct (pins_delete L k c (lf_nodup _ _ _ Hfit) Hk) as [? ?].
    split_and!; [done|done|]. rewrite dom_pins.
    pose proof (size_sublist L (drop k L) (lf_nodup _ _ _ Hfit) (sublist_drop _ _)). lia. }
  intros b3 [Hc3 Hd3 Ht3 Hp3]. rewrite drop_all, pins_nil in Hc3.
  rewrite take_ge in Hc3, Hd3, Ht3 by (unfold home_writes; by rewrite length_imap).
  cbn [bc lg] in *. set (V2 := fset (apply_writes (log_writes st L V) V) st h1) in *.
  assert (home_writes st L V2 = (λ b, (b, V b)) <$> L) as Ehw.
  { unfold home_writes. apply list_eq. intros i. rewrite list_lookup_fmap, list_lookup_imap.
    destruct (L !! i) eqn:E; simpl; [|done]. unfold V2.
    rewrite fset_ne by lia. by rewrite (apply_log_writes _ _ _ _ _ _ E). }
  rewrite Ehw in Hc3, Hd3, Ht3.
  unfold upd_log. wp_run. eapply (wp_write_head st sz); [by destruct Hgeo|done|by rewrite dom_empty_L, size_empty; lia|].
  cbn [bc lg]. fold (clear_lh (lg s)). intros b4.
  assert (apply_writes ((λ b, (b, V b)) <$> L) V2 st = h1) as Est.
  { rewrite apply_writes_notin; [apply fset_eq|]. rewrite <-Ehw, home_writes_keys.
    by intros [? _]%(lf_home _ _ _ Hfit). }
  rewrite Est. intros Hc4 Hd4 Ht4 Hp4. apply HQ; unfold commit_writes.
  - by rewrite !apply_writes_app.
  - by rewrite !apply_writes_app, Hd4, Hd3, Hd2, Hd1.
  - by rewrite Ht4, Ht3, Ht2, Ht1, <-!app_assoc.
  - by rewrite Hp4, Hp3, Hp2.
Qed.

(** ** Recovery *)

(** A cache without cached blocks. *)
Lemma fresh_cache_inv s g :
  fresh_cache g → cache_inv (Bio g (disk s) (trace s) (cur_pid s) (woken s)) (disk s) ∅ ∅ ∅.
Proof.
  intros [Hbc Hf].
  assert (∀ i n, ¬ holds g i n) as Hno.
  { intros i n (Hi & Hd & _). destruct (Hf i Hi) as [E _]. rewrite E in Hd. done. }
  split; simpl; try (intros i n Hh; by destruct (Hno i n)); try done.
  - by eexists.
  - intros n Hn. set_solver.
Qed.

Lemma u32_s32 z : u32 (s32 z) = u32 z.
Proof.
  unfold u32, s32, sext. rewrite <-Zminus_mod_idemp_l, Zmod_mod, Zminus_mod_idemp_l.
  f_equal. lia.
Qed.

Lemma wp_read_head st sz s V (Q : unit → sys → Prop) :
  geometry (lg s) st sz → cache_inv (bc s) V ∅ ∅ ∅ →
  log_fits st sz (head_blocks (V st)) → 0 ≤ head_n (V st) →
  (∀ b l, cache_inv b V ∅ ∅ ∅ → disk b = disk (bc s) → trace b = trace (bc s) →
     cur_pid b = cur_pid (bc s) → geometry l st sz → lh_is l (head_blocks (V st)) →
     outstanding l = outstanding (lg s) ∧ committing l = committing (lg s) → Q tt (Sys b l)) →
  wp read_head Q s.
Proof.
  intros Hgeo Hc Hfit Hn0 HQ. pose proof Hgeo as [Hst Hsz Hdev Hrg]. unfold read_head. wp_step. wp_step.
  rewrite Hst, Hdev, u32_small by lia.
  bio_step. eapply (wp_cache_bread Hc); [set_solver|set_solver| |].
  { right. rewrite !dom_empty_L, union_empty_r_L, size_empty. lia. }
  intros b1 g1 s1 Hc1 Hd1. bio_step. unfold getb. wp_step. simpl. rewrite Hd1.
  pose proof (lf_len _ _ _ Hfit) as Hlen. unfold head_blocks in Hlen at 1.
  rewrite length_fmap, length_seqZ in Hlen. unfold NBUF in Hlen. fold (head_n (V st)).
  destruct (Z.gtb_spec (head_n (V st)) LOGSIZE) as [Hgt|Hle].
  { unfold LOGSIZE, MAXOPBLOCKS in Hgt. lia. }
  unfold upd_log. wp_run. apply wp_on_bio. cbn [bc lg].
  eapply (wp_cache_brelse Hc1 (n := st)); [by rewrite lookup_insert_eq|set_solver|].
  intros g5 s5 Hc5. rewrite delete_insert_id in Hc5 by done. apply HQ; try done.
  split; simpl.
  - unfold head_blocks. rewrite length_fmap, length_seqZ. lia.
  - intros i b Hi. assert (b ∈ head_blocks (V st)) as Hb by (by eapply list_elem_of_lookup_2).
    apply (lf_home _ _ _ Hfit) in Hb as [_ Hb].
    unfold head_blocks in Hi. rewrite list_lookup_fmap in Hi.
    apply fmap_Some in Hi as (j & Hj & ->). apply lookup_seqZ in Hj as [-> Hj].
    rewrite Z.add_0_l in *. destruct (Z.leb_spec 0 (Z.of_nat i)); [|lia].
    destruct (Z.ltb_spec (Z.of_nat i) (head_n (V st))); [|lia]. simpl. apply s32_small. lia.
Qed.

(** What recovery at power-up leaves: all its writes done, and every installed
    block with a reference count that is one too low. *)
Record mounted (st sz : Z) (d : Z → block) (s : sys) : Prop := {
  mo_writes : ∃ h0, head_n h0 = 0 ∧ trace (bc s) = recover_writes st d h0;
  mo_disk : disk (bc s) = apply_writes (trace (bc s)) d;
  mo_geo : geometry (lg s) st sz;
  mo_lh : lh_n (lg s) = 0;
  mo_ops : outstanding (lg s) = 0 ∧ committing (lg s) = false;
  mo_cache : cache_inv (bc s) (disk (bc s)) (dropped (head_blocks (d st))) ∅ ∅
}.

Lemma wp_mount st sz d (Q : unit → sys → Prop) :
  0 ≤ st ∧ 1 ≤ sz ∧ st + sz < 2 ^ 31 → log_ok st sz d →
  (∀ s', mounted st sz d s' → Q tt s') → wp (mount st sz) Q (boot d).
Proof.
  intros Hrg [Hfit Hn0] HQ. unfold mount. wp_step. apply wp_on_bio.
  eapply wp_binit; [done|]. intros g Hf. pose proof (fresh_cache_inv (bc (boot d)) g Hf) as Hc.
  unfold initlog. destruct (Z.geb_spec (4 + 4 * LOGSIZE) BSIZE) as [Hbig|_]; [vm_compute in Hbig; done|].
  unfold upd_log. wp_step. wp_step. cbn [bc lg] in *.
  unfold recover_from_log. wp_step.
  eapply (wp_read_head st sz); [done|done|done|done|]. cbn [bc lg].
  intros b1 l1 Hc1 Hd1 Ht1 Hp1 Hgeo1 Hlh1 Hops. set (L := head_blocks (disk (bc (boot d)) st)) in *.
  change (log_fits st sz L) in Hfit. pose proof (lf_len _ _ _ Hfit) as Hlen. unfold NBUF in Hlen.
  wp_step. eapply (wp_install_trans st sz L Hfit _ _ (λ k, dropped (take k L))); [done|done| | | |].
  { rewrite take_0. change (dropped []) with (∅ : gmap Z Z). done. }
  { intros k m. rewrite dom_dropped, elem_of_list_to_set. intros Hm.
    apply (lf_home _ _ _ Hfit). by eapply subseteq_take. }
  { intros k c Hk. right. destruct (dropped_insert L k c (lf_nodup _ _ _ Hfit) Hk) as [? ?].
    split_and!; [done|done|]. rewrite dom_dropped, size_list_to_set.
    - apply lookup_lt_Some in Hk. rewrite length_take. lia.
    - eapply sublist_NoDup; [apply Hfit|apply sublist_take]. }
  cbn [bc lg]. intros b2 [Hc2 Hd2 Ht2 Hp2].
  rewrite take_ge in Hc2, Hd2, Ht2 by (unfold home_writes; by rewrite length_imap).
  rewrite take_ge in Hc2 by done.
  wp_step. unfold upd_log. wp_step.
  eapply (wp_write_head st sz); [by destruct Hgeo1|done| |].
  { rewrite dom_dropped. apply (size_L st sz L Hfit). }
  cbn [bc lg]. set (h0 := encode_head _ _). intros b3 Hc3 Hd3 Ht3 Hp3. apply HQ.
  assert (trace b3 = recover_writes st d h0) as Htr.
  { rewrite Ht3, Ht2, Ht1. done. }
  assert (disk b3 = apply_writes (trace b3) d) as Hdk.
  { rewrite Hd3, Hd2, Hd1, Htr. unfold recover_writes. by rewrite apply_writes_app. }
  split; cbn [bc lg].
  - exists h0. split; [apply head_n_encode; simpl; lia|done].
  - done.
  - by destruct Hgeo1.
  - done.
  - done.
  - rewrite Hd3, Hd2, Hd1. done.
Qed.

#[global] Opaque mount commit.

(** * Claims *)

(** C10: recovery. For every disk whose log has the on-disk format, the boot
    sequence ([binit], then [initlog]) terminates without panicking. At every
    point of its sequence of disk writes the disk has the log format and means
    what it meant before, so a crash during recovery loses nothing; at the end
    the log is empty and every home block holds what the disk meant. *)
Theorem recovery_installs_committed st sz d :
  0 ≤ st ∧ 1 ≤ sz ∧ st + sz < 2 ^ 31 → log_ok st sz d →
  ∃ s, mount st sz (boot d) = Ret tt s ∧
    (∀ k, let d' := apply_writes (take k (trace (bc s))) d in
       log_ok st sz d' ∧ ∀ b, home st sz b → contents st d' b = contents st d b) ∧
    head_n (disk (bc s) st) = 0 ∧ ∀ b, home st sz b → disk (bc s) b = contents st d b.
Proof.
  intros Hrg Hok.
  assert (wp (mount st sz) (λ _ s', mounted st sz d s') (boot d)) as Hwp by (apply wp_mount; done).
  apply wp_inv in Hwp as ([] & s & E & [(h0 & Hh0 & Htr) Hdk _ _ _ _]).
  exists s. split; [exact E|]. clear E. split.
  - intros k. rewrite Htr. destruct (recover_prefix st sz ltac:(lia) d h0 k Hok Hh0) as (? & ? & _). done.
  - rewrite Hdk, Htr.
    destruct (recover_prefix st sz ltac:(lia) d h0 (length (recover_writes st d h0)) Hok Hh0) as (_ & _ & Hend).
    rewrite take_ge in Hend by done. by apply Hend.
Qed.

Lemma crash_step_contents st sz d d' :
  0 ≤ st ∧ 1 ≤ sz ∧ st + sz < 2 ^ 31 → log_ok st sz d → crash_step st sz d d' →
  log_ok st sz d' ∧ ∀ b, home st sz b → contents st d' b = contents st d b.
Proof.
  intros Hrg Hok (s & k & E & ->).
  assert (wp (mount st sz) (λ _ s', mounted st sz d s') (boot d)) as Hwp by (apply wp_mount; done).
  unfold wp in Hwp. rewrite E in Hwp. clear E. destruct Hwp as [(h0 & Hh0 & Htr) _ _ _ _ _].
  rewrite Htr. destruct (recover_prefix st sz ltac:(lia) d h0 k Hok Hh0) as (? & ? & _). done.
Qed.

Lemma crashes_contents st sz d d' :
  0 ≤ st ∧ 1 ≤ sz ∧ st + sz < 2 ^ 31 → log_ok st sz d → rtc (crash_step st sz) d d' →
  log_ok st sz d' ∧ ∀ b, home st sz b → contents st d' b = contents st d b.
Proof.
  intros Hrg Hok Hr. induction Hr as [|d d1 d2 Hs Hr IH]; [done|].
  destruct (crash_step_contents st sz d d1 Hrg Hok Hs) as [Hok1 Hc1].
  destruct (IH Hok1) as [Hok2 Hc2]. split; [done|]. intros b Hb. by rewrite Hc2, Hc1.
Qed.

(** C1: a transaction is atomic. [commit] of the logged blocks [L] terminates
    without panicking. Suppose the machine crashes after any number [k] of its
    disk writes (all of them included), recovery itself crashes any number of
    times, and then one recovery completes. Then the home blocks hold the
    contents from before the transaction if the header had not been written
    ([k] at most the number of logged blocks), and otherwise those of the
    transaction: all of its blocks, and never a mixture. *)
Theorem commit_atomic st sz V L s :
  txn_inv st sz V L s → L ≠ [] →
  ∃ s' ws, commit s = Ret tt s' ∧ trace (bc s') = trace (bc s) ++ ws ∧
    ∀ k d2, rtc (crash_step st sz) (apply_writes (take k ws) (disk (bc s))) d2 →
    ∃ s2, mount st sz (boot d2) = Ret tt s2 ∧
      ∀ b, home st sz b →
        disk (bc s2) b = if decide (k ≤ length L)%nat then disk (bc s) b else view (bc s) b.
Proof.
  intros Hinv HL. pose proof Hinv as [Hgeo Hlh Hfit Hc Hh].
  set (h1 := encode_head (lg s) (V st)). set (h0 := encode_head (clear_lh (lg s)) h1).
  assert (wp commit (λ _ s', trace (bc s') = trace (bc s) ++ commit_writes st L V h1 h0) s) as Hwp.
  { by eapply wp_commit. }
  apply wp_inv in Hwp as ([] & s' & E & Htr).
  exists s', (commit_writes st L V h1 h0). split; [exact E|]. split; [exact Htr|]. clear E Htr.
  intros k d2 Hcr. pose proof (ge_range _ _ _ Hgeo) as Hrg.
  pose proof (lf_len _ _ _ Hfit) as Hlen. unfold NBUF in Hlen.
  destruct (commit_prefix st sz ltac:(lia) L V h1 h0 (disk (bc s)) k Hfit Hh) as [Hok Hcon].
  - apply head_blocks_encode; [done| |lia]. intros b Hb. by apply (lf_home _ _ _ Hfit).
  - unfold h1. rewrite head_n_encode; rewrite (lh_len _ _ Hlh); lia.
  - apply head_n_clear.
  - intros b Hb _. apply (ci_disk _ _ _ _ _ Hc); [set_solver|].
    by rewrite lookup_pins, decide_False.
  - destruct (crashes_contents st sz _ d2 Hrg Hok Hcr) as [Hok2 Hcon2].
    assert (wp (mount st sz) (λ _ s', mounted st sz d2 s') (boot d2)) as Hwp by (apply wp_mount; done).
    apply wp_inv in Hwp as ([] & s2 & E2 & [(h2 & Hh2 & Htr2) Hdk2 _ _ _ _]).
    exists s2. split; [exact E2|]. clear E2. intros b Hb. rewrite Hdk2, Htr2.
    destruct (recover_prefix st sz ltac:(lia) d2 h2 (length (recover_writes st d2 h2)) Hok2 Hh2)
      as (_ & _ & Hend).
    rewrite take_ge in Hend by done. destruct (Hend ltac:(done)) as [_ ->]; [|done].
    rewrite Hcon2, Hcon by done. case_decide; [done|]. symmetry. apply (view_cache Hc).
Qed.
