(* ===== verification/Txn.v ===== *)
(** * Transactions: the log as its clients use it

    [op_inv] is the invariant between [begin_op] and [end_op]; the rules below
    are what the file system relies on, packaged as the interface [BlockStore]
    which the log implements.  The reservation of [begin_op] is a step relation
    over several running operations.  Three defects of the code are shown by
    execution: recovery leaves reference counts one too low, the log that mkfs
    lays out is one block smaller than [begin_op] assumes, and [log_write] of a
    block that is in the log already panics if the log is full. *)

From S2P Require Import Prelude Machine Bio Cache Log.

(** ** The interface *)

(** A store of blocks with transactions.  [bs_inv V L H D s]: every block has
    contents [V], the transaction has logged [L], the running thread holds the
    blocks [H] (with their handles), of which [D] have changes that are not
    logged yet.  [bs_home] are the blocks that may be logged and [bs_room] is
    the number of blocks a transaction may log. *)
Class BlockStore (S : Type) := {
  bs_bread : Z → Z → M S Z;
  bs_brelse : Z → M S unit;
  bs_log_write : Z → M S unit;
  bs_get : Z → M S block;
  bs_put : Z → block → M S unit;
  bs_inv : (Z → block) → list Z → gmap Z Z → gset Z → S → Prop;
  bs_home : Z → Prop;
  bs_room : nat;
  bs_room_ok : (bs_room < 30)%nat;
  bs_dirty V L H D s : bs_inv V L H D s → D ⊆ dom H;
  bs_bread_ok V L H D s n (Q : Z → S → Prop) :
    bs_inv V L H D s → 0 ≤ n < 2 ^ 31 → n ∉ dom H →
    (length L + size H < 30)%nat →
    (∀ b s', bs_inv V L (<[n := b]> H) D s' → Q b s') → wp (bs_bread ROOTDEV n) Q s;
  bs_get_ok V L H D s n b (Q : block → S → Prop) :
    bs_inv V L H D s → H !! n = Some b → Q (V n) s → wp (bs_get b) Q s;
  bs_put_ok V L H D s n b x (Q : unit → S → Prop) :
    bs_inv V L H D s → H !! n = Some b →
    (∀ s', bs_inv (fset V n x) L H ({[n]} ∪ D) s' → Q tt s') → wp (bs_put b x) Q s;
  bs_put_same V L H D s n b (Q : unit → S → Prop) :
    bs_inv V L H D s → H !! n = Some b → (∀ s', bs_inv V L H D s' → Q tt s') → wp (bs_put b (V n)) Q s;
  bs_log_write_ok V L H D s n b (Q : unit → S → Prop) :
    bs_inv V L H D s → H !! n = Some b → bs_home n → (length L < bs_room)%nat →
    (∀ s', bs_inv V (if decide (n ∈ L) then L else L ++ [n]) H (D ∖ {[n]}) s' → Q tt s') →
    wp (bs_log_write b) Q s;
  bs_brelse_ok V L H D s n b (Q : unit → S → Prop) :
    bs_inv V L H D s → H !! n = Some b → n ∉ D →
    (∀ s', bs_inv V L (delete n H) D s' → Q tt s') → wp (bs_brelse b) Q s
}.

(** ** The log implements it *)

Record op_inv (st sz : Z) (V : Z → block) (L : list Z) (H : gmap Z Z) (D : gset Z) (s : sys)
    : Prop := {
  oi_geo : geometry (lg s) st sz;
  oi_lh : lh_is (lg s) L;
  oi_fits : log_fits st sz L;
  oi_cache : cache_inv (bc s) V (pins L) H D;
  oi_head : head_n (disk (bc s) st) = 0;
  oi_ops : 1 ≤ outstanding (lg s) ∧ committing (lg s) = false
}.

(** * Lemmas *)

Section rules.
Context {st sz : Z} {V : Z → block} {L : list Z} {H : gmap Z Z} {D : gset Z} {s : sys}.
Context (Hinv : op_inv st sz V L H D s).

Lemma op_bio b V' H' D' :
  cache_inv b V' (pins L) H' D' → disk b = disk (bc s) → op_inv st sz V' L H' D' (Sys b (lg s)).
Proof. intros Hc Hd. destruct Hinv. split; simpl; rewrite ?Hd; done. Qed.

Lemma wp_op_bread n (Q : Z → sys → Prop) :
  n ∉ dom H → (length L + size H < 30)%nat →
  (∀ b s', op_inv st sz V L (<[n := b]> H) D s' → Q b s') →
  wp (on_bio (bread ROOTDEV n)) Q s.
Proof.
  intros Hn Hsz HQ. apply wp_on_bio.
  eapply (wp_cache_bread (oi_cache _ _ _ _ _ _ _ Hinv)); [done| | |].
  - intros m _. rewrite lookup_pins. by case_decide.
  - right. rewrite dom_pins.
    assert (size (list_to_set L ∪ dom H : gset Z) ≤ length L + size H)%nat; [|lia].
    etrans; [|apply Nat.add_le_mono; [reflexivity|by rewrite <-size_dom]].
    rewrite size_union_alt, size_list_to_set by apply (oi_fits _ _ _ _ _ _ _ Hinv).
    apply Nat.add_le_mono_l. apply subseteq_size. set_solver.
  - intros b g s' Hc _. apply HQ. by apply op_bio.
Qed.

Context {n b : Z} (Hheld : H !! n = Some b).

Lemma wp_op_get (Q : block → sys → Prop) : Q (V n) s → wp (x ← on_bio (getb b); mret (data x)) Q s.
Proof.
  intros HQ. bio_step. unfold getb. wp_run.
  rewrite (held_data (oi_cache _ _ _ _ _ _ _ Hinv) Hheld). by destruct s.
Qed.

Lemma wp_op_put x (Q : unit → sys → Prop) :
  (∀ s', op_inv st sz (fset V n x) L H ({[n]} ∪ D) s' → Q tt s') →
  wp (on_bio (updb b (set_data x))) Q s.
Proof.
  intros HQ. apply wp_on_bio. eapply (wp_cache_store (oi_cache _ _ _ _ _ _ _ Hinv)); [done|].
  intros g s' Hc. apply HQ. by apply op_bio.
Qed.

Lemma wp_op_put_same (Q : unit → sys → Prop) :
  (∀ s', op_inv st sz V L H D s' → Q tt s') → wp (on_bio (updb b (set_data (V n)))) Q s.
Proof.
  intros HQ. apply wp_on_bio. eapply (wp_cache_store_same (oi_cache _ _ _ _ _ _ _ Hinv)); [done|].
  intros g s' Hc. apply HQ. by apply op_bio.
Qed.

Lemma wp_op_brelse (Q : unit → sys → Prop) :
  n ∉ D → (∀ s', op_inv st sz V L (delete n H) D s' → Q tt s') → wp (on_bio (brelse b)) Q s.
Proof.
  intros Hn HQ. apply wp_on_bio. eapply (wp_cache_brelse (oi_cache _ _ _ _ _ _ _ Hinv)); [done|done|].
  intros g s' Hc. apply HQ. by apply op_bio.
Qed.

(** Where [log_write] puts the block: its old slot, or the end. *)
Lemma log_slot_spec :
  0 ≤ n < 2 ^ 31 →
  (∃ i, L !! i = Some n ∧ log_slot (lg s) n = Z.of_nat i) ∨
  (n ∉ L) ∧ log_slot (lg s) n = Z.of_nat (length L).
Proof.
  intros Hn. destruct Hinv as [_ [Hlen Hat] Hfit _ _ _].
  assert (∀ i m, L !! i = Some m → u32 (lh_block (lg s) (Z.of_nat i)) = m) as Hu.
  { intros i m Hi. rewrite (Hat i m Hi). apply u32_small.
    apply list_elem_of_lookup_2 in Hi. apply (lf_home _ _ _ Hfit) in Hi. lia. }
  unfold log_slot. rewrite Hlen.
  destruct (first_such _ _) as [i|] eqn:E.
  - left. apply first_such_Some in E as [Hi%elem_of_seqZ Hp].
    destruct (lookup_lt_is_Some_2 L (Z.to_nat i) ltac:(lia)) as [m Hm].
    pose proof (Hu _ _ Hm) as Hum. rewrite Z2Nat.id in Hum by lia.
    exists (Z.to_nat i). rewrite Hm. split; [f_equal; lia|lia].
  - right. split; [|done]. intros Hin. apply list_elem_of_lookup in Hin as [i Hi].
    rewrite first_such_None in E. specialize (E (Z.of_nat i)). rewrite elem_of_seqZ, (Hu _ _ Hi) in E.
    apply lookup_lt_Some in Hi. specialize (E ltac:(lia)). lia.
Qed.

Lemma wp_op_log_write (Q : unit → sys → Prop) :
  home st sz n → 0 ≤ n < 2 ^ 31 → Z.of_nat (length L) < Z.min 29 (sz - 1) →
  (∀ s', op_inv st sz V (if decide (n ∈ L) then L else L ++ [n]) H (D ∖ {[n]}) s' → Q tt s') →
  wp (log_write b) Q s.
Proof.
  intros Hhome Hn Hroom HQ. pose proof Hinv as [Hgeo [Hlen Hat] Hfit Hc Hh [Ho Hcm]].
  unfold log_write. wp_step. wp_step. rewrite Hlen, (ge_size _ _ _ Hgeo).
  destruct (Z.geb_spec (Z.of_nat (length L)) LOGSIZE) as [Hbad|_].
  { unfold LOGSIZE, MAXOPBLOCKS in Hbad. lia. }
  destruct (Z.geb_spec (Z.of_nat (length L)) (sz - 1)); [lia|]. simpl.
  destruct (Z.ltb_spec (outstanding (lg s)) 1); [lia|].
  bio_step. unfold getb. wp_step. rewrite (held_blockno Hc Hheld). cbv zeta.
  unfold upd_log. wp_step. wp_step. cbn [bc lg].
  destruct (log_slot_spec Hn) as [(i & Hi & ->)|[HnL ->]].
  - pose proof (lookup_lt_Some _ _ _ Hi). destruct (Z.eqb_spec (Z.of_nat i) (Z.of_nat (length L))); [lia|].
    wp_run. apply HQ. rewrite decide_True by (by eapply list_elem_of_lookup_2).
    assert (∀ D', D' = D ∖ {[n]} → cache_inv (bc s) V (pins L) H D') as Hc'.
    { intros D' ->. destruct Hc. split; try done.
      - intros m Hm Hp. apply ci_disk; [|done]. destruct (decide (m = n)) as [->|]; [|set_solver].
        rewrite lookup_pins, decide_True in Hp by (by eapply list_elem_of_lookup_2). done.
      - intros m Hm. apply ci_dirty. set_solver. }
    split; simpl; [by destruct Hgeo|split; simpl; [done|]|done|by apply Hc'|done|done].
    intros j m Hj. destruct (decide (i = j)) as [<-|Hij].
    + rewrite fset_eq. rewrite Hi in Hj. injection Hj as <-. apply s32_small. lia.
    + rewrite fset_ne by lia. by apply Hat.
  - rewrite Z.eqb_refl. bio_step.
    eapply (wp_cache_bpin Hc); [done|by rewrite lookup_pins, decide_False|].
    intros g s' Hc'. wp_step. apply HQ. rewrite decide_False by done.
    split; simpl; [by destruct Hgeo|split; simpl|..].
    + rewrite length_app. simpl. lia.
    + intros j m Hj. apply lookup_app_Some in Hj as [Hj|[Hge Hj]].
      * rewrite fset_ne by (apply lookup_lt_Some in Hj; lia). by apply Hat.
      * apply list_lookup_singleton_Some in Hj as [Hj <-].
        replace j with (length L) by lia. rewrite fset_eq. apply s32_small. lia.
    + destruct Hfit as [Hnd Hho Hle]. split.
      * apply NoDup_app. split_and!; [done| |apply NoDup_singleton].
        intros x Hx ->%list_elem_of_singleton. done.
      * intros x. rewrite elem_of_app, list_elem_of_singleton. intros [?| ->]; [auto|done].
      * rewrite length_app. simpl. unfold NBUF in *. lia.
    + replace (pins (L ++ [n])) with (<[n := 1]> (pins L)); [done|]. apply map_eq. intros m.
      rewrite lookup_insert, !lookup_pins. destruct (decide (n = m)) as [->|Hne].
      * rewrite decide_True; [done|]. rewrite elem_of_app. right. by left.
      * apply decide_ext. rewrite elem_of_app, list_elem_of_singleton. naive_solver.
    + done.
    + done.
Qed.

End rules.

#[refine] Instance log_store (st sz : Z) : BlockStore sys := {|
  bs_bread d n := on_bio (bread d n);
  bs_brelse b := on_bio (brelse b);
  bs_log_write := log_write;
  bs_get b := x ← on_bio (getb b); mret (data x);
  bs_put b x := on_bio (updb b (set_data x));
  bs_inv := op_inv st sz;
  bs_home n := home st sz n ∧ 0 ≤ n < 2 ^ 31;
  bs_room := Z.to_nat (Z.min 29 (sz - 1))
|}.
Proof.
  - lia.
  - intros V L H D s [_ _ _ Hc _ _] n Hn. by apply (ci_dirty _ _ _ _ _ Hc).
  - intros V L H D s n Q Hinv _ Hn Hsz HQ. by eapply (wp_op_bread Hinv).
  - intros V L H D s n b Q Hinv Hh HQ. by eapply (wp_op_get Hinv).
  - intros V L H D s n b x Q Hinv Hh HQ. by eapply (wp_op_put Hinv).
  - intros V L H D s n b Q Hinv Hh HQ. by eapply (wp_op_put_same Hinv).
  - intros V L H D s n b Q Hinv Hh [Hho Hn] Hr HQ. eapply (wp_op_log_write Hinv); [done|done|done|lia|done].
  - intros V L H D s n b Q Hinv Hh Hn HQ. by eapply (wp_op_brelse Hinv).
Defined.

(** ** Several operations at once *)

(** Code that leaves the in-memory log alone. *)
Definition keeps_log {A} (m : M sys A) : Prop := ∀ s a s', m s = Ret a s' → lg s' = lg s.

Lemma keeps_log_on_bio {A} (m : M bio A) : keeps_log (on_bio m).
Proof. intros s a s'. unfold on_bio, zoom. destruct (m (bc s)); naive_solver. Qed.

Lemma keeps_log_bind {A B} (m : M sys A) (f : A → M sys B) :
  keeps_log m → (∀ a, keeps_log (f a)) → keeps_log (m ≫= f).
Proof.
  intros Hm Hf s b s' (a & s1 & E1 & E2)%bind_Ret_inv. by rewrite (Hf _ _ _ _ E2), (Hm _ _ _ E1).
Qed.

Lemma keeps_log_gets {A} (f : sys → A) : keeps_log (gets f).
Proof. intros s a s' [= _ <-]. done. Qed.

Lemma keeps_log_for_each {A} (l : list A) (f : A → M sys unit) :
  (∀ x, keeps_log (f x)) → keeps_log (for_each l f).
Proof.
  intros Hf. induction l as [|x l IH]; simpl; [by intros s a s' [= _ <-]|].
  apply keeps_log_bind; [apply Hf|]. intros []. apply IH.
Qed.

Create HintDb keeps_log.
#[local] Hint Resolve keeps_log_on_bio keeps_log_bind keeps_log_gets keeps_log_for_each : keeps_log.
Ltac solve_keeps_log := repeat (apply keeps_log_bind; intros; eauto with keeps_log); eauto with keeps_log.

Lemma keeps_log_write_log : keeps_log write_log.
Proof. unfold write_log. apply keeps_log_bind; [auto with keeps_log|]. intros l. apply keeps_log_for_each. intros. solve_keeps_log. Qed.

Lemma keeps_log_install_trans : keeps_log install_trans.
Proof. unfold install_trans. apply keeps_log_bind; [auto with keeps_log|]. intros l. apply keeps_log_for_each. intros. solve_keeps_log. Qed.

Lemma keeps_log_write_head : keeps_log write_head.
Proof. unfold write_head. solve_keeps_log. Qed.

#[global] Transparent commit.
Lemma commit_log s s' : commit s = Ret tt s' → 0 ≤ lh_n (lg s) → lg s' = set_lh 0 (lh_block (lg s)) (lg s).
Proof.
  unfold commit. intros (l & s0 & [= <- <-] & E)%bind_Ret_inv Hn.
  destruct (Z.gtb_spec (lh_n (lg s)) 0).
  - apply bind_Ret_inv in E as ([] & s1 & E1 & E). apply bind_Ret_inv in E as ([] & s2 & E2 & E).
    apply bind_Ret_inv in E as ([] & s3 & E3 & E). apply bind_Ret_inv in E as ([] & s4 & [= <-] & E).
    rewrite (keeps_log_write_head _ _ _ E). simpl. rewrite (keeps_log_install_trans _ _ _ E3).
    by rewrite (keeps_log_write_head _ _ _ E2), (keeps_log_write_log _ _ _ E1).
  - injection E as <-. assert (lh_n (lg s) = 0) as E0 by lia. unfold set_lh. rewrite <-E0. by destruct (lg s).
Qed.

Lemma commit_empty s : lh_n (lg s) = 0 → commit s = Ret tt s.
Proof. intros E. unfold commit. erewrite bind_Ret by done. by rewrite E. Qed.
#[global] Opaque commit.

(** Block [n] is in the log. *)
Definition logged (l : log) (n : Z) : Prop := ∃ i, 0 ≤ i < lh_n l ∧ u32 (lh_block l i) = n.

(** A system with running operations: [W] are the blocks that each of them has
    logged.  No operation logs more than [MAXOPBLOCKS] blocks, but it may log a
    block as often as it likes; several operations may log the same block.  The
    operations use the buffer cache in any way. *)
Inductive ops_step : sys * list (gset Z) → sys * list (gset Z) → Prop :=
| step_begin s W s' : begin_op s = Ret tt s' → ops_step (s, W) (s', ∅ :: W)
| step_write s W i w b s' :
    let n := blockno (bufs (bc s) b) in
    W !! i = Some w → 0 ≤ n < 2 ^ 32 → Z.of_nat (size ({[n]} ∪ w)) ≤ MAXOPBLOCKS → log_write b s = Ret tt s' →
    ops_step (s, W) (s', <[i := {[n]} ∪ w]> W)
| step_end s W i s' : is_Some (W !! i) → end_op s = Ret tt s' → ops_step (s, W) (s', delete i W)
| step_bio s W (m : M bio unit) s' : on_bio m s = Ret tt s' → ops_step (s, W) (s', W).

(** The space that an operation has reserved and not used. *)
Definition unused (w : gset Z) : Z := MAXOPBLOCKS - Z.of_nat (size w).
Definition reserved (W : list (gset Z)) : Z := foldr (λ w r, unused w + r) 0 W.

Record ops_inv (sz : Z) (st : sys * list (gset Z)) : Prop := {
  op_size : log_size (lg st.1) = sz;
  op_out : outstanding (lg st.1) = Z.of_nat (length st.2);
  op_com : committing (lg st.1) = false;
  op_w : Forall (λ w, 0 ≤ unused w) st.2;
  op_n : 0 ≤ lh_n (lg st.1);
  op_res : lh_n (lg st.1) + reserved st.2 ≤ LOGSIZE;
  op_logged w n : w ∈ st.2 → n ∈ w → logged (lg st.1) n
}.

Lemma reserved_bound W : Forall (λ w, 0 ≤ unused w) W → 0 ≤ reserved W ≤ Z.of_nat (length W) * MAXOPBLOCKS.
Proof.
  induction 1 as [|w W]; cbn [reserved foldr length]; [lia|]. change (foldr _ 0 W) with (reserved W). unfold unused in *. lia.
Qed.

Lemma reserved_lookup W i w : W !! i = Some w →
  reserved (delete i W) = reserved W - unused w ∧ ∀ v, reserved (<[i := v]> W) = reserved W - unused w + unused v.
Proof.
  revert i. induction W as [|x W IH]; intros i; [done|]. destruct i as [|i]; cbn.
  - intros [= ->]. change (foldr _ 0 W) with (reserved W). split; [|intros v]; lia.
  - intros Hi. destruct (IH i Hi) as [H1 H2]. change (foldr _ 0 W) with (reserved W).
    change (foldr _ 0 (delete i W)) with (reserved (delete i W)). split; [lia|].
    intros v. change (foldr _ 0 (<[i:=v]> W)) with (reserved (<[i:=v]> W)). rewrite H2. lia.
Qed.

(** [log_write] records the block, in a new place only if it is not in the log. *)
Lemma log_slot_cases l n : 0 ≤ lh_n l → (logged l n ∧ 0 ≤ log_slot l n < lh_n l) ∨ (¬ logged l n ∧ log_slot l n = lh_n l).
Proof.
  intros Hn. unfold log_slot. destruct (first_such _ _) as [i|] eqn:E.
  - left. apply first_such_Some in E as [Hi%elem_of_seqZ Ei%Z.eqb_eq]. split; [exists i; split; [lia|done]|lia].
  - right. split; [|done]. intros (i & Hi & Ei). pose proof (proj1 (first_such_None _ _) E i ltac:(apply elem_of_seqZ; lia)) as Hf.
    simpl in Hf. by rewrite Ei, Z.eqb_refl in Hf.
Qed.

Lemma log_write_log b s s' : let n := blockno (bufs (bc s) b) in
  log_write b s = Ret tt s' → 0 ≤ lh_n (lg s) → 0 ≤ n < 2 ^ 32 →
  ∃ blk m, lg s' = set_lh m blk (lg s) ∧
    (m = lh_n (lg s) ∧ logged (lg s) n ∨ m = lh_n (lg s) + 1 ∧ ¬ logged (lg s) n) ∧
    logged (lg s') n ∧ ∀ n', logged (lg s) n' → logged (lg s') n'.
Proof.
  intros n E Hn Hr. unfold log_write, on_bio, zoom, getb, mbind, M_bind, gets, upd_log, modify, bpin, updb in E. simpl in E.
  destruct (_ || _); [done|]. destruct (_ <? 1); [done|]. fold n in E.
  assert (∀ m i, lh_n (lg s) ≤ m → 0 ≤ i < m → (i = log_slot (lg s) n) →
    let l := set_lh m (fset (lh_block (lg s)) i (s32 n)) (lg s) in
    logged l n ∧ ((i < lh_n (lg s) → u32 (lh_block (lg s) i) = n) → ∀ n', logged (lg s) n' → logged l n')) as Hrec.
  { intros m i Hm Hi Es l. split; [exists i; simpl; rewrite fset_eq, u32_s32, u32_small by lia; done|].
    intros Hsame n' (j & Hj & Ej). exists j. simpl. split; [lia|]. unfold fset. destruct (Z.eqb_spec j i) as [->|]; [|done].
    rewrite u32_s32, u32_small by lia. rewrite <-Ej. symmetry. apply Hsame. lia. }
  assert (log_slot (lg s) n < lh_n (lg s) → u32 (lh_block (lg s) (log_slot (lg s) n)) = n) as Hat.
  { unfold log_slot. destruct (first_such _ _) as [i|] eqn:Ef; [|lia]. intros _. apply first_such_Some in Ef as [_ Ei%Z.eqb_eq]. done. }
  destruct (log_slot_cases (lg s) n Hn) as [[Hl Hs]|[Hl Hs]].
  - destruct (Z.eqb_spec (log_slot (lg s) n) (lh_n (lg s))); [lia|]. injection E as <-. simpl.
    destruct (Hrec (lh_n (lg s)) (log_slot (lg s) n)) as [H1 H2]; [lia|lia|done|].
    eexists _, _. split; [done|]. split; [by left|]. split; [exact H1|by apply H2].
  - rewrite Hs, Z.eqb_refl in E. injection E as <-. simpl. rewrite Hs in *.
    destruct (Hrec (lh_n (lg s) + 1) (lh_n (lg s))) as [H1 H2]; [lia|lia|done|].
    eexists _, _. split; [done|]. split; [by right|]. split; [exact H1|by apply H2].
Qed.

Lemma end_op_log s s' :
  end_op s = Ret tt s' → 0 ≤ lh_n (lg s) →
  committing (lg s) = false ∧ committing (lg s') = false ∧
  outstanding (lg s') = outstanding (lg s) - 1 ∧
  lh_n (lg s') = (if outstanding (lg s) - 1 =? 0 then 0 else lh_n (lg s)) ∧
  log_size (lg s') = log_size (lg s) ∧ lh_block (lg s') = lh_block (lg s).
Proof.
  unfold end_op. intros ([] & s1 & [= <-] & E)%bind_Ret_inv Hn.
  apply bind_Ret_inv in E as (l & s2 & [= <- <-] & E). simpl in E.
  destruct (committing (lg s)) eqn:Ec; [done|]. split; [done|].
  destruct (Z.eqb_spec (outstanding (lg s) - 1) 0) as [E0|E0].
  - apply bind_Ret_inv in E as ([] & s3 & [= <-] & E). apply bind_Ret_inv in E as ([] & s4 & E4 & E).
    apply bind_Ret_inv in E as ([] & s5 & [= <-] & [= <-]).
    apply commit_log in E4; [|done]. simpl in *. rewrite E4. simpl. split_and!; [done|lia|done|done|done].
  - injection E as <-. done.
Qed.

Lemma logged_lg l l' n : lh_n l' = lh_n l → lh_block l' = lh_block l → logged l n → logged l' n.
Proof. intros E1 E2. unfold logged. by rewrite E1, E2. Qed.

(** A block more, or the same ones. *)
Lemma unused_add n w : unused ({[n]} ∪ w) = if decide (n ∈ w) then unused w else unused w - 1.
Proof.
  unfold unused. case_decide.
  - by rewrite (subseteq_union_1_L {[n]} w) by set_solver.
  - rewrite size_union, size_singleton by set_solver. lia.
Qed.

Lemma begin_step_inv sz s W s' : begin_op s = Ret tt s' → ops_inv sz (s, W) → ops_inv sz (s', ∅ :: W).
Proof.
  intros E [Hz Ho Hc HW Hn Hr Hl]. simpl in *.
  unfold begin_op in E. apply bind_Ret_inv in E as (l & s0 & [= <- <-] & E). rewrite Hc in E.
  destruct (Z.gtb_spec (lh_n (lg s) + (outstanding (lg s) + 1) * MAXOPBLOCKS) LOGSIZE); [done|].
  injection E as <-. pose proof (reserved_bound W HW). assert (unused ∅ = MAXOPBLOCKS) as Eu by done.
  split; simpl; [done|lia|done| |done| |].
  - constructor; [rewrite Eu; unfold MAXOPBLOCKS; lia|done].
  - change (foldr _ 0 W) with (reserved W). lia.
  - intros w n [->|Hw]%elem_of_cons Hnw; [set_solver|]. by apply (Hl w).
Qed.

Lemma write_step_inv sz s W i w b s' : let n := blockno (bufs (bc s) b) in
  W !! i = Some w → 0 ≤ n < 2 ^ 32 → Z.of_nat (size ({[n]} ∪ w)) ≤ MAXOPBLOCKS → log_write b s = Ret tt s' →
  ops_inv sz (s, W) → ops_inv sz (s', <[i := {[n]} ∪ w]> W).
Proof.
  intros n Hi Hrg Hw E [Hz Ho Hc HW Hn Hr Hl]. simpl in *. destruct (log_write_log b s s' E Hn Hrg) as (blk & m & El & Hm & Hln & Hk).
  fold n in Hm, Hln. destruct (reserved_lookup W i w Hi) as [_ Hres]. specialize (Hres ({[n]} ∪ w)). rewrite unused_add in Hres.
  assert (n ∈ w → logged (lg s) n) as Hnw by (apply Hl; by eapply list_elem_of_lookup_2).
  split; simpl; [by rewrite El|rewrite El, length_insert; done|by rewrite El| |rewrite El; simpl; lia| |].
  - apply Forall_insert; [done|]. unfold unused. lia.
  - rewrite Hres, El. simpl. case_decide as Hd; destruct Hm as [[-> Hlg]|[-> Hlg]]; try lia. by destruct Hlg; apply Hnw.
  - intros v n' Hv Hn'. apply list_elem_of_lookup in Hv as [j Hj]. destruct (decide (j = i)) as [->|Hne].
    + rewrite list_lookup_insert_eq in Hj by (by eapply lookup_lt_Some). injection Hj as <-.
      apply elem_of_union in Hn' as [->%elem_of_singleton|Hn']; [done|]. apply Hk, (Hl w); [by eapply list_elem_of_lookup_2|done].
    + rewrite list_lookup_insert_ne in Hj by done. apply Hk, (Hl v); [by eapply list_elem_of_lookup_2|done].
Qed.

Lemma end_step_inv sz s W i s' : is_Some (W !! i) → end_op s = Ret tt s' → ops_inv sz (s, W) → ops_inv sz (s', delete i W).
Proof.
  intros [w Hi] E [Hz Ho Hc HW Hn Hr Hl]. simpl in *. apply end_op_log in E as (_ & Ec & Eo & En & Es & Eb); [|done].
  destruct (reserved_lookup W i w Hi) as [Hres _].
  assert (Forall (λ w, 0 ≤ unused w) (delete i W)) as HW' by (by apply Forall_delete).
  pose proof (Forall_lookup_1 _ _ _ _ HW Hi) as Hw. simpl in Hw.
  pose proof (length_delete W i ltac:(by eexists)) as Hlen.
  assert (0 < length W)%nat by (apply lookup_lt_Some in Hi; lia).
  assert (outstanding (lg s) - 1 = 0 → delete i W = []) as Hlast.
  { intros E1. assert (length (delete i W) = 0%nat) as E0 by lia. by destruct (delete i W). }
  split; simpl; [by rewrite Es|rewrite Eo, Ho, Hlen; lia|done|done| | |].
  - rewrite En. by case_match.
  - rewrite En. destruct (Z.eqb_spec (outstanding (lg s) - 1) 0) as [E0|]; [|lia]. rewrite Hlast by done. by vm_compute.
  - intros v n Hv Hnv. destruct (Z.eqb_spec (outstanding (lg s) - 1) 0) as [E0|]; [rewrite Hlast in Hv by done; set_solver|].
    eapply (logged_lg (lg s)); [done|done|]. apply (Hl v); [|done]. apply list_elem_of_lookup in Hv as [j Hj].
    destruct (decide (j < i)%nat); [rewrite list_lookup_delete_lt in Hj by done|rewrite list_lookup_delete_ge in Hj by lia]; by eapply list_elem_of_lookup_2.
Qed.

Lemma ops_step_inv sz st st' : ops_step st st' → ops_inv sz st → ops_inv sz st'.
Proof.
  intros Hs Hinv. destruct Hs as [s W s' E|s W i w b s' n Hi Hrg Hw E|s W i s' Hi E|s W m s' E].
  - by eapply begin_step_inv.
  - by eapply write_step_inv.
  - by eapply end_step_inv.
  - pose proof (keeps_log_on_bio _ _ _ _ E) as El. destruct Hinv. split; simpl in *; by rewrite ?El.
Qed.

Lemma ops_steps_inv sz st st' : rtc ops_step st st' → ops_inv sz st → ops_inv sz st'.
Proof. induction 1; eauto using ops_step_inv. Qed.

(** ** begin_op and end_op *)

Lemma txn_op_inv st sz V L H D s : op_inv st sz V L H D s → H = ∅ → D = ∅ → txn_inv st sz V L s.
Proof. intros [? ? ? ? ? ?] -> ->. by split. Qed.

Lemma wp_begin_op st sz V L s (Q : unit → sys → Prop) :
  txn_inv st sz V L s → committing (lg s) = false → 0 ≤ outstanding (lg s) →
  lh_n (lg s) + (outstanding (lg s) + 1) * MAXOPBLOCKS ≤ LOGSIZE →
  (∀ s', op_inv st sz V L ∅ ∅ s' → outstanding (lg s') = outstanding (lg s) + 1 → Q tt s') →
  wp begin_op Q s.
Proof.
  intros [Hgeo [Hlen Hat] Hfit Hc Hh] Hcm Ho Hroom HQ. unfold begin_op. wp_step. wp_step. rewrite Hcm.
  destruct (Z.gtb_spec (lh_n (lg s) + (outstanding (lg s) + 1) * MAXOPBLOCKS) LOGSIZE); [lia|].
  unfold upd_log. wp_step. apply HQ; [|done].
  split; simpl; [by destruct Hgeo|by split|done|done|done|]. split; [lia|done].
Qed.

Lemma mounted_txn_inv st sz d s :
  mounted st sz d s → head_n (d st) = 0 → 1 ≤ sz →
  head_n (disk (bc s) st) = 0 → txn_inv st sz (disk (bc s)) [] s.
Proof.
  intros [_ Hd Hgeo Hlh Hops Hc] E Hsz Eh. rewrite (head_blocks_nil _ E) in Hc.
  split; [done| |by apply log_fits_nil|done|done].
  split; [done|]. intros i b Hi. by rewrite lookup_nil in Hi.
Qed.

(** The last [end_op] installs the transaction. *)
Lemma wp_end_op_last st sz V L s (Q : unit → sys → Prop) :
  op_inv st sz V L ∅ ∅ s → outstanding (lg s) = 1 →
  (∀ s' V', txn_inv st sz V' [] s' → (∀ n, home st sz n → disk (bc s') n = V n ∧ V' n = V n) →
     outstanding (lg s') = 0 → committing (lg s') = false → Q tt s') →
  wp end_op Q s.
Proof.
  intros Hinv Ho HQ. pose proof Hinv as [Hgeo Hlh Hfit Hc Hh [_ Hcm]].
  pose proof (ge_range _ _ _ Hgeo) as Hrg. pose proof (lf_len _ _ _ Hfit) as Hlen. unfold NBUF in Hlen.
  unfold end_op, upd_log. wp_run. cbn [lg bc set_ops committing outstanding]. rewrite Hcm, Ho.
  change (1 - 1 =? 0) with true. cbv iota. wp_run.
  match goal with |- wp commit _ ?x => set (s1 := x) end.
  assert (txn_inv st sz V L s1) as Hti by (split; [by destruct Hgeo|by destruct Hlh|done..]).
  destruct (decide (L = [])) as [->|HL].
  - eapply wp_of_eq; [apply commit_empty, (lh_len _ _ Hlh)|]. wp_step. wp_step.
    unfold wake. apply wp_on_bio, wp_modify. apply (HQ _ V); [|..|done|done].
    + split; simpl; [by destruct Hgeo|by destruct Hlh|done|by apply cache_inv_woke|done].
    + intros n _. simpl. split; [|done]. apply (ci_disk _ _ _ _ _ Hc); [set_solver|].
      by rewrite lookup_pins, decide_False by set_solver.
  - eapply wp_commit; [done|done|]. intros b h1 ws Hcb Hdb _ _. wp_run.
    unfold wake. apply wp_on_bio, wp_modify. set (h0 := encode_head (clear_lh (lg s1)) h1) in ws.
    destruct (commit_prefix st sz ltac:(lia) L V h1 h0 (disk (bc s)) (length ws) Hfit Hh) as [_ Hcon].
    { apply head_blocks_encode; [by destruct Hlh| |lia]. intros n Hn. by apply (lf_home _ _ _ Hfit). }
    { unfold h1. rewrite head_n_encode; simpl; rewrite (lh_len _ _ Hlh); lia. }
    { apply head_n_clear. }
    { intros n Hn _. apply (ci_disk _ _ _ _ _ Hc); [set_solver|]. by rewrite lookup_pins, decide_False. }
    rewrite take_ge in Hcon by done. change (commit_writes st L V h1 h0) with ws in Hcon.
    change (disk (bc s1)) with (disk (bc s)) in Hdb. rewrite <-Hdb in Hcon.
    assert (ws = (log_writes st L V ++ [(st, h1)] ++ ((λ b, (b, V b)) <$> L)) ++ [(st, h0)]) as Ews.
    { unfold ws, commit_writes. by rewrite <-!app_assoc. }
    assert (disk b st = h0) as Est by (rewrite Hdb, Ews, apply_writes_app; apply fset_eq).
    assert (head_n (disk b st) = 0) as Hhb by (rewrite Est; apply head_n_clear).
    assert (∀ n, home st sz n → disk b n = V n) as Hdn.
    { intros n Hn. rewrite <-(contents_empty st) by done. rewrite Hcon by done. rewrite decide_False; [done|].
      unfold ws, commit_writes. rewrite !length_app, length_fmap. simpl.
      unfold log_writes. rewrite length_imap. lia. }
    apply (HQ _ (apply_writes ws V)).
    + split; simpl; [by destruct Hgeo|split; [done|by intros ? ?; rewrite lookup_nil]|
        apply log_fits_nil; lia|rewrite pins_nil; by apply cache_inv_woke|done].
    + intros n Hn. simpl. split; [by apply Hdn|]. rewrite <-(Hdn n Hn).
      symmetry. apply (ci_disk _ _ _ _ _ Hcb); set_solver.
    + simpl. lia.
    + done.
Qed.

(** * Claims *)

(** C11: the reservation of [begin_op]. In every state reached by any
    interleaving of operations, each of which logs at most [MAXOPBLOCKS] distinct
    blocks between its [begin_op] and its [end_op], the log holds at most [LOGSIZE]
    blocks, and an operation that has not used up its share can log another block:
    [log_write] does not panic.  A block that the operation has logged before is
    absorbed, without a further place in the log, unless [LOGSIZE] blocks are in the
    log: then [log_write] panics although it needs no space, because it tests for
    space first.  All this if the log area has [LOGSIZE] blocks besides its header. *)
Theorem log_never_overflows s0 s W i w b :
  let n := blockno (bufs (bc s) b) in
  outstanding (lg s0) = 0 → committing (lg s0) = false → lh_n (lg s0) = 0 →
  LOGSIZE + 1 ≤ log_size (lg s0) →
  rtc ops_step (s0, []) (s, W) → W !! i = Some w → 0 ≤ n < 2 ^ 32 → Z.of_nat (size ({[n]} ∪ w)) ≤ MAXOPBLOCKS →
  lh_n (lg s) ≤ LOGSIZE ∧
  (n ∉ w → ∃ s', log_write b s = Ret tt s' ∧ lh_n (lg s') ≤ lh_n (lg s) + 1) ∧
  (n ∈ w → if lh_n (lg s) <? LOGSIZE then ∃ s', log_write b s = Ret tt s' ∧ lh_n (lg s') = lh_n (lg s)
           else log_write b s = Panic "too big a transaction").
Proof.
  intros n Ho0 Hc0 Hn0 Hsz Hr Hi Hrg Hw.
  assert (ops_inv (log_size (lg s0)) (s, W)) as [Hz Ho Hc HW Hn Hres Hl].
  { eapply ops_steps_inv; [done|].
    split; simpl; [done|done|done|by apply Forall_nil|lia|rewrite Hn0; vm_compute; congruence|set_solver]. }
  simpl in *. destruct (reserved_lookup W i w Hi) as [Hdel _].
  pose proof (reserved_bound (delete i W) ltac:(by apply Forall_delete)) as Hrest.
  assert (0 < length W)%nat by (apply lookup_lt_Some in Hi; lia).
  pose proof (Forall_lookup_1 _ _ _ _ HW Hi) as Hu. simpl in Hu. pose proof (unused_add n w) as Ea. unfold unused at 1 in Ea.
  assert (lh_n (lg s) < LOGSIZE → ∃ s', log_write b s = Ret tt s') as Hok.
  { intros Hlt. unfold log_write, mbind, M_bind, gets, on_bio, zoom, getb, upd_log, modify, bpin, updb.
    destruct (Z.geb_spec (lh_n (lg s)) LOGSIZE); [lia|].
    destruct (Z.geb_spec (lh_n (lg s)) (log_size (lg s) - 1)); [lia|].
    destruct (Z.ltb_spec (outstanding (lg s)) 1); [lia|]. simpl. destruct (_ =? _); by eexists. }
  split; [lia|]. split; intros Hnw.
  - rewrite decide_False in Ea by done. destruct Hok as [s' E]; [lia|]. exists s'. split; [done|].
    destruct (log_write_log b s s' E Hn Hrg) as (blk & m & -> & Hm & _). simpl. lia.
  - destruct (Z.ltb_spec (lh_n (lg s)) LOGSIZE) as [Hlt|Hge].
    + destruct (Hok Hlt) as [s' E]. exists s'. split; [done|]. destruct (log_write_log b s s' E Hn Hrg) as (blk & m & -> & Hm & _). simpl.
      destruct Hm as [[-> _]|[_ Hlg]]; [done|]. destruct Hlg. apply (Hl w); [by eapply list_elem_of_lookup_2|done].
    + unfold log_write, mbind, M_bind, gets. destruct (Z.geb_spec (lh_n (lg s)) LOGSIZE); [done|lia].
Qed.

(** [end_op] of the last running operation terminates and installs the
    transaction: every home block on disk holds its contents, the log is empty
    again and a new operation can start. *)
Theorem end_op_installs st sz V L s :
  op_inv st sz V L ∅ ∅ s → outstanding (lg s) = 1 →
  ∃ s' V', end_op s = Ret tt s' ∧ txn_inv st sz V' [] s' ∧
    (∀ n, home st sz n → disk (bc s') n = V n ∧ V' n = V n) ∧
    outstanding (lg s') = 0 ∧ committing (lg s') = false.
Proof.
  intros Hinv Ho.
  assert (wp end_op (λ _ s', ∃ V', txn_inv st sz V' [] s' ∧
    (∀ n, home st sz n → disk (bc s') n = V n ∧ V' n = V n) ∧
    outstanding (lg s') = 0 ∧ committing (lg s') = false) s) as Hwp.
  { eapply wp_end_op_last; [done|done|]. intros s' V' ????. by exists V'. }
  apply wp_inv in Hwp as ([] & s' & E & V' & ?). exists s', V'. split; [exact E|done].
Qed.

(** A defect: recovery takes a reference too many. [install_trans] calls
    [bunpin] on every block it installs, also during recovery, when the blocks
    are not pinned. After the boot sequence every block of the recovered
    transaction is cached with a reference count of [2 ^ 32 - 1]. *)
Theorem recovery_underflows_refcnt st sz d :
  0 ≤ st ∧ 1 ≤ sz ∧ st + sz < 2 ^ 31 → log_ok st sz d →
  ∃ s, mount st sz (boot d) = Ret tt s ∧
    ∀ b, b ∈ head_blocks (d st) →
      ∃ i, holds (bufs (bc s)) i b ∧ refcnt (bufs (bc s) i) = 2 ^ 32 - 1.
Proof.
  intros Hrg Hok.
  assert (wp (mount st sz) (λ _ s', mounted st sz d s') (boot d)) as Hwp by (apply wp_mount; done).
  apply wp_inv in Hwp as ([] & s & E & Hm). exists s. split; [exact E|]. clear E.
  destruct Hm as [_ _ _ _ _ Hc]. intros b Hb.
  destruct (ci_pinned _ _ _ _ _ Hc b) as (i & Hi & _).
  { rewrite dom_dropped. by apply elem_of_list_to_set. }
  exists i. split; [done|]. rewrite (ci_ref _ _ _ _ _ Hc i b Hi), lookup_dropped, decide_True by done.
  by rewrite decide_False by set_solver.
Qed.

(** ** Executions *)

(** A disk with a committed transaction of the one block 100; a process that
    reads that block after recovery and then, holding it, block 101. *)
Definition ex_disk : Z → block := fset (λ _ _, 0) 2 (store32 (store32 (λ _, 0) 0 1) 4 100).
Definition read_two_blocks : M sys unit :=
  mount 2 30 ;; on_bio (bread ROOTDEV 100) ;; on_bio (bread ROOTDEV 101) ;; mret tt.

(** The consequence of this defect. [bread] of the block makes its count 0 while
    the block is locked, so that reading another block recycles the locked
    buffer and the process waits for its own lock forever. *)
Theorem recovery_refcnt_deadlock :
  sleeps_on (read_two_blocks (boot ex_disk)) = Some ("buffer", 2).
Proof. vm_compute. reflexivity. Qed.

(** Three operations that log 30 distinct blocks in all, in the log of mkfs
    ([nlog = LOGSIZE]). *)
Definition three_operations : M sys unit :=
  mount 2 LOGSIZE ;; begin_op ;; begin_op ;; begin_op ;;
  for_each (seqZ 100 (3 * MAXOPBLOCKS)) (λ n,
    b ← on_bio (bread ROOTDEV n); log_write b ;; on_bio (brelse b)).

(** A defect: mkfs makes the log [LOGSIZE] blocks long including the
    header, so that it holds one block less than [begin_op] reserves: three
    operations of [MAXOPBLOCKS] blocks each are admitted together, and the last
    block makes [log_write] panic. *)
Theorem reservation_exceeds_log :
  three_operations (boot (λ _ _, 0)) = Panic "too big a transaction".
Proof. vm_compute. reflexivity. Qed.

(** A defect: in a log that is long enough, three operations of [MAXOPBLOCKS] blocks
    each, of which one logs a block again. *)
Theorem absorption_panics :
  (mount 2 (LOGSIZE + 1) ;; begin_op ;; begin_op ;; begin_op ;;
   for_each (seqZ 100 (3 * MAXOPBLOCKS) ++ [100]) (λ n,
     b ← on_bio (bread ROOTDEV n); log_write b ;; on_bio (brelse b))) (boot (λ _ _, 0)) = Panic "too big a transaction".
Proof. vm_compute. reflexivity. Qed.

(** ** Witnesses *)

Lemma ex_log_ok : log_ok 2 30 ex_disk.
Proof.
  assert (head_blocks (ex_disk 2) = [100]) as E by (vm_compute; reflexivity).
  split; [rewrite E|vm_compute; discriminate]. split.
  - apply NoDup_singleton.
  - intros b ->%list_elem_of_singleton. unfold home. lia.
  - done.
Qed.

(** An operation that has started on a disk with an empty log, and one that
    has logged block 100. *)
Lemma started d : head_n (d 2) = 0 →
  ∃ V s, op_inv 2 30 V [] ∅ ∅ s ∧ outstanding (lg s) = 1 ∧ ∀ n, n ≠ 2 → V n = d n.
Proof.
  intros Hd. assert (wp (mount 2 30 ;; begin_op) (λ _ s, ∃ V, op_inv 2 30 V [] ∅ ∅ s ∧
    outstanding (lg s) = 1 ∧ ∀ n, n ≠ 2 → V n = d n) (boot d)) as Hwp.
  2: { apply wp_inv in Hwp as (_ & s & _ & V & ?). by exists V, s. }
  assert (log_ok 2 30 d) as Hok by (by apply log_ok_empty; [lia|]).
  wp_step. apply wp_mount; [lia|done|]. intros s Hm. pose proof Hm as [(h0 & Hh0 & Htr) Hdk _ Hlh [Ho Hcm] _].
  assert (disk (bc s) = fset d 2 h0) as Ed.
  { rewrite Hdk, Htr. unfold recover_writes. by rewrite (head_blocks_nil _ Hd). }
  assert (txn_inv 2 30 (disk (bc s)) [] s) as Hti.
  { eapply mounted_txn_inv; [done|done|lia|]. by rewrite Ed, fset_eq. }
  eapply wp_begin_op; [done|done|lia|rewrite Hlh, Ho; vm_compute; discriminate|].
  intros s' Hop Ho'. exists (disk (bc s)). split; [done|]. split; [lia|].
  intros n Hn. by rewrite Ed, fset_ne.
Qed.

Lemma ex_started : ∃ V s, op_inv 2 30 V [] ∅ ∅ s ∧ outstanding (lg s) = 1.
Proof. destruct (started (λ _ _, 0)) as (V & s & ? & ? & _); [by vm_compute|]. by exists V, s. Qed.

Lemma ex_logged : ∃ V s, txn_inv 2 30 V [100] s.
Proof.
  destruct ex_started as (V & s & Hop & _).
  assert (wp (b ← on_bio (bread ROOTDEV 100); log_write b ;; on_bio (brelse b))
    (λ _ s', txn_inv 2 30 V [100] s') s) as Hwp.
  2: { apply wp_inv in Hwp as (_ & s' & _ & ?). by exists V, s'. }
  wp_step. eapply (wp_op_bread Hop); [set_solver|simpl; rewrite map_size_empty; lia|].
  intros b s1 H1. wp_step.
  eapply (wp_op_log_write H1 (n := 100)); [by rewrite lookup_insert_eq|unfold home; lia|lia|simpl; lia|].
  rewrite decide_False by set_solver. intros s2 H2.
  eapply (wp_op_brelse H2 (n := 100)); [by rewrite lookup_insert_eq|set_solver|].
  intros s3 H3. eapply txn_op_inv; [done|by rewrite delete_insert_id|set_solver].
Qed.

Lemma recovery_installs_committed_witness :
  ∃ s, mount 2 30 (boot ex_disk) = Ret tt s ∧ head_n (disk (bc s) 2) = 0.
Proof.
  destruct (recovery_installs_committed 2 30 ex_disk) as (s & E & _ & Hh & _);
    [split; [lia|split; lia]|apply ex_log_ok|].
  exists s. split; [exact E|exact Hh].
Defined.

Lemma commit_atomic_witness :
  ∃ V s s', txn_inv 2 30 V [100] s ∧ commit s = Ret tt s'.
Proof.
  destruct ex_logged as (V & s & Hti).
  destruct (commit_atomic 2 30 V [100] s Hti) as (s' & ws & E & _); [discriminate|].
  exists V, s, s'. split; [exact Hti|exact E].
Defined.

Lemma end_op_installs_witness :
  ∃ V s s', op_inv 2 30 V [] ∅ ∅ s ∧ end_op s = Ret tt s'.
Proof.
  destruct ex_started as (V & s & Hop & Ho).
  destruct (end_op_installs 2 30 V [] s Hop Ho) as (s' & V' & E & _).
  exists V, s, s'. split; [exact Hop|exact E].
Defined.

Lemma recovery_underflows_refcnt_witness :
  ∃ s i, mount 2 30 (boot ex_disk) = Ret tt s ∧ refcnt (bufs (bc s) i) = 2 ^ 32 - 1.
Proof.
  destruct (recovery_underflows_refcnt 2 30 ex_disk) as (s & E & Hb);
    [split; [lia|split; lia]|apply ex_log_ok|].
  destruct (Hb 100) as (i & _ & Hr); [vm_compute; left|].
  exists s, i. split; [exact E|exact Hr].
Defined.

(** A log of 31 blocks in which one operation has started. *)
Definition ex_log31 : sys :=
  Sys (bc (boot (λ _ _, 0))) (Log 2 31 0 false ROOTDEV 0 (λ _, 0)).

Lemma log_never_overflows_witness :
  ∃ s s', begin_op ex_log31 = Ret tt s ∧ log_write 0 s = Ret tt s'.
Proof.
  pose (s := Sys (bc ex_log31) (set_ops 1 false (lg ex_log31))).
  assert (begin_op ex_log31 = Ret tt s) as E by reflexivity.
  destruct (log_never_overflows ex_log31 s [∅] 0 ∅ 0) as (_ & H & _);
    [reflexivity|reflexivity|reflexivity|discriminate| |reflexivity|split; [discriminate|reflexivity]|vm_compute; discriminate|].
  - apply rtc_once, step_begin. exact E.
  - destruct H as (s' & E' & _); [apply not_elem_of_empty|]. exists s, s'. split; [exact E|exact E'].
Defined.
