(* ===== verification/Fs.v ===== *)
(** * The file system: kernel/fs.c

    The operations of fs.c over a block store (the interface [BlockStore] of the
    log).  The state adds the inode cache, the superblock and the running
    process's identity and current directory.  An inode pointer is the index of
    the entry in [icache.inode], a null pointer is [NULL].  A directory entry
    and a path are lists of bytes, a path without its final NUL.

    Sources and destinations of [readi] and [writei] are actions on the state
    below the file system: [dst off l] is [either_copyout] of the bytes [l] to
    offset [off] of the destination and tells whether it succeeds; [src off n]
    is [either_copyin] of [n] bytes at offset [off] of the source and gives the
    bytes that it stores and whether it succeeds. *)

From S2P Require Import Prelude Machine CString Bio Cache Log Txn.

Definition ROOTINO : Z := 1.
Definition FSMAGIC : Z := 0x10203040.
Definition NDIRECT : Z := 12.
Definition NINDIRECT : Z := BSIZE / 4.
Definition MAXFILE : Z := NDIRECT + NINDIRECT.
Definition NINODE : Z := 50.
Definition DIRSIZ : Z := 14.
Definition T_DIR : Z := 1.
Definition T_FILE : Z := 2.
Definition T_DEVICE : Z := 3.
Definition NULL : Z := -1.

(** [sizeof(struct dinode)] and [sizeof(struct dirent)] *)
Definition DINODE_SIZE : Z := 64.
Definition DIRENT_SIZE : Z := 16.

Record superblock := SuperBlock {
  sb_magic : Z;
  sb_size : Z;
  sb_nblocks : Z;
  sb_ninodes : Z;
  sb_nlog : Z;
  sb_logstart : Z;
  sb_inodestart : Z;
  sb_bmapstart : Z
}.

Definition IPB : Z := BSIZE / DINODE_SIZE.
Definition IBLOCK (i : Z) (sb : superblock) : Z := u32 (i / IPB + sb_inodestart sb).
Definition BPB : Z := BSIZE * 8.
Definition BBLOCK (b : Z) (sb : superblock) : Z := u32 (b / BPB + sb_bmapstart sb).

(** The part of an inode that is on disk. *)
Record dinode := Dinode {
  itype : Z;
  major : Z;
  minor : Z;
  nlink : Z;
  isize : Z;
  addrs : Z → Z
}.

Record inode := Inode {
  i_dev : Z;
  inum : Z;
  ref : Z;
  i_locked : bool;
  i_pid : Z;
  i_valid : bool;
  din : dinode
}.

Record stat := Stat { st_dev : Z; st_ino : Z; st_type : Z; st_nlink : Z; st_size : Z }.

(** ** On-disk formats *)

Definition decode_sb (d : block) : superblock :=
  SuperBlock (load32 d 0) (load32 d 4) (load32 d 8) (load32 d 12) (load32 d 16) (load32 d 20)
    (load32 d 24) (load32 d 28).

(** The offset of inode [i] in its block. *)
Definition dinode_off (i : Z) : Z := (i `mod` IPB) * DINODE_SIZE.

Definition decode_dinode (d : block) (a : Z) : dinode :=
  Dinode (s16 (load16 d a)) (s16 (load16 d (a + 2))) (s16 (load16 d (a + 4))) (s16 (load16 d (a + 6)))
    (load32 d (a + 8)) (λ i, load32 d (a + 12 + 4 * i)).

(** The stores of [iupdate]. *)
Definition encode_dinode (d : block) (a : Z) (x : dinode) : block :=
  foldl (λ d i, store32 d (a + 12 + 4 * i) (addrs x i))
    (store32 (store16 (store16 (store16 (store16 d a (itype x)) (a + 2) (major x))
       (a + 4) (minor x)) (a + 6) (nlink x)) (a + 8) (isize x))
    (seqZ 0 (NDIRECT + 1)).

(** ** The state *)

Section Fs.
Context {S : Type} `{BlockStore S}.

Record fsys := Fsys {
  blk : S;
  icache : Z → inode;
  sb : superblock;
  f_pid : Z;
  cwd : Z;
  f_woken : list chan
}.

Definition on_blk {A} : M S A → M fsys A :=
  zoom blk (λ b s, Fsys b (icache s) (sb s) (f_pid s) (cwd s) (f_woken s)).

Definition geti (ip : Z) : M fsys inode := gets (λ s, icache s ip).
Definition updi (ip : Z) (f : inode → inode) : M fsys unit :=
  modify (λ s, Fsys (blk s) (fset (icache s) ip (f (icache s ip))) (sb s) (f_pid s) (cwd s) (f_woken s)).

Definition set_din (f : dinode → dinode) (x : inode) : inode :=
  Inode (i_dev x) (inum x) (ref x) (i_locked x) (i_pid x) (i_valid x) (f (din x)).
Definition set_ref (r : Z) (x : inode) : inode :=
  Inode (i_dev x) (inum x) r (i_locked x) (i_pid x) (i_valid x) (din x).
Definition set_ilock (l : bool) (p : Z) (x : inode) : inode :=
  Inode (i_dev x) (inum x) (ref x) l p (i_valid x) (din x).
Definition set_ivalid (v : bool) (x : inode) : inode :=
  Inode (i_dev x) (inum x) (ref x) (i_locked x) (i_pid x) v (din x).
Definition set_type (t : Z) (x : dinode) : dinode :=
  Dinode t (major x) (minor x) (nlink x) (isize x) (addrs x).
Definition set_size (n : Z) (x : dinode) : dinode :=
  Dinode (itype x) (major x) (minor x) (nlink x) n (addrs x).
Definition set_addr (i a : Z) (x : dinode) : dinode :=
  Dinode (itype x) (major x) (minor x) (nlink x) (isize x) (fset (addrs x) i a).

(** ** Blocks *)

Definition bzero (dev bno : Z) : M fsys unit :=
  bp ← on_blk (bs_bread dev bno);
  d ← on_blk (bs_get bp);
  on_blk (bs_put bp (memset d 0 0 BSIZE)) ;;
  on_blk (bs_log_write bp) ;;
  on_blk (bs_brelse bp).

(** The bit of block [bi] in a bitmap block. *)
Definition bit_mask (bi : Z) : Z := Z.shiftl 1 (bi `mod` 8).
Definition bit_free (d : block) (bi : Z) : bool := Z.land (load8 d (bi / 8)) (bit_mask bi) =? 0.

(** The loop over the bitmap blocks; [fuel] bounds their number. *)
Fixpoint balloc_loop (fuel : nat) (dev b : Z) : M fsys Z :=
  match fuel with
  | O => out_of_fuel
  | Datatypes.S fuel' =>
      x ← gets sb;
      if b <? sb_size x then
        bp ← on_blk (bs_bread dev (BBLOCK b x));
        d ← on_blk (bs_get bp);
        match first_such (bit_free d) (seqZ 0 (Z.min BPB (sb_size x - b))) with
        | Some bi =>
            on_blk (bs_put bp (store8 d (bi / 8) (Z.lor (load8 d (bi / 8)) (bit_mask bi)))) ;;
            on_blk (bs_log_write bp) ;;
            on_blk (bs_brelse bp) ;;
            bzero dev (b + bi) ;;
            mret (b + bi)
        | None => on_blk (bs_brelse bp) ;; balloc_loop fuel' dev (b + BPB)
        end
      else panic "balloc: out of blocks"
  end.

Definition balloc (dev : Z) : M fsys Z :=
  x ← gets sb;
  balloc_loop (Z.to_nat (sb_size x / BPB + 2)) dev 0.

Definition bfree (dev b : Z) : M fsys unit :=
  x ← gets sb;
  bp ← on_blk (bs_bread dev (BBLOCK b x));
  d ← on_blk (bs_get bp);
  let bi := b `mod` BPB in
  if bit_free d bi then panic "freeing free block"
  else
    on_blk (bs_put bp (store8 d (bi / 8) (Z.land (load8 d (bi / 8)) (Z.lnot (bit_mask bi))))) ;;
    on_blk (bs_log_write bp) ;;
    on_blk (bs_brelse bp).

(** ** Inodes *)

Definition iinit : M fsys unit :=
  for_each (seqZ 0 NINODE) (λ i, updi i (set_ilock false 0)).

Definition iget (dev inum_ : Z) : M fsys Z :=
  ic ← gets icache;
  match first_such (λ i, (ref (ic i) >? 0) && (i_dev (ic i) =? dev) && (inum (ic i) =? inum_))
          (seqZ 0 NINODE) with
  | Some ip => updi ip (λ x, set_ref (ref x + 1) x) ;; mret ip
  | None =>
      match first_such (λ i, ref (ic i) =? 0) (seqZ 0 NINODE) with
      | Some ip =>
          updi ip (λ x, Inode dev inum_ 1 (i_locked x) (i_pid x) false (din x)) ;; mret ip
      | None => panic "iget: no inodes"
      end
  end.

Definition idup (ip : Z) : M fsys Z := updi ip (λ x, set_ref (ref x + 1) x) ;; mret ip.

Definition clear_dinode (d : block) (a t : Z) : block := store16 (memset d a 0 DINODE_SIZE) a t.

(** The loop of [ialloc] from inode [i] on. *)
Fixpoint ialloc_loop (fuel : nat) (dev t i : Z) : M fsys Z :=
  match fuel with
  | O => out_of_fuel
  | Datatypes.S fuel' =>
      x ← gets sb;
      if i <? sb_ninodes x then
        bp ← on_blk (bs_bread dev (IBLOCK i x));
        d ← on_blk (bs_get bp);
        if itype (decode_dinode d (dinode_off i)) =? 0 then
          on_blk (bs_put bp (clear_dinode d (dinode_off i) t)) ;;
          on_blk (bs_log_write bp) ;;
          on_blk (bs_brelse bp) ;;
          iget dev i
        else on_blk (bs_brelse bp) ;; ialloc_loop fuel' dev t (i + 1)
      else panic "ialloc: no inodes"
  end.

Definition ialloc (dev t : Z) : M fsys Z :=
  x ← gets sb; ialloc_loop (Z.to_nat (sb_ninodes x) + 1) dev t 1.

Definition iupdate (ip : Z) : M fsys unit :=
  x ← geti ip;
  b ← gets sb;
  bp ← on_blk (bs_bread (i_dev x) (IBLOCK (inum x) b));
  d ← on_blk (bs_get bp);
  on_blk (bs_put bp (encode_dinode d (dinode_off (inum x)) (din x))) ;;
  on_blk (bs_log_write bp) ;;
  on_blk (bs_brelse bp).

Definition acquiresleep_inode (ip : Z) : M fsys unit :=
  x ← geti ip;
  if i_locked x then sleep_on ("inode", ip)
  else pid ← gets f_pid; updi ip (set_ilock true pid).

(** [wakeup] of the processes that sleep on the lock, as in Bio.v. *)
Definition releasesleep_inode (ip : Z) : M fsys unit :=
  updi ip (set_ilock false 0) ;;
  modify (λ s, Fsys (blk s) (icache s) (sb s) (f_pid s) (cwd s) (f_woken s ++ [("inode"%string, ip)])).

Definition ilock (ip : Z) : M fsys unit :=
  x ← geti ip;
  if (ip =? NULL) || (ref x <? 1) then panic "ilock"
  else
    acquiresleep_inode ip ;;
    x ← geti ip;
    if i_valid x then mret tt
    else
      b ← gets sb;
      bp ← on_blk (bs_bread (i_dev x) (IBLOCK (inum x) b));
      d ← on_blk (bs_get bp);
      updi ip (set_din (λ _, decode_dinode d (dinode_off (inum x)))) ;;
      on_blk (bs_brelse bp) ;;
      updi ip (set_ivalid true) ;;
      x ← geti ip;
      if itype (din x) =? 0 then panic "ilock: no type" else mret tt.

Definition iunlock (ip : Z) : M fsys unit :=
  x ← geti ip;
  pid ← gets f_pid;
  if (ip =? NULL) || negb (i_locked x && (i_pid x =? pid)) || (ref x <? 1) then panic "iunlock"
  else releasesleep_inode ip.

(** ** Contents *)

Definition bmap (ip bn : Z) : M fsys Z :=
  x ← geti ip;
  if bn <? NDIRECT then
    let addr := addrs (din x) bn in
    if addr =? 0 then
      addr ← balloc (i_dev x);
      updi ip (set_din (set_addr bn addr)) ;;
      mret addr
    else mret addr
  else
    let bn := bn - NDIRECT in
    if bn <? NINDIRECT then
      let addr := addrs (din x) NDIRECT in
      addr ← (if addr =? 0 then
                addr ← balloc (i_dev x);
                updi ip (set_din (set_addr NDIRECT addr)) ;;
                mret addr
              else mret addr);
      bp ← on_blk (bs_bread (i_dev x) addr);
      a ← on_blk (bs_get bp);
      let addr := load32 a (4 * bn) in
      addr ← (if addr =? 0 then
                addr ← balloc (i_dev x);
                a ← on_blk (bs_get bp);
                on_blk (bs_put bp (store32 a (4 * bn) addr)) ;;
                on_blk (bs_log_write bp) ;;
                mret addr
              else mret addr);
      on_blk (bs_brelse bp) ;;
      mret addr
    else panic "bmap: out of range".

Definition itrunc (ip : Z) : M fsys unit :=
  for_each (seqZ 0 NDIRECT) (λ i,
    x ← geti ip;
    if nonzero (addrs (din x) i) then
      bfree (i_dev x) (addrs (din x) i) ;; updi ip (set_din (set_addr i 0))
    else mret tt) ;;
  x ← geti ip;
  (if nonzero (addrs (din x) NDIRECT) then
     bp ← on_blk (bs_bread (i_dev x) (addrs (din x) NDIRECT));
     a ← on_blk (bs_get bp);
     for_each (seqZ 0 NINDIRECT) (λ j,
       if nonzero (load32 a (4 * j)) then bfree (i_dev x) (load32 a (4 * j)) else mret tt) ;;
     on_blk (bs_brelse bp) ;;
     bfree (i_dev x) (addrs (din x) NDIRECT) ;;
     updi ip (set_din (set_addr NDIRECT 0))
   else mret tt) ;;
  updi ip (set_din (set_size 0)) ;;
  iupdate ip.

Definition iput (ip : Z) : M fsys unit :=
  x ← geti ip;
  (if (ref x =? 1) && i_valid x && (nlink (din x) =? 0) then
     acquiresleep_inode ip ;;
     itrunc ip ;;
     updi ip (set_din (set_type 0)) ;;
     iupdate ip ;;
     updi ip (set_ivalid false) ;;
     releasesleep_inode ip
   else mret tt) ;;
  updi ip (λ x, set_ref (ref x - 1) x).

Definition iunlockput (ip : Z) : M fsys unit := iunlock ip ;; iput ip.

Definition stati (ip : Z) : M fsys stat :=
  x ← geti ip;
  mret (Stat (i_dev x) (inum x) (itype (din x)) (nlink (din x)) (isize (din x))).

(** The loop of [readi]: [acc] are the bytes delivered, [tot] of them. *)
Fixpoint readi_loop (fuel : nat) (ip : Z) (dst : Z → list Z → M S bool) (acc : list Z) (tot off n : Z)
    : M fsys (Z * list Z) :=
  match fuel with
  | O => out_of_fuel
  | Datatypes.S fuel' =>
      if tot <? n then
        x ← geti ip;
        addr ← bmap ip (off / BSIZE);
        bp ← on_blk (bs_bread (i_dev x) addr);
        d ← on_blk (bs_get bp);
        let m := Z.min (n - tot) (BSIZE - off `mod` BSIZE) in
        let l := load_bytes (Z.to_nat m) d (off `mod` BSIZE) in
        ok ← on_blk (dst tot l);
        if ok : bool then
          on_blk (bs_brelse bp) ;;
          readi_loop fuel' ip dst (acc ++ l) (tot + m) (off + m) n
        else on_blk (bs_brelse bp) ;; mret (tot, acc)
      else mret (tot, acc)
  end.

Definition io_fuel (n : Z) : nat := Z.to_nat (n / BSIZE + 3).

Definition readi (ip : Z) (dst : Z → list Z → M S bool) (off n : Z) : M fsys (Z * list Z) :=
  x ← geti ip;
  if (off >? isize (din x)) || (u32 (off + n) <? off) then mret (0, [])
  else
    let n := if u32 (off + n) >? isize (din x) then isize (din x) - off else n in
    readi_loop (io_fuel n) ip dst [] 0 off n.

(** The loop of [writei]; returns the final offset. *)
Fixpoint writei_loop (fuel : nat) (ip : Z) (src : Z → Z → M S (list Z * bool)) (tot off n : Z)
    : M fsys Z :=
  match fuel with
  | O => out_of_fuel
  | Datatypes.S fuel' =>
      if tot <? n then
        x ← geti ip;
        addr ← bmap ip (off / BSIZE);
        bp ← on_blk (bs_bread (i_dev x) addr);
        d ← on_blk (bs_get bp);
        let m := Z.min (n - tot) (BSIZE - off `mod` BSIZE) in
        '(l, ok) ← on_blk (src tot m);
        on_blk (bs_put bp (store_bytes d (off `mod` BSIZE) l)) ;;
        if ok : bool then
          on_blk (bs_log_write bp) ;;
          on_blk (bs_brelse bp) ;;
          writei_loop fuel' ip src (tot + m) (off + m) n
        else on_blk (bs_brelse bp) ;; mret off
      else mret off
  end.

Definition writei (ip : Z) (src : Z → Z → M S (list Z * bool)) (off n : Z) : M fsys Z :=
  x ← geti ip;
  if (off >? isize (din x)) || (u32 (off + n) <? off) then mret (-1)
  else if u32 (off + n) >? MAXFILE * BSIZE then mret (-1)
  else
    off ← writei_loop (io_fuel n) ip src 0 off n;
    (if n >? 0 then
       x ← geti ip;
       (if off >? isize (din x) then updi ip (set_din (set_size off)) else mret tt) ;;
       iupdate ip
     else mret tt) ;;
    mret (s32 n).

(** Buffers on the kernel stack: the copy always succeeds. *)
Definition kernel_dst : Z → list Z → M S bool := λ _ _, mret true.
Definition kernel_src (l : list Z) : Z → Z → M S (list Z * bool) :=
  λ off n, mret (take (Z.to_nat n) (drop (Z.to_nat off) l), true).

(** ** Directories *)

Definition namecmp (s t : array) : Z := strncmp s t DIRSIZ.

(** The fields of the bytes of a [struct dirent]. *)
Definition de_inum (l : list Z) : Z := nth 0 l 0 + 256 * nth 1 l 0.
Definition de_name (l : list Z) : list Z := drop 2 l.
Definition encode_dirent (inum_ : Z) (name : list Z) : list Z :=
  [u8 inum_; u8 (u16 inum_ / 256)] ++ strncpy_bytes (Z.to_nat DIRSIZ) (bytes_of name).

Fixpoint dirlookup_loop (fuel : nat) (dp : Z) (name : list Z) (off : Z) : M fsys (option (Z * Z)) :=
  match fuel with
  | O => out_of_fuel
  | Datatypes.S fuel' =>
      x ← geti dp;
      if off <? isize (din x) then
        '(r, de) ← readi dp kernel_dst off DIRENT_SIZE;
        if negb (r =? DIRENT_SIZE) then panic "dirlookup read"
        else if de_inum de =? 0 then dirlookup_loop fuel' dp name (u32 (off + DIRENT_SIZE))
        else if namecmp (bytes_of name) (bytes_of (de_name de)) =? 0 then
          ip ← iget (i_dev x) (de_inum de);
          mret (Some (ip, off))
        else dirlookup_loop fuel' dp name (u32 (off + DIRENT_SIZE))
      else mret None
  end.

(** Returns the entry and its offset, or [None] for a null pointer. *)
Definition dirlookup (dp : Z) (name : list Z) : M fsys (option (Z * Z)) :=
  x ← geti dp;
  if negb (itype (din x) =? T_DIR) then panic "dirlookup not DIR"
  else dirlookup_loop (Z.to_nat (isize (din x) / DIRENT_SIZE + 2)) dp name 0.

(** The search for an empty entry in [dirlink]. *)
Fixpoint dirlink_loop (fuel : nat) (dp off : Z) : M fsys Z :=
  match fuel with
  | O => out_of_fuel
  | Datatypes.S fuel' =>
      x ← geti dp;
      if off <? isize (din x) then
        '(r, de) ← readi dp kernel_dst off DIRENT_SIZE;
        if negb (r =? DIRENT_SIZE) then panic "dirlink read"
        else if de_inum de =? 0 then mret off
        else dirlink_loop fuel' dp (off + DIRENT_SIZE)
      else mret off
  end.

Definition dirlink (dp : Z) (name : list Z) (inum_ : Z) : M fsys Z :=
  r ← dirlookup dp name;
  match r with
  | Some (ip, _) => iput ip ;; mret (-1)
  | None =>
      x ← geti dp;
      off ← dirlink_loop (Z.to_nat (isize (din x) / DIRENT_SIZE + 2)) dp 0;
      r ← writei dp (kernel_src (encode_dirent inum_ name)) off DIRENT_SIZE;
      if negb (r =? DIRENT_SIZE) then panic "dirlink" else mret 0
  end.

(** ** Paths *)

Definition slash : Z := 47.

(** The loops that skip slashes and the bytes of an element. *)
Fixpoint skip_slashes (path : list Z) : list Z :=
  match path with
  | c :: path' => if c =? slash then skip_slashes path' else path
  | [] => []
  end.

Fixpoint span_elem (path : list Z) : list Z * list Z :=
  match path with
  | c :: path' =>
      if c =? slash then ([], path)
      else let '(e, rest) := span_elem path' in (c :: e, rest)
  | [] => ([], [])
  end.

(** The element, cut to [DIRSIZ] bytes, and the rest of the path. *)
Definition skipelem (path : list Z) : option (list Z * list Z) :=
  match skip_slashes path with
  | [] => None
  | path =>
      let '(s, path) := span_elem path in
      Some (if Z.of_nat (length s) >=? DIRSIZ then take (Z.to_nat DIRSIZ) s else s,
            skip_slashes path)
  end.

Fixpoint namex_loop (fuel : nat) (ip : Z) (path : list Z) (parent : bool) (name : list Z)
    : M fsys (Z * list Z) :=
  match fuel with
  | O => out_of_fuel
  | Datatypes.S fuel' =>
      match skipelem path with
      | None =>
          if parent then iput ip ;; mret (NULL, name) else mret (ip, name)
      | Some (name, path) =>
          ilock ip ;;
          x ← geti ip;
          if negb (itype (din x) =? T_DIR) then iunlockput ip ;; mret (NULL, name)
          else if parent && (match path with [] => true | _ => false end) then
            iunlock ip ;; mret (ip, name)
          else
            next ← dirlookup ip name;
            match next with
            | None => iunlockput ip ;; mret (NULL, name)
            | Some (next, _) => iunlockput ip ;; namex_loop fuel' next path parent name
            end
      end
  end.

(** Returns the inode pointer and the contents of [name]. *)
Definition namex (path : list Z) (parent : bool) : M fsys (Z * list Z) :=
  ip ← (match path with
        | c :: _ => if c =? slash then iget ROOTDEV ROOTINO else c ← gets cwd; idup c
        | [] => c ← gets cwd; idup c
        end);
  namex_loop (Datatypes.S (length path)) ip path parent [].

Definition namei (path : list Z) : M fsys Z := '(ip, _) ← namex path false; mret ip.
Definition nameiparent (path : list Z) : M fsys (Z * list Z) := namex path true.

End Fs.
Arguments fsys S : clear implicits.

(** ** Mounting *)

(** [readsb] and [fsinit] run on the buffer cache before the log exists. *)
Definition readsb (dev : Z) : M sys superblock :=
  b ← on_bio (bread dev 1);
  x ← on_bio (getb b);
  on_bio (brelse b) ;;
  mret (decode_sb (data x)).

Definition fsinit (dev : Z) : M sys superblock :=
  sb ← readsb dev;
  if negb (sb_magic sb =? FSMAGIC) then panic "invalid file system"
  else initlog dev (s32 (sb_logstart sb)) (s32 (sb_nlog sb)) ;; mret sb.
