(* ===== verification/FsBlocks.v ===== *)
(** * Blocks and the free bitmap: [bzero], [balloc], [bfree]

    [free x V b] says that block [b] is free according to the bitmap in the
    blocks [V].  [balloc] returns a block that was free, marks exactly that one
    as used and clears it; [bfree] does the reverse.  All theorems hold for any
    implementation of the interface [BlockStore]. *)

From S2P Require Import Prelude Machine CString Bio Cache Log Txn Fs.

(** Block [b] is free. *)
Definition free (x : superblock) (V : Z → block) (b : Z) : Prop :=
  bit_free (V (BBLOCK b x)) (b `mod` BPB) = true.

(** The first data block: the bitmap is the last part of the metadata. *)
Definition data_start (x : superblock) : Z := sb_bmapstart x + (sb_size x - 1) / BPB + 1.

(** The list of logged blocks after [log_write] of block [n]. *)
Definition log_add (L : list Z) (n : Z) : list Z := if decide (n ∈ L) then L else L ++ [n].

(** * Lemmas *)

(** ** Bits *)

Lemma mask_testbit v i : 0 ≤ i → (Z.land v (Z.shiftl 1 i) =? 0) = negb (Z.testbit v i).
Proof.
  intros Hi. rewrite Z.shiftl_1_l. destruct (Z.testbit v i) eqn:E; simpl.
  - apply Z.eqb_neq. intros E0. assert (Z.testbit (Z.land v (2 ^ i)) i = true) as Hb.
    { by rewrite Z.land_spec, E, Z.pow2_bits_true. }
    by rewrite E0, Z.bits_0 in Hb.
  - apply Z.eqb_eq. apply Z.bits_inj_0. intros j. rewrite Z.land_spec, Z.pow2_bits_eqb by done.
    destruct (Z.eqb_spec i j) as [->|]; [by rewrite E|by rewrite andb_false_r].
Qed.

Lemma bit_free_testbit d bi : bit_free d bi = negb (Z.testbit (load8 d (bi / 8)) (bi `mod` 8)).
Proof. apply mask_testbit. dlia. Qed.

(** Setting or clearing one bit of a bitmap block. *)
Lemma testbit_u8 v i : 0 ≤ i < 8 → Z.testbit (u8 v) i = Z.testbit v i.
Proof. intros Hi. unfold u8. apply Z.mod_pow2_bits_low. lia. Qed.

Lemma bit_free_set d bi bi' :
  0 ≤ bi → 0 ≤ bi' →
  bit_free (store8 d (bi / 8) (Z.lor (load8 d (bi / 8)) (bit_mask bi))) bi' =
  negb (bi' =? bi) && bit_free d bi'.
Proof.
  intros Hb Hb'. rewrite !bit_free_testbit, load8_store8.
  destruct (Z.eqb_spec (bi' / 8) (bi / 8)) as [E|E].
  - rewrite E, testbit_u8 by dlia. unfold bit_mask.
    rewrite Z.lor_spec, Z.shiftl_1_l, Z.pow2_bits_eqb by dlia.
    destruct (Z.eqb_spec (bi `mod` 8) (bi' `mod` 8)) as [Em|Em].
    + replace (bi' =? bi) with true by (symmetry; apply Z.eqb_eq; dlia). by rewrite orb_true_r.
    + replace (bi' =? bi) with false by (symmetry; apply Z.eqb_neq; congruence). by rewrite orb_false_r.
  - replace (bi' =? bi) with false by (symmetry; apply Z.eqb_neq; congruence). done.
Qed.

Lemma bit_free_clear d bi bi' :
  0 ≤ bi → 0 ≤ bi' →
  bit_free (store8 d (bi / 8) (Z.land (load8 d (bi / 8)) (Z.lnot (bit_mask bi)))) bi' =
  (bi' =? bi) || bit_free d bi'.
Proof.
  intros Hb Hb'. rewrite !bit_free_testbit, load8_store8.
  destruct (Z.eqb_spec (bi' / 8) (bi / 8)) as [E|E].
  - rewrite E, testbit_u8 by dlia. unfold bit_mask.
    rewrite Z.land_spec, Z.lnot_spec, Z.shiftl_1_l, Z.pow2_bits_eqb by dlia.
    destruct (Z.eqb_spec (bi `mod` 8) (bi' `mod` 8)) as [Em|Em].
    + replace (bi' =? bi) with true by (symmetry; apply Z.eqb_eq; dlia). by rewrite andb_false_r.
    + replace (bi' =? bi) with false by (symmetry; apply Z.eqb_neq; congruence). by rewrite andb_true_r.
  - replace (bi' =? bi) with false by (symmetry; apply Z.eqb_neq; congruence). done.
Qed.

Lemma log_add_length L n : (length (log_add L n) ≤ length L + 1)%nat.
Proof. unfold log_add. case_decide; [lia|]. rewrite length_app. simpl. lia. Qed.

(** A layout like that of mkfs: inode blocks, then the bitmap, then data. *)
Record sb_ok (x : superblock) : Prop := {
  so_size : 0 < sb_size x < 2 ^ 31;
  so_inodes : 0 < sb_ninodes x < 2 ^ 31;
  so_istart : 0 ≤ sb_inodestart x;
  so_order : sb_inodestart x + (sb_ninodes x - 1) / IPB < sb_bmapstart x;
  so_data : data_start x < sb_size x
}.

Lemma BBLOCK_eq x b : sb_ok x → 0 ≤ b < sb_size x →
  BBLOCK b x = b / BPB + sb_bmapstart x ∧ sb_bmapstart x ≤ BBLOCK b x < data_start x.
Proof.
  intros [Hs Hn Hi Ho Hd] Hb. unfold BBLOCK, data_start in *.
  assert (0 ≤ (sb_ninodes x - 1) / IPB) by (apply Z.div_pos; [lia|done]).
  assert (0 ≤ b / BPB ≤ (sb_size x - 1) / BPB).
  { split; [apply Z.div_pos; [lia|done]|apply Z.div_le_mono; [done|lia]]. }
  rewrite u32_small by lia. lia.
Qed.

Lemma data_start_pos x : sb_ok x → 0 ≤ data_start x.
Proof.
  intros [Hs Hn Hi Ho Hd]. unfold data_start in *.
  assert (0 ≤ (sb_ninodes x - 1) / IPB) by (apply Z.div_pos; [lia|done]).
  assert (0 ≤ (sb_size x - 1) / BPB) by (apply Z.div_pos; [lia|done]). lia.
Qed.

Section blocks.
Context {S : Type} `{BlockStore S}.

Definition set_blk (b : S) (s : fsys S) : fsys S := Fsys b (icache s) (sb s) (f_pid s) (cwd s) (f_woken s).

Lemma wp_on_blk {A} (m : M S A) (Q : A → fsys S → Prop) s :
  wp m (λ a b, Q a (set_blk b s)) (blk s) → wp (on_blk m) Q s.
Proof. apply (wp_zoom blk set_blk). Qed.

Ltac blk_step := wp_step; apply wp_on_blk; cbn [blk set_blk].

(** What the running operation may still do: log [k] more blocks, while it
    holds the blocks [H]. *)
Definition room (L : list Z) (Hd : gmap Z Z) (k : nat) : Prop :=
  (length L + k ≤ bs_room ∧ length L + base.size Hd + k < 30)%nat.

Lemma room_log_add L Hd n k : room L Hd (1 + k) → room (log_add L n) Hd k.
Proof. unfold room. pose proof (log_add_length L n). lia. Qed.

Lemma room_le L Hd k k' : room L Hd k → (k' ≤ k)%nat → room L Hd k'.
Proof. unfold room. lia. Qed.

(** Every block from the inodes on may be logged. *)
Definition loggable (x : superblock) : Prop :=
  ∀ n, sb_inodestart x ≤ n < sb_size x → bs_home n.

(** Reading a block: [bread], use the data, [brelse]. *)
Lemma wp_bread_blk V L Hd D s n (Q : Z → fsys S → Prop) :
  bs_inv V L Hd D (blk s) → 0 ≤ n < 2 ^ 31 → n ∉ dom Hd → room L Hd 0 →
  (∀ b s', bs_inv V L (<[n := b]> Hd) D s' → Q b (set_blk s' s)) →
  wp (on_blk (bs_bread ROOTDEV n)) Q s.
Proof.
  intros Hinv Hn Hnd [_ Hr] HQ. apply wp_on_blk. eapply bs_bread_ok; [done|done|done|lia|done].
Qed.

(** Read-modify-write of a logged block [n] that is held as [b]. *)
Lemma wp_modify_blk V L Hd D s n b x (Q : unit → fsys S → Prop) :
  bs_inv V L (<[n := b]> Hd) D (blk s) → Hd !! n = None → n ∉ D → bs_home n → room L Hd 1 →
  (∀ s', bs_inv (fset V n x) (log_add L n) Hd D s' → Q tt (set_blk s' s)) →
  wp (on_blk (bs_put b x) ;; on_blk (bs_log_write b) ;; on_blk (bs_brelse b)) Q s.
Proof.
  intros Hinv Hn HD Hh [Hr _] HQ.
  blk_step. eapply bs_put_ok; [done|by rewrite lookup_insert_eq|]. intros s1 H1.
  blk_step. eapply bs_log_write_ok; [done|by rewrite lookup_insert_eq|done|lia|]. intros s2 H2.
  apply wp_on_blk. eapply bs_brelse_ok; [done|by rewrite lookup_insert_eq|set_solver|].
  intros s3 H3. rewrite delete_insert_id in H3 by done.
  replace (({[n]} ∪ D) ∖ {[n]}) with D in H3 by set_solver. by apply HQ.
Qed.

Lemma wp_release_blk V L Hd D s n b (Q : unit → fsys S → Prop) :
  bs_inv V L (<[n := b]> Hd) D (blk s) → Hd !! n = None → n ∉ D →
  (∀ s', bs_inv V L Hd D s' → Q tt (set_blk s' s)) →
  wp (on_blk (bs_brelse b)) Q s.
Proof.
  intros Hinv Hn HD HQ. apply wp_on_blk. eapply bs_brelse_ok; [done|by rewrite lookup_insert_eq|done|].
  intros s3 H3. rewrite delete_insert_id in H3 by done. by apply HQ.
Qed.

Lemma wp_get_blk V L Hd D s n b (Q : block → fsys S → Prop) :
  bs_inv V L Hd D (blk s) → Hd !! n = Some b → Q (V n) s → wp (on_blk (bs_get b)) Q s.
Proof. intros Hinv Hn HQ. apply wp_on_blk. eapply bs_get_ok; [done|done|]. by destruct s. Qed.

Lemma notin_dirty V L Hd D b n : bs_inv V L Hd D b → n ∉ dom Hd → n ∉ D.
Proof. intros Hinv Hn HD. apply Hn. by eapply bs_dirty. Qed.

(** ** bzero *)

Lemma wp_bzero V L Hd D s n (Q : unit → fsys S → Prop) :
  bs_inv V L Hd D (blk s) → 0 ≤ n < 2 ^ 31 → n ∉ dom Hd → bs_home n → room L Hd 1 →
  (∀ s', bs_inv (fset V n (memset (V n) 0 0 BSIZE)) (log_add L n) Hd D s' → Q tt (set_blk s' s)) →
  wp (bzero ROOTDEV n) Q s.
Proof.
  intros Hinv Hn Hnd Hh Hr HQ. unfold bzero. wp_step.
  eapply wp_bread_blk; [done|done|done|by eapply room_le; [|lia]|]. intros b s1 H1.
  wp_step. eapply (wp_get_blk _ _ _ _ _ n); [done|by rewrite lookup_insert_eq|].
  eapply wp_modify_blk; [done|by apply not_elem_of_dom|exact (notin_dirty _ _ _ _ _ _ Hinv Hnd)|done|done|]. exact HQ.
Qed.

(** ** balloc *)

Section alloc.
Context (x : superblock) (Hx : sb_ok x) (Hlog : loggable x).

(** The metadata is marked as used. *)
Definition meta_used (V : Z → block) : Prop := ∀ n, 0 ≤ n < data_start x → ¬ free x V n.

(** What allocating block [b] does to the blocks. *)
Record alloc_post (V : Z → block) (b : Z) (V' : Z → block) : Prop := {
  al_range : data_start x ≤ b < sb_size x;
  al_free : free x V b;
  al_first n : 0 ≤ n < b → ¬ free x V n;
  al_bitmap n : 0 ≤ n < sb_size x → free x V' n ↔ free x V n ∧ n ≠ b;
  al_zero i : 0 ≤ i < BSIZE → load8 (V' b) i = 0;
  al_other n : ¬ (sb_bmapstart x ≤ n < data_start x) → n ≠ b → V' n = V n
}.

Lemma BBLOCK_mod b : b `mod` BPB = b - b / BPB * BPB.
Proof. unfold BPB, BSIZE. dlia. Qed.

Lemma free_set V b n :
  0 ≤ b < sb_size x → 0 ≤ n < sb_size x →
  let d := V (BBLOCK b x) in
  let bi := b `mod` BPB in
  free x (fset V (BBLOCK b x) (store8 d (bi / 8) (Z.lor (load8 d (bi / 8)) (bit_mask bi)))) n ↔
  free x V n ∧ n ≠ b.
Proof.
  intros Hb Hn d bi. unfold free.
  destruct (BBLOCK_eq x b Hx Hb) as [Eb _]. destruct (BBLOCK_eq x n Hx Hn) as [En _].
  pose proof (BBLOCK_mod b). pose proof (BBLOCK_mod n).
  destruct (decide (BBLOCK n x = BBLOCK b x)) as [E|E].
  - rewrite E, fset_eq. unfold bi, d. rewrite bit_free_set by (apply Z.mod_pos_bound; done).
    destruct (Z.eqb_spec (n `mod` BPB) (b `mod` BPB)); simpl; [|naive_solver congruence].
    split; [done|]. intros [_ Hne]. destruct Hne. unfold BPB, BSIZE in *. lia.
  - rewrite fset_ne by done. split; [|by intros [? _]]. intros ?. split; [done|]. congruence.
Qed.

(** The first clear bit of a bitmap block is the first free block from [b] on. *)
Lemma first_free V b :
  0 ≤ b < sb_size x → b `mod` BPB = 0 →
  match first_such (bit_free (V (BBLOCK b x))) (seqZ 0 (Z.min BPB (sb_size x - b))) with
  | Some bi => 0 ≤ bi < BPB ∧ b + bi < sb_size x ∧ free x V (b + bi) ∧
               BBLOCK (b + bi) x = BBLOCK b x ∧ (b + bi) `mod` BPB = bi ∧
               (∀ n, b ≤ n < b + bi → ¬ free x V n)
  | None => ∀ n, b ≤ n < b + BPB → n < sb_size x → ¬ free x V n
  end.
Proof.
  intros Hb Hmod.
  assert (∀ n, b ≤ n < b + BPB → n < sb_size x →
    free x V n ↔ bit_free (V (BBLOCK b x)) (n - b) = true) as Hfr.
  { intros n Hn Hs. unfold free. destruct (BBLOCK_eq x b Hx Hb) as [-> _].
    destruct (BBLOCK_eq x n Hx ltac:(lia)) as [-> _]. unfold BPB, BSIZE in *.
    replace (n / (1024 * 8)) with (b / (1024 * 8)) by dlia.
    by replace (n `mod` (1024 * 8)) with (n - b) by dlia. }
  destruct (first_such_split (bit_free (V (BBLOCK b x))) 0 (Z.min BPB (sb_size x - b)))
    as [(bi & E & Hbi & Hp & Hbefore)|[E Hno]]; rewrite E.
  - assert (b + bi < sb_size x ∧ bi < BPB) as [Hs Hl] by lia. split_and!; [lia|done|done| |..].
    + apply Hfr; [lia|done|]. by replace (b + bi - b) with bi by lia.
    + destruct (BBLOCK_eq x b Hx Hb) as [-> _].
      destruct (BBLOCK_eq x (b + bi) Hx ltac:(lia)) as [-> _]. unfold BPB, BSIZE in *. f_equal. dlia.
    + unfold BPB, BSIZE in *. dlia.
    + intros n Hn. rewrite Hfr by lia. by rewrite Hbefore by lia.
  - intros n Hn Hs. rewrite Hfr by lia. by rewrite Hno by lia.
Qed.

(** The blocks a thread holds while it allocates: data blocks in use. *)
Definition held_data_blocks (V : Z → block) (Hd : gmap Z Z) : Prop :=
  ∀ n, n ∈ dom Hd → data_start x ≤ n ∧ ¬ free x V n.

Lemma alloc_bit V b bi d :
  meta_used V → d = V (BBLOCK b x) → 0 ≤ b < sb_size x →
  free x V b → (∀ n, 0 ≤ n < b → ¬ free x V n) → bi = b `mod` BPB →
  let V1 := fset V (BBLOCK b x) (store8 d (bi / 8) (Z.lor (load8 d (bi / 8)) (bit_mask bi))) in
  alloc_post V b (fset V1 b (memset (V1 b) 0 0 BSIZE)).
Proof.
  intros Hmeta -> Hb Hfree Hfirst -> V1.
  assert (data_start x ≤ b) as Hds.
  { destruct (decide (data_start x ≤ b)); [done|]. by destruct (Hmeta b ltac:(lia)). }
  assert (∀ n, 0 ≤ n < sb_size x → BBLOCK n x ≠ b) as HBb.
  { intros n Hn. destruct (BBLOCK_eq x n Hx Hn). lia. }
  split; [lia|done|done|..].
  - intros n Hn. unfold V1. rewrite <-free_set by done. unfold free.
    by rewrite (fset_ne _ b) by (by apply HBb).
  - intros i Hi. rewrite fset_eq. rewrite load8_memset_in by lia. done.
  - intros n Hn Hne. rewrite fset_ne by done. unfold V1. rewrite fset_ne; [done|].
    intros ->. by destruct (BBLOCK_eq x b Hx Hb).
Qed.

Lemma wp_balloc_loop fuel V L Hd D s b (Q : Z → fsys S → Prop) :
  sb s = x → bs_inv V L Hd D (blk s) → meta_used V → held_data_blocks V Hd → room L Hd 2 →
  0 ≤ b → b `mod` BPB = 0 → (∀ n, 0 ≤ n < b → n < sb_size x → ¬ free x V n) →
  (∃ n, 0 ≤ n < sb_size x ∧ free x V n) → (sb_size x - b) / BPB + 1 < Z.of_nat fuel →
  (∀ n V' L' s', alloc_post V n V' → bs_inv V' L' Hd D s' → (length L' ≤ length L + 2)%nat →
     Q n (set_blk s' s)) →
  wp (balloc_loop fuel ROOTDEV b) Q s.
Proof.
  revert s b. induction fuel as [|fuel IH]; intros s b Es Hinv Hmeta Hheld Hr Hb0 Hmod Hno (nf & Hnf & Hfr) Hfuel HQ.
  { exfalso. assert (-1 ≤ (sb_size x - b) / BPB); [|lia].
    destruct (decide (nf < b)); [by destruct (Hno nf ltac:(lia) ltac:(lia) Hfr)|]. unfold BPB, BSIZE in *. dlia. }
  destruct (decide (nf < b)) as [|Hnfb]; [by destruct (Hno nf ltac:(lia) ltac:(lia) Hfr)|].
  assert (0 ≤ b < sb_size x) as Hb by lia.
  destruct (BBLOCK_eq x b Hx Hb) as [_ HBr].
  pose proof (so_istart _ Hx). pose proof (so_order _ Hx). pose proof (so_data _ Hx). pose proof (so_size _ Hx).
  assert (0 ≤ (sb_ninodes x - 1) / IPB) by (apply Z.div_pos; [pose proof (so_inodes _ Hx); lia|done]).
  assert (BBLOCK b x ∉ dom Hd) as Hnd by (intros Hin; apply Hheld in Hin; lia).
  assert (Hd !! BBLOCK b x = None) as HdN by (by apply not_elem_of_dom).
  cbn [balloc_loop]. wp_step. wp_step. rewrite Es. destruct (Z.ltb_spec b (sb_size x)); [|lia].
  wp_step. eapply wp_bread_blk; [done|lia|done|by eapply room_le; [|lia]|]. intros bp s1 Hs1.
  wp_step. eapply (wp_get_blk _ _ _ _ _ (BBLOCK b x)); [done|by rewrite lookup_insert_eq|].
  pose proof (first_free V b Hb Hmod) as Hff.
  destruct (first_such _ _) as [bi|].
  - destruct Hff as (Hbi & Hlt & Hfree & HBB & Emod & Hbefore).
    pose proof (notin_dirty _ _ _ _ _ _ Hinv Hnd) as HnD.
    assert (alloc_post V (b + bi) (let V1 := fset V (BBLOCK b x) (store8 (V (BBLOCK b x)) (bi / 8)
       (Z.lor (load8 (V (BBLOCK b x)) (bi / 8)) (bit_mask bi))) in
       fset V1 (b + bi) (memset (V1 (b + bi)) 0 0 BSIZE))) as Hpost.
    { rewrite <-HBB. apply alloc_bit; [done|done|lia|done| |done].
      intros n Hn. destruct (decide (n < b)); [apply Hno; lia|apply Hbefore; lia]. }
    pose proof (al_range _ _ _ Hpost) as Hdb.
    set (d := V (BBLOCK b x)) in *. set (V1 := fset V (BBLOCK b x) _) in *. cbv zeta in Hpost.
    apply wp_seq3. eapply wp_modify_blk; [done|done|done|apply Hlog; lia|by apply (room_le _ _ 2); [|lia]|].
    fold V1. intros s2 Hs2. wp_step.
    eapply wp_bzero; [exact Hs2|lia| |apply Hlog; lia|by apply room_log_add|].
    { intros Hin. apply Hheld in Hin as [_ Hin]. by destruct Hin. }
    intros s3 Hs3. wp_step. eapply (HQ _ _ _ s3); [done|exact Hs3|].
    pose proof (log_add_length L (BBLOCK b x)). pose proof (log_add_length (log_add L (BBLOCK b x)) (b + bi)). lia.
  - wp_step. eapply wp_release_blk; [done|done|by apply (notin_dirty _ _ _ _ _ _ Hinv Hnd)|].
    intros s2 Hs2. eapply (IH _ (b + BPB)); try done.
    + unfold BPB, BSIZE; lia.
    + unfold BPB, BSIZE in *. dlia.
    + intros n Hn Hs. destruct (decide (n < b)); [apply Hno; lia|apply Hff; lia].
    + by exists nf.
    + unfold BPB, BSIZE in *. dlia.
Qed.

Lemma wp_balloc V L Hd D s (Q : Z → fsys S → Prop) :
  sb s = x → bs_inv V L Hd D (blk s) → meta_used V → held_data_blocks V Hd → room L Hd 2 →
  (∃ n, 0 ≤ n < sb_size x ∧ free x V n) →
  (∀ n V' L' s', alloc_post V n V' → bs_inv V' L' Hd D s' → (length L' ≤ length L + 2)%nat →
     Q n (set_blk s' s)) →
  wp (balloc ROOTDEV) Q s.
Proof.
  intros Es Hinv Hmeta Hheld Hr Hex HQ. unfold balloc. wp_step. wp_step. rewrite Es.
  eapply wp_balloc_loop; try done; [lia|].
  rewrite Z.sub_0_r. assert (0 ≤ sb_size x / BPB) by (apply Z.div_pos; [pose proof (so_size _ Hx); lia|done]).
  lia.
Qed.

(** ** bfree *)

(** What freeing block [b] does to the blocks. *)
Record free_post (V : Z → block) (b : Z) (V' : Z → block) : Prop := {
  fr_bitmap n : 0 ≤ n < sb_size x → free x V' n ↔ free x V n ∨ n = b;
  fr_other n : ¬ (sb_bmapstart x ≤ n < data_start x) → V' n = V n
}.

Lemma free_clear V b n :
  0 ≤ b < sb_size x → 0 ≤ n < sb_size x →
  let d := V (BBLOCK b x) in
  let bi := b `mod` BPB in
  free x (fset V (BBLOCK b x) (store8 d (bi / 8) (Z.land (load8 d (bi / 8)) (Z.lnot (bit_mask bi))))) n ↔
  free x V n ∨ n = b.
Proof.
  intros Hb Hn d bi. unfold free.
  destruct (BBLOCK_eq x b Hx Hb) as [Eb _]. destruct (BBLOCK_eq x n Hx Hn) as [En _].
  pose proof (BBLOCK_mod b). pose proof (BBLOCK_mod n).
  destruct (decide (BBLOCK n x = BBLOCK b x)) as [E|E].
  - rewrite E, fset_eq. unfold bi, d. rewrite bit_free_clear by (apply Z.mod_pos_bound; done).
    destruct (Z.eqb_spec (n `mod` BPB) (b `mod` BPB)); simpl; [|naive_solver congruence].
    split; [|done]. intros _. right. unfold BPB, BSIZE in *. lia.
  - rewrite fset_ne by done. split; [by left|]. intros [?| ->]; done.
Qed.

Lemma wp_bfree V L Hd D s b (Q : unit → fsys S → Prop) :
  sb s = x → bs_inv V L Hd D (blk s) → (∀ n, n ∈ dom Hd → data_start x ≤ n) → room L Hd 1 →
  0 ≤ b < sb_size x → ¬ free x V b →
  (∀ V' s', free_post V b V' → bs_inv V' (log_add L (BBLOCK b x)) Hd D s' → Q tt (set_blk s' s)) →
  wp (bfree ROOTDEV b) Q s.
Proof.
  intros Es Hinv Hheld Hr Hb Hnf HQ. unfold bfree. wp_step. wp_step. rewrite Es.
  destruct (BBLOCK_eq x b Hx Hb) as [_ HBr].
  pose proof (so_istart _ Hx). pose proof (so_order _ Hx). pose proof (so_data _ Hx). pose proof (so_size _ Hx).
  assert (0 ≤ (sb_ninodes x - 1) / IPB) by (apply Z.div_pos; [pose proof (so_inodes _ Hx); lia|done]).
  assert (BBLOCK b x ∉ dom Hd) as Hnd by (intros Hin; apply Hheld in Hin; lia).
  wp_step. eapply wp_bread_blk; [done|lia|done|by apply (room_le _ _ 1); [|lia]|]. intros bp s1 Hs1.
  wp_step. eapply (wp_get_blk _ _ _ _ _ (BBLOCK b x)); [done|by rewrite lookup_insert_eq|].
  unfold free in Hnf. destruct (bit_free _ _) eqn:E; [done|].
  eapply wp_modify_blk; [done|by apply not_elem_of_dom|by apply (notin_dirty _ _ _ _ _ _ Hinv Hnd)|
    apply Hlog; lia|done|].
  intros s2 Hs2. eapply (HQ _ s2); [|exact Hs2]. split.
  - intros n Hn. by apply free_clear.
  - intros n Hn. rewrite fset_ne; [done|]. intros ->. done.
Qed.

End alloc.

(** * Claims *)

(** [balloc]. If some block is free and the metadata is marked as used,
    [balloc] terminates without panicking and returns the first free block,
    which is a data block. It marks that block as used and no other, fills it
    with zeros, and changes no block but it and the bitmap. Everything it does
    is logged. *)
Theorem balloc_takes_first_free x V L Hd D s :
  sb_ok x → loggable x → sb s = x → bs_inv V L Hd D (blk s) → meta_used x V →
  held_data_blocks x V Hd → room L Hd 2 → (∃ n, 0 ≤ n < sb_size x ∧ free x V n) →
  ∃ b V' L' s', balloc ROOTDEV s = Ret b (set_blk s' s) ∧
    alloc_post x V b V' ∧ bs_inv V' L' Hd D s' ∧ (length L' ≤ length L + 2)%nat.
Proof.
  intros Hx Hlog Es Hinv Hmeta Hheld Hr Hex.
  assert (wp (balloc ROOTDEV) (λ b s1, ∃ V' L' s', s1 = set_blk s' s ∧
    alloc_post x V b V' ∧ bs_inv V' L' Hd D s' ∧ (length L' ≤ length L + 2)%nat) s) as Hwp.
  { eapply wp_balloc; try done. intros n V' L' s' ???. by exists V', L', s'. }
  apply wp_inv in Hwp as (b & s1 & E & V' & L' & s' & -> & ?). exists b, V', L', s'. by split.
Qed.

(** [bfree] undoes [balloc]. Freeing the block that [balloc] returned
    terminates without panicking and leaves exactly the blocks free that were
    free before; the data blocks other than that one are as they were. *)
Theorem balloc_bfree_roundtrip x V L Hd D s :
  sb_ok x → loggable x → sb s = x → bs_inv V L Hd D (blk s) → meta_used x V →
  held_data_blocks x V Hd → room L Hd 3 → (∃ n, 0 ≤ n < sb_size x ∧ free x V n) →
  ∃ b V' L' s', (b ← balloc ROOTDEV; bfree ROOTDEV b ;; mret b) s = Ret b (set_blk s' s) ∧
    bs_inv V' L' Hd D s' ∧
    (∀ n, 0 ≤ n < sb_size x → free x V' n ↔ free x V n) ∧
    (∀ n, ¬ (sb_bmapstart x ≤ n < data_start x) → n ≠ b → V' n = V n).
Proof.
  intros Hx Hlog Es Hinv Hmeta Hheld Hr Hex.
  assert (wp (b ← balloc ROOTDEV; bfree ROOTDEV b ;; mret b) (λ b s1, ∃ V' L' s', s1 = set_blk s' s ∧
    bs_inv V' L' Hd D s' ∧ (∀ n, 0 ≤ n < sb_size x → free x V' n ↔ free x V n) ∧
    (∀ n, ¬ (sb_bmapstart x ≤ n < data_start x) → n ≠ b → V' n = V n)) s) as Hwp.
  2: { apply wp_inv in Hwp as (b & s1 & E & V' & L' & s' & -> & ?). exists b, V', L', s'. by split. }
  wp_step. eapply wp_balloc; try done; [by apply (room_le _ _ 3); [|lia]|].
  intros b V1 L1 s1 Ha Hs1 HL1. wp_step. pose proof (so_data _ Hx).
  pose proof (al_range _ _ _ _ Ha). assert (0 ≤ data_start x) by (by apply data_start_pos).
  eapply wp_bfree; try done.
  - intros n Hn. by apply Hheld in Hn as [? _].
  - unfold room in *. lia.
  - lia.
  - rewrite (al_bitmap _ _ _ _ Ha) by lia. naive_solver.
  - intros V2 s2 Hf Hs2. wp_step. exists V2, (log_add L1 (BBLOCK b x)), s2. split_and!; [done|done|..].
    + intros n Hn. rewrite (fr_bitmap _ _ _ _ Hf), (al_bitmap _ _ _ _ Ha) by done.
      destruct (decide (n = b)) as [->|]; [|naive_solver]. pose proof (al_free _ _ _ _ Ha). naive_solver.
    + intros n Hn Hne. rewrite (fr_other _ _ _ _ Hf) by done. by apply (al_other _ _ _ _ Ha).
Qed.

End blocks.
