(* ===== verification/FsInode.v ===== *)
(** * Inodes on disk: [iupdate], [ilock], [ialloc]

    [inode_at x V i] is inode [i] as the inode blocks hold it.  [iupdate] stores
    an in-memory inode there and leaves every other inode alone; [ilock] of an
    entry that is not valid reads it back. *)

From S2P Require Import Prelude Machine CString Bio Cache Log Txn Fs FsBlocks.

(** Equality of on-disk inodes: their fields and the 13 addresses. *)
Definition din_eq (x y : dinode) : Prop :=
  itype x = itype y ∧ major x = major y ∧ minor x = minor y ∧ nlink x = nlink y ∧
  isize x = isize y ∧ ∀ i, 0 ≤ i ≤ NDIRECT → addrs x i = addrs y i.

(** The fields have the width of their C types. *)
Record din_ok (x : dinode) : Prop := {
  do_type : - 2 ^ 15 ≤ itype x < 2 ^ 15;
  do_major : - 2 ^ 15 ≤ major x < 2 ^ 15;
  do_minor : - 2 ^ 15 ≤ minor x < 2 ^ 15;
  do_nlink : - 2 ^ 15 ≤ nlink x < 2 ^ 15;
  do_size : 0 ≤ isize x < 2 ^ 32;
  do_addrs i : 0 ≤ i ≤ NDIRECT → 0 ≤ addrs x i < 2 ^ 32
}.

Definition inode_at (x : superblock) (V : Z → block) (i : Z) : dinode :=
  decode_dinode (V (IBLOCK i x)) (dinode_off i).

(** * Lemmas *)

#[export] Instance din_eq_equivalence : Equivalence din_eq.
Proof.
  unfold din_eq. split.
  - intros x. naive_solver.
  - intros x y (?&?&?&?&?&Ha). split_and!; try done. intros i Hi. by rewrite Ha.
  - intros x y z (?&?&?&?&?&Ha) (?&?&?&?&?&Hb). split_and!; try congruence.
    intros i Hi. by rewrite Ha, Hb.
Qed.

(** ** The codec *)

Lemma load16_ne m a v b : b + 2 ≤ a ∨ a + 2 ≤ b → load16 (store16 m a v) b = load16 m b.
Proof. intros Hab. apply (loadn_storen_ne 2 2). lia. Qed.

Lemma load16_store32_ne m a v b : b + 2 ≤ a ∨ a + 4 ≤ b → load16 (store32 m a v) b = load16 m b.
Proof. intros Hab. apply (loadn_storen_ne 2 4). lia. Qed.

Lemma load32_store16_ne m a v b : b + 4 ≤ a ∨ a + 2 ≤ b → load32 (store16 m a v) b = load32 m b.
Proof. intros Hab. apply (loadn_storen_ne 4 2). lia. Qed.

Lemma load8_store16_ne m a v y : ¬ (a ≤ y < a + 2) → load8 (store16 m a v) y = load8 m y.
Proof. intros Hy. apply (load8_storen 2). lia. Qed.

Lemma load8_store32_ne m a v y : ¬ (a ≤ y < a + 4) → load8 (store32 m a v) y = load8 m y.
Proof. intros Hy. apply (load8_storen 4). lia. Qed.

Lemma s16_small z : - 2 ^ 15 ≤ z < 2 ^ 15 → s16 z = z.
Proof. intros. by apply sext_small. Qed.

Lemma s16_u16 z : s16 (u16 z) = s16 z.
Proof. unfold s16, sext, u16. f_equal. by rewrite Zplus_mod_idemp_l. Qed.

Section addr_loop.
Context (g : Z → Z) (a : Z).

Definition addr_stores (d : block) (l : list Z) : block :=
  foldl (λ d i, store32 d (a + 12 + 4 * i) (g i)) d l.

Lemma addr_stores_at d l j :
  load32 (addr_stores d l) (a + 12 + 4 * j) =
  if decide (j ∈ l) then u32 (g j) else load32 d (a + 12 + 4 * j).
Proof.
  revert d. induction l as [|i l IH]; intros d; simpl; [done|].
  change (foldl _ ?d l) with (addr_stores d l). rewrite IH.
  destruct (decide (j = i)) as [->|Hne].
  - rewrite load32_store32. rewrite (decide_True (P := i ∈ i :: l)) by set_solver. by case_decide.
  - rewrite load32_store32_ne by lia. by rewrite (decide_ext (j ∈ l) (j ∈ i :: l)) by set_solver.
Qed.

Lemma addr_stores_8 d l y :
  (∀ i, i ∈ l → ¬ (a + 12 + 4 * i ≤ y < a + 12 + 4 * i + 4)) →
  load8 (addr_stores d l) y = load8 d y.
Proof.
  revert d. induction l as [|i l IH]; intros d Hl; simpl; [done|].
  change (foldl _ ?d l) with (addr_stores d l). rewrite IH by set_solver.
  apply load8_store32_ne. apply Hl. set_solver.
Qed.
End addr_loop.

Lemma encode_dinode_8 d a x y : ¬ (a ≤ y < a + DINODE_SIZE) → load8 (encode_dinode d a x) y = load8 d y.
Proof.
  unfold DINODE_SIZE. intros Hy. unfold encode_dinode.
  change (foldl _ ?d _) with (addr_stores (addrs x) a d (seqZ 0 (NDIRECT + 1))).
  rewrite addr_stores_8.
  - by rewrite load8_store32_ne, !load8_store16_ne by lia.
  - intros i Hi%elem_of_seqZ. unfold NDIRECT in *. lia.
Qed.

Lemma decode_encode_dinode d a x : din_ok x → din_eq (decode_dinode (encode_dinode d a x) a) x.
Proof.
  intros [Ht Hma Hmi Hn Hs Ha].
  set (d0 := store32 (store16 (store16 (store16 (store16 d a (itype x)) (a + 2) (major x))
       (a + 4) (minor x)) (a + 6) (nlink x)) (a + 8) (isize x)).
  assert (∀ y n, a ≤ y → y + Z.of_nat n ≤ a + 12 →
    loadn n (encode_dinode d a x) y = loadn n d0 y) as Hlow.
  { intros y n Hy Hyn. apply loadn_ext. intros z Hz. unfold encode_dinode.
    change (foldl _ ?d _) with (addr_stores (addrs x) a d (seqZ 0 (NDIRECT + 1))).
    rewrite addr_stores_8; [done|]. intros i Hi%elem_of_seqZ. lia. }
  unfold decode_dinode. unfold din_eq. cbn [itype major minor nlink isize addrs].
  Transparent load16 load32. unfold load16, load32. Opaque load16 load32.
  rewrite !Hlow by lia. change (loadn 2) with load16. change (loadn 4) with load32.
  split_and!.
  - unfold d0. rewrite load16_store32_ne, !load16_ne by lia. rewrite load16_store16, s16_u16. by apply s16_small.
  - unfold d0. rewrite load16_store32_ne, !load16_ne by lia. rewrite load16_store16, s16_u16. by apply s16_small.
  - unfold d0. rewrite load16_store32_ne, !load16_ne by lia. rewrite load16_store16, s16_u16. by apply s16_small.
  - unfold d0. rewrite load16_store32_ne by lia. rewrite load16_store16, s16_u16. by apply s16_small.
  - unfold d0. rewrite load32_store32. by apply u32_small.
  - intros i Hi. unfold encode_dinode.
    change (foldl _ ?d _) with (addr_stores (addrs x) a d (seqZ 0 (NDIRECT + 1))).
    rewrite addr_stores_at, decide_True by (rewrite elem_of_seqZ; lia). apply u32_small. auto.
Qed.

Lemma decode_dinode_ext d d' a :
  (∀ y, a ≤ y < a + DINODE_SIZE → load8 d y = load8 d' y) → din_eq (decode_dinode d a) (decode_dinode d' a).
Proof.
  unfold DINODE_SIZE. intros Hd. unfold decode_dinode, din_eq. cbn [itype major minor nlink isize addrs].
  assert (∀ b, a ≤ b → b + 2 ≤ a + 64 → load16 d b = load16 d' b) as H16.
  { intros b Hb Hb'. apply load16_ext. intros y Hy. apply Hd. lia. }
  assert (∀ b, a ≤ b → b + 4 ≤ a + 64 → load32 d b = load32 d' b) as H32.
  { intros b Hb Hb'. apply load32_ext. intros y Hy. apply Hd. lia. }
  rewrite !H16, H32 by lia. split_and!; try done. intros i Hi. unfold NDIRECT in Hi. apply H32; lia.
Qed.

(** ** Inode blocks *)

Lemma IBLOCK_eq x i : sb_ok x → 0 ≤ i < sb_ninodes x →
  IBLOCK i x = i / IPB + sb_inodestart x ∧ sb_inodestart x ≤ IBLOCK i x < sb_bmapstart x.
Proof.
  intros Hx Hi. pose proof (data_start_pos x Hx). destruct Hx as [Hs Hn Hst Ho Hd].
  assert (0 ≤ i / IPB ≤ (sb_ninodes x - 1) / IPB).
  { split; [apply Z.div_pos; [lia|done]|apply Z.div_le_mono; [done|lia]]. }
  assert (0 ≤ (sb_size x - 1) / BPB) by (apply Z.div_pos; [lia|done]).
  unfold IBLOCK, data_start in *. rewrite u32_small by lia. lia.
Qed.

Lemma dinode_off_range i : 0 ≤ dinode_off i ∧ dinode_off i + DINODE_SIZE ≤ BSIZE.
Proof. unfold dinode_off, IPB, DINODE_SIZE, BSIZE. change (1024 / 64) with 16. dlia. Qed.

Lemma dinode_off_disjoint x i j :
  sb_ok x → 0 ≤ i < sb_ninodes x → 0 ≤ j < sb_ninodes x → i ≠ j → IBLOCK i x = IBLOCK j x →
  dinode_off i + DINODE_SIZE ≤ dinode_off j ∨ dinode_off j + DINODE_SIZE ≤ dinode_off i.
Proof.
  intros Hx Hi Hj Hne. destruct (IBLOCK_eq x i Hx Hi) as [-> _]. destruct (IBLOCK_eq x j Hx Hj) as [-> _].
  unfold dinode_off, IPB, DINODE_SIZE, BSIZE. change (1024 / 64) with 16. dlia.
Qed.

(** What storing the inode [di] as inode [i] does to the blocks. *)
Record inode_post (x : superblock) (V : Z → block) (i : Z) (di : dinode) (V' : Z → block) : Prop := {
  ip_self : din_eq (inode_at x V' i) di;
  ip_inodes j : 0 ≤ j < sb_ninodes x → j ≠ i → din_eq (inode_at x V' j) (inode_at x V j);
  ip_other n : n ≠ IBLOCK i x → V' n = V n
}.

Lemma inode_post_intro x V i di d' :
  sb_ok x → 0 ≤ i < sb_ninodes x →
  (∀ y, ¬ (dinode_off i ≤ y < dinode_off i + DINODE_SIZE) → load8 d' y = load8 (V (IBLOCK i x)) y) →
  din_eq (decode_dinode d' (dinode_off i)) di →
  inode_post x V i di (fset V (IBLOCK i x) d').
Proof.
  intros Hx Hi Ho Hd. split.
  - unfold inode_at. by rewrite fset_eq.
  - intros j Hj Hne. unfold inode_at. destruct (decide (IBLOCK j x = IBLOCK i x)) as [E|E].
    + rewrite E, fset_eq. apply decode_dinode_ext. intros y Hy. apply Ho.
      destruct (dinode_off_disjoint x i j); try done; lia.
    + rewrite fset_ne by done. done.
  - intros n Hn. by rewrite fset_ne.
Qed.

Section inodes.
Context {S : Type} `{BlockStore S}.
Context (x : superblock) (Hx : sb_ok x) (Hlog : loggable x).

(** No inode or bitmap block is held. *)
Definition held_data (Hd : gmap Z Z) : Prop := ∀ n, n ∈ dom Hd → data_start x ≤ n.

Lemma IBLOCK_ok i : 0 ≤ i < sb_ninodes x →
  0 ≤ IBLOCK i x < 2 ^ 31 ∧ bs_home (IBLOCK i x) ∧ IBLOCK i x < data_start x.
Proof.
  intros Hi. destruct (IBLOCK_eq x i Hx Hi) as [_ Hr].
  pose proof (so_istart _ Hx). pose proof (so_data _ Hx). pose proof (so_size _ Hx).
  assert (0 ≤ (sb_size x - 1) / BPB) by (apply Z.div_pos; [lia|done]).
  unfold data_start in *. split_and!; [lia|lia|apply Hlog; lia|lia].
Qed.

Lemma iblock_not_held Hd i : held_data Hd → 0 ≤ i < sb_ninodes x → IBLOCK i x ∉ dom Hd.
Proof. intros Hh Hi Hin. apply Hh in Hin. destruct (IBLOCK_ok i Hi) as (_ & _ & ?). lia. Qed.

Lemma wp_iupdate V L Hd D s ip (Q : unit → fsys S → Prop) :
  sb s = x → bs_inv V L Hd D (blk s) → held_data Hd → room L Hd 1 →
  i_dev (icache s ip) = ROOTDEV → 0 ≤ inum (icache s ip) < sb_ninodes x → din_ok (din (icache s ip)) →
  (∀ V' s', inode_post x V (inum (icache s ip)) (din (icache s ip)) V' →
     bs_inv V' (log_add L (IBLOCK (inum (icache s ip)) x)) Hd D s' → Q tt (set_blk s' s)) →
  wp (iupdate ip) Q s.
Proof.
  intros Es Hinv Hh Hr Hdev Hi Hok HQ. unfold iupdate, geti. wp_run. rewrite Es, Hdev.
  set (i := inum (icache s ip)) in *. destruct (IBLOCK_ok i Hi) as (Hrg & Hho & _).
  pose proof (iblock_not_held Hd i Hh Hi) as Hnd.
  eapply wp_bread_blk; [done|done|done|by apply (room_le _ _ 1); [|lia]|]. intros bp s1 Hs1.
  wp_step. eapply (wp_get_blk _ _ _ _ _ (IBLOCK i x)); [done|by rewrite lookup_insert_eq|].
  eapply wp_modify_blk; [done|by apply not_elem_of_dom|by apply (notin_dirty _ _ _ _ _ _ Hinv Hnd)|done|done|].
  intros s2 Hs2. eapply (HQ _ s2); [|exact Hs2]. apply inode_post_intro; [done|done| |].
  - intros y Hy. by apply encode_dinode_8.
  - by apply decode_encode_dinode.
Qed.

(** The entry [ip] after [ilock]. *)
Definition locked_entry (pid : Z) (di : dinode) (e : inode) : inode :=
  Inode (i_dev e) (inum e) (ref e) true pid true di.

Lemma wp_ilock V L Hd D s ip (Q : unit → fsys S → Prop) :
  sb s = x → bs_inv V L Hd D (blk s) → held_data Hd → room L Hd 0 →
  ip ≠ NULL → 1 ≤ ref (icache s ip) → i_locked (icache s ip) = false →
  i_dev (icache s ip) = ROOTDEV → 0 ≤ inum (icache s ip) < sb_ninodes x →
  (i_valid (icache s ip) = false → itype (inode_at x V (inum (icache s ip))) ≠ 0) →
  (∀ s' di ic, bs_inv V L Hd D s' →
     di = (if i_valid (icache s ip) then din (icache s ip) else inode_at x V (inum (icache s ip))) →
     (∀ j, ic j = if j =? ip then locked_entry (f_pid s) di (icache s ip) else icache s j) →
     Q tt (Fsys s' ic (sb s) (f_pid s) (cwd s) (f_woken s))) →
  wp (ilock ip) Q s.
Proof.
  intros Es Hinv Hh Hr Hip Href Hul Hdev Hi Hty HQ. unfold ilock, geti. wp_run.
  destruct (Z.eqb_spec ip NULL); [done|]. destruct (Z.ltb_spec (ref (icache s ip)) 1); [lia|]. simpl.
  unfold acquiresleep_inode, geti, updi. wp_run. rewrite Hul. wp_run. simpl. rewrite !fset_eq. simpl.
  set (i := inum (icache s ip)) in *.
  destruct (i_valid (icache s ip)) eqn:Ev.
  - wp_run. apply (HQ (blk s) (din (icache s ip))); [done|done|]. intros j. unfold fset.
    destruct (Z.eqb_spec j ip) as [->|]; [|done]. unfold set_ilock, locked_entry. by rewrite Ev.
  - wp_run. rewrite Es, Hdev. destruct (IBLOCK_ok i Hi) as (Hrg & Hho & _).
    pose proof (iblock_not_held Hd i Hh Hi) as Hnd.
    eapply wp_bread_blk; [done|done|done|done|]. intros bp s1 Hs1.
    wp_step. eapply (wp_get_blk _ _ _ _ _ (IBLOCK i x)); [done|by rewrite lookup_insert_eq|].
    wp_run. simpl. eapply wp_release_blk; [exact Hs1|by apply not_elem_of_dom|
      by apply (notin_dirty _ _ _ _ _ _ Hinv Hnd)|].
    intros s2 Hs2. wp_run. simpl. rewrite !fset_eq. simpl.
    destruct (Z.eqb_spec (s16 (load16 (V (IBLOCK i x)) (dinode_off i))) 0) as [E0|_].
    { by destruct (Hty eq_refl). }
    wp_run. rewrite Es in HQ. apply (HQ s2 (inode_at x V i)); [done|done|]. intros j. unfold fset.
    by destruct (Z.eqb_spec j ip) as [->|].
Qed.

End inodes.

(** * Claims *)

(** An inode written by [iupdate] is read back by [ilock]. [iupdate]
    terminates and changes one slot of one inode block: the inode there has the
    fields of the in-memory inode, and every other inode and block is
    unchanged. Afterwards [ilock] of any unlocked cache entry for that inode
    that is not valid terminates and fills it with these fields. *)
Theorem iupdate_ilock_roundtrip {T} `{BlockStore T} x V L Hd D s ip :
  sb_ok x → loggable x → sb s = x → bs_inv V L Hd D (blk s) → held_data x Hd → room L Hd 1 →
  i_dev (icache s ip) = ROOTDEV → 0 ≤ inum (icache s ip) < sb_ninodes x →
  din_ok (din (icache s ip)) → itype (din (icache s ip)) ≠ 0 →
  ∃ V' s', iupdate ip s = Ret tt (set_blk s' s) ∧
    inode_post x V (inum (icache s ip)) (din (icache s ip)) V' ∧
    ∀ jp s2, blk s2 = s' → sb s2 = x → jp ≠ NULL → 1 ≤ ref (icache s2 jp) →
      i_locked (icache s2 jp) = false → i_valid (icache s2 jp) = false →
      i_dev (icache s2 jp) = ROOTDEV → inum (icache s2 jp) = inum (icache s ip) →
      ∃ s3, ilock jp s2 = Ret tt s3 ∧ din_eq (din (icache s3 jp)) (din (icache s ip)) ∧
        i_locked (icache s3 jp) = true ∧ i_pid (icache s3 jp) = f_pid s2.
Proof.
  intros Hx Hlog Es Hinv Hh Hr Hdev Hi Hok Hty.
  set (i := inum (icache s ip)) in *.
  assert (wp (iupdate ip) (λ _ s1, ∃ V' s', s1 = set_blk s' s ∧
    inode_post x V i (din (icache s ip)) V' ∧
    bs_inv V' (log_add L (IBLOCK i x)) Hd D s') s) as Hwp.
  { eapply wp_iupdate; try done. intros V' s' Hp Hs'. by exists V', s'. }
  apply wp_inv in Hwp as ([] & s1 & E & V' & s' & -> & Hp & Hs').
  exists V', s'. split; [exact E|]. split; [done|]. clear E.
  intros jp s2 Eb2 Es2 Hjp Href Hul Hval Hdev2 Hin2.
  assert (wp (ilock jp) (λ _ s3, din_eq (din (icache s3 jp)) (din (icache s ip)) ∧
    i_locked (icache s3 jp) = true ∧ i_pid (icache s3 jp) = f_pid s2) s2) as Hwp.
  { eapply (wp_ilock x Hx Hlog V' (log_add L (IBLOCK i x)) Hd D); rewrite ?Eb2, ?Hin2; try done.
    - apply (room_log_add _ _ _ 0). done.
    - intros _. destruct (ip_self _ _ _ _ _ Hp) as [-> _]. done.
    - rewrite Hval. intros s3 di ic Hs3 -> Hic. simpl. rewrite Hic, Z.eqb_refl. simpl.
      split; [apply (ip_self _ _ _ _ _ Hp)|done]. }
  apply wp_inv in Hwp as ([] & s3 & E & ?). exists s3. split; [exact E|done].
Qed.
