(* ===== verification/FsFile.v ===== *)
(** * The contents of files: [bmap], [readi], [writei]

    [blockmap V di bn] is the disk block of block [bn] of a file with on-disk
    inode [di] (0 for none); [file_byte V di off] is the byte at an offset.
    [file_ok] is the invariant of a file: its blocks are data blocks in use,
    all different, and cover its size.  [bmap] extends the map by at most one
    block of the file; [writei] changes exactly the bytes it is given, and
    [readi] returns the bytes of the file. *)

From S2P Require Import Prelude Machine CString Bio Cache Log Txn Fs FsBlocks FsInode.

Definition blockmap (V : Z → block) (di : dinode) (bn : Z) : Z :=
  if bn <? NDIRECT then addrs di bn
  else if addrs di NDIRECT =? 0 then 0
  else load32 (V (addrs di NDIRECT)) (4 * (bn - NDIRECT)).

Definition file_byte (V : Z → block) (di : dinode) (off : Z) : Z :=
  load8 (V (blockmap V di (off / BSIZE))) (off `mod` BSIZE).

Section inv.
Context (x : superblock).

(** A data block in use. *)
Definition in_use (V : Z → block) (n : Z) : Prop := data_start x ≤ n < sb_size x ∧ ¬ free x V n.

Record file_ok (V : Z → block) (di : dinode) : Prop := {
  fo_used bn : 0 ≤ bn < MAXFILE → blockmap V di bn ≠ 0 → in_use V (blockmap V di bn);
  fo_ind : addrs di NDIRECT ≠ 0 → in_use V (addrs di NDIRECT);
  fo_inj b1 b2 : 0 ≤ b1 < MAXFILE → 0 ≤ b2 < MAXFILE →
    blockmap V di b1 = blockmap V di b2 → blockmap V di b1 ≠ 0 → b1 = b2;
  fo_ind_ne bn : 0 ≤ bn < MAXFILE → blockmap V di bn ≠ 0 → blockmap V di bn ≠ addrs di NDIRECT;
  fo_size : 0 ≤ isize di ≤ MAXFILE * BSIZE;
  fo_cover bn : 0 ≤ bn → bn * BSIZE < isize di → blockmap V di bn ≠ 0
}.

(** At least [k] blocks are free. *)
Definition nfree (V : Z → block) (k : nat) : Prop :=
  ∃ l, NoDup l ∧ length l = k ∧ ∀ n, n ∈ l → 0 ≤ n < sb_size x ∧ free x V n.

(** What a step that may allocate does to the rest of the disk: metadata blocks
    before the bitmap and data blocks in use stay, except for [own] blocks. *)
Record grow_post (V V' : Z → block) (own : Z → Prop) (k : nat) : Prop := {
  gp_meta n : n < sb_bmapstart x → V' n = V n;
  gp_used n : in_use V n → ¬ own n → V' n = V n;
  gp_free n : 0 ≤ n < sb_size x → free x V' n → free x V n;
  gp_nfree j : nfree V (j + k) → nfree V' j
}.

End inv.

(** What the second half of [bmap] does: the entry of block [bn] in the indirect
    block. *)
Record ind_post (x : superblock) (V : Z → block) (di : dinode) (bn addr : Z) (V' : Z → block) : Prop := {
  nd_old : blockmap V di bn ≠ 0 → addr = blockmap V di bn ∧ V' = V;
  nd_new : blockmap V di bn = 0 →
    free x V addr ∧ (∀ i, 0 ≤ i < BSIZE → load8 (V' addr) i = 0) ∧ in_use x V' addr;
  nd_addr : blockmap V' di bn = addr;
  nd_other b : b ≠ bn → 0 ≤ b < MAXFILE → blockmap V' di b = blockmap V di b;
  nd_use n : in_use x V n → in_use x V' n;
  nd_meta : meta_used x V';
  nd_grow : grow_post x V V' (λ n, n = addrs di NDIRECT) 1
}.

(** What [bmap] of block [bn] does to a file. *)
Record bmap_post (x : superblock) (V : Z → block) (di : dinode) (bn addr : Z) (V' : Z → block)
    (di' : dinode) : Prop := {
  bm_addr : addr ≠ 0 ∧ blockmap V' di' bn = addr;
  bm_other b : b ≠ bn → 0 ≤ b < MAXFILE → blockmap V' di' b = blockmap V di b;
  bm_old : blockmap V di bn ≠ 0 → V' = V ∧ di' = di;
  bm_new : blockmap V di bn = 0 → free x V addr ∧ ∀ i, 0 ≤ i < BSIZE → load8 (V' addr) i = 0;
  bm_fields : itype di' = itype di ∧ major di' = major di ∧ minor di' = minor di ∧
    nlink di' = nlink di ∧ isize di' = isize di;
  bm_ok : file_ok x V' di';
  bm_meta : meta_used x V';
  bm_use n : in_use x V n → in_use x V' n;
  bm_ind n : in_use x V n → n = addrs di' NDIRECT → n = addrs di NDIRECT;
  bm_grow : grow_post x V V' (λ n, n = addrs di NDIRECT) 2
}.

(** * Lemmas *)

Section alloc.
Context (x : superblock) (Hx : sb_ok x).

Lemma nfree_le V j k : nfree x V k → (j ≤ k)%nat → nfree x V j.
Proof.
  intros (l & Hnd & Hlen & Hl) Hle. exists (take j l). split_and!.
  - eapply sublist_NoDup; [done|apply sublist_take].
  - rewrite length_take. lia.
  - intros n Hn. apply Hl. by eapply subseteq_take.
Qed.

Lemma nfree_exists V k : nfree x V (Datatypes.S k) → ∃ n, 0 ≤ n < sb_size x ∧ free x V n.
Proof.
  intros (l & _ & Hlen & Hl). destruct l as [|n l]; [done|]. exists n. apply Hl. by left.
Qed.

Lemma grow_refl V own : grow_post x V V own 0.
Proof. split; try done. intros j. by rewrite Nat.add_0_r. Qed.

Lemma grow_trans V V1 V2 own own1 own2 j k :
  grow_post x V V1 own1 j → grow_post x V1 V2 own2 k →
  (∀ n, own1 n → own n) → (∀ n, in_use x V n → in_use x V1 n) → (∀ n, in_use x V n → own2 n → own n) →
  grow_post x V V2 own (j + k).
Proof.
  intros [Hm1 Hu1 Hf1 Hn1] [Hm2 Hu2 Hf2 Hn2] Ho1 Hiu Ho2. split.
  - intros n Hn. by rewrite Hm2, Hm1.
  - intros n Hn Ho. rewrite Hu2, Hu1 by eauto. done.
  - auto.
  - intros i Hi. apply Hn2, Hn1. by rewrite <-Nat.add_assoc, (Nat.add_comm k j).
Qed.

Lemma alloc_in_use V b V' n : alloc_post x V b V' → in_use x V n → in_use x V' n ∧ n ≠ b.
Proof.
  intros Ha [Hr Hu]. pose proof (al_free _ _ _ _ Ha). pose proof (data_start_pos x Hx).
  split; [|by intros ->]. split; [done|]. rewrite (al_bitmap _ _ _ _ Ha) by lia. tauto.
Qed.

Lemma alloc_grow V b V' : alloc_post x V b V' → grow_post x V V' (λ _, False) 1.
Proof.
  intros Ha. pose proof (data_start_pos x Hx) as Hds. pose proof (so_size _ Hx). pose proof (so_order _ Hx).
  assert (0 ≤ (sb_size x - 1) / BPB) by (apply Z.div_pos; [lia|done]).
  pose proof (al_range _ _ _ _ Ha) as Hr. split.
  - intros n Hn. apply (al_other _ _ _ _ Ha); [lia|]. unfold data_start in *. lia.
  - intros n Hn _. destruct (alloc_in_use _ _ _ _ Ha Hn) as [_ Hne]. destruct Hn as [Hn _].
    apply (al_other _ _ _ _ Ha); [lia|done].
  - intros n Hn. rewrite (al_bitmap _ _ _ _ Ha) by done. tauto.
  - intros j (l & Hnd & Hlen & Hl).
    assert (∀ l, NoDup l → (length l ≤ Datatypes.S (length (filter (λ i, i ≠ b) l)))%nat) as Hfl.
    { clear. induction l as [|y l IH]; intros [Hy Hnd]%NoDup_cons || (intros _; simpl; lia).
      destruct (decide (y = b)) as [->|Hne].
      - rewrite filter_cons_False by naive_solver. rewrite filter_ne_id by done. simpl. lia.
      - rewrite filter_cons_True by done. simpl. specialize (IH Hnd). lia. }
    specialize (Hfl l Hnd). eapply (nfree_le _ _ (length (filter (λ i, i ≠ b) l))); [|lia].
    exists (filter (λ i, i ≠ b) l). split_and!; [by apply NoDup_filter|done|].
    intros n [Hne Hn]%list_elem_of_filter. destruct (Hl n Hn). split; [done|].
    by rewrite (al_bitmap _ _ _ _ Ha).
Qed.

Lemma alloc_meta V b V' : alloc_post x V b V' → meta_used x V → meta_used x V'.
Proof.
  intros Ha Hm n Hn. pose proof (so_data _ Hx). rewrite (al_bitmap _ _ _ _ Ha) by lia.
  intros [? _]. by destruct (Hm n Hn).
Qed.

End alloc.

Section file.
Context (x : superblock) (Hx : sb_ok x).

Lemma in_use_pos V n : in_use x V n → 0 < n.
Proof.
  intros [Hn _]. pose proof (so_istart _ Hx). pose proof (so_order _ Hx).
  assert (0 ≤ (sb_ninodes x - 1) / IPB) by (apply Z.div_pos; [pose proof (so_inodes _ Hx); lia|done]).
  assert (0 ≤ (sb_size x - 1) / BPB) by (apply Z.div_pos; [pose proof (so_size _ Hx); lia|done]).
  unfold data_start in Hn. lia.
Qed.

Lemma blockmap_ext V V' di bn :
  (addrs di NDIRECT ≠ 0 → V' (addrs di NDIRECT) = V (addrs di NDIRECT)) →
  blockmap V' di bn = blockmap V di bn.
Proof.
  intros HV. unfold blockmap. destruct (bn <? NDIRECT); [done|].
  destruct (Z.eqb_spec (addrs di NDIRECT) 0); [done|]. by rewrite HV.
Qed.

(** A file keeps its invariant when blocks it does not own are taken. *)
Lemma file_ok_keep V V' di :
  file_ok x V di → (∀ n, in_use x V n → in_use x V' n) →
  (∀ bn, blockmap V' di bn = blockmap V di bn) → file_ok x V' di.
Proof.
  intros [Hu Hi Hinj Hne Hs Hc] Huse Hbm. split; try setoid_rewrite Hbm; auto.
Qed.

(** Adding the block [b] as block [bn0] of a file. *)
Lemma file_ok_add V di V' di' bn0 b :
  file_ok x V di → 0 ≤ bn0 < MAXFILE →
  (∀ n, in_use x V n → in_use x V' n) → in_use x V' b → ¬ in_use x V b →
  blockmap V' di' bn0 = b →
  (∀ bn, 0 ≤ bn < MAXFILE → bn ≠ bn0 → blockmap V' di' bn = blockmap V di bn) →
  isize di' = isize di → addrs di' NDIRECT = addrs di NDIRECT → file_ok x V' di'.
Proof.
  intros [Hu Hi Hinj Hne Hs Hc] H0 Huse Hb Hnb Hb0 Hbm Es Ei.
  assert (b ≠ addrs di NDIRECT) as Hbi.
  { intros E. apply Hnb. rewrite E. apply Hi. apply in_use_pos in Hb. lia. }
  assert (∀ bn, 0 ≤ bn < MAXFILE → bn ≠ bn0 → blockmap V' di' bn ≠ 0 → blockmap V' di' bn ≠ b) as Hnew.
  { intros bn Hbn Hne' Hz E. apply Hnb. rewrite <-E. rewrite Hbm in Hz |- * by done. by apply Hu. }
  split.
  - intros bn Hbn Hz. destruct (decide (bn = bn0)) as [->|]; [by rewrite Hb0|].
    rewrite Hbm in Hz |- * by done. auto.
  - rewrite Ei. auto.
  - intros b1 b2 H1 H2 E Hz. destruct (decide (b1 = bn0)) as [->|N1], (decide (b2 = bn0)) as [->|N2]; [done| | |].
    + rewrite Hb0 in E, Hz. exfalso. apply (Hnew b2); [done|done|congruence|done].
    + rewrite Hb0 in E. exfalso. by apply (Hnew b1).
    + rewrite (Hbm b1), ?(Hbm b2) in E by done. rewrite (Hbm b1) in Hz by done. by apply Hinj.
  - intros bn Hbn Hz. rewrite Ei. destruct (decide (bn = bn0)) as [->|]; [by rewrite Hb0|].
    rewrite Hbm in Hz |- * by done. auto.
  - by rewrite Es.
  - intros bn Hbn. rewrite Es. intros Hlt. destruct (decide (bn = bn0)) as [->|].
    + rewrite Hb0. apply in_use_pos in Hb. lia.
    + rewrite Hbm; [auto| |done]. unfold BSIZE in *. lia.
Qed.

(** Allocating the indirect block. *)
Lemma file_ok_ind V di V' b :
  file_ok x V di → addrs di NDIRECT = 0 →
  (∀ n, in_use x V n → in_use x V' n) → in_use x V' b → ¬ in_use x V b →
  (∀ i, 0 ≤ i < BSIZE → load8 (V' b) i = 0) →
  let di' := set_addr NDIRECT b di in
  file_ok x V' di' ∧ ∀ bn, 0 ≤ bn < MAXFILE → blockmap V' di' bn = blockmap V di bn.
Proof.
  intros [Hu Hi Hinj Hne Hs Hc] E0 Huse Hb Hnb Hz di'.
  assert (∀ bn, 0 ≤ bn < MAXFILE → blockmap V' di' bn = blockmap V di bn) as Hbm.
  { intros bn Hbn. unfold blockmap, di', set_addr. cbn [addrs]. rewrite fset_eq, E0.
    destruct (Z.ltb_spec bn NDIRECT); [by rewrite fset_ne by lia|].
    pose proof (in_use_pos _ _ Hb). destruct (Z.eqb_spec b 0); [done|].
    transitivity (load32 (λ _, 0) (4 * (bn - NDIRECT))).
    - apply load32_ext. intros y Hy. rewrite Hz; [done|].
      unfold MAXFILE, NINDIRECT, NDIRECT, BSIZE in *. change (1024 / 4) with 256 in Hbn. lia.
    - vm_compute. done. }
  split; [|done]. split.
  - intros bn Hbn. rewrite Hbm by done. auto.
  - intros _. unfold di', set_addr. cbn [addrs]. by rewrite fset_eq.
  - intros b1 b2 H1 H2. rewrite !Hbm by done. auto.
  - intros bn Hbn. rewrite Hbm by done. unfold di', set_addr. cbn [addrs]. rewrite fset_eq.
    intros Hz' E. apply Hnb. rewrite <-E. auto.
  - done.
  - intros bn Hbn Hlt. simpl in Hlt. rewrite Hbm; [auto|]. unfold BSIZE in *. lia.
Qed.

Lemma alloc_new V b V' : alloc_post x V b V' → in_use x V' b ∧ ¬ in_use x V b ∧ (∀ n, in_use x V n → in_use x V' n).
Proof.
  intros Ha. pose proof (al_range _ _ _ _ Ha). pose proof (data_start_pos x Hx). split_and!.
  - split; [done|]. rewrite (al_bitmap _ _ _ _ Ha) by lia. tauto.
  - intros [_ Hn]. exact (Hn (al_free _ _ _ _ Ha)).
  - intros n Hn. exact (proj1 (alloc_in_use x Hx V b V' n Ha Hn)).
Qed.

Lemma alloc_used_same V b V' n : alloc_post x V b V' → in_use x V n → V' n = V n.
Proof. intros Ha Hn. apply (gp_used _ _ _ _ _ (alloc_grow x Hx _ _ _ Ha)); [done|tauto]. Qed.

(** The entry is there. *)
Lemma ind_post_old V di bn : meta_used x V → blockmap V di bn ≠ 0 → ind_post x V di bn (blockmap V di bn) V.
Proof. intros Hm Hz. split; try done. split; try done. intros j Hj. eapply nfree_le; [done|lia]. Qed.

(** The entry is added for a new block [b]. *)
Lemma ind_post_new V di bn b V2 :
  let ind := addrs di NDIRECT in
  file_ok x V di → meta_used x V → NDIRECT ≤ bn < MAXFILE → ind ≠ 0 → blockmap V di bn = 0 → alloc_post x V b V2 →
  ind_post x V di bn b (fset V2 ind (store32 (V2 ind) (4 * (bn - NDIRECT)) b)).
Proof.
  intros ind Hok Hmeta Hbn Hind E0 Ha. assert (in_use x V ind) as Hu by exact (fo_ind _ _ _ Hok Hind).
  destruct (alloc_new _ _ _ Ha) as (Hb2 & Hnb & Huse2). pose proof (alloc_used_same _ _ _ _ Ha Hu) as EV2.
  pose proof (alloc_grow x Hx _ _ _ Ha) as Hg2. pose proof (so_size _ Hx). pose proof (data_start_pos x Hx).
  rewrite EV2. set (V3 := fset V2 ind _).
  assert (∀ n, 0 ≤ n < sb_size x → free x V3 n ↔ free x V2 n) as Hf3.
  { intros n Hn. unfold free, V3. rewrite fset_ne; [done|]. destruct (BBLOCK_eq x n Hx Hn), Hu. lia. }
  assert (∀ n, in_use x V2 n → in_use x V3 n) as Huse3.
  { intros n [Hn ?]. split; [done|]. rewrite Hf3; [done|lia]. }
  assert (0 ≤ b < 2 ^ 31 ∧ b ≠ ind) as [Hbr Hbi].
  { pose proof (al_range _ _ _ _ Ha). split; [lia|]. intros ->. done. }
  split.
  - done.
  - intros _. split_and!; [apply (al_free _ _ _ _ Ha)| |by apply Huse3].
    intros i Hi. unfold V3. rewrite fset_ne by done. by apply (al_zero _ _ _ _ Ha).
  - unfold blockmap. destruct (Z.ltb_spec bn NDIRECT); [lia|]. fold ind.
    destruct (Z.eqb_spec ind 0); [done|]. unfold V3. rewrite fset_eq, load32_store32. apply u32_small. lia.
  - intros c Hc Hcr. unfold blockmap. fold ind. destruct (Z.ltb_spec c NDIRECT); [done|].
    destruct (Z.eqb_spec ind 0); [done|]. unfold V3. rewrite fset_eq, load32_store32_ne by lia. done.
  - auto.
  - intros n Hn. rewrite Hf3 by (pose proof (so_data _ Hx); lia). by apply (alloc_meta x Hx _ _ _ Ha Hmeta).
  - eapply (grow_trans x V V2 V3 _ (λ _, False) (λ n, n = ind) 1 0); [done| |done|done|done].
    split.
    + intros n Hn. unfold V3. rewrite fset_ne; [done|]. intros ->. destruct Hu as [Hu _]. unfold data_start in *.
      assert (0 ≤ (sb_size x - 1) / BPB) by (apply Z.div_pos; [lia|done]). lia.
    + intros n _ Hn. unfold V3. by rewrite fset_ne.
    + intros n Hn. by rewrite Hf3.
    + intros j (l & ? & ? & Hl). exists l. split_and!; [done|lia|]. intros n Hn.
      destruct (Hl n Hn). by rewrite Hf3.
Qed.

End file.

Section code.
Context {S : Type} `{BlockStore S}.
Context (x : superblock) (Hx : sb_ok x) (Hlog : loggable x).

(** The state with other blocks and another on-disk part of entry [ip]. *)
Definition with_file (b : S) (ip : Z) (di : dinode) (s s' : fsys S) : Prop :=
  blk s' = b ∧ sb s' = sb s ∧ f_pid s' = f_pid s ∧ cwd s' = cwd s ∧
  ∀ j, icache s' j = if j =? ip then set_din (λ _, di) (icache s ip) else icache s j.

Lemma with_file_refl b s ip : with_file b ip (din (icache s ip)) s (set_blk b s).
Proof.
  split_and!; try done. intros j. simpl. destruct (Z.eqb_spec j ip) as [->|]; [|done].
  by destruct (icache s ip).
Qed.

Lemma with_file_upd b ip di f s s' :
  with_file b ip di s s' →
  with_file b ip (f di) s (Fsys (blk s') (fset (icache s') ip (set_din f (icache s' ip))) (sb s') (f_pid s') (cwd s') (f_woken s')).
Proof.
  intros (Eb & Es & Ep & Ec & Ei). split_and!; try done. intros j. simpl. unfold fset.
  destruct (Z.eqb_spec j ip) as [->|Hj].
  - rewrite Ei, Z.eqb_refl. done.
  - rewrite Ei. by destruct (Z.eqb_spec j ip).
Qed.

Lemma with_file_blk b b' ip di s s' : with_file b ip di s s' → with_file b' ip di s (set_blk b' s').
Proof. intros (Eb & Es & Ep & Ec & Ei). by split_and!. Qed.

Lemma with_file_trans b b' ip di di' s s1 s2 :
  with_file b ip di s s1 → with_file b' ip di' s1 s2 → with_file b' ip di' s s2.
Proof.
  intros (Eb & Es & Ep & Ec & Ei) (Eb' & Es' & Ep' & Ec' & Ei'). split_and!; try congruence.
  intros j. rewrite Ei'. destruct (Z.eqb_spec j ip) as [->|Hj].
  - rewrite Ei, Z.eqb_refl. done.
  - rewrite Ei. by destruct (Z.eqb_spec j ip).
Qed.

Lemma with_file_din b ip di s s' : with_file b ip di s s' →
  din (icache s' ip) = di ∧ i_dev (icache s' ip) = i_dev (icache s ip) ∧
  inum (icache s' ip) = inum (icache s ip).
Proof. intros (_ & _ & _ & _ & Ei). rewrite Ei, Z.eqb_refl. done. Qed.

(** ** bmap *)

(** The second half of [bmap]: the entry in the indirect block. *)
Lemma wp_bmap_ind V L s di bn (Q : Z → fsys S → Prop) :
  sb s = x → bs_inv V L ∅ ∅ (blk s) → meta_used x V → file_ok x V di → room L ∅ 4 →
  nfree x V 1 → NDIRECT ≤ bn < MAXFILE → addrs di NDIRECT ≠ 0 →
  (∀ addr V' L' s', bs_inv V' L' ∅ ∅ s' → (length L' ≤ length L + 3)%nat → ind_post x V di bn addr V' →
     Q addr (set_blk s' s)) →
  wp (bp ← on_blk (bs_bread ROOTDEV (addrs di NDIRECT));
      a ← on_blk (bs_get bp);
      addr ← (if load32 a (4 * (bn - NDIRECT)) =? 0 then
                addr ← balloc ROOTDEV;
                a ← on_blk (bs_get bp);
                on_blk (bs_put bp (store32 a (4 * (bn - NDIRECT)) addr)) ;;
                on_blk (bs_log_write bp) ;;
                mret addr
              else mret (load32 a (4 * (bn - NDIRECT))));
      on_blk (bs_brelse bp) ;;
      mret addr) Q s.
Proof.
  intros Es Hinv Hmeta Hok Hr Hnf Hbn Hind HQ. set (ind := addrs di NDIRECT) in *.
  assert (in_use x V ind) as Hu by exact (fo_ind _ _ _ Hok Hind).
  pose proof (so_size _ Hx). pose proof (data_start_pos x Hx) as Hds.
  assert (blockmap V di bn = load32 (V ind) (4 * (bn - NDIRECT))) as Ebm.
  { unfold blockmap. destruct (Z.ltb_spec bn NDIRECT); [lia|]. by destruct (Z.eqb_spec (addrs di NDIRECT) 0). }
  wp_step. eapply wp_bread_blk; [done|destruct Hu; unfold ind in *; lia|set_solver|by apply (room_le _ _ 4); [|lia]|].
  intros bp s1 Hs1. wp_step. eapply (wp_get_blk _ _ _ _ _ ind); [done|by rewrite lookup_insert_eq|].
  rewrite <-Ebm. wp_step. destruct (Z.eqb_spec (blockmap V di bn) 0) as [E0|E0].
  - wp_step. eapply (wp_balloc x Hx Hlog V L (<[ind:=bp]> ∅) ∅); [done|done|done| | |by eapply nfree_exists|].
    { intros n. rewrite dom_insert_L, dom_empty_L, union_empty_r_L, elem_of_singleton. intros ->.
      destruct Hu as [? ?]. split; [lia|done]. }
    { unfold room in *. rewrite map_size_insert_None by done. rewrite map_size_empty in *. lia. }
    intros b V2 L2 s2 Ha Hs2 HL2.
    pose proof (alloc_used_same x Hx _ _ _ _ Ha Hu) as EV2.
    wp_step. eapply (wp_get_blk _ _ _ _ _ ind); [exact Hs2|by rewrite lookup_insert_eq|]. rewrite EV2.
    wp_step. apply wp_on_blk. eapply bs_put_ok; [exact Hs2|by rewrite lookup_insert_eq|]. intros s3 Hs3.
    wp_step. apply wp_on_blk.
    eapply bs_log_write_ok; [exact Hs3|by rewrite lookup_insert_eq| | |].
    { apply Hlog. destruct Hu. pose proof (so_order _ Hx).
      assert (0 ≤ (sb_ninodes x - 1) / IPB) by (apply Z.div_pos; [pose proof (so_inodes _ Hx); lia|done]).
      assert (0 ≤ (sb_size x - 1) / BPB) by (apply Z.div_pos; [lia|done]). unfold data_start in *. lia. }
    { unfold room in Hr. lia. }
    intros s4 Hs4. wp_run. apply wp_on_blk.
    eapply bs_brelse_ok; [exact Hs4|by rewrite lookup_insert_eq|set_solver|]. intros s5 Hs5.
    rewrite delete_insert_id in Hs5 by done.
    replace (({[ind]} ∪ ∅) ∖ {[ind]}) with (∅ : gset Z) in Hs5 by set_solver. fold (log_add L2 ind) in Hs5.
    set (V3 := fset V2 ind _) in *.
    wp_step. apply (HQ b V3 (log_add L2 ind) s5); [done| |].
    + pose proof (log_add_length L2 ind). lia.
    + unfold V3. rewrite <-EV2. by apply ind_post_new.
  - wp_run. eapply wp_release_blk; [exact Hs1|done|set_solver|]. intros s2 Hs2. wp_step.
    apply (HQ _ V L s2); [done|lia|by apply ind_post_old].
Qed.

Lemma bmap_post_old V di bn :
  file_ok x V di → meta_used x V → blockmap V di bn ≠ 0 →
  bmap_post x V di bn (blockmap V di bn) V di.
Proof.
  intros Hok Hm Hz. split; try done. split; try done.
  intros j Hj. eapply nfree_le; [done|lia].
Qed.

(** A direct block. *)
Lemma bmap_post_direct V di bn b V' :
  file_ok x V di → meta_used x V → 0 ≤ bn < NDIRECT → addrs di bn = 0 → alloc_post x V b V' →
  bmap_post x V di bn b V' (set_addr bn b di).
Proof.
  intros Hok Hm Hbn E0 Ha. destruct (alloc_new x Hx _ _ _ Ha) as (Hb & Hnb & Huse).
  assert (0 ≤ bn < MAXFILE) as HbnM by (unfold MAXFILE, NINDIRECT, BSIZE; change (1024 / 4) with 256; lia).
  set (di' := set_addr bn b di).
  assert (addrs di' NDIRECT = addrs di NDIRECT) as Ei by (unfold di', set_addr; simpl; apply fset_ne; lia).
  assert (blockmap V' di' bn = b) as Ebn.
  { unfold blockmap. destruct (Z.ltb_spec bn NDIRECT); [|lia]. unfold di', set_addr. simpl. apply fset_eq. }
  assert (blockmap V di bn = 0) as Ez.
  { unfold blockmap. by destruct (Z.ltb_spec bn NDIRECT); [|lia]. }
  assert (∀ c, c ≠ bn → blockmap V' di' c = blockmap V di c) as Ebm.
  { intros c Hc. unfold blockmap. rewrite Ei. destruct (Z.ltb_spec c NDIRECT).
    - unfold di', set_addr. simpl. by apply fset_ne.
    - destruct (Z.eqb_spec (addrs di NDIRECT) 0) as [|Hi]; [done|].
      by rewrite (alloc_used_same x Hx _ _ _ _ Ha (fo_ind _ _ _ Hok Hi)). }
  split.
  - split; [|done]. apply (in_use_pos x Hx) in Hb. lia.
  - intros c Hc _. auto.
  - done.
  - intros _. split; [apply (al_free _ _ _ _ Ha)|apply (al_zero _ _ _ _ Ha)].
  - done.
  - eapply (file_ok_add x Hx V di V' di' bn b); auto.
  - by eapply alloc_meta.
  - done.
  - intros n _. by rewrite Ei.
  - destruct (alloc_grow x Hx _ _ _ Ha) as [Hg1 Hg2 Hg3 Hg4]. split; [done|auto|done|].
    intros j Hj. apply Hg4. eapply nfree_le; [done|lia].
Qed.

(** The indirect block allocated, then one of its entries. *)
Lemma bmap_post_indirect V di V1 di1 bn addr V' k :
  file_ok x V di → NDIRECT ≤ bn < MAXFILE →
  file_ok x V1 di1 → (∀ c, 0 ≤ c < MAXFILE → blockmap V1 di1 c = blockmap V di c) →
  grow_post x V V1 (λ _, False) k → (k ≤ 1)%nat → (∀ n, in_use x V n → in_use x V1 n) →
  itype di1 = itype di ∧ major di1 = major di ∧ minor di1 = minor di ∧ nlink di1 = nlink di ∧
    isize di1 = isize di →
  (∀ n, in_use x V n → n = addrs di1 NDIRECT → n = addrs di NDIRECT) →
  (blockmap V di bn ≠ 0 → V1 = V ∧ di1 = di) →
  ind_post x V1 di1 bn addr V' →
  bmap_post x V di bn addr V' di1.
Proof.
  intros Hok Hbn Hok1 Hbm1 Hg1 Hk Huse1 Hflds Hown Hsame [Hold Hnew Eaddr Hoth Huse' Hm' Hg'].
  assert (0 ≤ bn < MAXFILE) as HbnM by (unfold NDIRECT in *; lia).
  assert (file_ok x V' di1) as Hok'.
  { destruct (decide (blockmap V1 di1 bn = 0)) as [E|E].
    - destruct (Hnew E) as (Hf & _ & Hu). eapply (file_ok_add x Hx V1 di1 V' di1 bn addr); auto.
      intros [_ Hn]. by destruct Hn.
    - by destruct (Hold E) as [_ ->]. }
  split.
  - split; [|done]. destruct (decide (blockmap V1 di1 bn = 0)) as [E|E].
    + destruct (Hnew E) as (_ & _ & Hu). apply (in_use_pos x Hx) in Hu. lia.
    + by destruct (Hold E) as [-> _].
  - intros b Hb Hbr. rewrite Hoth, Hbm1; done.
  - intros Hz. destruct (Hsame Hz) as [-> ->]. by destruct (Hold Hz).
  - intros Hz. rewrite <-Hbm1 in Hz by done. destruct (Hnew Hz) as (Hf & Hzero & Hu). split; [|done].
    destruct Hu as [Hr _]. apply (gp_free _ _ _ _ _ Hg1); [|done]. pose proof (data_start_pos x Hx). lia.
  - done.
  - done.
  - done.
  - auto.
  - done.
  - pose proof (grow_trans x V V1 V' (λ n, n = addrs di NDIRECT) _ _ k 1 Hg1 Hg') as Hg.
    destruct Hg as [Ha Hb Hc Hd]; [done|done|auto|]. split; [done|done|done|].
    intros j Hj. apply Hd. eapply nfree_le; [done|lia].
Qed.

(** A block behind a new indirect block, and behind one that is there. *)
Lemma bmap_post_fresh V di bn b V1 addr V' :
  file_ok x V di → NDIRECT ≤ bn < MAXFILE → addrs di NDIRECT = 0 → alloc_post x V b V1 →
  ind_post x V1 (set_addr NDIRECT b di) bn addr V' → bmap_post x V di bn addr V' (set_addr NDIRECT b di).
Proof.
  intros Hok Hbn E0 Ha Hind. destruct (alloc_new x Hx _ _ _ Ha) as (Hb & Hnb & Huse).
  destruct (file_ok_ind x Hx V di V1 b Hok E0 Huse Hb Hnb (al_zero _ _ _ _ Ha)) as [Hok1 Hbm1].
  eapply (bmap_post_indirect V di V1 _ bn addr V' 1); try done; [by eapply (alloc_grow x Hx)| |].
  - intros n Hn. unfold set_addr. simpl. rewrite fset_eq. intros ->. done.
  - intros Hz. exfalso. apply Hz. unfold blockmap. destruct (Z.ltb_spec bn NDIRECT); [lia|]. by rewrite E0.
Qed.

Lemma bmap_post_has V di bn addr V' :
  file_ok x V di → NDIRECT ≤ bn < MAXFILE → ind_post x V di bn addr V' → bmap_post x V di bn addr V' di.
Proof.
  intros Hok Hbn Hind. eapply (bmap_post_indirect V di V di bn addr V' 0); try done; [apply grow_refl|lia].
Qed.

Lemma wp_bmap V L s ip bn (Q : Z → fsys S → Prop) :
  sb s = x → i_dev (icache s ip) = ROOTDEV → bs_inv V L ∅ ∅ (blk s) → meta_used x V →
  file_ok x V (din (icache s ip)) → room L ∅ 6 → nfree x V 2 → 0 ≤ bn < MAXFILE →
  (∀ addr V' di' L' s', bmap_post x V (din (icache s ip)) bn addr V' di' →
     bs_inv V' L' ∅ ∅ (blk s') → (length L' ≤ length L + 5)%nat →
     with_file (blk s') ip di' s s' → Q addr s') →
  wp (bmap ip bn) Q s.
Proof.
  intros Es Hdev Hinv Hm Hok Hr Hnf Hbn HQ. set (di := din (icache s ip)) in *.
  unfold bmap, geti. wp_run. rewrite Hdev. fold di.
  assert (held_data_blocks x V ∅) as Hh0 by (intros n Hn; set_solver).
  destruct (Z.ltb_spec bn NDIRECT) as [Hlt|Hge].
  - assert (blockmap V di bn = addrs di bn) as Ebm.
    { unfold blockmap. by destruct (Z.ltb_spec bn NDIRECT); [|lia]. }
    destruct (Z.eqb_spec (addrs di bn) 0) as [E0|E0].
    + wp_step. eapply (wp_balloc x Hx Hlog V L ∅ ∅); [done|done|done|done|by apply (room_le _ _ 6); [|lia]|by eapply nfree_exists|].
      intros b V' L' s1 Ha Hs1 HL. unfold updi. wp_run.
      eapply (HQ b V' _ L'); [apply (bmap_post_direct V di bn b V'); [done|done|lia|done|done]|done|lia|].
      apply (with_file_upd s1 ip di (set_addr bn b) s (set_blk s1 s)). apply with_file_refl.
    + wp_run. rewrite <-Ebm in E0 |- *. destruct s as [bs ic sb0 pid cw].
      eapply (HQ _ V di L); [by apply bmap_post_old|done|lia|]. apply with_file_refl.
  - destruct (Z.ltb_spec (bn - NDIRECT) NINDIRECT) as [_|Hbad]; [|unfold MAXFILE in *; lia].
    wp_step. destruct (Z.eqb_spec (addrs di NDIRECT) 0) as [E0|E0].
    + wp_step. eapply (wp_balloc x Hx Hlog V L ∅ ∅); [done|done|done|done|by apply (room_le _ _ 6); [|lia]|by eapply nfree_exists|].
      intros b V1 L1 s1 Ha Hs1 HL1. unfold updi. do 3 wp_step.
      destruct (alloc_new x Hx _ _ _ Ha) as (Hb & Hnb & Huse).
      destruct (file_ok_ind x Hx V di V1 b Hok E0 Huse Hb Hnb (al_zero _ _ _ _ Ha)) as [Hok1 Hbm1].
      set (di1 := set_addr NDIRECT b di) in *. pose proof (alloc_grow x Hx _ _ _ Ha) as Hg1.
      assert (addrs di1 NDIRECT = b) as Eind by (unfold di1, set_addr; simpl; apply fset_eq).
      match goal with |- wp _ _ ?st => set (s2 := st) end.
      assert (with_file s1 ip di1 s s2) as Hw.
      { apply (with_file_upd s1 ip di (set_addr NDIRECT b) s (set_blk s1 s)). apply with_file_refl. }
      rewrite <-Eind. eapply (wp_bmap_ind V1 L1 s2 di1 bn); [done|done|by eapply alloc_meta|done| | |lia| |].
      { unfold room in *. rewrite map_size_empty in *. lia. }
      { apply (gp_nfree _ _ _ _ _ Hg1). done. }
      { rewrite Eind. apply (in_use_pos x Hx) in Hb. lia. }
      intros addr V' L' s3 Hs3 HL3 Hind.
      eapply (HQ addr V' di1 L'); [|done|lia|by eapply with_file_blk].
      apply (bmap_post_fresh V di bn b V1); [done|lia|done|done|done].
    + wp_step. eapply (wp_bmap_ind V L s di bn); [done|done|done|done|by apply (room_le _ _ 6); [|lia]| |lia|done|].
      { eapply nfree_le; [done|lia]. }
      intros addr V' L' s3 Hs3 HL3 Hind.
      eapply (HQ addr V' di L'); [|done|lia|by apply with_file_refl].
      apply bmap_post_has; [done|lia|done].
Qed.

(** [bmap] of a block that the file has: nothing changes. *)
Lemma wp_bmap_mapped V L s ip bn (Q : Z → fsys S → Prop) :
  i_dev (icache s ip) = ROOTDEV → bs_inv V L ∅ ∅ (blk s) → file_ok x V (din (icache s ip)) →
  room L ∅ 0 → 0 ≤ bn < MAXFILE → blockmap V (din (icache s ip)) bn ≠ 0 →
  (∀ s', bs_inv V L ∅ ∅ s' → Q (blockmap V (din (icache s ip)) bn) (set_blk s' s)) →
  wp (bmap ip bn) Q s.
Proof.
  intros Hdev Hinv Hok Hr Hbn Hz HQ. set (di := din (icache s ip)) in *.
  unfold bmap, geti. wp_run. rewrite Hdev. fold di. pose proof Hz as Hz'. unfold blockmap in Hz', HQ.
  destruct (Z.ltb_spec bn NDIRECT) as [Hlt|Hge].
  - destruct (Z.eqb_spec (addrs di bn) 0) as [E0|E0]; [done|]. wp_run.
    destruct s as [bs ic sb0 pid cw]. by apply (HQ bs).
  - destruct (Z.ltb_spec (bn - NDIRECT) NINDIRECT) as [_|Hbad]; [|unfold MAXFILE in *; lia].
    destruct (Z.eqb_spec (addrs di NDIRECT) 0) as [E0|E0]; [done|].
    pose proof (fo_ind _ _ _ Hok E0) as [Hu _]. pose proof (so_size _ Hx). pose proof (data_start_pos x Hx).
    wp_step. wp_step. wp_step. eapply wp_bread_blk; [done|lia|set_solver|done|].
    intros bp s1 Hs1. wp_step. eapply (wp_get_blk _ _ _ _ _ (addrs di NDIRECT)); [done|by rewrite lookup_insert_eq|].
    destruct (Z.eqb_spec (load32 (V (addrs di NDIRECT)) (4 * (bn - NDIRECT))) 0); [done|].
    wp_step. wp_step. wp_step. eapply wp_release_blk; [exact Hs1|done|set_solver|]. intros s2 Hs2. wp_step.
    by apply (HQ s2).
Qed.

(** ** readi *)

(** The bytes of a file from offset [off] on. *)
Definition file_bytes (V : Z → block) (di : dinode) (off n : Z) : list Z :=
  (λ i, file_byte V di (off + i)) <$> seqZ 0 n.

Lemma file_bytes_app V di off a b : 0 ≤ a → 0 ≤ b →
  file_bytes V di off (a + b) = file_bytes V di off a ++ file_bytes V di (off + a) b.
Proof.
  intros Ha Hb. unfold file_bytes. rewrite seqZ_app, fmap_app by done. f_equal.
  apply list_eq. intros i. rewrite !list_lookup_fmap. destruct (decide (Z.of_nat i < b)).
  - rewrite !lookup_seqZ_lt by lia. simpl. do 2 f_equal. lia.
  - rewrite !lookup_seqZ_ge by lia. done.
Qed.

(** One chunk lies in one block of the file. *)
Lemma chunk_bytes V di off m :
  0 ≤ off → 0 ≤ m → m ≤ BSIZE - off `mod` BSIZE →
  load_bytes (Z.to_nat m) (V (blockmap V di (off / BSIZE))) (off `mod` BSIZE) = file_bytes V di off m.
Proof.
  intros Ho Hm Hle. apply list_eq. intros i. unfold file_bytes. rewrite list_lookup_fmap.
  destruct (decide (Z.of_nat i < m)).
  - rewrite lookup_load_bytes by lia. rewrite lookup_seqZ_lt by lia. simpl. unfold file_byte.
    unfold BSIZE in *. rewrite Z.add_0_l.
    replace ((off + Z.of_nat i) / 1024) with (off / 1024) by dlia.
    by replace ((off + Z.of_nat i) `mod` 1024) with (off `mod` 1024 + Z.of_nat i) by dlia.
  - rewrite lookup_seqZ_ge by lia. rewrite lookup_ge_None_2; [done|]. rewrite length_load_bytes. lia.
Qed.

(** Iterations left for [r] bytes at offset [off]: one per block touched, and
    the last test of the loop. *)
Definition enough_fuel (fuel : nat) (off r : Z) : Prop :=
  (fuel ≠ 0)%nat ∧ (0 < r → (r + off `mod` BSIZE) / BSIZE + 2 ≤ Z.of_nat fuel).

Lemma fuel_start off n : 0 ≤ off → 0 ≤ n → enough_fuel (io_fuel n) off n.
Proof.
  intros Ho Hn. unfold enough_fuel, io_fuel, BSIZE in *. assert (0 ≤ n / 1024) by dlia.
  split; [lia|]. intros Hr. rewrite Z2Nat.id by lia.
  assert ((n + off `mod` 1024) / 1024 ≤ (n + 1 * 1024) / 1024) by (apply Z.div_le_mono; dlia).
  rewrite Z.div_add in * by lia. lia.
Qed.

Lemma fuel_chunk fuel off r : 0 < r →
  enough_fuel (Datatypes.S fuel) off r →
  enough_fuel fuel (off + Z.min r (BSIZE - off `mod` BSIZE)) (r - Z.min r (BSIZE - off `mod` BSIZE)).
Proof.
  intros Hr [_ Hf]. specialize (Hf Hr). unfold enough_fuel, BSIZE in *.
  pose proof (Z.mod_pos_bound off 1024 ltac:(lia)) as Hb.
  assert (0 ≤ (r + off `mod` 1024) / 1024) by (apply Z.div_pos; lia).
  split; [lia|]. intros Hr'. rewrite (Z.min_r r) in * by lia.
  replace ((off + (1024 - off `mod` 1024)) `mod` 1024) with 0 by dlia.
  replace (r - (1024 - off `mod` 1024) + 0) with (r + off `mod` 1024 + (-1) * 1024) by lia.
  rewrite Z.div_add by lia. lia.
Qed.

Lemma mapped_block V di off :
  file_ok x V di → 0 ≤ off < isize di →
  0 ≤ off / BSIZE < MAXFILE ∧ blockmap V di (off / BSIZE) ≠ 0.
Proof.
  intros Hok Ho. pose proof (fo_size _ _ _ Hok). unfold BSIZE in *. split; [dlia|].
  apply (fo_cover _ _ _ Hok); unfold BSIZE; dlia.
Qed.

(** A destination that does not touch the block store. *)
Definition dst_frame (dst : Z → list Z → M S bool) : Prop :=
  ∀ V L H D s o l, bs_inv V L H D s → wp (dst o l) (λ _ s', bs_inv V L H D s') s.
Definition dst_accepts (dst : Z → list Z → M S bool) : Prop := ∀ s o l, wp (dst o l) (λ ok _, ok = true) s.

Lemma kernel_dst_frame : dst_frame kernel_dst.
Proof. by intros V L ? D s o l Hs. Qed.

Lemma wp_readi_loop fuel V L s ip dst acc tot off n (Q : Z * list Z → fsys S → Prop) :
  i_dev (icache s ip) = ROOTDEV → bs_inv V L ∅ ∅ (blk s) → file_ok x V (din (icache s ip)) →
  room L ∅ 0 → 0 ≤ tot ≤ n → 0 ≤ off → off + (n - tot) ≤ isize (din (icache s ip)) →
  enough_fuel fuel off (n - tot) → dst_frame dst →
  (∀ k s', 0 ≤ k ≤ n - tot → (dst_accepts dst → k = n - tot) →
     bs_inv V L ∅ ∅ s' →
     Q (tot + k, acc ++ file_bytes V (din (icache s ip)) off k) (set_blk s' s)) →
  wp (readi_loop fuel ip dst acc tot off n) Q s.
Proof.
  revert s acc tot off. induction fuel as [|fuel IH];
    intros s acc tot off Hdev Hinv Hok Hr Ht Ho Hle Hfuel Hdst HQ; set (di := din (icache s ip)) in *.
  { by destruct Hfuel. }
  cbn [readi_loop]. destruct (Z.ltb_spec tot n) as [Hlt|Hge].
  2: { wp_run. destruct s as [bs ic sb0 pid cw].
       specialize (HQ 0 bs ltac:(lia) ltac:(intros; lia) Hinv). rewrite Z.add_0_r, app_nil_r in HQ. exact HQ. }
  unfold geti. wp_step. wp_step. rewrite Hdev.
  destruct (mapped_block V di off Hok ltac:(lia)) as [Hbn Hz].
  pose proof (fo_used _ _ _ Hok _ Hbn Hz) as [Hu _]. pose proof (so_size _ Hx). pose proof (data_start_pos x Hx).
  wp_step. eapply wp_bmap_mapped; [done|done|done|done|done|done|]. fold di. intros s1 Hs1.
  wp_step. eapply wp_bread_blk; [exact Hs1|lia|set_solver|done|]. intros bp s2 Hs2.
  wp_step. eapply (wp_get_blk _ _ _ _ _ (blockmap V di (off / BSIZE))); [done|by rewrite lookup_insert_eq|].
  cbv zeta. set (m := Z.min (n - tot) (BSIZE - off `mod` BSIZE)).
  assert (0 < m ≤ BSIZE - off `mod` BSIZE ∧ m ≤ n - tot) as [Hm Hmn] by (unfold m, BSIZE in *; dlia).
  rewrite (chunk_bytes V di off m) by lia.
  wp_step. apply wp_on_blk. cbn [blk set_blk]. destruct (wp_inv _ _ _ (Hdst _ _ _ _ _ tot (file_bytes V di off m) Hs2))
    as (ok & s2' & Ed & Hs2'). eapply wp_of_eq; [exact Ed|]. destruct ok.
  - wp_step. eapply wp_release_blk; [exact Hs2'|done|set_solver|]. intros s3 Hs3.
    eapply (IH (set_blk s3 _) _ (tot + m) (off + m)); try done; cbn [icache set_blk]; fold di; [lia|lia|lia| |].
    + replace (n - (tot + m)) with (n - tot - m) by lia. by apply fuel_chunk; [lia|].
    + intros k s4 Hk Hall Hs4. rewrite <-app_assoc, <-file_bytes_app by lia.
      replace (tot + m + k) with (tot + (m + k)) by lia.
      apply (HQ (m + k) s4); [lia| |done]. intros Hd. specialize (Hall Hd). lia.
  - wp_step. eapply wp_release_blk; [exact Hs2'|done|set_solver|]. intros s3 Hs3. wp_step.
    specialize (HQ 0 s3 ltac:(lia) ltac:(intros Hd; specialize (Hd s2 tot (file_bytes V di off m)); unfold wp in Hd; by rewrite Ed in Hd) Hs3).
    rewrite Z.add_0_r, app_nil_r in HQ. exact HQ.
Qed.

(** What [readi] returns: the bytes of the file that exist. *)
Definition read_len (di : dinode) (off n : Z) : Z := if off >? isize di then 0 else Z.min n (isize di - off).

Lemma wp_readi V L s ip dst off n (Q : Z * list Z → fsys S → Prop) :
  i_dev (icache s ip) = ROOTDEV → bs_inv V L ∅ ∅ (blk s) → file_ok x V (din (icache s ip)) →
  room L ∅ 0 → 0 ≤ off → 0 ≤ n → off + n < 2 ^ 32 → dst_frame dst →
  (∀ k s', 0 ≤ k ≤ read_len (din (icache s ip)) off n →
     (dst_accepts dst → k = read_len (din (icache s ip)) off n) →
     bs_inv V L ∅ ∅ s' →
     Q (k, file_bytes V (din (icache s ip)) off k) (set_blk s' s)) →
  wp (readi ip dst off n) Q s.
Proof.
  intros Hdev Hinv Hok Hr Ho Hn Hmax Hdst HQ. unfold readi, geti. wp_step. wp_step.
  set (di := din (icache s ip)) in *. unfold read_len in HQ.
  destruct (Z.gtb_spec off (isize di)) as [Hgt|Hle]; simpl.
  { wp_run. destruct s as [bs ic sb0 pid cw]. apply (HQ 0 bs); [lia|done|done]. }
  rewrite u32_small by lia. destruct (Z.ltb_spec (off + n) off); [lia|].
  pose proof (fo_size _ _ _ Hok).
  assert (∀ n', n' = Z.min n (isize di - off) →
    wp (readi_loop (io_fuel n') ip dst [] 0 off n') Q s) as Hl.
  { intros n' En. eapply wp_readi_loop; [done|done|done|done|lia|lia|fold di; lia| | |].
    - rewrite Z.sub_0_r. apply fuel_start; lia.
    - done.
    - fold di. intros k s' Hk Hall Hs'. apply (HQ k s'); [lia| |done]. intros Hd. specialize (Hall Hd). lia. }
  destruct (Z.gtb_spec (off + n) (isize di)); apply Hl; lia.
Qed.

End code.
