(* ===== verification/FsWrite.v ===== *)
(** * Writing files: [writei] against the contents of files

    [write_post V di off l V' di'] is what writing the bytes [l] at offset
    [off] of a file does to the disk: the bytes of the range are [l], every
    other byte of the file and every block of other files stays, and the file
    keeps its invariant.  The loop of [writei] is proved to do that, and
    [writei] then to update size and on-disk inode; [readi] reads it back. *)

From S2P Require Import Prelude Machine CString Bio Cache Log Txn Fs FsBlocks FsInode FsFile.

(** The disk blocks of a file. *)
Definition owned (V : Z → block) (di : dinode) (n : Z) : Prop :=
  n = addrs di NDIRECT ∨ ∃ bn, 0 ≤ bn < MAXFILE ∧ blockmap V di bn = n.

Definition same_fields (di di' : dinode) : Prop :=
  itype di' = itype di ∧ major di' = major di ∧ minor di' = minor di ∧ nlink di' = nlink di ∧
  isize di' = isize di.

Record write_post (x : superblock) (V : Z → block) (di : dinode) (off : Z) (l : list Z) (k : nat)
    (V' : Z → block) (di' : dinode) : Prop := {
  wr_new i b : l !! i = Some b → file_byte V' di' (off + Z.of_nat i) = u8 b;
  wr_old p : 0 ≤ p < MAXFILE * BSIZE → ¬ (off ≤ p < off + Z.of_nat (length l)) →
    blockmap V di (p / BSIZE) ≠ 0 → file_byte V' di' p = file_byte V di p;
  wr_map bn : 0 ≤ bn < MAXFILE → blockmap V di bn ≠ 0 → blockmap V' di' bn ≠ 0;
  wr_cover p : off ≤ p < off + Z.of_nat (length l) → blockmap V' di' (p / BSIZE) ≠ 0;
  wr_fields : same_fields di di';
  wr_ok : file_ok x V' di';
  wr_meta : meta_used x V';
  wr_use n : in_use x V n → in_use x V' n;
  wr_owned n : in_use x V n → owned V' di' n → owned V di n;
  wr_frame n : in_use x V n → ¬ owned V di n → V' n = V n;
  wr_inodes n : n < sb_bmapstart x → V' n = V n;
  wr_nfree j : nfree x V (j + k) → nfree x V' j
}.

(** What [writei] does to inode [i] and the disk. *)
Record writei_post (x : superblock) (V : Z → block) (i : Z) (di : dinode) (off : Z) (l : list Z)
    (V' : Z → block) (di' : dinode) : Prop := {
  wi_new k b : l !! k = Some b → file_byte V' di' (off + Z.of_nat k) = u8 b;
  wi_old p : 0 ≤ p < isize di → ¬ (off ≤ p < off + Z.of_nat (length l)) →
    file_byte V' di' p = file_byte V di p;
  wi_size : isize di' = Z.max (isize di) (off + Z.of_nat (length l));
  wi_ok : file_ok x V' di';
  wi_disk : din_eq (inode_at x V' i) di';
  wi_inodes j : 0 ≤ j < sb_ninodes x → j ≠ i → din_eq (inode_at x V' j) (inode_at x V j);
  wi_frame n : in_use x V n → ¬ owned V di n → V' n = V n;
  wi_type : itype di' = itype di
}.

(** The fields of an inode that are C shorts. *)
Definition shorts_ok (di : dinode) : Prop :=
  - 2 ^ 15 ≤ itype di < 2 ^ 15 ∧ - 2 ^ 15 ≤ major di < 2 ^ 15 ∧
  - 2 ^ 15 ≤ minor di < 2 ^ 15 ∧ - 2 ^ 15 ≤ nlink di < 2 ^ 15.

(** * Lemmas *)

Section spec.
Context (x : superblock) (Hx : sb_ok x).

Lemma write_nil V di off : file_ok x V di → meta_used x V → write_post x V di off [] 0 V di.
Proof.
  intros Hok Hm. split; try done; simpl.
  - intros p Hp. lia.
  - intros j. by rewrite Nat.add_0_r.
Qed.

Lemma write_app V di off l1 k1 V1 di1 l2 k2 V2 di2 :
  0 ≤ off → off + Z.of_nat (length (l1 ++ l2)) ≤ MAXFILE * BSIZE →
  write_post x V di off l1 k1 V1 di1 →
  write_post x V1 di1 (off + Z.of_nat (length l1)) l2 k2 V2 di2 →
  write_post x V di off (l1 ++ l2) (k2 + k1) V2 di2.
Proof.
  intros Ho Hmax [N1 O1 M1 C1 F1 K1 T1 U1 W1 R1 I1 G1] [N2 O2 M2 C2 F2 K2 T2 U2 W2 R2 I2 G2].
  rewrite length_app in Hmax.
  assert (∀ p, 0 ≤ p < MAXFILE * BSIZE → 0 ≤ p / BSIZE < MAXFILE) as Hdiv by (intros p Hp; unfold BSIZE in *; dlia).
  split; rewrite ?length_app; auto.
  - intros i b Hi. destruct (decide (i < length l1)%nat) as [Hlt|Hge].
    + rewrite lookup_app_l in Hi by done. rewrite <-(N1 i b Hi). apply O2; [lia|lia|].
      apply C1. lia.
    + rewrite lookup_app_r in Hi by lia. rewrite <-(N2 _ b Hi). f_equal. lia.
  - intros p Hp Hn Hz. rewrite (O2 p Hp); [apply O1; [done|lia|done]|lia|apply M1; auto].
  - intros p Hp. destruct (decide (p < off + Z.of_nat (length l1))).
    + apply M2; [apply Hdiv; lia|]. apply C1. lia.
    + apply C2. lia.
  - unfold same_fields in *. intuition congruence.
  - intros n Hn Hown. rewrite R2, R1; auto.
  - intros n Hn. rewrite I2, I1; auto.
  - intros j Hj. apply G2, G1. by rewrite <-Nat.add_assoc.
Qed.

(** A data block is not part of the bitmap. *)
Lemma free_fset_data V n d k : data_start x ≤ n → 0 ≤ k < sb_size x → free x (fset V n d) k ↔ free x V k.
Proof.
  intros Hn Hk. unfold free. rewrite fset_ne; [done|]. destruct (BBLOCK_eq x k Hx Hk). lia.
Qed.

(** One chunk: [bmap], then the bytes into the block. *)
Lemma write_chunk V di off l addr V1 di1 :
  file_ok x V di → 0 ≤ off < MAXFILE * BSIZE →
  Z.of_nat (length l) ≤ BSIZE - off `mod` BSIZE → off + Z.of_nat (length l) ≤ MAXFILE * BSIZE →
  bmap_post x V di (off / BSIZE) addr V1 di1 →
  write_post x V di off l 2 (fset V1 addr (store_bytes (V1 addr) (off `mod` BSIZE) l)) di1.
Proof.
  intros Hok Ho Hfit Hmax [[Ha0 Ea] Hoth Hold Hnew Hfld Hok1 Hm1 Huse1 Hind1 Hg].
  set (bn := off / BSIZE) in *. set (V2 := fset V1 addr _).
  assert (0 ≤ bn < MAXFILE) as Hbn by (unfold bn, BSIZE in *; dlia).
  pose proof (fo_used _ _ _ Hok1 bn Hbn ltac:(by rewrite Ea)) as Hu1. rewrite Ea in Hu1.
  assert (addr ≠ addrs di1 NDIRECT) as Hai.
  { rewrite <-Ea. apply (fo_ind_ne _ _ _ Hok1 _ Hbn). by rewrite Ea. }
  assert (∀ c, blockmap V2 di1 c = blockmap V1 di1 c) as Ebm.
  { intros c. apply blockmap_ext. intros _. unfold V2. by rewrite fset_ne. }
  assert (∀ n, 0 ≤ n < sb_size x → free x V2 n ↔ free x V1 n) as Hf2.
  { intros n Hn. apply free_fset_data; [apply Hu1|done]. }
  pose proof (data_start_pos x Hx).
  assert (∀ n, in_use x V1 n → in_use x V2 n) as Huse2.
  { intros n [Hr Hn]. split; [done|]. rewrite Hf2 by lia. done. }
  assert (∀ n, in_use x V n → n = addr → owned V di n) as Hown.
  { intros n [Hr Hn] ->. destruct (decide (blockmap V di bn = 0)) as [Hz|Hz].
    - destruct (Hnew Hz) as [Hf _]. by destruct Hn.
    - destruct (Hold Hz) as [-> ->]. right. eauto. }
  assert (∀ p, (off + p) / BSIZE = bn → (off + p) `mod` BSIZE = off `mod` BSIZE + p) as Hmod.
  { intros p Hp. unfold bn, BSIZE in *. dlia. }
  assert (∀ p, 0 ≤ p < Z.of_nat (length l) → (off + p) / BSIZE = bn) as Hdiv.
  { intros p Hp. unfold bn, BSIZE in *. dlia. }
  split.
  - intros i b Hi. pose proof (lookup_lt_Some _ _ _ Hi). unfold file_byte. rewrite Ebm, Hdiv, Hmod by (try apply Hdiv; lia).
    rewrite Ea. unfold V2. rewrite fset_eq, load8_store_bytes.
    destruct (Z.leb_spec (off `mod` BSIZE) (off `mod` BSIZE + Z.of_nat i)); [|lia].
    replace (Z.to_nat (off `mod` BSIZE + Z.of_nat i - off `mod` BSIZE)) with i by lia. by rewrite Hi.
  - intros p Hp Hn Hz. unfold file_byte. rewrite Ebm.
    assert (0 ≤ p / BSIZE < MAXFILE) as Hpb by (unfold BSIZE in *; dlia).
    destruct (decide (p / BSIZE = bn)) as [E|E].
    + rewrite E in *. destruct (Hold Hz) as [-> ->]. rewrite Ea. unfold V2. rewrite fset_eq.
      apply load8_store_bytes_out. unfold bn, BSIZE in *. dlia.
    + rewrite Hoth by done. pose proof (fo_used _ _ _ Hok _ Hpb Hz) as Hup.
      unfold V2. rewrite fset_ne.
      * rewrite (gp_used _ _ _ _ _ Hg); [done|done|]. by apply (fo_ind_ne _ _ _ Hok).
      * intros E'. apply E. apply (fo_inj _ _ _ Hok1); rewrite ?(Hoth (p / BSIZE)), ?Ea by done; done.
  - intros c Hc Hz. rewrite Ebm. destruct (decide (c = bn)) as [->|]; [by rewrite Ea|by rewrite Hoth].
  - intros p Hp. rewrite Ebm. replace p with (off + (p - off)) by lia. rewrite Hdiv by lia. by rewrite Ea.
  - done.
  - by apply (file_ok_keep x V1).
  - intros n Hn. pose proof (so_data _ Hx). rewrite Hf2 by lia. auto.
  - auto.
  - intros n Hn [->|(c & Hc & Ec)].
    + left. by apply Hind1.
    + rewrite Ebm in Ec. destruct (decide (c = bn)) as [->|Hne].
      * apply Hown; [done|congruence].
      * right. exists c. by rewrite <-Hoth.
  - intros n Hn Hno. unfold V2. rewrite fset_ne by (intros ->; apply Hno; by apply Hown).
    apply (gp_used _ _ _ _ _ Hg); [done|]. intros E. apply Hno. by left.
  - intros n Hn. unfold V2. rewrite fset_ne; [by apply (gp_meta _ _ _ _ _ Hg)|]. destruct Hu1 as [Hu1 _].
    assert (0 ≤ (sb_size x - 1) / BPB) by (apply Z.div_pos; [pose proof (so_size _ Hx); lia|done]).
    unfold data_start in Hu1. lia.
  - intros j Hj. apply (gp_nfree _ _ _ _ _ Hg) in Hj as (l' & Hnd & Hlen & Hl').
    exists l'. split_and!; [done|done|]. intros n Hn. destruct (Hl' n Hn). by rewrite Hf2.
Qed.

(** The on-disk inode of a file fits its fields. *)
Lemma file_din_ok V di : file_ok x V di → shorts_ok di → din_ok di.
Proof.
  intros Hok (Ht & Hma & Hmi & Hn). pose proof (so_size _ Hx). pose proof (data_start_pos x Hx).
  assert (∀ b, in_use x V b → 0 ≤ b < 2 ^ 32) as Hu by (intros b [? _]; lia).
  pose proof (fo_size _ _ _ Hok) as Hsz. change (MAXFILE * BSIZE) with 274432 in Hsz. split; try done; [lia|].
  intros i Hi. destruct (decide (i = NDIRECT)) as [->|Hne].
  - destruct (decide (addrs di NDIRECT = 0)); [lia|]. by apply Hu, (fo_ind _ _ _ Hok).
  - assert (blockmap V di i = addrs di i) as E.
    { unfold blockmap. by destruct (Z.ltb_spec i NDIRECT); [|lia]. }
    rewrite <-E. destruct (decide (blockmap V di i = 0)); [lia|]. apply Hu, (fo_used _ _ _ Hok); [|done].
    unfold MAXFILE, NINDIRECT, BSIZE. change (1024 / 4) with 256. lia.
Qed.

Lemma file_ok_size V di n :
  file_ok x V di → 0 ≤ n ≤ MAXFILE * BSIZE →
  (∀ bn, 0 ≤ bn → bn * BSIZE < n → blockmap V di bn ≠ 0) → file_ok x V (set_size n di).
Proof. intros [Hu Hi Hinj Hne Hs Hc] Hn Hcov. by split. Qed.

(** Bytes, map and invariant of a file do not depend on the inode blocks. *)
Lemma file_inode_block V V' di :
  file_ok x V di → (∀ n, sb_bmapstart x ≤ n → V' n = V n) →
  file_ok x V' di ∧ (∀ bn, blockmap V' di bn = blockmap V di bn) ∧
  (∀ p, 0 ≤ p / BSIZE < MAXFILE → blockmap V di (p / BSIZE) ≠ 0 → file_byte V' di p = file_byte V di p).
Proof.
  intros Hok HV.
  assert (0 ≤ (sb_size x - 1) / BPB) by (apply Z.div_pos; [pose proof (so_size _ Hx); lia|done]).
  assert (∀ n, in_use x V n → V' n = V n) as HVu by (intros n [Hn _]; apply HV; unfold data_start in Hn; lia).
  assert (∀ bn, blockmap V' di bn = blockmap V di bn) as Hbm.
  { intros bn. apply blockmap_ext. intros Hi. by apply HVu, (fo_ind _ _ _ Hok). }
  split_and!; [|done|].
  - apply (file_ok_keep x V); [done| |done]. intros n [Hr Hn]. split; [done|]. unfold free in *.
    pose proof (data_start_pos x Hx). destruct (BBLOCK_eq x n Hx ltac:(lia)). rewrite HV by lia. done.
  - intros p Hp Hz. unfold file_byte. rewrite Hbm, HVu; [done|]. by apply (fo_used _ _ _ Hok).
Qed.

End spec.

(** The number of blocks that [r] bytes at offset [off] touch. *)
Definition chunks (off r : Z) : nat :=
  if r <=? 0 then 0%nat else Z.to_nat ((r + off `mod` BSIZE - 1) / BSIZE + 1).

Lemma chunks_step off r : 0 ≤ off → 0 < r →
  chunks off r = Datatypes.S (chunks (off + Z.min r (BSIZE - off `mod` BSIZE))
                                      (r - Z.min r (BSIZE - off `mod` BSIZE))).
Proof.
  intros Ho Hr. unfold chunks, BSIZE. pose proof (Z.mod_pos_bound off 1024 ltac:(lia)) as Hb.
  destruct (Z.leb_spec r 0); [lia|].
  destruct (Z.leb_spec (r - Z.min r (1024 - off `mod` 1024)) 0).
  - rewrite (Z.div_small (r + off `mod` 1024 - 1)) by lia. done.
  - rewrite (Z.min_r r) in * by lia.
    replace ((off + (1024 - off `mod` 1024)) `mod` 1024) with 0 by dlia.
    replace (r + off `mod` 1024 - 1) with (r - (1024 - off `mod` 1024) + 0 - 1 + 1 * 1024) by lia.
    rewrite Z.div_add by lia.
    assert (0 ≤ (r - (1024 - off `mod` 1024) + 0 - 1) / 1024) by (apply Z.div_pos; lia). lia.
Qed.

Section code.
Context {S : Type} `{BlockStore S}.
Context (x : superblock) (Hx : sb_ok x) (Hlog : loggable x).

Lemma data_home V n : in_use x V n → bs_home n.
Proof.
  intros [Hn _]. pose proof (so_order _ Hx). apply Hlog.
  assert (0 ≤ (sb_ninodes x - 1) / IPB) by (apply Z.div_pos; [pose proof (so_inodes _ Hx); lia|done]).
  assert (0 ≤ (sb_size x - 1) / BPB) by (apply Z.div_pos; [pose proof (so_size _ Hx); lia|done]).
  unfold data_start in *. lia.
Qed.

Lemma kernel_src_chunk l tot m : 0 ≤ tot → 0 ≤ m → tot + m ≤ Z.of_nat (length l) →
  ∃ c, @kernel_src S l tot m = mret (c, true) ∧ Z.of_nat (length c) = m ∧
    drop (Z.to_nat tot) l = c ++ drop (Z.to_nat (tot + m)) l.
Proof.
  intros Ht Hm Hle. eexists. split; [done|]. split.
  - rewrite length_take, length_drop. lia.
  - rewrite <-(take_drop (Z.to_nat m) (drop (Z.to_nat tot) l)) at 1. f_equal.
    rewrite drop_drop. f_equal. lia.
Qed.

Lemma wp_writei_loop fuel V L s ip data tot off (Q : Z → fsys S → Prop) :
  let n := Z.of_nat (length data) in
  sb s = x → i_dev (icache s ip) = ROOTDEV → bs_inv V L ∅ ∅ (blk s) → meta_used x V →
  file_ok x V (din (icache s ip)) → 0 ≤ tot ≤ n → 0 ≤ off → off + (n - tot) ≤ MAXFILE * BSIZE →
  room L ∅ (6 * chunks off (n - tot) + 1) → nfree x V (2 * chunks off (n - tot)) →
  enough_fuel fuel off (n - tot) →
  (∀ V' di' L' s', write_post x V (din (icache s ip)) off (drop (Z.to_nat tot) data)
       (2 * chunks off (n - tot)) V' di' →
     bs_inv V' L' ∅ ∅ (blk s') → room L' ∅ 1 → with_file (blk s') ip di' s s' →
     Q (off + (n - tot)) s') →
  wp (writei_loop fuel ip (kernel_src data) tot off n) Q s.
Proof.
  intros n. revert V L s tot off. induction fuel as [|fuel IH];
    intros V L s tot off Es Hdev Hinv Hmeta Hok Ht Ho Hmax Hr Hnf Hfuel HQ; [by destruct Hfuel|].
  set (di := din (icache s ip)) in *. cbn [writei_loop]. destruct (Z.ltb_spec tot n) as [Hlt|Hge].
  2: { wp_run. assert (tot = n) as -> by lia. rewrite Z.sub_diag, Z.add_0_r in *.
       change (chunks off 0) with 0%nat in *. destruct s as [bs ic sb0 pid cw].
       apply (HQ V di L); [|done|done|apply with_file_refl].
       rewrite drop_ge by (unfold n; lia). by apply write_nil. }
  unfold geti. wp_step. wp_step. rewrite Hdev.
  pose proof (chunks_step off (n - tot) Ho ltac:(lia)) as Hch.
  set (m := Z.min (n - tot) (BSIZE - off `mod` BSIZE)) in *.
  assert (0 < m ≤ BSIZE - off `mod` BSIZE ∧ m ≤ n - tot) as [Hm Hmn] by (unfold m, BSIZE in *; dlia).
  replace (n - tot - m) with (n - (tot + m)) in Hch by lia.
  assert (0 ≤ off / BSIZE < MAXFILE) as Hbn by (unfold BSIZE in *; dlia).
  wp_step. eapply (wp_bmap x Hx Hlog V L s ip (off / BSIZE)); try done.
  { apply (room_le _ _ (6 * chunks off (n - tot) + 1)); [done|lia]. }
  { eapply nfree_le; [done|lia]. }
  fold di. intros addr V1 di1 L1 s1 Hb Hs1 HL1 Hw1.
  destruct (bm_addr _ _ _ _ _ _ _ Hb) as [Ha0 Ea].
  pose proof (fo_used _ _ _ (bm_ok _ _ _ _ _ _ _ Hb) _ Hbn ltac:(by rewrite Ea)) as Hu. rewrite Ea in Hu.
  pose proof (so_size _ Hx). pose proof (data_start_pos x Hx).
  assert (room L1 ∅ (6 * chunks (off + m) (n - (tot + m)) + 2)) as Hr1.
  { unfold room in *. rewrite map_size_empty in *. lia. }
  wp_step. eapply wp_bread_blk; [exact Hs1|destruct Hu; lia|set_solver|apply (room_le _ _ _ _ Hr1); lia|].
  intros bp s2 Hs2.
  wp_step. eapply (wp_get_blk _ _ _ _ _ addr); [exact Hs2|by rewrite lookup_insert_eq|].
  cbv zeta. destruct (kernel_src_chunk data tot m ltac:(lia) ltac:(lia) ltac:(unfold n in *; lia))
    as (c & -> & Hc & Ed).
  wp_step. apply wp_on_blk. apply wp_ret. change (set_blk (blk (set_blk s2 s1)) (set_blk s2 s1)) with (set_blk s2 s1).
  apply wp_seq3. eapply wp_modify_blk; [exact Hs2|done|set_solver|by eapply data_home|apply (room_le _ _ _ _ Hr1); lia|].
  intros s3 Hs3.
  pose proof (write_chunk x Hx V di off c addr V1 di1 Hok ltac:(unfold BSIZE in *; lia) ltac:(lia) ltac:(lia) Hb) as Hwc.
  pose proof (with_file_blk _ s3 _ _ _ _ Hw1) as Hw3. pose proof (with_file_din _ _ _ _ _ Hw3) as (Ed3 & Ev3 & _).
  pose proof Hw3 as (Eb3 & Es3 & _).
  change (set_blk s3 (set_blk s2 s1)) with (set_blk s3 s1).
  eapply (IH _ _ _ (tot + m) (off + m)); rewrite ?Ed3, ?Ev3; [exact (eq_trans Es3 Es)|done|exact Hs3| | |lia|lia|lia|..].
  - apply (wr_meta _ _ _ _ _ _ _ _ Hwc).
  - apply (wr_ok _ _ _ _ _ _ _ _ Hwc).
  - apply room_log_add. apply (room_le _ _ _ _ Hr1). lia.
  - apply (wr_nfree _ _ _ _ _ _ _ _ Hwc). eapply nfree_le; [done|lia].
  - replace (n - (tot + m)) with (n - tot - m) by lia. by apply fuel_chunk; [lia|].
  - intros V' di' L' s' Hwp Hs' Hr' Hw'.
    replace (off + m + (n - (tot + m))) with (off + (n - tot)) by lia.
    apply (HQ V' di' L' s'); [|done|done|by eapply with_file_trans].
    rewrite Ed, Hch. rewrite <-Hc in Hwp at 1.
    replace (2 * Datatypes.S (chunks (off + m) (n - (tot + m))))%nat
      with (2 * chunks (off + m) (n - (tot + m)) + 2)%nat by lia.
    eapply write_app; [done| |done|done]. rewrite <-Ed, length_drop. unfold n in *. lia.
Qed.

(** The size after the loop covers what was written. *)
Lemma write_size_ok V di off l k V1 di1 :
  file_ok x V di → 0 ≤ off ≤ isize di → off + Z.of_nat (length l) ≤ MAXFILE * BSIZE →
  write_post x V di off l k V1 di1 →
  file_ok x V1 (set_size (Z.max (isize di) (off + Z.of_nat (length l))) di1).
Proof.
  intros Hok Ho Hmax Hw. pose proof (fo_size _ _ _ Hok) as Hsz.
  apply file_ok_size; [apply (wr_ok _ _ _ _ _ _ _ _ Hw)|lia|]. intros bn Hbn Hlt.
  destruct (decide (bn * BSIZE < isize di)) as [Hin|Hout].
  - apply (wr_map _ _ _ _ _ _ _ _ Hw); [unfold BSIZE in *; lia|]. by apply (fo_cover _ _ _ Hok).
  - replace bn with ((bn * BSIZE) / BSIZE) by (unfold BSIZE; dlia).
    apply (wr_cover _ _ _ _ _ _ _ _ Hw). lia.
Qed.

(** From the loop's postcondition to that of [writei]. *)
Lemma writei_post_intro V i di off l k V1 di1 V' :
  file_ok x V di → 0 ≤ i < sb_ninodes x → 0 ≤ off ≤ isize di →
  off + Z.of_nat (length l) ≤ MAXFILE * BSIZE →
  write_post x V di off l k V1 di1 →
  let di' := set_size (Z.max (isize di) (off + Z.of_nat (length l))) di1 in
  inode_post x V1 i di' V' → writei_post x V i di off l V' di'.
Proof.
  intros Hok Hi Ho Hmax [N O M C F K T U W R I G] di' [Hself Hino Hoth].
  pose proof (fo_size _ _ _ Hok) as Hsz. destruct (IBLOCK_eq x i Hx Hi) as [_ Hib].
  assert (file_ok x V1 di') as Hok1 by (by eapply (write_size_ok V); [..|split]).
  destruct (file_inode_block x Hx V1 V' di' Hok1) as (Hok2 & Hbm & Hby).
  { intros n Hn. apply Hoth. lia. }
  assert (∀ p, 0 ≤ p < MAXFILE * BSIZE → 0 ≤ p / BSIZE < MAXFILE) as Hdiv by (intros p Hp; unfold BSIZE in *; dlia).
  split; [| |done|done|done| | |by destruct F].
  - intros j b Hj. pose proof (lookup_lt_Some _ _ _ Hj). rewrite Hby; [by apply N|apply Hdiv; lia|apply C; lia].
  - intros p Hp Hn. assert (blockmap V di (p / BSIZE) ≠ 0) as Hz.
    { apply (fo_cover _ _ _ Hok); [|unfold BSIZE; dlia]. apply Hdiv. lia. }
    rewrite Hby; [apply O; [lia|done|done]|apply Hdiv; lia|]. apply M; [apply Hdiv; lia|done].
  - intros j Hj Hne. rewrite Hino by done. unfold inode_at. rewrite I; [done|]. apply (IBLOCK_eq x j Hx Hj).
  - intros n Hn Hno. rewrite Hoth; [by apply R|]. destruct Hn as [Hn _].
    assert (0 ≤ (sb_size x - 1) / BPB) by (apply Z.div_pos; [pose proof (so_size _ Hx); lia|done]).
    unfold data_start in Hn. lia.
Qed.

Lemma wp_writei V L s ip data off (Q : Z → fsys S → Prop) :
  let n := Z.of_nat (length data) in
  sb s = x → i_dev (icache s ip) = ROOTDEV → bs_inv V L ∅ ∅ (blk s) → meta_used x V →
  file_ok x V (din (icache s ip)) → shorts_ok (din (icache s ip)) →
  0 ≤ inum (icache s ip) < sb_ninodes x →
  0 ≤ off ≤ isize (din (icache s ip)) → 0 < n → off + n ≤ MAXFILE * BSIZE →
  room L ∅ (6 * chunks off n + 1) → nfree x V (2 * chunks off n) →
  (∀ V' di' L' s',
     writei_post x V (inum (icache s ip)) (din (icache s ip)) off data V' di' →
     bs_inv V' L' ∅ ∅ (blk s') → room L' ∅ 0 → with_file (blk s') ip di' s s' → Q n s') →
  wp (writei ip (kernel_src data) off n) Q s.
Proof.
  intros n Es Hdev Hinv Hmeta Hok Hsh Hi Ho Hn Hmax Hr Hnf HQ. unfold writei, geti. wp_step. wp_step.
  pose proof (fo_size _ _ _ Hok) as Hsz. set (di := din (icache s ip)) in *.
  change (MAXFILE * BSIZE) with 274432 in *. rewrite !u32_small by lia.
  destruct (Z.gtb_spec off (isize di)); [lia|]. destruct (Z.ltb_spec (off + n) off); [lia|]. simpl.
  destruct (Z.gtb_spec (off + n) 274432); [lia|].
  wp_step. eapply (wp_writei_loop _ V L s ip data 0 off); fold di n; try done; rewrite ?Z.sub_0_r; try done.
  { lia. } { lia. }
  { apply fuel_start; lia. }
  intros V1 di1 L1 s1 Hw Hs1 Hr1 Hf1. rewrite drop_0 in Hw.
  destruct (with_file_din _ _ _ _ _ Hf1) as (Ed1 & Ev1 & Ei1).
  destruct (Z.gtb_spec n 0); [|lia]. wp_step. wp_step. wp_step. unfold geti. wp_run. rewrite Ed1.
  destruct (wr_fields _ _ _ _ _ _ _ _ Hw) as (F1 & F2 & F3 & F4 & F5).
  set (sz := Z.max (isize di) (off + n)).
  assert (∀ s2, with_file (blk s1) ip (set_size sz di1) s s2 →
    wp (iupdate ip) (λ _ s3, wp (mret (s32 n)) Q s3) s2) as Hup.
  { intros s2 Hf2. destruct (with_file_din _ _ _ _ _ Hf2) as (Ed2 & Ev2 & Ei2).
    pose proof Hf2 as (Eb2 & Es2 & _).
    assert (file_ok x V1 (set_size sz di1)) as Hok1 by (by eapply (write_size_ok V di off data)).
    eapply (wp_iupdate x Hx Hlog V1 L1 ∅ ∅); rewrite ?Eb2, ?Ed2, ?Ev2, ?Ei2; try done.
    - congruence.
    - eapply (file_din_ok x Hx); [done|]. unfold shorts_ok in *. simpl. by rewrite F1, F2, F3, F4.
    - intros V' s3 Hp Hs3. rewrite s32_small by lia. wp_step.
      eapply (HQ V' (set_size sz di1)); [|exact Hs3|by apply (room_log_add _ _ _ 0)|by eapply with_file_blk].
      eapply writei_post_intro; try done. }
  destruct (Z.gtb_spec (off + n) (isize di1)).
  - unfold updi. wp_run. apply Hup. replace sz with (off + n) by lia.
    by apply (with_file_upd (blk s1) ip di1 (set_size (off + n))).
  - wp_run. apply Hup. replace (set_size sz di1) with di1; [done|].
    destruct di1. unfold set_size. simpl in *. f_equal. lia.
Qed.


End code.

(** * Claims *)

(** C3: [writei] of kernel bytes writes them and nothing else, and [readi]
    reads them back. For a file that satisfies [file_ok], an offset up to its
    size, and enough free blocks and log space, [writei] terminates and
    returns the length, in a state whose disk, with the log applied, is [V']. In
    [V'] the bytes of the range are the given ones, all other bytes below the old size are unchanged, the size is the larger of the
    old size and the end of the range, [file_ok] holds again, the inode is on
    disk as it is in memory, and no other inode or block of another file has
    changed, whether or not the file grew into new direct, indirect or bitmap
    blocks. [readi] of the range then terminates with the bytes written. *)
Theorem writei_readi_roundtrip {T} `{BlockStore T} x V L s ip bytes off :
  let n := Z.of_nat (length bytes) in
  let di := din (icache s ip) in
  sb_ok x → loggable x → sb s = x → i_dev (icache s ip) = ROOTDEV →
  bs_inv V L ∅ ∅ (blk s) → meta_used x V → file_ok x V di → shorts_ok di →
  0 ≤ inum (icache s ip) < sb_ninodes x →
  0 ≤ off ≤ isize di → 0 < n → off + n ≤ MAXFILE * BSIZE →
  room L ∅ (6 * chunks off n + 1) → nfree x V (2 * chunks off n) →
  Forall (λ b, 0 ≤ b < 256) bytes →
  ∃ V' L' di' s1 s2,
    writei ip (kernel_src bytes) off n s = Ret n s1 ∧
    bs_inv V' L' ∅ ∅ (blk s1) ∧
    writei_post x V (inum (icache s ip)) di off bytes V' di' ∧
    with_file (blk s1) ip di' s s1 ∧
    readi ip kernel_dst off n s1 = Ret (n, bytes) s2.
Proof.
  intros n di Hx Hlog Es Hdev Hinv Hm Hok Hsh Hi Ho Hn Hmax Hr Hnf Hb.
  assert (wp (writei ip (kernel_src bytes) off n) (λ r s1, r = n ∧ ∃ V' di' L',
    writei_post x V (inum (icache s ip)) di off bytes V' di' ∧ bs_inv V' L' ∅ ∅ (blk s1) ∧
    room L' ∅ 0 ∧ with_file (blk s1) ip di' s s1) s) as Hw.
  { eapply wp_writei; try done. intros V' di' L' s1 Hw Hs1 Hr1 Hf. split; [done|]. by exists V', di', L'. }
  apply wp_inv in Hw as (r & s1 & E & -> & V' & di' & L' & Hw & Hs1 & Hr1 & Hf).
  destruct (with_file_din _ _ _ _ _ Hf) as (Ed & Ev & _).
  pose proof (wi_size _ _ _ _ _ _ _ _ Hw) as Hsz. change (MAXFILE * BSIZE) with 274432 in Hmax.
  assert (read_len di' off n = n) as Hlen.
  { unfold read_len. destruct (Z.gtb_spec off (isize di')); fold n in Hsz; lia. }
  assert (wp (readi ip kernel_dst off n) (λ r _, r = (n, bytes)) s1) as Hrd.
  { eapply wp_readi; rewrite ?Ed, ?Ev; try done; try apply kernel_dst_frame; [apply (wi_ok _ _ _ _ _ _ _ _ Hw)|lia|lia|lia|].
    rewrite Hlen. intros k s2 Hk Hall Hs2. rewrite Hall by done. f_equal.
    apply list_eq. intros j. unfold file_bytes. rewrite list_lookup_fmap.
    destruct (bytes !! j) as [b|] eqn:Ej.
    - pose proof (lookup_lt_Some _ _ _ Ej). rewrite lookup_seqZ_lt by (unfold n; lia). simpl. f_equal.
      rewrite Z.add_0_l. rewrite (wi_new _ _ _ _ _ _ _ _ Hw _ _ Ej). apply u8_small. by eapply Forall_lookup_1 in Hb.
    - apply lookup_ge_None in Ej. by rewrite lookup_seqZ_ge by (unfold n; lia). }
  apply wp_inv in Hrd as (r & s2 & E2 & ->). exists V', L', di', s1, s2. split_and!; [exact E|done|done|done|exact E2].
Qed.
