(* ===== verification/FsDir.v ===== *)
(** * Directories

    A directory maps names to inode numbers.  [dirlookup] reads this map,
    [dirlink] adds to it: it takes the first free entry, or extends the directory,
    and leaves all other names alone. *)

From S2P Require Import Prelude Machine CString Bio Cache Log Txn Fs FsBlocks FsInode FsFile FsWrite.

(** ** The map of a directory *)

Definition dirent_at (V : Z → block) (di : dinode) (k : Z) : list Z := file_bytes V di (DIRENT_SIZE * k) DIRENT_SIZE.

(** Entry [k] is in use for [name]. *)
Definition entry_for (V : Z → block) (di : dinode) (name : list Z) (k : Z) : bool :=
  negb (de_inum (dirent_at V di k) =? 0) && (namecmp (bytes_of name) (bytes_of (de_name (dirent_at V di k))) =? 0).

Definition dir_find (V : Z → block) (di : dinode) (name : list Z) : option Z :=
  first_such (entry_for V di name) (seqZ 0 (isize di / DIRENT_SIZE)).

Definition dir_get (V : Z → block) (di : dinode) (name : list Z) : option Z :=
  k ← dir_find V di name; Some (de_inum (dirent_at V di k)).

(** The first free entry, or the end of the directory. *)
Definition dir_slot (V : Z → block) (di : dinode) : Z :=
  default (isize di / DIRENT_SIZE) (first_such (λ k, de_inum (dirent_at V di k) =? 0) (seqZ 0 (isize di / DIRENT_SIZE))).

(** Names that the directory cannot tell apart: they agree up to [DIRSIZ] bytes. *)
Definition same_name (n1 n2 : list Z) : Prop :=
  strncpy_bytes (Z.to_nat DIRSIZ) (bytes_of n1) = strncpy_bytes (Z.to_nat DIRSIZ) (bytes_of n2).

#[export] Instance same_name_dec n1 n2 : Decision (same_name n1 n2) := decide (_ = _).

(** * Lemmas *)

Lemma strncmp_same n p q : strncmp_loop n p q = 0 ↔ strncpy_bytes n p = strncpy_bytes n q.
Proof.
  revert p q. induction n as [|n IH]; intros p q; simpl; [done|]. unfold nonzero.
  destruct (Z.eqb_spec (p 0) 0) as [Ep|Ep], (Z.eqb_spec (q 0) 0) as [Eq|Eq]; simpl.
  - rewrite Ep, Eq. done.
  - split; [lia|]. intros [=]. lia.
  - destruct (Z.eqb_spec (p 0) (q 0)); simpl; [lia|]. split; [lia|]. intros [=]. lia.
  - destruct (Z.eqb_spec (p 0) (q 0)) as [E|E]; simpl.
    + rewrite IH, E. split; [by intros ->|by intros [=]].
    + split; [lia|]. intros [=]. lia.
Qed.

Lemma namecmp_same n1 n2 : namecmp (bytes_of n1) (bytes_of n2) = 0 ↔ same_name n1 n2.
Proof. apply strncmp_same. Qed.

Lemma bytes_of_cons c l i : 0 ≤ i → bytes_of (c :: l) (i + 1) = bytes_of l i.
Proof. intros Hi. unfold bytes_of. by replace (Z.to_nat (i + 1)) with (S (Z.to_nat i)) by lia. Qed.

Lemma strncpy_bytes_idem n t : strncpy_bytes n (bytes_of (strncpy_bytes n t)) = strncpy_bytes n t.
Proof.
  revert t. induction n as [|n IH]; intros t; simpl; [done|]. destruct (nonzero (t 0)) eqn:E.
  - change (bytes_of (t 0 :: strncpy_bytes n (shift t 1)) 0) with (t 0). rewrite E. f_equal.
    etrans; [|apply IH]. apply strncpy_bytes_ext. intros i Hi. unfold shift at 1. rewrite ?(Z.add_comm 1 i). apply bytes_of_cons. lia.
  - done.
Qed.

(** The entry that [dirlink] writes. *)
Lemma length_encode_dirent i name : length (encode_dirent i name) = 16%nat.
Proof. unfold encode_dirent. rewrite length_app, length_strncpy_bytes. done. Qed.

Lemma encode_dirent_inum i name : 0 ≤ i < 2 ^ 16 → de_inum (encode_dirent i name) = i.
Proof. intros Hi. unfold de_inum, encode_dirent. cbn [app nth]. unfold u8, u16. rewrite (Z.mod_small i (2 ^ 16)) by lia. change (2 ^ 8) with 256. dlia. Qed.

Lemma encode_dirent_name i name : same_name (de_name (encode_dirent i name)) name.
Proof. unfold same_name, de_name, encode_dirent. cbn [app drop]. apply strncpy_bytes_idem. Qed.

Lemma strncpy_bytes_range n t : (∀ i, 0 ≤ t i < 256) → Forall (λ b, 0 ≤ b < 256) (strncpy_bytes n t).
Proof.
  revert t. induction n as [|n IH]; intros t Ht; simpl; [constructor|]. destruct (nonzero (t 0)); constructor; auto.
  - apply IH. intros i. apply Ht.
  - lia.
  - apply Forall_replicate. lia.
Qed.

Lemma encode_dirent_range i name : Forall (λ b, 0 ≤ b < 256) name → Forall (λ b, 0 ≤ b < 256) (encode_dirent i name).
Proof.
  intros Hn. unfold encode_dirent. repeat constructor; try apply u8_range. apply strncpy_bytes_range. intros j. unfold bytes_of.
  destruct (name !! Z.to_nat j) eqn:E; simpl; [|lia]. by eapply (Forall_lookup_1 _ _ _ _ Hn).
Qed.

(** An entry lies in one block. *)
Lemma chunks_dirent k : chunks (DIRENT_SIZE * k) 16 = 1%nat.
Proof.
  unfold chunks, BSIZE, DIRENT_SIZE. change (16 <=? 0) with false. cbv iota.
  assert (0 ≤ 16 + (16 * k) `mod` 1024 - 1 < 1024) by dlia. by rewrite Z.div_small.
Qed.

(** ** The effect of writing one entry *)

Section write.
Context {x : superblock} {V V' : Z → block} {i : Z} {di di' : dinode} {m inum_ : Z} {name : list Z}.
Context (Hsz : isize di = DIRENT_SIZE * m) (Hm : 0 ≤ m) (Hi : 0 < inum_ < 2 ^ 16).
Context (Hname : Forall (λ b, 0 ≤ b < 256) name) (Hnew : dir_find V di name = None).
Context (Hw : writei_post x V i di (DIRENT_SIZE * dir_slot V di) (encode_dirent inum_ name) V' di').

Abbreviation k := (dir_slot V di).

Lemma entries_div : isize di / DIRENT_SIZE = m.
Proof. rewrite Hsz. unfold DIRENT_SIZE. dlia. Qed.

Lemma dir_slot_spec :
  0 ≤ k ≤ m ∧ (k < m → de_inum (dirent_at V di k) = 0).
Proof.
  unfold dir_slot. rewrite entries_div. destruct (first_such _ _) as [j|] eqn:E; simpl; [|lia].
  apply first_such_Some in E as [Hj%elem_of_seqZ Hz%Z.eqb_eq]. split; [lia|done].
Qed.

Lemma write_size : isize di' = DIRENT_SIZE * Z.max m (k + 1).
Proof.
  rewrite (wi_size _ _ _ _ _ _ _ _ Hw), Hsz, length_encode_dirent. unfold DIRENT_SIZE. pose proof dir_slot_spec. lia.
Qed.

Lemma write_entry : dirent_at V' di' k = encode_dirent inum_ name.
Proof.
  apply list_eq. intros j. unfold dirent_at, file_bytes. rewrite list_lookup_fmap.
  destruct (encode_dirent inum_ name !! j) as [b|] eqn:Ej.
  - pose proof (lookup_lt_Some _ _ _ Ej) as Hj. rewrite length_encode_dirent in Hj. rewrite lookup_seqZ_lt by (unfold DIRENT_SIZE; lia).
    cbn [fmap option_fmap option_map]. f_equal. rewrite Z.add_0_l, (wi_new _ _ _ _ _ _ _ _ Hw _ _ Ej). apply u8_small.
    by eapply (Forall_lookup_1 _ _ _ _ (encode_dirent_range inum_ name Hname)).
  - apply lookup_ge_None in Ej. rewrite length_encode_dirent in Ej. by rewrite lookup_seqZ_ge by (unfold DIRENT_SIZE; lia).
Qed.

Lemma write_others j : 0 ≤ j < m → j ≠ k → dirent_at V' di' j = dirent_at V di j.
Proof.
  intros Hj Hne. unfold dirent_at, file_bytes. apply list_fmap_ext. intros n y Ey. apply lookup_seqZ in Ey as [-> Hn].
  apply (wi_old _ _ _ _ _ _ _ _ Hw); rewrite ?length_encode_dirent, ?Hsz; unfold DIRENT_SIZE in *; lia.
Qed.

Lemma dir_get_write name' : dir_get V' di' name' = if decide (same_name name' name) then Some inum_ else dir_get V di name'.
Proof.
  pose proof dir_slot_spec as [Hk Hkz]. unfold dir_get, dir_find in *. rewrite entries_div in *. rewrite write_size.
  replace (DIRENT_SIZE * Z.max m (k + 1) / DIRENT_SIZE) with (Z.max m (k + 1)) by (unfold DIRENT_SIZE; dlia).
  assert (entry_for V' di' name' k = bool_decide (same_name name' name)) as Ek.
  { unfold entry_for. rewrite write_entry, encode_dirent_inum by lia. destruct (Z.eqb_spec inum_ 0); [lia|]. simpl.
    apply eq_iff_eq_true. rewrite Z.eqb_eq, bool_decide_eq_true, namecmp_same. unfold same_name. by rewrite (encode_dirent_name inum_ name). }
  assert (∀ n j, 0 ≤ j < m → j ≠ k → entry_for V' di' n j = entry_for V di n j) as Ej.
  { intros n j Hj Hne. unfold entry_for. by rewrite write_others. }
  destruct (decide (same_name name' name)) as [Hs|Hs].
  - assert (first_such (entry_for V' di' name') (seqZ 0 (Z.max m (k + 1))) = Some k) as ->.
    + rewrite (bool_decide_eq_true_2 _ Hs) in Ek. rewrite <-(Z.add_0_l k) at 2.
      assert (∀ j, 0 ≤ j < k → entry_for V' di' name' j = false) as Hbefore.
      { intros j Hj. rewrite Ej by lia. pose proof (proj1 (first_such_None _ _) Hnew j ltac:(apply elem_of_seqZ; lia)) as Hf.
        unfold entry_for in *. rewrite <-Hf. f_equal. apply eq_iff_eq_true. rewrite !Z.eqb_eq, !namecmp_same. unfold same_name. by rewrite Hs. }
      replace (Z.max m (k + 1)) with (k + (1 + (Z.max m (k + 1) - k - 1))) by lia.
      rewrite seqZ_app, first_such_app by lia. rewrite (proj2 (first_such_None _ _)).
      2: { intros j Hj%elem_of_seqZ. apply Hbefore. lia. }
      rewrite seqZ_app by lia. rewrite !Z.add_0_l. change (seqZ k 1) with [k]. simpl. by rewrite Ek.
    + simpl. by rewrite write_entry, encode_dirent_inum by lia.
  - rewrite (bool_decide_eq_false_2 _ Hs) in Ek.
    assert (first_such (entry_for V' di' name') (seqZ 0 (Z.max m (k + 1))) = first_such (entry_for V di name') (seqZ 0 m)) as E.
    { assert (first_such (entry_for V' di' name') (seqZ 0 m) = first_such (entry_for V di name') (seqZ 0 m)) as E0.
      { apply first_such_ext. intros j Hj%elem_of_seqZ. destruct (decide (j = k)) as [->|Hne]; [|apply Ej; lia].
        rewrite Ek. unfold entry_for. rewrite Hkz by lia. done. }
      destruct (decide (k = m)) as [Ekm|Hkm]; [|by replace (Z.max m (k + 1)) with m by lia].
      replace (Z.max m (k + 1)) with (m + 1) by lia. rewrite seqZ_app, first_such_app, E0 by lia.
      destruct (first_such (entry_for V di name') (seqZ 0 m)); [done|]. rewrite Z.add_0_l. change (seqZ m 1) with [m]. simpl.
      by rewrite <-Ekm, Ek. }
    rewrite E. destruct (first_such (entry_for V di name') (seqZ 0 m)) as [j|] eqn:Ef; [|done]. simpl. f_equal.
    apply first_such_Some in Ef as [Hj%elem_of_seqZ Hej]. rewrite write_others; [done|lia|]. intros ->.
    unfold entry_for in Hej. rewrite Hkz in Hej by lia. done.
Qed.

End write.

Section code.
Context {S : Type} `{BlockStore S}.
Context (x : superblock) (Hx : sb_ok x) (Hlog : loggable x).

(** ** iget *)

(** The cache entry of inode [i], with a reference. *)
Definition igot (i : Z) (s : fsys S) (ip : Z) (s' : fsys S) : Prop :=
  0 ≤ ip < NINODE ∧ i_dev (icache s' ip) = ROOTDEV ∧ inum (icache s' ip) = i ∧ 0 < ref (icache s' ip) ∧
  (ref (icache s' ip) = 1 → i_valid (icache s' ip) = false) ∧
  blk s' = blk s ∧ sb s' = sb s ∧ ∀ j, j ≠ ip → icache s' j = icache s j.

Lemma wp_iget i s (Q : Z → fsys S → Prop) :
  (∃ j, 0 ≤ j < NINODE ∧ ref (icache s j) = 0) → (∀ ip s', igot i s ip s' → Q ip s') → wp (iget ROOTDEV i) Q s.
Proof.
  intros (j & Hj & Ej) HQ. unfold iget. wp_step. wp_step.
  destruct (first_such (λ j, (ref (icache s j) >? 0) && _ && _) _) as [ip|] eqn:E1.
  - apply first_such_Some in E1 as [Hip%elem_of_seqZ [[Hr Hd]%andb_true_iff Hi]%andb_true_iff].
    apply Z.eqb_eq in Hd, Hi. apply Z.gtb_lt in Hr. unfold updi. wp_run. apply HQ.
    split_and!; simpl; rewrite ?fset_eq; simpl; try done; try lia. intros q Hq. by rewrite fset_ne.
  - destruct (first_such (λ j, ref (icache s j) =? 0) _) as [ip|] eqn:E2.
    + apply first_such_Some in E2 as [Hip%elem_of_seqZ _]. unfold updi. wp_run. apply HQ.
      split_and!; simpl; rewrite ?fset_eq; simpl; try done; try lia. intros q Hq. by rewrite fset_ne.
    + pose proof (proj1 (first_such_None _ _) E2 j ltac:(apply elem_of_seqZ; lia)) as Hf. simpl in Hf. by rewrite Ej in Hf.
Qed.

Section dir.
Context (V : Z → block) (L : list Z) (dp m : Z) (di : dinode).
Context (Hok : file_ok x V di) (Hr : room L ∅ 0) (Hsz : isize di = DIRENT_SIZE * m) (Hm : 0 ≤ m).

(** A state in which the directory can be read. *)
Definition dir_state (s : fsys S) : Prop :=
  i_dev (icache s dp) = ROOTDEV ∧ din (icache s dp) = di ∧ bs_inv V L ∅ ∅ (blk s).

Lemma dir_state_blk s b : dir_state s → bs_inv V L ∅ ∅ b → dir_state (set_blk b s).
Proof. by intros (? & ? & _). Qed.

(** The read of one entry. *)
Lemma wp_read_entry s k (Q : Z * list Z → fsys S → Prop) :
  dir_state s → 0 ≤ k < m →
  (∀ b, bs_inv V L ∅ ∅ b → Q (DIRENT_SIZE, dirent_at V di k) (set_blk b s)) →
  wp (readi dp kernel_dst (DIRENT_SIZE * k) DIRENT_SIZE) Q s.
Proof.
  intros (Hd & Ed & Hb) Hk HQ. pose proof (fo_size _ _ _ Hok) as Hmax. change (MAXFILE * BSIZE) with 274432 in Hmax.
  rewrite Hsz in Hmax. unfold DIRENT_SIZE in *.
  eapply wp_readi; rewrite ?Ed; try done; try apply kernel_dst_frame; try lia.
  assert (read_len di (16 * k) 16 = 16) as ->.
  { unfold read_len. rewrite Hsz. destruct (Z.gtb_spec (16 * k) (16 * m)); lia. }
  intros n s' _ Hall Hs'. rewrite Hall by done. by apply HQ.
Qed.

Lemma wp_dirlookup_loop n fuel s name k (Q : option (Z * Z) → fsys S → Prop) :
  dir_state s → 0 ≤ k → k + Z.of_nat n = m → (n < fuel)%nat →
  (first_such (entry_for V di name) (seqZ k (Z.of_nat n)) = None → ∀ b, bs_inv V L ∅ ∅ b → Q None (set_blk b s)) →
  (∀ j b, first_such (entry_for V di name) (seqZ k (Z.of_nat n)) = Some j → bs_inv V L ∅ ∅ b →
     wp (iget ROOTDEV (de_inum (dirent_at V di j))) (λ ip s', Q (Some (ip, DIRENT_SIZE * j)) s') (set_blk b s)) →
  wp (dirlookup_loop fuel dp name (DIRENT_SIZE * k)) Q s.
Proof.
  revert fuel s k. induction n as [|n IH]; intros [|fuel] s k Hs Hk Hn Hf HQ1 HQ2; try lia; cbn [dirlookup_loop];
    pose proof Hs as (Hd & Ed & Hb); unfold geti; wp_step; wp_step; rewrite Ed, Hsz.
  { destruct (Z.ltb_spec (DIRENT_SIZE * k) (DIRENT_SIZE * m)); [unfold DIRENT_SIZE in *; lia|]. wp_step.
    specialize (HQ1 eq_refl (blk s) Hb). by destruct s. }
  destruct (Z.ltb_spec (DIRENT_SIZE * k) (DIRENT_SIZE * m)); [|unfold DIRENT_SIZE in *; lia].
  wp_step. apply wp_read_entry; [done|lia|]. intros b Hb'. rewrite Z.eqb_refl. cbn [negb].
  replace (Z.of_nat (Datatypes.S n)) with (1 + Z.of_nat n) in HQ1, HQ2 by lia. rewrite seqZ_app in HQ1, HQ2 by lia.
  change (seqZ k 1) with [k] in *. cbn [app first_such] in HQ1, HQ2.
  pose proof (fo_size _ _ _ Hok) as Hmax. change (MAXFILE * BSIZE) with 274432 in Hmax.
  assert (u32 (DIRENT_SIZE * k + DIRENT_SIZE) = DIRENT_SIZE * (k + 1)) as Eu by (rewrite u32_small; unfold DIRENT_SIZE in *; lia).
  assert (entry_for V di name k = false → wp (dirlookup_loop fuel dp name (u32 (DIRENT_SIZE * k + DIRENT_SIZE))) Q (set_blk b s)) as Hnext.
  { intros Ef. rewrite Ef in HQ1, HQ2. rewrite Eu. apply IH; [by apply dir_state_blk|lia|lia|lia|..].
    - intros En b2 Hb2. by apply HQ1.
    - intros j b2 Ej Hb2. by apply HQ2. }
  unfold entry_for in HQ1, HQ2, Hnext. destruct (Z.eqb_spec (de_inum (dirent_at V di k)) 0) as [Ez|Ez]; [by apply Hnext|].
  cbn [negb andb] in HQ1, HQ2, Hnext. destruct (namecmp _ _ =? 0); [|by apply Hnext].
  wp_step. rewrite Hd. eapply wp_mono; [by apply (HQ2 k b)|]. cbv beta. intros ip s' HQ. by wp_step.
Qed.

Lemma wp_dirlookup s name (Q : option (Z * Z) → fsys S → Prop) :
  dir_state s → itype di = T_DIR →
  (dir_find V di name = None → ∀ b, bs_inv V L ∅ ∅ b → Q None (set_blk b s)) →
  (∀ j b, dir_find V di name = Some j → bs_inv V L ∅ ∅ b →
     wp (iget ROOTDEV (de_inum (dirent_at V di j))) (λ ip s', Q (Some (ip, DIRENT_SIZE * j)) s') (set_blk b s)) →
  wp (dirlookup dp name) Q s.
Proof.
  intros Hs Ht HQ1 HQ2. unfold dirlookup, geti. wp_step. wp_step. pose proof Hs as (_ & Ed & _). rewrite Ed, Ht. cbn [negb Z.eqb].
  change (T_DIR =? T_DIR) with true. cbn [negb]. unfold dir_find in *. rewrite (entries_div Hsz) in *.
  replace 0 with (DIRENT_SIZE * 0) at 1 by done. apply (wp_dirlookup_loop (Z.to_nat m)); [done|lia|lia|lia|..]; by rewrite Z2Nat.id by lia.
Qed.

Lemma wp_dirlink_loop n fuel s k (Q : Z → fsys S → Prop) :
  dir_state s → 0 ≤ k → k + Z.of_nat n = m → (n < fuel)%nat →
  (∀ b, bs_inv V L ∅ ∅ b →
     Q (DIRENT_SIZE * default m (first_such (λ k, de_inum (dirent_at V di k) =? 0) (seqZ k (Z.of_nat n)))) (set_blk b s)) →
  wp (dirlink_loop fuel dp (DIRENT_SIZE * k)) Q s.
Proof.
  revert fuel s k. induction n as [|n IH]; intros [|fuel] s k Hs Hk Hn Hf HQ; try lia; cbn [dirlink_loop];
    pose proof Hs as (Hd & Ed & Hb); unfold geti; wp_step; wp_step; rewrite Ed, Hsz.
  { destruct (Z.ltb_spec (DIRENT_SIZE * k) (DIRENT_SIZE * m)); [unfold DIRENT_SIZE in *; lia|]. wp_step.
    specialize (HQ (blk s) Hb). simpl in HQ. replace k with m by lia. by destruct s. }
  destruct (Z.ltb_spec (DIRENT_SIZE * k) (DIRENT_SIZE * m)); [|unfold DIRENT_SIZE in *; lia].
  wp_step. apply wp_read_entry; [done|lia|]. intros b Hb'. rewrite Z.eqb_refl. cbn [negb].
  replace (Z.of_nat (Datatypes.S n)) with (1 + Z.of_nat n) in HQ by lia. rewrite seqZ_app in HQ by lia.
  change (seqZ k 1) with [k] in *. cbn [app first_such] in HQ.
  destruct (de_inum (dirent_at V di k) =? 0); [wp_step; by apply HQ|].
  replace (DIRENT_SIZE * k + DIRENT_SIZE) with (DIRENT_SIZE * (k + 1)) by (unfold DIRENT_SIZE; lia).
  apply IH; [by apply dir_state_blk|lia|lia|lia|]. intros b2 Hb2. by apply HQ.
Qed.

End dir.

(** ** dirlink *)

Lemma wp_dirlink V L s dp name inum_ m (Q : Z → fsys S → Prop) :
  let di := din (icache s dp) in
  sb s = x → i_dev (icache s dp) = ROOTDEV → bs_inv V L ∅ ∅ (blk s) → meta_used x V →
  file_ok x V di → shorts_ok di → 0 ≤ inum (icache s dp) < sb_ninodes x →
  itype di = T_DIR → isize di = DIRENT_SIZE * m → 0 ≤ m → DIRENT_SIZE * (m + 1) ≤ MAXFILE * BSIZE →
  room L ∅ 7 → nfree x V 2 → (∃ j, 0 ≤ j < NINODE ∧ ref (icache s j) = 0) →
  (is_Some (dir_find V di name) → ∀ s', bs_inv V L ∅ ∅ (blk s') → Q (-1) s') →
  (dir_find V di name = None → ∀ V' di' L' s',
     writei_post x V (inum (icache s dp)) di (DIRENT_SIZE * dir_slot V di) (encode_dirent inum_ name) V' di' →
     bs_inv V' L' ∅ ∅ (blk s') → room L' ∅ 0 → with_file (blk s') dp di' s s' → Q 0 s') →
  wp (dirlink dp name inum_) Q s.
Proof.
  intros di Es Hdev Hinv Hmeta Hok Hsh Hi Ht Hsz Hm Hmax Hr Hnf Hic HQ1 HQ2. unfold dirlink. wp_step.
  assert (dir_state V L dp di s) as Hs by done.
  assert (room L ∅ 0) as Hr0 by (by eapply room_le; [exact Hr|lia]).
  eapply (wp_dirlookup V L dp m di); try done.
  - intros Hnone b Hb. cbv beta iota. unfold geti. wp_step. wp_step. cbn [icache set_blk].
    wp_step. replace 0 with (DIRENT_SIZE * 0) at 1 by done.
    eapply (wp_dirlink_loop V L dp m di Hok Hr0 Hsz (Z.to_nat m)); [done|lia|lia| |].
    { fold di. rewrite (entries_div Hsz). lia. }
    intros b2 Hb2. rewrite Z2Nat.id by lia.
    assert (default m (first_such (λ k, de_inum (dirent_at V di k) =? 0) (seqZ 0 m)) = dir_slot V di) as ->
      by (unfold dir_slot; by rewrite (entries_div Hsz)).
    destruct (dir_slot_spec (V := V) Hsz Hm) as [Hk _]. set (k := dir_slot V di) in *.
    pose proof (chunks_dirent k) as Hch.
    wp_step. change DIRENT_SIZE with (Z.of_nat 16) at 2. rewrite <-(length_encode_dirent inum_ name).
    eapply wp_writei; try done; rewrite ?length_encode_dirent; cbn [icache set_blk]; fold di; change (Z.of_nat 16) with 16; rewrite ?Hch;
      try done; try (unfold DIRENT_SIZE in *; lia).
    intros V' di' L' s' Hw Hs' Hr' Hf. rewrite Z.eqb_refl. cbn [negb]. wp_step. eapply HQ2; try done.
  - intros j b Hj Hb. apply wp_iget; [done|]. intros ip s' (Hip & _ & _ & Hpos & Hval & Eb & _). cbv beta iota.
    wp_step. unfold iput, geti. wp_step. wp_step.
    assert ((ref (icache s' ip) =? 1) && i_valid (icache s' ip) && (nlink (din (icache s' ip)) =? 0) = false) as ->.
    { destruct (Z.eqb_spec (ref (icache s' ip)) 1) as [E1|]; [|done]. by rewrite (Hval E1). }
    unfold updi. wp_run. apply HQ1; [by eexists|]. simpl. by rewrite Eb.
Qed.

End code.

(** * Properties *)

(** C18: a directory is a map from names (up to [DIRSIZ] bytes) to inode numbers.
    [dirlink] of a name that is in the map returns -1 and leaves the disk alone.
    Otherwise it terminates with 0, in a state whose disk, with the log applied, is
    [V'] and whose cache has the inode [di'] for the directory; the directory is
    then the map with the name added: every other name is mapped as before, whether the entry went into
    a hole or the directory grew; other inodes and the blocks of other files are
    unchanged.  [dirlookup] of the name then returns a referenced cache entry of
    the inode. *)
Theorem dirlink_dirlookup {T} `{BlockStore T} x V L s dp name inum_ m :
  let di := din (icache s dp) in
  sb_ok x → loggable x → sb s = x → i_dev (icache s dp) = ROOTDEV →
  bs_inv V L ∅ ∅ (blk s) → meta_used x V → file_ok x V di → shorts_ok di →
  0 ≤ inum (icache s dp) < sb_ninodes x → itype di = T_DIR →
  isize di = DIRENT_SIZE * m → 0 ≤ m → DIRENT_SIZE * (m + 1) ≤ MAXFILE * BSIZE →
  room L ∅ 7 → nfree x V 2 → (∃ j, 0 ≤ j < NINODE ∧ j ≠ dp ∧ ref (icache s j) = 0) →
  Forall (λ b, 0 ≤ b < 256) name → 0 < inum_ < 2 ^ 16 →
  match dir_get V di name with
  | Some _ => ∃ s1, dirlink dp name inum_ s = Ret (-1) s1 ∧ bs_inv V L ∅ ∅ (blk s1)
  | None => ∃ V' L' di' s1, dirlink dp name inum_ s = Ret 0 s1 ∧
      bs_inv V' L' ∅ ∅ (blk s1) ∧ with_file (blk s1) dp di' s s1 ∧ file_ok x V' di' ∧
      (∀ name', dir_get V' di' name' = if decide (same_name name' name) then Some inum_ else dir_get V di name') ∧
      (∀ j, 0 ≤ j < sb_ninodes x → j ≠ inum (icache s dp) → din_eq (inode_at x V' j) (inode_at x V j)) ∧
      (∀ n, in_use x V n → ¬ owned V di n → V' n = V n) ∧
      ∃ ip off s2, dirlookup dp name s1 = Ret (Some (ip, off)) s2 ∧
        i_dev (icache s2 ip) = ROOTDEV ∧ inum (icache s2 ip) = inum_ ∧ 0 < ref (icache s2 ip)
  end.
Proof.
  intros di Hx Hlog Es Hdev Hinv Hmeta Hok Hsh Hi Ht Hsz Hm Hmax Hr Hnf (j & Hj & Hjd & Ej) Hname Hinum.
  assert (wp (dirlink dp name inum_) (λ r s1,
    is_Some (dir_find V di name) ∧ r = -1 ∧ bs_inv V L ∅ ∅ (blk s1) ∨
    dir_find V di name = None ∧ r = 0 ∧ ∃ V' di' L',
      writei_post x V (inum (icache s dp)) di (DIRENT_SIZE * dir_slot V di) (encode_dirent inum_ name) V' di' ∧
      bs_inv V' L' ∅ ∅ (blk s1) ∧ room L' ∅ 0 ∧ with_file (blk s1) dp di' s s1) s) as Hw.
  { eapply (wp_dirlink x Hx Hlog V L s dp name inum_ m); try done; [by exists j|..].
    - intros Hf s1 Hs1. by left.
    - intros Hf V' di' L' s1 Hw Hs1 Hr1 Hwf. right. split; [done|]. split; [done|]. by exists V', di', L'. }
  apply wp_inv in Hw as (r & s1 & E & [([k Hf] & -> & Hs1)|(Hf & -> & V' & di' & L' & Hw & Hs1 & Hr1 & Hwf)]);
    unfold dir_get at 1; rewrite Hf; cbn [mbind option_bind].
  { exists s1. split; [exact E|done]. }
  pose proof (dir_get_write Hsz Hm Hinum Hname Hf Hw) as Hget.
  exists V', L', di', s1. split; [exact E|]. split_and!; [done|done|apply Hw|done|apply Hw|apply Hw|].
  destruct (with_file_din _ _ _ _ _ Hwf) as (Ed & Ev & _). destruct Hwf as (_ & _ & _ & _ & Eic).
  specialize (Hget name) as Hgn. rewrite decide_True in Hgn by done. unfold dir_get in Hgn.
  destruct (dir_find V' di' name) as [k|] eqn:Ek; [|done]. injection Hgn as Einum.
  assert (wp (dirlookup dp name) (λ r s2, ∃ ip off, r = Some (ip, off) ∧
    i_dev (icache s2 ip) = ROOTDEV ∧ inum (icache s2 ip) = inum_ ∧ 0 < ref (icache s2 ip)) s1) as Hd.
  { eapply (wp_dirlookup x Hx Hlog V' L' dp (Z.max m (dir_slot V di + 1)) di'); [apply Hw|done|apply (write_size Hsz Hm Hw)|lia|..].
    - split; [by rewrite Ev|done].
    - rewrite (wi_type _ _ _ _ _ _ _ _ Hw). done.
    - intros En. by rewrite Ek in En.
    - intros j' b Ej' Hb. rewrite Ek in Ej'. injection Ej' as <-. rewrite Einum. apply wp_iget.
      + exists j. split; [done|]. simpl. rewrite Eic. by destruct (Z.eqb_spec j dp).
      + intros ip s2 (_ & ? & ? & ? & _). by exists ip, (DIRENT_SIZE * k). }
  apply wp_inv in Hd as (r & s2 & E2 & ip & off & -> & ? & ? & ?). exists ip, off, s2. by split.
Qed.
