(* ===== verification/FsWitness.v ===== *)
(** * A concrete file system

    A disk with the layout that mkfs makes (a log of 30 blocks at block 2, 200
    inodes from block 32, the bitmap in block 45, 1000 blocks), mounted by the
    modelled boot code, with a transaction open.  The theorems about the file
    system are applied to it. *)

From S2P Require Import Prelude Machine CString Bio Cache Log Txn Fs FsBlocks FsInode FsFile FsWrite FsDir.

Definition ex_sb : superblock := SuperBlock FSMAGIC 1000 954 200 30 2 32 45.

(** The bitmap: blocks 0 to 45 are in use. *)
Definition ex_bitmap : block := store_bytes (λ _, 0) 0 [255; 255; 255; 255; 255; 63].
Definition ex_fs_disk : Z → block := fset (λ _ _, 0) 45 ex_bitmap.

(** An empty regular file as inode 7, locked and valid in entry 0 of the cache. *)
Definition ex_dinode : dinode := Dinode T_FILE 0 0 1 0 (λ _, 0).
Definition ex_fsys (b : sys) : fsys sys :=
  Fsys b (λ i, Inode ROOTDEV 7 1 (i =? 1) 3 (i =? 1) ex_dinode) ex_sb 3 0 [].

Lemma ex_sb_ok : sb_ok ex_sb.
Proof. by split; vm_compute. Qed.

Lemma ex_loggable : @loggable sys (log_store 2 30) ex_sb.
Proof. intros n Hn. simpl in *. unfold home. lia. Qed.

Lemma ex_meta V : V 45 = ex_bitmap → meta_used ex_sb V.
Proof.
  intros EV n Hn. change (data_start ex_sb) with 46 in Hn. unfold free, BBLOCK.
  assert (Forall (λ n, bit_free ex_bitmap (n `mod` BPB) = false ∧ u32 (n / BPB + 45) = 45) (seqZ 0 46)) as Hall
    by (apply Forall_forall; intros k Hk%elem_of_seqZ;
        assert (k / BPB = 0) as -> by (apply Z.div_small; unfold BPB, BSIZE; lia);
        assert (k `mod` BPB = k) as -> by (apply Z.mod_small; unfold BPB, BSIZE; lia); split; [|done];
        assert (forallb (λ k, negb (bit_free ex_bitmap k)) (seqZ 0 46) = true) as Hb by (vm_compute; reflexivity);
        rewrite forallb_forall in Hb; specialize (Hb k); rewrite <-list_elem_of_In in Hb;
        apply negb_true_iff, Hb, elem_of_seqZ; lia).
  rewrite Forall_forall in Hall. destruct (Hall n) as [Hf Hb]; [apply elem_of_seqZ; lia|].
  change (sb_bmapstart ex_sb) with 45. rewrite Hb, EV, Hf. done.
Qed.

Lemma ex_nfree V : V 45 = ex_bitmap → nfree ex_sb V 2.
Proof.
  intros EV. exists [46; 47]. split_and!; [apply NoDup_cons; split; [set_solver|apply NoDup_singleton]|done|].
  intros n. rewrite !elem_of_cons. intros [->|[->|[]%elem_of_nil]]; unfold free, BBLOCK;
    change (sb_bmapstart ex_sb) with 45; change (sb_size ex_sb) with 1000;
    (split; [lia|]); change (u32 _) with 45; rewrite EV; vm_compute; reflexivity.
Qed.

Lemma ex_file_ok V t : file_ok ex_sb V (Dinode t 0 0 1 0 (λ _, 0)).
Proof.
  assert (∀ bn, blockmap V (Dinode t 0 0 1 0 (λ _, 0)) bn = 0) as E by (intros bn; unfold blockmap; by destruct (bn <? NDIRECT)).
  split; intros; rewrite ?E in *; try done. simpl in *. unfold BSIZE in *. lia.
Qed.

Lemma ex_fs : ∃ V b, op_inv 2 30 V [] ∅ ∅ b ∧ V 45 = ex_bitmap.
Proof.
  destruct (started ex_fs_disk) as (V & b & Hop & _ & HV); [by vm_compute|].
  exists V, b. split; [done|]. by rewrite HV by lia.
Qed.

Lemma ex_room k : (k < 29)%nat → @room sys (log_store 2 30) [] ∅ k.
Proof. intros Hk. unfold room. rewrite map_size_empty. change bs_room with 29%nat. simpl. lia. Qed.

(** * The theorems on it *)

Lemma balloc_takes_first_free_witness :
  ∃ b s s', @balloc sys (log_store 2 30) ROOTDEV s = Ret b s' ∧ data_start ex_sb ≤ b.
Proof.
  destruct ex_fs as (V & b & Hop & EV).
  destruct (@balloc_takes_first_free sys (log_store 2 30) ex_sb V [] ∅ ∅ (ex_fsys b))
    as (n & V' & L' & s' & E & Ha & _).
  - apply ex_sb_ok.
  - apply ex_loggable.
  - reflexivity.
  - exact Hop.
  - by apply ex_meta.
  - intros k Hk. set_solver.
  - apply ex_room. lia.
  - eapply nfree_exists. by apply ex_nfree.
  - eexists n, _, _. split; [exact E|apply (al_range _ _ _ _ Ha)].
Defined.

Lemma balloc_bfree_roundtrip_witness :
  ∃ b s s', (b ← @balloc sys (log_store 2 30) ROOTDEV; @bfree sys (log_store 2 30) ROOTDEV b ;; mret b) s
    = Ret b s'.
Proof.
  destruct ex_fs as (V & b & Hop & EV).
  destruct (@balloc_bfree_roundtrip sys (log_store 2 30) ex_sb V [] ∅ ∅ (ex_fsys b))
    as (n & V' & L' & s' & E & _).
  - apply ex_sb_ok.
  - apply ex_loggable.
  - reflexivity.
  - exact Hop.
  - by apply ex_meta.
  - intros k Hk. set_solver.
  - apply ex_room. lia.
  - eapply nfree_exists. by apply ex_nfree.
  - eexists n, _, _. exact E.
Defined.

Lemma iupdate_ilock_roundtrip_witness :
  ∃ s s' s3, @iupdate sys (log_store 2 30) 1 s = Ret tt s' ∧
    @ilock sys (log_store 2 30) 2 s' = Ret tt s3 ∧ nlink (din (icache s3 2)) = 1.
Proof.
  destruct ex_fs as (V & b & Hop & EV).
  destruct (@iupdate_ilock_roundtrip sys (log_store 2 30) ex_sb V [] ∅ ∅ (ex_fsys b) 1)
    as (V' & s' & E & _ & Hl).
  - apply ex_sb_ok.
  - apply ex_loggable.
  - reflexivity.
  - exact Hop.
  - intros k Hk. set_solver.
  - apply ex_room. lia.
  - reflexivity.
  - simpl. lia.
  - split; simpl; try lia. unfold T_FILE. lia.
  - simpl. unfold T_FILE. lia.
  - destruct (Hl 2 (set_blk s' (ex_fsys b))) as (s3 & E3 & Hd & _); try reflexivity.
    + discriminate.
    + eexists _, _, s3. split; [exact E|]. split; [exact E3|]. destruct Hd as (_ & _ & _ & -> & _). reflexivity.
Defined.

Lemma writei_readi_roundtrip_witness :
  ∃ s s1 s2, @writei sys (log_store 2 30) 1 (kernel_src [104; 105; 10]) 0 3 s = Ret 3 s1 ∧
    @readi sys (log_store 2 30) 1 kernel_dst 0 3 s1 = Ret (3, [104; 105; 10]) s2.
Proof.
  destruct ex_fs as (V & b & Hop & EV).
  destruct (@writei_readi_roundtrip sys (log_store 2 30) ex_sb V [] (ex_fsys b) 1 [104; 105; 10] 0)
    as (V' & L' & di' & s1 & s2 & E1 & _ & _ & _ & E2).
  - apply ex_sb_ok.
  - apply ex_loggable.
  - reflexivity.
  - reflexivity.
  - exact Hop.
  - by apply ex_meta.
  - apply ex_file_ok.
  - unfold shorts_ok. simpl. unfold T_FILE. lia.
  - simpl. lia.
  - simpl. lia.
  - simpl. lia.
  - vm_compute. discriminate.
  - apply ex_room. vm_compute. lia.
  - by apply ex_nfree.
  - repeat constructor; lia.
  - eexists _, s1, s2. split; [exact E1|exact E2].
Defined.

(** An empty directory in cache entry 1. *)
Definition ex_dir : dinode := Dinode T_DIR 0 0 1 0 (λ _, 0).
Definition ex_dsys (b : sys) : fsys sys :=
  Fsys b (λ j, if j =? 1 then Inode ROOTDEV 7 1 true 1 true ex_dir else Inode 0 0 0 false 0 false ex_dir) ex_sb 1 1 [].

Lemma dirlink_dirlookup_witness :
  ∃ s s1 ip off s2, @dirlink sys (log_store 2 30) 1 [97; 46; 99] 9 s = Ret 0 s1 ∧
    @dirlookup sys (log_store 2 30) 1 [97; 46; 99] s1 = Ret (Some (ip, off)) s2 ∧ inum (icache s2 ip) = 9.
Proof.
  destruct ex_fs as (V & b & Hop & EV).
  pose proof (@dirlink_dirlookup sys (log_store 2 30) ex_sb V [] (ex_dsys b) 1 [97; 46; 99] 9 0) as Hd.
  destruct Hd as (V' & L' & di' & s1 & E1 & _ & _ & _ & _ & _ & _ & ip & off & s2 & E2 & _ & Ei & _).
  - apply ex_sb_ok.
  - apply ex_loggable.
  - reflexivity.
  - reflexivity.
  - exact Hop.
  - by apply ex_meta.
  - apply ex_file_ok.
  - unfold shorts_ok. simpl. unfold T_DIR. lia.
  - simpl. lia.
  - reflexivity.
  - reflexivity.
  - lia.
  - vm_compute. discriminate.
  - apply ex_room. lia.
  - by apply ex_nfree.
  - exists 2. vm_compute. intuition congruence.
  - repeat constructor; lia.
  - lia.
  - exists (ex_dsys b), s1, ip, off, s2. split; [exact E1|]. split; [exact E2|exact Ei].
Defined.
