(* ===== verification/FsPath.v ===== *)
(** * Path names: [skipelem], [namex]

    [lookup_path] is the meaning of a path: from an inode on, every element but the
    last names a directory.  [namex] finds what the path means, returns a reference
    to the cache entry of the inode, and gives back every other reference that it
    has taken. *)

From Stdlib Require Import FunctionalExtensionality.
From S2P Require Import Prelude Machine CString Bio Cache Log Txn Fs FsBlocks FsInode FsFile FsWrite FsDir FsWitness.

(** ** The elements of a path *)

(** The parts between slashes. *)
Fixpoint parts (path : list Z) : list (list Z) :=
  match path with
  | [] => [[]]
  | c :: path' =>
      if c =? slash then [] :: parts path'
      else match parts path' with p :: ps => (c :: p) :: ps | [] => [[c]] end
  end.

(** Those that are not empty, cut to the length of a name. *)
Definition elements (path : list Z) : list (list Z) :=
  take (Z.to_nat DIRSIZ) <$> filter (λ p, p ≠ []) (parts path).

(** ** The meaning of a path *)

Section meaning.
Context (x : superblock) (V : Z → block).

(** The inode that the elements lead to from inode [i], and the last element that
    was looked at; for [parent], the directory of the last element. *)
Fixpoint lookup_path (parent : bool) (i : Z) (es : list (list Z)) (name : list Z) : option Z * list Z :=
  match es with
  | [] => (if parent then None else Some i, name)
  | e :: es' =>
      let di := inode_at x V i in
      if negb (itype di =? T_DIR) then (None, e)
      else if parent && (match es' with [] => true | _ => false end) then (Some i, e)
      else match dir_get V di e with
           | Some j => lookup_path parent j es' e
           | None => (None, e)
           end
  end.

(** An inode in use that has links. *)
Definition linked (i : Z) : Prop := 0 ≤ i < sb_ninodes x ∧ itype (inode_at x V i) ≠ 0 ∧ 0 < nlink (inode_at x V i).

(** A directory is a file of whole entries, and its entries name linked inodes. *)
Record tree_ok : Prop := {
  to_file i : linked i → itype (inode_at x V i) = T_DIR → file_ok x V (inode_at x V i);
  to_size i : linked i → itype (inode_at x V i) = T_DIR → ∃ m, 0 ≤ m ∧ isize (inode_at x V i) = DIRENT_SIZE * m;
  to_entry i name j : linked i → itype (inode_at x V i) = T_DIR → dir_get V (inode_at x V i) name = Some j → linked j
}.

(** A cache entry: unlocked, and if it is referenced, for an inode in use, with its
    contents if it is valid. *)
Record entry_ok (e : inode) : Prop := {
  eo_ref : 0 ≤ ref e;
  eo_unlocked : i_locked e = false;
  eo_dev : 0 < ref e → i_dev e = ROOTDEV;
  eo_inum : 0 < ref e → 0 ≤ inum e < sb_ninodes x ∧ itype (inode_at x V (inum e)) ≠ 0;
  eo_din : 0 < ref e → i_valid e = true → din_eq (din e) (inode_at x V (inum e))
}.

End meaning.

(** ** Elements and skipelem *)

Lemma parts_nonempty path : parts path ≠ [].
Proof. destruct path as [|c path]; [done|]. simpl. destruct (c =? slash); [done|]. by destruct (parts path). Qed.

Lemma elements_slash path : elements (slash :: path) = elements path.
Proof. done. Qed.

Lemma elements_skip path : elements (skip_slashes path) = elements path.
Proof.
  induction path as [|c path IH]; [done|]. cbn [skip_slashes]. destruct (Z.eqb_spec c slash) as [->|]; [|done].
  by rewrite elements_slash.
Qed.

Lemma skip_slashes_head path c rest : skip_slashes path = c :: rest → c ≠ slash.
Proof.
  induction path as [|d path IH]; [done|]. cbn [skip_slashes]. destruct (Z.eqb_spec d slash); [done|]. by intros [= -> ->].
Qed.

Lemma span_parts path : parts path = (span_elem path).1 :: match (span_elem path).2 with [] => [] | _ :: rest => parts rest end.
Proof.
  induction path as [|c path IH]; [done|]. cbn [parts span_elem]. destruct (Z.eqb_spec c slash) as [->|]; [done|].
  rewrite IH. by destruct (span_elem path).
Qed.

Lemma span_rest path : match (span_elem path).2 with [] => True | c :: _ => c = slash end.
Proof.
  induction path as [|c path IH]; [done|]. cbn [span_elem]. destruct (Z.eqb_spec c slash) as [->|]; [done|]. by destruct (span_elem path).
Qed.

Lemma skipelem_elements path : match skipelem path with
  | None => elements path = []
  | Some (e, path') => elements path = e :: elements path' ∧ (path' = [] ↔ elements path' = [])
  end.
Proof.
  unfold skipelem. pose proof (elements_skip path) as Es. destruct (skip_slashes path) as [|c rest] eqn:E; [by rewrite <-Es|].
  apply skip_slashes_head in E as Hc. pose proof (span_parts (c :: rest)) as Hp. pose proof (span_rest (c :: rest)) as Hr.
  destruct (span_elem (c :: rest)) as [s rest'] eqn:Esp. cbn [fst snd] in Hp, Hr.
  assert (s ≠ []) as Hs.
  { cbn [span_elem] in Esp. destruct (Z.eqb_spec c slash); [done|]. destruct (span_elem rest). by injection Esp as <- <-. }
  split.
  - rewrite <-Es. unfold elements at 1. rewrite Hp, filter_cons_True by done. cbn [fmap list_fmap]. f_equal.
    + destruct (Z.geb_spec (Z.of_nat (length s)) DIRSIZ); [done|]. apply take_ge. unfold DIRSIZ in *. lia.
    + rewrite elements_skip. destruct rest' as [|c' rest']; [done|]. by subst c'.
  - rewrite elements_skip. destruct (skip_slashes rest') as [|d r] eqn:Ed.
    + split; [|done]. intros _. rewrite <-(elements_skip rest'), Ed. done.
    + split; [done|]. rewrite <-(elements_skip rest'), Ed. apply skip_slashes_head in Ed. unfold elements. cbn [parts].
      destruct (Z.eqb_spec d slash); [done|]. pose proof (parts_nonempty r). destruct (parts r); [done|]. by rewrite filter_cons_True.
Qed.

Lemma elements_length path : (length (elements path) ≤ length path)%nat.
Proof.
  unfold elements. rewrite length_fmap. induction path as [|c path IH]; [done|]. cbn [parts length]. destruct (c =? slash).
  - rewrite filter_cons_False by naive_solver. lia.
  - destruct (parts path) as [|p ps]; [simpl; lia|]. rewrite filter_cons_True by done. rewrite filter_cons in IH. destruct (decide _); simpl in *; lia.
Qed.

(** ** Inodes that are equal on disk *)

Section same.
Context {x : superblock} {V : Z → block} {d1 d2 : dinode}.
Hypothesis Hd : din_eq d1 d2.

Lemma blockmap_eq bn : 0 ≤ bn → blockmap V d1 bn = blockmap V d2 bn.
Proof.
  intros Hbn. destruct Hd as (_ & _ & _ & _ & _ & Ha). unfold blockmap. destruct (Z.ltb_spec bn NDIRECT).
  - apply Ha. lia.
  - by rewrite (Ha NDIRECT) by (unfold NDIRECT; lia).
Qed.

Lemma file_ok_eq : file_ok x V d1 → file_ok x V d2.
Proof.
  intros [F1 F2 F3 F4 F5 F6]. pose proof Hd as (_ & _ & _ & _ & Es & Ha).
  assert (addrs d2 NDIRECT = addrs d1 NDIRECT) as En by (symmetry; apply Ha; unfold NDIRECT; lia).
  split; rewrite ?En, <-?Es; try done; intros; rewrite <-?(blockmap_eq) in * by lia; eauto.
Qed.

Lemma dirent_at_eq k : 0 ≤ k → dirent_at V d1 k = dirent_at V d2 k.
Proof.
  intros Hk. unfold dirent_at, file_bytes. apply list_fmap_ext. intros n j [-> Hj]%lookup_seqZ. unfold file_byte.
  rewrite blockmap_eq; [done|]. apply Z.div_pos; unfold DIRENT_SIZE, BSIZE in *; lia.
Qed.

Lemma dir_get_eq name : dir_get V d1 name = dir_get V d2 name.
Proof.
  unfold dir_get, dir_find. pose proof Hd as (_ & _ & _ & _ & -> & _).
  rewrite (first_such_ext _ (entry_for V d2 name)).
  - destruct (first_such _ _) as [k|] eqn:Ek; [|done]. apply first_such_Some in Ek as [Hk%elem_of_seqZ _]. simpl.
    by rewrite dirent_at_eq by lia.
  - intros k Hk%elem_of_seqZ. unfold entry_for. by rewrite dirent_at_eq by lia.
Qed.

End same.

(** ** The code *)

Section code.
Context {S : Type} `{BlockStore S}.
Context (x : superblock) (Hx : sb_ok x) (Hlog : loggable x) (V : Z → block) (L : list Z).
Context (Htree : tree_ok x V) (Hroom : room L ∅ 0).

(** What [iget] does to the cache: another reference to an entry, or a fresh entry. *)
Inductive iget_entry (i : Z) (e e' : inode) : Prop :=
| iget_found : 0 < ref e → i_dev e = ROOTDEV → inum e = i → e' = set_ref (ref e + 1) e → iget_entry i e e'
| iget_fresh : ref e = 0 → e' = Inode ROOTDEV i 1 (i_locked e) (i_pid e) false (din e) → iget_entry i e e'.

Lemma wp_iget_entry i s (Q : Z → fsys S → Prop) :
  (∃ j, 0 ≤ j < NINODE ∧ ref (icache s j) = 0) →
  (∀ ip e, 0 ≤ ip < NINODE → iget_entry i (icache s ip) e →
    Q ip (Fsys (blk s) (fset (icache s) ip e) (sb s) (f_pid s) (cwd s) (f_woken s))) →
  wp (iget ROOTDEV i) Q s.
Proof.
  intros (j & Hj & Ej) HQ. unfold iget. wp_step. wp_step.
  destruct (first_such (λ j, (ref (icache s j) >? 0) && _ && _) _) as [ip|] eqn:E1.
  - apply first_such_Some in E1 as [Hip%elem_of_seqZ [[Hr Hd]%andb_true_iff Hi]%andb_true_iff].
    apply Z.eqb_eq in Hd, Hi. apply Z.gtb_lt in Hr. unfold updi. wp_run. apply HQ; [lia|]. by apply iget_found.
  - destruct (first_such (λ j, ref (icache s j) =? 0) _) as [ip|] eqn:E2.
    + apply first_such_Some in E2 as [Hip%elem_of_seqZ E0%Z.eqb_eq]. unfold updi. wp_run. apply HQ; [lia|]. by apply iget_fresh.
    + pose proof (proj1 (first_such_None _ _) E2 j ltac:(apply elem_of_seqZ; lia)) as Hf. simpl in Hf. by rewrite Ej in Hf.
Qed.

(** The end of the use of a locked inode. *)
Lemma wp_iunlock s ip (Q : unit → fsys S → Prop) :
  let e := icache s ip in
  ip ≠ NULL → i_locked e = true → i_pid e = f_pid s → 1 ≤ ref e →
  (∀ w ic, (∀ j, ic j = if j =? ip then Inode (i_dev e) (inum e) (ref e) false 0 (i_valid e) (din e) else icache s j) →
     Q tt (Fsys (blk s) ic (sb s) (f_pid s) (cwd s) w)) →
  wp (iunlock ip) Q s.
Proof.
  intros e Hip Hl Hp Hr HQ. unfold iunlock, geti. wp_run. fold e. rewrite Hl, Hp, Z.eqb_refl.
  destruct (Z.eqb_spec ip NULL); [done|]. destruct (Z.ltb_spec (ref e) 1); [lia|]. cbn [andb negb orb].
  unfold releasesleep_inode, updi. wp_run. by apply HQ.
Qed.

(** A reference given back, of an inode that has links. *)
Lemma wp_iput_linked s ip (Q : unit → fsys S → Prop) :
  let e := icache s ip in
  (i_valid e = true → 0 < nlink (din e)) →
  Q tt (Fsys (blk s) (fset (icache s) ip (set_ref (ref e - 1) e)) (sb s) (f_pid s) (cwd s) (f_woken s)) →
  wp (iput ip) Q s.
Proof.
  intros e Hn HQ. unfold iput, geti, updi. wp_run. fold e. destruct (i_valid e) eqn:Ev.
  - specialize (Hn eq_refl). destruct (Z.eqb_spec (nlink (din e)) 0); [lia|]. rewrite andb_false_r. by wp_run.
  - rewrite andb_false_r. by wp_run.
Qed.

(** *** The state of a walk *)

Section walk.
Context (s0 : fsys S).

(** Nothing is locked, and the walk has one reference, to entry [ip]; none, if [ip] is [NULL]. *)
Record holds (s : fsys S) (ip : Z) : Prop := {
  h_sb : sb s = x;
  h_pid : f_pid s = f_pid s0;
  h_cwd : cwd s = cwd s0;
  h_blk : bs_inv V L ∅ ∅ (blk s);
  h_entry j : 0 ≤ j < NINODE → entry_ok x V (icache s j);
  h_ref j : 0 ≤ j < NINODE → ref (icache s j) = ref (icache s0 j) + (if j =? ip then 1 else 0);
  h_inum j : 0 ≤ j < NINODE → 0 < ref (icache s0 j) → inum (icache s j) = inum (icache s0 j)
}.

(** Entry [ip], of inode [i], is locked; the walk has a reference to it, and one to [next]. *)
Record locked (s : fsys S) (ip i : Z) (di : dinode) (next : Z) : Prop := {
  l_sb : sb s = x;
  l_pid : f_pid s = f_pid s0;
  l_cwd : cwd s = cwd s0;
  l_blk : bs_inv V L ∅ ∅ (blk s);
  l_din : din_eq di (inode_at x V i);
  l_ip : ∃ r, icache s ip = Inode ROOTDEV i r true (f_pid s) true di;
  l_entry j : 0 ≤ j < NINODE → j ≠ ip → entry_ok x V (icache s j);
  l_ref j : 0 ≤ j < NINODE →
    ref (icache s j) = ref (icache s0 j) + (if j =? ip then 1 else 0) + (if j =? next then 1 else 0);
  l_inum j : 0 ≤ j < NINODE → 0 < ref (icache s0 j) → inum (icache s j) = inum (icache s0 j)
}.

Context (Hs0 : ∀ j, 0 ≤ j < NINODE → 0 ≤ ref (icache s0 j)).

Lemma ilock_locks s ip i (Q : unit → fsys S → Prop) :
  holds s ip → 0 ≤ ip < NINODE → inum (icache s ip) = i → linked x V i →
  (∀ s' di, locked s' ip i di NULL → Q tt s') → wp (ilock ip) Q s.
Proof.
  intros [Hsb Hpid Hcwd Hb He Hr Hi] Hip Ei (Hri & Hti & _) HQ.
  pose proof (Hr ip Hip) as Rip. rewrite Z.eqb_refl in Rip. specialize (Hs0 ip Hip). destruct (He ip Hip) as [_ E2 E3 _ E5].
  eapply (wp_ilock x Hx Hlog V L ∅ ∅); rewrite ?Ei; try done; try (unfold NULL; lia); try (apply E3; lia).
  intros b di ic Hb' Edi Hic. apply (HQ _ di).
  assert (icache s ip = Inode ROOTDEV i (ref (icache s ip)) false (i_pid (icache s ip)) (i_valid (icache s ip)) (din (icache s ip))) as Ee.
  { rewrite <-E2, <-E3, <-Ei by lia. by destruct (icache s ip). }
  split; simpl; try done.
  - subst di. destruct (i_valid (icache s ip)) eqn:Ev; [|by split_and!]. rewrite <-Ei. apply E5; [lia|done].
  - exists (ref (icache s ip)). rewrite Hic, Z.eqb_refl. unfold locked_entry. rewrite E3, Ei by lia. done.
  - intros j Hj Hne. rewrite Hic. destruct (Z.eqb_spec j ip); [done|]. by apply He.
  - intros j Hj. rewrite Hic, <-Z.add_assoc. destruct (Z.eqb_spec j NULL); [unfold NULL in *; lia|].
    rewrite Z.add_0_r. destruct (Z.eqb_spec j ip) as [->|Hne]; [done|]. rewrite Hr by done. by destruct (Z.eqb_spec j ip).
  - intros j Hj Hpos. rewrite Hic. destruct (Z.eqb_spec j ip) as [->|]; by apply Hi.
Qed.

Lemma locked_entry_ok s ip i di next r : locked s ip i di next → linked x V i → 0 ≤ r →
  entry_ok x V (Inode ROOTDEV i r false 0 true di).
Proof. intros Hl (Hi & Ht & _) Hr. by split; simpl; intros; try apply Hl. Qed.

Lemma iunlock_holds s ip i di (Q : unit → fsys S → Prop) :
  locked s ip i di NULL → 0 ≤ ip < NINODE → linked x V i →
  (∀ s', holds s' ip → inum (icache s' ip) = i → Q tt s') → wp (iunlock ip) Q s.
Proof.
  intros Hl Hip Hi HQ. destruct (l_ip _ _ _ _ _ Hl) as [r Er]. pose proof (l_ref _ _ _ _ _ Hl ip Hip) as Rip.
  rewrite Z.eqb_refl, Er in Rip. cbn [ref] in Rip. specialize (Hs0 ip Hip).
  assert (0 < r) by (revert Rip; destruct (ip =? NULL); lia).
  apply wp_iunlock; rewrite ?Er; simpl; try done; try (unfold NULL; lia). intros w ic Hic.
  apply HQ; [|by simpl; rewrite Hic, Z.eqb_refl].
  split; simpl; try apply Hl.
  - intros j Hj. rewrite Hic. destruct (Z.eqb_spec j ip); [|by apply Hl]. eapply locked_entry_ok; [done..|lia].
  - intros j Hj. pose proof (l_ref _ _ _ _ _ Hl j Hj) as Rj. destruct (Z.eqb_spec j NULL); [unfold NULL in *; lia|].
    rewrite Z.add_0_r in Rj. rewrite <-Rj, Hic. destruct (Z.eqb_spec j ip) as [->|]; [by rewrite Er|done].
  - intros j Hj Hpos. rewrite <-(l_inum _ _ _ _ _ Hl j Hj Hpos), Hic. destruct (Z.eqb_spec j ip) as [->|]; [by rewrite Er|done].
Qed.

Lemma iunlockput_holds s ip i di next k (Q : unit → fsys S → Prop) :
  locked s ip i di next → 0 ≤ ip < NINODE → linked x V i → inum (icache s next) = k →
  (∀ s', holds s' next → inum (icache s' next) = k → Q tt s') → wp (iunlockput ip) Q s.
Proof.
  intros Hl Hip Hi Ek HQ. destruct (l_ip _ _ _ _ _ Hl) as [r Er]. pose proof (l_ref _ _ _ _ _ Hl ip Hip) as Rip.
  rewrite Z.eqb_refl, Er in Rip. cbn [ref] in Rip. specialize (Hs0 ip Hip).
  assert (0 < r) by (revert Rip; destruct (ip =? next); lia). pose proof (l_din _ _ _ _ _ Hl) as (_ & _ & _ & En & _).
  unfold iunlockput. wp_step. apply wp_iunlock; rewrite ?Er; simpl; try done; try (unfold NULL; lia). intros w ic Hic.
  assert (ic ip = Inode ROOTDEV i r false 0 true di) as Eip by by rewrite Hic, Z.eqb_refl.
  apply wp_iput_linked; simpl; rewrite Eip; simpl; [intros _; rewrite En; apply Hi|].
  assert (∀ j, fset ic ip (Inode ROOTDEV i (r - 1) false 0 true di) j =
               if j =? ip then Inode ROOTDEV i (r - 1) false 0 true di else icache s j) as Hic'.
  { intros j. unfold fset. rewrite Hic. by destruct (j =? ip). }
  apply HQ.
  - split; simpl; try apply Hl; intros j Hj; rewrite Hic'.
    + destruct (Z.eqb_spec j ip); [|by apply Hl]. eapply locked_entry_ok; [done..|lia].
    + pose proof (l_ref _ _ _ _ _ Hl j Hj) as Rj. destruct (Z.eqb_spec j ip) as [->|]; [|lia]. rewrite Er in Rj. simpl in *. lia.
    + intros Hpos. rewrite <-(l_inum _ _ _ _ _ Hl j Hj Hpos). destruct (Z.eqb_spec j ip) as [->|]; [by rewrite Er|done].
  - simpl. rewrite Hic'. destruct (Z.eqb_spec next ip) as [->|]; [|done]. by rewrite <-Ek, Er.
Qed.

(** Two entries are free: a walk holds at most two references. *)
Context (Hfree : ∃ a b, 0 ≤ a < NINODE ∧ 0 ≤ b < NINODE ∧ a ≠ b ∧ ref (icache s0 a) = 0 ∧ ref (icache s0 b) = 0).

Lemma locked_free s ip i di : locked s ip i di NULL → ∃ j, 0 ≤ j < NINODE ∧ ref (icache s j) = 0.
Proof.
  intros Hl. destruct Hfree as (a & b & Ha & Hb & Hab & Ea & Eb).
  pose proof (l_ref _ _ _ _ _ Hl a Ha) as Ra. pose proof (l_ref _ _ _ _ _ Hl b Hb) as Rb.
  destruct (Z.eqb_spec a NULL); [unfold NULL in *; lia|]. destruct (Z.eqb_spec b NULL); [unfold NULL in *; lia|].
  destruct (Z.eqb_spec a ip) as [->|].
  - exists b. split; [done|]. destruct (Z.eqb_spec b ip); [congruence|lia].
  - exists a. split; [done|lia].
Qed.

Lemma iget_locked s ip i di k (Q : Z → fsys S → Prop) :
  locked s ip i di NULL → 0 ≤ ip < NINODE → linked x V k →
  (∀ next s', 0 ≤ next < NINODE → locked s' ip i di next → inum (icache s' next) = k → Q next s') →
  wp (iget ROOTDEV k) Q s.
Proof.
  intros Hl Hip (Hk & Htk & _) HQ. apply wp_iget_entry; [by eapply locked_free|]. intros next e Hn He.
  destruct (l_ip _ _ _ _ _ Hl) as [r Er]. pose proof (l_ref _ _ _ _ _ Hl) as Hr. pose proof (l_inum _ _ _ _ _ Hl) as Hi.
  assert (ref e = ref (icache s next) + 1) as Re by (destruct He as [? ? ? ->|Hr0 ->]; simpl; lia).
  assert (inum e = k) as Ie by by destruct He as [? ? ? ->|? ->].
  assert (∀ j, 0 ≤ j < NINODE → (j =? NULL) = false) as Hnull by (intros j Hj; apply Z.eqb_neq; unfold NULL; lia).
  apply HQ; [done| |by simpl; rewrite fset_eq].
  split; simpl; try apply Hl; unfold fset.
  - destruct (Z.eqb_spec ip next) as [<-|]; [|by exists r]. exists (r + 1).
    destruct He as [? ? ? ->|Hr0 _]; [by rewrite Er|]. specialize (Hr ip Hip). specialize (Hs0 ip Hip).
    rewrite Z.eqb_refl, Hnull in Hr by done. lia.
  - intros j Hj Hne. destruct (Z.eqb_spec j next) as [->|]; [|by apply Hl].
    destruct (l_entry _ _ _ _ _ Hl next Hj Hne) as [O1 O2 O3 O4 O5].
    destruct He as [? ? <- ->|? ->]; split; simpl; try done; try lia; auto.
  - intros j Hj. specialize (Hr j Hj). rewrite (Hnull j Hj) in Hr. destruct (Z.eqb_spec j next) as [->|]; lia.
  - intros j Hj Hpos. destruct (Z.eqb_spec j next) as [->|]; [|by apply Hi]. rewrite Ie, <-(Hi next Hj Hpos).
    destruct He as [? ? <- ->|Hr0 _]; [done|]. specialize (Hr next Hj). destruct (Z.eqb_spec next ip); rewrite Hnull in Hr by done; lia.
Qed.

Lemma locked_blk s ip i di next b : locked s ip i di next → bs_inv V L ∅ ∅ b → locked (set_blk b s) ip i di next.
Proof. by intros [] ?. Qed.

Lemma dirlookup_locked s ip i di name (Q : option (Z * Z) → fsys S → Prop) :
  locked s ip i di NULL → 0 ≤ ip < NINODE → linked x V i → itype (inode_at x V i) = T_DIR →
  (dir_get V (inode_at x V i) name = None → ∀ s', locked s' ip i di NULL → Q None s') →
  (∀ k next off s', dir_get V (inode_at x V i) name = Some k → 0 ≤ next < NINODE →
     locked s' ip i di next → inum (icache s' next) = k → Q (Some (next, off)) s') →
  wp (dirlookup ip name) Q s.
Proof.
  intros Hl Hip Hi Ht HQ1 HQ2. destruct (to_size _ _ Htree i Hi Ht) as (m & Hm & Hsz).
  pose proof (l_din _ _ _ _ _ Hl) as Hd. pose proof Hd as (Et & _ & _ & _ & Es & _). destruct (l_ip _ _ _ _ _ Hl) as [r Er].
  assert (din_eq (inode_at x V i) di) as Hd' by by symmetry.
  rewrite (dir_get_eq Hd') in HQ1, HQ2. unfold dir_get in *.
  apply (wp_dirlookup x Hx Hlog V L ip m di); try done; try congruence.
  - eapply file_ok_eq; [done|by apply Htree].
  - split_and!; [by rewrite Er..|apply Hl].
  - intros Ef b Hb. rewrite Ef in HQ1. apply HQ1; [done|by apply locked_blk].
  - intros j b Ef Hb. rewrite Ef in HQ2. eapply iget_locked; [by apply locked_blk|done| |].
    + apply (to_entry _ _ Htree i name); [done|done|]. rewrite (dir_get_eq Hd'). unfold dir_get. by rewrite Ef.
    + intros next s' Hn Hl' Ei. by eapply HQ2.
Qed.

(** What the walk returns: a reference to the entry of the inode, or none. *)
Definition walked (o : option Z * list Z) (r : Z * list Z) (s : fsys S) : Prop :=
  r.2 = o.2 ∧ holds s r.1 ∧
  match o.1 with Some i => 0 ≤ r.1 < NINODE ∧ inum (icache s r.1) = i | None => r.1 = NULL end.

Lemma iput_holds s ip (Q : unit → fsys S → Prop) :
  holds s ip → 0 ≤ ip < NINODE → linked x V (inum (icache s ip)) → (∀ s', holds s' NULL → Q tt s') → wp (iput ip) Q s.
Proof.
  intros Hh Hip (_ & _ & Hl) HQ. destruct Hh as [Hsb Hpid Hcwd Hb He Hr Hi]. pose proof (Hr ip Hip) as Rip. rewrite Z.eqb_refl in Rip.
  specialize (Hs0 ip Hip). destruct (He ip Hip) as [O1 O2 O3 O4 O5]. apply wp_iput_linked.
  { intros Ev. destruct O5 as (_ & _ & _ & -> & _); [lia|done|done]. }
  apply HQ. split; simpl; try done; unfold fset.
  - intros j Hj. destruct (Z.eqb_spec j ip) as [->|]; [|by apply He]. split; simpl; try done; try lia; intros; (apply O3 || apply O4 || apply O5); done || lia.
  - intros j Hj. destruct (Z.eqb_spec j NULL); [unfold NULL in *; lia|]. destruct (Z.eqb_spec j ip) as [->|]; simpl; [lia|].
    rewrite Hr by done. by destruct (Z.eqb_spec j ip).
  - intros j Hj Hpos. destruct (Z.eqb_spec j ip) as [->|]; by apply Hi.
Qed.

Lemma namex_loop_walks parent fuel path ip name s i :
  (length (elements path) < fuel)%nat → holds s ip → 0 ≤ ip < NINODE → inum (icache s ip) = i → linked x V i →
  wp (namex_loop fuel ip path parent name) (walked (lookup_path x V parent i (elements path) name)) s.
Proof.
  revert path ip name s i. induction fuel as [|fuel IH]; intros path ip name s i Hf Hh Hip Ei Hi; [lia|]. cbn [namex_loop].
  pose proof (skipelem_elements path) as Hsk. destruct (skipelem path) as [[e path']|].
  2:{ rewrite Hsk. cbn [lookup_path]. destruct parent; [|by wp_run]. wp_step. eapply iput_holds; [done|done|by rewrite Ei|].
      intros s' Hh'. by wp_run. }
  destruct Hsk as [Ee Hnil]. rewrite Ee in Hf |- *. cbn [length] in Hf. cbn [lookup_path].
  wp_step. eapply ilock_locks; [done..|]. intros s1 di Hl. unfold geti. wp_step. wp_step.
  destruct (l_ip _ _ _ _ _ Hl) as [r Er]. rewrite Er. cbn [din]. pose proof (l_din _ _ _ _ _ Hl) as (-> & _).
  destruct (Z.eqb_spec (itype (inode_at x V i)) T_DIR) as [Ht|Ht]; cbn [negb].
  2:{ wp_step. eapply iunlockput_holds; [done..|]. intros s' Hh' _. by wp_run. }
  assert ((match path' with [] => true | _ => false end) = match elements path' with [] => true | _ => false end) as ->.
  { destruct path' as [|c p]; [done|]. destruct (elements (c :: p)); [by discriminate (proj2 Hnil eq_refl)|done]. }
  destruct (parent && _) eqn:Ep.
  { wp_step. eapply iunlock_holds; [done..|]. intros s' Hh' Ei'. by wp_run. }
  wp_step. eapply dirlookup_locked; [done..| |].
  - intros -> s' Hl'. wp_step. eapply iunlockput_holds; [done..|]. intros s2 Hh' _. by wp_run.
  - intros k next off s' Hget Hn Hl' Ek. rewrite Hget. wp_step. eapply iunlockput_holds; [done..|].
    intros s2 Hh' Ek'. apply IH; [lia|done..|]. by eapply (to_entry _ _ Htree i).
Qed.

(** *** Where a walk starts *)

Context (Hsb : sb s0 = x) (Hb : bs_inv V L ∅ ∅ (blk s0)).
Context (Hent : ∀ j, 0 ≤ j < NINODE → entry_ok x V (icache s0 j)).

Lemma one_more ip e w :
  0 ≤ ip < NINODE → entry_ok x V e → ref e = ref (icache s0 ip) + 1 → (0 < ref (icache s0 ip) → inum e = inum (icache s0 ip)) →
  holds (Fsys (blk s0) (fset (icache s0) ip e) (sb s0) (f_pid s0) (cwd s0) w) ip.
Proof.
  intros Hip He Hr Hi. split; simpl; try done; unfold fset; intros j Hj; destruct (Z.eqb_spec j ip) as [->|]; auto. lia.
Qed.

Lemma iget_holds i (Q : Z → fsys S → Prop) :
  linked x V i → (∀ ip s', 0 ≤ ip < NINODE → holds s' ip → inum (icache s' ip) = i → Q ip s') → wp (iget ROOTDEV i) Q s0.
Proof.
  intros (Hi & Ht & _) HQ. apply wp_iget_entry; [destruct Hfree as (a & _ & ? & _ & _ & ? & _); by exists a|].
  intros ip e Hip He. assert (inum e = i) as Ie by by destruct He as [? ? ? ->|? ->].
  apply HQ; [done| |by simpl; rewrite fset_eq]. destruct (Hent ip Hip) as [O1 O2 O3 O4 O5].
  destruct He as [Hr ? <- ->|Hr ->]; apply one_more; simpl; try done; try lia; split; simpl; try done; try lia; auto.
Qed.

Lemma idup_holds ip (Q : Z → fsys S → Prop) :
  0 ≤ ip < NINODE → 0 < ref (icache s0 ip) →
  (∀ s', holds s' ip → inum (icache s' ip) = inum (icache s0 ip) → Q ip s') → wp (idup ip) Q s0.
Proof.
  intros Hip Hr HQ. unfold idup, updi. wp_run. apply HQ; [|simpl; by rewrite fset_eq].
  destruct (Hent ip Hip) as [O1 O2 O3 O4 O5]. apply one_more; simpl; try done; split; simpl; try done; try lia; auto.
Qed.

End walk.

(** The inode that a path starts at. *)
Definition start (s : fsys S) (path : list Z) : Z :=
  if bool_decide (head path = Some slash) then ROOTINO else inum (icache s (cwd s)).

(** A state in which the walk of [path] can start. *)
Record walkable (s : fsys S) (path : list Z) : Prop := {
  wk_sb : sb s = x;
  wk_blk : bs_inv V L ∅ ∅ (blk s);
  wk_entry j : 0 ≤ j < NINODE → entry_ok x V (icache s j);
  wk_free : ∃ a b, 0 ≤ a < NINODE ∧ 0 ≤ b < NINODE ∧ a ≠ b ∧ ref (icache s a) = 0 ∧ ref (icache s b) = 0;
  wk_cwd : head path ≠ Some slash → 0 ≤ cwd s < NINODE ∧ 0 < ref (icache s (cwd s));
  wk_start : linked x V (start s path)
}.

(** C38: [namex] follows the path.  On a tree of linked directories, with no inode
    locked and two cache entries free, it returns for the path [path] what
    [lookup_path] says that the elements of the path lead to, from the root if the
    path begins with a slash and from the current directory if not: a reference to
    a cache entry of that inode and the last element; [NULL] when an element is not
    found, is looked up in something that is not a directory, or (for [parent]) is
    missing.  The counts of references are as before except for the entry that is
    returned, no inode is left locked, entries in use are still of the same inodes,
    and the contents of the disk have not changed. *)
Theorem namex_follows_path s path parent :
  walkable s path →
  ∃ r s', namex path parent s = Ret r s' ∧
    walked s (lookup_path x V parent (start s path) (elements path) []) r s'.
Proof.
  intros [Hsb Hb He Hf Hc Hst]. assert (∀ j, 0 ≤ j < NINODE → 0 ≤ ref (icache s j)) as Hr0 by (intros j Hj; apply (He j Hj)).
  enough (wp (namex path parent) (walked s (lookup_path x V parent (start s path) (elements path) [])) s) as Hwp.
  { by apply wp_inv in Hwp as (r & s' & ? & ?); exists r, s'. }
  pose proof (elements_length path) as Hlen. unfold namex. wp_step.
  assert (∀ ip s', 0 ≤ ip < NINODE → holds s s' ip → inum (icache s' ip) = start s path →
    wp (namex_loop (Datatypes.S (length path)) ip path parent []) (walked s (lookup_path x V parent (start s path) (elements path) [])) s') as Hgo.
  { intros ip s' Hip Hh Ei. apply namex_loop_walks; [done|done|lia|done..]. }
  assert (head path ≠ Some slash → wp (c ← gets cwd; idup c)
    (λ ip, wp (namex_loop (Datatypes.S (length path)) ip path parent []) (walked s (lookup_path x V parent (start s path) (elements path) []))) s) as Hrel.
  { intros Hh. destruct (Hc Hh) as [Hcr Href]. wp_step. wp_step. apply idup_holds; [done..|]. intros s' H1 H2. apply Hgo; [done..|].
    unfold start. by rewrite bool_decide_eq_false_2. }
  destruct path as [|c path]; [by apply Hrel|]. destruct (Z.eqb_spec c slash) as [->|Hne]; [|apply Hrel; simpl; congruence].
  apply iget_holds; [done..|]. intros ip s' Hip H1 H2. by apply Hgo.
Qed.

End code.

(** ** An instance *)

(** A root directory, inode 1, with the file [a], inode 2; its block is block 46. *)
Definition ex_tree : Z → block :=
  let inodes := encode_dinode (encode_dinode (λ _, 0) (dinode_off 1) (Dinode T_DIR 0 0 1 48 (fset (λ _, 0) 0 46)))
                  (dinode_off 2) (Dinode T_FILE 0 0 1 0 (λ _, 0)) in
  let names := store_bytes (λ _, 0) 0
    ([1; 0; 46] ++ replicate 13 0 ++ [1; 0; 46; 46] ++ replicate 12 0 ++ [2; 0; 97] ++ replicate 13 0) in
  fset (fset (fset (λ _ _, 0) 45 (store_bytes (λ _, 0) 0 [255; 255; 255; 255; 255; 127])) 32 inodes) 46 names.

Definition ex_walk (b : sys) : fsys sys := Fsys b (λ _, Inode 0 0 0 false 0 false (Dinode 0 0 0 0 0 (λ _, 0))) ex_sb 1 0 [].

Section instance.
Context (h : block).

Lemma ex_linked i : linked ex_sb (fset ex_tree 2 h) i ↔ i = 1 ∨ i = 2.
Proof.
  assert (forallb (λ i, (itype (inode_at ex_sb (fset ex_tree 2 h) i) =? 0) || (i =? 1) || (i =? 2)) (seqZ 0 200) = true) as Hall
    by (vm_compute; reflexivity).
  split.
  - intros (Hi & Ht & _). change (sb_ninodes ex_sb) with 200 in Hi. rewrite forallb_forall in Hall.
    specialize (Hall i). rewrite <-list_elem_of_In in Hall. specialize (Hall ltac:(apply elem_of_seqZ; lia)).
    apply orb_true_iff in Hall as [[Hz%Z.eqb_eq|?%Z.eqb_eq]%orb_true_iff|?%Z.eqb_eq]; [by destruct Ht|auto..].
  - intros [->| ->]; vm_compute; intuition discriminate.
Qed.

Lemma ex_root_map bn : 0 ≤ bn < MAXFILE → bn ≠ 0 → blockmap (fset ex_tree 2 h) (inode_at ex_sb (fset ex_tree 2 h) 1) bn = 0.
Proof.
  assert (forallb (λ bn, (bn =? 0) || (blockmap (fset ex_tree 2 h) (inode_at ex_sb (fset ex_tree 2 h) 1) bn =? 0)) (seqZ 0 268) = true) as Hall
    by (vm_compute; reflexivity).
  intros Hbn Hne. change MAXFILE with 268 in Hbn. rewrite forallb_forall in Hall.
  specialize (Hall bn). rewrite <-list_elem_of_In in Hall. specialize (Hall ltac:(apply elem_of_seqZ; lia)).
  apply orb_true_iff in Hall as [?%Z.eqb_eq|?%Z.eqb_eq]; done.
Qed.

Lemma ex_root_used : in_use ex_sb (fset ex_tree 2 h) (blockmap (fset ex_tree 2 h) (inode_at ex_sb (fset ex_tree 2 h) 1) 0).
Proof. split; [vm_compute; intuition discriminate|]. vm_compute. discriminate. Qed.

Lemma ex_root_file : file_ok ex_sb (fset ex_tree 2 h) (inode_at ex_sb (fset ex_tree 2 h) 1).
Proof.
  split.
  - intros bn Hbn Hne. destruct (decide (bn = 0)) as [->|]; [apply ex_root_used|]. by rewrite ex_root_map in Hne.
  - intros Hne. by destruct Hne; vm_compute.
  - intros b1 b2 H1 H2 E Hne. destruct (decide (b1 = 0)) as [->|]; [|by rewrite ex_root_map in Hne].
    destruct (decide (b2 = 0)) as [->|]; [done|]. by rewrite E, ex_root_map in Hne.
  - intros bn Hbn Hne. assert (addrs (inode_at ex_sb (fset ex_tree 2 h) 1) NDIRECT = 0) as -> by (vm_compute; reflexivity). done.
  - vm_compute. intuition discriminate.
  - intros bn Hbn Hlt. assert (isize (inode_at ex_sb (fset ex_tree 2 h) 1) = 48) as Es by (vm_compute; reflexivity).
    rewrite Es in Hlt. unfold BSIZE in Hlt. assert (bn = 0) as -> by lia. vm_compute. discriminate.
Qed.

Lemma ex_tree_ok : tree_ok ex_sb (fset ex_tree 2 h).
Proof.
  assert (itype (inode_at ex_sb (fset ex_tree 2 h) 2) ≠ T_DIR) as H2 by (vm_compute; discriminate).
  split; intros i.
  - intros [->| ->]%ex_linked Ht; [apply ex_root_file|done].
  - intros [->| ->]%ex_linked Ht; [|done]. exists 3. split; [done|]. vm_compute. reflexivity.
  - intros name j [->| ->]%ex_linked Ht; [|done]. unfold dir_get. destruct (dir_find _ _ _) as [k|] eqn:Ef; [|done]. intros [= <-].
    apply first_such_Some in Ef as [Hk _]. assert (isize (inode_at ex_sb (fset ex_tree 2 h) 1) / DIRENT_SIZE = 3) as Es by (vm_compute; reflexivity).
    rewrite Es in Hk. apply elem_of_seqZ in Hk. apply ex_linked.
    assert (k = 0 ∨ k = 1 ∨ k = 2) as [->|[->| ->]] by lia; vm_compute; auto.
Qed.

End instance.

(** The path [/./a]. *)
Lemma namex_follows_path_witness :
  ∃ s ip s', @namex sys (log_store 2 30) [47; 46; 47; 97] false s = Ret (ip, [97]) s' ∧ inum (icache s' ip) = 2 ∧
    ref (icache s' ip) = 1.
Proof.
  destruct (started ex_tree) as (V & b & Hop & _ & HV); [by vm_compute|].
  assert (V = fset ex_tree 2 (V 2)) as EV.
  { apply functional_extensionality. intros n. unfold fset at 1. destruct (Z.eqb_spec n 2) as [->|]; [done|by apply HV]. }
  rewrite EV in Hop. revert Hop. generalize (V 2). clear V HV EV. intros h Hop.
  destruct (@namex_follows_path sys (log_store 2 30) ex_sb ex_sb_ok ex_loggable (fset ex_tree 2 h) [] (ex_tree_ok h) (ex_room 0 ltac:(lia))
    (ex_walk b) [47; 46; 47; 97] false) as ([ip nm] & s' & E & Hn & Hh & Hi).
  - split; [reflexivity|exact Hop| | |by intros []|].
    + intros j _. split; simpl; done || lia.
    + exists 0, 1. vm_compute. intuition discriminate.
    + apply ex_linked. left. reflexivity.
  - assert (lookup_path ex_sb (fset ex_tree 2 h) false (start (ex_walk b) [47; 46; 47; 97]) (elements [47; 46; 47; 97]) [] = (Some 2, [97])) as El
      by (vm_compute; reflexivity).
    rewrite El in Hn, Hi. cbn [fst snd] in Hn, Hi, Hh. subst nm. destruct Hi as [Hip Ei].
    exists (ex_walk b), ip, s'. split; [exact E|]. split; [exact Ei|].
    rewrite (h_ref _ _ _ _ _ _ Hh ip Hip). simpl. by rewrite Z.eqb_refl.
Defined.
