(* ===== verification/FsBadSource.v ===== *)
(** * [writei] of bytes that cannot be read

    The source of [writei] may be memory that the process does not have, and
    [either_copyin] then copies nothing and fails.  The loop of [writei] ends, and
    what it reports is shown here. *)

From Stdlib Require Import FunctionalExtensionality.
From S2P Require Import Prelude Machine CString Bio Cache Log Txn Fs FsBlocks FsInode FsFile FsWrite FsWitness.

(** A source that cannot be read at all. *)
Definition bad_src {S} : Z → Z → M S (list Z * bool) := λ _ _, mret ([], false).

(** * Lemmas *)

Lemma fset_same {A} (f : Z → A) i : fset f i (f i) = f.
Proof. apply functional_extensionality. intros j. unfold fset. by destruct (Z.eqb_spec j i) as [->|]. Qed.

(** [bmap] alone writes nothing into the file. *)
Lemma write_bmap x V di off addr V1 di1 : sb_ok x →
  file_ok x V di → 0 ≤ off < MAXFILE * BSIZE → bmap_post x V di (off / BSIZE) addr V1 di1 →
  write_post x V di off [] 2 V1 di1.
Proof.
  intros Hx Hok Ho Hb. rewrite <-(fset_same V1 addr).
  apply (write_chunk x Hx V di off [] addr V1 di1); [done|done| |simpl; lia|done].
  simpl. unfold BSIZE. pose proof (Z.mod_pos_bound off 1024). lia.
Qed.

Section code.
Context {S : Type} `{BlockStore S}.
Context (x : superblock) (Hx : sb_ok x) (Hlog : loggable x).

Lemma wp_bad_loop fuel V L s ip off n (Q : Z → fsys S → Prop) :
  sb s = x → i_dev (icache s ip) = ROOTDEV → bs_inv V L ∅ ∅ (blk s) → meta_used x V →
  file_ok x V (din (icache s ip)) → 0 ≤ off < MAXFILE * BSIZE → 0 < n → room L ∅ 7 → nfree x V 2 →
  (∀ V' di' L' s', write_post x V (din (icache s ip)) off [] 2 V' di' →
     bs_inv V' L' ∅ ∅ (blk s') → room L' ∅ 1 → with_file (blk s') ip di' s s' → Q off s') →
  wp (writei_loop (Datatypes.S fuel) ip bad_src 0 off n) Q s.
Proof.
  intros Es Hdev Hinv Hmeta Hok Ho Hn Hr Hnf HQ. cbn [writei_loop]. destruct (Z.ltb_spec 0 n); [|lia].
  set (di := din (icache s ip)) in *.
  assert (0 ≤ off / BSIZE < MAXFILE) as Hbn by (unfold BSIZE in *; dlia).
  unfold geti. wp_step. wp_step. rewrite Hdev. wp_step. eapply (wp_bmap x Hx Hlog V L s ip (off / BSIZE)); try done.
  { apply (room_le _ _ 7); [done|lia]. }
  fold di. intros addr V1 di1 L1 s1 Hb Hs1 HL1 Hw1.
  destruct (bm_addr _ _ _ _ _ _ _ Hb) as [Ha0 Ea].
  pose proof (fo_used _ _ _ (bm_ok _ _ _ _ _ _ _ Hb) _ Hbn ltac:(by rewrite Ea)) as Hu. rewrite Ea in Hu.
  pose proof (so_size _ Hx). pose proof (data_start_pos x Hx).
  assert (room L1 ∅ 1) as Hr1 by (unfold room in *; rewrite map_size_empty in *; lia).
  wp_step. eapply wp_bread_blk; [exact Hs1|destruct Hu; lia|set_solver|apply (room_le _ _ _ _ Hr1); lia|].
  intros bp s2 Hs2. wp_step. eapply (wp_get_blk _ _ _ _ _ addr); [exact Hs2|by rewrite lookup_insert_eq|].
  cbv zeta. unfold bad_src. wp_step. apply wp_on_blk. apply wp_ret. cbn [store_bytes].
  wp_step. apply wp_on_blk. eapply bs_put_same; [exact Hs2|by rewrite lookup_insert_eq|]. intros s3 Hs3.
  wp_step. eapply wp_release_blk; [exact Hs3|done|set_solver|]. intros s4 Hs4. wp_step.
  apply (HQ V1 di1 L1); [by eapply write_bmap|exact Hs4|done|].
  exact (with_file_blk _ s4 _ _ _ _ Hw1).
Qed.

End code.

(** * Claims *)

(** C40: [writei] of bytes that cannot be read reports that all [n] bytes were written.
    It returns [n], but in the disk [V'] of the state that it leaves the file has the
    bytes and the size it had.  ([filewrite]
    advances the offset by the result, past the end of the file.) *)
Theorem writei_reports_unread {T} `{BlockStore T} x V L s ip off n :
  let di := din (icache s ip) in
  sb_ok x → loggable x → sb s = x → i_dev (icache s ip) = ROOTDEV →
  bs_inv V L ∅ ∅ (blk s) → meta_used x V → file_ok x V di → shorts_ok di →
  0 ≤ inum (icache s ip) < sb_ninodes x →
  0 ≤ off ≤ isize di → 0 < n → off + n ≤ MAXFILE * BSIZE → room L ∅ 7 → nfree x V 2 →
  ∃ V' L' di' s1,
    writei ip bad_src off n s = Ret n s1 ∧ bs_inv V' L' ∅ ∅ (blk s1) ∧ with_file (blk s1) ip di' s s1 ∧
    isize di' = isize di ∧ (∀ p, 0 ≤ p < isize di → file_byte V' di' p = file_byte V di p).
Proof.
  intros di Hx Hlog Es Hdev Hinv Hmeta Hok Hsh Hi Ho Hn Hmax Hr Hnf.
  enough (wp (writei ip bad_src off n) (λ r s1, r = n ∧ ∃ V' L' di', bs_inv V' L' ∅ ∅ (blk s1) ∧ with_file (blk s1) ip di' s s1 ∧
    isize di' = isize di ∧ ∀ p, 0 ≤ p < isize di → file_byte V' di' p = file_byte V di p) s) as Hw.
  { apply wp_inv in Hw as (r & s1 & E & -> & V' & L' & di' & Hf). exists V', L', di', s1. split; [exact E|done]. }
  unfold writei, geti. wp_step. wp_step. fold di.
  pose proof (fo_size _ _ _ Hok) as Hsz. change (MAXFILE * BSIZE) with 274432 in *. rewrite !u32_small by lia.
  destruct (Z.gtb_spec off (isize di)); [lia|]. destruct (Z.ltb_spec (off + n) off); [lia|]. simpl.
  destruct (Z.gtb_spec (off + n) 274432); [lia|].
  assert (io_fuel n = S (pred (io_fuel n))) as -> by (unfold io_fuel; assert (0 ≤ n / BSIZE) by (apply Z.div_pos; [lia|done]); lia).
  wp_step. eapply (wp_bad_loop x Hx Hlog _ V L s ip off n); fold di; try done; [change (MAXFILE * BSIZE) with 274432; lia|].
  intros V1 di1 L1 s1 Hw Hs1 Hr1 Hf1. destruct (with_file_din _ _ _ _ _ Hf1) as (Ed1 & Ev1 & Ei1).
  destruct (wr_fields _ _ _ _ _ _ _ _ Hw) as (F1 & F2 & F3 & F4 & F5).
  destruct (Z.gtb_spec n 0); [|lia]. wp_step. wp_step. wp_step. unfold geti. wp_run. rewrite Ed1.
  destruct (Z.gtb_spec off (isize di1)); [lia|]. wp_run.
  pose proof (write_size_ok x V di off [] _ V1 di1 Hok ltac:(lia) ltac:(simpl; change (MAXFILE * BSIZE) with 274432; lia) Hw) as Hok1.
  assert (set_size (Z.max (isize di) (off + Z.of_nat (length (@nil Z)))) di1 = di1) as Esz.
  { destruct di1. unfold set_size. simpl in *. f_equal. lia. }
  rewrite Esz in Hok1. pose proof Hf1 as (Eb1 & Es1 & _).
  eapply (wp_iupdate x Hx Hlog V1 L1 ∅ ∅); rewrite ?Ed1, ?Ev1, ?Ei1; try done.
  - congruence.
  - eapply (file_din_ok x Hx); [done|]. unfold shorts_ok in *. by rewrite F1, F2, F3, F4.
  - intros V' s3 Hp Hs3. rewrite s32_small by lia. wp_step. split; [done|]. eexists V', _, di1. split; [exact Hs3|].
    rewrite <-Esz in Hp. pose proof (writei_post_intro x Hx V _ di off [] _ V1 di1 V' Hok Hi ltac:(lia) ltac:(simpl; change (MAXFILE * BSIZE) with 274432; lia) Hw Hp) as Hpost.
    rewrite Esz in Hpost. split; [by eapply with_file_blk|]. split; [done|].
    intros p Hp'. apply (wi_old _ _ _ _ _ _ _ _ Hpost); [done|]. simpl. lia.
Qed.

Lemma writei_reports_unread_witness :
  ∃ s s1, @writei sys (log_store 2 30) 1 bad_src 0 3 s = Ret 3 s1 ∧ isize (din (icache s1 1)) = isize (din (icache s 1)).
Proof.
  destruct ex_fs as (V & b & Hop & EV).
  destruct (@writei_reports_unread sys (log_store 2 30) ex_sb V [] (ex_fsys b) 1 0 3) as (V' & L' & di' & s1 & E1 & _ & Hf & Hs & _).
  - apply ex_sb_ok.
  - apply ex_loggable.
  - reflexivity.
  - reflexivity.
  - exact Hop.
  - by apply ex_meta.
  - apply ex_file_ok.
  - unfold shorts_ok. simpl. unfold T_FILE. lia.
  - simpl. lia.
  - simpl. lia.
  - simpl. lia.
  - vm_compute. discriminate.
  - apply ex_room. vm_compute. lia.
  - by apply ex_nfree.
  - eexists _, s1. split; [exact E1|]. by destruct (with_file_din _ _ _ _ _ Hf) as (-> & _).
Defined.
