(* ===== verification/Grep.v ===== *)
(** * user/grep.c (and the matcher of user/find.c)

    The regular-expression matcher decides the language of the expression, and
    [grep] prints the lines that match, whatever the sizes of the reads that
    deliver the file.  A C string is the list of its characters before the NUL;
    the text in [buf] is the list of its first [m] bytes. *)

From Stdlib Require Import Ascii String.
From S2P Require Import Prelude Machine.
Local Open Scope Z_scope.

Definition chr (a : ascii) : Z := Z.of_N (N_of_ascii a).
Definition NL : Z := 10.

(** ** The matcher *)

(** [matchstar]'s loop: [mh] is [matchhere] of the rest of the expression. *)
Fixpoint matchstar_loop (mh : list Z → bool) (c : Z) (text : list Z) : bool :=
  if mh text then true
  else
    match text with
    | [] => false
    | t :: text' => if (t =? c) || (c =? chr ".") then matchstar_loop mh c text' else false
    end.

Fixpoint matchhere (re text : list Z) {struct re} : bool :=
  match re with
  | [] => true
  | r0 :: re1 =>
      match re1 with
      | r1 :: re2 =>
          if r1 =? chr "*" then matchstar_loop (matchhere re2) r0 text
          else
            match text with
            | [] => false
            | t :: text' => if (r0 =? chr ".") || (r0 =? t) then matchhere re1 text' else false
            end
      | [] =>
          if r0 =? chr "$" then match text with [] => true | _ => false end
          else
            match text with
            | [] => false
            | t :: text' => if (r0 =? chr ".") || (r0 =? t) then matchhere re1 text' else false
            end
      end
  end.

Definition matchstar (c : Z) (re text : list Z) : bool := matchstar_loop (matchhere re) c text.

(** The [do] loop of [match]. *)
Fixpoint match_loop (re text : list Z) : bool :=
  if matchhere re text then true
  else match text with [] => false | _ :: text' => match_loop re text' end.

Definition match_re (re text : list Z) : bool :=
  match re with
  | r0 :: re1 => if r0 =? chr "^" then matchhere re1 text else match_loop re text
  | [] => match_loop re text
  end.

(** ** What the expressions mean *)

(** The items of an expression: a character ('.' is any), a starred one, and
    the end of the line. *)
Inductive item : Type :=
  | Char (c : Z)
  | Star (c : Z)
  | Eol.

Fixpoint parse (re : list Z) : list item :=
  match re with
  | [] => []
  | r0 :: re1 =>
      match re1 with
      | r1 :: re2 => if r1 =? chr "*" then Star r0 :: parse re2 else Char r0 :: parse re1
      | [] => if r0 =? chr "$" then [Eol] else [Char r0]
      end
  end.

Definition char_ok (c t : Z) : Prop := c = chr "." ∨ c = t.

(** The words that an item stands for; [post] is the text after the word. *)
Definition item_lang (i : item) (w post : list Z) : Prop :=
  match i with
  | Char c => ∃ t, w = [t] ∧ char_ok c t
  | Star c => Forall (char_ok c) w
  | Eol => w = [] ∧ post = []
  end.

Fixpoint lang (l : list item) (w post : list Z) : Prop :=
  match l with
  | [] => w = []
  | i :: l' => ∃ w1 w2, w = w1 ++ w2 ∧ item_lang i w1 (w2 ++ post) ∧ lang l' w2 post
  end.

(** Some part of the text is in the language, the part at the start when the
    expression begins with '^'. *)
Definition matches (re text : list Z) : Prop :=
  match re with
  | r0 :: re1 =>
      if r0 =? chr "^" then ∃ w post, text = w ++ post ∧ lang (parse re1) w post
      else ∃ pre w post, text = pre ++ w ++ post ∧ lang (parse re) w post
  | [] => True
  end.

(** ** grep *)

(** [strchr] of ulib.c: the index of the first [c] before the NUL. *)
Fixpoint strchr (s : list Z) (c : Z) : option nat :=
  match s with
  | [] => None
  | x :: s' => if x =? 0 then None else if x =? c then Some 0%nat else S <$> strchr s' c
  end.

(** The inner loop: the lines of [p]; what it writes and what it leaves. *)
Fixpoint grep_lines (fuel : nat) (pattern p out : list Z) : option (list Z * list Z) :=
  match fuel with
  | O => None
  | S fuel' =>
      match strchr p NL with
      | None => Some (out, p)
      | Some k =>
          let line := take k p in
          let out := if match_re pattern line then out ++ line ++ [NL] else out in
          grep_lines fuel' pattern (drop (S k) p) out
      end
  end.

Definition BUFSZ : Z := 1024.

(** The outer loop on the bytes [input] of a file; the [i]-th [read] delivers
    [rd i] bytes, or as many as it is asked for or as there are. *)
Fixpoint grep_loop (fuel : nat) (rd : nat → Z) (i : nat) (pattern buf input out : list Z)
    : option (list Z) :=
  match fuel with
  | O => None
  | S fuel' =>
      let m := Z.of_nat (length buf) in
      let n := Z.to_nat (Z.min (rd i) (BUFSZ - m - 1)) in
      let got := take n input in
      match got with
      | [] => Some out
      | _ =>
          let buf := buf ++ got in
          '(out, rest) ← grep_lines (S (length buf)) pattern buf out;
          grep_loop fuel' rd (S i) pattern rest (drop n input) out
      end
  end.

Definition grep (rd : nat → Z) (pattern input : list Z) : option (list Z) :=
  grep_loop (S (length input)) rd 0 pattern [] input [].

(** The complete lines of a text, without their newlines, and what follows
    the last newline. *)
Fixpoint lines_of (s : list Z) : list (list Z) * list Z :=
  match s with
  | [] => ([], [])
  | x :: s' =>
      let '(ls, r) := lines_of s' in
      if x =? NL then ([] :: ls, r)
      else match ls with [] => ([], x :: r) | l :: ls' => ((x :: l) :: ls', r) end
  end.

Definition matching (pattern : list Z) (ls : list (list Z)) : list Z :=
  concat ((λ l, if match_re pattern l then l ++ [NL] else []) <$> ls).

(** * Lemmas *)

Lemma char_ok_spec c t : (c =? chr ".") || (c =? t) = true ↔ char_ok c t.
Proof. unfold char_ok. rewrite orb_true_iff, !Z.eqb_eq. tauto. Qed.

Lemma matchstar_loop_spec mh c text :
  matchstar_loop mh c text = true ↔
  ∃ w post, text = w ++ post ∧ Forall (char_ok c) w ∧ mh post = true.
Proof.
  induction text as [|t text IH]; cbn [matchstar_loop].
  - destruct (mh []) eqn:E; split; try done.
    + intros _. by exists [], [].
    + intros ([|? w] & [|? post] & Hw & _ & Hm); simplify_eq/=; congruence.
  - destruct (mh (t :: text)) eqn:E.
    { split; [|done]. intros _. by exists [], (t :: text). }
    rewrite orb_comm, (Z.eqb_sym t c). destruct ((c =? chr ".") || (c =? t)) eqn:Ec.
    + apply char_ok_spec in Ec. rewrite IH. split.
      * intros (w & post & -> & Hf & Hm). exists (t :: w), post. split; [done|]. split; [by constructor|done].
      * intros ([|t' w] & post & Hw & Hf & Hm); simplify_eq/=; [congruence|].
        exists w, post. by apply Forall_cons in Hf as [_ ?].
    + split; [done|]. intros ([|t' w] & post & Hw & Hf & Hm); simplify_eq/=; [congruence|].
      apply Forall_cons in Hf as [Hc _]. apply char_ok_spec in Hc. congruence.
Qed.

(** One character of the expression against the text. *)
Lemma match_char c l text (mh : list Z → bool) :
  (∀ text', mh text' = true ↔ ∃ w post, text' = w ++ post ∧ lang l w post) →
  match text with
  | [] => false
  | t :: text' => if (c =? chr ".") || (c =? t) then mh text' else false
  end = true ↔ ∃ w post, text = w ++ post ∧ lang (Char c :: l) w post.
Proof.
  intros Hmh. destruct text as [|t text].
  - split; [done|]. intros (w & post & Hw & w1 & w2 & -> & (t & -> & _) & _). done.
  - destruct ((c =? chr ".") || (c =? t)) eqn:Ec.
    + apply char_ok_spec in Ec. rewrite Hmh. split.
      * intros (w & post & -> & Hl). exists (t :: w), post. split; [done|]. exists [t], w. split; [done|].
        split; [|done]. by exists t.
      * intros (w & post & Hw & w1 & w2 & -> & (t' & -> & _) & Hl). simplify_eq/=. by exists w2, post.
    + split; [done|]. intros (w & post & Hw & w1 & w2 & -> & (t' & -> & Hc) & Hl). simplify_eq/=.
      apply char_ok_spec in Hc. congruence.
Qed.

Lemma matchhere_spec re text :
  matchhere re text = true ↔ ∃ w post, text = w ++ post ∧ lang (parse re) w post.
Proof.
  remember (length re) as n eqn:En. revert re En text. induction n as [n IH] using lt_wf_ind.
  intros re -> text.
  assert (∀ re', (length re' < length re)%nat → ∀ text,
    matchhere re' text = true ↔ ∃ w post, text = w ++ post ∧ lang (parse re') w post) as IH'.
  { intros re' Hlt. by apply (IH (length re')). }
  clear IH. destruct re as [|r0 [|r1 re2]].
  - split; [|done]. intros _. by exists [], text.
  - simpl matchhere. simpl parse. destruct (r0 =? chr "$").
    + destruct text as [|t text]; split; try done.
      * intros _. exists [], []. split; [done|]. by exists [], [].
      * intros (w & post & Hw & w1 & w2 & -> & [-> Hp] & ->). simpl in Hp. subst. done.
    + apply (match_char r0 [] text (matchhere [])). intros text'. apply (IH' []). simpl. lia.
  - change (parse (r0 :: r1 :: re2)) with
      (if r1 =? chr "*" then Star r0 :: parse re2 else Char r0 :: parse (r1 :: re2)).
    change (matchhere (r0 :: r1 :: re2) text) with
      (if r1 =? chr "*" then matchstar_loop (matchhere re2) r0 text
       else match text with
            | [] => false
            | t :: text' => if (r0 =? chr ".") || (r0 =? t) then matchhere (r1 :: re2) text' else false
            end).
    destruct (r1 =? chr "*").
    + rewrite matchstar_loop_spec. split.
      * intros (w & post & -> & Hf & Hm). apply IH' in Hm as (w2 & post2 & -> & Hl); [|simpl; lia].
        exists (w ++ w2), post2. split; [by rewrite app_assoc|]. by exists w, w2.
      * intros (w & post & -> & w1 & w2 & -> & Hf & Hl). exists w1, (w2 ++ post).
        split; [by rewrite app_assoc|]. split; [done|]. apply IH'; [simpl; lia|]. by exists w2, post.
    + apply match_char. intros text'. apply IH'. simpl. lia.
Qed.

Lemma match_loop_spec re text :
  match_loop re text = true ↔ ∃ pre w post, text = pre ++ w ++ post ∧ lang (parse re) w post.
Proof.
  induction text as [|t text IH]; cbn [match_loop].
  - destruct (matchhere re []) eqn:E.
    + apply matchhere_spec in E as (w & post & Ht & Hl). split; [|done]. intros _. by exists [], w, post.
    + split; [done|]. intros ([|? pre] & w & post & Ht & Hl); [|done]. assert (matchhere re [] = true); [|congruence].
      apply matchhere_spec. by exists w, post.
  - destruct (matchhere re (t :: text)) eqn:E.
    + apply matchhere_spec in E as (w & post & Ht & Hl). split; [|done]. intros _. by exists [], w, post.
    + rewrite IH. split.
      * intros (pre & w & post & -> & Hl). by exists (t :: pre), w, post.
      * intros ([|t' pre] & w & post & Ht & Hl).
        -- assert (matchhere re (t :: text) = true); [|congruence]. apply matchhere_spec. by exists w, post.
        -- simplify_eq/=. by exists pre, w, post.
Qed.

(** ** Lines *)

Lemma lines_of_cons x s :
  lines_of (x :: s) =
    if x =? NL then ([] :: (lines_of s).1, (lines_of s).2)
    else match (lines_of s).1 with
         | [] => ([], x :: (lines_of s).2)
         | l :: ls => ((x :: l) :: ls, (lines_of s).2)
         end.
Proof. simpl. by destruct (lines_of s) as [[|l ls] r], (x =? NL). Qed.

Definition no_nul (s : list Z) : Prop := Forall (λ b, b ≠ 0) s.

Lemma strchr_None s : no_nul s → strchr s NL = None → lines_of s = ([], s).
Proof.
  induction 1 as [|x s Hx Hs IH]; [done|]. rewrite lines_of_cons. cbn [strchr].
  destruct (Z.eqb_spec x 0); [done|]. destruct (x =? NL); [done|].
  destruct (strchr s NL); [done|]. intros _. by rewrite IH.
Qed.

Lemma strchr_Some s k : strchr s NL = Some k →
  lines_of s = (take k s :: (lines_of (drop (S k) s)).1, (lines_of (drop (S k) s)).2) ∧ (k < length s)%nat.
Proof.
  revert k. induction s as [|x s IH]; intros k; [done|]. rewrite lines_of_cons. cbn [strchr].
  destruct (x =? 0); [done|]. destruct (x =? NL).
  - intros [= <-]. simpl. split; [|lia]. rewrite drop_0. done.
  - destruct (strchr s NL) as [j|]; [|done]. intros [= <-]. destruct (IH j eq_refl) as [-> Hj]. simpl. split; [done|lia].
Qed.

Lemma lines_of_app a b :
  lines_of (a ++ b) =
    ((lines_of a).1 ++ (lines_of ((lines_of a).2 ++ b)).1, (lines_of ((lines_of a).2 ++ b)).2).
Proof.
  induction a as [|x a IH]; [by simpl; destruct (lines_of b)|].
  change ((x :: a) ++ b) with (x :: (a ++ b)). rewrite !lines_of_cons, IH. destruct (x =? NL) eqn:Ex; [done|].
  destruct (lines_of a) as [[|l ls] r]; cbn [fst snd app]; [|done].
  rewrite lines_of_cons, Ex. by destruct (lines_of (r ++ b)) as [[|l' ls'] r'].
Qed.

(** What follows the last newline has no newline. *)
Lemma lines_of_rest s : lines_of (lines_of s).2 = ([], (lines_of s).2).
Proof.
  induction s as [|x s IH]; [done|]. rewrite lines_of_cons. destruct (x =? NL) eqn:Ex; [done|].
  destruct (lines_of s) as [[|l ls] r]; cbn [fst snd] in *; [|done]. rewrite lines_of_cons, Ex, IH. done.
Qed.

Lemma no_nul_rest s : no_nul s → no_nul (lines_of s).2.
Proof.
  induction 1 as [|x s Hx Hs IH]; [constructor|]. rewrite lines_of_cons.
  destruct (x =? NL); [done|]. destruct (lines_of s) as [[|l ls] r]; simpl; [|done]. by constructor.
Qed.

Lemma rest_length s : (length (lines_of s).2 ≤ length s)%nat.
Proof.
  induction s as [|x s IH]; [done|]. rewrite lines_of_cons.
  destruct (x =? NL); [simpl; lia|]. destruct (lines_of s) as [[|l ls] r]; simpl in *; lia.
Qed.

(** A text that begins with [a], where [a] has no newline: its first line does. *)
Lemma first_line_length a b l ls r :
  lines_of a = ([], a) → lines_of (a ++ b) = (l :: ls, r) → (length a ≤ length l)%nat.
Proof.
  revert l ls r. induction a as [|x a IH]; intros l ls r Ha; [simpl; lia|].
  change ((x :: a) ++ b) with (x :: (a ++ b)). rewrite lines_of_cons in Ha |- *. destruct (x =? NL) eqn:Ex; [done|].
  destruct (lines_of a) as [[|l' ls'] r'] eqn:Ea; simpl in Ha; [|done]. simplify_eq.
  destruct (lines_of (a ++ b)) as [[|l2 ls2] r2] eqn:Eb; simpl; [done|]. intros [= <- <- <-].
  specialize (IH l2 ls2 r2 eq_refl eq_refl). simpl. lia.
Qed.

Lemma matching_app pattern a b : matching pattern (a ++ b) = matching pattern a ++ matching pattern b.
Proof. unfold matching. by rewrite fmap_app, concat_app. Qed.

Lemma grep_lines_spec fuel pattern p out :
  no_nul p → (length p < fuel)%nat →
  grep_lines fuel pattern p out = Some (out ++ matching pattern (lines_of p).1, (lines_of p).2).
Proof.
  revert p out. induction fuel as [|fuel IH]; intros p out Hp Hf; [lia|]. cbn [grep_lines].
  destruct (strchr p NL) as [k|] eqn:Ek.
  - destruct (strchr_Some p k Ek) as [-> Hk]. cbn [fst snd].
    rewrite IH; [|by apply Forall_drop|rewrite length_drop; lia]. do 2 f_equal.
    change (take k p :: ?l) with ([take k p] ++ l). rewrite matching_app.
    unfold matching at 2. cbn [fmap list_fmap concat]. rewrite app_nil_r.
    destruct (match_re pattern (take k p)); by rewrite ?app_assoc, ?app_nil_r.
  - rewrite (strchr_None p Hp Ek). cbn. by rewrite app_nil_r.
Qed.

Lemma grep_loop_spec fuel rd i pattern buf input out :
  (∀ i, 1 ≤ rd i) → no_nul buf → no_nul input → lines_of buf = ([], buf) →
  Forall (λ l, (length l ≤ 1022)%nat) (lines_of (buf ++ input)).1 →
  (length input < fuel)%nat → (length buf ≤ 1023)%nat →
  grep_loop fuel rd i pattern buf input out = Some (out ++ matching pattern (lines_of (buf ++ input)).1).
Proof.
  intros Hrd. revert i buf input out. induction fuel as [|fuel IH];
    intros i buf input out Hb Hi Hl Hlen Hf Hm; [lia|]. cbn [grep_loop].
  remember (Z.to_nat (Z.min (rd i) (BUFSZ - Z.of_nat (length buf) - 1))) as n eqn:En.
  pose proof (Hrd i) as Hri. unfold BUFSZ in En.
  destruct (take n input) as [|x got] eqn:Eg.
  - assert ((lines_of (buf ++ input)).1 = []) as ->; [|cbn; by rewrite app_nil_r].
    destruct input as [|y input]; [by rewrite app_nil_r, Hl|].
    assert (length buf = 1023)%nat as Hm' by (destruct n; [lia|done]).
    destruct (lines_of (buf ++ y :: input)) as [[|l ls] r] eqn:El; [done|].
    pose proof (first_line_length _ _ _ _ _ Hl El). apply Forall_cons in Hlen as [? _]. lia.
  - assert (0 < n)%nat by (destruct n; [done|lia]).
    assert (input = (x :: got) ++ drop n input) as Ei by (rewrite <-Eg; by rewrite take_drop).
    set (buf1 := buf ++ x :: got) in *.
    assert (no_nul buf1 ∧ no_nul (drop n input)) as [Hb1 Hi1].
    { rewrite Ei in Hi. apply Forall_app in Hi as [? ?]. split; [by apply Forall_app|done]. }
    assert (buf ++ input = buf1 ++ drop n input) as Eapp by (unfold buf1; by rewrite <-app_assoc, <-Ei).
    rewrite Eapp, lines_of_app in Hlen |- *. cbn [fst] in *.
    rewrite grep_lines_spec by (done || lia). cbn [mbind option_bind].
    apply Forall_app in Hlen as [_ Hlen]. rewrite matching_app, app_assoc. apply IH.
    + by apply no_nul_rest.
    + done.
    + apply lines_of_rest.
    + done.
    + rewrite length_drop. destruct input; [by rewrite take_nil in Eg|]. simpl in *. lia.
    + assert (length buf1 ≤ 1023)%nat.
      { unfold buf1. rewrite length_app, <-Eg, length_take. lia. }
      pose proof (rest_length buf1). lia.
Qed.

(** * Claims *)

(** C31: the matcher of grep and find decides the meaning of the expression.
    [match_re re text] is true exactly when some part of the text (its
    beginning if the expression starts with ^) splits into words of the items
    of the expression: c or . for one character, c-star for any number of
    them, and a final $ for the end of the text. *)
Theorem match_decides_language re text : match_re re text = true ↔ matches re text.
Proof.
  unfold match_re, matches. destruct re as [|r0 re1].
  - split; [done|]. intros _. by destruct text.
  - destruct (r0 =? chr "^"); [apply matchhere_spec|apply match_loop_spec].
Qed.

(** C32: [grep] prints the lines that match, in order and each with its
    newline, whatever the sizes of the reads: for every sequence of reads of at
    least one byte, a text without NULs and with lines of at most 1022 bytes,
    the loop terminates and the output depends on the text and the pattern
    only. An unterminated last line is not printed. *)
Theorem grep_prints_matching_lines rd pattern input :
  (∀ i, 1 ≤ rd i) → no_nul input → Forall (λ l, (length l ≤ 1022)%nat) (lines_of input).1 →
  grep rd pattern input = Some (matching pattern (lines_of input).1).
Proof.
  intros Hrd Hn Hl. unfold grep. rewrite grep_loop_spec; try done; simpl; [constructor|lia|lia].
Qed.

(** A file of three lines, delivered three bytes at a time: "a.c" matches the
    first and the last. *)
Definition ex_text : list Z := [97; 98; 99; 10; 120; 121; 10; 97; 120; 99; 100; 10; 97].
Definition ex_pattern : list Z := [97; 46; 99].

Lemma grep_prints_matching_lines_witness :
  grep (λ _, 3) ex_pattern ex_text = Some [97; 98; 99; 10; 97; 120; 99; 100; 10].
Proof.
  rewrite (grep_prints_matching_lines (λ _, 3) ex_pattern ex_text).
  - reflexivity.
  - intros i. lia.
  - repeat constructor; lia.
  - change (lines_of ex_text).1 with [[97; 98; 99]; [120; 121]; [97; 120; 99; 100]].
    repeat (constructor; [cbn [length]; lia|]). constructor.
Defined.
