(* ===== verification/Wc.v ===== *)
(** * user/wc.c

    [wc] counts lines, words and bytes over the results of its reads; the
    counts depend on the bytes only, not on how reads divide them. *)

From S2P Require Import Prelude Machine Grep.

(** The separators of words: blank, carriage return, tab, newline, vertical tab. *)
Definition SPACES : list Z := [32; 13; 9; 10; 11].

Record counts := Counts { c_l : Z; c_w : Z; c_c : Z; inword : bool }.

(** The body of the inner loop for one byte. *)
Definition wc_byte (k : counts) (b : Z) : counts :=
  let c := c_c k + 1 in
  let l := if b =? NL then c_l k + 1 else c_l k in
  if bool_decide (is_Some (strchr SPACES b)) then Counts l (c_w k) c false
  else if inword k then Counts l (c_w k) c (inword k)
  else Counts l (c_w k + 1) c true.

(** The results of [read]: the bytes, none at the end of the file, or an error. *)
Fixpoint wc_loop (reads : list (option (list Z))) (k : counts) : option counts :=
  match reads with
  | [] => Some k
  | None :: _ => None
  | Some buf :: reads' =>
      match buf with
      | [] => Some k
      | _ => wc_loop reads' (foldl wc_byte k buf)
      end
  end.

(** What is printed, or nothing after a read error. *)
Definition wc (reads : list (option (list Z))) : option (Z * Z * Z) :=
  k ← wc_loop reads (Counts 0 0 0 false);
  Some (c_l k, c_w k, c_c k).

(** ** Reference: the words of a text *)

Definition is_space (b : Z) : bool := existsb (Z.eqb b) SPACES.

Fixpoint split_on (p : Z → bool) (s : list Z) : list (list Z) :=
  match s with
  | [] => [[]]
  | x :: s' =>
      match split_on p s' with
      | [] => [[]]
      | w :: ws => if p x then [] :: w :: ws else (x :: w) :: ws
      end
  end.

Definition words (s : list Z) : list (list Z) := filter (λ w, w ≠ []) (split_on is_space s).

(** * Lemmas *)

Lemma strchr_spaces b : bool_decide (is_Some (strchr SPACES b)) = is_space b.
Proof.
  destruct (decide (b ∈ SPACES)) as [Hin|Hin].
  - unfold SPACES in Hin. rewrite !elem_of_cons in Hin.
    destruct Hin as [->|[->|[->|[->|[->|[]%elem_of_nil]]]]]; reflexivity.
  - unfold SPACES in Hin. rewrite !not_elem_of_cons in Hin. destruct Hin as (H1 & H2 & H3 & H4 & H5 & _).
    unfold is_space, SPACES. cbn [strchr existsb]. change (32 =? 0) with false. change (13 =? 0) with false.
    change (9 =? 0) with false. change (10 =? 0) with false. change (11 =? 0) with false.
    by rewrite !(proj2 (Z.eqb_neq _ _)) by congruence.
Qed.

Lemma split_on_ne p s : split_on p s ≠ [].
Proof. destruct s as [|x s]; [done|]. simpl. by destruct (split_on p s), (p x). Qed.

(** The number of words, and whether the text starts inside of one. *)
Lemma words_cons x s :
  length (words (x :: s)) =
    (length (words s) +
     (if is_space x then 0 else match s with [] => 1 | y :: _ => if is_space y then 1 else 0 end))%nat.
Proof.
  unfold words. assert (∀ w ws, filter (λ w : list Z, w ≠ []) ((x :: w) :: ws) = (x :: w) :: filter (λ w : list Z, w ≠ []) ws) as Hf.
  { intros. by rewrite filter_cons_True. }
  destruct s as [|y s]; cbn [split_on].
  { by destruct (is_space x). }
  pose proof (split_on_ne is_space s). destruct (split_on is_space s) as [|w ws]; [done|].
  destruct (is_space x), (is_space y); rewrite ?Hf; rewrite ?(filter_cons_False (λ w : list Z, w ≠ []) []) by naive_solver;
    rewrite ?(filter_cons_True (λ w : list Z, w ≠ []) (y :: w)) by done; cbn [length]; lia.
Qed.

Lemma wc_bytes s k :
  let k' := foldl wc_byte k s in
  c_l k' = c_l k + Z.of_nat (length (filter (λ b, b = NL) s)) ∧
  c_c k' = c_c k + Z.of_nat (length s) ∧
  c_w k' = c_w k + Z.of_nat (length (words s)) -
    (if inword k then match s with [] => 0 | b :: _ => if is_space b then 0 else 1 end else 0).
Proof.
  revert k. induction s as [|b s IH]; intros k; cbn [foldl].
  { change (words []) with (@nil (list Z)). cbn. destruct (inword k); lia. }
  specialize (IH (wc_byte k b)). cbv zeta in IH. destruct IH as (Hl & Hc & Hw). cbv zeta.
  rewrite Hl, Hc, Hw, words_cons. unfold wc_byte. pose proof (strchr_spaces b) as Hs.
  assert (c_l (wc_byte k b) + Z.of_nat (length (filter (λ b, b = NL) s)) =
          c_l k + Z.of_nat (length (filter (λ b, b = NL) (b :: s)))) as El.
  { rewrite filter_cons. unfold wc_byte. destruct (Z.eqb_spec b NL); case_decide; try done; cbn [length];
      destruct (bool_decide _), (inword k); cbn [c_l]; lia. }
  unfold wc_byte in El. split; [exact El|].
  rewrite <-Hs; destruct (bool_decide (is_Some (strchr SPACES b))), (inword k), s as [|y s]; cbn [c_w c_c inword length];
    try destruct (is_space y); lia.
Qed.

(** * Claims *)

(** [wc] prints the number of newlines, of words (maximal runs of
    bytes that are not separators) and of bytes of the file, however the reads
    divide it into non-empty pieces. *)
Theorem wc_counts chunks rest :
  Forall (λ c, c ≠ []) chunks →
  wc ((Some <$> chunks) ++ Some [] :: rest) =
    let s := concat chunks in
    Some (Z.of_nat (length (filter (λ b, b = NL) s)), Z.of_nat (length (words s)), Z.of_nat (length s)).
Proof.
  intros Hc. assert (∀ k, wc_loop ((Some <$> chunks) ++ Some [] :: rest) k = Some (foldl wc_byte k (concat chunks))) as E.
  { induction Hc as [|c chunks Hne Hc IH]; intros k; [done|]. cbn [fmap list_fmap app wc_loop concat].
    destruct c as [|b c]; [done|]. rewrite foldl_app. apply IH. }
  unfold wc. rewrite E. destruct (wc_bytes (concat chunks) (Counts 0 0 0 false)) as (El & Ec & Ew).
  cbn [mbind option_bind]. rewrite El, Ec, Ew. cbn [c_l c_w c_c inword]. cbv zeta. rewrite !Z.add_0_l, Z.sub_0_r. done.
Qed.

Lemma wc_counts_witness :
  wc ((Some <$> [[104; 105; 32]; [120; 10; 121]; [10]]) ++ [Some []]) = Some (2, 3, 7).
Proof. rewrite (wc_counts [[104; 105; 32]; [120; 10; 121]; [10]] []); [reflexivity|]. repeat (constructor; [discriminate|]). constructor. Defined.
