(* ===== verification/Xargs.v ===== *)
(** * user/xargs.c

    The argument vector holds pointers: to the strings of [argv] or into [buf].
    A pointer is read when [exec] runs, from the bytes [buf] has then.  The
    vector is the list of the entries below [cur]. *)

From S2P Require Import Prelude Machine Grep Wc.

Inductive arg : Type :=
  | Argv (s : list Z)
  | Buf (head : nat).

(** The C string at an index of a buffer. *)
Fixpoint until_nul (l : list Z) : list Z :=
  match l with
  | [] => []
  | b :: l' => if b =? 0 then [] else b :: until_nul l'
  end.

Definition resolve (buf : list Z) (a : arg) : list Z :=
  match a with
  | Argv s => s
  | Buf head => until_nul (drop head buf)
  end.

Record xargs_state := XState {
  x_buf : list Z;
  x_head : nat;
  x_cur : list arg;
  x_runs : list (list (list Z))
}.

(** Sizes of the arrays: 1024 bytes and 128 pointers. *)
Definition fits (s : xargs_state) : bool :=
  (length (x_buf s) <? 1024)%nat && (length (x_cur s) <? 128)%nat.

(** [run]: the arguments that the forked child executes. *)
Definition run (s : xargs_state) : list (list (list Z)) :=
  x_runs s ++ [resolve (x_buf s) <$> x_cur s].

(** The body of the [while] loop for the byte [b] that [read] stored at [p]. *)
Definition xargs_byte (s : xargs_state) (b : Z) : xargs_state :=
  if (b =? 32) || (b =? NL) then
    let cell := 0 in
    let s1 := XState (x_buf s ++ [cell]) (S (length (x_buf s))) (x_cur s ++ [Buf (x_head s)]) (x_runs s) in
    if cell =? NL then XState (x_buf s1) (x_head s1) [] (run s1) else s1
  else XState (x_buf s ++ [b]) (x_head s) (x_cur s) (x_runs s).

(** The loop; none when it writes beyond an array. *)
Fixpoint xargs_loop (s : xargs_state) (input : list Z) : option xargs_state :=
  match input with
  | [] => Some s
  | b :: input' => if fits s then xargs_loop (xargs_byte s b) input' else None
  end.

(** The argument vectors that the program executes, for the arguments
    [argv] after the program's name. *)
Definition xargs_main (argv : list (list Z)) (input : list Z) : option (list (list (list Z))) :=
  match argv with
  | [] => Some []
  | _ =>
      s ← xargs_loop (XState [] 0 (Argv <$> argv) []) input;
      match x_cur s with
      | [] => Some (x_runs s)
      | _ =>
          if fits s && (S (length (x_cur s)) <? 128)%nat then
            let s := XState (x_buf s ++ [0]) (x_head s) (x_cur s ++ [Buf (x_head s)]) (x_runs s) in
            Some (run s)
          else None
      end
  end.

(** * Lemmas *)

Definition sep (b : Z) : bool := (b =? 32) || (b =? NL).

(** The buffer after the pieces [ps] and the start [w] of the next one, and
    where its pieces start. *)
Definition buf_of (ps : list (list Z)) : list Z := concat ((λ w, w ++ [0]) <$> ps).

Fixpoint heads (k : nat) (ps : list (list Z)) : list nat :=
  match ps with [] => [] | w :: ps' => k :: heads (k + length w + 1) ps' end.

Lemma buf_of_cons w ps : buf_of (w :: ps) = w ++ 0 :: buf_of ps.
Proof. unfold buf_of. cbn. by rewrite <-app_assoc. Qed.

Lemma heads_app k ps qs : heads k (ps ++ qs) = heads k ps ++ heads (k + length (buf_of ps)) qs.
Proof.
  revert k. induction ps as [|w ps IH]; intros k; simpl; [by rewrite Nat.add_0_r|].
  rewrite IH, buf_of_cons, length_app. cbn [length]. do 3 f_equal. lia.
Qed.

Lemma until_nul_spec w l : no_nul w → until_nul (w ++ 0 :: l) = w.
Proof.
  induction 1 as [|x w Hx Hw IH]; [done|]. simpl. destruct (Z.eqb_spec x 0); [done|]. by rewrite IH.
Qed.

(** Reading the pieces back. *)
Lemma resolve_heads pre ps post : Forall no_nul ps →
  (resolve (pre ++ buf_of ps ++ post) ∘ Buf) <$> heads (length pre) ps = ps.
Proof.
  intros Hp. revert pre. induction Hp as [|w ps Hw Hp IH]; intros pre; [done|]. simpl. f_equal.
  - rewrite drop_app_length, buf_of_cons, <-app_assoc. by apply until_nul_spec.
  - specialize (IH (pre ++ w ++ [0])). rewrite !length_app, <-!app_assoc in IH. cbn [length app] in IH.
    rewrite buf_of_cons, <-app_assoc. cbn [app]. by rewrite <-Nat.add_assoc.
Qed.

Lemma length_heads k ps : length (heads k ps) = length ps.
Proof. revert k. induction ps as [|? ? IH]; intros k; simpl; [done|]. by rewrite IH. Qed.

Lemma xargs_loop_spec N argv ps w input :
  (N ≤ 127)%nat → Forall no_nul ps → no_nul w → no_nul input →
  (length (buf_of ps) + length w + length input ≤ 1023)%nat →
  (length argv + length ps + length (filter (λ b, sep b = true) input) ≤ N)%nat →
  ∃ qs v, (∃ w1 rest, split_on sep input = w1 :: rest ∧ ps ++ (w ++ w1) :: rest = qs ++ [v]) ∧
    Forall no_nul qs ∧ no_nul v ∧ (length argv + length qs ≤ N)%nat ∧
    (length (buf_of qs) + length v ≤ 1023)%nat ∧
    xargs_loop (XState (buf_of ps ++ w) (length (buf_of ps)) ((Argv <$> argv) ++ (Buf <$> heads 0 ps)) []) input =
      Some (XState (buf_of qs ++ v) (length (buf_of qs)) ((Argv <$> argv) ++ (Buf <$> heads 0 qs)) []).
Proof.
  intros HN Hps Hw Hin. revert ps w Hps Hw. induction Hin as [|b input Hb Hin IH]; intros ps w Hps Hw Hlen Harg.
  { exists ps, w. split_and!; try done; [|simpl in *; lia|simpl in *; lia]. exists [], []. by rewrite app_nil_r. }
  cbn [xargs_loop]. rewrite filter_cons in Harg. cbn [length] in Hlen.
  pose proof (length_heads 0 ps) as Hh.
  assert (fits (XState (buf_of ps ++ w) (length (buf_of ps)) ((Argv <$> argv) ++ (Buf <$> heads 0 ps)) []) = true ∨
          (length argv + length ps > N)%nat) as Hfit.
  { unfold fits. cbn [x_buf x_cur]. rewrite !length_app, !length_fmap, Hh.
    destruct (Nat.ltb_spec (length (buf_of ps) + length w) 1024), (Nat.ltb_spec (length argv + length ps) 128); simpl; auto; lia. }
  destruct Hfit as [->|Hbad]; [|lia]. unfold xargs_byte. cbn [x_buf x_head x_cur x_runs]. cbn [split_on].
  fold (sep b). pose proof (split_on_ne sep input) as Hne.
  destruct (sep b) eqn:Es; case_decide as Hd; try congruence; cbn [length] in Harg.
  - change (0 =? NL) with false. cbv iota zeta.
    assert (buf_of (ps ++ [w]) = (buf_of ps ++ w) ++ [0]) as Eb.
    { unfold buf_of. rewrite fmap_app, concat_app. simpl. by rewrite app_nil_r, app_assoc. }
    destruct (IH (ps ++ [w]) []) as (qs & v & (w1 & rest & Esp & Eq) & Hqs & Hv & Ha & Hl & E).
    { by apply Forall_app; repeat constructor. } { constructor. }
    { rewrite Eb, !length_app. simpl. lia. } { rewrite length_app. simpl. lia. }
    exists qs, v. split_and!; try done.
    + destruct (split_on sep input) as [|w0 ws]; [done|]. simplify_eq. exists [], (w1 :: rest).
      split; [done|]. rewrite app_nil_r. by rewrite <-Eq, <-app_assoc.
    + rewrite <-E. rewrite app_nil_r, Eb, heads_app. f_equal. f_equal.
      * rewrite !length_app. simpl. lia.
      * rewrite fmap_app. simpl. by rewrite app_assoc.
  - destruct (IH ps (w ++ [b])) as (qs & v & (w1 & rest & Esp & Eq) & Hqs & Hv & Ha & Hl & E).
    { done. } { by apply Forall_app; repeat constructor. } { rewrite length_app. simpl. lia. } { lia. }
    exists qs, v. split_and!; try done.
    + destruct (split_on sep input) as [|w0 ws]; [done|]. simplify_eq. exists (b :: w1), rest.
      split; [done|]. rewrite <-Eq. by rewrite <-app_assoc.
    + rewrite <-E. by rewrite app_assoc.
Qed.

(** * Claims *)

(** [xargs] executes its command once, for whatever number of lines: the
    single argument vector is the arguments of [xargs] followed by all the
    pieces of the input between blanks and newlines, an empty one after a final
    newline included. (The newline is overwritten with a NUL before it is
    compared with a newline, so that the run per line never happens.) *)
Theorem xargs_runs_once argv input :
  argv ≠ [] → no_nul input → (length input ≤ 1023)%nat →
  (length argv + length (filter (λ b, sep b = true) input) ≤ 126)%nat →
  xargs_main argv input = Some [argv ++ split_on sep input].
Proof.
  intros Ha Hn Hl Hc. destruct (xargs_loop_spec 126 argv [] [] input) as (qs & v & (w1 & rest & Esp & Eq) & Hqs & Hv & Hb1 & Hb2 & E);
    [lia|constructor|constructor|done|done|simpl; lia|].
  unfold xargs_main. destruct argv as [|a argv]; [done|]. set (av := a :: argv) in *.
  cbn [heads fmap list_fmap] in E. rewrite !app_nil_r in E. change (buf_of []) with (@nil Z) in E.
  cbn [app length] in E. rewrite E. cbn [mbind option_bind x_cur].
  rewrite Esp. unfold fits. cbn [x_buf x_cur x_head x_runs]. rewrite !length_app, !length_fmap, length_heads.
  destruct (Nat.ltb_spec (length (buf_of qs) + length v) 1024); [|lia].
  destruct (Nat.ltb_spec (length av + length qs) 128); [|lia].
  destruct (Nat.ltb_spec (S (length av + length qs)) 128); [|lia]. cbn [andb].
  assert (∀ (A : Type) (x y : A), match (Argv <$> av) ++ (Buf <$> heads 0 qs) with [] => x | _ => y end = y) as ->
    by (intros; done).
  unfold run. cbn [x_buf x_cur x_runs app]. do 2 f_equal. rewrite !fmap_app, <-!list_fmap_compose.
  pose proof (resolve_heads [] (qs ++ [v]) [] ltac:(by apply Forall_app; repeat constructor)) as Hres.
  rewrite heads_app, fmap_app in Hres. cbn [app length heads Nat.add] in Hres. rewrite app_nil_r in Hres.
  assert (buf_of (qs ++ [v]) = (buf_of qs ++ v) ++ [0]) as Eb.
  { unfold buf_of. rewrite fmap_app, concat_app. simpl. by rewrite app_nil_r, app_assoc. }
  rewrite Eb in Hres. cbn [app] in Eq. rewrite Eq, <-Hres, <-app_assoc. f_equal.
  rewrite <-(list_fmap_id av) at 2. by apply list_fmap_ext.
Qed.

Lemma xargs_runs_once_witness :
  xargs_main [[101]] [97; 10; 98; 10] = Some [[[101]; [97]; [98]; []]].
Proof.
  rewrite (xargs_runs_once [[101]] [97; 10; 98; 10]); [reflexivity|done|repeat constructor; lia|simpl; lia|].
  change (filter (λ b, sep b = true) [97; 10; 98; 10]) with [10; 10]. simpl. lia.
Defined.
