(* ===== verification/Umalloc.v ===== *)
(** * user/umalloc.c: the Kernighan and Ritchie allocator

    A block is a header (pointer to the next free block, size in units of a
    header) and its payload.  The model keeps the two header fields of every
    address.  Programs write what they like into the payload of their blocks;
    [sbrk] grows the heap up to a limit.  The free list is circular, sorted and
    starts at the static header [base]; [heap_ok] says so. *)

From S2P Require Import Prelude Machine.

(** sizeof(Header). *)
Definition HDR : Z := 16.

Record heap := Heap {
  hptr : Z → Z;
  hsize : Z → Z;
  freep : Z;
  brk : Z;
  limit : Z
}.

Definition set_ptr (a v : Z) (h : heap) : heap := Heap (fset (hptr h) a v) (hsize h) (freep h) (brk h) (limit h).
Definition set_hsize (a v : Z) (h : heap) : heap := Heap (hptr h) (fset (hsize h) a (u32 v)) (freep h) (brk h) (limit h).
Definition set_freep (p : Z) (h : heap) : heap := Heap (hptr h) (hsize h) p (brk h) (limit h).
Definition set_brk (b : Z) (h : heap) : heap := Heap (hptr h) (hsize h) (freep h) b (limit h).

(** The system call: the old break, or -1. *)
Definition sbrk (n : Z) (h : heap) : heap * Z :=
  if brk h + n >? limit h then (h, -1) else (set_brk (brk h + n) h, brk h).

(** The [for] loop of [free]. *)
Fixpoint free_find (fuel : nat) (h : heap) (bp p : Z) : option Z :=
  match fuel with
  | O => None
  | S fuel' =>
      if (bp >? p) && (bp <? hptr h p) then Some p
      else if (p >=? hptr h p) && ((bp >? p) || (bp <? hptr h p)) then Some p
      else free_find fuel' h bp (hptr h p)
  end.

Definition free (fuel : nat) (h : heap) (ap : Z) : option heap :=
  let bp := ap - HDR in
  p ← free_find fuel h bp (freep h);
  let h :=
    if bp + HDR * hsize h bp =? hptr h p then
      let h := set_hsize bp (hsize h bp + hsize h (hptr h p)) h in
      set_ptr bp (hptr h (hptr h p)) h
    else set_ptr bp (hptr h p) h in
  let h :=
    if p + HDR * hsize h p =? bp then
      let h := set_hsize p (hsize h p + hsize h bp) h in
      set_ptr p (hptr h bp) h
    else set_ptr p bp h in
  Some (set_freep p h).

Definition morecore (fuel : nat) (h : heap) (nu : Z) : option (heap * Z) :=
  let nu := if nu <? 4096 then 4096 else nu in
  let '(h, p) := sbrk (s32 (nu * HDR)) h in
  if p =? -1 then Some (h, 0)
  else
    h ← free fuel (set_hsize p nu h) (p + HDR);
    Some (h, freep h).

(** The [for] loop of [malloc]. *)
Fixpoint malloc_loop (fuel : nat) (h : heap) (nunits prevp p : Z) : option (heap * Z) :=
  match fuel with
  | O => None
  | S fuel' =>
      if hsize h p >=? nunits then
        if hsize h p =? nunits then
          Some (set_freep prevp (set_ptr prevp (hptr h p) h), p + HDR)
        else
          let h := set_hsize p (hsize h p - nunits) h in
          let p := p + HDR * hsize h p in
          let h := set_hsize p nunits h in
          Some (set_freep prevp h, p + HDR)
      else if p =? freep h then
        '(h, p) ← morecore fuel' h nunits;
        if p =? 0 then Some (h, 0) else malloc_loop fuel' h nunits p (hptr h p)
      else malloc_loop fuel' h nunits p (hptr h p)
  end.

Definition units (nbytes : Z) : Z := u32 ((nbytes + HDR - 1) / HDR + 1).

Definition malloc (base : Z) (fuel : nat) (h : heap) (nbytes : Z) : option (heap * Z) :=
  let nunits := units nbytes in
  let h := if freep h =? 0 then set_hsize base 0 (set_freep base (set_ptr base base h)) else h in
  malloc_loop fuel h nunits (freep h) (hptr h (freep h)).

(** ** The free list *)

(** [l] is linked from header [a] to header [z]. *)
Fixpoint chain (h : heap) (a : Z) (l : list (Z * Z)) (z : Z) : Prop :=
  match l with
  | [] => hptr h a = z
  | (b, s) :: l' => hptr h a = b ∧ hsize h b = s ∧ chain h b l' z
  end.

(** Blocks in increasing order, above [lo], with a gap between any two. *)
Fixpoint apart (lo : Z) (l : list (Z * Z)) (hi : Z) : Prop :=
  match l with
  | [] => lo ≤ hi
  | (b, s) :: l' => lo < b ∧ 0 < s ∧ apart (b + HDR * s) l' hi
  end.

Definition in_block (x : Z) (b : Z * Z) : Prop := b.1 ≤ x < b.1 + HDR * b.2.
Definition in_blocks (x : Z) (l : list (Z * Z)) : Prop := ∃ b, b ∈ l ∧ in_block x b.

Record heap_ok (base : Z) (h : heap) (l : list (Z * Z)) : Prop := {
  ho_base : 0 < base ∧ hsize h base = 0;
  ho_chain : chain h base l base;
  ho_apart : apart (base + HDR - 1) l (brk h);
  ho_brk : base + HDR ≤ brk h ≤ limit h ∧ limit h < 2 ^ 35;
  ho_freep : freep h ∈ base :: l.*1
}.

(** * Lemmas *)

Fixpoint tail_of (a : Z) (l : list (Z * Z)) : Z :=
  match l with [] => a | (b, _) :: l' => tail_of b l' end.
Definition first_of (z : Z) (l : list (Z * Z)) : Z := match l with [] => z | (b, _) :: _ => b end.

Lemma chain_app h a l r z : chain h a (l ++ r) z ↔ chain h a l (first_of z r) ∧ chain h (tail_of a l) r z.
Proof.
  revert a. induction l as [|[b s] l IH]; intros a; simpl.
  - destruct r as [|[b s] r]; simpl; naive_solver.
  - rewrite IH. tauto.
Qed.

Lemma tail_of_app a l r : tail_of a (l ++ r) = tail_of (tail_of a l) r.
Proof. revert a. induction l as [|[b s] l IH]; intros a; simpl; auto. Qed.

Lemma tail_of_in a l : tail_of a l ∈ a :: l.*1.
Proof.
  revert a. induction l as [|[b s] l IH]; intros a; simpl; [set_solver|]. specialize (IH b). set_solver.
Qed.

Lemma chain_next h a l z : chain h a l z → hptr h a = first_of z l.
Proof. destruct l as [|[b s] l]; simpl; tauto. Qed.

Lemma chain_move h a a' l z : hptr h a' = hptr h a → chain h a l z → chain h a' l z.
Proof. destruct l as [|[b s] l]; simpl; intros ->; tauto. Qed.

(** A chain depends on the fields of its headers. *)
Lemma chain_ext h h' a l z :
  (∀ c, c ∈ a :: l.*1 → hptr h' c = hptr h c) → (∀ c, c ∈ l.*1 → hsize h' c = hsize h c) →
  chain h a l z → chain h' a l z.
Proof.
  revert a. induction l as [|[b s] l IH]; intros a Hp Hs; simpl.
  - intros <-. apply Hp. set_solver.
  - intros (Ea & Es & Hc). split; [rewrite Hp; [done|set_solver]|]. split; [rewrite Hs; [done|set_solver]|].
    apply IH; [|intros; apply Hs; set_solver|done]. intros c Hin. apply Hp. set_solver.
Qed.

(** Relinking the end of a chain. *)
Lemma chain_set_tail h a l z z' :
  chain h a l z → NoDup (a :: l.*1) → chain (set_ptr (tail_of a l) z' h) a l z'.
Proof.
  revert a. induction l as [|[b s] l IH]; intros a; simpl; [intros _ _; by rewrite fset_eq|].
  intros (Ea & Es & Hc) [Ha Hnd]%NoDup_cons. split_and!; [|done|by apply IH].
  rewrite fset_ne; [done|]. intros E. apply Ha. rewrite E. apply tail_of_in.
Qed.

Lemma apart_le_hi lo l hi hi' : apart lo l hi → hi ≤ hi' → apart lo l hi'.
Proof. revert lo. induction l as [|[b s] l IH]; intros lo; simpl; [lia|]. naive_solver. Qed.

Lemma apart_lo lo lo' l hi : apart lo l hi → lo' ≤ lo → apart lo' l hi.
Proof. destruct l as [|[b s] l]; simpl; [lia|]. intros (? & ? & ?) ?. split_and!; [lia|done|done]. Qed.

Lemma apart_bounds lo l hi b s : apart lo l hi → (b, s) ∈ l → lo < b ∧ 0 < s ∧ b + HDR * s ≤ hi.
Proof.
  revert lo. induction l as [|[c t] l IH]; intros lo; simpl; [by intros _ ?%elem_of_nil|].
  intros (Hlo & Ht & Hl) [[= -> ->]|Hin]%elem_of_cons.
  - split_and!; [done|done|]. clear IH. unfold HDR in *. revert Hl. generalize (c + 16 * t). clear.
    induction l as [|[d u] l IH]; intros k; simpl; [done|]. intros (? & ? & Hl). specialize (IH _ Hl). unfold HDR in *. lia.
  - destruct (IH _ Hl Hin) as (? & ? & ?). unfold HDR in *. split_and!; lia.
Qed.

Lemma apart_lohi lo l hi : apart lo l hi → lo ≤ hi.
Proof.
  destruct l as [|[b s] l]; [done|]. intros Ha. pose proof (apart_bounds _ _ _ b s Ha ltac:(set_solver)).
  unfold HDR in *. lia.
Qed.

Lemma apart_app lo l b s r hi :
  apart lo (l ++ (b, s) :: r) hi ↔ apart lo l (b - 1) ∧ 0 < s ∧ apart (b + HDR * s) r hi.
Proof.
  revert lo. induction l as [|[c t] l IH]; intros lo; simpl; [split; intros (?&?&?); split_and!; (lia || done)|].
  rewrite IH. tauto.
Qed.

Lemma apart_addr lo l hi c : apart lo l hi → c ∈ l.*1 → lo < c < hi.
Proof.
  intros Ha ([b s] & -> & Hin)%list_elem_of_fmap. destruct (apart_bounds _ _ _ _ _ Ha Hin).
  unfold HDR in *. simpl. lia.
Qed.

Lemma apart_NoDup lo l hi : apart lo l hi → NoDup l.*1.
Proof.
  revert lo. induction l as [|[b s] l IH]; intros lo; simpl; [constructor|].
  intros (Hlo & Hs & Hl). apply NoDup_cons. split; [|by eapply IH].
  intros Hin. pose proof (apart_addr _ _ _ _ Hl Hin). unfold HDR in *. lia.
Qed.

Lemma nodes_NoDup a lo l hi : a ≤ lo → apart lo l hi → NoDup (a :: l.*1).
Proof.
  intros Ha Hl. apply NoDup_cons. split; [|by eapply apart_NoDup].
  intros Hin. pose proof (apart_addr _ _ _ _ Hl Hin). lia.
Qed.

(** Splitting a sorted list at an address that is in none of its blocks. *)
Lemma apart_split lo l hi x n :
  apart lo l hi → lo < x → 0 < n → x + HDR * n ≤ hi →
  (∀ y, x ≤ y < x + HDR * n → ¬ in_blocks y l) →
  ∃ l1 l2, l = l1 ++ l2 ∧ apart lo l1 x ∧ (l2 = [] ∨ x + HDR * n ≤ first_of hi l2) ∧
    (∀ lo', lo' < first_of hi l2 → apart lo' l2 hi ∨ l2 = []).
Proof.
  revert lo. induction l as [|[b s] l IH]; intros lo; simpl.
  { intros Hl Hx Hn Hhi _. exists [], []. simpl. split_and!; [done|lia|by left|by right]. }
  intros (Hb & Hs & Hl) Hx Hn Hhi Hf. unfold HDR in *. destruct (decide (b < x)) as [Hlt|Hge].
  - assert (b + 16 * s ≤ x) as Hend.
    { destruct (decide (b + 16 * s ≤ x)); [done|]. exfalso. apply (Hf x); [lia|]. exists (b, s).
      split; [set_solver|]. unfold in_block, HDR. simpl. lia. }
    destruct l as [|[b2 s2] l].
    { exists [(b, s)], []. simpl. unfold HDR. split_and!; [done|lia|lia|lia|by left|by right]. }
    destruct (decide (b + 16 * s < x)) as [Hlt2|Heq].
    + destruct (IH _ Hl Hlt2 Hn Hhi) as (l1 & l2 & E & Ha1 & Hf2 & Ha2).
      { intros y Hy (c & Hc & ?). apply (Hf y Hy). exists c. split; [set_solver|done]. }
      exists ((b, s) :: l1), l2. rewrite E. simpl. by split_and!.
    + assert (b + 16 * s = x) as Ex by lia. exists [(b, s)], ((b2, s2) :: l). simpl. unfold HDR. rewrite Ex.
      simpl in Hl. unfold HDR in *. destruct Hl as (Hb2 & Hs2 & Hl).
      split_and!; [done|lia|lia|lia| |].
      * right. destruct (decide (x + 16 * n ≤ b2)); [done|]. exfalso. apply (Hf b2); [lia|].
        exists (b2, s2). split; [set_solver|]. unfold in_block, HDR. simpl. lia.
      * intros lo' Hlo. left. by split_and!.
  - exists [], ((b, s) :: l). simpl. unfold HDR. split_and!; [done|lia| |].
    + right. destruct (decide (x + 16 * n ≤ b)); [done|]. exfalso. apply (Hf b); [lia|].
      exists (b, s). split; [set_solver|]. unfold in_block, HDR. simpl. lia.
    + intros lo' Hlo. left. by split_and!.
Qed.

Lemma in_blocks_app y l r : in_blocks y (l ++ r) ↔ in_blocks y l ∨ in_blocks y r.
Proof. unfold in_blocks. setoid_rewrite elem_of_app. naive_solver. Qed.

Lemma in_blocks_cons y b s l : in_blocks y ((b, s) :: l) ↔ b ≤ y < b + HDR * s ∨ in_blocks y l.
Proof. unfold in_blocks. setoid_rewrite elem_of_cons. unfold in_block. naive_solver. Qed.

Lemma in_blocks_nil y : in_blocks y [] ↔ False.
Proof. unfold in_blocks. set_solver. Qed.

Ltac blocks := rewrite ?in_blocks_app, ?in_blocks_cons, ?in_blocks_app, ?in_blocks_cons, ?in_blocks_nil; unfold HDR in *.

(** ** free *)

Section find.
Context (base : Z) (h : heap) (l1 l2 : list (Z * Z)) (bp hi : Z).
Context (Hchain : chain h base (l1 ++ l2) base) (Hbase : base < bp).
Context (Hl1 : apart (base + HDR - 1) l1 bp) (Hl2 : apart bp l2 hi).

Lemma find_left fuel la lb :
  l1 = la ++ lb → (length lb < fuel)%nat → free_find fuel h bp (tail_of base la) = Some (tail_of base l1).
Proof.
  revert fuel la. induction lb as [|[b s] lb IH]; intros fuel la E Hf; (destruct fuel as [|fuel]; [simpl in Hf; lia|]).
  - rewrite app_nil_r in E. subst la. cbn [free_find].
    apply chain_app in Hchain as [_ Hc2]. pose proof (chain_next _ _ _ _ Hc2) as En. rewrite En.
    assert (base ≤ tail_of base l1 < bp) as Ht.
    { pose proof (tail_of_in base l1) as Hin. apply elem_of_cons in Hin as [->|Hin]; [lia|].
      pose proof (apart_addr _ _ _ _ Hl1 Hin). unfold HDR in *. lia. }
    destruct l2 as [|[b s] l2']; simpl.
    + destruct (Z.gtb_spec bp (tail_of base l1)); [|lia]. destruct (Z.ltb_spec bp base); [lia|]. simpl.
      by destruct (Z.geb_spec (tail_of base l1) base); [|lia].
    + simpl in Hl2. destruct (Z.gtb_spec bp (tail_of base l1)); [|lia].
      destruct (Z.ltb_spec bp b); [|lia]. done.
  - pose proof Hchain as Hc. rewrite E, <-app_assoc in Hc. apply chain_app in Hc as [_ Hc2]. simpl in Hc2.
    destruct Hc2 as (En & _ & _). cbn [free_find]. rewrite En.
    pose proof Hl1 as Ha. rewrite E in Ha. apply apart_app in Ha as (Ha1 & Hs & Ha2).
    assert (tail_of base la < b < bp) as [Hlt Hb].
    { split.
      - pose proof (tail_of_in base la) as Hin. apply elem_of_cons in Hin as [->|Hin].
        + destruct la as [|[c t] la]; simpl in *; unfold HDR in *; [lia|]. 
          destruct Ha1 as (? & ? & Ha1). assert ((c, t) ∈ (c, t) :: la) by set_solver.
          pose proof (apart_bounds base ((c, t) :: la) (b - 1) c t) as Hb. simpl in Hb. unfold HDR in Hb.
          destruct Hb as (? & ? & ?); [split_and!; [lia|done|done]|done|]. lia.
        + pose proof (apart_addr _ _ _ _ Ha1 Hin). lia.
      - apply (apart_addr _ _ _ b Hl1). rewrite E, fmap_app. set_solver. }
    destruct (Z.ltb_spec bp b); [lia|]. rewrite andb_false_r.
    destruct (Z.geb_spec (tail_of base la) b); [lia|]. simpl.
    replace b with (tail_of base (la ++ [(b, s)])) by (by rewrite tail_of_app).
    apply IH; [by rewrite <-app_assoc|simpl in Hf; lia].
Qed.

Lemma find_right fuel ra q s rb :
  l2 = ra ++ (q, s) :: rb → (length rb + length l1 + 1 < fuel)%nat →
  free_find fuel h bp q = Some (tail_of base l1).
Proof.
  revert fuel ra q s. induction rb as [|[b t] rb IH]; intros fuel ra q s E Hf;
    (destruct fuel as [|fuel]; [simpl in Hf; lia|]); cbn [free_find];
    pose proof Hchain as Hc; rewrite E, app_assoc in Hc; apply chain_app in Hc as [_ Hc2]; simpl in Hc2;
    (assert (bp < q) by (apply (apart_addr _ _ _ q Hl2); rewrite E, fmap_app; set_solver)).
  - destruct Hc2 as (_ & _ & En). rewrite En.
    destruct (Z.gtb_spec bp q); [lia|]. simpl. destruct (Z.ltb_spec bp base); [lia|]. rewrite andb_false_r.
    apply (find_left fuel [] l1 eq_refl). simpl in Hf. lia.
  - destruct Hc2 as (_ & _ & En & _). rewrite En.
    assert (q < b) as Hqb.
    { pose proof Hl2 as Ha. rewrite E in Ha. apply apart_app in Ha as (_ & Hs & Ha). simpl in Ha. unfold HDR in *. lia. }
    destruct (Z.gtb_spec bp q); [lia|]. simpl. destruct (Z.geb_spec q b); [lia|]. simpl.
    apply (IH fuel (ra ++ [(q, s)]) b t); [by rewrite <-app_assoc|simpl in Hf; lia].
Qed.

Lemma find_spec fuel q :
  q ∈ base :: (l1 ++ l2).*1 → (length (l1 ++ l2) + 1 < fuel)%nat →
  free_find fuel h bp q = Some (tail_of base l1).
Proof.
  rewrite length_app. intros [->|([c s] & -> & Hin)%list_elem_of_fmap]%elem_of_cons Hf.
  - apply (find_left fuel [] l1 eq_refl). lia.
  - simpl. apply elem_of_app in Hin as [Hin|Hin]; apply list_elem_of_split in Hin as (la & lb & E).
    + replace c with (tail_of base (la ++ [(c, s)])) by (by rewrite tail_of_app).
      apply (find_left fuel _ lb); [by rewrite <-app_assoc|]. rewrite E, length_app in Hf. simpl in Hf. lia.
    + apply (find_right fuel la c s lb E). rewrite E, length_app in Hf. simpl in Hf. lia.
Qed.

End find.

(** Merging with the block above. *)
Lemma free_up base h l2 p bp hi :
  let n := hsize h bp in
  chain h p l2 base → apart bp l2 hi → (l2 = [] ∨ bp + HDR * n ≤ first_of hi l2) →
  base < bp → 0 < base → 0 < n → bp + HDR * n ≤ hi → hi < 2 ^ 35 →
  let h1 :=
    if bp + HDR * hsize h bp =? hptr h p then
      let h := set_hsize bp (hsize h bp + hsize h (hptr h p)) h in
      set_ptr bp (hptr h (hptr h p)) h
    else set_ptr bp (hptr h p) h in
  ∃ n' r, chain h1 bp r base ∧ hsize h1 bp = n' ∧ n ≤ n' ∧ apart (bp + HDR * n') r hi ∧
    (∀ c, c ≠ bp → hptr h1 c = hptr h c ∧ hsize h1 c = hsize h c) ∧
    brk h1 = brk h ∧ limit h1 = limit h ∧ (length r ≤ length l2)%nat ∧ (∀ c, c ∈ r.*1 → c ∈ l2.*1) ∧
    (∀ y, in_blocks y ((bp, n') :: r) ↔ in_blocks y ((bp, n) :: l2)).
Proof.
  intros n Hc Ha Hf Hb Hb0 Hn Hend Hhi h1. pose proof (chain_next _ _ _ _ Hc) as En.
  assert (∀ c, c ∈ l2.*1 → bp < c) as Hgt by (intros c Hin; apply (apart_addr _ _ _ _ Ha Hin)).
  unfold h1. clear h1. fold n. rewrite En. destruct l2 as [|[b s] r]; simpl first_of.
  - destruct (Z.eqb_spec (bp + HDR * n) base) as [E|_]; [unfold HDR in *; lia|].
    exists n, []. simpl. split_and!; try done; [by rewrite fset_eq|].
    intros c Hne. by rewrite fset_ne.
  - simpl in Hc, Ha. destruct Hc as (_ & Es & Hc). destruct Ha as (Hbb & Hs & Ha).
    destruct Hf as [|Hf]; [done|]. simpl in Hf. rewrite Es.
    assert (∀ h', (∀ c, c ≠ bp → hptr h' c = hptr h c ∧ hsize h' c = hsize h c) →
      chain h b r base → chain h' b r base) as Hkeep.
    { intros h' Heq. apply chain_ext; intros c Hin; apply Heq; intros ->; apply (Z.lt_irrefl bp), Hgt; set_solver. }
    destruct (Z.eqb_spec (bp + HDR * n) b) as [E|E].
    + assert (b + HDR * s ≤ hi).
      { apply (apart_bounds bp ((b, s) :: r) hi b s); [by simpl|set_solver]. }
      set (h1 := set_ptr bp _ _).
      assert (∀ c, c ≠ bp → hptr h1 c = hptr h c ∧ hsize h1 c = hsize h c) as Heq.
      { intros c Hne. simpl. by rewrite !fset_ne. }
      exists (n + s), r. split_and!; try done.
      * apply (chain_move h1 b); [|by apply Hkeep].
        rewrite (proj1 (Heq b ltac:(lia))). simpl. by rewrite fset_eq, En.
      * simpl. rewrite fset_eq. apply u32_small. unfold HDR in *. lia.
      * lia.
      * unfold HDR in *. replace (bp + 16 * (n + s)) with (b + 16 * s) by lia. done.
      * simpl. lia.
      * intros c Hin. set_solver.
      * intros y. blocks. destruct (decide (y < b)); intuition lia.
    + set (h1 := set_ptr bp b h).
      assert (∀ c, c ≠ bp → hptr h1 c = hptr h c ∧ hsize h1 c = hsize h c) as Heq.
      { intros c Hne. simpl. by rewrite !fset_ne. }
      exists n, ((b, s) :: r). split_and!; try done.
      * simpl. rewrite fset_eq. split_and!; [done|done|by apply Hkeep].
      * simpl. split_and!; [unfold HDR in *; lia|done|done].
Qed.

(** Merging with the block below. *)
Lemma free_down base h l1 bp n r hi :
  let p := tail_of base l1 in
  chain h base l1 (hptr h p) → chain h bp r base → hsize h bp = n →
  apart (base + HDR - 1) l1 bp → apart (bp + HDR * n) r hi →
  0 < base → hsize h base = 0 → base + HDR ≤ bp → 0 < n → bp + HDR * n ≤ hi → hi < 2 ^ 35 →
  let h2 :=
    if p + HDR * hsize h p =? bp then
      let h := set_hsize p (hsize h p + hsize h bp) h in
      set_ptr p (hptr h bp) h
    else set_ptr p bp h in
  ∃ l' s, chain h2 base l' base ∧ hsize h2 base = 0 ∧ apart (base + HDR - 1) l' hi ∧
    brk h2 = brk h ∧ limit h2 = limit h ∧ p ∈ base :: l'.*1 ∧ n ≤ s ∧ s ∈ l'.*2 ∧
    (length l' ≤ length l1 + 1 + length r)%nat ∧
    (∀ c, c ∉ base :: l1.*1 → hsize h2 c = hsize h c) ∧
    (∀ y, in_blocks y l' ↔ in_blocks y (l1 ++ (bp, n) :: r)).
Proof.
  intros p Hc1 Hc2 En Ha1 Ha2 Hb0 Hs0 Hb Hn Hend Hhi h2.
  assert (∀ c, c ∈ base :: l1.*1 → c < bp) as Hlt.
  { intros c [->|Hin]%elem_of_cons; [unfold HDR in *; lia|]. apply (apart_addr _ _ _ _ Ha1 Hin). }
  assert (∀ c, c ∈ bp :: r.*1 → bp ≤ c) as Hge.
  { intros c [->|Hin]%elem_of_cons; [lia|]. pose proof (apart_addr _ _ _ _ Ha2 Hin). unfold HDR in *. lia. }
  assert (p < bp) as Hp by (apply Hlt, tail_of_in).
  assert (NoDup (base :: l1.*1)) as Hnd by (eapply nodes_NoDup; [|exact Ha1]; unfold HDR; lia).
  unfold h2. clear h2. destruct (Z.eqb_spec (p + HDR * hsize h p) bp) as [E|E].
  - destruct l1 as [|[a m] l0 _] using rev_ind.
    { simpl in p. unfold p in E. rewrite Hs0 in E. unfold HDR in *. lia. }
    assert (p = a) as Ep by (unfold p; by rewrite tail_of_app). clearbody p. subst p.
    apply chain_app in Hc1 as [Hc1 Hc1']. simpl in Hc1, Hc1'. destruct Hc1' as (Ea & Em & Ez).
    apply apart_app in Ha1 as (Ha1 & Hm & Ha1'). simpl in Ha1'. rewrite Em in E.
    rewrite fmap_app in Hnd, Hlt. simpl in Hnd, Hlt.
    assert (a ∉ base :: l0.*1) as Hna.
    { rewrite app_comm_cons in Hnd. apply NoDup_app in Hnd as (_ & Hd & _). intros Hin. apply (Hd a Hin). set_solver. }
    set (h2 := set_ptr a _ _).
    assert (∀ c, c ≠ a → hptr h2 c = hptr h c ∧ hsize h2 c = hsize h c) as Heq.
    { intros c Hne. simpl. by rewrite !fset_ne. }
    assert (hsize h2 a = m + n) as Es2.
    { simpl. rewrite fset_eq, Em, En. apply u32_small. unfold HDR in *.
      pose proof (apart_lohi _ _ _ Ha1). lia. }
    assert (hptr h2 a = hptr h bp) as Ep2 by (simpl; by rewrite fset_eq).
    assert (a ∉ r.*1) as Hnr by (intros Hin; pose proof (Hge a ltac:(set_solver)); lia).
    exists (l0 ++ (a, m + n) :: r), (m + n). split_and!; try done; try lia.
    + apply chain_app. split; [|cbn [chain]; split_and!; [|done|]].
      * cbn [first_of]. revert Hc1. apply chain_ext; intros c Hin; apply Heq; intros ->; [by apply Hna|apply Hna; set_solver].
      * rewrite (proj1 (Heq _ ltac:(intros E'; apply Hna; rewrite <-E'; apply tail_of_in))). done.
      * assert (chain h2 bp r base) as Hk.
        { revert Hc2. apply chain_ext; intros c Hin; apply Heq; intros ->; [|by apply Hnr].
          apply elem_of_cons in Hin as [E'|Hin]; [lia|by apply Hnr]. }
        apply (chain_move h2 bp); [|done]. rewrite Ep2. symmetry. apply Heq. lia.
    + rewrite (proj2 (Heq base ltac:(intros E'; apply Hna; rewrite E'; set_solver))). done.
    + apply apart_app. split_and!; [done|lia|]. unfold HDR in *. replace (a + 16 * (m + n)) with (bp + 16 * n) by lia. done.
    + rewrite fmap_app. set_solver.
    + rewrite fmap_app. set_solver.
    + rewrite !length_app. simpl. lia.
    + intros c Hin. apply Heq. intros ->. apply Hin. rewrite fmap_app. set_solver.
    + intros y. blocks. destruct (decide (y < bp)); intuition lia.
  - exists (l1 ++ (bp, n) :: r), n. split_and!; try done; try lia.
    + apply chain_app. split; [by apply chain_set_tail with (z := hptr h p)|]. fold p. simpl.
      split_and!; [by rewrite fset_eq|done|].
      revert Hc2. apply chain_ext; [|done]. intros c Hin. simpl. apply fset_ne. intros ->. pose proof (Hge p Hin). lia.
    + apply apart_app. split_and!; [|done|done].
      revert Ha1 E Hb Hc1. unfold p. clear. destruct l1 as [|[a m] l0 _] using rev_ind; simpl.
      { intros _ _ ? _. unfold HDR in *. lia. }
      rewrite tail_of_app. simpl. intros Ha E _ [_ (_ & Em & _)]%chain_app. rewrite Em in E. apply apart_app in Ha as (Ha & Hm & Hend). simpl in Hend.
      apply apart_app. split_and!; [done|done|]. simpl. lia.
    + rewrite fmap_app. pose proof (tail_of_in base l1). set_solver.
    + rewrite fmap_app. set_solver.
    + rewrite length_app. simpl. lia.
Qed.

(** What [free] of the block of [n] units at [bp] does to the free list. *)
Record freed (base : Z) (h : heap) (l : list (Z * Z)) (bp n : Z) (h' : heap) (l' : list (Z * Z)) : Prop := {
  fd_ok : heap_ok base h' l';
  fd_space y : in_blocks y l' ↔ in_blocks y l ∨ bp ≤ y < bp + HDR * n;
  fd_brk : brk h' = brk h ∧ limit h' = limit h;
  fd_length : (length l' ≤ length l + 1)%nat;
  fd_size : ∃ s, s ∈ l'.*2 ∧ n ≤ s;
  fd_other c : c ∉ base :: l.*1 → c ≠ bp → hsize h' c = hsize h c
}.

Lemma free_freed base h l fuel bp n :
  heap_ok base h l → hsize h bp = n → 0 < n → base + HDR ≤ bp → bp + HDR * n ≤ brk h →
  (∀ y, bp ≤ y < bp + HDR * n → ¬ in_blocks y l) → (length l + 1 < fuel)%nat →
  ∃ h' l', free fuel h (bp + HDR) = Some h' ∧ freed base h l bp n h' l'.
Proof.
  intros [[Hb0 Hs0] Hc Ha [Hbrk Hlim] Hfp] En Hn Hb Hend Hdis Hf.
  destruct (apart_split _ _ _ bp n Ha ltac:(unfold HDR in *; lia) Hn Hend Hdis)
    as (l1 & l2 & -> & Ha1 & Hf2 & Ha2).
  assert (apart bp l2 (brk h)) as Ha2'.
  { destruct Hf2 as [->|Hf2]; [simpl; unfold HDR in *; lia|].
    destruct (Ha2 bp) as [?| ->]; [unfold HDR in *; lia|done|simpl; unfold HDR in *; lia]. }
  unfold free. replace (bp + HDR - HDR) with bp by lia.
  rewrite (find_spec base h l1 l2 bp (brk h) Hc ltac:(unfold HDR in *; lia) Ha1 Ha2' fuel _ Hfp Hf).
  cbn [mbind option_bind]. set (p := tail_of base l1). pose proof Hc as [Hc1 Hc2]%chain_app. fold p in Hc2.
  pose proof (free_up base h l2 p bp (brk h)) as Hup. rewrite En in Hup. cbv zeta in Hup |- *.
  destruct Hup as (n' & r & Hr & En' & Hnn & Har & Heq & Eb1 & El1 & Hlr & Hsub & Hsp); try done; try lia.
  { unfold HDR in *. lia. }
  rewrite <-En in Hr, En', Heq, Eb1, El1. 
  match type of Hr with chain ?x _ _ _ => set (h1 := x) in * end.
  assert (∀ c, c ∈ base :: l1.*1 → c ≠ bp) as Hne.
  { intros c [->|Hin]%elem_of_cons; [unfold HDR in *; lia|]. pose proof (apart_addr _ _ _ _ Ha1 Hin). lia. }
  assert (bp + HDR * n' ≤ brk h) as Hend' by (by eapply apart_lohi).
  assert (hptr h1 p = hptr h p) as Ehp by (apply Heq, Hne, tail_of_in).
  pose proof (chain_next _ _ _ _ Hc2) as Enx.
  assert (chain h1 base l1 (hptr h1 p)) as Hc1'.
  { rewrite Ehp, Enx. revert Hc1. apply chain_ext; intros c Hin; apply Heq, Hne; [done|set_solver]. }
  pose proof (free_down base h1 l1 bp n' r (brk h)) as Hdn. cbv zeta in Hdn. fold p in Hdn.
  destruct Hdn as (l' & s & Hc' & Hs' & Ha' & Eb2 & El2 & Hp' & Hns & Hin & Hll & Hoth & Hsp'); try done; try lia.
  { rewrite <-Hs0. apply Heq, Hne. set_solver. }
  eexists _, l'. split; [reflexivity|].
  match goal with |- freed _ _ _ _ _ (set_freep p ?x) _ => set (h2 := x) in * end.
  clearbody h2 h1. split.
  - split; cbn [set_freep hptr hsize freep brk limit]; rewrite ?El2, ?El1, ?Eb2, ?Eb1; try done.
    by apply (chain_ext h2).
  - intros y. rewrite Hsp', !in_blocks_app, Hsp, in_blocks_cons. tauto.
  - simpl. by rewrite Eb2, El2, Eb1, El1.
  - rewrite length_app. lia.
  - exists s. split; [done|lia].
  - intros c Hc0 Hcb. simpl. rewrite Hoth, (proj2 (Heq c Hcb)); [done|]. intros Hc3. apply Hc0. rewrite fmap_app. set_solver.
Qed.

(** ** malloc *)

(** The free list seen from any of its headers [q]: a cycle from [q] to [q]. *)
Lemma rotate base h l q :
  heap_ok base h l → q ∈ base :: l.*1 →
  ∃ ws, chain h q ws q ∧ (length ws ≤ length l)%nat ∧
    (∀ c s, (c, s) ∈ l → c = q ∨ (c, s) ∈ ws) ∧
    (∀ c, c ∈ ws.*1 → c ∈ base :: l.*1) ∧ q ∉ ws.*1.
Proof.
  intros [[Hb0 Hs0] Hc Ha _ _] [->|([c s] & -> & Hin)%list_elem_of_fmap]%elem_of_cons.
  { exists l. split_and!; [done|lia|by right|set_solver|].
    intros Hin. pose proof (apart_addr _ _ _ _ Ha Hin). unfold HDR in *. lia. }
  simpl. apply list_elem_of_split in Hin as (l1 & l2 & ->).
  apply chain_app in Hc as [Hc1 (Ec & Es & Hc2)]. simpl in Hc1.
  exists (l2 ++ (base, 0) :: l1). split_and!.
  - apply chain_app. split; [done|]. simpl. split_and!; [|done|done].
    destruct l2 as [|[d t] l2 _] using rev_ind; [done|]. apply chain_app in Hc2 as [_ Hc2]. simpl in Hc2.
    rewrite tail_of_app. simpl. tauto.
  - rewrite !length_app. simpl. lia.
  - intros d t Hd. apply elem_of_app in Hd as [Hd|[[= -> ->]|Hd]%elem_of_cons]; [right|by left|right]; set_solver.
  - intros d. rewrite !fmap_app. simpl. set_solver.
  - pose proof (nodes_NoDup base (base + HDR - 1) _ _ ltac:(unfold HDR; lia) Ha) as Hnd.
    rewrite fmap_app in *. simpl in *. apply NoDup_cons in Hnd as [Hb Hnd].
    apply NoDup_app in Hnd as (_ & Hd & Hnd). apply NoDup_cons in Hnd as [Hnd _]. set_solver.
Qed.

(** The header before a block of the list is unique. *)
Lemma predecessor base h l1 b s l2 q :
  heap_ok base h (l1 ++ (b, s) :: l2) → q ∈ base :: (l1 ++ (b, s) :: l2).*1 → hptr h q = b → q = tail_of base l1.
Proof.
  intros [[Hb0 Hs0] Hc Ha _ _] Hq Eq. set (l := l1 ++ (b, s) :: l2) in *.
  assert (∃ la lb, l = la ++ lb ∧ q = tail_of base la) as (la & lb & El & ->).
  { apply elem_of_cons in Hq as [->|([c t] & -> & Hin)%list_elem_of_fmap]; [by exists [], l|].
    apply list_elem_of_split in Hin as (la & lb & ->). exists (la ++ [(c, t)]), lb.
    split; [by rewrite <-app_assoc|]. by rewrite tail_of_app. }
  rewrite El in Hc. apply chain_app in Hc as [_ Hc]. apply chain_next in Hc. rewrite Eq in Hc.
  pose proof (nodes_NoDup base (base + HDR - 1) _ _ ltac:(unfold HDR; lia) Ha) as Hnd.
  assert (b ≠ base) as Hbb.
  { intros ->. apply NoDup_cons in Hnd as [Hnd _]. apply Hnd. unfold l. rewrite fmap_app. set_solver. }
  destruct lb as [|[b' t] lb]; simpl in Hc; [done|]. subst b'. f_equal.
  apply NoDup_cons in Hnd as [_ Hnd]. unfold l in *. clear -El Hnd.
  revert la El Hnd. induction l1 as [|[c u] l1 IH]; intros [|[d v] la] El Hnd; simplify_eq/=.
  - done.
  - apply NoDup_cons in Hnd as [Hnd _]. exfalso. apply Hnd. rewrite fmap_app. set_solver.
  - apply NoDup_cons in Hnd as [Hnd _]. exfalso. apply Hnd. rewrite fmap_app. set_solver.
  - f_equal. apply NoDup_cons in Hnd as [_ Hnd]. by apply IH.
Qed.

(** What taking a block of [n] units at [b] from the free list does. *)
Record taken (base : Z) (h : heap) (l : list (Z * Z)) (b n : Z) (h' : heap) (l' : list (Z * Z)) : Prop := {
  tk_ok : heap_ok base h' l';
  tk_size : hsize h' b = n;
  tk_in y : b ≤ y < b + HDR * n → in_blocks y l;
  tk_space y : in_blocks y l' ↔ in_blocks y l ∧ ¬ (b ≤ y < b + HDR * n);
  tk_brk : brk h' = brk h ∧ limit h' = limit h;
  tk_base : base + HDR ≤ b ∧ b + HDR * n ≤ brk h;
  tk_length : (length l' ≤ length l)%nat;
  tk_other c : ¬ in_blocks c l → hsize h' c = hsize h c
}.

Lemma apart_join lo l1 m m' l2 hi : apart lo l1 m → apart m' l2 hi → m ≤ m' → apart lo (l1 ++ l2) hi.
Proof.
  revert lo. induction l1 as [|[b s] l1 IH]; intros lo; simpl; [intros; eapply apart_lo; [done|lia]|].
  intros (? & ? & ?) ? ?. split_and!; auto.
Qed.

Lemma chain_in h a l z q : chain h a l z → q ∈ a :: l.*1 → hptr h q ∈ z :: l.*1.
Proof.
  revert a. induction l as [|[b s] l IH]; intros a; simpl.
  - intros <- ->%list_elem_of_singleton. set_solver.
  - intros (Ea & Es & Hc) [->|Hin]%elem_of_cons; [rewrite Ea; set_solver|]. specialize (IH b Hc Hin). set_solver.
Qed.

Lemma take_whole base h l1 p n l2 :
  heap_ok base h (l1 ++ (p, n) :: l2) →
  taken base h (l1 ++ (p, n) :: l2) p n
    (set_freep (tail_of base l1) (set_ptr (tail_of base l1) (hptr h p) h)) (l1 ++ l2).
Proof.
  intros [[Hb0 Hs0] Hc Ha [Hbrk Hlim] Hfp]. set (q := tail_of base l1).
  pose proof (apart_bounds _ _ _ p n Ha ltac:(set_solver)) as (Hp1 & Hn & Hp2).
  pose proof Ha as (Ha1 & _ & Ha2)%apart_app. pose proof Hc as [Hc1 (_ & Es & Hc2)]%chain_app. simpl in Hc1.
  assert (∀ c, c ∈ base :: l1.*1 → c < p) as Hlt.
  { intros c [->|Hin]%elem_of_cons; [unfold HDR in *; lia|]. pose proof (apart_addr _ _ _ _ Ha1 Hin). lia. }
  assert (q < p) as Hq by (apply Hlt, tail_of_in).
  assert (∀ c, c ∈ l2.*1 → p < c) as Hgt.
  { intros c Hin. pose proof (apart_addr _ _ _ _ Ha2 Hin). unfold HDR in *. lia. }
  set (h' := set_freep q _). split.
  - split; try done.
    + apply (chain_ext (set_ptr q (hptr h p) h)); [done|done|]. apply chain_app. split.
      * rewrite (chain_next _ _ _ _ Hc2). apply chain_set_tail with (z := p); [done|].
        eapply nodes_NoDup; [|exact Ha1]. unfold HDR. lia.
      * fold q. apply (chain_move _ p); [simpl; rewrite fset_eq, fset_ne by lia; done|].
        revert Hc2. apply chain_ext; [|done]. intros c Hin. simpl. apply fset_ne. intros ->.
        apply elem_of_cons in Hin as [E|Hin]; [lia|]. specialize (Hgt _ Hin). lia.
    + simpl. eapply apart_join; [exact Ha1|exact Ha2|]. unfold HDR in *. lia.
    + simpl. rewrite fmap_app. pose proof (tail_of_in base l1). fold q in H. set_solver.
  - done.
  - intros y Hy. blocks. tauto.
  - intros y. blocks. assert (in_blocks y l1 → y < p) as Hy1.
    { intros ([c t] & Hin & Hy). pose proof (apart_bounds _ _ _ _ _ Ha1 Hin). unfold in_block, HDR in *. simpl in *. lia. }
    assert (in_blocks y l2 → p + 16 * n ≤ y) as Hy2.
    { intros ([c t] & Hin & Hy). pose proof (apart_bounds _ _ _ _ _ Ha2 Hin). unfold in_block, HDR in *. simpl in *. lia. }
    intuition lia.
  - done.
  - unfold HDR in *. lia.
  - rewrite !length_app. simpl. lia.
  - done.
Qed.

Lemma take_tail base h l1 p s l2 n :
  heap_ok base h (l1 ++ (p, s) :: l2) → 0 < n < s →
  let h1 := set_hsize p (s - n) h in
  let p' := p + HDR * hsize h1 p in
  taken base h (l1 ++ (p, s) :: l2) p' n
    (set_freep (tail_of base l1) (set_hsize p' n h1)) (l1 ++ (p, s - n) :: l2) ∧ p' = p + HDR * (s - n).
Proof.
  intros [[Hb0 Hs0] Hc Ha [Hbrk Hlim] Hfp] Hn h1 p'.
  pose proof (apart_bounds _ _ _ p s Ha ltac:(set_solver)) as (Hp1 & Hs & Hp2).
  pose proof Ha as (Ha1 & _ & Ha2)%apart_app. pose proof Hc as [Hc1 (Ep & Es & Hc2)]%chain_app. simpl in Hc1.
  assert (hsize h1 p = s - n) as E1 by (simpl; rewrite fset_eq; apply u32_small; unfold HDR in *; lia).
  assert (p' = p + HDR * (s - n)) as Ep' by (unfold p'; by rewrite E1).
  clearbody p'. subst p'. split; [|done]. set (p' := p + HDR * (s - n)).
  assert (∀ c, c ∈ base :: l1.*1 → c < p) as Hlt.
  { intros c [->|Hin]%elem_of_cons; [unfold HDR in *; lia|]. pose proof (apart_addr _ _ _ _ Ha1 Hin). lia. }
  assert (∀ c, c ∈ l2.*1 → p + HDR * s < c) as Hgt.
  { intros c Hin. apply (apart_addr _ _ _ _ Ha2 Hin). }
  assert (p < p' < p + HDR * s) as Hp' by (unfold p', HDR in *; lia).
  set (h' := set_freep _ _).
  assert (∀ c, c ≠ p → c ≠ p' → hsize h' c = hsize h c) as Heq by (intros; simpl; by rewrite !fset_ne).
  split.
  - split; try done.
    + split; [done|]. rewrite Heq; [done|pose proof (Hlt base ltac:(set_solver)); lia..].
    + apply chain_app. split; [|cbn [chain]; split_and!].
      * revert Hc1. apply chain_ext; [done|]. intros c Hin. apply Heq; pose proof (Hlt c ltac:(set_solver)); lia.
      * done.
      * simpl. rewrite fset_ne by lia. exact E1.
      * revert Hc2. apply chain_ext; [done|]. intros c Hin. apply Heq; pose proof (Hgt c Hin); lia.
    + apply apart_app. split_and!; [done|lia|]. eapply apart_lo; [exact Ha2|]. unfold HDR in *. lia.
    + simpl. rewrite fmap_app. pose proof (tail_of_in base l1). set_solver.
  - simpl. rewrite fset_eq. apply u32_small. unfold HDR in *. lia.
  - intros y Hy. blocks. unfold p', HDR in *. right. left. lia.
  - intros y. blocks. assert (in_blocks y l1 → y < p) as Hy1.
    { intros ([c t] & Hin & Hy). pose proof (apart_bounds _ _ _ _ _ Ha1 Hin). unfold in_block, HDR in *. simpl in *. lia. }
    assert (in_blocks y l2 → p + 16 * s ≤ y) as Hy2.
    { intros ([c t] & Hin & Hy). pose proof (apart_bounds _ _ _ _ _ Ha2 Hin). unfold in_block, HDR in *. simpl in *. lia. }
    unfold p' in *. intuition lia.
  - done.
  - unfold p', HDR in *. lia.
  - rewrite !length_app. simpl. lia.
  - intros c Hc'. apply Heq; intros ->; apply Hc'; blocks; right; left; lia.
Qed.

(** A block that is large enough is taken. *)
Lemma malloc_found base h l fuel n q :
  heap_ok base h l → q ∈ base :: l.*1 → 0 < n → n ≤ hsize h (hptr h q) →
  ∃ h' l' b, malloc_loop (S fuel) h n q (hptr h q) = Some (h', b + HDR) ∧ taken base h l b n h' l'.
Proof.
  intros Hok Hq Hn Hge. pose proof Hok as [[Hb0 Hs0] Hc Ha _ _]. remember (hptr h q) as p eqn:Eq.
  assert (p ∈ base :: l.*1) as Hp by (rewrite Eq; by eapply chain_in).
  apply elem_of_cons in Hp as [->|([c s] & -> & Hin)%list_elem_of_fmap]; [lia|].
  simpl in *. apply list_elem_of_split in Hin as (l1 & l2 & ->).
  pose proof Hc as [_ (_ & Es & _)]%chain_app.
  assert (q = tail_of base l1) as -> by (by eapply predecessor).
  destruct (Z.geb_spec (hsize h c) n); [|lia]. destruct (Z.eqb_spec (hsize h c) n) as [E|E].
  - subst s. rewrite E in Hok |- *. eexists _, _, c. split; [reflexivity|]. by apply take_whole.
  - rewrite Es. destruct (take_tail base h l1 c s l2 n Hok ltac:(lia)) as [Ht _].
    eexists _, _, _. split; [reflexivity|]. exact Ht.
Qed.

(** Walking over blocks that are too small, up to a header [z]. *)
Lemma malloc_walk base h l fuel n q ws z :
  heap_ok base h l → freep h = z → chain h q ws z → 0 < n →
  (∀ c, c ∈ q :: ws.*1 → c ∈ base :: l.*1) → z ∉ ws.*1 → (length ws < fuel)%nat →
  (∃ h' l' b, malloc_loop fuel h n q (hptr h q) = Some (h', b + HDR) ∧ taken base h l b n h' l') ∨
  (∃ q' k, Forall (λ b, b.2 < n) ws ∧ hsize h z < n ∧ (fuel ≤ length ws + S k)%nat ∧
     malloc_loop fuel h n q (hptr h q) = malloc_loop (S k) h n q' z).
Proof.
  intros Hok Ez. revert fuel q. induction ws as [|[c s] ws IH]; intros fuel q Hc Hn Hin Hz Hf;
    (destruct fuel as [|fuel]; [simpl in Hf; lia|]).
  - simpl in Hc. destruct (decide (n ≤ hsize h z)) as [Hge|Hlt].
    + left. apply malloc_found; [done|apply Hin; set_solver|done|by rewrite Hc].
    + right. exists q, fuel. rewrite Hc. split_and!; [constructor|lia|simpl; lia|done].
  - simpl in Hc. destruct Hc as (Ec & Es & Hc). destruct (decide (n ≤ s)) as [Hge|Hlt].
    + left. apply malloc_found; [done|apply Hin; set_solver|done|]. by rewrite Ec, Es.
    + cbn [fmap list_fmap fst] in Hz. assert (c ≠ z) as Hcz by set_solver.
      destruct (IH fuel c Hc Hn) as [(h' & l' & b & E & Ht)|(q' & k & Hall & Hsz & Hk & E)];
        [intros d Hd; apply Hin; set_solver|set_solver|simpl in Hf; lia|left|right].
      * exists h', l', b. split; [|done]. rewrite Ec. cbn [malloc_loop]. rewrite Es.
        destruct (Z.geb_spec s n); [lia|]. rewrite Ez, (proj2 (Z.eqb_neq c z)) by done. exact E.
      * exists q', k. split_and!; [constructor; [simpl; lia|done]|done|simpl; lia|].
        rewrite <-E, Ec. cbn [malloc_loop]. rewrite Es.
        destruct (Z.geb_spec s n); [lia|]. by rewrite Ez, (proj2 (Z.eqb_neq c z)) by done.
Qed.

Record allocated (base : Z) (h : heap) (l : list (Z * Z)) (n b : Z) (h' : heap) (l' : list (Z * Z)) : Prop := {
  al_ok : heap_ok base h' l';
  al_size : hsize h' b = n;
  al_space y : in_blocks y l' ∨ b ≤ y < b + HDR * n ↔ in_blocks y l ∨ brk h ≤ y < brk h';
  al_disjoint y : b ≤ y < b + HDR * n → ¬ in_blocks y l';
  al_brk : brk h ≤ brk h' ∧ limit h' = limit h;
  al_range : base + HDR ≤ b ∧ b + HDR * n ≤ brk h';
  al_length : (length l' ≤ length l + 1)%nat;
  al_other c : ¬ in_blocks c l → c ≠ base → c < brk h → hsize h' c = hsize h c
}.

Lemma taken_allocated base h l n b h' l' : taken base h l b n h' l' → allocated base h l n b h' l'.
Proof.
  intros [Hok Hsz Hin Hsp [Eb El] Hr Hlen Hoth]. split; try done; try lia.
  - intros y. rewrite Hsp, Eb. destruct (decide (b ≤ y < b + HDR * n)); [|intuition lia].
    specialize (Hin y). intuition.
  - intros y Hy. rewrite Hsp. tauto.
  - auto.
Qed.

Lemma node_in_blocks lo l hi c : apart lo l hi → c ∈ l.*1 → in_blocks c l.
Proof.
  intros Ha ([b s] & -> & Hin)%list_elem_of_fmap. exists (b, s). split; [done|].
  destruct (apart_bounds _ _ _ _ _ Ha Hin). unfold in_block, HDR in *. simpl. lia.
Qed.

Lemma in_blocks_bound lo l hi y : apart lo l hi → in_blocks y l → lo < y < hi.
Proof.
  intros Ha ([b s] & Hin & Hy). pose proof (apart_bounds _ _ _ _ _ Ha Hin). unfold in_block, HDR in *. simpl in *. lia.
Qed.

(** [morecore] adds the new memory to the free list, or returns 0. *)
Lemma morecore_spec base h l fuel n :
  heap_ok base h l → 0 < n → n * HDR < 2 ^ 31 → (length l + 1 < fuel)%nat →
  let nu := Z.max n 4096 in
  morecore fuel h n = Some (h, 0) ∨
  ∃ h0 l0, morecore fuel h n = Some (h0, freep h0) ∧ heap_ok base h0 l0 ∧
    brk h0 = brk h + HDR * nu ∧ limit h0 = limit h ∧ (length l0 ≤ length l + 1)%nat ∧
    (∃ s, s ∈ l0.*2 ∧ n ≤ s) ∧
    (∀ y, in_blocks y l0 ↔ in_blocks y l ∨ brk h ≤ y < brk h0) ∧
    (∀ c, ¬ in_blocks c l → c ≠ base → c ≠ brk h → hsize h0 c = hsize h c).
Proof.
  intros Hok Hn Hmax Hf nu. unfold morecore.
  replace (if n <? 4096 then 4096 else n) with nu by (unfold nu; destruct (Z.ltb_spec n 4096); lia).
  rewrite s32_small by (unfold nu, HDR in *; lia). unfold sbrk.
  pose proof Hok as [[Hb0 Hs0] Hc Ha [Hbrk Hlim] Hfp].
  destruct (Z.gtb_spec (brk h + nu * HDR) (limit h)) as [|Hle]; [by left|].
  destruct (Z.eqb_spec (brk h) (-1)); [unfold HDR in *; lia|]. right.
  set (h1 := set_hsize (brk h) nu (set_brk (brk h + nu * HDR) h)).
  assert (∀ c, c ∈ base :: l.*1 → c < brk h) as Hlt.
  { intros c [->|Hin]%elem_of_cons; [unfold HDR in *; lia|]. apply (apart_addr _ _ _ _ Ha Hin). }
  assert (∀ c, c ≠ brk h → hsize h1 c = hsize h c) as Heq by (intros c Hne; simpl; by rewrite fset_ne).
  assert (heap_ok base h1 l) as Hok1.
  { split; simpl; try done.
    - split; [done|]. rewrite fset_ne; [done|]. pose proof (Hlt base ltac:(set_solver)). lia.
    - revert Hc. apply chain_ext; [done|]. intros c Hin. apply Heq. pose proof (Hlt c ltac:(set_solver)). lia.
    - eapply apart_le_hi; [done|]. unfold HDR, nu in *. lia.
    - unfold HDR, nu in *. lia. }
  destruct (free_freed base h1 l fuel (brk h) nu Hok1) as (h0 & l0 & E & [Hok0 Hsp [Eb El] Hlen (s & Hs & Hns) Hoth]).
  - simpl. rewrite fset_eq. apply u32_small. unfold nu, HDR in *. lia.
  - unfold nu. lia.
  - lia.
  - simpl. unfold HDR. lia.
  - intros y Hy Hin. pose proof (in_blocks_bound _ _ _ _ Ha Hin). lia.
  - done.
  - exists h0, l0. rewrite E. simpl in Eb, El. split_and!; try done.
    + rewrite Eb. unfold HDR. lia.
    + exists s. split; [done|]. unfold nu in *. lia.
    + intros y. rewrite Hsp, Eb. unfold HDR. by replace (brk h + nu * 16) with (brk h + 16 * nu) by lia.
    + intros c Hnc Hcb Hcr. rewrite Hoth, Heq; [done|done| |done].
      intros [->|Hin]%elem_of_cons; [done|]. apply Hnc. by eapply node_in_blocks.
Qed.

Lemma malloc_loop_spec base h l fuel n :
  heap_ok base h l → 0 < n → n * HDR < 2 ^ 31 → (2 * length l + 6 ≤ fuel)%nat →
  malloc_loop fuel h n (freep h) (hptr h (freep h)) = Some (h, 0) ∨
  ∃ h' l' b, malloc_loop fuel h n (freep h) (hptr h (freep h)) = Some (h', b + HDR) ∧
    allocated base h l n b h' l'.
Proof.
  intros Hok Hn Hmax Hf. pose proof (ho_freep _ _ _ Hok) as Hfp.
  destruct (rotate base h l (freep h) Hok Hfp) as (ws & Hc & Hlw & _ & Hin & Hz).
  destruct (malloc_walk base h l fuel n (freep h) ws (freep h)) as [(h' & l' & b & E & Ht)|(q' & k & _ & Hsz & Hk & E)];
    try done; [|lia| |].
  { intros c [->|Hc']%elem_of_cons; [done|by apply Hin]. }
  { right. exists h', l', b. split; [done|]. by apply taken_allocated. }
  rewrite E. cbn [malloc_loop]. destruct (Z.geb_spec (hsize h (freep h)) n); [lia|]. rewrite Z.eqb_refl.
  destruct (morecore_spec base h l k n Hok Hn Hmax ltac:(lia)) as [->|(h0 & l0 & -> & Hok0 & Eb & El & Hl0 & (s & Hs & Hns) & Hsp & Hoth)];
    [by left|]. cbn [mbind option_bind]. right.
  pose proof (ho_freep _ _ _ Hok0) as Hfp0. pose proof Hok0 as [[Hb0 Hs0] _ Ha0 _ _].
  destruct (Z.eqb_spec (freep h0) 0) as [E0|_].
  { rewrite E0 in Hfp0. apply elem_of_cons in Hfp0 as [?|Hin0]; [lia|].
    pose proof (apart_addr _ _ _ _ Ha0 Hin0). unfold HDR in *. lia. }
  destruct (rotate base h0 l0 (freep h0) Hok0 Hfp0) as (ws0 & Hc0 & Hlw0 & Hall & Hin0 & Hz0).
  destruct (malloc_walk base h0 l0 k n (freep h0) ws0 (freep h0)) as [(h' & l' & b & E' & Ht)|(q2 & k2 & Hsm & Hsz2 & _ & _)];
    try done; [|lia| |].
  { intros c [->|Hc']%elem_of_cons; [done|by apply Hin0]. }
  - exists h', l', b. split; [done|].
    destruct (taken_allocated _ _ _ _ _ _ _ Ht) as [Hok' Hsz' Hsp' Hdis [Hbr Hli] Hr Hlen Hoth'].
    pose proof (ho_apart _ _ _ Hok) as Ha. destruct (tk_brk _ _ _ _ _ _ _ Ht) as [Ebk _].
    split; try done.
    + intros y. rewrite Hsp', Hsp, Ebk. unfold HDR in *. intuition lia.
    + unfold HDR in *. split; [lia|congruence].
    + pose proof (tk_length _ _ _ _ _ _ _ Ht). lia.
    + intros c Hnc Hcb Hcr. rewrite Hoth', Hoth; try done; [lia| |unfold HDR in *; lia].
      rewrite Hsp. intros [?|?]; [done|lia].
  - exfalso. apply list_elem_of_fmap in Hs as ([c s'] & -> & Hcs). simpl in Hns.
    destruct (Hall c s' Hcs) as [->|Hw].
    + pose proof (ho_chain _ _ _ Hok0) as Hch. apply list_elem_of_split in Hcs as (la & lb & ->).
      apply chain_app in Hch as [_ (_ & Ec & _)]. lia.
    + rewrite Forall_forall in Hsm. specialize (Hsm _ Hw). simpl in Hsm. lia.
Qed.

(** ** Fuel *)

Lemma free_find_mono k k' h bp p r : (k ≤ k')%nat → free_find k h bp p = Some r → free_find k' h bp p = Some r.
Proof.
  revert k' p. induction k as [|k IH]; intros [|k'] p Hk; try done; [lia|]. cbn [free_find].
  repeat case_match; try done. apply IH. lia.
Qed.

Lemma free_mono k k' h ap h' : (k ≤ k')%nat → free k h ap = Some h' → free k' h ap = Some h'.
Proof.
  intros Hk. unfold free. destruct (free_find k h (ap - HDR) (freep h)) as [p|] eqn:E; [|done].
  by rewrite (free_find_mono k k' _ _ _ _ Hk E).
Qed.

Lemma morecore_mono k k' h n r : (k ≤ k')%nat → morecore k h n = Some r → morecore k' h n = Some r.
Proof.
  intros Hk. unfold morecore. destruct (sbrk _ h) as [h1 p]. case_match; [done|].
  destruct (free k _ (p + HDR)) as [h2|] eqn:E; [|done]. by rewrite (free_mono k k' _ _ _ Hk E).
Qed.

Lemma malloc_loop_mono k k' h n q p r :
  (k ≤ k')%nat → malloc_loop k h n q p = Some r → malloc_loop k' h n q p = Some r.
Proof.
  revert k' h q p. induction k as [|k IH]; intros [|k'] h q p Hk; try done; [lia|]. cbn [malloc_loop].
  repeat case_match; try done; [|apply IH; lia].
  destruct (morecore k h n) as [[h1 p1]|] eqn:E; [|done]. rewrite (morecore_mono k k' _ _ _ ltac:(lia) E).
  cbn [mbind option_bind]. case_match; [done|]. apply IH. lia.
Qed.

(** ** Programs *)

(** The payload of a block, which belongs to the program. *)
Definition in_payload (c : Z) (live : list (Z * Z)) : Prop :=
  ∃ b n, (b, n) ∈ live ∧ b + HDR ≤ c < b + HDR * n.

(** A program that calls [malloc] and [free], writes to its blocks and calls
    [sbrk]; [live] are the blocks (header and units) it has. *)
Inductive program (base : Z) : heap → list (Z * Z) → Prop :=
  | p_start h :
      0 < base → freep h = 0 → base + HDR ≤ brk h ≤ limit h → limit h < 2 ^ 35 → program base h []
  | p_malloc h live fuel nbytes h' ap :
      program base h live → 0 ≤ nbytes < 2 ^ 30 → malloc base fuel h nbytes = Some (h', ap) →
      program base h' (if ap =? 0 then live else (ap - HDR, units nbytes) :: live)
  | p_free h l1 b n l2 fuel h' :
      program base h (l1 ++ (b, n) :: l2) → free fuel h (b + HDR) = Some h' → program base h' (l1 ++ l2)
  | p_write h live h' :
      program base h live → freep h' = freep h → brk h' = brk h → limit h' = limit h →
      (∀ c, ¬ in_payload c live → hptr h' c = hptr h c ∧ hsize h' c = hsize h c) → program base h' live
  | p_sbrk h live n :
      program base h live → 0 ≤ n → brk h + n ≤ limit h → program base (set_brk (brk h + n) h) live.

(** The blocks of a program: inside the heap, apart from each other and from
    the free list [l]. *)
Record live_ok (base : Z) (h : heap) (l live : list (Z * Z)) : Prop := {
  lo_block b n : (b, n) ∈ live → 0 < n ∧ hsize h b = n ∧ base + HDR ≤ b ∧ b + HDR * n ≤ brk h;
  lo_free y b : b ∈ live → in_block y b → ¬ in_blocks y l;
  lo_pair y i j bi bj : live !! i = Some bi → live !! j = Some bj → i ≠ j → in_block y bi → ¬ in_block y bj
}.

Definition program_ok (base : Z) (h : heap) (live : list (Z * Z)) : Prop :=
  ∃ l, live_ok base h l live ∧
    (heap_ok base h l ∨
     (l = [] ∧ live = [] ∧ 0 < base ∧ freep h = 0 ∧ base + HDR ≤ brk h ≤ limit h ∧ limit h < 2 ^ 35)).

Lemma units_bounds nbytes : 0 ≤ nbytes < 2 ^ 30 →
  0 < units nbytes ∧ units nbytes * HDR < 2 ^ 31 ∧ nbytes ≤ HDR * (units nbytes - 1).
Proof.
  intros Hn. unfold units, HDR. rewrite u32_small by dlia. dlia.
Qed.

(** The first call makes the empty list. *)
Lemma malloc_unfold base h l fuel nbytes :
  heap_ok base h l →
  malloc base fuel h nbytes = malloc_loop fuel h (units nbytes) (freep h) (hptr h (freep h)).
Proof.
  intros [[Hb0 _] _ Ha _ Hfp]. unfold malloc. destruct (Z.eqb_spec (freep h) 0) as [E|_]; [|done].
  rewrite E in Hfp. apply elem_of_cons in Hfp as [?|Hin]; [lia|].
  pose proof (apart_addr _ _ _ _ Ha Hin). unfold HDR in *. lia.
Qed.

Lemma malloc_init base h nbytes :
  0 < base → freep h = 0 → base + HDR ≤ brk h ≤ limit h → limit h < 2 ^ 35 →
  ∃ h0, heap_ok base h0 [] ∧ brk h0 = brk h ∧ limit h0 = limit h ∧
    ∀ fuel, malloc base fuel h nbytes = malloc base fuel h0 nbytes.
Proof.
  intros Hb Hf Hbrk Hlim. set (h0 := set_hsize base 0 (set_freep base (set_ptr base base h))).
  assert (heap_ok base h0 []) as Hok.
  { split; simpl; try done; [by rewrite fset_eq|by rewrite fset_eq|unfold HDR in *; lia|set_solver]. }
  exists h0. split_and!; [done|done|done|]. intros fuel. rewrite (malloc_unfold base h0 [] fuel nbytes Hok).
  unfold malloc. by rewrite Hf.
Qed.

(** What [malloc] does in any state of a program. *)
Lemma malloc_spec base h l nbytes :
  heap_ok base h l → 0 ≤ nbytes < 2 ^ 30 →
  ∃ fuel, malloc base fuel h nbytes = Some (h, 0) ∨
  ∃ h' l' b, malloc base fuel h nbytes = Some (h', b + HDR) ∧ allocated base h l (units nbytes) b h' l'.
Proof.
  intros Hok Hn. destruct (units_bounds _ Hn) as (H1 & H2 & _). exists (2 * length l + 6)%nat.
  rewrite (malloc_unfold base h l _ _ Hok). by apply malloc_loop_spec.
Qed.

Lemma live_allocated base h l live n b h' l' :
  live_ok base h l live → (live = [] ∨ heap_ok base h l) → 0 < n → allocated base h l n b h' l' →
  live_ok base h' l' ((b, n) :: live).
Proof.
  intros [Hblk Hfr Hpr] Hl Hn [Hok Hsz Hsp Hdis [Hbr Hli] Hr Hlen Hoth].
  assert (∀ y c, c ∈ live → in_block y c → ¬ in_blocks y l' ∧ ¬ (b ≤ y < b + HDR * n)) as Hnew.
  { intros y [c m] Hin Hy. pose proof (Hfr y _ Hin Hy) as Hnf. destruct (Hblk _ _ Hin) as (? & _ & _ & ?).
    unfold in_block in Hy. simpl in Hy. specialize (Hsp y). split; intros Hc; apply Hnf;
      (destruct (proj1 Hsp) as [?|?]; [tauto|done|unfold HDR in *; lia]). }
  split.
  - intros c m [[= -> ->]|Hin]%elem_of_cons; [unfold HDR in *; split_and!; (lia || done)|].
    destruct (Hblk _ _ Hin) as (? & E & ? & ?). split_and!; [done| |done|lia].
    rewrite Hoth; [done| |unfold HDR in *; lia|unfold HDR in *; lia].
    apply (Hfr c (c, m) Hin). unfold in_block, HDR. simpl. lia.
  - intros y c [->|Hin]%elem_of_cons Hy; [by apply Hdis|]. by destruct (Hnew y c Hin Hy).
  - intros y [|i] [|j] bi bj Hi Hj Hne Hyi Hyj; simplify_eq/=.
    + destruct (Hnew y bj) as [_ Hn2]; [by eapply list_elem_of_lookup_2|done|]. done.
    + destruct (Hnew y bi) as [_ Hn2]; [by eapply list_elem_of_lookup_2|done|]. done.
    + eapply (Hpr y i j); eauto.
Qed.

Lemma live_remove base h l l1 b n l2 h' l' :
  live_ok base h l (l1 ++ (b, n) :: l2) → heap_ok base h l → freed base h l b n h' l' →
  live_ok base h' l' (l1 ++ l2).
Proof.
  intros [Hblk Hfr Hpr] Hok [Hok' Hsp [Eb El] Hlen _ Hoth].
  assert (∀ y c, c ∈ l1 ++ l2 → in_block y c → ¬ (b ≤ y < b + HDR * n)) as Hoff.
  { intros y c Hin Hy Hb. apply list_elem_of_lookup in Hin as [i Hi].
    assert ((l1 ++ (b, n) :: l2) !! length l1 = Some (b, n)) as Hm by (by rewrite lookup_app_r, Nat.sub_diag by lia).
    destruct (decide (i < length l1)%nat).
    - rewrite lookup_app_l in Hi by done.
      apply (Hpr y i (length l1) c (b, n)); [by rewrite lookup_app_l|done|lia|done|done].
    - rewrite lookup_app_r in Hi by lia.
      apply (Hpr y (S i) (length l1) c (b, n)); [|done|lia|done|done].
      rewrite lookup_app_r by lia. replace (S i - length l1)%nat with (S (i - length l1)) by lia. done. }
  split.
  - intros c m Hin. destruct (Hblk c m) as (? & E & ? & ?); [set_solver|]. rewrite Eb. split_and!; try done.
    assert (in_block c (c, m)) as Hcc by (unfold in_block, HDR; simpl; lia).
    rewrite Hoth; [done| |].
    + intros [->|Hc]%elem_of_cons; [unfold HDR in *; lia|].
      apply (Hfr c (c, m)); [set_solver|done|]. eapply node_in_blocks; [apply (ho_apart _ _ _ Hok)|done].
    + intros ->. apply (Hoff b (b, m)); [done|done|]. destruct (Hblk b n) as (? & _ & _); [set_solver|]. unfold HDR. lia.
  - intros y c Hin Hy. rewrite Hsp. intros [Hy'|Hy']; [|by eapply Hoff]. apply (Hfr y c); [set_solver|done|done].
  - intros y i j bi bj Hi Hj Hne.
    set (f := λ i : nat, if decide (i < length l1)%nat then i else S i).
    assert (∀ i c, (l1 ++ l2) !! i = Some c → (l1 ++ (b, n) :: l2) !! f i = Some c) as Hf.
    { intros k c. unfold f. case_decide.
      - by rewrite !lookup_app_l by done.
      - rewrite !lookup_app_r by lia. by replace (S k - length l1)%nat with (S (k - length l1)) by lia. }
    apply (Hpr y (f i) (f j)); [by apply Hf|by apply Hf|]. unfold f. repeat case_decide; lia.
Qed.

Lemma malloc_mono base k k' h nbytes r :
  (k ≤ k')%nat → malloc base k h nbytes = Some r → malloc base k' h nbytes = Some r.
Proof. intros Hk. unfold malloc. by apply malloc_loop_mono. Qed.

Lemma payload_off base h l live c :
  live_ok base h l live → in_payload c live → base < c ∧ ¬ in_blocks c l ∧ c ∉ live.*1.
Proof.
  intros [Hblk Hfr Hpr] (b & n & Hin & Hc). destruct (Hblk _ _ Hin) as (? & _ & ? & _).
  assert (in_block c (b, n)) as Hcb by (unfold in_block, HDR in *; simpl; lia).
  split_and!; [unfold HDR in *; lia|by eapply Hfr|].
  intros ([d m] & -> & Hd)%list_elem_of_fmap. simpl in *.
  destruct (Hblk _ _ Hd) as (? & _ & _).
  apply list_elem_of_lookup in Hin as [i Hi]. apply list_elem_of_lookup in Hd as [j Hj].
  destruct (decide (i = j)) as [->|Hne]; [simplify_eq; unfold HDR in *; lia|].
  apply (Hpr d i j _ _ Hi Hj Hne Hcb). unfold in_block, HDR. simpl. lia.
Qed.

Lemma program_ok_write base h live h' :
  program_ok base h live → freep h' = freep h → brk h' = brk h → limit h' = limit h →
  (∀ c, ¬ in_payload c live → hptr h' c = hptr h c ∧ hsize h' c = hsize h c) → program_ok base h' live.
Proof.
  intros (l & Hlo & Hh) Ef Eb El Heq. exists l. pose proof Hlo as [Hblk Hfr Hpr]. split.
  - split; [|done|done]. intros b n Hin. destruct (Hblk b n Hin) as (? & E & ? & ?). rewrite Eb. split_and!; try done.
    rewrite (proj2 (Heq b ltac:(intros Hc; destruct (payload_off _ _ _ _ _ Hlo Hc) as (_ & _ & Hn); apply Hn;
      apply list_elem_of_fmap; by exists (b, n)))). done.
  - destruct Hh as [Hok|(-> & -> & ? & ? & ? & ?)].
    2: { right. rewrite Ef, Eb, El. done. }
    left. destruct Hok as [[Hb0 Hs0] Hc Ha Hbr Hfp].
    assert (∀ c, c ∈ base :: l.*1 → ¬ in_payload c live) as Hoff.
    { intros c Hin Hp. destruct (payload_off _ _ _ _ _ Hlo Hp) as (? & Hnb & _).
      apply elem_of_cons in Hin as [->|Hin]; [lia|]. apply Hnb. by eapply node_in_blocks. }
    split; rewrite ?Ef, ?Eb, ?El; try done.
    + split; [done|]. rewrite (proj2 (Heq base (Hoff base ltac:(set_solver)))). done.
    + revert Hc. apply chain_ext; intros c Hin; apply Heq, Hoff; [done|set_solver].
Qed.

(** In every state of a program its blocks are disjoint. *)
Lemma program_invariant base h live : program base h live → program_ok base h live.
Proof.
  induction 1 as [h Hb Hf Hbrk Hlim|h live fuel nbytes h' ap _ IH Hn Em|h l1 b n l2 fuel h' _ IH Ef
    |h live h' _ IH Ef Eb El Heq|h live n _ IH Hn Hle].
  - exists []. split; [split; set_solver|]. right. done.
  - destruct IH as (l & Hlo & Hh). destruct (units_bounds _ Hn) as (Hu & _).
    assert (∃ h0, heap_ok base h0 l ∧ (live = [] ∨ heap_ok base h l) ∧ live_ok base h0 l live ∧
      malloc base fuel h nbytes = malloc base fuel h0 nbytes) as (h0 & Hok0 & Hl & Hlo0 & E0).
    { destruct Hh as [Hok|(-> & -> & Hb & Hf & Hbrk & Hlim)]; [by exists h; auto|].
      destruct (malloc_init base h nbytes Hb Hf Hbrk Hlim) as (h0 & Hok0 & _ & _ & E). exists h0.
      split_and!; [done|by left|split; set_solver|done]. }
    rewrite E0 in Em. destruct (malloc_spec base h0 l nbytes Hok0 Hn) as (k & Hs).
    apply (malloc_mono base _ (max fuel k)) in Em; [|lia].
    destruct Hs as [Hs|(h2 & l2 & b & Hs & Ha)]; apply (malloc_mono base _ (max fuel k)) in Hs; try lia;
      rewrite Em in Hs; simplify_eq.
    + rewrite Z.eqb_refl. exists l. auto.
    + destruct (al_range _ _ _ _ _ _ _ Ha) as [Hr _]. destruct (ho_base _ _ _ Hok0) as [Hb _].
      destruct (Z.eqb_spec (b + HDR) 0); [unfold HDR in *; lia|]. replace (b + HDR - HDR) with b by lia.
      exists l2. split; [|left; apply (al_ok _ _ _ _ _ _ _ Ha)].
      eapply (live_allocated base h0 l); [done|by right|done|done].
  - destruct IH as (l & Hlo & Hh). assert (heap_ok base h l) as Hok.
    { destruct Hh as [?|(_ & E & _)]; [done|]. by destruct l1. }
    destruct (lo_block _ _ _ _ Hlo b n) as (Hn & Es & Hb & He); [set_solver|].
    destruct (free_freed base h l (length l + 2) b n Hok Es Hn Hb He) as (h2 & l' & E & Hfd); [|lia|].
    { intros y Hy. apply (lo_free _ _ _ _ Hlo y (b, n)); [set_solver|done]. }
    apply (free_mono _ (max fuel (length l + 2))) in Ef; [|lia].
    apply (free_mono _ (max fuel (length l + 2))) in E; [|lia]. rewrite Ef in E. simplify_eq.
    exists l'. split; [by eapply live_remove|]. left. apply (fd_ok _ _ _ _ _ _ _ Hfd).
  - by eapply program_ok_write.
  - destruct IH as (l & [Hblk Hfr Hpr] & Hh). exists l. split.
    + split; [|done|done]. intros b m Hin. destruct (Hblk b m Hin) as (? & ? & ? & ?). simpl. split_and!; try done. lia.
    + destruct Hh as [[Hb Hc Ha Hbr Hfp]|(-> & -> & ? & ? & ? & ?)]; [left|right; simpl; split_and!; try done; lia].
      split; simpl; try done; [by apply (chain_ext h)|eapply apart_le_hi; [done|lia]|lia].
Qed.

(** The break moves by one header. *)
Lemma morecore_wraps base h :
  0 < base → freep h = base → hptr h base = base → hsize h base = 0 →
  base + HDR ≤ brk h → brk h + HDR ≤ limit h →
  ∃ h', morecore 2 h (2 ^ 28 + 1) = Some (h', base) ∧ hptr h' base = brk h ∧ hsize h' (brk h) = 2 ^ 28 + 1 ∧
    brk h' = brk h + HDR ∧ hptr h' (brk h) = base.
Proof.
  intros Hb Hf Hp Hs Hbrk Hlim. unfold morecore.
  change (if 2 ^ 28 + 1 <? 4096 then 4096 else 2 ^ 28 + 1) with (2 ^ 28 + 1).
  change (s32 ((2 ^ 28 + 1) * HDR)) with HDR. unfold sbrk.
  destruct (Z.gtb_spec (brk h + HDR) (limit h)); [lia|].
  destruct (Z.eqb_spec (brk h) (-1)); [unfold HDR in *; lia|].
  set (h1 := set_hsize (brk h) (2 ^ 28 + 1) _).
  assert (hsize h1 (brk h) = 2 ^ 28 + 1 ∧ hsize h1 base = 0) as [S1 S2].
  { simpl. rewrite fset_eq, fset_ne by (unfold HDR in *; lia). done. }
  assert (freep h1 = base ∧ hptr h1 base = base ∧ brk h1 = brk h + HDR) as (F1 & F2 & F3) by done.
  clearbody h1. unfold free. replace (brk h + HDR - HDR) with (brk h) by lia. cbn [free_find].
  rewrite F1, F2. destruct (Z.gtb_spec (brk h) base); [|unfold HDR in *; lia].
  destruct (Z.ltb_spec (brk h) base); [lia|]. destruct (Z.geb_spec base base); [|lia].
  cbn [andb orb mbind option_bind]. rewrite F2, S1.
  destruct (Z.eqb_spec (brk h + HDR * (2 ^ 28 + 1)) base); [unfold HDR in *; lia|].
  change (hsize (set_ptr ?a ?b ?c)) with (hsize c). rewrite S2.
  destruct (Z.eqb_spec (base + HDR * 0) (brk h)); [unfold HDR in *; lia|].
  eexists. split; [reflexivity|]. simpl. rewrite !fset_eq. rewrite fset_ne by (unfold HDR in *; lia).
  rewrite fset_eq. done.
Qed.

Lemma malloc_loop_grow fuel h n q p :
  hsize h p < n → freep h = p →
  malloc_loop (S fuel) h n q p =
    ('(h, p) ← morecore fuel h n; if p =? 0 then Some (h, 0) else malloc_loop fuel h n p (hptr h p)).
Proof.
  intros Hs Ef. cbn [malloc_loop]. destruct (Z.geb_spec (hsize h p) n); [lia|].
  by rewrite Ef, Z.eqb_refl.
Qed.

(** * Claims *)

(** C24: blocks from [malloc] never overlap. In every state that a program
    reaches by calls of [malloc] and [free] (of blocks it has), writes to its
    blocks and calls of [sbrk]: every block it has lies in the heap and has room
    for the bytes asked for, two of them share no byte, and [malloc] of up to
    2^30 bytes and [free] of any of them terminate. *)
Theorem malloc_blocks_disjoint base h live :
  program base h live →
  (∀ b n, (b, n) ∈ live → 0 < n ∧ hsize h b = n ∧ base + HDR ≤ b ∧ b + HDR * n ≤ brk h) ∧
  (∀ y i j bi bj, live !! i = Some bi → live !! j = Some bj → i ≠ j → in_block y bi → ¬ in_block y bj) ∧
  (∀ nbytes, 0 ≤ nbytes < 2 ^ 30 → nbytes ≤ HDR * (units nbytes - 1) ∧
     ∃ fuel r, malloc base fuel h nbytes = Some r) ∧
  (∀ b n, (b, n) ∈ live → ∃ fuel h', free fuel h (b + HDR) = Some h').
Proof.
  intros (l & Hlo & Hh)%program_invariant. split_and!.
  - apply (lo_block _ _ _ _ Hlo).
  - apply (lo_pair _ _ _ _ Hlo).
  - intros nbytes Hn. split; [by apply units_bounds|].
    destruct Hh as [Hok|(_ & _ & Hb & Hf & Hbrk & Hlim)].
    + destruct (malloc_spec base h l nbytes Hok Hn) as (k & [E|(h' & l' & b & E & _)]); eauto.
    + destruct (malloc_init base h nbytes Hb Hf Hbrk Hlim) as (h0 & Hok0 & _ & _ & E).
      destruct (malloc_spec base h0 [] nbytes Hok0 Hn) as (k & Hs). exists k. rewrite E.
      destruct Hs as [Hs|(h' & l' & b & Hs & _)]; eauto.
  - intros b n Hin. destruct Hh as [Hok|(_ & -> & _)]; [|by apply elem_of_nil in Hin].
    destruct (lo_block _ _ _ _ Hlo b n Hin) as (Hn & Es & Hb & He).
    destruct (free_freed base h l (length l + 2) b n Hok Es Hn Hb He) as (h2 & l' & E & _); [|lia|eauto].
    intros y Hy. by apply (lo_free _ _ _ _ Hlo y (b, n)).
Qed.

(** [malloc] of 2^32 - 1 bytes hands out memory that does not exist. The
    size in bytes that [morecore] passes to [sbrk] wraps to 16, so that the heap
    grows by one header while the block claims 2^28 + 1 of them: the call
    succeeds and the block reaches far beyond the break. *)
Theorem malloc_request_wraps base h :
  0 < base → freep h = 0 → base + HDR ≤ brk h → brk h + HDR ≤ limit h →
  ∃ h', malloc base 3 h (2 ^ 32 - 1) = Some (h', brk h + HDR) ∧ brk h' = brk h + HDR ∧
    hsize h' (brk h) = 2 ^ 28 + 1 ∧ brk h' < brk h + HDR * hsize h' (brk h).
Proof.
  intros Hb Hf Hbrk Hlim. unfold malloc. rewrite Hf, Z.eqb_refl. change (units (2 ^ 32 - 1)) with (2 ^ 28 + 1).
  set (h0 := set_hsize base 0 _).
  assert (freep h0 = base ∧ hptr h0 base = base ∧ hsize h0 base = 0) as (E1 & E2 & E3)
    by (simpl; by rewrite !fset_eq).
  destruct (morecore_wraps base h0) as (h2 & E & P1 & P2 & P3 & P4); try done; [simpl; lia..|].
  rewrite E1, E2. change (brk h) with (brk h0) in *. clearbody h0.
  rewrite (malloc_loop_grow _ _ _ _ base) by (rewrite ?E3; done || lia).
  rewrite E. cbn [mbind option_bind]. destruct (Z.eqb_spec base 0); [lia|].
  cbn [malloc_loop]. rewrite P1, P2, Z.eqb_refl. destruct (Z.geb_spec (2 ^ 28 + 1) (2 ^ 28 + 1)); [|lia].
  eexists. split; [reflexivity|]. simpl. rewrite P2, P3. unfold HDR. split_and!; lia.
Qed.

(** A program that asks for 100 bytes and then for 10. *)
Definition ex_heap : heap := Heap (λ _, 0) (λ _, 0) 0 16384 1000000.
Definition ex_run : option (heap * Z * Z) :=
  '(h1, a) ← malloc 4096 10 ex_heap 100;
  '(h2, b) ← malloc 4096 10 h1 10;
  Some (h2, a, b).

Lemma malloc_blocks_disjoint_witness :
  ∃ h, program 4096 h [(81760, 2); (81792, 8)] ∧
    ∀ y, in_block y (81760, 2) → ¬ in_block y (81792, 8).
Proof.
  assert (∃ h, program 4096 h [(81760, 2); (81792, 8)]) as [h Hp].
  { destruct (malloc 4096 10 ex_heap 100) as [[h1 a]|] eqn:E1; [|vm_compute in E1; discriminate].
    assert (a = 81808) as -> by (apply (f_equal (option_map snd)) in E1; vm_compute in E1; congruence).
    destruct (malloc 4096 10 h1 10) as [[h2 b]|] eqn:E2.
    - assert (b = 81776) as ->.
      { assert (ex_run = Some (h2, 81808, b)) as E by (unfold ex_run; rewrite E1; cbn [mbind option_bind]; by rewrite E2).
        apply (f_equal (option_map snd)) in E. vm_compute in E. congruence. }
      exists h2. eapply (p_malloc 4096 h1 [(81792, 8)] 10 10 h2 81776); [|lia|exact E2].
      eapply (p_malloc 4096 ex_heap [] 10 100 h1 81808); [|lia|exact E1].
      apply p_start; [lia|reflexivity|simpl; unfold HDR; lia|simpl; lia].
    - assert (ex_run = None) as E by (unfold ex_run; rewrite E1; cbn [mbind option_bind]; by rewrite E2).
      apply (f_equal (λ o : option (heap * Z * Z), bool_decide (is_Some o))) in E. vm_compute in E. discriminate. }
  exists h. split; [exact Hp|]. intros y.
  destruct (malloc_blocks_disjoint 4096 h _ Hp) as (_ & Hd & _).
  apply (Hd y 0%nat 1%nat); [reflexivity|reflexivity|lia].
Defined.

Lemma malloc_request_wraps_witness :
  ∃ h', malloc 4096 3 ex_heap (2 ^ 32 - 1) = Some (h', 16400) ∧ brk h' = 16400.
Proof.
  destruct (malloc_request_wraps 4096 ex_heap) as (h' & E & Eb & _);
    [lia|reflexivity|simpl; unfold HDR; lia|simpl; unfold HDR; lia|].
  exists h'. split; [exact E|exact Eb].
Defined.
