(* ===== verification/Pipe.v ===== *)
(** * kernel/pipe.c: the data of a pipe

    The ring buffer and its two free-running counters, which wrap at 2^32.  A
    call of [pipewrite] or [piperead] holds the pipe's lock except while it
    sleeps, so a call is a sequence of atomic runs: each run ends with the
    return of the call or with a sleep, from which the call goes on at the same
    index.  User memory is a function: [src i] is the byte at [addr + i] or a
    fault, [dst i] tells whether a byte can be stored at [addr + i]. *)

From S2P Require Import Prelude Machine.

Definition PIPESIZE : Z := 512.

Record pipe := Pipe {
  pdata : Z → Z;
  nread : Z;
  nwrite : Z;
  readopen : bool;
  writeopen : bool
}.

(** How a run ends. *)
Inductive run_end : Type :=
  | Returns (r : Z)
  | Sleeps (i : Z).

Definition pipe_full (pi : pipe) : bool := nwrite pi =? u32 (nread pi + PIPESIZE).
Definition pipe_empty (pi : pipe) : bool := nread pi =? nwrite pi.

(** [pi->data[pi->nwrite++ % PIPESIZE] = ch] and
    [pi->data[pi->nread++ % PIPESIZE]]. *)
Definition push (ch : Z) (pi : pipe) : pipe :=
  Pipe (fset (pdata pi) (nwrite pi `mod` PIPESIZE) ch) (nread pi) (u32 (nwrite pi + 1)) (readopen pi) (writeopen pi).
Definition front (pi : pipe) : Z := pdata pi (nread pi `mod` PIPESIZE).
Definition pop (pi : pipe) : pipe :=
  Pipe (pdata pi) (u32 (nread pi + 1)) (nwrite pi) (readopen pi) (writeopen pi).

(** The initial state that [pipealloc] gives a page. *)
Definition pipe_init (data : Z → Z) : pipe := Pipe data 0 0 true true.

(** [pipewrite] from index [i] on with [k] bytes to go: the run up to the
    return or the next sleep. *)
Fixpoint pipewrite_loop (k : nat) (src : Z → option Z) (killed : bool) (pi : pipe) (i : Z)
    : pipe * run_end :=
  match k with
  | O => (pi, Returns i)
  | S k' =>
      if pipe_full pi then
        if negb (readopen pi) || killed then (pi, Returns (-1)) else (pi, Sleeps i)
      else
        match src i with
        | None => (pi, Returns i)
        | Some ch => pipewrite_loop k' src killed (push ch pi) (i + 1)
        end
  end.

Definition pipewrite (src : Z → option Z) (killed : bool) (n : Z) (pi : pipe) (i : Z) : pipe * run_end :=
  pipewrite_loop (Z.to_nat (n - i)) src killed pi i.

(** The copy loop of [piperead]; [acc] are the bytes stored in user memory. *)
Fixpoint piperead_loop (k : nat) (dst : Z → bool) (pi : pipe) (i : Z) (acc : list Z)
    : pipe * Z * list Z :=
  match k with
  | O => (pi, i, acc)
  | S k' =>
      if pipe_empty pi then (pi, i, acc)
      else
        let ch := front pi in
        let pi := pop pi in
        if dst i then piperead_loop k' dst pi (i + 1) (acc ++ [ch]) else (pi, i, acc)
  end.

Definition piperead (dst : Z → bool) (killed : bool) (n : Z) (pi : pipe) : pipe * run_end * list Z :=
  if pipe_empty pi && writeopen pi then
    if killed then (pi, Returns (-1), []) else (pi, Sleeps 0, [])
  else
    let '(pi, i, l) := piperead_loop (Z.to_nat n) dst pi 0 [] in (pi, Returns i, l).

(** [pipeclose]; the page is freed when the result is true. *)
Definition pipeclose (writable : bool) (pi : pipe) : pipe * bool :=
  let pi :=
    if writable then Pipe (pdata pi) (nread pi) (nwrite pi) (readopen pi) false
    else Pipe (pdata pi) (nread pi) (nwrite pi) false (writeopen pi) in
  (pi, negb (readopen pi) && negb (writeopen pi)).

(** ** The queue that a pipe is *)

Definition count (pi : pipe) : Z := u32 (nwrite pi - nread pi).
Definition contents (pi : pipe) : list Z :=
  (λ k, pdata pi ((nread pi + k) `mod` PIPESIZE)) <$> seqZ 0 (count pi).

Record pipe_ok (pi : pipe) : Prop := {
  po_nread : 0 ≤ nread pi < 2 ^ 32;
  po_nwrite : 0 ≤ nwrite pi < 2 ^ 32;
  po_count : count pi ≤ PIPESIZE
}.

(** Runs of calls by any processes, in any order: [ws] are the bytes that
    writers have put in, [rs] what has been taken out: the bytes that [piperead]
    has stored for its callers, and [None] for a byte that it took and did not
    store. *)
Inductive pipe_run : pipe → list Z → list (option Z) → Prop :=
  | run_init data : pipe_run (pipe_init data) [] []
  | run_write pi ws rs src killed n i pi' r :
      pipe_run pi ws rs → 0 ≤ i → pipewrite src killed n pi i = (pi', r) →
      pipe_run pi' (ws ++ omap src (seqZ i (u32 (nwrite pi' - nwrite pi)))) rs
  | run_read pi ws rs dst killed n pi' r l :
      pipe_run pi ws rs → piperead dst killed n pi = (pi', r, l) →
      pipe_run pi' ws (rs ++ (Some <$> l) ++ replicate (Z.to_nat (u32 (nread pi' - nread pi)) - length l) None)
  | run_close pi ws rs writable :
      pipe_run pi ws rs → pipe_run (pipeclose writable pi).1 ws rs.

(** * Lemmas *)

Lemma count_range pi : 0 ≤ count pi < 2 ^ 32.
Proof. apply u32_range. Qed.

Lemma pipe_full_spec pi : pipe_ok pi → pipe_full pi = true ↔ count pi = PIPESIZE.
Proof.
  intros [Hr Hw Hc]. unfold pipe_full, count, u32, PIPESIZE in *. rewrite Z.eqb_eq. dlia.
Qed.

Lemma pipe_empty_spec pi : pipe_ok pi → pipe_empty pi = true ↔ count pi = 0.
Proof.
  intros [Hr Hw Hc]. unfold pipe_empty, count, u32 in *. rewrite Z.eqb_eq. dlia.
Qed.

Lemma length_contents pi : Z.of_nat (length (contents pi)) = count pi.
Proof. unfold contents. rewrite length_fmap, length_seqZ. pose proof (count_range pi). lia. Qed.

(** The indices of the buffer agree with the counters although these wrap. *)
Lemma index_wrap x k : u32 (x + k) `mod` PIPESIZE = (x + k) `mod` PIPESIZE.
Proof. unfold u32, PIPESIZE. dlia. Qed.

Lemma push_spec pi ch : pipe_ok pi → pipe_full pi = false →
  pipe_ok (push ch pi) ∧ contents (push ch pi) = contents pi ++ [ch] ∧ count (push ch pi) = count pi + 1.
Proof.
  intros Hok Hf. pose proof (pipe_full_spec pi Hok) as Hs. rewrite Hf in Hs.
  assert (count pi < PIPESIZE) as Hlt by (pose proof (po_count _ Hok); destruct (decide (count pi = PIPESIZE)); [naive_solver|lia]).
  assert (count (push ch pi) = count pi + 1) as Hc.
  { destruct Hok. unfold count, push, u32, PIPESIZE in *. simpl. dlia. }
  split_and!; [| |done].
  - destruct Hok. split; [done|apply u32_range|lia].
  - unfold contents. rewrite Hc, seqZ_app, fmap_app by (pose proof (count_range pi); lia). f_equal.
    + apply list_fmap_ext. intros i k Hk. apply lookup_seqZ in Hk as [-> Hi].
      unfold push. cbn [pdata nread]. rewrite fset_ne; [done|].
      destruct Hok. unfold count, u32, PIPESIZE in *. dlia.
    + rewrite Z.add_0_l, seqZ_cons, seqZ_nil by lia. cbn [fmap list_fmap]. unfold push. cbn [pdata nread].
      replace ((nread pi + count pi) `mod` PIPESIZE) with (nwrite pi `mod` PIPESIZE);
        [by rewrite fset_eq|].
      destruct Hok. unfold count, u32, PIPESIZE in *. dlia.
Qed.

Lemma pop_spec pi : pipe_ok pi → pipe_empty pi = false →
  pipe_ok (pop pi) ∧ contents pi = front pi :: contents (pop pi) ∧ count pi = count (pop pi) + 1.
Proof.
  intros Hok He. pose proof (pipe_empty_spec pi Hok) as Hs. rewrite He in Hs.
  assert (0 < count pi) as Hlt.
  { pose proof (count_range pi). destruct (decide (count pi = 0)) as [E|]; [|lia].
    by apply Hs in E. }
  assert (count pi = count (pop pi) + 1) as Hc.
  { destruct Hok. unfold count, pop, u32, PIPESIZE in *. simpl. dlia. }
  split_and!; [| |done].
  - pose proof (po_count _ Hok). destruct Hok. split; [apply u32_range|done|lia].
  - unfold contents. rewrite Hc. rewrite seqZ_cons by (pose proof (count_range (pop pi)); lia).
    replace (Z.pred (count (pop pi) + 1)) with (count (pop pi)) by lia. cbn [fmap list_fmap]. f_equal.
    + unfold front. by rewrite Z.add_0_r.
    + change (Z.succ 0) with (1 + 0). rewrite <-(fmap_add_seqZ 1 0), <-list_fmap_compose.
      apply list_fmap_ext. intros i k _. unfold pop. cbn [pdata nread compose].
      replace ((u32 (nread pi + 1) + k) `mod` PIPESIZE) with ((nread pi + (1 + k)) `mod` PIPESIZE)
        by (unfold u32, PIPESIZE; dlia). done.
Qed.

(** What a run of [pipewrite] does: it appends the next [m] bytes. *)
Record wrote (src : Z → option Z) (killed : bool) (k : Z) (i : Z) (pi : pipe) (m : Z) (pi' : pipe) (r : run_end)
    : Prop := {
  wr_ok : pipe_ok pi';
  wr_m : 0 ≤ m ≤ k;
  wr_src j : i ≤ j < i + m → is_Some (src j);
  wr_contents : contents pi' = contents pi ++ omap src (seqZ i m);
  wr_nwrite : u32 (nwrite pi' - nwrite pi) = m;
  wr_same : nread pi' = nread pi ∧ readopen pi' = readopen pi ∧ writeopen pi' = writeopen pi;
  wr_end :
    (r = Returns (i + m) ∧ (m = k ∨ src (i + m) = None)) ∨
    (r = Returns (-1) ∧ m < k ∧ count pi' = PIPESIZE ∧ (readopen pi = false ∨ killed = true)) ∨
    (r = Sleeps (i + m) ∧ m < k ∧ count pi' = PIPESIZE ∧ readopen pi = true ∧ killed = false)
}.

Lemma pipewrite_loop_spec k src killed pi i pi' r :
  pipe_ok pi → pipewrite_loop k src killed pi i = (pi', r) →
  ∃ m, wrote src killed (Z.of_nat k) i pi m pi' r.
Proof.
  revert pi i. induction k as [|k IH]; intros pi i Hok; cbn [pipewrite_loop].
  { intros [= <- <-]. exists 0. split; try done; [lia|by rewrite app_nil_r|by rewrite Z.sub_diag|].
    left. rewrite Z.add_0_r. split; [done|]. left. lia. }
  destruct (pipe_full pi) eqn:Ef.
  - intros E. exists 0. assert (pi' = pi) as -> by (destruct (negb _ || _); congruence).
    pose proof (proj1 (pipe_full_spec pi Hok) Ef) as Hc.
    split; try done; [lia|by rewrite app_nil_r|by rewrite Z.sub_diag|]. rewrite Z.add_0_r. right.
    destruct (readopen pi), killed; simpl in E; simplify_eq; [left|right|left|left];
      (split_and!; [done|lia|done|..]); auto.
  - destruct (src i) as [ch|] eqn:Es.
    + intros E. destruct (push_spec pi ch Hok Ef) as (Hok1 & Hc1 & Hn1).
      destruct (IH _ _ Hok1 E) as (m & [Hok' Hm Hsrc Hcon Hnw (Hnr & Hro & Hwo) Hend]). exists (m + 1). split; try done.
      * lia.
      * intros j Hj. destruct (decide (j = i)) as [->|]; [by eexists|]. apply Hsrc. lia.
      * rewrite Hcon, Hc1, <-app_assoc. f_equal. rewrite (seqZ_cons i) by lia. cbn [omap list_omap]. rewrite Es.
        cbn [app]. do 2 f_equal. f_equal; lia.
      * pose proof (po_count _ Hok'). assert (0 ≤ m ≤ PIPESIZE).
        { split; [lia|]. rewrite <-(length_contents pi') in *. rewrite Hcon, length_app in *.
          assert (length (omap src (seqZ (i + 1) m)) = Z.to_nat m); [|lia].
          clear -Hsrc Hm. rewrite <-(length_seqZ (i + 1) m).
          assert (∀ j, j ∈ seqZ (i + 1) m → is_Some (src j)) as Hall.
          { intros j Hj%elem_of_seqZ. apply Hsrc. lia. }
          induction (seqZ (i + 1) m) as [|j l IH]; [done|]. cbn [omap list_omap].
          destruct (Hall j ltac:(set_solver)) as [b ->]. cbn [length]. rewrite IH; [done|]. set_solver. }
        clear -Hnw H0. unfold push in Hnw. cbn [nwrite] in Hnw. unfold u32, PIPESIZE in *. dlia.
      * replace (i + (m + 1)) with (i + 1 + m) by lia. unfold push in Hend. cbn [readopen] in Hend.
        destruct Hend as [[-> [->|?]]|[(-> & ? & ? & ?)|(-> & ? & ? & ?)]].
        -- left. split; [done|]. left. lia.
        -- left. split; [done|]. by right.
        -- right. left. split_and!; [done|lia|done|done].
        -- right. right. split_and!; [done|lia|done|tauto|tauto].
    + intros [= <- <-]. exists 0. split; try done; [lia|by rewrite app_nil_r|by rewrite Z.sub_diag|].
      left. rewrite Z.add_0_r. auto.
Qed.

(** What a run of [piperead] does: it takes the first [m] bytes. *)
Record took (dst : Z → bool) (i : Z) (k : Z) (pi : pipe) (m : Z) (pi' : pipe) (r : Z) (acc l : list Z) : Prop := {
  tk_ok : pipe_ok pi';
  tk_m : 0 ≤ m ≤ Z.min k (count pi);
  tk_contents : contents pi = take (Z.to_nat m) (contents pi) ++ contents pi';
  tk_nread : u32 (nread pi' - nread pi) = m;
  tk_same : nwrite pi' = nwrite pi ∧ readopen pi' = readopen pi ∧ writeopen pi' = writeopen pi;
  tk_end :
    (r = i + m ∧ l = acc ++ take (Z.to_nat m) (contents pi) ∧ (m = k ∨ contents pi' = [])) ∨
    (r = i + m - 1 ∧ l = acc ++ take (Z.to_nat (m - 1)) (contents pi) ∧ 0 < m ∧ dst r = false)
}.

Lemma contents_nil pi : pipe_ok pi → contents pi = [] ↔ pipe_empty pi = true.
Proof.
  intros Hok. rewrite pipe_empty_spec by done. rewrite <-length_contents. destruct (contents pi); simpl; [done|].
  split; [done|lia].
Qed.

Lemma piperead_loop_spec k dst pi i acc pi' r l :
  pipe_ok pi → piperead_loop k dst pi i acc = (pi', r, l) →
  ∃ m, took dst i (Z.of_nat k) pi m pi' r acc l.
Proof.
  revert pi i acc. induction k as [|k IH]; intros pi i acc Hok; cbn [piperead_loop].
  { intros [= <- <- <-]. exists 0. pose proof (count_range pi). split; try done; [lia|by rewrite Z.sub_diag|].
    left. rewrite app_nil_r. split_and!; [lia|done|left; lia]. }
  pose proof (count_range pi).
  destruct (pipe_empty pi) eqn:Ee.
  { intros [= <- <- <-]. exists 0. split; try done; [lia|by rewrite Z.sub_diag|].
    left. rewrite app_nil_r. split_and!; [lia|done|]. right. by apply contents_nil. }
  destruct (pop_spec pi Hok Ee) as (Hok1 & Hc1 & Hn1). destruct (dst i) eqn:Ed.
  - intros E. destruct (IH _ _ _ Hok1 E) as (m & [Hok' Hm Hcon Hnr (Hnw & Hro & Hwo) Hend]). exists (m + 1).
    assert (Z.to_nat (m + 1) = S (Z.to_nat m)) as Em by lia. pose proof (po_count _ Hok).
    split; try done; rewrite ?Em.
    + lia.
    + rewrite Hc1. cbn [take app]. f_equal. exact Hcon.
    + clear -Hnr Hm Hn1 H0. unfold pop in Hnr. cbn [nread] in Hnr. unfold u32, PIPESIZE in *. dlia.
    + rewrite Hc1. destruct Hend as [(-> & -> & Hx)|(-> & -> & Hp & Hd)].
      * left. cbn [take]. rewrite <-app_assoc. cbn [app]. split_and!; [lia|done|]. destruct Hx; [left; lia|by right].
      * right. replace (Z.to_nat (m + 1 - 1)) with (S (Z.to_nat (m - 1))) by lia. cbn [take]. rewrite <-app_assoc.
        replace (i + (m + 1) - 1) with (i + 1 + m - 1) by lia. split_and!; [done|done|lia|done].
  - intros [= <- <- <-]. exists 1. change (Z.to_nat 1) with 1%nat. split; try done.
    + pose proof (count_range (pop pi)). lia.
    + by rewrite Hc1.
    + unfold pop. cbn [nread]. destruct Hok. unfold u32 in *. dlia.
    + right. change (Z.to_nat (1 - 1)) with 0%nat. rewrite take_0, app_nil_r. replace (i + 1 - 1) with i by lia. split_and!; [done|done|lia|done].
Qed.

(** The bytes of [rs] are those of [bs], except for the ones that were lost. *)
Definition received (rs : list (option Z)) (bs : list Z) : Prop := Forall2 (λ o b, o = None ∨ o = Some b) rs bs.

Lemma received_all bs : received (Some <$> bs) bs.
Proof. induction bs; constructor; auto. Qed.

(** A call of [piperead] takes the first bytes and stores them for its caller; it
    loses at most one, the one at which the memory of the caller faults. *)
Lemma piperead_takes dst killed n pi pi' r l : pipe_ok pi → piperead dst killed n pi = (pi', r, l) →
  ∃ bs, contents pi = bs ++ contents pi' ∧ pipe_ok pi' ∧ Z.of_nat (length bs) = u32 (nread pi' - nread pi) ∧
    (bs = l ∨ ∃ m b, r = Returns m ∧ dst m = false ∧ bs = l ++ [b]).
Proof.
  intros Hok E. unfold piperead in E. destruct (pipe_empty pi && writeopen pi) eqn:Ee.
  { exists []. assert (pi' = pi ∧ l = []) as [-> ->] by (destruct killed; by simplify_eq). rewrite Z.sub_diag. auto. }
  destruct (piperead_loop (Z.to_nat n) dst pi 0 []) as [[pi1 i1] l1] eqn:El. simplify_eq.
  destruct (piperead_loop_spec _ _ _ _ _ _ _ _ Hok El) as (m & [Hok' Hm Hcon Hnr _ Hend]). pose proof (length_contents pi) as Hl.
  exists (take (Z.to_nat m) (contents pi)). split_and!; [done|done|rewrite Hnr, length_take; lia|].
  destruct Hend as [(_ & -> & _)|(Er & -> & Hp & Hd)]; [by left|right].
  destruct (lookup_lt_is_Some_2 (contents pi) (Z.to_nat (m - 1))) as [b Hb]; [lia|].
  exists i1, b. split_and!; [done|done|]. replace (Z.to_nat m) with (S (Z.to_nat (m - 1))) by lia. by apply take_S_r.
Qed.

Lemma pipe_run_ok pi ws rs : pipe_run pi ws rs →
  pipe_ok pi ∧ ∃ bs, ws = bs ++ contents pi ∧ received rs bs.
Proof.
  induction 1 as [data|pi ws rs src killed n i pi' r _ (Hok & bs & IH & Hr) Hi E|pi ws rs dst killed n pi' r l _ (Hok & bs & IH & Hr) E
    |pi ws rs writable _ (Hok & bs & IH & Hr)].
  - split; [split; done|]. exists []. split; [done|constructor].
  - destruct (pipewrite_loop_spec _ _ _ _ _ _ _ Hok E) as (m & [Hok' _ _ Hcon Hnw _ _]).
    split; [done|]. exists bs. split; [|done]. by rewrite Hnw, Hcon, IH, app_assoc.
  - destruct (piperead_takes _ _ _ _ _ _ _ Hok E) as (bs' & Hcon & Hok' & Hlen & Hend). split; [done|].
    exists (bs ++ bs'). split; [by rewrite IH, Hcon, app_assoc|]. apply Forall2_app; [done|].
    assert (Z.to_nat (u32 (nread pi' - nread pi)) = length bs') as -> by lia.
    destruct Hend as [->|(m & b & _ & _ & ->)]; [rewrite Nat.sub_diag, app_nil_r; apply received_all|].
    rewrite length_app, Nat.add_comm. cbn [length Nat.add]. rewrite Nat.sub_succ_l, Nat.sub_diag by done.
    apply Forall2_app; [apply received_all|]. repeat constructor.
  - split; [|exists bs; by destruct writable]. destruct Hok. by destruct writable; split.
Qed.

(** * Claims *)

(** C20: a pipe is a queue. In every run of any calls of [pipewrite],
    [piperead] and [pipeclose] (sleeping, interrupted by faults or kills,
    resumed, in any order), at most 512 bytes are in the pipe, and the bytes
    that writers have put in are, in order, those that [piperead] has stored for
    its callers, followed by the ones still there: no byte is duplicated or
    overtaken, even when the counters wrap around 2^32.  A byte is lost only by a
    call whose memory faults: the next call stores all it takes, or all but the
    last one, at which its memory faults.  A call of [pipewrite] that does not
    fail returns, or sleeps at, the index behind the bytes that it has put in. *)
Theorem pipe_is_fifo pi ws rs :
  pipe_run pi ws rs →
  (∃ bs, ws = bs ++ contents pi ∧ received rs bs) ∧ Z.of_nat (length (contents pi)) ≤ PIPESIZE ∧
  (∀ dst killed n pi' r l, piperead dst killed n pi = (pi', r, l) →
     ∃ bs, contents pi = bs ++ contents pi' ∧ (bs = l ∨ ∃ m b, r = Returns m ∧ dst m = false ∧ bs = l ++ [b])) ∧
  (∀ src killed n i pi' r, pipewrite src killed n pi i = (pi', r) →
     ∃ m, contents pi' = contents pi ++ omap src (seqZ i m) ∧ (r = Returns (i + m) ∨ r = Returns (-1) ∨ r = Sleeps (i + m))).
Proof.
  intros [Hok E]%pipe_run_ok. split_and!; [done|rewrite length_contents; apply (po_count _ Hok)|..].
  - intros dst killed n pi' r l H. destruct (piperead_takes _ _ _ _ _ _ _ Hok H) as (bs & ? & _ & _ & ?). by exists bs.
  - intros src killed n i pi' r H. destruct (pipewrite_loop_spec _ _ _ _ _ _ _ Hok H) as (m & [_ _ _ Hcon _ _ Hend]).
    exists m. split; [done|]. naive_solver.
Qed.

(** When [piperead] and [pipewrite] wait and when they return. A reader
    sleeps only on an empty pipe with an open write end; it returns 0 only at
    end of file or for a fault at its first byte (or if asked for nothing), and
    otherwise delivers the first bytes of the queue, as many as it was asked for
    or as there were. A writer sleeps only on a full pipe with an open read end,
    after having put in all bytes before its index. *)
Theorem pipe_blocking pi :
  pipe_ok pi →
  (∀ dst n pi' r l, piperead dst false n pi = (pi', r, l) →
     (∃ i, r = Sleeps i ∧ pi' = pi ∧ contents pi = [] ∧ writeopen pi = true) ∨
     (∃ m, r = Returns m ∧ l = take (Z.to_nat m) (contents pi) ∧
        (m = Z.min (Z.max n 0) (count pi) ∨ dst m = false) ∧
        (contents pi = [] → writeopen pi = false))) ∧
  (∀ src n i pi' r, 0 ≤ i ≤ n → pipewrite src false n pi i = (pi', r) →
     ∃ m, contents pi' = contents pi ++ omap src (seqZ i m) ∧
       ((r = Returns (i + m) ∧ (i + m = n ∨ src (i + m) = None)) ∨
        (r = Returns (-1) ∧ count pi' = PIPESIZE ∧ readopen pi = false) ∨
        (r = Sleeps (i + m) ∧ count pi' = PIPESIZE ∧ readopen pi = true))).
Proof.
  intros Hok. split.
  - intros dst n pi' r l. unfold piperead. destruct (pipe_empty pi && writeopen pi) eqn:Ee.
    + intros [= <- <- <-]. left. apply andb_prop in Ee as [Ee Ew]. exists 0. split_and!; try done. by apply contents_nil.
    + destruct (piperead_loop (Z.to_nat n) dst pi 0 []) as [[pi1 i1] l1] eqn:El. intros [= <- <- <-]. right.
      destruct (piperead_loop_spec _ _ _ _ _ _ _ _ Hok El) as (m & [Hok' Hm Hcon Hnr _ Hend]).
      assert (contents pi = [] → writeopen pi = false) as Hw.
      { intros E. apply contents_nil in E; [|done]. rewrite E in Ee. done. }
      destruct Hend as [(-> & -> & Hx)|(-> & -> & Hp & Hd)].
      * exists (0 + m). rewrite Z.add_0_l. split_and!; try done. left. destruct Hx as [->|Hx]; [lia|].
        pose proof (f_equal length Hcon) as Hlen. rewrite Hx, app_nil_r, length_take in Hlen.
        pose proof (length_contents pi). lia.
      * exists (0 + m - 1). rewrite Z.add_0_l. split_and!; try done. by right.
  - intros src n i pi' r Hi E. destruct (pipewrite_loop_spec _ _ _ _ _ _ _ Hok E) as (m & [Hok' Hm _ Hcon _ _ Hend]).
    exists m. split; [done|]. destruct Hend as [[-> Hx]|[(-> & ? & ? & [?|?])|(-> & ? & ? & ? & ?)]].
    + left. split; [done|]. destruct Hx as [Hx|Hx]; [left; lia|by right].
    + right. left. done.
    + done.
    + right. right. done.
Qed.

(** Three bytes in, two out; the first counter starts near its limit in the
    second example. *)
Definition ex_src : Z → option Z := λ i, [104; 105; 33] !! Z.to_nat i.

Lemma pipe_is_fifo_witness :
  ∃ pi, pipe_run pi [104; 105; 33] [Some 104; Some 105] ∧ ∃ bs, [104; 105; 33] = bs ++ contents pi ∧ received [Some 104; Some 105] bs.
Proof.
  assert (pipe_run (push 33 (push 105 (push 104 (pipe_init (λ _, 0))))) [104; 105; 33] []) as H1.
  { exact (run_write (pipe_init (λ _, 0)) [] [] ex_src false 3 0
      (push 33 (push 105 (push 104 (pipe_init (λ _, 0))))) (Returns 3) (run_init (λ _, 0)) (Z.le_refl 0) eq_refl). }
  assert (pipe_run (pop (pop (push 33 (push 105 (push 104 (pipe_init (λ _, 0))))))) [104; 105; 33] [Some 104; Some 105]) as H2.
  { exact (run_read _ [104; 105; 33] [] (λ _, true) false 2
      (pop (pop (push 33 (push 105 (push 104 (pipe_init (λ _, 0))))))) (Returns 2) [104; 105] H1 eq_refl). }
  eexists. split; [exact H2|]. destruct (pipe_is_fifo _ _ _ H2) as [E _]. exact E.
Defined.

Lemma pipe_blocking_witness :
  let pi := Pipe (λ _, 7) (2 ^ 32 - 2) (2 ^ 32 - 1) true true in
  ∃ pi' m, piperead (λ _, true) false 5 pi = (pi', Returns m, [7]) ∧ m = 1.
Proof.
  intros pi. assert (pipe_ok pi) as Hok by (split; [simpl; lia|simpl; lia|vm_compute; discriminate]).
  destruct (pipe_blocking pi Hok) as [Hr _].
  destruct (piperead (λ _, true) false 5 pi) as [[pi' r] l] eqn:E.
  destruct (Hr _ _ _ _ _ E) as [(i & _ & _ & Hc & _)|(m & -> & -> & [->|?] & _)].
  - discriminate Hc.
  - exists pi', 1. split; [reflexivity|reflexivity].
  - discriminate.
Defined.
