(* ===== verification/Spinlock.v ===== *)
(** * kernel/spinlock.c

    Any number of CPUs run [acquire] and [release] on any locks, interleaved at
    the accesses to shared memory: the two reads of [holding], the atomic swap,
    the stores to [lk->cpu] and [lk->locked].  A spinning CPU repeats its swap.
    [held c] records the locks that CPU [c] has acquired and not yet begun to
    release, and [want c] the interrupt state it last chose without holding
    locks; the code does not read them. *)

From S2P Require Import Prelude.

Record slock := Slock { lk_locked : Z; lk_cpu : option Z }.
Record cpu := Cpu { intr : bool; noff : Z; intena : bool }.

Definition initlock : slock := Slock 0 None.

Definition push_off (c : cpu) : cpu :=
  let old := intr c in
  let intena := if noff c =? 0 then old else intena c in
  Cpu false (noff c + 1) intena.

(** The new state, or the message of the panic. *)
Definition pop_off (c : cpu) : cpu + string :=
  if intr c then inr "pop_off - interruptible"
  else if noff c <? 1 then inr "pop_off"
  else
    let noff := noff c - 1 in
    inl (Cpu (if (noff =? 0) && intena c then true else intr c) noff (intena c)).

(** Where a CPU is in [acquire] or [release]. *)
Inductive ctl : Type :=
  | Running
  | AcqPushOff (l : Z)
  | AcqReadLocked (l : Z)
  | AcqReadCpu (l : Z)
  | AcqSwap (l : Z)
  | AcqSetCpu (l : Z)
  | RelReadLocked (l : Z)
  | RelReadCpu (l : Z)
  | RelClearCpu (l : Z)
  | RelUnlock (l : Z)
  | RelPopOff
  | Panicked (msg : string).

Record world := World {
  locks : Z → slock;
  cpus : Z → cpu;
  ctls : Z → ctl;
  held : Z → list Z;
  want : Z → bool
}.

Definition goto (c : Z) (p : ctl) (w : world) : world :=
  World (locks w) (cpus w) (fset (ctls w) c p) (held w) (want w).
Definition set_lock (l : Z) (k : slock) (w : world) : world :=
  World (fset (locks w) l k) (cpus w) (ctls w) (held w) (want w).
Definition set_cpu (c : Z) (x : cpu) (w : world) : world :=
  World (locks w) (fset (cpus w) c x) (ctls w) (held w) (want w).
Definition set_held (c : Z) (h : list Z) (w : world) : world :=
  World (locks w) (cpus w) (ctls w) (fset (held w) c h) (want w).

(** One access of CPU [c] inside [acquire] or [release]. *)
Definition advance (c : Z) (w : world) : world :=
  match ctls w c with
  | Running | Panicked _ => w
  (* acquire *)
  | AcqPushOff l => goto c (AcqReadLocked l) (set_cpu c (push_off (cpus w c)) w)
  | AcqReadLocked l =>
      goto c (if lk_locked (locks w l) =? 0 then AcqSwap l else AcqReadCpu l) w
  | AcqReadCpu l =>
      goto c (if bool_decide (lk_cpu (locks w l) = Some c) then Panicked "acquire" else AcqSwap l) w
  | AcqSwap l =>
      let old := lk_locked (locks w l) in
      let w := set_lock l (Slock 1 (lk_cpu (locks w l))) w in
      if old =? 0 then goto c (AcqSetCpu l) w else w
  | AcqSetCpu l =>
      goto c Running (set_held c (l :: held w c) (set_lock l (Slock (lk_locked (locks w l)) (Some c)) w))
  (* release *)
  | RelReadLocked l =>
      goto c (if lk_locked (locks w l) =? 0 then Panicked "release" else RelReadCpu l) w
  | RelReadCpu l =>
      goto c (if bool_decide (lk_cpu (locks w l) = Some c) then RelClearCpu l else Panicked "release") w
  | RelClearCpu l =>
      goto c (RelUnlock l)
        (set_held c (filter (λ k, k ≠ l) (held w c)) (set_lock l (Slock (lk_locked (locks w l)) None) w))
  | RelUnlock l => goto c RelPopOff (set_lock l (Slock 0 (lk_cpu (locks w l))) w)
  | RelPopOff =>
      match pop_off (cpus w c) with
      | inl x => goto c Running (set_cpu c x w)
      | inr msg => goto c (Panicked msg) w
      end
  end.

(** [holding], for a CPU that is not inside of [acquire] or [release]. *)
Definition holding (c l : Z) (w : world) : bool :=
  negb (lk_locked (locks w l) =? 0) && bool_decide (lk_cpu (locks w l) = Some c).

(** The steps of the machine: a CPU calls [acquire] or [release], proceeds in
    one, or (holding no lock) enables or disables interrupts. *)
Inductive wstep : world → world → Prop :=
  | ws_acquire w c l : ctls w c = Running → wstep w (goto c (AcqPushOff l) w)
  | ws_release w c l : ctls w c = Running → wstep w (goto c (RelReadLocked l) w)
  | ws_advance w c : wstep w (advance c w)
  | ws_intr w c b : ctls w c = Running → held w c = [] →
      wstep w (goto c Running (World (locks w) (fset (cpus w) c (Cpu b (noff (cpus w c)) (intena (cpus w c)))) (ctls w)
                 (held w) (fset (want w) c b))).

Inductive reachable : world → Prop :=
  | rc_boot w :
      (∀ l, locks w l = initlock) →
      (∀ c, noff (cpus w c) = 0 ∧ intr (cpus w c) = want w c ∧ ctls w c = Running ∧ held w c = []) →
      reachable w
  | rc_step w w' : reachable w → wstep w w' → reachable w'.

(** * Lemmas *)

(** The lock on which [c] is between its successful swap and the end of
    [acquire], or between its last store to [lk->cpu] and its store of 0. *)
Definition grabs (p : ctl) : option Z :=
  match p with AcqSetCpu l | RelUnlock l => Some l | _ => None end.
(** The lock that [c] may swap, and the one whose [lk->cpu] it is about to clear. *)
Definition swaps (p : ctl) : option Z := match p with AcqSwap l => Some l | _ => None end.
Definition clears (p : ctl) : option Z := match p with RelClearCpu l => Some l | _ => None end.

Definition owns (w : world) (c l : Z) : Prop := l ∈ held w c ∨ grabs (ctls w c) = Some l.

(** [push_off] calls that a CPU has pending besides one per lock. *)
Definition pending (p : ctl) : Z :=
  match p with
  | AcqReadLocked _ | AcqReadCpu _ | AcqSwap _ | AcqSetCpu _ | RelUnlock _ | RelPopOff => 1
  | _ => 0
  end.

Definition panicked (p : ctl) : bool := match p with Panicked _ => true | _ => false end.

(** The interrupt state of a CPU with [k] pending [push_off] calls. *)
Definition intr_ok (x : cpu) (k : Z) (b : bool) : Prop :=
  noff x = k ∧ if k =? 0 then intr x = b else intr x = false ∧ intena x = b.

Record lock_inv (w : world) : Prop := {
  li_locked l : lk_locked (locks w l) ≠ 0 ↔ ∃ c, owns w c l;
  li_excl c c' l : owns w c l → owns w c' l → c = c';
  li_cpu c l : lk_cpu (locks w l) = Some c ↔ l ∈ held w c;
  li_nodup c : NoDup (held w c);
  li_acq c l : swaps (ctls w c) = Some l ∨ grabs (ctls w c) = Some l → l ∉ held w c;
  li_rel c l : clears (ctls w c) = Some l → l ∈ held w c;
  li_intr c : panicked (ctls w c) = false →
    intr_ok (cpus w c) (Z.of_nat (length (held w c)) + pending (ctls w c)) (want w c)
}.

Lemma push_off_ok x k b : 0 ≤ k → intr_ok x k b → intr_ok (push_off x) (k + 1) b.
Proof.
  intros Hk [<- Hi]. unfold intr_ok, push_off. simpl. split; [done|].
  destruct (Z.eqb_spec (noff x + 1) 0); [lia|]. split; [done|]. by destruct (noff x =? 0); [|destruct Hi].
Qed.

Lemma pop_off_ok x k b : 0 ≤ k → intr_ok x (k + 1) b → ∃ x', pop_off x = inl x' ∧ intr_ok x' k b.
Proof.
  intros Hk [En Hi]. destruct (Z.eqb_spec (k + 1) 0); [lia|]. destruct Hi as [Ei Eb].
  unfold pop_off. rewrite Ei. destruct (Z.ltb_spec (noff x) 1); [lia|].
  eexists. split; [reflexivity|]. unfold intr_ok. simpl. replace (noff x - 1) with k by lia. split; [done|].
  destruct (k =? 0); simpl; [|done]. subst b. by destruct (intena x).
Qed.

Section step.
Context (w : world) (c : Z) (Hinv : lock_inv w).

(** A step of [c] that changes no lock: only its control and its CPU state. *)
Lemma inv_local p xs bs :
  (∀ d, d ≠ c → xs d = cpus w d ∧ bs d = want w d) →
  grabs p = grabs (ctls w c) → (∀ l, swaps p = Some l → l ∉ held w c) → (∀ l, clears p = Some l → l ∈ held w c) →
  (panicked p = false → intr_ok (xs c) (Z.of_nat (length (held w c)) + pending p) (bs c)) →
  lock_inv (World (locks w) xs (fset (ctls w) c p) (held w) bs).
Proof.
  destruct Hinv as [Hlk Hex Hcpu Hnd Hacq Hrel Hin]. intros Eo Eg Ha Hr Hi. set (w' := World _ _ _ _ _).
  assert (∀ d l, owns w' d l ↔ owns w d l) as Hown.
  { intros d l. unfold owns. simpl. unfold fset. by destruct (Z.eqb_spec d c) as [->|]; [rewrite Eg|]. }
  split; simpl; try done.
  - intros l. rewrite Hlk. by setoid_rewrite Hown.
  - intros d d' l. rewrite !Hown. apply Hex.
  - intros d l. unfold fset. destruct (Z.eqb_spec d c) as [->|]; [|apply Hacq].
    intros [Hs|Hs]; [by apply Ha|]. apply Hacq. right. by rewrite <-Eg.
  - intros d l. unfold fset. destruct (Z.eqb_spec d c) as [->|]; [apply Hr|apply Hrel].
  - intros d. unfold fset. destruct (Z.eqb_spec d c) as [->|Hd]; [apply Hi|].
    destruct (Eo d Hd) as [-> ->]. apply Hin.
Qed.

Lemma inv_goto p :
  grabs p = grabs (ctls w c) → (∀ l, swaps p = Some l → l ∉ held w c) → (∀ l, clears p = Some l → l ∈ held w c) →
  (panicked p = false → panicked (ctls w c) = false ∧ pending p = pending (ctls w c)) →
  lock_inv (goto c p w).
Proof.
  intros Eg Ha Hr Hp. apply inv_local; try done. intros Hq. destruct (Hp Hq) as [Hq' ->]. by apply (li_intr _ Hinv).
Qed.

(** A store to lock [l] by [c] that leaves its owner in place. *)
Lemma inv_swap_busy l :
  lk_locked (locks w l) ≠ 0 → lock_inv (set_lock l (Slock 1 (lk_cpu (locks w l))) w).
Proof.
  destruct Hinv as [Hlk Hex Hcpu Hnd Hacq Hrel Hin]. intros E. split; simpl; try done.
  - intros k. change (owns (set_lock l _ w)) with (owns w). unfold fset. destruct (Z.eqb_spec k l) as [->|]; [|apply Hlk].
    simpl. rewrite <-Hlk. done.
  - intros d k. unfold fset. destruct (Z.eqb_spec k l) as [->|]; simpl; apply Hcpu.
Qed.

Lemma inv_swap_free l :
  ctls w c = AcqSwap l → lk_locked (locks w l) = 0 →
  lock_inv (goto c (AcqSetCpu l) (set_lock l (Slock 1 (lk_cpu (locks w l))) w)).
Proof.
  destruct Hinv as [Hlk Hex Hcpu Hnd Hacq Hrel Hin]. intros Ec E.
  assert (l ∉ held w c) as Hnh by (apply Hacq; rewrite Ec; by left).
  assert (∀ d, ¬ owns w d l) as Hfree by (intros d Hd; apply (proj2 (Hlk l)); eauto).
  set (w' := goto c _ _).
  assert (∀ d k, owns w' d k ↔ owns w d k ∨ (d = c ∧ k = l)) as Hown.
  { intros d k. unfold owns. simpl. unfold fset. destruct (Z.eqb_spec d c) as [->|Hne]; [rewrite Ec|]; simpl.
    - split; [intros [?|[= ->]]; auto|intros [[?|?]|[_ ->]]; auto; done].
    - split; [auto|intros [?|[? _]]; [done|congruence]]. }
  split; simpl; try done.
  - intros k. setoid_rewrite Hown. unfold fset. destruct (Z.eqb_spec k l) as [->|Hne]; simpl.
    + split; [|done]. intros _. exists c. by right.
    + rewrite Hlk. split; intros [d Hd]; exists d; [by left|]. destruct Hd as [?|[_ ?]]; [done|congruence].
  - intros d d' k. rewrite !Hown. intros [H1|[-> ->]] [H2|[-> E2]]; subst; eauto; exfalso; by eapply Hfree.
  - intros d k. unfold fset. destruct (Z.eqb_spec k l) as [->|]; simpl; apply Hcpu.
  - intros d k. unfold fset. destruct (Z.eqb_spec d c) as [->|]; [|apply Hacq]. simpl. by intros [?|[= ->]].
  - intros d k. unfold fset. by destruct (Z.eqb_spec d c) as [->|]; [|apply Hrel].
  - intros d Hp. specialize (Hin d). unfold fset in *. destruct (Z.eqb_spec d c) as [->|]; [|by apply Hin].
    rewrite Ec in Hin. by apply Hin.
Qed.

Lemma inv_set_cpu l :
  ctls w c = AcqSetCpu l →
  lock_inv (goto c Running (set_held c (l :: held w c) (set_lock l (Slock (lk_locked (locks w l)) (Some c)) w))).
Proof.
  destruct Hinv as [Hlk Hex Hcpu Hnd Hacq Hrel Hin]. intros Ec.
  assert (l ∉ held w c) as Hnh by (apply Hacq; rewrite Ec; by right).
  assert (owns w c l) as Hcl by (right; by rewrite Ec).
  set (w' := goto c _ _).
  assert (∀ d k, owns w' d k ↔ owns w d k) as Hown.
  { intros d k. unfold owns. simpl. unfold fset. destruct (Z.eqb_spec d c) as [->|]; [|done].
    rewrite Ec, elem_of_cons. simpl. split; [intros [[->|?]|?]; auto; done|intros [?|[= ->]]; auto]. }
  split; simpl.
  - intros k. setoid_rewrite Hown. unfold fset. destruct (Z.eqb_spec k l) as [->|]; simpl; apply Hlk.
  - intros d d' k. rewrite !Hown. apply Hex.
  - intros d k. unfold fset. destruct (Z.eqb_spec k l) as [->|Hk], (Z.eqb_spec d c) as [->|Hd]; simpl; rewrite ?elem_of_cons.
    + split; auto.
    + split; [congruence|]. intros Hh. exfalso. apply Hd. apply (Hex d c l); [by left|done].
    + rewrite Hcpu. split; [auto|intros [?|?]; [done|auto]].
    + apply Hcpu.
  - intros d. unfold fset. destruct (Z.eqb_spec d c) as [->|]; [|done]. by apply NoDup_cons.
  - intros d k. unfold fset. destruct (Z.eqb_spec d c) as [->|]; [|apply Hacq]. simpl. by intros [?|?].
  - intros d k. unfold fset. by destruct (Z.eqb_spec d c) as [->|]; [|apply Hrel].
  - intros d Hp. specialize (Hin d). unfold fset in *. destruct (Z.eqb_spec d c) as [->|]; [|by apply Hin].
    rewrite Ec in Hin. specialize (Hin eq_refl). simpl in *. by replace (Z.of_nat (S (length (held w c))) + 0) with (Z.of_nat (length (held w c)) + 1) by lia.
Qed.

Lemma inv_clear_cpu l :
  ctls w c = RelClearCpu l →
  lock_inv (goto c (RelUnlock l)
    (set_held c (filter (λ k, k ≠ l) (held w c)) (set_lock l (Slock (lk_locked (locks w l)) None) w))).
Proof.
  destruct Hinv as [Hlk Hex Hcpu Hnd Hacq Hrel Hin]. intros Ec.
  assert (l ∈ held w c) as Hh by (apply Hrel; by rewrite Ec).
  assert (∀ k, k ∈ filter (λ k, k ≠ l) (held w c) ↔ k ≠ l ∧ k ∈ held w c) as Hfl by (intros ?; by rewrite list_elem_of_filter).
  set (w' := goto c _ _).
  assert (∀ d k, owns w' d k ↔ owns w d k) as Hown.
  { intros d k. unfold owns. simpl. unfold fset. destruct (Z.eqb_spec d c) as [->|]; [|done].
    rewrite Ec, Hfl. simpl. split; [intros [[_ ?]|[= <-]]; auto|].
    intros [?|?]; [|done]. destruct (decide (k = l)) as [->|]; auto. }
  split; simpl.
  - intros k. setoid_rewrite Hown. unfold fset. destruct (Z.eqb_spec k l) as [->|]; simpl; apply Hlk.
  - intros d d' k. rewrite !Hown. apply Hex.
  - intros d k. unfold fset. destruct (Z.eqb_spec k l) as [->|Hk], (Z.eqb_spec d c) as [->|Hd]; simpl; rewrite ?Hfl.
    + split; [done|]. by intros [? _].
    + split; [done|]. intros Hd'. exfalso. apply Hd. apply (Hex d c l); by left.
    + rewrite Hcpu. tauto.
    + apply Hcpu.
  - intros d. unfold fset. destruct (Z.eqb_spec d c) as [->|]; [|done]. by apply NoDup_filter.
  - intros d k. unfold fset. destruct (Z.eqb_spec d c) as [->|]; [|apply Hacq]. simpl. rewrite Hfl.
    intros [?|[= ->]]; [done|]. by intros [? _].
  - intros d k. unfold fset. by destruct (Z.eqb_spec d c) as [->|]; [|apply Hrel].
  - intros d Hp. specialize (Hin d). unfold fset in *. destruct (Z.eqb_spec d c) as [->|]; [|by apply Hin].
    rewrite Ec in Hin. specialize (Hin eq_refl). simpl in *. apply list_elem_of_split in Hh as (h1 & h2 & Eh).
    specialize (Hnd c). rewrite Eh in *. rewrite filter_ne_split by done. rewrite !length_app in *. simpl in *.
    by replace (Z.of_nat (length h1 + length h2) + 1) with (Z.of_nat (length h1 + S (length h2)) + 0) by lia.
Qed.

Lemma inv_unlock l :
  ctls w c = RelUnlock l → lock_inv (goto c RelPopOff (set_lock l (Slock 0 (lk_cpu (locks w l))) w)).
Proof.
  destruct Hinv as [Hlk Hex Hcpu Hnd Hacq Hrel Hin]. intros Ec.
  assert (l ∉ held w c) as Hnh by (apply Hacq; rewrite Ec; by right).
  assert (owns w c l) as Hcl by (right; by rewrite Ec).
  set (w' := goto c _ _).
  assert (∀ d k, owns w' d k ↔ owns w d k ∧ k ≠ l) as Hown.
  { intros d k. unfold owns. simpl. unfold fset. destruct (Z.eqb_spec d c) as [->|Hne].
    - rewrite Ec. simpl. split; [intros [?|?]; [|done]; split; [auto|congruence]|]. intros [[?|[= ->]] ?]; auto; done.
    - split; [|tauto]. intros Hd. split; [done|]. intros ->. apply Hne. by apply (Hex d c l). }
  split; simpl; try done.
  - intros k. setoid_rewrite Hown. unfold fset. destruct (Z.eqb_spec k l) as [->|Hne]; simpl.
    + split; [done|]. by intros [d [_ ?]].
    + rewrite Hlk. split; intros [d Hd]; exists d; tauto.
  - intros d d' k. rewrite !Hown. intros [? _] [? _]. by eapply Hex.
  - intros d k. unfold fset. destruct (Z.eqb_spec k l) as [->|]; simpl; apply Hcpu.
  - intros d k. unfold fset. destruct (Z.eqb_spec d c) as [->|]; [|apply Hacq]. simpl. by intros [?|?].
  - intros d k. unfold fset. by destruct (Z.eqb_spec d c) as [->|]; [|apply Hrel].
  - intros d Hp. specialize (Hin d). unfold fset in *. destruct (Z.eqb_spec d c) as [->|]; [|by apply Hin].
    rewrite Ec in Hin. by apply Hin.
Qed.

Lemma inv_push_off l :
  ctls w c = AcqPushOff l → lock_inv (goto c (AcqReadLocked l) (set_cpu c (push_off (cpus w c)) w)).
Proof.
  intros Ec. apply inv_local; rewrite ?Ec; try done.
  - intros d Hd. simpl. by rewrite fset_ne.
  - intros _. simpl. rewrite fset_eq. pose proof (li_intr _ Hinv c) as Hin. rewrite Ec in Hin. specialize (Hin eq_refl).
    simpl in *. rewrite Z.add_0_r in Hin. apply push_off_ok; [lia|done].
Qed.

(** [pop_off] finds interrupts off and its own [push_off] pending. *)
Lemma inv_pop_off :
  ctls w c = RelPopOff → ∃ x, pop_off (cpus w c) = inl x ∧ lock_inv (goto c Running (set_cpu c x w)).
Proof.
  intros Ec. pose proof (li_intr _ Hinv c) as Hin. rewrite Ec in Hin. specialize (Hin eq_refl).
  apply pop_off_ok in Hin as (x & E & Hx); [|lia]. exists x. split; [done|].
  apply inv_local; rewrite ?Ec; try done.
  - intros d Hd. simpl. by rewrite fset_ne.
  - intros _. simpl. rewrite fset_eq. simpl. by rewrite Z.add_0_r.
Qed.

Lemma free_not_held l : lk_locked (locks w l) = 0 → l ∉ held w c.
Proof. intros E Hh. apply (proj2 (li_locked _ Hinv l)); [|done]. exists c. by left. Qed.

Lemma advance_inv : lock_inv (advance c w).
Proof.
  pose proof (li_cpu _ Hinv c) as Hcpu. unfold advance.
  destruct (ctls w c) as [|l|l|l|l|l|l|l|l|l| |msg] eqn:Ec; try done.
  - by apply inv_push_off.
  - pose proof (free_not_held l) as Hf.
    destruct (Z.eqb_spec (lk_locked (locks w l)) 0); apply inv_goto; rewrite ?Ec; try done. intros k [= <-]. by apply Hf.
  - case_bool_decide as E; apply inv_goto; rewrite ?Ec; try done. intros k [= <-]. by rewrite <-Hcpu.
  - destruct (Z.eqb_spec (lk_locked (locks w l)) 0); [by apply inv_swap_free|by apply inv_swap_busy].
  - by apply inv_set_cpu.
  - destruct (Z.eqb_spec (lk_locked (locks w l)) 0); apply inv_goto; by rewrite ?Ec.
  - case_bool_decide as E; apply inv_goto; rewrite ?Ec; try done. intros k [= <-]. by apply Hcpu.
  - by apply inv_clear_cpu.
  - by apply inv_unlock.
  - by destruct (inv_pop_off Ec) as (x & -> & Hx).
Qed.

End step.

Lemma reachable_inv w : reachable w → lock_inv w.
Proof.
  induction 1 as [w Hl Hc|w w' _ IH Hs].
  - assert (∀ c l, ¬ owns w c l) as Hno.
    { intros c l. destruct (Hc c) as (_ & _ & Ec & Eh). unfold owns. rewrite Ec, Eh. intros [?%elem_of_nil|?]; done. }
    split.
    + intros l. rewrite Hl. split; [done|]. intros [c Hc']. by destruct (Hno c l).
    + intros c c' l Ho. by destruct (Hno c l).
    + intros c l. rewrite Hl. destruct (Hc c) as (_ & _ & _ & ->). by rewrite elem_of_nil.
    + intros c. destruct (Hc c) as (_ & _ & _ & ->). constructor.
    + intros c l. destruct (Hc c) as (_ & _ & -> & ->). by intros [?|?].
    + intros c l. by destruct (Hc c) as (_ & _ & -> & ->).
    + intros c _. destruct (Hc c) as (En & Ei & -> & ->). done.
  - destruct Hs as [w c l E|w c l E|w c|w c b E Eh].
    + apply inv_goto; by rewrite ?E.
    + apply inv_goto; by rewrite ?E.
    + by apply advance_inv.
    + pose proof (li_intr _ IH c) as Hin. rewrite E, Eh in Hin. specialize (Hin eq_refl) as [En _].
      apply (inv_local w c IH); rewrite ?E; try done; simpl.
      * intros d Hd. by rewrite !fset_ne.
      * intros _. by rewrite !fset_eq, Eh.
Qed.

(** * Properties *)

(** C19: in every interleaving of [acquire] and [release] by any CPUs on any
    locks, a lock has at most one holder; a CPU that holds a lock has
    interrupts off and its [noff] is the number of locks it holds; a CPU that
    has released every lock has the interrupt state it had before it took the
    first; [holding] tells a CPU exactly whether it holds the lock. *)
Theorem spinlock_mutual_exclusion w c l :
  reachable w → ctls w c = Running →
  (l ∈ held w c → ∀ c', l ∈ held w c' → c' = c) ∧
  noff (cpus w c) = Z.of_nat (length (held w c)) ∧
  (held w c ≠ [] → intr (cpus w c) = false) ∧
  (held w c = [] → intr (cpus w c) = want w c) ∧
  (holding c l w = true ↔ l ∈ held w c).
Proof.
  intros Hr E. apply reachable_inv in Hr as [Hlk Hex Hcpu Hnd Hacq Hrel Hin]. specialize (Hin c). rewrite E in Hin.
  specialize (Hin eq_refl) as [En Hi]. simpl in *. rewrite Z.add_0_r in *.
  repeat split.
  - intros H1 c' H2. apply (Hex c' c l); by left.
  - done.
  - destruct (held w c); [done|]. by destruct Hi.
  - intros Eh. by rewrite Eh in Hi.
  - unfold holding. rewrite andb_true_iff, bool_decide_eq_true. rewrite <-Hcpu. tauto.
  - unfold holding. rewrite andb_true_iff, bool_decide_eq_true, negb_true_iff, Z.eqb_neq. rewrite Hcpu, Hlk.
    intros Hh. split; [|done]. exists c. by left.
Qed.

(** A CPU panics in [acquire] exactly when it takes a lock it already
    holds, in [release] exactly when it releases a lock it does not hold, and
    never in [pop_off]. *)
Theorem spinlock_panics w c l :
  reachable w →
  (ctls w c = AcqReadCpu l → (panicked (ctls (advance c w) c) = true ↔ l ∈ held w c)) ∧
  (ctls w c = AcqReadLocked l → l ∈ held w c → ctls (advance c w) c = AcqReadCpu l) ∧
  (ctls w c = RelReadLocked l → panicked (ctls (advance c w) c) = true → l ∉ held w c) ∧
  (ctls w c = RelReadCpu l → (panicked (ctls (advance c w) c) = true ↔ l ∉ held w c)) ∧
  (ctls w c = RelPopOff → ctls (advance c w) c = Running).
Proof.
  intros Hr%reachable_inv. pose proof (li_cpu _ Hr c l) as Hcpu. pose proof (free_not_held w c Hr l) as Hf.
  unfold advance. split_and!; intros E; rewrite E.
  - case_bool_decide as Eh; simpl; rewrite fset_eq; rewrite Hcpu in Eh; simpl; tauto || (split; [done|tauto]).
  - intros Hh. destruct (Z.eqb_spec (lk_locked (locks w l)) 0); [by destruct Hf|]. simpl. by rewrite fset_eq.
  - destruct (Z.eqb_spec (lk_locked (locks w l)) 0); simpl; rewrite fset_eq; [|done]. intros _. by apply Hf.
  - case_bool_decide as Eh; simpl; rewrite fset_eq; rewrite Hcpu in Eh; simpl; tauto || (split; [done|tauto]).
  - destruct (inv_pop_off w c Hr E) as (x & -> & _). simpl. by rewrite fset_eq.
Qed.

(** * Witnesses *)

Definition ex_boot : world :=
  World (λ _, initlock) (λ _, Cpu true 0 false) (λ _, Running) (λ _, []) (λ _, true).

(** CPU 0 takes lock 7 while CPU 1 spins on it. *)
Definition ex_contended : world :=
  advance 1 (advance 1 (advance 0 (advance 1 (advance 1 (goto 1 (AcqPushOff 7)
    (advance 0 (advance 0 (advance 0 (goto 0 (AcqPushOff 7) ex_boot))))))))).

Lemma ex_contended_reachable : reachable ex_contended.
Proof.
  unfold ex_contended. do 5 (eapply rc_step; [|apply ws_advance]).
  eapply rc_step; [|apply ws_acquire; vm_compute; reflexivity].
  do 3 (eapply rc_step; [|apply ws_advance]).
  eapply rc_step; [|apply ws_acquire; vm_compute; reflexivity].
  apply rc_boot; done.
Qed.

Lemma spinlock_mutual_exclusion_witness :
  held ex_contended 0 = [7] ∧ ctls ex_contended 1 = AcqSwap 7 ∧ intr (cpus ex_contended 0) = false.
Proof.
  split; [reflexivity|]. split; [reflexivity|].
  destruct (spinlock_mutual_exclusion ex_contended 0 7 ex_contended_reachable eq_refl) as (_ & _ & H & _).
  apply H. discriminate.
Defined.

(** CPU 0 takes lock 7 a second time. *)
Definition ex_twice : world := advance 0 (advance 0 (goto 0 (AcqPushOff 7) ex_contended)).

Lemma ex_twice_reachable : reachable ex_twice.
Proof.
  unfold ex_twice. do 2 (eapply rc_step; [|apply ws_advance]).
  eapply rc_step; [|apply ws_acquire; vm_compute; reflexivity]. apply ex_contended_reachable.
Qed.

Lemma spinlock_panics_witness : panicked (ctls (advance 0 ex_twice) 0) = true.
Proof.
  destruct (spinlock_panics ex_twice 0 7 ex_twice_reachable) as (H & _). apply H; [reflexivity|].
  vm_compute. left.
Defined.
