(* ===== verification/Printf.v ===== *)
(** * Formatted output: kernel/printf.c and user/printf.c, and atoi of user/ulib.c

    The bytes that the two [printf] functions send to the console or to a file
    descriptor.  Arguments are a list; taking an argument that is missing or of
    another type is undefined and has no result, like a store past the end of
    the buffer of [printint]. *)

From Stdlib Require Import Ascii String.
From S2P Require Import Prelude Machine Grep.
Local Open Scope Z_scope.

(** The bytes of a string literal. *)
Definition str (s : string) : list Z := chr <$> list_ascii_of_string s.

(** An argument of a variadic call: an [int], a [uint64] or a string, which may
    be a null pointer. *)
Inductive varg : Type :=
  | VInt (z : Z)
  | VLong (z : Z)
  | VStr (s : option (list Z)).

Section Format.
Context (digits : list Z).

Definition digit (d : Z) : Z := default 0 (digits !! Z.to_nat d).

(** [sizeof(buf)] *)
Definition PBUF : nat := 16.

(** [buf[i++] = c] *)
Definition put (buf : list Z) (c : Z) : option (list Z) :=
  if (length buf <? PBUF)%nat then Some (buf ++ [c]) else None.

(** [do buf[i++] = digits[x % base]; while((x /= base) != 0);] *)
Fixpoint digits_loop (fuel : nat) (base x : Z) (buf : list Z) : option (list Z) :=
  match fuel with
  | O => None
  | S fuel' =>
      buf ← put buf (digit (x `mod` base));
      let x := x / base in
      if nonzero x then digits_loop fuel' base x buf else Some buf
  end.

Definition printint (xx base : Z) (sign : bool) : option (list Z) :=
  let neg := sign && (xx <? 0) in
  let x := u32 (if neg then - xx else xx) in
  buf ← digits_loop 33 base x [];
  buf ← (if neg then put buf (chr "-") else Some buf);
  Some (rev buf).

(** [for(i = 0; i < 16; i++, x <<= 4) putc(digits[x >> 60])] *)
Fixpoint ptr_loop (n : nat) (x : Z) : list Z :=
  match n with
  | O => []
  | S n' => digit (Z.shiftr x 60) :: ptr_loop n' (u64 (Z.shiftl x 4))
  end.

Definition printptr (x : Z) : list Z := str "0x" ++ ptr_loop 16 x.

(** [va_arg] *)
Definition arg_int (ap : list varg) : option (Z * list varg) :=
  match ap with VInt z :: ap => Some (z, ap) | _ => None end.
Definition arg_long (ap : list varg) : option (Z * list varg) :=
  match ap with VLong z :: ap => Some (z, ap) | _ => None end.
Definition arg_str (ap : list varg) : option (list Z * list varg) :=
  match ap with
  | VStr s :: ap => Some (default (str "(null)") s, ap)
  | _ => None
  end.

(** ** kernel/printf.c *)

(** One conversion: its output and the remaining arguments. *)
Definition kconv (c : Z) (ap : list varg) : option (list Z * list varg) :=
  if c =? chr "d" then '(z, ap) ← arg_int ap; l ← printint z 10 true; Some (l, ap)
  else if c =? chr "x" then '(z, ap) ← arg_int ap; l ← printint z 16 true; Some (l, ap)
  else if c =? chr "p" then '(z, ap) ← arg_long ap; Some (printptr z, ap)
  else if c =? chr "s" then arg_str ap
  else if c =? chr "%" then Some (str "%", ap)
  else Some ([chr "%"; c], ap).

Fixpoint kprintf (fmt : list Z) (ap : list varg) : option (list Z) :=
  match fmt with
  | [] => Some []
  | c :: fmt =>
      if negb (c =? chr "%") then cons c <$> kprintf fmt ap
      else
        match fmt with
        | [] => Some []
        | c :: fmt => '(l, ap) ← kconv c ap; app l <$> kprintf fmt ap
        end
  end.

(** ** user/printf.c *)

Definition uconv (c : Z) (ap : list varg) : option (list Z * list varg) :=
  if c =? chr "d" then '(z, ap) ← arg_int ap; l ← printint z 10 true; Some (l, ap)
  else if c =? chr "l" then '(z, ap) ← arg_long ap; l ← printint (s32 z) 10 false; Some (l, ap)
  else if c =? chr "x" then '(z, ap) ← arg_int ap; l ← printint z 16 false; Some (l, ap)
  else if c =? chr "p" then '(z, ap) ← arg_long ap; Some (printptr z, ap)
  else if c =? chr "s" then arg_str ap
  else if c =? chr "c" then '(z, ap) ← arg_int ap; Some ([u8 z], ap)
  else if c =? chr "%" then Some ([c], ap)
  else Some ([chr "%"; c], ap).

(** [percent] tells whether [state] is '%'. *)
Fixpoint vprintf (percent : bool) (fmt : list Z) (ap : list varg) : option (list Z) :=
  match fmt with
  | [] => Some []
  | c :: fmt =>
      if percent then '(l, ap) ← uconv c ap; app l <$> vprintf false fmt ap
      else if c =? chr "%" then vprintf true fmt ap
      else cons c <$> vprintf false fmt ap
  end.

End Format.

Definition kdigits : list Z := str "0123456789abcdef".
Definition udigits : list Z := str "0123456789ABCDEF".

(** [atoi] of user/ulib.c *)
Fixpoint atoi_loop (s : list Z) (n : Z) : Z :=
  match s with
  | [] => n
  | c :: s' => if (chr "0" <=? c) && (c <=? chr "9") then atoi_loop s' (s32 (n * 10 + c - chr "0")) else n
  end.

Definition atoi (s : list Z) : Z := atoi_loop s 0.

(** ** The number that a text denotes *)

(** The value of a digit in either case. *)
Definition digit_value (c : Z) : option Z :=
  if (48 <=? c) && (c <=? 57) then Some (c - 48)
  else if (65 <=? c) && (c <=? 70) then Some (c - 55)
  else if (97 <=? c) && (c <=? 102) then Some (c - 87)
  else None.

(** Digits, most significant first. *)
Fixpoint read_digits (base : Z) (l : list Z) (acc : Z) : option Z :=
  match l with
  | [] => Some acc
  | c :: l' => d ← digit_value c; if d <? base then read_digits base l' (acc * base + d) else None
  end.

Definition read_int (base : Z) (l : list Z) : option Z :=
  match l with
  | [] => None
  | c :: l' => if c =? chr "-" then Z.opp <$> read_digits base l' 0 else read_digits base l 0
  end.

(** * Lemmas *)

Definition digit_ok (digits : list Z) : Prop := digits = kdigits ∨ digits = udigits.

Lemma digit_value_digit digits d : digit_ok digits → 0 ≤ d < 16 →
  digit_value (digit digits d) = Some d ∧ digit digits d ≠ chr "-".
Proof.
  intros Hd Hr. rewrite <-(Z2Nat.id d) in * by lia. set (n := Z.to_nat d) in *. clearbody n.
  destruct Hd as [-> | ->]; (do 16 (destruct n as [|n]; [split; [reflexivity|discriminate]|])); lia.
Qed.

Lemma read_digits_app base l1 l2 acc :
  read_digits base (l1 ++ l2) acc = read_digits base l1 acc ≫= read_digits base l2.
Proof.
  revert acc. induction l1 as [|c l1 IH]; intros acc; [done|]. simpl.
  destruct (digit_value c) as [d|]; simpl; [|done]. by destruct (d <? base).
Qed.

Lemma put_fits buf c : (length buf < PBUF)%nat → put buf c = Some (buf ++ [c]).
Proof. intros H. unfold put. by destruct (Nat.ltb_spec (length buf) PBUF); [|lia]. Qed.

(** The loop of [printint] stores the digits of [x], least significant first. *)
Lemma digits_loop_spec digits base fuel k x buf :
  digit_ok digits → 2 ≤ base ≤ 16 → 0 ≤ x < base ^ Z.of_nat k → (1 ≤ k ≤ fuel)%nat → (length buf + k < PBUF)%nat →
  ∃ l, digits_loop digits fuel base x buf = Some (buf ++ l) ∧ (1 ≤ length l ≤ k)%nat ∧
    Forall (λ c, c ≠ chr "-") l ∧
    ∀ acc, read_digits base (rev l) acc = Some (acc * base ^ Z.of_nat (length l) + x).
Proof.
  intros Hd Hb. revert k x buf. induction fuel as [|fuel IH]; intros k x buf Hx Hk Hl; [lia|].
  cbn [digits_loop]. rewrite put_fits by lia. cbn [mbind option_bind].
  pose proof (Z.mod_pos_bound x base ltac:(lia)) as Hm.
  destruct (digit_value_digit digits (x `mod` base) Hd ltac:(lia)) as [Hv Hne].
  set (c := digit digits (x `mod` base)) in *.
  destruct (nonzero (x / base)) eqn:En.
  - apply nonzero_true in En. destruct k as [|k]; [lia|].
    rewrite Nat2Z.inj_succ, Z.pow_succ_r in Hx by lia.
    assert (x / base < base ^ Z.of_nat k) by (apply Z.div_lt_upper_bound; lia).
    assert (0 ≤ x / base) by (apply Z.div_pos; lia).
    assert (1 ≤ k)%nat by (destruct k; simpl in *; lia).
    destruct (IH k (x / base) (buf ++ [c])) as (l & -> & Hll & Hf & Hr); [lia|lia|rewrite length_app; simpl; lia|].
    exists (c :: l). rewrite <-app_assoc. split; [done|]. split; [simpl; lia|]. split; [by constructor|].
    intros acc. cbn [rev length]. rewrite read_digits_app, Hr. cbn [mbind option_bind read_digits].
    rewrite Hv. cbn [mbind option_bind]. destruct (Z.ltb_spec (x `mod` base) base); [|lia]. f_equal.
    rewrite Nat2Z.inj_succ, Z.pow_succ_r by lia. pose proof (Z.div_mod x base ltac:(lia)). lia.
  - apply nonzero_false in En. exists [c]. split; [done|]. split; [simpl; lia|]. split; [by repeat constructor|].
    intros acc. simpl. rewrite Hv. simpl. destruct (Z.ltb_spec (x `mod` base) base); [|lia]. simpl. f_equal.
    pose proof (Z.div_mod x base ltac:(lia)). lia.
Qed.

Lemma printint_spec digits xx base sign :
  digit_ok digits → base = 10 ∨ base = 16 → - 2 ^ 31 ≤ xx < 2 ^ 31 →
  ∃ l, printint digits xx base sign = Some (if sign && (xx <? 0) then chr "-" :: l else l) ∧
    l ≠ [] ∧ Forall (λ c, c ≠ chr "-") l ∧
    read_digits base l 0 = Some (if sign then Z.abs xx else u32 xx).
Proof.
  intros Hd Hb Hx. unfold printint. set (neg := sign && (xx <? 0)). set (x := u32 _).
  assert (0 ≤ x < base ^ Z.of_nat 10) as Hr.
  { pose proof (u32_range (if neg then - xx else xx)) as Hu. fold x in Hu. destruct Hb as [-> | ->]; lia. }
  destruct (digits_loop_spec digits base 33 10 x [] Hd ltac:(lia) Hr ltac:(lia) ltac:(unfold PBUF; simpl; lia))
    as (l & -> & Hl & Hf & Hrd).
  cbn [mbind option_bind app]. exists (rev l).
  assert (x = if sign then Z.abs xx else u32 xx) as Ex.
  { unfold x, neg. destruct sign; simpl; [|done]. destruct (Z.ltb_spec xx 0); rewrite u32_small by lia; lia. }
  split.
  - destruct neg; simpl; [|done]. rewrite put_fits by (unfold PBUF; lia). simpl. by rewrite rev_app_distr.
  - split; [|split; [by apply Forall_rev|rewrite Hrd, Ex; f_equal; lia]].
    intros E. apply (f_equal length) in E. rewrite length_rev in E. simpl in E. lia.
Qed.

Lemma atoi_loop_spec l n v : 0 ≤ n → read_digits 10 l n = Some v → v < 2 ^ 31 → n ≤ v ∧ atoi_loop l n = v.
Proof.
  revert n. induction l as [|c l IH]; intros n Hn; simpl; [intros [= ->]; lia|].
  intros Hv Hr. destruct (digit_value c) as [d|] eqn:Ed; [|done]. cbn [mbind option_bind] in Hv.
  destruct (Z.ltb_spec d 10); [|done].
  assert (48 ≤ c ≤ 57 ∧ d = c - 48) as [Hc ->].
  { unfold digit_value in Ed. repeat case_match; simplify_eq; lia. }
  change (chr "0") with 48. change (chr "9") with 57. rewrite !(proj2 (Z.leb_le _ _)) by lia. cbn [andb].
  destruct (IH (n * 10 + (c - 48)) ltac:(lia) Hv Hr) as [Hle E]. split; [lia|].
  rewrite s32_small by lia. by replace (n * 10 + c - 48) with (n * 10 + (c - 48)) by lia.
Qed.

(** * Properties *)

(** [printint] of the kernel and of the user library, in base 10 and 16,
    prints every [int] (the most negative one included) as a numeral that reads
    back as the number, or as its unsigned value when [sign] is 0, and never
    overruns its 16-byte buffer; [atoi] reads a non-negative decimal back. *)
Theorem printint_roundtrip digits xx base sign :
  digit_ok digits → base = 10 ∨ base = 16 → - 2 ^ 31 ≤ xx < 2 ^ 31 →
  ∃ l, printint digits xx base sign = Some l ∧
    read_int base l = Some (if sign then xx else u32 xx) ∧
    (base = 10 → 0 ≤ xx → atoi l = xx).
Proof.
  intros Hd Hb Hx. destruct (printint_spec digits xx base sign Hd Hb Hx) as (l & -> & Hne & Hf & Hr).
  eexists. split; [done|]. split.
  - destruct (sign && (xx <? 0)) eqn:En.
    + apply andb_true_iff in En as [-> Hneg]. unfold read_int. rewrite Z.eqb_refl, Hr. simpl. f_equal. lia.
    + destruct l as [|c l]; [done|]. apply Forall_cons in Hf as [Hc _]. unfold read_int.
      destruct (Z.eqb_spec c (chr "-")); [done|]. rewrite Hr. f_equal. destruct sign; [|done]. simpl in En. lia.
  - intros -> Hpos. rewrite (proj2 (Z.ltb_ge xx 0)) by lia. rewrite andb_false_r.
    apply (atoi_loop_spec l 0 xx); [lia| |lia]. rewrite Hr. f_equal. destruct sign; [lia|]. apply u32_small. lia.
Qed.

Lemma printint_roundtrip_witness :
  ∃ l, printint udigits (-2147483648) 10 true = Some l ∧ read_int 10 l = Some (-2147483648).
Proof.
  destruct (printint_roundtrip udigits (-2147483648) 10 true) as (l & E & Hr & _);
    [by right|by left|lia|]. by exists l.
Defined.
