(* ===== verification/Ulib.v ===== *)
(** * The user library: user/ulib.c

    String and memory routines of user programs, in the style of CString.v:
    routines that write act on [memory], those that only read take an array.
    [gets] reads from a list of the bytes that [read] will deliver. *)

From S2P Require Import Prelude Machine CString.

Module Ulib.

(** Copies up to and including the NUL; [fuel] bounds the length of the string. *)
Fixpoint strcpy (fuel : nat) (m : memory) (s t : Z) : option memory :=
  match fuel with
  | O => None
  | S fuel' =>
      let c := load8 m t in
      let m := store8 m s c in
      if nonzero c then strcpy fuel' m (s + 1) (t + 1) else Some m
  end.

Fixpoint strcmp (fuel : nat) (p q : array) : option Z :=
  match fuel with
  | O => None
  | S fuel' =>
      if nonzero (p 0) && (p 0 =? q 0) then strcmp fuel' (shift p 1) (shift q 1)
      else Some (p 0 - q 0)
  end.

Fixpoint strlen (fuel : nat) (s : array) (n : Z) : option Z :=
  match fuel with
  | O => None
  | S fuel' => if nonzero (s n) then strlen fuel' s (n + 1) else Some n
  end.

Definition memset (m : memory) (dst c n : Z) : memory := memset_loop (Z.to_nat n) m dst c 0.

(** The loop of [gets]: [input] is what [read] delivers, one byte at a time, and
    the result is the contents of [buf] before the final NUL with the input
    left. *)
Fixpoint gets_loop (room : nat) (input : list Z) : list Z * list Z :=
  match room, input with
  | S room', c :: input' =>
      if (c =? 10) || (c =? 13) then ([c], input')
      else let '(l, rest) := gets_loop room' input' in (c :: l, rest)
  | _, _ => ([], input)
  end.

(** [i+1 < max] leaves room for [max - 1] bytes. *)
Definition gets (max : Z) (input : list Z) : list Z * list Z := gets_loop (Z.to_nat (max - 1)) input.

Definition memmove (m : memory) (vdst vsrc n : Z) : memory :=
  if vsrc >? vdst then copy_forward (Z.to_nat n) m vdst vsrc
  else copy_backward (Z.to_nat n) m (vdst + n) (vsrc + n).

Fixpoint memcmp_loop (n : nat) (p1 p2 : array) : Z :=
  match n with
  | O => 0
  | S n' => if p1 0 =? p2 0 then memcmp_loop n' (shift p1 1) (shift p2 1) else p1 0 - p2 0
  end.

Definition memcmp (s1 s2 : array) (n : Z) : Z := memcmp_loop (Z.to_nat n) s1 s2.

Definition memcpy (m : memory) (dst src n : Z) : memory := memmove m dst src n.

End Ulib.

(** * Lemmas *)

(** The string in an array: its bytes before the first NUL. *)
Definition holds_string (s : array) (l : list Z) : Prop :=
  (∀ i, 0 ≤ i → 0 ≤ s i < 256) ∧ (∀ k c, l !! k = Some c → s (Z.of_nat k) = c ∧ c ≠ 0) ∧ s (Z.of_nat (length l)) = 0.

Lemma holds_string_cons s c l : holds_string s (c :: l) → s 0 = c ∧ c ≠ 0 ∧ holds_string (shift s 1) l.
Proof.
  intros (Hb & Hl & Hz). destruct (Hl 0%nat c eq_refl) as [H0 Hc]. split; [done|]. split; [done|].
  unfold shift. split_and!.
  - intros i Hi. apply Hb. lia.
  - intros k d Hd. replace (1 + Z.of_nat k) with (Z.of_nat (S k)) by lia. by apply (Hl (S k)).
  - by replace (1 + Z.of_nat (length l)) with (Z.of_nat (length (c :: l))) by (simpl; lia).
Qed.

Lemma holds_string_nil s : holds_string s [] → s 0 = 0.
Proof. by intros (_ & _ & Hz). Qed.

Lemma strcmp_spec fuel p q l1 l2 :
  holds_string p l1 → holds_string q l2 → (length l1 < fuel)%nat →
  ∃ r, Ulib.strcmp fuel p q = Some r ∧ (r = 0 ↔ l1 = l2).
Proof.
  revert p q l1 l2. induction fuel as [|fuel IH]; intros p q l1 l2 Hp Hq Hf; [lia|]. cbn [Ulib.strcmp].
  destruct l1 as [|c1 l1].
  - apply holds_string_nil in Hp. rewrite Hp. simpl. eexists. split; [done|].
    destruct l2 as [|c2 l2]; [apply holds_string_nil in Hq; rewrite Hq; done|].
    apply holds_string_cons in Hq as (-> & Hc & _). split; [lia|done].
  - apply holds_string_cons in Hp as (Ep & Hc1 & Hp'). rewrite Ep, (proj2 (nonzero_true c1)) by done. cbn [andb].
    destruct l2 as [|c2 l2].
    + apply holds_string_nil in Hq. rewrite Hq. destruct (Z.eqb_spec c1 0); [done|]. eexists. split; [done|]. split; [lia|done].
    + apply holds_string_cons in Hq as (Eq & Hc2 & Hq'). rewrite Eq. destruct (Z.eqb_spec c1 c2) as [->|Hne].
      * destruct (IH _ _ l1 l2 Hp' Hq' ltac:(simpl in Hf; lia)) as (r & -> & Hr). exists r. split; [done|].
        rewrite Hr. split; [by intros ->|by intros [= ->]].
      * eexists. split; [done|]. split; [lia|congruence].
Qed.

Lemma gets_loop_spec room input l rest :
  Ulib.gets_loop room input = (l, rest) →
  input = l ++ rest ∧ (length l ≤ room)%nat ∧
  (∀ k c, l !! k = Some c → c = 10 ∨ c = 13 → k = (length l - 1)%nat) ∧
  ((length l < room)%nat → rest = [] ∨ ∃ c, last l = Some c ∧ (c = 10 ∨ c = 13)).
Proof.
  revert input l rest. induction room as [|room IH]; intros input l rest; cbn [Ulib.gets_loop].
  { intros [= <- <-]. split_and!; [done|done|by intros k c|simpl; lia]. }
  destruct input as [|c input].
  { intros [= <- <-]. split_and!; [done|simpl; lia|by intros k c|by left]. }
  destruct ((c =? 10) || (c =? 13)) eqn:Ec.
  { intros [= <- <-]. split_and!; [done|simpl; lia|..].
    - intros [|k] d; [done|done].
    - right. exists c. split; [done|lia]. }
  destruct (Ulib.gets_loop room input) as [l0 r0] eqn:E. intros [= <- <-].
  destruct (IH _ _ _ E) as (-> & Hlen & Hmid & Hend). split_and!; [done|simpl; lia|..].
  - intros [|k] d; simpl; [intros [= ->]; lia|]. intros Hk Hd. rewrite (Hmid k d Hk Hd).
    apply lookup_lt_Some in Hk. lia.
  - simpl. intros Hr. destruct (Hend ltac:(lia)) as [?|(d & Hd & Hnl)]; [by left|]. right. exists d.
    split; [|done]. by destruct l0.
Qed.

(** * Properties *)

(** [memmove] of the user library, which chooses the direction by another
    test than the kernel's, leaves the same bytes in memory as the kernel's for
    all regions, overlapping or not. *)
Theorem ulib_memmove_equiv m dst src n x :
  0 ≤ n → load8 (Ulib.memmove m dst src n) x = load8 (CString.memmove m dst src n) x.
Proof.
  intros Hn. rewrite load8_memmove by done. unfold Ulib.memmove. destruct (Z.gtb_spec src dst).
  - rewrite load8_copy_forward, Z2Nat.id by lia. done.
  - rewrite load8_copy_backward, Z2Nat.id by lia.
    replace (dst + n - n) with dst by lia. by replace (src + n - (dst + n) + x) with (src + (x - dst)) by lia.
Qed.

Lemma ulib_memmove_equiv_witness :
  load8 (Ulib.memmove (λ a, a) 12 10 5) 14 = load8 (CString.memmove (λ a, a) 12 10 5) 14.
Proof. apply ulib_memmove_equiv. lia. Defined.

(** [strcmp] returns 0 exactly for equal strings, and [gets] takes the bytes
    up to the end of the line, but no more than the buffer holds. *)
Theorem ulib_strings p q l1 l2 max input l rest :
  holds_string p l1 → holds_string q l2 → Ulib.gets max input = (l, rest) →
  (∃ r, Ulib.strcmp (S (length l1)) p q = Some r ∧ (r = 0 ↔ l1 = l2)) ∧
  input = l ++ rest ∧ Z.of_nat (length l) ≤ Z.max 0 (max - 1) ∧
  (∀ k c, l !! k = Some c → c = 10 ∨ c = 13 → k = (length l - 1)%nat) ∧
  (Z.of_nat (length l) < max - 1 → rest = [] ∨ ∃ c, last l = Some c ∧ (c = 10 ∨ c = 13)).
Proof.
  intros Hp Hq Hg. split; [by eapply strcmp_spec; [..|lia]|].
  destruct (gets_loop_spec _ _ _ _ Hg) as (E & Hlen & Hmid & Hend).
  split_and!; [done|lia|done|]. intros Hlt. apply Hend. lia.
Qed.

Lemma ulib_strings_witness :
  Ulib.strcmp 3 (bytes_of [104; 105]) (bytes_of [104; 105; 33]) = Some (-33) ∧
  Ulib.gets 10 [104; 105; 10; 120] = ([104; 105; 10], [120]) ∧
  ∃ r, Ulib.strcmp 3 (bytes_of [104; 105]) (bytes_of [104; 105; 33]) = Some r ∧ (r = 0 ↔ [104; 105] = [104; 105; 33]).
Proof.
  split; [reflexivity|]. split; [reflexivity|].
  assert (∀ l, Forall (λ c, 0 < c < 256) l → holds_string (bytes_of l) l) as Hs.
  { intros l Hl. rewrite Forall_lookup in Hl. unfold holds_string, bytes_of. split_and!.
    - intros i Hi. destruct (l !! Z.to_nat i) as [c|] eqn:E; simpl; [|lia]. specialize (Hl _ _ E). simpl in Hl. lia.
    - intros k c E. rewrite Nat2Z.id, E. specialize (Hl _ _ E). simpl in *. lia.
    - rewrite Nat2Z.id. by rewrite lookup_ge_None_2. }
  apply (ulib_strings (bytes_of [104; 105]) (bytes_of [104; 105; 33]) [104; 105] [104; 105; 33] 10 [104; 105; 10; 120]
           [104; 105; 10] [120]); [| |reflexivity]; apply Hs; repeat constructor; lia.
Defined.
