(* ===== verification/Console.v ===== *)
(** * kernel/uart.c and the input side of kernel/console.c

    The 16550a UART as the driver sees it: [ready] is the number of bytes that
    the transmitter takes before the line status register reports it busy, [rx]
    the bytes waiting in the receiver and [wire] the bytes sent.  [uartputc] has
    no result when the caller has to wait for room in the transmit buffer.
    Functions that call [wakeup] tell whether they do.  [uartinit], which only
    writes registers, is in Trap.v. *)

From S2P Require Import Prelude Machine Grep.

Definition UART_TX_BUF_SIZE : Z := 32.

Record uart := Uart {
  uart_tx_buf : Z → Z;
  uart_tx_w : Z;
  uart_tx_r : Z;
  ready : nat;
  rx : list Z;
  wire : list Z
}.

(** [WriteReg(THR, c)] *)
Definition send (c : Z) (u : uart) : uart :=
  Uart (uart_tx_buf u) (uart_tx_w u) (uart_tx_r u) (pred (ready u)) (rx u) (wire u ++ [u8 c]).

(** The result tells whether [wakeup(&uart_tx_r)] was called. *)
Fixpoint uartstart_loop (fuel : nat) (u : uart) (woke : bool) : option (uart * bool) :=
  match fuel with
  | O => None
  | S fuel' =>
      if uart_tx_w u =? uart_tx_r u then Some (u, woke)
      else if (ready u =? 0)%nat then Some (u, woke)
      else
        let c := uart_tx_buf u (uart_tx_r u) in
        let u := Uart (uart_tx_buf u) (uart_tx_w u) ((uart_tx_r u + 1) `mod` UART_TX_BUF_SIZE) (ready u) (rx u) (wire u) in
        uartstart_loop fuel' (send c u) true
  end.

Definition uartstart (u : uart) : option (uart * bool) :=
  uartstart_loop (Z.to_nat UART_TX_BUF_SIZE + 1) u false.

Definition uart_full (u : uart) : bool := (uart_tx_w u + 1) `mod` UART_TX_BUF_SIZE =? uart_tx_r u.

(** The [else] branch of [uartputc]. *)
Definition uart_store (c : Z) (u : uart) : uart :=
  Uart (fset (uart_tx_buf u) (uart_tx_w u) (u8 c)) ((uart_tx_w u + 1) `mod` UART_TX_BUF_SIZE) (uart_tx_r u) (ready u)
    (rx u) (wire u).

Definition uartputc (c : Z) (u : uart) : option (uart * bool) :=
  if uart_full u then None else uartstart (uart_store c u).

(** Spins until the transmitter is idle. *)
Definition uartputc_sync (c : Z) (u : uart) : uart := send c u.

(** ** The console *)

Definition INPUT_BUF : Z := 128.
Definition BACKSPACE : Z := 0x100.
(** [C('P')], [C('U')], [C('H')] and [C('D')] *)
Definition CTRL_P : Z := 16.
Definition CTRL_U : Z := 21.
Definition CTRL_H : Z := 8.
Definition CTRL_D : Z := 4.
Definition DEL : Z := 127.

Definition consputc (c : Z) (u : uart) : uart :=
  if c =? BACKSPACE then uartputc_sync 8 (uartputc_sync 32 (uartputc_sync 8 u)) else uartputc_sync c u.

Record console := Console {
  cons_buf : Z → Z;
  cons_r : Z;
  cons_w : Z;
  cons_e : Z
}.

Definition set_e (e : Z) (s : console) : console := Console (cons_buf s) (cons_r s) (cons_w s) e.

(** The loop of [C('U')]. *)
Fixpoint kill_line (fuel : nat) (s : console) (u : uart) : option (console * uart) :=
  match fuel with
  | O => None
  | S fuel' =>
      if negb (cons_e s =? cons_w s) && negb (cons_buf s (u32 (cons_e s - 1) `mod` INPUT_BUF) =? NL)
      then kill_line fuel' (set_e (u32 (cons_e s - 1)) s) (consputc BACKSPACE u)
      else Some (s, u)
  end.

(** [listing] are the bytes that [procdump] prints.  The result tells whether
    [wakeup(&cons.r)] was called. *)
Definition consoleintr (listing : list Z) (c : Z) (s : console) (u : uart) : option (console * uart * bool) :=
  if c =? CTRL_P then Some (s, foldl (λ u c, consputc c u) u listing, false)
  else if c =? CTRL_U then '(s, u) ← kill_line (Z.to_nat INPUT_BUF + 1) s u; Some (s, u, false)
  else if (c =? CTRL_H) || (c =? DEL) then
    if negb (cons_e s =? cons_w s) then Some (set_e (u32 (cons_e s - 1)) s, consputc BACKSPACE u, false)
    else Some (s, u, false)
  else if nonzero c && (u32 (cons_e s - cons_r s) <? INPUT_BUF) then
    let c := if c =? 13 then NL else c in
    let u := consputc c u in
    let s := Console (fset (cons_buf s) (cons_e s `mod` INPUT_BUF) c) (cons_r s) (cons_w s) (u32 (cons_e s + 1)) in
    if (c =? NL) || (c =? CTRL_D) || (cons_e s =? u32 (cons_r s + INPUT_BUF))
    then Some (Console (cons_buf s) (cons_r s) (cons_e s) (cons_e s), u, true)
    else Some (s, u, false)
  else Some (s, u, false).

(** A byte that has been received, or -1. *)
Definition uartgetc (u : uart) : Z * uart :=
  match rx u with
  | c :: l => (u8 c, Uart (uart_tx_buf u) (uart_tx_w u) (uart_tx_r u) (ready u) l (wire u))
  | [] => (-1, u)
  end.

(** The loop of [uartintr] over the received bytes; [woke] tells whether
    [consoleread] was woken. *)
Fixpoint uartintr_loop (fuel : nat) (listing : list Z) (s : console) (u : uart) (woke : bool)
    : option (console * uart * bool) :=
  match fuel with
  | O => None
  | S fuel' =>
      let '(c, u) := uartgetc u in
      if c =? -1 then Some (s, u, woke)
      else
        '(s, u, w) ← consoleintr listing c s u;
        uartintr_loop fuel' listing s u (woke || w)
  end.

(** Returns whether [cons.r] and whether [uart_tx_r] were woken. *)
Definition uartintr (listing : list Z) (s : console) (u : uart) : option (console * uart * bool * bool) :=
  '(s, u, woke) ← uartintr_loop (length (rx u) + 1) listing s u false;
  '(u, wtx) ← uartstart u;
  Some (s, u, woke, wtx).

(** One byte taken by [consoleread]: [cons.buf[cons.r++ % INPUT_BUF]]. *)
Definition cons_front (s : console) : Z := cons_buf s (cons_r s `mod` INPUT_BUF).
Definition set_r (r : Z) (s : console) : console := Console (cons_buf s) r (cons_w s) (cons_e s).

(** ** What the console promises: complete lines and the line being edited *)

Record cons_view := ConsView { lines : list Z; edit : list Z }.

(** The ring holds the bytes that can be read, then the line being edited, and
    that line has no newline. *)
Definition ring (s : console) (i k : Z) : list Z := (λ j, cons_buf s ((i + j) `mod` INPUT_BUF)) <$> seqZ 0 k.

Record cons_refines (s : console) (v : cons_view) : Prop := {
  cr_r : 0 ≤ cons_r s < 2 ^ 32;
  cr_w : cons_w s = u32 (cons_r s + Z.of_nat (length (lines v)));
  cr_e : cons_e s = u32 (cons_r s + Z.of_nat (length (lines v) + length (edit v)));
  cr_bound : Z.of_nat (length (lines v) + length (edit v)) ≤ INPUT_BUF;
  cr_data : ring s (cons_r s) (Z.of_nat (length (lines v) + length (edit v))) = lines v ++ edit v;
  cr_nl : NL ∉ edit v
}.

(** Typing one character. *)
Definition type_char (c : Z) (v : cons_view) : cons_view :=
  if c =? CTRL_P then v
  else if c =? CTRL_U then ConsView (lines v) []
  else if (c =? CTRL_H) || (c =? DEL) then ConsView (lines v) (removelast (edit v))
  else if nonzero c && (Z.of_nat (length (lines v) + length (edit v)) <? INPUT_BUF) then
    let c := if c =? 13 then NL else c in
    if (c =? NL) || (c =? CTRL_D) || (Z.of_nat (length (lines v) + length (edit v)) =? INPUT_BUF - 1)
    then ConsView (lines v ++ edit v ++ [c]) []
    else ConsView (lines v) (edit v ++ [c])
  else v.

(** The bytes that wait in the transmit buffer. *)
Definition pending_tx (u : uart) : list Z :=
  (λ j, uart_tx_buf u ((uart_tx_r u + j) `mod` UART_TX_BUF_SIZE)) <$>
    seqZ 0 ((uart_tx_w u - uart_tx_r u) `mod` UART_TX_BUF_SIZE).

Record uart_ok (u : uart) : Prop := {
  uo_w : 0 ≤ uart_tx_w u < UART_TX_BUF_SIZE;
  uo_r : 0 ≤ uart_tx_r u < UART_TX_BUF_SIZE;
  uo_bytes : ∀ i, 0 ≤ uart_tx_buf u i < 256
}.

(** * Lemmas *)

(** ** Rings *)

Lemma u32_offset r a b : 0 ≤ a ≤ INPUT_BUF → 0 ≤ b ≤ INPUT_BUF → u32 (r + a) = u32 (r + b) ↔ a = b.
Proof. unfold u32, INPUT_BUF. intros Ha Hb. split; [|by intros ->]. intros E. dlia. Qed.

Lemma u32_mod_ring x : u32 x `mod` INPUT_BUF = x `mod` INPUT_BUF.
Proof. unfold u32, INPUT_BUF. dlia. Qed.

Lemma ring_app s i a b : 0 ≤ a → 0 ≤ b → ring s i (a + b) = ring s i a ++ ring s (i + a) b.
Proof.
  intros Ha Hb. unfold ring. rewrite seqZ_app, fmap_app by done. f_equal.
  apply list_eq. intros j. rewrite !list_lookup_fmap. destruct (decide (Z.of_nat j < b)).
  - rewrite !lookup_seqZ_lt by lia. simpl. do 3 f_equal. lia.
  - rewrite !lookup_seqZ_ge by lia. done.
Qed.

Lemma ring_ext s s' i i' k :
  (∀ j, 0 ≤ j < k → cons_buf s ((i + j) `mod` INPUT_BUF) = cons_buf s' ((i' + j) `mod` INPUT_BUF)) →
  ring s i k = ring s' i' k.
Proof.
  intros H. unfold ring. apply list_fmap_ext. intros n j Hj. apply lookup_seqZ in Hj as [-> Hn]. apply H. lia.
Qed.

Lemma ring_one s i : ring s i 1 = [cons_buf s (i `mod` INPUT_BUF)].
Proof. unfold ring. rewrite seqZ_cons, seqZ_nil by lia. simpl. by rewrite Z.add_0_r. Qed.

(** The last byte of the line being edited. *)
Lemma cons_refines_last s v l x :
  cons_refines s v → edit v = l ++ [x] →
  cons_e s ≠ cons_w s ∧ cons_buf s (u32 (cons_e s - 1) `mod` INPUT_BUF) = x ∧
  cons_refines (set_e (u32 (cons_e s - 1)) s) (ConsView (lines v) l).
Proof.
  intros [Hr Hw He Hb Hd Hnl] El. rewrite El in *. rewrite length_app in *. cbn [length] in *.
  set (a := length (lines v)) in *. set (b := length l) in *.
  assert (u32 (cons_e s - 1) = u32 (cons_r s + Z.of_nat (a + b))) as E1.
  { rewrite He. unfold u32. rewrite Zminus_mod_idemp_l. f_equal. lia. }
  replace (Z.of_nat (a + (b + 1))) with (Z.of_nat (a + b) + 1) in Hd by lia.
  rewrite ring_app, ring_one in Hd by lia. rewrite app_assoc in Hd. apply app_inj_tail in Hd as [Hd Hx].
  rewrite elem_of_app in Hnl. split_and!.
  - rewrite He, Hw, u32_offset by lia. lia.
  - by rewrite E1, u32_mod_ring.
  - split; simpl; try done; [lia|tauto].
Qed.

Lemma cons_refines_nil s v : cons_refines s v → edit v = [] → cons_e s = cons_w s.
Proof. intros [Hr Hw He Hb Hd Hnl] El. rewrite He, Hw, El. by rewrite Nat.add_0_r. Qed.

(** A byte at the end of the line being edited. *)
Lemma cons_refines_push s v c :
  cons_refines s v → Z.of_nat (length (lines v) + length (edit v)) < INPUT_BUF →
  let s' := Console (fset (cons_buf s) (cons_e s `mod` INPUT_BUF) c) (cons_r s) (cons_w s) (u32 (cons_e s + 1)) in
  cons_e s' = u32 (cons_r s + (Z.of_nat (length (lines v) + length (edit v)) + 1)) ∧
  ring s' (cons_r s) (Z.of_nat (length (lines v) + length (edit v)) + 1) = lines v ++ edit v ++ [c].
Proof.
  intros [Hr Hw He Hb Hd Hnl] Hlt s'. set (n := Z.of_nat (length (lines v) + length (edit v))) in *.
  assert (0 ≤ n) by (unfold n; lia). split.
  - simpl. rewrite He. unfold u32. rewrite Zplus_mod_idemp_l. f_equal. lia.
  - rewrite ring_app, ring_one by lia. rewrite app_assoc, <-Hd. f_equal.
    + apply ring_ext. intros j Hj. simpl. rewrite fset_ne; [done|]. rewrite He, u32_mod_ring.
      unfold INPUT_BUF in *. dlia.
    + simpl. rewrite He, u32_mod_ring. by rewrite fset_eq.
Qed.

Lemma kill_line_spec fuel s u v :
  cons_refines s v → (length (edit v) < fuel)%nat →
  ∃ s' u', kill_line fuel s u = Some (s', u') ∧ cons_refines s' (ConsView (lines v) []).
Proof.
  revert s u v. induction fuel as [|fuel IH]; intros s u v Hs Hf; [lia|]. cbn [kill_line].
  destruct (decide (edit v = [])) as [El|El].
  - rewrite (cons_refines_nil s v Hs El), Z.eqb_refl. cbn [negb andb]. exists s, u. split; [done|].
    destruct v as [ls ed]. simpl in El. by subst ed.
  - destruct (exists_last El) as (l & x & Ex). destruct (cons_refines_last s v l x Hs Ex) as (Hne & Hx & Hs').
    assert (x ≠ NL) as Hxn. { intros ->. apply (cr_nl _ _ Hs). rewrite Ex. set_solver. }
    rewrite Hx. destruct (Z.eqb_spec (cons_e s) (cons_w s)); [done|]. destruct (Z.eqb_spec x NL); [done|]. cbn [negb andb].
    apply (IH _ _ _ Hs'). simpl. rewrite Ex, length_app in Hf. simpl in Hf. lia.
Qed.

(** ** The transmit buffer *)

Lemma pending_tx_cons u : uart_ok u → uart_tx_w u ≠ uart_tx_r u →
  pending_tx u = uart_tx_buf u (uart_tx_r u) ::
    pending_tx (Uart (uart_tx_buf u) (uart_tx_w u) ((uart_tx_r u + 1) `mod` UART_TX_BUF_SIZE) (ready u) (rx u) (wire u)).
Proof.
  intros [Hw Hr _] Hne. unfold pending_tx. cbn [uart_tx_buf uart_tx_w uart_tx_r].
  set (n := (uart_tx_w u - uart_tx_r u) `mod` UART_TX_BUF_SIZE).
  set (n' := (uart_tx_w u - (uart_tx_r u + 1) `mod` UART_TX_BUF_SIZE) `mod` UART_TX_BUF_SIZE).
  assert (n = n' + 1 ∧ 0 ≤ n') as [En Hn'] by (unfold n, n', UART_TX_BUF_SIZE in *; dlia).
  rewrite En, seqZ_cons by lia. replace (Z.pred (n' + 1)) with n' by lia. cbn [fmap list_fmap]. f_equal.
  - rewrite Z.add_0_r, Z.mod_small by done. done.
  - apply list_eq. intros j. rewrite !list_lookup_fmap. destruct (decide (Z.of_nat j < n')).
    + rewrite !lookup_seqZ_lt by lia. simpl. do 2 f_equal. unfold UART_TX_BUF_SIZE in *. dlia.
    + rewrite !lookup_seqZ_ge by lia. done.
Qed.

Lemma pending_tx_store c u : uart_ok u → uart_full u = false →
  pending_tx (uart_store c u) = pending_tx u ++ [u8 c] ∧ uart_ok (uart_store c u).
Proof.
  intros [Hw Hr Hb] Hf. unfold uart_full in Hf. apply Z.eqb_neq in Hf. split.
  - unfold pending_tx, uart_store. cbn [uart_tx_buf uart_tx_w uart_tx_r].
    set (n := (uart_tx_w u - uart_tx_r u) `mod` UART_TX_BUF_SIZE).
    assert (0 ≤ n < UART_TX_BUF_SIZE - 1 ∧
      ((uart_tx_w u + 1) `mod` UART_TX_BUF_SIZE - uart_tx_r u) `mod` UART_TX_BUF_SIZE = n + 1) as [Hn ->]
      by (unfold n, UART_TX_BUF_SIZE in *; dlia).
    rewrite seqZ_app, fmap_app by lia. f_equal.
    + apply list_fmap_ext. intros i j Hj. apply lookup_seqZ in Hj as [-> Hi]. rewrite fset_ne; [done|].
      unfold n, UART_TX_BUF_SIZE in *. dlia.
    + rewrite seqZ_cons, seqZ_nil by lia. simpl. f_equal.
      replace ((uart_tx_r u + (0 + n)) `mod` UART_TX_BUF_SIZE) with (uart_tx_w u) by (unfold n, UART_TX_BUF_SIZE in *; dlia).
      apply fset_eq.
  - split; simpl; [apply Z.mod_pos_bound; done|done|]. intros i. unfold fset. case_match; [apply u8_range|done].
Qed.

Lemma uartstart_loop_spec fuel u woke :
  uart_ok u → (length (pending_tx u) < fuel)%nat →
  ∃ u' woke', uartstart_loop fuel u woke = Some (u', woke') ∧ uart_ok u' ∧
    wire u' ++ pending_tx u' = wire u ++ pending_tx u ∧ (ready u' = 0%nat ∨ pending_tx u' = []).
Proof.
  revert u woke. induction fuel as [|fuel IH]; intros u woke Hu Hf; [lia|]. cbn [uartstart_loop].
  destruct (Z.eqb_spec (uart_tx_w u) (uart_tx_r u)) as [E|E].
  { exists u, woke. split_and!; [done|done|done|]. right. unfold pending_tx. rewrite E, Z.sub_diag. done. }
  destruct (Nat.eqb_spec (ready u) 0) as [E0|E0]; [by exists u, woke; auto|].
  pose proof (pending_tx_cons u Hu E) as Hp. destruct Hu as [Hw Hr Hb].
  set (u1 := send _ _). destruct (IH u1 true) as (u' & woke' & -> & Hu' & Hwire & Hend).
  - split; simpl; [done|apply Z.mod_pos_bound; done|done].
  - change (pending_tx u1) with (pending_tx (Uart (uart_tx_buf u) (uart_tx_w u)
      ((uart_tx_r u + 1) `mod` UART_TX_BUF_SIZE) (ready u) (rx u) (wire u))). rewrite Hp in Hf. simpl in Hf. lia.
  - exists u', woke'. split_and!; [done|done| |done]. rewrite Hwire, Hp. unfold u1. simpl.
    rewrite u8_small by apply Hb. by rewrite <-app_assoc.
Qed.

Lemma length_pending_tx u : (length (pending_tx u) < 32)%nat.
Proof.
  unfold pending_tx. rewrite length_fmap, length_seqZ. pose proof (Z.mod_pos_bound (uart_tx_w u - uart_tx_r u) 32).
  unfold UART_TX_BUF_SIZE in *. lia.
Qed.

Lemma uartstart_loop_rx fuel u woke u' woke' : uartstart_loop fuel u woke = Some (u', woke') → rx u' = rx u.
Proof.
  revert u woke. induction fuel as [|fuel IH]; intros u woke; [done|]. cbn [uartstart_loop].
  repeat case_match; [by intros [= <- _]..|]. intros E. by rewrite (IH _ _ E).
Qed.

Lemma uartstart_spec u : uart_ok u → ∃ u' woke, uartstart u = Some (u', woke) ∧ uart_ok u' ∧
  wire u' ++ pending_tx u' = wire u ++ pending_tx u ∧ (ready u' = 0%nat ∨ pending_tx u' = []) ∧ rx u' = rx u.
Proof.
  intros Hu. unfold uartstart. pose proof (length_pending_tx u).
  destruct (uartstart_loop_spec (Z.to_nat UART_TX_BUF_SIZE + 1) u false Hu) as (u' & woke & E & Hu' & Hw & Hend).
  { unfold UART_TX_BUF_SIZE. lia. }
  exists u', woke. split; [exact E|]. split_and!; [done..|]. exact (uartstart_loop_rx _ _ _ _ _ E).
Qed.

(** ** Typing *)

Lemma consoleintr_default s v listing c u :
  cons_refines s v → c ≠ 0 → c ≠ CTRL_P → c ≠ CTRL_U → c ≠ CTRL_H → c ≠ DEL →
  ∃ s' u' woke, consoleintr listing c s u = Some (s', u', woke) ∧ cons_refines s' (type_char c v) ∧
    (woke = true ↔ lines (type_char c v) ≠ lines v).
Proof.
  intros Hs H0 HP HU HH HD. pose proof Hs as [Hr Hw He Hb Hd Hnl].
  unfold consoleintr, type_char. rewrite !(proj2 (Z.eqb_neq _ _)) by done. cbn [orb].
  set (n := Z.of_nat (length (lines v) + length (edit v))) in *. assert (0 ≤ n) by (unfold n; lia).
  rewrite (proj2 (nonzero_true c)) by done.
  assert (u32 (cons_e s - cons_r s) = n) as ->.
  { rewrite He. unfold u32. rewrite Zminus_mod_idemp_l. unfold INPUT_BUF in *. rewrite Z.mod_small; lia. }
  destruct (Z.ltb_spec n INPUT_BUF) as [Hlt|Hge]; cbn [andb]; [|by exists s, u, false].
  set (d := if c =? 13 then NL else c). destruct (cons_refines_push s v d Hs Hlt) as [E1 E2].
  set (s' := Console _ _ _ _) in *. fold n in E1, E2. cbv zeta.
  assert ((cons_e s' =? u32 (cons_r s' + INPUT_BUF)) = (n =? INPUT_BUF - 1)) as ->.
  { rewrite E1. change (cons_r s') with (cons_r s). destruct (Z.eqb_spec n (INPUT_BUF - 1)) as [->|Hn].
    - apply Z.eqb_eq. by replace (INPUT_BUF - 1 + 1) with INPUT_BUF by lia.
    - apply Z.eqb_neq. rewrite u32_offset by (unfold INPUT_BUF in *; lia). lia. }
  destruct ((d =? NL) || (d =? CTRL_D) || (n =? INPUT_BUF - 1)) eqn:Ed.
  - do 3 eexists. split; [reflexivity|]. split.
    + assert (length (lines v ++ edit v ++ [d]) = Z.to_nat (n + 1)) as Hlen by (rewrite !length_app; simpl; lia).
      split; cbn [lines edit cons_r cons_w cons_e length]; rewrite ?Nat.add_0_r, ?app_nil_r, ?Hlen, ?Z2Nat.id by lia;
        [done|done|done|lia|exact E2|set_solver].
    + split; [|done]. intros _ E. apply (f_equal length) in E. simpl in E. rewrite !length_app in E. simpl in E. lia.
  - apply orb_false_iff in Ed as [[Hdn _]%orb_false_iff _].
    do 3 eexists. split; [reflexivity|]. split; [|by split].
    assert (length (lines v) + length (edit v ++ [d]) = Z.to_nat (n + 1))%nat as Hlen by (rewrite length_app; simpl; lia).
    split; cbn [lines edit]; rewrite ?Hlen, ?Z2Nat.id by lia; [done|done|done|lia|exact E2|].
    rewrite elem_of_app, list_elem_of_singleton. intros [?|E]; [done|]. rewrite <-E in Hdn. by rewrite Z.eqb_refl in Hdn.
Qed.

Lemma consoleintr_refines s v listing c u :
  cons_refines s v →
  ∃ s' u' woke, consoleintr listing c s u = Some (s', u', woke) ∧ cons_refines s' (type_char c v) ∧
    (woke = true ↔ lines (type_char c v) ≠ lines v).
Proof.
  intros Hs. destruct (decide (c = 0)) as [->|H0].
  { exists s, u, false. by split. }
  destruct (decide (c = CTRL_P)) as [->|HP]; [by do 3 eexists|].
  destruct (decide (c = CTRL_U)) as [->|HU].
  { destruct (kill_line_spec (Z.to_nat INPUT_BUF + 1) s u v Hs) as (s' & u' & E & Hs').
    { pose proof (cr_bound _ _ Hs). lia. }
    unfold consoleintr. cbn [Z.eqb]. change (CTRL_U =? CTRL_P) with false. rewrite Z.eqb_refl. cbv iota.
    rewrite E. by exists s', u', false. }
  destruct (decide (c = CTRL_H ∨ c = DEL)) as [Hbs|Hbs].
  2: { apply consoleintr_default; naive_solver. }
  unfold consoleintr, type_char. rewrite (proj2 (Z.eqb_neq c CTRL_P)), (proj2 (Z.eqb_neq c CTRL_U)) by done.
  replace ((c =? CTRL_H) || (c =? DEL)) with true by (destruct Hbs as [-> | ->]; done).
  destruct (decide (edit v = [])) as [El|El].
  - rewrite (cons_refines_nil s v Hs El), Z.eqb_refl. cbn [negb]. exists s, u, false. rewrite El. cbn [removelast].
    split; [done|]. split; [|done]. destruct v as [ls ed]. simpl in El. by subst ed.
  - destruct (exists_last El) as (l & x & Ex). destruct (cons_refines_last s v l x Hs Ex) as (Hne & _ & Hs').
    rewrite (proj2 (Z.eqb_neq (cons_e s) (cons_w s))) by done. cbn [negb].
    do 3 eexists. split; [reflexivity|]. rewrite Ex, removelast_last. by split.
Qed.

Lemma cons_refines_take s v b l :
  cons_refines s v → lines v = b :: l →
  cons_front s = b ∧ cons_refines (set_r (u32 (cons_r s + 1)) s) (ConsView l (edit v)).
Proof.
  intros [Hr Hw He Hb Hd Hnl] El. rewrite El in *. cbn [length] in *.
  set (k := (length l + length (edit v))%nat) in *. replace (S (length l) + length (edit v))%nat with (S k) in * by (unfold k; lia).
  replace (Z.of_nat (S k)) with (1 + Z.of_nat k) in * by lia.
  rewrite ring_app, ring_one in Hd by lia. simpl in Hd. injection Hd as Hb0 Hd. split; [done|].
  split; cbn [lines edit set_r cons_r cons_w cons_e cons_buf]; fold k.
  - apply u32_range.
  - rewrite Hw. unfold u32. rewrite Zplus_mod_idemp_l. f_equal. lia.
  - rewrite He. unfold u32. rewrite Zplus_mod_idemp_l. f_equal. lia.
  - lia.
  - rewrite <-Hd. apply ring_ext. intros j Hj. cbn [set_r cons_buf]. f_equal.
    unfold u32, INPUT_BUF. dlia.
  - done.
Qed.

(** ** The interrupt handler *)

(** What the console code does to the UART, besides sending. *)
Record echoes (u u' : uart) : Prop := {
  ec_buf : uart_tx_buf u' = uart_tx_buf u;
  ec_w : uart_tx_w u' = uart_tx_w u;
  ec_r : uart_tx_r u' = uart_tx_r u;
  ec_rx : rx u' = rx u;
  ec_wire : wire u `prefix_of` wire u'
}.

#[global] Instance echoes_po : PreOrder echoes.
Proof.
  split; [by split|]. intros u1 u2 u3 [? ? ? ? ?] [? ? ? ? ?].
  split; [congruence..|by etrans].
Qed.

Lemma echoes_send c u : echoes u (send c u).
Proof. split; try done. by apply prefix_app_r. Qed.

Lemma echoes_consputc c u : echoes u (consputc c u).
Proof. unfold consputc, uartputc_sync. case_match; [|apply echoes_send]. do 2 (etrans; [|apply echoes_send]). apply echoes_send. Qed.

Lemma echoes_listing l u : echoes u (foldl (λ u c, consputc c u) u l).
Proof. revert u. induction l as [|c l IH]; intros u; [done|]. simpl. etrans; [apply echoes_consputc|apply IH]. Qed.

Lemma echoes_kill_line fuel s u s' u' : kill_line fuel s u = Some (s', u') → echoes u u'.
Proof.
  revert s u. induction fuel as [|fuel IH]; intros s u; [done|]. cbn [kill_line]. case_match.
  - intros E. etrans; [apply echoes_consputc|by eapply IH].
  - by intros [= -> ->].
Qed.

Lemma echoes_consoleintr listing c s u s' u' w : consoleintr listing c s u = Some (s', u', w) → echoes u u'.
Proof.
  unfold consoleintr. destruct (c =? CTRL_P); [intros [= _ <- _]; apply echoes_listing|].
  destruct (c =? CTRL_U).
  { destruct (kill_line _ s u) as [[s1 u1]|] eqn:E; [|discriminate]. intros [= <- <- <-]. by eapply echoes_kill_line. }
  destruct ((c =? CTRL_H) || (c =? DEL)).
  { destruct (negb _); intros [= _ <- _]; [apply echoes_consputc|reflexivity]. }
  destruct (nonzero c && _); [|intros [= _ <- _]; reflexivity]. cbv zeta.
  destruct (_ || _ || _); intros [= _ <- _]; apply echoes_consputc.
Qed.

Lemma uartintr_loop_spec fuel listing s u v woke : cons_refines s v → (length (rx u) < fuel)%nat →
  ∃ s' u' woke', uartintr_loop fuel listing s u woke = Some (s', u', woke') ∧
    cons_refines s' (foldl (λ v c, type_char (u8 c) v) v (rx u)) ∧ rx u' = [] ∧
    pending_tx u' = pending_tx u ∧ wire u `prefix_of` wire u' ∧ (uart_ok u → uart_ok u').
Proof.
  revert s u v woke. induction fuel as [|fuel IH]; intros s u v woke Hs Hf; [lia|]. cbn [uartintr_loop]. unfold uartgetc.
  destruct (rx u) as [|c l] eqn:El; [by exists s, u, woke|]. cbv beta iota zeta.
  pose proof (u8_range c). rewrite (proj2 (Z.eqb_neq _ _)) by lia. set (u1 := Uart _ _ _ _ _ _).
  destruct (consoleintr_refines s v listing (u8 c) u1 Hs) as (s2 & u2 & w & E & Hs2 & _). rewrite E. cbn.
  destruct (echoes_consoleintr _ _ _ _ _ _ _ E) as [E1 E2 E3 E4 E5].
  destruct (IH s2 u2 (type_char (u8 c) v) (woke || w) Hs2) as (s' & u' & w' & E' & Hs' & Hrx & Hp & Hw & Hok).
  { rewrite E4. simpl in Hf |- *. lia. }
  rewrite E' . exists s', u', w'. rewrite E4 in Hs'. split_and!; [done|done|done| |by etrans|].
  - rewrite Hp. unfold pending_tx. by rewrite E1, E2, E3.
  - intros [? ? ?]. apply Hok. split; rewrite ?E1, ?E2, ?E3; done.
Qed.

Lemma uartintr_eq listing s u s' u1 woke u' wtx :
  uartintr_loop (length (rx u) + 1) listing s u false = Some (s', u1, woke) → uartstart u1 = Some (u', wtx) →
  uartintr listing s u = Some (s', u', woke, wtx).
Proof.
  intros E1 E2. unfold uartintr. rewrite E1. cbv [mbind option_bind]. rewrite E2. reflexivity.
Qed.

Lemma uartintr_refines listing s u v : cons_refines s v → uart_ok u →
  ∃ s' u' woke wtx sent, uartintr listing s u = Some (s', u', woke, wtx) ∧
    cons_refines s' (foldl (λ v c, type_char (u8 c) v) v (rx u)) ∧ rx u' = [] ∧
    uart_ok u' ∧ wire u' ++ pending_tx u' = wire u ++ sent ++ pending_tx u ∧ (ready u' = 0%nat ∨ pending_tx u' = []).
Proof.
  intros Hs Hu.
  destruct (uartintr_loop_spec (length (rx u) + 1) listing s u v false Hs ltac:(lia)) as (s' & u1 & w & E & Hs' & Hrx & Hp & [sent Hw] & Hok).
  destruct (uartstart_spec u1 (Hok Hu)) as (u' & wtx & E' & Hu' & Hwp & Hend & Hrx').
  exists s', u', w, wtx, sent. split; [exact (uartintr_eq _ _ _ _ _ _ _ _ E E')|]. clear E E'.
  split; [exact Hs'|]. split_and!; [by rewrite Hrx'|done| |done].
  by rewrite Hwp, Hp, Hw, (assoc_L app).
Qed.

(** * Properties *)

(** C30: the input ring with its three wrapping indices implements line editing:
    whatever character arrives, the handler terminates, and the bytes that can
    be read and the line being edited change as the editor promises (append,
    erase a character, kill the line, complete the line on newline, end-of-file
    or a full buffer), with readers woken exactly when a line is completed;
    [consoleread] takes the complete bytes in order and has to wait exactly when
    there are none.  The interrupt handler of the UART does so for every byte that
    has been received, in order, leaves none behind, loses no byte that waits to be
    sent, and sends until the buffer is empty or the transmitter is busy. *)
Theorem console_line_editing s v listing c u :
  cons_refines s v → uart_ok u →
  (∃ s' u' woke, consoleintr listing c s u = Some (s', u', woke) ∧ cons_refines s' (type_char c v) ∧
     (woke = true ↔ lines (type_char c v) ≠ lines v)) ∧
  (cons_r s = cons_w s ↔ lines v = []) ∧
  (∀ b l, lines v = b :: l → cons_front s = b ∧ cons_refines (set_r (u32 (cons_r s + 1)) s) (ConsView l (edit v))) ∧
  (∃ s' u' woke wtx echoed, uartintr listing s u = Some (s', u', woke, wtx) ∧
     cons_refines s' (foldl (λ v c, type_char (u8 c) v) v (rx u)) ∧ rx u' = [] ∧ uart_ok u' ∧
     wire u' ++ pending_tx u' = wire u ++ echoed ++ pending_tx u ∧ (ready u' = 0%nat ∨ pending_tx u' = [])).
Proof.
  intros Hs Hu. split; [by apply consoleintr_refines|]. split; [|split; [by intros b l; apply cons_refines_take|by apply uartintr_refines]].
  pose proof Hs as [Hr Hw He Hb Hd Hnl]. rewrite Hw, <-(u32_small (cons_r s)) at 1 by done.
  rewrite <-(Z.add_0_r (cons_r s)) at 1. rewrite u32_offset by (unfold INPUT_BUF in *; lia).
  destruct (lines v); simpl; split; try done; lia.
Qed.

(** "ab", a backspace and a carriage return have been received. *)
Lemma console_line_editing_witness :
  let u := Uart (λ _, 0) 31 30 9 [97; 98; 8; 13] [] in
  ∃ s' u' woke wtx, uartintr [] (Console (λ _, 0) 0 0 0) u = Some (s', u', woke, wtx) ∧
    cons_refines s' (ConsView [97; 10] []) ∧ rx u' = [] ∧ pending_tx u' = [].
Proof.
  intros u. set (s := Console (λ _, 0) 0 0 0).
  assert (cons_refines s (ConsView [] [])) as Hs by (split; vm_compute; try done; intros H; inversion H).
  assert (uart_ok u) as Hu by (split; simpl; unfold UART_TX_BUF_SIZE; lia).
  destruct (console_line_editing s (ConsView [] []) [] 97 u Hs Hu) as (_ & _ & _ & s' & u' & woke & wtx & l & E & Hs' & Hrx & _ & _ & Hend).
  exists s', u', woke, wtx. split; [exact E|]. split; [exact Hs'|]. split; [exact Hrx|].
  destruct Hend as [H0|]; [|done]. exfalso. vm_compute in E. injection E as _ <- _ _. by vm_compute in H0.
Defined.

(** Bytes given to [uartputc] reach the wire in order: those sent and those
    still buffered are at every time the bytes accepted, a call is refused only
    when 31 bytes wait, and the interrupt handler sends until the buffer is
    empty or the transmitter is busy. *)
Theorem uart_sends_in_order u c :
  uart_ok u →
  (uart_full u = true ↔ length (pending_tx u) = 31%nat) ∧
  (∀ u' woke, uartputc c u = Some (u', woke) →
     uart_ok u' ∧ wire u' ++ pending_tx u' = wire u ++ pending_tx u ++ [u8 c]) ∧
  (uart_full u = false → is_Some (uartputc c u)) ∧
  (∃ u' woke, uartstart u = Some (u', woke) ∧ uart_ok u' ∧ wire u' ++ pending_tx u' = wire u ++ pending_tx u ∧
     (ready u' = 0%nat ∨ pending_tx u' = [])).
Proof.
  intros Hu. pose proof Hu as [Hw Hr Hb].
  split_and!.
  - unfold uart_full, pending_tx. rewrite length_fmap, length_seqZ, Z.eqb_eq. unfold UART_TX_BUF_SIZE in *. dlia.
  - intros u' woke. unfold uartputc. destruct (uart_full u) eqn:Ef; [done|].
    destruct (pending_tx_store c u Hu Ef) as [Hp Hok]. destruct (uartstart_spec _ Hok) as (u2 & w2 & -> & Hu2 & Hwire & _).
    intros [= <- <-]. split; [done|]. rewrite Hwire, Hp. done.
  - intros Ef. unfold uartputc. rewrite Ef. destruct (pending_tx_store c u Hu Ef) as [_ Hok].
    destruct (uartstart_spec _ Hok) as (u2 & w2 & -> & _). by eexists.
  - destruct (uartstart_spec u Hu) as (u' & woke & E & ? & ? & ? & _). by exists u', woke.
Qed.

Lemma uart_sends_in_order_witness :
  let u := Uart (λ _, 0) 31 30 1 [] [104] in
  ∃ u' woke, uartputc 105 u = Some (u', woke) ∧ wire u' ++ pending_tx u' = [104; 0; 105].
Proof.
  intros u. assert (uart_ok u) as Hu by (split; simpl; unfold UART_TX_BUF_SIZE; lia).
  destruct (uart_sends_in_order u 105 Hu) as (_ & H & Hs & _). destruct (Hs eq_refl) as [[u' woke] E].
  exists u', woke. split; [done|]. destruct (H u' woke E) as [_ ->]. reflexivity.
Defined.
