(* ===== verification/Plic.v ===== *)
(** * The interrupt controller: kernel/plic.c

    The controller is a device behind memory-mapped registers, a parameter: [dread]
    and [dwrite] are a 32-bit read and write of its registers.  [hart] is what
    [cpuid] returns. *)

From S2P Require Import Prelude Machine.
Local Open Scope Z_scope.

Definition UART0_IRQ : Z := 10.
Definition VIRTIO0_IRQ : Z := 1.
Definition PLIC_SENABLE (hart : Z) : Z := PLIC + 0x2080 + hart * 0x100.
Definition PLIC_SPRIORITY (hart : Z) : Z := PLIC + 0x201000 + hart * 0x2000.
Definition PLIC_SCLAIM (hart : Z) : Z := PLIC + 0x201004 + hart * 0x2000.

Section plic.
Context {D : Type} (dread : Z → M D Z) (dwrite : Z → Z → M D unit).

Definition plicinit : M D unit :=
  dwrite (PLIC + UART0_IRQ * 4) 1 ;;
  dwrite (PLIC + VIRTIO0_IRQ * 4) 1.

Definition plicinithart (hart : Z) : M D unit :=
  dwrite (PLIC_SENABLE hart) (Z.lor (Z.shiftl 1 UART0_IRQ) (Z.shiftl 1 VIRTIO0_IRQ)) ;;
  dwrite (PLIC_SPRIORITY hart) 0.

Definition plic_claim (hart : Z) : M D Z :=
  irq ← dread (PLIC_SCLAIM hart);
  mret (s32 irq).

Definition plic_complete (hart irq : Z) : M D unit := dwrite (PLIC_SCLAIM hart) (u32 irq).

End plic.

(** The registers of the harts are distinct words of the 4 MB that [kvminit] maps. *)
Lemma plic_registers h1 h2 : 0 ≤ h1 < 8 → 0 ≤ h2 < 8 →
  (PLIC ≤ PLIC_SENABLE h1 ∧ PLIC_SCLAIM h1 + 4 ≤ PLIC + 0x400000) ∧
  PLIC_SENABLE h1 ≠ PLIC_SPRIORITY h2 ∧ PLIC_SENABLE h1 ≠ PLIC_SCLAIM h2 ∧ PLIC_SPRIORITY h1 ≠ PLIC_SCLAIM h2 ∧
  (h1 ≠ h2 → PLIC_SCLAIM h1 ≠ PLIC_SCLAIM h2 ∧ PLIC_SENABLE h1 ≠ PLIC_SENABLE h2).
Proof. unfold PLIC_SENABLE, PLIC_SPRIORITY, PLIC_SCLAIM, PLIC. lia. Qed.
