(* ===== verification/Kernel.v ===== *)
(** * The state of the kernel, locks, and the process functions that only change it

    Kernel code runs on one state: physical memory and the page allocator, the
    disk with the buffer cache and the log, the inode cache, the file table, the
    pipes, the process table, the console and the UART, and the spin-locks that
    the running thread holds.  [curproc] is the process that runs, as [myproc]
    returns it.  Pointers into a table are indices and a null pointer is
    [NULL], except for pages of memory, which are physical addresses.

    A thread that leaves the CPU in [sched] ends with the outcome [Sleep], in a
    state whose process table tells why.  The functions of proc.c in this file
    are those that schedule, sleep, wake and kill; the context switch itself is
    assembly. *)

From S2P Require Import Prelude Machine CString Kalloc Vm Bio Cache Log Txn Fs Pipe Console.

Definition NPROC : Z := 64.
Definition NOFILE : Z := 16.
Definition NFILE : Z := 100.
Definition NDEV : Z := 10.
Definition MAXARG : Z := 32.
Definition MAXPATH : Z := 128.

(** A spin-lock: the name of the object that it belongs to and its index. *)
Definition lock : Type := string * Z.

(** A null channel. *)
Definition no_chan : chan := (""%string, 0).

Inductive procstate : Type := UNUSED | SLEEPING | RUNNABLE | RUNNING | ZOMBIE.

(** The registers that [swtch] loads: [ra] is the name of the function. *)
Record context := Context { ra : string; ctx_sp : Z }.

Record proc := Proc {
  pstate : procstate;
  parent : Z;
  pchan : chan;
  killed : Z;
  xstate : Z;
  pid : Z;
  kstack : Z;
  sz : Z;
  pagetable : Z;
  trapframe : Z;
  pcontext : context;
  ofile : Z → Z;
  pcwd : Z;
  pname : list Z
}.

Inductive filetype : Type := FD_NONE | FD_PIPE | FD_INODE | FD_DEVICE.

Record file := File {
  ftype : filetype;
  fref : Z;
  readable : bool;
  writable : bool;
  fpipe : Z;
  fip : Z;
  foff : Z;
  fmajor : Z
}.

Record kernel := Kernel {
  kdisk : sys;
  kmach : machine;
  kicache : Z → inode;
  ksb : superblock;
  ftable : Z → file;
  pipes : Z → pipe;
  procs : Z → proc;
  curproc : Z;
  nextpid : Z;
  initproc : Z;
  ticks : Z;
  kcons : console;
  kuart : uart;
  kheld : list lock
}.

(** ** Field updates *)

Definition set_pstate (v : procstate) (x : proc) : proc :=
  Proc v (parent x) (pchan x) (killed x) (xstate x) (pid x) (kstack x) (sz x) (pagetable x) (trapframe x)
    (pcontext x) (ofile x) (pcwd x) (pname x).
Definition set_parent (v : Z) (x : proc) : proc :=
  Proc (pstate x) v (pchan x) (killed x) (xstate x) (pid x) (kstack x) (sz x) (pagetable x) (trapframe x)
    (pcontext x) (ofile x) (pcwd x) (pname x).
Definition set_pchan (v : chan) (x : proc) : proc :=
  Proc (pstate x) (parent x) v (killed x) (xstate x) (pid x) (kstack x) (sz x) (pagetable x) (trapframe x)
    (pcontext x) (ofile x) (pcwd x) (pname x).
Definition set_killed (v : Z) (x : proc) : proc :=
  Proc (pstate x) (parent x) (pchan x) v (xstate x) (pid x) (kstack x) (sz x) (pagetable x) (trapframe x)
    (pcontext x) (ofile x) (pcwd x) (pname x).
Definition set_xstate (v : Z) (x : proc) : proc :=
  Proc (pstate x) (parent x) (pchan x) (killed x) v (pid x) (kstack x) (sz x) (pagetable x) (trapframe x)
    (pcontext x) (ofile x) (pcwd x) (pname x).
Definition set_pid (v : Z) (x : proc) : proc :=
  Proc (pstate x) (parent x) (pchan x) (killed x) (xstate x) v (kstack x) (sz x) (pagetable x) (trapframe x)
    (pcontext x) (ofile x) (pcwd x) (pname x).
Definition set_kstack (v : Z) (x : proc) : proc :=
  Proc (pstate x) (parent x) (pchan x) (killed x) (xstate x) (pid x) v (sz x) (pagetable x) (trapframe x)
    (pcontext x) (ofile x) (pcwd x) (pname x).
Definition set_sz (v : Z) (x : proc) : proc :=
  Proc (pstate x) (parent x) (pchan x) (killed x) (xstate x) (pid x) (kstack x) v (pagetable x) (trapframe x)
    (pcontext x) (ofile x) (pcwd x) (pname x).
Definition set_pagetable (v : Z) (x : proc) : proc :=
  Proc (pstate x) (parent x) (pchan x) (killed x) (xstate x) (pid x) (kstack x) (sz x) v (trapframe x)
    (pcontext x) (ofile x) (pcwd x) (pname x).
Definition set_trapframe (v : Z) (x : proc) : proc :=
  Proc (pstate x) (parent x) (pchan x) (killed x) (xstate x) (pid x) (kstack x) (sz x) (pagetable x) v
    (pcontext x) (ofile x) (pcwd x) (pname x).
Definition set_pcontext (v : context) (x : proc) : proc :=
  Proc (pstate x) (parent x) (pchan x) (killed x) (xstate x) (pid x) (kstack x) (sz x) (pagetable x)
    (trapframe x) v (ofile x) (pcwd x) (pname x).
Definition set_ofile (v : Z → Z) (x : proc) : proc :=
  Proc (pstate x) (parent x) (pchan x) (killed x) (xstate x) (pid x) (kstack x) (sz x) (pagetable x) (trapframe x)
    (pcontext x) v (pcwd x) (pname x).
Definition set_pcwd (v : Z) (x : proc) : proc :=
  Proc (pstate x) (parent x) (pchan x) (killed x) (xstate x) (pid x) (kstack x) (sz x) (pagetable x) (trapframe x)
    (pcontext x) (ofile x) v (pname x).
Definition set_pname (v : list Z) (x : proc) : proc :=
  Proc (pstate x) (parent x) (pchan x) (killed x) (xstate x) (pid x) (kstack x) (sz x) (pagetable x) (trapframe x)
    (pcontext x) (ofile x) (pcwd x) v.

Definition set_ftype (v : filetype) (x : file) : file :=
  File v (fref x) (readable x) (writable x) (fpipe x) (fip x) (foff x) (fmajor x).
Definition set_fref (v : Z) (x : file) : file :=
  File (ftype x) v (readable x) (writable x) (fpipe x) (fip x) (foff x) (fmajor x).
Definition set_readable (v : bool) (x : file) : file :=
  File (ftype x) (fref x) v (writable x) (fpipe x) (fip x) (foff x) (fmajor x).
Definition set_writable (v : bool) (x : file) : file :=
  File (ftype x) (fref x) (readable x) v (fpipe x) (fip x) (foff x) (fmajor x).
Definition set_fpipe (v : Z) (x : file) : file :=
  File (ftype x) (fref x) (readable x) (writable x) v (fip x) (foff x) (fmajor x).
Definition set_fip (v : Z) (x : file) : file :=
  File (ftype x) (fref x) (readable x) (writable x) (fpipe x) v (foff x) (fmajor x).
Definition set_foff (v : Z) (x : file) : file :=
  File (ftype x) (fref x) (readable x) (writable x) (fpipe x) (fip x) v (fmajor x).
Definition set_fmajor (v : Z) (x : file) : file :=
  File (ftype x) (fref x) (readable x) (writable x) (fpipe x) (fip x) (foff x) v.

Definition set_kdisk (v : sys) (x : kernel) : kernel :=
  Kernel v (kmach x) (kicache x) (ksb x) (ftable x) (pipes x) (procs x) (curproc x) (nextpid x) (initproc x)
    (ticks x) (kcons x) (kuart x) (kheld x).
Definition set_kmach (v : machine) (x : kernel) : kernel :=
  Kernel (kdisk x) v (kicache x) (ksb x) (ftable x) (pipes x) (procs x) (curproc x) (nextpid x) (initproc x)
    (ticks x) (kcons x) (kuart x) (kheld x).
Definition set_kicache (v : Z → inode) (x : kernel) : kernel :=
  Kernel (kdisk x) (kmach x) v (ksb x) (ftable x) (pipes x) (procs x) (curproc x) (nextpid x) (initproc x)
    (ticks x) (kcons x) (kuart x) (kheld x).
Definition set_ksb (v : superblock) (x : kernel) : kernel :=
  Kernel (kdisk x) (kmach x) (kicache x) v (ftable x) (pipes x) (procs x) (curproc x) (nextpid x) (initproc x)
    (ticks x) (kcons x) (kuart x) (kheld x).
Definition set_ftable (v : Z → file) (x : kernel) : kernel :=
  Kernel (kdisk x) (kmach x) (kicache x) (ksb x) v (pipes x) (procs x) (curproc x) (nextpid x) (initproc x)
    (ticks x) (kcons x) (kuart x) (kheld x).
Definition set_pipes (v : Z → pipe) (x : kernel) : kernel :=
  Kernel (kdisk x) (kmach x) (kicache x) (ksb x) (ftable x) v (procs x) (curproc x) (nextpid x) (initproc x)
    (ticks x) (kcons x) (kuart x) (kheld x).
Definition set_procs (v : Z → proc) (x : kernel) : kernel :=
  Kernel (kdisk x) (kmach x) (kicache x) (ksb x) (ftable x) (pipes x) v (curproc x) (nextpid x) (initproc x)
    (ticks x) (kcons x) (kuart x) (kheld x).
Definition set_curproc (v : Z) (x : kernel) : kernel :=
  Kernel (kdisk x) (kmach x) (kicache x) (ksb x) (ftable x) (pipes x) (procs x) v (nextpid x) (initproc x)
    (ticks x) (kcons x) (kuart x) (kheld x).
Definition set_nextpid (v : Z) (x : kernel) : kernel :=
  Kernel (kdisk x) (kmach x) (kicache x) (ksb x) (ftable x) (pipes x) (procs x) (curproc x) v (initproc x)
    (ticks x) (kcons x) (kuart x) (kheld x).
Definition set_initproc (v : Z) (x : kernel) : kernel :=
  Kernel (kdisk x) (kmach x) (kicache x) (ksb x) (ftable x) (pipes x) (procs x) (curproc x) (nextpid x) v
    (ticks x) (kcons x) (kuart x) (kheld x).
Definition set_ticks (v : Z) (x : kernel) : kernel :=
  Kernel (kdisk x) (kmach x) (kicache x) (ksb x) (ftable x) (pipes x) (procs x) (curproc x) (nextpid x)
    (initproc x) v (kcons x) (kuart x) (kheld x).
Definition set_kcons (v : console) (x : kernel) : kernel :=
  Kernel (kdisk x) (kmach x) (kicache x) (ksb x) (ftable x) (pipes x) (procs x) (curproc x) (nextpid x)
    (initproc x) (ticks x) v (kuart x) (kheld x).
Definition set_kuart (v : uart) (x : kernel) : kernel :=
  Kernel (kdisk x) (kmach x) (kicache x) (ksb x) (ftable x) (pipes x) (procs x) (curproc x) (nextpid x)
    (initproc x) (ticks x) (kcons x) v (kheld x).
Definition set_kheld (v : list lock) (x : kernel) : kernel :=
  Kernel (kdisk x) (kmach x) (kicache x) (ksb x) (ftable x) (pipes x) (procs x) (curproc x) (nextpid x)
    (initproc x) (ticks x) (kcons x) (kuart x) v.

#[export] Instance procstate_eq_dec : EqDecision procstate.
Proof. solve_decision. Defined.
#[export] Instance filetype_eq_dec : EqDecision filetype.
Proof. solve_decision. Defined.

(** ** Access *)

Definition myproc : M kernel Z := gets curproc.
Definition getp (p : Z) : M kernel proc := gets (λ k, procs k p).
Definition updp (p : Z) (f : proc → proc) : M kernel unit :=
  modify (λ k, set_procs (fset (procs k) p (f (procs k p))) k).
Definition getf (f : Z) : M kernel file := gets (λ k, ftable k f).
Definition updf (f : Z) (g : file → file) : M kernel unit :=
  modify (λ k, set_ftable (fset (ftable k) f (g (ftable k f))) k).

(** ** Spin-locks

    The locks that the running thread holds; no other CPU holds a lock at the
    points where the thread takes one (Spinlock.v models the contention). *)

Definition holding (l : lock) : M kernel bool := gets (λ k, bool_decide (l ∈ kheld k)).

Definition acquire (l : lock) : M kernel unit :=
  h ← holding l;
  if h : bool then panic "acquire" else modify (λ k, set_kheld (l :: kheld k) k).

Definition release (l : lock) : M kernel unit :=
  h ← holding l;
  if h : bool then modify (λ k, set_kheld (filter (λ x, x ≠ l) (kheld k)) k) else panic "release".

(** [&p->lock] *)
Definition plock (p : Z) : lock := ("proc"%string, p).

(** ** kernel/proc.c: scheduling *)

(** [noff] is the number of locks held; with a lock held interrupts are off. *)
Definition sched {A} : M kernel A :=
  p ← myproc;
  h ← holding (plock p);
  held ← gets kheld;
  x ← getp p;
  if negb h then panic "sched p->lock"
  else if negb (length held =? 1)%nat then panic "sched locks"
  else if bool_decide (pstate x = RUNNING) then panic "sched running"
  else λ k, Sleep (pchan x) k.

(** Up to the switch to the scheduler. *)
Definition sleep {A} (c : chan) (lk : lock) : M kernel A :=
  p ← myproc;
  (if bool_decide (lk = plock p) then mret tt else acquire (plock p) ;; release lk) ;;
  updp p (set_pchan c) ;;
  updp p (set_pstate SLEEPING) ;;
  sched.

(** What a thread does when it returns from [sched] inside of [sleep]: it holds
    its own lock. *)
Definition wake_from_sleep (lk : lock) : M kernel unit :=
  p ← myproc;
  updp p (set_pchan no_chan) ;;
  if bool_decide (lk = plock p) then mret tt else release (plock p) ;; acquire lk.

Definition proc_indices : list Z := seqZ 0 NPROC.

Definition wakeup (c : chan) : M kernel unit :=
  for_each proc_indices (λ p,
    acquire (plock p) ;;
    x ← getp p;
    (if bool_decide (pstate x = SLEEPING) && bool_decide (pchan x = c) then updp p (set_pstate RUNNABLE) else mret tt) ;;
    release (plock p)).

(** The channel of a process that waits for a child: [p] itself. *)
Definition proc_chan (p : Z) : chan := ("proc"%string, p).

Definition wakeup1 (p : Z) : M kernel unit :=
  h ← holding (plock p);
  if negb h then panic "wakeup1"
  else
    x ← getp p;
    if bool_decide (pchan x = proc_chan p) && bool_decide (pstate x = SLEEPING)
    then updp p (set_pstate RUNNABLE) else mret tt.

Definition yield {A} : M kernel A :=
  p ← myproc;
  acquire (plock p) ;;
  updp p (set_pstate RUNNABLE) ;;
  sched.

(** The loop of [kill] over the rest of the table. *)
Fixpoint kill_loop (l : list Z) (pid_ : Z) : M kernel Z :=
  match l with
  | [] => mret (-1)
  | p :: l' =>
      acquire (plock p) ;;
      x ← getp p;
      if pid x =? pid_ then
        updp p (set_killed 1) ;;
        (if bool_decide (pstate x = SLEEPING) then updp p (set_pstate RUNNABLE) else mret tt) ;;
        release (plock p) ;;
        mret 0
      else release (plock p) ;; kill_loop l' pid_
  end.

Definition kill (pid_ : Z) : M kernel Z := kill_loop proc_indices pid_.

(** The body of the loop of [scheduler] for one process, up to the switch; the
    result tells whether the process is to run. *)
Definition scheduler_visit (p : Z) : M kernel bool :=
  acquire (plock p) ;;
  x ← getp p;
  if bool_decide (pstate x = RUNNABLE) then
    updp p (set_pstate RUNNING) ;;
    modify (set_curproc p) ;;
    mret true
  else release (plock p) ;; mret false.

(** After the switch back: the process has left its lock held. *)
Definition scheduler_return (p : Z) : M kernel unit :=
  modify (set_curproc NULL) ;; release (plock p).

(** ** Code on a part of the state

    [bio] and [fsys] see the running process's pid and current directory.  When
    such code sleeps it holds the lock of the object it waits for; the thread
    then sleeps in the process table, too.  The processes that it has woken are
    woken in the process table. *)

Definition as_sys (k : kernel) : sys :=
  Sys (Bio (bufs (bc (kdisk k))) (disk (bc (kdisk k))) (trace (bc (kdisk k))) (pid (procs k (curproc k))) []) (lg (kdisk k)).
Definition as_fs (k : kernel) : fsys (sys * machine) :=
  Fsys (as_sys k, kmach k) (kicache k) (ksb k) (pid (procs k (curproc k))) (pcwd (procs k (curproc k))) [].
Definition put_fs (s : fsys (sys * machine)) (k : kernel) : kernel :=
  set_kdisk (blk s).1 (set_kmach (blk s).2 (set_kicache (icache s) k)).

Definition inner_lock : lock := ("inner"%string, 0).

Definition lift {T A} (get : kernel → T) (put : T → kernel → kernel) (woken : T → list chan) (m : M T A) : M kernel A := λ k,
  match m (get k) with
  | Ret a t => (for_each (woken t) wakeup ;; mret a) (put t k)
  | Panic msg => Panic msg
  | Undefined why => Undefined why
  | Sleep c t => (for_each (woken t) wakeup ;; acquire inner_lock ;; sleep c inner_lock) (put t k)
  | OutOfFuel => OutOfFuel
  end.

Definition on_mach {A} : M machine A → M kernel A := zoom kmach set_kmach.
Definition on_sys {A} : M sys A → M kernel A := lift as_sys set_kdisk (λ s, woken (bc s)).
Definition on_fs {A} : M (fsys (sys * machine)) A → M kernel A := lift as_fs put_fs (λ s, woken (bc (blk s).1) ++ f_woken s).

(** The block store of the file system beside the memory of the machine. *)
#[refine] Instance prod_store {S T : Type} (B : BlockStore S) : BlockStore (S * T) := {|
  bs_bread d n := zoom fst (λ s st, (s, st.2)) (bs_bread d n);
  bs_brelse b := zoom fst (λ s st, (s, st.2)) (bs_brelse b);
  bs_log_write b := zoom fst (λ s st, (s, st.2)) (bs_log_write b);
  bs_get b := zoom fst (λ s st, (s, st.2)) (bs_get b);
  bs_put b x := zoom fst (λ s st, (s, st.2)) (bs_put b x);
  bs_inv V L H D s := bs_inv V L H D s.1;
  bs_home := bs_home;
  bs_room := bs_room
|}.
Proof.
  - apply bs_room_ok.
  - intros V L H D s. apply bs_dirty.
  - intros V L H D s n Q Hinv Hn Hd Hsz HQ. apply wp_zoom. eapply bs_bread_ok; try done. intros b s' Hs'. by apply HQ.
  - intros V L H D [s t] n b Q Hinv Hh HQ. apply wp_zoom. by eapply bs_get_ok.
  - intros V L H D s n b x Q Hinv Hh HQ. apply wp_zoom. eapply bs_put_ok; try done. intros s' Hs'. by apply HQ.
  - intros V L H D s n b Q Hinv Hh HQ. apply wp_zoom. eapply bs_put_same; try done. intros s' Hs'. by apply HQ.
  - intros V L H D s n b Q Hinv Hh Hho Hr HQ. apply wp_zoom. eapply bs_log_write_ok; try done. intros s' Hs'. by apply HQ.
  - intros V L H D s n b Q Hinv Hh Hn HQ. apply wp_zoom. eapply bs_brelse_ok; try done. intros s' Hs'. by apply HQ.
Defined.

(** The operations do not depend on the place and size of the log, which only
    the invariant mentions. *)
#[export] Instance kstore : BlockStore (sys * machine) := prod_store (log_store 0 0).

(** ** Copying to and from the running process *)

Definition mach_of_kmem {A} : M machine A → M (sys * machine) A := zoom snd (λ t st, (st.1, t)).

(** [either_copyout(1, addr + off, l, ...)] with the process's page table. *)
Definition user_dst (pt addr : Z) : Z → list Z → M (sys * machine) bool := λ off l,
  r ← mach_of_kmem (copyout pt (u64 (addr + off)) l); mret (negb (r =? -1)).
Definition user_src (pt addr : Z) : Z → Z → M (sys * machine) (list Z * bool) := λ off n,
  '(r, l) ← mach_of_kmem (copyin pt (u64 (addr + off)) n); mret (l, negb (r =? -1)).
(** [either_copyout(0, pa + off, l, ...)]: a kernel address. *)
Definition mem_dst (pa : Z) : Z → list Z → M (sys * machine) bool := λ off l,
  mach_of_kmem (do_mem (λ m, store_bytes m (pa + off) l)) ;; mret true.

Definition either_copyout (user_dst : bool) (dst : Z) (src : list Z) : M kernel Z :=
  if user_dst then p ← myproc; x ← getp p; on_mach (copyout (pagetable x) dst src)
  else on_mach (do_mem (λ m, store_bytes m dst src)) ;; mret 0.

Definition either_copyin (user_src : bool) (src len : Z) : M kernel (Z * list Z) :=
  if user_src then p ← myproc; x ← getp p; on_mach (copyin (pagetable x) src len)
  else l ← gets (λ k, load_bytes (Z.to_nat len) (mem (kmach k)) src); mret (0, l).
