(* ===== verification/File.v ===== *)
(** * Open files: kernel/file.c, with the pipe and console calls they lead to

    The file table and its reference counts, and reading, writing and closing of
    open files.  The pipe functions run the ring buffer of Pipe.v on user
    memory; the console functions run that of Console.v.  [devsw] has an entry
    for the console only. *)

From S2P Require Import Prelude Machine CString Kalloc Vm Bio Cache Log Txn Fs Pipe Console Kernel.

Section File.
Context `{Image}.

Definition ftable_lock : lock := ("ftable"%string, 0).
Definition cons_lock : lock := ("cons"%string, 0).
Definition uart_tx_lock : lock := ("uart"%string, 0).
Definition pipe_lock (pi : Z) : lock := ("pipe"%string, pi).

Definition cons_chan : chan := ("cons.r"%string, 0).
Definition uart_chan : chan := ("uart_tx_r"%string, 0).
(** [&pi->nread] and [&pi->nwrite] *)
Definition nread_chan (pi : Z) : chan := ("nread"%string, pi).
Definition nwrite_chan (pi : Z) : chan := ("nwrite"%string, pi).

(** ** User memory as the pipe code uses it, one byte at a time *)

Definition user_byte (pt a : Z) (s : machine) : option Z :=
  match copyin pt a 1 s with Ret (0, [b]) _ => Some b | _ => None end.
Definition user_writable (pt a : Z) (s : machine) : bool :=
  match copyout pt a [0] s with Ret 0 _ => true | _ => false end.

(** ** kernel/pipe.c *)

Definition upd_pipe (pi : Z) (x : pipe) : M kernel unit := modify (λ k, set_pipes (fset (pipes k) pi x) k).

Definition pipeclose (pi : Z) (writable : bool) : M kernel unit :=
  acquire (pipe_lock pi) ;;
  x ← gets (λ k, pipes k pi);
  let '(x, closed) := Pipe.pipeclose writable x in
  upd_pipe pi x ;;
  wakeup (if writable then nread_chan pi else nwrite_chan pi) ;;
  release (pipe_lock pi) ;;
  if closed : bool then on_mach (kfree pi) else mret tt.

(** A sleeping writer goes on with the bytes that are left. *)
Definition pipewrite (pi addr n : Z) : M kernel Z :=
  pr ← myproc;
  acquire (pipe_lock pi) ;;
  x ← getp pr;
  m ← gets kmach;
  pp ← gets (λ k, pipes k pi);
  let src := λ i, user_byte (pagetable x) (u64 (addr + i)) m in
  let '(pp, r) := Pipe.pipewrite src (nonzero (killed x)) n pp 0 in
  upd_pipe pi pp ;;
  match r with
  | Sleeps _ => wakeup (nread_chan pi) ;; sleep (nwrite_chan pi) (pipe_lock pi)
  | Returns r =>
      if r =? -1 then release (pipe_lock pi) ;; mret (-1)
      else wakeup (nread_chan pi) ;; release (pipe_lock pi) ;; mret r
  end.

Definition piperead (pi addr n : Z) : M kernel Z :=
  pr ← myproc;
  acquire (pipe_lock pi) ;;
  x ← getp pr;
  m ← gets kmach;
  pp ← gets (λ k, pipes k pi);
  let dst := λ i, user_writable (pagetable x) (u64 (addr + i)) m in
  let '(pp, r, l) := Pipe.piperead dst (nonzero (killed x)) n pp in
  upd_pipe pi pp ;;
  match r with
  | Sleeps _ => sleep (nread_chan pi) (pipe_lock pi)
  | Returns r =>
      if r =? -1 then release (pipe_lock pi) ;; mret (-1)
      else
        for_each (imap pair l) (λ '(i, b), on_mach (copyout (pagetable x) (u64 (addr + Z.of_nat i)) [b]) ;; mret tt) ;;
        wakeup (nwrite_chan pi) ;;
        release (pipe_lock pi) ;;
        mret r
  end.

(** ** kernel/console.c: read and write *)

Definition uartputc (c : Z) : M kernel unit :=
  acquire uart_tx_lock ;;
  u ← gets kuart;
  if uart_full u then sleep uart_chan uart_tx_lock
  else
    match Console.uartputc c u with
    | None => out_of_fuel
    | Some (u, woke) =>
        modify (set_kuart u) ;;
        (if woke : bool then wakeup uart_chan else mret tt) ;;
        release uart_tx_lock
    end.

(** The loop of [consolewrite] with [k] bytes to go. *)
Fixpoint consolewrite_loop (k : nat) (user_src : bool) (src i : Z) : M kernel Z :=
  match k with
  | O => mret i
  | S k' =>
      '(r, l) ← either_copyin user_src (u64 (src + i)) 1;
      if r =? -1 then mret i
      else uartputc (nth 0 l 0) ;; consolewrite_loop k' user_src src (i + 1)
  end.

Definition consolewrite (user_src : bool) (src n : Z) : M kernel Z :=
  acquire cons_lock ;;
  i ← consolewrite_loop (Z.to_nat n) user_src src 0;
  release cons_lock ;;
  mret i.

(** The loop of [consoleread] with [n] bytes to go; returns the final [n], or
    nothing after the early return. *)
Fixpoint consoleread_loop (n : nat) (user_dst : bool) (dst target : Z) : M kernel (option Z) :=
  match n with
  | O => mret (Some 0)
  | S n' =>
      s ← gets kcons;
      if cons_r s =? cons_w s then
        p ← myproc;
        x ← getp p;
        if nonzero (killed x) then release cons_lock ;; mret None else sleep cons_chan cons_lock
      else
        let c := cons_front s in
        modify (set_kcons (set_r (u32 (cons_r s + 1)) s)) ;;
        if c =? CTRL_D then
          (if Z.of_nat n <? target then
             s ← gets kcons; modify (set_kcons (set_r (u32 (cons_r s - 1)) s))
           else mret tt) ;;
          mret (Some (Z.of_nat n))
        else
          r ← either_copyout user_dst dst [c];
          if r =? -1 then mret (Some (Z.of_nat n))
          else if c =? 10 then mret (Some (Z.of_nat n'))
          else consoleread_loop n' user_dst (u64 (dst + 1)) target
  end.

Definition consoleread (user_dst : bool) (dst n : Z) : M kernel Z :=
  let target := n in
  acquire cons_lock ;;
  r ← (if n >? 0 then consoleread_loop (Z.to_nat n) user_dst dst target else mret (Some n));
  match r with
  | None => mret (-1)
  | Some n => release cons_lock ;; mret (target - n)
  end.

Definition CONSOLE : Z := 1.

(** [devsw], as [consoleinit] sets it up. *)
Definition devsw_read (major : Z) : option (bool → Z → Z → M kernel Z) :=
  if major =? CONSOLE then Some consoleread else None.
Definition devsw_write (major : Z) : option (bool → Z → Z → M kernel Z) :=
  if major =? CONSOLE then Some consolewrite else None.

(** ** kernel/file.c *)

Definition filealloc : M kernel Z :=
  acquire ftable_lock ;;
  t ← gets ftable;
  match first_such (λ f, fref (t f) =? 0) (seqZ 0 NFILE) with
  | Some f => updf f (set_fref 1) ;; release ftable_lock ;; mret f
  | None => release ftable_lock ;; mret NULL
  end.

Definition filedup (f : Z) : M kernel Z :=
  acquire ftable_lock ;;
  x ← getf f;
  if fref x <? 1 then panic "filedup"
  else updf f (set_fref (fref x + 1)) ;; release ftable_lock ;; mret f.

Definition fileclose (f : Z) : M kernel unit :=
  acquire ftable_lock ;;
  x ← getf f;
  if fref x <? 1 then panic "fileclose"
  else
    updf f (set_fref (fref x - 1)) ;;
    if fref x - 1 >? 0 then release ftable_lock
    else
      ff ← getf f;
      updf f (λ x, set_ftype FD_NONE (set_fref 0 x)) ;;
      release ftable_lock ;;
      match ftype ff with
      | FD_PIPE => pipeclose (fpipe ff) (writable ff)
      | FD_INODE | FD_DEVICE => on_sys begin_op ;; on_fs (iput (fip ff)) ;; on_sys end_op
      | FD_NONE => mret tt
      end.

(** [struct stat] in memory; its padding, which the code leaves undefined, is 0. *)
Definition le_bytes (n : nat) (v : Z) : list Z := load_bytes n (storen n (λ _, 0) 0 v) 0.
Definition encode_stat (st : stat) : list Z :=
  le_bytes 4 (st_dev st) ++ le_bytes 4 (st_ino st) ++ le_bytes 2 (st_type st) ++ le_bytes 2 (st_nlink st) ++
  le_bytes 4 0 ++ le_bytes 8 (st_size st).

Definition filestat (f addr : Z) : M kernel Z :=
  p ← myproc;
  x ← getf f;
  match ftype x with
  | FD_INODE | FD_DEVICE =>
      on_fs (ilock (fip x)) ;;
      st ← on_fs (stati (fip x));
      on_fs (iunlock (fip x)) ;;
      y ← getp p;
      r ← on_mach (copyout (pagetable y) addr (encode_stat st));
      if r <? 0 then mret (-1) else mret 0
  | _ => mret (-1)
  end.

Definition fileread (f addr n : Z) : M kernel Z :=
  x ← getf f;
  if negb (readable x) then mret (-1)
  else
    match ftype x with
    | FD_PIPE => piperead (fpipe x) addr n
    | FD_DEVICE =>
        if (fmajor x <? 0) || (fmajor x >=? NDEV) then mret (-1)
        else match devsw_read (fmajor x) with None => mret (-1) | Some read => read true addr n end
    | FD_INODE =>
        on_fs (ilock (fip x)) ;;
        p ← myproc;
        y ← getp p;
        x ← getf f;
        '(r, _) ← on_fs (readi (fip x) (user_dst (pagetable y) addr) (foff x) (u32 n));
        (if r >? 0 then updf f (λ x, set_foff (u32 (foff x + r)) x) else mret tt) ;;
        on_fs (iunlock (fip x)) ;;
        mret r
    | FD_NONE => panic "fileread"
    end.

(** The most bytes that one transaction writes. *)
Definition WRITE_MAX : Z := ((MAXOPBLOCKS - 1 - 1 - 2) / 2) * BSIZE.

(** The loop of [filewrite]; returns the final [i]. *)
Fixpoint filewrite_loop (fuel : nat) (f addr i n : Z) : M kernel Z :=
  match fuel with
  | O => out_of_fuel
  | S fuel' =>
      if i <? n then
        let n1 := n - i in
        let n1 := if n1 >? WRITE_MAX then WRITE_MAX else n1 in
        on_sys begin_op ;;
        x ← getf f;
        on_fs (ilock (fip x)) ;;
        p ← myproc;
        y ← getp p;
        x ← getf f;
        r ← on_fs (writei (fip x) (user_src (pagetable y) (u64 (addr + i))) (foff x) n1);
        (if r >? 0 then updf f (λ x, set_foff (u32 (foff x + r)) x) else mret tt) ;;
        on_fs (iunlock (fip x)) ;;
        on_sys end_op ;;
        if r <? 0 then mret i
        else if negb (r =? n1) then panic "short filewrite"
        else filewrite_loop fuel' f addr (i + r) n
      else mret i
  end.

Definition filewrite (f addr n : Z) : M kernel Z :=
  x ← getf f;
  if negb (writable x) then mret (-1)
  else
    match ftype x with
    | FD_PIPE => pipewrite (fpipe x) addr n
    | FD_DEVICE =>
        if (fmajor x <? 0) || (fmajor x >=? NDEV) then mret (-1)
        else match devsw_write (fmajor x) with None => mret (-1) | Some write => write true addr n end
    | FD_INODE =>
        i ← filewrite_loop (Z.to_nat (Z.max 0 n / WRITE_MAX + 2)) f addr 0 n;
        mret (if i =? n then n else -1)
    | FD_NONE => panic "filewrite"
    end.

(** [pipealloc] of kernel/pipe.c: the two files, or nothing.  The page comes
    from [kalloc] filled with 5. *)
Definition pipealloc : M kernel (option (Z * Z)) :=
  f0 ← filealloc;
  if f0 =? NULL then mret None
  else
    f1 ← filealloc;
    if f1 =? NULL then fileclose f0 ;; mret None
    else
      pi ← on_mach kalloc;
      if pi =? 0 then fileclose f0 ;; fileclose f1 ;; mret None
      else
        upd_pipe pi (pipe_init (λ _, 5)) ;;
        updf f0 (λ x, set_fpipe pi (set_writable false (set_readable true (set_ftype FD_PIPE x)))) ;;
        updf f1 (λ x, set_fpipe pi (set_writable true (set_readable false (set_ftype FD_PIPE x)))) ;;
        mret (Some (f0, f1)).

End File.
