(* ===== verification/Proc.v ===== *)
(** * Processes: kernel/proc.c

    Allocation, growth, [fork], [exit] and [wait].  The user registers of a
    process are in its trapframe page; [tf_get] and [tf_set] access the fields
    of [struct trapframe] at their offsets.  A C string is the list of its bytes
    before the NUL. *)

From S2P Require Import Prelude Machine CString Kalloc Vm Bio Cache Log Txn Fs Pipe Console Grep Printf Kernel File.

(** ** struct trapframe *)

Definition TF_SIZE : Z := 288.
Definition tf_kernel_satp : Z := 0.
Definition tf_kernel_sp : Z := 8.
Definition tf_kernel_trap : Z := 16.
Definition tf_epc : Z := 24.
Definition tf_kernel_hartid : Z := 32.
Definition tf_sp : Z := 48.
Definition tf_a0 : Z := 112.
Definition tf_a1 : Z := 120.
Definition tf_a2 : Z := 128.
Definition tf_a3 : Z := 136.
Definition tf_a4 : Z := 144.
Definition tf_a5 : Z := 152.
Definition tf_a7 : Z := 168.

Definition tf_get (p off : Z) : M kernel Z := x ← getp p; on_mach (read64 (trapframe x + off)).
Definition tf_set (p off v : Z) : M kernel unit := x ← getp p; on_mach (write64 (trapframe x + off) v).

(** The string that [safestrcpy(dst, src, 16)] leaves in [dst]. *)
Fixpoint until_nul (l : list Z) : list Z :=
  match l with [] => [] | c :: l' => if c =? 0 then [] else c :: until_nul l' end.
Definition copy_name (l : list Z) : list Z := take 15 (until_nul l).

Section Proc.
Context `{Image}.

Definition pid_lock : lock := ("pid"%string, 0).

(** Without the call of [kvminithart] at its end, which [main] of Trap.v makes. *)
Definition procinit (kernel_pagetable : Z) : M kernel unit :=
  for_each proc_indices (λ p,
    pa ← on_mach kalloc;
    if pa =? 0 then panic "kalloc"
    else
      let va := KSTACK p in
      on_mach (kvmmap kernel_pagetable va pa PGSIZE (Z.lor PTE_R PTE_W)) ;;
      updp p (set_kstack va)).

Definition allocpid : M kernel Z :=
  acquire pid_lock ;;
  pid ← gets nextpid;
  modify (set_nextpid (s32 (pid + 1))) ;;
  release pid_lock ;;
  mret pid.

Definition proc_pagetable (p : Z) : M kernel Z :=
  pagetable ← on_mach uvmcreate;
  if pagetable =? 0 then mret 0
  else
    r ← on_mach (mappages pagetable TRAMPOLINE PGSIZE img_trampoline (Z.lor PTE_R PTE_X));
    if r <? 0 then on_mach (uvmfree pagetable 0) ;; mret 0
    else
      x ← getp p;
      r ← on_mach (mappages pagetable TRAPFRAME PGSIZE (trapframe x) (Z.lor PTE_R PTE_W));
      if r <? 0 then
        on_mach (uvmunmap pagetable TRAMPOLINE 1 false) ;;
        on_mach (uvmfree pagetable 0) ;;
        mret 0
      else mret pagetable.

Definition proc_freepagetable (pagetable sz : Z) : M kernel unit :=
  on_mach (uvmunmap pagetable TRAMPOLINE 1 false) ;;
  on_mach (uvmunmap pagetable TRAPFRAME 1 false) ;;
  on_mach (uvmfree pagetable sz).

Definition freeproc (p : Z) : M kernel unit :=
  x ← getp p;
  (if nonzero (trapframe x) then on_mach (kfree (trapframe x)) else mret tt) ;;
  updp p (set_trapframe 0) ;;
  (if nonzero (pagetable x) then proc_freepagetable (pagetable x) (sz x) else mret tt) ;;
  updp p (set_pagetable 0) ;;
  updp p (set_sz 0) ;;
  updp p (set_pid 0) ;;
  updp p (set_parent NULL) ;;
  updp p (set_pname []) ;;
  updp p (set_pchan no_chan) ;;
  updp p (set_killed 0) ;;
  updp p (set_xstate 0) ;;
  updp p (set_pstate UNUSED).

(** The search loop of [allocproc]: the process is returned with its lock held. *)
Fixpoint find_unused (l : list Z) : M kernel Z :=
  match l with
  | [] => mret NULL
  | p :: l' =>
      acquire (plock p) ;;
      x ← getp p;
      if bool_decide (pstate x = UNUSED) then mret p else release (plock p) ;; find_unused l'
  end.

Definition allocproc : M kernel Z :=
  p ← find_unused proc_indices;
  if p =? NULL then mret NULL
  else
    pid ← allocpid;
    updp p (set_pid pid) ;;
    tf ← on_mach kalloc;
    updp p (set_trapframe tf) ;;
    if tf =? 0 then release (plock p) ;; mret NULL
    else
      pt ← proc_pagetable p;
      updp p (set_pagetable pt) ;;
      if pt =? 0 then freeproc p ;; release (plock p) ;; mret NULL
      else
        x ← getp p;
        updp p (set_pcontext (Context "forkret" (u64 (kstack x + PGSIZE)))) ;;
        mret p.

Definition initcode : list Z :=
  [0x17; 0x05; 0x00; 0x00; 0x13; 0x05; 0x45; 0x02; 0x97; 0x05; 0x00; 0x00; 0x93; 0x85; 0x35; 0x02;
   0x93; 0x08; 0x70; 0x00; 0x73; 0x00; 0x00; 0x00; 0x93; 0x08; 0x20; 0x00; 0x73; 0x00; 0x00; 0x00;
   0xef; 0xf0; 0x9f; 0xff; 0x2f; 0x69; 0x6e; 0x69; 0x74; 0x00; 0x00; 0x24; 0x00; 0x00; 0x00; 0x00;
   0x00; 0x00; 0x00; 0x00].

(** The result of [allocproc] is not checked. *)
Definition userinit : M kernel unit :=
  p ← allocproc;
  modify (set_initproc p) ;;
  if p =? NULL then undefined "userinit: null process"
  else
    x ← getp p;
    on_mach (uvminit (pagetable x) initcode) ;;
    updp p (set_sz PGSIZE) ;;
    tf_set p tf_epc 0 ;;
    tf_set p tf_sp PGSIZE ;;
    updp p (set_pname (copy_name (str "initcode"))) ;;
    ip ← on_fs (namei [slash]);
    updp p (set_pcwd ip) ;;
    updp p (set_pstate RUNNABLE) ;;
    release (plock p).

(** [sz] is a 32-bit [uint] here. *)
Definition growproc (n : Z) : M kernel Z :=
  p ← myproc;
  x ← getp p;
  let sz := u32 (sz x) in
  if n >? 0 then
    r ← on_mach (uvmalloc (pagetable x) sz (u32 (sz + n)));
    let sz := u32 r in
    if sz =? 0 then mret (-1) else updp p (set_sz sz) ;; mret 0
  else if n <? 0 then
    r ← on_mach (uvmdealloc (pagetable x) sz (u32 (sz + n)));
    updp p (set_sz (u32 r)) ;; mret 0
  else updp p (set_sz sz) ;; mret 0.

Definition fd_indices : list Z := seqZ 0 NOFILE.

Definition fork : M kernel Z :=
  p ← myproc;
  np ← allocproc;
  if np =? NULL then mret (-1)
  else
    x ← getp p;
    y ← getp np;
    r ← on_mach (uvmcopy (pagetable x) (pagetable y) (sz x));
    if r <? 0 then freeproc np ;; release (plock np) ;; mret (-1)
    else
      updp np (set_sz (sz x)) ;;
      updp np (set_parent p) ;;
      on_mach (do_mem (λ m, memmove m (trapframe y) (trapframe x) TF_SIZE)) ;;
      tf_set np tf_a0 0 ;;
      for_each fd_indices (λ i,
        x ← getp p;
        if negb (ofile x i =? NULL) then
          f ← filedup (ofile x i);
          updp np (λ y, set_ofile (fset (ofile y) i f) y)
        else mret tt) ;;
      ip ← on_fs (idup (pcwd x));
      updp np (set_pcwd ip) ;;
      updp np (set_pname (copy_name (pname x))) ;;
      y ← getp np;
      let pid := pid y in
      updp np (set_pstate RUNNABLE) ;;
      release (plock np) ;;
      mret pid.

Definition reparent (p : Z) : M kernel unit :=
  for_each proc_indices (λ pp,
    x ← getp pp;
    if parent x =? p then
      acquire (plock pp) ;;
      init ← gets initproc;
      updp pp (set_parent init) ;;
      release (plock pp)
    else mret tt).

(** Does not return: ends in [sched]. *)
Definition exit {A} (status : Z) : M kernel A :=
  p ← myproc;
  init ← gets initproc;
  if p =? init then panic "init exiting"
  else
    for_each fd_indices (λ fd,
      x ← getp p;
      if negb (ofile x fd =? NULL) then
        fileclose (ofile x fd) ;;
        updp p (λ x, set_ofile (fset (ofile x) fd NULL) x)
      else mret tt) ;;
    on_sys begin_op ;;
    x ← getp p;
    on_fs (iput (pcwd x)) ;;
    on_sys end_op ;;
    updp p (set_pcwd NULL) ;;
    acquire (plock init) ;;
    wakeup1 init ;;
    release (plock init) ;;
    acquire (plock p) ;;
    x ← getp p;
    let original_parent := parent x in
    release (plock p) ;;
    acquire (plock original_parent) ;;
    acquire (plock p) ;;
    reparent p ;;
    wakeup1 original_parent ;;
    updp p (set_xstate status) ;;
    updp p (set_pstate ZOMBIE) ;;
    release (plock original_parent) ;;
    sched.

(** The scan of [wait] over the rest of the table: whether there are children,
    or the result of the call. *)
Fixpoint wait_scan (l : list Z) (p addr : Z) (havekids : bool) : M kernel (bool + Z) :=
  match l with
  | [] => mret (inl havekids)
  | np :: l' =>
      x ← getp np;
      if parent x =? p then
        acquire (plock np) ;;
        x ← getp np;
        if bool_decide (pstate x = ZOMBIE) then
          y ← getp p;
          r ← (if nonzero addr then on_mach (copyout (pagetable y) addr (le_bytes 4 (xstate x))) else mret 0);
          if r <? 0 then release (plock np) ;; release (plock p) ;; mret (inr (-1))
          else
            freeproc np ;;
            release (plock np) ;;
            release (plock p) ;;
            mret (inr (pid x))
        else release (plock np) ;; wait_scan l' p addr true
      else wait_scan l' p addr havekids
  end.

(** One round of the [for(;;)] loop: a process that was woken runs it again. *)
Definition wait (addr : Z) : M kernel Z :=
  p ← myproc;
  acquire (plock p) ;;
  r ← wait_scan proc_indices p addr false;
  match r with
  | inr r => mret r
  | inl havekids =>
      x ← getp p;
      if negb havekids || nonzero (killed x) then release (plock p) ;; mret (-1)
      else sleep (proc_chan p) (plock p)
  end.

(** ** The process listing *)

Definition state_name (s : procstate) : list Z :=
  match s with
  | UNUSED => str "unused"
  | SLEEPING => str "sleep "
  | RUNNABLE => str "runble"
  | RUNNING => str "run   "
  | ZOMBIE => str "zombie"
  end.

(** The bytes that [procdump] prints. *)
Definition procdump (k : kernel) : list Z :=
  [NL] ++ mjoin ((λ p,
    let x := procs k p in
    if bool_decide (pstate x = UNUSED) then []
    else default [] (kprintf kdigits (str "%d %s %s") [VInt (pid x); VStr (Some (state_name (pstate x))); VStr (Some (pname x))])
         ++ [NL]) <$> proc_indices).

End Proc.
