(* ===== verification/Exec.v ===== *)
(** * kernel/exec.c

    Loading of an ELF file into a new address space and the layout of the
    initial user stack.  The arguments are the strings at which [argv] points;
    the two headers are decoded from the bytes that [readi] delivers. *)

From S2P Require Import Prelude Machine CString Kalloc Vm Bio Cache Log Txn Fs Pipe Console Kernel File Proc.

(** ** kernel/elf.h *)

Definition ELF_MAGIC : Z := 0x464C457F.
Definition ELF_PROG_LOAD : Z := 1.
Definition ELFHDR_SIZE : Z := 64.
Definition PROGHDR_SIZE : Z := 56.

(** The fields that [exec] uses. *)
Record elfhdr := Elfhdr { elf_magic : Z; elf_entry : Z; elf_phoff : Z; elf_phnum : Z }.
Record proghdr := Proghdr { ph_type : Z; ph_off : Z; ph_vaddr : Z; ph_filesz : Z; ph_memsz : Z }.

Definition decode_elf (l : list Z) : elfhdr :=
  let b := bytes_of l in Elfhdr (load32 b 0) (load64 b 24) (load64 b 32) (load16 b 56).
Definition decode_ph (l : list Z) : proghdr :=
  let b := bytes_of l in Proghdr (load32 b 0) (load64 b 8) (load64 b 16) (load64 b 32) (load64 b 40).

Section Exec.
Context `{Image}.

Fixpoint loadseg_loop (fuel : nat) (pagetable va ip offset sz i : Z) : M kernel Z :=
  match fuel with
  | O => out_of_fuel
  | S fuel' =>
      if i <? sz then
        pa ← on_mach (walkaddr pagetable (u64 (va + i)));
        if pa =? 0 then panic "loadseg: address should exist"
        else
          let n := if sz - i <? PGSIZE then sz - i else PGSIZE in
          '(r, _) ← on_fs (readi ip (mem_dst pa) (u32 (offset + i)) n);
          if negb (r =? n) then mret (-1)
          else loadseg_loop fuel' pagetable va ip offset sz (u32 (i + PGSIZE))
      else mret 0
  end.

Definition loadseg (pagetable va ip offset sz : Z) : M kernel Z :=
  if nonzero (va `mod` PGSIZE) then panic "loadseg: va must be page aligned"
  else loadseg_loop (Z.to_nat (sz / PGSIZE + 2)) pagetable va ip offset sz 0.

(** The loop over the [n] program headers that are left: whether all were
    loaded, and [sz]. *)
Fixpoint load_segments (n : nat) (ip pagetable off sz : Z) : M kernel (bool * Z) :=
  match n with
  | O => mret (true, sz)
  | S n' =>
      '(r, l) ← on_fs (readi ip kernel_dst (u32 off) PROGHDR_SIZE);
      let ph := decode_ph l in
      let next := s32 (off + PROGHDR_SIZE) in
      if negb (r =? PROGHDR_SIZE) then mret (false, sz)
      else if negb (ph_type ph =? ELF_PROG_LOAD) then load_segments n' ip pagetable next sz
      else if ph_memsz ph <? ph_filesz ph then mret (false, sz)
      else if u64 (ph_vaddr ph + ph_memsz ph) <? ph_vaddr ph then mret (false, sz)
      else
        sz1 ← on_mach (uvmalloc pagetable sz (u64 (ph_vaddr ph + ph_memsz ph)));
        if sz1 =? 0 then mret (false, sz)
        else if nonzero (ph_vaddr ph `mod` PGSIZE) then mret (false, sz1)
        else
          r ← loadseg pagetable (ph_vaddr ph) ip (u32 (ph_off ph)) (u32 (ph_filesz ph));
          if r <? 0 then mret (false, sz1) else load_segments n' ip pagetable next sz1
  end.

(** [sp -= n; sp -= sp % 16;] *)
Definition push_sp (sp n : Z) : Z := let sp := u64 (sp - n) in sp - sp `mod` 16.

(** The loop that pushes the argument strings: the final [sp] and [ustack]. *)
Fixpoint push_args (argv : list (list Z)) (argc pagetable sp stackbase : Z) (ustack : list Z)
    : M kernel (option (Z * list Z)) :=
  match argv with
  | [] => mret (Some (sp, ustack))
  | a :: argv' =>
      if argc >=? MAXARG then mret None
      else
        let sp := push_sp sp (Z.of_nat (length a) + 1) in
        if sp <? stackbase then mret None
        else
          r ← on_mach (copyout pagetable sp (a ++ [0]));
          if r <? 0 then mret None
          else push_args argv' (argc + 1) pagetable sp stackbase (ustack ++ [sp])
  end.

(** The part of the path after its last slash. *)
Fixpoint last_elem (path acc : list Z) : list Z :=
  match path with
  | [] => acc
  | c :: path' => if c =? slash then last_elem path' path' else last_elem path' acc
  end.

(** The label [bad]. *)
Definition exec_bad (pagetable sz ip : Z) : M kernel Z :=
  (if nonzero pagetable then proc_freepagetable pagetable sz else mret tt) ;;
  (if negb (ip =? NULL) then on_fs (iunlockput ip) ;; on_sys end_op else mret tt) ;;
  mret (-1).

(** From the allocation of the stack to the end. *)
Definition exec_stack (path : list Z) (argv : list (list Z)) (entry pagetable sz0 : Z) : M kernel Z :=
  p ← myproc;
  x ← getp p;
  let oldsz := sz x in
  let sz := PGROUNDUP sz0 in
  sz1 ← on_mach (uvmalloc pagetable sz (u64 (sz + 2 * PGSIZE)));
  if sz1 =? 0 then exec_bad pagetable sz NULL
  else
    on_mach (uvmclear pagetable (u64 (sz1 - 2 * PGSIZE))) ;;
    let stackbase := u64 (sz1 - PGSIZE) in
    r ← push_args argv 0 pagetable sz1 stackbase [];
    match r with
    | None => exec_bad pagetable sz1 NULL
    | Some (sp, ustack) =>
        let argc := Z.of_nat (length argv) in
        let sp := push_sp sp ((argc + 1) * 8) in
        if sp <? stackbase then exec_bad pagetable sz1 NULL
        else
          r ← on_mach (copyout pagetable sp (mjoin (le_bytes 8 <$> (ustack ++ [0]))));
          if r <? 0 then exec_bad pagetable sz1 NULL
          else
            tf_set p tf_a1 sp ;;
            updp p (set_pname (copy_name (last_elem path path))) ;;
            x ← getp p;
            let oldpagetable := Kernel.pagetable x in
            updp p (set_pagetable pagetable) ;;
            updp p (set_sz sz1) ;;
            tf_set p tf_epc entry ;;
            tf_set p tf_sp sp ;;
            proc_freepagetable oldpagetable oldsz ;;
            mret argc
    end.

Definition exec (path : list Z) (argv : list (list Z)) : M kernel Z :=
  p ← myproc;
  on_sys begin_op ;;
  ip ← on_fs (namei path);
  if ip =? NULL then on_sys end_op ;; mret (-1)
  else
    on_fs (ilock ip) ;;
    '(r, l) ← on_fs (readi ip kernel_dst 0 ELFHDR_SIZE);
    let elf := decode_elf l in
    if negb (r =? ELFHDR_SIZE) then exec_bad 0 0 ip
    else if negb (elf_magic elf =? ELF_MAGIC) then exec_bad 0 0 ip
    else
      pagetable ← proc_pagetable p;
      if pagetable =? 0 then exec_bad 0 0 ip
      else
        '(ok, sz) ← load_segments (Z.to_nat (elf_phnum elf)) ip pagetable (s32 (elf_phoff elf)) 0;
        if negb ok then exec_bad pagetable sz ip
        else
          on_fs (iunlockput ip) ;;
          on_sys end_op ;;
          exec_stack path argv (elf_entry elf) pagetable sz.

End Exec.
