(* ===== verification/Syscall.v ===== *)
(** * System-call arguments (kernel/syscall.c) and process calls (kernel/sysproc.c)

    A system call finds its arguments in the trapframe of the running process.
    Strings are copied from user memory and given to the callee as the list of
    their bytes. *)

From S2P Require Import Prelude Machine CString Kalloc Vm Bio Cache Log Txn Fs Pipe Console Kernel File Proc.

Section Syscall.
Context `{Image}.

(** ** kernel/syscall.c: arguments *)

(** The C result and the value stored in [*ip]. *)
Definition fetchaddr (addr : Z) : M kernel (Z * Z) :=
  p ← myproc;
  x ← getp p;
  if (addr >=? sz x) || (u64 (addr + 8) >? sz x) then mret (-1, 0)
  else
    '(r, l) ← on_mach (copyin (pagetable x) addr 8);
    if negb (r =? 0) then mret (-1, 0) else mret (0, load64 (bytes_of l) 0).

(** The C result and the bytes stored in [buf]. *)
Definition fetchstr (addr max : Z) : M kernel (Z * list Z) :=
  p ← myproc;
  x ← getp p;
  '(err, buf) ← on_mach (copyinstr (pagetable x) addr max);
  if err <? 0 then mret (err, buf) else mret (Z.of_nat (length (until_nul buf)), buf).

Definition argraw (n : Z) : M kernel Z :=
  p ← myproc;
  if n =? 0 then tf_get p tf_a0
  else if n =? 1 then tf_get p tf_a1
  else if n =? 2 then tf_get p tf_a2
  else if n =? 3 then tf_get p tf_a3
  else if n =? 4 then tf_get p tf_a4
  else if n =? 5 then tf_get p tf_a5
  else panic "argraw".

Definition argint (n : Z) : M kernel Z := v ← argraw n; mret (s32 v).
Definition argaddr (n : Z) : M kernel Z := argraw n.

(** The C result and the string in [buf]. *)
Definition argstr (n max : Z) : M kernel (Z * list Z) :=
  addr ← argaddr n;
  '(r, buf) ← fetchstr addr max;
  mret (r, until_nul buf).

(** ** kernel/sysproc.c *)

Definition tickslock : lock := ("time"%string, 0).
Definition ticks_chan : chan := ("ticks"%string, 0).

Definition sys_exit : M kernel Z := n ← argint 0; exit n.
Definition sys_getpid : M kernel Z := p ← myproc; x ← getp p; mret (pid x).
Definition sys_fork : M kernel Z := fork.
Definition sys_wait : M kernel Z := p ← argaddr 0; wait p.

Definition sys_sbrk : M kernel Z :=
  n ← argint 0;
  p ← myproc;
  x ← getp p;
  let addr := s32 (sz x) in
  r ← growproc n;
  if r <? 0 then mret (-1) else mret addr.

(** The [while] loop of [sys_sleep], which a woken process runs again with the
    same [ticks0].  The comparison is unsigned. *)
Definition sleep_round (ticks0 n : Z) : M kernel Z :=
  t ← gets ticks;
  if u32 (t - ticks0) <? u32 n then
    p ← myproc;
    x ← getp p;
    if nonzero (killed x) then release tickslock ;; mret (-1) else sleep ticks_chan tickslock
  else release tickslock ;; mret 0.

Definition sys_sleep : M kernel Z :=
  n ← argint 0;
  acquire tickslock ;;
  ticks0 ← gets ticks;
  sleep_round ticks0 n.

Definition sys_kill : M kernel Z := pid ← argint 0; kill pid.

Definition sys_uptime : M kernel Z :=
  acquire tickslock ;;
  xticks ← gets ticks;
  release tickslock ;;
  mret xticks.

End Syscall.
