(* ===== verification/Sysfile.v ===== *)
(** * File-system system calls: kernel/sysfile.c *)

From S2P Require Import Prelude Machine CString Kalloc Vm Bio Cache Log Txn Fs Pipe Console Kernel File Proc Exec Syscall.

(** ** kernel/fcntl.h *)

Definition O_RDONLY : Z := 0.
Definition O_WRONLY : Z := 1.
Definition O_RDWR : Z := 2.
Definition O_CREATE : Z := 0x200.
Definition O_TRUNC : Z := 0x400.

Definition set_nlink (n : Z) (x : dinode) : dinode :=
  Dinode (itype x) (major x) (minor x) n (isize x) (addrs x).
Definition set_device (ma mi : Z) (x : dinode) : dinode :=
  Dinode (itype x) ma mi (nlink x) (isize x) (addrs x).

(** [ip->nlink += d; iupdate(ip);] *)
Definition add_nlink (ip d : Z) : M kernel unit :=
  on_fs (updi ip (set_din (λ x, set_nlink (s16 (nlink x + d)) x))) ;;
  on_fs (iupdate ip).

Section Sysfile.
Context `{Image}.

(** The descriptor and the file, or nothing for -1. *)
Definition argfd (n : Z) : M kernel (option (Z * Z)) :=
  fd ← argint n;
  p ← myproc;
  x ← getp p;
  if (fd <? 0) || (fd >=? NOFILE) || (ofile x fd =? NULL) then mret None
  else mret (Some (fd, ofile x fd)).

Definition fdalloc (f : Z) : M kernel Z :=
  p ← myproc;
  x ← getp p;
  match first_such (λ fd, ofile x fd =? NULL) fd_indices with
  | Some fd => updp p (λ x, set_ofile (fset (ofile x) fd f) x) ;; mret fd
  | None => mret (-1)
  end.

Definition sys_dup : M kernel Z :=
  a ← argfd 0;
  match a with
  | None => mret (-1)
  | Some (_, f) =>
      fd ← fdalloc f;
      if fd <? 0 then mret (-1) else filedup f ;; mret fd
  end.

Definition sys_read : M kernel Z :=
  a ← argfd 0;
  match a with
  | None => mret (-1)
  | Some (_, f) => n ← argint 2; p ← argaddr 1; fileread f p n
  end.

Definition sys_write : M kernel Z :=
  a ← argfd 0;
  match a with
  | None => mret (-1)
  | Some (_, f) => n ← argint 2; p ← argaddr 1; filewrite f p n
  end.

Definition sys_close : M kernel Z :=
  a ← argfd 0;
  match a with
  | None => mret (-1)
  | Some (fd, f) =>
      p ← myproc;
      updp p (λ x, set_ofile (fset (ofile x) fd NULL) x) ;;
      fileclose f ;;
      mret 0
  end.

Definition sys_fstat : M kernel Z :=
  a ← argfd 0;
  match a with
  | None => mret (-1)
  | Some (_, f) => st ← argaddr 1; filestat f st
  end.

(** The label [bad] of [sys_link]. *)
Definition link_bad (ip : Z) : M kernel Z :=
  on_fs (ilock ip) ;;
  add_nlink ip (-1) ;;
  on_fs (iunlockput ip) ;;
  on_sys end_op ;;
  mret (-1).

Definition sys_link : M kernel Z :=
  '(r, old) ← argstr 0 MAXPATH;
  if r <? 0 then mret (-1)
  else
    '(r, new) ← argstr 1 MAXPATH;
    if r <? 0 then mret (-1)
    else
      on_sys begin_op ;;
      ip ← on_fs (namei old);
      if ip =? NULL then on_sys end_op ;; mret (-1)
      else
        on_fs (ilock ip) ;;
        x ← on_fs (geti ip);
        if itype (din x) =? T_DIR then on_fs (iunlockput ip) ;; on_sys end_op ;; mret (-1)
        else
          add_nlink ip 1 ;;
          on_fs (iunlock ip) ;;
          '(dp, name) ← on_fs (nameiparent new);
          if dp =? NULL then link_bad ip
          else
            on_fs (ilock dp) ;;
            d ← on_fs (geti dp);
            x ← on_fs (geti ip);
            r ← (if negb (i_dev d =? i_dev x) then mret (-1) else on_fs (dirlink dp name (inum x)));
            if r <? 0 then on_fs (iunlockput dp) ;; link_bad ip
            else
              on_fs (iunlockput dp) ;;
              on_fs (iput ip) ;;
              on_sys end_op ;;
              mret 0.

Fixpoint isdirempty_loop (fuel : nat) (dp off : Z) : M kernel bool :=
  match fuel with
  | O => out_of_fuel
  | S fuel' =>
      x ← on_fs (geti dp);
      if off <? isize (din x) then
        '(r, de) ← on_fs (readi dp kernel_dst off DIRENT_SIZE);
        if negb (r =? DIRENT_SIZE) then panic "isdirempty: readi"
        else if nonzero (de_inum de) then mret false
        else isdirempty_loop fuel' dp (off + DIRENT_SIZE)
      else mret true
  end.

Definition isdirempty (dp : Z) : M kernel bool :=
  x ← on_fs (geti dp);
  isdirempty_loop (Z.to_nat (isize (din x) / DIRENT_SIZE + 2)) dp (2 * DIRENT_SIZE).

(** The label [bad] of [sys_unlink]. *)
Definition unlink_bad (dp : Z) : M kernel Z :=
  on_fs (iunlockput dp) ;; on_sys end_op ;; mret (-1).

(** The bytes of "." and "..", with their NUL. *)
Definition dot : list Z := [46].
Definition dotdot : list Z := [46; 46].

Definition sys_unlink : M kernel Z :=
  '(r, path) ← argstr 0 MAXPATH;
  if r <? 0 then mret (-1)
  else
    on_sys begin_op ;;
    '(dp, name) ← on_fs (nameiparent path);
    if dp =? NULL then on_sys end_op ;; mret (-1)
    else
      on_fs (ilock dp) ;;
      if (namecmp (bytes_of name) (bytes_of dot) =? 0) || (namecmp (bytes_of name) (bytes_of dotdot) =? 0)
      then unlink_bad dp
      else
        e ← on_fs (dirlookup dp name);
        match e with
        | None => unlink_bad dp
        | Some (ip, off) =>
            on_fs (ilock ip) ;;
            x ← on_fs (geti ip);
            if nlink (din x) <? 1 then panic "unlink: nlink < 1"
            else
              empty ← (if itype (din x) =? T_DIR then isdirempty ip else mret true);
              if negb empty then on_fs (iunlockput ip) ;; unlink_bad dp
              else
                r ← on_fs (writei dp (kernel_src (replicate (Z.to_nat DIRENT_SIZE) 0)) off DIRENT_SIZE);
                if negb (r =? DIRENT_SIZE) then panic "unlink: writei"
                else
                  (if itype (din x) =? T_DIR then add_nlink dp (-1) else mret tt) ;;
                  on_fs (iunlockput dp) ;;
                  add_nlink ip (-1) ;;
                  on_fs (iunlockput ip) ;;
                  on_sys end_op ;;
                  mret 0
        end.

(** Returns the inode locked, or [NULL]. *)
Definition create (path : list Z) (type_ major_ minor_ : Z) : M kernel Z :=
  '(dp, name) ← on_fs (nameiparent path);
  if dp =? NULL then mret NULL
  else
    on_fs (ilock dp) ;;
    e ← on_fs (dirlookup dp name);
    match e with
    | Some (ip, _) =>
        on_fs (iunlockput dp) ;;
        on_fs (ilock ip) ;;
        x ← on_fs (geti ip);
        if (type_ =? T_FILE) && ((itype (din x) =? T_FILE) || (itype (din x) =? T_DEVICE)) then mret ip
        else on_fs (iunlockput ip) ;; mret NULL
    | None =>
        d ← on_fs (geti dp);
        ip ← on_fs (ialloc (i_dev d) type_);
        on_fs (ilock ip) ;;
        on_fs (updi ip (set_din (λ x, set_nlink 1 (set_device (s16 major_) (s16 minor_) x)))) ;;
        on_fs (iupdate ip) ;;
        x ← on_fs (geti ip);
        (if type_ =? T_DIR then
           add_nlink dp 1 ;;
           r ← on_fs (dirlink ip dot (inum x));
           r ← (if r <? 0 then mret r else on_fs (dirlink ip dotdot (inum d)));
           if r <? 0 then panic "create dots" else mret tt
         else mret tt) ;;
        r ← on_fs (dirlink dp name (inum x));
        if r <? 0 then panic "create: dirlink"
        else on_fs (iunlockput dp) ;; mret ip
    end.

(** [iunlockput(ip); end_op(); return -1;] *)
Definition open_fail (ip : Z) : M kernel Z := on_fs (iunlockput ip) ;; on_sys end_op ;; mret (-1).

(** [sys_open] once the inode is found and locked. *)
Definition open_inode (ip omode : Z) : M kernel Z :=
  x ← on_fs (geti ip);
  if (itype (din x) =? T_DEVICE) && ((major (din x) <? 0) || (major (din x) >=? NDEV)) then open_fail ip
  else
    f ← filealloc;
    fd ← (if f =? NULL then mret (-1) else fdalloc f);
    if fd <? 0 then
      (if negb (f =? NULL) then fileclose f else mret tt) ;;
      open_fail ip
    else
      (if itype (din x) =? T_DEVICE then updf f (λ y, set_fmajor (major (din x)) (set_ftype FD_DEVICE y))
       else updf f (λ y, set_foff 0 (set_ftype FD_INODE y))) ;;
      updf f (set_fip ip) ;;
      updf f (set_readable (negb (nonzero (Z.land omode O_WRONLY)))) ;;
      updf f (set_writable (nonzero (Z.land omode O_WRONLY) || nonzero (Z.land omode O_RDWR))) ;;
      (if nonzero (Z.land omode O_TRUNC) && (itype (din x) =? T_FILE) then on_fs (itrunc ip) else mret tt) ;;
      on_fs (iunlock ip) ;;
      on_sys end_op ;;
      mret fd.

Definition sys_open : M kernel Z :=
  '(n, path) ← argstr 0 MAXPATH;
  if n <? 0 then mret (-1)
  else
    omode ← argint 1;
    on_sys begin_op ;;
    if nonzero (Z.land omode O_CREATE) then
      ip ← create path T_FILE 0 0;
      if ip =? NULL then on_sys end_op ;; mret (-1) else open_inode ip omode
    else
      ip ← on_fs (namei path);
      if ip =? NULL then on_sys end_op ;; mret (-1)
      else
        on_fs (ilock ip) ;;
        x ← on_fs (geti ip);
        if (itype (din x) =? T_DIR) && negb (omode =? O_RDONLY) then open_fail ip
        else open_inode ip omode.

Definition sys_mkdir : M kernel Z :=
  on_sys begin_op ;;
  '(n, path) ← argstr 0 MAXPATH;
  ip ← (if n <? 0 then mret NULL else create path T_DIR 0 0);
  if ip =? NULL then on_sys end_op ;; mret (-1)
  else on_fs (iunlockput ip) ;; on_sys end_op ;; mret 0.

Definition sys_mknod : M kernel Z :=
  on_sys begin_op ;;
  '(n, path) ← argstr 0 MAXPATH;
  ip ← (if n <? 0 then mret NULL
        else major ← argint 1; minor ← argint 2; create path T_DEVICE major minor);
  if ip =? NULL then on_sys end_op ;; mret (-1)
  else on_fs (iunlockput ip) ;; on_sys end_op ;; mret 0.

Definition sys_chdir : M kernel Z :=
  p ← myproc;
  on_sys begin_op ;;
  '(n, path) ← argstr 0 MAXPATH;
  ip ← (if n <? 0 then mret NULL else on_fs (namei path));
  if ip =? NULL then on_sys end_op ;; mret (-1)
  else
    on_fs (ilock ip) ;;
    x ← on_fs (geti ip);
    if negb (itype (din x) =? T_DIR) then on_fs (iunlockput ip) ;; on_sys end_op ;; mret (-1)
    else
      on_fs (iunlock ip) ;;
      y ← getp p;
      on_fs (iput (pcwd y)) ;;
      on_sys end_op ;;
      updp p (set_pcwd ip) ;;
      mret 0.

(** The loop of [sys_exec] with [n] entries of [argv] left: whether it reached
    the null pointer, the pages in [argv] and the strings in them. *)
Fixpoint fetch_args (n : nat) (uargv i : Z) (argv : list Z) (strs : list (list Z))
    : M kernel (bool * list Z * list (list Z)) :=
  match n with
  | O => mret (false, argv, strs)
  | S n' =>
      '(r, uarg) ← fetchaddr (u64 (uargv + 8 * i));
      if r <? 0 then mret (false, argv, strs)
      else if uarg =? 0 then mret (true, argv, strs)
      else
        pg ← on_mach kalloc;
        if pg =? 0 then mret (false, argv, strs)
        else
          '(r, buf) ← fetchstr uarg PGSIZE;
          on_mach (do_mem (λ m, store_bytes m pg buf)) ;;
          if r <? 0 then mret (false, argv ++ [pg], strs)
          else fetch_args n' uargv (i + 1) (argv ++ [pg]) (strs ++ [until_nul buf])
  end.

Definition free_args (argv : list Z) : M kernel unit := for_each argv (λ pg, on_mach (kfree pg)).

Definition sys_exec : M kernel Z :=
  '(n, path) ← argstr 0 MAXPATH;
  if n <? 0 then mret (-1)
  else
    uargv ← argaddr 1;
    '(ok, argv, strs) ← fetch_args (Z.to_nat MAXARG) uargv 0 [] [];
    if ok : bool then
      ret ← exec path strs;
      free_args argv ;;
      mret ret
    else free_args argv ;; mret (-1).

Definition clear_fd (p fd : Z) : M kernel unit := updp p (λ x, set_ofile (fset (ofile x) fd NULL) x).

Definition sys_pipe : M kernel Z :=
  p ← myproc;
  fdarray ← argaddr 0;
  a ← pipealloc;
  match a with
  | None => mret (-1)
  | Some (rf, wf) =>
      fd0 ← fdalloc rf;
      fd1 ← (if fd0 <? 0 then mret (-1) else fdalloc wf);
      if fd1 <? 0 then
        (if fd0 >=? 0 then clear_fd p fd0 else mret tt) ;;
        fileclose rf ;;
        fileclose wf ;;
        mret (-1)
      else
        x ← getp p;
        r ← on_mach (copyout (pagetable x) fdarray (le_bytes 4 fd0));
        r ← (if r <? 0 then mret r else on_mach (copyout (pagetable x) (u64 (fdarray + 4)) (le_bytes 4 fd1)));
        if r <? 0 then
          clear_fd p fd0 ;;
          clear_fd p fd1 ;;
          fileclose rf ;;
          fileclose wf ;;
          mret (-1)
        else mret 0
  end.

End Sysfile.
