(* ===== verification/Trap.v ===== *)
(** * Dispatch of system calls (kernel/syscall.c), traps (kernel/trap.c) and start-up (kernel/main.c)

    The control registers that the trap code reads are a record, with the values
    at the entry of the handler.  Its writes to control registers and devices,
    which are not part of the state of the kernel, are calls of the parameter
    [hw], in the order of the code, and its reads of device registers calls of
    [hr]; what the way back into the interrupted code depends on is also the result
    of the handler.  [disk_intr] is the effect of [virtio_disk_intr];
    [usertrap_addr] and [kernelvec_addr] are the addresses of the two routines. *)

From S2P Require Import Prelude Machine CString Kalloc Vm Bio Cache Log Txn Fs Pipe Console Grep Printf Plic Kernel File Proc Exec Syscall Sysfile.

(** ** kernel/syscall.h *)

Section Trap.
Context `{Image}.

(** [printf] of the kernel. *)
Definition kernel_printf (fmt : string) (ap : list varg) : M kernel unit :=
  match kprintf kdigits (str fmt) ap with
  | None => undefined "printf"
  | Some l => modify (λ k, set_kuart (foldl (λ u c, consputc c u) (kuart k) l) k)
  end.

Definition syscalls (num : Z) : option (M kernel Z) :=
  match num with
  | 1 => Some sys_fork
  | 2 => Some sys_exit
  | 3 => Some sys_wait
  | 4 => Some sys_pipe
  | 5 => Some sys_read
  | 6 => Some sys_kill
  | 7 => Some sys_exec
  | 8 => Some sys_fstat
  | 9 => Some sys_chdir
  | 10 => Some sys_dup
  | 11 => Some sys_getpid
  | 12 => Some sys_sbrk
  | 13 => Some sys_sleep
  | 14 => Some sys_uptime
  | 15 => Some sys_open
  | 16 => Some sys_write
  | 17 => Some sys_mknod
  | 18 => Some sys_unlink
  | 19 => Some sys_link
  | 20 => Some sys_mkdir
  | 21 => Some sys_close
  | _ => None
  end.

Definition syscall : M kernel unit :=
  p ← myproc;
  a7 ← tf_get p tf_a7;
  let num := s32 a7 in
  match syscalls num with
  | Some f => r ← f; tf_set p tf_a0 (u64 r)
  | None =>
      x ← getp p;
      kernel_printf ("%d %s: unknown sys call %d" +:+ String (Ascii.ascii_of_nat 10) "")
        [VInt (pid x); VStr (Some (pname x)); VInt num] ;;
      tf_set p tf_a0 (u64 (-1))
  end.

(** ** kernel/trap.c *)

Record csrs := Csrs { r_sstatus : Z; r_sepc : Z; r_scause : Z; r_stval : Z; r_satp : Z; r_tp : Z }.

Definition SSTATUS_SPP : Z := Z.shiftl 1 8.
Definition SSTATUS_SPIE : Z := Z.shiftl 1 5.
Definition SSTATUS_SIE : Z := Z.shiftl 1 1.
Definition SATP_SV39 : Z := Z.shiftl 8 60.
Definition MAKE_SATP (pagetable : Z) : Z := Z.lor SATP_SV39 (Z.shiftr pagetable 12).

(** The distance of [uservec] from the start of the trampoline page. *)
Definition uservec_offset : Z := 0.

(** Writes to control registers and devices. *)
Inductive hw_write : Type :=
| W_stvec (a : Z) | W_satp (v : Z) | W_sepc (v : Z) | W_sstatus (v : Z)
| Intr_on | Intr_off | Clear_ssip
| Mmio_write (a v : Z)
| Virtio_disk_init.

Definition clockintr : M kernel unit :=
  acquire tickslock ;;
  modify (λ k, set_ticks (u32 (ticks k + 1)) k) ;;
  wakeup ticks_chan ;;
  release tickslock.

Definition uart_intr : M kernel unit :=
  k ← gets id;
  match Console.uartintr (procdump k) (kcons k) (kuart k) with
  | None => out_of_fuel
  | Some (s, u, woke, wtx) =>
      modify (λ k, set_kuart u (set_kcons s k)) ;;
      (if woke : bool then wakeup cons_chan else mret tt) ;;
      if wtx : bool then wakeup uart_chan else mret tt
  end.

Section devices.
Context (hr : Z → M kernel Z) (disk_intr : M kernel unit) (hw : hw_write → M kernel unit) (kernelvec_addr usertrap_addr : Z).

Definition mmio (a v : Z) : M kernel unit := hw (Mmio_write a v).

(** 2 for a timer interrupt, 1 for another device, 0 if not recognized. *)
Definition devintr (c : csrs) : M kernel Z :=
  let scause := r_scause c in
  if nonzero (Z.land scause 0x8000000000000000) && (Z.land scause 0xff =? 9) then
    irq ← plic_claim hr (r_tp c);
    (if irq =? UART0_IRQ then uart_intr
     else if irq =? VIRTIO0_IRQ then disk_intr
     else if nonzero irq then
       kernel_printf ("unexpected interrupt irq=%d" +:+ String (Ascii.ascii_of_nat 10) "") [VInt irq]
     else mret tt) ;;
    (if nonzero irq then plic_complete mmio (r_tp c) irq else mret tt) ;;
    mret 1
  else if scause =? 0x8000000000000001 then
    (if r_tp c =? 0 then clockintr else mret tt) ;;
    hw Clear_ssip ;;
    mret 2
  else mret 0.

(** The result is what [usertrapret] leaves in stvec, sstatus and sepc, and the
    page table that it gives to the trampoline. *)
Definition usertrapret (c : csrs) : M kernel (Z * Z * Z * Z) :=
  p ← myproc;
  hw Intr_off ;;
  let sstatus := Z.land (r_sstatus c) (Z.lnot SSTATUS_SIE) in
  let stvec := TRAMPOLINE + uservec_offset in
  hw (W_stvec stvec) ;;
  x ← getp p;
  tf_set p tf_kernel_satp (r_satp c) ;;
  tf_set p tf_kernel_sp (u64 (kstack x + PGSIZE)) ;;
  tf_set p tf_kernel_trap usertrap_addr ;;
  tf_set p tf_kernel_hartid (r_tp c) ;;
  let sstatus := Z.lor (Z.land sstatus (Z.lnot SSTATUS_SPP)) SSTATUS_SPIE in
  hw (W_sstatus sstatus) ;;
  epc ← tf_get p tf_epc;
  hw (W_sepc epc) ;;
  mret (stvec, sstatus, epc, MAKE_SATP (pagetable x)).

Definition usertrap (c : csrs) : M kernel (Z * Z * Z * Z) :=
  if nonzero (Z.land (r_sstatus c) SSTATUS_SPP) then panic "usertrap: not from user mode"
  else
    hw (W_stvec kernelvec_addr) ;;
    p ← myproc;
    tf_set p tf_epc (r_sepc c) ;;
    which_dev ←
      (if r_scause c =? 8 then
         x ← getp p;
         (if nonzero (killed x) then exit (-1) else mret tt) ;;
         epc ← tf_get p tf_epc;
         tf_set p tf_epc (u64 (epc + 4)) ;;
         hw Intr_on ;;
         syscall ;;
         mret 0
       else
         d ← devintr c;
         if nonzero d then mret d
         else
           x ← getp p;
           kernel_printf ("usertrap(): unexpected scause %p pid=%d" +:+ String (Ascii.ascii_of_nat 10) "")
             [VLong (r_scause c); VInt (pid x)] ;;
           kernel_printf ("            sepc=%p stval=%p" +:+ String (Ascii.ascii_of_nat 10) "")
             [VLong (r_sepc c); VLong (r_stval c)] ;;
           updp p (set_killed 1) ;;
           mret 0);
    x ← getp p;
    (if nonzero (killed x) then exit (-1) else mret tt) ;;
    (if which_dev =? 2 then yield else mret tt) ;;
    usertrapret c.

(** [intr] tells whether interrupts are enabled. *)
Definition kerneltrap (c : csrs) (intr : bool) : M kernel unit :=
  if Z.land (r_sstatus c) SSTATUS_SPP =? 0 then panic "kerneltrap: not from supervisor mode"
  else if intr then panic "kerneltrap: interrupts enabled"
  else
    which_dev ← devintr c;
    if which_dev =? 0 then
      kernel_printf ("scause %p" +:+ String (Ascii.ascii_of_nat 10) "") [VLong (r_scause c)] ;;
      kernel_printf ("sepc=%p stval=%p" +:+ String (Ascii.ascii_of_nat 10) "") [VLong (r_sepc c); VLong (r_stval c)] ;;
      panic "kerneltrap"
    else
      p ← myproc;
      x ← getp p;
      (if (which_dev =? 2) && negb (p =? NULL) && bool_decide (pstate x = RUNNING) then yield else mret tt) ;;
      hw (W_sepc (r_sepc c)) ;;
      hw (W_sstatus (r_sstatus c)).

Definition trapinithart : M kernel unit := hw (W_stvec kernelvec_addr).

(** kernel/vm.c *)
Definition kvminithart (kernel_pagetable : Z) : M kernel unit := hw (W_satp (MAKE_SATP kernel_pagetable)).

(** ** kernel/uart.c *)

Definition IER : Z := 1.
Definition IER_TX_ENABLE : Z := Z.shiftl 1 0.
Definition IER_RX_ENABLE : Z := Z.shiftl 1 1.
Definition FCR : Z := 2.
Definition FCR_FIFO_ENABLE : Z := Z.shiftl 1 0.
Definition FCR_FIFO_CLEAR : Z := Z.shiftl 3 1.
Definition LCR : Z := 3.
Definition LCR_EIGHT_BITS : Z := Z.shiftl 3 0.
Definition LCR_BAUD_LATCH : Z := Z.shiftl 1 7.

Definition WriteReg (reg v : Z) : M kernel unit := mmio (UART0 + reg) v.

Definition uartinit : M kernel unit :=
  WriteReg IER 0x00 ;;
  WriteReg LCR LCR_BAUD_LATCH ;;
  WriteReg 0 0x03 ;;
  WriteReg 1 0x00 ;;
  WriteReg LCR LCR_EIGHT_BITS ;;
  WriteReg FCR (Z.lor FCR_FIFO_ENABLE FCR_FIFO_CLEAR) ;;
  WriteReg IER (Z.lor IER_TX_ENABLE IER_RX_ENABLE).

(** ** kernel/main.c *)

(** The first hart, up to [scheduler].  The locks and the table of devices have
    their initial values in the state of the kernel; the call of [kvminithart]
    after [procinit] is the last statement of that function. *)
Definition main : M kernel unit :=
  uartinit ;;
  modify (λ k, set_kuart (foldl (λ u c, consputc c u) (kuart k) ([NL] ++ str "xv6 kernel is booting" ++ [NL; NL])) k) ;;
  on_mach kinit ;;
  kernel_pagetable ← on_mach kvminit;
  kvminithart kernel_pagetable ;;
  procinit kernel_pagetable ;;
  kvminithart kernel_pagetable ;;
  trapinithart ;;
  plicinit mmio ;;
  plicinithart mmio 0 ;;
  on_sys (on_bio binit) ;;
  on_fs iinit ;;
  hw Virtio_disk_init ;;
  userinit.

(** The other harts, once [started] is set; [hart] is what [cpuid] returns. *)
Definition main_other (hart kernel_pagetable : Z) : M kernel unit :=
  kernel_printf ("hart %d starting" +:+ String (Ascii.ascii_of_nat 10) "") [VInt hart] ;;
  kvminithart kernel_pagetable ;;
  trapinithart ;;
  plicinithart mmio hart.

End devices.

(** [forkret] up to [usertrapret]; [first] is its static variable. *)
Definition forkret (first : bool) : M kernel bool :=
  p ← myproc;
  release (plock p) ;;
  (if first then sb ← on_sys (fsinit ROOTDEV); modify (set_ksb sb) else mret tt) ;;
  mret false.

End Trap.
