(* ===== verification/Frame.v ===== *)
(** * What most kernel code leaves alone

    Invariants of the process table and the file table depend on few of their
    fields.  [frame] relates two states that agree on those fields; all code but
    the functions that allocate and release processes and files keeps it,
    whether it returns or sleeps. *)

From S2P Require Import Prelude Machine CString Kalloc Vm Bio Cache Log Txn Fs Pipe Console Kernel File Proc Exec Syscall Sysfile.

Definition idle (s : procstate) : bool := match s with UNUSED | ZOMBIE => true | _ => false end.

(** The states that a process changes by running, sleeping and being woken are
    not distinguished. *)
Record same_core (x y : proc) : Prop := {
  sc_parent : parent y = parent x;
  sc_pid : pid y = pid x;
  sc_ofile : ofile y = ofile x;
  sc_unused : pstate y = UNUSED ↔ pstate x = UNUSED;
  sc_zombie : pstate y = ZOMBIE ↔ pstate x = ZOMBIE
}.

Record frame (k k' : kernel) : Prop := {
  fr_procs p : same_core (procs k p) (procs k' p);
  fr_fref f : fref (ftable k' f) = fref (ftable k f);
  fr_ftype f : ftype (ftable k' f) = ftype (ftable k f);
  fr_cur : curproc k' = curproc k;
  fr_next : nextpid k' = nextpid k;
  fr_init : initproc k' = initproc k;
  fr_runnable p : p ≠ curproc k → pstate (procs k p) = RUNNABLE → pstate (procs k' p) = RUNNABLE
}.

(** The running process is neither free nor dead. *)
Definition active (k : kernel) : Prop := idle (pstate (procs k (curproc k))) = false.

Definition keeps {A} (m : M kernel A) : Prop := ∀ k, active k → wlp m (λ _ k', frame k k') (frame k) k.

(** * Lemmas *)

Lemma idle_spec s : idle s = false ↔ s ≠ UNUSED ∧ s ≠ ZOMBIE.
Proof. destruct s; simpl; split; try done; by intros [? ?]. Qed.

Lemma idle_true s : idle s = true ↔ s = UNUSED ∨ s = ZOMBIE.
Proof. destruct s; simpl; split; try done; auto; by intros [?|?]. Qed.

Lemma same_core_refl x : same_core x x.
Proof. by split. Qed.

Lemma same_core_trans x y z : same_core x y → same_core y z → same_core x z.
Proof. intros [? ? ? Hu Hz] [? ? ? Hu' Hz']. split; [congruence|congruence|congruence|by rewrite Hu'|by rewrite Hz']. Qed.

#[export] Instance frame_refl : Reflexive frame.
Proof. intros k. by split. Qed.

#[export] Instance frame_trans : Transitive frame.
Proof.
  intros k1 k2 k3 H1 H2. pose proof (fr_runnable _ _ H1) as R1. pose proof (fr_runnable _ _ H2) as R2. destruct H1, H2.
  split; try (intros; congruence); intros p; [by eapply same_core_trans|]. intros ? ?. apply R2; [congruence|]. by apply R1.
Qed.

Lemma frame_active k k' : frame k k' → active k → active k'.
Proof.
  intros [Hp _ _ Hc _ _ _]. unfold active. rewrite Hc, !idle_spec. destruct (Hp (curproc k)) as [_ _ _ Hu Hz]. tauto.
Qed.

(** A state that differs only outside of the tables. *)
Lemma frame_tables k k' :
  procs k' = procs k → ftable k' = ftable k → curproc k' = curproc k → nextpid k' = nextpid k → initproc k' = initproc k →
  frame k k'.
Proof. intros Hp Hf ? ? ?. split; try done; intros; rewrite ?Hp, ?Hf; done || apply same_core_refl. Qed.

Lemma frame_updp k p x :
  same_core (procs k p) x → p = curproc k ∨ (pstate (procs k p) = RUNNABLE → pstate x = RUNNABLE) →
  frame k (set_procs (fset (procs k) p x) k).
Proof.
  intros Hx Hr. split; try done; intros q; simpl; unfold fset; destruct (Z.eqb_spec q p) as [->|]; try done.
  intros Hc. by destruct Hr.
Qed.

Lemma frame_updf k f x :
  fref x = fref (ftable k f) → ftype x = ftype (ftable k f) → frame k (set_ftable (fset (ftable k) f x) k).
Proof.
  intros Hr Ht. split; try done;
    intros g; simpl; unfold fset; by destruct (Z.eqb_spec g f) as [->|].
Qed.

(** ** Compositions *)

(** Code that runs after a frame. *)
Lemma keeps_after {A} (m : M kernel A) k k1 :
  frame k k1 → active k → keeps m → wlp m (λ _ k', frame k k') (frame k) k1.
Proof.
  intros H1 Hk Hm. eapply wlp_mono; [apply Hm, (frame_active _ _ H1 Hk)|..]; intros; by etrans.
Qed.

Lemma keeps_ret {A} (a : A) : keeps (mret a).
Proof. intros k _. apply wlp_ret. reflexivity. Qed.

Lemma keeps_bind {A B} (m : M kernel A) (f : A → M kernel B) : keeps m → (∀ a, keeps (f a)) → keeps (m ≫= f).
Proof.
  intros Hm Hf k Hk. apply wlp_bind. eapply wlp_mono; [by apply Hm| |done]. intros a k1 H1.
  apply (keeps_after _ k k1 H1 Hk). apply Hf.
Qed.

Lemma keeps_gets {A} (f : kernel → A) : keeps (gets f).
Proof. intros k _. apply wlp_gets. reflexivity. Qed.

Lemma keeps_panic {A} msg : keeps (A := A) (panic msg).
Proof. by intros k _. Qed.
Lemma keeps_undefined {A} msg : keeps (A := A) (undefined msg).
Proof. by intros k _. Qed.
Lemma keeps_fuel {A} : keeps (A := A) out_of_fuel.
Proof. by intros k _. Qed.

Lemma keeps_modify (f : kernel → kernel) : (∀ k, frame k (f k)) → keeps (modify f).
Proof. intros Hf k _. apply wlp_modify. apply Hf. Qed.

Lemma keeps_for_each {A} (l : list A) (f : A → M kernel unit) : (∀ x, keeps (f x)) → keeps (for_each l f).
Proof.
  intros Hf. induction l as [|x l IH]; simpl; [apply keeps_ret|]. apply keeps_bind; [done|]. by intros [].
Qed.

Lemma keeps_updp p f : (∀ x, same_core x (f x)) → (∀ x, pstate x = RUNNABLE → pstate (f x) = RUNNABLE) → keeps (updp p f).
Proof. intros Hf Hr. apply keeps_modify. intros k. apply frame_updp; auto. Qed.

Lemma keeps_updf i f : (∀ x, fref (f x) = fref x ∧ ftype (f x) = ftype x) → keeps (updf i f).
Proof. intros Hf. apply keeps_modify. intros k. apply frame_updf; apply Hf. Qed.

Lemma keeps_zoom {T A} (get : kernel → T) (put : T → kernel → kernel) (m : M T A) :
  (∀ t k, frame k (put t k)) → keeps (zoom get put m).
Proof. intros Hp k _. unfold wlp, zoom. destruct (m (get k)); auto. Qed.

(** ** Tactics *)

Create HintDb keeps.
#[export] Hint Resolve keeps_ret keeps_gets keeps_panic keeps_undefined keeps_fuel same_core_refl : keeps.

(** One step into a body; the leaves are left to the hints. *)
Ltac keeps_step :=
  match goal with
  | |- ∀ _, _ => intros ?
  | |- keeps (_ ≫= _) => apply keeps_bind
  | |- keeps (for_each _ _) => apply keeps_for_each
  | |- keeps (if ?b then _ else _) => destruct b
  | |- keeps (let _ := _ in _) => cbv zeta
  | |- keeps (match (if ?b then _ else _) with _ => _ end) => destruct b
  | |- keeps (match ?x with _ => _ end) => destruct x
  | |- keeps (modify _) => apply keeps_modify; intros ?; by apply frame_tables
  | |- keeps (updp _ _) => apply keeps_updp; intros ?; [by split|done]
  | |- keeps (updf _ _) => apply keeps_updf; intros ?; by split
  end.
Ltac solve_keeps := repeat (first [solve [auto with keeps nocore]|keeps_step]).

(** ** Locks, sleep and wakeup *)

Lemma keeps_acquire l : keeps (acquire l).
Proof. unfold acquire, holding. solve_keeps. Qed.
Lemma keeps_release l : keeps (release l).
Proof. unfold release, holding. solve_keeps. Qed.
#[export] Hint Resolve keeps_acquire keeps_release : keeps.

Lemma keeps_sched {A} : keeps (A := A) sched.
Proof. unfold sched, myproc, holding, getp. solve_keeps. intros k _. unfold wlp. reflexivity. Qed.
#[export] Hint Resolve keeps_sched : keeps.

(** The running process may change its state among those that are not idle. *)
Lemma keeps_run_state {A} (f : Z → M kernel A) s :
  idle s = false → (∀ p, keeps (f p)) → keeps (p ← myproc; updp p (set_pstate s) ;; f p).
Proof.
  intros Hs Hf k Hk. apply wlp_bind, wlp_gets, wlp_bind, wlp_modify.
  assert (frame k (set_procs (fset (procs k) (curproc k) (set_pstate s (procs k (curproc k)))) k)) as H1.
  { unfold active in Hk. rewrite idle_spec in Hk, Hs. apply frame_updp; [|by left]. split; simpl; try done; naive_solver. }
  by apply (keeps_after _ _ _ H1 Hk).
Qed.

Lemma keeps_sleep {A} c lk : keeps (A := A) (sleep c lk).
Proof.
  intros k Hk. unfold sleep. apply wlp_bind, wlp_gets. apply wlp_bind. eapply (wlp_mono _ (λ _ k', frame k k') _ (frame k)).
  { assert (keeps (if bool_decide (lk = plock (curproc k)) then mret () else acquire (plock (curproc k));; release lk)) as Hm
      by solve_keeps. by apply Hm. }
  2: done.
  intros [] k1 H1. apply wlp_bind, wlp_modify.
  set (k2 := set_procs _ k1). assert (frame k1 k2) as H2 by (apply frame_updp; [by split|by right]).
  assert (frame k k2) as H12 by (by etrans). rewrite <-(fr_cur _ _ H12).
  change (wlp (p ← myproc; updp p (set_pstate SLEEPING) ;; (sched : M kernel A)) (λ _ k', frame k k') (frame k) k2).
  apply (keeps_after _ _ _ H12 Hk). apply (keeps_run_state (λ _, sched) SLEEPING); auto with keeps.
Qed.
#[export] Hint Resolve keeps_sleep : keeps.

(** A process is woken only out of sleep. *)
Lemma keeps_wake {A} p (b : proc → bool) (m : proc → M kernel A) :
  (∀ x, b x = true → pstate x = SLEEPING) → (∀ x, keeps (m x)) →
  keeps (x ← getp p; (if b x then updp p (set_pstate RUNNABLE) else mret tt) ;; m x).
Proof.
  intros Hb Hm k Hk. apply wlp_bind, wlp_gets, wlp_bind. destruct (b (procs k p)) eqn:E; [|apply wlp_ret; by apply Hm].
  apply wlp_modify. set (k1 := set_procs _ k).
  assert (frame k k1) as H1. { apply frame_updp; [|by right]. apply Hb in E. split; simpl; try done; rewrite E; done. }
  by apply (keeps_after _ _ _ H1 Hk).
Qed.

Lemma keeps_wakeup c : keeps (wakeup c).
Proof.
  unfold wakeup. apply keeps_for_each. intros p. apply keeps_bind; [auto with keeps|]. intros _.
  apply (keeps_wake p (λ x, bool_decide (pstate x = SLEEPING) && bool_decide (pchan x = c)) (λ _, release (plock p)));
    [|auto with keeps]. intros x [Hx _]%andb_true_iff. by apply bool_decide_eq_true in Hx.
Qed.

Lemma keeps_wakeup1 p : keeps (wakeup1 p).
Proof.
  unfold wakeup1. apply keeps_bind; [unfold holding; auto with keeps|]. intros h. destruct h; [|apply keeps_panic].
  intros k Hk. cbn [negb]. apply wlp_bind, wlp_gets.
  destruct (bool_decide (pchan _ = _) && _) eqn:E; [|apply wlp_ret; reflexivity].
  apply andb_true_iff in E as [_ E]. apply bool_decide_eq_true in E. apply wlp_modify, frame_updp; [|by right].
  split; simpl; try done; rewrite E; done.
Qed.

Lemma keeps_yield {A} : keeps (A := A) yield.
Proof.
  intros k Hk. unfold yield. apply wlp_bind, wlp_gets, wlp_bind. eapply wlp_mono; [by apply keeps_acquire| |done].
  intros [] k1 H1. rewrite <-(fr_cur _ _ H1).
  change (wlp (p ← myproc; updp p (set_pstate RUNNABLE) ;; (sched : M kernel A)) (λ _ k', frame k k') (frame k) k1).
  apply (keeps_after _ _ _ H1 Hk). apply (keeps_run_state (λ _, sched) RUNNABLE); auto with keeps.
Qed.

Lemma keeps_kill pid_ : keeps (kill pid_).
Proof.
  unfold kill. generalize proc_indices. intros l. induction l as [|p l IH]; simpl; [auto with keeps|].
  apply keeps_bind; [auto with keeps|]. intros _ k Hk. apply wlp_bind, wlp_gets.
  destruct (pid (procs k p) =? pid_); [|by apply keeps_bind; auto with keeps].
  apply wlp_bind, wlp_modify. set (k1 := set_procs _ k).
  assert (frame k k1) as H1 by (apply frame_updp; [by split|by right]).
  assert (keeps (release (plock p) ;; mret 0)) as Hr by solve_keeps. apply wlp_bind.
  case_bool_decide as E; [|apply wlp_ret; by apply (keeps_after _ _ _ H1 Hk)].
  apply wlp_modify. refine (keeps_after _ k _ _ Hk Hr). etrans; [exact H1|]. apply frame_updp; [|by right].
  unfold k1. simpl. rewrite fset_eq. split; simpl; try done; rewrite E; done.
Qed.
#[export] Hint Resolve keeps_wakeup keeps_wakeup1 keeps_yield keeps_kill : keeps.

(** ** Code on a part of the state *)

Lemma keeps_on_mach {A} (m : M machine A) : keeps (on_mach m).
Proof. apply keeps_zoom. intros t k. by apply frame_tables. Qed.

Lemma keeps_lift {T A} (get : kernel → T) (put : T → kernel → kernel) woken (m : M T A) :
  (∀ t k, frame k (put t k)) → keeps (lift get put woken m).
Proof.
  intros Hp k Hk. unfold wlp, lift.
  assert (∀ l, keeps (for_each l wakeup)) as Hw by (intros l; apply keeps_for_each; auto with keeps).
  destruct (m (get k)) as [a t| | |c t|]; [|done|done| |done].
  - apply (keeps_after (for_each (woken t) wakeup ;; mret a) k (put t k)); [apply Hp|done|].
    apply keeps_bind; auto with keeps.
  - apply (keeps_after (for_each (woken t) wakeup ;; acquire inner_lock ;; sleep (A := A) c inner_lock) k (put t k));
      [apply Hp|done|]. apply keeps_bind; [apply Hw|]. intros _. solve_keeps.
Qed.

Lemma keeps_on_sys {A} (m : M sys A) : keeps (on_sys m).
Proof. apply keeps_lift. intros t k. by apply frame_tables. Qed.
Lemma keeps_on_fs {A} (m : M (fsys (sys * machine)) A) : keeps (on_fs m).
Proof. apply keeps_lift. intros t k. by apply frame_tables. Qed.
#[export] Hint Resolve keeps_on_mach keeps_on_sys keeps_on_fs : keeps.
#[export] Hint Extern 1 (keeps myproc) => apply keeps_gets : keeps.
#[export] Hint Extern 1 (keeps (getp _)) => apply keeps_gets : keeps.
#[export] Hint Extern 1 (keeps (getf _)) => apply keeps_gets : keeps.

Lemma keeps_either_copyout b d l : keeps (either_copyout b d l).
Proof. unfold either_copyout. solve_keeps. Qed.
Lemma keeps_either_copyin b a n : keeps (either_copyin b a n).
Proof. unfold either_copyin. solve_keeps. Qed.
#[export] Hint Resolve keeps_either_copyout keeps_either_copyin : keeps.

(** ** Files, pipes and the console *)

Section image.
Context `{Image}.

Lemma keeps_pipeclose pi w : keeps (pipeclose pi w).
Proof. unfold pipeclose, upd_pipe. solve_keeps. Qed.
Lemma keeps_pipewrite pi a n : keeps (pipewrite pi a n).
Proof. unfold pipewrite, upd_pipe. solve_keeps. Qed.
Lemma keeps_piperead pi a n : keeps (piperead pi a n).
Proof. unfold piperead, upd_pipe. solve_keeps. Qed.

Lemma keeps_uartputc c : keeps (uartputc c).
Proof. unfold uartputc. solve_keeps. Qed.
Hint Resolve keeps_uartputc : keeps.

Lemma keeps_consolewrite b a n : keeps (consolewrite b a n).
Proof.
  unfold consolewrite. apply keeps_bind; [auto with keeps|]. intros _. apply keeps_bind; [|solve_keeps].
  generalize (Z.to_nat n), 0. intros j. induction j as [|j IH]; intros i; simpl; solve_keeps.
Qed.

Lemma keeps_consoleread_loop n b d t : keeps (consoleread_loop n b d t).
Proof. revert d. induction n as [|n IH]; intros d; cbn [consoleread_loop]; solve_keeps. Qed.
Hint Resolve keeps_consoleread_loop : keeps.
Lemma keeps_consoleread b a n : keeps (consoleread b a n).
Proof. unfold consoleread. solve_keeps. Qed.
Hint Resolve keeps_pipeclose keeps_pipewrite keeps_piperead keeps_consolewrite keeps_consoleread : keeps.

Lemma keeps_filestat f a : keeps (filestat f a).
Proof. unfold filestat. solve_keeps. Qed.

Lemma keeps_fileread f a n : keeps (fileread f a n).
Proof. unfold fileread, devsw_read. solve_keeps. Qed.

Lemma keeps_filewrite f a n : keeps (filewrite f a n).
Proof.
  assert (∀ fuel i, keeps (filewrite_loop fuel f a i n)) as Hl.
  { induction fuel as [|fuel IH]; intros i; cbn [filewrite_loop]; solve_keeps. }
  unfold filewrite, devsw_write. solve_keeps.
Qed.

(** ** Processes *)

Lemma keeps_tf_get p o : keeps (tf_get p o).
Proof. unfold tf_get. solve_keeps. Qed.
Lemma keeps_tf_set p o v : keeps (tf_set p o v).
Proof. unfold tf_set. solve_keeps. Qed.
Hint Resolve keeps_tf_get keeps_tf_set : keeps.

Lemma keeps_proc_pagetable p : keeps (proc_pagetable p).
Proof. unfold proc_pagetable. solve_keeps. Qed.
Lemma keeps_proc_freepagetable pt s : keeps (proc_freepagetable pt s).
Proof. unfold proc_freepagetable. solve_keeps. Qed.
Lemma keeps_growproc n : keeps (growproc n).
Proof. unfold growproc. solve_keeps. Qed.
Hint Resolve keeps_proc_pagetable keeps_proc_freepagetable keeps_growproc : keeps.

(** ** exec *)

Lemma keeps_loadseg pt va ip off s : keeps (loadseg pt va ip off s).
Proof.
  unfold loadseg. destruct (nonzero _); [auto with keeps|]. generalize (Z.to_nat (s / PGSIZE + 2)), 0.
  intros fuel. induction fuel as [|fuel IH]; intros i; cbn [loadseg_loop]; solve_keeps.
Qed.
Hint Resolve keeps_loadseg : keeps.

Lemma keeps_load_segments n ip pt off s : keeps (load_segments n ip pt off s).
Proof. revert off s. induction n as [|n IH]; intros off s; cbn [load_segments]; solve_keeps. Qed.

Lemma keeps_push_args argv argc pt sp sb us : keeps (push_args argv argc pt sp sb us).
Proof. revert argc sp us. induction argv as [|a argv IH]; intros argc sp us; cbn [push_args]; solve_keeps. Qed.
Hint Resolve keeps_load_segments keeps_push_args : keeps.

Lemma keeps_exec path argv : keeps (exec path argv).
Proof. unfold exec, exec_stack, exec_bad. solve_keeps. Qed.

(** ** System-call arguments *)

Lemma keeps_argraw n : keeps (argraw n).
Proof. unfold argraw. solve_keeps. Qed.
Hint Resolve keeps_argraw : keeps.
Lemma keeps_argint n : keeps (argint n).
Proof. unfold argint. solve_keeps. Qed.
Lemma keeps_argaddr n : keeps (argaddr n).
Proof. apply keeps_argraw. Qed.
Lemma keeps_fetchstr a n : keeps (fetchstr a n).
Proof. unfold fetchstr. solve_keeps. Qed.
Lemma keeps_fetchaddr a : keeps (fetchaddr a).
Proof. unfold fetchaddr. solve_keeps. Qed.
Hint Resolve keeps_argint keeps_argaddr keeps_fetchstr keeps_fetchaddr : keeps.
Lemma keeps_argstr n m : keeps (argstr n m).
Proof. unfold argstr. solve_keeps. Qed.

Hint Resolve keeps_argstr : keeps.

(** ** File-system calls *)

Lemma keeps_argfd n : keeps (argfd n).
Proof. unfold argfd. solve_keeps. Qed.
Lemma keeps_add_nlink ip d : keeps (add_nlink ip d).
Proof. unfold add_nlink. solve_keeps. Qed.
Hint Resolve keeps_argfd keeps_add_nlink : keeps.

Lemma keeps_sys_link : keeps sys_link.
Proof. unfold sys_link, link_bad. solve_keeps. Qed.

Lemma keeps_isdirempty dp : keeps (isdirempty dp).
Proof.
  unfold isdirempty. apply keeps_bind; [auto with keeps|]. intros x. generalize (Z.to_nat (isize (din x) / DIRENT_SIZE + 2)).
  intros fuel. generalize (2 * DIRENT_SIZE). induction fuel as [|fuel IH]; intros off; cbn [isdirempty_loop]; solve_keeps.
Qed.
Hint Resolve keeps_isdirempty : keeps.
Lemma keeps_sys_unlink : keeps sys_unlink.
Proof. unfold sys_unlink, unlink_bad. solve_keeps. Qed.

Lemma keeps_create path t ma mi : keeps (create path t ma mi).
Proof. unfold create. solve_keeps. Qed.
Hint Resolve keeps_create : keeps.
Lemma keeps_open_fail ip : keeps (open_fail ip).
Proof. unfold open_fail. solve_keeps. Qed.

Lemma keeps_sys_mkdir : keeps sys_mkdir.
Proof. unfold sys_mkdir. solve_keeps. Qed.
Lemma keeps_sys_mknod : keeps sys_mknod.
Proof. unfold sys_mknod. solve_keeps. Qed.
Lemma keeps_sys_chdir : keeps sys_chdir.
Proof. unfold sys_chdir. solve_keeps. Qed.

Lemma keeps_sys_exec : keeps sys_exec.
Proof.
  assert (∀ n u i a s, keeps (fetch_args n u i a s)) as Hf.
  { induction n as [|n IH]; intros u i a s; cbn [fetch_args]; solve_keeps. }
  pose proof keeps_exec. unfold sys_exec, free_args. solve_keeps.
Qed.

Lemma keeps_sys_read : keeps sys_read.
Proof. pose proof keeps_fileread. unfold sys_read. solve_keeps. Qed.
Lemma keeps_sys_write : keeps sys_write.
Proof. pose proof keeps_filewrite. unfold sys_write. solve_keeps. Qed.
Lemma keeps_sys_fstat : keeps sys_fstat.
Proof. pose proof keeps_filestat. unfold sys_fstat. solve_keeps. Qed.

(** ** Process calls *)

Lemma keeps_sys_sbrk : keeps sys_sbrk.
Proof. unfold sys_sbrk. solve_keeps. Qed.
Lemma keeps_sys_sleep : keeps sys_sleep.
Proof. unfold sys_sleep, sleep_round. solve_keeps. Qed.
Lemma keeps_sys_kill : keeps sys_kill.
Proof. unfold sys_kill. solve_keeps. Qed.
Lemma keeps_sys_uptime : keeps sys_uptime.
Proof. unfold sys_uptime. solve_keeps. Qed.
Lemma keeps_sys_getpid : keeps sys_getpid.
Proof. unfold sys_getpid. solve_keeps. Qed.

End image.

#[export] Hint Resolve keeps_argfd keeps_add_nlink keeps_sys_link keeps_sys_unlink keeps_create keeps_open_fail keeps_sys_mkdir
  keeps_sys_mknod keeps_sys_chdir keeps_sys_exec keeps_sys_read keeps_sys_write keeps_sys_fstat keeps_sys_sbrk keeps_sys_sleep
  keeps_sys_kill keeps_sys_uptime keeps_sys_getpid : keeps.
#[export] Hint Resolve keeps_uartputc keeps_pipeclose keeps_pipewrite keeps_piperead keeps_consolewrite keeps_consoleread
  keeps_filestat keeps_fileread keeps_filewrite keeps_tf_get keeps_tf_set keeps_proc_pagetable keeps_proc_freepagetable
  keeps_growproc keeps_exec keeps_argint keeps_argaddr keeps_fetchstr keeps_fetchaddr keeps_argstr : keeps.

(** ** Coarser relations

    [keeping P R m]: from a state with [P], [m] ends in a state related to it by
    [R], which contains [frame]. *)

Class FrameLike (P : kernel → Prop) (R : kernel → kernel → Prop) : Prop := {
  fl_refl k : R k k;
  fl_trans k1 k2 k3 : R k1 k2 → R k2 k3 → R k1 k3;
  fl_frame k k' : frame k k' → R k k';
  fl_stable k k' : R k k' → P k → P k';
  fl_active k : P k → active k
}.

Definition keeping (P : kernel → Prop) (R : kernel → kernel → Prop) {A} (m : M kernel A) : Prop :=
  ∀ k, P k → wlp m (λ _ k', R k k') (R k) k.

Section keeping.
Context {P : kernel → Prop} {R : kernel → kernel → Prop} `{FL : !FrameLike P R}.

Lemma keeping_keeps {A} (m : M kernel A) : keeps m → keeping P R m.
Proof. intros Hm k Hk. eapply wlp_mono; [by apply Hm, fl_active|..]; intros; by apply fl_frame. Qed.

Lemma keeping_after {A} (m : M kernel A) k k1 :
  R k k1 → P k → keeping P R m → wlp m (λ _ k', R k k') (R k) k1.
Proof.
  intros H1 Hk Hm. eapply wlp_mono; [apply Hm, (fl_stable _ _ H1 Hk)|..]; intros; by eapply fl_trans.
Qed.

Lemma keeping_ret {A} (a : A) : keeping P R (mret a).
Proof. intros k _. apply wlp_ret, fl_refl. Qed.

Lemma keeping_bind {A B} (m : M kernel A) (f : A → M kernel B) :
  keeping P R m → (∀ a, keeping P R (f a)) → keeping P R (m ≫= f).
Proof.
  intros Hm Hf k Hk. apply wlp_bind. eapply wlp_mono; [by apply Hm| |done]. intros a k1 H1.
  apply (keeping_after _ k k1 H1 Hk). apply Hf.
Qed.

Lemma keeping_for_each {A} (l : list A) (f : A → M kernel unit) :
  (∀ x, keeping P R (f x)) → keeping P R (for_each l f).
Proof.
  intros Hf. induction l as [|x l IH]; simpl; [apply keeping_ret|]. apply keeping_bind; [done|]. by intros [].
Qed.

Lemma keeping_modify (f : kernel → kernel) : (∀ k, P k → R k (f k)) → keeping P R (modify f).
Proof. intros Hf k Hk. by apply wlp_modify, Hf. Qed.

(** Use of a frame in the middle of a proof. *)
Lemma wlp_keeping {A} (m : M kernel A) (Q : A → kernel → Prop) (R' : kernel → Prop) k :
  keeping P R m → P k → (∀ a k', R k k' → P k' → Q a k') → (∀ k', R k k' → R' k') → wlp m Q R' k.
Proof.
  intros Hm Hk HQ HR. eapply wlp_mono; [by apply Hm|..]; [|done]. intros a k' H'. apply HQ; [done|by apply (fl_stable _ _ H' Hk)].
Qed.

End keeping.

#[export] Instance frame_like : FrameLike active frame.
Proof. split; [done|intros; by etrans|done|by apply frame_active|done]. Qed.

(** Use of a frame in the middle of a proof. *)
Lemma wlp_keeps {A} (m : M kernel A) (Q : A → kernel → Prop) (R' : kernel → Prop) k :
  keeps m → active k → (∀ a k', frame k k' → active k' → Q a k') → (∀ k', frame k k' → R' k') → wlp m Q R' k.
Proof. apply (wlp_keeping (P := active) (R := frame)). Qed.

Create HintDb keeping.

Ltac keeping_step :=
  match goal with
  | |- ∀ _, _ => intros ?
  | |- keeping _ _ (mret _) => apply keeping_ret
  | |- keeping _ _ (_ ≫= _) => apply keeping_bind
  | |- keeping _ _ (for_each _ _) => apply keeping_for_each
  | |- keeping _ _ (if ?b then _ else _) => destruct b
  | |- keeping _ _ (let _ := _ in _) => cbv zeta
  | |- keeping _ _ (match (if ?b then _ else _) with _ => _ end) => destruct b
  | |- keeping _ _ (match ?x with _ => _ end) => destruct x
  end.
Ltac solve_keeping :=
  repeat (first [solve [auto with keeping nocore] | solve [apply keeping_keeps; solve [auto with keeps nocore]] | keeping_step]).
