(* ===== verification/ProcAlloc.v ===== *)
(** * Allocation and release of processes

    What [allocproc] and [freeproc] do to the process table, and rules for the
    statements that change other parts of the state. *)

From S2P Require Import Prelude Machine CString Kalloc Vm Bio Cache Log Txn Fs Pipe Console Grep Printf Kernel File Proc Exec Syscall Frame.

(** ** Rules *)

Lemma wlp_acquire l (Q : unit → kernel → Prop) R k : (∀ h, Q tt (set_kheld h k)) → wlp (acquire l) Q R k.
Proof. intros HQ. unfold acquire, holding. do 2 wlp_step. destruct (bool_decide _); [done|]. wlp_step. apply HQ. Qed.

Lemma wlp_release l (Q : unit → kernel → Prop) R k : (∀ h, Q tt (set_kheld h k)) → wlp (release l) Q R k.
Proof. intros HQ. unfold release, holding. do 2 wlp_step. destruct (bool_decide _); [|done]. wlp_step. apply HQ. Qed.

Lemma wlp_acquire_frame l (Q : unit → kernel → Prop) R k : (∀ k', frame k k' → Q tt k') → wlp (acquire l) Q R k.
Proof. intros HQ. apply wlp_acquire. intros h. apply HQ. by apply frame_tables. Qed.

Lemma wlp_release_frame l (Q : unit → kernel → Prop) R k : (∀ k', frame k k' → Q tt k') → wlp (release l) Q R k.
Proof. intros HQ. apply wlp_release. intros h. apply HQ. by apply frame_tables. Qed.

Lemma wlp_on_mach {A} (m : M machine A) (Q : A → kernel → Prop) (R : kernel → Prop) k :
  (∀ a t, Q a (set_kmach t k)) → (∀ t, R (set_kmach t k)) → wlp (on_mach m) Q R k.
Proof. intros HQ HR. unfold wlp, on_mach, zoom. destruct (m (kmach k)); auto. Qed.

Lemma elem_proc_indices p : p ∈ proc_indices ↔ 0 ≤ p < NPROC.
Proof. unfold proc_indices. rewrite elem_of_seqZ. lia. Qed.
Lemma NoDup_proc_indices : NoDup proc_indices.
Proof. unfold proc_indices. apply NoDup_seqZ. Qed.
#[global] Opaque proc_indices.

(** ** Locks that are free *)

Lemma kheld_eta k : kheld k = [] → set_kheld [] k = k.
Proof. destruct k. simpl. by intros ->. Qed.

Lemma acquire_free l k : kheld k = [] → acquire l k = Ret tt (set_kheld [l] k).
Proof. intros Hk. unfold acquire, holding, mbind, M_bind, gets. simpl. rewrite Hk.
  rewrite bool_decide_eq_false_2 by set_solver. unfold modify. by rewrite Hk. Qed.

Lemma release_held l t k : release l (set_procs t (set_kheld [l] k)) = Ret tt (set_procs t (set_kheld [] k)).
Proof.
  unfold release, holding, mbind, M_bind, gets. simpl. rewrite bool_decide_eq_true_2 by set_solver. unfold modify. simpl.
  rewrite filter_cons_False by naive_solver. by rewrite filter_nil.
Qed.

(** ** One process is allocated or released

    [others q k k']: only the process [q] changes in the tables. *)
Record others (q : Z) (k k' : kernel) : Prop := {
  ot_procs p : p ≠ q → same_core (procs k p) (procs k' p);
  ot_fref f : fref (ftable k' f) = fref (ftable k f);
  ot_ftype f : ftype (ftable k' f) = ftype (ftable k f);
  ot_cur : curproc k' = curproc k;
  ot_init : initproc k' = initproc k;
  ot_runnable p : p ≠ q → p ≠ curproc k → pstate (procs k p) = RUNNABLE → pstate (procs k' p) = RUNNABLE
}.

(** A slot of the table that [allocproc] has given a pid. *)
Record allocated (q : Z) (k k' : kernel) : Prop := {
  al_others : others q k k';
  al_idx : 0 ≤ q < NPROC;
  al_unused : pstate (procs k q) = UNUSED ∧ pstate (procs k' q) = UNUSED;
  al_ofile : ofile (procs k' q) = ofile (procs k q);
  al_next : nextpid k' = s32 (nextpid k + 1)
}.

(** A failed allocation may leave its pid behind. *)
Definition alloc_failed (k k' : kernel) : Prop :=
  frame k k' ∨ ∃ q, allocated q k k' ∧ (parent (procs k' q) = parent (procs k q) ∨ parent (procs k' q) = NULL) ∧
    (pid (procs k' q) = nextpid k ∨ pid (procs k' q) = 0).

Record alloc_done (q : Z) (k k' : kernel) : Prop := {
  ad_alloc : allocated q k k';
  ad_parent : parent (procs k' q) = parent (procs k q);
  ad_pid : pid (procs k' q) = nextpid k;
  ad_killed : killed (procs k' q) = killed (procs k q);
  ad_first : first_such (λ p, bool_decide (pstate (procs k p) = UNUSED)) proc_indices = Some q
}.

(** The process [q] as [freeproc] leaves it. *)
Record freed (q : Z) (k k' : kernel) : Prop := {
  fd_others : others q k k';
  fd_unused : pstate (procs k' q) = UNUSED;
  fd_parent : parent (procs k' q) = NULL;
  fd_ofile : ofile (procs k' q) = ofile (procs k q);
  fd_next : nextpid k' = nextpid k;
  fd_pid : pid (procs k' q) = 0
}.

(** * Lemmas *)

Lemma others_refl q k : others q k k.
Proof. by split. Qed.

Lemma others_trans q k1 k2 k3 : others q k1 k2 → others q k2 k3 → others q k1 k3.
Proof.
  intros [H1 ? ? ? ? R1] [H2 ? ? ? ? R2]. split; try (intros; congruence); intros p Hp.
  - eapply same_core_trans; [by apply H1|by apply H2].
  - intros ? ?. apply R2; [done|congruence|]. by apply R1.
Qed.

Lemma others_frame q k k' : frame k k' → others q k k'.
Proof. intros []. split; auto. Qed.

Lemma others_updp q k x : others q k (set_procs (fset (procs k) q x) k).
Proof. split; try done; intros p Hp; simpl; by rewrite fset_ne. Qed.

Section alloc.
Context `{Image}.

Lemma wlp_updp q f (Q : unit → kernel → Prop) R k :
  Q tt (set_procs (fset (procs k) q (f (procs k q))) k) → wlp (updp q f) Q R k.
Proof. done. Qed.

Lemma wlp_find_unused l k (Q : Z → kernel → Prop) R :
  (∀ h, Q NULL (set_kheld h k)) → (∀ p h, first_such (λ p, bool_decide (pstate (procs k p) = UNUSED)) l = Some p → Q p (set_kheld h k)) →
  wlp (find_unused l) Q R k.
Proof.
  intros HN HQ. assert (∀ h0, wlp (find_unused l) Q R (set_kheld h0 k)) as Hl.
  2: { specialize (Hl (kheld k)). by destruct k. }
  induction l as [|p l IH]; intros h0; cbn [find_unused first_such] in *; [by apply wlp_ret|].
  wlp_step. apply wlp_acquire. intros h1. unfold getp. wlp_step. wlp_step. cbn [procs set_kheld] in *.
  case_bool_decide as E.
  - wlp_step. by apply HQ.
  - wlp_step. apply wlp_release. intros h2. by apply IH.
Qed.

(** A page table is built or freed in memory only. *)
Lemma wlp_proc_pagetable p k (Q : Z → kernel → Prop) (R : kernel → Prop) :
  (∀ a t, Q a (set_kmach t k)) → (∀ t, R (set_kmach t k)) → wlp (proc_pagetable p) Q R k.
Proof.
  intros HQ HR. unfold proc_pagetable.
  repeat (first [apply wlp_on_mach; [intros ? ?|intros ?; apply HR]|wlp_step|progress unfold getp
    |match goal with |- wlp (if ?b then _ else _) _ _ _ => destruct b end]); apply HQ.
Qed.

Lemma wlp_proc_freepagetable pt s k (Q : unit → kernel → Prop) (R : kernel → Prop) :
  (∀ t, Q tt (set_kmach t k)) → (∀ t, R (set_kmach t k)) → wlp (proc_freepagetable pt s) Q R k.
Proof.
  intros HQ HR. unfold proc_freepagetable. repeat (wlp_step; apply wlp_on_mach; [intros ? ?|intros ?; apply HR]).
  apply wlp_on_mach; [intros [] ?; apply HQ|intros ?; apply HR].
Qed.

(** What the rest of [freeproc] needs of the states in between. *)
Record freeing (q : Z) (k k' : kernel) : Prop := {
  fg_others : others q k k';
  fg_ofile : ofile (procs k' q) = ofile (procs k q);
  fg_next : nextpid k' = nextpid k
}.

Lemma freeing_mach q k k' t : freeing q k k' → freeing q k (set_kmach t k').
Proof. intros [Ho Hf Hn]. split; [|done|done]. eapply others_trans; [exact Ho|]. by split. Qed.

Lemma freeing_updp q k k' f :
  (∀ x, ofile (f x) = ofile x) → freeing q k k' → freeing q k (set_procs (fset (procs k') q (f (procs k' q))) k').
Proof.
  intros Hx [Ho Hf Hn]. split; [|simpl; by rewrite fset_eq, Hx|done]. eapply others_trans; [exact Ho|apply others_updp].
Qed.

(** The last statements of [freeproc]. *)
Lemma freeproc_fields q k k1 (R : kernel → Prop) :
  freeing q k k1 →
  wlp (updp q (set_pagetable 0) ;; updp q (set_sz 0) ;; updp q (set_pid 0) ;; updp q (set_parent NULL) ;;
       updp q (set_pname []) ;; updp q (set_pchan no_chan) ;; updp q (set_killed 0) ;; updp q (set_xstate 0) ;;
       updp q (set_pstate UNUSED)) (λ _ k', freed q k k') R k1.
Proof.
  intros [Ho Hf Hn]. repeat first [wlp_step|apply wlp_updp]. split; cbn [procs set_procs nextpid]; rewrite ?fset_eq; try done.
  eapply others_trans; [exact Ho|]. split; try done; intros p Hp; cbn [procs set_procs]; by rewrite !fset_ne by done.
Qed.

Lemma wlp_freeproc q k (R : kernel → Prop) :
  (∀ k', freeing q k k' → pstate (procs k' q) = pstate (procs k q) → parent (procs k' q) = parent (procs k q) →
    pid (procs k' q) = pid (procs k q) → R k') →
  wlp (freeproc q) (λ _ k', freed q k k') R k.
Proof.
  intros HR. unfold freeproc, getp. do 3 wlp_step.
  assert (freeing q k k) as H0 by (split; [apply others_refl|done|done]).
  assert (∀ k1, freeing q k k1 → pstate (procs k1 q) = pstate (procs k q) → parent (procs k1 q) = parent (procs k q) →
    pid (procs k1 q) = pid (procs k q) →
    wlp (updp q (set_trapframe 0) ;;
         (if nonzero (pagetable (procs k q)) then proc_freepagetable (pagetable (procs k q)) (sz (procs k q)) else mret tt) ;;
         updp q (set_pagetable 0) ;; updp q (set_sz 0) ;; updp q (set_pid 0) ;; updp q (set_parent NULL) ;;
         updp q (set_pname []) ;; updp q (set_pchan no_chan) ;; updp q (set_killed 0) ;; updp q (set_xstate 0) ;;
         updp q (set_pstate UNUSED)) (λ _ k', freed q k k') R k1) as Hrest.
  { intros k1 H1 E1 P1 D1. wlp_step. apply wlp_updp. set (k2 := set_procs _ k1).
    assert (freeing q k k2) as H2 by (by apply freeing_updp).
    assert (pstate (procs k2 q) = pstate (procs k q)) as E2 by (unfold k2; simpl; by rewrite fset_eq).
    assert (parent (procs k2 q) = parent (procs k q)) as P2 by (unfold k2; simpl; by rewrite fset_eq).
    assert (pid (procs k2 q) = pid (procs k q)) as D2 by (unfold k2; simpl; by rewrite fset_eq).
    wlp_step. destruct (nonzero _); [|apply wlp_ret; by apply freeproc_fields].
    apply wlp_proc_freepagetable; intros t; [apply freeproc_fields|apply HR; [|done|done|done]]; by apply freeing_mach. }
  destruct (nonzero (trapframe (procs k q))); [|apply wlp_ret; by apply Hrest].
  apply wlp_on_mach; [intros [] t; apply Hrest|intros t; apply HR]; try done; by apply freeing_mach.
Qed.

(** [alloc_failed] of a state with the process [q] freed again. *)
Lemma alloc_undo q k k1 k2 :
  allocated q k k1 → freed q k1 k2 → alloc_failed k k2.
Proof.
  intros [Ho Hi [Hu Hu1] Hf Hn] [Ho2 Hu2 Hp2 Hf2 Hn2 Hd2]. right. exists q. split; [|split; by right].
  split; [by eapply others_trans|done|done|congruence|congruence].
Qed.

Lemma allocated_trans q k k1 k2 :
  allocated q k k1 → others q k1 k2 → pstate (procs k2 q) = pstate (procs k1 q) → ofile (procs k2 q) = ofile (procs k1 q) →
  nextpid k2 = nextpid k1 → allocated q k k2.
Proof.
  intros [Ho Hi [Hu Hu1] Hf Hn] Ho2 Es Ef En. split; [by eapply others_trans|done|split; congruence|congruence|congruence].
Qed.

Lemma alloc_done_trans q k k1 k2 :
  alloc_done q k k1 → others q k1 k2 → pstate (procs k2 q) = pstate (procs k1 q) → ofile (procs k2 q) = ofile (procs k1 q) →
  nextpid k2 = nextpid k1 → parent (procs k2 q) = parent (procs k1 q) → pid (procs k2 q) = pid (procs k1 q) →
  killed (procs k2 q) = killed (procs k1 q) → alloc_done q k k2.
Proof. intros [Ha Hp Hi Hk Hf] Ho Es Ef En Ep Epid Ek. split; [by eapply allocated_trans|congruence|congruence|congruence|done]. Qed.

(** An update of [q] that keeps what an allocation promises, and changes of
    locks and memory. *)
Lemma alloc_done_updp q k k1 f :
  (∀ x, pstate (f x) = pstate x ∧ ofile (f x) = ofile x ∧ parent (f x) = parent x ∧ pid (f x) = pid x ∧ killed (f x) = killed x) →
  alloc_done q k k1 → alloc_done q k (set_procs (fset (procs k1) q (f (procs k1 q))) k1).
Proof.
  intros Hx Ha. destruct (Hx (procs k1 q)) as (? & ? & ? & ? & ?).
  eapply alloc_done_trans; [exact Ha|apply others_updp|..]; cbn [procs set_procs nextpid]; by rewrite ?fset_eq.
Qed.

Lemma alloc_done_same q k k1 k2 :
  procs k2 = procs k1 → ftable k2 = ftable k1 → curproc k2 = curproc k1 → initproc k2 = initproc k1 → nextpid k2 = nextpid k1 →
  alloc_done q k k1 → alloc_done q k k2.
Proof.
  intros Hp Hf Hc Hi Hn Ha. eapply alloc_done_trans; [exact Ha|apply others_frame; by apply frame_tables|..]; congruence.
Qed.

Lemma wlp_allocproc k (R : kernel → Prop) :
  (∀ k', alloc_failed k k' → R k') →
  wlp allocproc (λ np k', np = NULL ∧ alloc_failed k k' ∨ np ≠ NULL ∧ alloc_done np k k') R k.
Proof.
  intros HR. unfold allocproc. wlp_step. apply wlp_find_unused.
  { intros h. rewrite Z.eqb_refl. wlp_step. left. split; [done|]. left. by apply frame_tables. }
  intros q h Hfirst. destruct (first_such_Some _ _ _ Hfirst) as [Hq Hu%bool_decide_eq_true]. apply elem_proc_indices in Hq. destruct (Z.eqb_spec q NULL) as [E|Hne]; [unfold NULL in E; lia|].
  unfold allocpid. do 2 wlp_step. apply wlp_acquire. intros h1. do 4 wlp_step. wlp_step. apply wlp_release. intros h2.
  wlp_step. wlp_step. apply wlp_updp. set (k1 := set_procs _ _).
  assert (alloc_done q k k1) as H1.
  { split; [split|..]; cbn [k1 procs set_procs set_kheld set_nextpid nextpid]; rewrite ?fset_eq; try done.
    split; try done; intros p Hp; unfold k1; simpl; by rewrite fset_ne. }
  clearbody k1. assert (∀ k', alloc_done q k k' → alloc_failed k k') as Hfail.
  { intros k' [Ha Hp Hd _ _]. right. exists q. split; [done|split; by left]. }
  wlp_step. apply wlp_on_mach; [|intros t; by apply HR, Hfail, (alloc_done_same q k k1)].
  intros tf t. wlp_step. apply wlp_updp. set (k2 := set_procs _ _).
  assert (alloc_done q k k2) as H2 by (apply alloc_done_updp; [done|by apply (alloc_done_same q k k1)]).
  clearbody k2. destruct (Z.eqb_spec tf 0).
  { wlp_step. apply wlp_release. intros h3. wlp_step. left. split; [done|]. apply Hfail. by apply (alloc_done_same q k k2). }
  wlp_step. apply wlp_proc_pagetable; [|intros t1; by apply HR, Hfail, (alloc_done_same q k k2)].
  intros pt t1. wlp_step. apply wlp_updp. set (k3 := set_procs _ _).
  assert (alloc_done q k k3) as H3 by (apply alloc_done_updp; [done|by apply (alloc_done_same q k k2)]).
  clearbody k3. destruct (Z.eqb_spec pt 0).
  - wlp_step. eapply wlp_mono; [apply wlp_freeproc|..].
    + intros k4 [Ho Hf Hn] Hs Hp Hd. apply HR. right. exists q. destruct H3 as [Ha3 Hp3 Hd3 _ _].
      split; [by eapply allocated_trans|]. split; left; congruence.
    + intros [] k4 H4. wlp_step. apply wlp_release. intros h3. wlp_step. left. split; [done|].
      apply (alloc_undo q k k3); [by destruct H3|]. destruct H4 as [Ho4 Hu4 Hp4 Hf4 Hn4 Hd4]. split; try done.
      eapply others_trans; [exact Ho4|]. by apply others_frame, frame_tables.
    + done.
  - unfold getp. do 3 wlp_step. apply wlp_updp. wlp_step. right. split; [done|]. by apply alloc_done_updp.
Qed.

Lemma wlp_on_idup ip (Q : Z → kernel → Prop) (R : kernel → Prop) k :
  (∀ a d m i, Q a (set_kdisk d (set_kmach m (set_kicache i k)))) → wlp (on_fs (idup ip)) Q R k.
Proof. intros HQ. unfold wlp. cbn. apply HQ. Qed.

(** Memory operations that never block. *)
Lemma wlp_on_mach_ret {A} (m : M machine A) (Q : A → kernel → Prop) R k :
  (∀ c t t', m t ≠ Sleep c t') → (∀ a t, Q a (set_kmach t k)) → wlp (on_mach m) Q R k.
Proof. intros Hm HQ. unfold wlp, on_mach, zoom. destruct (m (kmach k)) eqn:E; try done. by destruct (Hm c (kmach k) s). Qed.

End alloc.

(** ** An example state

    After boot: the process [init] in slot 0 waits, and the shell in slot 1 runs
    with the console open three times; the trap frame of the shell asks for
    [dup(0)], and [a1] to [a5] are 0. *)
Definition ex_tf : Z := KERNBASE + 0x30000.
Definition zero_proc : proc := Proc UNUSED NULL no_chan 0 0 0 0 0 0 0 (Context "" 0) (λ _, NULL) NULL [].
Definition ex_ofile (fd : Z) : Z := if fd <? 3 then 0 else NULL.
Definition ex_procs (p : Z) : proc :=
  match p with
  | 0 => Proc SLEEPING NULL (proc_chan 0) 0 0 1 0 4096 0 0 (Context "" 0) ex_ofile 0 (str "init")
  | 1 => Proc RUNNING 0 no_chan 0 0 2 0 4096 0 ex_tf (Context "" 0) ex_ofile 0 (str "sh")
  | _ => zero_proc
  end.
Definition ex_kernel : kernel :=
  Kernel (boot (λ _ _, 0)) (Machine (store64 (λ _, 0) (ex_tf + tf_a7) 10) 0)
    (λ _, Inode 0 0 0 false 0 false (Dinode 0 0 0 0 0 (λ _, 0))) (SuperBlock 0 0 0 0 0 0 0 0)
    (λ f, if f =? 0 then File FD_DEVICE 6 true true NULL 0 0 1 else File FD_NONE 0 false false NULL NULL 0 0)
    (λ _, Pipe (λ _, 0) 0 0 false false) ex_procs 1 3 0 0 (Console (λ _, 0) 0 0 0) (Uart (λ _, 0) 0 0 1 [] []) [].
