(* ===== verification/ConsoleWrite.v ===== *)
(** * Writing to the console while the line is busy

    [consolewrite] holds [cons.lock] while it gives its bytes to [uartputc], which
    may sleep.  What a write does when the transmitter takes no byte is decided by
    the room in the transmit buffer. *)

From S2P Require Import Prelude Machine Kalloc Vm PageTable Uvm Console Kernel File ProcAlloc.

(** The [i]th byte behind [src] can be read, and is that of [l]. *)
Definition readable_at (user_src : bool) (src : Z) (l : list Z) (k : kernel) : Prop :=
  ∀ i b, l !! i = Some b → either_copyin user_src (u64 (src + Z.of_nat i)) 1 k = Ret (0, [b]) k.

(** The state of the kernel with other locks held and another UART. *)
Definition with_uart (u : uart) (h : list lock) (k : kernel) : kernel := set_kuart u (set_kheld h k).

(** * Lemmas *)

Lemma either_copyin_uart user_src a n r u h k :
  either_copyin user_src a n k = Ret r k → either_copyin user_src a n (with_uart u h k) = Ret r (with_uart u h k).
Proof.
  unfold either_copyin, on_mach, zoom. destruct user_src; cbv [mbind M_bind myproc getp gets mret M_ret]; simpl.
  - destruct (copyin _ _ _ _) as [[v l] m| | | |]; try done. intros [= <- E]. f_equal.
    rewrite <-E. by destruct k.
  - by intros [= <-].
Qed.

(** A busy transmitter takes nothing. *)
Lemma uartstart_busy u : ready u = 0%nat → uartstart u = Some (u, false).
Proof.
  intros E. unfold uartstart. change (Z.to_nat UART_TX_BUF_SIZE + 1)%nat with (S 32). generalize 32%nat. intros f.
  cbn [uartstart_loop]. rewrite E. by destruct (uart_tx_w u =? uart_tx_r u).
Qed.

Lemma pending_full u : uart_ok u → uart_full u = true ↔ length (pending_tx u) = 31%nat.
Proof.
  intros [Hw Hr _]. unfold uart_full, pending_tx. rewrite length_fmap, length_seqZ, Z.eqb_eq. unfold UART_TX_BUF_SIZE in *. dlia.
Qed.

(** One byte, in a thread that holds [cons.lock]. *)
Lemma uartputc_room c u k : uart_full u = false → ready u = 0%nat →
  File.uartputc c (with_uart u [cons_lock] k) = Ret tt (with_uart (uart_store c u) [cons_lock] k).
Proof.
  intros Hf Hr. unfold File.uartputc. erewrite bind_Ret by reflexivity. erewrite bind_Ret by reflexivity.
  change (kuart _) with u. rewrite Hf. unfold Console.uartputc. rewrite Hf, uartstart_busy by done. reflexivity.
Qed.

(** A thread that sleeps with a second lock held. *)
Lemma sleep_two_locks {A} c lk l k : kheld k = [lk; l] → lk ≠ l → lk ≠ plock (curproc k) → l ≠ plock (curproc k) →
  @sleep A c lk k = Panic "sched locks".
Proof.
  intros Hh Hne H1 H2. unfold sleep. erewrite bind_Ret by reflexivity. rewrite bool_decide_false by done.
  set (k1 := set_kheld [plock (curproc k); l] k).
  assert ((acquire (plock (curproc k)) ;; release lk) k = Ret tt k1) as E.
  { unfold acquire, release, holding. cbv [mbind M_bind gets modify]. rewrite Hh, bool_decide_false by (rewrite !not_elem_of_cons; split_and!; [done..|apply not_elem_of_nil]).
    cbn [kheld set_kheld]. rewrite Hh, bool_decide_true by (right; left).
    change (kheld (set_kheld ?h _)) with h. rewrite filter_cons_True by congruence. rewrite filter_cons_False by tauto. rewrite filter_cons_True by congruence. by destruct k. }
  erewrite bind_Ret by exact E. do 2 (erewrite bind_Ret by reflexivity). unfold sched, holding.
  cbv [mbind M_bind gets myproc getp]. cbn [curproc kheld set_kheld k1 set_procs]. by rewrite bool_decide_true by left.
Qed.

Lemma uartputc_full c u k : uart_full u = true → File.uartputc c (with_uart u [cons_lock] k) = Panic "sched locks".
Proof.
  intros Hf. unfold File.uartputc. erewrite bind_Ret by reflexivity. erewrite bind_Ret by reflexivity.
  change (kuart _) with u. rewrite Hf. by apply (sleep_two_locks _ _ cons_lock).
Qed.

Section write.
Context (user_src : bool) (src : Z) (k : kernel).

Lemma consolewrite_loop_room l bs u : uart_ok u → ready u = 0%nat → readable_at user_src src (l ++ bs) k →
  (length (pending_tx u) + length bs ≤ 31)%nat →
  ∃ u', consolewrite_loop (length bs) user_src src (Z.of_nat (length l)) (with_uart u [cons_lock] k) =
          Ret (Z.of_nat (length (l ++ bs))) (with_uart u' [cons_lock] k) ∧
    uart_ok u' ∧ wire u' = wire u ∧ pending_tx u' = pending_tx u ++ (u8 <$> bs).
Proof.
  revert l u. induction bs as [|b bs IH]; intros l u Hu Hr Hl Hlen; cbn [consolewrite_loop length].
  { exists u. by rewrite !app_nil_r. }
  erewrite bind_Ret by (apply either_copyin_uart, Hl; by rewrite lookup_app_r, Nat.sub_diag by lia).
  cbv beta iota zeta. cbn [Z.eqb nth]. simpl in Hlen.
  assert (uart_full u = false) as Hf.
  { destruct (uart_full u) eqn:E; [|done]. apply pending_full in E; [lia|done]. }
  erewrite bind_Ret by (by apply uartputc_room). destruct (pending_tx_store b u Hu Hf) as [Hp Hok].
  destruct (IH (l ++ [b]) (uart_store b u)) as (u' & E & Hu' & Hw & Hp').
  - done.
  - done.
  - by rewrite <-app_assoc.
  - rewrite Hp, length_app. simpl. lia.
  - exists u'. rewrite length_app in E. simpl in E. replace (Z.of_nat (length l) + 1) with (Z.of_nat (length l + 1)) by lia.
    rewrite E, <-app_assoc. split_and!; [done|done|done|]. rewrite Hp', Hp, <-app_assoc. done.
Qed.

Lemma consolewrite_loop_full n l bs u : uart_ok u → ready u = 0%nat → readable_at user_src src (l ++ bs) k →
  length bs = n → (31 < length (pending_tx u) + n)%nat →
  consolewrite_loop n user_src src (Z.of_nat (length l)) (with_uart u [cons_lock] k) = Panic "sched locks".
Proof.
  revert l bs u. induction n as [|n IH]; intros l bs u Hu Hr Hl Hn Hlen.
  { pose proof (length_pending_tx u). lia. }
  destruct bs as [|b bs]; [done|]. cbn [consolewrite_loop].
  erewrite bind_Ret by (apply either_copyin_uart, Hl; by rewrite lookup_app_r, Nat.sub_diag by lia).
  cbv beta iota zeta. cbn [Z.eqb nth]. destruct (uart_full u) eqn:Hf.
  { unfold mbind, M_bind. by rewrite uartputc_full. }
  erewrite bind_Ret by (by apply uartputc_room). destruct (pending_tx_store b u Hu Hf) as [Hp Hok].
  replace (Z.of_nat (length l) + 1) with (Z.of_nat (length (l ++ [b]))) by (rewrite length_app; simpl; lia).
  apply (IH (l ++ [b]) bs); [done|done|by rewrite <-app_assoc|simpl in Hn; lia|].
  rewrite Hp, length_app. simpl. lia.
Qed.

End write.

(** * Claims *)

(** C39: A write to the console while the transmitter is busy.  If the bytes fit in the
    transmit buffer, of 31 places, they are queued in order behind those that wait
    and the write returns their number.  If they do not fit, the kernel panics
    instead of waiting for room: [uartputc] sleeps while the caller still holds
    [cons.lock]. *)
Theorem consolewrite_busy user_src src l k :
  kheld k = [] → uart_ok (kuart k) → ready (kuart k) = 0%nat → readable_at user_src src l k →
  let free := (31 - length (pending_tx (kuart k)))%nat in
  ((length l ≤ free)%nat → ∃ u', consolewrite user_src src (Z.of_nat (length l)) k = Ret (Z.of_nat (length l)) (set_kuart u' k) ∧
     uart_ok u' ∧ wire u' = wire (kuart k) ∧ pending_tx u' = pending_tx (kuart k) ++ (u8 <$> l)) ∧
  ((free < length l)%nat → consolewrite user_src src (Z.of_nat (length l)) k = Panic "sched locks").
Proof.
  intros Hh Hu Hr Hl free. unfold free. pose proof (length_pending_tx (kuart k)).
  assert (consolewrite user_src src (Z.of_nat (length l)) k = (i ← consolewrite_loop (length l) user_src src 0; release cons_lock ;; mret i)
    (with_uart (kuart k) [cons_lock] k)) as E.
  { unfold consolewrite. rewrite Nat2Z.id. destruct k. simpl in Hh. by subst. }
  rewrite E. split; intros Hlen.
  - destruct (consolewrite_loop_room user_src src k [] l (kuart k) Hu Hr Hl ltac:(lia)) as (u' & E' & Hu').
    exists u'. split; [|done]. change (Z.of_nat (length [])) with 0 in E'. erewrite bind_Ret by exact E'. destruct k. simpl in Hh. by subst.
  - pose proof (consolewrite_loop_full user_src src k _ [] l (kuart k) Hu Hr Hl eq_refl ltac:(lia)) as E'. change (Z.of_nat (length [])) with 0 in E'.
    unfold mbind at 1, M_bind at 1. by rewrite E'.
Qed.

(** A process with a page of memory writes 40 zero bytes to an idle console whose
    transmitter is busy. *)
Definition ex_busy : kernel :=
  set_kuart (Uart (λ _, 0) 0 0 0 [] []) (set_kmach ex_space (set_procs (fset ex_procs 1 (set_pagetable ex_page (ex_procs 1))) ex_kernel)).

Lemma consolewrite_busy_witness : consolewrite true 100 (Z.of_nat 40) ex_busy = Panic "sched locks".
Proof.
  apply (consolewrite_busy true 100 (replicate 40 0) ex_busy).
  - reflexivity.
  - split; simpl; unfold UART_TX_BUF_SIZE; lia.
  - reflexivity.
  - intros i b Hi. apply lookup_replicate in Hi as [-> Hi].
    do 40 (destruct i as [|i]; [vm_compute; reflexivity|]). lia.
  - vm_compute. lia.
Defined.
