(* ===== verification/ProcTable.v ===== *)
(** * The page table of a new process

    [proc_pagetable] of kernel/proc.c on the free list: it builds a table that maps
    the trampoline and the trapframe and nothing else, or, when memory runs out,
    gives back every page it has taken. *)

From S2P Require Import Prelude Machine CString Kalloc Vm PageTable Mapping Uvm FreeWalk CopyUser Kernel Proc ProcAlloc.

Section table.
Context `{Image}.

(** The pages of the table [T] and of the free list [l] are those of the free list
    [l0] of [s0]; other memory has not changed. *)
Record built (s0 : machine) (l0 : list Z) (s : machine) (root : Z) (T : ptmap) (l : list Z) : Prop := {
  bt_vm : vm_inv s root T l;
  bt_pages pa : owns T pa ∨ pa ∈ l ↔ pa ∈ l0;
  bt_frame : mem_eq_on (λ x, ∀ pa, pa ∈ l0 → ¬ in_page pa x) (mem s0) (mem s)
}.

(** The leaf entries of the new table. *)
Definition tf_entries (tf va : Z) : Z :=
  if va / PGSIZE =? TRAPFRAME / PGSIZE then leaf_pte tf (Z.lor PTE_R PTE_W)
  else if va / PGSIZE =? TRAMPOLINE / PGSIZE then leaf_pte img_trampoline (Z.lor PTE_R PTE_X)
  else 0.

(** * Lemmas *)

Lemma tramp_ok : pa_ok img_trampoline.
Proof.
  pose proof img_trampoline_ok. pose proof img_etext_ok. pose proof img_end_ok. split; [tauto|].
  unfold PHYSTOP, KERNBASE in *. lia.
Qed.

(** A zeroed page is a table without entries. *)
Lemma pt_inv_root m p : page_ok p → (∀ x, in_page p x → load8 m x = 0) →
  pt_inv m p {[(2, 0) := p]} ∧ ∀ va, pte_of m {[(2, 0) := p]} va = 0.
Proof.
  intros Hp Hz. split.
  - split.
    + apply lookup_singleton_eq.
    + intros l q pa [[= <- <-] <-]%lookup_singleton_Some. split_and!; [lia|lia|done|done|done].
    + intros k1 k2 pa [<- _]%lookup_singleton_Some [<- _]%lookup_singleton_Some. done.
    + intros l q pa i [[= <- <-] <-]%lookup_singleton_Some Hl Hi.
      rewrite lookup_singleton_ne by (intros [= ?]; lia).
      assert (load64 m (pte_addr p i) = 0) as ->; [|done].
      change 0 with (load64 (λ _, 0) (pte_addr p i)). apply load64_ext. intros x Hx. rewrite Hz; [done|]. by eapply pte_addr_in_page.
    + intros l q pa [[= <- <-] _]%lookup_singleton_Some Hl. lia.
  - intros va. unfold pte_of. by rewrite lookup_singleton_ne by (by intros [=]).
Qed.

Lemma wp_uvmcreate s l (Q : Z → machine → Prop) : kmem_inv s l →
  (l = [] → Q 0 s) →
  (∀ p s' l', built s l s' p {[(2, 0) := p]} l' → p ≠ 0 → (∀ va, pte_of (mem s') {[(2, 0) := p]} va = 0) → Q p s') →
  wp uvmcreate Q s.
Proof.
  intros Hk HQ0 HQ. unfold uvmcreate. wp_step. eapply wp_kalloc; [done| |].
  { intros ->. simpl. apply wp_ret. by apply HQ0. }
  intros p l' s1 -> Hp Hk1 Hfr _. pose proof (page_ok_nonzero p Hp) as Hnz. rewrite (proj2 (Z.eqb_neq p 0) Hnz).
  assert (p ∉ l') as Hnin by (destruct Hk as [_ _ Hd]; by apply NoDup_cons in Hd as [? _]).
  unfold do_mem. wp_run. set (s' := Kalloc.set_mem _ s1).
  destruct (pt_inv_root (mem s') p Hp) as [Hpt Hpte].
  { intros x Hx. simpl. by apply load8_memset_in. }
  assert (∀ x, ¬ in_page p x → load8 (mem s') x = load8 (mem s1) x) as Hout.
  { intros x Hx. simpl. apply load8_memset_out; [unfold PGSIZE; lia|done]. }
  apply (HQ p s' l'); [|done|done]. split.
  - split; [|done|].
    + apply kmem_inv_ext; [done|]. intros q Hq x Hx. symmetry. apply Hout. intros Hx'.
      assert (page_ok q) by (eapply elem_page_ok; [apply Hk1|done]).
      by rewrite (in_page_unique q p x) in Hq.
    + intros pa [k [_ <-]%lookup_singleton_Some]. done.
  - intros pa. rewrite elem_of_cons. split.
    + intros [[k [_ <-]%lookup_singleton_Some]|?]; auto.
    + intros [->|?]; [left; exists (2, 0); apply lookup_singleton_eq|by right].
  - intros x Hx. assert (¬ in_page p x) by (apply Hx; set_solver). rewrite Hout by done. by apply Hfr.
Qed.

Lemma built_ext s0 l0 s root T l s' T' l' : built s0 l0 s root T l → vm_inv s' root T' l' → vm_ext s T l s' T' l' →
  built s0 l0 s' root T' l'.
Proof.
  intros [Hvm Hpg Hfr] Hvm' [Hsub (used & -> & Ho) Hfr']. 
  assert (∀ pa, owns T' pa ∨ pa ∈ l' ↔ pa ∈ l0) as Hpg'.
  { intros pa. rewrite <-Hpg, Ho, elem_of_app. tauto. }
  split; [done|done|]. intros x Hx. rewrite (Hfr x Hx). apply Hfr'. intros pa Hpa. apply Hx, Hpg'. by left.
Qed.

(** Giving the table up. *)
Lemma wp_give_up s0 l0 s root T l (Q : unit → machine → Prop) : built s0 l0 s root T l →
  (∀ va, Z.land (pte_of (mem s) T va) PTE_V = 0) →
  (∀ s' l', kmem_inv s' l' → (∀ pa, pa ∈ l' ↔ pa ∈ l0) →
     mem_eq_on (λ x, ∀ pa, pa ∈ l0 → ¬ in_page pa x) (mem s0) (mem s') → Q tt s') →
  wp (uvmfree root 0) Q s.
Proof.
  intros [Hvm Hpg Hfr] Hleaf HQ. unfold uvmfree. simpl. wp_step. wp_step. eapply wp_freewalk; [done|done|].
  intros s' l' Hk Hl Hfr'. apply (HQ s' l' Hk).
  - intros pa. by rewrite Hl, Hpg.
  - intros x Hx. rewrite (Hfr x Hx). apply Hfr'. intros pa Hpa. apply Hx, Hpg. by left.
Qed.

(** Taking a mapping away, without freeing the page. *)
Lemma wp_uvmunmap_one s0 l0 s root T l va (Q : unit → machine → Prop) : built s0 l0 s root T l →
  va `mod` PGSIZE = 0 → 0 ≤ va → va + PGSIZE ≤ MAXVA →
  Z.land (pte_of (mem s) T va) PTE_V ≠ 0 → PTE_FLAGS (pte_of (mem s) T va) ≠ PTE_V →
  (∀ s', built s0 l0 s' root T l →
     (∀ va', pte_of (mem s') T va' = if va' / PGSIZE =? va / PGSIZE then 0 else pte_of (mem s) T va') → Q tt s') →
  wp (uvmunmap root va 1 false) Q s.
Proof.
  intros Hb Hal Hva Hmax HV HF HQ. pose proof (bt_vm _ _ _ _ _ _ Hb) as Hvm. pose proof (vm_pt _ _ _ _ Hvm) as Hpt.
  assert (MAXVA < 2 ^ 64) by done. assert (is_Some (T !! (0, vkey 0 va))) as Hs by (by eapply valid_is_Some).
  unfold uvmunmap. rewrite Hal. simpl. rewrite (u64_small (1 * PGSIZE)), u64_small by (unfold PGSIZE in *; lia).
  replace (Z.to_nat ((va + 1 * PGSIZE - va) / PGSIZE + 2)) with 3%nat.
  2: { replace (va + 1 * PGSIZE - va) with PGSIZE by lia. done. }
  cbn [uvmunmap_loop]. rewrite (proj2 (Z.ltb_lt _ _)) by (unfold PGSIZE; lia).
  wp_step. eapply wp_of_eq; [eapply walk_noalloc; [done|unfold PGSIZE in *; lia]|].
  rewrite (proj2 (Z.eqb_neq _ _) (slot_of_nonzero Hpt _ Hs)). unfold read64. wp_run. rewrite (load64_slot_of va) by done.
  rewrite (proj2 (Z.eqb_neq _ _) HV), (proj2 (Z.eqb_neq _ _) HF).
  destruct (vm_set_leaf s root T l va 0 Hvm Hs ltac:(lia)) as (Hvm' & Hext & Hpte).
  unfold write64, do_mem. wp_run. rewrite u64_small by (unfold PGSIZE in *; lia).
  rewrite (proj2 (Z.ltb_ge _ _)) by lia. wp_run. apply HQ; [by eapply built_ext|done].
Qed.

(** A table with these entries is an address space without user pages. *)
Lemma tf_entries_space s0 l0 s root T l tf : page_ok tf → built s0 l0 s root T l → (∀ va, pte_of (mem s) T va = tf_entries tf va) →
  @user_space _ root T l ∅ s.
Proof.
  intros Htf Hb He. split.
  - split; [apply Hb|intros vpn pa [=]|intros v1 v2 pa [=]|intros vpn pa [=]].
  - intros va Hva v HV HU. exfalso. apply HU. unfold v. rewrite He. unfold tf_entries.
    pose proof (page_ok_pa_ok tf Htf). pose proof tramp_ok.
    repeat case_match; [..|done]; rewrite land_flags, PTE_FLAGS_leaf by done; done.
Qed.

Lemma wp_proc_pagetable p k l (Q : Z → kernel → Prop) : let tf := trapframe (procs k p) in
  kmem_inv (kmach k) l → page_ok tf →
  (∀ s' l', kmem_inv s' l' → (∀ pa, pa ∈ l' ↔ pa ∈ l) →
     mem_eq_on (λ x, ∀ pa, pa ∈ l → ¬ in_page pa x) (mem (kmach k)) (mem s') → Q 0 (set_kmach s' k)) →
  (∀ r s' T l', r ≠ 0 → built (kmach k) l s' r T l' → (∀ va, pte_of (mem s') T va = tf_entries tf va) → Q r (set_kmach s' k)) →
  wp (proc_pagetable p) Q k.
Proof.
  intros tf Hk Htf HQ0 HQ. pose proof (page_ok_pa_ok tf Htf) as Hpa. pose proof tramp_ok as Hta. unfold proc_pagetable.
  assert (set_kmach (kmach k) k = k) as Ek by (by destruct k).
  wp_step. apply wp_zoom. eapply wp_uvmcreate; [done| |].
  { intros ->. simpl. apply wp_ret. eapply HQ0; done. }
  intros root s1 l1 Hb1 Hnz Hp1. rewrite (proj2 (Z.eqb_neq _ _) Hnz).
  wp_step. apply wp_zoom. cbn [kmach set_kmach]. eapply wp_mappages_one; [apply Hb1|by vm_compute|done|by vm_compute|done|done|by rewrite Hp1| |].
  { intros s2 T2 Hvm2 Hext2 Hp2. cbn [Z.ltb Z.compare]. pose proof (built_ext _ _ _ _ _ _ _ _ _ Hb1 Hvm2 Hext2) as Hb2.
    wp_step. apply wp_zoom. cbn [kmach set_kmach]. eapply (wp_give_up _ _ _ _ _ _ _ Hb2).
    - intros va. by rewrite Hp2, Hp1.
    - intros s' l' Hk' Hl' Hfr. wp_run. by eapply HQ0. }
  intros s2 T2 l2 Hvm2 Hext2 Hp2. pose proof (built_ext _ _ _ _ _ _ _ _ _ Hb1 Hvm2 Hext2) as Hb2. cbn [Z.ltb Z.compare].
  unfold getp. wp_step. wp_step. change (trapframe (procs _ p)) with tf. wp_step. apply wp_zoom. cbn [kmach set_kmach].
  eapply wp_mappages_one; [exact Hvm2|by vm_compute|done|by vm_compute|done|done|by rewrite Hp2, Hp1| |].
  { intros s3 T3 Hvm3 Hext3 Hp3. cbn [Z.ltb Z.compare]. pose proof (built_ext _ _ _ _ _ _ _ _ _ Hb2 Hvm3 Hext3) as Hb3.
    assert (pte_of (mem s3) T3 TRAMPOLINE = leaf_pte img_trampoline (Z.lor PTE_R PTE_X)) as Ht by (by rewrite Hp3, Hp2, Z.eqb_refl).
    wp_step. apply wp_zoom. cbn [kmach set_kmach]. eapply (wp_uvmunmap_one _ _ _ _ _ _ _ _ Hb3); [done|by vm_compute|by vm_compute| | |].
    { by rewrite Ht, leaf_pte_valid. }
    { rewrite Ht, PTE_FLAGS_leaf by done. by vm_compute. }
    intros s4 Hb4 Hp4. wp_step. apply wp_zoom. cbn [kmach set_kmach]. eapply (wp_give_up _ _ _ _ _ _ _ Hb4).
    - intros va. rewrite Hp4, Hp3, Hp2, Hp1. by case_match.
    - intros s' l' Hk' Hl' Hfr. wp_run. by eapply HQ0. }
  intros s3 T3 l3 Hvm3 Hext3 Hp3. pose proof (built_ext _ _ _ _ _ _ _ _ _ Hb2 Hvm3 Hext3) as Hb3. cbn [Z.ltb Z.compare]. wp_run.
  eapply HQ; [done|exact Hb3|]. intros va. by rewrite Hp3, Hp2, Hp1.
Qed.

End table.

(** * Claims *)

(** C15: [proc_pagetable] returns, and leaves memory outside of the free pages alone.
    Either its result is an address space without user pages that maps the
    trampoline (readable and executable by the kernel) and the trapframe of the
    process (readable and writable by the kernel) and nothing else, and whose pages
    were free; or its result is 0, and the pages that were free are free again. *)
Theorem proc_pagetable_builds_or_restores `{Image} p k l : let tf := trapframe (procs k p) in
  kmem_inv (kmach k) l → page_ok tf → tf ∉ l →
  ∃ r s', proc_pagetable p k = Ret r (set_kmach s' k) ∧
    mem_eq_on (λ x, ∀ pa, pa ∈ l → ¬ in_page pa x) (mem (kmach k)) (mem s') ∧
    ((r ≠ 0 ∧ ∃ T l', @user_space _ r T l' ∅ s' ∧ (∀ pa, owns T pa ∨ pa ∈ l' ↔ pa ∈ l) ∧
        (∀ va, pte_of (mem s') T va = tf_entries tf va) ∧ ¬ owns T tf) ∨
     (r = 0 ∧ ∃ l', kmem_inv s' l' ∧ ∀ pa, pa ∈ l' ↔ pa ∈ l)).
Proof.
  intros tf Hk Htf Hl.
  enough (wp (proc_pagetable p) (λ r k', ∃ s', k' = set_kmach s' k ∧
    mem_eq_on (λ x, ∀ pa, pa ∈ l → ¬ in_page pa x) (mem (kmach k)) (mem s') ∧
    ((r ≠ 0 ∧ ∃ T l', @user_space _ r T l' ∅ s' ∧ (∀ pa, owns T pa ∨ pa ∈ l' ↔ pa ∈ l) ∧
        (∀ va, pte_of (mem s') T va = tf_entries tf va) ∧ ¬ owns T tf) ∨
     (r = 0 ∧ ∃ l', kmem_inv s' l' ∧ ∀ pa, pa ∈ l' ↔ pa ∈ l))) k) as Hw.
  { apply wp_inv in Hw as (r & k' & E & s' & -> & Hrest). by exists r, s'. }
  eapply wp_proc_pagetable; [done|done| |].
  - intros s' l' Hk' Hl' Hfr. exists s'. split_and!; [done|done|]. right. split; [done|]. by exists l'.
  - intros r s' T l' Hr Hb He. exists s'. split_and!; [done|apply Hb|]. left. split; [done|]. exists T, l'.
    split_and!; [by eapply tf_entries_space|apply Hb|done|]. intros Ho. apply Hl, (bt_pages _ _ _ _ _ _ Hb). by left.
Qed.

(** ** A process table entry with a trapframe, and four free pages *)

Definition ex_at (i : Z) : Z := ex_page + i * PGSIZE.
Definition ex_list : list Z := [ex_at 1; ex_at 2; ex_at 3; ex_at 4].
Definition ex_list_mem : machine :=
  Machine (store64 (store64 (store64 (λ _, 0) (ex_at 1) (ex_at 2)) (ex_at 2) (ex_at 3)) (ex_at 3) (ex_at 4)) (ex_at 1).
Definition ex_proc : kernel :=
  set_kmach ex_list_mem (set_procs (fset ex_procs 1 (set_trapframe (ex_at 0) (ex_procs 1))) ex_kernel).

Lemma ex_at_ok i : 0 ≤ i < 100 → page_ok (ex_at i).
Proof. intros Hi. unfold page_ok, ex_at, ex_page, PGSIZE, PHYSTOP, KERNBASE. change img_end with 0x80022000. dlia. Qed.

Lemma ex_list_inv : kmem_inv ex_list_mem ex_list.
Proof.
  split.
  - vm_compute. done.
  - repeat (constructor; [apply ex_at_ok; lia|]). constructor.
  - apply (bool_decide_unpack _). vm_compute. done.
Qed.

Lemma ex_list_notin : ex_at 0 ∉ ex_list.
Proof. apply (bool_decide_unpack _). vm_compute. done. Qed.

Lemma proc_pagetable_builds_or_restores_witness :
  ∃ r s' T l', proc_pagetable 1 ex_proc = Ret r (set_kmach s' ex_proc) ∧ @user_space _ r T l' ∅ s' ∧
    pte_of (mem s') T TRAPFRAME = leaf_pte (ex_at 0) (Z.lor PTE_R PTE_W) ∧ ¬ owns T (ex_at 0).
Proof.
  destruct (proc_pagetable_builds_or_restores 1 ex_proc ex_list ex_list_inv (ex_at_ok 0 ltac:(lia)) ex_list_notin)
    as (r & s' & E & _ & Hr).
  assert (match proc_pagetable 1 ex_proc with Ret r _ => r =? 0 | _ => true end = false) as Enz by (vm_compute; reflexivity).
  rewrite E in Enz. destruct Hr as [(_ & T & l' & Hs & _ & He & Ho)|[-> _]]; [|discriminate].
  exists r, s', T, l'. split; [exact E|]. split; [exact Hs|]. split; [exact (He TRAPFRAME)|exact Ho].
Defined.
