(* ===== verification/FileRefs.v ===== *)
(** * Reference counts of open files

    In every state between system calls the reference count of a file is the
    number of descriptors, of all processes, that refer to it. *)

From S2P Require Import Prelude Machine CString Kalloc Vm Bio Cache Log Txn Fs Pipe Console Grep Printf Kernel File Proc Exec Syscall Sysfile Trap Frame ProcAlloc.

Definition sumZ {A} (g : A → Z) (l : list A) : Z := foldr (λ x acc, g x + acc) 0 l.

(** All descriptors: a process and an index. *)
Definition slots : list (Z * Z) := list_prod proc_indices fd_indices.

Definition is_ref (f v : Z) : Z := if v =? f then 1 else 0.

Definition fd_refs (t : Z → proc) (f : Z) : Z := sumZ (λ '(p, fd), is_ref f (ofile (t p) fd)) slots.

Definition file_idx (f : Z) : Prop := 0 ≤ f < NFILE.

(** [x f] references to [f] are in the hands of the running thread; the process
    [e] is being set up. *)
Record files_inv (x : Z → Z) (e : Z) (k : kernel) : Prop := {
  fi_range s : s ∈ slots → ofile (procs k s.1) s.2 = NULL ∨ file_idx (ofile (procs k s.1) s.2);
  fi_refs f : file_idx f → fref (ftable k f) = fd_refs (procs k) f + x f;
  fi_none f : file_idx f → fref (ftable k f) = 0 → ftype (ftable k f) = FD_NONE;
  fi_idle s : s ∈ slots → s.1 ≠ e → idle (pstate (procs k s.1)) = true → ofile (procs k s.1) s.2 = NULL
}.

(** No reference is in flight. *)
Definition none : Z → Z := λ _, 0.
Definition bump (x : Z → Z) (f d : Z) : Z → Z := λ g, x g + (if g =? f then d else 0).

Definition running (k : kernel) : Prop := 0 ≤ curproc k < NPROC ∧ active k.

Definition files_ok (k : kernel) : Prop := files_inv none NULL k.

(** * Lemmas *)

Lemma sumZ_ext {A} (g g' : A → Z) l : (∀ x, x ∈ l → g x = g' x) → sumZ g l = sumZ g' l.
Proof.
  induction l as [|y l IH]; simpl; intros H; [done|]. rewrite (H y), IH; [done| |left]. intros x Hx. apply H. by right.
Qed.

Lemma sumZ_update {A} (g g' : A → Z) l x :
  NoDup l → x ∈ l → (∀ y, y ≠ x → g' y = g y) → sumZ g' l = sumZ g l - g x + g' x.
Proof.
  intros Hnd Hx Hg. induction l as [|y l IH]; [by apply not_elem_of_nil in Hx|].
  apply NoDup_cons in Hnd as [Hy Hnd]. simpl. apply elem_of_cons in Hx as [->|Hx].
  - rewrite (sumZ_ext g' g l); [lia|]. intros z Hz. apply Hg. congruence.
  - rewrite IH by done. rewrite (Hg y) by congruence. lia.
Qed.

Lemma sumZ_nonneg {A} (g : A → Z) l : (∀ x, 0 ≤ g x) → 0 ≤ sumZ g l.
Proof. intros H. induction l as [|y l IH]; simpl; [lia|]. specialize (H y). lia. Qed.

Lemma elem_fd_indices fd : fd ∈ fd_indices ↔ 0 ≤ fd < NOFILE.
Proof. unfold fd_indices. rewrite elem_of_seqZ. lia. Qed.

Lemma elem_slots p fd : (p, fd) ∈ slots ↔ 0 ≤ p < NPROC ∧ 0 ≤ fd < NOFILE.
Proof.
  unfold slots. rewrite <-elem_proc_indices, <-elem_fd_indices. rewrite !list_elem_of_In. apply in_prod_iff.
Qed.

Lemma NoDup_slots : NoDup slots.
Proof. apply (bool_decide_unpack _). vm_compute. exact I. Qed.

Lemma NoDup_fd_indices : NoDup fd_indices.
Proof. unfold fd_indices. apply NoDup_seqZ. Qed.

#[global] Opaque fd_indices slots.

Lemma is_ref_range f v : 0 ≤ is_ref f v ≤ 1.
Proof. unfold is_ref. case_match; lia. Qed.

Lemma fd_refs_nonneg t f : 0 ≤ fd_refs t f.
Proof. apply sumZ_nonneg. intros [p fd]. apply is_ref_range. Qed.

Lemma fd_refs_ext t t' f : (∀ s, s ∈ slots → ofile (t' s.1) s.2 = ofile (t s.1) s.2) → fd_refs t' f = fd_refs t f.
Proof. intros H. apply sumZ_ext. intros [p fd] Hs. f_equal. apply (H _ Hs). Qed.

(** One descriptor changes. *)
Lemma fd_refs_set t f p fd v x :
  (p, fd) ∈ slots → ofile x = fset (ofile (t p)) fd v →
  fd_refs (fset t p x) f = fd_refs t f - is_ref f (ofile (t p) fd) + is_ref f v.
Proof.
  intros Hs Ex. unfold fd_refs. rewrite (sumZ_update (λ '(q, d), is_ref f (ofile (t q) d)) _ slots (p, fd)).
  - by rewrite fset_eq, Ex, fset_eq.
  - apply NoDup_slots.
  - done.
  - intros [q d] Hne. unfold fset at 1. destruct (Z.eqb_spec q p) as [->|]; [|done]. rewrite Ex, fset_ne; [done|]. congruence.
Qed.

(** ** What does not concern the files *)

(** Processes may be freed and allocated, but none becomes idle or busy. *)
Record fsame (k k' : kernel) : Prop := {
  fs_ofile p : ofile (procs k' p) = ofile (procs k p);
  fs_idle p : idle (pstate (procs k' p)) = idle (pstate (procs k p));
  fs_fref f : fref (ftable k' f) = fref (ftable k f);
  fs_ftype f : ftype (ftable k' f) = ftype (ftable k f);
  fs_cur : curproc k' = curproc k
}.

Lemma frame_fsame k k' : frame k k' → fsame k k'.
Proof.
  intros [Hp Hr Ht Hc _ _ _]. split; try done; intros p; destruct (Hp p) as [_ _ Ho Hu Hz]; [done|].
  apply eq_iff_eq_true. by rewrite !idle_true, Hu, Hz.
Qed.

Lemma fsame_trans k1 k2 k3 : fsame k1 k2 → fsame k2 k3 → fsame k1 k3.
Proof. intros [] []. split; intros; congruence. Qed.

Lemma fsame_active k k' : fsame k k' → active k → active k'.
Proof. intros [_ Hi _ _ Hc]. unfold active. by rewrite Hc, Hi. Qed.

#[export] Instance fsame_like : FrameLike active fsame.
Proof. split; [by split|apply fsame_trans|apply frame_fsame|apply fsame_active|done]. Qed.

(** The process [p] is idle, and stays so. *)
#[export] Instance fsame_idle_like p : FrameLike (λ k, active k ∧ idle (pstate (procs k p)) = true) fsame.
Proof.
  split; [by split|apply fsame_trans|apply frame_fsame| |by intros k []].
  intros k k' H [Ha Hp]. split; [by eapply fsame_active|]. by rewrite (fs_idle _ _ H).
Qed.

Lemma files_fsame x e k k' : fsame k k' → files_inv x e k → files_inv x e k'.
Proof.
  intros [Ho Hi Hr Ht Hc] [Hrg Hrf Hn Hid]. split.
  - intros s Hs. rewrite Ho. by apply Hrg.
  - intros f Hf. rewrite Hr, Hrf by done. f_equal. apply fd_refs_ext. intros s _. by rewrite Ho.
  - intros f Hf. rewrite Hr, Ht. by apply Hn.
  - intros s Hs He. rewrite Ho, Hi. by apply Hid.
Qed.

Lemma files_frame x e k k' : frame k k' → files_inv x e k → files_inv x e k'.
Proof. intros H. by apply files_fsame, frame_fsame. Qed.

Lemma files_ext x y e k : (∀ f, file_idx f → x f = y f) → files_inv x e k → files_inv y e k.
Proof. intros H [Hrg Hrf Hn Hid]. split; try done. intros f Hf. by rewrite Hrf, H. Qed.

(** ** Descriptors and files change *)

Lemma files_set_slot x e k p fd v :
  files_inv x e k → (p, fd) ∈ slots → v = NULL ∨ file_idx v →
  p = e ∨ v = NULL ∨ idle (pstate (procs k p)) = false →
  files_inv (bump (bump x (ofile (procs k p) fd) 1) v (-1)) e
    (set_procs (fset (procs k) p (set_ofile (fset (ofile (procs k p)) fd v) (procs k p))) k).
Proof.
  intros [Hrg Hrf Hn Hid] Hs Hv Hi. set (y := set_ofile _ _). split; simpl; try done.
  - intros [q d] Hq. simpl. unfold fset at 1 2. destruct (Z.eqb_spec q p) as [->|]; [|by apply (Hrg (q, d))].
    unfold y, fset. simpl. destruct (d =? fd); [done|]. by apply (Hrg (p, d)).
  - intros f Hf. rewrite Hrf by done. rewrite (fd_refs_set (procs k) f p fd v y Hs eq_refl).
    unfold bump, is_ref. rewrite (Z.eqb_sym f v), (Z.eqb_sym f (ofile _ _)). repeat case_match; lia.
  - intros [q d] Hq. simpl. unfold fset at 1 2. destruct (Z.eqb_spec q p) as [->|]; [|by apply (Hid (q, d))].
    unfold y, fset. simpl. intros He Hidle. destruct (Z.eqb_spec d fd) as [->|]; [|by apply (Hid (p, d))].
    destruct Hi as [?|[?|?]]; [done|done|congruence].
Qed.

Lemma files_set_file x e k f y d :
  files_inv x e k → fref y = fref (ftable k f) + d → (fref y = 0 → ftype y = FD_NONE) →
  files_inv (bump x f d) e (set_ftable (fset (ftable k) f y) k).
Proof.
  intros [Hrg Hrf Hn Hid] Hy H0. split; simpl; try done.
  - intros g Hg. unfold fset, bump. destruct (Z.eqb_spec g f) as [->|]; [rewrite Hy|]; rewrite Hrf by done; lia.
  - intros g Hg. unfold fset. destruct (Z.eqb_spec g f) as [->|]; [done|]. by apply Hn.
Qed.

(** ** The functions that handle references *)

Lemma frame_running k k' : frame k k' → running k → running k'.
Proof. intros H [Hc Ha]. split; [by rewrite (fr_cur _ _ H)|by eapply frame_active]. Qed.

(** The pieces of a state that the next step needs, after code that keeps them. *)
Lemma wlp_files {A} (m : M kernel A) (Q : A → kernel → Prop) (R : kernel → Prop) x e k :
  keeps m → running k → files_inv x e k →
  (∀ a k', frame k k' → running k' → files_inv x e k' → Q a k') → (∀ k', frame k k' → files_inv x e k' → R k') →
  wlp m Q R k.
Proof.
  intros Hm Hk Hf HQ HR. apply wlp_keeps; [done|by destruct Hk|..].
  - intros a k' H' _. apply HQ; [done|by eapply frame_running|by eapply files_frame].
  - intros k' H'. apply HR; [done|by eapply files_frame].
Qed.

(** The descriptors and the running process are the same. *)
Definition psame (k k' : kernel) : Prop := curproc k' = curproc k ∧ ∀ p, same_core (procs k p) (procs k' p).

Lemma frame_psame k k' : frame k k' → psame k k'.
Proof. by intros []. Qed.

Lemma psame_trans k1 k2 k3 : psame k1 k2 → psame k2 k3 → psame k1 k3.
Proof. intros [H1 H1'] [H2 H2']. split; [congruence|]. intros p. by eapply same_core_trans. Qed.

Lemma psame_ftable k t : psame k (set_ftable t k).
Proof. by split. Qed.

Lemma psame_running k k' : psame k k' → running k → running k'.
Proof.
  intros [Hc Hp] [Hr Ha]. split; [by rewrite Hc|]. unfold active in *. rewrite Hc. rewrite idle_spec in *.
  destruct (Hp (curproc k)) as [_ _ _ Hu Hz]. tauto.
Qed.

Lemma psame_ofile k k' p : psame k k' → ofile (procs k' p) = ofile (procs k p).
Proof. intros [_ H]. apply (H p). Qed.

Section files.
Context `{Image}.

Lemma wlp_filealloc x e k (R : kernel → Prop) :
  files_inv x e k → (∀ f, file_idx f → 0 ≤ x f) →
  wlp filealloc (λ f k', psame k k' ∧
    (f = NULL ∧ files_inv x e k' ∨ file_idx f ∧ x f = 0 ∧ files_inv (bump x f 1) e k' ∧ ftype (ftable k' f) = FD_NONE)) R k.
Proof.
  intros Hf Hx. unfold filealloc. wlp_step. apply wlp_acquire_frame. intros k1 H1.
  apply (files_frame _ _ _ _ H1) in Hf. wlp_step. wlp_step.
  destruct (first_such_split (λ f, fref (ftable k1 f) =? 0) 0 NFILE) as [(f & -> & Hr & E & _)|[-> _]].
  - apply Z.eqb_eq in E. assert (file_idx f) as Hi by (split; lia).
    assert (x f = 0) as Hx0.
    { pose proof (fi_refs _ _ _ Hf f Hi). pose proof (fd_refs_nonneg (procs k1) f). specialize (Hx f Hi). lia. }
    pose proof (fi_none _ _ _ Hf f Hi E) as Ht.
    wlp_step. unfold updf. wlp_step. set (k2 := set_ftable _ k1).
    assert (files_inv (bump x f 1) e k2) as Hf2 by (apply files_set_file; [done|simpl; lia|simpl; lia]).
    assert (psame k k2) as H2 by (eapply psame_trans; [by apply frame_psame|apply psame_ftable]).
    wlp_step. apply wlp_release_frame. intros k3 H3. wlp_step.
    split; [by eapply psame_trans, frame_psame|]. right. split_and!; [done..|by eapply files_frame|].
    rewrite (fr_ftype _ _ H3). unfold k2. simpl. by rewrite fset_eq.
  - wlp_step. apply wlp_release_frame. intros k3 H3. wlp_step. split; [apply frame_psame; by etrans|].
    left. split; [done|by eapply files_frame].
Qed.

Lemma wlp_filedup x e k f (R : kernel → Prop) :
  files_inv x e k → file_idx f →
  wlp (filedup f) (λ r k', r = f ∧ psame k k' ∧ files_inv (bump x f 1) e k' ∧ ∀ g, ftype (ftable k' g) = ftype (ftable k g)) R k.
Proof.
  intros Hf Hi. unfold filedup. wlp_step. apply wlp_acquire_frame. intros k1 H1.
  apply (files_frame _ _ _ _ H1) in Hf. wlp_step. unfold getf. wlp_step.
  destruct (Z.ltb_spec (fref (ftable k1 f)) 1) as [|Hge]; [done|]. wlp_step. unfold updf. wlp_step. set (k2 := set_ftable _ k1).
  assert (files_inv (bump x f 1) e k2) as Hf2 by (apply files_set_file; [done|simpl; lia|simpl; lia]).
  assert (psame k k2) as H2 by (eapply psame_trans; [by apply frame_psame|apply psame_ftable]).
  wlp_step. apply wlp_release_frame. intros k3 H3. wlp_step. split; [done|].
  split; [by eapply psame_trans, frame_psame|]. split; [by eapply files_frame|].
  intros g. rewrite (fr_ftype _ _ H3), <-(fr_ftype _ _ H1). unfold k2. simpl. unfold fset. by destruct (Z.eqb_spec g f) as [->|].
Qed.

(** The reference is dropped before the code that may sleep. *)
Lemma wlp_fileclose x e k f :
  running k → files_inv x e k →
  wlp (fileclose f) (λ _ k', psame k k' ∧ files_inv (bump x f (-1)) e k' ∧ ∀ g, g ≠ f → ftype (ftable k' g) = ftype (ftable k g))
    (λ k', psame k k' ∧ files_inv (bump x f (-1)) e k') k.
Proof.
  intros Hk Hf. unfold fileclose. wlp_step. apply wlp_acquire_frame. intros k1 H1.
  apply (files_frame _ _ _ _ H1) in Hf. wlp_step. unfold getf. wlp_step.
  destruct (Z.ltb_spec (fref (ftable k1 f)) 1) as [|Hge]; [done|]. wlp_step. unfold updf at 1. wlp_step. set (k2 := set_ftable _ k1).
  assert (psame k k2) as H2 by (eapply psame_trans; [by apply frame_psame|apply psame_ftable]).
  assert (∀ g, g ≠ f → ftype (ftable k2 g) = ftype (ftable k g)) as Ht2.
  { intros g Hg. rewrite <-(fr_ftype _ _ H1). unfold k2. simpl. by rewrite fset_ne. }
  destruct (Z.gtb_spec (fref (ftable k1 f) - 1) 0) as [Hgt|Hle].
  { assert (files_inv (bump x f (-1)) e k2) as Hf2 by (apply files_set_file; [done|simpl; lia|simpl; lia]).
    apply wlp_release_frame. intros k3 H3. split_and!; [by eapply psame_trans, frame_psame|by eapply files_frame|].
    intros g Hg. by rewrite (fr_ftype _ _ H3), Ht2. }
  wlp_step. wlp_step. unfold updf. wlp_step. wlp_step. set (k3 := set_ftable _ k2).
  assert (files_inv (bump x f (-1)) e k3) as Hf3.
  { assert (files_inv (bump x f (-1)) e (set_ftable (fset (ftable k1) f (set_ftype FD_NONE (set_fref 0 (ftable k1 f)))) k1))
      as Hf3 by (apply files_set_file; [done|simpl; lia|done]).
    eapply files_frame; [|exact Hf3]. split; try done; intros g; unfold k3, k2; simpl; unfold fset; by destruct (g =? f). }
  assert (psame k k3) as H3 by (eapply psame_trans; [exact H2|apply psame_ftable]).
  assert (∀ g, g ≠ f → ftype (ftable k3 g) = ftype (ftable k g)) as Ht3.
  { intros g Hg. rewrite <-Ht2 by done. unfold k3. simpl. by rewrite fset_ne. }
  generalize (ftable k2 f). intros ff. wlp_step. apply wlp_release_frame. intros k4 H4.
  eapply wlp_files; [solve_keeps|eapply frame_running, psame_running; eassumption|by eapply files_frame|..].
  - intros [] k5 H5 _ Hf5. split_and!; [|done|].
    + eapply psame_trans; [exact H3|]. apply frame_psame. by etrans.
    + intros g Hg. by rewrite (fr_ftype _ _ H5), (fr_ftype _ _ H4), Ht3.
  - intros k5 H5 Hf5. split; [|done]. eapply psame_trans; [exact H3|]. apply frame_psame. by etrans.
Qed.

Lemma wlp_fdalloc x k f (R : kernel → Prop) :
  running k → files_inv x NULL k → file_idx f →
  wlp (fdalloc f) (λ fd k',
    fd = -1 ∧ k' = k ∧ (∀ i, 0 ≤ i < NOFILE → ofile (procs k (curproc k)) i ≠ NULL) ∨
    0 ≤ fd < NOFILE ∧ files_inv (bump x f (-1)) NULL k' ∧ running k' ∧ curproc k' = curproc k ∧
    ofile (procs k (curproc k)) fd = NULL ∧ ofile (procs k' (curproc k)) = fset (ofile (procs k (curproc k))) fd f ∧
    (∀ i, 0 ≤ i < fd → ofile (procs k (curproc k)) i ≠ NULL) ∧ ftable k' = ftable k) R k.
Proof.
  intros [Hc Ha] Hf Hi. unfold fdalloc, myproc, getp. do 4 wlp_step. change fd_indices with (seqZ 0 NOFILE).
  destruct (first_such_split (λ fd, ofile (procs k (curproc k)) fd =? NULL) 0 NOFILE) as [(fd & -> & Hr & E & Hb)|[-> Hn]].
  - apply Z.eqb_eq in E. wlp_step. unfold updp. do 2 wlp_step. right.
    pose proof (files_set_slot x NULL k (curproc k) fd f Hf) as Hs. rewrite E in Hs.
    split; [lia|]. split.
    { eapply files_ext; [|apply Hs]; [|by apply elem_slots|by right|by right; right].
      intros g Hg. unfold bump, file_idx, NULL in *. repeat case_match; lia. }
    split; [split; [done|unfold active in *; simpl; by rewrite fset_eq]|]. split_and!; try done.
    + simpl. by rewrite fset_eq.
    + intros i Hi'. specialize (Hb i ltac:(lia)). lia.
  - wlp_step. left. split_and!; try done. intros i Hi'. specialize (Hn i ltac:(lia)). lia.
Qed.

(** ** Outcomes of a system call *)

(** At most one reference is in flight. *)
Definition in_flight (k : kernel) : Prop := ∃ f d, -1 ≤ d ≤ 1 ∧ files_inv (bump none f d) NULL k.

Definition call_ok {A} (m : M kernel A) : Prop :=
  ∀ k, running k → files_ok k → wlp m (λ _ k', files_ok k') in_flight k.

Lemma settled k : files_ok k → in_flight k.
Proof. intros Hk. exists 0, 0. split; [lia|]. eapply files_ext; [|exact Hk]. intros f _. unfold bump. case_match; lia. Qed.

(** Counts that agree in the end. *)
Ltac files_done := eapply files_ext; [|eassumption]; intros ? ?; unfold bump, none, NULL, file_idx in *; repeat case_match; lia.

Lemma call_fsame {A} (m : M kernel A) : keeping active fsame m → call_ok m.
Proof.
  intros Hm k [_ Ha] Hk. eapply wlp_mono; [by apply Hm|..]; simpl.
  - intros _ k' H'. by eapply files_fsame.
  - intros k' H'. apply settled. by eapply files_fsame.
Qed.

Lemma call_keeps {A} (m : M kernel A) : keeps m → call_ok m.
Proof. intros Hm. by apply call_fsame, keeping_keeps. Qed.

(** ** wait *)

Lemma fsame_others q k k' :
  others q k k' → ofile (procs k' q) = ofile (procs k q) → idle (pstate (procs k' q)) = idle (pstate (procs k q)) → fsame k k'.
Proof.
  intros [Hp Hr Ht Hc _ _] Ho Hi. split; try done; intros p; destruct (decide (p = q)) as [->|Hne]; try done;
    destruct (Hp p Hne) as [_ _ Ho' Hu Hz]; [done|]. apply eq_iff_eq_true. by rewrite !idle_true, Hu, Hz.
Qed.

Lemma fsame_alloc_failed k k' : alloc_failed k k' → fsame k k'.
Proof.
  intros [?|(q & [Ho Hi [Hu Hu'] Hf _] & _)]; [by apply frame_fsame|]. apply (fsame_others q); [done|done|]. by rewrite Hu, Hu'.
Qed.

Lemma fsame_freed q k k' : idle (pstate (procs k q)) = true → freed q k k' → fsame k k'.
Proof. intros Hq [Ho Hu _ Hf _ _]. apply (fsame_others q); [done|done|]. by rewrite Hu, Hq. Qed.

Lemma fsame_tables k k' : procs k' = procs k → ftable k' = ftable k → curproc k' = curproc k → fsame k k'.
Proof. intros Hp Hf Hc. split; intros; by rewrite ?Hp, ?Hf. Qed.

(** [freeproc] of an idle process. *)
Lemma wlp_freeproc_fsame q k0 k (Q : unit → kernel → Prop) (R : kernel → Prop) :
  fsame k0 k → idle (pstate (procs k q)) = true → (∀ k', fsame k0 k' → Q tt k') → (∀ k', fsame k0 k' → R k') →
  wlp (freeproc q) Q R k.
Proof.
  intros H0 Hi HQ HR. eapply wlp_mono; [apply (wlp_freeproc q k R)|..].
  - intros k' [Ho Hf _] Hs _ _. apply HR. eapply fsame_trans; [exact H0|]. apply (fsame_others q); [done|done|by rewrite Hs].
  - intros [] k' Hk'. apply HQ. eapply fsame_trans; [exact H0|]. by eapply fsame_freed.
  - done.
Qed.

Lemma wlp_wait_scan l p addr hk k0 k :
  fsame k0 k → wlp (wait_scan l p addr hk) (λ _ k', fsame k0 k') (fsame k0) k.
Proof.
  revert hk k. induction l as [|np l IH]; intros hk k H0; cbn [wait_scan]; [by wlp_step|]. unfold getp. do 2 wlp_step.
  destruct (_ =? p); [|by apply IH]. wlp_step. apply wlp_acquire. intros h. set (k1 := set_kheld h k).
  assert (fsame k0 k1) as H1 by (eapply fsame_trans; [exact H0|by apply fsame_tables]). clearbody k1. do 2 wlp_step.
  case_bool_decide as Ez; [|wlp_step; apply wlp_release; intros h2; apply IH; eapply fsame_trans; [exact H1|by apply fsame_tables]].
  do 3 wlp_step.
  assert (∀ r k2, fsame k0 k2 → procs k2 = procs k1 → wlp (if r <? 0 then release (plock np) ;; release (plock p) ;; mret (inr (-1))
    else freeproc np ;; release (plock np) ;; release (plock p) ;; mret (inr (pid (procs k1 np))))
    (λ (_ : bool + Z) k', fsame k0 k') (fsame k0) k2) as Hrest.
  { intros r k2 H2 E2.
    assert (∀ (a : bool + Z) k', fsame k0 k' → wlp (release (plock np) ;; release (plock p) ;; mret a)
      (λ (_ : bool + Z) k', fsame k0 k') (fsame k0) k') as Hrel.
    { intros a k' H'. wlp_step. apply wlp_release. intros h1. wlp_step. apply wlp_release. intros h2. wlp_step.
      eapply fsame_trans; [exact H'|by apply fsame_tables]. }
    destruct (r <? 0); [by apply Hrel|]. wlp_step. eapply wlp_freeproc_fsame; [exact H2| |intros; by apply Hrel|done].
    by rewrite E2, Ez. }
  destruct (nonzero addr); [|apply wlp_ret; by apply Hrest].
  apply wlp_on_mach; [intros r t; apply Hrest; [|done]|intros t]; (eapply fsame_trans; [exact H1|by apply fsame_tables]).
Qed.

Lemma keeping_wait addr : keeping active fsame (wait addr).
Proof.
  unfold wait. apply keeping_bind; [apply keeping_keeps; auto with keeps|]. intros p.
  apply keeping_bind; [apply keeping_keeps; auto with keeps|]. intros _.
  apply keeping_bind; [|intros r; apply keeping_keeps; solve_keeps]. intros k Hk. apply wlp_wait_scan. by apply fsame_tables.
Qed.

(** ** dup, close, open, pipe *)

Lemma argfd_spec n k (Q : option (Z * Z) → kernel → Prop) (R : kernel → Prop) :
  running k → files_ok k →
  (∀ k', frame k k' → running k' → files_ok k' → Q None k') →
  (∀ fd k', frame k k' → running k' → files_ok k' → 0 ≤ fd < NOFILE → file_idx (ofile (procs k' (curproc k')) fd) →
     Q (Some (fd, ofile (procs k' (curproc k')) fd)) k') →
  (∀ k', files_ok k' → R k') → wlp (argfd n) Q R k.
Proof.
  intros Hk Hf HN HS HR. unfold argfd. wlp_step. eapply wlp_files; [auto with keeps|done|exact Hf| |by auto].
  intros fd k1 H1 Hk1 Hf1. unfold myproc, getp. do 4 wlp_step. destruct (_ || _) eqn:E; wlp_step; [by apply HN|].
  apply HS; try done; [lia|]. destruct (fi_range _ _ _ Hf1 (curproc k1, fd)) as [?|?]; [|simpl in *; lia|done].
  apply elem_slots. destruct Hk1. lia.
Qed.

Lemma call_sys_dup : call_ok sys_dup.
Proof.
  intros k Hk Hf. unfold sys_dup. wlp_step. apply argfd_spec; [done|done|by intros; apply (wlp_ret (-1))| |by apply settled]; cbv beta iota.
  intros fd k1 H1 Hk1 Hf1 Hfd Hi. wlp_step. eapply wlp_mono; [by apply (wlp_fdalloc none k1 _ in_flight)| |done]. cbv beta.
  intros fd' k2 [(-> & -> & _)|(Hfd' & Hf2 & _)]; [by apply (wlp_ret (-1))|].
  destruct (Z.ltb_spec fd' 0); [lia|]. wlp_step. eapply wlp_mono; [by eapply (wlp_filedup _ _ _ _ in_flight)| |done].
  cbv beta. intros _ k3 (_ & _ & Hf3 & _). wlp_step. unfold files_ok. files_done.
Qed.

Lemma files_clear_fd k fd :
  running k → files_ok k → 0 ≤ fd < NOFILE →
  files_inv (bump none (ofile (procs k (curproc k)) fd) 1) NULL
    (set_procs (fset (procs k) (curproc k) (set_ofile (fset (ofile (procs k (curproc k))) fd NULL) (procs k (curproc k)))) k).
Proof.
  intros [Hc Ha] Hf Hfd.
  pose proof (files_set_slot none NULL k (curproc k) fd NULL Hf ltac:(by apply elem_slots) ltac:(by left) ltac:(by right; left)) as Hs.
  files_done.
Qed.

Lemma running_updp k f :
  (∀ x, pstate (f x) = pstate x) → running k →
  running (set_procs (fset (procs k) (curproc k) (f (procs k (curproc k)))) k).
Proof. intros Hx [Hc Ha]. split; [done|]. unfold active in *. simpl. by rewrite fset_eq, Hx. Qed.

Lemma call_sys_close : call_ok sys_close.
Proof.
  intros k Hk Hf. unfold sys_close. wlp_step. apply argfd_spec; [done|done|by intros; apply (wlp_ret (-1))| |by apply settled]; cbv beta iota.
  intros fd k1 H1 Hk1 Hf1 Hfd Hi. unfold myproc. do 3 wlp_step. apply wlp_updp.
  pose proof (files_clear_fd k1 fd Hk1 Hf1 Hfd) as Hf2. set (k2 := set_procs _ k1) in *.
  assert (running k2) as Hk2 by (by apply running_updp). clearbody k2. wlp_step.
  eapply wlp_mono; [by eapply (wlp_fileclose _ _ k2)|..]; cbv beta.
  - intros _ k3 (_ & Hf3 & _). wlp_step. unfold files_ok. files_done.
  - intros k3 [_ Hf3]. apply settled. unfold files_ok. files_done.
Qed.

Lemma fd_refs_pos t p fd f : (p, fd) ∈ slots → ofile (t p) fd = f → 1 ≤ fd_refs t f.
Proof.
  intros Hs Ef. set (x := set_ofile (fset (ofile (t p)) fd (f + 1)) (t p)).
  pose proof (fd_refs_set t f p fd (f + 1) x Hs eq_refl) as E. pose proof (fd_refs_nonneg (fset t p x) f).
  unfold is_ref in E. rewrite Ef, Z.eqb_refl in E. destruct (Z.eqb_spec (f + 1) f); lia.
Qed.

(** A file with a reference may get any type. *)
Lemma files_set_type x k f y :
  files_inv x NULL k → fref y = fref (ftable k f) → fref y ≠ 0 → files_inv x NULL (set_ftable (fset (ftable k) f y) k).
Proof.
  intros Hf Hy H0. pose proof (files_set_file x NULL k f y 0 Hf ltac:(lia) ltac:(done)) as Hs.
  eapply files_ext; [|exact Hs]. intros g _. unfold bump. case_match; lia.
Qed.

Lemma call_open_inode ip omode : call_ok (open_inode ip omode).
Proof.
  intros k Hk Hf. unfold open_inode. wlp_step. eapply wlp_files; [auto with keeps|done|exact Hf| |by intros; apply settled].
  intros x k1 H1 Hk1 Hf1. destruct (_ && _); [by apply call_keeps; [auto with keeps|..]|].
  wlp_step. eapply wlp_mono; [by eapply (wlp_filealloc none NULL k1 in_flight)| |done]. cbv beta.
  intros f k2 [H2 Hcase]. pose proof (psame_running _ _ H2 Hk1) as Hk2. wlp_step.
  assert (∀ k', running k' → files_ok k' → wlp (open_fail ip) (λ _ k', files_ok k') in_flight k') as Hfail.
  { intros k' Hk' Hf'. by apply call_keeps; [auto with keeps|..]. }
  destruct Hcase as [[-> Hf2]|(Hi & _ & Hf2 & Ht)].
  { rewrite Z.eqb_refl. wlp_step. simpl. wlp_step. wlp_step. by apply Hfail. }
  destruct (Z.eqb_spec f NULL) as [E|_]; [unfold file_idx, NULL in *; lia|].
  eapply wlp_mono; [by eapply (wlp_fdalloc _ k2 f in_flight)| |done]. cbv beta.
  intros fd k3 [(-> & -> & _)|(Hfd & Hf3 & Hk3 & Hc3 & _ & Ho3 & _)].
  { cbn [Z.ltb negb]. simpl. wlp_step. eapply wlp_mono; [by eapply (wlp_fileclose _ _ k2)|..]; cbv beta.
    - intros _ k4 (H4 & Hf4 & _). apply Hfail; [by eapply psame_running|]. unfold files_ok. files_done.
    - intros k4 [_ Hf4]. apply settled. unfold files_ok. files_done. }
  destruct (Z.ltb_spec fd 0); [lia|]. assert (files_ok k3) as Hf3' by (unfold files_ok; files_done).
  assert (fref (ftable k3 f) ≠ 0) as Hr.
  { rewrite (fi_refs _ _ _ Hf3' f Hi). unfold none.
    pose proof (fd_refs_pos (procs k3) (curproc k2) fd f) as Hp. rewrite Ho3, fset_eq in Hp.
    destruct Hk2. specialize (Hp ltac:(by apply elem_slots) eq_refl). lia. }
  wlp_step. assert (∀ y, ∃ z, (if y : bool then updf f (λ y, set_fmajor (major (din x)) (set_ftype FD_DEVICE y))
    else updf f (λ y, set_foff 0 (set_ftype FD_INODE y))) = updf f z ∧ ∀ y, fref (z y) = fref y) as Hz.
  { intros []; eexists; (split; [reflexivity|done]). }
  destruct (Hz (itype (din x) =? T_DEVICE)) as (z & -> & Hzr). clear Hz. unfold updf at 1. wlp_step.
  set (k4 := set_ftable _ k3). assert (files_ok k4) as Hf4 by (apply files_set_type; [done|apply Hzr|by rewrite Hzr]).
  assert (running k4) as Hk4 by exact Hk3. clearbody k4.
  eapply wlp_files; [solve_keeps|exact Hk4|exact Hf4|..]; [by intros|by intros; apply settled].
Qed.

Lemma call_bind_keeps {A B} (m : M kernel A) (f : A → M kernel B) : keeps m → (∀ a, call_ok (f a)) → call_ok (m ≫= f).
Proof.
  intros Hm Hf k Hk Hok. wlp_step. eapply wlp_files; [done|done|exact Hok|..]; [|by intros; apply settled].
  intros a k' _ Hk' Hf'. by apply Hf.
Qed.

Lemma call_sys_open : call_ok sys_open.
Proof.
  pose proof call_open_inode as Ho. unfold sys_open.
  repeat (first [apply Ho|apply call_keeps; solve [solve_keeps]|apply call_bind_keeps; [auto with keeps|intros ?]
    |match goal with |- call_ok (if ?b then _ else _) => destruct b | |- call_ok (match ?x with _ => _ end) => destruct x end]).
Qed.
(** ** pipe *)

Lemma wlp_on_kalloc (Q : Z → kernel → Prop) (R : kernel → Prop) k : (∀ a t, Q a (set_kmach t k)) → wlp (on_mach kalloc) Q R k.
Proof.
  intros HQ. unfold wlp, on_mach, zoom, kalloc, mbind, M_bind, gets, do_mem, modify, read64, mret, M_ret. simpl.
  destruct (nonzero (freelist (kmach k))); apply HQ.
Qed.

Lemma wlp_pipealloc k :
  running k → files_ok k →
  wlp pipealloc (λ r k', psame k k' ∧
    match r with
    | None => files_ok k'
    | Some (rf, wf) => file_idx rf ∧ file_idx wf ∧ rf ≠ wf ∧ files_inv (bump (bump none rf 1) wf 1) NULL k'
    end) in_flight k.
Proof.
  intros Hk Hf. unfold pipealloc. wlp_step. eapply wlp_mono; [by eapply (wlp_filealloc none NULL k in_flight)| |done]. cbv beta.
  intros f0 k1 [H1 [[-> Hf1]|(Hi0 & _ & Hf1 & _)]]; [by apply (wlp_ret None)|].
  destruct (Z.eqb_spec f0 NULL) as [E|_]; [unfold file_idx, NULL in *; lia|]. wlp_step.
  assert (∀ f, file_idx f → 0 ≤ bump none f0 1 f) as Hx1 by (intros f _; unfold bump, none; case_match; lia).
  pose proof (psame_running _ _ H1 Hk) as Hk1.
  eapply wlp_mono; [by eapply (wlp_filealloc _ NULL k1 in_flight)| |done]. cbv beta.
  intros f1 k2 [H2 [[-> Hf2]|(Hi1 & Hx & Hf2 & _)]]; pose proof (psame_running _ _ H2 Hk1) as Hk2.
  { rewrite Z.eqb_refl. wlp_step. eapply wlp_mono; [by eapply (wlp_fileclose _ _ k2)|..]; cbv beta.
    - intros _ k3 (H3 & Hf3 & _). wlp_step. split; [by eapply psame_trans, psame_trans|]. unfold files_ok. files_done.
    - intros k3 [_ Hf3]. apply settled. unfold files_ok. files_done. }
  destruct (Z.eqb_spec f1 NULL) as [E|_]; [unfold file_idx, NULL in *; lia|].
  assert (f0 ≠ f1) as Hne. { intros ->. unfold bump, none in Hx. rewrite Z.eqb_refl in Hx. lia. }
  wlp_step. apply wlp_on_kalloc. intros pi t. set (k3 := set_kmach t k2).
  assert (frame k2 k3) as H23 by (by apply frame_tables).
  pose proof (frame_running _ _ H23 Hk2) as Hk3. pose proof (files_frame _ _ _ _ H23 Hf2) as Hf3.
  assert (psame k k3) as H3 by (eapply psame_trans; [exact H1|]; by eapply psame_trans, frame_psame). clearbody k3.
  destruct (Z.eqb_spec pi 0) as [_|_].
  { wlp_step. eapply wlp_mono; [by eapply (wlp_fileclose _ _ k3)|..]; cbv beta.
    - intros _ k4 (H4 & Hf4 & _). pose proof (psame_running _ _ H4 Hk3) as Hk4. wlp_step.
      eapply wlp_mono; [by eapply (wlp_fileclose _ _ k4)|..]; cbv beta.
      + intros _ k5 (H5 & Hf5 & _). wlp_step. split; [by eapply psame_trans, psame_trans|]. unfold files_ok. files_done.
      + intros k5 [_ Hf5]. apply settled. unfold files_ok. files_done.
    - intros k4 [_ Hf4]. exists f1, 1. split; [lia|]. files_done. }
  wlp_step. unfold upd_pipe. wlp_step. set (k4 := set_pipes _ k3).
  assert (frame k3 k4) as H34 by (by apply frame_tables). pose proof (files_frame _ _ _ _ H34 Hf3) as Hf4.
  assert (psame k k4) as H4 by (by eapply psame_trans, frame_psame). clearbody k4.
  assert (∀ f, file_idx f → f = f0 ∨ f = f1 → fref (ftable k4 f) ≠ 0) as Hr.
  { intros f Hi Ef. rewrite (fi_refs _ _ _ Hf4 f Hi). pose proof (fd_refs_nonneg (procs k4) f).
    unfold bump, none. repeat case_match; lia. }
  unfold updf. do 2 wlp_step. set (k5 := set_ftable _ k4). cbn [ftable set_ftable] in *.
  assert (files_inv (bump (bump none f0 1) f1 1) NULL k5) as Hf5 by (apply files_set_type; [done|done|by apply Hr; [|left]]).
  assert (fref (ftable k5 f1) = fref (ftable k4 f1)) as E1 by (unfold k5; simpl; by rewrite fset_ne).
  assert (psame k k5) as H5 by (by eapply psame_trans, psame_ftable). clearbody k5. do 2 wlp_step. wlp_step.
  split; [by eapply psame_trans, psame_ftable|]. split_and!; try done.
  apply files_set_type; [done|done|]. change (fref (ftable k5 f1) ≠ 0). rewrite E1. by apply Hr; [|right].
Qed.
(** Both ends are closed again: the second one is in flight meanwhile. *)
Lemma wlp_close_both k rf wf :
  running k → files_inv (bump (bump none rf 1) wf 1) NULL k →
  wlp (fileclose rf ;; fileclose wf ;; mret (-1)) (λ _ k', files_ok k') in_flight k.
Proof.
  intros Hk Hf. wlp_step. eapply wlp_mono; [by eapply (wlp_fileclose _ _ k)|..]; cbv beta.
  - intros _ k1 (H1 & Hf1 & _). pose proof (psame_running _ _ H1 Hk) as Hk1. wlp_step.
    eapply wlp_mono; [by eapply (wlp_fileclose _ _ k1)|..]; cbv beta.
    + intros _ k2 (_ & Hf2 & _). wlp_step. unfold files_ok. files_done.
    + intros k2 [_ Hf2]. apply settled. unfold files_ok. files_done.
  - intros k1 [_ Hf1]. exists wf, 1. split; [lia|]. files_done.
Qed.

(** A descriptor is taken back. *)
Lemma wlp_clear_fd {A} x k fd f (m : M kernel A) (Q : A → kernel → Prop) (R : kernel → Prop) :
  running k → files_inv x NULL k → 0 ≤ fd < NOFILE → ofile (procs k (curproc k)) fd = f →
  (∀ k', running k' → curproc k' = curproc k → files_inv (bump x f 1) NULL k' →
     ofile (procs k' (curproc k')) = fset (ofile (procs k (curproc k))) fd NULL → wlp m Q R k') →
  wlp (clear_fd (curproc k) fd ;; m) Q R k.
Proof.
  intros Hk Hf Hfd Ef HQ. wlp_step. apply wlp_updp. apply HQ.
  - by apply running_updp.
  - done.
  - destruct Hk as [Hc Ha].
    pose proof (files_set_slot x NULL k (curproc k) fd NULL Hf ltac:(by apply elem_slots) ltac:(by left) ltac:(by right; left)) as Hs.
    rewrite Ef in Hs. files_done.
  - simpl. by rewrite fset_eq.
Qed.

Lemma call_sys_pipe : call_ok sys_pipe.
Proof.
  intros k Hk Hf. unfold sys_pipe, myproc. do 3 wlp_step.
  eapply wlp_files; [auto with keeps|exact Hk|exact Hf| |by intros; apply settled].
  intros fdarray k1 H1 Hk1 Hf1. wlp_step. eapply wlp_mono; [by apply wlp_pipealloc| |done]. cbv beta.
  intros [[rf wf]|] k2 [H2 Hr]; [|by wlp_step]. destruct Hr as (Hi0 & Hi1 & Hne & Hf2).
  pose proof (psame_running _ _ H2 Hk1) as Hk2.
  assert (curproc k = curproc k2) as ->. { rewrite (proj1 H2). by rewrite (fr_cur _ _ H1). }
  wlp_step. eapply wlp_mono; [by eapply (wlp_fdalloc _ k2 rf in_flight)| |done]. cbv beta.
  intros fd0 k3 [(-> & -> & _)|(Hfd0 & Hf3 & Hk3 & Hc3 & _ & Ho3 & _)].
  { simpl. do 2 wlp_step. simpl. do 2 wlp_step. by apply wlp_close_both. }
  destruct (Z.ltb_spec fd0 0) as [|_]; [lia|]. rewrite <-Hc3 in Ho3 |- *. wlp_step.
  assert (ofile (procs k3 (curproc k3)) fd0 = rf) as E0 by (by rewrite Ho3, fset_eq). clear Ho3.
  eapply wlp_mono; [by eapply (wlp_fdalloc _ k3 wf in_flight)| |done]. cbv beta.
  intros fd1 k4 [(-> & -> & _)|(Hfd1 & Hf4 & Hk4 & Hc4 & Hn4 & Ho4 & _)].
  { cbn [Z.ltb]. simpl. destruct (Z.geb_spec fd0 0) as [_|]; [|lia].
    eapply (wlp_clear_fd _ k3 fd0 rf); [done|done|done|done|].
    intros k4 Hk4 _ Hf4 _. apply wlp_close_both; [done|]. files_done. }
  destruct (Z.ltb_spec fd1 0) as [|_]; [lia|]. rewrite <-Hc4 in Ho4 |- *.
  assert (fd1 ≠ fd0) as Hd. { intros ->. rewrite E0 in Hn4. unfold file_idx, NULL in *. lia. }
  assert (ofile (procs k4 (curproc k4)) fd0 = rf ∧ ofile (procs k4 (curproc k4)) fd1 = wf) as [E0' E1'].
  { rewrite Ho4, fset_eq, fset_ne by done. rewrite <-Hc4 in E0. by rewrite Hc4 in E0 |- *. }
  assert (files_ok k4) as Hf4' by (unfold files_ok; files_done). unfold getp. do 2 wlp_step. wlp_step.
  eapply wlp_files; [auto with keeps|exact Hk4|exact Hf4'| |by intros; apply settled]. intros r k5 H5 Hk5 Hf5.
  wlp_step. eapply wlp_files; [solve_keeps|exact Hk5|exact Hf5| |by intros; apply settled]. intros r' k6 H6 Hk6 Hf6.
  assert (frame k4 k6) as H46 by (by etrans). destruct (r' <? 0); [|by wlp_step].
  rewrite <-(fr_cur _ _ H46). rewrite <-(sc_ofile _ _ (fr_procs _ _ H46 (curproc k4))), <-(fr_cur _ _ H46) in E0', E1'.
  eapply (wlp_clear_fd _ k6 fd0 rf); [done|done|done|done|]. intros k7 Hk7 Hc7 Hf7 Ho7. rewrite <-Hc7.
  eapply (wlp_clear_fd _ k7 fd1 wf); [done|exact Hf7|done|rewrite Ho7; by rewrite fset_ne|].
  intros k8 Hk8 _ Hf8 _. by apply wlp_close_both.
Qed.

(** ** exit *)

(** The running process has closed its files. *)
Definition all_closed (p : Z) (k : kernel) : Prop :=
  running k ∧ files_ok k ∧ curproc k = p ∧ ∀ fd, fd ∈ fd_indices → ofile (procs k p) fd = NULL.

(** [exit] sleeps as a live process, or has ended with all references settled. *)
Definition exit_sleep (k : kernel) : Prop := in_flight k ∧ (active k ∨ files_ok k).

Lemma wlp_all_closed {A} (m : M kernel A) (Q : A → kernel → Prop) p k :
  keeping active fsame m → all_closed p k → (∀ a k', all_closed p k' → Q a k') → wlp m Q exit_sleep k.
Proof.
  intros Hm (Hk & Hf & Hc & Ho) HQ. eapply (wlp_keeping m Q exit_sleep k Hm); [by destruct Hk|..].
  - intros a k' H' Ha'. apply HQ. split; [split; [|done]; rewrite (fs_cur _ _ H'); by destruct Hk|].
    split; [by eapply files_fsame|]. split; [by rewrite (fs_cur _ _ H')|]. intros fd Hfd. rewrite (fs_ofile _ _ H'). by apply Ho.
  - intros k' H'. split; [apply settled; by eapply files_fsame|]. left. destruct Hk. by eapply fsame_active.
Qed.

Lemma wlp_close_all p k :
  running k → files_ok k → curproc k = p →
  wlp (for_each fd_indices (λ fd,
      x ← getp p;
      if negb (ofile x fd =? NULL) then
        fileclose (ofile x fd) ;;
        updp p (λ x, set_ofile (fset (ofile x) fd NULL) x)
      else mret tt)) (λ _ k', all_closed p k') exit_sleep k.
Proof.
  intros Hk Hf Hc.
  eapply (wlp_for_each _ _ (λ rest k', running k' ∧ files_ok k' ∧ curproc k' = p ∧
    (∀ fd, fd ∈ rest → fd ∈ fd_indices) ∧ ∀ fd, fd ∈ fd_indices → fd ∉ rest → ofile (procs k' p) fd = NULL)).
  - split_and!; done.
  - intros fd rest k1 (Hk1 & Hf1 & Hc1 & Hsub & Ho1). unfold getp. do 2 wlp_step.
    assert (0 ≤ fd < NOFILE) as Hfd by (apply elem_fd_indices, Hsub; by left).
    assert (∀ k2, curproc k2 = p → ofile (procs k2 p) = ofile (procs k1 p) → running k2 →
      files_inv (bump none (ofile (procs k1 p) fd) (-1)) NULL k2 →
      wlp (updp p (λ x, set_ofile (fset (ofile x) fd NULL) x)) (λ _ s, running s ∧ files_ok s ∧ curproc s = p ∧
        (∀ fd, fd ∈ rest → fd ∈ fd_indices) ∧ ∀ fd, fd ∈ fd_indices → fd ∉ rest → ofile (procs s p) fd = NULL) exit_sleep k2) as Hclr.
    { intros k2 <- Ho2 Hk2 Hf2. apply wlp_updp. split; [by apply running_updp|]. split.
      { destruct Hk2 as [Hr2 _].
        pose proof (files_set_slot _ NULL k2 (curproc k2) fd NULL Hf2 ltac:(by apply elem_slots) ltac:(by left) ltac:(by right; left)) as Hs.
        rewrite Ho2 in Hs. unfold files_ok. rewrite <-Ho2 in Hs. rewrite <-Ho2 in Hf2. files_done. }
      split; [done|]. split; [intros d Hd; apply Hsub; by right|]. intros d Hd Hnr. simpl. rewrite fset_eq. simpl. unfold fset.
      destruct (Z.eqb_spec d fd) as [->|]; [done|]. rewrite Ho2. apply Ho1; [done|]. rewrite not_elem_of_cons. done. }
    destruct (Z.eqb_spec (ofile (procs k1 p) fd) NULL) as [E|E]; cbn [negb].
    + wlp_step. split_and!; try done; [intros d Hd; apply Hsub; by right|]. intros d Hd Hnr.
      destruct (decide (d = fd)) as [->|]; [done|]. apply Ho1; [done|]. by rewrite not_elem_of_cons.
    + wlp_step. eapply wlp_mono; [by eapply (wlp_fileclose _ _ k1)|..]; cbv beta.
      * intros _ k2 (H2 & Hf2 & _). apply Hclr; [by rewrite (proj1 H2)|by apply psame_ofile|by eapply psame_running|done].
      * intros k2 [H2 Hf2]. split; [eexists _, (-1); split; [lia|exact Hf2]|]. left. by apply (psame_running _ _ H2).
  - intros k' (Hk' & Hf' & Hc' & _ & Ho'). split_and!; try done. intros fd Hfd. apply Ho'; [done|]. apply not_elem_of_nil.
Qed.
Lemma keeping_reparent p : keeping active fsame (reparent p).
Proof.
  unfold reparent. apply keeping_for_each. intros pp. apply keeping_bind; [apply keeping_keeps; auto with keeps|]. intros x.
  destruct (_ =? p); [|apply keeping_ret]. apply keeping_bind; [apply keeping_keeps; auto with keeps|]. intros _.
  apply keeping_bind; [apply keeping_keeps; auto with keeps|]. intros init.
  apply keeping_bind; [|intros _; apply keeping_keeps; auto with keeps]. apply keeping_modify. intros k _.
  split; try done; intros q; simpl; unfold fset; by destruct (Z.eqb_spec q pp) as [->|].
Qed.

(** The last steps: the process is a zombie. *)
Lemma wlp_zombie {A} p op k :
  all_closed p k →
  wlp (updp p (set_pstate ZOMBIE) ;; release (plock op) ;; sched) (λ (_ : A) _, False) exit_sleep k.
Proof.
  intros (Hk & Hf & Hc & Ho). wlp_step. apply wlp_updp. set (k1 := set_procs _ k).
  assert (files_ok k1) as Hf1.
  { destruct Hf as [Hrg Hrf Hn Hid]. unfold k1. split; simpl.
    - intros s Hs. unfold fset. destruct (Z.eqb_spec s.1 p) as [<-|]; by apply Hrg.
    - intros f Hi. rewrite Hrf by done. f_equal. apply fd_refs_ext. intros s _. unfold fset.
      by destruct (Z.eqb_spec s.1 p) as [->|].
    - done.
    - intros [q d] Hs Hne Hi. cbn [fst snd] in *. unfold fset in *. destruct (Z.eqb_spec q p) as [->|].
      + simpl. apply Ho, elem_fd_indices. apply elem_slots in Hs; apply Hs.
      + by apply (Hid (q, d)). }
  clearbody k1. wlp_step. apply wlp_release. intros h. unfold sched, myproc, holding, getp.
  assert (files_ok (set_kheld h k1)) as Hf2 by (eapply files_frame; [|exact Hf1]; by apply frame_tables).
  set (k2 := set_kheld h k1) in *. clearbody k2. do 8 wlp_step.
  repeat (match goal with |- wlp (if ?b then _ else _) _ _ _ => destruct b; [done|] end).
  split; [by apply settled|by right].
Qed.

Lemma wlp_exit {A} status k :
  running k → files_ok k → wlp (exit status) (λ (_ : A) _, False) exit_sleep k.
Proof.
  intros Hk Hf. unfold exit, myproc. do 4 wlp_step. destruct (_ =? _); [done|]. wlp_step.
  eapply wlp_mono; [by apply wlp_close_all| |done]. intros [] k1 H1. set (p := curproc k) in *. generalize (initproc k). intros init.
  pose proof (keeping_reparent p) as Hre.
  repeat match goal with
  | |- wlp (updp p (set_pstate ZOMBIE) ≫= _) _ _ _ => by apply wlp_zombie
  | |- wlp (_ ≫= _) _ _ _ => wlp_step; eapply wlp_all_closed;
      [first [exact Hre | apply keeping_keeps; solve [solve_keeps]]|eassumption|]; clear H1 k1; intros ? k1 H1; cbv zeta
  end.
Qed.

(** ** fork *)

(** The state in which [fork] duplicates descriptors for the process [np], with
    those of [rest] to go. *)
Record forking (p np : Z) (rest : list Z) (k : kernel) : Prop := {
  fk_run : running k;
  fk_files : files_inv none np k;
  fk_cur : curproc k = p;
  fk_ne : np ≠ p ∧ 0 ≤ np < NPROC;
  fk_sub : ∀ fd, fd ∈ rest → fd ∈ fd_indices;
  fk_free : ∀ fd, fd ∈ rest → ofile (procs k np) fd = NULL
}.

Lemma forking_frame p np rest k k' : frame k k' → forking p np rest k → forking p np rest k'.
Proof.
  intros Hfr [Hr Hf Hc Hne Hs Ho]. split; try done; [by eapply frame_running|by eapply files_frame|by rewrite (fr_cur _ _ Hfr)|].
  intros fd Hfd. rewrite (sc_ofile _ _ (fr_procs _ _ Hfr np)). by apply Ho.
Qed.

(** One descriptor of the child. *)
Lemma forking_dup p np fd rest k :
  NoDup (fd :: rest) → forking p np (fd :: rest) k →
  wlp (x ← getp p; if negb (ofile x fd =? NULL) then f ← filedup (ofile x fd); updp np (λ y, set_ofile (fset (ofile y) fd f) y)
       else mret tt) (λ _ k', forking p np rest k') in_flight k.
Proof.
  intros [Hnr _]%NoDup_cons Hk. pose proof Hk as [Hr Hf Hc Hne Hs Ho]. unfold getp. do 2 wlp_step.
  assert (0 ≤ fd < NOFILE) as Hfd by (apply elem_fd_indices, Hs; by left).
  assert ((p, fd) ∈ slots) as Hsl by (destruct Hr; subst; by apply elem_slots).
  destruct (Z.eqb_spec (ofile (procs k p) fd) NULL) as [E|E]; cbn [negb].
  { wlp_step. split; try done; intros d Hd; [apply Hs|apply Ho]; by right. }
  assert (file_idx (ofile (procs k p) fd)) as Hi by (by destruct (fi_range _ _ _ Hf _ Hsl)).
  wlp_step. eapply wlp_mono; [by eapply (wlp_filedup _ _ _ _ in_flight)| |done]. cbv beta. intros f k1 (-> & H1 & Hf1 & _).
  apply wlp_updp. set (f := ofile (procs k p) fd) in *.
  assert (ofile (procs k1 np) fd = NULL) as E1 by (rewrite (psame_ofile _ _ _ H1); apply Ho; by left).
  assert ((np, fd) ∈ slots) as Hsl' by (apply elem_slots; split; [apply Hne|done]).
  pose proof (files_set_slot _ np k1 np fd f Hf1 Hsl' ltac:(by right) ltac:(by left)) as Hf2. rewrite E1 in Hf2.
  pose proof (psame_running _ _ H1 Hr) as [Hc1 Ha1]. pose proof (proj1 H1) as Hcur.
  split; cbn [curproc set_procs].
  - split; [done|]. unfold active in *. simpl. rewrite fset_ne; [done|]. rewrite Hcur, Hc. naive_solver.
  - files_done.
  - congruence.
  - done.
  - intros d Hd. apply Hs. by right.
  - intros d Hd. simpl. rewrite fset_eq. simpl. rewrite fset_ne by (intros ->; done).
    rewrite (psame_ofile _ _ _ H1). apply Ho. by right.
Qed.

Lemma forking_dups p np l k :
  NoDup l → forking p np l k →
  wlp (for_each l (λ i, x ← getp p; if negb (ofile x i =? NULL) then f ← filedup (ofile x i); updp np (λ y, set_ofile (fset (ofile y) i f) y)
       else mret tt)) (λ _ k', forking p np [] k') in_flight k.
Proof.
  revert k. induction l as [|fd l IH]; intros k Hnd Hk; cbn [for_each]; [by wlp_step|].
  wlp_step. eapply wlp_mono; [by apply forking_dup| |done]. intros [] k1 H1. apply IH; [|done]. by apply NoDup_cons in Hnd as [_ ?].
Qed.

(** The child becomes runnable with its descriptors. *)
Lemma forking_done p np k : forking p np [] k → files_ok (set_procs (fset (procs k) np (set_pstate RUNNABLE (procs k np))) k).
Proof.
  intros [Hr [Hrg Hrf Hn Hid] Hc Hne _ _]. split; simpl.
  - intros s Hs. unfold fset. destruct (Z.eqb_spec s.1 np) as [<-|]; by apply Hrg.
  - intros f Hi. rewrite Hrf by done. f_equal. apply fd_refs_ext. intros s _. unfold fset. by destruct (Z.eqb_spec s.1 np) as [->|].
  - done.
  - intros [q d] Hs _ Hi. cbn [fst snd] in *. unfold fset in *. destruct (Z.eqb_spec q np) as [->|]; [done|]. by apply (Hid (q, d)).
Qed.

Lemma forking_start p np k k' :
  running k → files_ok k → curproc k = p → np ≠ p → 0 ≤ np < NPROC → pstate (procs k np) = UNUSED → fsame k k' →
  forking p np fd_indices k'.
Proof.
  intros [Hc Ha] Hf Hp Hne Hi Hu Hs. split; try done.
  - split; [by rewrite (fs_cur _ _ Hs)|by eapply fsame_active].
  - pose proof (files_fsame _ _ _ _ Hs Hf) as [Hrg Hrf Hn Hid]. split; try done. intros [q d] Hq _ Hz. apply Hid; [done| |done].
    apply elem_slots in Hq. unfold NULL. simpl. lia.
  - by rewrite (fs_cur _ _ Hs).
  - intros fd Hfd. rewrite (fs_ofile _ _ Hs). apply (fi_idle _ _ _ Hf (np, fd)).
    + apply elem_slots. split; [done|]. by apply elem_fd_indices.
    + unfold NULL. simpl. lia.
    + simpl. by rewrite Hu.
Qed.

(** What [fork] does once the memory is copied. *)
Lemma fork_child p np x y k k1 :
  running k → files_ok k → curproc k = p → np ≠ p → 0 ≤ np < NPROC → pstate (procs k np) = UNUSED → fsame k k1 →
  wlp (on_mach (do_mem (λ m, memmove m (trapframe y) (trapframe x) TF_SIZE)) ;;
      tf_set np tf_a0 0 ;;
      for_each fd_indices (λ i,
        x ← getp p;
        if negb (ofile x i =? NULL) then
          f ← filedup (ofile x i);
          updp np (λ y, set_ofile (fset (ofile y) i f) y)
        else mret tt) ;;
      ip ← on_fs (idup (pcwd x));
      updp np (set_pcwd ip) ;;
      updp np (set_pname (copy_name (pname x))) ;;
      y ← getp np;
      let pid := pid y in
      updp np (set_pstate RUNNABLE) ;;
      release (plock np) ;;
      mret pid) (λ _ k', files_ok k') in_flight k1.
Proof.
  intros Hk Hf Hp Hne Hi Hu H1. wlp_step. apply wlp_on_mach.
  2: { intros t. apply settled. eapply files_fsame; [|exact Hf]. eapply fsame_trans; [exact H1|by apply fsame_tables]. }
  intros _ t. unfold tf_set, getp. do 3 wlp_step. apply wlp_on_mach.
  2: { intros t'. apply settled. eapply files_fsame; [|exact Hf]. eapply fsame_trans; [exact H1|by apply fsame_tables]. }
  intros _ t'. wlp_step. eapply wlp_mono; [apply forking_dups; [apply NoDup_fd_indices|]| |done].
  { eapply (forking_start p np k); try done. eapply fsame_trans; [exact H1|by apply fsame_tables]. }
  cbv beta. intros [] k2 H2. wlp_step. apply wlp_on_idup. intros ip d m i. set (k3 := set_kdisk _ _).
  assert (frame k2 k3) as H3 by (by apply frame_tables). clearbody k3. wlp_step. apply wlp_updp. wlp_step. apply wlp_updp.
  set (k4 := set_procs _ _). assert (forking p np [] k4) as H4.
  { eapply forking_frame; [|exact H2]. eapply frame_trans; [exact H3|]. unfold k4.
    eapply frame_trans; [apply (frame_updp k3 np)|apply frame_updp]; (by split) || by right. }
  clearbody k4. do 3 wlp_step. apply wlp_updp. wlp_step. apply wlp_release_frame. intros k5 H5. wlp_step.
  eapply files_frame; [exact H5|]. by eapply forking_done.
Qed.

Lemma call_fork : call_ok fork.
Proof.
  intros k Hk Hf. unfold fork, myproc. do 2 wlp_step. wlp_step. set (p := curproc k).
  eapply wlp_mono; [apply wlp_allocproc|..]; [|cbv beta; intros np k1 H1|intros ? R; exact R].
  { intros k' H'. apply settled. eapply files_fsame; [by apply fsame_alloc_failed|done]. }
  destruct H1 as [[-> H1]|[Hnn [Hal Hpar Hpid _ _]]].
  { apply (wlp_ret (-1)). eapply files_fsame; [by apply fsame_alloc_failed|done]. }
  destruct (Z.eqb_spec np NULL) as [E|_]; [done|]. destruct Hal as [Ho Hi [Hu Hu1] Hof _].
  assert (fsame k k1) as H1 by (apply (fsame_others np); [done|done|by rewrite Hu, Hu1]).
  assert (np ≠ p) as Hnp. { intros ->. destruct Hk as [_ Ha]. unfold active in Ha. fold p in Ha. by rewrite Hu in Ha. }
  unfold getp. do 4 wlp_step. wlp_step. apply wlp_on_mach.
  2: { intros t. apply settled. eapply files_fsame; [|exact Hf]. eapply fsame_trans; [exact H1|]. by apply fsame_tables. }
  intros r t. set (k2 := set_kmach t k1). assert (fsame k k2) as H2 by (eapply fsame_trans; [exact H1|by apply fsame_tables]).
  assert (pstate (procs k2 np) = UNUSED) as Hu2 by done. clearbody k2. destruct (r <? 0).
  { wlp_step. eapply wlp_freeproc_fsame; [exact H2|by rewrite Hu2|..].
    - intros k3 H3. wlp_step. apply wlp_release_frame. intros k4 H4. wlp_step. eapply files_frame; [done|]. by eapply files_fsame.
    - intros k3 H3. apply settled. by eapply files_fsame. }
  wlp_step. apply wlp_updp. wlp_step. apply wlp_updp. set (k3 := set_procs _ _).
  eapply fork_child; [exact Hk|exact Hf|reflexivity|exact Hnp|exact Hi|exact Hu|]. eapply fsame_trans; [exact H2|]. unfold k3.
  split; try done; intros q; simpl; unfold fset; destruct (Z.eqb_spec q np) as [->|]; by rewrite ?Z.eqb_refl.
Qed.

(** ** The system call table *)

Lemma call_bind_ret {A B} (m : M kernel A) (f : A → M kernel B) : call_ok m → (∀ a, keeping files_ok fsame (f a)) → call_ok (m ≫= f).
Proof.
  intros Hm Hf k Hk Hok. wlp_step. eapply wlp_mono; [by apply Hm| |done]. intros a k1 Hk1.
  eapply wlp_mono; [by apply Hf|..]; [intros ? k2 H2|intros k2 H2; apply settled]; (eapply files_fsame; [exact H2|exact Hk1]).
Qed.

Lemma call_sys_exit : call_ok sys_exit.
Proof.
  unfold sys_exit. apply call_bind_keeps; [auto with keeps|]. intros n k Hk Hf.
  eapply wlp_mono; [by apply wlp_exit|done|]. by intros k' [? _].
Qed.

Lemma call_table num f : syscalls num = Some f → call_ok f.
Proof.
  unfold syscalls. intros Hf. repeat case_match; simplify_eq;
    first [apply call_keeps; solve [auto with keeps nocore] | apply call_fork | apply call_sys_exit | apply call_sys_pipe
          | apply call_sys_dup | apply call_sys_open | apply call_sys_close | idtac].
  unfold sys_wait. apply call_bind_keeps; [auto with keeps|]. intros a. apply call_fsame, keeping_wait.
Qed.

Lemma keeping_tf_set p off v : keeping files_ok fsame (tf_set p off v).
Proof.
  intros k Hk. unfold tf_set, getp. do 2 wlp_step. apply wlp_on_mach; intros; by apply fsame_tables.
Qed.

Lemma call_syscall : call_ok syscall.
Proof.
  unfold syscall. do 2 (apply call_bind_keeps; [unfold tf_get; solve_keeps|intros ?]). cbv zeta.
  destruct (syscalls _) as [f|] eqn:E.
  - apply call_bind_ret; [by eapply call_table|]. intros r. apply keeping_tf_set.
  - apply call_keeps. unfold kernel_printf, tf_set. solve_keeps.
Qed.

(** C4: Reference counts of the file table.  The invariant: the [ref] of every
    open-file structure is the number of descriptors, over all processes, that
    point to it; an entry without references is free; unused and zombie processes
    have no descriptors.  Whatever system call the trap frame asks for, and
    whatever its arguments, if [syscall] returns the invariant holds again, and
    if the calling thread leaves the processor on the way at most one reference is
    counted differently (the one the call is creating or dropping).  [exit]
    never returns, and its last switch, as a zombie, leaves every count exact. *)
Theorem syscalls_keep_file_refs k :
  0 ≤ curproc k < NPROC → active k → files_inv none NULL k →
  match syscall k with
  | Ret _ k' => files_inv none NULL k'
  | Sleep _ k' => ∃ f d, -1 ≤ d ≤ 1 ∧ files_inv (bump none f d) NULL k'
  | _ => True
  end ∧
  ∀ status, match exit (A := Z) status k with
  | Ret _ _ => False
  | Sleep _ k' => pstate (procs k' (curproc k')) = ZOMBIE → files_inv none NULL k'
  | _ => True
  end.
Proof.
  intros Hc Ha Hf. split; [by apply call_syscall|]. intros status.
  pose proof (wlp_exit (A := Z) status k ltac:(done) Hf) as He. unfold wlp in He. case_match; try done.
  destruct He as [_ [He|He]]; [|done]. intros Hz. unfold active in He. by rewrite Hz in He.
Qed.

End files.

Lemma syscalls_keep_file_refs_witness :
  match syscall ex_kernel with
  | Ret _ k' => files_inv none NULL k' ∧ fref (ftable k' 0) = 7 ∧ ofile (procs k' 1) 3 = 0
  | _ => False
  end.
Proof.
  assert (files_inv none NULL ex_kernel) as Hf.
  { assert (Forall (λ s, ofile (procs ex_kernel s.1) s.2 = NULL ∨ 0 ≤ ofile (procs ex_kernel s.1) s.2 < NFILE) slots) as H1
      by (apply (bool_decide_unpack _); vm_compute; exact I).
    assert (Forall (λ f, fref (ftable ex_kernel f) = fd_refs (procs ex_kernel) f + 0 ∧
                         (fref (ftable ex_kernel f) = 0 → f ≠ 0)) (seqZ 0 NFILE)) as H2
      by (apply (bool_decide_unpack _); vm_compute; exact I).
    assert (Forall (λ s, s.1 = 0 ∨ s.1 = 1 ∨ ofile (procs ex_kernel s.1) s.2 = NULL) slots) as H3
      by (apply (bool_decide_unpack _); vm_compute; exact I).
    rewrite Forall_forall in H1. rewrite Forall_forall in H2. rewrite Forall_forall in H3. split; [done|..].
    - intros f Hi. apply H2, elem_of_seqZ. unfold file_idx in Hi. lia.
    - intros f Hi Hz. destruct (H2 f) as [_ Hne]; [apply elem_of_seqZ; unfold file_idx in Hi; lia|].
      specialize (Hne Hz). simpl. by destruct (Z.eqb_spec f 0).
    - intros s Hs _ Hi. destruct (H3 s Hs) as [E|[E|E]]; [rewrite E in Hi; done|rewrite E in Hi; done|done]. }
  destruct (syscalls_keep_file_refs ex_kernel) as [H _]; [by vm_compute|done|exact Hf|].
  destruct (syscall ex_kernel) as [a k'| | | |] eqn:E; try (by vm_compute in E).
  split; [exact H|].
  assert (match syscall ex_kernel with Ret _ k' => (fref (ftable k' 0), ofile (procs k' 1) 3) | _ => (0, 0) end = (7, 0)) as E'
    by (vm_compute; reflexivity).
  rewrite E in E'. by simplify_eq.
Defined.
