(* ===== verification/ProcTree.v ===== *)
(** * The process tree

    Every process but [init] has a live parent that was created before it, so
    that following the parents always ends in [init]; no two processes share a
    pid.  All system calls keep this; [exit] hands its children to [init] before
    it becomes a zombie. *)

From S2P Require Import Prelude Machine CString Kalloc Vm Bio Cache Log Txn Fs Pipe Console Grep Printf Kernel File Proc Exec Syscall Sysfile Trap Frame ProcAlloc.

Definition in_table (p : Z) : Prop := 0 ≤ p < NPROC.
Definition live (k : kernel) (p : Z) : Prop := in_table p ∧ idle (pstate (procs k p)) = false.

Record tree_inv (k : kernel) : Prop := {
  ti_init : live k (initproc k);
  ti_parent p : in_table p → pstate (procs k p) ≠ UNUSED → p ≠ initproc k →
    live k (parent (procs k p)) ∧ pid (procs k (parent (procs k p))) < pid (procs k p);
  ti_first p : in_table p → pstate (procs k p) ≠ UNUSED → p ≠ initproc k → pid (procs k (initproc k)) < pid (procs k p);
  ti_unused p : in_table p → pstate (procs k p) = UNUSED → parent (procs k p) = NULL;
  ti_range p : in_table p → 0 ≤ pid (procs k p) < nextpid k;
  ti_used p : in_table p → pid (procs k p) = 0 → pstate (procs k p) = UNUSED;
  ti_distinct p q : in_table p → in_table q → pid (procs k p) = pid (procs k q) → pid (procs k p) ≠ 0 → p = q
}.

(** [q] is the parent of the process [p]. *)
Definition child_of (k : kernel) (p q : Z) : Prop :=
  in_table p ∧ pstate (procs k p) ≠ UNUSED ∧ p ≠ initproc k ∧ q = parent (procs k p).

(** * Lemmas *)

Lemma idle_false s : idle s = false ↔ s ≠ UNUSED ∧ s ≠ ZOMBIE.
Proof. destruct s; naive_solver. Qed.

Lemma tree_reaches_init k p :
  tree_inv k → in_table p → pstate (procs k p) ≠ UNUSED → rtc (child_of k) p (initproc k).
Proof.
  intros Hk. remember (Z.to_nat (pid (procs k p))) as n eqn:En. revert p En.
  induction (lt_wf n) as [n _ IH]. intros p -> Hp Hu. destruct (decide (p = initproc k)) as [->|Hne]; [done|].
  destruct (ti_parent _ Hk p Hp Hu Hne) as [[Hq Hl] Hlt]. apply (rtc_l _ _ (parent (procs k p))); [done|].
  eapply IH; [|reflexivity|done|]; [|by apply idle_false in Hl as []].
  pose proof (ti_range _ Hk _ Hp). pose proof (ti_range _ Hk _ Hq). lia.
Qed.

(** ** States with the same tree *)

Record tsame (k k' : kernel) : Prop := {
  ts_parent p : parent (procs k' p) = parent (procs k p);
  ts_pid p : pid (procs k' p) = pid (procs k p);
  ts_unused p : pstate (procs k' p) = UNUSED ↔ pstate (procs k p) = UNUSED;
  ts_zombie p : pstate (procs k' p) = ZOMBIE ↔ pstate (procs k p) = ZOMBIE;
  ts_cur : curproc k' = curproc k;
  ts_next : nextpid k' = nextpid k;
  ts_init : initproc k' = initproc k;
  ts_runnable p : p ≠ curproc k → pstate (procs k p) = RUNNABLE → pstate (procs k' p) = RUNNABLE
}.

Lemma frame_tsame k k' : frame k k' → tsame k k'.
Proof. intros [Hp _ _ ? ? ? Hr]. split; try done; intros p; by destruct (Hp p). Qed.

Lemma tsame_trans k1 k2 k3 : tsame k1 k2 → tsame k2 k3 → tsame k1 k3.
Proof.
  intros [Ha Hb Hc Hd ? ? ? Hr] [Ha' Hb' Hc' Hd' ? ? ? Hr']. split; try (intros; congruence); intros p;
    [by rewrite Hc'|by rewrite Hd'|]. intros ? ?. apply Hr'; [congruence|auto].
Qed.

Lemma tsame_live k k' p : tsame k k' → live k p → live k' p.
Proof. intros Hs [? Hl]. split; [done|]. rewrite idle_false in *. by rewrite (ts_unused _ _ Hs), (ts_zombie _ _ Hs). Qed.

Lemma tsame_active k k' : tsame k k' → active k → active k'.
Proof. intros Hs. unfold active. rewrite (ts_cur _ _ Hs), !idle_false. by rewrite (ts_unused _ _ Hs), (ts_zombie _ _ Hs). Qed.

Lemma tsame_tables k k' : procs k' = procs k → curproc k' = curproc k → nextpid k' = nextpid k → initproc k' = initproc k → tsame k k'.
Proof. intros Hp ? ? ?. split; try done; intros; by rewrite Hp. Qed.

#[export] Instance tsame_like : FrameLike active tsame.
Proof. split; [by split|intros; by eapply tsame_trans|apply frame_tsame|apply tsame_active|done]. Qed.

Lemma tree_tsame k k' : tsame k k' → tree_inv k → tree_inv k'.
Proof.
  intros Hs [Hi Hp Hf Hu Hr Hz Hd]. pose proof (λ p, tsame_live k k' p Hs) as Hl. destruct Hs as [Ea Eb Ec Ed _ En Ei _].
  split; try setoid_rewrite Ea; try setoid_rewrite Eb; try setoid_rewrite Ec; rewrite ?Ei, ?En; auto.
  intros p Hp1 Hp2 Hp3. destruct (Hp p Hp1 Hp2 Hp3). auto.
Qed.

(** Stronger: the states and the [killed] flags are the same, too. *)
Record esame (k k' : kernel) : Prop := {
  es_parent p : parent (procs k' p) = parent (procs k p);
  es_pid p : pid (procs k' p) = pid (procs k p);
  es_state p : pstate (procs k' p) = pstate (procs k p);
  es_killed p : killed (procs k' p) = killed (procs k p);
  es_cur : curproc k' = curproc k;
  es_next : nextpid k' = nextpid k;
  es_init : initproc k' = initproc k
}.

Lemma esame_tsame k k' : esame k k' → tsame k k'.
Proof. intros [? ? Hs ? ? ? ?]. split; try done; intros p; by rewrite Hs. Qed.

Lemma esame_trans k1 k2 k3 : esame k1 k2 → esame k2 k3 → esame k1 k3.
Proof. intros [] []. split; intros; congruence. Qed.

Lemma esame_tables k k' : procs k' = procs k → curproc k' = curproc k → nextpid k' = nextpid k → initproc k' = initproc k → esame k k'.
Proof. intros Hp ? ? ?. split; try done; intros; by rewrite Hp. Qed.

(** ** Calls that only work on files *)

Lemma keeping_updp_tree p f : (∀ x, parent (f x) = parent x ∧ pid (f x) = pid x ∧ pstate (f x) = pstate x) → keeping active tsame (updp p f).
Proof.
  intros Hf. apply keeping_modify. intros k _. destruct (Hf (procs k p)) as (E1 & E2 & E3).
  split; try done; intros q; simpl; unfold fset; destruct (Z.eqb_spec q p) as [->|]; by rewrite ?E1, ?E2, ?E3.
Qed.

Lemma keeping_updf_tree i f : keeping active tsame (updf i f).
Proof. apply keeping_modify. intros k _. by apply tsame_tables. Qed.

#[export] Hint Resolve keeping_updf_tree : keeping.
#[export] Hint Extern 1 (keeping _ _ (updp _ _)) => apply keeping_updp_tree; intros ?; by split_and! : keeping.

Section tree.
Context `{Image}.

Lemma keeping_filealloc : keeping active tsame filealloc.
Proof. unfold filealloc. solve_keeping. Qed.
Lemma keeping_filedup f : keeping active tsame (filedup f).
Proof. unfold filedup. solve_keeping. Qed.
Lemma keeping_fileclose f : keeping active tsame (fileclose f).
Proof. unfold fileclose. solve_keeping. Qed.
Lemma keeping_fdalloc f : keeping active tsame (fdalloc f).
Proof. unfold fdalloc. solve_keeping. Qed.
Hint Resolve keeping_filealloc keeping_filedup keeping_fileclose keeping_fdalloc : keeping.

Lemma keeping_upd_pipe pi f : keeping active tsame (upd_pipe pi f).
Proof. apply keeping_modify. intros k _. by apply tsame_tables. Qed.
Hint Resolve keeping_upd_pipe : keeping.
Lemma keeping_pipealloc : keeping active tsame pipealloc.
Proof. unfold pipealloc. solve_keeping. Qed.
Lemma keeping_open_inode ip omode : keeping active tsame (open_inode ip omode).
Proof. unfold open_inode. solve_keeping. Qed.
Hint Resolve keeping_pipealloc keeping_open_inode : keeping.

Lemma keeping_sys_dup : keeping active tsame sys_dup.
Proof. unfold sys_dup. solve_keeping. Qed.
Lemma keeping_sys_close : keeping active tsame sys_close.
Proof. unfold sys_close. solve_keeping. Qed.
Lemma keeping_sys_open : keeping active tsame sys_open.
Proof. unfold sys_open. solve_keeping. Qed.
Lemma keeping_sys_pipe : keeping active tsame sys_pipe.
Proof. unfold sys_pipe, clear_fd. solve_keeping. Qed.

(** ** Processes come and go *)

Lemma others_live q k k' p : others q k k' → p ≠ q → live k p → live k' p.
Proof.
  intros Ho Hp [? Hl]. split; [done|]. destruct (ot_procs _ _ _ Ho p Hp) as [_ _ _ Hu Hz].
  rewrite idle_false in *. by rewrite Hu, Hz.
Qed.

Lemma tsame_others q k k' :
  others q k k' → parent (procs k' q) = parent (procs k q) → pid (procs k' q) = pid (procs k q) →
  pstate (procs k' q) = pstate (procs k q) → nextpid k' = nextpid k → tsame k k'.
Proof.
  intros [Hp _ _ Hc Hi Hr] E1 E2 E3 En. split; try done; intros p; destruct (decide (p = q)) as [->|Hne];
    try (by rewrite ?E3); try (by destruct (Hp p Hne)). intros ?. by apply Hr.
Qed.

(** The entry [q], not in use, changes and stays unused. *)
Lemma tree_unused q k k' :
  tree_inv k → in_table q → idle (pstate (procs k q)) = true → others q k k' →
  pstate (procs k' q) = UNUSED → parent (procs k' q) = NULL → nextpid k ≤ nextpid k' →
  0 ≤ pid (procs k' q) < nextpid k' →
  (∀ p, in_table p → p ≠ q → pid (procs k' q) ≠ 0 → pid (procs k p) ≠ pid (procs k' q)) → tree_inv k'.
Proof.
  intros Hk Hq Hidle Ho Hu' Hp' Hn Hpid Hfresh. pose proof Hk as [Hi Hp Hf Hu Hr Hz Hd].
  assert (∀ p, live k p → p ≠ q) as Hlq by (intros p [_ Hl] ->; congruence).
  pose proof (Hlq _ Hi) as Hiq. pose proof (ot_init _ _ _ Ho) as Ei. pose proof (λ p, others_live q k k' p Ho) as Hlive.
  assert (∀ p, p ≠ q → parent (procs k' p) = parent (procs k p) ∧ pid (procs k' p) = pid (procs k p) ∧
    (pstate (procs k' p) = UNUSED ↔ pstate (procs k p) = UNUSED)) as Hsame by (intros p Hpq; by destruct (ot_procs _ _ _ Ho p Hpq)).
  assert (∀ p, pstate (procs k' p) ≠ UNUSED → p ≠ q) as Huq by (intros p Hx ->; done).
  split; rewrite ?Ei.
  - by apply Hlive.
  - intros p Hp1 Hp2 Hp3. pose proof (Huq p Hp2) as Hpq. destruct (Hsame p Hpq) as (E1 & E2 & E3).
    destruct (Hp p Hp1) as [Hl Hlt]; [by rewrite <-E3|done|]. rewrite E1, E2.
    destruct (Hsame (parent (procs k p))) as (_ & E4 & _); [by apply Hlq|]. rewrite E4. split; [|done]. apply Hlive; [by apply Hlq|done].
  - intros p Hp1 Hp2 Hp3. pose proof (Huq p Hp2) as Hpq. destruct (Hsame p Hpq) as (E1 & E2 & E3).
    destruct (Hsame _ Hiq) as (_ & E4 & _). rewrite E2, E4. apply Hf; [done|by rewrite <-E3|done].
  - intros p Hp1 Hp2. destruct (decide (p = q)) as [->|Hpq]; [done|]. destruct (Hsame p Hpq) as (E1 & _ & E3). rewrite E1. apply Hu; [done|by apply E3].
  - intros p Hp1. destruct (decide (p = q)) as [->|Hpq]; [done|]. destruct (Hsame p Hpq) as (_ & E2 & _). rewrite E2. specialize (Hr p Hp1). lia.
  - intros p Hp1 Hp2. destruct (decide (p = q)) as [->|Hpq]; [done|]. destruct (Hsame p Hpq) as (_ & E2 & E3). apply E3, Hz; [done|congruence].
  - intros p p' Hp1 Hp2 Epp Hnz. destruct (decide (p = q)) as [->|Hpq], (decide (p' = q)) as [->|Hpq']; [done|..].
    + destruct (Hsame p' Hpq') as (_ & E2 & _). destruct (Hfresh p' Hp2 Hpq'); congruence.
    + destruct (Hsame p Hpq) as (_ & E2 & _). destruct (Hfresh p Hp1 Hpq); congruence.
    + destruct (Hsame p Hpq) as (_ & E2 & _), (Hsame p' Hpq') as (_ & E2' & _). apply Hd; congruence.
Qed.

Lemma tree_freed q k k' :
  tree_inv k → in_table q → idle (pstate (procs k q)) = true → freed q k k' → tree_inv k'.
Proof.
  intros Hk Hq Hi [Ho Hu Hp _ Hn Hd]. pose proof (ti_range _ Hk _ Hq).
  eapply (tree_unused q k k'); try done; [lia|]. rewrite Hd, Hn. lia.
Qed.

Lemma tree_alloc_failed k k' : tree_inv k → nextpid k < 2 ^ 31 - 1 → alloc_failed k k' → tree_inv k'.
Proof.
  intros Hk Hn [?|(q & [Ho Hq [Hu Hu'] _ En] & Hpar & Hpid)]; [by eapply tree_tsame, Hk; apply frame_tsame|].
  assert (nextpid k' = nextpid k + 1) as En'.
  { rewrite En. apply s32_small. pose proof (ti_range _ Hk _ (proj1 (ti_init _ Hk))). lia. }
  pose proof (ti_range _ Hk _ Hq). pose proof (ti_unused _ Hk _ Hq Hu) as E0.
  eapply (tree_unused q k k'); try done; [by rewrite Hu|naive_solver congruence|lia|lia|].
  intros p Hp _ Hnz. pose proof (ti_range _ Hk _ Hp). lia.
Qed.

(** What is shown of each call: the tree is kept, also when the thread sleeps. *)
Definition tree_call {A} (m : M kernel A) : Prop :=
  ∀ k, in_table (curproc k) → active k → nextpid k < 2 ^ 31 - 1 → tree_inv k → wlp m (λ _ k', tree_inv k') tree_inv k.

Lemma tree_call_tsame {A} (m : M kernel A) : keeping active tsame m → tree_call m.
Proof. intros Hm k _ Ha _ Hk. eapply wlp_mono; [by apply Hm|..]; cbv beta; intros; by eapply tree_tsame. Qed.

Lemma tree_call_keeps {A} (m : M kernel A) : keeps m → tree_call m.
Proof. intros Hm. by apply tree_call_tsame, keeping_keeps. Qed.

Lemma tree_call_bind {A B} (m : M kernel A) (f : A → M kernel B) :
  keeping active tsame m → (∀ a, tree_call (f a)) → tree_call (m ≫= f).
Proof.
  intros Hm Hf k Hc Ha Hn Hk. wlp_step. eapply wlp_mono; [by apply Hm|..]; simpl; intros; [|by eapply tree_tsame].
  apply Hf; [by erewrite ts_cur by done|by eapply tsame_active|by erewrite ts_next by done|by eapply tree_tsame].
Qed.

(** ** wait *)

Lemma tree_wait_scan l p addr hk k k1 :
  (∀ q, q ∈ l → in_table q) → tree_inv k → tsame k k1 →
  wlp (wait_scan l p addr hk) (λ r k', tree_inv k' ∧ (is_Some (maybe inl r) → tsame k k')) tree_inv k1.
Proof.
  intros Hl Hk0. revert hk k1. induction l as [|np l IH]; intros hk k1 Hs; cbn [wait_scan]; [wlp_step; split; [by eapply tree_tsame|done]|]. unfold getp. do 2 wlp_step.
  assert (∀ k2 k3, tsame k k2 → procs k3 = procs k2 → curproc k3 = curproc k2 → nextpid k3 = nextpid k2 → initproc k3 = initproc k2 →
    tsame k k3) as Htab by (intros; eapply tsame_trans; [eassumption|by apply tsame_tables]).
  assert (∀ q, q ∈ l → in_table q) as Hl' by (intros; apply Hl; by right).
  destruct (_ =? p); [|by apply IH]. wlp_step. apply wlp_acquire. intros h. do 2 wlp_step.
  case_bool_decide as Ez; [|wlp_step; apply wlp_release; intros h2; apply IH; [done|]; by eapply (Htab k1)].
  do 3 wlp_step. set (k2 := set_kheld h k1). assert (tsame k k2) as H2 by (by eapply (Htab k1)).
  assert (∀ z k', tree_inv k' → wlp (release (plock np) ;; release (plock p) ;; mret (inr z))
      (λ r k', tree_inv k' ∧ (is_Some (maybe (inl (A := bool) (B := Z)) r) → tsame k k')) tree_inv k') as Hrel.
  { intros a k' H'. wlp_step. apply wlp_release. intros h1. wlp_step. apply wlp_release. intros h2. wlp_step.
    split; [by eapply tree_tsame, H'; apply tsame_tables|by intros []]. }
  assert (∀ r t, wlp (if r <? 0 then release (plock np) ;; release (plock p) ;; mret (inr (-1))
    else freeproc np ;; release (plock np) ;; release (plock p) ;; mret (inr (pid (procs k2 np))))
    (λ r k', tree_inv k' ∧ (is_Some (maybe (inl (A := bool) (B := Z)) r) → tsame k k')) tree_inv (set_kmach t k2)) as Hrest.
  { intros r t. assert (tree_inv (set_kmach t k2)) as H3 by (by eapply tree_tsame, Hk0; apply (Htab k2)).
    destruct (r <? 0); [by apply Hrel|]. wlp_step. eapply wlp_mono; [apply wlp_freeproc|..]; [|simpl; intros [] k3 H4; apply Hrel|done].
    - intros k3 [Ho _ Hn] E1 E2 E3. eapply tree_tsame; [|exact H3]. by eapply (tsame_others np).
    - eapply (tree_freed np); [exact H3|apply Hl; by left|simpl in *; by rewrite Ez|done]. }
  destruct (nonzero addr).
  - apply wlp_on_mach; [done|]. intros t. by eapply tree_tsame, Hk0; apply (Htab k2).
  - apply wlp_ret. specialize (Hrest 0 (kmach k2)). by destruct k2.
Qed.

Lemma tree_wait addr : tree_call (wait addr).
Proof.
  unfold wait. do 2 (apply tree_call_bind; [solve_keeping|intros ?]). intros k Hc Ha Hn Hk. wlp_step.
  eapply wlp_mono; [apply (tree_wait_scan _ _ _ _ k k); [|done|by split]| |done].
  { intros q Hq. by apply elem_proc_indices. }
  cbv beta. intros [hk|z] k1 [H1 Hs]; [|by wlp_step]. assert (tsame k k1) as Hs1 by (by apply Hs).
  apply tree_call_keeps; [solve_keeps|by rewrite (ts_cur _ _ Hs1)|by eapply tsame_active|by rewrite (ts_next _ _ Hs1)|done].
Qed.

(** ** fork *)

(** The child [np] of [p] before it is runnable. *)
Record child_ready (p np : Z) (k k' : kernel) : Prop := {
  cr_others q : q ≠ np → parent (procs k' q) = parent (procs k q) ∧ pid (procs k' q) = pid (procs k q) ∧
    (pstate (procs k' q) = UNUSED ↔ pstate (procs k q) = UNUSED) ∧ (pstate (procs k' q) = ZOMBIE ↔ pstate (procs k q) = ZOMBIE);
  cr_parent : parent (procs k' np) = p;
  cr_pid : pid (procs k' np) = pid (procs k np);
  cr_next : nextpid k' = nextpid k;
  cr_init : initproc k' = initproc k
}.

Lemma child_ready_tsame p np k k1 k2 : child_ready p np k k1 → tsame k1 k2 → child_ready p np k k2.
Proof.
  intros [Ho Hp Hi Hn He] [Ep Ei Eu Ez _ En Ee _]. split; rewrite ?Ep, ?Ei; try congruence.
  intros q Hq. destruct (Ho q Hq) as (? & ? & ? & ?). by rewrite Ep, Ei, Eu, Ez.
Qed.

Lemma tree_child p np k k1 :
  tree_inv k → in_table np → pstate (procs k np) = UNUSED → live k p → pid (procs k np) ≠ 0 →
  (∀ q, in_table q → pstate (procs k q) ≠ UNUSED → pid (procs k q) < pid (procs k np)) → child_ready p np k k1 →
  tree_inv (set_procs (fset (procs k1) np (set_pstate RUNNABLE (procs k1 np))) k1).
Proof.
  intros Hk Hnp Hun Hp Hnz Hlast [Ho Epar Epid En Ei]. pose proof Hk as [Hi Hpa Hf Hu Hr Hz Hd].
  set (k2 := set_procs _ k1).
  assert (∀ q, q ≠ np → parent (procs k2 q) = parent (procs k q) ∧ pid (procs k2 q) = pid (procs k q) ∧
    (pstate (procs k2 q) = UNUSED ↔ pstate (procs k q) = UNUSED) ∧ (pstate (procs k2 q) = ZOMBIE ↔ pstate (procs k q) = ZOMBIE)) as Ho2
    by (intros q Hq; unfold k2; simpl; rewrite fset_ne by done; by apply Ho).
  assert (parent (procs k2 np) = p ∧ pid (procs k2 np) = pid (procs k np) ∧ pstate (procs k2 np) = RUNNABLE) as (Epar2 & Epid2 & Est2)
    by (unfold k2; simpl; rewrite fset_eq; simpl; done).
  assert (initproc k2 = initproc k ∧ nextpid k2 = nextpid k) as [Ei2 En2] by done.
  clearbody k2. clear Ho Epar Epid En Ei k1.
  assert (∀ q, live k q → q ≠ np) as Hln by (intros q [_ Hl] ->; rewrite Hun in Hl; done).
  assert (∀ q, live k q → live k2 q) as Hlive.
  { intros q Hl. destruct (Ho2 q (Hln q Hl)) as (_ & _ & H1 & H2). destruct Hl as [? Hl]. split; [done|].
    rewrite idle_false in *. by rewrite H1, H2. }
  assert (∀ q, pid (procs k2 q) = pid (procs k q)) as Hpid.
  { intros q. destruct (decide (q = np)) as [->|Hq]; [done|]. by destruct (Ho2 q Hq) as (_ & ? & _). }
  split; rewrite ?Ei2, ?En2; repeat setoid_rewrite Hpid; auto.
  - intros q Hq1 Hq2 Hq3. destruct (decide (q = np)) as [->|Hq].
    + rewrite Epar2. split; [by apply Hlive|]. apply Hlast; [apply Hp|]. destruct Hp as [_ Hp]. by apply idle_false in Hp as [].
    + destruct (Ho2 q Hq) as (E1 & _ & E3 & _). rewrite E1. rewrite E3 in Hq2. destruct (Hpa q Hq1 Hq2 Hq3). auto.
  - intros q Hq1 Hq2 Hq3. destruct (decide (q = np)) as [->|Hq].
    + apply Hlast; [apply Hi|]. destruct Hi as [_ Hi]. by apply idle_false in Hi as [].
    + destruct (Ho2 q Hq) as (_ & _ & E3 & _). rewrite E3 in Hq2. auto.
  - intros q Hq1 Hq2. destruct (decide (q = np)) as [->|Hq]; [by rewrite Est2 in Hq2|].
    destruct (Ho2 q Hq) as (E1 & _ & E3 & _). rewrite E1. apply Hu; [done|by apply E3].
  - intros q Hq1 Hq2. destruct (decide (q = np)) as [->|Hq]; [done|]. destruct (Ho2 q Hq) as (_ & _ & E3 & _). apply E3. auto.
Qed.

Lemma fork_dups_tree p np l k :
  wlp (for_each l (λ i, x ← getp p; if negb (ofile x i =? NULL) then f ← filedup (ofile x i); updp np (λ y, set_ofile (fset (ofile y) i f) y)
       else mret tt)) (λ _ k', esame k k') (λ _, False) k.
Proof.
  revert k. induction l as [|fd l IH]; intros k; cbn [for_each]; [wlp_step; by split|]. unfold getp. do 3 wlp_step.
  assert (∀ k1, esame k k1 → wlp (for_each l (λ i, x ← getp p; if negb (ofile x i =? NULL) then f ← filedup (ofile x i);
     updp np (λ y, set_ofile (fset (ofile y) i f) y) else mret tt)) (λ _ k', esame k k') (λ _, False) k1) as Hrest.
  { intros k1 H1. eapply wlp_mono; [apply IH| |done]. cbv beta. intros _ k2 H2. by eapply esame_trans. }
  destruct (negb _); [|wlp_step; apply Hrest; by split]. unfold filedup, getf, updf. do 2 wlp_step. apply wlp_acquire. intros h.
  do 2 wlp_step. destruct (_ <? 1); [done|]. repeat first [apply Hrest|apply wlp_release; intros ?|apply wlp_updp|wlp_step].
  split; try done; intros q; simpl; unfold fset; by destruct (Z.eqb_spec q np) as [->|].
Qed.

(** What [fork] does once the memory is copied. *)
Lemma fork_child_tree p np x y k1 :
  wlp (on_mach (do_mem (λ m, memmove m (trapframe y) (trapframe x) TF_SIZE)) ;;
      tf_set np tf_a0 0 ;;
      for_each fd_indices (λ i,
        x ← getp p;
        if negb (ofile x i =? NULL) then
          f ← filedup (ofile x i);
          updp np (λ y, set_ofile (fset (ofile y) i f) y)
        else mret tt) ;;
      ip ← on_fs (idup (pcwd x));
      updp np (set_pcwd ip) ;;
      updp np (set_pname (copy_name (pname x))) ;;
      y ← getp np;
      let pid := pid y in
      updp np (set_pstate RUNNABLE) ;;
      release (plock np) ;;
      mret pid)
    (λ r k', r = pid (procs k1 np) ∧ ∃ k2, esame k1 k2 ∧ ∃ h,
       k' = set_kheld h (set_procs (fset (procs k2) np (set_pstate RUNNABLE (procs k2 np))) k2)) (λ _, False) k1.
Proof.
  wlp_step. apply wlp_on_mach_ret; [done|]. intros _ t. unfold tf_set, getp. do 3 wlp_step.
  apply wlp_on_mach_ret; [done|]. intros _ t1.
  wlp_step. eapply wlp_mono; [apply fork_dups_tree| |done]. cbv beta. intros [] k3 H3.
  wlp_step. apply wlp_on_idup. intros ip d m i. wlp_step. apply wlp_updp. wlp_step. apply wlp_updp. set (k5 := set_procs _ _).
  assert (esame k1 k5) as H5.
  { eapply esame_trans; [|eapply esame_trans; [exact H3|]]; [by apply esame_tables|]. unfold k5.
    split; try done; intros q; simpl; unfold fset; destruct (Z.eqb_spec q np) as [->|]; by rewrite ?Z.eqb_refl. }
  clearbody k5. do 3 wlp_step. apply wlp_updp. wlp_step. apply wlp_release. intros h. wlp_step.
  split; [apply (es_pid _ _ H5)|]. exists k5. split; [done|]. by exists h.
Qed.

Lemma tree_fork : tree_call fork.
Proof.
  intros k Hc Ha Hn Hk. unfold fork, myproc. do 3 wlp_step. set (p := curproc k).
  assert (∀ k1 k2, tree_inv k1 → procs k2 = procs k1 → curproc k2 = curproc k1 → nextpid k2 = nextpid k1 → initproc k2 = initproc k1 →
    tree_inv k2) as Htab by (intros k1 k2 H1 ? ? ? ?; eapply tree_tsame; [|exact H1]; by apply tsame_tables).
  eapply wlp_mono; [apply wlp_allocproc|..]; [|cbv beta; intros np k1 H1|intros ? R; exact R].
  { intros k' H'. by eapply tree_alloc_failed. }
  destruct H1 as [[-> H1]|[Hnn [Hal Hpar Hpid _ _]]].
  { apply (wlp_ret (-1)). by eapply tree_alloc_failed. }
  assert (tree_inv k1) as Hk1.
  { eapply tree_alloc_failed; [exact Hk|done|]. right. exists np. split; [done|]. split; by left. }
  destruct (Z.eqb_spec np NULL) as [E|_]; [done|]. destruct Hal as [Ho Hi [Hu Hu1] Hof En].
  assert (np ≠ p) as Hnp. { intros ->. unfold active in Ha. fold p in Ha. by rewrite Hu in Ha. }
  unfold getp. do 5 wlp_step. apply wlp_on_mach; [|intros t; by eapply (Htab k1)].
  intros r t. destruct (r <? 0).
  { wlp_step. eapply wlp_mono; [apply wlp_freeproc|..]; [|cbv beta; intros [] k3 H3; wlp_step; apply wlp_release; intros h; wlp_step|done].
    - intros k3 [Ho3 _ Hn3] E1 E2 E3. eapply tree_tsame; [eapply (tsame_others np); [exact Ho3|..]; done|]. by eapply (Htab k1).
    - eapply (Htab k3); try done. eapply (tree_freed np); [|exact Hi| |exact H3]; [by eapply (Htab k1)|simpl; by rewrite Hu1]. }
  wlp_step. apply wlp_updp. wlp_step. apply wlp_updp. set (k2 := set_procs _ _).
  assert (child_ready p np k1 k2) as H2.
  { unfold k2. split; simpl; rewrite ?fset_eq; try done. intros q Hq. by rewrite !fset_ne. }
  eapply wlp_mono; [apply (fork_child_tree p np _ _ k2)|..]; [|done]. cbv beta. intros _ k3 (_ & k4 & H4 & h & ->).
  assert (p ≠ np) as Hpn by done.
  eapply (Htab (set_procs _ k4)); try done. eapply (tree_child p np k1 k4); try done; [..|by eapply child_ready_tsame, esame_tsame].
  - by eapply (others_live np k).
  - rewrite Hpid. pose proof (ti_range _ Hk _ Hc). lia.
  - intros q Hq Hqu. assert (q ≠ np) as Hqn by (intros ->; done). rewrite Hpid.
    rewrite (sc_pid _ _ (ot_procs _ _ _ Ho q Hqn)). by apply (ti_range _ Hk q).
Qed.

(** ** exit *)

(** The process [p] exits; the children outside [rest] have been given away. *)
Record exiting (p : Z) (rest : list Z) (k : kernel) : Prop := {
  ex_tree : tree_inv k;
  ex_cur : curproc k = p;
  ex_run : live k p;
  ex_init : initproc k ≠ p;
  ex_children q : in_table q → q ∉ rest → parent (procs k q) ≠ p
}.

Lemma exiting_tsame p rest k k' : tsame k k' → exiting p rest k → exiting p rest k'.
Proof.
  intros Hs [Ht Hc Hr Hi Hq]. split; [by eapply tree_tsame|by rewrite (ts_cur _ _ Hs)|by eapply tsame_live|by rewrite (ts_init _ _ Hs)|].
  intros q. rewrite (ts_parent _ _ Hs). auto.
Qed.

(** A child of [p] gets the parent [init]. *)
Lemma exiting_adopt p q rest k :
  in_table q → parent (procs k q) = p → exiting p (q :: rest) k →
  exiting p rest (set_procs (fset (procs k) q (set_parent (initproc k) (procs k q))) k).
Proof.
  intros Hq Hpar [[Hi Hp Hf Hu Hr Hz Hd] Hc Hl Hne Hch]. set (k' := set_procs _ k).
  assert (∀ x, pid (procs k' x) = pid (procs k x) ∧ pstate (procs k' x) = pstate (procs k x)) as Hsame.
  { intros x. unfold k'. simpl. unfold fset. by destruct (Z.eqb_spec x q) as [->|]. }
  assert (∀ x, parent (procs k' x) = if x =? q then initproc k else parent (procs k x)) as Hparent.
  { intros x. unfold k'. simpl. unfold fset. by destruct (Z.eqb_spec x q) as [->|]. }
  assert (initproc k' = initproc k ∧ nextpid k' = nextpid k ∧ curproc k' = curproc k) as (Ei & En & Ec) by done. clearbody k'.
  assert (∀ x, live k x → live k' x) as Hlive by (intros x [? ?]; split; [done|]; by rewrite (proj2 (Hsame x))).
  assert (∀ x, pid (procs k' x) = pid (procs k x)) as Hpid by apply Hsame.
  assert (∀ x, pstate (procs k' x) = pstate (procs k x)) as Hst by apply Hsame.
  split; [split|..]; rewrite ?Ei, ?En, ?Ec; repeat setoid_rewrite Hpid; repeat setoid_rewrite Hst; auto; intros x Hx.
  - intros Hx2 Hx3. rewrite Hparent. destruct (Z.eqb_spec x q) as [->|]; [by auto|]. destruct (Hp x Hx Hx2 Hx3). auto.
  - intros Hx2. rewrite Hparent. destruct (Z.eqb_spec x q) as [->|]; [|by apply Hu].
    destruct Hl as [Hl _]. pose proof (Hu q Hq Hx2) as E. rewrite Hpar in E. unfold in_table, NULL in *. lia.
  - intros Hx2. rewrite Hparent. destruct (Z.eqb_spec x q) as [->|]; [done|]. apply Hch; [done|]. by apply not_elem_of_cons.
Qed.

Lemma exiting_reparent p l k :
  (∀ q, q ∈ l → in_table q) → exiting p l k →
  wlp (for_each l (λ pp, x ← getp pp; if parent x =? p then acquire (plock pp) ;; init ← gets initproc; updp pp (set_parent init) ;; release (plock pp)
       else mret tt)) (λ _ k', exiting p [] k') tree_inv k.
Proof.
  revert k. induction l as [|q l IH]; intros k Hl Hk; cbn [for_each]; [by wlp_step|]. unfold getp. do 3 wlp_step.
  assert (∀ q, q ∈ l → in_table q) as Hl' by (intros; apply Hl; by right).
  assert (in_table q) as Hq by (apply Hl; by left).
  destruct (Z.eqb_spec (parent (procs k q)) p) as [E|E].
  - wlp_step. apply wlp_acquire. intros h. do 3 wlp_step. apply wlp_updp. apply wlp_release. intros h2. apply IH; [done|].
    eapply exiting_tsame; [|apply (exiting_adopt p q l (set_kheld h k) Hq E)]; [by apply tsame_tables|].
    eapply exiting_tsame; [|exact Hk]. by apply tsame_tables.
  - wlp_step. apply IH; [done|]. destruct Hk as [Ht Hc Hr Hi Hch]. split; try done. intros x Hx Hxl.
    destruct (decide (x = q)) as [->|]; [done|]. apply Hch; [done|]. by apply not_elem_of_cons.
Qed.

(** The parent of a zombie is still there, and nothing is left to it. *)
Lemma tree_zombie p k : exiting p [] k → tree_inv (set_procs (fset (procs k) p (set_pstate ZOMBIE (procs k p))) k).
Proof.
  intros [[Hi Hp Hf Hu Hr Hz Hd] Hc [Hpt Hl] Hne Hch]. set (k' := set_procs _ k).
  assert (∀ x, pid (procs k' x) = pid (procs k x) ∧ parent (procs k' x) = parent (procs k x) ∧
    (pstate (procs k' x) = UNUSED ↔ pstate (procs k x) = UNUSED)) as Hsame.
  { intros x. unfold k'. simpl. unfold fset. destruct (Z.eqb_spec x p) as [->|]; [|done].
    apply idle_false in Hl as [? ?]. by split_and!. }
  assert (∀ x, live k x → x ≠ p → live k' x) as Hlive.
  { intros x [? ?] Hx. split; [done|]. unfold k'. simpl. by rewrite fset_ne. }
  assert (initproc k' = initproc k ∧ nextpid k' = nextpid k) as (Ei & En) by done. clearbody k'.
  assert (∀ x, pid (procs k' x) = pid (procs k x)) as Hpid by apply Hsame.
  assert (∀ x, parent (procs k' x) = parent (procs k x)) as Hpar by apply Hsame.
  assert (∀ x, pstate (procs k' x) = UNUSED ↔ pstate (procs k x) = UNUSED) as Hst by apply Hsame.
  split; rewrite ?Ei, ?En; repeat setoid_rewrite Hpid; repeat setoid_rewrite Hpar; repeat setoid_rewrite Hst; auto.
  intros x Hx1 Hx2 Hx3. destruct (Hp x Hx1 Hx2 Hx3). split; [|done]. apply Hlive; [done|]. apply Hch; [done|]. set_solver.
Qed.

Lemma wlp_exiting {A} (m : M kernel A) (Q : A → kernel → Prop) p rest k :
  keeping active tsame m → exiting p rest k → (∀ a k', exiting p rest k' → Q a k') → wlp m Q tree_inv k.
Proof.
  intros Hm Hk HQ. eapply (wlp_keeping m Q tree_inv k Hm).
  - destruct Hk as [_ Hc [_ Hl] _ _]. unfold active. by rewrite Hc.
  - intros a k' H' _. apply HQ. by eapply exiting_tsame.
  - intros k' H'. eapply tree_tsame; [exact H'|]. apply Hk.
Qed.

Lemma wlp_sched {A} (Q : A → kernel → Prop) (R : kernel → Prop) k : R k → wlp sched Q R k.
Proof.
  intros HR. unfold sched, myproc, holding, getp. do 8 wlp_step.
  by repeat (match goal with |- wlp (if ?b then _ else _) _ _ _ => destruct b; [done|] end).
Qed.

Lemma tree_exit {A} status : tree_call (exit (A := A) status).
Proof.
  intros k Hc Ha _ Hk. unfold exit, myproc. do 4 wlp_step. destruct (Z.eqb_spec (curproc k) (initproc k)) as [|Hni]; [done|].
  set (p := curproc k) in *. set (init := initproc k) in *.
  assert (exiting p proc_indices k) as H1.
  { split; try done. intros q Hq Hn. by destruct Hn; apply elem_proc_indices. }
  clearbody init p. clear Ha Hk Hni. revert H1. generalize k. clear k. intros k1 H1.
  repeat match goal with
  | |- wlp (reparent p ≫= _) _ _ _ => fail 1
  | |- wlp (_ ≫= _) _ _ _ => wlp_step; eapply wlp_exiting; [solve [solve_keeping]|eassumption|]; clear H1 k1; intros ? k1 H1; cbv zeta
  end.
  wlp_step. eapply wlp_mono; [apply exiting_reparent; [|exact H1]|cbv beta; intros _ k2 H2|done].
  { intros q Hq. by apply elem_proc_indices. }
  do 2 (wlp_step; eapply wlp_exiting; [solve [solve_keeping]|eassumption|]; intros ? ? ?).
  wlp_step. apply wlp_updp. wlp_step. apply wlp_release. intros h. apply wlp_sched.
  eapply tree_tsame; [|by eapply tree_zombie]. by apply tsame_tables.
Qed.

(** ** The table *)

Lemma tree_table num f : syscalls num = Some f → tree_call f.
Proof.
  unfold syscalls. intros Hf. repeat case_match; simplify_eq;
    first [apply tree_call_keeps; solve [auto with keeps nocore] | apply tree_fork
          | apply tree_call_tsame; first [apply keeping_sys_pipe | apply keeping_sys_dup | apply keeping_sys_open | apply keeping_sys_close] | idtac].
  - unfold sys_wait. apply tree_call_bind; [solve_keeping|]. intros n. apply tree_wait.
  - unfold sys_exit. apply tree_call_bind; [solve_keeping|]. intros n. apply tree_exit.
Qed.

Lemma tree_syscall : tree_call syscall.
Proof.
  unfold syscall. do 2 (apply tree_call_bind; [unfold tf_get; solve_keeping|intros ?]). cbv zeta.
  destruct (syscalls _) as [f|] eqn:E.
  - intros k Hc Ha Hn Hk. wlp_step. eapply wlp_mono; [by eapply tree_table| |done]. cbv beta. intros r k1 H1.
    unfold tf_set, getp. do 2 wlp_step. apply wlp_on_mach; intros; (eapply tree_tsame; [|exact H1]; by apply tsame_tables).
  - apply tree_call_keeps. unfold kernel_printf, tf_set. solve_keeps.
Qed.

(** C5: The process tree.  The invariant: [init] lives; the parent of every other
    process is alive (neither free nor a zombie) and older than its child; free
    entries have no parent; pids are distinct and below [nextpid].  So the chain of
    parents of every process, zombies included, ends in [init], and a zombie always
    has a parent that can wait for it.  Every system call keeps the invariant, when
    it returns and at every point where its thread gives up the processor, as long
    as pids have not run out. *)
Theorem syscalls_keep_process_tree k :
  0 ≤ curproc k < NPROC → active k → nextpid k < 2 ^ 31 - 1 → tree_inv k →
  match syscall k with
  | Ret _ k' | Sleep _ k' =>
      tree_inv k' ∧ ∀ p, 0 ≤ p < NPROC → pstate (procs k' p) ≠ UNUSED → rtc (child_of k') p (initproc k')
  | _ => True
  end.
Proof.
  intros Hc Ha Hn Hk. pose proof (tree_syscall k Hc Ha Hn Hk) as Hs. unfold wlp in Hs.
  case_match; try done; (split; [done|]; intros p ? ?; by apply tree_reaches_init).
Qed.

End tree.
#[export] Hint Resolve keeping_filealloc keeping_filedup keeping_fileclose keeping_fdalloc : keeping.

Lemma syscalls_keep_process_tree_witness :
  match syscall ex_kernel with
  | Ret _ k' => tree_inv k' ∧ rtc (child_of k') 1 0
  | _ => False
  end.
Proof.
  assert (∀ p, p = 0 ∨ p = 1 ∨ procs ex_kernel p = zero_proc) as Hp.
  { intros p. simpl. destruct p as [|[| |]|]; auto. }
  assert (tree_inv ex_kernel) as Hk.
  { split.
    - by vm_compute.
    - intros p _ Hu Hn. destruct (Hp p) as [->|[->|E]]; [done|by vm_compute|]. by rewrite E in Hu.
    - intros p _ Hu Hn. destruct (Hp p) as [->|[->|E]]; [done|by vm_compute|]. by rewrite E in Hu.
    - intros p _ Hu. destruct (Hp p) as [->|[->|E]]; [done|done|by rewrite E].
    - intros p _. destruct (Hp p) as [->|[->|E]]; [by vm_compute|by vm_compute|]. by rewrite E.
    - intros p _ Hu. destruct (Hp p) as [->|[->|E]]; [done|done|by rewrite E].
    - intros p q _ _. destruct (Hp p) as [->|[->|E]], (Hp q) as [->|[->|E']]; rewrite ?E, ?E'; simpl; intros; done || lia. }
  pose proof (syscalls_keep_process_tree ex_kernel ltac:(by vm_compute) eq_refl ltac:(by vm_compute) Hk) as Hs.
  destruct (syscall ex_kernel) as [a k'| | | |] eqn:E; try (by vm_compute in E). destruct Hs as [Ht Hs]. split; [done|].
  assert (match syscall ex_kernel with Ret _ k' => (pstate (procs k' 1), initproc k') | _ => (UNUSED, 0) end = (RUNNING, 0)) as E'
    by (vm_compute; reflexivity).
  rewrite E in E'. injection E' as Est Ei. rewrite <-Ei. apply Hs; [by vm_compute|]. congruence.
Defined.
