(* ===== verification/ProcKill.v ===== *)
(** * kill

    What [kill] does, and a consequence of the way it looks for its victim: pid 0
    is the pid of the free entries of the process table. *)

From S2P Require Import Prelude Machine CString Kalloc Vm Bio Cache Log Txn Fs Pipe Console Grep Printf Kernel File Proc Exec Syscall Sysfile Trap Frame ProcAlloc ProcTree.

(** A process after [kill]: it is marked, and woken if it sleeps. *)
Definition kill_proc (x : proc) : proc :=
  if bool_decide (pstate x = SLEEPING) then set_pstate RUNNABLE (set_killed 1 x) else set_killed 1 x.

Lemma kill_loop_spec l n k :
  kheld k = [] →
  match first_such (λ p, pid (procs k p) =? n) l with
  | Some p => ∃ t, kill_loop l n k = Ret 0 (set_procs t k) ∧ ∀ q, t q = if q =? p then kill_proc (procs k p) else procs k q
  | None => kill_loop l n k = Ret (-1) k
  end.
Proof.
  intros Hk. induction l as [|p l IH]; simpl; [done|]. unfold mbind, M_bind. rewrite acquire_free by done. unfold getp, gets.
  unfold mbind, M_bind. cbn [procs set_kheld].
  assert (∀ t, release (plock p) (set_procs t (set_kheld [plock p] k)) = Ret tt (set_procs t k)) as Hrel
    by (intros t; rewrite release_held; by rewrite kheld_eta).
  destruct (pid (procs k p) =? n).
  - unfold updp, modify. cbn [procs set_kheld set_procs].
    destruct (bool_decide (pstate (procs k p) = SLEEPING)) eqn:E; cbn [procs set_procs mret M_ret];
      match goal with |- context [release _ ?s] => change s with (set_procs (procs s) (set_kheld [plock p] k)) end; cbn [procs set_procs].
    + eexists. split; [by rewrite Hrel|]. intros q. unfold fset, kill_proc. rewrite E, Z.eqb_refl. by destruct (q =? p).
    + eexists. split; [by rewrite Hrel|]. intros q. unfold fset, kill_proc. rewrite E. by destruct (Z.eqb_spec q p) as [->|].
  - specialize (Hrel (procs k)). replace (set_procs (procs k) (set_kheld [plock p] k)) with (set_kheld [plock p] k) in Hrel by (by destruct k).
    rewrite Hrel. replace (set_procs (procs k) k) with k by (by destruct k). exact IH.
Qed.

Section kill.
Context `{Image}.

(** [fork] keeps the [killed] flag of the entry it takes. *)
Lemma fork_killed q k :
  first_such (λ p, bool_decide (pstate (procs k p) = UNUSED)) proc_indices = Some q →
  wlp fork (λ n k', n = -1 ∨
    n = pid (procs k' q) ∧ pstate (procs k' q) = RUNNABLE ∧ killed (procs k' q) = killed (procs k q)) (λ _, True) k.
Proof.
  intros Hq. unfold fork, myproc. do 3 wlp_step. eapply wlp_mono; [by apply wlp_allocproc| |done].
  cbv beta. intros np k1 [[-> _]|[Hnn [Hal Hpar Hpid Hkill Hfirst]]]; [apply (wlp_ret (-1)); by left|].
  destruct (Z.eqb_spec np NULL) as [E|_]; [done|]. rewrite Hq in Hfirst. injection Hfirst as <-.
  unfold getp. do 5 wlp_step. apply wlp_on_mach; [|done]. intros r t. destruct (r <? 0).
  { wlp_step. eapply wlp_mono; [by apply wlp_freeproc| |done]. cbv beta. intros [] k3 _. wlp_step. apply wlp_release. intros h.
    wlp_step. by left. }
  wlp_step. apply wlp_updp. wlp_step. apply wlp_updp. set (k2 := set_procs _ _).
  assert (killed (procs k2 q) = killed (procs k q)) as E2 by (unfold k2; cbn [procs set_procs set_kmach]; by rewrite !fset_eq). clearbody k2.
  eapply wlp_mono; [apply (fork_child_tree _ q _ _ k2)| |done]. cbv beta. intros n k3 (-> & k4 & H4 & h & ->). right.
  cbn [procs set_kheld set_procs]. rewrite fset_eq. cbn [pid killed pstate set_pstate].
  rewrite (es_pid _ _ H4), (es_killed _ _ H4). by rewrite E2.
Qed.

(** [kill n], called without locks: the first process with pid [n] is marked
    as killed and, if it sleeps, becomes runnable; no other process and nothing
    else changes.  Without such a process the result is -1 and nothing changes. *)
Theorem kill_marks_process n k :
  kheld k = [] →
  match first_such (λ p, pid (procs k p) =? n) proc_indices with
  | Some p => ∃ t, kill n k = Ret 0 (set_procs t k) ∧ ∀ q, t q = if q =? p then kill_proc (procs k p) else procs k q
  | None => kill n k = Ret (-1) k
  end.
Proof. apply kill_loop_spec. Qed.

(** [kill] does not look whether the entry with the pid is in use.  When the
    free entries are those with pid 0, as [freeproc] leaves them, [kill(0)] from
    any program succeeds and marks the first free entry; the next [fork], in any
    process, gives that entry to its child without clearing the mark, so that the
    child is created as a killed process. *)
Theorem kill_zero_dooms_next_child q k :
  kheld k = [] → (∀ p, 0 ≤ p < NPROC → pid (procs k p) = 0 ↔ pstate (procs k p) = UNUSED) →
  first_such (λ p, bool_decide (pstate (procs k p) = UNUSED)) proc_indices = Some q →
  ∃ t, kill 0 k = Ret 0 (set_procs t k) ∧ (∀ p, p ≠ q → t p = procs k p) ∧ t q = set_killed 1 (procs k q) ∧
    ∀ p, match fork (set_curproc p (set_procs t k)) with
         | Ret n k' => n = -1 ∨ n = pid (procs k' q) ∧ pstate (procs k' q) = RUNNABLE ∧ killed (procs k' q) = 1
         | _ => True
         end.
Proof.
  intros Hk Hpid Hq. pose proof (kill_loop_spec proc_indices 0 k Hk) as Hl.
  assert (first_such (λ p, pid (procs k p) =? 0) proc_indices = Some q) as Hq0.
  { rewrite <-Hq. apply first_such_ext. intros p Hp%elem_proc_indices. specialize (Hpid p Hp).
    apply eq_iff_eq_true. rewrite Z.eqb_eq, bool_decide_eq_true. done. }
  rewrite Hq0 in Hl. destruct Hl as (t & E & Ht). exists t. split; [exact E|].
  destruct (first_such_Some _ _ _ Hq) as [_ Hu%bool_decide_eq_true].
  assert (t q = set_killed 1 (procs k q)) as Etq.
  { rewrite Ht, Z.eqb_refl. unfold kill_proc. rewrite Hu. by rewrite bool_decide_eq_false_2. }
  split; [|split; [done|]].
  { intros p Hp. rewrite Ht. by destruct (Z.eqb_spec p q). }
  intros p. pose proof (fork_killed q (set_curproc p (set_procs t k))) as Hf. unfold wlp in Hf. simpl in Hf.
  rewrite Etq in Hf. case_match; try done. apply Hf. rewrite <-Hq. apply first_such_ext. intros x _. rewrite Ht.
  destruct (Z.eqb_spec x q) as [->|]; [|done]. unfold kill_proc. rewrite Hu. simpl. by rewrite Hu.
Qed.

End kill.

Lemma kill_marks_process_witness :
  ∃ t, kill 1 ex_kernel = Ret 0 (set_procs t ex_kernel) ∧ pstate (t 0) = RUNNABLE ∧ killed (t 0) = 1.
Proof.
  pose proof (kill_marks_process 1 ex_kernel eq_refl) as (t & E & Ht).
  exists t. split; [exact E|]. rewrite Ht. by vm_compute.
Defined.

(** The example state with eight free pages and a shell of size 0. *)
Definition ex_pages : list Z := (λ i, KERNBASE + 0x40000 + i * PGSIZE) <$> seqZ 0 8.
Definition ex_free : machine :=
  foldr (λ pa s, Machine (store64 (mem s) pa (freelist s)) pa) (kmach ex_kernel) ex_pages.
Definition ex_fork : kernel :=
  set_kmach ex_free (set_procs (fset (procs ex_kernel) 1 (set_sz 0 (procs ex_kernel 1))) ex_kernel).

Lemma kill_zero_dooms_next_child_witness :
  ∃ k1, kill 0 ex_fork = Ret 0 k1 ∧
    match fork k1 with
    | Ret n k' => n = 3 ∧ pid (procs k' 2) = 3 ∧ pstate (procs k' 2) = RUNNABLE ∧ killed (procs k' 2) = 1
    | _ => False
    end.
Proof.
  assert (∀ p, p = 0 ∨ p = 1 ∨ procs ex_fork p = zero_proc) as Hp.
  { intros p. simpl. unfold fset. destruct p as [|[| |]|]; auto. }
  destruct (kill_zero_dooms_next_child 2 ex_fork) as (t & E & Ht & Hq & Hf).
  - done.
  - intros p _. destruct (Hp p) as [->|[->|E]]; [by vm_compute|by vm_compute|]. by rewrite E.
  - by vm_compute.
  - exists (set_procs t ex_fork). split; [exact E|]. specialize (Hf 1).
    change (set_curproc 1 (set_procs t ex_fork)) with (set_procs t ex_fork) in Hf.
    assert (match kill 0 ex_fork with Ret _ k1 => match fork k1 with Ret n _ => n | _ => 0 end | _ => 0 end = 3) as E3
      by (vm_compute; reflexivity).
    rewrite E in E3. destruct (fork (set_procs t ex_fork)) as [n k'| | | |]; try done. subst n.
    destruct Hf as [|(? & ? & ?)]; [done|]. by split_and!.
Defined.
