(* ===== verification/Sched.v ===== *)
(** * Traps and the other processes

    No system call or trap takes a runnable process away from the scheduler. *)

From S2P Require Import Prelude Machine CString Kalloc Vm Bio Cache Log Txn Fs Pipe Console Grep Printf Plic Kernel File Proc Exec Syscall Sysfile Trap Frame ProcAlloc ProcTree.

(** Nobody else's turn is lost. *)
Definition rkeep (k k' : kernel) : Prop :=
  curproc k' = curproc k ∧ ∀ p, p ≠ curproc k → pstate (procs k p) = RUNNABLE → pstate (procs k' p) = RUNNABLE.

Definition rcall {A} (m : M kernel A) : Prop :=
  ∀ k, active k → wlp m (λ _ k', rkeep k k' ∧ active k') (rkeep k) k.

(** * Lemmas *)

Lemma rkeep_trans k1 k2 k3 : rkeep k1 k2 → rkeep k2 k3 → rkeep k1 k3.
Proof. intros [E1 H1] [E2 H2]. split; [congruence|]. intros p Hp Hr. apply H2; [congruence|]. by apply H1. Qed.

Lemma rkeep_tsame k k' : tsame k k' → rkeep k k'.
Proof. intros []. by split. Qed.

Lemma rkeep_others q k k' : others q k k' → pstate (procs k q) ≠ RUNNABLE → rkeep k k'.
Proof.
  intros [_ _ _ Hc _ Hr] Hq. split; [done|]. intros p Hp Hrun. apply Hr; [|done|done]. intros ->. done.
Qed.

Lemma others_active q k k' : others q k k' → q ≠ curproc k → active k → active k'.
Proof.
  intros Ho Hq Ha. unfold active in *. rewrite (ot_cur _ _ _ Ho). destruct (ot_procs _ _ _ Ho (curproc k)) as [_ _ _ Hu Hz]; [done|].
  rewrite idle_false in *. by rewrite Hu, Hz.
Qed.

Lemma rcall_tsame {A} (m : M kernel A) : keeping active tsame m → rcall m.
Proof.
  intros Hm k Ha. eapply wlp_mono; [by apply Hm|..]; cbv beta; intros; [|by apply rkeep_tsame].
  split; [by apply rkeep_tsame|by eapply tsame_active].
Qed.

Lemma rcall_keeps {A} (m : M kernel A) : keeps m → rcall m.
Proof. intros Hm. by apply rcall_tsame, keeping_keeps. Qed.

Lemma rcall_after {A} (m : M kernel A) k k1 :
  rkeep k k1 → active k1 → rcall m → wlp m (λ _ k', rkeep k k' ∧ active k') (rkeep k) k1.
Proof.
  intros H1 Ha Hm. eapply wlp_mono; [by apply Hm|..]; cbv beta; [intros _ k' [? ?]; split; [|done]|intros k' ?]; by eapply rkeep_trans.
Qed.

Lemma rcall_bind {A B} (m : M kernel A) (f : A → M kernel B) : rcall m → (∀ a, rcall (f a)) → rcall (m ≫= f).
Proof.
  intros Hm Hf k Ha. wlp_step. eapply wlp_mono; [by apply Hm|..]; [|done]. cbv beta. intros a k1 [? ?]. by apply rcall_after.
Qed.

Section sched.
Context `{Image}.

Lemma rcall_wait_scan l p addr hk k : active k → wlp (wait_scan l p addr hk) (λ _ k', rkeep k k' ∧ active k') (rkeep k) k.
Proof.
  intros Ha. assert (∀ k1, tsame k k1 → wlp (wait_scan l p addr hk) (λ _ k', rkeep k k' ∧ active k') (rkeep k) k1) as Hgen;
    [|by apply Hgen; split].
  revert hk. induction l as [|np l IH]; intros hk k1 Hs; cbn [wait_scan].
  { wlp_step. split; [by apply rkeep_tsame|by eapply tsame_active]. }
  assert (∀ k2, tsame k k2 → ∀ k3, procs k3 = procs k2 → curproc k3 = curproc k2 → nextpid k3 = nextpid k2 → initproc k3 = initproc k2 →
    tsame k k3) as Htab by (intros; eapply tsame_trans; [eassumption|by apply tsame_tables]).
  unfold getp. do 2 wlp_step. destruct (_ =? p); [|by apply IH]. wlp_step. apply wlp_acquire. intros h. do 2 wlp_step.
  case_bool_decide as Ez; [|wlp_step; apply wlp_release; intros h2; apply IH; by eapply Htab].
  do 3 wlp_step. set (k2 := set_kheld h k1). assert (tsame k k2) as H2 by (by eapply Htab).
  assert (rcall (A := bool + Z) (release (plock np) ;; release (plock p) ;; mret (inr (-1)))) as Hrel
    by (apply rcall_keeps; solve_keeps).
  assert (∀ r t, wlp (if r <? 0 then release (plock np) ;; release (plock p) ;; mret (inr (-1))
    else freeproc np ;; release (plock np) ;; release (plock p) ;; mret (inr (pid (procs k2 np))))
    (λ (r : bool + Z) k', rkeep k k' ∧ active k') (rkeep k) (set_kmach t k2)) as Hrest.
  { intros r t. assert (tsame k (set_kmach t k2)) as H3 by (by eapply (Htab k2)).
    pose proof (rkeep_tsame _ _ H3) as R3. pose proof (tsame_active _ _ H3 Ha) as A3.
    destruct (r <? 0); [by apply rcall_after|]. set (k3 := set_kmach t k2) in *.
    assert (pstate (procs k3 np) = ZOMBIE) as Ez3 by exact Ez. clearbody k3.
    assert (∀ k4, others np k3 k4 → rkeep k k4 ∧ active k4) as Hoth.
    { intros k4 Ho. split; [eapply rkeep_trans; [exact R3|]; eapply rkeep_others; [done|by rewrite Ez3]|].
      eapply others_active; [done| |done]. intros ->. unfold active in A3. by rewrite Ez3 in A3. }
    wlp_step. eapply wlp_mono; [apply wlp_freeproc|..]; [|cbv beta; intros [] k4 [Ho _ _ _ _ _]|done].
    - intros k4 [Ho _ _] _ _ _. by apply Hoth.
    - destruct (Hoth k4 Ho). apply rcall_after; [done|done|]. apply rcall_keeps. solve_keeps. }
  destruct (nonzero addr).
  - apply wlp_on_mach; [done|]. intros t. apply rkeep_tsame. by eapply (Htab k2).
  - apply wlp_ret. specialize (Hrest 0 (kmach k2)). by destruct k2.
Qed.

Lemma rcall_wait addr : rcall (wait addr).
Proof.
  unfold wait. do 2 (apply rcall_bind; [apply rcall_keeps; solve_keeps|intros ?]).
  apply rcall_bind; [intros k Ha; by apply rcall_wait_scan|]. intros r. apply rcall_keeps. solve_keeps.
Qed.

Lemma rcall_fork : rcall fork.
Proof.
  intros k Ha. unfold fork, myproc. do 3 wlp_step.
  assert (∀ q k1, allocated q k k1 → rkeep k k1 ∧ active k1 ∧ q ≠ curproc k ∧ curproc k1 = curproc k ∧ pstate (procs k1 q) = UNUSED) as Hal.
  { intros q k1 [Ho _ [Hu Hu1] _ _]. assert (q ≠ curproc k) as Hq by (intros ->; unfold active in Ha; by rewrite Hu in Ha).
    split_and!; [|by eapply others_active|done|apply (ot_cur _ _ _ Ho)|done]. eapply rkeep_others; [done|by rewrite Hu]. }
  assert (∀ k1, alloc_failed k k1 → rkeep k k1 ∧ active k1) as Hfail.
  { intros k1 [Hf|(q & Hq & _)]; [|by destruct (Hal q k1 Hq) as (? & ? & _)].
    split; [by apply rkeep_tsame, frame_tsame|by eapply frame_active]. }
  eapply wlp_mono; [apply (wlp_allocproc k (rkeep k)); intros; by apply Hfail| |done]. cbv beta.
  intros np k1 [[-> H1]|[Hnn [Hal1 _ _ _ _]]]; [apply (wlp_ret (-1)); by apply Hfail|].
  destruct (Z.eqb_spec np NULL) as [E|_]; [done|]. destruct (Hal np k1 Hal1) as (R1 & A1 & Hnp & Hc1 & Hu1). clear Hal Hfail Hal1.
  unfold getp. do 5 wlp_step. apply wlp_on_mach; [|intros t; exact R1]. intros r t.
  assert (∀ k2, others np (set_kmach t k1) k2 → rkeep k k2 ∧ active k2) as Hoth.
  { intros k2 Ho. split; [apply (rkeep_trans k (set_kmach t k1)); [exact R1|]; apply (rkeep_others np); [done|simpl; by rewrite Hu1]|].
    eapply (others_active np (set_kmach t k1)); [done|by rewrite <-Hc1 in Hnp|done]. }
  destruct (r <? 0).
  - wlp_step. eapply wlp_mono; [apply (wlp_freeproc np _ (rkeep k)); intros k2 [Ho _ _] _ _ _; by apply Hoth|cbv beta; intros [] k2 [Ho _ _ _ _ _]|done].
    destruct (Hoth k2 Ho). apply rcall_after; [done|done|]. apply rcall_keeps. solve_keeps.
  - wlp_step. apply wlp_updp. wlp_step. apply wlp_updp. set (k2 := set_procs _ _).
    assert (others np (set_kmach t k1) k2) as Ho2 by (split; try done; intros p Hp; unfold k2; simpl; by rewrite !fset_ne).
    clearbody k2. destruct (Hoth k2 Ho2) as [R2 A2]. eapply wlp_mono; [apply (fork_child_tree _ np)| |done]. cbv beta.
    intros n k3 (_ & k4 & H4 & h & ->). pose proof (esame_tsame _ _ H4) as T4.
    assert (rkeep k k4) as R4 by (eapply rkeep_trans; [exact R2|by apply rkeep_tsame]).
    pose proof (tsame_active _ _ T4 A2) as A4. pose proof R4 as [C4 P4].
    split; [split; [done|]; intros p Hp Hr|unfold active in *]; simpl; unfold fset; (case_match; [done|]); [by apply P4|done].
Qed.

(** [m] leads from [k], where [p] runs. *)
Definition rstate (k : kernel) (p : Z) (k1 : kernel) : Prop := rkeep k k1 ∧ active k1 ∧ curproc k = p.

Lemma rcall_exit {A} status : rcall (exit (A := A) status).
Proof.
  intros k Ha. unfold exit, myproc. do 4 wlp_step. destruct (_ =? _); [done|].
  set (p := curproc k). generalize (initproc k). intros init.
  assert (rstate k p k) as H1 by (split_and!; [by split|done|done]).
  assert (∀ B (m : M kernel B) Q k1, rcall m → rstate k p k1 → (∀ a k2, rstate k p k2 → Q a k2) → wlp m Q (rkeep k) k1) as Hstep.
  { intros B m Q k1 Hm (R1 & A1 & C1) HQ. eapply wlp_mono; [by apply (rcall_after m k)| |done]. cbv beta. intros a k2 [R2 A2].
    by apply HQ. }
  assert (rcall (reparent p)) as Hre.
  { unfold reparent. generalize proc_indices. intros l. induction l as [|pp l IH]; cbn [for_each]; [by apply rcall_keeps, keeps_ret|].
    apply rcall_bind; [|by intros []]. apply rcall_bind; [apply rcall_keeps; solve_keeps|]. intros x. destruct (_ =? p); [|by apply rcall_keeps, keeps_ret].
    apply rcall_bind; [apply rcall_keeps; solve_keeps|]. intros _. apply rcall_bind; [apply rcall_keeps; solve_keeps|]. intros i.
    apply rcall_bind; [|intros _; apply rcall_keeps; solve_keeps]. intros k1 A1. apply wlp_updp.
    split; [split; [done|]; intros q Hq Hr|unfold active in *]; simpl; unfold fset; (case_match eqn:E; [apply Z.eqb_eq in E|done]); simpl; congruence. }
  assert (∀ lk k1, rstate k p k1 → wlp (updp p (set_pstate ZOMBIE) ;; release lk ;; (sched : M kernel A)) (λ _ k', rkeep k k' ∧ active k') (rkeep k) k1) as Hz.
  { intros lk k1 ([C1 R1] & A1 & <-). wlp_step. apply wlp_updp. wlp_step. apply wlp_release. intros h. apply wlp_sched.
    split; [done|]. intros q Hq Hr. simpl. rewrite fset_ne by done. by apply R1. }
  repeat match goal with
  | |- wlp (reparent p ≫= _) _ _ _ => wlp_step; eapply Hstep; [exact Hre|exact H1|]; clear H1; intros ? ? H1; cbv zeta
  | |- wlp (updp p (set_pstate ZOMBIE) ≫= _) _ _ _ => by apply Hz
  | |- wlp (_ ≫= _) _ _ _ => wlp_step; eapply Hstep; [apply rcall_tsame; solve [solve_keeping]|exact H1|]; clear H1; intros ? ? H1; cbv zeta
  end.
Qed.

(** ** System calls and traps *)

Lemma rcall_table num f : syscalls num = Some f → rcall f.
Proof.
  unfold syscalls. intros Hf. repeat case_match; simplify_eq;
    first [apply rcall_keeps; solve [auto with keeps nocore] | apply rcall_fork
          | apply rcall_tsame; first [apply keeping_sys_pipe | apply keeping_sys_dup | apply keeping_sys_open | apply keeping_sys_close]
          | apply rcall_bind; [apply rcall_keeps; solve_keeps|intros n; first [apply rcall_wait|apply rcall_exit]]].
Qed.

Lemma rcall_syscall : rcall syscall.
Proof.
  unfold syscall. do 2 (apply rcall_bind; [apply rcall_keeps; unfold tf_get; solve_keeps|intros ?]). cbv zeta.
  destruct (syscalls _) as [f|] eqn:E.
  - apply rcall_bind; [by eapply rcall_table|]. intros r. apply rcall_keeps. unfold tf_set. solve_keeps.
  - apply rcall_keeps. unfold kernel_printf, tf_set. solve_keeps.
Qed.

Lemma keeps_devintr hr disk_intr hw c :
  (∀ a, keeps (hr a)) → keeps disk_intr → (∀ w, keeps (hw w)) → keeps (devintr hr disk_intr hw c).
Proof. intros Hr Hd Hw. unfold devintr, plic_claim, plic_complete, mmio, clockintr, uart_intr, kernel_printf. solve_keeps. Qed.

Lemma rcall_usertrap hr disk_intr hw kv addr c :
  (∀ a, keeps (hr a)) → keeps disk_intr → (∀ w, keeps (hw w)) → rcall (usertrap hr disk_intr hw kv addr c).
Proof.
  intros Hr Hd Hw. pose proof (keeps_devintr hr disk_intr hw c Hr Hd Hw) as Hdev.
  assert (∀ x, rcall (if nonzero (killed x) then exit (-1) else mret tt)) as Hkill.
  { intros x. destruct (nonzero _); [apply rcall_exit|apply rcall_keeps; solve_keeps]. }
  pose proof rcall_syscall as Hsys. unfold usertrap, tf_set, tf_get, kernel_printf, usertrapret, tf_set, tf_get.
  repeat first [apply Hkill | apply Hsys | apply rcall_keeps, Hw | apply rcall_keeps; solve [auto with keeps nocore | exact Hdev | solve_keeps] | apply rcall_bind; [|intros ?]
    | match goal with |- rcall (if ?b then _ else _) => destruct b | |- rcall (let _ := _ in _) => cbv zeta end].
Qed.

End sched.

(** Traps and system calls do not take the processor from others.  Whatever a
    trap from user space leads to (a system call, an interrupt, a fault), when the
    handler returns to user space or gives up the processor every other process
    that was runnable still is.  The interrupt handler of the disk and the writes
    to registers are assumed to have this frame; the others are proved to. *)
Theorem traps_keep_others_runnable `{Image} hr disk_intr hw kv addr c k :
  (∀ a, keeps (hr a)) → keeps disk_intr → (∀ w, keeps (hw w)) → active k →
  match usertrap hr disk_intr hw kv addr c k with
  | Ret _ k' | Sleep _ k' => ∀ p, p ≠ curproc k → pstate (procs k p) = RUNNABLE → pstate (procs k' p) = RUNNABLE
  | _ => True
  end.
Proof.
  intros Hr Hd Hw Ha. pose proof (rcall_usertrap hr disk_intr hw kv addr c Hr Hd Hw k Ha) as Hu. unfold wlp in Hu.
  case_match; [apply Hu|done|done|apply Hu|done].
Qed.

Lemma traps_keep_others_runnable_witness :
  match usertrap (λ _, mret 0) (mret tt) (λ _, mret tt) 0 0 (Csrs 0 0 8 0 0 0) (set_procs (fset (procs ex_kernel) 0 (set_pstate RUNNABLE (procs ex_kernel 0))) ex_kernel) with
  | Ret _ k' => pstate (procs k' 0) = RUNNABLE
  | _ => False
  end.
Proof.
  set (k := set_procs _ ex_kernel).
  pose proof (traps_keep_others_runnable (λ _, mret 0) (mret tt) (λ _, mret tt) 0 0 (Csrs 0 0 8 0 0 0) k ltac:(intros; apply keeps_ret) ltac:(apply keeps_ret) ltac:(intros; apply keeps_ret) eq_refl) as Hu.
  destruct (usertrap _ _ _ _ _ _ k) as [a k'| | | |] eqn:E; try (by vm_compute in E). by apply Hu.
Defined.
