(* ===== verification/Harts.v ===== *)
(** * kernel/proc.c on several harts

    Any number of harts run the scheduler and the processes, interleaved at the
    acquisition and the release of process locks and at every access to the
    process table between them.  A hart is in the scheduler or runs the thread of a
    process; a thread is the stack of the functions of proc.c that it is in, above
    user code and code of other files.  Where such code may call a function, and
    where an interrupt may come, is open: any of these calls is possible at any time
    at which the hart holds no process lock.  The other locks of the kernel, memory
    and files are left out: a thread that waits for them makes no step. *)

From S2P Require Import Prelude Machine CString Kalloc Vm Bio Cache Log Txn Fs Pipe Console Kernel.

(** ** The state *)

(** The fields of [struct proc] that the functions below use. *)
Record entry := Entry {
  estate : procstate;
  echan : chan;
  epid : Z;
  eparent : Z;
  ekilled : bool;
  exstate : Z
}.

(** Where a thread is in a function: before the access of that name.  [p] is the
    process of the thread, [op] the [original_parent] of [exit]. *)
Inductive yield_pc := YAcquire | YState | YSched | YRelease.
Inductive sleep_pc := SAcquire | SState | SSched | SBack | SRelease.
Inductive wakeup_pc := UAcquire | UTest | URelease.
Inductive kill_pc := KAcquire | KTest | KNext | KFound.
Inductive exit_pc :=
  | XStart | XInit | XWakeInit | XInitRelease | XSelf | XParent
  | XSelfRelease (op : Z) | XLockParent (op : Z) | XLockSelf (op : Z)
  | XReparent (op pp : Z) | XReAcquire (op pp : Z) | XReSet (op pp : Z) | XReRelease (op pp : Z)
  | XWakeParent (op : Z) | XZombie (op : Z) | XParentRelease (op : Z) | XSched | XDead.
Inductive wait_pc :=
  | WAcquire | WScan (np : Z) (havekids : bool) | WChild (np : Z) | WTest (np : Z) | WNext (np : Z) | WFound (np : Z)
  | WRelease | WSleep | WSched | WBack.
Inductive fork_pc := FAcquire (np : Z) | FTest (np : Z) | FNext (np : Z) | FFound (np : Z) | FState (np : Z) | FRelease (np : Z).

Inductive frame :=
  | InYield (pc : yield_pc)
  | InSleep (pc : sleep_pc) (ch : chan)
  | InWakeup (pc : wakeup_pc) (ch : chan) (q : Z)
  | InKill (pc : kill_pc) (pid q : Z)
  | InExit (pc : exit_pc) (status : Z)
  | InWait (pc : wait_pc)
  | InFork (pc : fork_pc)
  | InForkret.

(** What a hart does: it is in the scheduler, before the acquisition of the lock of
    [p] (with the interrupt handler that runs there), before the test of the state
    of [p] or before the release of its lock; or it runs the thread of [p]. *)
Inductive hctx :=
  | Scan (p : Z) (handler : list frame)
  | Test (p : Z)
  | Unlock (p : Z)
  | Thread (p : Z).

#[export] Instance yield_pc_eq_dec : EqDecision yield_pc.
Proof. solve_decision. Defined.
#[export] Instance sleep_pc_eq_dec : EqDecision sleep_pc.
Proof. solve_decision. Defined.
#[export] Instance wakeup_pc_eq_dec : EqDecision wakeup_pc.
Proof. solve_decision. Defined.
#[export] Instance kill_pc_eq_dec : EqDecision kill_pc.
Proof. solve_decision. Defined.
#[export] Instance exit_pc_eq_dec : EqDecision exit_pc.
Proof. solve_decision. Defined.
#[export] Instance wait_pc_eq_dec : EqDecision wait_pc.
Proof. solve_decision. Defined.
#[export] Instance fork_pc_eq_dec : EqDecision fork_pc.
Proof. solve_decision. Defined.
#[export] Instance frame_eq_dec : EqDecision frame.
Proof. solve_decision. Defined.
#[export] Instance hctx_eq_dec : EqDecision hctx.
Proof. solve_decision. Defined.

(** [plk] is the hart that holds the lock of a process, [noffs] the [noff] of a hart
    and [scans] counts the scans that a hart has completed. *)
Record harts := Harts {
  tab : Z → entry;
  plk : Z → option Z;
  thr : Z → list frame;
  ctx : Z → hctx;
  noffs : Z → Z;
  scans : Z → Z;
  npid : Z
}.

(** A step, a lock that another hart holds, or a panic. *)
Inductive hresult :=
  | Next (w : harts)
  | Waits
  | Panics (msg : string).

Definition set_tab (t : Z → entry) (w : harts) : harts := Harts t (plk w) (thr w) (ctx w) (noffs w) (scans w) (npid w).
Definition set_thr (t : Z → list frame) (w : harts) : harts := Harts (tab w) (plk w) t (ctx w) (noffs w) (scans w) (npid w).
Definition set_ctx (h : Z) (c : hctx) (w : harts) : harts :=
  Harts (tab w) (plk w) (thr w) (fset (ctx w) h c) (noffs w) (scans w) (npid w).
Definition count_scan (h : Z) (w : harts) : harts :=
  Harts (tab w) (plk w) (thr w) (ctx w) (noffs w) (fset (scans w) h (scans w h + 1)) (npid w).
Definition count_pid (w : harts) : harts := Harts (tab w) (plk w) (thr w) (ctx w) (noffs w) (scans w) (npid w + 1).

Definition upd (q : Z) (f : entry → entry) (w : harts) : harts := set_tab (fset (tab w) q (f (tab w q))) w.
Definition to_state (v : procstate) (x : entry) : entry := Entry v (echan x) (epid x) (eparent x) (ekilled x) (exstate x).
Definition to_chan (v : chan) (x : entry) : entry := Entry (estate x) v (epid x) (eparent x) (ekilled x) (exstate x).
Definition to_pid (v : Z) (x : entry) : entry := Entry (estate x) (echan x) v (eparent x) (ekilled x) (exstate x).
Definition to_parent (v : Z) (x : entry) : entry := Entry (estate x) (echan x) (epid x) v (ekilled x) (exstate x).
Definition to_killed (x : entry) : entry := Entry (estate x) (echan x) (epid x) (eparent x) true (exstate x).
Definition to_xstate (v : Z) (x : entry) : entry := Entry (estate x) (echan x) (epid x) (eparent x) (ekilled x) v.

(** The stack of frames on which a hart works. *)
Definition put (h : Z) (k : list frame) (w : harts) : harts :=
  match ctx w h with
  | Thread p => set_thr (fset (thr w) p k) w
  | Scan p _ => set_ctx h (Scan p k) w
  | _ => w
  end.

(** ** Locks *)

(** [acquire] of the lock of process [q]; [noff] is counted by [push_off]. *)
Definition hacquire (h q : Z) (go : harts → harts) (w : harts) : hresult :=
  match plk w q with
  | None =>
      Next (go (Harts (tab w) (fset (plk w) q (Some h)) (thr w) (ctx w) (fset (noffs w) h (noffs w h + 1)) (scans w) (npid w)))
  | Some h' => if h' =? h then Panics "acquire" else Waits
  end.

(** [release], with [pop_off] *)
Definition hrelease (h q : Z) (go : harts → harts) (w : harts) : hresult :=
  if bool_decide (plk w q = Some h)
  then Next (go (Harts (tab w) (fset (plk w) q None) (thr w) (ctx w) (fset (noffs w) h (noffs w h - 1)) (scans w) (npid w)))
  else Panics "release".

(** ** The functions of proc.c

    [h] is the hart, [p] the process of the thread and [k] what is below the frame
    on its stack; [go f] puts the frame [f] in the place of the present one and
    [ret] returns. *)

Section functions.
Context (h p : Z) (k : list frame).

Definition go (f : frame) : harts → harts := put h (f :: k).
Definition ret : harts → harts := put h k.

(** The switch to the scheduler; the thread goes on at [back]. *)
Definition sched_at (back : frame) (w : harts) : hresult :=
  if bool_decide (plk w p ≠ Some h) then Panics "sched p->lock"
  else if negb (noffs w h =? 1) then Panics "sched locks"
  else if bool_decide (estate (tab w p) = RUNNING) then Panics "sched running"
  else Next (set_ctx h (Unlock p) (go back w)).

Definition yield_at (pc : yield_pc) (w : harts) : hresult :=
  match pc with
  | YAcquire => hacquire h p (go (InYield YState)) w
  | YState => Next (go (InYield YSched) (upd p (to_state RUNNABLE) w))
  | YSched => sched_at (InYield YRelease) w
  | YRelease => hrelease h p ret w
  end.

(** The other lock of [sleep] is not modelled. *)
Definition sleep_at (pc : sleep_pc) (ch : chan) (w : harts) : hresult :=
  match pc with
  | SAcquire => hacquire h p (go (InSleep SState ch)) w
  | SState => Next (go (InSleep SSched ch) (upd p (to_state SLEEPING) (upd p (to_chan ch) w)))
  | SSched => sched_at (InSleep SBack ch) w
  | SBack => Next (go (InSleep SRelease ch) (upd p (to_chan no_chan) w))
  | SRelease => hrelease h p ret w
  end.

Definition wakeup_at (pc : wakeup_pc) (ch : chan) (q : Z) (w : harts) : hresult :=
  match pc with
  | UAcquire => if q <? NPROC then hacquire h q (go (InWakeup UTest ch q)) w else Next (ret w)
  | UTest =>
      Next (go (InWakeup URelease ch q)
        (if bool_decide (estate (tab w q) = SLEEPING) && bool_decide (echan (tab w q) = ch)
         then upd q (to_state RUNNABLE) w else w))
  | URelease => hrelease h q (go (InWakeup UAcquire ch (q + 1))) w
  end.

Definition wakeup1_at (q : Z) (next : frame) (w : harts) : hresult :=
  if bool_decide (plk w q ≠ Some h) then Panics "wakeup1"
  else Next (go next
    (if bool_decide (echan (tab w q) = ("proc"%string, q)) && bool_decide (estate (tab w q) = SLEEPING)
     then upd q (to_state RUNNABLE) w else w)).

Definition kill_at (pc : kill_pc) (pid q : Z) (w : harts) : hresult :=
  match pc with
  | KAcquire => if q <? NPROC then hacquire h q (go (InKill KTest pid q)) w else Next (ret w)
  | KTest =>
      if epid (tab w q) =? pid then
        let w := upd q to_killed w in
        Next (go (InKill KFound pid q)
          (if bool_decide (estate (tab w q) = SLEEPING) then upd q (to_state RUNNABLE) w else w))
      else Next (go (InKill KNext pid q) w)
  | KNext => hrelease h q (go (InKill KAcquire pid (q + 1))) w
  | KFound => hrelease h q ret w
  end.

(** [initproc], the first entry of the table. *)
Definition initp : Z := 0.

(** [XStart] is the part that closes files and may sleep. *)
Definition exit_at (pc : exit_pc) (status : Z) (w : harts) : hresult :=
  let at_ pc := go (InExit pc status) in
  match pc with
  | XStart => if p =? initp then Panics "init exiting" else Next (at_ XInit w)
  | XInit => hacquire h initp (at_ XWakeInit) w
  | XWakeInit => wakeup1_at initp (InExit XInitRelease status) w
  | XInitRelease => hrelease h initp (at_ XSelf) w
  | XSelf => hacquire h p (at_ XParent) w
  | XParent => Next (at_ (XSelfRelease (eparent (tab w p))) w)
  | XSelfRelease op => hrelease h p (at_ (XLockParent op)) w
  | XLockParent op => hacquire h op (at_ (XLockSelf op)) w
  | XLockSelf op => hacquire h p (at_ (XReparent op 0)) w
  | XReparent op pp =>
      if pp <? NPROC
      then Next (at_ (if eparent (tab w pp) =? p then XReAcquire op pp else XReparent op (pp + 1)) w)
      else Next (at_ (XWakeParent op) w)
  | XReAcquire op pp => hacquire h pp (at_ (XReSet op pp)) w
  | XReSet op pp => Next (at_ (XReRelease op pp) (upd pp (to_parent initp) w))
  | XReRelease op pp => hrelease h pp (at_ (XReparent op (pp + 1))) w
  | XWakeParent op => wakeup1_at op (InExit (XZombie op) status) w
  | XZombie op => Next (at_ (XParentRelease op) (upd p (to_state ZOMBIE) (upd p (to_xstate status) w)))
  | XParentRelease op => hrelease h op (at_ XSched) w
  | XSched => sched_at (InExit XDead status) w
  | XDead => Panics "zombie exit"
  end.

(** What [freeproc] does to the entry. *)
Definition freeproc_at (x : entry) : entry := Entry UNUSED no_chan 0 NULL false 0.

(** [ok]: the exit status is copied out. *)
Definition wait_at (ok : bool) (pc : wait_pc) (w : harts) : hresult :=
  let at_ pc := go (InWait pc) in
  match pc with
  | WAcquire => hacquire h p (at_ (WScan 0 false)) w
  | WScan np havekids =>
      if np <? NPROC
      then Next (at_ (if eparent (tab w np) =? p then WChild np else WScan (np + 1) havekids) w)
      else Next (at_ (if negb havekids || ekilled (tab w p) then WRelease else WSleep) w)
  | WChild np => hacquire h np (at_ (WTest np)) w
  | WTest np =>
      if bool_decide (estate (tab w np) = ZOMBIE)
      then Next (at_ (WFound np) (if ok then upd np freeproc_at w else w))
      else Next (at_ (WNext np) w)
  | WNext np => hrelease h np (at_ (WScan (np + 1) true)) w
  | WFound np => hrelease h np (at_ WRelease) w
  | WRelease => hrelease h p ret w
  | WSleep => Next (at_ WSched (upd p (to_state SLEEPING) (upd p (to_chan ("proc"%string, p)) w)))
  | WSched => sched_at (InWait WBack) w
  | WBack => Next (at_ (WScan 0 false) (upd p (to_chan no_chan) w))
  end.

(** [fork] with [allocproc].  [alloc]: there is memory for all that the child needs
    ([Some true]), for the trapframe ([Some false]), or not even for that. *)
Definition fork_at (alloc : option bool) (pc : fork_pc) (w : harts) : hresult :=
  let at_ pc := go (InFork pc) in
  match pc with
  | FAcquire np => if np <? NPROC then hacquire h np (at_ (FTest np)) w else Next (ret w)
  | FTest np =>
      if bool_decide (estate (tab w np) = UNUSED)
      then Next (at_ (FFound np) (count_pid (upd np (to_pid (npid w)) w)))
      else Next (at_ (FNext np) w)
  | FNext np => hrelease h np (at_ (FAcquire (np + 1))) w
  | FFound np =>
      match alloc with
      | Some true => Next (at_ (FState np) (upd np (to_parent p) w))
      | Some false => Next (at_ (FRelease np) (upd np freeproc_at w))
      | None => Next (at_ (FRelease np) w)
      end
  | FState np =>
      let w := upd np (to_state RUNNABLE) w in
      Next (at_ (FRelease np) (set_thr (fset (thr w) np [InForkret]) w))
  | FRelease np => hrelease h np ret w
  end.

(** The next access of a frame. *)
Definition run_frame (alloc : option bool) (f : frame) (w : harts) : hresult :=
  match f with
  | InYield pc => yield_at pc w
  | InSleep pc ch => sleep_at pc ch w
  | InWakeup pc ch q => wakeup_at pc ch q w
  | InKill pc pid q => kill_at pc pid q w
  | InExit pc status => exit_at pc status w
  | InWait pc => wait_at (bool_decide (alloc = Some true)) pc w
  | InFork pc => fork_at alloc pc w
  | InForkret => hrelease h p ret w
  end.

End functions.

(** [scheduler].  Behind the last entry the scan is complete; [wfi] is a delay. *)
Definition scheduler_step (h : Z) (w : harts) : hresult :=
  match ctx w h with
  | Scan p [] =>
      if p <? NPROC then hacquire h p (set_ctx h (Test p)) w
      else Next (count_scan h (set_ctx h (Scan 0 []) w))
  | Test p =>
      if bool_decide (estate (tab w p) = RUNNABLE)
      then Next (set_ctx h (Thread p) (upd p (to_state RUNNING) w))
      else Next (set_ctx h (Unlock p) w)
  | Unlock p => hrelease h p (set_ctx h (Scan (p + 1) [])) w
  | _ => Waits
  end.

(** ** The machine *)

(** The process locks that a frame of process [p] holds. *)
Definition flocks (p : Z) (f : frame) : list Z :=
  match f with
  | InYield YAcquire | InSleep SAcquire _ | InWakeup UAcquire _ _ | InKill KAcquire _ _ | InWait WAcquire | InFork (FAcquire _) => []
  | InYield _ | InSleep _ _ | InForkret => [p]
  | InWakeup _ _ q | InKill _ _ q => [q]
  | InExit (XStart | XInit | XSelf | XLockParent _) _ => []
  | InExit (XWakeInit | XInitRelease) _ => [initp]
  | InExit (XParent | XSelfRelease _ | XSched | XDead) _ => [p]
  | InExit (XLockSelf op) _ => [op]
  | InExit (XReSet op pp | XReRelease op pp) _ => [pp; p; op]
  | InExit (XReparent op _ | XReAcquire op _ | XWakeParent op | XZombie op | XParentRelease op) _ => [p; op]
  | InWait (WTest np | WNext np | WFound np) => [np; p]
  | InWait _ => [p]
  | InFork (FTest np | FNext np | FFound np | FState np | FRelease np) => [np]
  end.

Definition quiet (f : frame) : bool := bool_decide (flocks 0 f = []).

(** Which functions a thread may enter where: an interrupt wakes sleepers or yields,
    [exit] may sleep while it closes files, and all others are entered from above. *)
Definition enters (k : list frame) (f : frame) : bool :=
  forallb quiet (take 1 k) &&
  match f with
  | InYield YAcquire => true
  | InWakeup UAcquire _ q => q =? 0
  | InSleep SAcquire _ => match k with [] | InExit XStart _ :: _ => true | _ => false end
  | InKill KAcquire _ q => match k with [] => q =? 0 | _ => false end
  | InExit XStart _ | InWait WAcquire => match k with [] => true | _ => false end
  | InFork (FAcquire np) => match k with [] => np =? 0 | _ => false end
  | _ => false
  end.

(** What happens next: the scheduler of hart [h] makes a step, its thread or its
    interrupt handler does, or it enters a function. *)
Inductive haction :=
  | Sched (h : Z)
  | Run (h : Z) (alloc : option bool)
  | Call (h : Z) (f : frame).

Definition hart (a : haction) : Z := match a with Sched h | Run h _ | Call h _ => h end.

Definition hstep (a : haction) (w : harts) : hresult :=
  match a with
  | Sched h => scheduler_step h w
  | Run h alloc =>
      match ctx w h with
      | Thread p => match thr w p with f :: k => run_frame h p k alloc f w | [] => Waits end
      | Scan _ (f :: k) => run_frame h NULL k alloc f w
      | _ => Waits
      end
  | Call h f =>
      match ctx w h with
      | Thread p => if enters (thr w p) f then Next (put h (f :: thr w p) w) else Waits
      | Scan _ [] => match f with InWakeup UAcquire _ 0 => Next (put h [f] w) | _ => Waits end
      | _ => Waits
      end
  end.

(** The process that a step of a scheduler switches to. *)
Definition dispatch (a : haction) (w : harts) : option Z :=
  match a with
  | Sched h => match ctx w h with Test p => if bool_decide (estate (tab w p) = RUNNABLE) then Some p else None | _ => None end
  | _ => None
  end.

(** A run, with the processes that it dispatches. *)
Fixpoint hrun (l : list haction) (w : harts) : option (harts * list Z) :=
  match l with
  | [] => Some (w, [])
  | a :: l =>
      match hstep a w with
      | Next w' => '(w2, d) ← hrun l w'; Some (w2, option_list (dispatch a w) ++ d)
      | _ => None
      end
  end.

(** After [userinit]: the first process may run, and all harts enter [scheduler]. *)
Definition hboot : harts :=
  Harts (fset (λ _, Entry UNUSED no_chan 0 NULL false 0) initp (Entry RUNNABLE no_chan 1 NULL false 0))
    (λ _, None) (fset (λ _, []) initp [InForkret]) (λ _, Scan 0 []) (λ _, 0) (λ _, 0) 2.

(** * Lemmas *)

(** ** The invariant *)

Definition stack_locks (p : Z) (k : list frame) : list Z := match k with f :: _ => flocks p f | [] => [] end.

(** The process locks that a hart holds. *)
Definition hlocks (w : harts) (h : Z) : list Z :=
  match ctx w h with
  | Thread p => stack_locks p (thr w p)
  | Scan _ fs => stack_locks NULL fs
  | Test p | Unlock p => [p]
  end.

(** The state of a process whose thread is running in a frame. *)
Definition expects (f : frame) : option procstate :=
  match f with
  | InYield YSched => Some RUNNABLE
  | InSleep SSched _ | InWait WSched => Some SLEEPING
  | InExit (XParentRelease _ | XSched) _ => Some ZOMBIE
  | InExit XDead _ => None
  | _ => Some RUNNING
  end.

(** The unused entry that [fork] has found. *)
Definition founds (f : frame) : option Z := match f with InFork (FFound q | FState q) => Some q | _ => None end.

Definition frame_ok (w : harts) (p : Z) (k : list frame) : Prop :=
  match k with
  | [] => estate (tab w p) = RUNNING
  | f :: _ => expects f = Some (estate (tab w p)) ∧ ∀ q, founds f = Some q → estate (tab w q) = UNUSED
  end.

(** Where a thread goes on when the scheduler switches to it. *)
Definition resumes (f : frame) : bool :=
  match f with InYield YRelease | InSleep SBack _ | InWait WBack | InForkret => true | _ => false end.

Definition parked (st : procstate) (k : list frame) : Prop :=
  match st with
  | UNUSED | ZOMBIE => True
  | RUNNING => False
  | SLEEPING | RUNNABLE => match k with f :: _ => resumes f = true | [] => False end
  end.

Definition handler (k : list frame) : Prop := k = [] ∨ ∃ pc ch q, k = [InWakeup pc ch q].

Record hinv (w : harts) : Prop := {
  hi_lock h q : plk w q = Some h ↔ q ∈ hlocks w h;
  hi_nodup h : NoDup (hlocks w h);
  hi_noff h : noffs w h = Z.of_nat (length (hlocks w h));
  hi_uniq h h' p : ctx w h = Thread p → ctx w h' = Thread p → h = h';
  hi_run h p : ctx w h = Thread p → frame_ok w p (thr w p);
  hi_park p : (∀ h, ctx w h ≠ Thread p) → parked (estate (tab w p)) (thr w p);
  hi_quiet p : Forall quiet (tail (thr w p));
  hi_scan h p fs : ctx w h = Scan p fs → handler fs
}.

(** What a step of a hart may do to the locks, and to a process that it does not run. *)
Inductive lockstep (h : Z) (L L' : list Z) (w w' : harts) : Prop :=
  | ls_same : L' = L → plk w' = plk w → noffs w' h = noffs w h → lockstep h L L' w w'
  | ls_acquire q :
      L' = q :: L → plk w q = None → plk w' = fset (plk w) q (Some h) → noffs w' h = noffs w h + 1 → lockstep h L L' w w'
  | ls_release q : L ≡ₚ q :: L' → plk w' = fset (plk w) q None → noffs w' h = noffs w h - 1 → lockstep h L L' w w'.

Definition tabstep (L : list Z) (w w' : harts) (q : Z) : Prop :=
  estate (tab w' q) = estate (tab w q) ∧ thr w' q = thr w q ∨
  q ∈ L ∧ (estate (tab w q) = SLEEPING ∧ estate (tab w' q) = RUNNABLE ∧ thr w' q = thr w q ∨
           estate (tab w q) = ZOMBIE ∧ estate (tab w' q) = UNUSED ∧ thr w' q = thr w q ∨
           estate (tab w q) = UNUSED ∧ estate (tab w' q) = RUNNABLE ∧ thr w' q = [InForkret]).

Record hmove (h : Z) (w w' : harts) : Prop := {
  mv_ctx h' : h' ≠ h → ctx w' h' = ctx w h';
  mv_noff h' : h' ≠ h → noffs w' h' = noffs w h';
  mv_lock : lockstep h (hlocks w h) (hlocks w' h) w w';
  mv_tab q : ctx w h = Thread q ∨ ctx w' h = Thread q ∨ tabstep (hlocks w h) w w' q;
  mv_in p : ctx w' h = Thread p →
    (ctx w h = Thread p ∨ ctx w h = Test p ∧ estate (tab w p) = RUNNABLE) ∧ frame_ok w' p (thr w' p);
  mv_out p : ctx w h = Thread p → ctx w' h = Thread p ∨ parked (estate (tab w' p)) (thr w' p);
  mv_quiet q : thr w' q = thr w q ∨ Forall quiet (tail (thr w' q));
  mv_scan p fs : ctx w' h = Scan p fs → handler fs
}.

Lemma thread_running w h h' p : hinv w → ctx w h' = Thread p → h' ≠ h → p ∈ hlocks w h → estate (tab w p) = RUNNING.
Proof.
  intros Hi Hc Hne Hp. pose proof (hi_run w Hi h' p Hc) as Hr. unfold frame_ok in Hr.
  destruct (thr w p) as [|f k] eqn:Et; [done|]. destruct Hr as [He _].
  assert (p ∉ flocks p f) as Hn.
  { intros Hf. apply (hi_lock w Hi) in Hp. assert (p ∈ hlocks w h') as Hp' by (unfold hlocks; by rewrite Hc, Et).
    apply (hi_lock w Hi) in Hp'. congruence. }
  destruct f as [[]|[]| | |[]|[]| |]; simpl in *; try congruence; set_solver.
Qed.

Lemma test_locks w h p : ctx w h = Test p → p ∈ hlocks w h.
Proof. intros Hc. unfold hlocks. rewrite Hc. set_solver. Qed.

Section move.
Context (h : Z) (w w' : harts) (Hi : hinv w) (Hm : hmove h w w').

Lemma move_others h' p : h' ≠ h → ctx w h' = Thread p → estate (tab w' p) = estate (tab w p) ∧ thr w' p = thr w p.
Proof.
  intros Hne Hc. pose proof (thread_running w h h' p Hi Hc Hne) as Hrun.
  destruct (mv_tab _ _ _ Hm p) as [E|[E|[?|[Hl Ht]]]].
  - by destruct Hne; eapply (hi_uniq w Hi).
  - destruct (mv_in _ _ _ Hm p E) as [[E'|[Hl Hr]] _]; [by destruct Hne; eapply (hi_uniq w Hi)|].
    specialize (Hrun (test_locks w h p Hl)). congruence.
  - done.
  - specialize (Hrun Hl). destruct Ht as [[? _]|[[? _]|[? _]]]; congruence.
Qed.

Lemma move_locks h' : h' ≠ h → hlocks w' h' = hlocks w h'.
Proof.
  intros Hne. unfold hlocks. rewrite (mv_ctx _ _ _ Hm h' Hne). destruct (ctx w h') as [| | |p] eqn:Ec; try done.
  destruct (move_others h' p Hne Ec) as [_ Et]. by rewrite Et.
Qed.

Lemma move_found q h' : h' ≠ h → q ∈ hlocks w h' → estate (tab w q) = UNUSED → estate (tab w' q) = UNUSED.
Proof.
  intros Hne Hq Hu. assert (ctx w h ≠ Thread q) as Hno.
  { intros Hc. pose proof (hi_run w Hi h q Hc) as Hr. unfold frame_ok in Hr. destruct (thr w q) as [|f k]; [congruence|].
    destruct Hr as [Hr _]. rewrite Hu in Hr. by destruct f as [[]|[]| | |[]|[]| |]. }
  destruct (mv_tab _ _ _ Hm q) as [E|[E|[[? _]|[Hl Ht]]]]; [done| |congruence|].
  - destruct (mv_in _ _ _ Hm q E) as [[?|[_ ?]] _]; congruence.
  - apply (hi_lock w Hi) in Hl, Hq. congruence.
Qed.

Lemma founds_locks p f q : founds f = Some q → flocks p f = [q].
Proof. destruct f as [| | | | | |[]|]; simpl; congruence. Qed.

Lemma move_run h' p : ctx w' h' = Thread p → frame_ok w' p (thr w' p).
Proof.
  intros Hc. destruct (decide (h' = h)) as [->|Hne]; [by apply (mv_in _ _ _ Hm)|].
  rewrite (mv_ctx _ _ _ Hm h' Hne) in Hc. destruct (move_others h' p Hne Hc) as [Es Et]. pose proof (hi_run w Hi h' p Hc) as Hr.
  rewrite Et. unfold frame_ok in *. rewrite Es. destruct (thr w p) as [|f k] eqn:Ef; [done|]. destruct Hr as [Hr Hf].
  split; [done|]. intros q Eq. apply (move_found q h' Hne); [|by apply Hf]. unfold hlocks. rewrite Hc, Ef. simpl.
  rewrite (founds_locks p f q Eq). set_solver.
Qed.

Lemma move_uniq h1 h2 p : ctx w' h1 = Thread p → ctx w' h2 = Thread p → h1 = h2.
Proof.
  assert (∀ h2, h2 ≠ h → ctx w' h = Thread p → ctx w' h2 = Thread p → False) as Hone.
  { intros h3 Hne Hc Hc3. rewrite (mv_ctx _ _ _ Hm h3 Hne) in Hc3. destruct (mv_in _ _ _ Hm p Hc) as [[E|[Hl Hr]] _].
    - by destruct Hne; eapply (hi_uniq w Hi).
    - pose proof (thread_running w h h3 p Hi Hc3 Hne (test_locks w h p Hl)). congruence. }
  intros H1 H2. destruct (decide (h1 = h)) as [->|], (decide (h2 = h)) as [->|]; [done|exfalso; by eapply Hone|exfalso; by eapply Hone|].
  rewrite (mv_ctx _ _ _ Hm) in H1, H2 by done. by eapply (hi_uniq w Hi).
Qed.

Lemma move_park p : (∀ h', ctx w' h' ≠ Thread p) → parked (estate (tab w' p)) (thr w' p).
Proof.
  intros Hn. destruct (decide (ctx w h = Thread p)) as [E|E].
  { destruct (mv_out _ _ _ Hm p E) as [E'|]; [by destruct (Hn h)|done]. }
  assert (parked (estate (tab w p)) (thr w p)) as Hp.
  { apply (hi_park w Hi). intros h'. destruct (decide (h' = h)) as [->|Hne]; [done|]. rewrite <-(mv_ctx _ _ _ Hm h' Hne). apply Hn. }
  destruct (mv_tab _ _ _ Hm p) as [|[E'|[[-> ->]|[_ Ht]]]]; [done|by destruct (Hn h)|done|].
  destruct Ht as [(E1 & -> & ->)|[(E1 & -> & ->)|(E1 & -> & ->)]]; rewrite E1 in Hp; done.
Qed.

Lemma move_lock_h :
  (∀ h' q, plk w' q = Some h' ↔ q ∈ hlocks w' h') ∧ NoDup (hlocks w' h) ∧ noffs w' h = Z.of_nat (length (hlocks w' h)).
Proof.
  pose proof (hi_nodup w Hi h) as Hnd. pose proof (hi_noff w Hi h) as Hno.
  assert (∀ q, (plk w' q = Some h ↔ q ∈ hlocks w' h) → (∀ h', h' ≠ h → plk w' q = Some h' ↔ plk w q = Some h') →
    ∀ h', plk w' q = Some h' ↔ q ∈ hlocks w' h') as Hgen.
  { intros q Hq Ho h'. destruct (decide (h' = h)) as [->|Hne]; [done|]. rewrite Ho, move_locks by done. apply (hi_lock w Hi). }
  destruct (mv_lock _ _ _ Hm) as [E Ep En|r E Hr Ep En|r E Ep En].
  - rewrite E, En. split; [|done]. intros h' q. apply Hgen; rewrite Ep; [|done]. rewrite E. apply (hi_lock w Hi).
  - assert (r ∉ hlocks w h) as Hnr by (rewrite <-(hi_lock w Hi); congruence). rewrite E, En, Hno. split_and!; [|by constructor|simpl; lia].
    intros h' q. apply Hgen; rewrite Ep; unfold fset; destruct (Z.eqb_spec q r) as [->|]; try (rewrite E); [set_solver| |split; congruence|done].
    rewrite elem_of_cons, <-(hi_lock w Hi). naive_solver.
  - pose proof Hnd as Hnd'. rewrite E in Hnd'. apply NoDup_cons in Hnd' as [Hnr Hnd']. rewrite E in Hno. split_and!; [|done|simpl in Hno; lia].
    assert (plk w r = Some h) as Hr by (apply (hi_lock w Hi); rewrite E; set_solver).
    intros h' q. apply Hgen; rewrite Ep; unfold fset; destruct (Z.eqb_spec q r) as [->|]; [naive_solver| |split; congruence|done].
    rewrite (hi_lock w Hi), E, elem_of_cons. naive_solver.
Qed.

Lemma hmove_inv : hinv w'.
Proof.
  destruct move_lock_h as (Hl & Hnd & Hno). split.
  - exact Hl.
  - intros h'. destruct (decide (h' = h)) as [->|Hne]; [done|]. rewrite move_locks by done. apply (hi_nodup w Hi).
  - intros h'. destruct (decide (h' = h)) as [->|Hne]; [done|]. rewrite move_locks by done. rewrite (mv_noff _ _ _ Hm) by done. apply (hi_noff w Hi).
  - exact move_uniq.
  - exact move_run.
  - exact move_park.
  - intros p. destruct (mv_quiet _ _ _ Hm p) as [->|]; [apply (hi_quiet w Hi)|done].
  - intros h' p fs Hc. destruct (decide (h' = h)) as [->|Hne]; [by eapply (mv_scan _ _ _ Hm)|].
    rewrite (mv_ctx _ _ _ Hm h' Hne) in Hc. by eapply (hi_scan w Hi).
Qed.
End move.

(** ** Steps of threads *)

Definition locked (h q : Z) (w : harts) : harts :=
  Harts (tab w) (fset (plk w) q (Some h)) (thr w) (ctx w) (fset (noffs w) h (noffs w h + 1)) (scans w) (npid w).
Definition unlocked (h q : Z) (w : harts) : harts :=
  Harts (tab w) (fset (plk w) q None) (thr w) (ctx w) (fset (noffs w) h (noffs w h - 1)) (scans w) (npid w).

Lemma acquire_Next h q g w w' : hacquire h q g w = Next w' → plk w q = None ∧ w' = g (locked h q w).
Proof. unfold hacquire. destruct (plk w q) as [h'|]; [by destruct (h' =? h)|]. by intros [= <-]. Qed.

Lemma release_Next h q g w w' : hrelease h q g w = Next w' → w' = g (unlocked h q w).
Proof. unfold hrelease. case_bool_decide; [|done]. by intros [= <-]. Qed.

Lemma quiet_expects p f : quiet f = true → flocks p f = [] ∧ expects f = Some RUNNING ∧ founds f = None.
Proof. unfold quiet. rewrite bool_decide_eq_true. destruct f as [[]|[]|[]|[]|[]|[]|[]|]; simpl; done. Qed.

Lemma quiet_stack w p k : Forall quiet k → estate (tab w p) = RUNNING → frame_ok w p k ∧ stack_locks p k = [] ∧ Forall quiet (tail k).
Proof.
  intros Hq He. destruct k as [|f k]; [by split_and!|]. apply Forall_cons in Hq as [Hf Hk].
  destruct (quiet_expects p f) as (E1 & E2 & E3); [by apply Is_true_true|]. split_and!; [|done|done]. split; [congruence|]. intros q. congruence.
Qed.

Section thread.
Context (w : harts) (h p : Z) (f : frame) (k : list frame).
Context (Hi : hinv w) (Hc : ctx w h = Thread p) (Et : thr w p = f :: k).

Lemma thread_locks : hlocks w h = flocks p f.
Proof. unfold hlocks. by rewrite Hc, Et. Qed.

Lemma thread_quiet : Forall quiet k.
Proof. pose proof (hi_quiet w Hi p) as Hq. by rewrite Et in Hq. Qed.

Lemma thread_expects : expects f = Some (estate (tab w p)).
Proof. pose proof (hi_run w Hi h p Hc) as Hr. rewrite Et in Hr. by destruct Hr. Qed.

Lemma thread_holds q : q ∈ flocks p f → plk w q = Some h.
Proof. intros Hq. apply (hi_lock w Hi). by rewrite thread_locks. Qed.

Lemma thread_stays w1 k' :
  ctx w1 = ctx w → (∀ h', h' ≠ h → noffs w1 h' = noffs w h') →
  lockstep h (flocks p f) (stack_locks p k') w w1 →
  (∀ q, q ≠ p → tabstep (flocks p f) w w1 q) →
  frame_ok w1 p k' → Forall quiet (tail k') → hmove h w (put h k' w1).
Proof.
  intros Ec En Hl Ht Hf Hq. unfold put. rewrite Ec, Hc. split; simpl.
  - by rewrite Ec.
  - done.
  - rewrite thread_locks. unfold hlocks. simpl. rewrite Ec, Hc, fset_eq.
    destruct Hl as [? ? ?|q ? ? ? ?|q ? ? ?]; [by apply ls_same|by apply (ls_acquire _ _ _ _ _ q)|by apply (ls_release _ _ _ _ _ q)].
  - intros q. destruct (decide (q = p)) as [->|Hne]; [by left|]. right. right. rewrite thread_locks.
    unfold tabstep. simpl. rewrite fset_ne by done. by apply Ht.
  - intros p' Hp'. rewrite Ec, Hc in Hp'. injection Hp' as <-. split; [by left|]. by rewrite fset_eq.
  - intros p' Hp'. left. by rewrite Ec.
  - intros q. unfold fset. destruct (Z.eqb_spec q p) as [->|Hne]; [by right|].
    destruct (Ht q Hne) as [[_ ->]|[_ [(_ & _ & ->)|[(_ & _ & ->)|(_ & _ & ->)]]]]; [by left|by left|by left|right; by constructor].
  - intros p' fs Hp'. rewrite Ec, Hc in Hp'. done.
Qed.

(** It takes or gives back a lock. *)
Lemma thread_acquires q f' :
  plk w q = None → flocks p f' = q :: flocks p f → expects f = Some RUNNING → expects f' = Some RUNNING → founds f' = None →
  hmove h w (go h k f' (locked h q w)).
Proof.
  intros Hq El Ef Ef' Efo. pose proof thread_expects as He. apply thread_stays.
  - done.
  - intros h' Hne. simpl. by rewrite fset_ne.
  - apply (ls_acquire _ _ _ _ _ q); [done|done|done|]. simpl. by rewrite fset_eq.
  - intros r _. left. done.
  - split; simpl; [congruence|]. intros r. congruence.
  - apply thread_quiet.
Qed.

Lemma thread_releases q f' :
  flocks p f ≡ₚ q :: flocks p f' → expects f' = expects f → founds f' = None → hmove h w (go h k f' (unlocked h q w)).
Proof.
  intros El Ef Efo. pose proof thread_expects as He. apply thread_stays.
  - done.
  - intros h' Hne. simpl. by rewrite fset_ne.
  - apply (ls_release _ _ _ _ _ q); [done|done|]. simpl. by rewrite fset_eq.
  - intros r _. left. done.
  - split; simpl; [congruence|]. intros r. congruence.
  - apply thread_quiet.
Qed.

Lemma thread_releases_ret q : flocks p f = [q] → expects f = Some RUNNING → hmove h w (ret h k (unlocked h q w)).
Proof.
  intros El Ef. pose proof thread_expects as He. destruct (quiet_stack (unlocked h q w) p k thread_quiet) as (H1 & H2 & H3); [simpl; congruence|].
  apply thread_stays; [done| | | |done|done].
  - intros h' Hne. simpl. by rewrite fset_ne.
  - apply (ls_release _ _ _ _ _ q); [by rewrite El, H2|done|]. simpl. by rewrite fset_eq.
  - intros r _. left. done.
Qed.

Lemma thread_returns : flocks p f = [] → expects f = Some RUNNING → hmove h w (ret h k w).
Proof.
  intros El Ef. pose proof thread_expects as He. destruct (quiet_stack w p k thread_quiet) as (H1 & H2 & H3); [congruence|].
  apply thread_stays; [done|done| | |done|done].
  - apply ls_same; [by rewrite El|done|done].
  - intros r _. left. done.
Qed.

(** It changes an entry. *)
Lemma thread_goes w1 f' :
  ctx w1 = ctx w → noffs w1 = noffs w → plk w1 = plk w → flocks p f' = flocks p f →
  (∀ q, q ≠ p → tabstep (flocks p f) w w1 q) →
  expects f' = Some (estate (tab w1 p)) → (∀ q, founds f' = Some q → estate (tab w1 q) = UNUSED) →
  hmove h w (go h k f' w1).
Proof.
  intros Ec En Ep El Ht He Hfo. apply thread_stays; [done|by rewrite En| |done|done|apply thread_quiet].
  apply ls_same; [done|done|by rewrite En].
Qed.

Lemma thread_sched back w' :
  sched_at h p k back w = Next w' → parked (estate (tab w p)) (back :: k) → flocks p f = [p] → hmove h w w'.
Proof.
  unfold sched_at. case_bool_decide as Hl; [done|]. destruct (_ =? 1); [|done]. case_bool_decide; [done|]. intros [= <-] Hpark El.
  unfold go, put. rewrite Hc. split; simpl.
  - intros h' Hne. by rewrite fset_ne.
  - done.
  - unfold hlocks. simpl. rewrite fset_eq, Hc, Et. simpl. by apply ls_same.
  - intros q. destruct (decide (q = p)) as [->|Hne]; [by left|]. right. right. left. simpl. by rewrite fset_ne.
  - intros p'. by rewrite fset_eq.
  - intros p' Hp'. rewrite Hc in Hp'. injection Hp' as <-. right. by rewrite fset_eq.
  - intros q. unfold fset. destruct (Z.eqb_spec q p) as [->|Hne]; [right; apply thread_quiet|by left].
  - intros p' fs. by rewrite fset_eq.
Qed.

Lemma sched_no_panic back msg : sched_at h p k back w ≠ Panics msg ∨ ¬ (flocks p f = [p] ∧ estate (tab w p) ≠ RUNNING).
Proof.
  unfold sched_at. case_bool_decide as Hl; [right; intros [El _]; destruct Hl; apply thread_holds; rewrite El; set_solver|].
  destruct (Z.eqb_spec (noffs w h) 1) as [|Hn]; [|right; intros [El _]; destruct Hn; by rewrite (hi_noff w Hi), thread_locks, El].
  case_bool_decide; [right; naive_solver|by left].
Qed.
End thread.

Lemma tabstep_refl L w r : tabstep L w w r.
Proof. by left. Qed.

Lemma tabstep_upd L q g w r :
  estate (g (tab w q)) = estate (tab w q) ∨
  q ∈ L ∧ (estate (tab w q) = SLEEPING ∧ estate (g (tab w q)) = RUNNABLE ∨ estate (tab w q) = ZOMBIE ∧ estate (g (tab w q)) = UNUSED) →
  tabstep L w (upd q g w) r.
Proof.
  intros H. unfold tabstep, upd. simpl. unfold fset. destruct (Z.eqb_spec r q) as [->|]; [|by left].
  destruct H as [H|[Hq H]]; [by left|]. right. naive_solver.
Qed.

Lemma tabstep_own L p g w r : r ≠ p → tabstep L w (upd p g w) r.
Proof. intros Hr. left. unfold upd. simpl. by rewrite fset_ne. Qed.

Lemma tabstep_own2 L p g g' w r : r ≠ p → tabstep L w (upd p g (upd p g' w)) r.
Proof. intros Hr. left. unfold upd. simpl. by rewrite !fset_ne. Qed.

Lemma upd_eq q g w : tab (upd q g w) q = g (tab w q).
Proof. unfold upd. simpl. by rewrite fset_eq. Qed.

Lemma upd_ne q g w r : r ≠ q → tab (upd q g w) r = tab w r.
Proof. intros Hr. unfold upd. simpl. by rewrite fset_ne. Qed.

(** A sleeping process that is woken is not the one that runs. *)
Lemma wake_step L q b w p :
  q ∈ L → estate (tab w p) = RUNNING →
  let w1 := if b && bool_decide (estate (tab w q) = SLEEPING) then upd q (to_state RUNNABLE) w else w in
  (∀ r, tabstep L w w1 r) ∧ estate (tab w1 p) = RUNNING ∧ ctx w1 = ctx w ∧ noffs w1 = noffs w ∧ plk w1 = plk w.
Proof.
  intros Hq Hp. destruct b; simpl; [|by split_and!; [intros; apply tabstep_refl|..]].
  case_bool_decide as Es; [|by split_and!; [intros; apply tabstep_refl|..]]. split_and!; [|unfold upd; simpl|done..].
  - intros r. apply tabstep_upd. right. split; [done|]. by left.
  - unfold fset. destruct (Z.eqb_spec p q) as [->|]; [congruence|done].
Qed.

Section frames.
Context (w w' : harts) (h p : Z) (f : frame) (k : list frame).
Context (Hi : hinv w) (Hc : ctx w h = Thread p) (Et : thr w p = f :: k).

Lemma yield_moves pc : f = InYield pc → yield_at h p k pc w = Next w' → hmove h w w'.
Proof.
  intros Ef E. pose proof (thread_expects w h p f k Hi Hc Et) as He. rewrite Ef in He, Et. destruct pc; simpl in E, He.
  - apply acquire_Next in E as [Hq ->]. by eapply thread_acquires.
  - injection E as <-. eapply thread_goes; try done; [intros q Hq; by apply tabstep_own|by rewrite upd_eq].
  - eapply thread_sched; [done..| |done]. by injection He as <-.
  - apply release_Next in E as ->. by eapply thread_releases_ret.
Qed.

Lemma sleep_moves pc ch : f = InSleep pc ch → sleep_at h p k pc ch w = Next w' → hmove h w w'.
Proof.
  intros Ef E. pose proof (thread_expects w h p f k Hi Hc Et) as He. rewrite Ef in He, Et. destruct pc; simpl in E, He.
  - apply acquire_Next in E as [Hq ->]. by eapply thread_acquires.
  - injection E as <-. eapply thread_goes; try done; [intros q Hq; by apply tabstep_own2|by rewrite upd_eq].
  - eapply thread_sched; [done..| |done]. by injection He as <-.
  - injection E as <-. eapply thread_goes; try done; [intros q Hq; by apply tabstep_own|by rewrite upd_eq].
  - apply release_Next in E as ->. by eapply thread_releases_ret.
Qed.

Lemma wakeup_moves pc ch q : f = InWakeup pc ch q → wakeup_at h k pc ch q w = Next w' → hmove h w w'.
Proof.
  intros Ef E. pose proof (thread_expects w h p f k Hi Hc Et) as He. rewrite Ef in He, Et. destruct pc; simpl in E, He.
  - destruct (q <? NPROC).
    + apply acquire_Next in E as [Hq ->]. by eapply thread_acquires.
    + injection E as <-. by eapply thread_returns.
  - injection E as <-. rewrite andb_comm.
    destruct (wake_step [q] q (bool_decide (echan (tab w q) = ch)) w p) as (H1 & H2 & H3 & H4 & H5); [set_solver|congruence|].
    eapply thread_goes; try done; by rewrite H2.
  - apply release_Next in E as ->. by eapply thread_releases.
Qed.

Lemma wakeup1_moves q next :
  q ∈ flocks p f → flocks p next = flocks p f → expects f = Some RUNNING → expects next = Some RUNNING → founds next = None →
  wakeup1_at h k q next w = Next w' → hmove h w w'.
Proof.
  intros Hq El Ef En Efo E. pose proof (thread_expects w h p f k Hi Hc Et) as He. unfold wakeup1_at in E. case_bool_decide; [done|]. injection E as <-.
  destruct (wake_step (flocks p f) q (bool_decide (echan (tab w q) = ("proc"%string, q))) w p) as (H1 & H2 & H3 & H4 & H5); [done|congruence|].
  eapply thread_goes; try done; intros; congruence.
Qed.

Lemma kill_moves pc pid q : f = InKill pc pid q → kill_at h k pc pid q w = Next w' → hmove h w w'.
Proof.
  intros Ef E. pose proof (thread_expects w h p f k Hi Hc Et) as He. rewrite Ef in He, Et. destruct pc; simpl in E, He.
  - destruct (q <? NPROC).
    + apply acquire_Next in E as [Hq ->]. by eapply thread_acquires.
    + injection E as <-. by eapply thread_returns.
  - destruct (_ =? _); injection E as <-; [|by eapply thread_goes; try done; intros; apply tabstep_refl].
    set (w1 := upd q to_killed w). destruct (wake_step [q] q true w1 p) as (H1 & H2 & H3 & H4 & H5); [set_solver| |].
    { unfold w1, upd. simpl. unfold fset. destruct (Z.eqb_spec p q) as [->|]; simpl; congruence. }
    simpl in *. eapply thread_goes; try done; [|by rewrite H2]. intros r Hr. specialize (H1 r).
    assert (estate (tab w1 r) = estate (tab w r)) as E1 by (unfold w1, upd; simpl; unfold fset; by destruct (Z.eqb_spec r q) as [->|]).
    unfold tabstep in *. by rewrite E1 in H1.
  - apply release_Next in E as ->. by eapply thread_releases.
  - apply release_Next in E as ->. by eapply thread_releases_ret.
Qed.

Lemma exit_moves pc status : f = InExit pc status → exit_at h p k pc status w = Next w' → hmove h w w'.
Proof.
  intros Ef E. pose proof (thread_expects w h p f k Hi Hc Et) as He. 
  pose proof wakeup1_moves as Hw1. rewrite Ef in He, Et, Hw1. destruct pc; simpl in E, He.
  all: try (apply acquire_Next in E as [Hq ->]; by eapply thread_acquires).
  all: try (apply release_Next in E as ->; by eapply thread_releases).
  - destruct (_ =? _); [done|]. injection E as <-. eapply thread_goes; try done; intros; apply tabstep_refl.
  - eapply Hw1; [| | | | |exact E]; try done; simpl; set_solver.
  - injection E as <-. eapply thread_goes; try done; intros; apply tabstep_refl.
  - destruct (_ <? _); [|injection E as <-; eapply thread_goes; try done; intros; apply tabstep_refl].
    injection E as <-. destruct (_ =? _); eapply thread_goes; try done; intros; apply tabstep_refl.
  - injection E as <-. eapply thread_goes; try done; [|unfold upd; simpl; unfold fset; destruct (Z.eqb_spec p pp) as [->|]; done].
    intros r Hr. apply tabstep_upd. by left.
  - eapply Hw1; [| | | | |exact E]; try done; simpl; set_solver.
  - injection E as <-. eapply thread_goes; try done; [intros q Hq; by apply tabstep_own2|by rewrite upd_eq].
  - apply release_Next in E as ->. eapply thread_releases; [done..| |done|done]. simpl. apply Permutation_swap.
  - eapply thread_sched; [done..| |done]. by injection He as <-.
  - done.
Qed.

Lemma wait_moves ok pc : f = InWait pc → wait_at h p k ok pc w = Next w' → hmove h w w'.
Proof.
  intros Ef E. pose proof (thread_expects w h p f k Hi Hc Et) as He. rewrite Ef in He, Et. destruct pc; simpl in E, He.
  all: try (apply acquire_Next in E as [Hq ->]; by eapply thread_acquires).
  all: try (apply release_Next in E as ->; by eapply thread_releases).
  - destruct (_ <? _); injection E as <-; [destruct (_ =? _)|destruct (_ || _)]; eapply thread_goes; try done; intros; apply tabstep_refl.
  - case_bool_decide as Ez; injection E as <-; [|by eapply thread_goes; try done; intros; apply tabstep_refl].
    destruct ok; [|by eapply thread_goes; try done; intros; apply tabstep_refl].
    eapply thread_goes; try done.
    + intros r Hr. apply tabstep_upd. right. split; [set_solver|]. by right.
    + rewrite upd_ne; [done|]. intros ->. congruence.
  - apply release_Next in E as ->. by eapply thread_releases_ret.
  - injection E as <-. eapply thread_goes; try done; [intros q Hq; by apply tabstep_own2|by rewrite upd_eq].
  - eapply thread_sched; [done..| |done]. by injection He as <-.
  - injection E as <-. eapply thread_goes; try done; [intros q Hq; by apply tabstep_own|by rewrite upd_eq].
Qed.

Lemma fork_moves alloc pc : f = InFork pc → fork_at h p k alloc pc w = Next w' → hmove h w w'.
Proof.
  intros Ef E. pose proof (thread_expects w h p f k Hi Hc Et) as He.
  assert (∀ q, founds f = Some q → estate (tab w q) = UNUSED) as Hfo.
  { pose proof (hi_run w Hi h p Hc) as Hr. rewrite Et in Hr. by destruct Hr. }
  rewrite Ef in He, Et, Hfo. destruct pc as [np|np|np|np|np|np]; simpl in E, He, Hfo.
  - destruct (np <? NPROC).
    + apply acquire_Next in E as [Hq ->]. by eapply thread_acquires.
    + injection E as <-. by eapply thread_returns.
  - case_bool_decide as Eu; injection E as <-; [|by eapply thread_goes; try done; intros; apply tabstep_refl].
    assert (np ≠ p) as Hne by (intros ->; congruence).
    eapply thread_goes; try done; [intros r Hr; apply (tabstep_upd _ np (to_pid (npid w))); by left|simpl; by rewrite fset_ne|].
    intros q [= <-]. simpl. by rewrite fset_eq.
  - apply release_Next in E as ->. by eapply thread_releases.
  - specialize (Hfo np eq_refl). assert (np ≠ p) as Hne by (intros ->; congruence).
    destruct alloc as [[]|]; injection E as <-; eapply thread_goes; try done; try (intros; apply tabstep_refl); try (by rewrite upd_ne).
    + intros r Hr. apply tabstep_upd. by left.
    + intros q [= <-]. by rewrite upd_eq.
    + intros r Hr. apply tabstep_upd. left. by rewrite Hfo.
  - specialize (Hfo np eq_refl). assert (np ≠ p) as Hne by (intros ->; congruence). injection E as <-.
    eapply thread_goes; try done; [|simpl; by rewrite fset_ne].
    intros r Hr. unfold tabstep. simpl. unfold fset. destruct (Z.eqb_spec r np) as [->|]; [|by left].
    right. split; [set_solver|]. right. right. done.
  - apply release_Next in E as ->. by eapply thread_releases_ret.
Qed.

End frames.

Lemma run_frame_moves w w' h p f k alloc :
  hinv w → ctx w h = Thread p → thr w p = f :: k → run_frame h p k alloc f w = Next w' → hmove h w w'.
Proof.
  intros Hi Hc Et E. destruct f; simpl in E.
  - by eapply yield_moves.
  - by eapply sleep_moves.
  - by eapply wakeup_moves.
  - by eapply kill_moves.
  - by eapply exit_moves.
  - by eapply wait_moves.
  - by eapply fork_moves.
  - apply release_Next in E as ->. by eapply thread_releases_ret.
Qed.

(** ** Steps of the scheduler and of its interrupt handler *)

Lemma sched_moves w h w1 c' :
  (∀ q, ctx w h ≠ Thread q) → (∀ q, c' ≠ Thread q) → (∀ p fs, c' = Scan p fs → handler fs) →
  ctx w1 = ctx w → thr w1 = thr w → (∀ h', h' ≠ h → noffs w1 h' = noffs w h') →
  lockstep h (hlocks w h) (hlocks (set_ctx h c' w1) h) w w1 → (∀ q, tabstep (hlocks w h) w w1 q) →
  hmove h w (set_ctx h c' w1).
Proof.
  intros Hc Hc' Hh Ec Et En Hl Ht. split; simpl.
  - intros h' Hne. by rewrite fset_ne, Ec.
  - done.
  - destruct Hl as [? ? ?|q ? ? ? ?|q ? ? ?]; [by apply ls_same|by apply (ls_acquire _ _ _ _ _ q)|by apply (ls_release _ _ _ _ _ q)].
  - intros q. right. right. apply Ht.
  - intros p. rewrite fset_eq. intros E. by destruct (Hc' p).
  - intros p E. by destruct (Hc p).
  - intros q. left. by rewrite Et.
  - intros p fs. rewrite fset_eq. apply Hh.
Qed.

Lemma handler_moves w w' h p pc ch q alloc :
  ctx w h = Scan p [InWakeup pc ch q] → run_frame h NULL [] alloc (InWakeup pc ch q) w = Next w' → hmove h w w'.
Proof.
  intros Hc E.
  assert (∀ w1 k', handler k' → ctx w1 = ctx w → thr w1 = thr w → (∀ h', h' ≠ h → noffs w1 h' = noffs w h') →
    lockstep h (flocks NULL (InWakeup pc ch q)) (stack_locks NULL k') w w1 → (∀ r, tabstep (flocks NULL (InWakeup pc ch q)) w w1 r) →
    hmove h w (put h k' w1)) as Hm.
  { intros w1 k' Hh Ec Et En Hl Ht. unfold put. rewrite Ec, Hc.
    apply sched_moves; [by rewrite Hc|done|by intros p' fs [= _ <-]|done|done|done|..]; unfold hlocks; simpl; rewrite Hc; [by rewrite fset_eq|done]. }
  destruct pc; simpl in E.
  - destruct (q <? NPROC).
    + apply acquire_Next in E as [Hq ->]. apply Hm; [right; by eexists _, _, _|done|done| | |intros; by left].
      * intros h' Hne. simpl. by rewrite fset_ne.
      * apply (ls_acquire _ _ _ _ _ q); try done. simpl. by rewrite fset_eq.
    + injection E as <-. apply Hm; [by left|done|done|done|by apply ls_same|intros; by left].
  - injection E as <-. destruct (_ && _) eqn:Eb; apply Hm; try (right; by eexists _, _, _); try done; try (by apply ls_same); intros; [|apply tabstep_refl].
    apply andb_true_iff in Eb as [Es%bool_decide_eq_true _]. apply tabstep_upd. right. split; [set_solver|by left].
  - apply release_Next in E as ->. apply Hm; [right; by eexists _, _, _|done|done| | |intros; by left].
    + intros h' Hne. simpl. by rewrite fset_ne.
    + apply (ls_release _ _ _ _ _ q); try done. simpl. by rewrite fset_eq.
Qed.

Lemma dispatch_moves w h p :
  hinv w → ctx w h = Test p → estate (tab w p) = RUNNABLE → hmove h w (set_ctx h (Thread p) (upd p (to_state RUNNING) w)).
Proof.
  intros Hi Hc Er. assert (hlocks w h = [p]) as El by (unfold hlocks; by rewrite Hc).
  assert (parked (estate (tab w p)) (thr w p)) as Hp.
  { apply (hi_park w Hi). intros h' Hc'. assert (h' ≠ h) as Hne by (intros ->; congruence).
    pose proof (thread_running w h h' p Hi Hc' Hne (test_locks w h p Hc)). congruence. }
  rewrite Er in Hp. simpl in Hp. destruct (thr w p) as [|f k] eqn:Et; [done|]. split; simpl.
  - intros h' Hne. by rewrite fset_ne.
  - done.
  - apply ls_same; [|done|done]. rewrite El. unfold hlocks. simpl. rewrite fset_eq, Et. by destruct f as [[]|[]| | | |[]| |].
  - intros q. destruct (decide (q = p)) as [->|Hne]; [right; left; by rewrite fset_eq|]. right. right. by apply tabstep_own.
  - intros q. rewrite fset_eq. intros [= <-]. split; [by right|].
    rewrite Et. unfold frame_ok. simpl. rewrite fset_eq. by destruct f as [[]|[]| | | |[]| |].
  - intros q. by rewrite Hc.
  - by left.
  - intros q fs. by rewrite fset_eq.
Qed.

Lemma scheduler_moves w w' h : hinv w → scheduler_step h w = Next w' → hmove h w w'.
Proof.
  intros Hi E. unfold scheduler_step in E. destruct (ctx w h) as [p fs|p|p|p] eqn:Hc; [| | |done].
  - destruct fs; [|done]. assert (hlocks w h = []) as El by (unfold hlocks; by rewrite Hc). destruct (p <? NPROC).
    + apply acquire_Next in E as [Hq ->]. apply sched_moves; try done; [by rewrite Hc| | |intros; by left].
      * intros h' Hne. simpl. by rewrite fset_ne.
      * rewrite El. apply (ls_acquire _ _ _ _ _ p); try done; [unfold hlocks; simpl; by rewrite fset_eq|]. simpl. by rewrite fset_eq.
    + injection E as <-. change (hmove h w (set_ctx h (Scan 0 []) (count_scan h w))).
      apply sched_moves; try done; [by rewrite Hc|intros p' fs [= _ <-]; by left| |intros; by left].
      rewrite El. apply ls_same; try done. unfold hlocks. simpl. by rewrite fset_eq.
  - assert (hlocks w h = [p]) as El by (unfold hlocks; by rewrite Hc). case_bool_decide; injection E as <-; [by apply dispatch_moves|].
    apply sched_moves; try done; [by rewrite Hc| |intros; by left].
    rewrite El. apply ls_same; try done. unfold hlocks. simpl. by rewrite fset_eq.
  - assert (hlocks w h = [p]) as El by (unfold hlocks; by rewrite Hc). apply release_Next in E as ->.
    apply sched_moves; try done; [by rewrite Hc|intros p' fs [= _ <-]; by left| | |intros; by left].
    + intros h' Hne. simpl. by rewrite fset_ne.
    + rewrite El. apply (ls_release _ _ _ _ _ p); try done; [unfold hlocks; simpl; by rewrite fset_eq|]. simpl. by rewrite fset_eq.
Qed.

Lemma call_moves w w' h f : hinv w → hstep (Call h f) w = Next w' → hmove h w w'.
Proof.
  intros Hi E. simpl in E. destruct (ctx w h) as [p fs|p|p|p] eqn:Hc; [|done|done|].
  - destruct fs; [|done].
    assert (∃ ch, f = InWakeup UAcquire ch 0 ∧ w' = put h [f] w) as (ch & -> & ->).
    { destruct f as [| |[] ch []| | | | |]; try done. eexists. by injection E as <-. }
    unfold put. rewrite Hc. apply sched_moves; try done; [by rewrite Hc|intros p' fs [= _ <-]; right; by eexists _, _, _| |intros; by left].
    apply ls_same; try done. unfold hlocks. simpl. by rewrite fset_eq, Hc.
  - destruct (enters (thr w p) f) eqn:Ee; [|done]. injection E as <-. unfold enters in Ee. apply andb_true_iff in Ee as [Hq Hf].
    assert (Forall quiet (thr w p)) as Hk.
    { pose proof (hi_quiet w Hi p) as Ht. destruct (thr w p) as [|g k]; [done|]. simpl in *. constructor; [|done].
      apply andb_true_iff in Hq as [Hq _]. by rewrite Hq. }
    assert (quiet f = true) as Hqf by (by destruct f as [[]|[]|[]|[]|[]|[]|[]|]).
    pose proof (hi_run w Hi h p Hc) as Hr.
    assert (estate (tab w p) = RUNNING ∧ stack_locks p (thr w p) = []) as [Er El].
    { destruct (thr w p) as [|g k]; [done|]. apply Forall_cons in Hk as [Hg _]. destruct (quiet_expects p g) as (E1 & E2 & _); [by apply Is_true_true|].
      destruct Hr as [Hr _]. split; [congruence|done]. }
    destruct (quiet_expects p f Hqf) as (E1 & E2 & E3). unfold put. rewrite Hc. split; simpl; try done.
    + apply ls_same; try done. unfold hlocks. simpl. rewrite Hc, fset_eq. simpl. congruence.
    + intros q. destruct (decide (q = p)) as [->|Hne]; [by left|]. right. right. left. simpl. by rewrite fset_ne.
    + intros q Hq'. rewrite Hc in Hq'. injection Hq' as <-. split; [by left|]. rewrite fset_eq. simpl. split; [congruence|]. intros q. congruence.
    + intros q Hq'. by left.
    + intros q. unfold fset. destruct (Z.eqb_spec q p) as [->|]; [by right|by left].
    + intros q fs. by rewrite Hc.
Qed.

Lemma hstep_moves a w w' : hinv w → hstep a w = Next w' → hmove (hart a) w w'.
Proof.
  intros Hi E. destruct a as [h|h alloc|h f]; simpl.
  - by apply scheduler_moves.
  - simpl in E. destruct (ctx w h) as [p fs|p|p|p] eqn:Hc; [|done|done|].
    + destruct fs as [|f k]; [done|]. destruct (hi_scan w Hi h p _ Hc) as [|(pc & ch & q & [= -> ->])]; [done|]. by eapply handler_moves.
    + destruct (thr w p) as [|f k] eqn:Et; [done|]. by eapply run_frame_moves.
  - by apply (call_moves w w' h f).
Qed.

Lemma hstep_inv a w w' : hinv w → hstep a w = Next w' → hinv w'.
Proof. intros Hi E. eapply hmove_inv; [exact Hi|by apply (hstep_moves a)]. Qed.

Lemma hboot_inv : hinv hboot.
Proof.
  assert (∀ h, hlocks hboot h = []) as El by done. split; try (intros; rewrite ?El; simpl; try done).
  - split; [done|set_solver].
  - constructor.
  - unfold fset. by destruct (_ =? _).
  - unfold fset. destruct (_ =? _); constructor.
  - injection H as _ <-. by left.
Qed.

(** ** Panics *)

Definition msg_ok (r : hresult) : Prop := ∀ msg, r = Panics msg → msg = "acquire"%string ∨ msg = "init exiting"%string.

Lemma msg_ok_acquire h q g w : msg_ok (hacquire h q g w).
Proof. unfold hacquire, msg_ok. intros msg. destruct (plk w q) as [h'|]; [|done]. destruct (_ =? _); [|done]. intros [= <-]. by left. Qed.

Lemma msg_ok_release h q g w : plk w q = Some h → msg_ok (hrelease h q g w).
Proof. unfold hrelease, msg_ok. intros E msg. by rewrite bool_decide_true. Qed.

Lemma msg_ok_next w : msg_ok (Next w).
Proof. by intros msg. Qed.

Lemma run_frame_panics w h p f k alloc : hinv w → ctx w h = Thread p → thr w p = f :: k → msg_ok (run_frame h p k alloc f w).
Proof.
  intros Hi Hc Et. pose proof (thread_holds w h p f k Hi Hc Et) as Hh. pose proof (thread_expects w h p f k Hi Hc Et) as He.
  assert (∀ back, flocks p f = [p] → estate (tab w p) ≠ RUNNING → msg_ok (sched_at h p k back w)) as Hs.
  { intros back H1 H2 msg E. by destruct (sched_no_panic w h p f k Hi Hc Et back msg) as [H|[]]. }
  assert (∀ q next, q ∈ flocks p f → msg_ok (wakeup1_at h k q next w)) as Hw.
  { intros q next Hq. unfold wakeup1_at. rewrite bool_decide_false by (intros []; by apply Hh). apply msg_ok_next. }
  destruct f as [pc|pc ch|pc ch q|pc pid q|pc st|pc|pc|]; [destruct pc..|]; simpl in *;
    repeat (case_match; simpl in *); try apply msg_ok_acquire; try apply msg_ok_next;
    try (apply msg_ok_release; apply Hh; set_solver); try (apply Hs; [done|congruence]); try (apply Hw; set_solver); try congruence.
  intros msg [= <-]. by right.
Qed.

Lemma hstep_panics a w : hinv w → msg_ok (hstep a w).
Proof.
  intros Hi. destruct a as [h|h alloc|h f]; simpl.
  - unfold scheduler_step. destruct (ctx w h) as [p fs|p|p|p] eqn:Hc; [| | |done].
    + destruct fs; [|done]. destruct (p <? NPROC); [apply msg_ok_acquire|done].
    + by case_bool_decide.
    + apply msg_ok_release, (hi_lock w Hi). unfold hlocks. rewrite Hc. set_solver.
  - destruct (ctx w h) as [p fs|p|p|p] eqn:Hc; [|done|done|].
    + destruct fs as [|f k]; [done|]. destruct (hi_scan w Hi h p _ Hc) as [|(pc & ch & q & [= -> ->])]; [done|].
      destruct pc; simpl; [case_match; [apply msg_ok_acquire|done]|done|].
      apply msg_ok_release, (hi_lock w Hi). unfold hlocks. rewrite Hc. simpl. set_solver.
    + destruct (thr w p) as [|f k] eqn:Et; [done|]. by apply run_frame_panics.
  - destruct (ctx w h) as [p fs|p|p|p] eqn:Hc; try done; [by repeat case_match|by case_match].
Qed.

(** ** Scans *)

Definition is_wakeup (f : frame) : bool := match f with InWakeup _ _ _ => true | _ => false end.

Lemma leaving_stays a w w' p :
  hinv w → hstep a w = Next w' → ctx w (hart a) = Thread p → estate (tab w p) = RUNNABLE → estate (tab w' p) = RUNNABLE.
Proof.
  intros Hi E Hc Hr. pose proof (hi_run w Hi _ p Hc) as Hf. destruct a as [h|h alloc|h f]; simpl in *.
  - unfold scheduler_step in E. by rewrite Hc in E.
  - rewrite Hc in E. unfold frame_ok in Hf. destruct (thr w p) as [|f k]; [congruence|]. destruct Hf as [Hf _]. rewrite Hr in Hf.
    assert (f = InYield YSched) as -> by (by destruct f as [[]|[]| | |[]|[]| |]). simpl in E. unfold sched_at in E.
    repeat case_match; try done. injection E as <-. unfold go, put. by rewrite Hc.
  - rewrite Hc in E. destruct (enters _ _); [|done]. injection E as <-. unfold put. by rewrite Hc.
Qed.

(** A runnable process stays runnable until it is dispatched. *)
Lemma runnable_stays a w w' p :
  hinv w → hstep a w = Next w' → estate (tab w p) = RUNNABLE → dispatch a w = Some p ∨ estate (tab w' p) = RUNNABLE.
Proof.
  intros Hi E Hr. pose proof (hstep_moves a w w' Hi E) as Hm. destruct (mv_tab _ _ _ Hm p) as [Hc|[Hc|Ht]].
  - right. by eapply leaving_stays.
  - destruct (mv_in _ _ _ Hm p Hc) as [[Hc'|[Hc' _]] _]; [right; by eapply leaving_stays|].
    left. destruct a as [h|h alloc|h f]; simpl in *; rewrite Hc' in *; [by rewrite bool_decide_true|done|done].
  - right. destruct Ht as [[-> _]|[_ [[? _]|[[? _]|[? _]]]]]; congruence.
Qed.

(** The entries before this one have been visited. *)
Definition position (c : hctx) : Z :=
  match c with Scan p _ | Test p => p | Unlock p | Thread p => p + 1 end.

Definition keeps_position (h : Z) (w : harts) (r : hresult) : Prop :=
  ∀ w', r = Next w' → position (ctx w' h) = position (ctx w h) ∧ scans w' = scans w.

Lemma position_put h k w w1 :
  match ctx w h with Thread _ | Scan _ _ => True | _ => False end → ctx w1 = ctx w → scans w1 = scans w → keeps_position h w (Next (put h k w1)).
Proof.
  intros Hc Ec Es w' [= <-]. unfold put. rewrite Ec. destruct (ctx w h) eqn:E; try done; simpl; rewrite ?fset_eq, ?Ec, ?E, ?Es; done.
Qed.

Lemma run_frame_position h p k alloc f w :
  match ctx w h with Thread q => q = p | Scan _ _ => is_wakeup f = true | _ => False end → keeps_position h w (run_frame h p k alloc f w).
Proof.
  intros Hc. assert (match ctx w h with Thread _ | Scan _ _ => True | _ => False end) as Hc1 by (by destruct (ctx w h)).
  assert (∀ q g, (∀ w1, ctx w1 = ctx w → scans w1 = scans w → keeps_position h w (Next (g w1))) → keeps_position h w (hacquire h q g w)) as Ha.
  { intros q g Hg w' E. apply acquire_Next in E as [_ ->]. by apply (Hg (locked h q w)). }
  assert (∀ q g, (∀ w1, ctx w1 = ctx w → scans w1 = scans w → keeps_position h w (Next (g w1))) → keeps_position h w (hrelease h q g w)) as Hl.
  { intros q g Hg w' E. apply release_Next in E as ->. by apply (Hg (unlocked h q w)). }
  assert (∀ back, ctx w h = Thread p → keeps_position h w (sched_at h p k back w)) as Hs.
  { intros back Hp w' E. unfold sched_at in E. case_bool_decide; [done|]. destruct (_ =? 1); [|done]. case_bool_decide; [done|]. injection E as <-. unfold go, put. rewrite Hp. simpl. by rewrite fset_eq. }
  assert (is_wakeup f = false → ctx w h = Thread p) as Hp.
  { intros Hf. rewrite Hf in Hc. destruct (ctx w h); [done..|congruence]. }
  assert (∀ k w1, ctx w1 = ctx w → scans w1 = scans w → keeps_position h w (Next (put h k w1))) as Hput by (intros; by apply position_put).
  clear Hc Hc1. destruct f as [pc|pc ch|pc ch q|pc pid q|pc st|pc|pc|]; [destruct pc..|]; simpl in *; unfold wakeup1_at;
    repeat case_match; try (by intros w' E); try (apply Ha; intros; by apply Hput); try (apply Hl; intros; by apply Hput);
    try (by apply Hput); by apply Hs, Hp.
Qed.

Lemma step_position a w w' h :
  hinv w → hstep a w = Next w' →
  scans w' h = scans w h ∧ position (ctx w' h) = position (ctx w h) ∨
  (∃ p, ctx w h = Test p ∧ scans w' h = scans w h ∧ position (ctx w' h) = p + 1 ∧ (estate (tab w p) = RUNNABLE → dispatch a w = Some p)) ∨
  scans w h < scans w' h ∧ NPROC ≤ position (ctx w h).
Proof.
  intros Hi E. pose proof (hstep_moves a w w' Hi E) as Hm.
  assert (∀ h', keeps_position h' w (Next w') → hart a = h' → scans w' h = scans w h ∧ position (ctx w' h) = position (ctx w h)) as Hk.
  { intros h' Hk Ha. destruct (Hk w' eq_refl) as [Hp ->]. split; [done|].
    destruct (decide (h = h')) as [->|Hne]; [done|]. by rewrite (mv_ctx _ _ _ Hm) by congruence. }
  destruct a as [h0|h0 alloc|h0 f]; simpl in *.
  - assert (h ≠ h0 → scans w' h = scans w h → scans w' h = scans w h ∧ position (ctx w' h) = position (ctx w h)) as Ho.
    { intros Hne Es. split; [done|]. by rewrite (mv_ctx _ _ _ Hm). }
    unfold scheduler_step in E. destruct (ctx w h0) as [p fs|p|p|p] eqn:Hc; [| | |done].
    + destruct fs; [|done]. destruct (Z.ltb_spec p NPROC).
      * left. apply acquire_Next in E as [_ ->]. apply (Hk h0); [|done]. intros w2 [= <-]. simpl. by rewrite fset_eq, Hc.
      * injection E as <-. destruct (decide (h = h0)) as [->|Hne].
        -- right. right. rewrite Hc. simpl. rewrite fset_eq. lia.
        -- left. apply Ho; [done|]. simpl. by rewrite fset_ne.
    + destruct (decide (h = h0)) as [->|Hne]; [right; left|left; apply Ho; [done|]; by case_bool_decide; injection E as <-].
      exists p. split; [done|]. case_bool_decide; injection E as <-; simpl; by rewrite fset_eq.
    + left. apply release_Next in E as ->. apply (Hk h0); [|done]. intros w2 [= <-]. simpl. by rewrite fset_eq, Hc.
  - left. apply (Hk h0); [|done]. rewrite <-E. destruct (ctx w h0) as [p fs|p|p|p] eqn:Hc; [|done|done|].
    + destruct fs as [|f k]; [done|]. destruct (hi_scan w Hi h0 p _ Hc) as [|(pc & ch & q & [= -> ->])]; [done|].
      apply run_frame_position. by rewrite Hc.
    + destruct (thr w p) as [|f k]; [done|]. apply run_frame_position. by rewrite Hc.
  - left. apply (Hk h0); [|done]. destruct (ctx w h0) as [p fs|p|p|p] eqn:Hc; [|done|done|].
    + destruct fs; [|done]. destruct f as [| |[] ch []| | | | |]; try done. injection E as <-. apply position_put; by rewrite ?Hc.
    + destruct (enters _ _); [|done]. injection E as <-. apply position_put; by rewrite ?Hc.
Qed.

(** What a run has done since hart [h] began a scan in [w0]: [D] was dispatched. *)
Record scanned (w0 w : harts) (h : Z) (D : list Z) : Prop := {
  sc_inv : hinv w;
  sc_wait p : estate (tab w0 p) = RUNNABLE → p ∈ D ∨ estate (tab w p) = RUNNABLE;
  sc_scans : scans w0 h ≤ scans w h;
  sc_done p : 0 ≤ p < NPROC → estate (tab w0 p) = RUNNABLE → scans w0 h < scans w h ∨ p < position (ctx w h) → p ∈ D
}.

Lemma scanned_step w0 w w' h D a :
  scanned w0 w h D → hstep a w = Next w' → scanned w0 w' h (D ++ option_list (dispatch a w)).
Proof.
  intros [Hi Hw Hs Hd] E. pose proof (step_position a w w' h Hi E) as Hp. split.
  - by eapply hstep_inv.
  - intros p Hr. destruct (Hw p Hr) as [?|Hr']; [left; set_solver|].
    destruct (runnable_stays a w w' p Hi E Hr') as [->|?]; [left; set_solver|by right].
  - destruct Hp as [[-> _]|[(p & _ & -> & _)|[? _]]]; lia.
  - intros p Hp0 Hr Hc. apply elem_of_app. destruct (decide (scans w0 h < scans w h)) as [|Hns]; [left; by apply Hd; [| |left]|].
    destruct Hp as [[E1 E2]|[(q & Hq & E1 & E2 & Hq2)|[_ Hn]]].
    + left. apply Hd; [done|done|]. right. destruct Hc; lia.
    + destruct (decide (p = q)) as [->|Hne]; [|left; apply Hd; [done|done|right; rewrite Hq; simpl; lia]].
      destruct (Hw q Hr) as [?|Hr']; [by left|]. right. rewrite Hq2 by done. set_solver.
    + left. apply Hd; [done|done|]. right. lia.
Qed.

Lemma hrun_scanned l w0 w w' h D d : scanned w0 w h D → hrun l w = Some (w', d) → scanned w0 w' h (D ++ d).
Proof.
  revert w D d. induction l as [|a l IH]; intros w D d Hs E; simpl in E.
  - injection E as <- <-. by rewrite app_nil_r.
  - destruct (hstep a w) as [w1| |] eqn:E1; try done. destruct (hrun l w1) as [[w2 d2]|] eqn:E2; [|done]. injection E as <- <-.
    rewrite app_assoc. eapply IH; [|done]. by apply scanned_step.
Qed.

Lemma hrun_inv l w w' d : hinv w → hrun l w = Some (w', d) → hinv w'.
Proof.
  revert w d. induction l as [|a l IH]; intros w d Hi E; simpl in E; [by injection E as <- _|].
  destruct (hstep a w) as [w1| |] eqn:E1; try done. destruct (hrun l w1) as [[w2 d2]|] eqn:E2; [|done]. injection E as <- <-.
  eapply IH; [|done]. by eapply hstep_inv.
Qed.

(** * Properties *)


(** ** Witness *)

(** Hart 0 runs the first process, which forks.  Then hart 1 makes a scan, while
    hart 0 switches to the child and hart 1 itself to the parent. *)
Definition ex_fork : list haction :=
  [Sched 0; Sched 0; Run 0 None; Call 0 (InFork (FAcquire 0))] ++ replicate 8 (Run 0 (Some true)).
Definition ex_scan : list haction :=
  [Call 0 (InYield YAcquire); Run 0 None; Run 0 None; Run 0 None; Sched 0; Sched 0; Sched 0; Run 0 None;
   Sched 1; Sched 1; Run 1 None; Call 1 (InYield YAcquire); Run 1 None; Run 1 None; Run 1 None] ++ replicate (1 + 63 * 3 + 1) (Sched 1).

Definition ex_check : bool :=
  match hrun ex_fork hboot with
  | Some (w, _) =>
      match hrun ex_scan w with
      | Some (w', _) => bool_decide (ctx w 1 = Scan 0 []) && (scans w 1 <? scans w' 1) && bool_decide (estate (tab w 1) = RUNNABLE)
      | None => false
      end
  | None => false
  end.

