(* ===== verification/Shell.v ===== *)
(** * The shell: user/sh.c

    The parser reads the text of a command through a pointer [s] that moves
    over it; here the pointer is an offset in the text and the parsing functions
    are computations on that state.  The nodes of the tree are the C structures
    of sh.c; a string of the tree is the pair of the offsets of its first byte
    and of the byte after its last one ([argv] and [eargv], [file] and [efile]),
    until [nulterminate] ends it with a NUL.  [runcmd] is the tree of the
    system calls that the process makes.  The allocations of the constructors
    are assumed to succeed, as the code assumes. *)

From Stdlib Require Import Ascii String.
From S2P Require Import Prelude Machine Grep Printf Sysfile.
Local Open Scope Z_scope.
Local Open Scope list_scope.

(** ** Commands *)

Definition MAXARGS : Z := 10.

Inductive cmd (W : Type) : Type :=
  | EXEC (argv : list W)
  | REDIR (c : cmd W) (file : W) (mode fd : Z)
  | PIPE (left right : cmd W)
  | LIST (left right : cmd W)
  | BACK (c : cmd W).

Arguments EXEC {W} argv.
Arguments REDIR {W} c file mode fd.
Arguments PIPE {W} left right.
Arguments LIST {W} left right.
Arguments BACK {W} c.

(** The same command with its strings represented otherwise. *)
Fixpoint cmd_map {V W} (f : V → W) (c : cmd V) : cmd W :=
  match c with
  | EXEC argv => EXEC (f <$> argv)
  | REDIR c file mode fd => REDIR (cmd_map f c) (f file) mode fd
  | PIPE l r => PIPE (cmd_map f l) (cmd_map f r)
  | LIST l r => LIST (cmd_map f l) (cmd_map f r)
  | BACK c => BACK (cmd_map f c)
  end.

(** ** Tokens *)

Definition whitespace : list Z := [32; 9; 13; 10; 11].
Definition symbols : list Z := str "<|>&;()".

(** [strchr] as a condition: it does not find the NUL that ends its string. *)
Definition found (toks : list Z) (c : Z) : bool :=
  match strchr toks c with Some _ => true | None => false end.

Section parser.
(** The command, without the NUL at [es]. *)
Context (text : list Z).

Definition es : Z := Z.of_nat (length text).

(** The byte [*s]. *)
Definition byte_at (s : Z) : Z := default 0 (text !! Z.to_nat s).

(** [while(s < es && p( *s)) s++], in at most [n = es - s] steps. *)
Fixpoint skip_loop (p : Z → bool) (n : nat) (s : Z) : Z :=
  match n with
  | O => s
  | S n' => if p (byte_at s) then skip_loop p n' (s + 1) else s
  end.

Definition skip (p : Z → bool) (s : Z) : Z := skip_loop p (Z.to_nat (es - s)) s.

(** The token with its start and its end. *)
Definition gettoken : M Z (Z * Z * Z) :=
  s ← gets (skip (found whitespace));
  let q := s in
  let '(ret, s) :=
    let c := byte_at s in
    if c =? 0 then (c, s)
    else if found (str "|();&<") c then (c, s + 1)
    else if c =? 62 then
      let s := s + 1 in
      if byte_at s =? 62 then (43, s + 1) else (c, s)
    else (97, skip (λ x, negb (found whitespace x) && negb (found symbols x)) s) in
  let eq := s in
  modify (λ _, skip (found whitespace) s);;
  mret (ret, q, eq).

Definition peek (toks : list Z) : M Z bool :=
  modify (skip (found whitespace));;
  gets (λ s, nonzero (byte_at s) && found toks (byte_at s)).

(** ** Parsing *)

Definition redircmd (subcmd : cmd (Z * Z)) (file efile mode fd : Z) : cmd (Z * Z) :=
  REDIR subcmd (file, efile) mode fd.

(** The redirections that the loop of [parseredirs] wraps around its command,
    in the order in which it wraps them. *)
Definition wrap (c : cmd (Z * Z)) (rs : list (Z * Z * Z * Z)) : cmd (Z * Z) :=
  foldl (λ c '(file, efile, mode, fd), redircmd c file efile mode fd) c rs.

Fixpoint parseredirs (fuel : nat) (rs : list (Z * Z * Z * Z)) : M Z (list (Z * Z * Z * Z)) :=
  match fuel with
  | O => out_of_fuel
  | S fuel' =>
      more ← peek (str "<>");
      if negb more then mret rs else
      t ← gettoken;
      f ← gettoken;
      let '(tok, _, _) := t in
      let '(word, q, eq) := f in
      if negb (word =? 97) then panic "missing file for redirection" else
      let rs :=
        if tok =? 60 then rs ++ [(q, eq, O_RDONLY, 0)]
        else if tok =? 62 then rs ++ [(q, eq, Z.lor O_WRONLY (Z.lor O_CREATE O_TRUNC), 1)]
        else if tok =? 43 then rs ++ [(q, eq, Z.lor O_WRONLY O_CREATE, 1)]
        else rs in
      parseredirs fuel' rs
  end.

(** The loop of [parseexec], after its first [parseredirs].  The node that
    [cmd] points to is inside the redirections of [ret], so the arguments are
    put in it at the end. *)
Fixpoint parseargs (fuel : nat) (argv : list (Z * Z)) (rs : list (Z * Z * Z * Z)) : M Z (cmd (Z * Z)) :=
  match fuel with
  | O => out_of_fuel
  | S fuel' =>
      stop ← peek (str "|)&;");
      if (stop : bool) then mret (wrap (EXEC argv) rs) else
      t ← gettoken;
      let '(tok, q, eq) := t in
      if tok =? 0 then mret (wrap (EXEC argv) rs) else
      if negb (tok =? 97) then panic "syntax" else
      let argv := argv ++ [(q, eq)] in
      if Z.of_nat (length argv) >=? MAXARGS then panic "too many args" else
      rs ← parseredirs (S (length text)) rs;
      parseargs fuel' argv rs
  end.

(** The loop of [parseline] on the background marks. *)
Fixpoint parseback (fuel : nat) (c : cmd (Z * Z)) : M Z (cmd (Z * Z)) :=
  match fuel with
  | O => out_of_fuel
  | S fuel' =>
      more ← peek (str "&");
      if negb more then mret c else
      _ ← gettoken;
      parseback fuel' (BACK c)
  end.

Fixpoint parseline (fuel : nat) : M Z (cmd (Z * Z)) :=
  match fuel with
  | O => out_of_fuel
  | S fuel' =>
      c ← parsepipe fuel';
      c ← parseback (S (length text)) c;
      more ← peek (str ";");
      if (more : bool) then
        _ ← gettoken;
        r ← parseline fuel';
        mret (LIST c r)
      else mret c
  end
with parsepipe (fuel : nat) : M Z (cmd (Z * Z)) :=
  match fuel with
  | O => out_of_fuel
  | S fuel' =>
      c ← parseexec fuel';
      more ← peek (str "|");
      if (more : bool) then
        _ ← gettoken;
        r ← parsepipe fuel';
        mret (PIPE c r)
      else mret c
  end
with parseexec (fuel : nat) : M Z (cmd (Z * Z)) :=
  match fuel with
  | O => out_of_fuel
  | S fuel' =>
      block ← peek (str "(");
      if (block : bool) then parseblock fuel' else
      rs ← parseredirs (S (length text)) [];
      parseargs (S (length text)) [] rs
  end
with parseblock (fuel : nat) : M Z (cmd (Z * Z)) :=
  match fuel with
  | O => out_of_fuel
  | S fuel' =>
      opened ← peek (str "(");
      if negb opened then panic "parseblock" else
      _ ← gettoken;
      c ← parseline fuel';
      closed ← peek (str ")");
      if negb closed then panic "syntax - missing )" else
      _ ← gettoken;
      rs ← parseredirs (S (length text)) [];
      mret (wrap c rs)
  end.

(** [parsecmd] up to [nulterminate]: every nested call of the recursion follows
    a byte that was consumed, at most four calls deep each. *)
Definition parsetree : M Z (cmd (Z * Z)) :=
  c ← parseline (4 * S (length text));
  _ ← peek [];
  s ← gets id;
  if negb (s =? es) then panic "syntax" else mret c.

End parser.

(** ** The strings of the tree *)

(** [nulterminate] on the buffer that holds the command and its NUL. *)
Definition terminate (buf : list Z) (w : Z * Z) : list Z := <[Z.to_nat w.2 := 0]> buf.

Fixpoint nulterminate (c : cmd (Z * Z)) (buf : list Z) : list Z :=
  match c with
  | EXEC argv => foldl terminate buf argv
  | REDIR c file mode fd => terminate (nulterminate c buf) file
  | PIPE l r => nulterminate r (nulterminate l buf)
  | LIST l r => nulterminate r (nulterminate l buf)
  | BACK c => nulterminate c buf
  end.

(** The bytes of the C string at the start of [l]. *)
Fixpoint c_string (l : list Z) : list Z :=
  match l with
  | [] => []
  | c :: l' => if c =? 0 then [] else c :: c_string l'
  end.

Definition string_at (buf : list Z) (w : Z * Z) : list Z := c_string (drop (Z.to_nat w.1) buf).

(** The command that [runcmd] gets: the tree of [parsecmd] with the C strings
    that its pointers designate after [nulterminate]. *)
Definition parsecmd (s : list Z) : outcome Z (cmd (list Z)) :=
  match parsetree s 0 with
  | Ret c p => Ret (cmd_map (string_at (nulterminate c (s ++ [0]))) c) p
  | Panic msg => Panic msg
  | Undefined why => Undefined why
  | Sleep c p => Sleep c p
  | OutOfFuel => OutOfFuel
  end.

(** ** Running a command *)

(** The system calls of a process, with what it does after each result. *)
Inductive prog : Type :=
  | Exit (status : Z)
  | Exec (path : list Z) (argv : list (list Z)) (failed : prog)
  | Close (fd : Z) (k : prog)
  | Open (file : list Z) (mode : Z) (ok failed : prog)
  | Fork (child parent failed : prog)
  | Wait (k : prog)
  | MkPipe (ok : Z → Z → prog) (failed : prog)
  | Dup (fd : Z) (k : prog)
  | Fprintf (fd : Z) (msg : list Z) (k : prog).

(** [panic] of sh.c. *)
Definition sh_panic (s : string) : prog := Fprintf 2 (str s ++ [10]) (Exit 1).

Definition fork1 (child parent : prog) : prog := Fork child parent (sh_panic "fork").

Fixpoint runcmd (c : cmd (list Z)) : prog :=
  match c with
  | EXEC [] => Exit 1
  | EXEC (path :: args) =>
      Exec path (path :: args) (Fprintf 2 (str "exec " ++ path ++ str " failed" ++ [10]) (Exit 0))
  | REDIR c file mode fd =>
      Close fd (Open file mode (runcmd c) (Fprintf 2 (str "open " ++ file ++ str " failed" ++ [10]) (Exit 1)))
  | LIST l r => fork1 (runcmd l) (Wait (runcmd r))
  | PIPE l r =>
      MkPipe (λ p0 p1,
        fork1 (Close 1 (Dup p1 (Close p0 (Close p1 (runcmd l)))))
          (fork1 (Close 0 (Dup p0 (Close p0 (Close p1 (runcmd r)))))
             (Close p0 (Close p1 (Wait (Wait (Exit 0)))))))
        (sh_panic "pipe")
  | BACK c => fork1 (runcmd c) (Exit 0)
  end.
