(* ===== verification/ShellLine.v ===== *)
(** * The lines of the shell: reading, completing and splitting (user/sh.c)

    [get_oneline_of_cmd] with its tab completion, [process_one_cmd] and the loop
    of [main].  The state is the buffer of the line; a store outside of it is
    undefined.  What [read] delivers is a list of bytes, and the current
    directory is what [open], [fstat], [read] and [stat] answer on it.  The
    prompt and the messages are not modelled. *)

From Stdlib Require Import Ascii String.
From S2P Require Import Prelude Machine Fs Grep Printf Ulib Sysfile Shell.
Local Open Scope Z_scope.
Local Open Scope list_scope.

Module Line.

(** The current directory: it cannot be opened or its status cannot be read, or
    it has a type and entries; an entry is [de.inum], [de.name] and whether
    [stat] succeeds on it. *)
Inductive listing : Type :=
  | NoDirectory
  | Directory (type : Z) (entries : list (Z * list Z * bool)).

Section line.
Context (dot : listing).

Definition poke (i v : Z) : M (list Z) unit := λ buf,
  if (0 <=? i) && (i <? Z.of_nat (length buf)) then Ret tt (<[Z.to_nat i := v]> buf)
  else Undefined "store outside the buffer".

Definition is_valid_identifier_char (c : Z) : bool :=
  ((65 <=? c) && (c <=? 90)) || ((97 <=? c) && (c <=? 122)) || ((48 <=? c) && (c <=? 57)) ||
  (c =? 95) || (c =? 46) || (c =? 45).

(** [word] is at the index [n - 1].  At [word = buf - 1] the byte before the
    buffer is read and does not matter: the other condition ends the loop. *)
Fixpoint last_word_loop (buf : list Z) (n : nat) : nat :=
  match n with
  | O => O
  | S n' => if is_valid_identifier_char (nth n' buf 0) then last_word_loop buf n' else n
  end.

(** The index of the last word of a string. *)
Definition find_last_word (s : list Z) : nat := last_word_loop s (length s).

(** [strcpy(buf + i, s)] *)
Fixpoint put_string (i : Z) (s : list Z) : M (list Z) unit :=
  match s with
  | [] => poke i 0
  | c :: s' => poke i c ;; put_string (i + 1) s'
  end.

(** The last [n] bytes of a string. *)
Definition suffix_from (n : nat) (s : list Z) : list Z := drop (length s - n) s.

(** The loop of [tab_completion] on the entries, for the word at [w]. *)
Fixpoint complete_loop (entries : list (Z * list Z * bool)) (w : nat) (last_word : list Z) : M (list Z) Z :=
  match entries with
  | [] => mret 0
  | (inum, name, ok) :: rest =>
      if inum =? 0 then complete_loop rest w last_word else
      let path := str "./" ++ c_string (take (Z.to_nat DIRSIZ) name) in
      if negb ok then complete_loop rest w last_word else
      if bool_decide (suffix_from 2 path = str "/.") then complete_loop rest w last_word else
      if (length path <? 3)%nat then undefined "read before the path" else
      if bool_decide (suffix_from 3 path = str "/..") then complete_loop rest w last_word else
      let word := drop (find_last_word path) path in
      if bool_decide (last_word `prefix_of` word) then
        put_string (Z.of_nat w) word ;;
        mret (Z.of_nat (length word) - Z.of_nat (length last_word))
      else complete_loop rest w last_word
  end.

Definition tab_completion : M (list Z) Z :=
  s ← gets c_string;
  let w := find_last_word s in
  match dot with
  | NoDirectory => mret 0
  | Directory type entries =>
      if type =? T_DIR then complete_loop entries w (drop w s) else mret 0
  end.

(** The loop of [get_oneline_of_cmd]; the result is [i] and the input left. *)
Fixpoint line_loop (nbuf : Z) (input : list Z) (i : Z) : M (list Z) (Z * list Z) :=
  match input with
  | [] => mret (i, [])
  | c :: input' =>
      if negb (i + 1 <? nbuf) then mret (i, input) else
      if c =? 9 then
        n ← tab_completion;
        line_loop nbuf input' (i + n)
      else
        poke i c ;;
        if (c =? 10) || (c =? 13) then mret (i + 1, input') else line_loop nbuf input' (i + 1)
  end.

Definition get_oneline_of_cmd (nbuf : Z) (input : list Z) : M (list Z) (Z * list Z) :=
  modify (λ buf, replicate (Z.to_nat nbuf) 0 ++ drop (Z.to_nat nbuf) buf) ;;
  r ← line_loop nbuf input 0;
  let '(i, input) := r in
  poke i 0 ;;
  first ← gets (λ buf, nth 0 buf 0);
  mret (if first =? 0 then -1 else 0, input).

(** What the shell does with one command: it changes its own directory, sleeps,
    or forks a child that parses and runs the text and waits for it. *)
Inductive action : Type :=
  | Chdir (dir : list Z)
  | SleepTicks (n : Z)
  | RunChild (text : list Z).

Definition process_one_cmd (buf : list Z) : action :=
  if bool_decide (str "cd " `prefix_of` buf) then
    Chdir (drop 3 (removelast buf))
  else if bool_decide (str "wait " `prefix_of` buf) then
    SleepTicks (atoi (drop 5 buf))
  else RunChild buf.

(** The inner loop of [main]: [cmdstart] is what was read of the current
    command. *)
Fixpoint commands (cmdstart p : list Z) : list action :=
  match p with
  | [] => [process_one_cmd cmdstart]
  | c :: p' =>
      if c =? 59 then process_one_cmd cmdstart :: commands [] p'
      else commands (cmdstart ++ [c]) p'
  end.

(** The loop of [main] on the lines of its input. *)
Fixpoint main_loop (fuel : nat) (input : list Z) : M (list Z) (list action) :=
  match fuel with
  | O => out_of_fuel
  | S fuel' =>
      r ← get_oneline_of_cmd 100 input;
      let '(status, input) := r in
      if status <? 0 then mret [] else
      line ← gets c_string;
      rest ← main_loop fuel' input;
      mret (commands [] line ++ rest)
  end.

(** [main] from its command loop on, with its buffer of 100 bytes; every line takes
    a byte of input.  What it does before, opening the script and the console, are
    [sh_script] and [sh_descriptors] of UserProgs.v. *)
Definition main (input : list Z) : outcome (list Z) (list action) :=
  main_loop (S (length input)) input (replicate 100 0).

End line.

Arguments poke : simpl never.

(** ** Completion *)

(** What a directory offers for completion: the last word of the name of every
    entry in use, the directory and its parent apart. *)
Definition offers (e : Z * list Z * bool) : option (list Z) :=
  let '(inum, name, ok) := e in
  let n := c_string (take (Z.to_nat DIRSIZ) name) in
  if (inum =? 0) || negb ok || bool_decide (n = str ".") || bool_decide (n = str "..") then None
  else Some (drop (find_last_word n) n).

Definition completion (entries : list (Z * list Z * bool)) (w : list Z) : option (list Z) :=
  first_such (λ n, bool_decide (w `prefix_of` n)) (omap offers entries).

(** Names as a directory has them: not empty and without a slash. *)
Definition proper_name (e : Z * list Z * bool) : Prop :=
  let n := c_string (take (Z.to_nat DIRSIZ) e.1.2) in n ≠ [] ∧ 47 ∉ n.

Lemma last_word_loop_app pre s n :
  is_valid_identifier_char 47 = false →
  last_word_loop (pre ++ [47] ++ s) (length pre + 1 + n) = (length pre + 1 + last_word_loop s n)%nat.
Proof.
  intros H47. induction n as [|n IH].
  - replace (length pre + 1 + 0)%nat with (S (length pre)) by lia. simpl last_word_loop.
    rewrite app_nth2 by lia. rewrite Nat.sub_diag. simpl nth. rewrite H47. lia.
  - replace (length pre + 1 + S n)%nat with (S (length pre + 1 + n)) by lia. simpl last_word_loop.
    rewrite app_nth2 by lia. replace (length pre + 1 + n - length pre)%nat with (S n) by lia. simpl nth.
    destruct (is_valid_identifier_char (nth n s 0)); [|lia].
    rewrite <-IH. done.
Qed.

Lemma find_last_word_path s : drop (find_last_word (str "./" ++ s)) (str "./" ++ s) = drop (find_last_word s) s.
Proof.
  unfold find_last_word. change (str "./" ++ s) with ([46] ++ [47] ++ s).
  replace (length ([46] ++ [47] ++ s)) with (length [46] + 1 + length s)%nat by done.
  rewrite last_word_loop_app by done. done.
Qed.

Lemma suffix_from_app n pre s : (n ≤ length s)%nat → suffix_from n (pre ++ s) = drop (length s - n) s.
Proof.
  intros Hn. unfold suffix_from. rewrite length_app.
  replace (length pre + length s - n)%nat with (length pre + (length s - n))%nat by lia. apply drop_app_add.
Qed.

(** A suffix of the name has no slash. *)
Lemma suffix_no_slash k (n l : list Z) : 47 ∉ n → drop k n ≠ 47 :: l.
Proof. intros Hn E. apply Hn, (subseteq_drop k). rewrite E. by left. Qed.

Lemma suffix_dot (n : list Z) : 47 ∉ n →
  bool_decide (suffix_from 2 (str "./" ++ n) = str "/.") = bool_decide (n = str ".").
Proof.
  intros Hn. apply bool_decide_ext. change (str "/.") with [47; 46]. change (str ".") with [46].
  destruct (decide (2 ≤ length n)%nat) as [Hl|Hl].
  - rewrite suffix_from_app by done. split; [by intros ?%suffix_no_slash|]. intros ->. simpl in Hl. lia.
  - destruct n as [|a [|b n]]; [done|cbv -[Z.add]; split; congruence|simpl in Hl; lia].
Qed.

Lemma suffix_dotdot (n : list Z) : n ≠ [] → 47 ∉ n →
  bool_decide (suffix_from 3 (str "./" ++ n) = str "/..") = bool_decide (n = str "..").
Proof.
  intros Hne Hn. apply bool_decide_ext. change (str "/..") with [47; 46; 46]. change (str "..") with [46; 46].
  destruct (decide (3 ≤ length n)%nat) as [Hl|Hl].
  - rewrite suffix_from_app by done. split; [by intros ?%suffix_no_slash|]. intros ->. simpl in Hl. lia.
  - destruct n as [|a [|b [|c n]]]; [done|done|cbv -[Z.add]; split; congruence|simpl in Hl; lia].
Qed.

Lemma complete_loop_spec entries w lw : Forall proper_name entries →
  complete_loop entries w lw =
  match completion entries lw with
  | Some n => put_string (Z.of_nat w) n ;; mret (Z.of_nat (length n) - Z.of_nat (length lw))
  | None => mret 0
  end.
Proof.
  unfold completion. induction 1 as [|[[inum name] ok] l [Hne Hsl] Hl IH]; [done|].
  cbn [complete_loop omap list_omap offers]. simpl in Hne, Hsl. set (n := c_string _) in *.
  destruct (inum =? 0); [done|]. destruct ok; [|done]. cbn [negb orb].
  rewrite suffix_dot, suffix_dotdot by done.
  destruct (bool_decide (n = str ".")); [done|].
  replace (length (str "./" ++ n) <? 3)%nat with false by (destruct n; [done|]; done).
  destruct (bool_decide (n = str "..")); [done|]. cbn [orb first_such].
  rewrite find_last_word_path. by destruct (bool_decide (lw `prefix_of` _)).
Qed.

Lemma poke_ok i v buf : (i < length buf)%nat → poke (Z.of_nat i) v buf = Ret tt (<[i := v]> buf).
Proof.
  intros Hi. unfold poke. replace (_ && _) with true by (symmetry; apply andb_true_iff; lia).
  by rewrite Nat2Z.id.
Qed.

(** [strcpy] into the buffer stores the string and its NUL if they fit. *)
Lemma put_string_fits s pre mid post : length mid = S (length s) →
  put_string (Z.of_nat (length pre)) s (pre ++ mid ++ post) = Ret tt (pre ++ s ++ [0] ++ post).
Proof.
  revert pre mid. induction s as [|c s IH]; intros pre mid Hm; (destruct mid as [|x mid]; [done|]); simpl in Hm.
  - destruct mid; [|done]. simpl put_string. rewrite poke_ok by (rewrite !length_app; simpl; lia).
    by rewrite insert_app_r_alt, Nat.sub_diag by lia.
  - simpl put_string. erewrite bind_Ret by (apply poke_ok; rewrite !length_app; simpl; lia).
    rewrite insert_app_r_alt, Nat.sub_diag by lia. simpl.
    specialize (IH (pre ++ [c]) mid). rewrite length_app in IH; rewrite <-!(assoc_L app) in IH. simpl in IH.
    replace (Z.of_nat (length pre) + 1) with (Z.of_nat (length pre + 1)) by lia. apply IH. lia.
Qed.

Lemma put_string_overruns s i buf : (length buf ≤ i + length s)%nat →
  ∃ why, put_string (Z.of_nat i) s buf = Undefined why.
Proof.
  revert i buf. induction s as [|c s IH]; intros i buf Hi; simpl in *.
  - unfold poke. replace (_ && _) with false by (symmetry; apply andb_false_iff; lia). by eexists.
  - unfold mbind, M_bind. destruct (decide (i < length buf)%nat) as [Hlt|Hge].
    + rewrite poke_ok by done. replace (Z.of_nat i + 1) with (Z.of_nat (S i)) by lia.
      apply IH. rewrite length_insert. lia.
    + unfold poke. replace (_ && _) with false by (symmetry; apply andb_false_iff; lia). by eexists.
Qed.

Lemma c_string_app s l : 0 ∉ s → c_string (s ++ [0] ++ l) = s.
Proof.
  induction s as [|c s IH]; [done|]. rewrite not_elem_of_cons. intros [Hc Hs]. simpl.
  destruct (Z.eqb_spec c 0); [done|]. by rewrite (IH Hs : c_string (s ++ 0 :: l) = s).
Qed.

Lemma c_string_no_nul l : 0 ∉ c_string l.
Proof. induction l as [|c l IH]; simpl; [set_solver|]. destruct (Z.eqb_spec c 0); set_solver. Qed.

Lemma find_last_word_le s : (find_last_word s ≤ length s)%nat.
Proof.
  unfold find_last_word. generalize (length s) at 1 2 as n. induction n as [|n IH]; simpl; [done|].
  destruct (is_valid_identifier_char _); lia.
Qed.

Lemma completion_no_nul entries lw n : completion entries lw = Some n → lw `prefix_of` n ∧ 0 ∉ n.
Proof.
  unfold completion. intros [Hin Hp]%first_such_Some. apply bool_decide_eq_true in Hp. split; [done|].
  apply list_elem_of_omap in Hin as ([[inum name] ok] & _ & Ho). simpl in Ho.
  destruct (_ || _); [done|]. injection Ho as <-. intros H0. apply subseteq_drop in H0. by apply c_string_no_nul in H0.
Qed.

(** Tab completion replaces the last word of the line by the first word that
    the directory offers and that begins with it, and reports by how much the
    line grew; if there is none the line is unchanged.  It does not look at the
    size of the buffer: a completion that does not fit is stored past its end. *)
Theorem tab_completion_replaces_last_word entries s rest :
  0 ∉ s → Forall proper_name entries →
  let buf := s ++ [0] ++ rest in
  let w := find_last_word s in
  match completion entries (drop w s) with
  | None => tab_completion (Directory T_DIR entries) buf = Ret 0 buf
  | Some n =>
      if (w + length n <? length buf)%nat then
        ∃ buf', tab_completion (Directory T_DIR entries) buf =
                  Ret (Z.of_nat (length (take w s ++ n)) - Z.of_nat (length s)) buf' ∧
          c_string buf' = take w s ++ n ∧ length buf' = length buf
      else ∃ why, tab_completion (Directory T_DIR entries) buf = Undefined why
  end.
Proof.
  intros Hs Hp buf w. pose proof (find_last_word_le s) as Hw. fold w in Hw.
  assert (tab_completion (Directory T_DIR entries) buf = complete_loop entries w (drop w s) buf) as ->.
  { unfold tab_completion, mbind, M_bind, Prelude.gets. replace (c_string buf) with s by (symmetry; by apply c_string_app). reflexivity. }
  rewrite complete_loop_spec by done.
  destruct (completion entries (drop w s)) as [n|] eqn:Hc; [|done].
  apply completion_no_nul in Hc as [_ Hn0].
  destruct (Nat.ltb_spec (w + length n) (length buf)) as [Hfit|Hover].
  - assert (buf = take w s ++ take (S (length n)) (drop w buf) ++ drop (w + S (length n)) buf) as E.
    { rewrite <-(take_drop w buf) at 1. unfold buf at 1. rewrite take_app_le by lia.
      rewrite <-(take_drop (S (length n)) (drop w buf)) at 1. by rewrite drop_drop. }
    assert (length (take w s) = w) as Hlw by (rewrite length_take; lia).
    pose proof (put_string_fits n (take w s) (take (S (length n)) (drop w buf)) (drop (w + S (length n)) buf)) as Hput.
    rewrite <-E, Hlw in Hput. erewrite bind_Ret by (apply Hput; rewrite length_take, length_drop; lia).
    eexists. split; [unfold mret, M_ret; f_equal; rewrite length_app, Hlw, length_drop; lia|]. split.
    + rewrite (assoc_L app), c_string_app; [done|]. rewrite not_elem_of_app. split; [|done].
      intros H0. apply Hs. by apply subseteq_take in H0.
    + rewrite !length_app, Hlw, length_drop. simpl. lia.
  - destruct (put_string_overruns n w buf Hover) as [why E]. exists why. unfold mbind, M_bind. by rewrite E.
Qed.

(** ** The lines of the input *)

(** The lines that [gets] with the buffer of [main] reads, up to the first that
    is empty. *)
Fixpoint lines (fuel : nat) (input : list Z) : list (list Z) :=
  match fuel with
  | O => []
  | S fuel' =>
      let '(l, rest) := Ulib.gets 100 input in
      if nth 0 l 0 =? 0 then [] else c_string l :: lines fuel' rest
  end.

Lemma gets_loop_bounds room input l rest : Ulib.gets_loop room input = (l, rest) →
  (length l ≤ room)%nat ∧ length input = (length l + length rest)%nat ∧ (∀ x, x ∈ rest → x ∈ input).
Proof.
  revert input l rest. induction room as [|room IH]; intros [|c input] l rest; simpl; try (intros [= <- <-]; simpl; split_and!; [lia|lia|done]).
  destruct (_ || _); [intros [= <- <-]; simpl; split_and!; [lia|lia|set_solver]|].
  destruct (Ulib.gets_loop room input) as [l' rest'] eqn:E. intros [= <- <-].
  destruct (IH _ _ _ E) as (? & ? & ?). simpl. split_and!; [lia|lia|set_solver].
Qed.

Lemma line_loop_spec dot nbuf room input l :
  9 ∉ input → (length l + room + 1)%nat = nbuf →
  let '(l', rest) := Ulib.gets_loop room input in
  line_loop dot (Z.of_nat nbuf) input (Z.of_nat (length l)) (l ++ replicate (room + 1) 0) =
    Ret (Z.of_nat (length (l ++ l')), rest) (l ++ l' ++ replicate (room + 1 - length l') 0).
Proof.
  revert input l. induction room as [|room IH]; intros input l H9 Hn.
  - assert (Ulib.gets_loop 0 input = ([], input)) as -> by (by destruct input).
    destruct input as [|c input]; simpl line_loop.
    + by rewrite app_nil_r.
    + replace (_ <? _) with false by (symmetry; apply Z.ltb_ge; lia). by rewrite app_nil_r.
  - destruct input as [|c input]; [by simpl; rewrite app_nil_r|]. simpl Ulib.gets_loop.
    apply not_elem_of_cons in H9 as [Hc H9]. cbn [line_loop].
    replace (_ <? _) with true by (symmetry; apply Z.ltb_lt; lia). cbn [negb].
    destruct (Z.eqb_spec c 9); [congruence|].
    assert (poke (Z.of_nat (length l)) c (l ++ replicate (S room + 1) 0) =
      Ret tt ((l ++ [c]) ++ replicate (room + 1) 0)) as Hpoke.
    { rewrite poke_ok by (rewrite length_app, length_replicate; lia).
      rewrite insert_app_r_alt, Nat.sub_diag by lia. simpl. by rewrite <-(assoc_L app). }
    assert (Z.of_nat (length l) + 1 = Z.of_nat (length (l ++ [c]))) as Hl by (rewrite length_app; simpl; lia).
    destruct (_ || _).
    + erewrite bind_Ret by exact Hpoke. rewrite Hl. unfold mret, M_ret. f_equal. simpl.
      rewrite Nat.sub_0_r. by rewrite <-(assoc_L app).
    + specialize (IH input (l ++ [c]) H9). destruct (Ulib.gets_loop room input) as [l' rest].
      erewrite bind_Ret by exact Hpoke. rewrite Hl. rewrite IH by (rewrite length_app; simpl; lia).
      rewrite <-!(assoc_L app). done.
Qed.

Lemma nth0_app_nul (l : list Z) r : nth 0 (l ++ 0 :: r) 0 = nth 0 l 0.
Proof. by destruct l. Qed.

Lemma c_string_app_nul l r : c_string (l ++ 0 :: r) = c_string l.
Proof. induction l as [|c l IH]; simpl; [done|]. by rewrite IH. Qed.

Lemma get_oneline_spec dot input buf : 9 ∉ input → length buf = 100%nat →
  let '(l, rest) := Ulib.gets 100 input in
  get_oneline_of_cmd dot 100 input buf =
    Ret (if nth 0 l 0 =? 0 then -1 else 0, rest) (l ++ replicate (100 - length l) 0).
Proof.
  intros H9 Hb. pose proof (line_loop_spec dot 100 99 input [] H9 eq_refl) as Hl.
  unfold Ulib.gets. change (Z.to_nat (100 - 1)) with 99%nat.
  destruct (Ulib.gets_loop 99 input) as [l rest] eqn:E. apply gets_loop_bounds in E as (Hle & _ & _).
  unfold get_oneline_of_cmd. change (Z.to_nat 100) with 100%nat.
  change (Z.of_nat 100) with 100 in Hl. change (Z.of_nat (length [])) with 0 in Hl.
  change ([] ++ replicate (99 + 1) 0) with (replicate 100 0) in Hl. change ([] ++ l) with l in Hl.
  erewrite bind_Ret by reflexivity. cbv beta. rewrite drop_ge, app_nil_r by lia. erewrite bind_Ret by exact Hl. cbv beta iota.
  replace (99 + 1 - length l)%nat with (S (99 - length l)) by lia.
  replace (100 - length l)%nat with (S (99 - length l)) by lia.
  change (replicate (S (99 - length l)) 0) with (0 :: replicate (99 - length l) 0).
  generalize (replicate (99 - length l) 0) as z. intros z.
  assert (poke (Z.of_nat (length l)) 0 (l ++ 0 :: z) = Ret tt (l ++ 0 :: z)) as Hpoke.
  { rewrite poke_ok by (rewrite length_app; simpl; lia). by rewrite insert_app_r_alt, Nat.sub_diag by lia. }
  erewrite bind_Ret by exact Hpoke. erewrite bind_Ret by reflexivity. by rewrite nth0_app_nul.
Qed.

(** On input without tabs the shell returns, and does what the commands of
    the lines tell it, line by line in the order of the input: the reading loop
    is [gets], it stays in the buffer of 100 bytes, and the fuel is enough. *)
Theorem shell_runs_every_line dot input :
  9 ∉ input →
  ∃ buf, main dot input = Ret (mjoin (commands [] <$> lines (S (length input)) input)) buf.
Proof.
  intros H9. unfold main. generalize (replicate 100 0) as buf, (eq_refl : length (replicate 100 0) = 100%nat).
  assert (length input < S (length input))%nat as Hf by lia. revert Hf H9.
  generalize (S (length input)) as fuel. intros fuel. revert input.
  induction fuel as [|fuel IH]; intros input Hf H9 buf Hb; [lia|]. cbn [main_loop lines].
  pose proof (get_oneline_spec dot input buf H9 Hb) as Hget.
  destruct (Ulib.gets 100 input) as [l rest] eqn:E. erewrite bind_Ret by exact Hget. cbv beta iota.
  unfold Ulib.gets in E. apply gets_loop_bounds in E as (Hle & Hlen & Hsub).
  destruct (nth 0 l 0 =? 0) eqn:E0; [by eexists|]. change (0 <? 0) with false. cbv beta iota.
  assert (1 ≤ length l)%nat by (destruct l; [done|simpl; lia]).
  assert (length (l ++ replicate (100 - length l) 0) = 100%nat) as Hb'.
  { rewrite length_app, length_replicate. change (Z.to_nat (100 - 1)) with 99%nat in Hle. lia. }
  assert (c_string (l ++ replicate (100 - length l) 0) = c_string l) as Hcs.
  { change (Z.to_nat (100 - 1)) with 99%nat in Hle.
    replace (100 - length l)%nat with (S (99 - length l)) by lia. apply c_string_app_nul. }
  destruct (IH rest) with (buf := l ++ replicate (100 - length l) 0) as [buf' E']; [lia|set_solver|done|].
  exists buf'. erewrite bind_Ret by reflexivity. cbv beta. rewrite Hcs. erewrite bind_Ret by exact E'. done.
Qed.

(** ** Commands of a line *)

Lemma commands_semicolon cmdstart l r : 59 ∉ l →
  commands cmdstart (l ++ 59 :: r) = process_one_cmd (cmdstart ++ l) :: commands [] r.
Proof.
  revert cmdstart. induction l as [|c l IH]; intros cmdstart Hl; simpl; [by rewrite app_nil_r|].
  apply not_elem_of_cons in Hl as [Hc Hl]. destruct (Z.eqb_spec c 59); [congruence|].
  rewrite IH by done. by rewrite <-(assoc_L app).
Qed.

Lemma commands_last cmdstart l : 59 ∉ l → commands cmdstart l = [process_one_cmd (cmdstart ++ l)].
Proof.
  revert cmdstart. induction l as [|c l IH]; intros cmdstart Hl; simpl; [by rewrite app_nil_r|].
  apply not_elem_of_cons in Hl as [Hc Hl]. destruct (Z.eqb_spec c 59); [congruence|].
  rewrite IH by done. by rewrite <-(assoc_L app).
Qed.

Lemma process_cd l : process_one_cmd (str "cd " ++ l) = Chdir (removelast l).
Proof.
  unfold process_one_cmd. rewrite bool_decide_true by (by apply prefix_app_r). f_equal.
  destruct l as [|c l]; [done|]. by rewrite removelast_app.
Qed.

(** The byte that [cd] removes is the newline only at the end of a line:
    after [cd dir;] the shell changes to the directory whose name lacks the
    last character of [dir]. *)
Theorem cd_before_semicolon_chops dir c rest :
  59 ∉ dir → c ≠ 59 →
  commands [] (str "cd " ++ dir ++ [10]) = [Chdir dir] ∧
  commands [] (str "cd " ++ dir ++ [c] ++ [59] ++ rest) = Chdir dir :: commands [] rest ∧
  (∀ r, commands [] (str "cd " ++ dir ++ [c] ++ [59] ++ rest) ≠ Chdir (dir ++ [c]) :: r).
Proof.
  intros Hd Hc.
  assert (commands [] (str "cd " ++ dir ++ [c] ++ [59] ++ rest) = Chdir dir :: commands [] rest) as E.
  { replace (str "cd " ++ dir ++ [c] ++ [59] ++ rest) with ((str "cd " ++ dir ++ [c]) ++ 59 :: rest)
      by (by rewrite <-!(assoc_L app)).
    rewrite commands_semicolon by (rewrite !not_elem_of_app; set_solver). rewrite app_nil_l, process_cd.
    by rewrite removelast_last. }
  split; [|split; [done|]].
  - rewrite commands_last by (rewrite !not_elem_of_app; set_solver). rewrite app_nil_l, process_cd.
    by rewrite removelast_last.
  - intros r. rewrite E. intros [= Ed _]. apply (f_equal length) in Ed. rewrite length_app in Ed. simpl in Ed. lia.
Qed.

(** ** Witnesses *)

(** Two spaces and the beginning of a name are completed from a directory of two
    entries; at the end of the buffer the same name does not fit. *)
Definition ex_entries : list (Z * list Z * bool) :=
  [(1, str "." ++ replicate 13 0, true); (2, str "catalogue" ++ replicate 5 0, true)].

Lemma tab_completion_replaces_last_word_witness :
  (∃ buf', tab_completion (Directory T_DIR ex_entries) (str "ls ca" ++ [0] ++ replicate 94 0) = Ret 7 buf' ∧
    c_string buf' = str "ls catalogue" ∧ length buf' = 100%nat) ∧
  (∃ why, tab_completion (Directory T_DIR ex_entries) ((replicate 95 32 ++ str "ca") ++ [0] ++ replicate 2 0) =
    Undefined why).
Proof.
  split.
  - apply (tab_completion_replaces_last_word ex_entries (str "ls ca") (replicate 94 0));
      apply (bool_decide_unpack _); vm_compute; exact I.
  - apply (tab_completion_replaces_last_word ex_entries (replicate 95 32 ++ str "ca") (replicate 2 0));
      apply (bool_decide_unpack _); vm_compute; exact I.
Defined.

Lemma shell_runs_every_line_witness :
  ∃ buf, main NoDirectory (str "cd a;ls" ++ [10] ++ str "wait 12" ++ [10]) =
    Ret [Chdir []; RunChild (str "ls" ++ [10]); SleepTicks 12] buf.
Proof.
  apply (shell_runs_every_line NoDirectory (str "cd a;ls" ++ [10] ++ str "wait 12" ++ [10])).
  apply (bool_decide_unpack _). vm_compute. exact I.
Defined.

Lemma cd_before_semicolon_chops_witness :
  commands [] (str "cd src;ls") = [Chdir (str "sr"); RunChild (str "ls")].
Proof. apply (cd_before_semicolon_chops (str "sr") 99 (str "ls")); [|done]. apply (bool_decide_unpack _). vm_compute. exact I. Defined.

End Line.
