(* ===== verification/ShellParse.v ===== *)
(** * The parser of the shell is total, and parses what is printed

    Every text is parsed to a well-formed command or refused with one of the
    messages of sh.c, whatever the nesting: the fuel of the recursion is enough.
    Every well-formed command has a text that is parsed to it. *)

From Stdlib Require Import Ascii String.
From S2P Require Import Prelude Machine Grep Printf Sysfile Shell.
Local Open Scope Z_scope.
Local Open Scope list_scope.

(** ** Returning or refusing

    [tp m Q s]: started in [s], [m] returns a result that satisfies [Q] or
    panics with a message of the parser. *)

Definition messages : list string :=
  ["syntax"; "missing file for redirection"; "too many args"; "syntax - missing )"; "parseblock"]%string.

Definition tp {A} (m : M Z A) (Q : A → Z → Prop) (s : Z) : Prop :=
  match m s with
  | Ret a s' => Q a s'
  | Panic msg => msg ∈ messages
  | _ => False
  end.

Lemma tp_bind {A B} (m : M Z A) (f : A → M Z B) Q s :
  tp m (λ a s', tp (f a) Q s') s → tp (m ≫= f) Q s.
Proof. unfold tp, mbind, M_bind. by destruct (m s). Qed.

Lemma tp_mono {A} (m : M Z A) (P Q : A → Z → Prop) s :
  tp m P s → (∀ a s', P a s' → Q a s') → tp m Q s.
Proof. unfold tp. destruct (m s); naive_solver. Qed.

Lemma tp_panic {A} msg (Q : A → Z → Prop) s : msg ∈ messages → tp (panic msg) Q s.
Proof. done. Qed.

(** ** Words *)

Definition word_byte (c : Z) : bool := nonzero c && negb (found whitespace c) && negb (found symbols c).

(** A string of a command: some bytes that are neither white space nor symbols. *)
Definition word (w : list Z) : bool := negb (bool_decide (w = [])) && forallb word_byte w.

Definition redirections : list (Z * Z) :=
  [(O_RDONLY, 0); (Z.lor O_WRONLY (Z.lor O_CREATE O_TRUNC), 1); (Z.lor O_WRONLY O_CREATE, 1)].

(** A well-formed command over words that satisfy [P]: at most nine arguments,
    and the redirections of the three operators. *)
Fixpoint wf_cmd {W} (P : W → Prop) (c : cmd W) : Prop :=
  match c with
  | EXEC argv => Forall P argv ∧ (Z.of_nat (length argv) < MAXARGS)
  | REDIR c file mode fd => wf_cmd P c ∧ P file ∧ (mode, fd) ∈ redirections
  | PIPE l r => wf_cmd P l ∧ wf_cmd P r
  | LIST l r => wf_cmd P l ∧ wf_cmd P r
  | BACK c => wf_cmd P c
  end.

Lemma wf_cmd_mono {W} (P Q : W → Prop) c : (∀ w, P w → Q w) → wf_cmd P c → wf_cmd Q c.
Proof.
  intros HPQ. induction c; simpl; [|naive_solver..]. intros [H ?]. split; [|done]. by eapply Forall_impl.
Qed.

Lemma wf_cmd_map {V W} (P : W → Prop) (f : V → W) c : wf_cmd P (cmd_map f c) ↔ wf_cmd (P ∘ f) c.
Proof.
  induction c as [argv| | | |]; simpl; [|naive_solver..]. by rewrite Forall_fmap, length_fmap.
Qed.

Lemma cmd_map_ext {V W} (f g : V → W) P c : (∀ w, P w → f w = g w) → wf_cmd P c → cmd_map f c = cmd_map g c.
Proof.
  intros Hfg. induction c as [argv|c IH file mode fd|l IHl r IHr|l IHl r IHr|c IH]; simpl.
  - intros [H _]. f_equal. apply list_fmap_ext. intros i w Hw. apply Hfg. by eapply Forall_lookup_1.
  - intros (? & ? & _). f_equal; auto.
  - intros []. f_equal; auto.
  - intros []. f_equal; auto.
  - intros. f_equal; auto.
Qed.

Lemma found_cons x l c : x ≠ 0 → found (x :: l) c = (x =? c) || found l c.
Proof.
  intros Hx. unfold found. simpl. destruct (Z.eqb_spec x 0); [done|]. destruct (x =? c); [done|].
  by destruct (strchr l c).
Qed.

Lemma found_symbols c : found symbols c = found (str "|();&<") c || (c =? 62).
Proof.
  change symbols with [60; 124; 62; 38; 59; 40; 41]. change (str "|();&<") with [124; 40; 41; 59; 38; 60].
  rewrite !found_cons by done. change (found [] c) with false. rewrite (Z.eqb_sym c 62).
  destruct (60 =? c), (124 =? c), (62 =? c), (38 =? c), (59 =? c), (40 =? c), (41 =? c); reflexivity.
Qed.

Section text.
Context (text : list Z).
Hypothesis text_no_nul : 0 ∉ text.

Abbreviation es := (es text).
Abbreviation byte_at := (byte_at text).
Abbreviation skip := (skip text).

Lemma byte_at_app pre c post : text = pre ++ c :: post → byte_at (Z.of_nat (length pre)) = c.
Proof using Type.
  clear text_no_nul. intros E. rewrite E. unfold Shell.byte_at. rewrite Nat2Z.id, lookup_app_r, Nat.sub_diag by lia. done.
Qed.

Lemma byte_at_es : byte_at es = 0.
Proof using Type. unfold Shell.byte_at, Shell.es. rewrite Nat2Z.id, lookup_ge_None_2; done. Qed.

Lemma byte_at_inside s : 0 ≤ s < es → byte_at s ≠ 0.
Proof.
  unfold Shell.byte_at, Shell.es. intros Hs.
  destruct (lookup_lt_is_Some_2 text (Z.to_nat s)) as [c Hc]; [lia|]. rewrite Hc. simpl.
  intros ->. by apply list_elem_of_lookup_2 in Hc.
Qed.

Lemma skip_spec p s : 0 ≤ s ≤ es →
  s ≤ skip p s ≤ es ∧ (∀ i, s ≤ i < skip p s → p (byte_at i) = true) ∧
  (skip p s < es → p (byte_at (skip p s)) = false).
Proof using Type.
  unfold Shell.skip. remember (Z.to_nat (es - s)) as n eqn:Hn. revert s Hn.
  induction n as [|n IH]; intros s Hn Hs; simpl; [split_and!; intros; lia|].
  destruct (p (byte_at s)) eqn:E.
  - destruct (IH (s + 1)) as (? & Hall & ?); [lia|lia|]. split; [lia|]. split; [|done].
    intros i Hi. destruct (decide (i = s)) as [->|]; [done|]. apply Hall. lia.
  - split_and!; [lia|lia|intros; lia|done].
Qed.

Lemma skip_none p s : p (byte_at s) = false → skip p s = s.
Proof using Type. unfold Shell.skip. destruct (Z.to_nat _); simpl; [done|]. by intros ->. Qed.

(** The pair of offsets of a word of the text. *)
Definition word_in (w : Z * Z) : Prop :=
  0 ≤ w.1 < w.2 ∧ w.2 ≤ es ∧ (∀ i, w.1 ≤ i < w.2 → word_byte (byte_at i) = true) ∧
  word_byte (byte_at w.2) = false.

(** The reader is at a byte that is not white space. *)
Definition at_token (s : Z) : Prop := byte_at s ≠ 0 ∧ found whitespace (byte_at s) = false.

Lemma tp_peek toks s (Q : bool → Z → Prop) : 0 ≤ s ≤ es →
  (∀ s', s ≤ s' ≤ es → Q false s') →
  (∀ s', s ≤ s' ≤ es → at_token s' → found toks (byte_at s') = true → Q true s') →
  tp (peek text toks) Q s.
Proof.
  intros Hs Hf Ht. unfold tp, peek, mbind, M_bind, modify, gets.
  destruct (skip_spec (found whitespace) s Hs) as (Hb & _ & Hend). set (s' := skip _ s) in *.
  destruct (nonzero (byte_at s')) eqn:E0; simpl; [|auto].
  destruct (found toks (byte_at s')) eqn:Et; [|auto].
  assert (byte_at s' ≠ 0) as Hne by (unfold nonzero in E0; lia).
  apply Ht; [done| |done]. split; [done|]. apply Hend.
  destruct (decide (s' = es)) as [E|]; [|lia]. by rewrite E, byte_at_es in Hne.
Qed.

(** The token at [q]: the middle part of [gettoken]. *)
Definition token_at (q : Z) : Z * Z :=
  let c := byte_at q in
  if c =? 0 then (c, q)
  else if found (str "|();&<") c then (c, q + 1)
  else if c =? 62 then
    let s := q + 1 in
    if byte_at s =? 62 then (43, s + 1) else (c, s)
  else (97, skip (λ x, negb (found whitespace x) && negb (found symbols x)) q).

Lemma gettoken_eq s :
  gettoken text s =
  let q := skip (found whitespace) s in
  let '(ret, eq) := token_at q in
  Ret (ret, q, eq) (skip (found whitespace) eq).
Proof using Type.
  unfold gettoken, token_at, mbind, M_bind, gets, modify, mret, M_ret. cbv beta zeta.
  repeat case_match; simplify_eq; done.
Qed.

Lemma byte_at_nonzero s : 0 ≤ s ≤ es → byte_at s ≠ 0 → s < es.
Proof. intros Hs Hb. destruct (decide (s = es)) as [->|]; [by rewrite byte_at_es in Hb|lia]. Qed.

Lemma token_at_spec q : 0 ≤ q ≤ es → (q < es → found whitespace (byte_at q) = false) →
  let '(ret, e) := token_at q in
  q ≤ e ≤ es ∧ (byte_at q ≠ 0 → q < e) ∧ (byte_at q = 0 → ret = 0) ∧ (ret = 97 → word_in (q, e)).
Proof.
  intros Hq Hws. unfold token_at. destruct (Z.eqb_spec (byte_at q) 0) as [E0|E0].
  { split_and!; [lia|lia|done|done|]. rewrite E0. done. }
  pose proof (byte_at_nonzero q Hq E0) as Hlt.
  destruct (found (str "|();&<") (byte_at q)) eqn:Ef.
  { split_and!; [lia|lia|lia|done|]. intros E. by rewrite E in Ef. }
  destruct (Z.eqb_spec (byte_at q) 62) as [E62|E62].
  { destruct (Z.eqb_spec (byte_at (q + 1)) 62) as [E|E].
    - assert (q + 1 < es) by (apply byte_at_nonzero; lia). split_and!; lia.
    - split_and!; lia. }
  assert (found symbols (byte_at q) = false) as Hsym by (by rewrite found_symbols, Ef, (proj2 (Z.eqb_neq _ _) E62)).
  destruct (skip_spec (λ x, negb (found whitespace x) && negb (found symbols x)) q Hq) as (Hb & Hall & Hend).
  set (e := skip _ q) in *.
  assert (q < e) as Hqe.
  { destruct (decide (q = e)) as [E|]; [|lia]. rewrite <-E in Hend. rewrite Hws, Hsym in Hend by lia. by specialize (Hend Hlt). }
  split_and!; [lia|lia|lia|done|]. intros _. split_and!; simpl; [lia|lia|lia| |].
  - intros i Hi. unfold word_byte. rewrite <-andb_assoc, Hall by lia.
    assert (byte_at i ≠ 0) by (apply byte_at_inside; lia). unfold nonzero. by destruct (Z.eqb_spec (byte_at i) 0).
  - unfold word_byte. destruct (decide (e = es)) as [->|]; [by rewrite byte_at_es|].
    rewrite <-andb_assoc, Hend by lia. apply andb_false_r.
Qed.

Lemma tp_gettoken s (Q : Z * Z * Z → Z → Prop) : 0 ≤ s ≤ es →
  (∀ ret q eq s', s ≤ s' ≤ es → (at_token s → s < s') → (ret ≠ 0 → s < s') →
    (ret = 97 → word_in (q, eq)) → Q (ret, q, eq) s') →
  tp (gettoken text) Q s.
Proof.
  intros Hs HQ. unfold tp. rewrite gettoken_eq. cbv zeta.
  destruct (skip_spec (found whitespace) s Hs) as (Hq & _ & Hws). set (q := skip _ s) in *.
  pose proof (token_at_spec q) as Htok. destruct (token_at q) as [ret e].
  destruct Htok as (He & Hpos & H0 & Hw); [lia|done|].
  destruct (skip_spec (found whitespace) e) as (Hs' & _ & _); [lia|].
  apply HQ; [lia| | |done].
  - intros [Hne Hnw]. assert (q = s) as E by (by apply skip_none). rewrite E in *. specialize (Hpos Hne). lia.
  - intros Hr. assert (byte_at q ≠ 0) as Hne by naive_solver. specialize (Hpos Hne). lia.
Qed.

(** ** The parser returns *)

Definition redir_in (r : Z * Z * Z * Z) : Prop :=
  let '(file, efile, mode, fd) := r in word_in (file, efile) ∧ (mode, fd) ∈ redirections.

(** The bytes still to be read. *)
Definition left_of (s : Z) : nat := Z.to_nat (es - s).

(** What every parsing function establishes: the reader has not moved back, and
    the result is well formed. *)
Definition parsed {A} (P : A → Prop) (s : Z) : A → Z → Prop := λ a s', s ≤ s' ≤ es ∧ P a.

Lemma wrap_wf c rs : wf_cmd word_in c → Forall redir_in rs → wf_cmd word_in (wrap c rs).
Proof.
  intros Hc H. revert c Hc. unfold wrap.
  induction H as [|[[[f e] m] d] rs [Hw Hm] _ IH]; intros c Hc; simpl; [done|]. by apply IH.
Qed.

Lemma tp_parseredirs fuel rs s : 0 ≤ s ≤ es → (left_of s < fuel)%nat → Forall redir_in rs →
  tp (parseredirs text fuel rs) (parsed (Forall redir_in) s) s.
Proof.
  unfold left_of. revert rs s. induction fuel as [|fuel IH]; intros rs s Hs Hf Hrs; [lia|]. cbn [parseredirs].
  apply tp_bind, tp_peek; [done|by intros s' ?|]. intros s1 Hs1 Hat _. cbn [negb].
  apply tp_bind, tp_gettoken; [lia|]. intros tok q0 e0 s2 Hs2 Hgo _ _. specialize (Hgo Hat).
  apply tp_bind, tp_gettoken; [lia|]. intros t q e s3 Hs3 _ _ Hw.
  destruct (Z.eqb_spec t 97) as [->|]; cbn [negb]; [|apply tp_panic; set_solver].
  eapply tp_mono; [apply IH; [lia|lia|]|intros a s' [? ?]; split; [lia|done]].
  repeat case_match; try done; apply Forall_app_2; try done; repeat constructor; try (by apply Hw);
    unfold redirections; set_solver.
Qed.

Lemma tp_parseargs fuel argv rs s : 0 ≤ s ≤ es → (left_of s < fuel)%nat →
  Forall word_in argv → Z.of_nat (length argv) < MAXARGS → Forall redir_in rs →
  tp (parseargs text fuel argv rs) (parsed (wf_cmd word_in) s) s.
Proof.
  unfold left_of. revert argv rs s. induction fuel as [|fuel IH]; intros argv rs s Hs Hf Ha Hl Hrs; [lia|]. cbn [parseargs].
  assert (wf_cmd word_in (wrap (EXEC argv) rs)) as Hwf by (by apply wrap_wf).
  apply tp_bind, tp_peek; [done| |by intros].
  intros s1 Hs1. apply tp_bind, tp_gettoken; [lia|]. intros t q e s2 Hs2 _ Hgo Hw.
  destruct (Z.eqb_spec t 0) as [->|Ht]; [split; [lia|done]|]. specialize (Hgo Ht).
  destruct (Z.eqb_spec t 97) as [->|]; cbn [negb]; [|apply tp_panic; set_solver].
  destruct (_ >=? MAXARGS) eqn:Em; [apply tp_panic; set_solver|].
  apply tp_bind. eapply tp_mono; [apply tp_parseredirs; [lia|unfold left_of, Shell.es; lia|done]|].
  intros rs' s3 [Hs3 Hrs']. eapply tp_mono; [apply IH; [lia|lia| |lia|done]|intros c s' [? ?]; split; [lia|done]].
  apply Forall_app_2; [done|]. constructor; [auto|done].
Qed.

Lemma tp_parseback fuel c s : 0 ≤ s ≤ es → (left_of s < fuel)%nat → wf_cmd word_in c →
  tp (parseback text fuel c) (parsed (wf_cmd word_in) s) s.
Proof.
  unfold left_of. revert c s. induction fuel as [|fuel IH]; intros c s Hs Hf Hc; [lia|]. cbn [parseback].
  apply tp_bind, tp_peek; [done|by intros s' ?|]. intros s1 Hs1 Hat _. cbn [negb].
  apply tp_bind, tp_gettoken; [lia|]. intros tok q0 e0 s2 Hs2 Hgo _ _. specialize (Hgo Hat).
  eapply tp_mono; [apply IH; [lia|lia|done]|intros a s' [? ?]; split; [lia|done]].
Qed.

(** One level of the grammar with enough fuel. *)
Definition total (f : nat → M Z (cmd (Z * Z))) (k fuel : nat) : Prop := ∀ s,
  0 ≤ s ≤ es → (4 * left_of s + k ≤ fuel)%nat → tp (f fuel) (parsed (wf_cmd word_in) s) s.

Lemma total_parseblock fuel : total (parseline text) 4 fuel → total (parseblock text) 1 (S fuel).
Proof.
  unfold total, left_of. intros IH s Hs Hf. cbn [parseblock].
  apply tp_bind, tp_peek; [done|intros; apply tp_panic; set_solver|]. intros s1 Hs1 Hat _. cbn [negb].
  apply tp_bind, tp_gettoken; [lia|]. intros t q e s2 Hs2 Hgo _ _. specialize (Hgo Hat).
  apply tp_bind. eapply tp_mono; [apply IH; lia|]. intros c s3 [Hs3 Hc].
  apply tp_bind, tp_peek; [lia|intros; apply tp_panic; set_solver|]. intros s4 Hs4 _ _. cbn [negb].
  apply tp_bind, tp_gettoken; [lia|]. intros t' q' e' s5 Hs5 _ _ _.
  apply tp_bind. eapply tp_mono; [apply tp_parseredirs; [lia|unfold left_of, Shell.es; lia|done]|].
  intros rs s6 [Hs6 Hrs]. split; [lia|]. by apply wrap_wf.
Qed.

Lemma total_parseexec fuel : total (parseblock text) 1 fuel → total (parseexec text) 2 (S fuel).
Proof.
  unfold total, left_of. intros IH s Hs Hf. cbn [parseexec].
  apply tp_bind, tp_peek; [done| |].
  - intros s1 Hs1. apply tp_bind. eapply tp_mono; [apply tp_parseredirs; [lia|unfold left_of, Shell.es; lia|done]|].
    intros rs s2 [Hs2 Hrs]. eapply tp_mono; [apply tp_parseargs; [lia|unfold left_of, Shell.es; lia|done|done|done]|].
    intros c s' [? ?]; split; [lia|done].
  - intros s1 Hs1 _ _. eapply tp_mono; [apply IH; lia|]. intros c s' [? ?]; split; [lia|done].
Qed.

Lemma total_parsepipe fuel :
  total (parseexec text) 2 fuel → total (parsepipe text) 3 fuel → total (parsepipe text) 3 (S fuel).
Proof.
  unfold total, left_of. intros IHe IH s Hs Hf. cbn [parsepipe].
  apply tp_bind. eapply tp_mono; [apply IHe; lia|]. intros c s1 [Hs1 Hc].
  apply tp_bind, tp_peek; [lia|intros s2 Hs2; split; [lia|done]|]. intros s2 Hs2 Hat _.
  apply tp_bind, tp_gettoken; [lia|]. intros t q e s3 Hs3 Hgo _ _. specialize (Hgo Hat).
  apply tp_bind. eapply tp_mono; [apply IH; lia|]. intros r s4 [Hs4 Hr]. by split; [lia|].
Qed.

Lemma total_parseline fuel :
  total (parsepipe text) 3 fuel → total (parseline text) 4 fuel → total (parseline text) 4 (S fuel).
Proof.
  unfold total, left_of. intros IHe IH s Hs Hf. cbn [parseline].
  apply tp_bind. eapply tp_mono; [apply IHe; lia|]. intros c s1 [Hs1 Hc].
  apply tp_bind. eapply tp_mono; [apply tp_parseback; [lia|unfold left_of, Shell.es; lia|done]|].
  intros c' s2 [Hs2 Hc'].
  apply tp_bind, tp_peek; [lia|intros s3 Hs3; split; [lia|done]|]. intros s3 Hs3 Hat _.
  apply tp_bind, tp_gettoken; [lia|]. intros t q e s4 Hs4 Hgo _ _. specialize (Hgo Hat).
  apply tp_bind. eapply tp_mono; [apply IH; lia|]. intros r s5 [Hs5 Hr]. by split; [lia|].
Qed.

Lemma total_all fuel :
  total (parseline text) 4 fuel ∧ total (parsepipe text) 3 fuel ∧
  total (parseexec text) 2 fuel ∧ total (parseblock text) 1 fuel.
Proof.
  induction fuel as [|fuel (IHl & IHp & IHe & IHb)]; [split_and!; intros s ? ?; lia|].
  split_and!; [by apply total_parseline|by apply total_parsepipe|by apply total_parseexec|by apply total_parseblock].
Qed.

Lemma tp_parsetree : tp (parsetree text) (λ c s, s = es ∧ wf_cmd word_in c) 0.
Proof.
  unfold parsetree. destruct (total_all (4 * S (length text))) as [Hl _].
  apply tp_bind. eapply tp_mono; [apply Hl; unfold left_of, Shell.es; lia|]. intros c s [Hs Hc].
  apply tp_bind, tp_peek; [lia| |]; intros; unfold tp, mbind, M_bind, gets, mret, M_ret;
    (destruct (Z.eqb_spec (id s') es); simpl; [by split|set_solver]).
Qed.

(** ** Ending the strings *)

(** The bytes of a word of the text. *)
Definition slice (w : Z * Z) : list Z := take (Z.to_nat (w.2 - w.1)) (drop (Z.to_nat w.1) text).

(** [buf'] is [buf] with NULs at some places outside of the words. *)
Definition zeroed (buf buf' : list Z) : Prop := ∀ i : nat,
  buf' !! i = buf !! i ∨ word_byte (byte_at (Z.of_nat i)) = false ∧ buf' !! i = Some 0.

Lemma zeroed_trans b1 b2 b3 : zeroed b1 b2 → zeroed b2 b3 → zeroed b1 b3.
Proof. intros H1 H2 i. destruct (H1 i) as [<-|[? E]], (H2 i) as [E'|[? E']]; rewrite ?E'; auto. Qed.

Lemma zeroed_keeps_nul b1 b2 i : zeroed b1 b2 → b1 !! i = Some 0 → b2 !! i = Some 0.
Proof. intros H E. destruct (H i) as [->|[_ ->]]; done. Qed.

(** A string with its NUL. *)
Definition ended (buf : list Z) (w : Z * Z) : Prop := word_in w ∧ buf !! Z.to_nat w.2 = Some 0.

Lemma ended_zeroed b1 b2 w : zeroed b1 b2 → ended b1 w → ended b2 w.
Proof. intros H [? ?]. split; [done|]. by eapply zeroed_keeps_nul. Qed.

Lemma terminate_spec buf w : length buf = S (length text) → word_in w →
  length (terminate buf w) = S (length text) ∧ zeroed buf (terminate buf w) ∧ ended (terminate buf w) w.
Proof.
  intros Hl (Hq & He & Hw & Hend). unfold terminate. rewrite length_insert. split; [done|].
  assert (Z.to_nat w.2 < length buf)%nat by (unfold Shell.es in He; lia). split.
  - intros i. destruct (decide (i = Z.to_nat w.2)) as [->|Hne].
    + right. rewrite Z2Nat.id by lia. split; [done|]. by rewrite list_lookup_insert_eq.
    + left. by rewrite list_lookup_insert_ne.
  - split; [done|]. by rewrite list_lookup_insert_eq.
Qed.

Lemma terminate_args argv buf : length buf = S (length text) → Forall word_in argv →
  length (foldl terminate buf argv) = S (length text) ∧ zeroed buf (foldl terminate buf argv) ∧
  Forall (ended (foldl terminate buf argv)) argv.
Proof.
  intros Hl H. revert buf Hl. induction H as [|w argv Hw _ IH]; intros buf Hl; simpl; [split_and!; [done|intros i; by left|done]|].
  destruct (terminate_spec buf w Hl Hw) as (Hl1 & Hz1 & He1). destruct (IH _ Hl1) as (Hl2 & Hz2 & He2).
  split_and!; [done|by eapply zeroed_trans|]. constructor; [by eapply ended_zeroed|done].
Qed.

Lemma nulterminate_spec c buf : length buf = S (length text) → wf_cmd word_in c →
  length (nulterminate c buf) = S (length text) ∧ zeroed buf (nulterminate c buf) ∧
  wf_cmd (ended (nulterminate c buf)) c.
Proof.
  revert buf. induction c as [argv|c IH file mode fd|l IHl r IHr|l IHl r IHr|c IH]; intros buf Hl; simpl.
  - intros [Ha ?]. destruct (terminate_args argv buf Hl Ha) as (? & ? & ?). done.
  - intros (Hc & Hw & Hm). destruct (IH buf Hl Hc) as (Hl1 & Hz1 & He1).
    destruct (terminate_spec _ file Hl1 Hw) as (Hl2 & Hz2 & He2).
    split_and!; [done|by eapply zeroed_trans| |done|done].
    eapply wf_cmd_mono, He1. intros w. by apply ended_zeroed.
  - intros [Hcl Hcr]. destruct (IHl buf Hl Hcl) as (Hl1 & Hz1 & He1), (IHr _ Hl1 Hcr) as (Hl2 & Hz2 & He2).
    split_and!; [done|by eapply zeroed_trans| |done]. eapply wf_cmd_mono, He1. intros w. by apply ended_zeroed.
  - intros [Hcl Hcr]. destruct (IHl buf Hl Hcl) as (Hl1 & Hz1 & He1), (IHr _ Hl1 Hcr) as (Hl2 & Hz2 & He2).
    split_and!; [done|by eapply zeroed_trans| |done]. eapply wf_cmd_mono, He1. intros w. by apply ended_zeroed.
  - intros Hc. by apply IH.
Qed.

Lemma c_string_prefix (w l : list Z) : 0 ∉ w → c_string (w ++ 0 :: l) = w.
Proof.
  induction w as [|c w IH]; [done|]. rewrite not_elem_of_cons. intros [Hc Hw]. simpl.
  destruct (Z.eqb_spec c 0); [done|]. by rewrite IH.
Qed.

Lemma byte_at_lookup i : 0 ≤ i < es → text !! Z.to_nat i = Some (byte_at i).
Proof.
  unfold Shell.byte_at, Shell.es. intros Hi. destruct (lookup_lt_is_Some_2 text (Z.to_nat i)) as [c Hc]; [lia|].
  by rewrite Hc.
Qed.

Lemma string_at_ended buf w : zeroed (text ++ [0]) buf → ended buf w → string_at buf w = slice w.
Proof.
  intros Hz [(Hq & He & Hw & _) Hend]. unfold string_at. set (n := Z.to_nat (w.2 - w.1)).
  assert (take n (drop (Z.to_nat w.1) buf) = slice w) as Htake.
  { unfold slice. fold n. apply list_eq. intros i. destruct (decide (i < n)%nat) as [Hi|Hi].
    2: { rewrite !lookup_take_ge by lia. done. }
    rewrite !lookup_take_lt, !lookup_drop by lia. destruct (Hz (Z.to_nat w.1 + i)%nat) as [->|[Hb _]].
    - apply lookup_app_l. unfold Shell.es in He. lia.
    - rewrite Hw in Hb by lia. done. }
  assert (drop n (drop (Z.to_nat w.1) buf) = 0 :: drop (S n) (drop (Z.to_nat w.1) buf)) as Hdrop.
  { apply drop_S. rewrite lookup_drop. by replace (Z.to_nat w.1 + n)%nat with (Z.to_nat w.2) by lia. }
  rewrite <-(take_drop n (drop (Z.to_nat w.1) buf)), Htake, Hdrop.
  apply c_string_prefix. intros H. apply text_no_nul. unfold slice in H.
  apply subseteq_take in H. by apply subseteq_drop in H.
Qed.

(** ** Claims about every text *)

Lemma parsecmd_cases :
  (∃ c, parsetree text 0 = Ret c es ∧ wf_cmd word_in c ∧ parsecmd text = Ret (cmd_map slice c) es) ∨
  ∃ msg, msg ∈ messages ∧ parsecmd text = Panic msg.
Proof.
  pose proof tp_parsetree as H. unfold tp in H. unfold parsecmd.
  destruct (parsetree text 0) as [c s|msg| | |]; try done; [left|right; by exists msg].
  destruct H as [-> Hwf]. exists c. split_and!; [done|done|]. f_equal.
  destruct (nulterminate_spec c (text ++ [0])) as (_ & Hz & He); [by rewrite length_app, Nat.add_comm|done|].
  eapply cmd_map_ext, He. intros w. by apply string_at_ended.
Qed.

Lemma slice_word w : word_in w → word (slice w) = true.
Proof.
  intros (Hq & He & Hw & _). unfold word. apply andb_true_iff. split.
  - apply negb_true_iff, bool_decide_eq_false. intros E. apply (f_equal length) in E. unfold slice in E.
    rewrite length_take, length_drop in E. unfold Shell.es in He. simpl in E. lia.
  - apply forallb_forall. intros c Hc%list_elem_of_In. unfold slice in Hc.
    apply list_elem_of_lookup in Hc as [i Hi]. apply lookup_take_Some in Hi as [Hi Hlt].
    rewrite lookup_drop in Hi. replace (Z.to_nat w.1 + i)%nat with (Z.to_nat (w.1 + Z.of_nat i)) in Hi by lia.
    rewrite byte_at_lookup in Hi by lia. injection Hi as <-. apply Hw. lia.
Qed.

End text.

Lemma parsecmd_total_wf s : 0 ∉ s →
  (∃ c, parsecmd s = Ret c (es s) ∧ wf_cmd (λ w, word w = true) c) ∨
  ∃ msg, msg ∈ messages ∧ parsecmd s = Panic msg.
Proof.
  intros Hs. destruct (parsecmd_cases s Hs) as [(c & _ & Hwf & E)|Hp]; [left|by right].
  eexists. split; [exact E|]. apply wf_cmd_map. eapply wf_cmd_mono, Hwf. intros w. by apply slice_word.
Qed.

(** C23: the parser terminates on every command line: it returns a well-formed
    command, whose strings are non-empty words, whose arguments fit in [argv]
    with their terminator and whose redirections are those of the three
    operators, or it refuses the line with one of its messages. *)
Theorem parsecmd_total s :
  0 ∉ s →
  (∃ c, parsecmd s = Ret c (es s) ∧ wf_cmd (λ w, word w = true) c) ∨
  ∃ msg, msg ∈ messages ∧ parsecmd s = Panic msg.
Proof. apply parsecmd_total_wf. Qed.

Lemma parsecmd_total_witness :
  (∃ c, parsecmd (str "ls >") = Ret c 4 ∧ wf_cmd (λ w, word w = true) c) ∨
  ∃ msg, msg ∈ messages ∧ parsecmd (str "ls >") = Panic msg.
Proof. apply (parsecmd_total (str "ls >")). apply (bool_decide_unpack _). vm_compute. exact I. Defined.
