(* ===== verification/ShellShow.v ===== *)
(** * Printing commands and parsing them back

    A text for every well-formed command, with parentheses where the grammar
    of sh.c needs them, and the proof that [parsecmd] reads it back. *)

From Stdlib Require Import Ascii String.
From S2P Require Import Prelude Machine Grep Printf Sysfile Shell ShellLine ShellParse.
Import Line.
Local Open Scope Z_scope.
Local Open Scope list_scope.

(** ** Printing *)

(** The levels of the grammar: a line, the commands of a line, of a background
    command's pipeline, and of a pipeline's elements. *)
Inductive level : Type := Line | Back | Pipeline | Element.

Definition paren (b : bool) (s : list Z) : list Z := if b then [40] ++ s ++ [41] else s.

Definition operator (mode fd : Z) : list Z :=
  if fd =? 0 then [60] else if mode =? Z.lor O_WRONLY O_CREATE then [62; 62] else [62].

Definition show_redir (r : list Z * Z * Z) : list Z :=
  let '(file, mode, fd) := r in operator mode fd ++ file ++ [32].

Definition show_args (argv : list (list Z)) : list Z := mjoin ((λ w, w ++ [32]) <$> argv).

Fixpoint show (v : level) (c : cmd (list Z)) : list Z :=
  match c with
  | EXEC argv => show_args argv
  | REDIR c file mode fd => show Element c ++ show_redir (file, mode, fd)
  | PIPE l r =>
      paren (match v with Element => true | _ => false end) (show Element l ++ [124] ++ show Pipeline r)
  | LIST l r =>
      paren (match v with Line => false | _ => true end) (show Back l ++ [59] ++ show Line r)
  | BACK c =>
      paren (match v with Pipeline | Element => true | _ => false end) (show Back c ++ [38])
  end.

Definition show_redirs (rs : list (list Z * Z * Z)) : list Z := mjoin (show_redir <$> rs).

Lemma show_args_cons w argv : show_args (w :: argv) = w ++ [32] ++ show_args argv.
Proof. unfold show_args, mjoin. simpl. by rewrite <-(assoc_L app). Qed.

Lemma show_redirs_cons w mode fd rs :
  show_redirs ((w, mode, fd) :: rs) = operator mode fd ++ w ++ [32] ++ show_redirs rs.
Proof. unfold show_redirs, mjoin. simpl. by rewrite <-!(assoc_L app). Qed.

(** A command with redirections around it, the first one innermost. *)
Definition redirect (c : cmd (list Z)) (rs : list (list Z * Z * Z)) : cmd (list Z) :=
  foldl (λ c '(file, mode, fd), REDIR c file mode fd) c rs.

Abbreviation wf := (wf_cmd (λ w, word w = true)).

Definition wf_redir (r : list Z * Z * Z) : Prop :=
  let '(file, mode, fd) := r in word file = true ∧ (mode, fd) ∈ redirections.

Definition not_redir (c : cmd (list Z)) : Prop := match c with REDIR _ _ _ _ => False | _ => True end.

(** The redirections of a command and the command inside them. *)
Lemma spine c : wf c → ∃ b rs,
  c = redirect b rs ∧ not_redir b ∧ wf b ∧ Forall wf_redir rs ∧
  show Element c = show Element b ++ show_redirs rs.
Proof.
  induction c as [|c IH file mode fd| | |]; intros Hwf.
  2: { destruct Hwf as (Hc & Hw & Hm). destruct (IH Hc) as (b & rs & -> & Hb & Hwb & Hrs & E).
    exists b, (rs ++ [(file, mode, fd)]). split_and!; [|done|done| |].
    - unfold redirect. by rewrite foldl_app.
    - apply Forall_app_2; [done|]. by constructor.
    - cbn [show]. rewrite E. unfold show_redirs. rewrite fmap_app, join_app, <-(assoc_L app). f_equal. f_equal.
      unfold mjoin. simpl. by rewrite app_nil_r. }
  all: eexists _, []; split_and!; [reflexivity|done|done|done|by unfold show_redirs; rewrite app_nil_r].
Qed.

(** Not at white space. *)
Definition starts (p : Z → bool) (l : list Z) : Prop := match l with [] => True | c :: _ => p c = true end.

Definition black (c : Z) : bool := negb (found whitespace c).

Lemma starts_mono (p q : Z → bool) l : (∀ c, p c = true → q c = true) → starts p l → starts q l.
Proof. destruct l; simpl; auto. Qed.

Lemma word_starts w l : word w = true → starts word_byte (w ++ l).
Proof. unfold word. destruct w as [|c w]; simpl; [done|]. by intros [? _]%andb_true_iff. Qed.

Lemma word_byte_black c : word_byte c = true → black c = true.
Proof. unfold word_byte, black. by intros [[_ ?]%andb_true_iff _]%andb_true_iff. Qed.

Lemma operator_starts mode fd l : starts (found (str "<>")) (operator mode fd ++ l).
Proof. unfold operator. by repeat case_match. Qed.

Lemma redirs_start rs l : starts black l → starts black (show_redirs rs ++ l).
Proof.
  destruct rs as [|[[f m] d] rs]; [done|]. intros _. rewrite show_redirs_cons, <-!(assoc_L app).
  eapply starts_mono, operator_starts. intros c. unfold black. change (str "<>") with [60; 62].
  rewrite !found_cons by done. intros [E|[E|?]%orb_true_iff]%orb_true_iff; [..|done];
    apply Z.eqb_eq in E as <-; reflexivity.
Qed.

Lemma args_start argv l : Forall (λ w, word w = true) argv → starts black l → starts black (show_args argv ++ l).
Proof.
  intros [|w argv' Hw _] Hl; [done|]. rewrite show_args_cons, <-!(assoc_L app).
  eapply starts_mono, word_starts, Hw. apply word_byte_black.
Qed.

Lemma show_starts v c l : wf c → starts black l → starts black (show v c ++ l).
Proof.
  revert v l. induction c as [argv|c IH file mode fd|c1 IH1 c2 IH2|c1 IH1 c2 IH2|c IH]; intros v l Hwf Hl; simpl in *.
  - apply args_start; [apply Hwf|done].
  - destruct Hwf as (Hc & Hw & Hm). rewrite <-(assoc_L app). apply IH; [done|].
    pose proof (redirs_start [(file, mode, fd)] l Hl) as H. unfold show_redirs, mjoin in H. simpl in H.
    by rewrite app_nil_r in H.
  - destruct Hwf as [Hc1 _]. destruct v; simpl; try (by rewrite <-!(assoc_L app); apply IH1); done.
  - destruct Hwf as [Hc1 _]. destruct v; simpl; try (by rewrite <-!(assoc_L app); apply IH1); done.
  - destruct v; simpl; try (by rewrite <-!(assoc_L app); apply IH); done.
Qed.

Lemma found_elem toks c : found toks c = true → c ∈ toks.
Proof.
  unfold found. induction toks as [|x toks IH]; simpl; [done|]. destruct (x =? 0); [done|].
  destruct (Z.eqb_spec x c) as [->|]; [by left|]. destruct (strchr toks c); [|done]. right. by apply IH.
Qed.

Lemma word_byte_not_in toks c : forallb (λ x, negb (word_byte x)) toks = true → word_byte c = true → found toks c = false.
Proof.
  intros Ht Hc. destruct (found toks c) eqn:E; [|done]. apply found_elem in E.
  rewrite forallb_forall in Ht. specialize (Ht c (proj1 (list_elem_of_In _ _) E)). by rewrite Hc in Ht.
Qed.

Lemma bind_assoc {S A B C} (m : M S A) (f : A → M S B) (g : B → M S C) s :
  ((m ≫= f) ≫= g) s = (m ≫= λ a, f a ≫= g) s.
Proof. unfold mbind, M_bind. by destruct (m s). Qed.

(** ** Reading *)

Definition pos (l : list Z) : Z := Z.of_nat (length l).

Section text.
Context (text : list Z).
Hypothesis text_no_nul : 0 ∉ text.

Lemma pos_app l1 l2 : pos (l1 ++ l2) = pos l1 + pos l2.
Proof. unfold pos. rewrite length_app. lia. Qed.

Lemma skip_app p pre m l : text = pre ++ m ++ l → forallb p m = true →
  starts (negb ∘ p) l → skip text p (pos pre) = pos (pre ++ m).
Proof.
  intros E Hm Hl. unfold skip, es. remember (Z.to_nat (Z.of_nat (length text) - pos pre)) as n eqn:Hn.
  revert n pre E Hn. induction m as [|c m IH]; intros n pre E Hn.
  - rewrite app_nil_r. destruct n as [|n]; [done|]. simpl. destruct l as [|c l].
    { rewrite E in Hn. unfold pos in Hn. rewrite app_nil_r in Hn. lia. }
    assert (byte_at text (pos pre) = c) as -> by exact (byte_at_app text pre c l E). simpl in Hl.
    by apply negb_true_iff in Hl as ->.
  - simpl in Hm. apply andb_true_iff in Hm as [Hc Hm]. destruct n as [|n].
    { rewrite E in Hn. unfold pos in Hn. rewrite !length_app in Hn. simpl in Hn. lia. }
    simpl. assert (byte_at text (pos pre) = c) as -> by exact (byte_at_app text pre c (m ++ l) E). rewrite Hc.
    replace (pos pre + 1) with (pos (pre ++ [c])) by (rewrite pos_app; done).
    rewrite (IH Hm n (pre ++ [c])); [by rewrite <-(assoc_L app)|by rewrite E, <-(assoc_L app)|].
    rewrite pos_app. change (pos [c]) with 1. lia.
Qed.

Lemma skip_white pre l : text = pre ++ l → starts black l → skip text (found whitespace) (pos pre) = pos pre.
Proof. intros E Hl. rewrite <-(app_nil_r pre) at 2. by apply (skip_app _ pre [] l). Qed.

Lemma peek_at toks pre l : text = pre ++ l → starts black l →
  peek text toks (pos pre) = Ret (match l with [] => false | c :: _ => found toks c end) (pos pre).
Proof.
  intros E Hl. unfold peek, mbind, M_bind, modify, gets. rewrite (skip_white pre l) by done. f_equal.
  destruct l as [|c l].
  - rewrite app_nil_r in E. rewrite <-E. unfold pos. fold (es text). by rewrite byte_at_es.
  - rewrite (byte_at_app text pre c l E : byte_at text (pos pre) = c).
    assert (c ≠ 0) by (intros ->; apply text_no_nul; rewrite E; set_solver).
    unfold nonzero. by destruct (Z.eqb_spec c 0).
Qed.

(** What [gettoken] reads when the token ends at [pre ++ t] and white space
    [ws] follows. *)
Lemma gettoken_at pre t ws l ret : text = pre ++ t ++ ws ++ l → starts black (t ++ ws ++ l) →
  token_at text (pos pre) = (ret, pos (pre ++ t)) → forallb (found whitespace) ws = true → starts black l →
  gettoken text (pos pre) = Ret (ret, pos pre, pos (pre ++ t)) (pos (pre ++ t ++ ws)).
Proof.
  intros E Ht Htok Hws Hl. rewrite gettoken_eq. cbv zeta. rewrite (skip_white pre _ E Ht), Htok.
  rewrite (skip_app _ (pre ++ t) ws l); [by rewrite <-(assoc_L app)|by rewrite E, <-(assoc_L app)|done|done].
Qed.

Lemma gettoken_symbol pre c l : text = pre ++ c :: l → found (str "|();&<") c = true → starts black l →
  gettoken text (pos pre) = Ret (c, pos pre, pos (pre ++ [c])) (pos (pre ++ [c])).
Proof.
  intros E Hc Hl.
  assert (c ≠ 0) as H0 by (intros ->; apply text_no_nul; rewrite E; set_solver).
  assert (black c = true) as Hb.
  { unfold black. revert Hc. change (str "|();&<") with [124; 40; 41; 59; 38; 60]. rewrite !found_cons by done.
    rewrite !orb_true_iff, !Z.eqb_eq. intros [<-|[<-|[<-|[<-|[<-|[<-|?]]]]]]; done. }
  apply (gettoken_at pre [c] [] l); [done|done| |done|done].
  unfold token_at. rewrite (byte_at_app text pre c l E : byte_at text (pos pre) = c), Hc, pos_app.
  by destruct (Z.eqb_spec c 0).
Qed.

Lemma gettoken_end : gettoken text (pos text) = Ret (0, pos text, pos text) (pos text).
Proof.
  pose proof (gettoken_at text [] [] [] 0) as H. simpl in H. rewrite app_nil_r in H. apply H; try done.
  unfold token_at. by rewrite (byte_at_es text : byte_at text (pos text) = 0).
Qed.

Lemma gettoken_word pre w l : text = pre ++ w ++ [32] ++ l → word w = true → starts black l →
  gettoken text (pos pre) = Ret (97, pos pre, pos (pre ++ w)) (pos (pre ++ w ++ [32])).
Proof.
  intros E Hw Hl. pose proof (word_starts w ([32] ++ l) Hw) as Hst.
  apply (gettoken_at pre w [32] l); [done|by eapply starts_mono, Hst; apply word_byte_black| |done|done].
  unfold word in Hw. destruct w as [|c w]; [done|]. apply andb_true_iff in Hw as [_ Hw].
  pose proof Hw as Hall. simpl in Hw. apply andb_true_iff in Hw as [Hc _].
  unfold token_at. rewrite (byte_at_app text pre c (w ++ [32] ++ l) E : byte_at text (pos pre) = c).
  unfold word_byte, nonzero in Hc. rewrite found_symbols, !andb_true_iff, !negb_true_iff, orb_false_iff in Hc.
  destruct Hc as ((-> & _) & -> & ->). f_equal. apply (skip_app _ pre (c :: w) ([32] ++ l) E); [|done].
  apply forallb_forall. intros x Hx. rewrite forallb_forall in Hall. specialize (Hall x Hx).
  unfold word_byte in Hall. rewrite <-andb_assoc, andb_true_iff in Hall. apply Hall.
Qed.

Lemma slice_at pre w l : text = pre ++ w ++ l → slice text (pos pre, pos (pre ++ w)) = w.
Proof.
  intros ->. unfold slice. simpl. rewrite pos_app. replace (pos pre + pos w - pos pre) with (pos w) by lia.
  unfold pos. rewrite !Nat2Z.id, drop_app_length, take_app_length. done.
Qed.

(** An operator is the token that [parseredirs] translates to its mode. *)
Definition operator_token (mode fd : Z) : Z :=
  if fd =? 0 then 60 else if mode =? Z.lor O_WRONLY O_CREATE then 43 else 62.

Lemma gettoken_operator pre mode fd w l : text = pre ++ operator mode fd ++ w ++ l → word w = true →
  gettoken text (pos pre) =
    Ret (operator_token mode fd, pos pre, pos (pre ++ operator mode fd)) (pos (pre ++ operator mode fd)).
Proof.
  intros E Hw. pose proof (word_starts w l Hw) as Hst.
  assert (starts black (w ++ l)) as Hbl by (by eapply starts_mono, Hst; apply word_byte_black).
  unfold operator, operator_token in *. destruct (fd =? 0); [by apply (gettoken_symbol pre 60 (w ++ l))|].
  destruct (mode =? Z.lor O_WRONLY O_CREATE).
  - apply (gettoken_at pre [62; 62] [] (w ++ l)); [done|done| |done|done].
    unfold token_at. rewrite (byte_at_app text pre 62 (62 :: w ++ l) E : byte_at text (pos pre) = 62).
    replace (pos pre + 1) with (pos (pre ++ [62])) by (by rewrite pos_app).
    assert (byte_at text (pos (pre ++ [62])) = 62) as ->.
    { apply (byte_at_app text (pre ++ [62]) 62 (w ++ l)). by rewrite E, <-(assoc_L app). }
    replace (pos (pre ++ [62; 62])) with (pos (pre ++ [62]) + 1) by (unfold pos; rewrite !length_app; simpl; lia). done.
  - apply (gettoken_at pre [62] [] (w ++ l)); [done|done| |done|done].
    unfold token_at. rewrite (byte_at_app text pre 62 (w ++ l) E : byte_at text (pos pre) = 62).
    replace (pos pre + 1) with (pos (pre ++ [62])) by (by rewrite pos_app).
    destruct w as [|c w]; [done|].
    assert (byte_at text (pos (pre ++ [62])) = c) as ->.
    { apply (byte_at_app text (pre ++ [62]) c (w ++ l)). by rewrite E, <-(assoc_L app). }
    simpl in Hst. destruct (Z.eqb_spec c 62) as [->|]; [done|]. done.
Qed.

(** *** Redirections and arguments *)

Abbreviation resolve := (cmd_map (slice text)).

Definition resolve_redir (r : Z * Z * Z * Z) : list Z * Z * Z :=
  let '(q, e, mode, fd) := r in (slice text (q, e), mode, fd).

Lemma resolve_wrap c rs : resolve (wrap c rs) = redirect (resolve c) (resolve_redir <$> rs).
Proof using Type.
  unfold wrap, redirect. revert c. induction rs as [|[[[q e] m] d] rs IH]; intros c; simpl; [done|].
  by rewrite IH.
Qed.

Definition not_operator (l : list Z) : Prop := starts (λ c, negb (found (str "<>") c)) l.

Lemma parseredirs_stop rs pre l fuel : text = pre ++ l → starts black l → not_operator l →
  parseredirs text (S fuel) rs (pos pre) = Ret rs (pos pre).
Proof.
  intros E Hl Hn. cbn [parseredirs]. erewrite bind_Ret by (by apply (peek_at _ pre l)).
  destruct l as [|c l]; [done|]. simpl in Hn. by rewrite Hn.
Qed.

Lemma parseredirs_at rs acc pre l fuel : text = pre ++ show_redirs rs ++ l → Forall wf_redir rs →
  starts black l → not_operator l → (length rs < fuel)%nat →
  ∃ rs', parseredirs text fuel acc (pos pre) = Ret (acc ++ rs') (pos (pre ++ show_redirs rs)) ∧
    resolve_redir <$> rs' = rs.
Proof.
  intros E Hrs Hl Hn. revert acc pre fuel E.
  induction Hrs as [|[[w m] d] rs [Hw Hm] Hrs IH]; intros acc pre fuel E Hf; simpl in Hf.
  { destruct fuel as [|fuel]; [lia|]. exists []. rewrite !app_nil_r. split; [|done].
    by apply (parseredirs_stop acc pre l). }
  destruct fuel as [|fuel]; [lia|].
  assert (text = pre ++ operator m d ++ w ++ [32] ++ show_redirs rs ++ l) as E1.
  { rewrite E. by rewrite show_redirs_cons, <-?(assoc_L app). }
  assert (text = (pre ++ operator m d) ++ w ++ [32] ++ show_redirs rs ++ l) as E2 by (by rewrite E1, <-(assoc_L app)).
  assert (starts black (operator m d ++ w ++ [32] ++ show_redirs rs ++ l)) as Hst.
  { pose proof (redirs_start ((w, m, d) :: rs) l Hl) as H. by rewrite show_redirs_cons, <-!(assoc_L app) in H. }
  cbn [parseredirs]. erewrite bind_Ret by (by apply (peek_at _ pre _ E1)).
  assert (∀ x, negb (match operator m d ++ x with [] => false | c :: _ => found (str "<>") c end) = false) as ->.
  { intros x. unfold operator. by destruct (d =? 0), (m =? Z.lor O_WRONLY O_CREATE). }
  erewrite bind_Ret by (by apply (gettoken_operator pre m d w _ E1)).
  erewrite bind_Ret by (apply (gettoken_word _ w _ E2 Hw); by apply redirs_start). cbv beta iota.
  change (negb (97 =? 97)) with false. cbv iota.
  set (q := pos (pre ++ operator m d)). set (e := pos ((pre ++ operator m d) ++ w)).
  match goal with |- context [parseredirs text fuel ?x] => assert (x = acc ++ [(q, e, m, d)]) as -> end.
  { unfold redirections in Hm. rewrite !elem_of_cons in Hm.
    destruct Hm as [[= -> ->]|[[= -> ->]|[[= -> ->]|[]%elem_of_nil]]]; reflexivity. }
  destruct (IH (acc ++ [(q, e, m, d)]) ((pre ++ operator m d) ++ w ++ [32]) fuel) as (rs' & -> & Hr); [|lia|].
  { by rewrite E2, <-!(assoc_L app). }
  exists ((q, e, m, d) :: rs'). split.
  - rewrite <-(assoc_L app). f_equal. f_equal. by rewrite show_redirs_cons, <-?(assoc_L app).
  - rewrite fmap_cons, Hr. unfold resolve_redir, q, e. by rewrite (slice_at _ w _ E2).
Qed.

(** What may follow an element of a pipeline, a pipeline and a line. *)
Definition ends (toks : list Z) (l : list Z) : Prop := starts (found toks) l.

Lemma ends_facts l : ends (str "|)&;") l → starts black l ∧ not_operator l ∧ starts (λ c, negb (found (str "(") c)) l.
Proof using Type.
  destruct l as [|c l]; [done|]. intros [= H%found_elem]. revert H. change (str "|)&;") with [124; 41; 38; 59].
  rewrite !elem_of_cons. intros [->|[->|[->|[->|[]%elem_of_nil]]]]; done.
Qed.

Lemma parseargs_stop argv rs pre l fuel : text = pre ++ l → ends (str "|)&;") l →
  parseargs text (S fuel) argv rs (pos pre) = Ret (wrap (EXEC argv) rs) (pos pre).
Proof.
  intros E Hl. destruct (ends_facts l Hl) as (Hb & _ & _). cbn [parseargs].
  erewrite bind_Ret by (by apply (peek_at _ pre l)). destruct l as [|c l].
  - cbv iota. rewrite app_nil_r in E. rewrite <-E. by erewrite bind_Ret by (by apply gettoken_end).
  - by rewrite (Hl : found (str "|)&;") c = true).
Qed.

Lemma parseargs_word w acc rs pre l fuel : text = pre ++ w ++ [32] ++ l → word w = true → starts black l →
  Z.of_nat (length acc) + 1 < MAXARGS →
  parseargs text (S fuel) acc rs (pos pre) =
    (parseredirs text (S (length text)) rs ≫= parseargs text fuel (acc ++ [(pos pre, pos (pre ++ w))]))
      (pos (pre ++ w ++ [32])).
Proof.
  intros E Hw Hl Hm. pose proof (word_starts w ([32] ++ l) Hw) as Hst. cbn [parseargs].
  erewrite bind_Ret by (apply (peek_at _ pre _ E); by eapply starts_mono, Hst; apply word_byte_black).
  assert (match w ++ [32] ++ l with [] => false | c :: _ => found (str "|)&;") c end = false) as ->.
  { destruct w as [|c w]; [done|]. apply (word_byte_not_in (str "|)&;")); [done|]. apply Hst. }
  erewrite bind_Ret by (by apply (gettoken_word pre w l)). cbv beta iota. change (97 =? 0) with false.
  change (negb (97 =? 97)) with false. cbv iota.
  replace (_ >=? MAXARGS) with false; [done|]. rewrite length_app. simpl. lia.
Qed.

Lemma parseargs_at argv acc rs pre l fuel : text = pre ++ show_args argv ++ show_redirs rs ++ l →
  argv ≠ [] → Forall (λ w, word w = true) argv → Forall wf_redir rs → ends (str "|)&;") l →
  Z.of_nat (length acc + length argv) < MAXARGS → (length argv < fuel)%nat → (length rs ≤ length text)%nat →
  ∃ ws rs', parseargs text fuel acc [] (pos pre) =
      Ret (wrap (EXEC (acc ++ ws)) rs') (pos (pre ++ show_args argv ++ show_redirs rs)) ∧
    slice text <$> ws = argv ∧ resolve_redir <$> rs' = rs.
Proof.
  intros E Hne Hargv Hrs Hl Hm Hf Ht. destruct (ends_facts l Hl) as (Hb & Hno & _).
  revert acc pre fuel E Hne Hm Hf. induction Hargv as [|w argv Hw Hargv IH]; intros acc pre fuel E Hne Hm Hf; [done|].
  clear Hne. simpl in Hm, Hf. destruct fuel as [|fuel]; [lia|].
  assert (text = pre ++ w ++ [32] ++ show_args argv ++ show_redirs rs ++ l) as E1.
  { rewrite E. by rewrite show_args_cons, <-?(assoc_L app). }
  assert (show_args (w :: argv) = w ++ [32] ++ show_args argv) as Hsh.
  { by rewrite show_args_cons, <-?(assoc_L app). }
  assert (text = (pre ++ w ++ [32]) ++ show_args argv ++ show_redirs rs ++ l) as E2.
  { by rewrite E1, <-!(assoc_L app). }
  rewrite (parseargs_word w acc [] pre _ fuel E1 Hw); [|by apply args_start, redirs_start|lia].
  destruct argv as [|w2 argv].
  - destruct (parseredirs_at rs [] (pre ++ w ++ [32]) l (S (length text))) as (rs' & Er & Hr); [done..|lia|].
    erewrite bind_Ret by exact Er. destruct fuel as [|fuel]; [lia|].
    rewrite (parseargs_stop _ _ _ l); [|by rewrite E2, <-!(assoc_L app)|done].
    exists [(pos pre, pos (pre ++ w))], rs'. split_and!; [|by simpl; rewrite (slice_at pre w _ E1)|done].
    by rewrite Hsh, <-!(assoc_L app).
  - erewrite bind_Ret.
    2: { apply (parseredirs_stop [] _ _ _ E2); [by apply args_start, redirs_start|].
      apply Forall_cons in Hargv as [Hw2 _]. rewrite show_args_cons, <-!(assoc_L app).
      eapply starts_mono, word_starts, Hw2. intros c Hc. apply negb_true_iff. by apply word_byte_not_in. }
    destruct (IH (acc ++ [(pos pre, pos (pre ++ w))]) (pre ++ w ++ [32]) fuel E2) as (ws & rs' & Ea & Hws & Hr);
      [done|rewrite length_app; simpl in *; lia|lia|].
    rewrite Ea. exists ((pos pre, pos (pre ++ w)) :: ws), rs'. split_and!; [|by rewrite fmap_cons, Hws, (slice_at pre w _ E1)|done].
    by rewrite Hsh, <-!(assoc_L app).
Qed.

(** *** Commands *)

(** [f] with fuel for [4 * n + k] bytes reads the commands printed at the level
    [v] that a token of [toks] or the end of the text follows. *)
Definition reads (f : nat → M Z (cmd (Z * Z))) (v : level) (toks : list Z) (k fuel : nat) : Prop := ∀ c pre post,
  wf c → text = pre ++ show v c ++ post → ends toks post → (4 * length (show v c ++ post) + k ≤ fuel)%nat →
  ∃ c', f fuel (pos pre) = Ret c' (pos (pre ++ show v c)) ∧ resolve c' = c.

Definition reads_block (fuel : nat) : Prop := ∀ b rs pre post,
  wf b → Forall wf_redir rs → text = pre ++ [40] ++ show Line b ++ [41] ++ show_redirs rs ++ post →
  ends (str "|)&;") post → (4 * (2 + length (show Line b ++ show_redirs rs ++ post)) + 1 ≤ fuel)%nat →
  ∃ c', parseblock text fuel (pos pre) = Ret c' (pos (pre ++ [40] ++ show Line b ++ [41] ++ show_redirs rs)) ∧
    resolve c' = redirect b rs.

Lemma show_redirs_length rs : (length rs ≤ length (show_redirs rs))%nat.
Proof using Type.
  induction rs as [|[[w m] d] rs IH]; [done|]. rewrite show_redirs_cons, !length_app. simpl. lia.
Qed.

Lemma show_args_length argv : (length argv ≤ length (show_args argv))%nat.
Proof using Type.
  induction argv as [|w argv IH]; [done|]. rewrite show_args_cons, !length_app. simpl. lia.
Qed.

(** A token of one byte: seen by [peek] and consumed. *)
Lemma peek_symbol toks pre c l : text = pre ++ c :: l → black c = true → found toks c = true →
  peek text toks (pos pre) = Ret true (pos pre).
Proof. intros E Hb Hc. by rewrite (peek_at toks pre (c :: l)), Hc. Qed.

Lemma reads_parseblock fuel : reads (parseline text) Line (str ")") 4 fuel → reads_block (S fuel).
Proof.
  intros IH b rs pre post Hb Hrs E Hl Hf. destruct (ends_facts post Hl) as (Hbl & Hno & _). cbn [parseblock].
  erewrite bind_Ret by (by apply (peek_symbol _ pre _ _ E)). cbv iota. change (negb true) with false. cbv iota.
  set (tail := [41] ++ show_redirs rs ++ post) in *.
  erewrite bind_Ret by (apply (gettoken_symbol pre 40 (show Line b ++ tail)); [done|done|by apply show_starts]).
  assert (text = (pre ++ [40]) ++ show Line b ++ tail) as E1 by (by rewrite E, <-!(assoc_L app)).
  destruct (IH b (pre ++ [40]) tail Hb E1) as (c' & Ec & Hc'); [done|unfold tail; rewrite !length_app in *; simpl; lia|].
  erewrite bind_Ret by exact Ec.
  assert (text = ((pre ++ [40]) ++ show Line b) ++ tail) as E2 by (by rewrite E1, <-!(assoc_L app)).
  erewrite bind_Ret by (by apply (peek_symbol _ _ 41 _ E2)). change (negb true) with false. cbv iota.
  erewrite bind_Ret by (apply (gettoken_symbol _ 41 _ E2); [done|by apply redirs_start]).
  destruct (parseredirs_at rs [] (((pre ++ [40]) ++ show Line b) ++ [41]) post (S (length text)))
    as (rs' & Er & Hr); [by rewrite E2; unfold tail; rewrite <-!(assoc_L app)|done..| |].
  { rewrite E. unfold tail. rewrite !length_app. pose proof (show_redirs_length rs). lia. }
  erewrite bind_Ret by exact Er. eexists. split; [|by rewrite resolve_wrap, Hc', Hr].
  by rewrite <-!(assoc_L app).
Qed.

Lemma element_args_start argv rs l : Forall (λ w, word w = true) argv → ends (str "|)&;") l →
  starts (λ c, negb (found (str "(") c)) (show_args argv ++ show_redirs rs ++ l).
Proof using Type.
  intros Hargv Hl. destruct Hargv as [|w argv Hw _].
  - destruct rs as [|[[w m] d] rs]; [by apply ends_facts|]. rewrite show_redirs_cons, <-!(assoc_L app). simpl.
    unfold operator. by destruct (d =? 0), (m =? Z.lor O_WRONLY O_CREATE).
  - rewrite show_args_cons, <-!(assoc_L app). eapply starts_mono, word_starts, Hw.
    intros c Hc. apply negb_true_iff. by apply word_byte_not_in.
Qed.

(** An element without parentheses. *)
Lemma parseexec_args argv rs pre post fuel :
  text = pre ++ show_args argv ++ show_redirs rs ++ post → Forall (λ w, word w = true) argv →
  Z.of_nat (length argv) < MAXARGS → Forall wf_redir rs → ends (str "|)&;") post →
  ∃ c', parseexec text (S fuel) (pos pre) = Ret c' (pos (pre ++ show_args argv ++ show_redirs rs)) ∧
    resolve c' = redirect (EXEC argv) rs.
Proof.
  intros E Ha Hm Hrs Hl. destruct (ends_facts post Hl) as (Hbl & Hno & _). cbn [parseexec].
  assert (starts black (show_args argv ++ show_redirs rs ++ post)) as Hst by (by apply args_start, redirs_start).
  erewrite bind_Ret by (by apply (peek_at _ pre _ E)).
  assert (∀ l, starts (λ c, negb (found (str "(") c)) l →
    match l with [] => false | c :: _ => found (str "(") c end = false) as Hpar.
  { intros [|c l]; [done|]. intros H. by apply negb_true_iff. }
  rewrite Hpar by (by apply element_args_start). clear Hpar.
  assert (length rs ≤ length text ∧ length argv ≤ length text)%nat as [Hlr Hla].
  { rewrite E, !length_app. pose proof (show_redirs_length rs). pose proof (show_args_length argv). lia. }
  destruct (decide (argv = [])) as [->|Hne].
  - destruct (parseredirs_at rs [] pre post (S (length text))) as (rs' & Er & Hr); [done..|lia|].
    erewrite bind_Ret by exact Er. rewrite (parseargs_stop _ _ _ post); [|by rewrite E, <-!(assoc_L app)|done].
    eexists. split; [done|]. by rewrite resolve_wrap, (Hr : resolve_redir <$> ([] ++ rs') = rs).
  - erewrite bind_Ret.
    2: { apply (parseredirs_stop [] _ _ _ E Hst). destruct Ha as [|w argv Hw _]; [done|].
      rewrite show_args_cons, <-!(assoc_L app). eapply starts_mono, word_starts, Hw.
      intros c Hc. apply negb_true_iff. by apply word_byte_not_in. }
    destruct (parseargs_at argv [] rs pre post (S (length text)) E Hne) as (ws & rs' & Ea & Hws & Hr); [done..|lia|lia|].
    eexists. split; [exact Ea|]. rewrite resolve_wrap, Hr. simpl. by rewrite Hws.
Qed.

Lemma show_element_block b : not_redir b → (∃ argv, b = EXEC argv) ∨ show Element b = [40] ++ show Line b ++ [41].
Proof using Type. destruct b; simpl; [left; by eexists|done|by right..]. Qed.

Lemma reads_parseexec fuel : reads_block fuel → reads (parseexec text) Element (str "|)&;") 2 (S fuel).
Proof.
  intros IH c pre post Hwf E Hl Hf. destruct (ends_facts post Hl) as (Hbl & Hno & _).
  destruct (spine c Hwf) as (b & rs & Hc & Hb & Hwb & Hrs & Hsh). rewrite Hsh, <-!(assoc_L app) in E. rewrite Hsh in *.
  destruct (show_element_block b Hb) as [[argv ->]|Hblock].
  - destruct Hwb as [Ha Hm]. destruct (parseexec_args argv rs pre post fuel E Ha Hm Hrs Hl) as (c' & Ec & Hc').
    exists c'. split; [exact Ec|]. by rewrite Hc', Hc.
  - rewrite Hblock, <-!(assoc_L app) in E. rewrite Hblock in *.
    destruct (IH b rs pre post Hwb Hrs E Hl) as (c' & Ec & Hc'); [rewrite !length_app in *; simpl in Hf; lia|].
    exists c'. split; [|by rewrite Hc', Hc]. cbn [parseexec].
    erewrite bind_Ret by (by apply (peek_symbol _ pre 40 _ E)). cbv beta iota. rewrite Ec. by rewrite <-!(assoc_L app).
Qed.

(** What follows a shorter part of the grammar may follow a longer one. *)
Lemma ends_mono toks toks' l : forallb (found toks') toks = true → ends toks l → ends toks' l.
Proof using Type.
  intros H. apply starts_mono. intros c Hc%found_elem. rewrite forallb_forall in H. by apply H, list_elem_of_In.
Qed.

(** The end of a command is seen by [peek] as no token of [toks']. *)
Lemma peek_end toks toks' pre l : text = pre ++ l → ends toks l →
  forallb (λ c, black c && negb (found toks' c)) toks = true →
  peek text toks' (pos pre) = Ret false (pos pre).
Proof.
  intros E Hl H. rewrite forallb_forall in H.
  assert (∀ c l', l = c :: l' → black c && negb (found toks' c) = true) as Hc.
  { intros c l' ->. by apply H, list_elem_of_In, found_elem. }
  rewrite (peek_at toks' pre l E).
  - destruct l as [|c l]; [done|]. by destruct (andb_prop _ _ (Hc c l eq_refl)) as [_ ->%negb_true_iff].
  - destruct l as [|c l]; [done|]. by destruct (andb_prop _ _ (Hc c l eq_refl)).
Qed.

Lemma show_pipeline_other c : (∀ l r, c ≠ PIPE l r) → show Pipeline c = show Element c.
Proof using Type. destruct c; try done. intros H. by destruct (H c1 c2). Qed.

Lemma reads_parsepipe fuel : reads (parseexec text) Element (str "|)&;") 2 fuel →
  reads (parsepipe text) Pipeline (str ")&;") 3 fuel → reads (parsepipe text) Pipeline (str ")&;") 3 (S fuel).
Proof.
  intros IHe IH c pre post Hwf E Hl Hf. cbn [parsepipe].
  assert ((∃ l r, c = PIPE l r) ∨ (∀ l r, c ≠ PIPE l r)) as [(l & r & ->)|Hno] by (destruct c; eauto).
  - destruct Hwf as [Hwl Hwr]. change (show Pipeline (PIPE l r)) with (show Element l ++ [124] ++ show Pipeline r) in *.
    assert (starts black (show Pipeline r ++ post)) as Hst.
    { apply show_starts; [done|]. eapply ends_facts, ends_mono, Hl. done. }
    rewrite <-!(assoc_L app) in E.
    destruct (IHe l pre ([124] ++ show Pipeline r ++ post) Hwl E) as (l' & El & Hl'); [done|rewrite !length_app in *; simpl in *; lia|].
    erewrite bind_Ret by exact El. rewrite (assoc_L app) in E.
    erewrite bind_Ret by (by apply (peek_symbol _ _ 124 _ E)). cbv iota.
    erewrite bind_Ret by (by apply (gettoken_symbol _ 124 _ E)).
    destruct (IH r ((pre ++ show Element l) ++ [124]) post Hwr) as (r' & Er & Hr'); [by rewrite E, <-!(assoc_L app)|done|rewrite !length_app in *; simpl in *; lia|].
    erewrite bind_Ret by exact Er. eexists. split; [by rewrite <-!(assoc_L app)|]. simpl. by rewrite Hl', Hr'.
  - rewrite show_pipeline_other in * by done.
    destruct (IHe c pre post Hwf E) as (c' & Ec & Hc'); [by eapply ends_mono, Hl|lia|].
    erewrite bind_Ret by exact Ec. rewrite (assoc_L app) in E.
    erewrite bind_Ret by (by apply (peek_end (str ")&;") _ _ post E Hl)). by eexists.
Qed.

(** The background marks of a command. *)
Lemma backs c : wf c → ∃ b k, c = Nat.iter k BACK b ∧ wf b ∧ show Back c = show Pipeline b ++ replicate k 38.
Proof using Type.
  induction c as [| | | |c IH]; intros Hwf.
  5: { destruct (IH Hwf) as (b & k & -> & Hb & E). exists b, (S k). split_and!; [done|done|].
    cbn [show paren]. rewrite E, <-(assoc_L app). by rewrite <-replicate_cons_app. }
  all: eexists _, 0%nat; split_and!; [reflexivity|done|by rewrite app_nil_r].
Qed.

Lemma parseback_at k c pre l fuel : text = pre ++ replicate k 38 ++ l → ends (str ");") l → (k < fuel)%nat →
  parseback text fuel c (pos pre) = Ret (Nat.iter k BACK c) (pos (pre ++ replicate k 38)).
Proof.
  revert c pre fuel. induction k as [|k IH]; intros c pre fuel E Hl Hf; (destruct fuel as [|fuel]; [lia|]); cbn [parseback].
  - erewrite bind_Ret by (by apply (peek_end (str ");") _ _ l E Hl)). by rewrite app_nil_r.
  - erewrite bind_Ret by (by apply (peek_symbol _ _ 38 _ E)). change (negb true) with false. cbv iota.
    erewrite bind_Ret.
    2: { apply (gettoken_symbol _ 38 _ E); [done|]. destruct k; [|done]. eapply ends_facts, ends_mono, Hl. done. }
    rewrite IH; [|by rewrite E, <-(assoc_L app)|done|lia]. rewrite <-Nat.iter_succ_r, <-(assoc_L app). done.
Qed.

Lemma resolve_backs k c : resolve (Nat.iter k BACK c) = Nat.iter k BACK (resolve c).
Proof using Type. induction k as [|k IH]; simpl; [done|]. by rewrite IH. Qed.

(** The first command of a line with its marks. *)
Lemma reads_back fuel c pre post : reads (parsepipe text) Pipeline (str ")&;") 3 fuel →
  wf c → text = pre ++ show Back c ++ post → ends (str ");") post → (4 * length (show Back c ++ post) + 3 ≤ fuel)%nat →
  ∃ c', (parsepipe text fuel ≫= parseback text (S (length text))) (pos pre) = Ret c' (pos (pre ++ show Back c)) ∧
    resolve c' = c.
Proof.
  intros IH Hwf E Hl Hf. destruct (backs c Hwf) as (b & k & -> & Hb & Hsh).
  rewrite Hsh, <-!(assoc_L app) in E. rewrite Hsh in *.
  destruct (IH b pre (replicate k 38 ++ post) Hb E) as (b' & Eb & Hb').
  { destruct k; [|done]. by eapply ends_mono, Hl. }
  { by rewrite <-(assoc_L app) in Hf. }
  erewrite bind_Ret by exact Eb. rewrite (assoc_L app) in E.
  rewrite (parseback_at k b' _ post _ E Hl).
  - eexists. split; [by rewrite <-(assoc_L app)|]. by rewrite resolve_backs, Hb'.
  - rewrite E, !length_app, length_replicate. lia.
Qed.

Lemma show_line_other c : (∀ l r, c ≠ LIST l r) → show Line c = show Back c.
Proof using Type. destruct c; try done. intros H. by destruct (H c1 c2). Qed.

Lemma reads_parseline fuel : reads (parsepipe text) Pipeline (str ")&;") 3 fuel →
  reads (parseline text) Line (str ")") 4 fuel → reads (parseline text) Line (str ")") 4 (S fuel).
Proof.
  intros IHp IH c pre post Hwf E Hl Hf. cbn [parseline]. rewrite <-bind_assoc.
  assert ((∃ l r, c = LIST l r) ∨ (∀ l r, c ≠ LIST l r)) as [(l & r & ->)|Hno] by (destruct c; eauto).
  - destruct Hwf as [Hwl Hwr]. change (show Line (LIST l r)) with (show Back l ++ [59] ++ show Line r) in *.
    assert (starts black (show Line r ++ post)) as Hst.
    { apply show_starts; [done|]. eapply ends_facts, ends_mono, Hl. done. }
    rewrite <-!(assoc_L app) in E.
    destruct (reads_back fuel l pre ([59] ++ show Line r ++ post) IHp Hwl E) as (l' & El & Hl'); [done|rewrite !length_app in *; simpl in *; lia|].
    erewrite bind_Ret by exact El. rewrite (assoc_L app) in E.
    erewrite bind_Ret by (by apply (peek_symbol _ _ 59 _ E)). cbv iota.
    erewrite bind_Ret by (by apply (gettoken_symbol _ 59 _ E)).
    destruct (IH r ((pre ++ show Back l) ++ [59]) post Hwr) as (r' & Er & Hr'); [by rewrite E, <-!(assoc_L app)|done|rewrite !length_app in *; simpl in *; lia|].
    erewrite bind_Ret by exact Er. eexists. split; [by rewrite <-!(assoc_L app)|]. simpl. by rewrite Hl', Hr'.
  - rewrite show_line_other in * by done.
    destruct (reads_back fuel c pre post IHp Hwf E) as (c' & Ec & Hc'); [by eapply ends_mono, Hl|lia|].
    erewrite bind_Ret by exact Ec. rewrite (assoc_L app) in E.
    erewrite bind_Ret by (by apply (peek_end (str ")") _ _ post E Hl)). by eexists.
Qed.

Lemma reads_all fuel :
  reads (parseline text) Line (str ")") 4 fuel ∧ reads (parsepipe text) Pipeline (str ")&;") 3 fuel ∧
  reads (parseexec text) Element (str "|)&;") 2 fuel ∧ reads_block fuel.
Proof.
  induction fuel as [|fuel (IHl & IHp & IHe & IHb)].
  - split_and!; intros c; intros; lia.
  - split_and!; [by apply reads_parseline|by apply reads_parsepipe|by apply reads_parseexec|by apply reads_parseblock].
Qed.

End text.

Lemma show_no_nul v c : wf c → 0 ∉ show v c.
Proof.
  assert (∀ w, word w = true → 0 ∉ w) as Hword.
  { intros w [_ H]%andb_true_iff H0%list_elem_of_In. rewrite forallb_forall in H. by specialize (H 0 H0). }
  revert v. induction c as [argv|c IH file mode fd|l IHl r IHr|l IHl r IHr|c IH]; intros v Hwf.
  - destruct Hwf as [Ha _]. simpl. induction Ha as [|w argv Hw _ IH]; [set_solver|].
    rewrite show_args_cons, !not_elem_of_app. split_and!; [auto|set_solver|done].
  - destruct Hwf as (Hc & Hw & _). simpl. rewrite !not_elem_of_app. split_and!; [auto| |auto|set_solver].
    unfold operator. repeat case_match; set_solver.
  - destruct Hwf as [Hl Hr]. specialize (IHl Element Hl). specialize (IHr Pipeline Hr). destruct v; simpl; set_solver.
  - destruct Hwf as [Hl Hr]. specialize (IHl Back Hl). specialize (IHr Line Hr). destruct v; simpl; set_solver.
  - specialize (IH Back Hwf). destruct v; simpl; set_solver.
Qed.

(** C22: every well-formed command is what the parser makes of its text: lists,
    background commands, pipelines, blocks, redirections and arguments are
    read back with their structure and their strings. *)
Theorem parsecmd_show c :
  wf c → parsecmd (show Line c) = Ret c (es (show Line c)).
Proof.
  intros Hwf. set (text := show Line c). pose proof (show_no_nul Line c Hwf) as H0. fold text in H0.
  destruct (reads_all text H0 (4 * S (length text))) as [Hl _].
  destruct (Hl c [] [] Hwf) as (c' & Ec & Hc'); [by rewrite app_nil_r|done|rewrite app_nil_r; fold text; lia|].
  fold text in Ec. rewrite app_nil_l in Ec. change (pos []) with 0 in Ec.
  assert (parsetree text 0 = Ret c' (es text)) as Et.
  { unfold parsetree. erewrite bind_Ret by exact Ec.
    erewrite bind_Ret by (apply (peek_at text H0 _ text []); [by rewrite app_nil_r|done]).
    erewrite bind_Ret by reflexivity. change (id (pos text)) with (es text). by rewrite Z.eqb_refl. }
  destruct (parsecmd_cases text H0) as [(c'' & Ec'' & _ & E)|(msg & _ & E)].
  - rewrite Et in Ec''. injection Ec'' as <-. by rewrite E, Hc'.
  - unfold parsecmd in E. by rewrite Et in E.
Qed.

Lemma bind_Panic {S A B} (m : M S A) (f : A → M S B) s msg : m s = Panic msg → (m ≫= f) s = Panic msg.
Proof. unfold mbind, M_bind. by intros ->. Qed.

Lemma parsecmd_open_block c : wf c → parsecmd ([40] ++ show Line c) = Panic "syntax - missing )".
Proof.
  intros Hwf. set (text := [40] ++ show Line c).
  assert (0 ∉ text) as H0 by (unfold text; rewrite not_elem_of_app; split; [set_solver|by apply show_no_nul]).
  assert (text = [] ++ 40 :: show Line c) as E by done.
  destruct (reads_all text H0 (4 * S (length (show Line c)))) as [Hl _].
  destruct (Hl c [40] [] Hwf) as (c' & Ec & _); [by rewrite app_nil_r|done|rewrite app_nil_r; lia|].
  assert (parseblock text (S (4 * S (length (show Line c)))) 0 = Panic "syntax - missing )") as Hb.
  { cbn [parseblock]. erewrite bind_Ret by (by apply (peek_symbol text H0 _ [] 40 _ E)).
    change (negb true) with false. cbv iota.
    erewrite bind_Ret.
    2: { apply (gettoken_symbol text H0 [] 40 _ E); [done|]. pose proof (show_starts Line c [] Hwf) as H.
      rewrite app_nil_r in H. by apply H. }
    erewrite bind_Ret by exact Ec.
    erewrite bind_Ret by (apply (peek_at text H0 _ ([40] ++ show Line c) []); [by rewrite app_nil_r|done]). done. }
  unfold parsecmd, parsetree. replace (4 * S (length text))%nat with (S (S (S (S (4 * S (length (show Line c)))))))
    by (unfold text; rewrite length_app; simpl; lia).
  rewrite (bind_Panic _ _ _ "syntax - missing )"); [done|]. cbn [parseline]. apply bind_Panic.
  cbn [parsepipe]. apply bind_Panic. cbn [parseexec].
  erewrite bind_Ret by (by apply (peek_symbol text H0 _ [] 40 _ E)). exact Hb.
Qed.

(** [main] cuts a line at every semicolon, also at those of a block: of
    [(a;b)] it runs [(a], which the parser refuses for its missing
    parenthesis. *)
Theorem semicolon_breaks_block a b :
  wf a → wf b → 59 ∉ show Line a →
  commands [] ([40] ++ show Line a ++ [59] ++ show Line b ++ [41]) =
    RunChild ([40] ++ show Line a) :: commands [] (show Line b ++ [41]) ∧
  parsecmd ([40] ++ show Line a) = Panic "syntax - missing )".
Proof.
  intros Ha Hb H59. split; [|by apply parsecmd_open_block].
  rewrite (assoc_L app). change ([59] ++ show Line b ++ [41]) with (59 :: (show Line b ++ [41])).
  rewrite commands_semicolon by (rewrite not_elem_of_app; set_solver). done.
Qed.

(** ** Witnesses *)

(** [ls (a;b&) <x | wc >>y] *)
Definition ex_cmd : cmd (list Z) :=
  PIPE (REDIR (LIST (EXEC [str "a"; str "-l"]) (BACK (EXEC [str "b"]))) (str "x") O_RDONLY 0)
    (REDIR (EXEC [str "wc"]) (str "y") (Z.lor O_WRONLY O_CREATE) 1).

Lemma ex_cmd_wf : wf ex_cmd.
Proof. repeat split; try (repeat constructor); vm_compute; set_solver. Qed.

Lemma parsecmd_show_witness :
  show Line ex_cmd = str "(a -l ;b &)<x |wc >>y " ∧
  parsecmd (str "(a -l ;b &)<x |wc >>y ") = Ret ex_cmd 22.
Proof. split; [reflexivity|]. exact (parsecmd_show ex_cmd ex_cmd_wf). Defined.

Lemma semicolon_breaks_block_witness :
  commands [] (str "(a ;b )") = [RunChild (str "(a "); RunChild (str "b )")] ∧
  parsecmd (str "(a ") = Panic "syntax - missing )".
Proof.
  apply (semicolon_breaks_block (EXEC [str "a"]) (EXEC [str "b"])).
  - repeat split; repeat constructor.
  - repeat split; repeat constructor.
  - apply (bool_decide_unpack _). vm_compute. exact I.
Defined.
