(* ===== verification/ShellRun.v ===== *)
(** * Running a command of the shell: the descriptors of its programs

    The system calls of [runcmd] on descriptor tables, with the rule of the
    kernel that a new descriptor is the lowest free one ([fdalloc] of
    kernel/sysfile.c), and the wiring that a command denotes. *)

From Stdlib Require Import Ascii String.
From S2P Require Import Prelude Machine Grep Printf Sysfile Shell ShellParse.
Local Open Scope Z_scope.
Local Open Scope list_scope.

(** What a descriptor refers to: a file the shell was started with, an opened
    file, or an end of the [n]-th pipe. *)
Inductive handle : Type :=
  | Inherited (fd : Z)
  | Opened (file : list Z) (mode : Z)
  | ReadEnd (n : nat)
  | WriteEnd (n : nat).

Definition fdtable : Type := list (option handle).

Definition lowest_free (t : fdtable) : option nat :=
  first_such (λ i, match t !! i with Some None => true | _ => false end) (seq 0 (length t)).

(** The programs that a process and its children execute when every system call
    succeeds that can, with the table that each one gets, and the number of the
    next pipe. *)
Fixpoint execs (p : prog) (t : fdtable) (n : nat) : list (list (list Z) * fdtable) * nat :=
  match p with
  | Exit _ => ([], n)
  | Exec path argv _ => ([(argv, t)], n)
  | Close fd k => execs k (<[Z.to_nat fd := None]> t) n
  | Open file mode ok failed =>
      match lowest_free t with
      | Some fd => execs ok (<[fd := Some (Opened file mode)]> t) n
      | None => execs failed t n
      end
  | Fork child parent _ =>
      let '(a, n) := execs child t n in
      let '(b, n) := execs parent t n in
      (a ++ b, n)
  | Wait k => execs k t n
  | MkPipe ok failed =>
      match lowest_free t with
      | Some p0 =>
          let t := <[p0 := Some (ReadEnd n)]> t in
          match lowest_free t with
          | Some p1 => execs (ok (Z.of_nat p0) (Z.of_nat p1)) (<[p1 := Some (WriteEnd n)]> t) (S n)
          | None => execs failed t n
          end
      | None => execs failed t n
      end
  | Dup fd k =>
      match t !! Z.to_nat fd, lowest_free t with
      | Some (Some h), Some fd' => execs k (<[fd' := Some h]> t) n
      | _, _ => execs k t n
      end
  | Fprintf _ _ k => execs k t n
  end.

(** The table of a program: the three standard descriptors and nothing else. *)
Definition standard (input output error : handle) : fdtable :=
  [Some input; Some output; Some error] ++ replicate 13 None.

(** What a command denotes: its programs with their standard descriptors. *)
Fixpoint wiring (c : cmd (list Z)) (input output error : handle) (n : nat) : list (list (list Z) * fdtable) * nat :=
  match c with
  | EXEC [] => ([], n)
  | EXEC argv => ([(argv, standard input output error)], n)
  | REDIR c file mode fd =>
      if fd =? 0 then wiring c (Opened file mode) output error n
      else wiring c input (Opened file mode) error n
  | PIPE l r =>
      let '(a, m) := wiring l input (WriteEnd n) error (S n) in
      let '(b, m) := wiring r (ReadEnd n) output error m in
      (a ++ b, m)
  | LIST l r =>
      let '(a, m) := wiring l input output error n in
      let '(b, m) := wiring r input output error m in
      (a ++ b, m)
  | BACK c => wiring c input output error n
  end.

Lemma execs_runcmd {P} c input output error n : wf_cmd P c →
  execs (runcmd c) (standard input output error) n = wiring c input output error n.
Proof.
  revert input output error n.
  induction c as [[|w argv]|c IH file mode fd|l IHl r IHr|l IHl r IHr|c IH]; intros input output error n Hwf; try done.
  - destruct Hwf as (Hc & _ & Hm). unfold redirections in Hm. rewrite !elem_of_cons in Hm.
    destruct Hm as [[= -> ->]|[[= -> ->]|[[= -> ->]|[]%elem_of_nil]]]; by apply IH.
  - destruct Hwf as [Hl Hr].
    change (execs (runcmd (PIPE l r)) (standard input output error) n) with
      (let '(a, m) := execs (runcmd l) (standard input (WriteEnd n) error) (S n) in
       let '(b, m) := (let '(a, m) := execs (runcmd r) (standard (ReadEnd n) output error) m in (a ++ [], m)) in
       (a ++ b, m)).
    rewrite IHl by done. simpl. destruct (wiring l _ _ _ _) as [a m]. rewrite IHr by done.
    destruct (wiring r _ _ _ _) as [b m']. by rewrite app_nil_r.
  - destruct Hwf as [Hl Hr]. simpl. rewrite IHl by done. destruct (wiring l _ _ _ _) as [a m].
    rewrite IHr by done. done.
  - simpl. rewrite IH by done. destruct (wiring c _ _ _ _) as [a m]. by rewrite app_nil_r.
Qed.

(** C21: a command line that the parser accepts runs its programs as the command
    says: every program gets exactly three descriptors, with its redirections
    in place and its neighbours in a pipeline at the ends of one pipe, and no
    other reference to a pipe stays open in it. *)
Theorem shell_wires_programs s c p input output error n :
  0 ∉ s → parsecmd s = Ret c p →
  execs (runcmd c) (standard input output error) n = wiring c input output error n.
Proof.
  intros Hs E. destruct (parsecmd_total_wf s Hs) as [(c' & E' & Hwf)|(msg & _ & E')].
  - rewrite E in E'. injection E' as -> _. by eapply execs_runcmd.
  - by rewrite E in E'.
Qed.

Lemma shell_wires_programs_witness :
  ∃ c p, parsecmd (str "cat <in | wc >out") = Ret c p ∧
    execs (runcmd c) (standard (Inherited 0) (Inherited 1) (Inherited 2)) 0 =
      ([([str "cat"], standard (Opened (str "in") O_RDONLY) (WriteEnd 0) (Inherited 2));
        ([str "wc"], standard (ReadEnd 0) (Opened (str "out") 0x601) (Inherited 2))], 1%nat).
Proof.
  eexists _, _. split; [vm_compute; reflexivity|].
  eapply (shell_wires_programs (str "cat <in | wc >out")); [apply (bool_decide_unpack _); vm_compute; exact I|].
  vm_compute. reflexivity.
Defined.
