(* ===== verification/Virtio.v ===== *)
(** * The disk driver: kernel/virtio_disk.c

    The driver and the device share the descriptors, the ring of available
    requests and the ring of used ones.  Any number of processes call
    [virtio_disk_rw]; the code between two waits runs under [disk.vdisk_lock],
    so that the steps of the system are these parts, the interrupt handler and
    the steps of the device.  [v_woken] lists the channels that were passed to
    [wakeup], and [v_mmio] the writes to the registers of the device.

    An address that the driver gives to the device is a constructor: the request
    header on the kernel stack of a process, the data of a buffer, the status
    byte of a request. *)

From S2P Require Import Prelude Machine Bio.

Module Virtio.

Definition NUM : Z := 8.
Definition VRING_DESC_F_NEXT : Z := 1.
Definition VRING_DESC_F_WRITE : Z := 2.
Definition VIRTIO_BLK_T_IN : Z := 0.
Definition VIRTIO_BLK_T_OUT : Z := 1.

Inductive addr : Type :=
  | Null
  | Header (t : Z)
  | Data (b : Z)
  | Status (i : Z).

Record VRingDesc := VDesc { d_addr : addr; d_len : Z; d_flags : Z; d_next : Z }.

(** [struct virtio_blk_outhdr], whose field [reserved] is 0. *)
Record outhdr := OutHdr { h_type : Z; h_sector : Z }.

(** [struct disk], and what the driver and the device read and write of the
    buffers and of the stacks. *)
Record vdisk := VDisk {
  desc : Z → VRingDesc;
  avail_idx : Z;
  avail_ring : Z → Z;
  used_id : Z;
  used_elems : Z → Z;
  vfree : Z → bool;
  used_idx : Z;
  info_b : Z → option Z;
  info_status : Z → Z;
  b_disk : Z → Z;
  b_blockno : Z → Z;
  b_data : Z → block;
  buf0 : Z → outhdr;
  v_woken : list chan;
  v_mmio : list (Z * Z)
}.

Definition set_desc f v := VDisk f (avail_idx v) (avail_ring v) (used_id v) (used_elems v) (vfree v) (used_idx v) (info_b v) (info_status v) (b_disk v) (b_blockno v) (b_data v) (buf0 v) (v_woken v) (v_mmio v).
Definition set_avail n f v := VDisk (desc v) n f (used_id v) (used_elems v) (vfree v) (used_idx v) (info_b v) (info_status v) (b_disk v) (b_blockno v) (b_data v) (buf0 v) (v_woken v) (v_mmio v).
Definition set_used n f v := VDisk (desc v) (avail_idx v) (avail_ring v) n f (vfree v) (used_idx v) (info_b v) (info_status v) (b_disk v) (b_blockno v) (b_data v) (buf0 v) (v_woken v) (v_mmio v).
Definition set_vfree f v := VDisk (desc v) (avail_idx v) (avail_ring v) (used_id v) (used_elems v) f (used_idx v) (info_b v) (info_status v) (b_disk v) (b_blockno v) (b_data v) (buf0 v) (v_woken v) (v_mmio v).
Definition set_used_idx n v := VDisk (desc v) (avail_idx v) (avail_ring v) (used_id v) (used_elems v) (vfree v) n (info_b v) (info_status v) (b_disk v) (b_blockno v) (b_data v) (buf0 v) (v_woken v) (v_mmio v).
Definition set_info_b f v := VDisk (desc v) (avail_idx v) (avail_ring v) (used_id v) (used_elems v) (vfree v) (used_idx v) f (info_status v) (b_disk v) (b_blockno v) (b_data v) (buf0 v) (v_woken v) (v_mmio v).
Definition set_info_status f v := VDisk (desc v) (avail_idx v) (avail_ring v) (used_id v) (used_elems v) (vfree v) (used_idx v) (info_b v) f (b_disk v) (b_blockno v) (b_data v) (buf0 v) (v_woken v) (v_mmio v).
Definition set_b_disk f v := VDisk (desc v) (avail_idx v) (avail_ring v) (used_id v) (used_elems v) (vfree v) (used_idx v) (info_b v) (info_status v) f (b_blockno v) (b_data v) (buf0 v) (v_woken v) (v_mmio v).
Definition set_b_data f v := VDisk (desc v) (avail_idx v) (avail_ring v) (used_id v) (used_elems v) (vfree v) (used_idx v) (info_b v) (info_status v) (b_disk v) (b_blockno v) f (buf0 v) (v_woken v) (v_mmio v).
Definition set_b_blockno f v := VDisk (desc v) (avail_idx v) (avail_ring v) (used_id v) (used_elems v) (vfree v) (used_idx v) (info_b v) (info_status v) (b_disk v) f (b_data v) (buf0 v) (v_woken v) (v_mmio v).
Definition set_buf0 f v := VDisk (desc v) (avail_idx v) (avail_ring v) (used_id v) (used_elems v) (vfree v) (used_idx v) (info_b v) (info_status v) (b_disk v) (b_blockno v) (b_data v) f (v_woken v) (v_mmio v).
Definition set_woken l v := VDisk (desc v) (avail_idx v) (avail_ring v) (used_id v) (used_elems v) (vfree v) (used_idx v) (info_b v) (info_status v) (b_disk v) (b_blockno v) (b_data v) (buf0 v) l (v_mmio v).
Definition set_mmio l v := VDisk (desc v) (avail_idx v) (avail_ring v) (used_id v) (used_elems v) (vfree v) (used_idx v) (info_b v) (info_status v) (b_disk v) (b_blockno v) (b_data v) (buf0 v) (v_woken v) l.

(** ** Descriptors *)

Definition alloc_desc : M vdisk Z :=
  f ← gets vfree;
  match first_such f (seqZ 0 NUM) with
  | Some i => modify (λ v, set_vfree (fset (vfree v) i false) v) ;; mret i
  | None => mret (-1)
  end.

(** [wakeup(c)], and a write to a register. *)
Definition wake (c : chan) : M vdisk unit := modify (λ v, set_woken (v_woken v ++ [c]) v).
Definition write_reg (r x : Z) : M vdisk unit := modify (λ v, set_mmio (v_mmio v ++ [(r, x)]) v).

(** [&disk.free[0]] and a buffer, as channels *)
Definition free_chan : chan := ("disk.free"%string, 0).
Definition buf_chan (b : Z) : chan := ("buffer"%string, b).

Definition VIRTIO_MMIO_QUEUE_NOTIFY : Z := 0x050.
Definition VIRTIO_MMIO_INTERRUPT_ACK : Z := 0x064.

Definition free_desc (i : Z) : M vdisk unit :=
  if i >=? NUM then panic "virtio_disk_intr 1" else
  f ← gets vfree;
  if (f i : bool) then panic "virtio_disk_intr 2" else
  modify (λ v, set_desc (fset (desc v) i (VDesc Null (d_len (desc v i)) (d_flags (desc v i)) (d_next (desc v i)))) v) ;;
  modify (λ v, set_vfree (fset (vfree v) i true) v) ;;
  wake free_chan.

Fixpoint free_chain (fuel : nat) (i : Z) : M vdisk unit :=
  match fuel with
  | O => out_of_fuel
  | S fuel' =>
      free_desc i ;;
      d ← gets desc;
      if nonzero (Z.land (d_flags (d i)) VRING_DESC_F_NEXT) then free_chain fuel' (d_next (d i)) else mret tt
  end.

(** The loop of [alloc3_desc], with the descriptors that it has so far. *)
Fixpoint alloc_descs (n : nat) (ixs : list Z) : M vdisk (option (list Z)) :=
  match n with
  | O => mret (Some ixs)
  | S n' =>
      i ← alloc_desc;
      if i <? 0 then for_each ixs free_desc ;; mret None
      else alloc_descs n' (ixs ++ [i])
  end.

Definition alloc3_desc : M vdisk (option (list Z)) := alloc_descs 3 [].

(** ** Requests *)

(** From the formatting of the descriptors to the notification of the device. *)
Definition submit (t b : Z) (write : bool) (i0 i1 i2 : Z) : M vdisk unit :=
  sector ← gets (λ v, u32 (b_blockno v b * (BSIZE / 512)));
  modify (λ v, set_buf0 (fset (buf0 v) t
    (OutHdr (if write then VIRTIO_BLK_T_OUT else VIRTIO_BLK_T_IN) sector)) v) ;;
  modify (λ v, set_desc (fset (desc v) i0 (VDesc (Header t) 16 VRING_DESC_F_NEXT i1)) v) ;;
  modify (λ v, set_desc (fset (desc v) i1
    (VDesc (Data b) BSIZE (Z.lor (if write then 0 else VRING_DESC_F_WRITE) VRING_DESC_F_NEXT) i2)) v) ;;
  modify (λ v, set_info_status (fset (info_status v) i0 0) v) ;;
  modify (λ v, set_desc (fset (desc v) i2 (VDesc (Status i0) 1 VRING_DESC_F_WRITE 0)) v) ;;
  modify (λ v, set_b_disk (fset (b_disk v) b 1) v) ;;
  modify (λ v, set_info_b (fset (info_b v) i0 (Some b)) v) ;;
  modify (λ v, set_avail (avail_idx v) (fset (avail_ring v) (avail_idx v `mod` NUM) i0) v) ;;
  modify (λ v, set_avail (u16 (avail_idx v + 1)) (avail_ring v) v) ;;
  write_reg VIRTIO_MMIO_QUEUE_NOTIFY 0.

(** [virtio_disk_rw] up to its wait for the device: it waits for descriptors or
    returns its chain. *)
Definition virtio_disk_rw_start (t b : Z) (write : bool) : M vdisk (Z * Z * Z) :=
  ixs ← alloc3_desc;
  match ixs with
  | Some [i0; i1; i2] => submit t b write i0 i1 i2 ;; mret (i0, i1, i2)
  | _ => sleep_on free_chan
  end.

(** [virtio_disk_rw] from its wait for the device. *)
Definition virtio_disk_rw_finish (b i0 : Z) : M vdisk unit :=
  d ← gets b_disk;
  if d b =? 1 then sleep_on (buf_chan b) else
  modify (λ v, set_info_b (fset (info_b v) i0 None) v) ;;
  free_chain (Z.to_nat NUM) i0.

(** The loop of [virtio_disk_intr]. *)
Fixpoint intr_loop (fuel : nat) : M vdisk unit :=
  match fuel with
  | O => out_of_fuel
  | S fuel' =>
      v ← gets id;
      if used_idx v `mod` NUM =? used_id v `mod` NUM then mret tt else
      let i := used_elems v (used_idx v) in
      if negb (info_status v i =? 0) then panic "virtio_disk_intr status" else
      match info_b v i with
      | None => undefined "null buffer"
      | Some b =>
          modify (λ v, set_b_disk (fset (b_disk v) b 0) v) ;;
          wake (buf_chan b) ;;
          modify (λ v, set_used_idx ((used_idx v + 1) `mod` NUM) v) ;;
          intr_loop fuel'
      end
  end.

(** The ring has [NUM] entries; [isr] is the interrupt status register. *)
Definition virtio_disk_intr (isr : Z) : M vdisk unit :=
  intr_loop (S (Z.to_nat NUM)) ;;
  write_reg VIRTIO_MMIO_INTERRUPT_ACK (Z.land isr 0x3).

(** ** Initialisation *)

(** The registers that the driver reads, and the offsets of those that it
    writes. *)
Record registers := Regs {
  MAGIC_VALUE : Z; VERSION : Z; DEVICE_ID : Z; VENDOR_ID : Z; DEVICE_FEATURES : Z; QUEUE_NUM_MAX : Z
}.

Definition VIRTIO_MMIO_DRIVER_FEATURES : Z := 0x020.
Definition VIRTIO_MMIO_GUEST_PAGE_SIZE : Z := 0x028.
Definition VIRTIO_MMIO_QUEUE_SEL : Z := 0x030.
Definition VIRTIO_MMIO_QUEUE_NUM : Z := 0x038.
Definition VIRTIO_MMIO_QUEUE_PFN : Z := 0x040.
Definition VIRTIO_MMIO_STATUS : Z := 0x070.

(** The bits of the status register, and the features that the driver does not
    accept, in the order of the code. *)
Definition VIRTIO_CONFIG_S_ACKNOWLEDGE : Z := 1.
Definition VIRTIO_CONFIG_S_DRIVER : Z := 2.
Definition VIRTIO_CONFIG_S_DRIVER_OK : Z := 4.
Definition VIRTIO_CONFIG_S_FEATURES_OK : Z := 8.
Definition refused_features : list Z := [5; 7; 11; 12; 27; 29; 28].

(** The result is the sequence of the register writes; [pages] is the address of
    [disk.pages]. *)
Definition virtio_disk_init (r : registers) (pages : Z) : M vdisk (list (Z * Z)) :=
  if negb (MAGIC_VALUE r =? 0x74726976) || negb (VERSION r =? 1) || negb (DEVICE_ID r =? 2) ||
     negb (VENDOR_ID r =? 0x554d4551)
  then panic "could not find virtio disk" else
  let status1 := VIRTIO_CONFIG_S_ACKNOWLEDGE in
  let status2 := Z.lor status1 VIRTIO_CONFIG_S_DRIVER in
  let features := foldl (λ f k, Z.land f (Z.lnot (Z.shiftl 1 k))) (DEVICE_FEATURES r) refused_features in
  let status3 := Z.lor status2 VIRTIO_CONFIG_S_FEATURES_OK in
  let status4 := Z.lor status3 VIRTIO_CONFIG_S_DRIVER_OK in
  if QUEUE_NUM_MAX r =? 0 then panic "virtio disk has no queue 0" else
  if QUEUE_NUM_MAX r <? NUM then panic "virtio disk max queue too short" else
  modify (set_desc (λ _, VDesc Null 0 0 0)) ;;
  modify (set_avail 0 (λ _, 0)) ;;
  modify (set_used 0 (λ _, 0)) ;;
  for_each (seqZ 0 NUM) (λ i, modify (λ v, set_vfree (fset (vfree v) i true) v)) ;;
  mret [(VIRTIO_MMIO_STATUS, status1); (VIRTIO_MMIO_STATUS, status2); (VIRTIO_MMIO_DRIVER_FEATURES, u32 features);
        (VIRTIO_MMIO_STATUS, status3); (VIRTIO_MMIO_STATUS, status4); (VIRTIO_MMIO_GUEST_PAGE_SIZE, PGSIZE);
        (VIRTIO_MMIO_QUEUE_SEL, 0); (VIRTIO_MMIO_QUEUE_NUM, NUM); (VIRTIO_MMIO_QUEUE_PFN, u32 (Z.shiftr pages PGSHIFT))].

End Virtio.
