(* ===== verification/VirtioSys.v ===== *)
(** * Processes, driver and disk together

    The system of the processes that call [virtio_disk_rw], the interrupt
    handler and the device, and its refinement of the disk of Bio.v: every call
    transfers its block exactly once between its beginning and its end. *)

From S2P Require Import Prelude Machine Bio Virtio.
Import Virtio.

(** Where a process is: outside of [virtio_disk_rw], before its request, or
    waiting for it with the chain of its request in [idx]. *)
Inductive pc : Type :=
  | Idle
  | Starting (b : Z) (write : bool)
  | Waiting (b : Z) (write : bool) (i0 i1 i2 : Z).

(** The device has read the ring of available requests up to [dev_avail] and
    works on [dev_pending]. *)
Record sys := Sys {
  vd : vdisk;
  pcs : Z → pc;
  blocks : Z → block;
  dev_avail : Z;
  dev_pending : list Z
}.

Definition set_vd v s := Sys v (pcs s) (blocks s) (dev_avail s) (dev_pending s).
Definition set_pc t p s := Sys (vd s) (fset (pcs s) t p) (blocks s) (dev_avail s) (dev_pending s).

(** The buffer of the call that a process is in. *)
Definition active (p : pc) : option Z :=
  match p with Idle => None | Starting b _ => Some b | Waiting b _ _ _ _ => Some b end.

(** ** The device *)

(** The request that a chain describes, as the documentation of the device lays
    it out: whether it writes, the block, the buffer and the status byte. *)
Definition request (v : vdisk) (h : Z) : option (bool * Z * Z * Z) :=
  let d0 := desc v h in
  let d1 := desc v (d_next d0) in
  let d2 := desc v (d_next d1) in
  match d_addr d0, d_addr d1, d_addr d2 with
  | Header t, Data b, Status i =>
      let write := h_type (buf0 v t) =? VIRTIO_BLK_T_OUT in
      let sector := h_sector (buf0 v t) in
      if (d_len d0 =? 16) && (d_flags d0 =? VRING_DESC_F_NEXT) && (d_len d1 =? BSIZE) &&
         (d_flags d1 =? if write then VRING_DESC_F_NEXT else Z.lor VRING_DESC_F_WRITE VRING_DESC_F_NEXT) &&
         (d_len d2 =? 1) && (d_flags d2 =? VRING_DESC_F_WRITE) && Z.even sector
      then Some (write, sector / 2, b, i) else None
  | _, _, _ => None
  end.

(** The transfer of a block, the status byte and the entry of the used ring. *)
Definition completed (s : sys) (h : Z) (pending : list Z) (write : bool) (n b i : Z) : sys :=
  let v := vd s in
  let v' := if write then v else set_b_data (fset (b_data v) b (blocks s n)) v in
  let v' := set_info_status (fset (info_status v) i 0) v' in
  let v' := set_used (u16 (used_id v + 1)) (fset (used_elems v) (used_id v `mod` NUM) h) v' in
  Sys v' (pcs s) (if write then fset (blocks s) n (b_data v b) else blocks s) (dev_avail s) pending.

(** What a device may do: take the next available request, complete one of those
    that it has taken, in any order, or anything at all if it was given a chain
    that is not a request. *)
Inductive serves : sys → sys → Prop :=
  | sv_take s :
      dev_avail s ≠ avail_idx (vd s) →
      serves s (Sys (vd s) (pcs s) (blocks s) (u16 (dev_avail s + 1))
                  (dev_pending s ++ [avail_ring (vd s) (dev_avail s `mod` NUM)]))
  | sv_complete s l1 h l2 write n b i :
      dev_pending s = l1 ++ h :: l2 → request (vd s) h = Some (write, n, b, i) →
      serves s (completed s h (l1 ++ l2) write n b i)
  | sv_garbage s s' h : h ∈ dev_pending s → request (vd s) h = None → serves s s'.

(** ** The steps of the system *)

Section system.
(** The device is any machine that does what its documentation says. *)
Context (device : sys → sys → Prop).

(** A caller holds the sleep-lock of its buffer, so that no other call uses it,
    and the number of its block fits the disk; a buffer that is not in a call
    may be recycled and its data changed. *)
Inductive step : sys → sys → Prop :=
  | st_call s t b write :
      pcs s t = Idle → (∀ t', active (pcs s t') ≠ Some b) → 0 ≤ b_blockno (vd s) b < 2 ^ 31 →
      step s (set_pc t (Starting b write) s)
  | st_start s t b write i0 i1 i2 v :
      pcs s t = Starting b write → virtio_disk_rw_start t b write (vd s) = Ret (i0, i1, i2) v →
      step s (set_pc t (Waiting b write i0 i1 i2) (set_vd v s))
  | st_start_wait s t b write c v :
      pcs s t = Starting b write → virtio_disk_rw_start t b write (vd s) = Sleep c v →
      step s (set_vd v s)
  | st_finish s t b write i0 i1 i2 v :
      pcs s t = Waiting b write i0 i1 i2 → virtio_disk_rw_finish b i0 (vd s) = Ret tt v →
      step s (set_pc t Idle (set_vd v s))
  | st_finish_wait s t b write i0 i1 i2 c v :
      pcs s t = Waiting b write i0 i1 i2 → virtio_disk_rw_finish b i0 (vd s) = Sleep c v →
      step s (set_vd v s)
  | st_intr s isr v : virtio_disk_intr isr (vd s) = Ret tt v → step s (set_vd v s)
  | st_device s s' : device s s' → step s s'
  | st_use s b n d :
      (∀ t, active (pcs s t) ≠ Some b) →
      step s (set_vd (set_b_blockno (fset (b_blockno (vd s)) b n) (set_b_data (fset (b_data (vd s)) b d) (vd s))) s).

(** The system after [virtio_disk_init]. *)
Definition boot (s : sys) : Prop :=
  (∃ r pages f v, virtio_disk_init r pages v = Ret f (vd s) ∧ used_idx v = 0 ∧ (∀ b, b_disk v b = 0)) ∧
  (∀ t, pcs s t = Idle) ∧ dev_avail s = 0 ∧ dev_pending s = [].

Inductive reachable : sys → Prop :=
  | re_boot s : boot s → reachable s
  | re_step s s' : reachable s → step s s' → reachable s'.

End system.

(** ** The abstract disk

    A call is requested, served in one step by the transfer of Bio.v, and
    returns. *)

Inductive apc : Type :=
  | AIdle
  | ARequested (b : Z) (write : bool)
  | AServed (b : Z) (write : bool).

Definition aactive (p : apc) : option Z :=
  match p with AIdle => None | ARequested b _ => Some b | AServed b _ => Some b end.

Record asys := ASys { a_pcs : Z → apc; a_bio : bio }.

Inductive astep : asys → asys → Prop :=
  | as_call a t b write :
      a_pcs a t = AIdle → (∀ t', aactive (a_pcs a t') ≠ Some b) →
      astep a (ASys (fset (a_pcs a) t (ARequested b write)) (a_bio a))
  | as_serve a t b write m :
      a_pcs a t = ARequested b write → Bio.virtio_disk_rw b write (a_bio a) = Ret tt m →
      astep a (ASys (fset (a_pcs a) t (AServed b write)) m)
  | as_return a t b write :
      a_pcs a t = AServed b write → astep a (ASys (fset (a_pcs a) t AIdle) (a_bio a))
  | as_use a b x :
      (∀ t, aactive (a_pcs a t) ≠ Some b) →
      astep a (ASys (a_pcs a) (set_bufs (fset (bufs (a_bio a)) b x) (a_bio a))).

Inductive areachable : asys → Prop :=
  | ar_boot a : (∀ t, a_pcs a t = AIdle) → areachable a
  | ar_step a a' : areachable a → astep a a' → areachable a'.

(** ** The rings *)

Definition window (ring : Z → Z) (from n : Z) : list Z := (λ k, ring ((from + k) `mod` NUM)) <$> seqZ 0 n.

(** The requests that the device has not taken, those that it has not completed,
    and the completed ones that the driver has not seen. *)
Definition available (s : sys) : list Z :=
  window (avail_ring (vd s)) (dev_avail s) ((avail_idx (vd s) - dev_avail s) `mod` 2 ^ 16).
Definition todo (s : sys) : list Z := dev_pending s ++ available s.
Definition used (s : sys) : list Z :=
  window (used_elems (vd s)) (used_idx (vd s)) ((used_id (vd s) - used_idx (vd s)) `mod` NUM).

Definition abs_pc (s : sys) (p : pc) : apc :=
  match p with
  | Idle => AIdle
  | Starting b write => ARequested b write
  | Waiting b write i0 _ _ => if bool_decide (i0 ∈ todo s) then ARequested b write else AServed b write
  end.

(** A state of the system and the abstract state that it implements. *)
Record implements (s : sys) (a : asys) : Prop := {
  im_pcs t : a_pcs a t = abs_pc s (pcs s t);
  im_disk n : disk (a_bio a) n = blocks s n;
  im_buf b : blockno (bufs (a_bio a) b) = b_blockno (vd s) b ∧ data (bufs (a_bio a) b) = b_data (vd s) b
}.

(** ** The invariant *)

(** The chain of a process. *)
Definition owns (p : pc) : list Z :=
  match p with Waiting _ _ i0 i1 i2 => [i0; i1; i2] | _ => [] end.

Record chain_ok (v : vdisk) (t b : Z) (write : bool) (i0 i1 i2 : Z) : Prop := {
  ch_0 : desc v i0 = VDesc (Header t) 16 VRING_DESC_F_NEXT i1;
  ch_1 : desc v i1 = VDesc (Data b) BSIZE (Z.lor (if write then 0 else VRING_DESC_F_WRITE) VRING_DESC_F_NEXT) i2;
  ch_2 : desc v i2 = VDesc (Status i0) 1 VRING_DESC_F_WRITE 0;
  ch_hdr : buf0 v t = OutHdr (if write then VIRTIO_BLK_T_OUT else VIRTIO_BLK_T_IN) (u32 (b_blockno v b * (BSIZE / 512)));
  ch_info : info_b v i0 = Some b;
  ch_status : info_status v i0 = 0
}.

Record vinv (s : sys) : Prop := {
  vi_nodup t : NoDup (owns (pcs s t));
  vi_disjoint t t' x : x ∈ owns (pcs s t) → x ∈ owns (pcs s t') → t = t';
  vi_taken x : 0 ≤ x < NUM → vfree (vd s) x = false ↔ ∃ t, x ∈ owns (pcs s t);
  vi_range t x : x ∈ owns (pcs s t) → 0 ≤ x < NUM;
  vi_chain t b write i0 i1 i2 : pcs s t = Waiting b write i0 i1 i2 → chain_ok (vd s) t b write i0 i1 i2;
  vi_buf t t' b : active (pcs s t) = Some b → active (pcs s t') = Some b → t = t';
  vi_blockno t b : active (pcs s t) = Some b → 0 ≤ b_blockno (vd s) b < 2 ^ 31;
  vi_heads : NoDup (todo s ++ used s);
  vi_head h : h ∈ todo s ++ used s → ∃ t b write i1 i2, pcs s t = Waiting b write h i1 i2;
  vi_disk t b write i0 i1 i2 : pcs s t = Waiting b write i0 i1 i2 →
    b_disk (vd s) b = if bool_decide (i0 ∈ todo s ++ used s) then 1 else 0;
  vi_idle b : (∀ t, ∀ write i0 i1 i2, pcs s t ≠ Waiting b write i0 i1 i2) → b_disk (vd s) b = 0;
  vi_avail : 0 ≤ avail_idx (vd s) < 2 ^ 16 ∧ 0 ≤ dev_avail s < 2 ^ 16;
  vi_used : 0 ≤ used_id (vd s) < 2 ^ 16 ∧ 0 ≤ used_idx (vd s) < NUM
}.

(** * Lemmas *)

(** ** Rings *)

Lemma window_nil ring from : window ring from 0 = [].
Proof. done. Qed.

Lemma window_length ring from n : 0 ≤ n → Z.of_nat (length (window ring from n)) = n.
Proof. intros. unfold window. rewrite length_fmap, length_seqZ. lia. Qed.

Lemma window_mod ring from from' n : from `mod` NUM = from' `mod` NUM → window ring from n = window ring from' n.
Proof.
  intros E. unfold window. apply list_fmap_ext. intros i k _. f_equal.
  by rewrite <-(Zplus_mod_idemp_l from), E, Zplus_mod_idemp_l.
Qed.

Lemma window_pop ring from n : 0 < n → window ring from n = ring (from `mod` NUM) :: window ring (from + 1) (n - 1).
Proof.
  intros Hn. unfold window. rewrite seqZ_cons by lia. rewrite fmap_cons. f_equal; [f_equal; f_equal; lia|].
  rewrite <-(Z.add_0_l (Z.pred n)) at 1.
  replace (seqZ (Z.succ 0) (0 + Z.pred n)) with (Z.add 1 <$> seqZ 0 (n - 1)).
  - rewrite <-list_fmap_compose. apply list_fmap_ext. intros i k _. simpl. f_equal. f_equal. lia.
  - rewrite fmap_add_seqZ. f_equal; lia.
Qed.

Lemma window_push ring from n x : 0 ≤ n < NUM →
  window (fset ring ((from + n) `mod` NUM) x) from (n + 1) = window ring from n ++ [x].
Proof.
  intros Hn. unfold window, NUM in *. rewrite seqZ_app by lia. rewrite fmap_app. f_equal.
  - apply list_fmap_ext. intros i k Hk. apply lookup_seqZ in Hk as [-> Hk]. apply fset_ne. dlia.
  - change (seqZ (0 + n) 1) with [0 + n]. simpl. f_equal. apply fset_eq.
Qed.

(** ** Counting: at most two chains *)

Lemma vinv_few s l : vinv s → NoDup l → (∀ h, h ∈ l → ∃ t b write i1 i2, pcs s t = Waiting b write h i1 i2) →
  3 * Z.of_nat (length l) ≤ NUM.
Proof.
  intros I Hnd Hl.
  assert (∃ l', length l' = (3 * length l)%nat ∧ NoDup l' ∧
    (∀ x, x ∈ l' → 0 ≤ x < NUM ∧ ∃ t h, h ∈ l ∧ h ∈ owns (pcs s t) ∧ x ∈ owns (pcs s t))) as (l' & Hlen & Hnd' & Hin).
  { induction Hnd as [|h l Hh Hnd IH]; [exists []; split_and!; [done|constructor|by intros x ?%elem_of_nil]|].
    destruct IH as (l' & Hlen & Hnd' & Hin); [set_solver|].
    destruct (Hl h) as (t & b & w & i1 & i2 & E); [by left|].
    assert (owns (pcs s t) = [h; i1; i2]) as Eo by by rewrite E.
    exists ([h; i1; i2] ++ l'). split_and!; [rewrite length_app; simpl; lia| |].
    - apply NoDup_app. split_and!; [rewrite <-Eo; apply (vi_nodup s I)| |done].
      intros x Hx (_ & t' & h' & Hh' & Ho' & Hx')%Hin. rewrite <-Eo in Hx.
      assert (t' = t) as -> by (by eapply (vi_disjoint s I)). destruct (Hl h') as (t2 & b2 & w2 & j1 & j2 & E2); [by right|].
      assert (t2 = t) as ->. { eapply (vi_disjoint s I); [rewrite E2; by left|done]. }
      rewrite E in E2. injection E2 as -> -> -> -> ->. done.
    - intros x [Hx|Hx]%elem_of_app.
      + split; [apply (vi_range s I t); by rewrite Eo|]. exists t, h. rewrite Eo. split_and!; [by left|by left|done].
      + destruct (Hin x Hx) as (? & t' & h' & ? & ? & ?). split; [done|]. exists t', h'. split_and!; [by right|done|done]. }
  assert (length l' ≤ length (seqZ 0 NUM))%nat as Hle.
  { apply NoDup_incl_length; [by apply NoDup_ListNoDup|]. intros x Hx%list_elem_of_In.
    apply list_elem_of_In, elem_of_seqZ. destruct (Hin x Hx). lia. }
  rewrite length_seqZ in Hle. unfold NUM in *. lia.
Qed.

(** The number of requests that are under way in the two rings. *)
Lemma vinv_rings s : vinv s →
  (avail_idx (vd s) - dev_avail s) `mod` 2 ^ 16 + Z.of_nat (length (dev_pending s)) +
  (used_id (vd s) - used_idx (vd s)) `mod` NUM ≤ 2.
Proof.
  intros I. pose proof (vinv_few s _ I (vi_heads s I) (vi_head s I)) as H.
  unfold todo, available, used in H. rewrite !length_app, !Nat2Z.inj_add in H.
  rewrite !window_length in H by (apply Z.mod_pos_bound; unfold NUM; lia). unfold NUM in *. lia.
Qed.

(** ** Descriptors *)

Lemma alloc_desc_spec v :
  (∃ i, 0 ≤ i < NUM ∧ vfree v i = true ∧ alloc_desc v = Ret i (set_vfree (fset (vfree v) i false) v)) ∨
  alloc_desc v = Ret (-1) v ∧ ∀ x, 0 ≤ x < NUM → vfree v x = false.
Proof.
  unfold alloc_desc, mbind, M_bind, gets.
  destruct (first_such_split (vfree v) 0 NUM) as [(i & -> & Hi & Hf & _)|[-> Hno]]; [left|by right].
  exists i. split_and!; [lia|lia|done|done].
Qed.

(** The state after [free_desc]. *)
Definition freed_desc (i : Z) (v : vdisk) : vdisk :=
  set_woken (v_woken v ++ [free_chan]) (set_vfree (fset (vfree v) i true)
    (set_desc (fset (desc v) i (VDesc Null (d_len (desc v i)) (d_flags (desc v i)) (d_next (desc v i)))) v)).

Lemma free_desc_spec i v : i < NUM → vfree v i = false → free_desc i v = Ret tt (freed_desc i v).
Proof.
  intros Hi Hf. unfold free_desc. replace (i >=? NUM) with false by lia. unfold mbind, M_bind, gets. by rewrite Hf.
Qed.

(** A change of free descriptors only. *)
Record vsame (v v' : vdisk) : Prop := {
  vs_free x : vfree v' x = vfree v x;
  vs_desc x : vfree v x = false → desc v' x = desc v x;
  vs_rest : v' = set_woken (v_woken v') (set_desc (desc v') (set_vfree (vfree v') v))
}.

Lemma vsame_refl v : vsame v v.
Proof. split; [done|done|by destruct v]. Qed.

Lemma vsame_trans v1 v2 v3 : vsame v1 v2 → vsame v2 v3 → vsame v1 v3.
Proof.
  intros [F1 D1 E1] [F2 D2 E2]. split.
  - intros x. by rewrite F2.
  - intros x Hx. rewrite D2, D1; [done|done|by rewrite F1].
  - rewrite E2, E1. done.
Qed.

Lemma vsame_freed i v : vfree v i = true → vsame v (freed_desc i (set_vfree (fset (vfree v) i false) v)).
Proof.
  intros Hi. split; simpl.
  - intros x. unfold fset. by destruct (Z.eqb_spec x i) as [->|].
  - intros x Hx. apply fset_ne. congruence.
  - by destruct v.
Qed.

(** Taking two descriptors and giving them back. *)
Lemma vsame_freed2 i j v : vfree v i = true → vfree v j = true → i ≠ j →
  vsame v (freed_desc j (freed_desc i (set_vfree (fset (fset (vfree v) i false) j false) v))).
Proof.
  intros Hi Hj Hne. split; simpl.
  - intros x. unfold fset. destruct (Z.eqb_spec x j) as [->|]; [done|]. by destruct (Z.eqb_spec x i) as [->|].
  - intros x Hx. rewrite !fset_ne by congruence. done.
  - by destruct v.
Qed.

Lemma other_descriptor i j : ∃ x, 0 ≤ x < NUM ∧ x ≠ i ∧ x ≠ j.
Proof.
  unfold NUM. destruct (decide (i ≠ 0 ∧ j ≠ 0)); [exists 0; lia|].
  destruct (decide (i ≠ 1 ∧ j ≠ 1)); [exists 1; lia|]. exists 2. lia.
Qed.

Lemma alloc3_spec v :
  (∃ i j k, NoDup [i; j; k] ∧ (∀ x, x ∈ [i; j; k] → 0 ≤ x < NUM ∧ vfree v x = true) ∧
    alloc3_desc v = Ret (Some [i; j; k]) (set_vfree (fset (fset (fset (vfree v) i false) j false) k false) v)) ∨
  ∃ v', alloc3_desc v = Ret None v' ∧ vsame v v' ∧ ∃ x, 0 ≤ x < NUM ∧ vfree v x = false.
Proof.
  unfold alloc3_desc. cbn [alloc_descs].
  destruct (alloc_desc_spec v) as [(i & Hi & Fi & E1)|[E1 Hno]]; (erewrite bind_Ret by exact E1); cbv beta.
  2: { right. eexists. split; [reflexivity|]. split; [apply vsame_refl|]. exists 0. by split; [unfold NUM; lia|apply Hno]. }
  replace (i <? 0) with false by lia. set (v1 := set_vfree _ v).
  destruct (alloc_desc_spec v1) as [(j & Hj & Fj & E2)|[E2 Hno]]; (erewrite bind_Ret by exact E2); cbv beta.
  2: { right. eexists. split; [|split; [by apply (vsame_freed i)|]].
    2: { exists (if i =? 0 then 1 else 0). pose proof (Hno (if i =? 0 then 1 else 0)) as H. simpl in H. unfold NUM, fset in *.
      repeat case_match; (split; [lia|]); try lia; apply H; lia. } change (-1 <? 0) with true. cbn [app for_each].
    erewrite bind_Ret; [reflexivity|]. erewrite bind_Ret; [reflexivity|].
    apply free_desc_spec; [lia|]. simpl. apply fset_eq. }
  assert (j ≠ i) as Hji by (intros ->; simpl in Fj; by rewrite fset_eq in Fj).
  simpl in Fj. rewrite fset_ne in Fj by done.
  replace (j <? 0) with false by lia. set (v2 := set_vfree _ v1).
  destruct (alloc_desc_spec v2) as [(k & Hk & Fk & E3)|[E3 Hno]]; (erewrite bind_Ret by exact E3); cbv beta.
  2: { right. eexists. split; [|split; [by apply (vsame_freed2 i j)|]].
    2: { destruct (other_descriptor i j) as (x & Hx & Hxi & Hxj). exists x. split; [done|]. specialize (Hno x Hx).
      simpl in Hno. by rewrite !fset_ne in Hno. } change (-1 <? 0) with true. cbn [app for_each].
    erewrite bind_Ret; [reflexivity|]. erewrite bind_Ret.
    2: { apply free_desc_spec; [lia|]. simpl. rewrite fset_ne by done. apply fset_eq. }
    erewrite bind_Ret; [reflexivity|]. apply free_desc_spec; [lia|]. simpl. rewrite fset_ne by done. apply fset_eq. }
  assert (k ≠ j) as Hkj by (intros ->; simpl in Fk; by rewrite fset_eq in Fk).
  simpl in Fk. rewrite fset_ne in Fk by done.
  assert (k ≠ i) as Hki by (intros ->; by rewrite fset_eq in Fk). rewrite fset_ne in Fk by done.
  replace (k <? 0) with false by lia. left. exists i, j, k. split_and!; [| |done].
  - rewrite !NoDup_cons, !not_elem_of_cons. split_and!; try done; try (by apply not_elem_of_nil). by apply NoDup_nil.
  - intros x. rewrite !elem_of_cons, elem_of_nil. naive_solver.
Qed.

(** ** Chains *)

Lemma chain_request v t b write i0 i1 i2 : chain_ok v t b write i0 i1 i2 → 0 ≤ b_blockno v b < 2 ^ 31 →
  request v i0 = Some (write, b_blockno v b, b, i0).
Proof.
  intros [E0 E1 E2 Eh _ _] Hn. unfold request. rewrite E0. simpl. rewrite E1. simpl. rewrite E2. simpl. rewrite Eh. simpl.
  change (BSIZE / 512) with 2. rewrite u32_small by lia. rewrite Z.even_mul. rewrite Z.div_mul by lia.
  rewrite orb_true_r. by destruct write.
Qed.

Lemma vinv_owned s t x : vinv s → x ∈ owns (pcs s t) → vfree (vd s) x = false.
Proof. intros I Hx. apply (vi_taken s I); [by apply (vi_range s I t)|by exists t]. Qed.

(** A chain is kept by changes that leave its descriptors, its header and its
    bookkeeping alone. *)
Lemma chain_ok_keep v v' t b write i0 i1 i2 : chain_ok v t b write i0 i1 i2 →
  (∀ x, x ∈ [i0; i1; i2] → desc v' x = desc v x) → buf0 v' t = buf0 v t → b_blockno v' b = b_blockno v b →
  info_b v' i0 = info_b v i0 → info_status v' i0 = info_status v i0 ∨ info_status v' i0 = 0 →
  chain_ok v' t b write i0 i1 i2.
Proof.
  intros [E0 E1 E2 Eh Ei Es] Hd Hb Hn Hi Hs. split.
  - by rewrite Hd by set_solver.
  - by rewrite Hd by set_solver.
  - by rewrite Hd by set_solver.
  - by rewrite Hb, Hn.
  - by rewrite Hi.
  - destruct Hs as [->| ->]; done.
Qed.

(** ** The invariant at boot and in the steps *)

Lemma vinv_vsame s v' : vinv s → vsame (vd s) v' → vinv (set_vd v' s).
Proof.
  intros I [F D E]. pose proof (vinv_owned s) as Ho. destruct I as [? ? Ht ? Hc ? ? ? ? ? ? ? ?]. rewrite E. clear E.
  split; simpl; try done.
  - intros x Hx. rewrite F. by apply Ht.
  - intros t b w i0 i1 i2 Ep. eapply chain_ok_keep; [by apply Hc| |done..|by left]. simpl.
    intros x Hx. apply D, (Ho t); [by split|]. by rewrite Ep.
Qed.

Lemma implements_vsame s v' a : implements s a → vsame (vd s) v' → implements (set_vd v' s) a.
Proof. intros [? ? ?] [F D E]. rewrite E. by split. Qed.

Lemma vinv_call s t b write : vinv s → pcs s t = Idle → (∀ t', active (pcs s t') ≠ Some b) →
  0 ≤ b_blockno (vd s) b < 2 ^ 31 → vinv (set_pc t (Starting b write) s).
Proof.
  intros I Ep Hb Hn.
  assert (∀ t', owns (pcs (set_pc t (Starting b write) s) t') = owns (pcs s t')) as Ho.
  { intros t'. simpl. unfold fset. destruct (Z.eqb_spec t' t) as [->|]; [by rewrite Ep|done]. }
  assert (∀ t' b' w i0 i1 i2, pcs (set_pc t (Starting b write) s) t' = Waiting b' w i0 i1 i2 ↔
    pcs s t' = Waiting b' w i0 i1 i2) as Hw.
  { intros t' b' w i0 i1 i2. simpl. unfold fset. destruct (Z.eqb_spec t' t) as [->|]; [by rewrite Ep|done]. }
  destruct I as [Hnd Hdj Ht Hr Hc Hbuf Hbn Hh Hhd Hd Hi Ha Hu]. split; try done.
  - intros t'. by rewrite Ho.
  - intros t1 t2 x. rewrite !Ho. apply Hdj.
  - intros x Hx. setoid_rewrite Ho. by apply Ht.
  - intros t' x. rewrite Ho. apply Hr.
  - intros t' b' w i0 i1 i2 E%Hw. by apply Hc.
  - intros t1 t2 b'. simpl. unfold fset.
    destruct (Z.eqb_spec t1 t) as [->|], (Z.eqb_spec t2 t) as [->|]; simpl; [done| | |apply Hbuf].
    + intros [= <-] E. by destruct (Hb t2).
    + intros E [= <-]. by destruct (Hb t1).
  - intros t' b'. simpl. unfold fset. destruct (Z.eqb_spec t' t) as [->|]; [intros [= <-]; done|apply Hbn].
  - intros h Hh'. destruct (Hhd h Hh') as (t' & b' & w & i1 & i2 & E). exists t', b', w, i1, i2. by apply Hw.
  - intros t' b' w i0 i1 i2 E%Hw. by eapply Hd.
  - intros b' Hno. apply Hi. intros t' w i0 i1 i2 E%Hw. by eapply Hno.
Qed.

Lemma vinv_use s b n d : vinv s → (∀ t, active (pcs s t) ≠ Some b) →
  vinv (set_vd (set_b_blockno (fset (b_blockno (vd s)) b n) (set_b_data (fset (b_data (vd s)) b d) (vd s))) s).
Proof.
  intros [Hnd Hdj Ht Hr Hc Hbuf Hbn Hh Hhd Hd Hi Ha Hu] Hb. split; try done; simpl.
  - intros t b' w i0 i1 i2 E. eapply chain_ok_keep; [by apply Hc|done|done| |done|by left].
    simpl. apply fset_ne. intros ->. apply (Hb t). by rewrite E.
  - intros t b' E. rewrite fset_ne; [by eapply Hbn|]. intros ->. by apply (Hb t).
Qed.

(** The state after [submit]. *)
Definition submitted (t b : Z) (write : bool) (i0 i1 i2 : Z) (v : vdisk) : vdisk :=
  VDisk
    (fset (fset (fset (desc v) i0 (VDesc (Header t) 16 VRING_DESC_F_NEXT i1)) i1
       (VDesc (Data b) BSIZE (Z.lor (if write then 0 else VRING_DESC_F_WRITE) VRING_DESC_F_NEXT) i2)) i2
       (VDesc (Status i0) 1 VRING_DESC_F_WRITE 0))
    (u16 (avail_idx v + 1)) (fset (avail_ring v) (avail_idx v `mod` NUM) i0) (used_id v) (used_elems v)
    (vfree v) (used_idx v) (fset (info_b v) i0 (Some b)) (fset (info_status v) i0 0) (fset (b_disk v) b 1)
    (b_blockno v) (b_data v)
    (fset (buf0 v) t (OutHdr (if write then VIRTIO_BLK_T_OUT else VIRTIO_BLK_T_IN) (u32 (b_blockno v b * (BSIZE / 512)))))
    (v_woken v) (v_mmio v ++ [(VIRTIO_MMIO_QUEUE_NOTIFY, 0)]).

Lemma submit_eq t b write i0 i1 i2 v : submit t b write i0 i1 i2 v = Ret tt (submitted t b write i0 i1 i2 v).
Proof. reflexivity. Qed.

(** [virtio_disk_rw] submits its request with three free descriptors, or waits
    and has changed nothing. *)
Lemma start_spec t b write v :
  (∃ i j k, NoDup [i; j; k] ∧ (∀ x, x ∈ [i; j; k] → 0 ≤ x < NUM ∧ vfree v x = true) ∧
    virtio_disk_rw_start t b write v =
      Ret (i, j, k) (submitted t b write i j k (set_vfree (fset (fset (fset (vfree v) i false) j false) k false) v))) ∨
  ∃ v', virtio_disk_rw_start t b write v = Sleep free_chan v' ∧ vsame v v' ∧
    ∃ x, 0 ≤ x < NUM ∧ vfree v x = false.
Proof.
  unfold virtio_disk_rw_start. destruct (alloc3_spec v) as [(i & j & k & Hnd & Hf & E)|(v' & E & Hs & Hx)].
  - left. exists i, j, k. split_and!; [done|done|]. by erewrite bind_Ret by exact E.
  - right. exists v'. split; [|done]. by erewrite bind_Ret by exact E.
Qed.

Lemma ring_next a d : 0 ≤ a < 2 ^ 16 → 0 ≤ d < 2 ^ 16 → (a - d) `mod` 2 ^ 16 < 8 →
  (u16 (a + 1) - d) `mod` 2 ^ 16 = (a - d) `mod` 2 ^ 16 + 1 ∧ (d + (a - d) `mod` 2 ^ 16) `mod` 8 = a `mod` 8.
Proof. unfold u16. intros. split; dlia. Qed.

Lemma available_submitted s t b write i j k : vinv s →
  available (set_pc t (Waiting b write i j k)
    (set_vd (submitted t b write i j k (set_vfree (fset (fset (fset (vfree (vd s)) i false) j false) k false) (vd s))) s)) =
  available s ++ [i].
Proof.
  intros I. unfold available. simpl. pose proof (vinv_rings s I) as Hr. destruct (vi_avail s I) as [Ha Hd].
  assert (0 ≤ (used_id (vd s) - used_idx (vd s)) `mod` NUM) by (apply Z.mod_pos_bound; unfold NUM; lia).
  assert (0 ≤ (avail_idx (vd s) - dev_avail s) `mod` 2 ^ 16) by (apply Z.mod_pos_bound; lia).
  destruct (ring_next _ _ Ha Hd) as [-> E]; [lia|]. unfold NUM at 1. rewrite <-E. apply window_push. unfold NUM. lia.
Qed.

Section start.
Context (s : sys) (t b : Z) (write : bool) (i j k : Z).
Hypothesis I : vinv s.
Hypothesis Ep : pcs s t = Starting b write.
Hypothesis Hnd : NoDup [i; j; k].
Hypothesis Hf : ∀ x, x ∈ [i; j; k] → 0 ≤ x < NUM ∧ vfree (vd s) x = true.

Let v1 := set_vfree (fset (fset (fset (vfree (vd s)) i false) j false) k false) (vd s).
Let s' := set_pc t (Waiting b write i j k) (set_vd (submitted t b write i j k v1) s).

Lemma start_todo : todo s' = todo s ++ [i].
Proof. unfold todo, s', v1. rewrite available_submitted by done. by rewrite (assoc_L app). Qed.

Lemma start_used : used s' = used s.
Proof. done. Qed.

Lemma start_fresh t' x : x ∈ [i; j; k] → x ∉ owns (pcs s t').
Proof. intros Hx Ho. apply (vinv_owned s t' x I) in Ho. destruct (Hf x Hx) as [_ E]. congruence. Qed.

Lemma start_pc t' : pcs s' t' = if t' =? t then Waiting b write i j k else pcs s t'.
Proof. done. Qed.

Lemma start_owns t' x : x ∈ owns (pcs s' t') ↔ (t' = t ∧ x ∈ [i; j; k]) ∨ x ∈ owns (pcs s t').
Proof.
  rewrite start_pc. destruct (Z.eqb_spec t' t) as [->|Hne].
  - rewrite Ep. simpl. set_solver.
  - naive_solver.
Qed.

Lemma start_waiting t' b' w i0 i1 i2 : t' ≠ t → pcs s t' = Waiting b' w i0 i1 i2 →
  b' ≠ b ∧ i0 ≠ i ∧ (∀ x, x ∈ [i0; i1; i2] → x ∉ [i; j; k]).
Proof.
  intros Hne E. split_and!.
  - intros ->. apply Hne, (vi_buf s I _ _ b); [by rewrite E|by rewrite Ep].
  - intros ->. apply (start_fresh t' i); [set_solver|]. rewrite E. set_solver.
  - intros x Hx Hx'. apply (start_fresh t' x Hx'). by rewrite E.
Qed.

Lemma start_not_head x : x ∈ [i; j; k] → x ∉ todo s ++ used s.
Proof.
  intros Hx Hh. destruct (vi_head s I x Hh) as (t' & b' & w & i1 & i2 & E). apply (start_fresh t' x Hx).
  rewrite E. by left.
Qed.

Lemma vinv_start : vinv s'.
Proof.
  assert (i ∈ [i; j; k]) as Hi by by left. pose proof (start_not_head i Hi) as Hih.
  split.
  - intros t'. rewrite start_pc. destruct (Z.eqb_spec t' t); [done|apply (vi_nodup s I)].
  - intros t1 t2 x. rewrite !start_owns. intros [[-> H1]|H1] [[-> H2]|H2]; [done| | |by eapply (vi_disjoint s I)].
    + by apply start_fresh in H2.
    + by apply start_fresh in H1.
  - intros x Hx. setoid_rewrite start_owns.
    assert (vfree (vd s') x = false ↔ x ∈ [i; j; k] ∨ vfree (vd s) x = false) as ->.
    { simpl. unfold fset. rewrite !elem_of_cons, elem_of_nil. repeat case_match; naive_solver lia. }
    rewrite (vi_taken s I x Hx). naive_solver.
  - intros t' x. rewrite start_owns. intros [[_ Hx]|Hx]; [by apply Hf|by eapply (vi_range s I)].
  - intros t' b' w i0 i1 i2. rewrite start_pc. destruct (Z.eqb_spec t' t) as [->|Hne].
    + intros [= <- <- <- <- <-]. rewrite !NoDup_cons, !not_elem_of_cons in Hnd. destruct Hnd as ((Hij & Hik & _) & (Hjk & _) & _).
      split; simpl; rewrite ?fset_eq; try done.
      * rewrite !fset_ne, fset_eq by done. done.
      * rewrite fset_ne, fset_eq by done. done.
    + intros E. destruct (start_waiting t' b' w i0 i1 i2 Hne E) as (Hb & Hi0 & Hx).
      eapply chain_ok_keep; [by apply (vi_chain s I)|..]; simpl.
      * intros x Hx1. specialize (Hx x Hx1). rewrite !not_elem_of_cons in Hx. destruct Hx as (? & ? & ? & _).
        by rewrite !fset_ne.
      * by rewrite fset_ne.
      * done.
      * by rewrite fset_ne.
      * left. by rewrite fset_ne.
  - intros t1 t2 b'.
    assert (∀ t', active (pcs s' t') = active (pcs s t')) as Ha.
    { intros t'. rewrite start_pc. destruct (Z.eqb_spec t' t) as [->|]; [by rewrite Ep|done]. }
    rewrite !Ha. apply (vi_buf s I).
  - intros t' b'. rewrite start_pc. destruct (Z.eqb_spec t' t) as [->|]; [|apply (vi_blockno s I)].
    intros E. apply (vi_blockno s I t). by rewrite Ep.
  - rewrite start_todo, start_used. pose proof (vi_heads s I) as Hh.
    rewrite <-(assoc_L app). rewrite (Permutation_app_comm [i] (used s)), (assoc_L app).
    apply NoDup_app. split_and!; [done| |by apply NoDup_singleton]. intros x Hx ->%list_elem_of_singleton. done.
  - intros h. rewrite start_todo, start_used. intros Hh.
    assert (h = i ∨ h ∈ todo s ++ used s) as [->|Ho] by set_solver.
    + exists t, b, write, j, k. rewrite start_pc. by rewrite Z.eqb_refl.
    + destruct (vi_head s I h Ho) as (t' & b' & w & i1 & i2 & E). exists t', b', w, i1, i2. rewrite start_pc.
      destruct (Z.eqb_spec t' t) as [->|]; [by rewrite Ep in E|done].
  - intros t' b' w i0 i1 i2. rewrite start_pc, start_todo, start_used. destruct (Z.eqb_spec t' t) as [->|Hne].
    + intros [= <- <- <- <- <-]. simpl. rewrite fset_eq, bool_decide_true by set_solver. done.
    + intros E. destruct (start_waiting t' b' w i0 i1 i2 Hne E) as (Hb & Hi0 & _). simpl. rewrite fset_ne by done.
      rewrite (vi_disk s I _ _ _ _ _ _ E). erewrite bool_decide_ext; [done|]. set_solver.
  - intros b' Hno. simpl. destruct (decide (b' = b)) as [->|Hb].
    + exfalso. eapply (Hno t). rewrite start_pc, Z.eqb_refl. done.
    + rewrite fset_ne by done. apply (vi_idle s I). intros t' w i0 i1 i2 E. apply (Hno t' w i0 i1 i2). rewrite start_pc.
      destruct (Z.eqb_spec t' t) as [->|]; [by rewrite Ep in E|done].
  - split; [simpl; unfold u16; apply Z.mod_pos_bound; lia|apply (vi_avail s I)].
  - apply (vi_used s I).
Qed.

End start.

(** ** The end of a request *)

(** The state after the end of a request. *)
Definition finished (i0 i1 i2 : Z) (v : vdisk) : vdisk :=
  freed_desc i2 (freed_desc i1 (freed_desc i0 (set_info_b (fset (info_b v) i0 None) v))).

Section finish.
Context (s : sys) (t b : Z) (write : bool) (i j k : Z).
Hypothesis I : vinv s.
Hypothesis Ep : pcs s t = Waiting b write i j k.

Lemma finish_distinct : i ≠ j ∧ i ≠ k ∧ j ≠ k.
Proof using I Ep.
  pose proof (vi_nodup s I t) as H. rewrite Ep in H. simpl in H. rewrite !NoDup_cons, !not_elem_of_cons in H. naive_solver.
Qed.

Lemma finish_free x : x ∈ [i; j; k] → 0 ≤ x < NUM ∧ vfree (vd s) x = false.
Proof using I Ep.
  intros Hx. assert (x ∈ owns (pcs s t)) as Ho by by rewrite Ep. split; [by eapply (vi_range s I)|by eapply vinv_owned].
Qed.

(** The process waits while the device or the interrupt handler has its request,
    and frees its chain after that. *)
Lemma finish_spec :
  virtio_disk_rw_finish b i (vd s) =
    if bool_decide (i ∈ todo s ++ used s) then Sleep (buf_chan b) (vd s) else Ret tt (finished i j k (vd s)).
Proof using I Ep.
  unfold virtio_disk_rw_finish. erewrite bind_Ret by reflexivity. cbv beta. rewrite (vi_disk s I _ _ _ _ _ _ Ep).
  destruct (bool_decide (i ∈ todo s ++ used s)); [done|]. change (0 =? 1) with false. cbv iota.
  erewrite bind_Ret by reflexivity. change (Z.to_nat NUM) with 8%nat.
  destruct finish_distinct as (Hij & Hik & Hjk). destruct (vi_chain s I _ _ _ _ _ _ Ep) as [E0 E1 E2 _ _ _].
  destruct (finish_free i) as [Ri Fi]; [set_solver|]. destruct (finish_free j) as [Rj Fj]; [set_solver|].
  destruct (finish_free k) as [Rk Fk]; [set_solver|]. set (v := set_info_b _ _).
  cbn [free_chain]. erewrite bind_Ret by (apply free_desc_spec; [lia|done]). erewrite bind_Ret by reflexivity. cbv beta.
  assert (desc (freed_desc i v) i = VDesc Null 16 1 j) as ->.
  { simpl. rewrite fset_eq, E0. done. }
  cbn [d_flags d_next]. change (nonzero (Z.land 1 VRING_DESC_F_NEXT)) with true. cbv iota.
  erewrite bind_Ret by (apply free_desc_spec; [lia|simpl; by rewrite fset_ne]). erewrite bind_Ret by reflexivity. cbv beta.
  assert (∃ f, desc (freed_desc j (freed_desc i v)) j = VDesc Null BSIZE f k ∧ nonzero (Z.land f VRING_DESC_F_NEXT) = true)
    as (f & -> & Hf).
  { eexists. simpl. rewrite fset_eq, !fset_ne, E1 by done. split; [done|]. by destruct write. }
  cbn [d_flags d_next]. rewrite Hf.
  erewrite bind_Ret by (apply free_desc_spec; [lia|simpl; by rewrite !fset_ne]). erewrite bind_Ret by reflexivity. cbv beta.
  assert (desc (freed_desc k (freed_desc j (freed_desc i v))) k = VDesc Null 1 2 0) as ->.
  { simpl. rewrite fset_eq, !fset_ne, E2 by done. done. }
  done.
Qed.

Hypothesis Hd : i ∉ todo s ++ used s.
Let s' := set_pc t Idle (set_vd (finished i j k (vd s)) s).

Lemma finish_pc t' : pcs s' t' = if t' =? t then Idle else pcs s t'.
Proof. done. Qed.

Lemma finish_owns t' x : x ∈ owns (pcs s' t') ↔ x ∈ owns (pcs s t') ∧ x ∉ [i; j; k].
Proof.
  rewrite finish_pc. destruct (Z.eqb_spec t' t) as [->|Hne].
  - rewrite Ep. simpl. set_solver.
  - split; [|naive_solver]. intros Hx. split; [done|]. intros Hx'. apply Hne, (vi_disjoint s I _ _ x); [done|by rewrite Ep].
Qed.

Lemma finish_waiting t' b' w i0 i1 i2 :
  pcs s' t' = Waiting b' w i0 i1 i2 ↔ t' ≠ t ∧ pcs s t' = Waiting b' w i0 i1 i2.
Proof. rewrite finish_pc. destruct (Z.eqb_spec t' t) as [->|Hne]; naive_solver. Qed.

Lemma finish_vfree x : vfree (vd s') x = false ↔ vfree (vd s) x = false ∧ x ∉ [i; j; k].
Proof.
  simpl. unfold fset. rewrite !not_elem_of_cons. pose proof (not_elem_of_nil x). repeat case_match; naive_solver lia.
Qed.

Lemma vinv_finish : vinv s'.
Proof.
  split.
  - intros t'. rewrite finish_pc. destruct (Z.eqb_spec t' t); [by apply NoDup_nil|apply (vi_nodup s I)].
  - intros t1 t2 x. rewrite !finish_owns. intros [H1 _] [H2 _]. by eapply (vi_disjoint s I).
  - intros x Hx. rewrite finish_vfree, (vi_taken s I x Hx). setoid_rewrite finish_owns. naive_solver.
  - intros t' x [Hx _]%finish_owns. by eapply (vi_range s I).
  - intros t' b' w i0 i1 i2 [Hne E]%finish_waiting.
    assert (∀ x, x ∈ [i0; i1; i2] → x ≠ i ∧ x ≠ j ∧ x ≠ k) as Hx.
    { intros x Hx. assert (x ∈ owns (pcs s' t')) as [_ H]%finish_owns.
      { rewrite finish_pc. destruct (Z.eqb_spec t' t); [done|]. by rewrite E. }
      set_solver. }
    eapply chain_ok_keep; [by apply (vi_chain s I)| |done|done| |by left].
    + intros x Hx1. destruct (Hx x Hx1) as (? & ? & ?). simpl. by rewrite !fset_ne.
    + simpl. apply fset_ne. apply Hx. by left.
  - intros t1 t2 b'. rewrite !finish_pc. destruct (Z.eqb_spec t1 t), (Z.eqb_spec t2 t); try done. apply (vi_buf s I).
  - intros t' b'. rewrite finish_pc. destruct (Z.eqb_spec t' t); [done|]. apply (vi_blockno s I).
  - apply (vi_heads s I).
  - intros h Hh. destruct (vi_head s I h Hh) as (t' & b' & w & i1 & i2 & E). exists t', b', w, i1, i2.
    apply finish_waiting. split; [|done]. intros ->. rewrite Ep in E. injection E as -> -> -> -> ->. done.
  - intros t' b' w i0 i1 i2 [Hne E]%finish_waiting. by apply (vi_disk s I _ _ _ _ _ _ E).
  - intros b' Hno. simpl. destruct (decide (b' = b)) as [->|Hb].
    + rewrite (vi_disk s I _ _ _ _ _ _ Ep). by rewrite bool_decide_false.
    + apply (vi_idle s I). intros t' w i0 i1 i2 E. apply (Hno t' w i0 i1 i2), finish_waiting. split; [|done].
      intros ->. rewrite Ep in E. naive_solver.
  - apply (vi_avail s I).
  - apply (vi_used s I).
Qed.

End finish.
