(* ===== verification/VirtioRefine.v ===== *)
(** * The driver refines the disk of the buffer cache

    The steps of the interrupt handler and of the device, and the simulation of
    the system of VirtioSys.v by its abstract disk. *)

From S2P Require Import Prelude Machine Bio Virtio VirtioSys.
Import Virtio.

(** ** Steps on the rings *)

(** A step that moves requests between the rings. *)
Lemma vinv_move s s' : vinv s → pcs s' = pcs s → todo s' ++ used s' ≡ₚ todo s ++ used s →
  desc (vd s') = desc (vd s) → vfree (vd s') = vfree (vd s) → buf0 (vd s') = buf0 (vd s) →
  b_blockno (vd s') = b_blockno (vd s) → info_b (vd s') = info_b (vd s) → b_disk (vd s') = b_disk (vd s) →
  (∀ i, info_status (vd s') i = info_status (vd s) i ∨ info_status (vd s') i = 0) →
  (0 ≤ avail_idx (vd s') < 2 ^ 16 ∧ 0 ≤ dev_avail s' < 2 ^ 16) →
  (0 ≤ used_id (vd s') < 2 ^ 16 ∧ 0 ≤ used_idx (vd s') < NUM) → vinv s'.
Proof.
  intros [Hnd Hdj Ht Hr Hc Hbuf Hbn Hh Hhd Hd Hi Ha Hu] Ep Hp E1 E2 E3 E4 E5 E6 Es Ha' Hu'.
  split; rewrite ?Ep, ?E2, ?E4, ?E6, ?Hp; try done.
  - intros t b w i0 i1 i2 E. eapply chain_ok_keep; [by apply Hc|by rewrite E1|by rewrite E3|by rewrite E4|by rewrite E5|done].
  - intros h. rewrite Hp. apply Hhd.
  - intros t b w i0 i1 i2 E. rewrite (Hd _ _ _ _ _ _ E). erewrite bool_decide_ext; [done|]. by rewrite Hp.
Qed.

Lemma available_take s : 0 ≤ avail_idx (vd s) < 2 ^ 16 → 0 ≤ dev_avail s < 2 ^ 16 → dev_avail s ≠ avail_idx (vd s) →
  available s = avail_ring (vd s) (dev_avail s `mod` NUM) ::
    window (avail_ring (vd s)) (u16 (dev_avail s + 1)) ((avail_idx (vd s) - u16 (dev_avail s + 1)) `mod` 2 ^ 16).
Proof.
  intros Ha Hd Hne. unfold available.
  assert (0 < (avail_idx (vd s) - dev_avail s) `mod` 2 ^ 16 ∧
    (avail_idx (vd s) - dev_avail s) `mod` 2 ^ 16 - 1 = (avail_idx (vd s) - u16 (dev_avail s + 1)) `mod` 2 ^ 16 ∧
    (dev_avail s + 1) `mod` NUM = u16 (dev_avail s + 1) `mod` NUM) as (Hpos & E1 & E2).
  { unfold u16, NUM. split_and!; dlia. }
  rewrite window_pop by done. f_equal. rewrite E1. by apply window_mod.
Qed.

Definition taken (s : sys) : sys :=
  Sys (vd s) (pcs s) (blocks s) (u16 (dev_avail s + 1))
    (dev_pending s ++ [avail_ring (vd s) (dev_avail s `mod` NUM)]).

Lemma todo_taken s : vinv s → dev_avail s ≠ avail_idx (vd s) → todo (taken s) = todo s.
Proof.
  intros I Hne. unfold todo. destruct (vi_avail s I) as [Ha Hd]. rewrite (available_take s Ha Hd Hne).
  unfold taken, available. simpl. by rewrite <-(assoc_L app).
Qed.

Lemma vinv_taken s : vinv s → dev_avail s ≠ avail_idx (vd s) → vinv (taken s).
Proof.
  intros I Hne. apply (vinv_move s); try done; [by rewrite todo_taken|by left| |apply (vi_used s I)].
  split; [apply (vi_avail s I)|]. simpl. unfold u16. apply Z.mod_pos_bound. lia.
Qed.

Section complete.
Context (s : sys) (l1 l2 : list Z) (h t b : Z) (write : bool) (i1 i2 : Z).
Hypothesis I : vinv s.
Hypothesis Hl : dev_pending s = l1 ++ h :: l2.
Hypothesis Ep : pcs s t = Waiting b write h i1 i2.
Let n := b_blockno (vd s) b.
Let s' := completed s h (l1 ++ l2) write n b h.

Lemma used_completed : used s' = used s ++ [h].
Proof.
  pose proof (vinv_rings s I) as Hr. destruct (vi_used s I) as [Hu Hx].
  assert (0 ≤ (used_id (vd s) - used_idx (vd s)) `mod` NUM) by (apply Z.mod_pos_bound; unfold NUM; lia).
  assert (0 ≤ (avail_idx (vd s) - dev_avail s) `mod` 2 ^ 16) by (apply Z.mod_pos_bound; lia).
  assert ((u16 (used_id (vd s) + 1) - used_idx (vd s)) `mod` NUM = (used_id (vd s) - used_idx (vd s)) `mod` NUM + 1 ∧
    (used_idx (vd s) + (used_id (vd s) - used_idx (vd s)) `mod` NUM) `mod` NUM = used_id (vd s) `mod` NUM) as [E1 E2].
  { assert ((used_id (vd s) - used_idx (vd s)) `mod` NUM ≤ 2) by lia. clear Hr. unfold u16, NUM in *. split; dlia. }
  unfold used, s', completed. destruct write; simpl; rewrite E1, <-E2; apply window_push; unfold NUM in *; lia.
Qed.

Lemma todo_completed : todo s' = l1 ++ l2 ++ available s.
Proof. unfold todo, s', completed, available. destruct write; simpl; by rewrite <-(assoc_L app). Qed.

Lemma heads_completed : todo s' ++ used s' ≡ₚ todo s ++ used s.
Proof.
  rewrite todo_completed, used_completed. unfold todo. rewrite Hl. solve_Permutation.
Qed.

Lemma vinv_completed : vinv s'.
Proof.
  destruct (vi_used s I) as [Hu Hx].
  apply (vinv_move s _ I); [done|apply heads_completed|..]; unfold s', completed; destruct write; simpl; try done;
    try (by apply (vi_avail s I)); try (intros i; unfold fset; destruct (i =? h); by auto);
    (split; [unfold u16; apply Z.mod_pos_bound; lia|done]).
Qed.

(** The requests of the other processes are as they were. *)
Lemma abs_completed t' : t' ≠ t → abs_pc s' (pcs s t') = abs_pc s (pcs s t').
Proof.
  intros Hne. destruct (pcs s t') as [| |b' w' i0 j1 j2] eqn:E'; simpl; try done.
  assert (i0 ≠ h) as Hi.
  { intros ->. apply Hne, (vi_disjoint s I _ _ h); [rewrite E'|rewrite Ep]; by left. }
  erewrite bool_decide_ext; [done|]. rewrite todo_completed. unfold todo. rewrite Hl. set_solver.
Qed.

Lemma abs_requested : abs_pc s (pcs s t) = ARequested b write ∧ abs_pc s' (pcs s t) = AServed b write.
Proof.
  rewrite Ep. simpl. split.
  - rewrite bool_decide_true; [done|]. unfold todo. rewrite Hl. set_solver.
  - rewrite bool_decide_false; [done|]. rewrite todo_completed. pose proof (vi_heads s I) as Hh. unfold todo in Hh.
    rewrite Hl in Hh. rewrite NoDup_app in Hh. destruct Hh as [Hh _].
    assert (h :: l1 ++ l2 ++ available s ≡ₚ (l1 ++ h :: l2) ++ available s) as Hperm by solve_Permutation.
    rewrite <-Hperm in Hh. by apply NoDup_cons in Hh as [? _].
Qed.

End complete.

(** ** The interrupt handler *)

(** The handler has seen one used entry, for the buffer [b]. *)
Definition seen (b : Z) (v : vdisk) : vdisk :=
  set_used_idx ((used_idx v + 1) `mod` NUM) (set_woken (v_woken v ++ [buf_chan b]) (set_b_disk (fset (b_disk v) b 0) v)).

Lemma used_pop s : vinv s → used_idx (vd s) `mod` NUM ≠ used_id (vd s) `mod` NUM →
  used s = used_elems (vd s) (used_idx (vd s)) ::
    window (used_elems (vd s)) ((used_idx (vd s) + 1) `mod` NUM)
      ((used_id (vd s) - (used_idx (vd s) + 1) `mod` NUM) `mod` NUM).
Proof.
  intros I Hne. destruct (vi_used s I) as [Hu Hx]. unfold used.
  assert (0 < (used_id (vd s) - used_idx (vd s)) `mod` NUM ∧
    (used_id (vd s) - used_idx (vd s)) `mod` NUM - 1 = (used_id (vd s) - (used_idx (vd s) + 1) `mod` NUM) `mod` NUM ∧
    (used_idx (vd s) + 1) `mod` NUM = ((used_idx (vd s) + 1) `mod` NUM) `mod` NUM ∧
    used_idx (vd s) `mod` NUM = used_idx (vd s)) as (Hpos & E1 & E2 & E3).
  { unfold NUM in *. split_and!; dlia. }
  rewrite window_pop by done. rewrite E3. f_equal. rewrite E1. by apply window_mod.
Qed.

Section intr.
Context (s : sys) (t b : Z) (write : bool) (h i1 i2 : Z) (l : list Z).
Hypothesis I : vinv s.
Hypothesis Hl : used s = h :: l.
Hypothesis Hl' : used (set_vd (seen b (vd s)) s) = l.
Hypothesis Ep : pcs s t = Waiting b write h i1 i2.

Lemma vinv_seen : vinv (set_vd (seen b (vd s)) s).
Proof.
  destruct I as [Hnd Hdj Ht Hr Hc Hbuf Hbn Hh Hhd Hd Hi Ha Hu]. rewrite Hl in Hh, Hhd.
  assert (h ∉ todo s ++ l) as Hnot.
  { rewrite <-Permutation_middle in Hh. by apply NoDup_cons in Hh as [? _]. }
  split; try done.
  - intros t' b' w i0 j1 j2 E. eapply chain_ok_keep; [by apply Hc|done..|by left].
  - rewrite Hl'. rewrite <-Permutation_middle in Hh. by apply NoDup_cons in Hh as [_ ?].
  - intros x. rewrite Hl'. intros Hx. apply Hhd. change (todo (set_vd _ s)) with (todo s) in Hx.
    rewrite elem_of_app in Hx |- *. rewrite elem_of_cons. naive_solver.
  - intros t' b' w i0 j1 j2 E. rewrite Hl'. change (todo (set_vd _ s)) with (todo s). simpl in E |- *.
    destruct (decide (b' = b)) as [->|Hb].
    + assert (t' = t) as -> by (apply (Hbuf _ _ b); [by rewrite E|by rewrite Ep]). rewrite Ep in E.
      injection E as <- <- <- <-. by rewrite fset_eq, bool_decide_false.
    + rewrite fset_ne by done. rewrite (Hd _ _ _ _ _ _ E), Hl. erewrite bool_decide_ext; [done|].
      assert (i0 ≠ h); [|rewrite !elem_of_app, elem_of_cons; naive_solver]. intros ->. apply Hb.
      assert (t' = t) as -> by (apply (Hdj _ _ h); [rewrite E|rewrite Ep]; by left). rewrite Ep in E. naive_solver.
  - intros b' Hno. simpl. unfold fset. destruct (b' =? b); [done|]. by apply Hi.
  - split; [apply Hu|]. simpl. apply Z.mod_pos_bound. done.
Qed.

End intr.

(** The handler empties the used ring without a panic; what the device has not
    completed stays. *)
Lemma intr_loop_spec fuel s : vinv s → (length (used s) < fuel)%nat →
  ∃ v, intr_loop fuel (vd s) = Ret tt v ∧ vinv (set_vd v s) ∧ todo (set_vd v s) = todo s ∧ used (set_vd v s) = [] ∧
    b_data v = b_data (vd s) ∧ b_blockno v = b_blockno (vd s) ∧
    ∃ l, v_woken v = v_woken (vd s) ++ l ∧
      ∀ t b w h i1 i2, pcs s t = Waiting b w h i1 i2 → h ∈ used s → buf_chan b ∈ l.
Proof.
  revert s. induction fuel as [|fuel IH]; intros s I Hf; [lia|]. cbn [intr_loop].
  erewrite bind_Ret by reflexivity. cbv beta. unfold id.
  destruct (Z.eqb_spec (used_idx (vd s) `mod` NUM) (used_id (vd s) `mod` NUM)) as [E|Hne].
  - exists (vd s). assert (set_vd (vd s) s = s) as -> by by destruct s.
    assert (used s = []) as Eu.
    { unfold used. replace ((used_id (vd s) - used_idx (vd s)) `mod` NUM) with 0; [done|]. unfold NUM in *. dlia. }
    split_and!; try done. exists []. rewrite app_nil_r. split; [done|]. rewrite Eu. by intros ? ? ? ? ? ? _ ?%elem_of_nil.
  - pose proof (used_pop s I Hne) as Hu. set (h := used_elems (vd s) (used_idx (vd s))) in *. set (l := window _ _ _) in *.
    destruct (vi_head s I h) as (t & b & w & i1 & i2 & Ep); [rewrite Hu; set_solver|].
    destruct (vi_chain s I _ _ _ _ _ _ Ep) as [_ _ _ _ Hb Hst]. rewrite Hst, Hb. change (negb (0 =? 0)) with false. cbv iota.
    destruct (IH (set_vd (seen b (vd s)) s)) as (v & Ev & Iv & Htodo & Hused & Hdata & Hbn & lw & Hlw & Hin).
    { eapply (vinv_seen s t b w h i1 i2 l); done. }
    { change (used (set_vd (seen b (vd s)) s)) with l. rewrite Hu in Hf. simpl in Hf. lia. }
    exists v. split_and!; try done. exists (buf_chan b :: lw). split; [rewrite Hlw; simpl; by rewrite <-(assoc_L app)|].
    intros t' b' w' h' j1 j2 Ep'. rewrite Hu, elem_of_cons. intros [->|Hh].
    + assert (t' = t) as -> by (apply (vi_disjoint s I _ _ h); [rewrite Ep'|rewrite Ep]; by left).
      rewrite Ep in Ep'. injection Ep' as <- _ _ _. by left.
    + right. by eapply Hin.
Qed.

Lemma intr_spec s isr : vinv s →
  ∃ v, virtio_disk_intr isr (vd s) = Ret tt v ∧ vinv (set_vd v s) ∧ todo (set_vd v s) = todo s ∧ used (set_vd v s) = [] ∧
    b_data v = b_data (vd s) ∧ b_blockno v = b_blockno (vd s) ∧
    ∃ l, v_woken v = v_woken (vd s) ++ l ∧
      ∀ t b w h i1 i2, pcs s t = Waiting b w h i1 i2 → h ∈ used s → buf_chan b ∈ l.
Proof.
  intros I. destruct (intr_loop_spec (S (Z.to_nat NUM)) s I) as (v & Ev & Iv & Hrest).
  { pose proof (vinv_few s _ I (vi_heads s I) (vi_head s I)) as H. rewrite length_app in H. unfold NUM in *. lia. }
  exists (set_mmio (v_mmio v ++ [(VIRTIO_MMIO_INTERRUPT_ACK, Z.land isr 0x3)]) v). split_and!; try apply Hrest.
  - unfold virtio_disk_intr. by erewrite bind_Ret by exact Ev.
  - destruct Iv as [? ? ? ? Hc ? ? ? ? ? ? ? ?]. split; try done.
    intros t b w i0 i1 i2 E. eapply chain_ok_keep; [by apply Hc|done..|by left].
Qed.

(** ** Boot *)

Lemma for_each_vfree l v :
  for_each l (λ i, modify (λ v, set_vfree (fset (vfree v) i true) v)) v =
  Ret tt (set_vfree (foldl (λ f i, fset f i true) (vfree v) l) v).
Proof. revert v. induction l as [|i l IH]; intros v; simpl; [by destruct v|]. unfold mbind, M_bind. simpl. by rewrite IH. Qed.

Lemma virtio_disk_init_ok r pages v f v' : virtio_disk_init r pages v = Ret f v' →
  v' = VDisk (λ _, VDesc Null 0 0 0) 0 (λ _, 0) 0 (λ _, 0) (vfree v') (used_idx v) (info_b v) (info_status v) (b_disk v)
         (b_blockno v) (b_data v) (buf0 v) (v_woken v) (v_mmio v) ∧ ∀ x, 0 ≤ x < NUM → vfree v' x = true.
Proof.
  unfold virtio_disk_init. do 3 (case_match; [done|]).
  do 3 (erewrite bind_Ret by reflexivity). erewrite bind_Ret by apply for_each_vfree. unfold mret, M_ret. intros E.
  apply (f_equal (λ o, match o with Ret _ x => x | _ => v end)) in E. simpl in E. rewrite <-E. split; [done|].
  intros x Hx. cbn [vfree set_vfree set_used set_avail set_desc]. change (seqZ 0 NUM) with [0; 1; 2; 3; 4; 5; 6; 7].
  cbn [foldl]. unfold fset, NUM in *. repeat case_match; lia.
Qed.

Lemma boot_vinv s : boot s → vinv s ∧ todo s = [].
Proof.
  intros ((r & pages & f & v & Ei & Hu & Hd) & Hp & Ha & Hpend).
  apply virtio_disk_init_ok in Ei as [Ev Hfree].
  assert (available s = []) as Hav.
  { unfold available. by rewrite Ev, Ha. }
  assert (used s = []) as Hus.
  { unfold used. rewrite Ev. simpl. by rewrite Hu. }
  assert (todo s = []) as Ht by (unfold todo; by rewrite Hpend, Hav).
  split; [|done]. split; rewrite ?Ht, ?Hus.
  - intros t. rewrite Hp. by apply NoDup_nil.
  - intros t t' x. rewrite Hp. by intros ?%elem_of_nil.
  - intros x Hx. split; [|intros [t Ho]; rewrite Hp in Ho; by apply elem_of_nil in Ho].
    by rewrite Hfree.
  - intros t x. rewrite Hp. by intros ?%elem_of_nil.
  - intros t b w i0 i1 i2. by rewrite Hp.
  - intros t t' b. by rewrite Hp.
  - intros t b. by rewrite Hp.
  - by apply NoDup_nil.
  - by intros h ?%elem_of_nil.
  - intros t b w i0 i1 i2. by rewrite Hp.
  - intros b _. rewrite Ev. simpl. apply Hd.
  - rewrite Ev, Ha. simpl. lia.
  - rewrite Ev. simpl. rewrite Hu. unfold NUM. lia.
Qed.

(** The abstract state with nothing under way. *)
Definition abs_boot (s : sys) : asys :=
  ASys (λ _, AIdle) (Bio (λ b, Buf false 0 (b_blockno (vd s) b) false 0 0 0 0 (b_data (vd s) b)) (blocks s) [] 0 []).

Lemma boot_implements s : boot s → implements s (abs_boot s).
Proof. intros (_ & Hp & _). split; [|done|done]. intros t. by rewrite Hp. Qed.

(** ** Simulation *)

(** What a step of the system becomes: no abstract step, or one. *)
Definition astep_opt (a a' : asys) : Prop := a' = a ∨ astep a a'.

Definition simulated (s' : sys) (a : asys) : Prop := vinv s' ∧ ∃ a', astep_opt a a' ∧ implements s' a'.

Lemma abs_active s a t b : implements s a → aactive (a_pcs a t) = Some b ↔ active (pcs s t) = Some b.
Proof. intros H. rewrite (im_pcs s a H). destruct (pcs s t); simpl; [done|done|]. by case_bool_decide. Qed.

Lemma sim_call s a t b write : vinv s → implements s a → pcs s t = Idle → (∀ t', active (pcs s t') ≠ Some b) →
  0 ≤ b_blockno (vd s) b < 2 ^ 31 → simulated (set_pc t (Starting b write) s) a.
Proof.
  intros I Ha Ep Hb Hn. split; [by apply vinv_call|]. eexists. split.
  - right. apply (as_call a t b write); [by rewrite (im_pcs s a Ha), Ep|]. intros t'. rewrite abs_active by done. apply Hb.
  - destruct Ha as [Hp Hd Hbuf]. split; [|done|done]. intros t'. simpl. unfold fset. by destruct (t' =? t).
Qed.

Lemma sim_use s a b n d : vinv s → implements s a → (∀ t, active (pcs s t) ≠ Some b) →
  simulated (set_vd (set_b_blockno (fset (b_blockno (vd s)) b n) (set_b_data (fset (b_data (vd s)) b d) (vd s))) s) a.
Proof.
  intros I Ha Hb. split; [by apply vinv_use|]. eexists. split.
  - right. apply (as_use a b (Buf false 0 n false 0 0 0 0 d)). intros t'. rewrite abs_active by done. apply Hb.
  - destruct Ha as [Hp Hd Hbuf]. split; [done|done|]. intros b'. simpl. unfold fset. destruct (b' =? b); [done|apply Hbuf].
Qed.

Lemma sim_start s a t b write i j k v : vinv s → implements s a → pcs s t = Starting b write →
  virtio_disk_rw_start t b write (vd s) = Ret (i, j, k) v →
  simulated (set_pc t (Waiting b write i j k) (set_vd v s)) a.
Proof.
  intros I Ha Ep E. destruct (start_spec t b write (vd s)) as [(i' & j' & k' & Hnd & Hf & E')|(v' & E' & _)].
  2: { by rewrite E in E'. }
  rewrite E in E'. injection E' as <- <- <- ->. split; [by apply vinv_start|]. exists a. split; [by left|].
  destruct Ha as [Hp Hd Hbuf]. split; [|done|done]. intros t'. rewrite Hp.
  rewrite start_pc. destruct (Z.eqb_spec t' t) as [->|Hne].
  - rewrite Ep. simpl. rewrite bool_decide_true; [done|]. rewrite start_todo by done. set_solver.
  - destruct (pcs s t') as [| |b' w i0 i1 i2] eqn:E'; simpl; [done|done|].
    destruct (start_waiting s t b write i j k I Ep Hnd Hf t' b' w i0 i1 i2 Hne E') as (_ & Hi0 & _).
    erewrite bool_decide_ext; [done|]. rewrite start_todo by done. set_solver.
Qed.

Lemma sim_finish s a t b write i j k v : vinv s → implements s a → pcs s t = Waiting b write i j k →
  virtio_disk_rw_finish b i (vd s) = Ret tt v → simulated (set_pc t Idle (set_vd v s)) a.
Proof.
  intros I Ha Ep E. rewrite (finish_spec s t b write i j k I Ep) in E. case_bool_decide as Hi; [done|].
  injection E as <-. split; [by eapply vinv_finish|]. eexists. split.
  - right. apply (as_return a t b write). rewrite (im_pcs s a Ha), Ep. simpl. rewrite bool_decide_false; [done|]. set_solver.
  - destruct Ha as [Hp Hd Hbuf]. split; [|done|done]. intros t'. simpl. unfold fset. destruct (t' =? t); [done|apply Hp].
Qed.

Lemma sim_intr s a isr v : vinv s → implements s a → virtio_disk_intr isr (vd s) = Ret tt v → simulated (set_vd v s) a.
Proof.
  intros I Ha E. destruct (intr_spec s isr I) as (v' & E' & Iv & Htodo & _ & Hdata & Hbn & _). rewrite E in E'. injection E' as <-.
  split; [done|]. exists a. split; [by left|]. destruct Ha as [Hp Hd Hbuf]. split; [|done|].
  - intros t. rewrite Hp. simpl. destruct (pcs s t); simpl; by rewrite ?Htodo.
  - intros b. simpl. rewrite Hdata, Hbn. apply Hbuf.
Qed.

(** The transfer of a block is the one of the buffer cache. *)
Lemma transfer_eq b write m : ∃ m', Bio.virtio_disk_rw b write m = Ret tt m' ∧
  (∀ n, disk m' n = if write then fset (disk m) (blockno (bufs m b)) (data (bufs m b)) n else disk m n) ∧
  (∀ b', blockno (bufs m' b') = blockno (bufs m b')) ∧
  (∀ b', data (bufs m' b') = if write then data (bufs m b') else fset (λ x, data (bufs m x)) b (disk m (blockno (bufs m b))) b').
Proof.
  destruct write; eexists; (split; [reflexivity|]); simpl; (split; [done|]).
  - done.
  - split; intros b'; unfold fset; destruct (Z.eqb_spec b' b) as [->|]; done.
Qed.

Lemma sim_completed s a l1 l2 h write n b i : vinv s → implements s a → dev_pending s = l1 ++ h :: l2 →
  request (vd s) h = Some (write, n, b, i) → simulated (completed s h (l1 ++ l2) write n b i) a.
Proof.
  intros I Ha Hl E. destruct (vi_head s I h) as (t & b' & w & i1 & i2 & Ep).
  { unfold todo. rewrite Hl. set_solver. }
  assert (0 ≤ b_blockno (vd s) b' < 2 ^ 31) as Hn by (apply (vi_blockno s I t); by rewrite Ep).
  rewrite (chain_request _ _ _ _ _ _ _ (vi_chain s I _ _ _ _ _ _ Ep) Hn) in E. injection E as -> <- -> <-.
  split; [by eapply vinv_completed|]. destruct (transfer_eq b write (a_bio a)) as (m & Em & Hd & Hbn & Hda).
  destruct (abs_requested s l1 l2 h t b write i1 i2 I Hl Ep) as [Hreq Hser].
  destruct Ha as [Hp Hdisk Hbuf]. exists (ASys (fset (a_pcs a) t (AServed b write)) m). split.
  - right. apply as_serve; [by rewrite Hp|done].
  - split; simpl.
    + intros t'. unfold fset at 1. destruct (Z.eqb_spec t' t) as [->|Hne].
      * by rewrite <-Hser.
      * rewrite Hp. by rewrite (abs_completed s l1 l2 h t b write i1 i2 I Hl Ep t' Hne).
    + intros x. rewrite Hd. destruct write; [|apply Hdisk]. unfold fset. destruct (Hbuf b) as [-> ->].
      destruct (x =? _); [done|apply Hdisk].
    + intros b'. rewrite Hbn, Hda. destruct (Hbuf b') as [-> Eb]. split; [by destruct write|].
      destruct write; simpl; [done|]. unfold fset. destruct (Hbuf b) as [-> _]. by destruct (b' =? b).
Qed.

Lemma sim_serves s s' a : vinv s → implements s a → serves s s' → simulated s' a.
Proof.
  intros I Ha Hs. destruct Hs as [s Hne|s l1 h l2 write n b i Hl E|s s' h Hh E].
  - split; [by apply vinv_taken|]. exists a. split; [by left|]. destruct Ha as [Hp Hd Hbuf]. split; [|done|done].
    intros t. rewrite Hp. change (pcs (Sys _ _ _ _ _) t) with (pcs s t).
    destruct (pcs s t); simpl; [done|done|]. by rewrite (todo_taken s I Hne : todo (Sys _ _ _ _ _) = _).
  - by apply sim_completed.
  - exfalso. destruct (vi_head s I h) as (t & b & w & i1 & i2 & Ep); [unfold todo; set_solver|].
    rewrite (chain_request _ _ _ _ _ _ _ (vi_chain s I _ _ _ _ _ _ Ep)) in E; [done|].
    apply (vi_blockno s I t). by rewrite Ep.
Qed.

Lemma sim_step (device : sys → sys → Prop) s s' a : (∀ s s', device s s' → serves s s') →
  vinv s → implements s a → step device s s' → simulated s' a.
Proof.
  intros Hdev I Ha Hs. destruct Hs as [s t b w Ep Hb Hn|s t b w i j k v Ep E|s t b w c v Ep E|s t b w i j k v Ep E|
    s t b w i j k c v Ep E|s isr v E|s s' Hd|s b n d Hb].
  - by apply sim_call.
  - by eapply sim_start.
  - destruct (start_spec t b w (vd s)) as [(? & ? & ? & _ & _ & E')|(v' & E' & Hv & _)]; rewrite E in E'; [done|].
    injection E' as _ ->. split; [by apply vinv_vsame|]. exists a. split; [by left|by apply implements_vsame].
  - by eapply sim_finish.
  - rewrite (finish_spec s t b w i j k I Ep) in E. case_bool_decide; [|done]. injection E as _ <-.
    assert (set_vd (vd s) s = s) as -> by by destruct s. split; [done|]. exists a. by split; [left|].
  - by eapply sim_intr.
  - apply (sim_serves s); [done|done|by apply Hdev].
  - by apply sim_use.
Qed.

Lemma reachable_simulated (device : sys → sys → Prop) s : (∀ s s', device s s' → serves s s') →
  reachable device s → vinv s ∧ ∃ a, areachable a ∧ implements s a.
Proof.
  intros Hdev. induction 1 as [s Hb|s s' _ (I & a & Ha & Him) Hs].
  - split; [by apply boot_vinv|]. exists (abs_boot s). split; [by apply ar_boot|by apply boot_implements].
  - destruct (sim_step device s s' a Hdev I Him Hs) as (I' & a' & [->|Hst] & Him'); (split; [done|]).
    + by exists a.
    + exists a'. split; [by eapply ar_step|done].
Qed.

(** Neither a panic nor an undefined step, and enough fuel. *)
Definition safe {S A} (o : outcome S A) : Prop :=
  match o with Ret _ _ | Sleep _ _ => True | _ => False end.

(** C2: with any device that does what its documentation says, and however the
    processes, the interrupts and the device are interleaved, the driver
    implements the disk of the buffer cache: every call transfers its block once,
    after its beginning and before its end, and no call and no interrupt panics. *)
Theorem virtio_refines_disk (device : sys → sys → Prop) s :
  (∀ s s', device s s' → serves s s') → reachable device s →
  (∃ a, areachable a ∧ implements s a) ∧
  (∀ s', step device s s' → ∃ a a', areachable a ∧ implements s a ∧ astep_opt a a' ∧ implements s' a') ∧
  (∀ isr, safe (virtio_disk_intr isr (vd s))) ∧
  (∀ t b write, pcs s t = Starting b write → safe (virtio_disk_rw_start t b write (vd s))) ∧
  (∀ t b write i0 i1 i2, pcs s t = Waiting b write i0 i1 i2 → safe (virtio_disk_rw_finish b i0 (vd s))).
Proof.
  intros Hdev Hr. destruct (reachable_simulated device s Hdev Hr) as (I & a & Ha & Him). split_and!.
  - by exists a.
  - intros s' Hs. destruct (sim_step device s s' a Hdev I Him Hs) as (_ & a' & ? & ?). by exists a, a'.
  - intros isr. destruct (intr_spec s isr I) as (v & -> & _). done.
  - intros t b w Ep. destruct (start_spec t b w (vd s)) as [(? & ? & ? & _ & _ & ->)|(? & -> & _)]; done.
  - intros t b w i0 i1 i2 Ep. rewrite (finish_spec s t b w i0 i1 i2 I Ep). by case_bool_decide.
Qed.

(** ** A device and a request *)

(** A device that completes its requests in order. *)
Definition run_in_order (s : sys) : option sys :=
  match dev_pending s with
  | h :: l =>
      match request (vd s) h with
      | Some (write, n, b, i) => Some (completed s h l write n b i)
      | None => None
      end
  | [] => if dev_avail s =? avail_idx (vd s) then None else Some (taken s)
  end.

Definition in_order (s s' : sys) : Prop := run_in_order s = Some s'.

Lemma in_order_serves s s' : in_order s s' → serves s s'.
Proof.
  unfold in_order, run_in_order. destruct (dev_pending s) as [|h l] eqn:El.
  - destruct (Z.eqb_spec (dev_avail s) (avail_idx (vd s))); [done|]. intros [= <-]. by apply sv_take.
  - destruct (request (vd s) h) as [[[[w n] b] i]|] eqn:E; [|done]. intros [= <-]. by apply (sv_complete s [] h l).
Qed.

Lemma in_order_default s d :
  match run_in_order s with Some _ => true | None => false end = true → in_order s (default d (run_in_order s)).
Proof. unfold in_order. by destruct (run_in_order s). Qed.

Definition ex_vdisk : vdisk :=
  VDisk (λ _, VDesc Null 0 0 0) 0 (λ _, 0) 0 (λ _, 0) (λ _, false) 0 (λ _, None) (λ _, 0) (λ _, 0) (λ _, 5) (λ _ _, 0)
    (λ _, OutHdr 0 0) [] [].
Definition ex_regs : registers := Regs 0x74726976 1 2 0x554d4551 0x30006e54 1024.

(** A process asks for block 5, and the device has served it. *)
Definition ex_boot : sys :=
  Sys (match virtio_disk_init ex_regs 0x80021000 ex_vdisk with Ret _ v => v | _ => ex_vdisk end) (λ _, Idle) (λ n _, n) 0 [].
Definition ex_called : sys := set_pc 1 (Starting 0 false) ex_boot.
Definition ex_started : sys :=
  match virtio_disk_rw_start 1 0 false (vd ex_called) with
  | Ret (i0, i1, i2) v => set_pc 1 (Waiting 0 false i0 i1 i2) (set_vd v ex_called)
  | _ => ex_called
  end.
Definition ex_taken : sys := default ex_started (run_in_order ex_started).
Definition ex_served : sys := default ex_taken (run_in_order ex_taken).

Lemma ex_served_reachable : reachable in_order ex_served.
Proof.
  assert (reachable in_order ex_boot) as Hb.
  { apply re_boot. split_and!; try done. eexists ex_regs, 0x80021000, _, ex_vdisk. split_and!; [vm_compute; reflexivity|done..]. }
  assert (reachable in_order ex_called) as Hc.
  { eapply re_step; [exact Hb|]. apply st_call; [done|done|]. vm_compute. split; [intros [=]|done]. }
  assert (reachable in_order ex_started) as Hs.
  { eapply re_step; [exact Hc|]. unfold ex_started at 1.
    destruct (start_spec 1 0 false (vd ex_called)) as [(i & j & k & _ & _ & E)|(v' & E & _)].
    - rewrite E. by apply (st_start _ _ 1 0 false i j k).
    - vm_compute in E. done. }
  eapply re_step; [|apply st_device, in_order_default; vm_compute; reflexivity].
  eapply re_step; [exact Hs|apply st_device, in_order_default; vm_compute; reflexivity].
Qed.

Lemma virtio_refines_disk_witness :
  (∃ a, areachable a ∧ implements ex_served a) ∧ safe (virtio_disk_intr 1 (vd ex_served)) ∧
  b_data (vd ex_served) 0 0 = 5 ∧ used ex_served = [0].
Proof.
  pose proof (virtio_refines_disk in_order ex_served in_order_serves ex_served_reachable) as (Ha & _ & Hi & _).
  split_and!; [exact Ha|exact (Hi 1)|vm_compute; reflexivity..].
Defined.
