(* ===== verification/VirtioSleep.v ===== *)
(** * Sleeping processes of the disk driver

    The system of VirtioSys.v lets a process that waits in [virtio_disk_rw] repeat
    the test of its loop at any time.  Here a process that has called [sleep] stays
    asleep until [wakeup] is called for its channel (or [kill] wakes it), so that a
    wakeup that is lost would block it for ever.  None is lost: there is always
    somebody who is awake and can go on. *)

From S2P Require Import Prelude Machine Bio Virtio VirtioSys VirtioRefine.
Import Virtio.

(** [asleep t] is the channel on which process [t] sleeps. *)
Record ssys := SSys { sy : sys; asleep : Z → option chan }.

(** The channels that were passed to [wakeup] between two states of the driver. *)
Definition woken_by (v v' : vdisk) : list chan := drop (length (v_woken v)) (v_woken v').

Definition wake_up (v v' : vdisk) (a : Z → option chan) : Z → option chan := λ t,
  match a t with
  | Some c => if bool_decide (c ∈ woken_by v v') then None else Some c
  | None => None
  end.

(** The state [s] after the driver has run to [v]. *)
Definition ran (v : vdisk) (s : sys) (x : ssys) : ssys := SSys s (wake_up (vd (sy x)) v (asleep x)).

Section system.
Context (device : sys → sys → Prop).

Inductive sstep : ssys → ssys → Prop :=
  | ss_call x t b write :
      pcs (sy x) t = Idle → (∀ t', active (pcs (sy x) t') ≠ Some b) → 0 ≤ b_blockno (vd (sy x)) b < 2 ^ 31 →
      sstep x (SSys (set_pc t (Starting b write) (sy x)) (asleep x))
  | ss_start x t b write i0 i1 i2 v :
      asleep x t = None → pcs (sy x) t = Starting b write →
      virtio_disk_rw_start t b write (vd (sy x)) = Ret (i0, i1, i2) v →
      sstep x (ran v (set_pc t (Waiting b write i0 i1 i2) (set_vd v (sy x))) x)
  | ss_start_wait x t b write c v :
      asleep x t = None → pcs (sy x) t = Starting b write →
      virtio_disk_rw_start t b write (vd (sy x)) = Sleep c v →
      sstep x (SSys (set_vd v (sy x)) (fset (wake_up (vd (sy x)) v (asleep x)) t (Some c)))
  | ss_finish x t b write i0 i1 i2 v :
      asleep x t = None → pcs (sy x) t = Waiting b write i0 i1 i2 →
      virtio_disk_rw_finish b i0 (vd (sy x)) = Ret tt v →
      sstep x (ran v (set_pc t Idle (set_vd v (sy x))) x)
  | ss_finish_wait x t b write i0 i1 i2 c v :
      asleep x t = None → pcs (sy x) t = Waiting b write i0 i1 i2 →
      virtio_disk_rw_finish b i0 (vd (sy x)) = Sleep c v →
      sstep x (SSys (set_vd v (sy x)) (fset (wake_up (vd (sy x)) v (asleep x)) t (Some c)))
  | ss_intr x isr v :
      virtio_disk_intr isr (vd (sy x)) = Ret tt v → sstep x (ran v (set_vd v (sy x)) x)
  | ss_device x s' : device (sy x) s' → sstep x (SSys s' (asleep x))
  | ss_use x b n d :
      (∀ t, active (pcs (sy x) t) ≠ Some b) →
      sstep x (SSys (set_vd (set_b_blockno (fset (b_blockno (vd (sy x))) b n)
                               (set_b_data (fset (b_data (vd (sy x))) b d) (vd (sy x)))) (sy x)) (asleep x))
  | ss_kill x t : sstep x (SSys (sy x) (fset (asleep x) t None)).

Inductive sreachable : ssys → Prop :=
  | sr_boot s : boot s → sreachable (SSys s (λ _, None))
  | sr_step x x' : sreachable x → sstep x x' → sreachable x'.

(** A process that can take a step of its own: it is awake, and its call goes on
    instead of going back to sleep. *)
Definition can_go_on (x : ssys) (t : Z) : Prop :=
  asleep x t = None ∧
  ((∃ b write i0 i1 i2 v, pcs (sy x) t = Waiting b write i0 i1 i2 ∧ virtio_disk_rw_finish b i0 (vd (sy x)) = Ret tt v) ∨
   (∃ b write r v, pcs (sy x) t = Starting b write ∧ virtio_disk_rw_start t b write (vd (sy x)) = Ret r v)).

End system.

(** Why a process sleeps: some descriptor is taken, or its request is under way. *)
Definition sleeps_for (s : sys) (t : Z) (c : chan) : Prop :=
  (∃ b write, pcs s t = Starting b write ∧ c = free_chan ∧ ∃ d, 0 ≤ d < NUM ∧ vfree (vd s) d = false) ∨
  (∃ b write i0 i1 i2, pcs s t = Waiting b write i0 i1 i2 ∧ c = buf_chan b ∧ i0 ∈ todo s ++ used s).

Definition sleep_ok (x : ssys) : Prop := ∀ t c, asleep x t = Some c → sleeps_for (sy x) t c.

(** * Lemmas *)

Lemma wake_up_Some v v' a t c : wake_up v v' a t = Some c ↔ a t = Some c ∧ c ∉ woken_by v v'.
Proof. unfold wake_up. destruct (a t) as [c'|]; [|naive_solver]. case_bool_decide; naive_solver. Qed.

Lemma woken_by_app v v' l : v_woken v' = v_woken v ++ l → woken_by v v' = l.
Proof. intros E. unfold woken_by. rewrite E. apply drop_app_length. Qed.

(** Every step is one of VirtioSys.v, or changes only who is asleep. *)
Lemma sstep_step device x x' : sstep device x x' → step device (sy x) (sy x') ∨ sy x' = sy x.
Proof.
  destruct 1; simpl; [left..|by right].
  - by apply st_call.
  - by eapply st_start.
  - by eapply st_start_wait.
  - by eapply st_finish.
  - by eapply st_finish_wait.
  - by eapply st_intr.
  - by apply st_device.
  - by apply st_use.
Qed.

Lemma sreachable_reachable device x : sreachable device x → reachable device (sy x).
Proof.
  induction 1 as [s Hb|x x' _ IH Hs]; [by apply re_boot|].
  destruct (sstep_step device x x' Hs) as [H| ->]; [by eapply re_step|done].
Qed.

(** A sleeper is not affected by a step that leaves its call alone, frees no
    descriptor and keeps the requests under way. *)
Lemma sleeps_for_mono s s' t c :
  sleeps_for s t c → pcs s' t = pcs s t →
  (∀ d, 0 ≤ d < NUM → vfree (vd s) d = false → vfree (vd s') d = false) →
  (∀ h, h ∈ todo s ++ used s → h ∈ todo s' ++ used s') → sleeps_for s' t c.
Proof.
  intros [(b & w & Ep & Ec & d & Hd & Fd)|(b & w & i0 & i1 & i2 & Ep & Ec & Hi)] E Hf Hh; [left|right].
  - exists b, w. rewrite E. split_and!; [done|done|]. exists d. auto.
  - exists b, w, i0, i1, i2. rewrite E. auto.
Qed.

Lemma serves_todo s s' : vinv s → serves s s' →
  pcs s' = pcs s ∧ vfree (vd s') = vfree (vd s) ∧ ∀ h, h ∈ todo s ++ used s → h ∈ todo s' ++ used s'.
Proof.
  intros I Hs. destruct Hs as [s Hne|s l1 h l2 write n b i Hl E|s s' h Hh E].
  - split_and!; [done|done|]. intros h. change (Sys _ _ _ _ _) with (taken s). by rewrite (todo_taken s I Hne).
  - destruct (vi_head s I h) as (t & b' & w & i1 & i2 & Ep); [unfold todo; rewrite Hl; set_solver|].
    pose proof (chain_request _ _ _ _ _ _ _ (vi_chain s I _ _ _ _ _ _ Ep)
      (vi_blockno s I t b' ltac:(by rewrite Ep))) as E'.
    rewrite E in E'. injection E' as -> -> -> ->.
    split_and!; [done|by destruct w|]. intros x Hx. by rewrite (heads_completed s l1 l2 h t b' w i1 i2 I Hl Ep).
  - exfalso. destruct (vi_head s I h) as (t & b & w & i1 & i2 & Ep); [unfold todo; set_solver|].
    rewrite (chain_request _ _ _ _ _ _ _ (vi_chain s I _ _ _ _ _ _ Ep)) in E; [done|].
    apply (vi_blockno s I t). by rewrite Ep.
Qed.

(** ** The steps *)

Section steps.
Context (x : ssys).
Hypothesis I : vinv (sy x).
Hypothesis Hok : sleep_ok x.

Lemma sleep_ok_start t b write i0 i1 i2 v :
  asleep x t = None → pcs (sy x) t = Starting b write →
  virtio_disk_rw_start t b write (vd (sy x)) = Ret (i0, i1, i2) v →
  sleep_ok (ran v (set_pc t (Waiting b write i0 i1 i2) (set_vd v (sy x))) x).
Proof.
  intros Ha Ep E t' c [Hc _]%wake_up_Some. destruct (decide (t' = t)) as [->|Hne]; [congruence|].
  destruct (start_spec t b write (vd (sy x))) as [(i & j & k & Hnd & Hf & E')|(v' & E' & _)]; rewrite E in E'; [|done].
  injection E' as -> -> -> ->. apply (sleeps_for_mono (sy x)); [by apply Hok| |..].
  - simpl. by rewrite fset_ne.
  - intros d Hd Fd. simpl. unfold fset. repeat case_match; done.
  - intros h Hh. simpl. rewrite start_todo by done. set_solver.
Qed.

Lemma sleep_ok_start_wait t b write c v :
  pcs (sy x) t = Starting b write → virtio_disk_rw_start t b write (vd (sy x)) = Sleep c v →
  sleep_ok (SSys (set_vd v (sy x)) (fset (wake_up (vd (sy x)) v (asleep x)) t (Some c))).
Proof.
  intros Ep E t' c'. destruct (start_spec t b write (vd (sy x))) as [(i & j & k & _ & _ & E')|(v' & E' & Hv & d & Hd & Fd)];
    rewrite E in E'; [done|]. injection E' as -> ->. simpl. destruct Hv as [Hfree _ Ev].
  assert (∀ t1 c1, sleeps_for (sy x) t1 c1 → sleeps_for (set_vd v' (sy x)) t1 c1) as Hmono.
  { intros t1 c1 H1. apply (sleeps_for_mono (sy x)); [done|done| |].
    - intros d' _. simpl. by rewrite Hfree.
    - intros h Hh. rewrite Ev. exact Hh. }
  destruct (decide (t' = t)) as [->|Hne].
  - rewrite fset_eq. intros [= <-]. apply Hmono. left. exists b, write. split_and!; [done|done|by exists d].
  - rewrite fset_ne by done. intros [Hc _]%wake_up_Some. apply Hmono. by apply Hok.
Qed.

(** The end of a call frees descriptors, and wakes those who wait for one. *)
Lemma sleep_ok_finish t b write i0 i1 i2 v :
  asleep x t = None → pcs (sy x) t = Waiting b write i0 i1 i2 →
  virtio_disk_rw_finish b i0 (vd (sy x)) = Ret tt v →
  sleep_ok (ran v (set_pc t Idle (set_vd v (sy x))) x).
Proof.
  intros Ha Ep E t' c [Hc Hw]%wake_up_Some. destruct (decide (t' = t)) as [->|Hne]; [congruence|].
  rewrite (finish_spec (sy x) t b write i0 i1 i2 I Ep) in E. case_bool_decide; [done|]. injection E as <-.
  erewrite woken_by_app in Hw by (simpl; by rewrite <-!(assoc_L app)). simpl in Hw.
  destruct (Hok t' c Hc) as [(b' & w & Ep' & -> & _)|(b' & w & j0 & j1 & j2 & Ep' & -> & Hi)]; [set_solver|].
  right. exists b', w, j0, j1, j2. simpl. rewrite fset_ne by done. done.
Qed.

Lemma sleep_ok_finish_wait t b write i0 i1 i2 c v :
  pcs (sy x) t = Waiting b write i0 i1 i2 → virtio_disk_rw_finish b i0 (vd (sy x)) = Sleep c v →
  sleep_ok (SSys (set_vd v (sy x)) (fset (wake_up (vd (sy x)) v (asleep x)) t (Some c))).
Proof.
  intros Ep E t' c'. rewrite (finish_spec (sy x) t b write i0 i1 i2 I Ep) in E. case_bool_decide as Hi; [|done].
  injection E as <- <-. assert (set_vd (vd (sy x)) (sy x) = sy x) as -> by by destruct (sy x). simpl.
  destruct (decide (t' = t)) as [->|Hne].
  - rewrite fset_eq. intros [= <-]. right. by exists b, write, i0, i1, i2.
  - rewrite fset_ne by done. intros [Hc _]%wake_up_Some. by apply Hok.
Qed.

(** The interrupt handler wakes those whose requests it has seen. *)
Lemma sleep_ok_intr isr v : virtio_disk_intr isr (vd (sy x)) = Ret tt v → sleep_ok (ran v (set_vd v (sy x)) x).
Proof.
  intros E t c [Hc Hw]%wake_up_Some.
  destruct (intr_spec (sy x) isr I) as (v' & E' & Iv & Htodo & Hused & _ & _ & l & Hl & Hin). rewrite E in E'. injection E' as <-.
  rewrite (woken_by_app _ _ _ Hl) in Hw.
  destruct (Hok t c Hc) as [(b & w & Ep & -> & d & Hd & Fd)|(b & w & i0 & i1 & i2 & Ep & -> & Hi)].
  - left. exists b, w. split_and!; [done|done|]. exists d. split; [done|]. apply (vi_taken _ Iv d Hd).
    by apply (vi_taken _ I d Hd) in Fd.
  - right. exists b, w, i0, i1, i2. split_and!; [done|done|]. simpl. rewrite Htodo, Hused, app_nil_r.
    apply elem_of_app in Hi as [?|Hi]; [done|]. destruct Hw. by eapply Hin.
Qed.

End steps.

Lemma sleep_ok_step device x x' : (∀ s s', device s s' → serves s s') →
  vinv (sy x) → sleep_ok x → sstep device x x' → sleep_ok x'.
Proof.
  intros Hdev I Hok Hs. destruct Hs as [x t b w Ep Hb Hn|x t b w i0 i1 i2 v Ha Ep E|x t b w c v Ha Ep E|
    x t b w i0 i1 i2 v Ha Ep E|x t b w i0 i1 i2 c v Ha Ep E|x isr v E|x s' Hd|x b n d Hb|x t].
  - intros t' c Hc. simpl in *. pose proof (Hok t' c Hc) as H.
    assert (t' ≠ t) as Hne by (intros ->; unfold sleeps_for in H; naive_solver congruence).
    apply (sleeps_for_mono (sy x)); [done|simpl; by rewrite fset_ne|done|done].
  - by eapply sleep_ok_start.
  - by eapply sleep_ok_start_wait.
  - by eapply sleep_ok_finish.
  - by eapply sleep_ok_finish_wait.
  - by eapply sleep_ok_intr.
  - intros t c Hc. destruct (serves_todo (sy x) s' I (Hdev _ _ Hd)) as (Hp & Hf & Hh).
    apply (sleeps_for_mono (sy x)); [by apply Hok|by simpl; rewrite Hp|by simpl; rewrite Hf|done].
  - intros t c Hc. apply (sleeps_for_mono (sy x)); [by apply Hok|done..].
  - intros t' c. simpl. unfold fset. destruct (t' =? t); [done|]. apply Hok.
Qed.

Lemma sreachable_ok device x : (∀ s s', device s s' → serves s s') → sreachable device x → vinv (sy x) ∧ sleep_ok x.
Proof.
  intros Hdev. induction 1 as [s Hb|x x' Hx [I Hok] Hs].
  - split; [by apply boot_vinv|]. by intros t c ?.
  - split; [|by eapply sleep_ok_step].
    destruct (reachable_simulated device (sy x') Hdev) as [? _]; [|done].
    apply (sreachable_reachable device). by eapply sr_step.
Qed.

(** While a process is in a call and nothing is left to the device and the
    interrupt handler, a process is awake and can go on. *)
Lemma somebody_goes_on x t : vinv (sy x) → sleep_ok x → todo (sy x) = [] → used (sy x) = [] →
  pcs (sy x) t ≠ Idle → ∃ t', can_go_on x t'.
Proof.
  intros I Hok Ht Hu Hp.
  assert (∀ t' b w i0 i1 i2, pcs (sy x) t' = Waiting b w i0 i1 i2 → can_go_on x t') as Hfin.
  { intros t' b w i0 i1 i2 Ep. split.
    - destruct (asleep x t') as [c|] eqn:Ea; [|done]. apply Hok in Ea as [(? & ? & ? & _)|(? & ? & ? & ? & ? & ? & _ & Hi)];
        [congruence|]. rewrite Ht, Hu in Hi. by apply elem_of_nil in Hi.
    - left. exists b, w, i0, i1, i2. rewrite (finish_spec (sy x) t' b w i0 i1 i2 I Ep), Ht, Hu.
      rewrite bool_decide_false by apply not_elem_of_nil. by eexists. }
  assert (∀ d, 0 ≤ d < NUM → vfree (vd (sy x)) d = false → ∃ t', can_go_on x t') as Htaken.
  { intros d Hd Fd. apply (vi_taken _ I d Hd) in Fd as [t' Ho].
    destruct (pcs (sy x) t') as [| |b' w' i0 i1 i2] eqn:Ep'; [by apply elem_of_nil in Ho..|]. exists t'. by eapply Hfin. }
  destruct (pcs (sy x) t) as [|b w|b w i0 i1 i2] eqn:Ep; [done| |exists t; by eapply Hfin].
  destruct (asleep x t) as [c|] eqn:Ea.
  - apply Hok in Ea as [(? & ? & _ & _ & d & Hd & Fd)|(? & ? & ? & ? & ? & ? & _)]; [by eapply Htaken|congruence].
  - destruct (start_spec t b w (vd (sy x))) as [(i & j & k & _ & _ & E)|(v' & _ & _ & d & Hd & Fd)]; [|by eapply Htaken].
    exists t. split; [done|]. right. by eexists b, w, _, _.
Qed.

(** * Claims *)

(** C26: No wakeup is lost and no call waits for nothing.  Processes that have called
    [sleep] do nothing until [wakeup] is called for their channel.  In every state
    that is reached, while some process is in a call, the device has a request to
    complete, or the interrupt handler has an entry to see, or some process is
    awake and can go on.  And nobody oversleeps: a process that is asleep waits for
    a descriptor while one is taken, or for a request that is under way. *)
Theorem virtio_no_deadlock (device : sys → sys → Prop) x t :
  (∀ s s', device s s' → serves s s') → sreachable device x → pcs (sy x) t ≠ Idle →
  (todo (sy x) ≠ [] ∨ used (sy x) ≠ [] ∨ ∃ t', can_go_on x t') ∧
  ∀ t' c, asleep x t' = Some c → sleeps_for (sy x) t' c.
Proof.
  intros Hdev Hr Hp. destruct (sreachable_ok device x Hdev Hr) as [I Hok]. split; [|done].
  destruct (decide (todo (sy x) = [])) as [Ht|]; [|by left]. destruct (decide (used (sy x) = [])) as [Hu|]; [|by right; left].
  right; right. by eapply somebody_goes_on.
Qed.

(** ** A process that sleeps and is woken *)

Definition ex_sleeping : ssys := SSys ex_started (fset (λ _, None) 1 (Some (buf_chan 0))).

Lemma first_sleeper device s t b write i0 i1 i2 c :
  sreachable device (SSys s (λ _, None)) → pcs s t = Waiting b write i0 i1 i2 →
  virtio_disk_rw_finish b i0 (vd s) = Sleep c (vd s) → sreachable device (SSys s (fset (λ _, None) t (Some c))).
Proof.
  intros Hs Ep E. eapply sr_step; [exact Hs|].
  pose proof (ss_finish_wait device (SSys s (λ _, None)) t b write i0 i1 i2 c (vd s) eq_refl Ep E) as H.
  by destruct s.
Qed.

Lemma ex_sleeping_reachable : sreachable in_order ex_sleeping.
Proof.
  assert (sreachable in_order (SSys ex_boot (λ _, None))) as Hb.
  { apply sr_boot. split_and!; try done. eexists ex_regs, 0x80021000, _, ex_vdisk. split_and!; [vm_compute; reflexivity|done..]. }
  assert (sreachable in_order (SSys ex_called (λ _, None))) as Hc.
  { eapply sr_step; [exact Hb|]. apply ss_call; [done|done|]. vm_compute. split; [intros [=]|done]. }
  assert (sreachable in_order (SSys ex_started (λ _, None))) as Hs.
  { eapply sr_step; [exact Hc|]. unfold ex_started at 1.
    destruct (start_spec 1 0 false (vd ex_called)) as [(i & j & k & _ & _ & E)|(v' & E & _)].
    - rewrite E. by apply (ss_start _ (SSys ex_called (λ _, None)) 1 0 false i j k).
    - vm_compute in E. done. }
  assert (∃ i1 i2, pcs ex_started 1 = Waiting 0 false 0 i1 i2) as (i1 & i2 & Ep) by (vm_compute; by eexists _, _).
  eapply first_sleeper; [exact Hs|exact Ep|vm_compute; reflexivity].
Qed.

Lemma virtio_no_deadlock_witness :
  ((todo (sy ex_sleeping) ≠ [] ∨ used (sy ex_sleeping) ≠ [] ∨ ∃ t', can_go_on ex_sleeping t') ∧
   sleeps_for (sy ex_sleeping) 1 (buf_chan 0)) ∧ asleep ex_sleeping 1 = Some (buf_chan 0).
Proof.
  split; [|reflexivity].
  destruct (virtio_no_deadlock in_order ex_sleeping 1 in_order_serves ex_sleeping_reachable) as [H1 H2].
  - vm_compute. intros [=].
  - exact (conj H1 (H2 1 (buf_chan 0) eq_refl)).
Defined.
