(* ===== verification/Mkfs.v ===== *)
(** * The image builder: mkfs/mkfs.c

    The state is the image, block by block, with the two counters.  The image is
    written on a little-endian host, where [xshort] and [xint] are the identity
    on 16 and 32 bits.  The image file ends behind the last sector that was
    written, and a read behind its end fails; the host's reads and writes have no
    other errors.  A file of the command line is its name and its contents, or
    nothing if it cannot be opened; a failed [assert] and the exits are
    [Panic]. *)

From Stdlib Require Import Ascii String.
From S2P Require Import Prelude Machine CString Bio Log Fs Printf.
Local Open Scope Z_scope.
Local Open Scope list_scope.

Module Mkfs.

Definition NINODES : Z := 200.
Definition FSSIZE : Z := 1000.

Definition nbitmap : Z := FSSIZE / (BSIZE * 8) + 1.
Definition ninodeblocks : Z := NINODES / IPB + 1.
Definition nlog : Z := LOGSIZE.
Definition nmeta : Z := 2 + nlog + ninodeblocks + nbitmap.
Definition nblocks : Z := FSSIZE - nmeta.

Definition super : superblock :=
  SuperBlock FSMAGIC FSSIZE nblocks NINODES nlog 2 (2 + nlog) (2 + nlog + ninodeblocks).

Record mkfs := Mk {
  img : Z → block;
  freeinode : Z;
  freeblock : Z;
  nsect : Z
}.

Definition zeroes : block := λ _, 0.

Definition assert (b : bool) : M mkfs unit := if b then mret tt else panic "assert".

Definition wsect (sec : Z) (buf : block) : M mkfs unit :=
  modify (λ s, Mk (fset (img s) sec buf) (freeinode s) (freeblock s) (Z.max (nsect s) (sec + 1))).
Definition rsect (sec : Z) : M mkfs block :=
  n ← gets nsect;
  if sec <? n then gets (λ s, img s sec) else panic "read".

(** [memmove(buf, &sb, sizeof(sb))] *)
Definition encode_sb (d : block) (x : superblock) : block :=
  store32 (store32 (store32 (store32 (store32 (store32 (store32 (store32 d 0 (sb_magic x)) 4 (sb_size x))
    8 (sb_nblocks x)) 12 (sb_ninodes x)) 16 (sb_nlog x)) 20 (sb_logstart x)) 24 (sb_inodestart x)) 28 (sb_bmapstart x).

Definition winode (inum_ : Z) (ip : dinode) : M mkfs unit :=
  let bn := IBLOCK inum_ super in
  buf ← rsect bn;
  wsect bn (encode_dinode buf (dinode_off inum_) ip).

Definition rinode (inum_ : Z) : M mkfs dinode :=
  buf ← rsect (IBLOCK inum_ super);
  mret (decode_dinode buf (dinode_off inum_)).

Definition ialloc (type : Z) : M mkfs Z :=
  i ← gets freeinode;
  modify (λ s, Mk (img s) (freeinode s + 1) (freeblock s) (nsect s)) ;;
  winode i (Dinode type 0 0 1 0 (λ _, 0)) ;;
  mret i.

(** The bitmap with the first [used] blocks allocated. *)
Definition bitmap (used : Z) : block :=
  foldl (λ d i, store8 d (i / 8) (Z.lor (load8 d (i / 8)) (bit_mask i))) zeroes (seqZ 0 used).

Definition balloc (used : Z) : M mkfs unit :=
  assert (used <? BSIZE * 8) ;;
  wsect (sb_bmapstart super) (bitmap used).

(** [freeblock++] *)
Definition next_block : M mkfs Z :=
  b ← gets freeblock;
  modify (λ s, Mk (img s) (freeinode s) (freeblock s + 1) (nsect s)) ;;
  mret b.

(** The block that holds block [fbn] of a file, allocated if it is not there. *)
Definition map_block (din : dinode) (fbn : Z) : M mkfs (Z * dinode) :=
  if fbn <? NDIRECT then
    din ← (if addrs din fbn =? 0 then b ← next_block; mret (set_addr fbn b din) else mret din);
    mret (addrs din fbn, din)
  else
    din ← (if addrs din NDIRECT =? 0 then b ← next_block; mret (set_addr NDIRECT b din) else mret din);
    indirect ← rsect (addrs din NDIRECT);
    if load32 indirect (4 * (fbn - NDIRECT)) =? 0 then
      b ← next_block;
      wsect (addrs din NDIRECT) (store32 indirect (4 * (fbn - NDIRECT)) b) ;;
      mret (u32 b, din)
    else mret (load32 indirect (4 * (fbn - NDIRECT)), din).

(** The loop of [iappend]: [p] is what is left to write at [off]. *)
Fixpoint iappend_loop (fuel : nat) (din : dinode) (off : Z) (p : list Z) : M mkfs (dinode * Z) :=
  match fuel with
  | O => out_of_fuel
  | S fuel' =>
      match p with
      | [] => mret (din, off)
      | _ =>
          let fbn := off / BSIZE in
          assert (fbn <? MAXFILE) ;;
          r ← map_block din fbn;
          let '(x, din) := r in
          let n1 := Z.min (Z.of_nat (length p)) ((fbn + 1) * BSIZE - off) in
          buf ← rsect x;
          wsect x (store_bytes buf (off - fbn * BSIZE) (take (Z.to_nat n1) p)) ;;
          iappend_loop fuel' din (off + n1) (drop (Z.to_nat n1) p)
      end
  end.

(** Every iteration writes a byte. *)
Definition iappend (inum_ : Z) (p : list Z) : M mkfs unit :=
  din ← rinode inum_;
  r ← iappend_loop (S (length p)) din (isize din) p;
  let '(din, off) := r in
  winode inum_ (set_size off din).

(** ** main *)

(** The name in the file system of a file of the command line. *)
Definition strip_user (arg : list Z) : list Z := if bool_decide (str "user/" `prefix_of` arg) then drop 5 arg else arg.
Definition strip_underscore (name : list Z) : list Z := if nth 0 name 0 =? 95 then drop 1 name else name.

(** The pieces that [read] delivers. *)
Fixpoint pieces (fuel : nat) (l : list Z) : list (list Z) :=
  match fuel, l with
  | S fuel', _ :: _ => take (Z.to_nat BSIZE) l :: pieces fuel' (drop (Z.to_nat BSIZE) l)
  | _, _ => []
  end.

(** The body of the loop of [main]. *)
Definition add_file (rootino : Z) (arg : list Z * option (list Z)) : M mkfs unit :=
  let '(name, contents) := arg in
  let shortname := strip_user name in
  assert (negb (existsb (Z.eqb 47) shortname)) ;;
  match contents with
  | None => panic "perror"
  | Some data =>
      let shortname := strip_underscore shortname in
      inum_ ← ialloc T_FILE;
      iappend rootino (encode_dirent inum_ shortname) ;;
      for_each (pieces (length data) data) (iappend inum_)
  end.

(** The last steps: the size of the root directory and the bitmap. *)
Definition finish (rootino : Z) : M mkfs unit :=
  din ← rinode rootino;
  let off := (isize din / BSIZE + 1) * BSIZE in
  winode rootino (set_size off din) ;;
  used ← gets freeblock;
  balloc used.

Definition main (args : list (list Z * option (list Z))) : M mkfs unit :=
  modify (λ s, Mk (img s) (freeinode s) nmeta (nsect s)) ;;
  for_each (seqZ 0 FSSIZE) (λ i, wsect i zeroes) ;;
  wsect 1 (encode_sb zeroes super) ;;
  rootino ← ialloc T_DIR;
  assert (rootino =? ROOTINO) ;;
  iappend rootino (encode_dirent rootino (str ".")) ;;
  iappend rootino (encode_dirent rootino (str "..")) ;;
  for_each args (add_file rootino) ;;
  finish rootino.

(** The program starts with [freeinode = 1] and an empty image. *)
Definition mkfs_start : mkfs := Mk (λ _, zeroes) 1 0 0.

End Mkfs.
