(* ===== verification/MkfsImage.v ===== *)
(** * What mkfs writes

    The image of mkfs against the invariants of the kernel's file system.  The
    bitmap is written last; [closed] is the image as it would be with the bitmap
    of the blocks allocated so far, so that the allocation of a block by mkfs is
    an allocation in the sense of FsBlocks.v and the lemmas on files apply. *)

From Stdlib Require Import Ascii String FunctionalExtensionality.
From S2P Require Import Prelude Machine CString Bio Cache Log Txn Fs FsBlocks FsInode FsFile FsWrite FsDir Printf Mkfs.
Import Mkfs.
Local Open Scope Z_scope.
Local Open Scope list_scope.

Abbreviation x := super.

Lemma super_eq : super = SuperBlock FSMAGIC 1000 954 200 30 2 32 45.
Proof. reflexivity. Qed.

Lemma super_ok : sb_ok super.
Proof. by split; vm_compute. Qed.

Lemma super_data : data_start super = 46.
Proof. reflexivity. Qed.

Lemma fset_comm {A} (f : Z → A) i j a b : i ≠ j → fset (fset f i a) j b = fset (fset f j b) i a.
Proof.
  intros Hne. extensionality n. unfold fset. destruct (Z.eqb_spec n i), (Z.eqb_spec n j); congruence.
Qed.

(** ** The bitmap *)

Lemma bitmap_step u : 0 ≤ u → bitmap (u + 1) = store8 (bitmap u) (u / 8) (Z.lor (load8 (bitmap u) (u / 8)) (bit_mask u)).
Proof. intros Hu. unfold bitmap. rewrite seqZ_app by lia. by rewrite foldl_app. Qed.

Lemma bitmap_free u n : 0 ≤ u → 0 ≤ n → bit_free (bitmap u) n = (u <=? n).
Proof.
  intros Hu Hn. revert u Hu. apply natlike_ind; [|intros u Hu IH].
  - rewrite bit_free_testbit. change (bitmap 0) with zeroes. unfold zeroes, load8. rewrite Z.bits_0. simpl. lia.
  - rewrite <-Z.add_1_r, bitmap_step, bit_free_set, IH by lia. lia.
Qed.

Definition closed (s : mkfs) : Z → block := fset (img s) 45 (bitmap (freeblock s)).

Lemma closed_ne s n : n ≠ 45 → closed s n = img s n.
Proof. apply fset_ne. Qed.

Lemma closed_free s n : 0 ≤ freeblock s → 0 ≤ n < FSSIZE → free x (closed s) n ↔ freeblock s ≤ n.
Proof.
  intros Hf Hn. unfold free, BBLOCK. rewrite super_eq. simpl. unfold BPB, BSIZE, FSSIZE in *.
  rewrite (Z.div_small n) by lia. rewrite (Z.mod_small n) by lia. change (u32 (0 + 45)) with 45.
  unfold closed. rewrite fset_eq, bitmap_free by lia. lia.
Qed.

Lemma closed_in_use s n : 0 ≤ freeblock s → in_use x (closed s) n ↔ 46 ≤ n < FSSIZE ∧ n < freeblock s.
Proof.
  intros Hf. unfold in_use. rewrite super_data. change (sb_size super) with FSSIZE.
  split; intros [Hr Hn]; (split; [done|]); rewrite closed_free in * by (unfold FSSIZE in *; lia); lia.
Qed.

(** ** The state between two steps *)

Record base (s : mkfs) : Prop := {
  ba_block : nmeta ≤ freeblock s;
  ba_inode : 1 ≤ freeinode s;
  ba_zero n i : freeblock s ≤ n < FSSIZE → load8 (img s n) i = 0
}.

Lemma base_pos s : base s → 46 ≤ freeblock s.
Proof. intros H. exact (ba_block s H). Qed.

Lemma base_meta s : base s → freeblock s ≤ FSSIZE → meta_used x (closed s).
Proof.
  intros H Hf n Hn. rewrite super_data in Hn. pose proof (base_pos s H).
  rewrite closed_free by (unfold FSSIZE in *; lia). lia.
Qed.

(** The image has its size, and the blocks allocated so far are in it. *)
Definition whole (s : mkfs) : Prop := nsect s = FSSIZE ∧ 0 ≤ freeblock s ≤ FSSIZE.

(** The state after [next_block]. *)
Definition allocated_block (s : mkfs) : mkfs := Mk (img s) (freeinode s) (freeblock s + 1) (nsect s).

Lemma next_block_base s : base s → base (allocated_block s).
Proof. intros [Hb Hi Hz]. split; simpl; [lia|done|]. intros n i Hn. apply Hz. lia. Qed.

Lemma next_block_alloc s : base s → freeblock s < FSSIZE →
  alloc_post x (closed s) (freeblock s) (closed (allocated_block s)).
Proof.
  intros H Hf. pose proof (base_pos s H) as Hp. destruct H as [_ _ Hz]. split.
  - rewrite super_data. change (sb_size super) with FSSIZE. lia.
  - apply closed_free; lia.
  - intros n Hn. rewrite closed_free by lia. lia.
  - intros n Hn. change (sb_size super) with FSSIZE in Hn. rewrite !closed_free by (simpl; lia). simpl. lia.
  - intros i _. rewrite closed_ne by lia. apply Hz. lia.
  - intros n Hn _. rewrite super_data in Hn. change (sb_bmapstart super) with 45 in Hn. rewrite !closed_ne by lia. done.
Qed.

(** The state after [wsect]. *)
Definition written (s : mkfs) (n : Z) (d : block) : mkfs :=
  Mk (fset (img s) n d) (freeinode s) (freeblock s) (Z.max (nsect s) (n + 1)).

Lemma closed_wsect s n d : n ≠ 45 → closed (written s n d) = fset (closed s) n d.
Proof. intros Hn. unfold closed. simpl. by apply fset_comm. Qed.

Lemma base_wsect s n d : base s → n < freeblock s → base (written s n d).
Proof. intros [Hb Hi Hz] Hn. split; simpl; [done|done|]. intros m i Hm. rewrite fset_ne by lia. by apply Hz. Qed.

(** ** Blocks of a file *)

(** A step that allocates blocks only. *)
Definition extends (s s' : mkfs) : Prop := freeblock s ≤ freeblock s' ∧ freeinode s' = freeinode s.

Lemma extends_refl s : extends s s.
Proof. by split. Qed.

Lemma wpp_next_block s (Q : Z → mkfs → Prop) : Q (freeblock s) (allocated_block s) → wpp next_block Q s.
Proof. intros HQ. unfold next_block. by wpp_run. Qed.

Lemma wpp_rsect s n (Q : block → mkfs → Prop) : (n < nsect s → Q (img s n) s) → wpp (rsect n) Q s.
Proof. intros HQ. unfold rsect. wpp_step. wpp_step. destruct (Z.ltb_spec n (nsect s)); wpp_step. auto. Qed.

Lemma wpp_wsect s n d (Q : unit → mkfs → Prop) : Q tt (written s n d) → wpp (wsect n d) Q s.
Proof. intros HQ. unfold wsect. by wpp_step. Qed.

Lemma indirect_in_use s din : base s → file_ok x (closed s) din → addrs din NDIRECT ≠ 0 →
  46 ≤ addrs din NDIRECT < freeblock s.
Proof.
  intros Hb Hok Hi. pose proof (base_pos s Hb). pose proof (fo_ind _ _ _ Hok Hi) as Hu.
  apply closed_in_use in Hu; lia.
Qed.

(** The entry in the indirect block. *)
Lemma wpp_map_ind s din fbn : NDIRECT ≤ fbn < MAXFILE →
  wpp (indirect ← rsect (addrs din NDIRECT);
       if load32 indirect (4 * (fbn - NDIRECT)) =? 0 then
         b ← next_block;
         wsect (addrs din NDIRECT) (store32 indirect (4 * (fbn - NDIRECT)) b) ;;
         mret (u32 b, din)
       else mret (load32 indirect (4 * (fbn - NDIRECT)), din))
    (λ r s', extends s s' ∧ r.2 = din ∧
      (base s → freeblock s' ≤ FSSIZE → file_ok x (closed s) din → addrs din NDIRECT ≠ 0 →
       base s' ∧ ind_post x (closed s) din fbn r.1 (closed s')) ∧
      nsect s' = nsect s ∧ addrs din NDIRECT < nsect s ∧
      (freeblock s' = freeblock s ∨ freeblock s' = freeblock s + 1 ∧ r.1 = u32 (freeblock s))) s.
Proof.
  intros Hf. set (ind := addrs din NDIRECT). wpp_step. apply wpp_rsect. intros Hsect.
  assert (base s → file_ok x (closed s) din → ind ≠ 0 →
    blockmap (closed s) din fbn = load32 (img s ind) (4 * (fbn - NDIRECT)) ∧ ind < freeblock s ∧ ind ≠ 45) as Hbm.
  { intros Hb Hok Hi. pose proof (indirect_in_use s din Hb Hok Hi) as Hr. fold ind in Hr. unfold blockmap. fold ind.
    destruct (Z.ltb_spec fbn NDIRECT); [lia|]. destruct (Z.eqb_spec ind 0); [done|].
    rewrite closed_ne by lia. split_and!; [done|lia|lia]. }
  destruct (Z.eqb_spec (load32 (img s ind) (4 * (fbn - NDIRECT))) 0) as [E|E].
  - wpp_step. apply wpp_next_block. wpp_step. apply wpp_wsect. wpp_step.
    split_and!; [split; simpl; lia|done| |simpl; lia|done|by right]. intros Hb Hfit Hok Hi. simpl in Hfit |- *.
    destruct (Hbm Hb Hok Hi) as (Ebm & Hlt & H45). pose proof (base_pos s Hb).
    split; [apply (base_wsect (allocated_block s)); [by apply next_block_base|simpl; lia]|].
    rewrite u32_small by (unfold FSSIZE in *; lia).
    rewrite (closed_wsect (allocated_block s) ind _ H45).
    replace (img s ind) with (closed (allocated_block s) ind) by exact (closed_ne (allocated_block s) ind H45).
    apply ind_post_new; [apply super_ok|done|apply base_meta; [done|lia]|done|done|congruence|].
    apply next_block_alloc; [done|lia].
  - wpp_run. split_and!; [apply extends_refl|done| |done|done|by left]. simpl. intros Hb Hfit Hok Hi. split; [done|].
    destruct (Hbm Hb Hok Hi) as (Ebm & _). rewrite <-Ebm in E |- *. apply ind_post_old; [|done]. apply base_meta; [done|lia].
Qed.

(** The blocks allocated between two states are the block [addr] and the indirect
    block, and an indirect block is kept. *)
Definition grown (s s' : mkfs) (addr : Z) (din din' : dinode) : Prop :=
  (addrs din NDIRECT ≠ 0 → addrs din' NDIRECT = addrs din NDIRECT) ∧
  ∀ n, freeblock s ≤ n < freeblock s' → n = addr ∨ n = addrs din' NDIRECT.

Lemma wpp_map_block s din fbn : 0 ≤ fbn < MAXFILE →
  wpp (map_block din fbn) (λ r s', extends s s' ∧
    (base s → freeblock s' ≤ FSSIZE → file_ok x (closed s) din →
     base s' ∧ bmap_post x (closed s) din fbn r.1 (closed s') r.2 ∧ grown s s' r.1 din r.2) ∧
    (whole s → nsect s' = FSSIZE ∧ (freeblock s' ≤ FSSIZE ∨ r.1 = freeblock s' - 1))) s.
Proof.
  intros Hf. unfold map_block. destruct (Z.ltb_spec fbn NDIRECT) as [Hd|Hd].
  - assert (∀ V, blockmap V din fbn = addrs din fbn) as Ebm.
    { intros V. unfold blockmap. by destruct (Z.ltb_spec fbn NDIRECT); [|lia]. }
    destruct (Z.eqb_spec (addrs din fbn) 0) as [E|E].
    + wpp_step. wpp_step. apply wpp_next_block. wpp_run. simpl. rewrite fset_eq.
      split_and!; [split; simpl; lia| |intros [Hn _]; split; [done|right; lia]]. intros Hb Hfit Hok.
      split; [by apply next_block_base|]. split.
      2:{ split; simpl; [intros _; unfold fset; by destruct (Z.eqb_spec NDIRECT fbn); [lia|]|]. intros n Hn. left. lia. }
      apply bmap_post_direct; [apply super_ok|done|apply base_meta; [done|lia]|lia|done|].
      apply next_block_alloc; [done|lia].
    + wpp_run. split_and!; [apply extends_refl| |intros [? ?]; split; [done|left; lia]]. intros Hb Hfit Hok. simpl. split; [done|].
      split; [|split; [done|lia]]. rewrite <-(Ebm (closed s)) in E |- *. apply bmap_post_old; [done|by apply base_meta|done].
  - destruct (Z.eqb_spec (addrs din NDIRECT) 0) as [E|E].
    + wpp_step. wpp_step. apply wpp_next_block. wpp_step.
      set (din1 := set_addr NDIRECT (freeblock s) din).
      eapply wpp_mono; [apply (wpp_map_ind (allocated_block s) din1 fbn); lia|].
      intros [addr din'] s' ([Hg1 Hg2] & Er & Hi & Hn & Hlt & Hfb). unfold din1 in Hlt. simpl in *. rewrite fset_eq in Hlt. subst din'.
      split_and!; [split; simpl in *; lia| |]; cycle 1.
      { intros [Hw Hw']. split; [lia|]. destruct Hfb as [->|[-> ->]]; [left; lia|]. right. rewrite u32_small; unfold FSSIZE in *; lia. }
      intros Hb Hfit Hok.
      assert (alloc_post x (closed s) (freeblock s) (closed (allocated_block s))) as Ha.
      { apply next_block_alloc; [done|]. lia. }
      destruct (alloc_new x super_ok _ _ _ Ha) as (Hu & Hnu & Huse).
      destruct (file_ok_ind x super_ok (closed s) din _ _ Hok E Huse Hu Hnu (al_zero _ _ _ _ Ha)) as [Hok1 _].
      destruct Hi as [Hb' Hind]; [by apply next_block_base|done|done| |].
      { unfold din1, set_addr. simpl. rewrite fset_eq. pose proof (base_pos s Hb). lia. }
      split; [done|]. split.
      2:{ split; simpl; [done|]. rewrite fset_eq. intros n Hnn.
          destruct Hfb as [Ef|[Ef ->]]; [right; lia|]. destruct (decide (n = freeblock s)); [by right|left].
          rewrite u32_small; unfold FSSIZE in *; pose proof (base_pos s Hb); lia. }
      apply (bmap_post_fresh x super_ok (closed s) din fbn (freeblock s) (closed (allocated_block s))); [done|lia|done|done|done].
    + wpp_step. wpp_step. eapply wpp_mono; [apply (wpp_map_ind s din fbn); lia|].
      intros [addr din'] s' (Hg & Er & Hi & Hn & Hlt & Hfb). simpl in *. subst din'. split_and!; [done| |]; cycle 1.
      { intros [Hw Hw']. split; [lia|]. destruct Hfb as [->|[-> ->]]; [left; lia|]. right. rewrite u32_small; unfold FSSIZE in *; lia. }
      intros Hb Hfit Hok.
      destruct (Hi Hb Hfit Hok E) as [Hb' Hind]. split; [done|]. split.
      2:{ split; simpl; [done|]. intros n Hnn. left. destruct Hfb as [Ef|[Ef ->]]; [lia|].
          rewrite u32_small; unfold FSSIZE in *; pose proof (base_pos s Hb); lia. }
      apply bmap_post_has; [apply super_ok|done|lia|done].
Qed.

(** ** Appending to a file *)

(** The part [l] of a file that starts at [off] has been written: its blocks are
    the only new ones. *)
Record appended (s : mkfs) (di : dinode) (off : Z) (l : list Z) (s' : mkfs) (di' : dinode) : Prop := {
  ap_base : base s';
  ap_write : ∃ k, write_post x (closed s) di off l k (closed s') di';
  ap_max : l ≠ [] → off + Z.of_nat (length l) ≤ MAXFILE * BSIZE;
  ap_tight bn : 0 ≤ bn < MAXFILE → blockmap (closed s') di' bn ≠ 0 →
    blockmap (closed s) di bn ≠ 0 ∨ bn * BSIZE < off + Z.of_nat (length l);
  ap_zero a : off + Z.of_nat (length l) ≤ a < MAXFILE * BSIZE → blockmap (closed s') di' (a / BSIZE) ≠ 0 →
    blockmap (closed s) di (a / BSIZE) = 0 → file_byte (closed s') di' a = 0;
  ap_keep n : n ≠ 0 → owned (closed s) di n → owned (closed s') di' n;
  ap_grow n : 0 < n → freeblock s ≤ n < freeblock s' → owned (closed s') di' n
}.

Lemma append_chunk s s1 di di1 addr off l :
  base s1 → freeblock s1 ≤ FSSIZE → file_ok x (closed s) di → 0 ≤ off → (0 < length l)%nat →
  Z.of_nat (length l) ≤ BSIZE - off `mod` BSIZE → off / BSIZE < MAXFILE →
  bmap_post x (closed s) di (off / BSIZE) addr (closed s1) di1 → grown s s1 addr di di1 →
  appended s di off l (written s1 addr (store_bytes (img s1 addr) (off `mod` BSIZE) l)) di1.
Proof.
  intros Hb Hfit Hok Ho Hl Hlen Hbn Hbm [Hind Hnew]. pose proof (base_pos s1 Hb).
  assert (0 ≤ off / BSIZE) by (apply Z.div_pos; [lia|done]).
  assert (off + Z.of_nat (length l) ≤ MAXFILE * BSIZE) as Hmax by (unfold BSIZE in *; dlia).
  pose proof (bm_ok _ _ _ _ _ _ _ Hbm) as Hok1. destruct (bm_addr _ _ _ _ _ _ _ Hbm) as [Ha0 Ea].
  assert (46 ≤ addr < freeblock s1) as Hr.
  { assert (in_use x (closed s1) addr) as Hu by (rewrite <-Ea; apply (fo_used _ _ _ Hok1); [lia|by rewrite Ea]).
    apply closed_in_use in Hu; lia. }
  assert (addr ≠ addrs di1 NDIRECT) as Hai.
  { rewrite <-Ea. apply (fo_ind_ne _ _ _ Hok1); [lia|by rewrite Ea]. }
  assert (∀ d n, owned (closed s1) di1 n → owned (closed (written s1 addr d)) di1 n) as Hmap.
  { intros d n [->|(bn & Hbn0 & <-)]; [by left|right]. exists bn. split; [done|].
    rewrite closed_wsect by lia. apply blockmap_ext. intros _. by rewrite fset_ne. }
  split.
  - apply base_wsect; [done|lia].
  - exists 2%nat. rewrite closed_wsect by lia. rewrite <-(closed_ne s1 addr) by lia.
    apply write_chunk; [apply super_ok|done|unfold BSIZE in *; lia|done..].
  - done.
  - intros bn Hbn0. rewrite closed_wsect by lia. rewrite (blockmap_ext (closed s1)) by (intros _; by rewrite fset_ne).
    destruct (decide (bn = off / BSIZE)) as [->|Hne].
    + intros _. right. unfold BSIZE in *. dlia.
    + rewrite (bm_other _ _ _ _ _ _ _ Hbm) by done. by left.
  - intros a Ha. unfold file_byte. rewrite closed_wsect by lia. rewrite (blockmap_ext (closed s1)) by (intros _; by rewrite fset_ne).
    intros Hz Hz0. destruct (decide (a / BSIZE = off / BSIZE)) as [E|Hne].
    + rewrite E in *. rewrite Ea, fset_eq. rewrite <-(closed_ne s1 addr) by lia. rewrite load8_store_bytes_out by (unfold BSIZE in *; dlia).
      apply (bm_new _ _ _ _ _ _ _ Hbm Hz0). apply Z.mod_pos_bound. done.
    + rewrite (bm_other _ _ _ _ _ _ _ Hbm) in Hz; [done|done|]. unfold BSIZE in *. dlia.
  - intros n Hn0 Ho'. assert (owned (closed s1) di1 n) as Ho1.
    { destruct Ho' as [->|(bn & Hbn0 & E)]; [left; by rewrite Hind|right]. exists bn. split; [done|].
      destruct (decide (bn = off / BSIZE)) as [->|Hne]; [|by rewrite (bm_other _ _ _ _ _ _ _ Hbm)].
      destruct (bm_old _ _ _ _ _ _ _ Hbm) as [-> ->]; congruence. }
    by apply Hmap.
  - intros n _ Hn. apply Hmap. destruct (Hnew n Hn) as [->| ->]; [right|by left]. exists (off / BSIZE). split; [lia|done].
Qed.

Lemma appended_app s s1 s2 di di1 di2 off l1 l2 : 0 ≤ off → l1 ≠ [] →
  appended s di off l1 s1 di1 → appended s1 di1 (off + Z.of_nat (length l1)) l2 s2 di2 →
  appended s di off (l1 ++ l2) s2 di2.
Proof.
  intros Ho Hl1 [Hb1 [k1 Hw1] Hm1 Ht1 Hz1 Hk1 Hg1] [Hb2 [k2 Hw2] Hm2 Ht2 Hz2 Hk2 Hg2].
  assert (off + Z.of_nat (length (l1 ++ l2)) ≤ MAXFILE * BSIZE) as Hmax.
  { rewrite length_app. destruct (decide (l2 = [])) as [->|Hne]; [simpl; specialize (Hm1 Hl1); lia|specialize (Hm2 Hne); lia]. }
  split; [done| |done| | |by auto|].
  - exists (k2 + k1)%nat. by apply (write_app x _ _ off l1 k1 (closed s1) di1 l2 k2).
  - intros bn Hbn Hz. rewrite length_app. destruct (Ht2 bn Hbn Hz) as [Hbz|]; [|right; lia].
    destruct (Ht1 bn Hbn Hbz); [by left|right; lia].
  - intros a Ha Hz Hz0. rewrite length_app in Ha. destruct (decide (blockmap (closed s1) di1 (a / BSIZE) = 0)).
    + apply Hz2; [lia|done|done].
    + rewrite (wr_old _ _ _ _ _ _ _ _ Hw2); [apply Hz1; [lia|done|done]|lia|lia|done].
  - intros n Hn0 Hn. destruct (decide (n < freeblock s1)); [|apply Hg2; lia]. apply Hk2; [|apply Hg1; lia]. lia.
Qed.

Lemma wpp_iappend_loop fuel s din off p : 0 ≤ off → (length p < fuel)%nat →
  wpp (iappend_loop fuel din off p) (λ r s', extends s s' ∧ r.2 = off + Z.of_nat (length p) ∧
    (base s → freeblock s' ≤ FSSIZE → file_ok x (closed s) din → appended s din off p s' r.1) ∧ (whole s → whole s')) s.
Proof.
  revert s din off p. induction fuel as [|fuel IH]; intros s din off p Ho Hf; [lia|]. cbn [iappend_loop].
  destruct p as [|c p'].
  { wpp_run. simpl. split_and!; [apply extends_refl|lia| |done]. intros Hb Hfit Hok. split; [done| |done|by left|done|done|lia].
    exists 0%nat. apply write_nil; [done|by apply base_meta]. }
  set (p := c :: p') in *. unfold assert. wpp_step. destruct (Z.ltb_spec (off / BSIZE) MAXFILE) as [Hbn|_]; [wpp_step|apply wpp_panic].
  assert (0 ≤ off / BSIZE) by (apply Z.div_pos; [lia|done]).
  wpp_step. eapply wpp_mono; [apply (wpp_map_block s din (off / BSIZE)); lia|].
  intros [addr din1] s1 (Hg1 & Hbm & Hwh). simpl in Hbm, Hwh. wpp_step. apply wpp_rsect. intros Hsect. wpp_step. apply wpp_wsect.
  replace (off - off / BSIZE * BSIZE) with (off `mod` BSIZE) by (unfold BSIZE; dlia).
  set (n1 := Z.min _ _). set (l1 := take (Z.to_nat n1) p). set (l2 := drop (Z.to_nat n1) p). set (s2 := written _ _ _).
  assert (Z.of_nat (length p) = Z.of_nat (length p') + 1) as Hp by (simpl; lia).
  assert (1 ≤ n1 ≤ Z.of_nat (length p) ∧ n1 ≤ BSIZE - off `mod` BSIZE) as [Hn1 Hn1'].
  { unfold n1. unfold BSIZE in *. clear -Hp Ho. dlia. }
  assert (Z.of_nat (length l1) = n1) as Hl1 by (unfold l1; rewrite length_take; lia).
  assert (Z.of_nat (length l2) = Z.of_nat (length p) - n1) as Hl2 by (unfold l2; rewrite length_drop; lia).
  eapply wpp_mono; [apply (IH s2 din1 (off + n1) l2); lia|].
  intros [din2 off2] s3 ([Hg3 Hi3] & Eo & Hap & Hwh3). destruct Hg1 as [Hg1 Hi1]. simpl in Hg3, Hi3, Eo, Hap |- *.
  split_and!; [split; simpl in *; lia|lia| |]; cycle 1.
  { intros Hw. apply Hwh3. destruct (Hwh Hw) as [Hns Hfb]. destruct Hw as [_ Hw]. split; simpl; lia. }
  intros Hb Hfit Hok.
  destruct (Hbm Hb ltac:(lia) Hok) as (Hb1 & Hbmp & Hgr).
  assert (appended s din off l1 s2 din1) as Hch.
  { apply append_chunk; [done|lia|done|lia|lia|lia|lia|done|done]. }
  assert (p = l1 ++ l2) as Epp by (symmetry; apply take_drop). rewrite Epp.
  eapply (appended_app s s2 s3); [lia| |done|].
  - intros E. rewrite E in Hl1. simpl in Hl1. lia.
  - rewrite Hl1. apply Hap; [apply (ap_base _ _ _ _ _ _ Hch)|done|].
    destruct (ap_write _ _ _ _ _ _ Hch) as [k Hw]. apply (wr_ok _ _ _ _ _ _ _ _ Hw).
Qed.

(** ** Files on the image *)

(** The file of inode [i] has the type [t] and the contents [l], no block behind
    its end, and zeroes behind the end in its last block. *)
Record holds (V : Z → block) (i t : Z) (l : list Z) : Prop := {
  ho_type : itype (inode_at x V i) = t;
  ho_fields : major (inode_at x V i) = 0 ∧ minor (inode_at x V i) = 0 ∧ nlink (inode_at x V i) = 1;
  ho_size : isize (inode_at x V i) = Z.of_nat (length l);
  ho_ok : file_ok x V (inode_at x V i);
  ho_bytes (k : nat) b : l !! k = Some b → file_byte V (inode_at x V i) (Z.of_nat k) = b;
  ho_tight bn : 0 ≤ bn < MAXFILE → blockmap V (inode_at x V i) bn ≠ 0 → bn * BSIZE < Z.of_nat (length l);
  ho_zero a : Z.of_nat (length l) ≤ a < MAXFILE * BSIZE → blockmap V (inode_at x V i) (a / BSIZE) ≠ 0 →
    file_byte V (inode_at x V i) a = 0
}.

Lemma blockmap_din_eq V di di' bn : din_eq di di' → 0 ≤ bn → blockmap V di bn = blockmap V di' bn.
Proof.
  intros (_ & _ & _ & _ & _ & Ha) Hbn. unfold blockmap. rewrite (Ha NDIRECT) by done.
  destruct (Z.ltb_spec bn NDIRECT); [|done]. apply Ha. lia.
Qed.

Lemma file_ok_din_eq V di di' : din_eq di di' → file_ok x V di → file_ok x V di'.
Proof.
  intros He [Hu Hi Hinj Hne Hs Hc]. pose proof (λ bn, blockmap_din_eq V di di' bn He) as Hbm.
  destruct He as (_ & _ & _ & _ & Es & Ha).
  split; [intros bn Hbn; rewrite <-Hbm by lia; auto|by rewrite <-Ha| | |by rewrite <-Es|].
  - intros b1 b2 H1 H2. rewrite <-!Hbm by lia. auto.
  - intros bn Hbn. rewrite <-Hbm, <-Ha by lia || done. auto.
  - intros bn Hbn. rewrite <-Hbm, <-Es by lia. auto.
Qed.

Lemma owned_din_eq V di di' n : din_eq di di' → owned V di n → owned V di' n.
Proof.
  intros He [->|(bn & Hbn & <-)]; [left|right].
  - destruct He as (_ & _ & _ & _ & _ & Ha). by apply Ha.
  - exists bn. split; [done|]. symmetry. apply blockmap_din_eq; [done|lia].
Qed.

Lemma din_eq_sym di di' : din_eq di di' → din_eq di' di.
Proof. unfold din_eq. intros (-> & -> & -> & -> & -> & H). split_and!; try done. intros i Hi. by rewrite H. Qed.

(** A file stays when its blocks and its inode do. *)
Lemma holds_keep V V' i t l : holds V i t l → din_eq (inode_at x V' i) (inode_at x V i) →
  (∀ n, in_use x V n → in_use x V' n) → (∀ n, in_use x V n → owned V (inode_at x V i) n → V' n = V n) →
  holds V' i t l ∧ ∀ n, in_use x V' n → owned V' (inode_at x V' i) n → in_use x V n ∧ owned V (inode_at x V i) n.
Proof.
  intros [Ht Hf Hs Hok Hb Hti Hze] He Huse Hkeep. set (di := inode_at x V i) in *. set (di' := inode_at x V' i) in *.
  assert (∀ bn, 0 ≤ bn → blockmap V' di' bn = blockmap V di bn) as Hbm.
  { intros bn Hbn. rewrite (blockmap_din_eq V' di' di) by done. apply blockmap_ext. intros Hi. apply Hkeep; [|by left].
    by apply (fo_ind _ _ _ Hok). }
  assert (file_ok x V' di) as Hok'.
  { apply (file_ok_keep x V); [done|done|]. intros bn. apply blockmap_ext. intros Hi. apply Hkeep; [|by left].
    by apply (fo_ind _ _ _ Hok). }
  assert (∀ bn, 0 ≤ bn < MAXFILE → blockmap V di bn ≠ 0 → V' (blockmap V di bn) = V (blockmap V di bn)) as HV.
  { intros bn Hbn Hz. apply Hkeep; [by apply (fo_used _ _ _ Hok)|]. right. by exists bn. }
  pose proof (fo_size _ _ _ Hok) as Hsz. split; [split; fold di'|].
  - by destruct He as (-> & _).
  - by destruct He as (_ & -> & -> & -> & _).
  - by destruct He as (_ & _ & _ & _ & -> & _).
  - apply (file_ok_din_eq V' di); [by apply din_eq_sym|done].
  - intros k b Hk. rewrite <-(Hb k b Hk). pose proof (lookup_lt_Some _ _ _ Hk).
    assert (0 ≤ Z.of_nat k / BSIZE < MAXFILE) as Hbn by (unfold BSIZE in *; dlia).
    unfold file_byte. rewrite Hbm by lia. rewrite HV; [done|done|]. apply (fo_cover _ _ _ Hok); [lia|]. unfold BSIZE in *. dlia.
  - intros bn Hbn. rewrite Hbm by lia. by apply Hti.
  - intros a Ha. assert (0 ≤ a / BSIZE < MAXFILE) as Hbn by (unfold BSIZE in *; dlia). rewrite Hbm by lia. intros Hz.
    rewrite <-(Hze a Ha Hz). unfold file_byte. rewrite Hbm by lia. by rewrite HV.
  - intros n Hn Ho. assert (owned V di n) as Hod.
    { destruct Ho as [->|(bn & Hbn & <-)].
      - left. destruct He as (_ & _ & _ & _ & _ & Ha). by apply Ha.
      - right. exists bn. split; [done|]. symmetry. apply Hbm. lia. }
    split; [|done]. pose proof (in_use_pos x super_ok _ _ Hn). destruct Hod as [->|(bn & Hbn & E)].
    + apply (fo_ind _ _ _ Hok). lia.
    + rewrite <-E. apply (fo_used _ _ _ Hok); [done|]. lia.
Qed.

Lemma owned_keep V V' i t l n : holds V i t l → din_eq (inode_at x V' i) (inode_at x V i) →
  (∀ n, in_use x V n → owned V (inode_at x V i) n → V' n = V n) →
  owned V (inode_at x V i) n → owned V' (inode_at x V' i) n.
Proof.
  intros Hh He Hkeep Ho. apply (owned_din_eq V' (inode_at x V i)); [by apply din_eq_sym|].
  destruct Ho as [->|(bn & Hbn & <-)]; [by left|right]. exists bn. split; [done|]. apply blockmap_ext. intros Hi.
  apply Hkeep; [|by left]. by apply (fo_ind _ _ _ (ho_ok _ _ _ _ Hh)).
Qed.

(** The image holds the files [fs], file [k] as inode [k + 1], and the blocks that
    are allocated are those of the files. *)
Record good (s : mkfs) (fs : list (Z * list Z)) : Prop := {
  gd_base : base s;
  gd_whole : whole s;
  gd_count : freeinode s = Z.of_nat (length fs) + 1;
  gd_file k t l : fs !! k = Some (t, l) → holds (closed s) (Z.of_nat k + 1) t l;
  gd_apart j k n : (j < length fs)%nat → (k < length fs)%nat → j ≠ k → in_use x (closed s) n →
    owned (closed s) (inode_at x (closed s) (Z.of_nat j + 1)) n →
    ¬ owned (closed s) (inode_at x (closed s) (Z.of_nat k + 1)) n;
  gd_owned n : in_use x (closed s) n →
    ∃ k, (k < length fs)%nat ∧ owned (closed s) (inode_at x (closed s) (Z.of_nat k + 1)) n;
  gd_free i : freeinode s ≤ i < NINODES → itype (inode_at x (closed s) i) = 0;
  gd_super : img s 1 = encode_sb zeroes super;
  gd_log n : 2 ≤ n < 32 → img s n = zeroes
}.

Lemma IBLOCK_super i : 0 ≤ i < NINODES → 32 ≤ IBLOCK i x < 45.
Proof. intros Hi. destruct (IBLOCK_eq x i super_ok Hi) as [_ H]. exact H. Qed.

(** The state after [winode]. *)
Definition with_inode (s : mkfs) (i : Z) (di : dinode) : mkfs :=
  written s (IBLOCK i x) (encode_dinode (img s (IBLOCK i x)) (dinode_off i) di).

Lemma with_inode_post s i di : 0 ≤ i < NINODES → din_ok di → inode_post x (closed s) i di (closed (with_inode s i di)).
Proof.
  intros Hi Hdi. pose proof (IBLOCK_super i Hi). unfold with_inode. rewrite closed_wsect by lia.
  rewrite <-(closed_ne s (IBLOCK i x)) by lia. apply inode_post_intro; [apply super_ok|done| |].
  - intros y Hy. by apply encode_dinode_8.
  - by apply decode_encode_dinode.
Qed.

Lemma with_inode_base s i di : base s → 0 ≤ i < NINODES → base (with_inode s i di).
Proof.
  intros Hb Hi. pose proof (IBLOCK_super i Hi). pose proof (base_pos s Hb). apply base_wsect; [done|lia].
Qed.

Lemma rinode_closed s i : 0 ≤ i < NINODES → decode_dinode (img s (IBLOCK i x)) (dinode_off i) = inode_at x (closed s) i.
Proof. intros Hi. pose proof (IBLOCK_super i Hi). unfold inode_at. by rewrite closed_ne by lia. Qed.

(** The blocks in use after a step. *)
Lemma extends_in_use s s' n : base s → extends s s' → in_use x (closed s) n → in_use x (closed s') n.
Proof.
  intros Hb [He _]. pose proof (base_pos s Hb). rewrite !closed_in_use by lia. lia.
Qed.

Section append.
Context (s s1 : mkfs) (i : Z) (di1 : dinode) (t : Z) (l0 p : list Z).
Let V := closed s.
Let di := inode_at x V i.
Let di' := set_size (Z.of_nat (length l0) + Z.of_nat (length p)) di1.
Let s2 := with_inode s1 i di'.
Hypothesis Hi : 0 ≤ i < NINODES.
Hypothesis Hh : holds V i t l0.
Hypothesis Ht : - 2 ^ 15 ≤ t < 2 ^ 15.
Hypothesis Hp : p ≠ [].
Hypothesis Hap : appended s di (Z.of_nat (length l0)) p s1 di1.

Lemma append_writei : writei_post x V i di (Z.of_nat (length l0)) p (closed s2) di' ∧ inode_post x (closed s1) i di' (closed s2).
Proof.
  destruct Hh as [Hty Hf Hs Hok _ _ _]. fold di in Hty, Hf, Hs, Hok.
  destruct Hap as [Hb1 [k Hw] Hmax _ _ _ _]. specialize (Hmax Hp).
  assert (di' = set_size (Z.max (isize di) (Z.of_nat (length l0) + Z.of_nat (length p))) di1) as Edi.
  { unfold di'. rewrite Hs, Z.max_r by lia. done. }
  assert (file_ok x (closed s1) di') as Hok'.
  { rewrite Edi. eapply (write_size_ok x V); [done|lia|done|exact Hw]. }
  destruct (wr_fields _ _ _ _ _ _ _ _ Hw) as (E1 & E2 & E3 & E4 & _). destruct Hf as (F1 & F2 & F3).
  assert (inode_post x (closed s1) i di' (closed s2)) as Hip.
  { apply with_inode_post; [done|]. apply (file_din_ok x super_ok (closed s1)); [done|].
    unfold shorts_ok, di'. simpl. rewrite E1, E2, E3, E4, Hty, F1, F2, F3. lia. }
  split; [|done]. rewrite Edi in Hip |- *.
  apply (writei_post_intro x super_ok V i di _ p k (closed s1) di1); [done|done|lia|done|done|done].
Qed.

Lemma append_fields : major di' = 0 ∧ minor di' = 0 ∧ nlink di' = 1 ∧ isize di' = Z.of_nat (length (l0 ++ p)).
Proof.
  destruct Hh as [_ (F1 & F2 & F3) _ _ _ _ _]. destruct Hap as [_ [k Hw] _ _ _ _ _].
  destruct (wr_fields _ _ _ _ _ _ _ _ Hw) as (E1 & E2 & E3 & E4 & _). unfold di'. simpl.
  rewrite E2, E3, E4, length_app, Nat2Z.inj_add. done.
Qed.

(** The blocks of the file, before and after the inode is written. *)
Lemma append_blockmap bn : 0 ≤ bn → blockmap (closed s2) (inode_at x (closed s2) i) bn = blockmap (closed s1) di1 bn.
Proof.
  intros Hbn. destruct append_writei as [Hwi Hip]. destruct Hap as [Hb1 [k Hw] _ _ _ _ _].
  rewrite (blockmap_din_eq _ _ di') by (apply (wi_disk _ _ _ _ _ _ _ _ Hwi) || done).
  transitivity (blockmap (closed s1) di' bn); [|done]. apply blockmap_ext. intros H0. apply (ip_other _ _ _ _ _ Hip).
  assert (46 ≤ addrs di1 NDIRECT < freeblock s1) by (apply (indirect_in_use s1 di1); [done|apply (wr_ok _ _ _ _ _ _ _ _ Hw)|done]).
  pose proof (IBLOCK_super i Hi). unfold di' in *. simpl. lia.
Qed.

Lemma append_byte a : 0 ≤ a / BSIZE < MAXFILE → blockmap (closed s2) (inode_at x (closed s2) i) (a / BSIZE) ≠ 0 →
  file_byte (closed s2) (inode_at x (closed s2) i) a = file_byte (closed s1) di1 a.
Proof.
  intros Hbn Hz. destruct append_writei as [_ Hip]. destruct Hap as [Hb1 [k Hw] _ _ _ _ _]. rewrite append_blockmap in Hz by lia.
  unfold file_byte. rewrite append_blockmap by lia. rewrite (ip_other _ _ _ _ _ Hip); [done|].
  pose proof (fo_used _ _ _ (wr_ok _ _ _ _ _ _ _ _ Hw) _ Hbn Hz) as Hu. pose proof (base_pos s1 Hb1).
  apply closed_in_use in Hu; [|lia]. pose proof (IBLOCK_super i Hi). lia.
Qed.

(** The blocks of the file that were in use before are its own. *)
Lemma append_owned n : in_use x V n → owned (closed s2) (inode_at x (closed s2) i) n → owned V di n.
Proof.
  intros Hn Ho. destruct Hap as [Hb1 [k Hw] _ _ _ _ _]. apply (wr_owned _ _ _ _ _ _ _ _ Hw); [done|].
  destruct Ho as [->|(bn & Hbn & <-)].
  - left. destruct append_writei as [Hwi _]. by destruct (wi_disk _ _ _ _ _ _ _ _ Hwi) as (_ & _ & _ & _ & _ & ->).
  - right. exists bn. split; [done|]. symmetry. apply append_blockmap. lia.
Qed.

Hypothesis Hbytes : Forall (λ b, 0 ≤ b < 256) p.

Lemma append_holds : holds (closed s2) i t (l0 ++ p).
Proof.
  destruct append_writei as [Hwi Hip]. destruct append_fields as (F1 & F2 & F3 & F4).
  pose proof (wi_disk _ _ _ _ _ _ _ _ Hwi) as He. pose proof (wi_ok _ _ _ _ _ _ _ _ Hwi) as Hok'.
  destruct Hh as [Hty _ Hs Hok Hby Hti Hze]. fold di in Hty, Hs, Hok, Hby, Hti, Hze. split.
  - destruct He as (-> & _). by rewrite (wi_type _ _ _ _ _ _ _ _ Hwi).
  - by destruct He as (_ & -> & -> & -> & _).
  - by destruct He as (_ & _ & _ & _ & -> & _).
  - apply (file_ok_din_eq _ di'); [by apply din_eq_sym|done].
  - intros k b Hk.
    assert (file_byte (closed s2) (inode_at x (closed s2) i) (Z.of_nat k) = file_byte (closed s2) di' (Z.of_nat k)) as ->.
    { unfold file_byte. rewrite (blockmap_din_eq _ _ di'); [done|done|]. apply Z.div_pos; [lia|done]. }
    apply lookup_app_Some in Hk as [Hk|[Hge Hk]].
    + rewrite (wi_old _ _ _ _ _ _ _ _ Hwi); [by apply Hby| |]; pose proof (lookup_lt_Some _ _ _ Hk); lia.
    + pose proof (wi_new _ _ _ _ _ _ _ _ Hwi _ _ Hk) as E.
      replace (Z.of_nat (length l0) + Z.of_nat (k - length l0)) with (Z.of_nat k) in E by lia. rewrite E.
      apply u8_small. by eapply Forall_lookup_1 in Hbytes.
  - intros bn Hbn. rewrite append_blockmap by lia. intros Hz. rewrite length_app, Nat2Z.inj_add.
    destruct (ap_tight _ _ _ _ _ _ Hap bn Hbn Hz) as [Hz'|]; [|lia]. specialize (Hti bn Hbn Hz'). lia.
  - intros a Ha. rewrite length_app in Ha. assert (0 ≤ a / BSIZE < MAXFILE) as Hbn by (unfold BSIZE in *; dlia).
    intros Hz. rewrite append_byte by lia || done. rewrite append_blockmap in Hz by lia.
    destruct (decide (blockmap V di (a / BSIZE) = 0)) as [Hz0|Hz0].
    + apply (ap_zero _ _ _ _ _ _ Hap); [lia|done|done].
    + destruct (ap_write _ _ _ _ _ _ Hap) as [k Hw]. rewrite (wr_old _ _ _ _ _ _ _ _ Hw) by lia || done. apply Hze; [lia|done].
Qed.

End append.

(** The blocks that an append allocates are its own. *)
Lemma append_grows s s1 i di1 t l0 p n : let V := closed s in
  let s2 := with_inode s1 i (set_size (Z.of_nat (length l0) + Z.of_nat (length p)) di1) in
  0 ≤ i < NINODES → holds V i t l0 → - 2 ^ 15 ≤ t < 2 ^ 15 → p ≠ [] →
  appended s (inode_at x V i) (Z.of_nat (length l0)) p s1 di1 →
  0 < n → freeblock s ≤ n < freeblock s1 ∨ owned V (inode_at x V i) n → owned (closed s2) (inode_at x (closed s2) i) n.
Proof.
  intros V s2 Hi Hh Ht Hp Hap Hn0 Hn. assert (owned (closed s1) di1 n) as Ho.
  { destruct Hn; [by apply (ap_grow _ _ _ _ _ _ Hap)|apply (ap_keep _ _ _ _ _ _ Hap); [lia|done]]. }
  destruct Ho as [->|(bn & Hbn & <-)]; [left|right].
  - destruct (append_writei s s1 i di1 t l0 p Hi Hh Ht Hp Hap) as [Hwi _]. by destruct (wi_disk _ _ _ _ _ _ _ _ Hwi) as (_ & _ & _ & _ & _ & ->).
  - exists bn. split; [done|]. apply (append_blockmap s s1 i di1 t l0 p Hi Hh Ht Hp Hap). lia.
Qed.

(** An append to file [k] keeps the other files. *)
Lemma append_others s s1 k di1 t l0 p fs m t' l' : let i := Z.of_nat k + 1 in
  let s2 := with_inode s1 i (set_size (Z.of_nat (length l0) + Z.of_nat (length p)) di1) in
  good s fs → (Z.of_nat (length fs) < NINODES) → fs !! k = Some (t, l0) → - 2 ^ 15 ≤ t < 2 ^ 15 → p ≠ [] →
  Forall (λ b, 0 ≤ b < 256) p → extends s s1 → appended s (inode_at x (closed s) i) (Z.of_nat (length l0)) p s1 di1 →
  m ≠ k → fs !! m = Some (t', l') →
  holds (closed s2) (Z.of_nat m + 1) t' l' ∧
  (∀ n, in_use x (closed s2) n → owned (closed s2) (inode_at x (closed s2) (Z.of_nat m + 1)) n →
    in_use x (closed s) n ∧ owned (closed s) (inode_at x (closed s) (Z.of_nat m + 1)) n) ∧
  ∀ n, owned (closed s) (inode_at x (closed s) (Z.of_nat m + 1)) n → owned (closed s2) (inode_at x (closed s2) (Z.of_nat m + 1)) n.
Proof.
  intros i s2 Hg Hlen Hk Ht Hp Hby Hext Hap Hne Hm. destruct Hg as [Hb Hwh Hcount Hfile Hapart _ Hfree _ _].
  pose proof (lookup_lt_Some _ _ _ Hk). pose proof (lookup_lt_Some _ _ _ Hm).
  assert (0 ≤ i < NINODES) as Hi by lia.
  destruct (append_writei s s1 i di1 t l0 p Hi (Hfile _ _ _ Hk) Ht Hp Hap) as [Hwi _].
  assert (din_eq (inode_at x (closed s2) (Z.of_nat m + 1)) (inode_at x (closed s) (Z.of_nat m + 1))) as He
    by (apply (wi_inodes _ _ _ _ _ _ _ _ Hwi); [change (sb_ninodes x) with NINODES|]; lia).
  assert (∀ n, in_use x (closed s) n → owned (closed s) (inode_at x (closed s) (Z.of_nat m + 1)) n → closed s2 n = closed s n) as Hfr.
  { intros n Hn Ho. apply (wi_frame _ _ _ _ _ _ _ _ Hwi); [done|]. by apply (Hapart m k n). }
  destruct (holds_keep (closed s) (closed s2) (Z.of_nat m + 1) t' l') as [H1 H2]; [by apply Hfile|done| |done|].
  - intros n. by apply extends_in_use.
  - split_and!; [done|done|]. intros n. by eapply (owned_keep (closed s)); [apply Hfile|..].
Qed.

Lemma good_append s s1 k di1 t l0 p fs : let i := Z.of_nat k + 1 in
  let s2 := with_inode s1 i (set_size (Z.of_nat (length l0) + Z.of_nat (length p)) di1) in
  good s fs → (Z.of_nat (length fs) < NINODES) → fs !! k = Some (t, l0) → - 2 ^ 15 ≤ t < 2 ^ 15 → p ≠ [] →
  Forall (λ b, 0 ≤ b < 256) p → extends s s1 → appended s (inode_at x (closed s) i) (Z.of_nat (length l0)) p s1 di1 →
  whole s1 → good s2 (<[k := (t, l0 ++ p)]> fs).
Proof.
  intros i s2 Hg Hlen Hk Ht Hp Hby Hext Hap Hwh1.
  pose proof (λ m t' l', append_others s s1 k di1 t l0 p fs m t' l' Hg Hlen Hk Ht Hp Hby Hext Hap) as Hoth. cbv zeta in Hoth. fold i s2 in Hoth.
  destruct Hg as [Hb Hwh Hcount Hfile Hapart Howned Hfree Hsup Hlog]. pose proof (lookup_lt_Some _ _ _ Hk).
  assert (0 ≤ i < NINODES) as Hi by lia. pose proof (IBLOCK_super i Hi).
  pose proof (append_owned s s1 i di1 t l0 p Hi (Hfile _ _ _ Hk) Ht Hp Hap) as Hown. fold s2 in Hown.
  destruct (append_writei s s1 i di1 t l0 p Hi (Hfile _ _ _ Hk) Ht Hp Hap) as [Hwi _]. fold s2 in Hwi.
  assert (∀ n, n < 32 → img s2 n = img s n) as Hlow.
  { intros n Hn. destruct (ap_write _ _ _ _ _ _ Hap) as [q Hw]. unfold s2. simpl. rewrite fset_ne by lia.
    rewrite <-!closed_ne by lia. apply (wr_inodes _ _ _ _ _ _ _ _ Hw). change (sb_bmapstart x) with 45. lia. }
  assert (∀ m n, (m < length fs)%nat → m ≠ k → in_use x (closed s2) n →
    owned (closed s2) (inode_at x (closed s2) (Z.of_nat m + 1)) n →
    in_use x (closed s) n ∧ owned (closed s) (inode_at x (closed s) (Z.of_nat m + 1)) n) as Hkeep.
  { intros m n Hm Hne. destruct (lookup_lt_is_Some_2 _ _ Hm) as [[t' l'] E]. by apply (Hoth m t' l'). }
  split.
  - apply with_inode_base; [apply (ap_base _ _ _ _ _ _ Hap)|done].
  - destruct Hwh1 as [E1 E2]. split; simpl; unfold FSSIZE in *; lia.
  - rewrite length_insert. destruct Hext as [_ E]. simpl. lia.
  - intros m t' l' Hm. destruct (decide (m = k)) as [->|Hne].
    + rewrite list_lookup_insert_eq in Hm by done. injection Hm as <- <-. apply (append_holds s s1 i di1 t l0 p Hi (Hfile _ _ _ Hk)); auto.
    + rewrite list_lookup_insert_ne in Hm by done. by apply (Hoth m t' l').
  - rewrite length_insert. intros j m n Hj Hm Hne Hn Hoj Hom. destruct (decide (j = k)) as [->|Hjk].
    + destruct (Hkeep m n Hm (not_eq_sym Hne) Hn Hom) as [Hn' Hom']. apply (Hapart k m n Hj Hm Hne Hn'); [|done]. by apply Hown.
    + destruct (Hkeep j n Hj Hjk Hn Hoj) as [Hn' Hoj']. destruct (decide (m = k)) as [->|Hmk].
      * apply (Hapart j k n Hj Hm Hne Hn' Hoj'). by apply Hown.
      * destruct (Hkeep m n Hm Hmk Hn Hom) as [_ Hom']. by apply (Hapart j m n Hj Hm Hne Hn').
  - rewrite length_insert. intros n Hn. pose proof (in_use_pos x super_ok _ _ Hn). pose proof (base_pos s Hb).
    apply closed_in_use in Hn; [|destruct Hext; simpl; lia]. simpl in Hn.
    destruct (decide (n < freeblock s)) as [Hlt|Hge].
    + destruct (Howned n) as (m & Hm & Ho); [apply closed_in_use; lia|]. exists m. split; [done|].
      destruct (decide (m = k)) as [->|Hne]; [apply (append_grows s s1 i di1 t l0 p n Hi (Hfile _ _ _ Hk)); auto; lia|].
      destruct (lookup_lt_is_Some_2 _ _ Hm) as [[t' l'] E]. by apply (Hoth m t' l').
    + exists k. split; [done|]. apply (append_grows s s1 i di1 t l0 p n Hi (Hfile _ _ _ Hk)); auto; lia.
  - intros j Hj. destruct Hext as [_ E]. simpl in Hj.
    destruct (wi_inodes _ _ _ _ _ _ _ _ Hwi j) as (-> & _); [change (sb_ninodes x) with NINODES; lia|lia|]. apply Hfree. lia.
  - rewrite <-Hsup. apply Hlow. lia.
  - intros n Hn. rewrite <-(Hlog n Hn). apply Hlow. lia.
Qed.

Lemma wpp_winode s i di (Q : unit → mkfs → Prop) : Q tt (with_inode s i di) → wpp (winode i di) Q s.
Proof. intros HQ. unfold winode. wpp_step. apply wpp_rsect. intros _. by apply wpp_wsect. Qed.

Lemma wpp_rinode s i (Q : dinode → mkfs → Prop) : 0 ≤ i < NINODES → Q (inode_at x (closed s) i) s → wpp (rinode i) Q s.
Proof. intros Hi HQ. unfold rinode. wpp_step. apply wpp_rsect. intros _. wpp_step. by rewrite rinode_closed. Qed.

Lemma wpp_iappend s fs k t l0 p : good s fs → (Z.of_nat (length fs) < NINODES) → fs !! k = Some (t, l0) →
  - 2 ^ 15 ≤ t < 2 ^ 15 → p ≠ [] → Forall (λ b, 0 ≤ b < 256) p →
  wpp (iappend (Z.of_nat k + 1) p) (λ _ s', good s' (<[k := (t, l0 ++ p)]> fs)) s.
Proof.
  intros Hg Hlen Hk Ht Hp Hby. pose proof (lookup_lt_Some _ _ _ Hk). pose proof (gd_file _ _ Hg _ _ _ Hk) as Hh.
  unfold iappend. wpp_step. apply wpp_rinode; [lia|]. wpp_step. rewrite (ho_size _ _ _ _ Hh).
  eapply wpp_mono; [apply wpp_iappend_loop; lia|]. intros [di1 off] s1 (Hext & Eo & Hap & Hwh). simpl in Eo, Hap. subst off.
  specialize (Hwh (gd_whole _ _ Hg)). apply wpp_winode. apply good_append with (s := s); try done.
  apply Hap; [apply (gd_base _ _ Hg)|apply Hwh|apply (ho_ok _ _ _ _ Hh)].
Qed.
