(* ===== verification/MkfsMain.v ===== *)
(** * The image of mkfs

    [main] of mkfs/mkfs.c leaves an image that the kernel's file system can
    mount: the superblock, the bitmap, the inodes, the files of the command line
    and a root directory that names them. *)

From Stdlib Require Import Ascii String.
From S2P Require Import Prelude Machine CString Bio Cache Log Txn Fs FsBlocks FsInode FsFile FsWrite FsDir Printf Mkfs MkfsImage.
Import Mkfs.
Local Open Scope Z_scope.
Local Open Scope list_scope.

(** ** The image in terms of the command line *)

Definition fs_name (arg : list Z) : list Z := strip_underscore (strip_user arg).

(** The entries of the root directory for files with the names [names]. *)
Definition root_bytes (names : list (list Z)) : list Z :=
  encode_dirent ROOTINO (str ".") ++ encode_dirent ROOTINO (str "..") ++
  concat (imap (λ k name, encode_dirent (Z.of_nat k + 2) name) names).

(** The files of the image, inode by inode: the root directory and the files. *)
Definition image_files (files : list (list Z * list Z)) : list (Z * list Z) :=
  (T_DIR, root_bytes (fs_name ∘ fst <$> files)) :: ((λ f, (T_FILE, f.2)) <$> files).

Definition bytes_ok (l : list Z) : Prop := Forall (λ b, 0 ≤ b < 256) l.

(** ** Inode allocation *)

Lemma new_inode_ok V t : file_ok x V (Dinode t 0 0 1 0 (λ _, 0)).
Proof.
  assert (∀ bn, blockmap V (Dinode t 0 0 1 0 (λ _, 0)) bn = 0) as Hz.
  { intros bn. unfold blockmap. simpl. by destruct (bn <? NDIRECT). }
  split; simpl; try done; try (intros *; rewrite ?Hz; done).
  intros bn. rewrite Hz. unfold BSIZE. lia.
Qed.

(** The state after [ialloc]. *)
Definition with_new (s : mkfs) (t : Z) : mkfs :=
  with_inode (Mk (img s) (freeinode s + 1) (freeblock s) (nsect s)) (freeinode s) (Dinode t 0 0 1 0 (λ _, 0)).

Lemma with_new_post s fs t : good s fs → Z.of_nat (length fs) + 1 < NINODES → - 2 ^ 15 ≤ t < 2 ^ 15 →
  inode_post x (closed s) (freeinode s) (Dinode t 0 0 1 0 (λ _, 0)) (closed (with_new s t)).
Proof.
  intros Hg Hlen Ht. apply (with_inode_post (Mk (img s) (freeinode s + 1) (freeblock s) (nsect s))).
  - pose proof (gd_count _ _ Hg). lia.
  - apply (file_din_ok x super_ok (closed s)); [apply new_inode_ok|]. unfold shorts_ok. simpl. lia.
Qed.

Lemma with_new_holds s fs t : good s fs → Z.of_nat (length fs) + 1 < NINODES → - 2 ^ 15 ≤ t < 2 ^ 15 →
  holds (closed (with_new s t)) (freeinode s) t [] ∧
  ∀ n, owned (closed (with_new s t)) (inode_at x (closed (with_new s t)) (freeinode s)) n → n = 0.
Proof.
  intros Hg Hlen Ht. pose proof (ip_self _ _ _ _ _ (with_new_post s fs t Hg Hlen Ht)) as He.
  set (V := closed (with_new s t)) in *. set (i := freeinode s) in *. set (di := Dinode t 0 0 1 0 (λ _, 0)) in *.
  assert (∀ bn, 0 ≤ bn → blockmap V (inode_at x V i) bn = 0) as Hz.
  { intros bn Hbn. rewrite (blockmap_din_eq V _ di) by done. unfold blockmap. simpl. by destruct (bn <? NDIRECT). }
  split; [split|].
  - by destruct He as (-> & _).
  - by destruct He as (_ & -> & -> & -> & _).
  - by destruct He as (_ & _ & _ & _ & -> & _).
  - apply (file_ok_din_eq V di); [by apply din_eq_sym|]. apply new_inode_ok.
  - done.
  - intros bn Hbn. rewrite Hz by lia. done.
  - intros a Ha. rewrite Hz; [done|]. apply Z.div_pos; simpl in *; [lia|done].
  - intros n [->|(bn & Hbn & <-)]; [|apply Hz; lia]. destruct He as (_ & _ & _ & _ & _ & Ha). by apply (Ha NDIRECT).
Qed.

Lemma with_new_others s fs t k t' l' : good s fs → Z.of_nat (length fs) + 1 < NINODES → - 2 ^ 15 ≤ t < 2 ^ 15 →
  fs !! k = Some (t', l') → let V := closed (with_new s t) in
  holds V (Z.of_nat k + 1) t' l' ∧
  (∀ n, in_use x V n → owned V (inode_at x V (Z.of_nat k + 1)) n →
    in_use x (closed s) n ∧ owned (closed s) (inode_at x (closed s) (Z.of_nat k + 1)) n) ∧
  ∀ n, owned (closed s) (inode_at x (closed s) (Z.of_nat k + 1)) n → owned V (inode_at x V (Z.of_nat k + 1)) n.
Proof.
  intros Hg Hlen Ht Hk V. pose proof (with_new_post s fs t Hg Hlen Ht) as Hip. fold V in Hip.
  pose proof (gd_count _ _ Hg). pose proof (lookup_lt_Some _ _ _ Hk). pose proof (base_pos s (gd_base _ _ Hg)).
  assert (din_eq (inode_at x V (Z.of_nat k + 1)) (inode_at x (closed s) (Z.of_nat k + 1))) as He
    by (apply (ip_inodes _ _ _ _ _ Hip); [change (sb_ninodes x) with NINODES|]; lia).
  assert (∀ n, in_use x (closed s) n → owned (closed s) (inode_at x (closed s) (Z.of_nat k + 1)) n → V n = closed s n) as Hfr.
  { intros n Hn _. apply (ip_other _ _ _ _ _ Hip). apply closed_in_use in Hn; [|lia]. pose proof (IBLOCK_super (freeinode s)). lia. }
  destruct (holds_keep (closed s) V (Z.of_nat k + 1) t' l') as [Hk1 Hk2]; [by apply (gd_file _ _ Hg)|done| |done|].
  - intros n. unfold V. rewrite !closed_in_use by (simpl; lia). done.
  - split_and!; [done|done|]. intros n. by eapply (owned_keep (closed s)); [apply (gd_file _ _ Hg)|..].
Qed.

Lemma good_new s fs t : good s fs → Z.of_nat (length fs) + 1 < NINODES → - 2 ^ 15 ≤ t < 2 ^ 15 →
  good (with_new s t) (fs ++ [(t, [])]).
Proof.
  intros Hg Hlen Ht. pose proof (with_new_post s fs t Hg Hlen Ht) as Hip.
  destruct (with_new_holds s fs t Hg Hlen Ht) as [Hnew Hown].
  pose proof (λ k t' l', with_new_others s fs t k t' l' Hg Hlen Ht) as Hoth. cbv zeta in Hoth.
  assert (∀ n, in_use x (closed (with_new s t)) n → n ≠ 0) as Hpos.
  { intros n Hn. pose proof (in_use_pos x super_ok _ _ Hn). lia. }
  pose proof (base_pos s (gd_base _ _ Hg)) as Hbp.
  destruct Hg as [Hb Hwh Hcount Hfile Hapart Howned Hfree Hsup Hlog]. pose proof (IBLOCK_super (freeinode s)).
  assert (∀ k n, (k < length (fs ++ [(t, [])]))%nat → in_use x (closed (with_new s t)) n →
    owned (closed (with_new s t)) (inode_at x (closed (with_new s t)) (Z.of_nat k + 1)) n →
    (k < length fs)%nat ∧ in_use x (closed s) n ∧ owned (closed s) (inode_at x (closed s) (Z.of_nat k + 1)) n) as Hkeep.
  { intros k n Hk Hn Ho. rewrite length_app in Hk. simpl in Hk. destruct (decide (k = length fs)) as [->|].
    - rewrite <-Hcount in Ho. by destruct (Hpos n Hn (Hown n Ho)).
    - destruct (lookup_lt_is_Some_2 fs k) as [[t' l'] E]; [lia|]. split; [lia|]. by apply (Hoth k t' l'). }
  split.
  - apply with_inode_base; [|lia]. destruct Hb as [Hb1 Hb2 Hb3]. split; simpl; [done|lia|done].
  - destruct Hwh as [E1 E2]. split; simpl; unfold FSSIZE in *; lia.
  - rewrite length_app. simpl. lia.
  - intros k t' l' Hk. apply lookup_app_Some in Hk as [Hk|[Hge Hk]]; [by apply Hoth|].
    destruct (k - length fs)%nat eqn:E; [|done]. injection Hk as <- <-.
    replace (Z.of_nat k + 1) with (freeinode s) by lia. done.
  - intros j k n Hj Hk Hne Hn Hoj Hok. destruct (Hkeep j n Hj Hn Hoj) as (? & Hn' & Hoj').
    destruct (Hkeep k n Hk Hn Hok) as (? & _ & Hok'). by apply (Hapart j k n).
  - intros n Hn. apply closed_in_use in Hn; [|simpl; lia]. simpl in Hn. destruct (Howned n) as (k & Hk & Ho); [apply closed_in_use; lia|].
    exists k. rewrite length_app. split; [lia|]. destruct (lookup_lt_is_Some_2 _ _ Hk) as [[t' l'] E]. by apply (Hoth k t' l').
  - intros i Hi. simpl in Hi. destruct (ip_inodes _ _ _ _ _ Hip i) as (-> & _); [change (sb_ninodes x) with NINODES; lia|lia|].
    apply Hfree. lia.
  - simpl. rewrite fset_ne by lia. done.
  - intros n Hn. simpl. rewrite fset_ne by lia. by apply Hlog.
Qed.

Lemma wpp_ialloc s fs t : good s fs → Z.of_nat (length fs) + 1 < NINODES → - 2 ^ 15 ≤ t < 2 ^ 15 →
  wpp (ialloc t) (λ i s', i = Z.of_nat (length fs) + 1 ∧ good s' (fs ++ [(t, [])])) s.
Proof.
  intros Hg Hlen Ht. unfold ialloc. wpp_step. wpp_step. wpp_step. wpp_step. wpp_step. apply wpp_winode. wpp_step.
  split; [apply (gd_count _ _ Hg)|]. by apply good_new.
Qed.

(** ** The loop over the command line *)

Lemma pieces_spec fuel data : (length data ≤ fuel)%nat →
  concat (pieces fuel data) = data ∧ Forall (λ p, p ≠ []) (pieces fuel data).
Proof.
  revert data. induction fuel as [|fuel IH]; intros [|c data] Hf; simpl in Hf; try done; try lia.
  cbn [pieces]. destruct (IH (drop (Z.to_nat BSIZE) (c :: data))) as [E1 E2].
  { rewrite length_drop. simpl. unfold BSIZE. lia. }
  split; [cbn [concat]; rewrite E1; apply take_drop|]. constructor; [done|exact E2].
Qed.

Lemma bytes_ok_concat ls : bytes_ok (concat ls) → Forall bytes_ok ls.
Proof.
  intros H. induction ls as [|l ls IH]; constructor; simpl in H; unfold bytes_ok in *; rewrite Forall_app in H; [apply H|].
  apply IH, H.
Qed.

Lemma bytes_ok_str n i : bytes_ok n → bytes_ok (encode_dirent i n).
Proof. apply encode_dirent_range. Qed.

Lemma fs_name_ok n : bytes_ok n → bytes_ok (fs_name n).
Proof.
  intros H. unfold fs_name, strip_underscore, strip_user. repeat case_match; by repeat apply Forall_drop.
Qed.

Lemma root_bytes_snoc names name :
  root_bytes (names ++ [name]) = root_bytes names ++ encode_dirent (Z.of_nat (length names) + 2) name.
Proof.
  unfold root_bytes. rewrite imap_app, concat_app. cbn [imap concat]. rewrite Nat.add_0_r, app_nil_r. by rewrite <-!app_assoc.
Qed.

Lemma length_root_bytes names : Z.of_nat (length (root_bytes names)) = 16 * (Z.of_nat (length names) + 2).
Proof.
  induction names as [|name names IH] using rev_ind; [done|].
  rewrite root_bytes_snoc, !length_app, length_encode_dirent. cbn [length]. lia.
Qed.

Lemma length_image_files files : length (image_files files) = S (length files).
Proof. unfold image_files. simpl. by rewrite length_fmap. Qed.

(** The contents of a file, piece by piece. *)
Lemma wpp_contents s fs k t l0 data : good s fs → Z.of_nat (length fs) < NINODES → fs !! k = Some (t, l0) →
  - 2 ^ 15 ≤ t < 2 ^ 15 → bytes_ok data →
  wpp (for_each (pieces (length data) data) (iappend (Z.of_nat k + 1)))
    (λ _ s', good s' (<[k := (t, l0 ++ data)]> fs)) s.
Proof.
  intros Hg Hlen Hk Ht Hd. destruct (pieces_spec (length data) data) as [Ec Hne]; [done|].
  set (ps := pieces _ _) in *. clearbody ps. subst data. apply bytes_ok_concat in Hd.
  apply (wpp_for_each ps _ (λ done s', good s' (<[k := (t, l0 ++ concat done)]> fs))).
  { cbn [concat]. rewrite app_nil_r, list_insert_id by done. done. }
  intros done p rest s' E Hg'. rewrite E in Hne, Hd. apply Forall_app in Hne as [_ [Hp _]%Forall_cons], Hd as [_ [Hb _]%Forall_cons].
  pose proof (lookup_lt_Some _ _ _ Hk).
  eapply wpp_mono; [eapply (wpp_iappend s' _ k t (l0 ++ concat done) p)|].
  - done.
  - by rewrite length_insert.
  - by apply list_lookup_insert_eq.
  - done.
  - done.
  - done.
  - intros u s'' Hg''. rewrite list_insert_insert in Hg''. destruct (decide (k = k)); [|done].
    rewrite concat_app. cbn [concat]. by rewrite app_nil_r, app_assoc.
Qed.

Lemma wpp_add_file s files name contents : good s (image_files files) → Z.of_nat (length files) < 198 → bytes_ok name →
  (∀ d, contents = Some d → bytes_ok d) →
  wpp (add_file ROOTINO (name, contents)) (λ _ s', ∃ d, contents = Some d ∧ (47 ∉ strip_user name) ∧
    good s' (image_files (files ++ [(name, d)]))) s.
Proof.
  intros Hg Hlen Hn Hc. unfold add_file, assert. wpp_step.
  destruct (existsb (Z.eqb 47) (strip_user name)) eqn:Es; simpl; [wpp_step|]. wpp_step.
  destruct contents as [d|]; [|wpp_step]. specialize (Hc d eq_refl). wpp_step.
  eapply wpp_mono; [apply (wpp_ialloc s _ T_FILE Hg); [rewrite length_image_files; unfold NINODES; lia|done]|].
  intros i s1 [-> Hg1]. rewrite length_image_files in *. wpp_step.
  set (R := root_bytes (fs_name ∘ fst <$> files)) in *.
  eapply wpp_mono; [apply (wpp_iappend s1 _ 0 T_DIR R _ Hg1)|].
  - rewrite length_app, length_image_files. simpl. unfold NINODES. lia.
  - done.
  - done.
  - intros E. apply (f_equal length) in E. by rewrite length_encode_dirent in E.
  - by apply bytes_ok_str, (fs_name_ok name).
  - intros u2 s2 Hg2. eapply wpp_mono; [apply (wpp_contents s2 _ (S (length files)) T_FILE [] d Hg2)|].
    + rewrite length_insert, length_app, length_image_files. simpl. unfold NINODES. lia.
    + rewrite list_lookup_insert_ne, lookup_app_r by (rewrite ?length_image_files; done).
      by rewrite length_image_files, Nat.sub_diag.
    + done.
    + done.
    + intros u3 s3 Hg3. exists d. split_and!; [done| |].
      { intros H47. apply not_true_iff_false in Es. apply Es, existsb_exists. exists 47. split; [|done]. by apply list_elem_of_In. }
      assert (<[S (length files):=(T_FILE, [] ++ d)]> (<[0%nat:=(T_DIR, R ++ encode_dirent (Z.of_nat (S (length files)) + 1) (strip_underscore (strip_user name)))]> (image_files files ++ [(T_FILE, [])])) = image_files (files ++ [(name, d)])) as <-; [|done].
      unfold image_files. rewrite !fmap_app. cbn [app insert list_insert fmap list_fmap]. f_equal.
      * f_equal. rewrite root_bytes_snoc. unfold R. rewrite length_fmap. f_equal. unfold compose, fs_name. simpl. f_equal. lia.
      * change (<[length files := (T_FILE, d)]> (((λ f, (T_FILE, f.2)) <$> files) ++ [(T_FILE, [])]) =
          ((λ f, (T_FILE, f.2)) <$> files) ++ [(T_FILE, d)]).
        rewrite insert_app_r_alt by (rewrite length_fmap; done). by rewrite length_fmap, Nat.sub_diag.
Qed.

(** ** The start *)

(** An image of zeroes. *)
Lemma wpp_clear s : nsect s = 0 → wpp (for_each (seqZ 0 FSSIZE) (λ i, wsect i zeroes))
  (λ _ s', freeinode s' = freeinode s ∧ freeblock s' = freeblock s ∧ nsect s' = FSSIZE ∧
    ∀ n, 0 ≤ n < FSSIZE → img s' n = zeroes) s.
Proof.
  intros Hs. eapply wpp_mono.
  - apply (wpp_for_each _ _ (λ done s', freeinode s' = freeinode s ∧ freeblock s' = freeblock s ∧
      nsect s' = Z.of_nat (length done) ∧ ∀ n, 0 ≤ n < Z.of_nat (length done) → img s' n = zeroes)).
    + split_and!; [done|done|done|]. intros n. simpl. lia.
    + intros done a rest s' E (E1 & E2 & E3 & Hz). apply wpp_wsect. rewrite length_app. simpl.
      assert (seqZ 0 FSSIZE !! length done = Some a) as Ha by (rewrite E; apply list_lookup_middle; done).
      apply lookup_seqZ in Ha as [Ha _]. split_and!; [done|done|lia|].
      intros n Hn. destruct (decide (n = a)) as [->|Hne]; [apply fset_eq|]. rewrite fset_ne by done. apply Hz. lia.
  - intros u s'. rewrite length_seqZ. done.
Qed.

Lemma good_start s : freeinode s = 1 → freeblock s = nmeta → nsect s = FSSIZE → (∀ n, 0 ≤ n < FSSIZE → img s n = zeroes) →
  good (written s 1 (encode_sb zeroes super)) [].
Proof.
  intros E1 E2 E3 Hz. split.
  - apply base_wsect; [|rewrite E2; done]. split; [lia|lia|]. intros n i Hn. rewrite Hz; [done|].
    rewrite E2 in Hn. change nmeta with 46 in Hn. lia.
  - split; simpl; [rewrite E3; done|rewrite E2; done].
  - simpl. lia.
  - done.
  - simpl. lia.
  - intros n Hn. apply closed_in_use in Hn; simpl in *; rewrite E2 in *; change nmeta with 46 in *; lia.
  - intros i Hi. simpl in Hi. pose proof (IBLOCK_super i). rewrite <-rinode_closed by lia. simpl. rewrite fset_ne by lia.
    rewrite Hz by (unfold FSSIZE; lia). done.
  - simpl. apply fset_eq.
  - intros n Hn. simpl. rewrite fset_ne by lia. apply Hz. unfold FSSIZE. lia.
Qed.

(** ** The end *)

Definition with_root_size (s : mkfs) : mkfs :=
  let di := inode_at x (closed s) ROOTINO in
  with_inode s ROOTINO (set_size ((isize di / BSIZE + 1) * BSIZE) di).

Lemma wpp_finish s : wpp (finish ROOTINO) (λ _ s', img s' = closed (with_root_size s)) s.
Proof.
  unfold finish, balloc, assert. wpp_step. apply wpp_rinode; [done|]. wpp_step. apply wpp_winode. wpp_step. wpp_step. wpp_step.
  destruct (_ <? _); [|wpp_step]. wpp_step. apply wpp_wsect. reflexivity.
Qed.

(** The runs of [main] end with the files of the command line in place. *)
Lemma wpp_main args : Z.of_nat (length args) ≤ 198 →
  Forall (λ a : list Z * option (list Z), bytes_ok a.1 ∧ ∀ d, a.2 = Some d → bytes_ok d) args →
  wpp (main args) (λ _ s', ∃ files s, args = (λ f, (f.1, Some f.2)) <$> files ∧
    Forall (λ f, 47 ∉ strip_user f.1) files ∧ good s (image_files files) ∧ img s' = closed (with_root_size s)) mkfs_start.
Proof.
  intros Hlen Hargs. unfold main. wpp_step. wpp_step. wpp_step. eapply wpp_mono; [by apply wpp_clear|].
  intros u s0 (E1 & E2 & E3 & Hz). simpl in E1, E2. wpp_step. apply wpp_wsect. pose proof (good_start s0 E1 E2 E3 Hz) as Hg0. clear E1 E2 E3 Hz.
  wpp_step. eapply wpp_mono; [by apply (wpp_ialloc _ [] T_DIR Hg0)|]. intros i s1 [-> Hg1]. unfold assert at 1. simpl in Hg1. wpp_step. simpl. wpp_step.
  assert (∀ s l n, good s [(T_DIR, l)] → bytes_ok n → wpp (iappend ROOTINO (encode_dirent ROOTINO n))
    (λ _ s', good s' [(T_DIR, l ++ encode_dirent ROOTINO n)]) s) as Happ.
  { intros s l n Hg Hn. apply (wpp_iappend s [(T_DIR, l)] 0 T_DIR l _ Hg); [done|done|done| |by apply bytes_ok_str].
    intros E. apply (f_equal length) in E. by rewrite length_encode_dirent in E. }
  assert (bytes_ok (str ".") ∧ bytes_ok (str "..")) as [Hd1 Hd2] by (split; unfold bytes_ok; vm_compute; repeat constructor; done).
  wpp_step. eapply wpp_mono; [by apply (Happ s1 [] (str "."))|]. intros u2 s2 Hg2.
  wpp_step. eapply wpp_mono; [exact (Happ s2 _ (str "..") Hg2 Hd2)|]. intros u3 s3 Hg3.
  wpp_step. eapply wpp_mono.
  - apply (wpp_for_each args _ (λ done s', ∃ files, done = (λ f, (f.1, Some f.2)) <$> files ∧
      Forall (λ f, 47 ∉ strip_user f.1) files ∧ good s' (image_files files))).
    + exists []. split_and!; [done|done|]. unfold image_files, root_bytes. cbn [fmap list_fmap imap concat]. by rewrite app_nil_r.
    + intros done [name c] rest s' E (files & -> & Hsl & Hg). rewrite E in Hlen, Hargs.
      apply Forall_app in Hargs as [_ [[Hn Hc] _]%Forall_cons]. rewrite length_app, length_fmap in Hlen. cbn [length] in Hlen.
      eapply wpp_mono; [apply (wpp_add_file s' files name c Hg); [lia|done|done]|].
      intros u4 s4 (d & -> & H47 & Hg4). exists (files ++ [(name, d)]). rewrite fmap_app. split_and!; [done| |done].
      apply Forall_app. split; [done|]. by constructor.
  - intros u4 s4 (files & -> & Hsl & Hg4). eapply wpp_mono; [apply wpp_finish|]. intros u5 s5 E. by exists files, s4.
Qed.

(** ** What the image holds *)

(** The entries of the root directory. *)
Definition root_entries (files : list (list Z * list Z)) : list (Z * list Z) :=
  (ROOTINO, str ".") :: (ROOTINO, str "..") :: imap (λ k f, (Z.of_nat k + 2, fs_name f.1)) files.

(** What a lookup in the root directory should give: the inode of the first entry
    with the name. *)
Definition root_lookup (files : list (list Z * list Z)) (name : list Z) : option Z :=
  e ← first_such (λ e, bool_decide (same_name name e.2)) (root_entries files); Some e.1.

Record image_ok (V : Z → block) (files : list (list Z * list Z)) : Prop := {
  im_super : decode_sb (V 1) = super;
  im_log n a : 2 ≤ n < 2 + nlog → load8 (V n) a = 0;
  im_bitmap n : 0 ≤ n < FSSIZE → ¬ free super V n ↔
    n < nmeta ∨ ∃ i, 1 ≤ i ≤ Z.of_nat (length files) + 1 ∧ owned V (inode_at super V i) n;
  im_file k name d : files !! k = Some (name, d) → holds V (Z.of_nat k + 2) T_FILE d;
  im_apart i j n : 1 ≤ i ≤ Z.of_nat (length files) + 1 → 1 ≤ j ≤ Z.of_nat (length files) + 1 → i ≠ j → in_use super V n →
    owned V (inode_at super V i) n → ¬ owned V (inode_at super V j) n;
  im_unused i : Z.of_nat (length files) + 2 ≤ i < NINODES → itype (inode_at super V i) = 0;
  im_root : let root := inode_at super V ROOTINO in itype root = T_DIR ∧ nlink root = 1 ∧
    isize root = (16 * (Z.of_nat (length files) + 2) / BSIZE + 1) * BSIZE;
  im_entry k i name : root_entries files !! k = Some (i, name) →
    dirent_at V (inode_at super V ROOTINO) (Z.of_nat k) = encode_dirent i name
}.

Lemma concat_16 (ls : list (list Z)) k j l : (∀ l', l' ∈ ls → length l' = 16%nat) → ls !! k = Some l → (j < 16)%nat →
  concat ls !! (16 * k + j)%nat = l !! j.
Proof.
  intros H Hk Hj. rewrite <-(take_drop_middle ls k l Hk), concat_app.
  assert (∀ ls' : list (list Z), (∀ l', l' ∈ ls' → length l' = 16%nat) → length (concat ls') = (16 * length ls')%nat) as Hc.
  { intros ls' H'. induction ls' as [|l' ls' IH]; [done|]. cbn [concat]. rewrite length_app, IH by set_solver. rewrite H' by set_solver. simpl. lia. }
  pose proof (lookup_lt_Some _ _ _ Hk).
  assert (length (concat (take k ls)) = (16 * k)%nat) as Ek.
  { rewrite Hc, length_take; [lia|]. intros l' Hl'. apply H. rewrite <-(take_drop k ls). set_solver. }
  rewrite lookup_app_r by lia. rewrite Ek. replace (16 * k + j - 16 * k)%nat with j by lia.
  cbn [concat]. apply lookup_app_l. rewrite (H l); [done|]. by eapply list_elem_of_lookup_2.
Qed.

(** A search over the indices of a list is a search over its elements. *)
Lemma first_such_lookup {A} (p : Z → bool) (q : A → bool) (l : list A) off :
  (∀ k a, l !! k = Some a → p (off + Z.of_nat k) = q a) →
  first_such q l = (k ← first_such p (seqZ off (Z.of_nat (length l))); l !! Z.to_nat (k - off)).
Proof.
  revert off. induction l as [|a l IH]; intros off H; [done|]. rewrite seqZ_cons by (simpl; lia).
  cbn [first_such]. pose proof (H 0%nat a eq_refl) as E. rewrite Z.add_0_r in E. rewrite E. destruct (q a).
  - simpl. by rewrite Z.sub_diag.
  - rewrite (IH (Z.succ off)) by (intros k b Hk; rewrite <-(H (S k) b Hk); f_equal; lia).
    replace (Z.pred (Z.of_nat (length (a :: l)))) with (Z.of_nat (length l)) by (simpl; lia).
    destruct (first_such p _) as [k|] eqn:Ek; [|done]. simpl. apply first_such_Some in Ek as [Hk%elem_of_seqZ _].
    replace (Z.to_nat (k - off)) with (S (Z.to_nat (k - Z.succ off))) by lia. done.
Qed.

Section image.
Context (s : mkfs) (files : list (list Z * list Z)).
Hypothesis Hg : good s (image_files files).
Hypothesis Hlen : Z.of_nat (length files) ≤ 198.
Let V0 := closed s.
Let di0 := inode_at x V0 ROOTINO.
Let V := closed (with_root_size s).
Let root := inode_at x V ROOTINO.
Let len := 16 * (Z.of_nat (length files) + 2).

Lemma root_holds : holds V0 ROOTINO T_DIR (root_bytes (fs_name ∘ fst <$> files)) ∧ isize di0 = len.
Proof.
  assert (holds V0 ROOTINO T_DIR (root_bytes (fs_name ∘ fst <$> files))) as H by exact (gd_file _ _ Hg 0 _ _ eq_refl).
  split; [done|]. unfold di0. rewrite (ho_size _ _ _ _ H), length_root_bytes, length_fmap. done.
Qed.

Lemma root_post : inode_post x V0 ROOTINO (set_size ((len / BSIZE + 1) * BSIZE) di0) V.
Proof.
  destruct root_holds as [Hh Hs]. unfold V, with_root_size. fold V0 di0. rewrite Hs. apply with_inode_post; [done|].
  assert (din_ok di0) as [H1 H2 H3 H4 _ H6].
  { apply (file_din_ok x super_ok V0); [apply (ho_ok _ _ _ _ Hh)|]. destruct Hh as [Ht (F1 & F2 & F3) _ _ _ _ _].
    fold di0 in Ht, F1, F2, F3. unfold shorts_ok. rewrite Ht, F1, F2, F3. unfold T_DIR. lia. }
  split; simpl; try done. unfold len, BSIZE. dlia.
Qed.

Lemma root_use n : in_use x V n ↔ in_use x V0 n.
Proof. pose proof (base_pos s (gd_base _ _ Hg)). unfold V, V0. rewrite !closed_in_use by (simpl; lia). done. Qed.

Lemma root_data n : in_use x V0 n → V n = V0 n.
Proof.
  intros Hn. apply (ip_other _ _ _ _ _ root_post). pose proof (base_pos s (gd_base _ _ Hg)). apply closed_in_use in Hn; [|lia].
  pose proof (IBLOCK_super ROOTINO ltac:(done)). lia.
Qed.

Lemma root_map bn : 0 ≤ bn → blockmap V root bn = blockmap V0 di0 bn.
Proof.
  intros Hbn. destruct root_holds as [Hh _]. unfold root.
  rewrite (blockmap_din_eq V _ _ bn (ip_self _ _ _ _ _ root_post) Hbn).
  transitivity (blockmap V di0 bn); [done|]. apply blockmap_ext. intros Hi. apply root_data.
  by apply (fo_ind _ _ _ (ho_ok _ _ _ _ Hh)).
Qed.

Lemma root_byte a : 0 ≤ a / BSIZE < MAXFILE → blockmap V0 di0 (a / BSIZE) ≠ 0 → file_byte V root a = file_byte V0 di0 a.
Proof.
  intros Ha Hz. destruct root_holds as [Hh _]. unfold file_byte. rewrite root_map by lia. rewrite root_data; [done|].
  by apply (fo_used _ _ _ (ho_ok _ _ _ _ Hh)).
Qed.

Lemma root_owned n : owned V root n → owned V0 di0 n.
Proof.
  intros [->|(bn & Hbn & <-)]; [left|right].
  - destruct (ip_self _ _ _ _ _ root_post) as (_ & _ & _ & _ & _ & Ha). by apply Ha.
  - exists bn. split; [done|]. symmetry. apply root_map. lia.
Qed.

Lemma image_others k t l : (0 < k)%nat → image_files files !! k = Some (t, l) →
  holds V (Z.of_nat k + 1) t l ∧
  (∀ n, in_use x V n → owned V (inode_at x V (Z.of_nat k + 1)) n → in_use x V0 n ∧ owned V0 (inode_at x V0 (Z.of_nat k + 1)) n) ∧
  ∀ n, owned V0 (inode_at x V0 (Z.of_nat k + 1)) n → owned V (inode_at x V (Z.of_nat k + 1)) n.
Proof.
  intros Hpos Hk. pose proof (lookup_lt_Some _ _ _ Hk) as Hlt. rewrite length_image_files in Hlt.
  assert (din_eq (inode_at x V (Z.of_nat k + 1)) (inode_at x V0 (Z.of_nat k + 1))) as He
    by (apply (ip_inodes _ _ _ _ _ root_post); [change (sb_ninodes x) with 200|unfold ROOTINO]; lia).
  destruct (holds_keep V0 V (Z.of_nat k + 1) t l) as [Hk1 Hk2];
    [by apply (gd_file _ _ Hg)|done|intros n; apply root_use|intros n Hn _; by apply root_data|].
  split_and!; [done|done|]. intros n. eapply (owned_keep V0); [by apply (gd_file _ _ Hg)|done|]. intros n' Hn' _. by apply root_data.
Qed.

Lemma image_owned i n : 1 ≤ i ≤ Z.of_nat (length files) + 1 → in_use x V n → owned V (inode_at x V i) n → owned V0 (inode_at x V0 i) n.
Proof.
  intros Hi Hn Ho. destruct (decide (i = 1)) as [->|Hne]; [by apply root_owned|].
  destruct (lookup_lt_is_Some_2 (image_files files) (Z.to_nat (i - 1))) as [[t l] E]; [rewrite length_image_files; lia|].
  destruct (image_others (Z.to_nat (i - 1)) t l ltac:(lia) E) as (_ & H & _). replace (Z.of_nat (Z.to_nat (i - 1)) + 1) with i in H by lia. by apply H.
Qed.

Lemma image_exact n : in_use x V n → ∃ i, 1 ≤ i ≤ Z.of_nat (length files) + 1 ∧ owned V (inode_at x V i) n.
Proof.
  intros Hn%root_use. destruct (gd_owned _ _ Hg n Hn) as (k & Hk & Ho). pose proof Hk as Hk'. rewrite length_image_files in Hk.
  exists (Z.of_nat k + 1). split; [lia|]. destruct (lookup_lt_is_Some_2 _ _ Hk') as [[t l] E]. destruct k as [|k].
  - destruct Ho as [->|(bn & Hbn & <-)]; [left|right].
    + destruct (ip_self _ _ _ _ _ root_post) as (_ & _ & _ & _ & _ & Ha). symmetry. by apply Ha.
    + exists bn. split; [done|]. apply root_map. lia.
  - destruct (image_others (S k) t l ltac:(lia) E) as (_ & _ & H). by apply H.
Qed.

(** The entries of the directory. *)
Lemma root_bytes_concat : root_bytes (fs_name ∘ fst <$> files) = concat ((λ e, encode_dirent e.1 e.2) <$> root_entries files).
Proof.
  unfold root_bytes, root_entries. cbn [fmap list_fmap concat fst snd]. do 3 f_equal. rewrite imap_fmap, fmap_imap. done.
Qed.

Lemma root_entry k i name : root_entries files !! k = Some (i, name) →
  dirent_at V root (Z.of_nat k) = encode_dirent i name.
Proof.
  intros Hk. destruct root_holds as [Hh Hs]. pose proof (lookup_lt_Some _ _ _ Hk) as Hlt.
  assert (length (root_entries files) = S (S (length files))) as El by (unfold root_entries; simpl; by rewrite length_imap). rewrite El in Hlt.
  apply list_eq. intros j. unfold dirent_at, file_bytes. rewrite list_lookup_fmap.
  destruct (decide (j < 16)%nat) as [Hj|Hj].
  - rewrite lookup_seqZ_lt by (unfold DIRENT_SIZE; lia). cbn [fmap option_fmap option_map].
    rewrite Z.add_0_l. set (a := DIRENT_SIZE * Z.of_nat k + Z.of_nat j).
    assert (a = Z.of_nat (16 * k + j)) as Ea by (unfold a, DIRENT_SIZE; lia).
    assert (0 ≤ a / BSIZE < MAXFILE ∧ a / BSIZE * BSIZE < len) as [Hbn Hc] by (rewrite Ea; unfold len; change MAXFILE with 268; unfold BSIZE; dlia).
    rewrite root_byte; [|done|apply (fo_cover _ _ _ (ho_ok _ _ _ _ Hh)); [apply Hbn|fold di0; rewrite Hs; apply Hc]].
    destruct (encode_dirent i name !! j) as [b|] eqn:Eb; [|apply lookup_ge_None in Eb; rewrite length_encode_dirent in Eb; lia].
    f_equal. rewrite Ea. apply (ho_bytes _ _ _ _ Hh). rewrite root_bytes_concat. rewrite <-Eb. apply concat_16; [| |done].
    + intros l' ([i' n'] & -> & _)%list_elem_of_fmap. apply length_encode_dirent.
    + rewrite list_lookup_fmap, Hk. done.
  - rewrite lookup_seqZ_ge by (unfold DIRENT_SIZE; lia). simpl. symmetry. apply lookup_ge_None. rewrite length_encode_dirent. lia.
Qed.

Lemma image_low n : n < 32 → V n = img s n.
Proof.
  intros Hn. pose proof (IBLOCK_super ROOTINO ltac:(done)). rewrite (ip_other _ _ _ _ _ root_post) by lia. apply closed_ne. lia.
Qed.

(** The blocks of the files are in use. *)
Lemma image_uses i n : 1 ≤ i ≤ Z.of_nat (length files) + 1 → owned V (inode_at x V i) n → n ≠ 0 → in_use x V n.
Proof.
  intros Hi Ho Hn. assert (∀ V di, file_ok x V di → owned V di n → in_use x V n) as Hok.
  { intros V' di Hok [->|(bn & Hbn & <-)]; [by apply (fo_ind _ _ _ Hok)|by apply (fo_used _ _ _ Hok)]. }
  destruct (decide (i = 1)) as [->|Hne].
  - apply root_use. destruct root_holds as [Hh _]. eapply Hok; [apply (ho_ok _ _ _ _ Hh)|by apply root_owned].
  - destruct (lookup_lt_is_Some_2 (image_files files) (Z.to_nat (i - 1))) as [[t l] E]; [rewrite length_image_files; lia|].
    destruct (image_others (Z.to_nat (i - 1)) t l ltac:(lia) E) as [Hh _]. replace (Z.of_nat (Z.to_nat (i - 1)) + 1) with i in Hh by lia.
    eapply Hok; [apply (ho_ok _ _ _ _ Hh)|done].
Qed.

(** The bitmap marks the metadata and the blocks of the files. *)
Lemma image_bitmap n : 0 ≤ n < FSSIZE → ¬ free super V n ↔
  n < nmeta ∨ ∃ i, 1 ≤ i ≤ Z.of_nat (length files) + 1 ∧ owned V (inode_at super V i) n.
Proof.
  intros Hn. pose proof (base_pos s (gd_base _ _ Hg)) as Hb. change nmeta with 46.
  assert (free super V n ↔ freeblock s ≤ n) as Hfr by (apply (closed_free (with_root_size s)); simpl; [lia|done]).
  split.
  - intros Hu. destruct (decide (n < 46)); [by left|right]. apply image_exact. split; [change (data_start x) with 46; change (sb_size x) with FSSIZE; lia|done].
  - intros [Hlt|(i & Hi & Ho)]; [rewrite Hfr; lia|]. destruct (decide (n = 0)) as [->|Hn0]; [rewrite Hfr; lia|].
    apply (image_uses i n Hi Ho Hn0).
Qed.

Lemma image_is_ok : image_ok V files.
Proof.
  split.
  - rewrite image_low, (gd_super _ _ Hg) by lia. reflexivity.
  - intros n a Hn. change (2 + nlog) with 32 in Hn. rewrite image_low, (gd_log _ _ Hg) by lia. done.
  - intros n Hn. apply image_bitmap. done.
  - intros k name d Hk. destruct (image_others (S k) T_FILE d) as [H _]; [lia| |].
    + change (((λ f : list Z * list Z, (T_FILE, f.2)) <$> files) !! k = Some (T_FILE, d)). by rewrite list_lookup_fmap, Hk.
    + by replace (Z.of_nat (S k) + 1) with (Z.of_nat k + 2) in H by lia.
  - intros i j n Hi Hj Hne Hn Hoi Hoj. apply root_use in Hn as Hn0.
    apply image_owned in Hoi, Hoj; [|done|done..].
    apply (gd_apart _ _ Hg (Z.to_nat (i - 1)) (Z.to_nat (j - 1)) n); rewrite ?length_image_files; try lia; [done| |].
    + by replace (Z.of_nat (Z.to_nat (i - 1)) + 1) with i by lia.
    + by replace (Z.of_nat (Z.to_nat (j - 1)) + 1) with j by lia.
  - intros i Hi. destruct (ip_inodes _ _ _ _ _ root_post i) as (-> & _); [change (sb_ninodes x) with NINODES; lia|unfold ROOTINO; lia|].
    apply (gd_free _ _ Hg). pose proof (gd_count _ _ Hg) as Hc. rewrite length_image_files in Hc. lia.
  - destruct root_holds as [[Ht (_ & _ & F3) _ _ _ _ _] _]. cbv zeta. by destruct (ip_self _ _ _ _ _ root_post) as (-> & _ & _ & -> & -> & _).
  - apply root_entry.
Qed.

Lemma root_size : isize root = (len / BSIZE + 1) * BSIZE.
Proof. unfold root. by destruct (ip_self _ _ _ _ _ root_post) as (_ & _ & _ & _ & -> & _). Qed.

(** The directory ends in the middle of a block. *)
Lemma root_whole : (Z.of_nat (length files) + 2) `mod` 64 ≠ 0 →
  file_ok x V root ∧ ∀ k, Z.of_nat (length files) + 2 ≤ k < isize root / DIRENT_SIZE → de_inum (dirent_at V root k) = 0.
Proof.
  intros Hmod. destruct root_holds as [Hh Hs]. pose proof (ho_ok _ _ _ _ Hh) as Hok. fold di0 in Hok.
  destruct (ip_self _ _ _ _ _ root_post) as (_ & _ & _ & _ & _ & Ha). fold root in Ha. pose proof root_size as E5.
  assert (∀ bn, 0 ≤ bn → bn * BSIZE < isize root → blockmap V0 di0 bn ≠ 0) as Hcov.
  { intros bn Hbn Hlt. apply (fo_cover _ _ _ Hok); [done|]. rewrite Hs. rewrite E5 in Hlt. unfold len, BSIZE in *. dlia. }
  split.
  - destruct Hok as [Hu Hi Hinj Hne Hsz Hc]. split.
    + intros bn Hbn. rewrite root_map by lia. intros Hz. by apply root_use, Hu.
    + rewrite Ha by done. intros Hz. by apply root_use, Hi.
    + intros b1 b2 H1 H2. rewrite !root_map by lia. auto.
    + intros bn Hbn. rewrite root_map, Ha by lia || done. auto.
    + rewrite E5. unfold len. change MAXFILE with 268. unfold BSIZE. dlia.
    + intros bn Hbn Hlt. rewrite root_map by lia. by apply Hcov.
  - intros k Hk. assert (∀ j, 0 ≤ j < 16 → file_byte V root (DIRENT_SIZE * k + j) = 0) as Hz.
    { intros j Hj. assert (0 ≤ (DIRENT_SIZE * k + j) / BSIZE < MAXFILE ∧ (DIRENT_SIZE * k + j) / BSIZE * BSIZE < isize root ∧
        len ≤ DIRENT_SIZE * k + j < MAXFILE * BSIZE) as (Hbn & Hlt & Hr).
      { rewrite E5 in Hk |- *. unfold len in *. change MAXFILE with 268. unfold DIRENT_SIZE, BSIZE in *. dlia. }
      rewrite root_byte; [|done|apply Hcov; [lia|done]]. apply (ho_zero _ _ _ _ Hh); [|apply Hcov; [lia|done]].
      rewrite length_root_bytes, length_fmap. done. }
    unfold de_inum, dirent_at, file_bytes. change (seqZ 0 DIRENT_SIZE) with [0;1;2;3;4;5;6;7;8;9;10;11;12;13;14;15].
    cbn [fmap list_fmap nth]. rewrite !Hz by lia. done.
Qed.

Lemma root_hole : (Z.of_nat (length files) + 2) `mod` 64 = 0 →
  isize root = len + BSIZE ∧ blockmap V root (len / BSIZE) = 0.
Proof.
  intros Hmod. destruct root_holds as [Hh Hs]. split; [rewrite root_size; unfold len, BSIZE; dlia|].
  assert (0 ≤ len / BSIZE < MAXFILE) as Hbn by (unfold len; change MAXFILE with 268; unfold BSIZE; dlia).
  rewrite root_map by lia. destruct (decide (blockmap V0 di0 (len / BSIZE) = 0)) as [|Hz]; [done|].
  pose proof (ho_tight _ _ _ _ Hh _ Hbn Hz) as H. rewrite length_root_bytes, length_fmap in H. unfold len, BSIZE in *. dlia.
Qed.


Lemma length_root_entries : Z.of_nat (length (root_entries files)) = Z.of_nat (length files) + 2.
Proof. unfold root_entries. cbn [length]. rewrite length_imap. lia. Qed.

Lemma root_inum k i name : root_entries files !! k = Some (i, name) → 0 < i < 2 ^ 16.
Proof.
  intros Hk. destruct k as [|[|k]]; [by injection Hk as <- <-..|].
  change (imap (λ k f, (Z.of_nat k + 2, fs_name f.1)) files !! k = Some (i, name)) in Hk.
  rewrite list_lookup_imap in Hk. destruct (files !! k) as [f|] eqn:Ef; [|done]. injection Hk as <- _.
  pose proof (lookup_lt_Some _ _ _ Ef). lia.
Qed.

Lemma root_get name : (Z.of_nat (length files) + 2) `mod` 64 ≠ 0 → dir_get V root name = root_lookup files name.
Proof.
  intros Hmod. destruct (root_whole Hmod) as [_ Hrest]. pose proof length_root_entries as El.
  assert (Z.of_nat (length files) + 2 ≤ isize root / DIRENT_SIZE) as Hn.
  { rewrite root_size. unfold len, DIRENT_SIZE, BSIZE. dlia. }
  assert (∀ k e, root_entries files !! k = Some e → entry_for V root name (0 + Z.of_nat k) = bool_decide (same_name name e.2)) as He.
  { intros k [i n] Hk. pose proof (root_inum k i n Hk). rewrite Z.add_0_l. unfold entry_for. rewrite (root_entry k i n Hk).
    rewrite encode_dirent_inum by lia. destruct (Z.eqb_spec i 0); [lia|]. simpl. apply eq_iff_eq_true.
    rewrite Z.eqb_eq, bool_decide_eq_true, namecmp_same. unfold same_name. by rewrite (encode_dirent_name i n). }
  unfold dir_get, dir_find, root_lookup.
  replace (isize root / DIRENT_SIZE) with (Z.of_nat (length (root_entries files)) + (isize root / DIRENT_SIZE - Z.of_nat (length (root_entries files)))) by lia.
  rewrite seqZ_app, first_such_app by lia.
  rewrite (first_such_lookup (entry_for V root name) _ _ 0 He).
  destruct (first_such (entry_for V root name) (seqZ 0 (Z.of_nat (length (root_entries files))))) as [k|] eqn:Ek.
  - simpl. apply first_such_Some in Ek as [Hk%elem_of_seqZ _]. rewrite Z.sub_0_r.
    destruct (lookup_lt_is_Some_2 (root_entries files) (Z.to_nat k)) as [[i n] Ei]; [lia|]. rewrite Ei. simpl. f_equal.
    pose proof (root_inum _ _ _ Ei). pose proof (root_entry _ _ _ Ei) as E. rewrite Z2Nat.id in E by lia. rewrite E. apply encode_dirent_inum. lia.
  - rewrite (proj2 (first_such_None _ _)); [done|]. intros k Hk%elem_of_seqZ. unfold entry_for. rewrite Hrest by lia. done.
Qed.

End image.

(** C9: The image that mkfs leaves, when it gets through: the superblock is the one
    the kernel expects, the log is empty, the bitmap marks exactly the metadata
    blocks and the data and indirect blocks of the files and of the root directory,
    file [k] of the command line is inode [k + 2] with its contents, no
    two inodes share a block, the other inodes are free, and the root directory
    has an entry for each file.  If the entries do not fill their last block, the
    root directory is a well-formed file, and a lookup in it finds the first entry
    with the name.  The program never runs over the end of the image: it exits if
    the files do not fit. *)
Theorem mkfs_image args : Z.of_nat (length args) ≤ 198 →
  Forall (λ a : list Z * option (list Z), bytes_ok a.1 ∧ ∀ d, a.2 = Some d → bytes_ok d) args →
  wpp (main args) (λ _ s, ∃ files, args = (λ f, (f.1, Some f.2)) <$> files ∧
    Forall (λ f, 47 ∉ strip_user f.1) files ∧ image_ok (img s) files ∧
    let root := inode_at super (img s) ROOTINO in
    ((Z.of_nat (length files) + 2) `mod` 64 ≠ 0 → file_ok super (img s) root ∧
      ∀ name, dir_get (img s) root name = root_lookup files name)) mkfs_start.
Proof.
  intros Hlen Hargs. eapply wpp_mono; [by apply wpp_main|].
  intros u s' (files & s & -> & Hsl & Hg & E). rewrite length_fmap in Hlen. exists files. rewrite E.
  split_and!; [done|done|by apply image_is_ok|]. cbv zeta. intros Hmod. split; [by apply (root_whole s files)|]. intros name. by apply root_get.
Qed.

(** If the entries fill their last block, the size of the root directory is
    rounded up to a block that does not exist: the file system reads a hole. *)
Theorem mkfs_root_hole args : Z.of_nat (length args) ≤ 198 →
  Forall (λ a : list Z * option (list Z), bytes_ok a.1 ∧ ∀ d, a.2 = Some d → bytes_ok d) args →
  (Z.of_nat (length args) + 2) `mod` 64 = 0 →
  wpp (main args) (λ _ s, let root := inode_at super (img s) ROOTINO in
    let n := 16 * (Z.of_nat (length args) + 2) in
    isize root = n + BSIZE ∧ blockmap (img s) root (n / BSIZE) = 0 ∧ ¬ file_ok super (img s) root) mkfs_start.
Proof.
  intros Hlen Hargs Hmod. eapply wpp_mono; [by apply wpp_main|].
  intros u s' (files & s & -> & _ & Hg & E). rewrite length_fmap in Hlen, Hmod |- *. rewrite E. cbv zeta.
  destruct (root_hole s files Hg Hlen Hmod) as [E1 E2]. split_and!; [done|done|].
  intros Hok. apply (fo_cover _ _ _ Hok (16 * (Z.of_nat (length files) + 2) / BSIZE)); [| |exact E2].
  - unfold BSIZE. dlia.
  - rewrite E1. unfold BSIZE. dlia.
Qed.

(** ** Examples *)

Definition example_args : list (list Z * option (list Z)) :=
  [(str "README", Some (str "xv6")); (str "user/_cat", Some (replicate 1500 7))].

Lemma mkfs_image_witness : match main example_args mkfs_start with Ret _ s => freeblock s =? 50 | _ => false end = true ∧
  wpp (main example_args) (λ _ s, ∃ files, example_args = (λ f, (f.1, Some f.2)) <$> files ∧
    Forall (λ f, 47 ∉ strip_user f.1) files ∧ image_ok (img s) files ∧
    let root := inode_at super (img s) ROOTINO in
    ((Z.of_nat (length files) + 2) `mod` 64 ≠ 0 → file_ok super (img s) root ∧
      ∀ name, dir_get (img s) root name = root_lookup files name)) mkfs_start.
Proof.
  split; [vm_compute; reflexivity|]. apply (mkfs_image example_args); [done|].
  repeat apply Forall_cons_2; [| |apply Forall_nil_2]; (split; [by repeat constructor|]); [by intros d [= <-]; repeat constructor|].
  intros d Hd. apply (inj Some (replicate 1500 7) d) in Hd as <-. by apply Forall_replicate.
Defined.

Definition full_args : list (list Z * option (list Z)) := replicate 62 (str "f", Some []).

Lemma mkfs_root_hole_witness : match main full_args mkfs_start with Ret _ s => freeblock s =? 47 | _ => false end = true ∧
  wpp (main full_args) (λ _ s, let root := inode_at super (img s) ROOTINO in
    let n := 16 * (Z.of_nat (length full_args) + 2) in
    isize root = n + BSIZE ∧ blockmap (img s) root (n / BSIZE) = 0 ∧ ¬ file_ok super (img s) root) mkfs_start.
Proof.
  split; [vm_compute; reflexivity|]. apply (mkfs_root_hole full_args); [done| |done].
  apply Forall_replicate. split; [repeat constructor; done|]. intros d [= <-]. constructor.
Defined.
