(* ===== verification/Riscv.v ===== *)
(** * The hart: registers, control registers and the instructions the kernel uses

    Models kernel/riscv.h (the accessors of the control registers and the
    interrupt switch), the instructions of the assembly files, the entry into and
    the return from a trap, and kernel/start.c.  The control
    registers behave as the privileged architecture documents: sstatus, sie and
    sip are views of mstatus, mie and mip; the interrupts that mideleg can
    delegate are those of the supervisor.  Address translation is a parameter:
    [mmu m p acc satp va] is the physical address of [va] for an access [acc] in
    mode [p], with the page table that satp gives in memory [m]. *)

From S2P Require Import Prelude Machine.
Local Open Scope Z_scope.
Local Open Scope list_scope.

Module Riscv.

Inductive reg : Type :=
| zero | ra | sp | gp | tp | t0 | t1 | t2 | s0 | s1 | a0 | a1 | a2 | a3 | a4 | a5 | a6 | a7
| s2 | s3 | s4 | s5 | s6 | s7 | s8 | s9 | s10 | s11 | t3 | t4 | t5 | t6.

Inductive csr : Type :=
| mhartid | mstatus | mepc | mie | mip | medeleg | mideleg | mtvec | mscratch | mcounteren
| sstatus | sepc | sie | sip | stvec | satp | sscratch | scause | stval | time.

Inductive mode : Type := UMode | SMode | MMode.

#[export] Instance reg_eq_dec : EqDecision reg.
Proof. solve_decision. Defined.
#[export] Instance csr_eq_dec : EqDecision csr.
Proof. solve_decision. Defined.
#[export] Instance mode_eq_dec : EqDecision mode.
Proof. solve_decision. Defined.

Record hart := Hart { regs : reg → Z; csrs : csr → Z; priv : mode; pc : Z; mem : memory }.

Definition set_reg (r : reg) (v : Z) (h : hart) : hart :=
  Hart (λ r', if decide (r' = r ∧ r ≠ zero) then v else regs h r') (csrs h) (priv h) (pc h) (mem h).
Definition set_csr (c : csr) (v : Z) (h : hart) : hart :=
  Hart (regs h) (λ c', if decide (c' = c) then v else csrs h c') (priv h) (pc h) (mem h).
Definition set_priv (m : mode) (h : hart) : hart := Hart (regs h) (csrs h) m (pc h) (mem h).
Definition set_pc (a : Z) (h : hart) : hart := Hart (regs h) (csrs h) (priv h) a (mem h).
Definition set_mem (m : memory) (h : hart) : hart := Hart (regs h) (csrs h) (priv h) (pc h) m.

(** ** Control registers *)

Definition MSTATUS_MPP_MASK : Z := Z.shiftl 3 11.
Definition MSTATUS_MPP_S : Z := Z.shiftl 1 11.
Definition MSTATUS_MIE : Z := Z.shiftl 1 3.
Definition SSTATUS_SPP : Z := Z.shiftl 1 8.
Definition SSTATUS_SPIE : Z := Z.shiftl 1 5.
Definition SSTATUS_SIE : Z := Z.shiftl 1 1.
Definition SIE_SEIE : Z := Z.shiftl 1 9.
Definition SIE_STIE : Z := Z.shiftl 1 5.
Definition SIE_SSIE : Z := Z.shiftl 1 1.
Definition MIE_MTIE : Z := Z.shiftl 1 7.

(** The bits of mstatus that sstatus shows. *)
Definition sstatus_mask : Z := foldr (λ i m, Z.lor (Z.shiftl 1 i) m) 0 [1; 5; 6; 8; 9; 10; 13; 14; 15; 16; 18; 19; 32; 33; 63].
(** The interrupts that can be delegated: those of the supervisor. *)
Definition delegable : Z := Z.lor SIE_SEIE (Z.lor SIE_STIE SIE_SSIE).

(** [v] on the bits of [mask], [old] on the others. *)
Definition merge (mask old v : Z) : Z := Z.lor (Z.ldiff old mask) (Z.land v mask).

Definition csr_read (c : csr) (h : hart) : Z :=
  match c with
  | sstatus => Z.land (csrs h mstatus) sstatus_mask
  | sie => Z.land (csrs h mie) (csrs h mideleg)
  | sip => Z.land (csrs h mip) (csrs h mideleg)
  | c => csrs h c
  end.

Definition csr_write (c : csr) (v : Z) (h : hart) : hart :=
  match c with
  | sstatus => set_csr mstatus (merge sstatus_mask (csrs h mstatus) v) h
  | sie => set_csr mie (merge (csrs h mideleg) (csrs h mie) v) h
  | sip => set_csr mip (merge (Z.land (csrs h mideleg) SIE_SSIE) (csrs h mip) v) h
  | mideleg => set_csr mideleg (Z.land v delegable) h
  | medeleg => set_csr medeleg (Z.ldiff v (Z.shiftl 1 11)) h
  | mepc => set_csr mepc (Z.ldiff v 1) h
  | sepc => set_csr sepc (Z.ldiff v 1) h
  | mhartid | time => h
  | c => set_csr c v h
  end.

(** The accessors of riscv.h. *)
Definition r_mhartid : M hart Z := gets (csr_read mhartid).
Definition r_mstatus : M hart Z := gets (csr_read mstatus).
Definition w_mstatus (x : Z) : M hart unit := modify (csr_write mstatus x).
Definition w_mepc (x : Z) : M hart unit := modify (csr_write mepc x).
Definition r_sstatus : M hart Z := gets (csr_read sstatus).
Definition w_sstatus (x : Z) : M hart unit := modify (csr_write sstatus x).
Definition r_sip : M hart Z := gets (csr_read sip).
Definition w_sip (x : Z) : M hart unit := modify (csr_write sip x).
Definition r_sie : M hart Z := gets (csr_read sie).
Definition w_sie (x : Z) : M hart unit := modify (csr_write sie x).
Definition r_mie : M hart Z := gets (csr_read mie).
Definition w_mie (x : Z) : M hart unit := modify (csr_write mie x).
Definition w_sepc (x : Z) : M hart unit := modify (csr_write sepc x).
Definition r_sepc : M hart Z := gets (csr_read sepc).
Definition r_medeleg : M hart Z := gets (csr_read medeleg).
Definition w_medeleg (x : Z) : M hart unit := modify (csr_write medeleg x).
Definition r_mideleg : M hart Z := gets (csr_read mideleg).
Definition w_mideleg (x : Z) : M hart unit := modify (csr_write mideleg x).
Definition w_stvec (x : Z) : M hart unit := modify (csr_write stvec x).
Definition r_stvec : M hart Z := gets (csr_read stvec).
Definition w_mtvec (x : Z) : M hart unit := modify (csr_write mtvec x).
Definition w_satp (x : Z) : M hart unit := modify (csr_write satp x).
Definition r_satp : M hart Z := gets (csr_read satp).
Definition w_sscratch (x : Z) : M hart unit := modify (csr_write sscratch x).
Definition w_mscratch (x : Z) : M hart unit := modify (csr_write mscratch x).
Definition r_scause : M hart Z := gets (csr_read scause).
Definition r_stval : M hart Z := gets (csr_read stval).
Definition w_mcounteren (x : Z) : M hart unit := modify (csr_write mcounteren x).
Definition r_mcounteren : M hart Z := gets (csr_read mcounteren).
Definition r_time : M hart Z := gets (csr_read time).
Definition r_sp : M hart Z := gets (λ h, regs h sp).
Definition r_tp : M hart Z := gets (λ h, regs h tp).
Definition w_tp (x : Z) : M hart unit := modify (set_reg tp x).
Definition r_ra : M hart Z := gets (λ h, regs h ra).

Definition intr_on : M hart unit := x ← r_sstatus; w_sstatus (Z.lor x SSTATUS_SIE).
Definition intr_off : M hart unit := x ← r_sstatus; w_sstatus (Z.land x (Z.lnot SSTATUS_SIE)).
Definition intr_get : M hart bool := x ← r_sstatus; mret (nonzero (Z.land x SSTATUS_SIE)).

(** ** Traps and returns from traps *)

Definition bit (b : bool) (i : Z) : Z := if b then Z.shiftl 1 i else 0.

(** The previous privilege: bits 11 and 12 of mstatus for the machine, bit 8 for
    the supervisor. *)
Definition mode_num (m : mode) : Z := match m with UMode => 0 | SMode => 1 | MMode => 3 end.
Definition num_mode (n : Z) : mode := if n =? 0 then UMode else if n =? 1 then SMode else MMode.

(** A trap to the supervisor with the cause [cause]. *)
Definition trap_s (cause val : Z) (h : hart) : hart :=
  let s := csrs h mstatus in
  let s := merge (bit true 5) s (bit (Z.testbit s 1) 5) in
  let s := merge (bit true 8) s (bit (bool_decide (priv h = SMode)) 8) in
  let s := Z.ldiff s (bit true 1) in
  set_pc (csrs h stvec) (set_priv SMode (set_csr mstatus s (set_csr sepc (pc h)
    (set_csr scause cause (set_csr stval val h))))).

(** The timer interrupt of the machine. *)
Definition trap_m (h : hart) : hart :=
  let s := csrs h mstatus in
  let s := merge (bit true 7) s (bit (Z.testbit s 3) 7) in
  let s := merge MSTATUS_MPP_MASK s (Z.shiftl (mode_num (priv h)) 11) in
  let s := Z.ldiff s (bit true 3) in
  set_pc (csrs h mtvec) (set_priv MMode (set_csr mstatus s (set_csr mepc (pc h) h))).

Definition sret (h : hart) : hart :=
  let s := csrs h mstatus in
  let m := if Z.testbit s 8 then SMode else UMode in
  let s := merge (bit true 1) s (bit (Z.testbit s 5) 1) in
  let s := Z.ldiff (Z.lor s (bit true 5)) (bit true 8) in
  set_pc (csrs h sepc) (set_priv m (set_csr mstatus s h)).

Definition mret_ (h : hart) : hart :=
  let s := csrs h mstatus in
  let m := num_mode (Z.land (Z.shiftr s 11) 3) in
  let s := merge (bit true 3) s (bit (Z.testbit s 7) 3) in
  let s := Z.ldiff (Z.lor s (bit true 7)) MSTATUS_MPP_MASK in
  set_pc (csrs h mepc) (set_priv m (set_csr mstatus s h)).

(** ** Instructions *)

Inductive instr : Type :=
| LI (rd : reg) (v : Z)
| ADDI (rd rs : reg) (imm : Z)
| ADD (rd r1 r2 : reg)
| MUL (rd r1 r2 : reg)
| LD (rd : reg) (off : Z) (base : reg)
| SD (rs : reg) (off : Z) (base : reg)
| CSRR (rd : reg) (c : csr)
| CSRW (c : csr) (rs : reg)
| CSRRW (rd : reg) (c : csr) (rs : reg)
| SFENCE
| CALL (f : Z)
| JR (rs : reg)
| SRET
| MRET.

(** The accesses that the translation tells apart. *)
Inductive access : Type := Fetch | Load | Store.

(** The instruction leaves the routine. *)
Definition leaves (i : instr) : bool := match i with JR _ | SRET | MRET => true | _ => false end.

Section exec.
(** Address translation, the code of the called functions, and the page of the
    routine: its virtual and its physical address. *)
Context (mmu : memory → mode → access → Z → Z → option Z) (fn : Z → hart → option hart) (code : Z * Z).

Definition translate (acc : access) (h : hart) (va : Z) : option Z :=
  if decide (priv h = MMode) then Some va
  else if csrs h satp =? 0 then Some va
  else mmu (mem h) (priv h) acc (csrs h satp) va.

(** The address of a doubleword. *)
Definition addr (acc : access) (h : hart) (base : reg) (off : Z) : option Z :=
  let va := u64 (regs h base + off) in
  if va `mod` 8 =? 0 then translate acc h va else None.

Definition exec_instr (i : instr) (h : hart) : option hart :=
  match i with
  | LI rd v => Some (set_reg rd v h)
  | ADDI rd rs imm => Some (set_reg rd (u64 (regs h rs + imm)) h)
  | ADD rd r1 r2 => Some (set_reg rd (u64 (regs h r1 + regs h r2)) h)
  | MUL rd r1 r2 => Some (set_reg rd (u64 (regs h r1 * regs h r2)) h)
  | LD rd off base => pa ← addr Load h base off; Some (set_reg rd (load64 (mem h) pa) h)
  | SD rs off base => pa ← addr Store h base off; Some (set_mem (store64 (mem h) pa (regs h rs)) h)
  | CSRR rd c => Some (set_reg rd (csr_read c h) h)
  | CSRW c rs => Some (csr_write c (regs h rs) h)
  | CSRRW rd c rs => Some (set_reg rd (csr_read c h) (csr_write c (regs h rs) h))
  | SFENCE => Some h
  | CALL f => fn f h
  | JR rs => Some (set_pc (regs h rs) h)
  | SRET => Some (sret h)
  | MRET => Some (mret_ h)
  end.

(** A routine runs to the instruction that leaves it.  Every instruction has to be
    fetched. *)
Fixpoint run_asm (l : list instr) (h : hart) : option hart :=
  match l with
  | [] => Some h
  | i :: l' =>
      if bool_decide (translate Fetch h code.1 = Some code.2) then
        h' ← exec_instr i h;
        if leaves i then Some h' else run_asm l' h'
      else None
  end.

End exec.

(** ** kernel/start.c *)

Definition CLINT_MTIMECMP (hartid : Z) : Z := CLINT + 0x4000 + 8 * hartid.
Definition CLINT_MTIME : Z := CLINT + 0xBFF8.

Section start.
(** Addresses that the linker places. *)
Context (main timervec mscratch0 : Z).

Definition load_d (a : Z) : M hart Z := gets (λ h, load64 (mem h) a).
Definition store_d (a v : Z) : M hart unit := modify (λ h, set_mem (store64 (mem h) a v) h).

Definition timerinit : M hart unit :=
  x ← r_mhartid;
  let id := s32 x in
  let interval := 1000000 in
  now ← load_d CLINT_MTIME;
  store_d (CLINT_MTIMECMP id) (u64 (now + interval)) ;;
  let scratch := mscratch0 + 8 * (32 * id) in
  store_d (scratch + 8 * 4) (CLINT_MTIMECMP id) ;;
  store_d (scratch + 8 * 5) interval ;;
  w_mscratch scratch ;;
  w_mtvec timervec ;;
  x ← r_mstatus;
  w_mstatus (Z.lor x MSTATUS_MIE) ;;
  x ← r_mie;
  w_mie (Z.lor x MIE_MTIE).

Definition start : M hart unit :=
  x ← r_mstatus;
  let x := Z.land x (Z.lnot MSTATUS_MPP_MASK) in
  let x := Z.lor x MSTATUS_MPP_S in
  w_mstatus x ;;
  w_mepc main ;;
  w_satp 0 ;;
  w_medeleg 0xffff ;;
  w_mideleg 0xffff ;;
  x ← r_sie;
  w_sie (Z.lor (Z.lor (Z.lor x SIE_SEIE) SIE_STIE) SIE_SSIE) ;;
  timerinit ;;
  x ← r_mhartid;
  let id := s32 x in
  w_tp (u64 id) ;;
  modify mret_.

End start.

End Riscv.
