(* ===== verification/Asm.v ===== *)
(** * The assembly routines

    kernel/entry.S, kernel/kernelvec.S, kernel/swtch.S and kernel/trampoline.S,
    instruction by instruction ([la] is a load of the address, [ret] a jump to
    [ra]); the slots of struct trapframe and struct context that they use; the
    lemmas on saving and restoring registers. *)

From Stdlib Require Import Sorting.Sorted.
From S2P Require Import Prelude Machine Riscv.
Import Riscv.
Local Open Scope Z_scope.
Local Open Scope list_scope.

Section routines.
(** Addresses that the linker places. *)
Context (stack0 start_addr kerneltrap_addr : Z).

Definition _entry : list instr :=
  [LI sp stack0; LI a0 (1024 * 4); CSRR a1 mhartid; ADDI a1 a1 1; MUL a0 a0 a1; ADD sp sp a0; CALL start_addr].

Definition kernelvec : list instr :=
  [ADDI sp sp (-256); SD ra 0 sp; SD sp 8 sp; SD gp 16 sp; SD tp 24 sp; SD t0 32 sp; SD t1 40 sp;
   SD t2 48 sp; SD s0 56 sp; SD s1 64 sp; SD a0 72 sp; SD a1 80 sp; SD a2 88 sp; SD a3 96 sp; SD a4 104 sp;
   SD a5 112 sp; SD a6 120 sp; SD a7 128 sp; SD s2 136 sp; SD s3 144 sp; SD s4 152 sp; SD s5 160 sp;
   SD s6 168 sp; SD s7 176 sp; SD s8 184 sp; SD s9 192 sp; SD s10 200 sp; SD s11 208 sp; SD t3 216 sp;
   SD t4 224 sp; SD t5 232 sp; SD t6 240 sp; CALL kerneltrap_addr; LD ra 0 sp; LD sp 8 sp; LD gp 16 sp;
   LD t0 32 sp; LD t1 40 sp; LD t2 48 sp; LD s0 56 sp; LD s1 64 sp; LD a0 72 sp; LD a1 80 sp; LD a2 88 sp;
   LD a3 96 sp; LD a4 104 sp; LD a5 112 sp; LD a6 120 sp; LD a7 128 sp; LD s2 136 sp; LD s3 144 sp;
   LD s4 152 sp; LD s5 160 sp; LD s6 168 sp; LD s7 176 sp; LD s8 184 sp; LD s9 192 sp; LD s10 200 sp;
   LD s11 208 sp; LD t3 216 sp; LD t4 224 sp; LD t5 232 sp; LD t6 240 sp; ADDI sp sp 256; SRET].

Definition timervec : list instr :=
  [CSRRW a0 mscratch a0; SD a1 0 a0; SD a2 8 a0; SD a3 16 a0; LD a1 32 a0; LD a2 40 a0; LD a3 0 a1;
   ADD a3 a3 a2; SD a3 0 a1; LI a1 2; CSRW sip a1; LD a3 16 a0; LD a2 8 a0; LD a1 0 a0; CSRRW a0 mscratch a0;
   MRET].

Definition swtch : list instr :=
  [SD ra 0 a0; SD sp 8 a0; SD s0 16 a0; SD s1 24 a0; SD s2 32 a0; SD s3 40 a0; SD s4 48 a0; SD s5 56 a0;
   SD s6 64 a0; SD s7 72 a0; SD s8 80 a0; SD s9 88 a0; SD s10 96 a0; SD s11 104 a0; LD ra 0 a1; LD sp 8 a1;
   LD s0 16 a1; LD s1 24 a1; LD s2 32 a1; LD s3 40 a1; LD s4 48 a1; LD s5 56 a1; LD s6 64 a1; LD s7 72 a1;
   LD s8 80 a1; LD s9 88 a1; LD s10 96 a1; LD s11 104 a1; JR ra].

Definition uservec : list instr :=
  [CSRRW a0 sscratch a0; SD ra 40 a0; SD sp 48 a0; SD gp 56 a0; SD tp 64 a0; SD t0 72 a0; SD t1 80 a0;
   SD t2 88 a0; SD s0 96 a0; SD s1 104 a0; SD a1 120 a0; SD a2 128 a0; SD a3 136 a0; SD a4 144 a0;
   SD a5 152 a0; SD a6 160 a0; SD a7 168 a0; SD s2 176 a0; SD s3 184 a0; SD s4 192 a0; SD s5 200 a0;
   SD s6 208 a0; SD s7 216 a0; SD s8 224 a0; SD s9 232 a0; SD s10 240 a0; SD s11 248 a0; SD t3 256 a0;
   SD t4 264 a0; SD t5 272 a0; SD t6 280 a0; CSRR t0 sscratch; SD t0 112 a0; LD sp 8 a0; LD tp 32 a0;
   LD t0 16 a0; LD t1 0 a0; CSRW satp t1; SFENCE; JR t0].

Definition userret : list instr :=
  [CSRW satp a1; SFENCE; LD t0 112 a0; CSRW sscratch t0; LD ra 40 a0; LD sp 48 a0; LD gp 56 a0; LD tp 64 a0;
   LD t0 72 a0; LD t1 80 a0; LD t2 88 a0; LD s0 96 a0; LD s1 104 a0; LD a1 120 a0; LD a2 128 a0;
   LD a3 136 a0; LD a4 144 a0; LD a5 152 a0; LD a6 160 a0; LD a7 168 a0; LD s2 176 a0; LD s3 184 a0;
   LD s4 192 a0; LD s5 200 a0; LD s6 208 a0; LD s7 216 a0; LD s8 224 a0; LD s9 232 a0; LD s10 240 a0;
   LD s11 248 a0; LD t3 256 a0; LD t4 264 a0; LD t5 272 a0; LD t6 280 a0; CSRRW a0 sscratch a0; SRET].

End routines.

(** ** The slots *)

(** The registers of struct trapframe, at their offsets. *)
Definition trapframe_slots : list (reg * Z) :=
  [(ra, 40); (sp, 48); (gp, 56); (tp, 64); (t0, 72); (t1, 80); (t2, 88); (s0, 96); (s1, 104); (a0, 112); (a1, 120);
   (a2, 128); (a3, 136); (a4, 144); (a5, 152); (a6, 160); (a7, 168); (s2, 176); (s3, 184); (s4, 192); (s5, 200);
   (s6, 208); (s7, 216); (s8, 224); (s9, 232); (s10, 240); (s11, 248); (t3, 256); (t4, 264); (t5, 272); (t6, 280)].

(** struct context *)
Definition context_slots : list (reg * Z) :=
  [(ra, 0); (sp, 8); (s0, 16); (s1, 24); (s2, 32); (s3, 40); (s4, 48); (s5, 56); (s6, 64); (s7, 72); (s8, 80);
   (s9, 88); (s10, 96); (s11, 104)].

(** The frame of kernelvec. *)
Definition frame_slots : list (reg * Z) :=
  [(ra, 0); (sp, 8); (gp, 16); (tp, 24); (t0, 32); (t1, 40); (t2, 48); (s0, 56); (s1, 64); (a0, 72); (a1, 80);
   (a2, 88); (a3, 96); (a4, 104); (a5, 112); (a6, 120); (a7, 128); (s2, 136); (s3, 144); (s4, 152); (s5, 160);
   (s6, 168); (s7, 176); (s8, 184); (s9, 192); (s10, 200); (s11, 208); (t3, 216); (t4, 224); (t5, 232); (t6, 240)].

Definition save (b : reg) (l : list (reg * Z)) : list instr := (λ e, SD e.1 e.2 b) <$> l.
Definition restore (b : reg) (l : list (reg * Z)) : list instr := (λ e, LD e.1 e.2 b) <$> l.

(** Memory after the registers [f] are saved at [P], and the hart after they are
    loaded from there. *)
Definition saved (P : Z) (f : reg → Z) (m : memory) (l : list (reg * Z)) : memory :=
  foldl (λ m e, store64 m (P + e.2) (f e.1)) m l.
Definition loaded (P : Z) (h : hart) (l : list (reg * Z)) : hart :=
  foldl (λ h e, set_reg e.1 (load64 (mem h) (P + e.2)) h) h l.

(** The registers are 64 bits wide. *)
Definition ranged (h : hart) : Prop := ∀ r, 0 ≤ regs h r < 2 ^ 64.

(** * Lemmas *)

(** The entries of a list of slots, one by one. *)
Ltac slots H := vm_compute in H; repeat (apply elem_of_cons in H as [H|H]; [simplify_eq; first [done|lia]|]); by apply not_elem_of_nil in H.

Lemma set_reg_eq r v h : r ≠ zero → regs (set_reg r v h) r = v.
Proof. intros Hr. simpl. by rewrite decide_True. Qed.

Lemma set_reg_ne r r' v h : r' ≠ r → regs (set_reg r v h) r' = regs h r'.
Proof. intros Hr. simpl. rewrite decide_False; [done|]. by intros [? _]. Qed.

Lemma set_csr_eq c v h : csrs (set_csr c v h) c = v.
Proof. simpl. by rewrite decide_True. Qed.

Lemma set_csr_ne c c' v h : c' ≠ c → csrs (set_csr c v h) c' = csrs h c'.
Proof. intros Hc. simpl. by rewrite decide_False. Qed.

(** ** Bits of the control registers *)

Lemma merge_testbit mask old v i : 0 ≤ i →
  Z.testbit (merge mask old v) i = if Z.testbit mask i then Z.testbit v i else Z.testbit old i.
Proof.
  intros Hi. unfold merge. rewrite Z.lor_spec, Z.ldiff_spec, Z.land_spec.
  destruct (Z.testbit mask i), (Z.testbit old i), (Z.testbit v i); done.
Qed.

Lemma bit_testbit b i j : 0 ≤ i → 0 ≤ j → Z.testbit (bit b i) j = b && (j =? i).
Proof.
  intros Hi Hj. unfold bit. destruct b; [|by rewrite Z.bits_0]. rewrite Z.shiftl_1_l, Z.pow2_bits_eqb by lia.
  simpl. apply Z.eqb_sym.
Qed.

Ltac bits := rewrite ?Z.ldiff_spec, ?Z.lor_spec, ?Z.land_spec, ?merge_testbit, ?bit_testbit, ?Z.lnot_spec by lia.

(** ** Loading and saving *)

Lemma saved_ext P f g m l : (∀ r o, (r, o) ∈ l → f r = g r) → saved P f m l = saved P g m l.
Proof.
  revert m. induction l as [|[r o] l IH]; intros m H; [done|]. cbn [saved foldl fst snd]. rewrite (H r o) by (by left).
  apply IH. intros r' o' Hin. apply (H r' o'). by right.
Qed.

Lemma saved_frame P f m l a : (∀ r o, (r, o) ∈ l → ¬ (P + o ≤ a < P + o + 8)) → load8 (saved P f m l) a = load8 m a.
Proof.
  revert m. induction l as [|[r o] l IH]; intros m H; [done|]. simpl. etransitivity; [apply IH|].
  - intros r' o' Hin. apply (H r'). by right.
  - apply load8_store64_ne. apply (H r). by left.
Qed.

Lemma saved_keep P f m l o' : (∀ r o, (r, o) ∈ l → o + 8 ≤ o' ∨ o' + 8 ≤ o) → load64 (saved P f m l) (P + o') = load64 m (P + o').
Proof.
  intros H. apply load64_ext. intros a Ha. apply saved_frame. intros r o Hin. destruct (H r o Hin); lia.
Qed.

(** Slots in order that do not overlap. *)
Definition apart (l : list (reg * Z)) : Prop := StronglySorted (λ e e', e.2 + 8 ≤ e'.2) l.

Lemma apart_adjacent l : Sorted (λ e e', e.2 + 8 ≤ e'.2) l → apart l.
Proof. apply Sorted_StronglySorted. intros e1 e2 e3 H1 H2. lia. Qed.

Ltac sorted := apply apart_adjacent; repeat (constructor; simpl; try lia).
Ltac nodup := vm_compute; repeat (constructor; [let H := fresh in intros H; slots H|]); constructor.

Lemma saved_load P f m l r o : apart l → (r, o) ∈ l → 0 ≤ f r < 2 ^ 64 → load64 (saved P f m l) (P + o) = f r.
Proof.
  intros Hap Hin Hr. revert m. induction Hap as [|[r' o'] l Hap IH Hall]; intros m; [by apply not_elem_of_nil in Hin|].
  apply elem_of_cons in Hin as [[= <- <-]|Hin]; [|by apply IH].
  cbn [saved foldl fst snd]. etransitivity; [apply saved_keep|by apply load64_store64].
  intros r' o' Hin. right. by apply (proj1 (Forall_forall _ _) Hall (r', o')).
Qed.

Lemma loaded_rest P h l : mem (loaded P h l) = mem h ∧ csrs (loaded P h l) = csrs h ∧ priv (loaded P h l) = priv h ∧ pc (loaded P h l) = pc h.
Proof.
  revert h. induction l as [|[r o] l IH]; intros h; [done|]. simpl. apply (IH (set_reg r _ h)).
Qed.

Lemma loaded_other P h l r : r ∉ l.*1 → regs (loaded P h l) r = regs h r.
Proof.
  revert h. induction l as [|[r' o] l IH]; intros h Hr; [done|]. cbn [fmap list_fmap fst] in Hr. rewrite not_elem_of_cons in Hr.
  destruct Hr as [Hne Hr]. etransitivity; [apply IH, Hr|]. by apply set_reg_ne.
Qed.

Lemma loaded_reg P h l r o : NoDup l.*1 → (r, o) ∈ l → r ≠ zero → regs (loaded P h l) r = load64 (mem h) (P + o).
Proof.
  revert h. induction l as [|[r' o'] l IH]; intros h Hnd Hin Hz; [by apply not_elem_of_nil in Hin|].
  cbn [fmap list_fmap fst] in Hnd. apply NoDup_cons in Hnd as [Hn Hnd].
  apply elem_of_cons in Hin as [[= <- <-]|Hin].
  - etransitivity; [apply (loaded_other P (set_reg r _ h) l r Hn)|]. by apply set_reg_eq.
  - exact (IH (set_reg r' _ h) Hnd Hin Hz).
Qed.

(** A translation that does not depend on memory and mode. *)
Definition fixed (tr : access → Z → Z → option Z) : memory → mode → access → Z → Z → option Z := λ _ _, tr.

Section run.
Context (tr : access → Z → Z → option Z) (fn : Z → hart → option hart) (code : Z * Z).

Definition fetches (h : hart) : Prop := translate (fixed tr) Fetch h code.1 = Some code.2.

Lemma run_cons i l h h' : fetches h → exec_instr (fixed tr) fn i h = Some h' → leaves i = false → run_asm (fixed tr) fn code (i :: l) h = run_asm (fixed tr) fn code l h'.
Proof. intros Hf He Hl. cbn [run_asm]. rewrite bool_decide_true by done. rewrite He. simpl. by rewrite Hl. Qed.

Lemma run_last i l h h' : fetches h → exec_instr (fixed tr) fn i h = Some h' → leaves i = true → run_asm (fixed tr) fn code (i :: l) h = Some h'.
Proof. intros Hf He Hl. cbn [run_asm]. rewrite bool_decide_true by done. rewrite He. simpl. by rewrite Hl. Qed.

Lemma addr_ext acc h h' b o : priv h' = priv h → csrs h' satp = csrs h satp → regs h' b = regs h b → addr (fixed tr) acc h' b o = addr (fixed tr) acc h b o.
Proof. intros E1 E2 E3. unfold addr, translate, fixed. by rewrite E1, E2, E3. Qed.

Lemma fetches_ext h h' : priv h' = priv h → csrs h' satp = csrs h satp → fetches h → fetches h'.
Proof. intros E1 E2. unfold fetches, translate, fixed. by rewrite E1, E2. Qed.

Lemma run_save P b l k h : fetches h → (∀ r o, (r, o) ∈ l → addr (fixed tr) Store h b o = Some (P + o)) →
  run_asm (fixed tr) fn code (save b l ++ k) h = run_asm (fixed tr) fn code k (set_mem (saved P (regs h) (mem h) l) h).
Proof.
  revert h. induction l as [|[r o] l IH]; intros h Hf Ha; [by destruct h|].
  cbn [save fmap list_fmap app]. erewrite run_cons; [|done| |done].
  2:{ cbn [exec_instr fst snd]. rewrite (Ha r o) by (by left). simpl. reflexivity. }
  etransitivity; [apply (IH (set_mem _ h)); [done|]|done]. intros r' o' Hin. apply (Ha r'). by right.
Qed.

Lemma run_restore P b l k h : fetches h → (∀ r o, (r, o) ∈ l → addr (fixed tr) Load h b o = Some (P + o)) →
  (∀ o, (b, o) ∈ l → load64 (mem h) (P + o) = regs h b) →
  run_asm (fixed tr) fn code (restore b l ++ k) h = run_asm (fixed tr) fn code k (loaded P h l).
Proof.
  revert h. induction l as [|[r o] l IH]; intros h Hf Ha Hb; [done|].
  cbn [restore fmap list_fmap app]. erewrite run_cons; [|done| |done].
  2:{ cbn [exec_instr fst snd]. rewrite (Ha r o) by (by left). simpl. reflexivity. }
  assert (regs (set_reg r (load64 (mem h) (P + o)) h) b = regs h b) as Eb.
  { destruct (decide (b = r)) as [->|Hne]; [|by apply set_reg_ne]. simpl. case_decide; [|done]. apply Hb. by left. }
  etransitivity; [apply (IH (set_reg _ _ h)); [done| |]|done].
  - intros r' o' Hin. rewrite (addr_ext _ h) by done. apply (Ha r'). by right.
  - intros o' Hin. rewrite Eb. apply Hb. by right.
Qed.

End run.
