(* ===== verification/TrapAsm.v ===== *)
(** * Crossing between user and kernel

    The trampoline saves the registers of a user program in its trapframe and
    enters the kernel, and loads them again on the way back, which [usertrapret]
    of kernel/trap.c prepares. *)

From S2P Require Import Prelude Machine Kernel Proc Trap ProcAlloc FileRefs Riscv Asm.
Import Riscv.
Local Open Scope Z_scope.
Local Open Scope list_scope.

(** The trapframe without a0, which uservec saves last. *)
Definition tf_rest : list (reg * Z) := filter (λ e, e.1 ≠ a0) trapframe_slots.

Lemma tf_rest_apart : apart tf_rest.
Proof. unfold tf_rest. sorted. Qed.

Lemma tf_slot r o : (r, o) ∈ trapframe_slots → (r, o) ∈ tf_rest ∨ r = a0 ∧ o = 112.
Proof.
  intros Hin. destruct (decide (r = a0)) as [->|Hne].
  - right. split; [done|]. slots Hin.
  - left. apply list_elem_of_filter. by split.
Qed.

Section trampoline.
(** The page table [u] of the process maps the trampoline and the trapframe. *)
Context (tr : access → Z → Z → option Z) (fn : Z → hart → option hart) (tramp tf u : Z).
Hypothesis Hu : u ≠ 0.
Hypothesis Htramp : tr Fetch u TRAMPOLINE = Some tramp.
Hypothesis Htf : ∀ acc o, acc ≠ Fetch → 0 ≤ o < PGSIZE → tr acc u (TRAPFRAME + o) = Some (tf + o).
Let code := (TRAMPOLINE, tramp).

Lemma tf_addr acc h b o : acc ≠ Fetch → priv h = SMode → csrs h satp = u → regs h b = TRAPFRAME → o `mod` 8 = 0 → 0 ≤ o < PGSIZE →
  addr (fixed tr) acc h b o = Some (tf + o).
Proof.
  intros Hacc Hp Hs Hb H8 Ho. unfold addr, translate, fixed. rewrite Hp, Hs, Hb. rewrite decide_False by done.
  destruct (Z.eqb_spec u 0); [done|]. unfold PGSIZE in Ho.
  assert (u64 (TRAPFRAME + o) = TRAPFRAME + o ∧ (TRAPFRAME + o) `mod` 8 = 0) as [-> ->].
  { change TRAPFRAME with 274877898752. split; [apply u64_small; lia|dlia]. }
  simpl. by apply Htf.
Qed.

Lemma tf_fetch h : priv h = SMode → csrs h satp = u → fetches tr code h.
Proof.
  intros Hp Hs. unfold fetches, translate, fixed. rewrite Hp, Hs, decide_False by done. by destruct (Z.eqb_spec u 0).
Qed.

Lemma tf_rest_addr acc h b r o : acc ≠ Fetch → priv h = SMode → csrs h satp = u → regs h b = TRAPFRAME → (r, o) ∈ tf_rest → addr (fixed tr) acc h b o = Some (tf + o).
Proof.
  intros Hacc Hp Hs Hb Hin. assert (o `mod` 8 = 0 ∧ 0 ≤ o < PGSIZE) as [? ?]; [|by apply tf_addr].
  apply list_elem_of_filter in Hin as [_ Hin]. slots Hin.
Qed.

(** The fields of the trapframe that uservec loads. *)
Definition tf_kernel : list (reg * Z) := [(sp, tf_kernel_sp); (tp, tf_kernel_hartid); (t0, tf_kernel_trap); (t1, tf_kernel_satp)].

Lemma uservec_split : uservec = CSRRW a0 sscratch a0 :: save a0 tf_rest ++
  CSRR t0 sscratch :: SD t0 112 a0 :: restore a0 tf_kernel ++ [CSRW satp t1; SFENCE; JR t0].
Proof. reflexivity. Qed.

(** The memory that uservec leaves. *)
Definition tf_saved (h : hart) : memory :=
  store64 (saved tf (regs h) (mem h) tf_rest) (tf + 112) (regs h a0).

Lemma tf_saved_slot h r o : ranged h → (r, o) ∈ trapframe_slots → load64 (tf_saved h) (tf + o) = regs h r.
Proof.
  intros Hr Hin. unfold tf_saved. destruct (tf_slot r o Hin) as [Hrest|[-> ->]]; [|by apply load64_store64].
  rewrite load64_store64_ne; [apply saved_load; [apply tf_rest_apart|done|apply Hr]|].
  clear Hin. slots Hrest.
Qed.

Lemma tf_saved_frame h a : ¬ (tf + 40 ≤ a < tf + TF_SIZE) → load8 (tf_saved h) a = load8 (mem h) a.
Proof.
  intros Ha. unfold TF_SIZE in Ha. unfold tf_saved. rewrite load8_store64_ne by lia. apply saved_frame.
  intros r o Hin. slots Hin.
Qed.

Lemma tf_saved_kernel h o : 0 ≤ o ≤ 32 → load64 (tf_saved h) (tf + o) = load64 (mem h) (tf + o).
Proof. intros Ho. apply load64_ext. intros a Ha. apply tf_saved_frame. unfold TF_SIZE. lia. Qed.

(** uservec up to the point where the registers are saved. *)
Lemma uservec_saves h k : priv h = SMode → csrs h satp = u → csrs h sscratch = TRAPFRAME →
  run_asm (fixed tr) fn code (CSRRW a0 sscratch a0 :: save a0 tf_rest ++ CSRR t0 sscratch :: SD t0 112 a0 :: k) h =
  run_asm (fixed tr) fn code k (set_mem (tf_saved h) (set_reg t0 (regs h a0) (set_reg a0 TRAPFRAME (set_csr sscratch (regs h a0) h)))).
Proof.
  intros Hp Hs Hsc. set (h1 := set_reg a0 TRAPFRAME (set_csr sscratch (regs h a0) h)).
  assert (exec_instr (fixed tr) fn (CSRRW a0 sscratch a0) h = Some h1) as E by (cbn [exec_instr csr_read csr_write]; by rewrite Hsc).
  rewrite (run_cons _ _ _ _ _ _ _ (tf_fetch h Hp Hs) E eq_refl).
  assert (priv h1 = SMode ∧ csrs h1 satp = u ∧ csrs h1 sscratch = regs h a0 ∧ regs h1 a0 = TRAPFRAME ∧ mem h1 = mem h) as (Hp1 & Hs1 & Hc1 & Ha1 & Hm1) by done.
  assert (saved tf (regs h1) (mem h) tf_rest = saved tf (regs h) (mem h) tf_rest) as Es.
  { apply saved_ext. intros r o Hin. apply list_elem_of_filter in Hin as [Hne _]. exact (set_reg_ne a0 r TRAPFRAME (set_csr sscratch (regs h a0) h) Hne). }
  clearbody h1. rewrite (run_save _ _ _ tf); [|by apply tf_fetch|intros r o; by apply tf_rest_addr].
  rewrite Hm1, Es. unfold tf_saved. generalize (saved tf (regs h) (mem h) tf_rest). intros m1. set (h2 := set_mem m1 h1).
  assert (exec_instr (fixed tr) fn (CSRR t0 sscratch) h2 = Some (set_reg t0 (regs h a0) h2)) as E2.
  { cbn [exec_instr csr_read]. change (csrs h2 sscratch) with (csrs h1 sscratch). by rewrite Hc1. }
  rewrite (run_cons _ _ _ _ _ _ _ (tf_fetch h2 Hp1 Hs1) E2 eq_refl). set (h3 := set_reg t0 (regs h a0) h2).
  assert (exec_instr (fixed tr) fn (SD t0 112 a0) h3 = Some (set_mem (store64 m1 (tf + 112) (regs h a0)) h3)) as E3.
  { cbn [exec_instr]. by rewrite (tf_addr Store h3 a0 112 ltac:(done) Hp1 Hs1 Ha1). }
  by rewrite (run_cons _ _ _ _ _ _ _ (tf_fetch h3 Hp1 Hs1) E3 eq_refl).
Qed.

(** The rest of uservec, with the page table of the kernel at the end. *)
Lemma uservec_jumps h : let m := mem h in let k := load64 m (tf + tf_kernel_satp) in
  priv h = SMode → csrs h satp = u → regs h a0 = TRAPFRAME → k ≠ 0 → tr Fetch k TRAMPOLINE = Some tramp →
  ∃ h', run_asm (fixed tr) fn code (restore a0 tf_kernel ++ [CSRW satp t1; SFENCE; JR t0]) h = Some h' ∧
    priv h' = SMode ∧ pc h' = load64 m (tf + tf_kernel_trap) ∧ regs h' sp = load64 m (tf + tf_kernel_sp) ∧
    regs h' tp = load64 m (tf + tf_kernel_hartid) ∧ csrs h' satp = k ∧ (∀ c, c ≠ satp → csrs h' c = csrs h c) ∧ mem h' = m.
Proof.
  intros m k Hp Hs Ha0 Hk Htk. rewrite (run_restore _ _ _ tf); [|by apply tf_fetch| |].
  2:{ intros r o Hin. apply tf_addr; [done..| |]; slots Hin. }
  2:{ intros o Hin. slots Hin. }
  assert (∀ r o, (r, o) ∈ tf_kernel → regs (loaded tf h tf_kernel) r = load64 m (tf + o)) as Hl.
  { intros r o Hin. apply loaded_reg; [|done|].
    - unfold tf_kernel. simpl. repeat (constructor; [set_solver|]). constructor.
    - intros ->. slots Hin. }
  destruct (loaded_rest tf h tf_kernel) as (E1 & E2 & E3 & _). set (h5 := loaded tf h tf_kernel) in *. clearbody h5.
  assert (csrs h5 satp = u) as Hs5 by (by rewrite E2). assert (priv h5 = SMode) as Hp5 by (by rewrite E3).
  assert (regs h5 t1 = k) as Ek by (apply Hl; unfold tf_kernel; set_solver).
  rewrite (run_cons _ _ _ _ _ h5 (set_csr satp k h5)); [|by apply tf_fetch|cbn [exec_instr csr_write]; by rewrite Ek|done].
  assert (fetches tr code (set_csr satp k h5)) as Hf6.
  { unfold fetches, translate, fixed. cbn [set_csr priv csrs]. rewrite Hp5. rewrite decide_False by done.
    rewrite decide_True by done. by destruct (Z.eqb_spec k 0). }
  erewrite run_cons; [|done|reflexivity|done]. erewrite run_last; [|done|reflexivity|done].
  eexists. split; [done|]. split_and!; cbn [set_pc set_csr pc regs csrs mem priv].
  - done.
  - apply Hl. unfold tf_kernel. set_solver.
  - apply Hl. unfold tf_kernel. set_solver.
  - apply Hl. unfold tf_kernel. set_solver.
  - by rewrite decide_True.
  - intros c Hc. rewrite decide_False by done. by rewrite E2.
  - exact E1.
Qed.

(** What uservec leaves, started in the supervisor's mode with the page table of
    the user. *)
Lemma uservec_enters h : let m := mem h in let k := load64 m (tf + tf_kernel_satp) in
  priv h = SMode → csrs h satp = u → csrs h sscratch = TRAPFRAME → ranged h → k ≠ 0 → tr Fetch k TRAMPOLINE = Some tramp →
  ∃ h', run_asm (fixed tr) fn code uservec h = Some h' ∧
    priv h' = SMode ∧ pc h' = load64 m (tf + tf_kernel_trap) ∧ regs h' sp = load64 m (tf + tf_kernel_sp) ∧
    regs h' tp = load64 m (tf + tf_kernel_hartid) ∧
    csrs h' satp = k ∧ (∀ c, c ≠ satp → c ≠ sscratch → csrs h' c = csrs h c) ∧
    (∀ r o, (r, o) ∈ trapframe_slots → load64 (mem h') (tf + o) = regs h r) ∧
    ∀ a, ¬ (tf + 40 ≤ a < tf + TF_SIZE) → load8 (mem h') a = load8 m a.
Proof.
  intros m k Hp Hs Hsc Hr Hk Htk. rewrite uservec_split, uservec_saves by done.
  set (h1 := set_mem (tf_saved h) _).
  assert (∀ o, 0 ≤ o ≤ 32 → load64 (mem h1) (tf + o) = load64 m (tf + o)) as Hker by (intros o; apply tf_saved_kernel).
  assert (priv h1 = SMode ∧ csrs h1 satp = u ∧ regs h1 a0 = TRAPFRAME ∧ mem h1 = tf_saved h) as (Hp1 & Hs1 & Ha1 & Hm1) by done.
  assert (∀ c, c ≠ sscratch → csrs h1 c = csrs h c) as Hc1 by (intros c; apply set_csr_ne).
  clearbody h1. destruct (uservec_jumps h1) as (h' & -> & H1 & H2 & H3 & H4 & H5 & H6 & H7); try done.
  { rewrite Hker by done. done. }
  { rewrite Hker by done. done. }
  rewrite Hker in H2, H3, H4, H5 by done. exists h'. split_and!; try done.
  - intros c Hc Hc'. by rewrite H6, Hc1.
  - intros r o Hin. rewrite H7, Hm1. by apply tf_saved_slot.
  - intros a Ha. rewrite H7, Hm1. by apply tf_saved_frame.
Qed.

(** What userret does, started in the supervisor's mode with the page table of
    the kernel. *)
Lemma userret_split : userret = CSRW satp a1 :: SFENCE :: LD t0 112 a0 :: CSRW sscratch t0 ::
  restore a0 tf_rest ++ [CSRRW a0 sscratch a0; SRET].
Proof. reflexivity. Qed.

Lemma userret_leaves h : let m := mem h in
  priv h = SMode → (csrs h satp = 0 ∨ tr Fetch (csrs h satp) TRAMPOLINE = Some tramp) → csrs h satp ≠ 0 →
  regs h a0 = TRAPFRAME → regs h a1 = u →
  ∃ h', run_asm (fixed tr) fn code userret h = Some h' ∧
    priv h' = (if Z.testbit (csrs h mstatus) 8 then SMode else UMode) ∧ pc h' = csrs h sepc ∧ csrs h' satp = u ∧
    csrs h' sscratch = TRAPFRAME ∧ (∀ c, c ≠ satp → c ≠ sscratch → c ≠ mstatus → csrs h' c = csrs h c) ∧
    (∀ r o, (r, o) ∈ trapframe_slots → regs h' r = load64 m (tf + o)) ∧ mem h' = m.
Proof.
  intros m Hp Hk Hk0 Ha0 Ha1. rewrite userret_split.
  erewrite run_cons; [| |reflexivity|done].
  2:{ unfold fetches, translate, fixed. rewrite Hp, decide_False by done. destruct (Z.eqb_spec (csrs h satp) 0); [done|]. by destruct Hk. }
  set (h1 := csr_write satp _ h). assert (csrs h1 satp = u) as Hs1 by (unfold h1; simpl; by rewrite Ha1).
  erewrite run_cons; [|by apply tf_fetch|reflexivity|done].
  erewrite run_cons; [|by apply tf_fetch| |done].
  2:{ cbn [exec_instr]. rewrite (tf_addr Load h1 a0 112) by done. reflexivity. }
  set (h2 := set_reg t0 _ h1). erewrite run_cons; [|by apply tf_fetch|reflexivity|done].
  set (h3 := csr_write sscratch _ h2). assert (csrs h3 satp = u) as Hs3 by done.
  rewrite (run_restore _ _ _ tf); [|by apply tf_fetch|intros r o; by apply tf_rest_addr|].
  2:{ intros o Hin. slots Hin. }
  destruct (loaded_rest tf h3 tf_rest) as (E1 & E2 & E3 & E4). set (h4 := loaded tf h3 tf_rest) in *.
  assert (csrs h4 satp = u) as Hs4 by (by rewrite E2).
  assert (regs h4 a0 = TRAPFRAME) as E0.
  { unfold h4. rewrite loaded_other; [exact Ha0|]. intros Hin. slots Hin. }
  assert (priv h4 = SMode) as Hp4 by (by rewrite E3).
  assert (∀ r o, (r, o) ∈ tf_rest → regs h4 r = load64 m (tf + o)) as Hl.
  { intros r o Hin. assert (r ≠ zero) by (clear -Hin; slots Hin). unfold h4. rewrite (loaded_reg tf h3 tf_rest r o); [done| |done|done].
    nodup. }
  clearbody h4.
  erewrite run_cons; [|by apply tf_fetch|reflexivity|done]. set (h5 := set_reg a0 _ _).
  assert (csrs h5 satp = u) as Hs5 by done.
  erewrite run_last; [|by apply tf_fetch|reflexivity|done]. eexists. split; [done|]. split_and!.
  - simpl. by rewrite E2.
  - simpl. by rewrite E2.
  - simpl. done.
  - exact E0.
  - intros c Hc1 Hc2 Hc3. simpl. rewrite !decide_False by done. rewrite E2. simpl. by rewrite !decide_False.
  - intros r o Hin. destruct (tf_slot r o Hin) as [Hrest|[-> ->]].
    + assert (r ≠ a0) as Hr0 by (clear -Hrest; slots Hrest).
      etransitivity; [apply (set_reg_ne a0 r); done|]. by apply Hl.
    + simpl. rewrite E2. done.
  - simpl. by rewrite E1.
Qed.
End trampoline.

(** ** From usertrapret to user mode and back *)

Definition kmem (k : kernel) : memory := Kalloc.mem (kmach k).

(** The fields of the trapframe that usertrapret stores. *)
Definition tf_entry (tf satp_ sp_ trap hartid : Z) (m : memory) : memory :=
  store64 (store64 (store64 (store64 m (tf + tf_kernel_satp) satp_) (tf + tf_kernel_sp) sp_) (tf + tf_kernel_trap) trap)
    (tf + tf_kernel_hartid) hartid.

Lemma tf_entry_frame tf sa sp_ trap id m o : o = tf_epc ∨ 40 ≤ o →
  load64 (tf_entry tf sa sp_ trap id m) (tf + o) = load64 m (tf + o).
Proof.
  intros Ho. unfold tf_entry, tf_epc, tf_kernel_satp, tf_kernel_sp, tf_kernel_trap, tf_kernel_hartid in *.
  rewrite !load64_store64_ne by lia. done.
Qed.

Lemma tf_entry_fields tf sa sp_ trap id m :
  0 ≤ sa < 2 ^ 64 → 0 ≤ sp_ < 2 ^ 64 → 0 ≤ trap < 2 ^ 64 → 0 ≤ id < 2 ^ 64 → let m' := tf_entry tf sa sp_ trap id m in
  load64 m' (tf + tf_kernel_satp) = sa ∧ load64 m' (tf + tf_kernel_sp) = sp_ ∧
  load64 m' (tf + tf_kernel_trap) = trap ∧ load64 m' (tf + tf_kernel_hartid) = id.
Proof.
  intros H1 H2 H3 H4. unfold tf_entry, tf_kernel_satp, tf_kernel_sp, tf_kernel_trap, tf_kernel_hartid. cbv zeta.
  split_and!; repeat first [rewrite load64_store64 by done; done|rewrite load64_store64_ne by lia].
Qed.

(** The status with which [usertrapret] leaves the kernel. *)
Definition user_status (s : Z) : Z :=
  Z.lor (Z.land (Z.land s (Z.lnot Trap.SSTATUS_SIE)) (Z.lnot Trap.SSTATUS_SPP)) Trap.SSTATUS_SPIE.

Lemma usertrapret_runs `{Image} hw trap c k : (∀ w k, hw w k = Ret tt k) → let x := procs k (curproc k) in
  ∃ k', usertrapret hw trap c k = Ret (TRAMPOLINE + uservec_offset, user_status (Trap.r_sstatus c),
      load64 (kmem k) (trapframe x + tf_epc), MAKE_SATP (pagetable x)) k' ∧
    kmem k' = tf_entry (trapframe x) (Trap.r_satp c) (u64 (kstack x + PGSIZE)) trap (Trap.r_tp c) (kmem k).
Proof.
  intros Hw x. eexists. split.
  - unfold usertrapret. cbv zeta. erewrite bind_Ret by reflexivity. do 2 (erewrite bind_Ret by apply Hw).
    erewrite bind_Ret by reflexivity. fold x. do 4 (erewrite bind_Ret by reflexivity). erewrite bind_Ret by apply Hw.
    erewrite bind_Ret by reflexivity. erewrite bind_Ret by apply Hw.
    cbn [fst snd mret]. unfold mret, M_ret, user_status. f_equal. f_equal. f_equal.
    apply (tf_entry_frame (trapframe x) (Trap.r_satp c) (u64 (kstack x + PGSIZE)) trap (Trap.r_tp c) (kmem k) tf_epc). by left.
  - reflexivity.
Qed.

Lemma trap_s_user cause val h : priv h = UMode →
  let h' := trap_s cause val h in
  priv h' = SMode ∧ pc h' = csrs h stvec ∧ csrs h' sepc = pc h ∧ csrs h' scause = cause ∧ csrs h' stval = val ∧
  csrs h' satp = csrs h satp ∧ csrs h' sscratch = csrs h sscratch ∧
  Z.testbit (csrs h' mstatus) 8 = false ∧ Z.testbit (csrs h' mstatus) 1 = false ∧ regs h' = regs h ∧ mem h' = mem h.
Proof.
  intros Hp h'. split_and!; try done.
  - unfold h', trap_s. cbn [set_pc set_priv set_csr csrs]. rewrite decide_True by done. bits. rewrite Hp. done.
  - unfold h', trap_s. cbn [set_pc set_priv set_csr csrs]. rewrite decide_True by done. bits. apply andb_false_r.
Qed.

Lemma spp_clear h : Z.testbit (csrs h mstatus) 8 = false → Z.land (csr_read sstatus h) Trap.SSTATUS_SPP = 0.
Proof.
  intros Hb. apply Z.bits_inj'. intros i Hi. rewrite Z.bits_0. cbn [csr_read]. change Trap.SSTATUS_SPP with (bit true 8). bits.
  destruct (Z.eqb_spec i 8) as [->|]; [by rewrite Hb|]. rewrite !andb_false_r. done.
Qed.

(** The hart on which [usertrapret] ends: it has turned interrupts off, has
    written stvec, sstatus and sepc, and jumps to userret with the address of the
    trapframe and the page table. *)
Definition leaving (sv st epc u : Z) (h0 : hart) : hart :=
  let h := csr_write sstatus (Z.land (csr_read sstatus h0) (Z.lnot SSTATUS_SIE)) h0 in
  set_reg a1 u (set_reg a0 TRAPFRAME (csr_write sepc epc (csr_write sstatus st (csr_write stvec sv h)))).

Lemma MAKE_SATP_pos p : MAKE_SATP p ≠ 0.
Proof.
  intros E. assert (Z.testbit (MAKE_SATP p) 63 = true) as H; [|by rewrite E, Z.bits_0 in H].
  unfold MAKE_SATP, SATP_SV39. rewrite Z.lor_spec. done.
Qed.

Lemma leaving_status sv s epc u h0 : let m := csrs (leaving sv (user_status s) epc u h0) mstatus in
  Z.testbit m 8 = false ∧ Z.testbit m 1 = false.
Proof.
  intros m. change m with (merge sstatus_mask (merge sstatus_mask (csrs h0 mstatus)
    (Z.land (csr_read sstatus h0) (Z.lnot SSTATUS_SIE))) (user_status s)).
  rewrite !(merge_testbit sstatus_mask) by lia. change (Z.testbit sstatus_mask 8) with true.
  change (Z.testbit sstatus_mask 1) with true. cbn match. unfold user_status. rewrite !Z.lor_spec, !Z.land_spec.
  change (Z.testbit (Z.lnot Trap.SSTATUS_SPP) 8) with false. change (Z.testbit (Z.lnot Trap.SSTATUS_SIE) 1) with false.
  by rewrite !andb_false_r.
Qed.

(** Leaving the kernel and coming back, for a translation that maps the trampoline
    and the trapframe. *)
Lemma crossing_fixed `{Image} (tr : access → Z → Z → option Z) (fn : Z → hart → option hart) (hw : hw_write → M kernel unit) (tramp trap : Z) (c : Trap.csrs) (k : kernel) :
  let x := procs k (curproc k) in let tf := trapframe x in let u := MAKE_SATP (pagetable x) in
  let code := (TRAMPOLINE, tramp) in
  (∀ w k, hw w k = Ret tt k) →
  0 ≤ trap < 2 ^ 64 → 0 ≤ Trap.r_tp c < 2 ^ 64 → 0 < Trap.r_satp c < 2 ^ 64 →
  tr Fetch u TRAMPOLINE = Some tramp → (∀ acc o, acc ≠ Fetch → 0 ≤ o < PGSIZE → tr acc u (TRAPFRAME + o) = Some (tf + o)) →
  tr Fetch (Trap.r_satp c) TRAMPOLINE = Some tramp →
  ∃ sv st epc k', usertrapret hw trap c k = Ret (sv, st, epc, u) k' ∧ epc = load64 (kmem k) (tf + tf_epc) ∧
  ∀ h0, priv h0 = SMode → csrs h0 satp = Trap.r_satp c → mem h0 = kmem k' →
  Z.testbit (csrs (leaving sv st epc u h0) mstatus) 1 = false ∧
  ∃ h1, run_asm (fixed tr) fn code userret (leaving sv st epc u h0) = Some h1 ∧
    priv h1 = UMode ∧ pc h1 = Z.ldiff epc 1 ∧ csrs h1 satp = u ∧ mem h1 = kmem k' ∧
    (∀ r o, (r, o) ∈ trapframe_slots → regs h1 r = load64 (kmem k) (tf + o)) ∧
  ∀ h2 cause val, priv h2 = UMode → csrs h2 = csrs h1 → ranged h2 →
    (∀ a, tf ≤ a < tf + PGSIZE → load8 (mem h2) a = load8 (mem h1) a) →
  pc (trap_s cause val h2) = TRAMPOLINE + uservec_offset ∧
  ∃ h3, run_asm (fixed tr) fn code uservec (trap_s cause val h2) = Some h3 ∧
    priv h3 = SMode ∧ pc h3 = trap ∧ regs h3 sp = u64 (kstack x + PGSIZE) ∧ regs h3 tp = Trap.r_tp c ∧
    csrs h3 satp = Trap.r_satp c ∧ csrs h3 sepc = pc h2 ∧ csrs h3 scause = cause ∧ csrs h3 stval = val ∧
    Z.land (csr_read sstatus h3) Trap.SSTATUS_SPP = 0 ∧
    (∀ r o, (r, o) ∈ trapframe_slots → load64 (mem h3) (tf + o) = regs h2 r).
Proof.
  intros x tf u code Hw Htrap Htp Hsatp Htu Htf Htk. pose proof (MAKE_SATP_pos (pagetable x) : u ≠ 0) as Hu.
  destruct (usertrapret_runs hw trap c k Hw) as (k' & E & Em). fold x tf u in E, Em. do 4 eexists. split; [exact E|]. split; [done|].
  set (st := user_status _) in *. set (sv := TRAMPOLINE + uservec_offset) in *. set (epc := load64 (kmem k) _) in *. intros h0 Hp Hs Hm.
  destruct (leaving_status sv (Trap.r_sstatus c) epc u h0) as [L8 L1]. fold st in L8, L1. split; [exact L1|].
  destruct (userret_leaves tr fn tramp tf u Hu Htu Htf (leaving sv st epc u h0)) as (h1 & R1 & P1 & C1 & S1 & SC1 & O1 & G1 & M1); try done.
  { right. by rewrite <-Htk, <-Hs. }
  { change (csrs h0 satp ≠ 0). lia. }
  exists h1. split; [exact R1|]. assert (mem h1 = tf_entry tf (Trap.r_satp c) (u64 (kstack x + PGSIZE)) trap (Trap.r_tp c) (kmem k)) as Em1.
  { rewrite M1, <-Em. exact Hm. }
  assert (csrs h1 stvec = sv) as Hsv by (by rewrite O1).
  split_and!; [by rewrite P1, L8|done|done|by rewrite M1| |].
  { intros r o Hin. rewrite (G1 r o Hin). change (mem (leaving sv st epc u h0)) with (mem h0). rewrite Hm, Em. apply tf_entry_frame.
    right. clear -Hin. slots Hin. }
  clear R1 G1 E P1 C1 L8 L1. intros h2 cause val Hp2 Hc2 Hr2 Hpage.
  destruct (trap_s_user cause val h2 Hp2) as (T1 & T2 & T3 & T4 & T5 & T6 & T7 & T8 & _ & T10 & T11).
  set (ht := trap_s cause val h2) in *. clearbody ht. split; [by rewrite T2, Hc2|].
  assert (∀ o, 0 ≤ o ≤ 32 → load64 (mem ht) (tf + o) = load64 (mem h1) (tf + o)) as Hpg.
  { intros o Ho. rewrite T11. apply load64_ext. intros a Ha. apply Hpage. unfold PGSIZE. lia. }
  destruct (tf_entry_fields tf (Trap.r_satp c) (u64 (kstack x + PGSIZE)) trap (Trap.r_tp c) (kmem k)) as (F1 & F2 & F3 & F4);
    [lia|apply u64_range|done|done|]. rewrite <-Em1 in F1, F2, F3, F4. rewrite <-Hpg in F1, F2, F3, F4 by done.
  destruct (uservec_enters tr fn tramp tf u Hu Htu Htf ht) as (h3 & R3 & P3 & C3 & SP3 & TP3 & S3 & O3 & G3 & _).
  { done. }
  { by rewrite T6, Hc2. }
  { by rewrite T7, Hc2. }
  { unfold ranged. by rewrite T10. }
  { rewrite F1. lia. }
  { by rewrite F1. }
  exists h3. split; [done|]. rewrite F1 in S3. rewrite F2 in SP3. rewrite F3 in C3. rewrite F4 in TP3.
  split_and!; try done.
  - by rewrite O3.
  - by rewrite O3.
  - by rewrite O3.
  - apply spp_clear. by rewrite O3.
  - intros r o Hin. rewrite (G3 r o Hin). by rewrite T10.
Qed.
