(* ===== verification/SwitchAsm.v ===== *)
(** * Context switches and traps in the kernel

    kernel/swtch.S saves the registers of a thread in its context and loads those
    of another; a later switch back to the context restores them.
    kernel/kernelvec.S saves all registers around the call of [kerneltrap]. *)

From Stdlib Require Import Sorting.Sorted.
From S2P Require Import Prelude Machine Riscv Asm.
Import Riscv.
Local Open Scope Z_scope.
Local Open Scope list_scope.

(** An address range of the supervisor: [tr] maps it to [P]. *)
Definition mapped (tr : access → Z → Z → option Z) (h : hart) (va P n : Z) : Prop :=
  priv h = SMode ∧ va `mod` 8 = 0 ∧ 0 ≤ va ∧ va + n ≤ 2 ^ 64 ∧ ∀ acc o, acc ≠ Fetch → 0 ≤ o < n → translate (fixed tr) acc h (va + o) = Some (P + o).

Lemma mapped_addr tr acc h va P n b o : acc ≠ Fetch → mapped tr h va P n → regs h b = va → o `mod` 8 = 0 → 0 ≤ o < n → addr (fixed tr) acc h b o = Some (P + o).
Proof.
  intros Hacc (Hp & H8 & H0 & Hn & Htr) Hb Ho8 Ho. unfold addr. rewrite Hb, u64_small by lia.
  assert ((va + o) `mod` 8 = 0) as -> by dlia. simpl. by apply Htr.
Qed.

Lemma mapped_ext tr h h' va P n : priv h' = priv h → csrs h' satp = csrs h satp → mapped tr h va P n → mapped tr h' va P n.
Proof. intros E1 E2. unfold mapped, translate, fixed. by rewrite E1, E2. Qed.

(** ** swtch *)

Definition CONTEXT_SIZE : Z := 112.

Lemma context_apart : apart context_slots.
Proof. unfold context_slots. sorted. Qed.

Lemma context_slot r o : (r, o) ∈ context_slots → o `mod` 8 = 0 ∧ 0 ≤ o ∧ o + 8 ≤ CONTEXT_SIZE ∧ r ≠ zero ∧ r ≠ a0 ∧ r ≠ a1.
Proof. intros H. slots H. Qed.

Lemma context_nodup : NoDup context_slots.*1.
Proof. nodup. Qed.

Section swtch.
Context (tr : access → Z → Z → option Z) (fn : Z → hart → option hart) (code : Z * Z).

Lemma swtch_switches h old new pold pnew :
  fetches tr code h → ranged h → mapped tr h old pold CONTEXT_SIZE → mapped tr h new pnew CONTEXT_SIZE →
  regs h a0 = old → regs h a1 = new → pold + CONTEXT_SIZE ≤ pnew ∨ pnew + CONTEXT_SIZE ≤ pold →
  ∃ h', run_asm (fixed tr) fn code swtch h = Some h' ∧
    (∀ r o, (r, o) ∈ context_slots → load64 (mem h') (pold + o) = regs h r ∧ regs h' r = load64 (mem h) (pnew + o)) ∧
    pc h' = load64 (mem h) pnew ∧ (∀ r, r ∉ context_slots.*1 → regs h' r = regs h r) ∧ csrs h' = csrs h ∧ priv h' = priv h ∧
    ∀ a, ¬ (pold ≤ a < pold + CONTEXT_SIZE) → load8 (mem h') a = load8 (mem h) a.
Proof.
  intros Hf Hr Hold Hnew Ha0 Ha1 Hdis.
  change swtch with (save a0 context_slots ++ restore a1 context_slots ++ [JR ra]).
  rewrite (run_save _ _ _ pold); [|done|]; cycle 1.
  { intros r o Hin. destruct (context_slot r o Hin) as (? & ? & ? & _). eapply mapped_addr; [done|done|done|done|lia]. }
  set (h1 := set_mem _ h).
  assert (∀ r o, (r, o) ∈ context_slots → load64 (mem h1) (pold + o) = regs h r) as Hs.
  { intros r o Hin. apply saved_load; [apply context_apart|done|apply Hr]. }
  assert (∀ a, ¬ (pold ≤ a < pold + CONTEXT_SIZE) → load8 (mem h1) a = load8 (mem h) a) as Hfr.
  { intros a Ha. apply saved_frame. intros r o Hin. destruct (context_slot r o Hin) as (? & ? & ? & _). lia. }
  assert (regs h1 = regs h ∧ csrs h1 = csrs h ∧ priv h1 = priv h) as (Er & Ec & Ep) by done. clearbody h1.
  assert (fetches tr code h1) as Hf1 by (eapply fetches_ext; [done|by rewrite Ec|done]).
  rewrite (run_restore _ _ _ pnew); [|done| |]; cycle 1.
  { intros r o Hin. destruct (context_slot r o Hin) as (? & ? & ? & _).
    eapply mapped_addr; [done|eapply mapped_ext; [done|by rewrite Ec|done]|by rewrite Er|done|lia]. }
  { intros o Hin. by destruct (context_slot _ _ Hin) as (_ & _ & _ & _ & _ & ?). }
  pose proof (λ r, loaded_other pnew h1 context_slots r) as Hother.
  assert (∀ r o, (r, o) ∈ context_slots → regs (loaded pnew h1 context_slots) r = load64 (mem h) (pnew + o)) as Hl.
  { intros r o Hin. destruct (context_slot r o Hin) as (? & ? & ? & ? & _).
    rewrite (loaded_reg _ _ _ r o); [|apply context_nodup|done|done]. apply load64_ext. intros a Ha. apply Hfr. lia. }
  destruct (loaded_rest pnew h1 context_slots) as (E1 & E2 & E3 & _). set (h2 := loaded pnew h1 context_slots) in *. clearbody h2.
  erewrite run_last; [| |reflexivity|done]; [|eapply fetches_ext; [|by rewrite E2|done]; done].
  eexists. split; [done|]. cbn [set_pc mem regs pc csrs priv]. split_and!.
  - intros r o Hin. rewrite E1. split; [by apply Hs|by apply Hl].
  - rewrite <-(Z.add_0_r pnew). apply (Hl ra 0). by left.
  - intros r Hin. by rewrite (Hother r Hin), Er.
  - by rewrite E2.
  - by rewrite E3.
  - intros a Ha. rewrite E1. by apply Hfr.
Qed.

End swtch.

(** C27: A thread that switches away to another context gets its registers back by a
    switch to its own context, whatever ran in between, if that left the context
    alone. *)
Theorem swtch_roundtrip tr fn code h old new pold pnew :
  fetches tr code h → ranged h → mapped tr h old pold CONTEXT_SIZE → mapped tr h new pnew CONTEXT_SIZE →
  regs h a0 = old → regs h a1 = new → pold + CONTEXT_SIZE ≤ pnew ∨ pnew + CONTEXT_SIZE ≤ pold →
  ∃ h1, run_asm (fixed tr) fn code swtch h = Some h1 ∧ pc h1 = load64 (mem h) pnew ∧
    (∀ r o, (r, o) ∈ context_slots → regs h1 r = load64 (mem h) (pnew + o)) ∧
    (∀ a, ¬ (pold ≤ a < pold + CONTEXT_SIZE) → load8 (mem h1) a = load8 (mem h) a) ∧
  ∀ h2 old2 pold2,
    fetches tr code h2 → ranged h2 → mapped tr h2 old2 pold2 CONTEXT_SIZE → mapped tr h2 old pold CONTEXT_SIZE →
    regs h2 a0 = old2 → regs h2 a1 = old → pold2 + CONTEXT_SIZE ≤ pold ∨ pold + CONTEXT_SIZE ≤ pold2 →
    (∀ a, pold ≤ a < pold + CONTEXT_SIZE → load8 (mem h2) a = load8 (mem h1) a) →
    ∃ h3, run_asm (fixed tr) fn code swtch h2 = Some h3 ∧ pc h3 = regs h ra ∧ ∀ r, r ∈ context_slots.*1 → regs h3 r = regs h r.
Proof.
  intros Hf Hr Ho Hn Ha0 Ha1 Hd.
  destruct (swtch_switches tr fn code h old new pold pnew) as (h1 & E1 & S1 & P1 & _ & _ & _ & F1); try done.
  exists h1. split_and!; [done|done|intros r o Hin; by apply S1|done|].
  intros h2 old2 pold2 Hf2 Hr2 Ho2 Hn2 Hb0 Hb1 Hd2 Hm.
  destruct (swtch_switches tr fn code h2 old2 old pold2 pold) as (h3 & E3 & S3 & P3 & _); try done. exists h3.
  assert (∀ r o, (r, o) ∈ context_slots → load64 (mem h2) (pold + o) = regs h r) as Hld.
  { intros r o Hin. rewrite <-(proj1 (S1 r o Hin)). apply load64_ext. intros a Ha. apply Hm.
    destruct (context_slot r o Hin) as (_ & ? & ? & _). lia. }
  split_and!; [done| |].
  - rewrite P3, <-(Z.add_0_r pold). apply (Hld ra). by left.
  - intros r ([r' o] & -> & Hin)%list_elem_of_fmap. cbn [fst]. rewrite (proj2 (S3 r' o Hin)). by apply Hld.
Qed.

(** ** kernelvec *)

Definition FRAME_SIZE : Z := 256.

(** The registers that kernelvec restores: all but tp. *)
Definition frame_rest : list (reg * Z) := filter (λ e, e.1 ≠ tp) frame_slots.

Lemma frame_apart : apart frame_slots.
Proof. unfold frame_slots. sorted. Qed.

Lemma frame_slot r o : (r, o) ∈ frame_slots → o `mod` 8 = 0 ∧ 0 ≤ o ∧ o + 8 ≤ FRAME_SIZE ∧ r ≠ zero.
Proof. intros H. slots H. Qed.

Lemma frame_nodup : NoDup frame_rest.*1.
Proof. nodup. Qed.

Lemma frame_all r : r ≠ zero → r ≠ tp → ∃ o, (r, o) ∈ frame_rest.
Proof.
  intros Hz Ht. assert (r ∈ frame_slots.*1) as ([r' o] & -> & Hin)%list_elem_of_fmap.
  { apply (bool_decide_eq_true_1 _). by destruct r; try done. }
  exists o. by apply list_elem_of_filter.
Qed.

(** What a C function promises: it keeps the registers that the callee saves, the
    mode and the page table, and the memory of its caller's frame. *)
Record called (P : Z) (h h' : hart) : Prop := {
  ca_regs r : r ∈ [sp; gp; s0; s1; s2; s3; s4; s5; s6; s7; s8; s9; s10; s11] → regs h' r = regs h r;
  ca_priv : priv h' = priv h;
  ca_satp : csrs h' satp = csrs h satp;
  ca_frame a : P ≤ a < P + FRAME_SIZE → load8 (mem h') a = load8 (mem h) a
}.

Section kernelvec.
Context (tr : access → Z → Z → option Z) (fn : Z → hart → option hart) (code : Z * Z) (kt F P : Z).

(** The registers come back from the frame. *)
Lemma kernelvec_restores h2 (f : reg → Z) :
  fetches tr code h2 → mapped tr h2 F P FRAME_SIZE → regs h2 sp = F → f sp = F →
  (∀ r o, (r, o) ∈ frame_slots → load64 (mem h2) (P + o) = f r) →
  ∃ h', run_asm (fixed tr) fn code (restore sp frame_rest ++ [ADDI sp sp 256; SRET]) h2 = Some h' ∧
    regs h' sp = u64 (F + FRAME_SIZE) ∧ (∀ r, r ≠ zero → r ≠ tp → r ≠ sp → regs h' r = f r) ∧ regs h' tp = regs h2 tp ∧
    pc h' = csrs h2 sepc ∧ priv h' = (if Z.testbit (csrs h2 mstatus) 8 then SMode else UMode) ∧ mem h' = mem h2.
Proof.
  intros Hf Hm Hsp Hfsp Hld. rewrite (run_restore _ _ _ P); [|done| |]; cycle 1.
  { intros r o [_ Hin]%list_elem_of_filter. destruct (frame_slot r o Hin) as (? & ? & ? & _). eapply mapped_addr; [done|done|done|done|lia]. }
  { intros o [_ Hin]%list_elem_of_filter. rewrite (Hld sp o Hin). congruence. }
  assert (∀ r, r ≠ zero → r ≠ tp → regs (loaded P h2 frame_rest) r = f r) as Hl.
  { intros r Hz Ht. destruct (frame_all r Hz Ht) as [o Hin]. rewrite (loaded_reg _ _ _ r o); [|apply frame_nodup|done|done].
    apply list_elem_of_filter in Hin as [_ Hin]. by apply Hld. }
  assert (regs (loaded P h2 frame_rest) tp = regs h2 tp) as Htp.
  { apply loaded_other. intros Hin. slots Hin. }
  destruct (loaded_rest P h2 frame_rest) as (E1 & E2 & E3 & _). set (h3 := loaded P h2 frame_rest) in *. clearbody h3.
  assert (fetches tr code h3) as Hf3 by (eapply fetches_ext; [done|by rewrite E2|done]).
  erewrite run_cons; [|done|reflexivity|done]. erewrite run_last; [|exact Hf3|reflexivity|done]. eexists. split; [done|].
  cbn [sret set_pc set_priv set_csr regs csrs pc priv mem]. split_and!.
  - rewrite set_reg_eq by done. by rewrite Hl, Hfsp.
  - intros r Hz Ht Hs. rewrite set_reg_ne by done. by apply Hl.
  - by rewrite set_reg_ne.
  - simpl. by rewrite E2.
  - simpl. by rewrite E2.
  - exact E1.
Qed.

End kernelvec.

(** C28: A trap in the kernel leaves every register of the interrupted code as it was,
    except tp, which belongs to the hart that the thread runs on; the program
    counter, the mode and the rest of memory are what [kerneltrap] leaves. *)
Theorem kernelvec_preserves tr fn code kt h P :
  let F := regs h sp - FRAME_SIZE in
  fetches tr code h → ranged h → 0 ≤ F → mapped tr h F P FRAME_SIZE →
  (∀ h1, priv h1 = SMode → csrs h1 = csrs h → regs h1 sp = F → ∃ h2, fn kt h1 = Some h2 ∧ called P h1 h2) →
  ∃ h1 h2 h', run_asm (fixed tr) fn code (kernelvec kt) h = Some h' ∧ fn kt h1 = Some h2 ∧
    csrs h1 = csrs h ∧ (∀ a, ¬ (P ≤ a < P + FRAME_SIZE) → load8 (mem h1) a = load8 (mem h) a) ∧
    (∀ r, r ≠ zero → r ≠ tp → regs h' r = regs h r) ∧ regs h' tp = regs h2 tp ∧
    pc h' = csrs h2 sepc ∧ priv h' = (if Z.testbit (csrs h2 mstatus) 8 then SMode else UMode) ∧ mem h' = mem h2.
Proof.
  intros F Hf Hr HF Hm Hcall. pose proof (Hr sp) as Hsp.
  change (kernelvec kt) with (ADDI sp sp (-256) :: save sp frame_slots ++ CALL kt :: restore sp frame_rest ++ [ADDI sp sp 256; SRET]).
  assert (exec_instr (fixed tr) fn (ADDI sp sp (-256)) h = Some (set_reg sp F h)) as E0.
  { cbn [exec_instr]. f_equal. f_equal. rewrite u64_small; unfold F, FRAME_SIZE in *; lia. }
  rewrite (run_cons _ _ _ _ _ _ _ Hf E0 eq_refl). set (h0 := set_reg sp F h).
  assert (fetches tr code h0 ∧ mapped tr h0 F P FRAME_SIZE ∧ regs h0 sp = F ∧ csrs h0 = csrs h ∧ priv h0 = priv h ∧ mem h0 = mem h)
    as (Hf0 & Hm0 & Hs0 & Hc0 & Hp0 & Hmem0) by done.
  assert (∀ r, r ≠ sp → regs h0 r = regs h r) as Hr0 by (intros r; apply set_reg_ne). clearbody h0.
  assert (ranged h0) as Hrg.
  { intros r. destruct (decide (r = sp)) as [->|]; [rewrite Hs0; unfold F, FRAME_SIZE in *; lia|]. rewrite Hr0 by done. apply Hr. }
  rewrite (run_save _ _ _ P); [|done|]; cycle 1.
  { intros r o Hin. destruct (frame_slot r o Hin) as (? & ? & ? & _). eapply mapped_addr; [done|done|done|done|lia]. }
  set (h1 := set_mem _ h0).
  assert (∀ r o, (r, o) ∈ frame_slots → load64 (mem h1) (P + o) = regs h0 r) as Hsv.
  { intros r o Hin. apply saved_load; [apply frame_apart|done|apply Hrg]. }
  assert (∀ a, ¬ (P ≤ a < P + FRAME_SIZE) → load8 (mem h1) a = load8 (mem h) a) as Hfr.
  { intros a Ha. rewrite <-Hmem0. apply saved_frame. intros r o Hin. destruct (frame_slot r o Hin) as (? & ? & ? & _). lia. }
  assert (regs h1 = regs h0 ∧ csrs h1 = csrs h ∧ priv h1 = priv h) as (Er1 & Ec1 & Ep1) by done. clearbody h1.
  destruct (Hcall h1) as (h2 & E2 & [C1 C2 C3 C4]); [rewrite Ep1; apply Hm|done|by rewrite Er1|].
  assert (fetches tr code h1) as Hf1 by (eapply fetches_ext; [|by rewrite Ec1|exact Hf]; done).
  rewrite (run_cons tr fn code (CALL kt) _ h1 h2 Hf1 E2 eq_refl).
  destruct (kernelvec_restores tr fn code F P h2 (regs h0)) as (h' & E' & R1 & R2 & R3 & R4 & R5 & R6).
  - eapply fetches_ext; [|exact C3|exact Hf1]. done.
  - eapply mapped_ext; [| |exact Hm]; [by rewrite C2, Ep1|by rewrite C3, Ec1].
  - rewrite C1, Er1; [done|by left].
  - done.
  - intros r o Hin. rewrite <-(Hsv r o Hin). destruct (frame_slot r o Hin) as (? & ? & ? & _).
    apply load64_ext. intros a Ha. apply C4. lia.
  - exists h1, h2, h'. split_and!; try done. intros r Hz Ht. destruct (decide (r = sp)) as [->|Hne].
    + rewrite R1, u64_small; unfold F, FRAME_SIZE in *; lia.
    + rewrite R2 by done. by apply Hr0.
Qed.

(** ** Examples *)

Definition ex_direct (acc : access) (s va : Z) : option Z := Some va.

(** A hart of the kernel with the register file [f]. *)
Definition ex_hart (f : reg → Z) (m : memory) : hart := Hart f (λ c, if decide (c = satp) then 5 else 0) SMode 0 m.

Lemma ex_mapped f m va n : va `mod` 8 = 0 → 0 ≤ va → va + n ≤ 2 ^ 64 → mapped ex_direct (ex_hart f m) va va n.
Proof. intros H8 H0 Hn. by split_and!. Qed.

Definition ex_regs (r0 r1 : Z) (r : reg) : Z := if decide (r = a0) then r0 else if decide (r = a1) then r1 else if decide (r = sp) then 0x3000 else 9.

Lemma ex_ranged r0 r1 m : 0 ≤ r0 < 2 ^ 64 → 0 ≤ r1 < 2 ^ 64 → ranged (ex_hart (ex_regs r0 r1) m).
Proof. intros H0 H1 r. simpl. unfold ex_regs. repeat case_decide; lia. Qed.

Lemma swtch_roundtrip_witness :
  ∃ h1, run_asm (fixed ex_direct) (λ _ h, Some h) (0x80000000, 0x80000000) swtch (ex_hart (ex_regs 0x1000 0x2000) (λ _, 0)) = Some h1 ∧
    pc h1 = 0 ∧ ∃ h3, run_asm (fixed ex_direct) (λ _ h, Some h) (0x80000000, 0x80000000) swtch (ex_hart (ex_regs 0x2000 0x1000) (mem h1)) = Some h3 ∧
    pc h3 = 9 ∧ regs h3 sp = 0x3000.
Proof.
  assert (∀ m, ranged (ex_hart (ex_regs 0x2000 0x1000) m)) as Hr2 by (intros m; by apply ex_ranged).
  assert (∀ f m, mapped ex_direct (ex_hart f m) 0x1000 0x1000 CONTEXT_SIZE) as Hm1 by (intros f m; by apply ex_mapped).
  assert (∀ f m, mapped ex_direct (ex_hart f m) 0x2000 0x2000 CONTEXT_SIZE) as Hm2 by (intros f m; by apply ex_mapped).
  destruct (swtch_roundtrip ex_direct (λ _ h, Some h) (0x80000000, 0x80000000) (ex_hart (ex_regs 0x1000 0x2000) (λ _, 0)) 0x1000 0x2000 0x1000 0x2000)
    as (h1 & E1 & P1 & _ & _ & H); [reflexivity|by apply ex_ranged|apply Hm1|apply Hm2|reflexivity|reflexivity|left; discriminate|].
  exists h1. split; [exact E1|]. split; [exact P1|].
  destruct (H (ex_hart (ex_regs 0x2000 0x1000) (mem h1)) 0x2000 0x2000 eq_refl (Hr2 _) (Hm2 _ _) (Hm1 _ _) eq_refl eq_refl)
    as (h3 & E3 & P3 & H3); [right; discriminate|reflexivity|].
  exists h3. split; [exact E3|]. split; [exact P3|]. rewrite H3; [reflexivity|]. right. left.
Defined.

Lemma kernelvec_preserves_witness :
  ∃ h', run_asm (fixed ex_direct) (λ _ h, Some (set_reg t0 1 h)) (0x80000000, 0x80000000) (kernelvec 5) (ex_hart (ex_regs 1 2) (λ _, 0)) = Some h' ∧
    regs h' t0 = 9 ∧ regs h' sp = 0x3000.
Proof.
  destruct (kernelvec_preserves ex_direct (λ _ h, Some (set_reg t0 1 h)) (0x80000000, 0x80000000) 5 (ex_hart (ex_regs 1 2) (λ _, 0)) 0x2f00)
    as (_ & _ & h' & E & _ & _ & _ & H & _).
  - done.
  - by apply ex_ranged.
  - done.
  - by apply ex_mapped.
  - intros h1 Hp Hc Hs. exists (set_reg t0 1 h1). split; [done|]. split; [|done|done|done].
    intros r Hr. apply set_reg_ne. intros ->. slots Hr.
  - exists h'. split; [exact E|]. split; (rewrite H; [reflexivity|discriminate|discriminate]).
Defined.
