(* ===== verification/BootAsm.v ===== *)
(** * Booting a hart and its timer

    kernel/entry.S and kernel/start.c bring a hart from machine mode into [main];
    kernel/kernelvec.S turns the timer interrupts of the machine into software
    interrupts of the supervisor and asks for the next one. *)

From Stdlib Require Import Sorting.Sorted.
From S2P Require Import Prelude Machine Riscv Asm.
Import Riscv.
Local Open Scope Z_scope.
Local Open Scope list_scope.

(** ** timervec *)

Definition tv_saved : list (reg * Z) := [(a1, 0); (a2, 8); (a3, 16)].
Definition tv_args : list (reg * Z) := [(a1, 32); (a2, 40)].
Definition tv_back : list (reg * Z) := [(a3, 16); (a2, 8); (a1, 0)].

Lemma timervec_split : timervec = CSRRW a0 mscratch a0 :: save a0 tv_saved ++ restore a0 tv_args ++
  LD a3 0 a1 :: ADD a3 a3 a2 :: SD a3 0 a1 :: LI a1 2 :: CSRW sip a1 :: restore a0 tv_back ++ [CSRRW a0 mscratch a0; MRET].
Proof. reflexivity. Qed.

Lemma tv_saved_apart : apart tv_saved.
Proof. unfold tv_saved. sorted. Qed.

Section timervec.
Context (tr : access → Z → Z → option Z) (fn : Z → hart → option hart) (page : Z).
Let code := (page, page).

Lemma machine_addr acc h b o P : priv h = MMode → regs h b = P → P `mod` 8 = 0 → o `mod` 8 = 0 → 0 ≤ P + o < 2 ^ 64 →
  addr (fixed tr) acc h b o = Some (P + o).
Proof.
  intros Hp Hb H8 Ho Hr. unfold addr, translate, fixed. rewrite Hb, u64_small by lia. assert ((P + o) `mod` 8 = 0) as -> by dlia.
  simpl. by rewrite decide_True.
Qed.

Lemma machine_fetch h : priv h = MMode → fetches tr code h.
Proof. intros Hp. unfold fetches, translate, fixed. by rewrite decide_True. Qed.

(** The scratch area of the hart: [sc] is its address, [cmp] the address of the
    register that holds the time of the next interrupt. *)
Context (sc cmp : Z).
Hypothesis Hsc : sc `mod` 8 = 0 ∧ 0 ≤ sc ∧ sc + 48 ≤ 2 ^ 64.
Hypothesis Hcmp : cmp `mod` 8 = 0 ∧ 0 ≤ cmp ∧ cmp + 8 ≤ 2 ^ 64.
Hypothesis Hdis : cmp + 8 ≤ sc ∨ sc + 48 ≤ cmp.

(** The memory after the interrupt. *)
Definition tv_mem (f : reg → Z) (m : memory) : memory :=
  store64 (saved sc f m tv_saved) cmp (u64 (load64 m cmp + load64 m (sc + 40))).

Lemma tv_mem_keep f m a : ¬ (sc ≤ a < sc + 24) → ¬ (cmp ≤ a < cmp + 8) → load8 (tv_mem f m) a = load8 m a.
Proof.
  intros H1 H2. unfold tv_mem. rewrite load8_store64_ne by done. apply saved_frame. intros r o Hin. slots Hin.
Qed.

Lemma tv_mem_saved f m r o : (r, o) ∈ tv_saved → 0 ≤ f r < 2 ^ 64 → load64 (tv_mem f m) (sc + o) = f r.
Proof.
  intros Hin Hr. assert (0 ≤ o ≤ 16) by (clear -Hin; slots Hin). unfold tv_mem. rewrite load64_store64_ne by lia.
  apply saved_load; [apply tv_saved_apart|done|done].
Qed.

(** Up to the addresses that the scratch area holds. *)
Lemma timervec_begin h k : priv h = MMode → csrs h mscratch = sc → load64 (mem h) (sc + 32) = cmp →
  ∃ h', run_asm (fixed tr) fn code (CSRRW a0 mscratch a0 :: save a0 tv_saved ++ restore a0 tv_args ++ k) h = run_asm (fixed tr) fn code k h' ∧
    priv h' = MMode ∧ regs h' a0 = sc ∧ regs h' a1 = cmp ∧ regs h' a2 = load64 (mem h) (sc + 40) ∧
    (∀ r, r ∉ [a0; a1; a2] → regs h' r = regs h r) ∧ csrs h' mscratch = regs h a0 ∧
    (∀ c, c ≠ mscratch → csrs h' c = csrs h c) ∧ mem h' = saved sc (regs h) (mem h) tv_saved.
Proof.
  intros Hp Hms Hc. set (h1 := set_reg a0 sc (set_csr mscratch (regs h a0) h)).
  assert (exec_instr (fixed tr) fn (CSRRW a0 mscratch a0) h = Some h1) as E by (cbn [exec_instr csr_read csr_write]; by rewrite Hms).
  rewrite (run_cons _ _ _ _ _ _ _ (machine_fetch h Hp) E eq_refl).
  assert (priv h1 = MMode ∧ regs h1 a0 = sc ∧ csrs h1 mscratch = regs h a0 ∧ mem h1 = mem h ∧
    ∀ c, c ≠ mscratch → csrs h1 c = csrs h c) as (Hp1 & Ha1 & Hm1 & Em1 & Hc1).
  { split_and!; try done. intros c. apply set_csr_ne. }
  assert (∀ r, r ≠ a0 → regs h1 r = regs h r) as Hr1 by exact (λ r, set_reg_ne a0 r sc (set_csr mscratch (regs h a0) h)). clearbody h1.
  rewrite (run_save _ _ _ sc); [|by apply machine_fetch|]; cycle 1.
  { intros r o Hin. apply machine_addr; [done|done|apply Hsc|slots Hin|]. assert (0 ≤ o ≤ 16) by (slots Hin). lia. }
  assert (saved sc (regs h1) (mem h1) tv_saved = saved sc (regs h) (mem h) tv_saved) as ->.
  { rewrite Em1. apply saved_ext. intros r o Hin. apply Hr1. slots Hin. }
  set (m2 := saved sc (regs h) (mem h) tv_saved). set (h2 := set_mem m2 h1).
  assert (∀ o, 24 ≤ o → load64 m2 (sc + o) = load64 (mem h) (sc + o)) as Hk.
  { intros o Ho. apply load64_ext. intros a Ha. apply saved_frame. intros r o' Hin. assert (0 ≤ o' ≤ 16) by (slots Hin). lia. }
  clearbody m2. rewrite (run_restore _ _ _ sc); [|by apply machine_fetch| |]; cycle 1.
  { intros r o Hin. apply machine_addr; [done|done|apply Hsc|slots Hin|]. assert (0 ≤ o ≤ 40) by (slots Hin). lia. }
  { intros o Hin. slots Hin. }
  destruct (loaded_rest sc h2 tv_args) as (E1 & E2 & E3 & _).
  assert (∀ r o, (r, o) ∈ tv_args → regs (loaded sc h2 tv_args) r = load64 (mem h) (sc + o)) as Hl.
  { intros r o Hin. rewrite (loaded_reg _ _ _ r o); [apply Hk; clear -Hin; slots Hin|nodup|done|slots Hin]. }
  assert (∀ r, r ∉ tv_args.*1 → regs (loaded sc h2 tv_args) r = regs h1 r) as Ho by exact (λ r, loaded_other sc h2 tv_args r).
  exists (loaded sc h2 tv_args). split; [done|]. rewrite E3, E2, E1. split_and!.
  - done.
  - rewrite Ho; [done|]. intros Hin. slots Hin.
  - rewrite (Hl a1 32); [done|]. left.
  - apply (Hl a2 40). right. left.
  - intros r Hin. rewrite !not_elem_of_cons in Hin. destruct Hin as (Hn0 & Hn1 & Hn2 & _). rewrite Ho; [by apply Hr1|].
    cbn [tv_args fmap list_fmap fst]. rewrite !not_elem_of_cons. split_and!; try done. apply not_elem_of_nil.
  - done.
  - done.
  - done.
Qed.

(** The next interrupt is asked for, and the supervisor is told. *)
Lemma timervec_middle h k : priv h = MMode → regs h a1 = cmp →
  let m := store64 (mem h) cmp (u64 (load64 (mem h) cmp + regs h a2)) in
  ∃ h', run_asm (fixed tr) fn code (LD a3 0 a1 :: ADD a3 a3 a2 :: SD a3 0 a1 :: LI a1 2 :: CSRW sip a1 :: k) h = run_asm (fixed tr) fn code k h' ∧
    priv h' = MMode ∧ (∀ r, r ∉ [a1; a3] → regs h' r = regs h r) ∧
    csrs h' mip = merge (Z.land (csrs h mideleg) SIE_SSIE) (csrs h mip) 2 ∧ (∀ c, c ≠ mip → csrs h' c = csrs h c) ∧ mem h' = m.
Proof.
  intros Hp Ha1 m. set (v := load64 (mem h) cmp) in *.
  assert (∀ acc h, priv h = MMode → regs h a1 = cmp → addr (fixed tr) acc h a1 0 = Some cmp) as Had.
  { intros acc h0 Hp0 Hr0. rewrite <-(Z.add_0_r cmp). apply machine_addr; [done|done|apply Hcmp|done|lia]. }
  assert (exec_instr (fixed tr) fn (LD a3 0 a1) h = Some (set_reg a3 v h)) as E by (cbn [exec_instr]; by rewrite Had).
  rewrite (run_cons _ _ _ _ _ _ _ (machine_fetch h Hp) E eq_refl). set (h1 := set_reg a3 v h).
  rewrite (run_cons tr fn code (ADD a3 a3 a2) _ h1 (set_reg a3 (u64 (v + regs h a2)) h1) (machine_fetch h1 Hp) eq_refl eq_refl).
  set (h2 := set_reg a3 (u64 (v + regs h a2)) h1).
  assert (exec_instr (fixed tr) fn (SD a3 0 a1) h2 = Some (set_mem m h2)) as E2.
  { cbn [exec_instr]. rewrite Had by done. reflexivity. }
  rewrite (run_cons _ _ _ _ _ _ _ (machine_fetch h2 Hp) E2 eq_refl). set (h3 := set_mem m h2).
  rewrite (run_cons tr fn code (LI a1 2) _ h3 (set_reg a1 2 h3) (machine_fetch h3 Hp) eq_refl eq_refl). set (h4 := set_reg a1 2 h3).
  rewrite (run_cons tr fn code (CSRW sip a1) _ h4 (csr_write sip 2 h4) (machine_fetch h4 Hp) eq_refl eq_refl).
  exists (csr_write sip 2 h4). split_and!; [done|done| |done| |done].
  - intros r Hr. rewrite !not_elem_of_cons in Hr. destruct Hr as (H1 & H3 & _).
    cbn [csr_write set_csr regs]. unfold h4, h3, h2, h1. rewrite set_reg_ne by done. cbn [set_mem regs]. by rewrite !set_reg_ne.
  - intros c Hc. cbn [csr_write]. by rewrite set_csr_ne.
Qed.

(** The registers come back. *)
Lemma timervec_end h (f : reg → Z) v : priv h = MMode → regs h a0 = sc → csrs h mscratch = v →
  (∀ r o, (r, o) ∈ tv_saved → load64 (mem h) (sc + o) = f r) →
  ∃ h', run_asm (fixed tr) fn code (restore a0 tv_back ++ [CSRRW a0 mscratch a0; MRET]) h = Some (mret_ h') ∧
    (∀ r, r ∈ [a1; a2; a3] → regs h' r = f r) ∧ regs h' a0 = v ∧ (∀ r, r ∉ [a0; a1; a2; a3] → regs h' r = regs h r) ∧
    csrs h' mscratch = sc ∧ (∀ c, c ≠ mscratch → csrs h' c = csrs h c) ∧ mem h' = mem h.
Proof.
  intros Hp Ha0 Hms Hs. rewrite (run_restore _ _ _ sc); [|by apply machine_fetch| |]; cycle 1.
  { intros r o Hin. apply machine_addr; [done|done|apply Hsc|slots Hin|]. assert (0 ≤ o ≤ 16) by (slots Hin). lia. }
  { intros o Hin. slots Hin. }
  destruct (loaded_rest sc h tv_back) as (E1 & E2 & E3 & _).
  assert (∀ r, r ∈ [a1; a2; a3] → regs (loaded sc h tv_back) r = f r) as Hl.
  { assert (∀ r o, (r, o) ∈ tv_back → regs (loaded sc h tv_back) r = f r) as Hl.
    { intros r o Hin. rewrite (loaded_reg _ _ _ r o); [|nodup|done|slots Hin]. apply Hs. unfold tv_saved. clear -Hin.
      repeat (apply elem_of_cons in Hin as [[= -> ->]|Hin]; [set_solver|]). by apply not_elem_of_nil in Hin. }
    pose proof (Hl a1 0 ltac:(do 2 right; left)). pose proof (Hl a2 8 ltac:(right; left)). pose proof (Hl a3 16 ltac:(left)).
    intros r Hr. repeat (apply elem_of_cons in Hr as [->|Hr]; [done|]). by apply not_elem_of_nil in Hr. }
  assert (∀ r, r ∉ tv_back.*1 → regs (loaded sc h tv_back) r = regs h r) as Ho by exact (λ r, loaded_other sc h tv_back r).
  set (h1 := loaded sc h tv_back) in *. clearbody h1.
  assert (regs h1 a0 = sc) as Ha by (rewrite Ho; [done|intros Hin; slots Hin]).
  assert (priv h1 = MMode) as Hp1 by (by rewrite E3).
  assert (exec_instr (fixed tr) fn (CSRRW a0 mscratch a0) h1 = Some (set_reg a0 v (set_csr mscratch sc h1))) as E.
  { cbn [exec_instr csr_read csr_write]. by rewrite E2, Hms, Ha. }
  rewrite (run_cons _ _ _ _ _ _ _ (machine_fetch h1 Hp1) E eq_refl).
  rewrite (run_last tr fn code MRET _ _ _ (machine_fetch (set_reg a0 v (set_csr mscratch sc h1)) Hp1) eq_refl eq_refl).
  eexists. split; [done|]. split_and!.
  - intros r Hr. rewrite set_reg_ne; [by apply Hl|]. intros ->. slots Hr.
  - by rewrite set_reg_eq.
  - intros r Hr. rewrite !not_elem_of_cons in Hr. destruct Hr as (H0 & H1 & H2 & H3 & _). rewrite set_reg_ne by done. apply Ho.
    cbn [tv_back fmap list_fmap fst]. rewrite !not_elem_of_cons. split_and!; try done. apply not_elem_of_nil.
  - done.
  - intros c Hc. change (csrs (set_csr mscratch sc h1) c = csrs h c). by rewrite set_csr_ne, E2.
  - exact E1.
Qed.

(** The handler as a whole: it ends with [mret] in a state in which all registers
    are those of the interrupted code. *)
Lemma timervec_ticks h : priv h = MMode → ranged h → csrs h mscratch = sc → load64 (mem h) (sc + 32) = cmp →
  ∃ h', run_asm (fixed tr) fn code timervec h = Some (mret_ h') ∧ (∀ r, regs h' r = regs h r) ∧
    csrs h' mip = merge (Z.land (csrs h mideleg) SIE_SSIE) (csrs h mip) 2 ∧ (∀ c, c ≠ mip → csrs h' c = csrs h c) ∧
    mem h' = tv_mem (regs h) (mem h).
Proof.
  intros Hp Hr Hms Hc. rewrite timervec_split.
  destruct (timervec_begin h (LD a3 0 a1 :: ADD a3 a3 a2 :: SD a3 0 a1 :: LI a1 2 :: CSRW sip a1 :: restore a0 tv_back ++ [CSRRW a0 mscratch a0; MRET]))
    as (h1 & -> & P1 & A0 & A1 & A2 & R1 & M1 & C1 & E1); [done..|].
  destruct (timervec_middle h1 (restore a0 tv_back ++ [CSRRW a0 mscratch a0; MRET])) as (h2 & -> & P2 & R2 & M2 & C2 & E2); [done..|].
  assert (load64 (saved sc (regs h) (mem h) tv_saved) cmp = load64 (mem h) cmp) as Ecmp.
  { apply load64_ext. intros a Ha. apply saved_frame. intros r o Hin. assert (0 ≤ o ≤ 16) by (clear -Hin; slots Hin). lia. }
  assert (mem h2 = tv_mem (regs h) (mem h)) as Em by (rewrite E2, E1, A2, Ecmp; reflexivity).
  assert (∀ r, r ∉ [a1; a3] → r ∉ [a0; a1; a2] → regs h2 r = regs h r) as Hr2 by (intros r Hr' Hr''; by rewrite R2, R1).
  destruct (timervec_end h2 (regs h) (regs h a0)) as (h3 & -> & Rf & Ra & Ro & Ms & Cs & Es).
  - done.
  - rewrite R2; [done|]. intros Hin. slots Hin.
  - by rewrite C2.
  - intros r o Hin. rewrite Em. apply tv_mem_saved; [done|apply Hr].
  - exists h3. split_and!; [done| | | |by rewrite Es].
    + intros r. destruct (decide (r ∈ [a1; a2; a3])) as [Hin|Hin]; [by apply Rf|].
      destruct (decide (r = a0)) as [->|Hne]; [done|]. rewrite !not_elem_of_cons in Hin. destruct Hin as (H1 & H2 & H3 & _).
      rewrite Ro by (rewrite !not_elem_of_cons; split_and!; try done; apply not_elem_of_nil).
      apply Hr2; rewrite !not_elem_of_cons; split_and!; try done; apply not_elem_of_nil.
    + rewrite Cs, M2, !C1 by done. done.
    + intros c Hm. destruct (decide (c = mscratch)) as [->|Hne]; [by rewrite Ms|]. by rewrite Cs, C2, C1.
Qed.

End timervec.

(** ** Interrupts of the machine's timer *)

(** The bits 11 and 12 of [s] as a number. *)
Lemma mpp_field s n : 0 ≤ n < 4 → Z.testbit s 11 = Z.testbit n 0 → Z.testbit s 12 = Z.testbit n 1 → Z.land (Z.shiftr s 11) 3 = n.
Proof.
  intros Hn E0 E1. apply Z.bits_inj'. intros i Hi. rewrite Z.land_spec, Z.shiftr_spec by lia.
  destruct (decide (i = 0)) as [->|]; [rewrite Z.add_0_l, E0; apply andb_true_r|].
  destruct (decide (i = 1)) as [->|]; [change (1 + 11) with 12; rewrite E1; apply andb_true_r|].
  rewrite (Z.bits_above_log2 3 i), (Z.bits_above_log2 n i); [apply andb_false_r|lia| |lia|].
  - destruct (decide (n = 0)) as [->|]; [simpl; lia|]. apply (Z.le_lt_trans _ (Z.log2 3)); [apply Z.log2_le_mono; lia|simpl; lia].
  - simpl. lia.
Qed.

(** The status bits that an interrupt and its return leave alone. *)
Lemma trap_m_mret (h h' : hart) : priv h ≠ MMode → csrs h' mstatus = csrs (trap_m h) mstatus →
  priv (mret_ h') = priv h ∧ ∀ i, 0 ≤ i → i ∉ [7; 11; 12] → Z.testbit (csrs (mret_ h') mstatus) i = Z.testbit (csrs h mstatus) i.
Proof.
  intros Hp E.
  assert (∀ i, 0 ≤ i → Z.testbit (csrs h' mstatus) i =
    if i =? 3 then false else if i =? 7 then Z.testbit (csrs h mstatus) 3
    else if (i =? 11) || (i =? 12) then Z.testbit (mode_num (priv h)) (i - 11) else Z.testbit (csrs h mstatus) i) as Hb.
  { intros i Hi. rewrite E. unfold trap_m. cbn [set_pc set_priv set_csr csrs]. rewrite decide_True by done. bits.
    assert (Z.testbit MSTATUS_MPP_MASK i = (i =? 11) || (i =? 12)) as ->.
    { unfold MSTATUS_MPP_MASK. rewrite Z.shiftl_spec by lia. destruct (Z.eqb_spec i 11) as [->|]; [done|].
      destruct (Z.eqb_spec i 12) as [->|]; [done|]. destruct (Z.lt_ge_cases i 11); [rewrite Z.testbit_neg_r by lia; done|].
      simpl. rewrite (Z.bits_above_log2 3) by (simpl; lia). done. }
    rewrite Z.shiftl_spec by lia. destruct (Z.eqb_spec i 3) as [->|]; [simpl; by rewrite andb_false_r|]. rewrite andb_true_r.
    destruct (Z.eqb_spec i 7) as [->|]; [simpl; by rewrite andb_true_r|]. simpl. by destruct ((i =? 11) || (i =? 12)). }
  split.
  - unfold mret_. cbn [set_pc set_priv priv]. rewrite (mpp_field _ (mode_num (priv h))); [by destruct (priv h)|by destruct (priv h)| |]; by rewrite Hb.
  - intros i Hi Hn. rewrite !not_elem_of_cons in Hn. destruct Hn as (H7 & H11 & H12 & _).
    unfold mret_. cbn [set_pc set_priv set_csr csrs]. rewrite decide_True by done. bits.
    assert (Z.testbit MSTATUS_MPP_MASK i = false) as ->.
    { unfold MSTATUS_MPP_MASK. rewrite Z.shiftl_spec by lia. destruct (Z.lt_ge_cases i 11); [rewrite Z.testbit_neg_r by lia; done|].
      rewrite (Z.bits_above_log2 3) by (simpl; lia). done. }
    rewrite !Hb by lia. destruct (Z.eqb_spec i 3) as [->|]; [simpl; by rewrite ?andb_true_r, ?orb_false_r, ?andb_true_r|]. destruct (Z.eqb_spec i 7); [lia|].
    destruct (Z.eqb_spec i 11); [lia|]. destruct (Z.eqb_spec i 12); [lia|]. simpl. by rewrite orb_false_r, andb_true_r.
Qed.

Definition NCPU : Z := 8.

(** The scratch area of a hart, [mscratch0] being the array of start.c. *)
Definition scratch (mscratch0 id : Z) : Z := mscratch0 + 8 * (32 * id).

(** The hart is set up for the interrupts of its timer. *)
Record timer_ready (tvec mscratch0 id : Z) (h : hart) : Prop := {
  tm_vec : csrs h mtvec = tvec;
  tm_scratch : csrs h mscratch = scratch mscratch0 id;
  tm_cmp : load64 (mem h) (scratch mscratch0 id + 32) = CLINT_MTIMECMP id;
  tm_interval : load64 (mem h) (scratch mscratch0 id + 40) = 1000000;
  tm_enabled : Z.testbit (csrs h mie) 7 = true;
  tm_delegated : Z.testbit (csrs h mideleg) 1 = true
}.

(** Where the linker places the scratch areas. *)
Definition scratch_ok (mscratch0 : Z) : Prop := mscratch0 `mod` 8 = 0 ∧ KERNBASE ≤ mscratch0 ∧ mscratch0 + 8 * (32 * NCPU) ≤ PHYSTOP.

Lemma scratch_range mscratch0 id : scratch_ok mscratch0 → 0 ≤ id < NCPU → let sc := scratch mscratch0 id in let cmp := CLINT_MTIMECMP id in
  (sc `mod` 8 = 0 ∧ 0 ≤ sc ∧ sc + 48 ≤ 2 ^ 64) ∧ (cmp `mod` 8 = 0 ∧ 0 ≤ cmp ∧ cmp + 8 ≤ 2 ^ 64) ∧ cmp + 8 ≤ sc.
Proof.
  intros (H8 & Hb & He) Hid. unfold scratch, CLINT_MTIMECMP, CLINT, NCPU, PHYSTOP, KERNBASE in *.
  split_and!; try lia; dlia.
Qed.

(** C29: An interrupt of the timer, from user or supervisor mode: the handler returns
    to the interrupted instruction and mode with all registers and all status
    bits as they were but those of the machine's own stack; a software interrupt
    of the supervisor is pending, the next interrupt comes one interval later,
    and the timer is still set up.  No other memory changes. *)
Theorem timer_interrupt tr fn page tvec mscratch0 id h :
  scratch_ok mscratch0 → 0 ≤ id < NCPU → timer_ready tvec mscratch0 id h → priv h ≠ MMode → ranged h →
  ∃ h', run_asm (fixed tr) fn (page, page) timervec (trap_m h) = Some h' ∧
    pc h' = pc h ∧ priv h' = priv h ∧ (∀ r, regs h' r = regs h r) ∧
    (∀ i, 0 ≤ i → i ∉ [7; 11; 12] → Z.testbit (csrs h' mstatus) i = Z.testbit (csrs h mstatus) i) ∧
    Z.testbit (csr_read sip h') 1 = true ∧
    load64 (mem h') (CLINT_MTIMECMP id) = u64 (load64 (mem h) (CLINT_MTIMECMP id) + 1000000) ∧
    timer_ready tvec mscratch0 id h' ∧
    ∀ a, ¬ (scratch mscratch0 id ≤ a < scratch mscratch0 id + 24) → ¬ (CLINT_MTIMECMP id ≤ a < CLINT_MTIMECMP id + 8) →
      load8 (mem h') a = load8 (mem h) a.
Proof.
  intros Hok Hid [V S C I E D] Hp Hr. destruct (scratch_range mscratch0 id Hok Hid) as (Hsc & Hcmp & Hdis).
  set (sc := scratch mscratch0 id) in *. set (cmp := CLINT_MTIMECMP id) in *.
  destruct (timervec_ticks tr fn page sc cmp Hsc Hcmp (or_introl Hdis) (trap_m h)) as (h' & R & Hregs & Hmip & Hcsr & Hmem); [done|done|done|done|].
  change (mem (trap_m h)) with (mem h) in Hmem. change (regs (trap_m h)) with (regs h) in *.
  change (csrs (trap_m h) mideleg) with (csrs h mideleg) in Hmip. change (csrs (trap_m h) mip) with (csrs h mip) in Hmip.
  destruct (trap_m_mret h h' Hp (Hcsr mstatus ltac:(done))) as [Hpriv Hstatus].
  assert (∀ o, 24 ≤ o → o + 8 ≤ 48 → load64 (mem h') (sc + o) = load64 (mem h) (sc + o)) as Hkeep.
  { intros o Ho Ho'. rewrite Hmem. apply load64_ext. intros a Ha. apply tv_mem_keep; lia. }
  assert (load64 (mem h') cmp = u64 (load64 (mem h) cmp + 1000000)) as Hnext.
  { rewrite Hmem. unfold tv_mem. rewrite load64_store64 by apply u64_range. by rewrite I. }
  exists (mret_ h'). split_and!.
  - done.
  - change (csrs h' mepc = pc h). by rewrite Hcsr.
  - done.
  - exact Hregs.
  - exact Hstatus.
  - change (csr_read sip (mret_ h')) with (Z.land (csrs h' mip) (csrs h' mideleg)). rewrite Hmip, (Hcsr mideleg) by done. bits.
    change (csrs (trap_m h) mideleg) with (csrs h mideleg). rewrite Z.land_spec. by rewrite D.
  - exact Hnext.
  - split; [change (csrs h' mtvec = tvec); by rewrite Hcsr|change (csrs h' mscratch = sc); by rewrite Hcsr|change (mem (mret_ h')) with (mem h')..| |].
    + by rewrite Hkeep.
    + by rewrite Hkeep.
    + change (Z.testbit (csrs h' mie) 7 = true). by rewrite Hcsr.
    + change (Z.testbit (csrs h' mideleg) 1 = true). by rewrite Hcsr.
  - intros a H1 H2. change (mem (mret_ h')) with (mem h'). rewrite Hmem. by apply tv_mem_keep.
Qed.

(** ** entry.S and start.c *)

(** [start] as a routine that the code of entry.S calls. *)
Definition start_fn (start_addr main tvec mscratch0 : Z) (f : Z) (h : hart) : option hart :=
  if f =? start_addr then match start main tvec mscratch0 h with Ret _ h' => Some h' | _ => None end else None.

(** The status and the interrupts that [start] leaves. *)
Lemma start_mode x s : s = Z.lor (Z.lor (Z.land x (Z.lnot MSTATUS_MPP_MASK)) MSTATUS_MPP_S) MSTATUS_MIE →
  num_mode (Z.land (Z.shiftr s 11) 3) = SMode.
Proof.
  intros ->. rewrite (mpp_field _ 1); [done|lia| |]; rewrite !Z.lor_spec, Z.land_spec.
  - change (Z.testbit MSTATUS_MPP_S 11) with true. by rewrite orb_true_r.
  - change (Z.testbit (Z.lnot MSTATUS_MPP_MASK) 12) with false. by rewrite andb_false_r.
Qed.

Lemma start_sie x : let y := Z.land x delegable in
  Z.land (Z.lor (merge delegable x (Z.lor (Z.lor (Z.lor y SIE_SEIE) SIE_STIE) SIE_SSIE)) MIE_MTIE) delegable = delegable.
Proof.
  intros y. apply Z.bits_inj'. intros i Hi. rewrite Z.land_spec, Z.lor_spec, merge_testbit by lia.
  destruct (Z.testbit delegable i) eqn:E; [|apply andb_false_r]. rewrite andb_true_r, !Z.lor_spec.
  unfold delegable in E. rewrite !Z.lor_spec in E. destruct (Z.testbit SIE_SEIE i), (Z.testbit SIE_STIE i), (Z.testbit SIE_SSIE i); try done;
    by rewrite ?orb_true_r.
Qed.

Section boot.
Context (main tvec mscratch0 id : Z).
Hypothesis Hok : scratch_ok mscratch0.
Hypothesis Hid : 0 ≤ id < NCPU.

(** The memory that [start] leaves. *)
Definition start_mem (m : memory) : memory :=
  store64 (store64 (store64 m (CLINT_MTIMECMP id) (u64 (load64 m CLINT_MTIME + 1000000)))
    (scratch mscratch0 id + 32) (CLINT_MTIMECMP id)) (scratch mscratch0 id + 40) 1000000.

Lemma timerinit_runs h : csrs h mhartid = id →
  timerinit tvec mscratch0 h = Ret tt (set_csr mie (Z.lor (csrs h mie) MIE_MTIE) (set_csr mstatus (Z.lor (csrs h mstatus) MSTATUS_MIE)
    (set_csr mtvec tvec (set_csr mscratch (scratch mscratch0 id) (set_mem (start_mem (mem h)) h))))).
Proof.
  intros Eid. assert (s32 id = id) as E32 by (apply s32_small; unfold NCPU in Hid; lia).
  unfold timerinit. erewrite bind_Ret by reflexivity. change (csr_read mhartid h) with (csrs h mhartid). rewrite Eid, E32.
  do 8 (erewrite bind_Ret by reflexivity). reflexivity.
Qed.

Lemma start_runs h : csrs h mhartid = id →
  ∃ h', start main tvec mscratch0 h = Ret tt h' ∧
    priv h' = SMode ∧ pc h' = Z.ldiff main 1 ∧ csrs h' satp = 0 ∧ regs h' tp = id ∧ (∀ r, r ≠ tp → regs h' r = regs h r) ∧
    csr_read sie h' = delegable ∧ csrs h' mideleg = delegable ∧ csrs h' mtvec = tvec ∧ csrs h' mscratch = scratch mscratch0 id ∧
    Z.testbit (csrs h' mie) 7 = true ∧ mem h' = start_mem (mem h).
Proof.
  intros Eid. assert (s32 id = id) as E32 by (apply s32_small; unfold NCPU in Hid; lia).
  unfold start. erewrite bind_Ret by reflexivity. cbv zeta. do 7 (erewrite bind_Ret by reflexivity).
  set (h1 := csr_write sie _ _). 
  assert (csrs h1 mstatus = Z.lor (Z.land (csrs h mstatus) (Z.lnot MSTATUS_MPP_MASK)) MSTATUS_MPP_S ∧ csrs h1 mepc = Z.ldiff main 1 ∧
    csrs h1 satp = 0 ∧ csrs h1 mideleg = delegable ∧
    csrs h1 mie = merge delegable (csrs h mie) (Z.lor (Z.lor (Z.lor (Z.land (csrs h mie) delegable) SIE_SEIE) SIE_STIE) SIE_SSIE) ∧
    csrs h1 mhartid = id ∧ regs h1 = regs h ∧ mem h1 = mem h) as (S1 & P1 & T1 & D1 & I1 & H1 & R1 & M1) by done.
  clearbody h1. erewrite bind_Ret by (by apply timerinit_runs). erewrite bind_Ret by reflexivity.
  set (h2 := set_csr mie _ _).
  assert (csr_read mhartid h2 = id) as -> by exact H1. rewrite E32. erewrite bind_Ret by reflexivity.
  eexists. split; [reflexivity|]. split_and!.
  - unfold mret_. cbn [set_pc set_priv priv]. change (csrs (set_reg tp (u64 id) h2) mstatus) with (Z.lor (csrs h1 mstatus) MSTATUS_MIE).
    rewrite S1. by eapply start_mode.
  - exact P1.
  - exact T1.
  - change (u64 id = id). apply u64_small. unfold NCPU in Hid. lia.
  - intros r Hr. change (regs (set_reg tp (u64 id) h2) r = regs h r). rewrite set_reg_ne by done. by rewrite <-R1.
  - change (Z.land (Z.lor (csrs h1 mie) MIE_MTIE) (csrs h1 mideleg) = delegable). rewrite I1, D1. apply start_sie.
  - exact D1.
  - reflexivity.
  - reflexivity.
  - change (Z.testbit (Z.lor (csrs h1 mie) MIE_MTIE) 7 = true). rewrite Z.lor_spec. by rewrite orb_true_r.
  - change (start_mem (mem h1) = start_mem (mem h)). by rewrite M1.
Qed.

Lemma start_timer m : let m' := start_mem m in let sc := scratch mscratch0 id in
  load64 m' (sc + 32) = CLINT_MTIMECMP id ∧ load64 m' (sc + 40) = 1000000 ∧
  load64 m' (CLINT_MTIMECMP id) = u64 (load64 m CLINT_MTIME + 1000000).
Proof.
  intros m' sc. destruct (scratch_range mscratch0 id Hok Hid) as (_ & Hcmp & Hdis). fold sc in Hdis.
  unfold m', start_mem. fold sc. rewrite (load64_store64_ne _ (sc + 40) (sc + 32)), !load64_store64 by lia.
  rewrite !load64_store64_ne, load64_store64 by (try apply u64_range; lia). done.
Qed.

End boot.

(** A hart boots: started in machine mode at [_entry], it arrives in [main] in
    supervisor mode, without paging, on the stack of its own, with its number in
    tp, with the interrupts of the supervisor enabled and delegated, and with its
    timer set up to interrupt one interval from now. *)
Theorem hart_boots tr page stack0 start_addr main tvec mscratch0 id h :
  scratch_ok mscratch0 → 0 ≤ id < NCPU → 0 ≤ stack0 → stack0 + 4096 * NCPU < 2 ^ 64 →
  priv h = MMode → csrs h mhartid = id →
  ∃ h', run_asm (fixed tr) (start_fn start_addr main tvec mscratch0) (page, page) (_entry stack0 start_addr) h = Some h' ∧
    priv h' = SMode ∧ pc h' = Z.ldiff main 1 ∧ csrs h' satp = 0 ∧ regs h' sp = stack0 + 4096 * (id + 1) ∧ regs h' tp = id ∧
    csr_read sie h' = Z.lor SIE_SEIE (Z.lor SIE_STIE SIE_SSIE) ∧ csrs h' mideleg = delegable ∧
    timer_ready tvec mscratch0 id h' ∧ load64 (mem h') (CLINT_MTIMECMP id) = u64 (load64 (mem h) CLINT_MTIME + 1000000).
Proof.
  intros Hok Hid Hs0 Hs Hp Eid. unfold NCPU in Hid, Hs. unfold _entry. pose proof (λ h Hp, machine_fetch tr page h Hp) as Hf.
  do 6 (erewrite run_cons; [|by apply Hf|reflexivity|done]). set (h1 := set_reg sp _ _).
  assert (regs h1 sp = stack0 + 4096 * (id + 1)) as Esp.
  { change (regs h1 sp) with (u64 (stack0 + u64 (1024 * 4 * u64 (csrs h mhartid + 1)))). rewrite Eid.
    rewrite (u64_small (id + 1)), (u64_small (1024 * 4 * (id + 1))), u64_small by lia. lia. }
  assert (csrs h1 mhartid = id ∧ priv h1 = MMode ∧ mem h1 = mem h) as (Eid1 & Hp1 & Em1) by done. clearbody h1.
  destruct (start_runs main tvec mscratch0 id Hid h1 Eid1) as (h' & E & S1 & S2 & S3 & S4 & S5 & S6 & S7 & S8 & S9 & S10 & S11).
  assert (exec_instr (fixed tr) (start_fn start_addr main tvec mscratch0) (CALL start_addr) h1 = Some h') as Ec.
  { cbn [exec_instr]. unfold start_fn. by rewrite Z.eqb_refl, E. }
  rewrite (run_cons _ _ _ _ _ _ _ (Hf h1 Hp1) Ec eq_refl). exists h'.
  destruct (start_timer mscratch0 id Hok Hid (mem h1)) as (T1 & T2 & T3).
  split_and!; try done.
  - by rewrite S5.
  - split; try done; by rewrite S11 || by rewrite S7.
  - by rewrite S11, T3, Em1.
Qed.

(** ** Examples *)

Definition ex_machine : hart := Hart (λ _, 0) (λ c, if decide (c = mhartid) then 2 else 0) MMode 0 (λ _, 0).

Lemma hart_boots_witness :
  ∃ h', run_asm (fixed (λ _ _ _, None)) (start_fn 7 0x80000100 0x80000200 0x80010000) (0x80000000, 0x80000000) (_entry 0x80020000 7) ex_machine = Some h' ∧
    priv h' = SMode ∧ regs h' sp = 0x80023000 ∧ regs h' tp = 2.
Proof.
  destruct (hart_boots (λ _ _ _, None) 0x80000000 0x80020000 7 0x80000100 0x80000200 0x80010000 2 ex_machine)
    as (h' & E & P & _ & _ & S & T & _); [done..|]. exists h'. exact (conj E (conj P (conj S T))).
Defined.

(** A hart in user mode whose scratch area is in place. *)
Definition ex_timer : hart :=
  Hart (λ _, 3) (λ c, if decide (c = mscratch) then scratch 0x80010000 2 else if decide (c = mtvec) then 0x80000200
    else if decide (c = mie) then MIE_MTIE else if decide (c = mideleg) then delegable else 0) UMode 0x1000 (start_mem 0x80010000 2 (λ _, 0)).

Lemma timer_interrupt_witness :
  ∃ h', run_asm (fixed (λ _ _ _, None)) (λ _ _, None) (0x80000000, 0x80000000) timervec (trap_m ex_timer) = Some h' ∧
    pc h' = 0x1000 ∧ priv h' = UMode ∧ load64 (mem h') (CLINT_MTIMECMP 2) = 2000000.
Proof.
  assert (scratch_ok 0x80010000) as Hok by done. assert (0 ≤ 2 < NCPU) as Hid by done.
  destruct (start_timer 0x80010000 2 Hok Hid (λ _, 0)) as (T1 & T2 & T3).
  destruct (timer_interrupt (λ _ _ _, None) (λ _ _, None) 0x80000000 0x80000200 0x80010000 2 ex_timer) as (h' & E & P & M & _ & _ & _ & N & _).
  - exact Hok.
  - exact Hid.
  - split; [done|done|exact T1|exact T2|done|done].
  - done.
  - intros r. simpl. lia.
  - exists h'. split; [exact E|]. split; [exact P|]. split; [exact M|]. rewrite N. change (mem ex_timer) with (start_mem 0x80010000 2 (λ _, 0)).
    by rewrite T3.
Defined.
