(* ===== verification/Mmu.v ===== *)
(** * The memory management unit

    [sv39] is the translation of the privileged architecture for the mode that
    MAKE_SATP of kernel/riscv.h selects: the walk through the three levels of the
    page table, with the checks of the permission bits for the mode and the access.
    (The kernel leaves SUM and MXR of sstatus clear.  The accessed and dirty bits
    are left to the hardware, and translations are not cached.)  The tables are
    those that kernel/vm.c builds, so that the program sees the memory that
    [walkaddr] gives to the kernel, and reaches no other. *)

From S2P Require Import Prelude Machine CString Kalloc Vm PageTable Mapping Uvm CopyUser Trap Riscv.
Local Open Scope Z_scope.

(** The number of the page of an entry: its bits 10 to 53. *)
Definition PPN (pte : Z) : Z := Z.land (Z.shiftr pte 10) (Z.ones 44).

Definition permitted (p : Riscv.mode) (acc : Riscv.access) (pte : Z) : bool :=
  (match p with Riscv.UMode => nonzero (Z.land pte PTE_U) | _ => Z.land pte PTE_U =? 0 end) &&
  match acc with
  | Riscv.Fetch => nonzero (Z.land pte PTE_X)
  | Riscv.Load => nonzero (Z.land pte PTE_R)
  | Riscv.Store => nonzero (Z.land pte PTE_W)
  end.

(** From the entry that the table at [a] has for [va] at level [level]. *)
Fixpoint sv39_walk (level : nat) (m : memory) (p : Riscv.mode) (acc : Riscv.access) (a va : Z) : option Z :=
  let i := Z.of_nat level in
  let pte := load64 m (a + 8 * ((va / 2 ^ (12 + 9 * i)) `mod` 512)) in
  if (Z.land pte PTE_V =? 0) || ((Z.land pte PTE_R =? 0) && nonzero (Z.land pte PTE_W)) then None
  else if nonzero (Z.land pte PTE_R) || nonzero (Z.land pte PTE_X) then
    if permitted p acc pte && (PPN pte `mod` 2 ^ (9 * i) =? 0)
    then Some (PPN pte * PGSIZE + va `mod` 2 ^ (12 + 9 * i)) else None
  else match level with O => None | S level' => sv39_walk level' m p acc (PPN pte * PGSIZE) va end.

Definition sv39 (m : memory) (p : Riscv.mode) (acc : Riscv.access) (satp va : Z) : option Z :=
  if (Z.shiftr satp 60 =? 8) && ((va <? 2 ^ 38) || (2 ^ 64 - 2 ^ 38 <=? va))
  then sv39_walk 2 m p acc (Z.land satp (Z.ones 44) * PGSIZE) va else None.

(** The stores of a user program, byte by byte. *)
Inductive user_stores (satp : Z) : memory → memory → Prop :=
| us_none m : user_stores satp m m
| us_store m va pa v m' :
    0 ≤ va < 2 ^ 64 → sv39 m Riscv.UMode Riscv.Store satp va = Some pa →
    user_stores satp (store8 m pa v) m' → user_stores satp m m'.

(** What the leaf entry decides. *)
Definition leaf_tr (p : Riscv.mode) (acc : Riscv.access) (pte va : Z) : option Z :=
  if (Z.land pte PTE_V =? 0) || ((Z.land pte PTE_R =? 0) && nonzero (Z.land pte PTE_W)) then None
  else if nonzero (Z.land pte PTE_R) || nonzero (Z.land pte PTE_X) then
    if permitted p acc pte then Some (PPN pte * PGSIZE + va `mod` PGSIZE) else None
  else None.

(** * Lemmas *)

Lemma PPN_eq pte : PTE2PA pte < 2 ^ 56 → PPN pte * PGSIZE = PTE2PA pte.
Proof.
  intros Hpa. unfold PPN, PTE2PA in *. rewrite Z.land_ones, Z.shiftl_mul_pow2 in * by lia.
  generalize dependent (Z.shiftr pte 10). intros x Hx. unfold u64, PGSIZE in *. change (2 ^ 12) with 4096 in *.
  change (2 ^ 64) with 18446744073709551616 in *. change (2 ^ 56) with 72057594037927936 in *. change (2 ^ 44) with 17592186044416. dlia.
Qed.

Lemma satp_root root : pa_ok root → let s := MAKE_SATP root in
  Z.shiftr s 60 = 8 ∧ Z.land s (Z.ones 44) * PGSIZE = root.
Proof.
  intros [Ha Hr] s. unfold s, MAKE_SATP, SATP_SV39. rewrite (Z.shiftr_div_pow2 root) by lia.
  assert (0 ≤ root / 2 ^ 12 < 2 ^ 44) by (unfold PGSIZE in *; change (2 ^ 12) with 4096; dlia).
  rewrite lor_disjoint_add, Z.land_ones, Z.shiftr_div_pow2 by lia. split.
  - rewrite Z.div_add_l, Z.div_small by lia. done.
  - change (8 * 2 ^ 60) with (8 * 2 ^ 16 * 2 ^ 44). rewrite Z.add_comm, Z.mod_add, Z.mod_small by lia.
    unfold PGSIZE in *. change (2 ^ 12) with 4096. dlia.
Qed.

Section table.
Context `{Image} {m : memory} {root : Z} {T : ptmap} (Hpt : pt_inv m root T).

(** An entry that points to the next level. *)
Lemma pointer_flags pa g : pa_ok pa → g = PTE_R ∨ g = PTE_W ∨ g = PTE_X → Z.land (Z.lor (PA2PTE pa) PTE_V) g = 0.
Proof.
  intros Hpa Hg. rewrite land_flags, PTE_FLAGS_make by (done || destruct Hg as [->|[->| ->]]; done).
  by destruct Hg as [->|[->| ->]].
Qed.

Lemma sv39_walk_pt n p acc pt va : (n ≤ 2)%nat → T !! (Z.of_nat n, vkey (Z.of_nat n) va) = Some pt →
  sv39_walk n m p acc pt va = leaf_tr p acc (pte_of m T va) va.
Proof.
  revert pt. induction n as [|n IH]; intros pt Hn E; cbn [sv39_walk]; rewrite <-PX_eq by lia.
  - unfold pte_of. change (Z.of_nat 0) with 0 in *. rewrite E. change (2 ^ (9 * 0)) with 1. rewrite Z.mod_1_r.
    change (2 ^ (12 + 9 * 0)) with PGSIZE. rewrite Z.eqb_refl, andb_true_r. done.
  - pose proof (pt_link _ _ _ Hpt _ _ _ (PX (Z.of_nat (S n)) va) E ltac:(lia) ltac:(apply PX_range; lia)) as Hlink.
    fold (pte_addr pt (PX (Z.of_nat (S n)) va)). destruct (T !! (Z.of_nat (S n) - 1, _)) as [pa|] eqn:E'.
    + assert (pa_ok pa) as Hpa by (by eapply page_ok_pa_ok, (pt_page_ok Hpt)).
      rewrite Hlink, flag_test, !(pointer_flags pa) by (rewrite ?PTE_V_1; auto || done || lia). simpl.
      rewrite PPN_eq by (rewrite PTE2PA_make by (rewrite ?PTE_V_1; done || lia); apply Hpa).
      rewrite PTE2PA_make by (rewrite ?PTE_V_1; done || lia).
      apply IH; [lia|]. rewrite <-vkey_step in E' by lia. replace (Z.of_nat (S n) - 1) with (Z.of_nat n) in E' by lia. done.
    + rewrite Hlink. simpl. rewrite <-vkey_step in E' by lia. replace (Z.of_nat (S n) - 1) with (Z.of_nat n) in E' by lia.
      unfold pte_of. by rewrite (pt_vkey_None_0 Hpt n va) by (done || lia).
Qed.

(** The upper half of the address space is not mapped. *)
Lemma sv39_walk_high p acc va : 2 ^ 64 - 2 ^ 38 ≤ va < 2 ^ 64 → sv39_walk 2 m p acc root va = None.
Proof.
  intros Hva. cbn [sv39_walk]. rewrite <-PX_eq by lia. change (Z.of_nat 2) with 2. fold (pte_addr root (PX 2 va)).
  pose proof (PX_range 2 va ltac:(lia)) as HP.
  pose proof (pt_link _ _ _ Hpt 2 0 root (PX 2 va) (pt_root _ _ _ Hpt) ltac:(lia) HP) as Hlink.
  destruct (T !! (2 - 1, _)) as [pa|] eqn:E'; [|by rewrite Hlink].
  apply (pt_dom _ _ _ Hpt) in E' as (_ & [_ Hlow] & _). exfalso. rewrite PX_eq in Hlow by lia.
  change MAXVA with (2 ^ 38) in Hlow. change (2 ^ (21 + 9 * (2 - 1))) with 1073741824 in Hlow.
  change (2 ^ (12 + 9 * 2)) with 1073741824 in Hlow. change (2 ^ 38) with 274877906944 in *. change (2 ^ 64) with 18446744073709551616 in *. dlia.
Qed.

(** The translation is decided by the leaf entry. *)
Lemma sv39_pt p acc va : 0 ≤ va < 2 ^ 64 →
  sv39 m p acc (MAKE_SATP root) va = if va <? MAXVA then leaf_tr p acc (pte_of m T va) va else None.
Proof.
  intros Hva. unfold sv39. destruct (satp_root root) as [-> ->]; [by eapply page_ok_pa_ok, (pt_page_ok Hpt), (pt_root _ _ _ Hpt)|].
  change MAXVA with (2 ^ 38). rewrite Z.eqb_refl. cbn [andb]. destruct (Z.ltb_spec va (2 ^ 38)) as [Hlow|Hhigh]; cbn [orb].
  - apply sv39_walk_pt; [lia|]. change (Z.of_nat 2) with 2. rewrite vkey_top by (change MAXVA with (2 ^ 38); lia). apply (pt_root _ _ _ Hpt).
  - destruct (Z.leb_spec (2 ^ 64 - 2 ^ 38) va); [|done]. apply sv39_walk_high. lia.
Qed.

End table.

(** Tables that memory agrees on translate alike. *)
Lemma sv39_frame `{Image} m m' root T p acc va : pt_inv m root T →
  (∀ pa, owns T pa → mem_eq_on (in_page pa) m m') → 0 ≤ va < 2 ^ 64 →
  sv39 m' p acc (MAKE_SATP root) va = sv39 m p acc (MAKE_SATP root) va.
Proof.
  intros Hpt Hm Hva. rewrite (sv39_pt (pt_inv_frame Hpt m' Hm)), (sv39_pt Hpt) by done.
  by rewrite (pte_of_frame m' va Hm).
Qed.

(** A page that [mappages] has mapped with the permission [perm]. *)
Lemma leaf_tr_mapped p acc pa perm va : pa_ok pa → 0 ≤ perm < 1024 →
  Z.land perm PTE_R ≠ 0 → permitted p acc perm = true →
  leaf_tr p acc (leaf_pte pa perm) va = Some (pa + va `mod` PGSIZE).
Proof.
  intros Hpa Hperm HR Hok.
  assert (∀ g, g = PTE_R ∨ g = PTE_W ∨ g = PTE_X ∨ g = PTE_U → Z.land (leaf_pte pa perm) g = Z.land perm g) as Hg.
  { intros g Hg. assert (0 ≤ g < 1024) by (destruct Hg as [->|[->|[->| ->]]]; by vm_compute). rewrite land_flags, PTE_FLAGS_leaf by done.
    rewrite Z.land_lor_distr_l. assert (Z.land PTE_V g = 0) as -> by (by destruct Hg as [->|[->|[->| ->]]]). apply Z.lor_0_r. }
  unfold leaf_tr. rewrite leaf_pte_valid, !Hg by auto. change (PTE_V =? 0) with false.
  rewrite (proj2 (Z.eqb_neq _ _) HR), (proj2 (nonzero_true _) HR). cbn [orb andb].
  replace (permitted p acc (leaf_pte pa perm)) with (permitted p acc perm).
  - rewrite Hok, PPN_eq by (rewrite PTE2PA_leaf by done; apply Hpa). by rewrite PTE2PA_leaf.
  - unfold permitted. rewrite !Hg by auto. done.
Qed.

Section user.
Context `{Image} {root : Z} {T : ptmap} {l : list Z} {U : umap}.

(** Where a user program gets: the pages of [U]. *)
Lemma user_reaches s acc va pa : @user_space _ root T l U s → 0 ≤ va < 2 ^ 64 →
  sv39 (mem s) Riscv.UMode acc (MAKE_SATP root) va = Some pa →
  ∃ pg, U !! (va / PGSIZE) = Some pg ∧ pa = pg + va `mod` PGSIZE.
Proof.
  intros [Hinv Honly] Hva. rewrite (sv39_pt (vm_pt _ _ _ _ (uvm_vm _ _ _ _ _ Hinv))) by done.
  destruct (Z.ltb_spec va MAXVA); [|done]. unfold leaf_tr. specialize (Honly va ltac:(lia)). cbv zeta in Honly.
  set (v := pte_of (mem s) T va) in *. destruct (Z.eqb_spec (Z.land v PTE_V) 0) as [|HV]; [done|].
  destruct (_ && nonzero _); [done|]. cbn [orb]. destruct (nonzero _ || nonzero _); [|done]. unfold permitted.
  destruct (nonzero (Z.land v PTE_U)) eqn:HU; [|done]. apply nonzero_true in HU. specialize (Honly HV HU).
  destruct (match acc with Riscv.Fetch => _ | _ => _ end); [|done]. intros [= <-].
  exists (PTE2PA v). split; [done|]. f_equal. apply PPN_eq.
  apply (uvm_leaf _ _ _ _ _ Hinv) in Honly as (_ & Hpa & _). by apply page_ok_pa_ok in Hpa as (_ & _ & ?).
Qed.

Lemma user_store_ok s va pa v : @user_space _ root T l U s → 0 ≤ va < 2 ^ 64 →
  sv39 (mem s) Riscv.UMode Riscv.Store (MAKE_SATP root) va = Some pa →
  @user_space _ root T l U (set_mem (store8 (mem s) pa v) s) ∧
  (∀ y, (∀ vpn pg, U !! vpn = Some pg → ¬ in_page pg y) → load8 (store8 (mem s) pa v) y = load8 (mem s) y) ∧
  (∀ q, owns T q → mem_eq_on (in_page q) (mem s) (store8 (mem s) pa v)).
Proof.
  intros Hs Hva E. destruct (user_reaches s _ va pa Hs Hva E) as (pg & HU & ->).
  assert (in_page pg (pg + va `mod` PGSIZE)) as Hin.
  { unfold in_page. pose proof (Z.mod_pos_bound va PGSIZE ltac:(done)). lia. }
  assert (∀ y, ¬ in_page pg y → load8 (store8 (mem s) (pg + va `mod` PGSIZE) v) y = load8 (mem s) y) as Hne.
  { intros y Hy. rewrite load8_store8. by destruct (Z.eqb_spec y (pg + va `mod` PGSIZE)) as [->|]. }
  split; [|split].
  - apply (user_write s _ _ pg Hs HU). intros y Hy. symmetry. by apply Hne.
  - intros y Hy. apply Hne. by eapply Hy.
  - intros q Hq y Hy. symmetry. apply Hne. intros Hy'.
    pose proof (usp_inv _ Hs) as Hinv. destruct (uvm_sep _ _ _ _ _ Hinv _ _ HU) as [_ Hno]. apply Hno.
    apply (uvm_leaf _ _ _ _ _ Hinv) in HU as (_ & Hpg & _).
    replace pg with q; [done|]. eapply in_page_unique; [|done..]. by eapply owns_page_ok; [apply Hinv|].
Qed.

Lemma user_stores_ok s m' : @user_space _ root T l U s → user_stores (MAKE_SATP root) (mem s) m' →
  @user_space _ root T l U (set_mem m' s) ∧
  (∀ y, (∀ vpn pg, U !! vpn = Some pg → ¬ in_page pg y) → load8 m' y = load8 (mem s) y) ∧
  (∀ q, owns T q → mem_eq_on (in_page q) (mem s) m').
Proof.
  intros Hs Hst. remember (mem s) as m eqn:Em. revert s Hs Em.
  induction Hst as [m|m va pa v m' Hva E _ IH]; intros s Hs ->; [by destruct s|].
  destruct (user_store_ok s va pa v Hs Hva E) as (Hs1 & Hy1 & Hq1).
  destruct (IH _ Hs1 eq_refl) as (Hs2 & Hy2 & Hq2). split_and!; [done| |].
  - intros y Hy. rewrite Hy2 by done. by apply Hy1.
  - intros q Hq y Hy. rewrite (Hq1 q Hq y Hy). by apply (Hq2 q).
Qed.

End user.

(** * Claims *)

(** The program sees the memory that [walkaddr] gives to the kernel.  In an address
    space whose user pages are mapped as [uvmalloc] maps them, an access of the
    program to [va] goes to the byte of the page that [walkaddr] returns, and faults
    when [walkaddr] returns 0, whatever the address and the kind of the access. *)
Theorem mmu_agrees_with_walkaddr `{Image} root T l U s acc va :
  @user_space _ root T l U s →
  (∀ vpn, is_Some (U !! vpn) → let v := pte_of (mem s) T (vpn * PGSIZE) in Z.land v UPERM = UPERM ∨ Z.land v PTE_U = 0) →
  0 ≤ va < 2 ^ 64 →
  ∃ pa, walkaddr root (PGROUNDDOWN va) s = Ret pa s ∧
    sv39 (mem s) Riscv.UMode acc (MAKE_SATP root) va = if pa =? 0 then None else Some (pa + va `mod` PGSIZE).
Proof.
  intros Hs Hperm Hva. pose proof Hs as [Hinv Honly]. pose proof (vm_pt _ _ _ _ (uvm_vm _ _ _ _ _ Hinv)) as Hpt.
  exists (user_pa (mem s) T (PGROUNDDOWN va)). split.
  { apply walkaddr_eq; [done|]. rewrite PGROUNDDOWN_eq. unfold PGSIZE. dlia. }
  rewrite (sv39_pt Hpt) by done. unfold user_pa. rewrite (pte_of_page _ _ (PGROUNDDOWN va) va) by apply page_vpn.
  assert ((PGROUNDDOWN va >=? MAXVA) = negb (va <? MAXVA)) as ->.
  { rewrite PGROUNDDOWN_eq. destruct (Z.geb_spec (va - va `mod` PGSIZE) MAXVA), (Z.ltb_spec va MAXVA); try done;
      exfalso; change MAXVA with 274877906944 in *; unfold PGSIZE in *; dlia. }
  destruct (Z.ltb_spec va MAXVA); [|done]. cbn [negb]. unfold leaf_tr. specialize (Honly va ltac:(lia)). cbv zeta in Honly.
  assert (pte_of (mem s) T (va / PGSIZE * PGSIZE) = pte_of (mem s) T va) as Ev.
  { apply pte_of_page. unfold PGSIZE. dlia. }
  specialize (Hperm (va / PGSIZE)). cbv zeta in Hperm. rewrite Ev in Hperm. set (v := pte_of (mem s) T va) in *.
  destruct (Z.eqb_spec (Z.land v PTE_V) 0) as [|HV]; [done|]. cbn [orb].
  destruct (Z.eqb_spec (Z.land v PTE_U) 0) as [HU|HU].
  { unfold permitted. rewrite HU. cbn. by repeat case_match. }
  specialize (Honly HV HU). destruct Hperm as [Hp|?]; [by rewrite Honly| |done].
  assert (∀ g, Z.land UPERM g = g → Z.land v g = g) as Hg by (intros g <-; by rewrite Z.land_assoc, Hp).
  rewrite (Hg PTE_R eq_refl), (Hg PTE_W eq_refl), (Hg PTE_X eq_refl). cbn [nonzero negb orb andb Z.eqb PTE_R PTE_W PTE_X Z.shiftl Pos.iter].
  assert (permitted Riscv.UMode acc v = true) as ->.
  { unfold permitted. rewrite (Hg PTE_U eq_refl), (Hg PTE_R eq_refl), (Hg PTE_W eq_refl), (Hg PTE_X eq_refl). by destruct acc. }
  apply (uvm_leaf _ _ _ _ _ Hinv) in Honly as (_ & Hpa & _).
  rewrite (proj2 (Z.eqb_neq (PTE2PA v) 0) (page_ok_nonzero _ Hpa)). f_equal. f_equal. apply PPN_eq.
  by apply page_ok_pa_ok in Hpa as (_ & _ & ?).
Qed.

(** The one page of the example: address 100 is seen, address 5000 is not. *)
Lemma mmu_agrees_with_walkaddr_witness :
  sv39 (mem ex_space) Riscv.UMode Riscv.Store (MAKE_SATP ex_page) 100 = Some (ex_user + 100) ∧
  ∃ pa, walkaddr ex_page 0 ex_space = Ret pa ex_space ∧ pa = ex_user.
Proof.
  destruct (mmu_agrees_with_walkaddr ex_page ex_T [ex_free] ex_U ex_space Riscv.Store 100) as (pa & E & Hm).
  - apply ex_user_space.
  - intros vpn [pg [-> _]%ex_U_Some]. left. vm_compute. reflexivity.
  - lia.
  - assert (pa = ex_user) as -> by (vm_compute in E; injection E as <-; reflexivity).
    split; [exact Hm|]. exists ex_user. split; [exact E|reflexivity].
Defined.

(** C14: A user program reaches only its own pages.  Whatever it stores, and through
    whatever addresses, the bytes outside of its pages stay, so that it changes no
    page table, no free page and nothing of the kernel; its address space keeps its
    invariant, and its addresses mean what they meant. *)
Theorem user_isolation `{Image} root T l U s m' :
  @user_space _ root T l U s → user_stores (MAKE_SATP root) (mem s) m' →
  @user_space _ root T l U (set_mem m' s) ∧
  (∀ y, (∀ vpn pg, U !! vpn = Some pg → ¬ in_page pg y) → load8 m' y = load8 (mem s) y) ∧
  (∀ p acc va, 0 ≤ va < 2 ^ 64 → sv39 m' p acc (MAKE_SATP root) va = sv39 (mem s) p acc (MAKE_SATP root) va).
Proof.
  intros Hs Hst. destruct (user_stores_ok s m' Hs Hst) as (H1 & H2 & H3). split_and!; [done|done|].
  intros p acc va Hva. apply sv39_frame with T; [apply Hs|done|done].
Qed.

(** The program stores a byte. *)
Lemma user_isolation_witness :
  load8 (store8 (mem ex_space) (ex_user + 100) 7) ex_l0 = load8 (mem ex_space) ex_l0 ∧ load8 (store8 (mem ex_space) (ex_user + 100) 7) (ex_user + 100) = 7.
Proof.
  split; [|by rewrite load8_store8, Z.eqb_refl].
  apply (user_isolation ex_page ex_T [ex_free] ex_U ex_space).
  - apply ex_user_space.
  - apply (us_store _ _ 100 (ex_user + 100) 7); [lia|vm_compute; reflexivity|apply us_none].
  - intros vpn pg [-> ->]%ex_U_Some. vm_compute. intros [H _]. by apply H.
Defined.
