(* ===== verification/Crossing.v ===== *)
(** * Crossing between user and kernel on the page tables in memory

    TrapAsm.v follows the trampoline through a translation that is given.  Here the
    translation is that of the memory management unit on the tables that the kernel
    has built: the trampoline is mapped in the table of the process and in that of
    the kernel, and the trapframe in that of the process.  The stores of uservec do
    not touch the tables, and the program in between cannot. *)

From S2P Require Import Prelude Machine Kalloc Vm PageTable Mapping Uvm CopyUser Kernel Proc Trap ProcAlloc ProcTable Riscv Asm TrapAsm Mmu.
Import Riscv.
Local Open Scope Z_scope.
Local Open Scope list_scope.

(** The table [T] of a process, whose trapframe is at [tf], and the table [Tk] of
    the kernel. *)
Record tables `{Image} (m : memory) (root : Z) (T : ptmap) (kroot : Z) (Tk : ptmap) (tf : Z) : Prop := {
  tb_user : pt_inv m root T;
  tb_kernel : pt_inv m kroot Tk;
  tb_tramp : pte_of m T TRAMPOLINE = leaf_pte img_trampoline (Z.lor PTE_R PTE_X);
  tb_frame : pte_of m T TRAPFRAME = leaf_pte tf (Z.lor PTE_R PTE_W);
  tb_ktramp : pte_of m Tk TRAMPOLINE = leaf_pte img_trampoline (Z.lor PTE_R PTE_X);
  tb_page : page_ok tf;
  tb_sep : ¬ owns T tf ∧ ¬ owns Tk tf
}.

(** * Lemmas *)

(** ** Translations that agree along a run *)

Definition is_store (i : instr) : bool := match i with SD _ _ _ => true | _ => false end.

(** No calls, and no stores after satp has been written. *)
Fixpoint stores_first (l : list instr) : bool :=
  match l with
  | [] => true
  | CALL _ :: _ | CSRRW _ satp _ :: _ => false
  | CSRW satp _ :: l' => negb (existsb is_store l') && stores_first l'
  | _ :: l' => stores_first l'
  end.

Section lift.
Context (R : memory → Prop) (tr : access → Z → Z → option Z) (mmu : memory → mode → access → Z → Z → option Z).
Context (fn : Z → hart → option hart) (code : Z * Z).
Hypothesis Hmmu : ∀ m acc s va pa, R m → tr acc s va = Some pa → mmu m SMode acc s va = Some pa.
Hypothesis HR : ∀ m s va pa v, R m → va `mod` 8 = 0 → tr Store s va = Some pa → R (store64 m pa v).

Lemma translate_lift acc h va pa : priv h = SMode → R (mem h) →
  translate (fixed tr) acc h va = Some pa → translate mmu acc h va = Some pa.
Proof. intros Hp Hm. unfold translate, fixed. rewrite Hp, decide_False by done. case_match; [done|]. by apply Hmmu. Qed.

Lemma addr_lift acc h b o pa : priv h = SMode → R (mem h) → addr (fixed tr) acc h b o = Some pa → addr mmu acc h b o = Some pa.
Proof. intros Hp Hm. unfold addr. case_match; [|done]. by apply translate_lift. Qed.

Lemma csr_write_priv c v h : priv (csr_write c v h) = priv h ∧ mem (csr_write c v h) = mem h ∧
  (c ≠ satp → csrs (csr_write c v h) satp = csrs h satp).
Proof. destruct c; simpl; split_and!; try done; intros; by rewrite ?decide_False. Qed.

Lemma exec_lift i h h' : priv h = SMode → R (mem h) → (is_store i = false ∨ csrs h satp ≠ 0) → (∀ f, i ≠ CALL f) →
  exec_instr (fixed tr) fn i h = Some h' →
  exec_instr mmu fn i h = Some h' ∧ R (mem h') ∧ (leaves i = false → priv h' = SMode).
Proof.
  intros Hp Hm Hs Hc. destruct i; cbn [exec_instr]; try (by intros [= <-]); try (by destruct (Hc f)).
  - destruct (addr _ Load h base off) as [pa|] eqn:E; [|done]. simpl. intros [= <-]. by rewrite (addr_lift _ _ _ _ _ Hp Hm E).
  - destruct (addr _ Store h base off) as [pa|] eqn:E; [|done]. simpl. intros [= <-]. rewrite (addr_lift _ _ _ _ _ Hp Hm E).
    split_and!; [done| |done]. simpl. unfold addr in E. destruct (Z.eqb_spec (u64 (regs h base + off) `mod` 8) 0) as [E8|]; [|done].
    unfold translate, fixed in E. rewrite Hp, decide_False in E by done. destruct Hs as [|Hs]; [done|].
    rewrite (proj2 (Z.eqb_neq _ _) Hs) in E. by eapply HR.
  - intros [= <-]. destruct (csr_write_priv c (regs h rs) h) as (E1 & E2 & _). by rewrite E1, E2.
  - intros [= <-]. destruct (csr_write_priv c (regs h rs) h) as (E1 & E2 & _). simpl. by rewrite E1, E2.
Qed.

Lemma exec_satp i h h' : leaves i = false → (∀ f, i ≠ CALL f) → (∀ r, i ≠ CSRW satp r) → (∀ d r, i ≠ CSRRW d satp r) →
  exec_instr (fixed tr) fn i h = Some h' → csrs h' satp = csrs h satp.
Proof.
  intros Hl Hc H1 H2. destruct i; cbn [exec_instr]; try (by intros [= <-]); try done; try (by destruct (Hc f)).
  - destruct (addr _ Load h base off); [|done]. by intros [= <-].
  - destruct (addr _ Store h base off); [|done]. by intros [= <-].
  - intros [= <-]. apply csr_write_priv. by intros ->; eapply H1.
  - intros [= <-]. simpl. apply csr_write_priv. by intros ->; eapply H2.
Qed.

Lemma run_lift l h h' : priv h = SMode → R (mem h) → (existsb is_store l = false ∨ csrs h satp ≠ 0) → stores_first l = true →
  run_asm (fixed tr) fn code l h = Some h' → run_asm mmu fn code l h = Some h'.
Proof.
  revert h. induction l as [|i l IH]; intros h Hp Hm Hs Hl; [done|]. cbn [run_asm].
  case_bool_decide as Hf; [|done]. rewrite (bool_decide_true _ (translate_lift _ _ _ _ Hp Hm Hf)).
  destruct (exec_instr (fixed tr) fn i h) as [h1|] eqn:E; [|done]. simpl.
  assert (∀ f, i ≠ CALL f) as Hc by (by intros f ->).
  destruct (exec_lift i h h1 Hp Hm) as (-> & Hm1 & Hp1); [|done|done|].
  { destruct Hs as [Hs|]; [left|by right]. simpl in Hs. by apply orb_false_iff in Hs as [? _]. }
  simpl. destruct (leaves i) eqn:El; [done|]. apply IH; [by apply Hp1|done| |].
  - assert ((∃ r, i = CSRW satp r) ∨ ∀ r, i ≠ CSRW satp r) as [[r ->]|Hn].
    { destruct i as [| | | | | | |c r| | | | | |]; try (by right). destruct (decide (c = satp)) as [->|]; [left; by exists r|right; congruence]. }
    + left. simpl in Hl. by apply andb_true_iff in Hl as [?%negb_true_iff _].
    + destruct Hs as [Hs|Hs]; [left; simpl in Hs; by apply orb_false_iff in Hs as [_ ?]|right].
      rewrite (exec_satp i h h1); [done|done|done|done| |done]. by intros d r ->.
  - destruct i; try done; destruct c; try done. by apply andb_true_iff in Hl as [_ ?].
Qed.

End lift.

(** ** The tables *)

Section tables.
Context `{IM : Image} {m0 : memory} {root : Z} {T : ptmap} {kroot : Z} {Tk : ptmap} {tf : Z}.
Hypothesis Htb : tables m0 root T kroot Tk tf.

(** The part of the translation that the trampoline needs. *)
Definition tramp_tr (root kroot tf : Z) (acc : access) (s va : Z) : option Z :=
  match acc with
  | Fetch => if (va =? TRAMPOLINE) && ((s =? MAKE_SATP root) || (s =? MAKE_SATP kroot)) then Some img_trampoline else None
  | _ =>
      if (s =? MAKE_SATP root) && ((TRAPFRAME <=? va) && (va <? TRAPFRAME + PGSIZE)) then Some (tf + (va - TRAPFRAME)) else None
  end.

(** The tables are as in [m0]. *)
Definition keeps_tables (m : memory) : Prop := ∀ q, owns T q ∨ owns Tk q → mem_eq_on (in_page q) m0 m.

Lemma tramp_fetch m r TT : pt_inv m r TT → pte_of m TT TRAMPOLINE = leaf_pte img_trampoline (Z.lor PTE_R PTE_X) →
  sv39 m SMode Fetch (MAKE_SATP r) TRAMPOLINE = Some img_trampoline.
Proof.
  intros Hpt E. rewrite (sv39_pt Hpt) by (by vm_compute). change (TRAMPOLINE <? MAXVA) with true. cbv iota. rewrite E.
  rewrite leaf_tr_mapped by (apply tramp_ok || by vm_compute). change (TRAMPOLINE `mod` PGSIZE) with 0. by rewrite Z.add_0_r.
Qed.

Lemma tramp_tr_sv39 m acc s va pa : keeps_tables m → tramp_tr root kroot tf acc s va = Some pa → sv39 m SMode acc s va = Some pa.
Proof.
  intros Hm. destruct Htb as [Hu Hk Hut Huf Hkt Hpg _].
  assert (∀ q, owns T q → mem_eq_on (in_page q) m0 m) as HmT by (intros q Hq; apply Hm; by left).
  assert (∀ q, owns Tk q → mem_eq_on (in_page q) m0 m) as HmK by (intros q Hq; apply Hm; by right).
  assert (∀ acc, acc ≠ Fetch → (s =? MAKE_SATP root) && ((TRAPFRAME <=? va) && (va <? TRAPFRAME + PGSIZE)) = true →
    sv39 m SMode acc s va = Some (tf + (va - TRAPFRAME))) as Hd.
  { intros acc' Ha [Es [Hl Hh]%andb_true_iff]%andb_true_iff. apply Z.eqb_eq in Es as ->. apply Z.leb_le in Hl. apply Z.ltb_lt in Hh.
    change TRAPFRAME with 274877898752 in Hl, Hh. unfold PGSIZE in Hh.
    rewrite (sv39_pt (pt_inv_frame Hu m HmT)), (proj2 (Z.ltb_lt va MAXVA)) by (change MAXVA with 274877906944; lia).
    assert (va / PGSIZE = TRAPFRAME / PGSIZE ∧ va `mod` PGSIZE = va - TRAPFRAME) as [Ev Em].
    { change TRAPFRAME with 274877898752. unfold PGSIZE. dlia. }
    rewrite (pte_of_frame m va HmT), (pte_of_page _ _ va TRAPFRAME), Huf by done.
    rewrite leaf_tr_mapped; [by rewrite Em|by apply page_ok_pa_ok|by vm_compute|by vm_compute|].
    destruct acc'; [done|by vm_compute..]. }
  unfold tramp_tr. destruct acc; [|case_match; [|done]; intros [= <-]; by apply Hd..].
  destruct (Z.eqb_spec va TRAMPOLINE) as [->|]; [|done]. cbn [andb].
  destruct (Z.eqb_spec s (MAKE_SATP root)) as [->|]; cbn [orb].
  - intros [= <-]. apply (tramp_fetch m root T); [exact (pt_inv_frame Hu m HmT)|]. by rewrite (pte_of_frame m _ HmT).
  - destruct (Z.eqb_spec s (MAKE_SATP kroot)) as [->|]; [|done]. intros [= <-].
    apply (tramp_fetch m kroot Tk); [exact (pt_inv_frame Hk m HmK)|]. by rewrite (pte_of_frame m _ HmK).
Qed.

(** A write to the trapframe leaves the tables alone. *)
Lemma keeps_tables_frame m m' : keeps_tables m → mem_eq_on (λ y, ¬ in_page tf y) m m' → keeps_tables m'.
Proof.
  intros Hm Hm' q Hq y Hy. rewrite (Hm q Hq y Hy). apply Hm'. intros Hy'. destruct Htb as [Hu Hk _ _ _ Hpg [Hs1 Hs2]].
  assert (page_ok q) as Hqok by (destruct Hq as [Hq|Hq]; [exact (owns_page_ok Hu q Hq)|exact (owns_page_ok Hk q Hq)]).
  rewrite (in_page_unique q tf y Hqok Hpg Hy Hy') in Hq. tauto.
Qed.

Lemma tramp_tr_store m s va pa v : keeps_tables m → va `mod` 8 = 0 → tramp_tr root kroot tf Store s va = Some pa →
  keeps_tables (store64 m pa v).
Proof.
  intros Hm H8. unfold tramp_tr. destruct (_ && _) eqn:E; [|done]. intros [= <-].
  apply andb_true_iff in E as [_ [Hl Hh]%andb_true_iff]. apply Z.leb_le in Hl. apply Z.ltb_lt in Hh.
  apply (keeps_tables_frame m); [done|]. intros y Hy. symmetry. apply load8_store64_ne. intros Hy'. apply Hy. unfold in_page.
  change TRAPFRAME with 274877898752 in *. unfold PGSIZE in *. dlia.
Qed.

End tables.

(** ** The address space around the trapframe *)

Lemma tf_entry_page tf sa sp_ trap id m : mem_eq_on (λ y, ¬ in_page tf y) m (tf_entry tf sa sp_ trap id m).
Proof.
  intros y Hy. unfold tf_entry, in_page, PGSIZE, tf_kernel_satp, tf_kernel_sp, tf_kernel_trap, tf_kernel_hartid in *.
  rewrite !load8_store64_ne by lia. done.
Qed.

Lemma MAKE_SATP_range root : pa_ok root → 0 < MAKE_SATP root < 2 ^ 64.
Proof.
  intros [Ha Hr]. unfold MAKE_SATP, SATP_SV39. rewrite Z.shiftr_div_pow2 by lia.
  assert (0 ≤ root / 2 ^ 12 < 2 ^ 44) by (unfold PGSIZE in *; change (2 ^ 12) with 4096; dlia).
  rewrite lor_disjoint_add by lia. lia.
Qed.

(** * Claims *)

(** C8: Leaving the kernel and coming back.  After [usertrapret], userret enters user
    mode at the saved program counter with the registers of the trapframe; no
    interrupt comes in between.  The program then runs: its registers become
    anything, and it stores through its page table whatever it likes.  Its next trap
    goes to uservec, which arrives in [usertrap] in supervisor mode, with the page
    table of the kernel, the kernel stack of the process, the number of the hart in
    tp and a status that [usertrap] accepts, and the trapframe holds the registers
    of the program.  Every fetch, load and store of the trampoline is translated by
    the page tables in memory, which map it in both address spaces. *)
Theorem user_crossing `{Image} (fn : Z → hart → option hart) (hw : hw_write → M kernel unit) (trap kroot : Z) (c : Trap.csrs) (k : kernel)
    (T Tk : ptmap) (l : list Z) (U : umap) :
  let x := procs k (curproc k) in let tf := trapframe x in let u := MAKE_SATP (pagetable x) in
  let code := (TRAMPOLINE, img_trampoline) in
  (∀ w k, hw w k = Ret tt k) →
  0 ≤ trap < 2 ^ 64 → 0 ≤ Trap.r_tp c < 2 ^ 64 → Trap.r_satp c = MAKE_SATP kroot →
  tables (kmem k) (pagetable x) T kroot Tk tf →
  @user_space _ (pagetable x) T l U (kmach k) → tf ∉ l → (∀ vpn pg, U !! vpn = Some pg → pg ≠ tf ∧ ¬ owns Tk pg) →
  ∃ sv st epc k', usertrapret hw trap c k = Ret (sv, st, epc, u) k' ∧ epc = load64 (kmem k) (tf + tf_epc) ∧
  ∀ h0, priv h0 = SMode → csrs h0 satp = Trap.r_satp c → mem h0 = kmem k' →
  Z.testbit (csrs (leaving sv st epc u h0) mstatus) 1 = false ∧
  ∃ h1, run_asm sv39 fn code userret (leaving sv st epc u h0) = Some h1 ∧
    priv h1 = UMode ∧ pc h1 = Z.ldiff epc 1 ∧ csrs h1 satp = u ∧
    (∀ r o, (r, o) ∈ trapframe_slots → regs h1 r = load64 (kmem k) (tf + o)) ∧
  ∀ h2 cause val, priv h2 = UMode → csrs h2 = csrs h1 → ranged h2 → user_stores u (mem h1) (mem h2) →
  pc (trap_s cause val h2) = TRAMPOLINE + uservec_offset ∧
  ∃ h3, run_asm sv39 fn code uservec (trap_s cause val h2) = Some h3 ∧
    priv h3 = SMode ∧ pc h3 = trap ∧ regs h3 sp = u64 (kstack x + PGSIZE) ∧ regs h3 tp = Trap.r_tp c ∧
    csrs h3 satp = Trap.r_satp c ∧ csrs h3 sepc = pc h2 ∧ csrs h3 scause = cause ∧ csrs h3 stval = val ∧
    Z.land (csr_read sstatus h3) Trap.SSTATUS_SPP = 0 ∧
    (∀ r o, (r, o) ∈ trapframe_slots → load64 (mem h3) (tf + o) = regs h2 r).
Proof.
  intros x tf u code Hw Htrap Htp Hsatp Htb Hus Hl HU. set (tr := tramp_tr (pagetable x) kroot tf).
  pose proof (tb_kernel _ _ _ _ _ _ Htb) as Hk. pose proof (tb_page _ _ _ _ _ _ Htb) as Hpg.
  destruct (usertrapret_runs hw trap c k Hw) as (k1 & E1 & Em1). fold x tf u in E1, Em1.
  destruct (crossing_fixed tr fn hw img_trampoline trap c k) as (sv & st & epc & k' & E & Eepc & Hrest); fold x tf u code; try done.
  { rewrite Hsatp. apply MAKE_SATP_range. eapply page_ok_pa_ok, (pt_page_ok Hk), (pt_root _ _ _ Hk). }
  { unfold tr, tramp_tr. rewrite !Z.eqb_refl. done. }
  { intros acc o Hacc Ho. unfold tr, tramp_tr. rewrite Z.eqb_refl, (proj2 (Z.leb_le _ _)), (proj2 (Z.ltb_lt _ _)) by lia.
    destruct acc; [done|simpl; f_equal; lia..]. }
  { unfold tr, tramp_tr. rewrite Hsatp, !Z.eqb_refl, orb_true_r. done. }
  rewrite E in E1. injection E1 as _ _ _ <-. exists sv, st, epc, k'. split; [exact E|]. split; [exact Eepc|]. clear E.
  assert (mem_eq_on (λ y, ¬ in_page tf y) (kmem k) (kmem k')) as Hk' by (rewrite Em1; apply tf_entry_page).
  assert (@keeps_tables (kmem k) T Tk (kmem k')) as Hkt by (by apply (keeps_tables_frame Htb (kmem k))).
  intros h0 Hp Hs Hm. destruct (Hrest h0 Hp Hs Hm) as (L1 & h1 & R1 & P1 & C1 & S1 & M1 & G1 & H2). split; [exact L1|].
  pose proof (λ code, run_lift (@keeps_tables (kmem k) T Tk) tr sv39 fn code (tramp_tr_sv39 Htb) (tramp_tr_store Htb)) as Hlift.
  exists h1. split.
  { apply Hlift; [exact Hp|exact (eq_ind_r (@keeps_tables _ T Tk) Hkt Hm)|by left|done|exact R1]. }
  split_and!; [done..|]. clear R1 G1. intros h2 cause val Hp2 Hc2 Hr2 Hst.
  assert (@user_space _ (pagetable x) T l U (Kalloc.set_mem (mem h1) (kmach k))) as Hus1.
  { rewrite M1. apply (user_space_other (kmach k) _ tf); try done. apply (tb_sep _ _ _ _ _ _ Htb). }
  destruct (user_stores_ok _ (mem h2) Hus1 Hst) as (_ & Hy & Hq). cbn [Kalloc.mem Kalloc.set_mem] in Hy, Hq.
  destruct (H2 h2 cause val Hp2 Hc2 Hr2) as (Epc & h3 & R3 & Hend).
  { intros a Ha. apply Hy. intros vpn pg Hpg' Hin. destruct (HU _ _ Hpg') as [Hne _]. apply Hne.
    eapply in_page_unique; [|done|done|done]. by apply (uvm_leaf _ _ _ _ _ (usp_inv _ Hus)) in Hpg' as (_ & ? & _). }
  split; [exact Epc|]. exists h3. split; [|exact Hend]. clear Hend. apply Hlift; [done| | |done|exact R3].
  - change (@keeps_tables (kmem k) T Tk (mem h2)). intros q Hown y Hiny. rewrite (Hkt q Hown y Hiny), <-M1.
    destruct Hown as [Ho|Ho]; [by apply (Hq q)|]. symmetry. apply Hy. intros vpn pg Hpg' Hin.
    destruct (HU _ _ Hpg') as [_ Hne]. apply Hne. replace pg with q; [done|].
    eapply in_page_unique; [by eapply owns_page_ok| |done|done]. by apply (uvm_leaf _ _ _ _ _ (usp_inv _ Hus)) in Hpg' as (_ & ? & _).
  - right. change (csrs h2 satp ≠ 0). rewrite Hc2, S1. apply MAKE_SATP_pos.
Qed.

(** A process whose table [proc_pagetable] has built; for the kernel, a table with
    the same trampoline. *)
Definition ex_running (r : Z) (s : machine) : kernel :=
  set_kmach s (set_procs (fset (procs ex_proc) 1 (set_pagetable r (procs ex_proc 1))) ex_proc).

Lemma ex_tables : ∃ r s T l, let x := procs (ex_running r s) 1 in
  tables (kmem (ex_running r s)) (pagetable x) T r T (trapframe x) ∧ @user_space _ (pagetable x) T l ∅ (kmach (ex_running r s)) ∧ trapframe x ∉ l.
Proof.
  assert (wp (proc_pagetable 1) (λ r k', r ≠ 0 → ∃ s' T l', built (kmach ex_proc) ex_list s' r T l' ∧
    ∀ va, pte_of (Kalloc.mem s') T va = tf_entries (ex_at 0) va) ex_proc) as Hw.
  { eapply (wp_proc_pagetable 1 ex_proc ex_list); [apply ex_list_inv|apply (ex_at_ok 0); lia|done|].
    intros r s' T l' _ Hb He _. by exists s', T, l'. }
  assert (match proc_pagetable 1 ex_proc with Ret r _ => r =? 0 | _ => true end = false) as Enz by (vm_compute; reflexivity).
  apply wp_inv in Hw as (r & k' & E & Hr). rewrite E in Enz. apply Z.eqb_neq in Enz. clear E.
  destruct (Hr Enz) as (s & T & l & Hb & He). exists r, s, T, l.
  assert (¬ owns T (ex_at 0) ∧ ex_at 0 ∉ l) as [Ho Hl].
  { split; intros Hin; apply ex_list_notin, (bt_pages _ _ _ _ _ _ Hb); auto. }
  pose proof (vm_pt _ _ _ _ (bt_vm _ _ _ _ _ _ Hb)) as Hpt. split; [|split; [|exact Hl]].
  - split; [exact Hpt|exact Hpt|exact (He TRAMPOLINE)|exact (He TRAPFRAME)|exact (He TRAMPOLINE)|apply (ex_at_ok 0); lia|done].
  - apply (tf_entries_space _ _ _ _ _ _ (ex_at 0)) in Hb; [exact Hb|apply ex_at_ok; lia|exact He].
Qed.

Definition ex_hart (r : Z) (m : memory) : hart := Hart (λ _, 0) (λ c, if decide (c = satp) then MAKE_SATP r else 0) SMode 0 m.

Lemma user_crossing_witness : ∃ r s sv st epc k' h1 h3,
  usertrapret (λ _, mret tt) 0x80002000 (Trap.Csrs 0 0 8 0 (MAKE_SATP r) 1) (ex_running r s) = Ret (sv, st, epc, MAKE_SATP r) k' ∧
  run_asm sv39 (λ _ h, Some h) (TRAMPOLINE, img_trampoline) userret (leaving sv st epc (MAKE_SATP r) (ex_hart r (kmem k'))) = Some h1 ∧
  run_asm sv39 (λ _ h, Some h) (TRAMPOLINE, img_trampoline) uservec (trap_s 8 0 (Hart (λ _, 7) (csrs h1) UMode 64 (mem h1))) = Some h3 ∧
  pc h3 = 0x80002000 ∧ regs h3 tp = 1.
Proof.
  destruct ex_tables as (r & s & T & l & Htb & Hus & Hl). exists r, s.
  destruct (user_crossing (λ _ h, Some h) (λ _, mret tt) 0x80002000 r (Trap.Csrs 0 0 8 0 (MAKE_SATP r) 1) (ex_running r s) T T l ∅)
    as (sv & st & epc & k' & E & _ & H).
  - done.
  - done.
  - done.
  - done.
  - exact Htb.
  - exact Hus.
  - exact Hl.
  - intros vpn pg [=].
  - destruct (H (ex_hart r (kmem k')) eq_refl eq_refl eq_refl) as (_ & h1 & R1 & _ & _ & _ & _ & H').
    destruct (H' (Hart (λ _, 7) (csrs h1) UMode 64 (mem h1)) 8 0 eq_refl eq_refl) as (_ & h3 & R3 & _ & C3 & _ & T3 & _).
    { intros reg. simpl. lia. }
    { apply us_none. }
    exists sv, st, epc, k', h1, h3. exact (conj E (conj R1 (conj R3 (conj C3 T3)))).
Defined.
