(* ===== verification/InitCode.v ===== *)
(** * The first user program: user/initcode.S

    [userinit] gives the first process a page with the bytes of the array
    [initcode] of kernel/proc.c, which the array's comment says are the program of
    user/initcode.S.  The program is translated into words; the bytes are decoded
    and run in user mode, behind the page table of the process; and the system
    call they make is followed to the call of [exec]. *)

From S2P Require Import Prelude Machine CString Kalloc Vm PageTable Mapping Uvm CopyUser Bio Cache Log Txn Fs Pipe Console Grep Printf Plic Kernel File Proc Exec Syscall Sysfile Trap ProcAlloc ProcTable Riscv Mmu.
Import Riscv.
Local Open Scope Z_scope.
Local Open Scope list_scope.

(** ** The program *)

Definition SYS_exec : Z := 7.
Definition SYS_exit : Z := 2.

(** The instructions of the program; addresses are relative to its start. *)
Inductive uinstr : Type :=
| La (rd : reg) (target : Z)
| Li (rd : reg) (v : Z)
| Ecall
| Jal (target : Z).

Definition usize (i : uinstr) : Z := match i with La _ _ => 8 | _ => 4 end.

(** start: la a0, init; la a1, argv; li a7, SYS_exec; ecall; exit: li a7, SYS_exit;
    ecall; jal exit *)
Definition initcode_S (init argv : Z) : list uinstr :=
  [La a0 init; La a1 argv; Li a7 SYS_exec; Ecall; Li a7 SYS_exit; Ecall; Jal 0x18].

(** init: .string with a further NUL; argv: .long init; .long 0 *)
Definition initdata (init pad : Z) : list Z :=
  str "/init" ++ [0; 0] ++ replicate (Z.to_nat pad) 0 ++ le_bytes 4 init ++ le_bytes 4 0.

(** ** The encoding *)

Definition reg_list : list reg :=
  [zero; ra; sp; gp; tp; t0; t1; t2; s0; s1; a0; a1; a2; a3; a4; a5; a6; a7; s2; s3; s4; s5; s6; s7; s8; s9; s10; s11;
   t3; t4; t5; t6].
Definition reg_of (n : Z) : reg := nth (Z.to_nat n) reg_list zero.
Definition num_of (r : reg) : Z := Z.of_nat (default 0%nat (fst <$> list_find (λ r', r' = r) reg_list)).

(** The words of an instruction at [pc]. *)
Definition encode (pc : Z) (i : uinstr) : list Z :=
  match i with
  | La rd t =>
      let off := t - pc in
      let lo := (off + 2048) `mod` 4096 - 2048 in
      let hi := (off - lo) / 4096 in
      [0x17 + num_of rd * 2 ^ 7 + (hi `mod` 2 ^ 20) * 2 ^ 12;
       0x13 + num_of rd * 2 ^ 7 + num_of rd * 2 ^ 15 + (lo `mod` 4096) * 2 ^ 20]
  | Li rd v => [0x13 + num_of rd * 2 ^ 7 + (v `mod` 4096) * 2 ^ 20]
  | Ecall => [0x73]
  | Jal t =>
      let off := (t - pc) `mod` 2 ^ 21 in
      let b i n := (off / 2 ^ i) `mod` 2 ^ n in
      [0x6f + 1 * 2 ^ 7 + b 12 8 * 2 ^ 12 + b 11 1 * 2 ^ 20 + b 1 10 * 2 ^ 21 + b 20 1 * 2 ^ 31]
  end.

Fixpoint assemble (pc : Z) (l : list uinstr) : list Z :=
  match l with [] => [] | i :: l' => (encode pc i ≫= le_bytes 4) ++ assemble (pc + usize i) l' end.

(** The program with [argv] at [a]: the string is behind the nine words. *)
Definition initcode_at (a : Z) : list Z := assemble 0 (initcode_S 0x24 a) ++ initdata 0x24 (a - 0x2b).

(** ** Running it *)

(** The fields of an instruction word. *)
Definition field (w i n : Z) : Z := (w / 2 ^ i) `mod` 2 ^ n.

Inductive outcome_u : Type := Next (h : hart) | Trapped (h : hart).

(** The instruction of a word: auipc, addi, jal or ecall. *)
Definition uexec (w : Z) (h : hart) : option outcome_u :=
  let rd := reg_of (field w 7 5) in
  if field w 0 7 =? 0x17 then
    Some (Next (set_pc (u64 (pc h + 4)) (set_reg rd (u64 (pc h + sext 20 (field w 12 20) * 4096)) h)))
  else if (field w 0 7 =? 0x13) && (field w 12 3 =? 0) then
    Some (Next (set_pc (u64 (pc h + 4)) (set_reg rd (u64 (regs h (reg_of (field w 15 5)) + sext 12 (field w 20 12))) h)))
  else if field w 0 7 =? 0x6f then
    let off := field w 21 10 * 2 + field w 20 1 * 2 ^ 11 + field w 12 8 * 2 ^ 12 + field w 31 1 * 2 ^ 20 in
    Some (Next (set_pc (u64 (pc h + sext 21 off)) (set_reg rd (u64 (pc h + 4)) h)))
  else if w =? 0x73 then Some (Trapped h)
  else None.

(** One instruction in user mode. *)
Definition ustep (h : hart) : option outcome_u :=
  pa ← sv39 (Riscv.mem h) UMode Fetch (csrs h satp) (pc h);
  uexec (load32 (Riscv.mem h) pa) h.

(** To the next system call, within [n] instructions. *)
Fixpoint urun (n : nat) (h : hart) : option hart :=
  match n with
  | O => None
  | S n' => o ← ustep h; match o with Next h' => urun n' h' | Trapped h' => Some h' end
  end.

(** The way back from a system call with the result [r] in a0. *)
Definition sysret (r : Z) (h : hart) : hart := set_pc (u64 (pc h + 4)) (set_reg a0 r h).

(** The page [pg] at address 0 of the table [T] holds the bytes of [initcode]. *)
Record loaded_at `{Image} (m : memory) (root : Z) (T : ptmap) (pg : Z) : Prop := {
  la_table : pt_inv m root T;
  la_leaf : pte_of m T 0 = leaf_pte pg UPERM;
  la_page : page_ok pg;
  la_code i : 0 ≤ i < PGSIZE → load8 m (pg + i) = load8 (bytes_of initcode) i
}.

(** * Lemmas *)

(** ** Memory that holds the program *)

Lemma loadn_shift n m m' a i : (∀ j, i ≤ j < i + Z.of_nat n → load8 m (a + j) = load8 m' j) → loadn n m (a + i) = loadn n m' i.
Proof.
  revert i. induction n as [|n IH]; intros i Hm; [done|]. cbn [loadn]. rewrite Hm by lia.
  rewrite <-Z.add_assoc, IH; [done|]. intros j Hj. apply Hm. lia.
Qed.

Lemma load_bytes_shift n m m' a i : (∀ j, i ≤ j < i + Z.of_nat n → load8 m (a + j) = load8 m' j) →
  load_bytes n m (a + i) = load_bytes n m' i.
Proof.
  intros Hm. apply list_eq. intros k. destruct (decide (k < n)%nat) as [Hk|Hk].
  - rewrite !lookup_load_bytes by done. f_equal. rewrite <-Z.add_assoc. apply Hm. lia.
  - rewrite !lookup_ge_None_2; [done|..]; rewrite length_load_bytes; lia.
Qed.

Lemma copyinstr_page_shift n m m' a i : (∀ j, i ≤ j < i + Z.of_nat n → load8 m (a + j) = load8 m' j) →
  copyinstr_page n m (a + i) = copyinstr_page n m' i.
Proof.
  revert i. induction n as [|n IH]; intros i Hm; [done|]. cbn [copyinstr_page]. rewrite Hm by lia.
  rewrite <-Z.add_assoc, IH; [done|]. intros j Hj. apply Hm. lia.
Qed.

Section program.
Context `{Image} {m : memory} {root : Z} {T : ptmap} {pg : Z}.
Hypothesis Hld : loaded_at m root T pg.

Lemma init_fetch i : 0 ≤ i → i + 4 ≤ PGSIZE →
  sv39 m UMode Fetch (MAKE_SATP root) i = Some (pg + i) ∧ load32 m (pg + i) = load32 (bytes_of initcode) i.
Proof.
  intros Hi Hi'. destruct Hld as [Hpt Hleaf Hpg Hcode]. split.
  - rewrite (sv39_pt Hpt), (proj2 (Z.ltb_lt _ _)) by (change MAXVA with 274877906944; unfold PGSIZE in *; lia).
    rewrite (pte_of_page _ _ i 0), Hleaf by (unfold PGSIZE in *; dlia).
    rewrite leaf_tr_mapped by first [by apply page_ok_pa_ok|by vm_compute]. rewrite Z.mod_small by lia. done.
  - apply (loadn_shift 4). intros j Hj. apply Hcode. lia.
Qed.

Lemma init_user_pa : user_pa m T 0 = pg ∧ pg ≠ 0.
Proof.
  destruct Hld as [_ Hleaf Hpg _]. split; [|by apply page_ok_nonzero]. unfold user_pa. change (0 >=? MAXVA) with false. cbv zeta iota.
  rewrite Hleaf. rewrite leaf_pte_valid. change (PTE_V =? 0) with false. cbv iota.
  pose proof (page_ok_pa_ok pg Hpg). rewrite land_flags, PTE_FLAGS_leaf, PTE2PA_leaf by done. done.
Qed.

(** A step executes the word of [initcode] at the program counter. *)
Lemma urun_at n w h : Riscv.mem h = m → csrs h satp = MAKE_SATP root → 0 ≤ pc h → pc h + 4 ≤ PGSIZE →
  load32 (bytes_of initcode) (pc h) = w →
  urun (S n) h = (o ← uexec w h; match o with Next h' => urun n h' | Trapped h' => Some h' end).
Proof.
  intros Hm Hs H0 H4 <-. cbn [urun]. unfold ustep. rewrite Hm, Hs. destruct (init_fetch (pc h) H0 H4) as [E1 E2]. rewrite E1. simpl. by rewrite E2.
Qed.

Lemma urun_next n w h h' : Riscv.mem h = m → csrs h satp = MAKE_SATP root → 0 ≤ pc h → pc h + 4 ≤ PGSIZE →
  load32 (bytes_of initcode) (pc h) = w → uexec w h = Some (Next h') → urun (S n) h = urun n h'.
Proof. intros Hm Hs H0 H4 Hw E. by rewrite (urun_at n w h), E. Qed.

Lemma urun_ecall n h : Riscv.mem h = m → csrs h satp = MAKE_SATP root → 0 ≤ pc h → pc h + 4 ≤ PGSIZE →
  load32 (bytes_of initcode) (pc h) = 0x73 → urun (S n) h = Some h.
Proof. intros Hm Hs H0 H4 Hw. by rewrite (urun_at n 0x73 h). Qed.

Ltac ustep w := erewrite (urun_next _ w); [|done|done|done|done|vm_compute; reflexivity|reflexivity].

(** From the start to [exec]. *)
Lemma init_start h : Riscv.mem h = m → csrs h satp = MAKE_SATP root → regs h zero = 0 → pc h = 0 →
  ∃ h', urun 6 h = Some h' ∧ pc h' = 0x14 ∧ regs h' a0 = 0x24 ∧ regs h' a1 = 0x2b ∧ regs h' a7 = SYS_exec ∧
    regs h' zero = 0 ∧ Riscv.mem h' = m ∧ csrs h' = csrs h ∧ priv h' = priv h.
Proof.
  intros Hm Hs Hz Hpc. destruct h as [rg cs pr pc0 me]. cbn [pc Riscv.mem csrs regs] in Hm, Hs, Hz, Hpc. subst me pc0. eexists. split.
  - ustep 0x517. ustep 0x2450513. ustep 0x597. ustep 0x2358593. ustep 0x700893. apply urun_ecall; [done|done|done|done|vm_compute; reflexivity].
  - split_and!; try reflexivity; [|exact Hz]. transitivity (u64 (rg zero + 7)); [reflexivity|]. by rewrite Hz.
Qed.

(** From the way back of a system call at 0x14 or 0x1c to [exit]. *)
Lemma init_exit h : Riscv.mem h = m → csrs h satp = MAKE_SATP root → regs h zero = 0 → pc h = 0x18 ∨ pc h = 0x20 →
  ∃ h', urun 3 h = Some h' ∧ pc h' = 0x1c ∧ regs h' a0 = regs h a0 ∧ regs h' a7 = SYS_exit ∧
    regs h' zero = 0 ∧ Riscv.mem h' = m ∧ csrs h' = csrs h ∧ priv h' = priv h.
Proof.
  intros Hm Hs Hz Hpc. destruct h as [rg cs pr pc0 me]. cbn [pc Riscv.mem csrs regs] in Hm, Hs, Hz, Hpc. subst me. destruct Hpc as [-> | ->]; eexists; split.
  - ustep 0x200893. apply urun_ecall; [done|done|done|done|vm_compute; reflexivity].
  - split_and!; try reflexivity; [|exact Hz]. transitivity (u64 (rg zero + 2)); [reflexivity|]. by rewrite Hz.
  - ustep 0xff9ff0ef. ustep 0x200893. apply urun_ecall; [done|done|done|done|vm_compute; reflexivity].
  - split_and!; try reflexivity; [|exact Hz]. transitivity (u64 (rg zero + 2)); [reflexivity|]. by rewrite Hz.
Qed.

End program.

(** ** The arguments of the system call *)

Section arguments.
Context `{Image} {root : Z} {T : ptmap} {pg : Z}.

Lemma loaded_walkaddr s : loaded_at (Kalloc.mem s) root T pg → walkaddr root 0 s = Ret pg s.
Proof.
  intros Hld. rewrite (walkaddr_eq (T := T)) by first [apply Hld|lia]. by destruct (init_user_pa Hld) as [-> _].
Qed.

Lemma init_copyin s i : loaded_at (Kalloc.mem s) root T pg → 0 ≤ i → i + 8 ≤ PGSIZE →
  copyin root i 8 s = Ret (0, load_bytes 8 (bytes_of initcode) i) s.
Proof.
  intros Hld Hi Hi'. destruct (init_user_pa Hld) as [_ Hnz].
  unfold copyin. change (Z.to_nat (8 / PGSIZE + 3)) with 3%nat. cbn [copyin_loop].
  assert (PGROUNDDOWN i = 0) as -> by (rewrite PGROUNDDOWN_eq; unfold PGSIZE in *; dlia).
  change (8 >? 0) with true. cbv iota. erewrite bind_Ret by (by apply loaded_walkaddr).
  rewrite (proj2 (Z.eqb_neq _ _) Hnz). cbv zeta. rewrite Z.sub_0_r. destruct (Z.gtb_spec (PGSIZE - i) 8) as [Hg|Hg].
  2: { assert (PGSIZE - i = 8) as -> by lia. cbn [mbind M_bind]. unfold gets, mbind, M_bind. simpl.
       f_equal. f_equal. apply (load_bytes_shift 8). intros j Hj. apply (la_code _ _ _ _ Hld). lia. }
  unfold gets, mbind, M_bind. simpl. f_equal. f_equal. apply (load_bytes_shift 8). intros j Hj. apply (la_code _ _ _ _ Hld). lia.
Qed.

Lemma init_copyinstr s max : loaded_at (Kalloc.mem s) root T pg → max = MAXPATH ∨ max = PGSIZE →
  copyinstr root 0x24 max s = Ret (0, str "/init" ++ [0]) s.
Proof.
  intros Hld Hmax. destruct (init_user_pa Hld) as [_ Hnz].
  assert (∀ n, (n ≤ 4060)%nat → copyinstr_page n (Kalloc.mem s) (pg + 0x24) = copyinstr_page n (bytes_of initcode) 0x24) as Hp.
  { intros n Hn. apply copyinstr_page_shift. intros j Hj. apply (la_code _ _ _ _ Hld). unfold PGSIZE. lia. }
  unfold copyinstr. destruct Hmax as [-> | ->].
  - change (Z.to_nat (MAXPATH / PGSIZE + 3)) with 3%nat. cbn [copyinstr_loop].
    change (PGROUNDDOWN 36) with 0. change (MAXPATH >? 0) with true. cbv iota. erewrite bind_Ret by (by apply loaded_walkaddr).
    rewrite (proj2 (Z.eqb_neq _ _) Hnz). change (36 - 0) with 36. change (PGSIZE - 36 >? MAXPATH) with true. cbv iota zeta.
    unfold gets, mbind at 1, M_bind at 1. rewrite Hp by (vm_compute; lia). vm_compute (copyinstr_page _ _ _). reflexivity.
  - change (Z.to_nat (PGSIZE / PGSIZE + 3)) with 4%nat. cbn [copyinstr_loop].
    change (PGROUNDDOWN 36) with 0. change (PGSIZE >? 0) with true. cbv iota. erewrite bind_Ret by (by apply loaded_walkaddr).
    rewrite (proj2 (Z.eqb_neq _ _) Hnz). change (36 - 0) with 36. change (PGSIZE - 36 >? PGSIZE) with false. cbv iota zeta.
    unfold gets, mbind at 1, M_bind at 1. rewrite Hp by (vm_compute; lia). vm_compute (copyinstr_page _ _ _). reflexivity.
Qed.

End arguments.

Lemma on_mach_Ret {A} (c : M machine A) k a s' : c (kmach k) = Ret a s' → on_mach c k = Ret a (set_kmach s' k).
Proof. intros E. unfold on_mach, zoom. by rewrite E. Qed.

Lemma set_kmach_id k : set_kmach (kmach k) k = k.
Proof. by destruct k. Qed.

(** The words at [argv]. *)
Lemma init_argv0 : load64 (bytes_of (load_bytes 8 (bytes_of initcode) 0x2b)) 0 = 0x24.
Proof. vm_compute. reflexivity. Qed.

Lemma init_argv1 : load64 (bytes_of (load_bytes 8 (bytes_of initcode) 0x33)) 0 = 0.
Proof. vm_compute. reflexivity. Qed.

(** One argument, and the end of the arguments. *)
Lemma fetch_args_next `{Image} n uargv i argv strs k uarg pg s1 len buf s2 :
  fetchaddr (u64 (uargv + 8 * i)) k = Ret (0, uarg) k → uarg ≠ 0 → kalloc (kmach k) = Ret pg s1 → pg ≠ 0 →
  fetchstr uarg PGSIZE (set_kmach s1 k) = Ret (len, buf) (set_kmach s1 k) → 0 ≤ len →
  s2 = Kalloc.set_mem (store_bytes (Kalloc.mem s1) pg buf) s1 →
  fetch_args (S n) uargv i argv strs k = fetch_args n uargv (i + 1) (argv ++ [pg]) (strs ++ [until_nul buf]) (set_kmach s2 k).
Proof.
  intros E1 Hu E2 Hpg E3 Hlen ->. cbn [fetch_args]. erewrite bind_Ret by exact E1. cbv beta iota.
  rewrite (proj2 (Z.eqb_neq _ _) Hu). change (0 <? 0) with false. cbv iota.
  erewrite bind_Ret by (apply on_mach_Ret; exact E2). rewrite (proj2 (Z.eqb_neq _ _) Hpg).
  erewrite bind_Ret by exact E3. cbv beta iota. erewrite bind_Ret by (apply on_mach_Ret; reflexivity).
  rewrite (proj2 (Z.ltb_ge _ _) Hlen). reflexivity.
Qed.

Lemma fetch_args_end `{Image} n uargv i argv strs k : fetchaddr (u64 (uargv + 8 * i)) k = Ret (0, 0) k →
  fetch_args (S n) uargv i argv strs k = Ret (true, argv, strs) k.
Proof. intros E. cbn [fetch_args]. erewrite bind_Ret by exact E. reflexivity. Qed.

Section exec.
Context `{Image} (T : ptmap) (pg q : Z) (l : list Z) (U : umap) (k : kernel).
Let x := procs k (curproc k).
Hypothesis Hus : @user_space _ (pagetable x) T (q :: l) U (kmach k).
Hypothesis Hld : loaded_at (Kalloc.mem (kmach k)) (pagetable x) T pg.
Hypothesis Hsz : sz x = PGSIZE.

(** A state of the kernel that differs in memory only, and there still has the
    program. *)
Lemma init_fetchstr s max : loaded_at (Kalloc.mem s) (pagetable x) T pg → max = MAXPATH ∨ max = PGSIZE →
  fetchstr 0x24 max (set_kmach s k) = Ret (5, str "/init" ++ [0]) (set_kmach s k).
Proof.
  intros Hs Hmax. unfold fetchstr. erewrite bind_Ret by reflexivity. erewrite bind_Ret by reflexivity.
  change (pagetable _) with (pagetable x). erewrite bind_Ret by (apply on_mach_Ret; exact (init_copyinstr s max Hs Hmax)). reflexivity.
Qed.

Lemma init_fetchaddr s i : loaded_at (Kalloc.mem s) (pagetable x) T pg → 0 ≤ i → i + 8 ≤ PGSIZE →
  fetchaddr i (set_kmach s k) = Ret (0, load64 (bytes_of (load_bytes 8 (bytes_of initcode) i)) 0) (set_kmach s k).
Proof.
  intros Hs Hi Hi'. unfold fetchaddr. erewrite bind_Ret by reflexivity. erewrite bind_Ret by reflexivity.
  change (sz _) with (sz x). change (pagetable _) with (pagetable x). rewrite Hsz.
  rewrite u64_small by (unfold PGSIZE in *; lia). destruct (Z.geb_spec i PGSIZE); [unfold PGSIZE in *; lia|].
  destruct (Z.gtb_spec (i + 8) PGSIZE); [lia|]. cbn [orb]. erewrite bind_Ret by (apply on_mach_Ret; exact (init_copyin s i Hs Hi Hi')). reflexivity.
Qed.

(** The page that [sys_exec] takes for the string is not one of the program's. *)
Lemma init_other_page m' : mem_eq_on (λ y, ¬ in_page q y) (Kalloc.mem (kmach k)) m' → loaded_at m' (pagetable x) T pg.
Proof.
  intros Hm. destruct Hld as [Hpt Hleaf Hpg Hcode]. pose proof (usp_inv _ Hus) as Hinv.
  assert (page_ok q) as Hq by (eapply elem_page_ok; [apply Hinv|by left]).
  assert (∀ p, page_ok p → p ≠ q → mem_eq_on (in_page p) (Kalloc.mem (kmach k)) m') as Hother.
  { intros p Hp Hne y Hy. apply Hm. intros Hy'. by destruct Hne; eapply in_page_unique. }
  assert (∀ p, owns T p → mem_eq_on (in_page p) (Kalloc.mem (kmach k)) m') as Hown.
  { intros p Hp. apply Hother; [by eapply owns_page_ok|]. intros ->. eapply (vm_sep _ _ _ _ (uvm_vm _ _ _ _ _ Hinv)); [done|by left]. }
  assert (pg ≠ q) as Hne.
  { destruct (init_user_pa Hld) as [E Hnz]. pose proof (user_pa_page _ 0 Hus ltac:(lia)) as Hu. rewrite E in Hu. specialize (Hu Hnz).
    apply (uvm_sep _ _ _ _ _ Hinv) in Hu as [Hl _]. intros ->. apply Hl. by left. }
  split; [by eapply pt_inv_frame|by rewrite (pte_of_frame m' 0 Hown)|done|].
  intros i Hi. rewrite <-(Hother pg Hpg Hne) by (unfold in_page; lia). by apply Hcode.
Qed.

(** The arguments are one string, in the page [q]. *)
Lemma init_fetch_args : ∃ s', fetch_args (Z.to_nat MAXARG) 0x2b 0 [] [] k = Ret (true, [q], [str "/init"]) (set_kmach s' k) ∧
  kmem_inv s' l ∧ mem_eq_on (λ y, ¬ in_page q y) (Kalloc.mem (kmach k)) (Kalloc.mem s').
Proof.
  pose proof (vm_kmem _ _ _ _ (uvm_vm _ _ _ _ _ (usp_inv _ Hus))) as Hk.
  assert (wp kalloc (λ r s1, r = q ∧ kmem_inv s1 l ∧ mem_eq_on (λ y, ¬ in_page q y) (Kalloc.mem (kmach k)) (Kalloc.mem s1)) (kmach k)) as Hw.
  { eapply wp_kalloc_cons; [exact Hk|]. intros s1 H1 H2 _. done. }
  apply wp_inv in Hw as (r & s1 & E1 & -> & Hk1 & Hm1).
  assert (page_ok q ∧ q ∉ l) as [Hq Hnin].
  { destruct Hk as [_ Hf Hd]. apply Forall_cons in Hf as [? _]. by apply NoDup_cons in Hd as [? _]. }
  pose proof (init_other_page _ Hm1) as Hld1.
  set (m2 := store_bytes (Kalloc.mem s1) q (str "/init" ++ [0])).
  assert (mem_eq_on (λ y, ¬ in_page q y) (Kalloc.mem s1) m2) as Hm2.
  { intros y Hy. symmetry. apply load8_store_bytes_out. unfold in_page, PGSIZE in Hy. simpl. lia. }
  assert (mem_eq_on (λ y, ¬ in_page q y) (Kalloc.mem (kmach k)) m2) as Hm3 by (intros y Hy; rewrite Hm1 by done; by apply Hm2).
  exists (Kalloc.set_mem m2 s1). split; [|split; [|exact Hm3]].
  - change (Z.to_nat MAXARG) with (S (S 30)).
    rewrite (fetch_args_next _ _ _ _ _ k 0x24 q s1 5 (str "/init" ++ [0]) (Kalloc.set_mem m2 s1)); [|..].
    + apply fetch_args_end. change (u64 (0x2b + 8 * (0 + 1))) with 0x33. rewrite <-init_argv1.
      apply init_fetchaddr; [by apply init_other_page|lia|unfold PGSIZE; lia].
    + change (u64 (0x2b + 8 * 0)) with 0x2b. rewrite <-init_argv0, <-(set_kmach_id k). apply init_fetchaddr; [done|lia|unfold PGSIZE; lia].
    + done.
    + done.
    + by apply page_ok_nonzero.
    + apply init_fetchstr; [done|by right].
    + lia.
    + done.
  - apply kmem_inv_ext; [done|]. intros p Hp y Hy. apply Hm2. intros Hy'.
    assert (page_ok p) by (eapply elem_page_ok; [apply Hk1|done]). by rewrite (in_page_unique p q y) in Hp.
Qed.

End exec.

(** * Claims *)

(** C16: The first program of the system calls [exec("/init", {"/init"})].  The bytes that
    [userinit] copies are the words of initcode.S with [argv] at the odd address
    0x2b, not at the aligned one that initcode.S asks for.  In a process whose first
    page holds them, they run in user mode to a system call with the number of exec;
    with the registers of that moment in the trapframe, [sys_exec] calls [exec] with
    the path and the one argument "/init", a copy of which is in a page that was
    free; and if that returns, the program calls exit, again and again. *)
Theorem initcode_execs_init `{Image} T pg q l U k h : let x := procs k (curproc k) in
  loaded_at (Riscv.mem h) (pagetable x) T pg → csrs h satp = MAKE_SATP (pagetable x) → regs h zero = 0 → pc h = 0 →
  initcode = initcode_at 0x2b ++ [0] ∧
  ∃ h1, urun 6 h = Some h1 ∧ regs h1 a7 = SYS_exec ∧
    (@user_space _ (pagetable x) T (q :: l) U (kmach k) → loaded_at (Kalloc.mem (kmach k)) (pagetable x) T pg → sz x = PGSIZE →
     load64 (Kalloc.mem (kmach k)) (trapframe x + tf_a0) = regs h1 a0 → load64 (Kalloc.mem (kmach k)) (trapframe x + tf_a1) = regs h1 a1 →
     ∃ s', sys_exec k = (ret ← exec (str "/init") [str "/init"]; free_args [q] ;; mret ret) (set_kmach s' k) ∧
       kmem_inv s' l ∧ mem_eq_on (λ y, ¬ in_page q y) (Kalloc.mem (kmach k)) (Kalloc.mem s')) ∧
    ∀ r, ∃ h2, urun 3 (sysret r h1) = Some h2 ∧ regs h2 a7 = SYS_exit ∧
    ∀ r', ∃ h3, urun 3 (sysret r' h2) = Some h3 ∧ regs h3 a7 = SYS_exit ∧ pc h3 = pc h2.
Proof.
  intros x Hld Hsatp Hz Hpc. split; [vm_compute; reflexivity|].
  destruct (init_start Hld h) as (h1 & E1 & P1 & A0 & A1 & A7 & Z1 & M1 & C1 & _); try done.
  exists h1. split; [done|]. split; [done|]. split.
  - intros Hus Hldk Hsz H0 H1. rewrite A0 in H0. rewrite A1 in H1.
    destruct (init_fetch_args T pg q l U k Hus Hldk Hsz) as (s' & Ef & Hk & Hm). exists s'. split; [|done].
    unfold sys_exec.
    assert (argstr 0 MAXPATH k = Ret (5, str "/init") k) as Ea.
    { unfold argstr. assert (argaddr 0 k = Ret 0x24 k) as E by (rewrite <-H0, <-(set_kmach_id k); reflexivity).
      erewrite bind_Ret by exact E.
      assert (fetchstr 0x24 MAXPATH k = Ret (5, str "/init" ++ [0]) k) as E' by (rewrite <-(set_kmach_id k); eapply init_fetchstr; [done|by left]).
      erewrite bind_Ret by exact E'. reflexivity. }
    erewrite bind_Ret by exact Ea. cbv beta iota. change (5 <? 0) with false. cbv iota.
    assert (argaddr 1 k = Ret 0x2b k) as E by (rewrite <-H1, <-(set_kmach_id k); reflexivity).
    erewrite bind_Ret by exact E. erewrite bind_Ret by exact Ef. reflexivity.
  - intros r. destruct (init_exit Hld (sysret r h1)) as (h2 & E2 & P2 & _ & B7 & Z2 & M2 & C2 & _); [done|by rewrite <-Hsatp, <-C1|done|left; simpl; by rewrite P1|].
    exists h2. split; [done|]. split; [done|]. intros r'.
    destruct (init_exit Hld (sysret r' h2)) as (h3 & E3 & P3 & _ & D7 & _); [done| |done|right; simpl; by rewrite P2|].
    { change (csrs h2 satp = MAKE_SATP (pagetable x)). by rewrite C2, <-Hsatp, <-C1. }
    exists h3. split_and!; [done|done|congruence].
Qed.

(** The process of one page, with the program in it, and with the registers of the
    call in its trapframe. *)
Definition ex_tf : Z := ex_page + 5 * PGSIZE.
Definition ex_code : machine := Kalloc.set_mem (store_bytes (Kalloc.mem ex_space) ex_user initcode) ex_space.
Definition ex_called : machine :=
  Kalloc.set_mem (store64 (store64 (Kalloc.mem ex_code) (ex_tf + tf_a0) 0x24) (ex_tf + tf_a1) 0x2b) ex_code.
Definition ex_first : kernel :=
  set_kmach ex_called (set_procs (fset ex_procs 1 (set_sz PGSIZE (set_pagetable ex_page (set_trapframe ex_tf (ex_procs 1))))) ex_kernel).

Lemma ex_called_space : @user_space _ ex_page ex_T [ex_free] ex_U ex_called ∧
  ∀ va, pte_of (Kalloc.mem ex_called) ex_T va = pte_of (Kalloc.mem ex_space) ex_T va.
Proof.
  destruct (user_write ex_space (Kalloc.mem ex_code) 0 ex_user ex_user_space eq_refl) as [H1 E1].
  { intros y Hy. symmetry. apply load8_store_bytes_out. intros Hin. apply Hy. unfold in_page, PGSIZE.
    change (Z.of_nat (length initcode)) with 52 in Hin. lia. }
  destruct (user_space_other ex_code (Kalloc.mem ex_called) ex_tf H1) as [H2 E2].
  - vm_compute. intuition discriminate.
  - apply not_elem_of_cons. split; [by vm_compute|apply not_elem_of_nil].
  - intros [[l p] E]. apply ex_T_Some in E. vm_compute in E. naive_solver.
  - intros y Hy. symmetry. unfold in_page, PGSIZE in Hy. unfold ex_called. simpl Kalloc.mem.
    rewrite !load8_store64_ne by (unfold tf_a0, tf_a1; lia). done.
  - split; [exact H2|]. intros va. rewrite E2. apply E1.
Qed.

Lemma ex_called_loaded : loaded_at (Kalloc.mem ex_called) ex_page ex_T ex_user.
Proof.
  destruct ex_called_space as [Hs E]. split.
  - apply (usp_inv _ Hs).
  - rewrite E. vm_compute. reflexivity.
  - apply ex_pages_ok.
  - assert (forallb (λ i, load8 (Kalloc.mem ex_called) (ex_user + i) =? load8 (bytes_of initcode) i) (seqZ 0 PGSIZE) = true) as Hb by (vm_compute; reflexivity).
    rewrite forallb_forall in Hb. intros i Hi. apply Z.eqb_eq, Hb. apply list_elem_of_In, elem_of_seqZ. lia.
Qed.

Definition ex_hart : hart := Hart (λ _, 0) (λ c, if decide (c = satp) then MAKE_SATP ex_page else 0) UMode 0 (Kalloc.mem ex_called).

Lemma initcode_execs_init_witness : ∃ h1 s' h2, urun 6 ex_hart = Some h1 ∧ regs h1 a7 = SYS_exec ∧
  sys_exec ex_first = (ret ← exec (str "/init") [str "/init"]; free_args [ex_free] ;; mret ret) (set_kmach s' ex_first) ∧
  urun 3 (sysret (-1) h1) = Some h2 ∧ regs h2 a7 = SYS_exit.
Proof.
  destruct (initcode_execs_init ex_T ex_user ex_free [] ex_U ex_first ex_hart) as (_ & h1 & E1 & A7 & Hc & Hr).
  - exact ex_called_loaded.
  - reflexivity.
  - reflexivity.
  - reflexivity.
  - destruct Hc as (s' & Es & _).
    + exact (proj1 ex_called_space).
    + exact ex_called_loaded.
    + reflexivity.
    + assert (option_map (λ h, regs h a0) (urun 6 ex_hart) = Some 0x24) as E by (vm_compute; reflexivity).
      rewrite E1 in E. injection E as ->. vm_compute. reflexivity.
    + assert (option_map (λ h, regs h a1) (urun 6 ex_hart) = Some 0x2b) as E by (vm_compute; reflexivity).
      rewrite E1 in E. injection E as ->. vm_compute. reflexivity.
    + destruct (Hr (-1)) as (h2 & E2 & B7 & _). exists h1, s', h2. exact (conj E1 (conj A7 (conj Es (conj E2 B7)))).
Defined.
