(* ===== verification/Find.v ===== *)
(** * user/find.c

    The file system as the program sees it is a parameter: what [open] and [stat]
    make of a path.  The state is the number of descriptors in use and the two
    outputs.  The name of a directory entry is its array of [DIRSIZ] bytes. *)

From Stdlib Require Import Ascii String.
From S2P Require Import Prelude Machine CString Fs Grep Printf Kernel Proc.
Local Open Scope Z_scope.
Local Open Scope list_scope.

Module Find.

(** An open file: what [fstat] says of its type, and the entries that [read]
    delivers if it is a directory. *)
Record dirfile := DirFile { fstat : option Z; dirents : list (Z * list Z) }.

Record fstate := FState { nfd : Z; out : list Z; err : list Z }.

Definition print (l : list Z) : M fstate unit := modify (λ s, FState (nfd s) (out s ++ l) (err s)).
Definition eprint (l : list Z) : M fstate unit := modify (λ s, FState (nfd s) (out s) (err s ++ l)).

Section find.
Context (fs_open : list Z → option dirfile) (fs_stat : list Z → option Z).

Definition find_open (path : list Z) : M fstate (option dirfile) :=
  n ← gets nfd;
  match fs_open path with
  | Some f =>
      if n <? NOFILE then modify (λ s, FState (nfd s + 1) (out s) (err s)) ;; mret (Some f)
      else mret None
  | None => mret None
  end.

Definition find_close : M fstate unit := modify (λ s, FState (nfd s - 1) (out s) (err s)).

(** [stat] of user/ulib.c opens the file. *)
Definition find_stat (path : list Z) : M fstate (option Z) :=
  n ← gets nfd;
  mret (if n <? NOFILE then fs_stat path else None).

(** The body of the loop; [rec] is the recursive call. *)
Definition find_entry (rec : list Z → M fstate unit) (path filename : list Z) (de : Z * list Z) : M fstate unit :=
  let '(inum_, name) := de in
  if inum_ =? 0 then mret tt
  else
    let s := until_nul name in
    let buf := path ++ [47] ++ s in
    r ← find_stat buf;
    match r with
    | None => print (str "find: cannot stat " ++ buf ++ [NL])
    | Some type =>
        if (type =? T_DIR) && negb (bool_decide (s = str ".")) && negb (bool_decide (s = str "..")) then rec buf
        else if negb (existsb (Z.eqb 0) name) then undefined "the name is not terminated"
        else if match_re filename s then print (buf ++ [NL]) else mret tt
    end.

Fixpoint find (fuel : nat) (filename path : list Z) : M fstate unit :=
  match fuel with
  | O => out_of_fuel
  | S fuel' =>
      r ← find_open path;
      match r with
      | None => eprint (str "find: cannot open " ++ path ++ [NL])
      | Some f =>
          match fstat f with
          | None => eprint (str "find: cannot stat " ++ path ++ [NL]) ;; find_close
          | Some type =>
              if negb (type =? T_DIR) then
                eprint (str "find: " ++ path ++ str " is not a directory" ++ [NL]) ;; find_close
              else if Z.of_nat (length path) + 1 + DIRSIZ + 1 >? 512 then
                print (str "ls: path too long" ++ [NL])
              else
                for_each (dirents f) (find_entry (find fuel' filename) path filename) ;;
                find_close
          end
      end
  end.

(** The path grows with every recursive call. *)
Definition find_fuel : nat := 513.

Definition find_main (argv : list (list Z)) : M fstate unit :=
  match argv with
  | _ :: dir :: filename :: _ => find find_fuel filename dir
  | _ => print (str "usage : find <directory> <filename>" ++ [NL])
  end.

End find.

(** ** Termination *)

(** [m] neither runs out of fuel nor waits. *)
Definition ends {A} (m : M fstate A) : Prop := ∀ s, match m s with OutOfFuel | Sleep _ _ => False | _ => True end.

Lemma ends_bind {A B} (m : M fstate A) (f : A → M fstate B) : ends m → (∀ a, ends (f a)) → ends (m ≫= f).
Proof. intros Hm Hf s. specialize (Hm s). unfold mbind, M_bind. destruct (m s); try done. apply Hf. Qed.

Lemma ends_modify f : ends (modify f).
Proof. done. Qed.

Lemma ends_for_each {A} (l : list A) (f : A → M fstate unit) : (∀ a, ends (f a)) → ends (for_each l f).
Proof. intros Hf. induction l as [|a l IH]; [done|]. cbn [for_each]. apply ends_bind; [apply Hf|done]. Qed.

Lemma ends_entry fs_stat rec path filename de : (∀ q, (length path < length q)%nat → ends (rec q)) →
  ends (find_entry fs_stat rec path filename de).
Proof.
  intros Hrec. destruct de as [i name]. unfold find_entry. destruct (i =? 0); [done|]. cbv zeta.
  apply ends_bind; [done|]. intros [ty|]; [|apply ends_modify]. destruct (_ && _ && _).
  - apply Hrec. rewrite length_app. simpl. lia.
  - destruct (negb _); [done|]. by destruct (match_re _ _).
Qed.

(** The search ends whatever the file system looks like, cycles included: a path
    grows with every level and is refused when it is too long for the buffer. *)
Theorem find_terminates fs_open fs_stat fuel filename path :
  (513 - Z.of_nat (length path) ≤ Z.of_nat fuel) → (0 < fuel)%nat → ends (find fs_open fs_stat fuel filename path).
Proof.
  revert path. induction fuel as [|fuel IH]; intros path Hf H0; [lia|]. cbn [find]. apply ends_bind.
  - unfold find_open. apply ends_bind; [done|]. intros n. destruct (fs_open path); [|done]. by destruct (n <? NOFILE).
  - intros [f|]; [|apply ends_modify]. destruct (fstat f) as [ty|]; [|by apply ends_bind].
    destruct (negb (ty =? T_DIR)); [by apply ends_bind|].
    destruct (Z.gtb_spec (Z.of_nat (length path) + 1 + DIRSIZ + 1) 512) as [|Hlen]; [apply ends_modify|]. unfold DIRSIZ in Hlen.
    apply ends_bind; [|done]. apply ends_for_each. intros de. apply ends_entry. intros q Hq. apply IH; lia.
Qed.

(** ** What is printed *)

(** A file system as a tree: a file that is no directory, with its type, or a
    directory with its entries: free ones, "." and "..", and its children. *)
Inductive tree : Type :=
| Leaf (ty : Z)
| Dir (l : forest)
with forest : Type :=
| FNil
| FFree (f : forest)
| FDot (name : list Z) (f : forest)
| FChild (name : list Z) (t : tree) (f : forest).

Scheme tree_mut := Induction for tree Sort Prop
with forest_mut := Induction for forest Sort Prop.

Fixpoint depth (t : tree) : nat :=
  match t with Leaf _ => O | Dir l => S (depth_f l) end
with depth_f (f : forest) : nat :=
  match f with
  | FNil => O
  | FFree f | FDot _ f => depth_f f
  | FChild _ t f => Nat.max (depth t) (depth_f f)
  end.

Definition child (p name : list Z) : list Z := p ++ [47] ++ name.

(** The entries that are no directories to descend into, with their paths, in the
    order of the directories. *)
Fixpoint leaves (p : list Z) (t : tree) : list (list Z * list Z) :=
  match t with Leaf _ => [] | Dir l => leaves_f p l end
with leaves_f (p : list Z) (f : forest) : list (list Z * list Z) :=
  match f with
  | FNil => []
  | FFree f => leaves_f p f
  | FDot name f => (child p name, name) :: leaves_f p f
  | FChild name (Leaf _) f => (child p name, name) :: leaves_f p f
  | FChild name t f => leaves (child p name) t ++ leaves_f p f
  end.

(** The lines that are printed. *)
Definition found (filename : list Z) (l : list (list Z * list Z)) : list Z :=
  concat ((λ q, q.1 ++ [NL]) <$> filter (λ q, Is_true (match_re filename q.2)) l).

(** A name that is terminated in its array. *)
Definition name_ok (name : list Z) : Prop := (length name < Z.to_nat DIRSIZ)%nat ∧ 0 ∉ name.
Definition field (name : list Z) : list Z := name ++ replicate (Z.to_nat DIRSIZ - length name) 0.
Definition dots (name : list Z) : Prop := name = str "." ∨ name = str "..".

Section tree.
Context (fs_open : list Z → option dirfile) (fs_stat : list Z → option Z) (filename : list Z).

(** The file system has the tree [t] at the path [p]. *)
Fixpoint describes (p : list Z) (t : tree) : Prop :=
  match t with
  | Leaf ty => fs_stat p = Some ty ∧ ty ≠ T_DIR
  | Dir l => fs_stat p = Some T_DIR ∧ Z.of_nat (length p) + 1 + DIRSIZ + 1 ≤ 512 ∧
      ∃ es, fs_open p = Some (DirFile (Some T_DIR) es) ∧ describes_f p es l
  end
with describes_f (p : list Z) (es : list (Z * list Z)) (f : forest) : Prop :=
  match f, es with
  | FNil, [] => True
  | FFree f, (i, _) :: es => i = 0 ∧ describes_f p es f
  | FDot name f, (i, b) :: es => i ≠ 0 ∧ b = field name ∧ dots name ∧ fs_stat (child p name) = Some T_DIR ∧ describes_f p es f
  | FChild name t f, (i, b) :: es => i ≠ 0 ∧ b = field name ∧ name_ok name ∧ ¬ dots name ∧ describes (child p name) t ∧ describes_f p es f
  | _, _ => False
  end.

Lemma until_nul_field name : name_ok name → until_nul (field name) = name.
Proof.
  intros [Hl Hn]. unfold field. destruct (Z.to_nat DIRSIZ - length name)%nat as [|n] eqn:E; [lia|]. clear E Hl. simpl.
  induction name as [|c name IH]; simpl; [done|]. rewrite not_elem_of_cons in Hn. destruct Hn as [Hc Hn].
  destruct (Z.eqb_spec c 0); [lia|]. by rewrite IH.
Qed.

Lemma field_terminated name : name_ok name → existsb (Z.eqb 0) (field name) = true.
Proof.
  intros [Hl _]. apply existsb_exists. exists 0. split; [|done]. apply list_elem_of_In, elem_of_app. right.
  destruct (Z.to_nat DIRSIZ - length name)%nat eqn:E; [lia|]. simpl. by left.
Qed.

Lemma dots_ok name : dots name → name_ok name.
Proof. intros [->| ->]; split; vm_compute; try lia; intros H; repeat (apply elem_of_cons in H as [H|H]; [done|]); by apply not_elem_of_nil in H. Qed.

Lemma found_lines_cons q l : found filename (q :: l) = (if match_re filename q.2 then q.1 ++ [NL] else []) ++ found filename l.
Proof.
  unfold found. rewrite filter_cons. destruct (match_re filename q.2) eqn:E; simpl; [|done]. done.
Qed.

Lemma found_lines_app l1 l2 : found filename (l1 ++ l2) = found filename l1 ++ found filename l2.
Proof. unfold found. by rewrite filter_app, fmap_app, concat_app. Qed.

(** A run that prints [l]. *)
Definition prints (m : M fstate unit) (l : list Z) (s : fstate) : Prop := m s = Ret tt (FState (nfd s) (out s ++ l) (err s)).

Lemma prints_bind m1 m2 l1 l2 s : prints m1 l1 s → prints m2 l2 (FState (nfd s) (out s ++ l1) (err s)) → prints (m1 ;; m2) (l1 ++ l2) s.
Proof. intros H1 H2. unfold prints. erewrite bind_Ret by exact H1. rewrite H2. simpl. by rewrite app_assoc. Qed.

Lemma find_stat_ok {A} path ty (f : option Z → M fstate A) s : fs_stat path = Some ty → nfd s < NOFILE →
  (find_stat fs_stat path ≫= f) s = f (Some ty) s.
Proof.
  intros Hst Hn. assert ((nfd s <? NOFILE) = true) as E by lia.
  apply bind_Ret. unfold find_stat. erewrite bind_Ret by reflexivity. by rewrite E, Hst.
Qed.

(** An entry that is matched, not descended into. *)
Lemma prints_leaf rec p name i ty s : nfd s < NOFILE → name_ok name → i ≠ 0 → fs_stat (child p name) = Some ty → ty ≠ T_DIR ∨ dots name →
  prints (find_entry fs_stat rec p filename (i, field name)) (if match_re filename name then child p name ++ [NL] else []) s.
Proof.
  intros Hfd Hn Hi Hst Hty. unfold find_entry. destruct (Z.eqb_spec i 0); [done|]. cbv zeta. rewrite until_nul_field by done.
  fold (child p name). unfold prints. rewrite (find_stat_ok (child p name) ty) by done. rewrite field_terminated by done. cbn [negb].
  assert ((ty =? T_DIR) && negb (bool_decide (name = str ".")) && negb (bool_decide (name = str "..")) = false) as ->.
  { destruct Hty as [Hty|[->| ->]]; [|by rewrite !andb_false_r|by rewrite !andb_false_r]. by destruct (Z.eqb_spec ty T_DIR). }
  destruct (match_re filename name); [done|]. rewrite app_nil_r. by destruct s.
Qed.

Lemma find_prints_tree : ∀ t p fuel s, describes p t → (match t with Dir _ => True | _ => False end) →
  (depth t ≤ fuel)%nat → 0 ≤ nfd s → nfd s + Z.of_nat (depth t) < NOFILE → prints (find fs_open fs_stat fuel filename p) (found filename (leaves p t)) s.
Proof.
  apply (tree_mut (λ t, ∀ p fuel s, describes p t → (match t with Dir _ => True | _ => False end) →
    (depth t ≤ fuel)%nat → 0 ≤ nfd s → nfd s + Z.of_nat (depth t) < NOFILE → prints (find fs_open fs_stat fuel filename p) (found filename (leaves p t)) s)
   (λ f, ∀ p es fuel s, describes_f p es f → (depth_f f ≤ fuel)%nat → 0 ≤ nfd s → nfd s + Z.of_nat (depth_f f) < NOFILE →
    prints (for_each es (find_entry fs_stat (find fs_open fs_stat fuel filename) p filename)) (found filename (leaves_f p f)) s)).
  - done.
  - intros l IH p fuel s (_ & Hlen & es & Ho & Hd) _ Hf Hn Hnf. cbn [depth] in Hf, Hnf. destruct fuel as [|fuel]; [lia|].
    cbn [find leaves]. unfold prints. unfold find_open. rewrite Ho. 
    assert ((nfd s <? NOFILE) = true) as E by lia.
    erewrite bind_Ret. 2:{ erewrite bind_Ret by reflexivity. rewrite E. erewrite bind_Ret by reflexivity. reflexivity. }
    cbn [fstat]. change (negb (T_DIR =? T_DIR)) with false. cbn match.
    destruct (Z.gtb_spec (Z.of_nat (length p) + 1 + DIRSIZ + 1) 512); [lia|].
    erewrite bind_Ret. 2:{ apply (IH p es fuel (FState (nfd s + 1) (out s) (err s))); [done|lia|simpl; lia|simpl; lia]. }
    unfold find_close, modify. simpl. do 2 f_equal. lia.
  - intros p es fuel s Hd _ _ _. destruct es; [|done]. cbn [for_each leaves_f]. unfold prints, found. simpl. rewrite app_nil_r. by destruct s.
  - intros f IH p es fuel s Hd Hf Hn Hnf. destruct es as [|[i b] es]; [done|]. destruct Hd as [-> Hd]. cbn [for_each leaves_f].
    cbn [find_entry]. change (0 =? 0) with true. cbn match. unfold prints. erewrite bind_Ret by reflexivity. by apply IH.
  - intros name f IH p es fuel s Hd Hf Hn Hnf. destruct es as [|[i b] es]; [done|]. destruct Hd as (Hi & -> & Hdot & Hst & Hd).
    cbn [for_each leaves_f]. rewrite found_lines_cons. apply prints_bind; [|by apply IH].
    apply (prints_leaf _ p name i T_DIR); [cbn [depth_f] in Hnf; lia|by apply dots_ok|done|done|by right].
  - intros name t IHt f IH p es fuel s Hd Hf Hn Hnf. destruct es as [|[i b] es]; [done|]. destruct Hd as (Hi & -> & Hnm & Hnd & Ht & Hd).
    cbn [depth_f] in Hf, Hnf. destruct t as [ty|l].
    + cbn [for_each leaves_f]. rewrite found_lines_cons. destruct Ht as [Hst Hty]. apply prints_bind; [|apply IH; [done|lia|done|simpl; lia]].
      apply (prints_leaf _ p name i ty); [lia|done|done|done|by left].
    + change (leaves_f p (FChild name (Dir l) f)) with (leaves (child p name) (Dir l) ++ leaves_f p f). rewrite found_lines_app.
      cbn [for_each]. apply prints_bind; [|apply IH; [done|lia|done|simpl; lia]].
      assert (fs_stat (child p name) = Some T_DIR) as Hst by apply Ht.
      unfold find_entry. destruct (Z.eqb_spec i 0); [done|]. cbv zeta. rewrite until_nul_field by done. fold (child p name). unfold prints. rewrite (find_stat_ok (child p name) T_DIR) by (done || lia).
      rewrite !bool_decide_eq_false_2 by (intros ->; apply Hnd; unfold dots; auto). cbn [negb]. change (T_DIR =? T_DIR) with true. cbn [andb].
      apply IHt; [done|done|lia|done|lia].
Qed.

End tree.


(** ** Example *)

Definition ex_tree : forest :=
  FDot (str ".") (FDot (str "..") (FChild (str "ab") (Leaf 2) (FFree (FChild (str "d") (Dir (FChild (str "abc") (Leaf 2) FNil)) FNil)))).

Definition ex_open (p : list Z) : option dirfile :=
  if bool_decide (p = str "/") then
    Some (DirFile (Some T_DIR) [(1, field (str ".")); (1, field (str "..")); (2, field (str "ab")); (0, field (str "x")); (3, field (str "d"))])
  else if bool_decide (p = str "//d") then Some (DirFile (Some T_DIR) [(4, field (str "abc"))])
  else None.

Definition ex_stat (p : list Z) : option Z :=
  if bool_decide (p ∈ [str "/"; str "//."; str "//.."; str "//d"]) then Some T_DIR else Some 2.

Lemma ex_name name : bool_decide ((length name < Z.to_nat DIRSIZ)%nat ∧ 0 ∉ name) = true → name_ok name.
Proof. apply bool_decide_eq_true_1. Qed.

Lemma ex_describes : describes ex_open ex_stat (str "/") (Dir ex_tree).
Proof.
  split; [done|]. split; [done|]. eexists. split; [reflexivity|].
  do 2 (split; [done|]; split; [done|]; split; [unfold dots; auto|]; split; [done|]).
  split; [done|]. split; [done|]. split; [by apply ex_name|]. split; [by intros [?|?]|]. split; [done|].
  split; [done|]. split; [done|]. split; [done|]. split; [by apply ex_name|]. split; [by intros [?|?]|]. split; [|done].
  split; [done|]. split; [done|]. eexists. split; [reflexivity|].
  split; [done|]. split; [done|]. split; [by apply ex_name|]. split; [by intros [?|?]|]. done.
Qed.


Lemma find_terminates_witness : ends (find (λ _, Some (DirFile (Some T_DIR) [(1, str "a")])) (λ _, Some T_DIR) find_fuel (str "x") (str "/")).
Proof. apply find_terminates; [done|unfold find_fuel; lia]. Defined.

End Find.
