(* ===== verification/UserSys.v ===== *)
(** * The system calls as a user program sees them

    A user program is an interaction tree over its system calls.  The world has any
    number of such processes, with descriptor tables, pipes, opened files and
    devices; a step lets one process make one call.  What the kernel decides and a
    program cannot rely on is an input of the step: whether a fork, a pipe or an
    open succeeds, which dead child [wait] finds, how much the console delivers, and
    what the calls on the directory tree do to it.  Process ids are unbounded
    integers here. *)

From Stdlib Require Import Ascii String.
From ITree Require Import ITree.
From S2P Require Import Prelude Machine Fs Pipe Kernel.
Local Open Scope Z_scope.
Local Open Scope list_scope.

(** ** Calls *)

(** Calls of which only the result matters here. *)
Inductive call : Type :=
| Mknod (path : list Z) (major minor : Z)
| Unlink (path : list Z)
| Link (old new : list Z)
| Mkdir (path : list Z)
| Chdir (path : list Z)
| Sbrk (n : Z)
| SleepTicks (n : Z)
| Uptime.

(** The other calls; [Read] and [Fstat] return what they store, [Pipe] the two
    descriptors, and [Undef] is undefined behaviour. *)
Inductive sysE : Type → Type :=
| Fork : sysE Z
| Exit (status : Z) : sysE Empty_set
| Wait : sysE Z
| Pipe : sysE (option (Z * Z))
| Read (fd n : Z) : sysE (option (list Z))
| Write (fd : Z) (buf : list Z) : sysE Z
| Close (fd : Z) : sysE Z
| Dup (fd : Z) : sysE Z
| Open (path : list Z) (mode : Z) : sysE Z
| Fstat (fd : Z) : sysE (option stat)
| Exec (path : list Z) (argv : list (list Z)) : sysE Z
| Kill (pid : Z) : sysE Z
| Getpid : sysE Z
| Call (c : call) : sysE Z
| Undef : sysE Empty_set.

Abbreviation prog := (itree sysE).
(** A program that has begun. *)
Abbreviation point := (itree' sysE Empty_set).

#[global] Instance prog_ret : MRet prog := λ A a, go (RetF a).
#[global] Instance prog_bind : MBind prog := λ A B f t, ITree.bind t f.

Definition sys {A} (e : sysE A) : prog A := ITree.trigger e.
Definition leave {A} (e : sysE Empty_set) : prog A := x ← sys e; match x : Empty_set with end.
Definition uexit {A} (status : Z) : prog A := leave (Exit status).

(** ** The world *)

(** What a descriptor refers to: an opened file, an end of a pipe, or a device with
    what [fstat] says of it. *)
Inductive handle : Type :=
| HFile (o : nat)
| HPipeR (i : nat)
| HPipeW (i : nat)
| HDev (d : Z) (st : stat).

(** A file of the directory tree, and an opened one with the bytes that are left to
    read. *)
Record node := Node { nstat : stat; nmajor : Z; ndata : list Z }.
Record ofile := OFile { onode : node; oleft : list Z }.

Inductive status : Type :=
| Runs (t : point)
| Zombie (xstate : Z)
| Gone.

Record uproc := UProc { upid : Z; uparent : option nat; ufds : list (option handle); ukilled : bool; ustatus : status }.

(** What happened: a process was forked, or a call was answered. *)
Inductive event : Type :=
| Forked (by_ : nat) (pid : Z)
| Called (by_ : nat) (c : call) (r : Z).

Record world := World {
  procs : list uproc;
  pipes : list (list Z);
  ofiles : list ofile;
  files : list Z → option node;
  ins : Z → list Z;
  outs : Z → list Z;
  nextpid : Z;
  log : list event
}.

(** The decisions of the kernel in a step. *)
Record choice := Choice { ans : Z; tree : list Z → option node; lefts : list ofile; dies : bool }.

Definition set_procs (v : list uproc) (w : world) : world := World v (pipes w) (ofiles w) (files w) (ins w) (outs w) (nextpid w) (log w).
Definition set_pipes (v : list (list Z)) (w : world) : world := World (procs w) v (ofiles w) (files w) (ins w) (outs w) (nextpid w) (log w).
Definition set_ofiles (v : list ofile) (w : world) : world := World (procs w) (pipes w) v (files w) (ins w) (outs w) (nextpid w) (log w).
Definition set_files (v : list Z → option node) (w : world) : world := World (procs w) (pipes w) (ofiles w) v (ins w) (outs w) (nextpid w) (log w).
Definition set_ins (v : Z → list Z) (w : world) : world := World (procs w) (pipes w) (ofiles w) (files w) v (outs w) (nextpid w) (log w).
Definition set_outs (v : Z → list Z) (w : world) : world := World (procs w) (pipes w) (ofiles w) (files w) (ins w) v (nextpid w) (log w).
Definition set_nextpid (v : Z) (w : world) : world := World (procs w) (pipes w) (ofiles w) (files w) (ins w) (outs w) v (log w).
Definition add_event (e : event) (w : world) : world := World (procs w) (pipes w) (ofiles w) (files w) (ins w) (outs w) (nextpid w) (log w ++ [e]).

Definition set_status (v : status) (p : uproc) : uproc := UProc (upid p) (uparent p) (ufds p) (ukilled p) v.
Definition set_fds (v : list (option handle)) (p : uproc) : uproc := UProc (upid p) (uparent p) v (ukilled p) (ustatus p).
Definition set_uparent (v : option nat) (p : uproc) : uproc := UProc (upid p) v (ufds p) (ukilled p) (ustatus p).
Definition set_killed (p : uproc) : uproc := UProc (upid p) (uparent p) (ufds p) true (ustatus p).

Definition upd (i : nat) (f : uproc → uproc) (w : world) : world := set_procs (alter f i (procs w)) w.

(** Process [i] goes on at [t]. *)
Definition resume (i : nat) (t : prog Empty_set) (w : world) : world := upd i (set_status (Runs (observe t))) w.

(** ** Descriptors *)

Definition fd_get (fds : list (option handle)) (fd : Z) : option handle := if fd <? 0 then None else mjoin (fds !! Z.to_nat fd).

(** [fdalloc]: the lowest free descriptor. *)
Fixpoint fd_free (fds : list (option handle)) : option nat :=
  match fds with
  | [] => None
  | None :: _ => Some O
  | Some _ :: fds => S <$> fd_free fds
  end.

Definition fd_new (h : handle) (fds : list (option handle)) : option (Z * list (option handle)) :=
  fd ← fd_free fds; Some (Z.of_nat fd, <[fd := Some h]> fds).

Definition handle_eqb (h h' : handle) : bool :=
  match h, h' with
  | HFile a, HFile b | HPipeR a, HPipeR b | HPipeW a, HPipeW b => Nat.eqb a b
  | HDev a _, HDev b _ => a =? b
  | _, _ => false
  end.

(** Some process has the handle. *)
Definition opened (h : handle) (w : world) : bool :=
  existsb (λ p, existsb (λ o, match o with Some h' => handle_eqb h h' | None => false end) (ufds p)) (procs w).

(** ** One call *)

Definition is_child (i : nat) (p : uproc) : bool :=
  match uparent p, ustatus p with
  | _, Gone | None, _ => false
  | Some j, _ => Nat.eqb i j
  end.

Definition is_zombie (p : uproc) : bool := match ustatus p with Zombie _ => true | _ => false end.

(** [exit]: the descriptors are closed, and the children go to process 0. *)
Definition do_exit (i : nat) (st : Z) (w : world) : world :=
  upd i (λ p, set_fds [] (set_status (Zombie st) p))
    (set_procs ((λ p, if is_child i p then set_uparent (Some O) p else p) <$> procs w) w).

Definition do_read (c : choice) (h : option handle) (n : Z) (w : world) : option (option (list Z) * world) :=
  match h with
  | Some (HFile o) =>
      match ofiles w !! o with
      | Some f =>
          let l := take (Z.to_nat n) (oleft f) in
          Some (Some l, set_ofiles (<[o := OFile (onode f) (drop (Z.to_nat n) (oleft f))]> (ofiles w)) w)
      | None => None
      end
  | Some (HPipeR i) =>
      match pipes w !! i with
      | Some [] => if opened (HPipeW i) w then None else Some (Some [], w)
      | Some q => Some (Some (take (Z.to_nat n) q), set_pipes (<[i := drop (Z.to_nat n) q]> (pipes w)) w)
      | None => None
      end
  | Some (HDev d _) =>
      let m := Z.to_nat (Z.min n (Z.max 0 (ans c))) in
      Some (Some (take m (ins w d)), set_ins (fset (ins w) d (drop m (ins w d))) w)
  | _ => Some (None, w)
  end.

(** Process [i], which is [p], calls [e] and continues with [k]; [None] if it has to
    wait.  [programs] are the programs that [exec] finds. *)
Section step.
Context (programs : list Z → list (list Z) → option (prog Empty_set)).

Definition do_call (c : choice) (i : nat) (p : uproc) (w : world) {A} (e : sysE A) : (A → prog Empty_set) → option world :=
  match e in sysE A return (A → prog Empty_set) → option world with
  | Fork => λ k,
      if ans c <? 0 then Some (resume i (k (-1)) w)
      else
        let pid := Z.max (nextpid w) (ans c) in
        let child := UProc pid (Some i) (ufds p) false (Runs (observe (k 0))) in
        let w := resume i (k pid) w in
        Some (add_event (Forked i pid) (set_nextpid (pid + 1) (set_procs (procs w ++ [child]) w)))
  | Exit st => λ _, Some (do_exit i st w)
  | Wait => λ k,
      let j := Z.to_nat (ans c) in
      match procs w !! j with
      | Some q =>
          if is_child i q && is_zombie q then Some (resume i (k (upid q)) (upd j (set_status Gone) w))
          else if existsb (is_child i) (procs w) then None
          else Some (resume i (k (-1)) w)
      | None => if existsb (is_child i) (procs w) then None else Some (resume i (k (-1)) w)
      end
  | Pipe => λ k,
      let n := length (pipes w) in
      match fd_new (HPipeR n) (ufds p) with
      | Some (fd0, fds) =>
          match fd_new (HPipeW n) fds with
          | Some (fd1, fds) =>
              if ans c <? 0 then Some (resume i (k None) w)
              else Some (resume i (k (Some (fd0, fd1))) (upd i (set_fds fds) (set_pipes (pipes w ++ [[]]) w)))
          | None => Some (resume i (k None) w)
          end
      | None => Some (resume i (k None) w)
      end
  | Read fd n => λ k, '(r, w) ← do_read c (fd_get (ufds p) fd) n w; Some (resume i (k r) w)
  | Write fd buf => λ k,
      match fd_get (ufds p) fd with
      | Some (HDev d _) => Some (resume i (k (Z.of_nat (length buf))) (set_outs (fset (outs w) d (outs w d ++ buf)) w))
      | Some (HPipeW j) =>
          match pipes w !! j with
          | Some q =>
              let room := (Z.to_nat PIPESIZE - length q)%nat in
              if negb (opened (HPipeR j) w) then Some (resume i (k (-1)) w)
              else if (length buf <=? room)%nat then Some (resume i (k (Z.of_nat (length buf))) (set_pipes (<[j := q ++ buf]> (pipes w)) w))
              else if (room =? 0)%nat then None
              else
                let rest := r ← sys (Write fd (drop room buf)); k (if r =? -1 then -1 else r + Z.of_nat room) in
                Some (resume i rest (set_pipes (<[j := q ++ take room buf]> (pipes w)) w))
          | None => None
          end
      | Some (HFile _) => Some (resume i (k (ans c)) (set_files (tree c) (set_ofiles (lefts c) w)))
      | _ => Some (resume i (k (-1)) w)
      end
  | Close fd => λ k,
      match fd_get (ufds p) fd with
      | Some _ => Some (resume i (k 0) (upd i (set_fds (<[Z.to_nat fd := None]> (ufds p))) w))
      | None => Some (resume i (k (-1)) w)
      end
  | Dup fd => λ k,
      match h ← fd_get (ufds p) fd; fd_new h (ufds p) with
      | Some (fd', fds) => Some (resume i (k fd') (upd i (set_fds fds) w))
      | None => Some (resume i (k (-1)) w)
      end
  | Open path mode => λ k,
      let w := if mode <? 0x200 then w else set_files (tree c) w in
      match files w path with
      | Some f =>
          let h := if st_type (nstat f) =? T_DEVICE then HDev (nmajor f) (nstat f) else HFile (length (ofiles w)) in
          match fd_new h (ufds p) with
          | Some (fd, fds) =>
              if ans c <? 0 then Some (resume i (k (-1)) w)
              else Some (resume i (k fd) (upd i (set_fds fds) (set_ofiles (ofiles w ++ [OFile f (ndata f)]) w)))
          | None => Some (resume i (k (-1)) w)
          end
      | None => Some (resume i (k (-1)) w)
      end
  | Fstat fd => λ k,
      let r := match fd_get (ufds p) fd with
               | Some (HFile o) => nstat ∘ onode <$> ofiles w !! o
               | Some (HDev _ st) => Some st
               | _ => None
               end in
      Some (resume i (k r) w)
  | Exec path argv => λ k,
      match programs path argv with
      | Some t => if ans c <? 0 then Some (resume i (k (-1)) w) else Some (resume i t w)
      | None => Some (resume i (k (-1)) w)
      end
  | Kill pid => λ k,
      if existsb (λ q, upid q =? pid) (procs w) then
        Some (resume i (k 0) (set_procs ((λ q, if upid q =? pid then set_killed q else q) <$> procs w) w))
      else Some (resume i (k (-1)) w)
  | Getpid => λ k, Some (resume i (k (upid p)) w)
  | Call a => λ k, Some (add_event (Called i a (ans c)) (resume i (k (ans c)) (set_files (tree c) w)))
  | Undef => λ _, None
  end.

(** A step of process [i]: it dies if it has been killed, or it goes on. *)
Definition ustep (c : choice) (i : nat) (w : world) : option world :=
  p ← procs w !! i;
  match ustatus p with
  | Runs t =>
      if ukilled p && dies c then Some (do_exit i (-1) w)
      else
        match t with
        | RetF r => match r : Empty_set with end
        | TauF t => Some (resume i t w)
        | VisF e k => do_call c i p w e k
        end
  | _ => None
  end.

End step.

(** ** What a step does to the processes *)

(** The process that the next call of [p] kills. *)
Definition kills (p : uproc) : option Z :=
  match ustatus p with
  | Runs (VisF (Kill pid) _) => Some pid
  | _ => None
  end.

Definition forks (p : uproc) : bool :=
  match ustatus p with
  | Runs (VisF Fork _) => true
  | _ => false
  end.

(** Process [p] with other descriptors and at another point. *)
Definition moved (p : uproc) (fds : list (option handle)) (t : point) : uproc := UProc (upid p) (uparent p) fds (ukilled p) (Runs t).

Inductive effect (i : nat) (p : uproc) (w w' : world) : Prop :=
| effect_plain fds t :
    procs w' = <[i := moved p fds t]> (procs w) → nextpid w' = nextpid w →
    (log w' = log w ∨ ∃ a r, log w' = log w ++ [Called i a r]) → effect i p w w'
| effect_fork pid t t' :
    procs w' = <[i := moved p (ufds p) t]> (procs w) ++ [UProc pid (Some i) (ufds p) false (Runs t')] →
    nextpid w ≤ pid → nextpid w' = pid + 1 → log w' = log w ++ [Forked i pid] → effect i p w w'
| effect_exit st : w' = do_exit i st w → effect i p w w'
| effect_reap j q t :
    procs w !! j = Some q → is_child i q = true → is_zombie q = true → j ≠ i →
    procs w' = <[i := moved p (ufds p) t]> (<[j := set_status Gone q]> (procs w)) →
    nextpid w' = nextpid w → log w' = log w → effect i p w w'
| effect_kill pid t :
    kills p = Some pid →
    procs w' = <[i := set_status (Runs t) (if upid p =? pid then set_killed p else p)]>
      ((λ q, if upid q =? pid then set_killed q else q) <$> procs w) →
    nextpid w' = nextpid w → log w' = log w → effect i p w w'.

Lemma alter_insert {A} (l : list A) i f x : l !! i = Some x → alter f i l = <[i := f x]> l.
Proof.
  intros Hx. apply list_eq. intros j. destruct (decide (j = i)) as [->|Hne].
  - rewrite list_lookup_alter_eq, Hx, list_lookup_insert_eq by (by eapply lookup_lt_Some). done.
  - by rewrite list_lookup_alter_ne, list_lookup_insert_ne by done.
Qed.

Section effects.
Context (programs : list Z → list (list Z) → option (prog Empty_set)).

Lemma resume_effect i p w w1 t : procs w !! i = Some p → procs w1 = procs w → nextpid w1 = nextpid w → log w1 = log w →
  effect i p w (resume i t w1).
Proof.
  intros Hp E1 E2 E3. apply (effect_plain _ _ _ _ (ufds p) (observe t)); [|exact E2|left; exact E3].
  simpl. rewrite E1. exact (alter_insert _ _ _ _ Hp).
Qed.

Lemma resume_fds_effect i p w w1 fds t : procs w !! i = Some p → procs w1 = procs w → nextpid w1 = nextpid w → log w1 = log w →
  effect i p w (resume i t (upd i (set_fds fds) w1)).
Proof.
  intros Hp E1 E2 E3. apply (effect_plain _ _ _ _ fds (observe t)); [|exact E2|left; exact E3].
  simpl. rewrite E1, (alter_insert (procs w) i _ p Hp).
  rewrite (alter_insert _ i _ (set_fds fds p)) by (by apply list_lookup_insert_eq, (lookup_lt_Some _ _ _ Hp)).
  by rewrite list_insert_insert_eq.
Qed.

Lemma ustep_effect c i p w w' : procs w !! i = Some p → ustep programs c i w = Some w' → effect i p w w'.
Proof.
  intros Hp. unfold ustep. rewrite Hp. simpl. destruct (ustatus p) as [t| |] eqn:Es; [|done|done].
  destruct (ukilled p && dies c); [intros [= <-]; by eapply effect_exit|].
  destruct t as [[]|t|X e k]; [intros [= <-]; by apply resume_effect|].
  assert (∀ r, Some (resume i r w) = Some w' → effect i p w w') as Hr by (intros r [= <-]; by apply resume_effect).
  destruct e; cbn [do_call]; try apply Hr; try done.
  - destruct (ans c <? 0); [apply Hr|]. intros [= <-].
    apply (effect_fork _ _ _ _ (Z.max (nextpid w) (ans c)) (observe (k (Z.max (nextpid w) (ans c)))) (observe (k 0))); [|lia|done|done].
    simpl. f_equal. exact (alter_insert _ _ _ _ Hp).
  - intros [= <-]. by eapply effect_exit.
  - destruct (procs w !! Z.to_nat (ans c)) as [q|] eqn:Eq.
    2: { destruct (existsb _ _); [done|apply Hr]. }
    destruct (is_child i q && is_zombie q) eqn:Ec; [|destruct (existsb _ _); [done|apply Hr]].
    apply andb_true_iff in Ec as [Ec Ez]. intros [= <-].
    assert (Z.to_nat (ans c) ≠ i) as Hne.
    { intros E. rewrite E, Hp in Eq. injection Eq as <-. unfold is_zombie in Ez. by rewrite Es in Ez. }
    apply (effect_reap _ _ _ _ (Z.to_nat (ans c)) q (observe (k (upid q)))); try done. simpl. rewrite (alter_insert (procs w) _ _ q Eq).
    by rewrite (alter_insert _ i _ p) by (by rewrite list_lookup_insert_ne).
  - destruct (fd_new _ _) as [[fd0 fds]|]; [|apply Hr]. destruct (fd_new _ _) as [[fd1 fds']|]; [|apply Hr].
    destruct (ans c <? 0); [apply Hr|]. intros [= <-]. by apply resume_fds_effect.
  - destruct (do_read _ _ _ _) as [[r w1]|] eqn:Er; [|done]. cbn. intros [= <-].
    assert (procs w1 = procs w ∧ nextpid w1 = nextpid w ∧ log w1 = log w) as (E1 & E2 & E3).
    { unfold do_read in Er. destruct (fd_get _ _) as [[o|j|j|d st]|]; try (by injection Er as <- <-).
      - destruct (ofiles w !! o); [|done]. by injection Er as <- <-.
      - destruct (pipes w !! j) as [[|b q]|]; [|by injection Er as <- <-|done]. destruct (opened _ _); [done|]. by injection Er as <- <-. }
    by apply resume_effect.
  - destruct (fd_get _ _) as [[o|j|j|d st]|]; try apply Hr; try (intros [= <-]; by apply resume_effect).
    destruct (pipes w !! j) as [q|]; [|done]. destruct (negb _); [apply Hr|].
    destruct (_ <=? _)%nat; [intros [= <-]; by apply resume_effect|]. destruct (_ =? _)%nat; [done|].
    intros [= <-]. by apply resume_effect.
  - destruct (fd_get _ _); [|apply Hr]. intros [= <-]. by apply resume_fds_effect.
  - destruct (h ← _; _) as [[fd' fds]|]; [|apply Hr]. intros [= <-]. by apply resume_fds_effect.
  - cbv zeta. set (w1 := if mode <? 0x200 then w else set_files (tree c) w).
    assert (procs w1 = procs w ∧ nextpid w1 = nextpid w ∧ log w1 = log w) as (E1 & E2 & E3) by (unfold w1; by destruct (mode <? 0x200)).
    destruct (files w1 path) as [f|]; [|intros [= <-]; by apply resume_effect].
    destruct (fd_new _ _) as [[fd fds]|]; [|intros [= <-]; by apply resume_effect].
    destruct (ans c <? 0); intros [= <-]; [by apply resume_effect|by apply resume_fds_effect].
  - destruct (programs path argv); [|apply Hr]. destruct (ans c <? 0); apply Hr.
  - destruct (existsb _ _); [|apply Hr]. intros [= <-]. eapply (effect_kill _ _ _ _ pid); [unfold kills; by rewrite Es| |done|done].
    simpl. apply alter_insert. by rewrite list_lookup_fmap, Hp.
  - intros [= <-]. eapply (effect_plain _ _ _ _ (ufds p) (observe (k (ans c)))); [|done|right; by eexists _, _].
    simpl. exact (alter_insert _ _ _ _ Hp).
Qed.

End effects.
