(* ===== verification/UserProgs.v ===== *)
(** * The small user programs

    cat, echo, init, kill, ln, ls, mkdir, pingpong, rm, sleep, uptime and zombie, the
    [main] of wc and grep, and the start of that of sh, as programs over the system
    calls of UserSys.v.  A string is its bytes without the NUL. *)

From Stdlib Require Import Ascii String.
From ITree Require Import ITree.
From S2P Require Import Prelude Machine CString Grep Wc Printf Fs File Proc Sysfile UserSys.
Local Open Scope Z_scope.
Local Open Scope list_scope.

(** ** The library *)

(** [putc] of user/printf.c writes one byte. *)
Fixpoint puts (fd : Z) (l : list Z) : prog unit :=
  match l with
  | [] => mret tt
  | b :: l => sys (Write fd [b]) ;; puts fd l
  end.

Definition fprintf (fd : Z) (fmt : list Z) (ap : list varg) : prog unit :=
  match vprintf udigits false fmt ap with
  | Some l => puts fd l
  | None => leave Undef
  end.

Definition printf : list Z → list varg → prog unit := fprintf 1.

(** [stat] of user/ulib.c *)
Definition ustat (n : list Z) : prog (option stat) :=
  fd ← sys (Open n 0);
  if fd <? 0 then mret None
  else r ← sys (Fstat fd); sys (Close fd) ;; mret r.

(** ** cat.c, wc.c, grep.c *)

(** The loop of [main] over the files, which cat.c (lines 34-42), wc.c (45-53) and
    grep.c (54-62) have in common; [f] is what they do with an opened file, and
    [cannot] is for a file that does not open. *)
Fixpoint each_file (f : Z → list Z → prog unit) (cannot : list Z → prog Empty_set) (args : list (list Z)) : prog Empty_set :=
  match args with
  | [] => uexit 0
  | path :: args =>
      fd ← sys (Open path 0);
      if fd <? 0 then cannot path else f fd path ;; sys (Close fd) ;; each_file f cannot args
  end.

Definition cat (fd : Z) : prog unit :=
  ITree.iter (λ _ : unit,
    r ← sys (Read fd 512);
    match r with
    | None => fprintf 2 (str "cat: read error" ++ [NL]) [] ;; uexit 1
    | Some [] => mret (inr tt)
    | Some buf =>
        n ← sys (Write 1 buf);
        if n =? Z.of_nat (length buf) then mret (inl tt)
        else fprintf 2 (str "cat: write error" ++ [NL]) [] ;; uexit 1
    end) tt.

Definition cat_files : list (list Z) → prog Empty_set :=
  each_file (λ fd _, cat fd) (λ path, fprintf 2 (str "cat: cannot open %s" ++ [NL]) [VStr (Some path)] ;; uexit 1).

Definition cat_main (argv : list (list Z)) : prog Empty_set :=
  match tail argv with
  | [] => cat 0 ;; uexit 0
  | args => cat_files args
  end.

Definition wc_body (fd : Z) (name : list Z) (k : counts) : prog (counts + unit) :=
  r ← sys (Read fd 512);
  match r with
  | None => printf (str "wc: read error" ++ [NL]) [] ;; uexit 1
  | Some [] =>
      printf (str "%d %d %d %s" ++ [NL]) [VInt (s32 (c_l k)); VInt (s32 (c_w k)); VInt (s32 (c_c k)); VStr (Some name)] ;;
      mret (inr tt)
  | Some buf => mret (inl (foldl wc_byte k buf))
  end.

Definition wc_fd (fd : Z) (name : list Z) : prog unit := ITree.iter (wc_body fd name) (Counts 0 0 0 false).

Definition wc_files : list (list Z) → prog Empty_set :=
  each_file wc_fd (λ path, printf (str "wc: cannot open %s" ++ [NL]) [VStr (Some path)] ;; uexit 1).

Definition wc_main (argv : list (list Z)) : prog Empty_set :=
  match tail argv with
  | [] => wc_fd 0 [] ;; uexit 0
  | args => wc_files args
  end.

(** The lines of [p]: those that match are written; what follows the last newline
    is left. *)
Fixpoint grep_write (fuel : nat) (pattern p : list Z) : prog (list Z) :=
  match fuel with
  | O => mret p
  | S fuel =>
      match strchr p NL with
      | None => mret p
      | Some k =>
          (if match_re pattern (take k p) then sys (Write 1 (take (S k) p)) ;; mret tt else mret tt) ;;
          grep_write fuel pattern (drop (S k) p)
      end
  end.

(** The state of the loop is the [m] bytes of the buffer. *)
Definition grep_body (pattern : list Z) (fd : Z) (buf : list Z) : prog (list Z + unit) :=
  r ← sys (Read fd (BUFSZ - Z.of_nat (length buf) - 1));
  match r with
  | None | Some [] => mret (inr tt)
  | Some got =>
      rest ← grep_write (S (length (buf ++ got))) pattern (buf ++ got);
      mret (inl rest)
  end.

Definition grep_fd (pattern : list Z) (fd : Z) : prog unit := ITree.iter (grep_body pattern fd) [].

Definition grep_files (pattern : list Z) : list (list Z) → prog Empty_set :=
  each_file (λ fd _, grep_fd pattern fd) (λ path, printf (str "grep: cannot open %s" ++ [NL]) [VStr (Some path)] ;; uexit 1).

Definition grep_main (argv : list (list Z)) : prog Empty_set :=
  match tail argv with
  | [] => fprintf 2 (str "usage: grep pattern [file ...]" ++ [NL]) [] ;; uexit 1
  | [pattern] => grep_fd pattern 0 ;; uexit 0
  | pattern :: args => grep_files pattern args
  end.

(** ** echo.c, kill.c, ln.c, mkdir.c, rm.c, sleep.c, uptime.c, zombie.c *)

Fixpoint echo_args (args : list (list Z)) : prog Empty_set :=
  match args with
  | [] => uexit 0
  | a :: args =>
      sys (Write 1 a) ;;
      sys (Write 1 (match args with [] => [NL] | _ => [32] end)) ;;
      echo_args args
  end.

Definition echo_main (argv : list (list Z)) : prog Empty_set := echo_args (tail argv).

Fixpoint kill_args (args : list (list Z)) : prog Empty_set :=
  match args with
  | [] => uexit 0
  | a :: args => sys (Kill (atoi a)) ;; kill_args args
  end.

Definition kill_main (argv : list (list Z)) : prog Empty_set :=
  match tail argv with
  | [] => fprintf 2 (str "usage: kill pid..." ++ [NL]) [] ;; uexit 1
  | args => kill_args args
  end.

Definition ln_main (argv : list (list Z)) : prog Empty_set :=
  match argv with
  | [_; old; new] =>
      r ← sys (Call (Link old new));
      (if r <? 0 then fprintf 2 (str "link %s %s: failed" ++ [NL]) [VStr (Some old); VStr (Some new)] else mret tt) ;;
      uexit 0
  | _ => fprintf 2 (str "Usage: ln old new" ++ [NL]) [] ;; uexit 1
  end.

Fixpoint mkdir_args (args : list (list Z)) : prog Empty_set :=
  match args with
  | [] => uexit 0
  | a :: args =>
      r ← sys (Call (Mkdir a));
      if r <? 0 then fprintf 2 (str "mkdir: %s failed to create" ++ [NL]) [VStr (Some a)] ;; uexit 0
      else mkdir_args args
  end.

Definition mkdir_main (argv : list (list Z)) : prog Empty_set :=
  match tail argv with
  | [] => fprintf 2 (str "Usage: mkdir files..." ++ [NL]) [] ;; uexit 1
  | args => mkdir_args args
  end.

Fixpoint rm_args (args : list (list Z)) : prog Empty_set :=
  match args with
  | [] => uexit 0
  | a :: args =>
      r ← sys (Call (Unlink a));
      if r <? 0 then fprintf 2 (str "rm: %s failed to delete" ++ [NL]) [VStr (Some a)] ;; uexit 0
      else rm_args args
  end.

Definition rm_main (argv : list (list Z)) : prog Empty_set :=
  match tail argv with
  | [] => fprintf 2 (str "Usage: rm files..." ++ [NL]) [] ;; uexit 1
  | args => rm_args args
  end.

Definition sleep_main (argv : list (list Z)) : prog Empty_set :=
  match argv with
  | [_; a] =>
      let time := atoi a in
      if time <=? 0 then fprintf 2 (str "Usage: sleep <time>  time need > 0" ++ [NL]) [] ;; uexit 1
      else sys (Call (SleepTicks time)) ;; uexit 0
  | _ => fprintf 2 (str "Usage: sleep <time>" ++ [NL]) [] ;; uexit 1
  end.

Definition uptime_main : prog Empty_set :=
  t ← sys (Call Uptime);
  printf (str "%d" ++ [NL]) [VInt (s32 t)] ;;
  uexit 0.

Definition zombie_main : prog Empty_set :=
  pid ← sys Fork;
  (if pid >? 0 then sys (Call (SleepTicks 5)) ;; mret tt else mret tt) ;;
  uexit 0.

(** ** ls.c *)

(** What follows the last slash. *)
Definition last_name (path : list Z) : list Z := foldl (λ p b, if b =? chr "/" then [] else p ++ [b]) [] path.

Definition fmtname (path : list Z) : list Z :=
  let p := last_name path in
  if Z.of_nat (length p) >=? DIRSIZ then p else p ++ repeat 32 (Z.to_nat DIRSIZ - length p).

(** One entry of the directory; the last conversion of the format is [%d], which
    prints the low half of the size. *)
Definition ls_entry (path de : list Z) : prog unit :=
  if de_inum de =? 0 then mret tt
  else
    let buf := path ++ str "/" ++ until_nul (de_name de) in
    r ← ustat buf;
    match r with
    | None => printf (str "ls: cannot stat %s" ++ [NL]) [VStr (Some buf)]
    | Some st => printf (str "%s %d %d %d" ++ [NL]) [VStr (Some (fmtname buf)); VInt (s32 (st_type st)); VInt (s32 (st_ino st)); VInt (s32 (st_size st))]
    end.

Definition ls_dir (fd : Z) (path : list Z) : prog unit :=
  ITree.iter (λ _ : unit,
    r ← sys (Read fd DIRENT_SIZE);
    match r with
    | Some de => if Z.of_nat (length de) =? DIRENT_SIZE then ls_entry path de ;; mret (inl tt) else mret (inr tt)
    | None => mret (inr tt)
    end) tt.

Definition ls (path : list Z) : prog unit :=
  fd ← sys (Open path 0);
  if fd <? 0 then fprintf 2 (str "ls: cannot open %s" ++ [NL]) [VStr (Some path)]
  else
    r ← sys (Fstat fd);
    match r with
    | None => fprintf 2 (str "ls: cannot stat %s" ++ [NL]) [VStr (Some path)] ;; sys (Close fd) ;; mret tt
    | Some st =>
        (if st_type st =? T_FILE then
           printf (str "%s %d %d %l" ++ [NL]) [VStr (Some (fmtname path)); VInt (s32 (st_type st)); VInt (s32 (st_ino st)); VLong (st_size st)]
         else if st_type st =? T_DIR then
           if Z.of_nat (length path) + 1 + DIRSIZ + 1 >? 512 then printf (str "ls: path too long" ++ [NL]) []
           else ls_dir fd path
         else mret tt) ;;
        sys (Close fd) ;; mret tt
    end.

Fixpoint ls_args (args : list (list Z)) : prog Empty_set :=
  match args with
  | [] => uexit 0
  | a :: args => ls a ;; ls_args args
  end.

Definition ls_main (argv : list (list Z)) : prog Empty_set :=
  match tail argv with
  | [] => ls (str ".") ;; uexit 0
  | args => ls_args args
  end.

(** ** pingpong.c *)

Definition pingpong_parent (f0 f1 s0 s1 : Z) : prog Empty_set :=
  sys (Close f0) ;; sys (Close s1) ;;
  n ← sys (Write f1 (str "f"));
  if negb (n =? 1) then
    fprintf 2 (str "father write error" ++ [NL]) [] ;; sys (Close f1) ;; sys (Close s0) ;; uexit 1
  else
    sys (Close f1) ;;
    r ← sys (Read s0 1);
    if negb (from_option (λ l, Z.of_nat (length l)) (-1) r =? 1) then
      fprintf 2 (str "read from son error" ++ [NL]) [] ;; sys (Close s0) ;; uexit 1
    else
      me ← sys Getpid;
      printf (str "%d: received pong" ++ [NL]) [VInt (s32 me)] ;;
      sys Wait ;; uexit 0.

Definition pingpong_child (f0 f1 s0 s1 : Z) : prog Empty_set :=
  sys (Close f1) ;; sys (Close s0) ;;
  r ← sys (Read f0 1);
  if negb (from_option (λ l, Z.of_nat (length l)) (-1) r =? 1) then
    fprintf 2 (str "son write error" ++ [NL]) [] ;; sys (Close f0) ;; sys (Close s1) ;; uexit 1
  else
    me ← sys Getpid;
    printf (str "%d: received ping" ++ [NL]) [VInt (s32 me)] ;;
    sys (Close f0) ;;
    n ← sys (Write s1 (str "s"));
    if negb (n =? 1) then fprintf 2 (str "son write error" ++ [NL]) [] ;; sys (Close s1) ;; uexit 1
    else sys (Close s1) ;; uexit 0.

Definition pingpong_fork (f0 f1 s0 s1 : Z) : prog Empty_set :=
  pid ← sys Fork;
  if pid <? 0 then
    fprintf 2 (str "fork() error!" ++ [NL]) [] ;;
    sys (Close f0) ;; sys (Close f1) ;; sys (Close s0) ;; sys (Close s1) ;; uexit 1
  else if negb (pid =? 0) then pingpong_parent f0 f1 s0 s1
  else pingpong_child f0 f1 s0 s1.

Definition pingpong_second (f0 f1 : Z) : prog Empty_set :=
  ps2f ← sys Pipe;
  match ps2f with
  | None => fprintf 2 (str "create pipe f2s error" ++ [NL]) [] ;; uexit 1
  | Some (s0, s1) => pingpong_fork f0 f1 s0 s1
  end.

Definition pingpong_main : prog Empty_set :=
  pf2s ← sys Pipe;
  match pf2s with
  | None => fprintf 2 (str "create pipe f2s error" ++ [NL]) [] ;; uexit 1
  | Some (f0, f1) => pingpong_second f0 f1
  end.

(** ** init.c *)

(** The inner loop: until the shell [pid] has exited. *)
Definition init_wait_body (pid : Z) (_ : unit) : prog (unit + unit) :=
  wpid ← sys Wait;
  if wpid =? pid then mret (inr tt)
  else if wpid <? 0 then printf (str "init: wait returned an error" ++ [NL]) [] ;; uexit 1
  else mret (inl tt).

Definition init_wait (pid : Z) : prog unit := ITree.iter (init_wait_body pid) tt.

Definition init_fork : prog (unit + Empty_set) :=
  pid ← sys Fork;
  if pid <? 0 then printf (str "init: fork failed" ++ [NL]) [] ;; uexit 1
  else if pid =? 0 then
    sys (Exec (str "sh") [str "sh"]) ;;
    printf (str "init: exec sh failed" ++ [NL]) [] ;; uexit 1
  else init_wait pid ;; mret (inl tt).

Definition init_body (_ : unit) : prog (unit + Empty_set) := printf (str "init: starting sh" ++ [NL]) [] ;; init_fork.

Definition init_loop : prog Empty_set := ITree.iter init_body tt.

Definition init_main : prog Empty_set :=
  fd ← sys (Open (str "console") O_RDWR);
  (if fd <? 0 then
     sys (Call (Mknod (str "console") CONSOLE 0)) ;;
     sys (Open (str "console") O_RDWR) ;; mret tt
   else mret tt) ;;
  sys (Dup 0) ;; sys (Dup 0) ;;
  init_loop.

(** ** The start of [main] of sh.c *)

(** [script_fd]: the script file, or -1 without one. *)
Definition sh_script (argv : list (list Z)) : prog Z :=
  match argv with
  | _ :: file :: _ => sys (Open file O_RDWR)
  | _ => mret (-1)
  end.

(** Open the console until three descriptors are open. *)
Definition sh_descriptors : prog unit :=
  ITree.iter (λ _ : unit,
    fd ← sys (Open (str "console") O_RDWR);
    if fd >=? 0 then
      if fd >=? 3 then sys (Close fd) ;; mret (inr tt) else mret (inl tt)
    else mret (inr tt)) tt.
