(* ===== verification/UserLogic.v ===== *)
(** * A program logic for user programs

    [inevitably P w]: process 0 reaches a state with [P] whatever the kernel decides
    among the decisions [ok].  [uwp] is a weakest
    precondition for a program that is alone in the world: it is about its
    descriptors and the world, and holds in every context that [bind] builds. *)

From ITree Require Import ITree.
From S2P Require Import Prelude Machine Fs Pipe Kernel UserSys UserProgs.
Local Open Scope Z_scope.
Local Open Scope list_scope.

(** The kernel refuses nothing for lack of resources. *)
Definition willing (c : choice) : Prop := 0 ≤ ans c.

Section logic.
Context (ok : choice → Prop) (programs : list Z → list (list Z) → option (prog Empty_set)) (pid : Z).

Inductive inevitably (P : world → Prop) (w : world) : Prop :=
| inev_now : P w → inevitably P w
| inev_step : (∀ c, ok c → ∃ w', ustep programs c 0 w = Some w' ∧ inevitably P w') → inevitably P w.

(** The world with one process, which runs or has exited. *)
Definition alone (fds : list (option handle)) (w : world) (t : prog Empty_set) : world :=
  set_procs [UProc pid None fds false (Runs (observe t))] w.
Definition exited (st : Z) (w : world) : world := set_procs [UProc pid None [] false (Zombie st)] w.

(** ** Contexts *)

Record is_ctx {A B} (C : prog A → prog B) : Prop := {
  ctx_ext t t' : observe t = observe t' → observe (C t) = observe (C t');
  ctx_vis X (e : sysE X) k t : observe t = VisF e k → observe (C t) = VisF e (λ x, C (k x));
  ctx_tau t u : observe t = TauF u → observe (C t) = TauF (C u)
}.

Lemma ctx_id {A} : is_ctx (λ t : prog A, t).
Proof. split; try done. Qed.

Lemma observe_bind {A B} (t : prog A) (k : A → prog B) : observe (t ≫= k) =
  match observe t with RetF r => observe (k r) | TauF t => TauF (t ≫= k) | VisF e h => VisF e (λ x, h x ≫= k) end.
Proof. unfold mbind, prog_bind, ITree.bind. simpl. by destruct (observe t). Qed.

Lemma ctx_bind {A B R} (C : prog B → prog R) (f : A → prog B) : is_ctx C → is_ctx (λ t, C (t ≫= f)).
Proof.
  intros [He Hv Ht]. split.
  - intros t t' E. apply He. by rewrite !observe_bind, E.
  - intros X e k t E. rewrite (Hv X e (λ x, k x ≫= f)); [done|]. by rewrite observe_bind, E.
  - intros t u E. rewrite (Ht _ (u ≫= f)); [done|]. by rewrite observe_bind, E.
Qed.

(** ** The weakest precondition *)

(** [E] is for an exit, [Q] for a result. *)
Definition uwp (E : Z → world → Prop) {A} (t : prog A) (Q : A → list (option handle) → world → Prop)
    (fds : list (option handle)) (w : world) : Prop :=
  ∀ C P, is_ctx C → (∀ st w', E st w' → P (exited st w')) →
    (∀ a fds' w', Q a fds' w' → inevitably P (alone fds' w' (C (mret a)))) → inevitably P (alone fds w (C t)).

Lemma alone_ext fds w t t' : observe t = observe t' → alone fds w t = alone fds w t'.
Proof. intros E. unfold alone. by rewrite E. Qed.

Lemma uwp_ret E {A} (a : A) (Q : A → _) fds w : Q a fds w → uwp E (mret a) Q fds w.
Proof. intros H C P _ _ HQ. by apply HQ. Qed.

Lemma uwp_bind E {A B} (t : prog A) (f : A → prog B) Q fds w :
  uwp E t (λ a, uwp E (f a) Q) fds w → uwp E (t ≫= f) Q fds w.
Proof.
  intros H C P HC HE HQ. apply (H (λ t, C (t ≫= f)) P); [by apply ctx_bind|done|].
  intros a fds' w' Ha. rewrite (alone_ext _ _ _ (C (f a))) by (by apply HC). by apply Ha.
Qed.

Lemma uwp_mono E {A} (t : prog A) (Q Q' : A → _) fds w :
  uwp E t Q fds w → (∀ a fds' w', Q a fds' w' → Q' a fds' w') → uwp E t Q' fds w.
Proof. intros H HQ C P HC HE HQ'. apply H; auto. Qed.

(** A loop. *)
Lemma uwp_iter E {I R} (body : I → prog (I + R)) i Q fds w :
  uwp E (body i) (λ r, match r with inl i => uwp E (ITree.iter body i) Q | inr r => Q r end) fds w →
  uwp E (ITree.iter body i) Q fds w.
Proof.
  intros H C P HC HE HQ.
  set (g := λ r : I + R, match r with inl i => go (TauF (ITree.iter body i)) | inr r => go (RetF r) end).
  rewrite (alone_ext _ _ _ (C (body i ≫= g))) by (by apply HC).
  apply (H (λ t, C (t ≫= g)) P); [by apply ctx_bind|done|]. intros [j|r] fds' w' Hr.
  - apply inev_step. intros c _. exists (alone fds' w' (C (ITree.iter body j))). split; [|by apply Hr].
    unfold ustep, alone. simpl. by rewrite (ctx_tau _ HC _ (ITree.iter body j)).
  - rewrite (alone_ext _ _ _ (C (mret r))) by (by apply HC). by apply HQ.
Qed.

(** One call that returns. *)
Lemma uwp_call E {A} (e : sysE A) Q fds w :
  (∀ c k, ok c → let p := UProc pid None fds false (Runs (VisF e k)) in
    ∃ a fds' w', do_call programs c 0 p (set_procs [p] w) e k = Some (alone fds' w' (k a)) ∧ Q a fds' w') →
  uwp E (sys e) Q fds w.
Proof.
  intros H C P HC HE HQ. apply inev_step. intros c Hc.
  assert (observe (C (sys e)) = VisF e (λ x, C (mret x))) as Eo by (by apply HC).
  destruct (H c (λ x, C (mret x)) Hc) as (a & fds' & w' & E1 & HQa).
  exists (alone fds' w' (C (mret a))). split; [|by apply HQ]. unfold ustep, alone. simpl. rewrite Eo. exact E1.
Qed.

Lemma uwp_call1 E {A} (e : sysE A) Q fds w a fds' w' :
  (∀ c k, ok c → let p := UProc pid None fds false (Runs (VisF e k)) in
    do_call programs c 0 p (set_procs [p] w) e k = Some (alone fds' w' (k a))) →
  Q a fds' w' → uwp E (sys e) Q fds w.
Proof. intros H HQ. apply uwp_call. intros c k Hc. exists a, fds', w'. split; [by apply H|done]. Qed.

Lemma uwp_exit E {A} st (Q : A → _) fds w : E st w → uwp E (uexit st) Q fds w.
Proof.
  intros HEx. apply uwp_bind. intros C P HC HE HQ. apply inev_step. intros c Hc. exists (exited st w).
  split; [|by apply inev_now, HE]. unfold ustep, alone. simpl. by rewrite (ctx_vis _ HC _ (Exit st) (λ x, mret x)).
Qed.

(** The program from its start to its exit. *)
Lemma uwp_inevitably P (t : prog Empty_set) fds w :
  uwp (λ st w', P (exited st w')) t (λ _ _ _, False) fds w → inevitably P (alone fds w t).
Proof. intros H. by apply (H (λ t, t)); [apply ctx_id| |]. Qed.

(** ** Calls *)

(** The descriptor is device [d]. *)
Definition is_dev (fds : list (option handle)) (fd d : Z) : Prop := ∃ st, fd_get fds fd = Some (HDev d st).

Lemma uwp_write E fd d buf Q fds w : is_dev fds fd d →
  Q (Z.of_nat (length buf)) fds (set_outs (fset (outs w) d (outs w d ++ buf)) w) → uwp E (sys (Write fd buf)) Q fds w.
Proof. intros [st Hfd]. apply uwp_call1. intros c k _. simpl. by rewrite Hfd. Qed.

Lemma uwp_read_file E fd o f n Q fds w : fd_get fds fd = Some (HFile o) → ofiles w !! o = Some f →
  Q (Some (take (Z.to_nat n) (oleft f))) fds (set_ofiles (<[o := OFile (onode f) (drop (Z.to_nat n) (oleft f))]> (ofiles w)) w) →
  uwp E (sys (Read fd n)) Q fds w.
Proof. intros Hfd Ho. apply uwp_call1. intros c k _. simpl. rewrite Hfd. simpl. by rewrite Ho. Qed.

Lemma uwp_close E fd h Q fds w : fd_get fds fd = Some h →
  Q 0 (<[Z.to_nat fd := None]> fds) w → uwp E (sys (Close fd)) Q fds w.
Proof. intros Hfd. apply uwp_call1. intros c k _. simpl. by rewrite Hfd. Qed.

Lemma uwp_open_none E path mode Q fds w : mode < 0x200 → files w path = None →
  Q (-1) fds w → uwp E (sys (Open path mode)) Q fds w.
Proof.
  intros Hm Hf. apply uwp_call1. intros c k _. simpl. rewrite (proj2 (Z.ltb_lt _ _) Hm). simpl. by rewrite Hf.
Qed.

Definition node_handle (f : node) (w : world) : handle :=
  if st_type (nstat f) =? T_DEVICE then HDev (nmajor f) (nstat f) else HFile (length (ofiles w)).

Lemma uwp_open E path mode f fd fds' Q fds w : (∀ c, ok c → willing c) → mode < 0x200 → files w path = Some f → fd_new (node_handle f w) fds = Some (fd, fds') →
  Q fd fds' (set_ofiles (ofiles w ++ [OFile f (ndata f)]) w) → uwp E (sys (Open path mode)) Q fds w.
Proof.
  intros Hok Hm Hf Hn. apply uwp_call1. intros c k Hc. simpl. rewrite (proj2 (Z.ltb_lt _ _) Hm). simpl. rewrite Hf. simpl.
  unfold node_handle in Hn. rewrite Hn, (proj2 (Z.ltb_ge _ _) (Hok c Hc)). done.
Qed.

Lemma uwp_fstat_file E fd o f Q fds w : fd_get fds fd = Some (HFile o) → ofiles w !! o = Some f →
  Q (Some (nstat (onode f))) fds w → uwp E (sys (Fstat fd)) Q fds w.
Proof. intros Hfd Ho. apply uwp_call1. intros c k _. simpl. rewrite Hfd. simpl. by rewrite Ho. Qed.

Lemma uwp_fstat_dev E fd d st Q fds w : fd_get fds fd = Some (HDev d st) → Q (Some st) fds w → uwp E (sys (Fstat fd)) Q fds w.
Proof. intros Hfd. apply uwp_call1. intros c k _. simpl. by rewrite Hfd. Qed.

(** The answer to a call on the directory tree is the kernel's. *)
Lemma uwp_tree_call E a Q fds w :
  (∀ c, ok c → Q (ans c) fds (add_event (Called 0 a (ans c)) (set_files (tree c) w))) → uwp E (sys (Call a)) Q fds w.
Proof. intros HQ. apply uwp_call. intros c k Hc. exists (ans c), fds, (add_event (Called 0 a (ans c)) (set_files (tree c) w)). split; [done|by apply HQ]. Qed.

(** ** Descriptors *)

Lemma fd_free_Some fds n : fd_free fds = Some n → fds !! n = Some None.
Proof.
  revert n. induction fds as [|[h|] fds IH]; intros n En; [done| |by injection En as <-].
  simpl in En. destruct (fd_free fds); [|done]. injection En as <-. simpl. by apply IH.
Qed.

Lemma fd_new_Some h fds fd fds' : fd_new h fds = Some (fd, fds') →
  0 ≤ fd ∧ fd_get fds' fd = Some h ∧ <[Z.to_nat fd := None]> fds' = fds ∧
  ∀ x h', fd_get fds x = Some h' → fd_get fds' x = Some h'.
Proof.
  unfold fd_new. destruct (fd_free fds) as [n|] eqn:En; [|done]. apply fd_free_Some in En. intros [= <- <-].
  pose proof (lookup_lt_Some _ _ _ En) as Hn. unfold fd_get. rewrite Nat2Z.id. split_and!.
  - lia.
  - destruct (Z.ltb_spec (Z.of_nat n) 0); [lia|]. by rewrite list_lookup_insert_eq.
  - rewrite list_insert_insert_eq. by apply list_insert_id.
  - intros x h'. destruct (Z.ltb_spec x 0); [done|]. destruct (decide (Z.to_nat x = n)) as [->|Hne]; [by rewrite En|].
    by rewrite list_lookup_insert_ne by done.
Qed.

End logic.
