(* ===== verification/UserFiles.v ===== *)
(** * What cat, wc, grep, echo and ls print

    The programs of UserProgs.v that read files and write to the console, proved in
    the logic of UserLogic.v: what they print is a function of the files that their
    arguments name. *)

From Stdlib Require Import Ascii String FunctionalExtensionality.
From ITree Require Import ITree.
From S2P Require Import Prelude Machine CString Grep Wc Printf Fs Pipe Kernel File Proc Sysfile UserSys UserProgs UserLogic.
Local Open Scope Z_scope.
Local Open Scope list_scope.

(** ** What programs print *)

Definition emit (d : Z) (l : list Z) (w : world) : world := set_outs (fset (outs w) d (outs w d ++ l)) w.

(** What is printed for the arguments up to the first that names no file, and that
    argument; [res] is for one file. *)
Fixpoint results (res : list Z → node → list Z) (fs : list Z → option node) (args : list (list Z)) : list Z * option (list Z) :=
  match args with
  | [] => ([], None)
  | a :: args =>
      match fs a with
      | Some f => let '(l, missing) := results res fs args in (res a f ++ l, missing)
      | None => ([], Some a)
      end
  end.

(** The number in decimal. *)
Definition decimal (z : Z) : list Z := default [] (printint udigits z 10 true).

Definition wc_line (name s : list Z) : list Z :=
  decimal (s32 (Z.of_nat (length (filter (λ b, b = NL) s)))) ++ [32] ++ decimal (s32 (Z.of_nat (length (words s)))) ++ [32] ++
  decimal (s32 (Z.of_nat (length s))) ++ [32] ++ name ++ [NL].

(** The matching lines, by the function of Grep.v; a file delivers what is asked
    for, or all that is left. *)
Definition grep_file (pattern s : list Z) : list Z := default [] (grep (λ _, BUFSZ) pattern s).

(** Several outputs, each on its device. *)
Definition emits (ls : list (Z * list Z)) (w : world) : world := foldl (λ w '(d, l), emit d l w) w ls.

(** The words of [echo]. *)
Fixpoint echo_line (args : list (list Z)) : list Z :=
  match args with
  | [] => []
  | [a] => a ++ [NL]
  | a :: args => a ++ [32] ++ echo_line args
  end.

(** The entries of a directory with these bytes. *)
Fixpoint entries (fuel : nat) (s : list Z) : list (list Z) :=
  match fuel with
  | O => []
  | S fuel => if (Z.to_nat DIRENT_SIZE <=? length s)%nat then take (Z.to_nat DIRENT_SIZE) s :: entries fuel (drop (Z.to_nat DIRENT_SIZE) s) else []
  end.

Definition ls_line (path : list Z) (st : stat) : list Z :=
  fmtname path ++ [32] ++ decimal (s32 (st_type st)) ++ [32] ++ decimal (s32 (st_ino st)) ++ [32] ++ decimal (s32 (st_size st)) ++ [NL].

(** The line of a file that is an argument of its own; its size is unsigned. *)
Definition ls_file_line (path : list Z) (st : stat) : list Z :=
  fmtname path ++ [32] ++ decimal (s32 (st_type st)) ++ [32] ++ decimal (s32 (st_ino st)) ++ [32] ++
  default [] (printint udigits (s32 (st_size st)) 10 false) ++ [NL].

Definition ls_entry_line (fs : list Z → option node) (path de : list Z) : list Z :=
  if de_inum de =? 0 then []
  else
    let p := path ++ str "/" ++ until_nul (de_name de) in
    match fs p with
    | None => str "ls: cannot stat " ++ p ++ [NL]
    | Some f => ls_line p (nstat f)
    end.

(** What ls prints for an argument: on the standard output [d1], or on the standard
    error [d2]. *)
Definition ls_out (fs : list Z → option node) (d1 d2 : Z) (path : list Z) : Z * list Z :=
  match fs path with
  | None => (d2, str "ls: cannot open " ++ path ++ [NL])
  | Some f =>
      let ty := st_type (nstat f) in
      (d1, if ty =? T_FILE then ls_file_line path (nstat f)
           else if ty =? T_DIR then
             if Z.of_nat (length path) + 1 + DIRSIZ + 1 >? 512 then str "ls: path too long" ++ [NL]
             else concat (ls_entry_line fs path <$> entries (length (ndata f)) (ndata f))
           else [])
  end.

(** ** Lemmas *)

Section programs.
Context (ok : choice → Prop) (programs : list Z → list (list Z) → option (prog Empty_set)) (pid : Z).
Context (E : Z → world → Prop).
Local Abbreviation wpu := (uwp ok programs pid E).

Lemma emit_emit d a b w : emit d b (emit d a w) = emit d (a ++ b) w.
Proof.
  unfold emit, set_outs. simpl. f_equal. apply functional_extensionality. intros x. unfold fset.
  rewrite Z.eqb_refl. destruct (x =? d); [|done]. by rewrite <-app_assoc.
Qed.

Lemma emit_nil d w : emit d [] w = w.
Proof.
  destruct w. unfold emit, set_outs. simpl. f_equal. apply functional_extensionality. intros x. unfold fset.
  destruct (Z.eqb_spec x d) as [->|]; [|done]. by rewrite app_nil_r.
Qed.

Lemma decimal_Some z : printint udigits (s32 z) 10 true = Some (decimal (s32 z)).
Proof.
  destruct (printint_spec udigits (s32 z) 10 true) as (l & El & _); [by right|by left|apply s32_range|].
  unfold decimal. by rewrite El.
Qed.

Lemma udecimal_Some z : printint udigits (s32 z) 10 false = Some (default [] (printint udigits (s32 z) 10 false)).
Proof. by destruct (printint_spec udigits (s32 z) 10 false) as (l & -> & _); [by right|by left|apply s32_range|]. Qed.

Lemma ls_format p st : vprintf udigits false (str "%s %d %d %d" ++ [NL])
    [VStr (Some (fmtname p)); VInt (s32 (st_type st)); VInt (s32 (st_ino st)); VInt (s32 (st_size st))] = Some (ls_line p st).
Proof.
  unfold ls_line. generalize (decimal_Some (st_type st)) (decimal_Some (st_ino st)) (decimal_Some (st_size st)).
  generalize (decimal (s32 (st_type st))) (decimal (s32 (st_ino st))) (decimal (s32 (st_size st))).
  generalize (s32 (st_type st)) (s32 (st_ino st)) (s32 (st_size st)) (fmtname p) udigits. clear. intros a b c p D la lb lc Ha Hb Hc.
  lazy -[printint]. rewrite Ha, Hb, Hc. reflexivity.
Qed.

Lemma ls_file_format p st : vprintf udigits false (str "%s %d %d %l" ++ [NL])
    [VStr (Some (fmtname p)); VInt (s32 (st_type st)); VInt (s32 (st_ino st)); VLong (st_size st)] = Some (ls_file_line p st).
Proof.
  unfold ls_file_line. generalize (decimal_Some (st_type st)) (decimal_Some (st_ino st)) (udecimal_Some (st_size st)).
  generalize (decimal (s32 (st_type st))) (decimal (s32 (st_ino st))) (default [] (printint udigits (s32 (st_size st)) 10 false)).
  generalize (s32 (st_type st)) (s32 (st_ino st)) (st_size st) (fmtname p) udigits. clear. intros a b c p D la lb lc Ha Hb Hc.
  lazy -[printint s32]. rewrite Ha, Hb, Hc. reflexivity.
Qed.

Lemma wc_format a b c name : vprintf udigits false (str "%d %d %d %s" ++ [NL]) [VInt (s32 a); VInt (s32 b); VInt (s32 c); VStr (Some name)] =
  Some (decimal (s32 a) ++ [32] ++ decimal (s32 b) ++ [32] ++ decimal (s32 c) ++ [32] ++ name ++ [NL]).
Proof.
  generalize (decimal_Some a) (decimal_Some b) (decimal_Some c). generalize (decimal (s32 a)) (decimal (s32 b)) (decimal (s32 c)).
  generalize (s32 a) (s32 b) (s32 c) udigits. clear. intros a b c D la lb lc Ha Hb Hc.
  lazy -[printint]. rewrite Ha, Hb, Hc. reflexivity.
Qed.

(** The line that [strchr] ends. *)
Lemma strchr_line s k : strchr s NL = Some k → take k s ++ [NL] = take (S k) s.
Proof.
  revert k. induction s as [|x s IH]; intros k Ek; [done|]. cbn [strchr] in Ek. destruct (x =? 0); [done|].
  destruct (Z.eqb_spec x NL) as [->|]; [by injection Ek as <-|].
  destruct (strchr s NL) as [j|] eqn:Ej; [|done]. injection Ek as <-. cbn [take app]. f_equal. by apply IH.
Qed.

Lemma wpu_puts fd d l Q fds w : is_dev fds fd d → Q tt fds (emit d l w) → wpu (puts fd l) Q fds w.
Proof.
  intros Hfd. revert w. induction l as [|b l IH]; intros w HQ.
  - apply uwp_ret. by rewrite emit_nil in HQ.
  - cbn [puts]. apply uwp_bind. apply (uwp_write _ _ _ _ _ d); [done|]. apply IH.
    change (set_outs _ w) with (emit d [b] w). by rewrite emit_emit.
Qed.

Lemma wpu_fprintf fd d fmt ap l Q fds w : is_dev fds fd d → vprintf udigits false fmt ap = Some l →
  Q tt fds (emit d l w) → wpu (fprintf fd fmt ap) Q fds w.
Proof. intros Hfd El HQ. unfold fprintf. rewrite El. by eapply wpu_puts. Qed.

(** A file is read to its end: the output is [l], and the files that are open
    move. *)
Definition done_with (fds : list (option handle)) (d : Z) (l : list Z) (w : world) : list (option handle) → world → Prop :=
  λ fds' w', fds' = fds ∧ ∃ fs, w' = emit d l (set_ofiles fs w).

Section reading.
Context (fds : list (option handle)) (d fd : Z) (o : nat).
Hypothesis Hout : is_dev fds 1 d.
Hypothesis Hfd : fd_get fds fd = Some (HFile o).

Lemma wpu_read nd left n Q w : ofiles w !! o = Some (OFile nd left) →
  (∀ w', w' = set_ofiles (<[o := OFile nd (drop (Z.to_nat n) left)]> (ofiles w)) w →
    ofiles w' !! o = Some (OFile nd (drop (Z.to_nat n) left)) → Q (Some (take (Z.to_nat n) left)) fds w') →
  wpu (sys (Read fd n)) Q fds w.
Proof.
  intros Ho HQ. eapply uwp_read_file; [done|done|]. apply HQ; [done|]. simpl.
  by apply list_lookup_insert_eq, (lookup_lt_Some _ _ _ Ho).
Qed.

Lemma wpu_cat nd left w : ofiles w !! o = Some (OFile nd left) → wpu (cat fd) (λ _, done_with fds d left w) fds w.
Proof.
  remember (length left) as n eqn:En. revert left w En. induction (lt_wf n) as [n _ IH]. intros left w En Ho.
  unfold cat. apply uwp_iter, uwp_bind. apply (wpu_read nd left); [done|]. intros w' -> Ho'.
  destruct (take (Z.to_nat 512) left) as [|b buf] eqn:Et.
  - apply uwp_ret. split; [done|]. destruct left; [|done]. eexists. by rewrite emit_nil.
  - apply uwp_bind. apply (uwp_write _ _ _ _ _ d); [done|]. rewrite Z.eqb_refl. apply uwp_ret.
    eapply uwp_mono; [eapply (IH (length (drop (Z.to_nat 512) left))); [|done|exact Ho']|].
    + rewrite En, length_drop. destruct left; [done|]. simpl. lia.
    + intros _ fds' w' [-> [fs ->]]. split; [done|]. exists fs. rewrite <-Et.
      change (set_ofiles fs (set_outs ?o ?w)) with (set_outs o (set_ofiles fs w)). cbn [outs set_ofiles].
      change (set_outs _ _) with (emit d (take (Z.to_nat 512) left) (set_ofiles fs w)).
      by rewrite emit_emit, take_drop.
Qed.

Lemma wpu_wc_loop nd left name k w : ofiles w !! o = Some (OFile nd left) →
  let k' := foldl wc_byte k left in
  wpu (ITree.iter (wc_body fd name) k) (λ _, done_with fds d
    (decimal (s32 (c_l k')) ++ [32] ++ decimal (s32 (c_w k')) ++ [32] ++ decimal (s32 (c_c k')) ++ [32] ++ name ++ [NL]) w) fds w.
Proof.
  remember (length left) as n eqn:En. revert left w k En. induction (lt_wf n) as [n _ IH]. intros left w k En Ho k'.
  apply uwp_iter. unfold wc_body at 1. apply uwp_bind. apply (wpu_read nd left); [done|]. intros w' -> Ho'.
  destruct (take (Z.to_nat 512) left) as [|b buf] eqn:Et.
  - destruct left; [|done]. apply uwp_bind. eapply wpu_fprintf; [done|apply wc_format|]. apply uwp_ret. split; [done|]. by eexists.
  - apply uwp_ret. eapply uwp_mono; [eapply (IH (length (drop (Z.to_nat 512) left))); [|done|exact Ho']|].
    + rewrite En, length_drop. destruct left; [done|]. simpl. lia.
    + intros _ fds' w' [-> [fs ->]]. split; [done|]. exists fs.
      by rewrite <-Et, <-foldl_app, take_drop.
Qed.

Lemma wpu_wc nd left name w : ofiles w !! o = Some (OFile nd left) → wpu (wc_fd fd name) (λ _, done_with fds d (wc_line name left) w) fds w.
Proof.
  intros Ho. eapply uwp_mono; [by apply (wpu_wc_loop nd left)|]. intros r fds' w' H.
  destruct (wc_bytes left (Counts 0 0 0 false)) as (El & Ec & Ew). rewrite El, Ec, Ew in H.
  cbn [c_l c_w c_c inword] in H. rewrite !Z.add_0_l, Z.sub_0_r in H. exact H.
Qed.

Lemma wpu_grep_write fuel pattern p out w : (length p < fuel)%nat →
  ∃ l rest, grep_lines fuel pattern p out = Some (out ++ l, rest) ∧ (length rest ≤ length p)%nat ∧
    wpu (grep_write fuel pattern p) (λ r fds' w', r = rest ∧ fds' = fds ∧ w' = emit d l w) fds w.
Proof.
  revert p out w. induction fuel as [|fuel IH]; intros p out w Hf; [lia|]. cbn [grep_lines grep_write].
  destruct (strchr p NL) as [k|] eqn:Ek.
  2: { exists [], p. rewrite app_nil_r. split; [done|]. split; [done|]. apply uwp_ret. by rewrite emit_nil. }
  destruct (strchr_Some p k Ek) as [_ Hk].
  set (l1 := if match_re pattern (take k p) then take (S k) p else []).
  destruct (IH (drop (S k) p) (out ++ l1) (emit d l1 w)) as (l & rest & E1 & Hr & Hw); [rewrite length_drop; lia|].
  exists (l1 ++ l), rest. split.
  { rewrite (app_assoc out l1 l), <-E1. f_equal. unfold l1. destruct (match_re _ _); [|by rewrite app_nil_r]. f_equal.
    by rewrite (strchr_line p k Ek). }
  split; [rewrite length_drop in Hr; lia|]. apply uwp_bind.
  assert (wpu (grep_write fuel pattern (drop (S k) p)) (λ r fds' w', r = rest ∧ fds' = fds ∧ w' = emit d (l1 ++ l) w) fds (emit d l1 w)) as Hw'.
  { eapply uwp_mono; [exact Hw|]. intros r fds' w' (-> & -> & ->). by rewrite emit_emit. }
  unfold l1 in *. destruct (match_re pattern (take k p)).
  - apply uwp_bind. apply (uwp_write _ _ _ _ _ d); [done|]. by apply uwp_ret.
  - apply uwp_ret. by rewrite emit_nil in Hw'.
Qed.

Lemma wpu_grep_loop nd fuel i pattern buf left out w : ofiles w !! o = Some (OFile nd left) → (length left < fuel)%nat →
  ∃ l, grep_loop fuel (λ _, BUFSZ) i pattern buf left out = Some (out ++ l) ∧
    wpu (ITree.iter (grep_body pattern fd) buf) (λ _, done_with fds d l w) fds w.
Proof.
  revert i buf left out w. induction fuel as [|fuel IH]; intros i buf left out w Ho Hf; [lia|]. cbn [grep_loop].
  set (n := BUFSZ - Z.of_nat (length buf) - 1). rewrite (Z.min_r BUFSZ n) by lia.
  set (w1 := set_ofiles (<[o := OFile nd (drop (Z.to_nat n) left)]> (ofiles w)) w).
  destruct (take (Z.to_nat n) left) as [|b got] eqn:Et.
  { exists []. rewrite app_nil_r. split; [done|]. apply uwp_iter. unfold grep_body at 1. apply uwp_bind.
    apply (wpu_read nd left); [done|]. intros w' -> _. fold n. rewrite Et. apply uwp_ret. split; [done|]. eexists. by rewrite emit_nil. }
  destruct (wpu_grep_write (S (length (buf ++ b :: got))) pattern (buf ++ b :: got) out w1) as (l1 & rest & E1 & _ & Hw1); [lia|].
  rewrite E1. cbn [mbind option_bind].
  destruct (IH (S i) rest (drop (Z.to_nat n) left) (out ++ l1) (emit d l1 w1)) as (l2 & E2 & Hw2).
  { simpl. by apply list_lookup_insert_eq, (lookup_lt_Some _ _ _ Ho). }
  { rewrite length_drop. destruct (Z.to_nat n), left; try done. simpl in *. lia. }
  exists (l1 ++ l2). rewrite E2, app_assoc. split; [done|].
  apply uwp_iter. unfold grep_body at 1. apply uwp_bind. apply (wpu_read nd left); [done|]. intros w' -> _. fold n. rewrite Et.
  apply uwp_bind. eapply uwp_mono; [exact Hw1|]. intros r fds' w' (-> & -> & ->). apply uwp_ret.
  eapply uwp_mono; [exact Hw2|]. intros _ fds' w' [-> [fs ->]]. split; [done|]. exists fs.
  rewrite <-emit_emit. done.
Qed.

Lemma wpu_grep nd left pattern w : ofiles w !! o = Some (OFile nd left) →
  wpu (grep_fd pattern fd) (λ _, done_with fds d (grep_file pattern left) w) fds w.
Proof.
  intros Ho. destruct (wpu_grep_loop nd (S (length left)) 0 pattern [] left [] w Ho) as (l & E1 & Hw); [lia|].
  unfold grep_file, grep. rewrite E1. exact Hw.
Qed.

End reading.

Hypothesis Hok : ∀ c, ok c → willing c.

(** The arguments that name files name no device. *)
Definition no_device (fs : list Z → option node) (args : list (list Z)) : Prop :=
  Forall (λ a, ∀ f, fs a = Some f → st_type (nstat f) ≠ T_DEVICE) args.

(** The loop over the files. *)
Lemma wpu_each_file f cannot res fds d n args w :
  is_dev fds 1 d → fd_free fds = Some n → no_device (files w) args →
  (∀ fds' fd o path nd w', is_dev fds' 1 d → fd_get fds' fd = Some (HFile o) → ofiles w' !! o = Some (OFile nd (ndata nd)) →
    wpu (f fd path) (λ _, done_with fds' d (res path nd) w') fds' w') →
  let '(l, missing) := results res (files w) args in
  (∀ fs, match missing with
         | None => E 0 (emit d l (set_ofiles fs w))
         | Some a => wpu (cannot a) (λ _ _ _, False) fds (emit d l (set_ofiles fs w))
         end) →
  wpu (each_file f cannot args) (λ _ _ _, False) fds w.
Proof.
  intros Hout Hn Hdev Hf. revert w Hdev. induction args as [|a args IH]; intros w Hdev; cbn [results each_file].
  { intros HE. apply uwp_exit. specialize (HE (ofiles w)). rewrite emit_nil in HE. by destruct w. }
  apply Forall_cons in Hdev as [Ha Hdev]. destruct (files w a) as [nd|] eqn:Ea.
  2: { intros HE. apply uwp_bind. apply uwp_open_none; [lia|done|]. specialize (HE (ofiles w)). rewrite emit_nil in HE. by destruct w. }
  destruct (results res (files w) args) as [l missing] eqn:Er. intros HE.
  assert (node_handle nd w = HFile (length (ofiles w))) as Eh.
  { unfold node_handle. by rewrite (proj2 (Z.eqb_neq _ _) (Ha nd eq_refl)). }
  assert (∃ fd fds', fd_new (HFile (length (ofiles w))) fds = Some (fd, fds')) as (fd & fds' & Ef) by (unfold fd_new; rewrite Hn; by eexists _, _).
  destruct (fd_new_Some _ _ _ _ Ef) as (H0 & Hfd & Hcl & Hkeep).
  apply uwp_bind. eapply uwp_open; [done|lia|done|by rewrite Eh|]. rewrite (proj2 (Z.ltb_ge _ _) H0).
  apply uwp_bind. eapply uwp_mono.
  { apply (Hf fds' fd (length (ofiles w)) a nd); [destruct Hout as [st Hst]; by exists st; apply Hkeep|done|].
    simpl. by rewrite lookup_app_r, Nat.sub_diag by lia. }
  intros [] fds1 w1 [-> [fs ->]]. apply uwp_bind. eapply uwp_close; [done|]. rewrite Hcl.
  specialize (IH (emit d (res a nd) (set_ofiles fs w)) Hdev). cbn [files emit set_outs set_ofiles] in IH. rewrite Er in IH.
  apply IH. intros fs'. specialize (HE fs'). rewrite <-emit_emit in HE. exact HE.
Qed.

(** ** ls *)

(** A file is open for a while: [body] gets its descriptor, and closes it. *)
Lemma wpu_with_file {A} path nd n (body : Z → prog A) Q fds w :
  files w path = Some nd → fd_free fds = Some n →
  (∀ fd fds', fd_new (node_handle nd w) fds = Some (fd, fds') → 0 ≤ fd → fd_get fds' fd = Some (node_handle nd w) →
    <[Z.to_nat fd := None]> fds' = fds → (∀ x h, fd_get fds x = Some h → fd_get fds' x = Some h) →
    wpu (body fd) Q fds' (set_ofiles (ofiles w ++ [OFile nd (ndata nd)]) w)) →
  wpu (fd ← sys (Open path 0); body fd) Q fds w.
Proof.
  intros Hp Hn HQ. assert (∃ fd fds', fd_new (node_handle nd w) fds = Some (fd, fds')) as (fd & fds' & Ef) by (unfold fd_new; rewrite Hn; by eexists _, _).
  destruct (fd_new_Some _ _ _ _ Ef) as (H0 & Hfd & Hcl & Hkeep).
  apply uwp_bind. eapply uwp_open; [done|lia|done|done|]. by apply HQ.
Qed.

Lemma fstat_node E' nd fd Q fds w : fd_get fds fd = Some (node_handle nd w) →
  Q (Some (nstat nd)) fds (set_ofiles (ofiles w ++ [OFile nd (ndata nd)]) w) →
  uwp ok programs pid E' (sys (Fstat fd)) Q fds (set_ofiles (ofiles w ++ [OFile nd (ndata nd)]) w).
Proof.
  unfold node_handle. destruct (st_type (nstat nd) =? T_DEVICE); intros Hfd HQ; [by eapply uwp_fstat_dev|].
  eapply (uwp_fstat_file _ _ _ _ _ _ (OFile nd (ndata nd))); [done| |done]. simpl. by rewrite lookup_app_r, Nat.sub_diag by lia.
Qed.

Lemma wpu_ustat path n Q fds w : fd_free fds = Some n →
  (∀ fs, Q (nstat <$> files w path) fds (set_ofiles (ofiles w ++ fs) w)) → wpu (ustat path) Q fds w.
Proof.
  intros Hn HQ. unfold ustat. destruct (files w path) as [nd|] eqn:Ep.
  - apply (wpu_with_file path nd n); [done|done|]. intros fd fds' Ef H0 Hfd Hcl Hkeep. rewrite (proj2 (Z.ltb_ge _ _) H0).
    apply uwp_bind. apply fstat_node; [done|]. apply uwp_bind. eapply uwp_close; [done|]. rewrite Hcl. apply uwp_ret. apply HQ.
  - apply uwp_bind. apply uwp_open_none; [lia|done|]. apply uwp_ret. specialize (HQ []). rewrite app_nil_r in HQ. by destruct w.
Qed.

Section listing.
Context (fds : list (option handle)) (d : Z) (n : nat).
Hypothesis Hout : is_dev fds 1 d.
Hypothesis Hn : fd_free fds = Some n.

Lemma wpu_ls_entry path de w : wpu (ls_entry path de)
  (λ _ fds' w', fds' = fds ∧ ∃ fs, w' = emit d (ls_entry_line (files w) path de) (set_ofiles (ofiles w ++ fs) w)) fds w.
Proof.
  unfold ls_entry, ls_entry_line. destruct (de_inum de =? 0).
  { apply uwp_ret. split; [done|]. exists []. rewrite emit_nil, app_nil_r. by destruct w. }
  cbv zeta. apply uwp_bind. eapply wpu_ustat; [done|]. intros fs.
  destruct (files w (path ++ str "/" ++ until_nul (de_name de))) as [f|]; cbn [fmap option_fmap option_map].
  - eapply wpu_fprintf; [done|apply ls_format|]. split; [done|]. by exists fs.
  - eapply wpu_fprintf; [done|reflexivity|]. split; [done|]. by exists fs.
Qed.

Lemma wpu_ls_dir fd o nd left path fuel w : fd_get fds fd = Some (HFile o) → ofiles w !! o = Some (OFile nd left) → (length left ≤ fuel)%nat →
  wpu (ls_dir fd path) (λ _, done_with fds d (concat (ls_entry_line (files w) path <$> entries fuel left)) w) fds w.
Proof.
  intros Hfd. revert left w. induction fuel as [|fuel IH]; intros left w Ho Hf.
  all: apply uwp_iter, uwp_bind; apply (wpu_read _ _ _ Hfd nd left); [done|]; intros w1 Ew1 Ho1; cbn [entries].
  { destruct left; [|simpl in Hf; lia]. rewrite take_nil. change (Z.of_nat (length []) =? DIRENT_SIZE) with false. cbv iota.
    apply uwp_ret. split; [done|]. subst w1. eexists. by rewrite emit_nil. }
  rewrite length_take. destruct (Nat.leb_spec (Z.to_nat DIRENT_SIZE) (length left)) as [Hl|Hl].
  2: { rewrite (proj2 (Z.eqb_neq _ _)) by (unfold DIRENT_SIZE in *; lia). apply uwp_ret. split; [done|]. subst w1. eexists. by rewrite emit_nil. }
  rewrite (proj2 (Z.eqb_eq _ _)) by (unfold DIRENT_SIZE in *; lia). apply uwp_bind. eapply uwp_mono; [apply wpu_ls_entry|].
  intros [] fds' w2 [-> [fs Ew2]]. apply uwp_ret.
  eapply uwp_mono; [apply (IH (drop (Z.to_nat DIRENT_SIZE) left) w2)|].
  - rewrite Ew2. cbn [emit set_outs set_ofiles ofiles]. by apply lookup_app_l_Some.
  - rewrite length_drop. unfold DIRENT_SIZE in *. lia.
  - intros _ fds' w3 [-> [fs' ->]]. split; [done|]. exists fs'. subst w2 w1. cbn [files emit set_outs set_ofiles fmap list_fmap concat].
    rewrite <-emit_emit. done.
Qed.

End listing.

(** Two descriptors are free. *)
Definition two_free (fds : list (option handle)) : Prop :=
  ∃ n, fd_free fds = Some n ∧ ∀ h, is_Some (fd_free (<[n := Some h]> fds)).

Lemma is_dev_keep fds fds' fd d : (∀ x h, fd_get fds x = Some h → fd_get fds' x = Some h) → is_dev fds fd d → is_dev fds' fd d.
Proof. intros Hk [st H]. exists st. by apply Hk. Qed.

Lemma wpu_ls path d1 d2 fds w : is_dev fds 1 d1 → is_dev fds 2 d2 → two_free fds →
  wpu (ls path) (λ _ fds' w', fds' = fds ∧ ∃ fs, w' = emits [ls_out (files w) d1 d2 path] (set_ofiles fs w)) fds w.
Proof.
  intros Hout Herr (n & Hn & Hn2). unfold ls, ls_out. destruct (files w path) as [nd|] eqn:Ep.
  2: { apply uwp_bind. apply uwp_open_none; [lia|done|]. eapply wpu_fprintf; [done|reflexivity|].
       split; [done|]. exists (ofiles w). by destruct w. }
  apply (wpu_with_file path nd n); [done|done|]. intros fd fds' Ef H0 Hfd Hcl Hkeep. rewrite (proj2 (Z.ltb_ge _ _) H0).
  apply uwp_bind. apply fstat_node; [done|]. apply uwp_bind.
  apply (is_dev_keep _ _ _ _ Hkeep) in Hout.
  assert (∀ l fs, wpu (sys (Close fd) ;; mret tt) (λ _ fds' w', fds' = fds ∧ ∃ fs, w' = emit d1 l (set_ofiles fs w)) fds' (emit d1 l (set_ofiles fs w))) as Hend.
  { intros l fs. apply uwp_bind. eapply uwp_close; [done|]. rewrite Hcl. apply uwp_ret. split; [done|]. by exists fs. }
  cbv zeta. destruct (Z.eqb_spec (st_type (nstat nd)) T_FILE).
  { eapply wpu_fprintf; [done|apply ls_file_format|]. apply Hend. }
  destruct (Z.eqb_spec (st_type (nstat nd)) T_DIR) as [Hdir|].
  2: { apply uwp_ret. specialize (Hend [] (ofiles w ++ [OFile nd (ndata nd)])). rewrite emit_nil in Hend. exact Hend. }
  destruct (Z.of_nat (length path) + 1 + DIRSIZ + 1 >? 512).
  { eapply wpu_fprintf; [done|reflexivity|]. apply Hend. }
  assert (∃ n', fd_free fds' = Some n') as [n' Hn'].
  { unfold fd_new in Ef. rewrite Hn in Ef. injection Ef as <- <-. apply Hn2. }
  assert (node_handle nd w = HFile (length (ofiles w))) as Eh by (unfold node_handle; by rewrite Hdir). rewrite Eh in Hfd.
  eapply uwp_mono.
  { eapply (wpu_ls_dir fds' d1 n' Hout Hn' fd _ nd (ndata nd) path); [exact Hfd| |reflexivity].
    simpl. by rewrite lookup_app_r, Nat.sub_diag by lia. }
  intros [] fds1 w1 [-> [fs ->]]. apply Hend.
Qed.

Lemma emits_app a b w : emits (a ++ b) w = emits b (emits a w).
Proof. apply foldl_app. Qed.

Lemma emits_ofiles l fs w : set_ofiles fs (emits l w) = emits l (set_ofiles fs w).
Proof. revert w. induction l as [|[d x] l IH]; intros w; [done|]. apply IH. Qed.

Lemma emits_files l w : files (emits l w) = files w.
Proof. revert w. induction l as [|[d x] l IH]; intros w; [done|]. unfold emits in *. cbn [foldl]. by rewrite IH. Qed.

Lemma wpu_ls_args args d1 d2 fds w : is_dev fds 1 d1 → is_dev fds 2 d2 → two_free fds →
  (∀ fs, E 0 (emits (ls_out (files w) d1 d2 <$> args) (set_ofiles fs w))) → wpu (ls_args args) (λ _ _ _, False) fds w.
Proof.
  intros Hout Herr Hn. revert w. induction args as [|a args IH]; intros w HE; cbn [ls_args].
  { apply uwp_exit. specialize (HE (ofiles w)). by destruct w. }
  apply uwp_bind. eapply uwp_mono; [by apply (wpu_ls a d1 d2)|]. intros [] fds' w' [-> [fs ->]]. apply IH. intros fs'.
  rewrite emits_ofiles, emits_files. exact (HE fs').
Qed.

Lemma wpu_echo args d fds w : is_dev fds 1 d → E 0 (emit d (echo_line args) w) → wpu (echo_args args) (λ _ _ _, False) fds w.
Proof.
  intros Hout. revert w. induction args as [|a args IH]; intros w HE; cbn [echo_args].
  { apply uwp_exit. cbn [echo_line] in HE. by rewrite emit_nil in HE. }
  apply uwp_bind. apply (uwp_write _ _ _ _ _ d); [done|]. apply uwp_bind. apply (uwp_write _ _ _ _ _ d); [done|].
  change (set_outs _ (set_outs _ w)) with (emit d (match args with [] => [NL] | _ => [32] end) (emit d a w)). rewrite emit_emit. apply IH. rewrite emit_emit.
  destruct args as [|b args]; [by rewrite app_nil_r|]. rewrite <-app_assoc. exact HE.
Qed.

End programs.

(** * Claims *)

(** The standard output is device [d1], the standard error device [d2], and another
    descriptor is free. *)
Record standard (fds : list (option handle)) (d1 d2 : Z) : Prop := {
  std_out : is_dev fds 1 d1;
  std_err : is_dev fds 2 d2;
  std_free : is_Some (fd_free fds)
}.

(** The end of a program that printed [l] on [d], with the message [msg] on [d'] if
    a file was missing. *)
Definition ended (pid : Z) (d : Z) (r : list Z * option (list Z)) (d' : Z) (msg : list Z → list Z) (w w' : world) : Prop :=
  ∃ fs, w' = match r with
             | (l, None) => exited pid 0 (emit d l (set_ofiles fs w))
             | (l, Some a) => exited pid 1 (emit d' (msg a) (emit d l (set_ofiles fs w)))
             end.

Lemma each_file_ends programs pid f cannot res fds d1 d' msg n args w :
  is_dev fds 1 d1 → fd_free fds = Some n → no_device (files w) args →
  (∀ E fds' fd o path nd w', is_dev fds' 1 d1 → fd_get fds' fd = Some (HFile o) → ofiles w' !! o = Some (OFile nd (ndata nd)) →
    uwp willing programs pid E (f fd path) (λ _, done_with fds' d1 (res path nd) w') fds' w') →
  (∀ E a w, E 1 (emit d' (msg a) w) → uwp willing programs pid E (cannot a) (λ _ _ _, False) fds w) →
  inevitably willing programs (ended pid d1 (results res (files w) args) d' msg w) (alone pid fds w (each_file f cannot args)).
Proof.
  intros Hout Hn Hdev Hf Hc. apply uwp_inevitably.
  match goal with |- uwp _ _ _ ?E _ _ _ _ => pose proof (wpu_each_file willing programs pid E (λ c H, H) f cannot res fds d1 n args w Hout Hn Hdev (Hf E)) as Hw end.
  destruct (results res (files w) args) as [l [a|]]; apply Hw; intros fs; [apply Hc|]; by exists fs.
Qed.

(** C36: cat, wc and grep process the files that their arguments name, in order, up to
    one that does not exist, and then end with status 0, or 1 and a message.  For a
    file, cat prints its bytes, wc the number of its newlines, words and bytes, and
    grep what [grep] of Grep.v prints for it.  This happens whatever the kernel
    decides, if it refuses nothing for lack of resources. *)
Theorem filters_process_files programs pid fds d1 d2 name args w :
  standard fds d1 d2 → no_device (files w) args → args ≠ [] →
  inevitably willing programs
    (ended pid d1 (results (λ _ f, ndata f) (files w) args) d2 (λ a, str "cat: cannot open " ++ a ++ [NL]) w)
    (alone pid fds w (cat_main (name :: args))) ∧
  inevitably willing programs
    (ended pid d1 (results (λ a f, wc_line a (ndata f)) (files w) args) d1 (λ a, str "wc: cannot open " ++ a ++ [NL]) w)
    (alone pid fds w (wc_main (name :: args))) ∧
  ∀ pattern, inevitably willing programs
    (ended pid d1 (results (λ _ f, grep_file pattern (ndata f)) (files w) args) d1 (λ a, str "grep: cannot open " ++ a ++ [NL]) w)
    (alone pid fds w (grep_main (name :: pattern :: args))).
Proof.
  intros [Hout Herr [n Hn]] Hdev Hne. destruct args as [|a args]; [done|].
  split_and!; [| |intros pattern]; apply (each_file_ends _ _ _ _ _ _ _ _ _ n); try done.
  - intros E fds' fd o path nd w' H1 H2 H3. by eapply wpu_cat.
  - intros E a' w' HE. apply uwp_bind. eapply wpu_fprintf; [done|reflexivity|]. by apply uwp_exit.
  - intros E fds' fd o path nd w' H1 H2 H3. by eapply wpu_wc.
  - intros E a' w' HE. apply uwp_bind. eapply wpu_fprintf; [done|reflexivity|]. by apply uwp_exit.
  - intros E fds' fd o path nd w' H1 H2 H3. by eapply wpu_grep.
  - intros E a' w' HE. apply uwp_bind. eapply wpu_fprintf; [done|reflexivity|]. by apply uwp_exit.
Qed.

(** Ls prints, for every argument in order, the line of a file, a line for every
    entry in use of a directory, with the type, number and size of the file that the
    path of the directory and the name denote, or a message; echo prints its
    arguments with blanks between them and a newline after the last. *)
Theorem ls_and_echo_print programs pid fds d1 d2 name args w :
  is_dev fds 1 d1 → is_dev fds 2 d2 → two_free fds →
  inevitably willing programs
    (λ w', ∃ fs, w' = exited pid 0 (emits (ls_out (files w) d1 d2 <$> match args with [] => [str "."] | _ => args end) (set_ofiles fs w)))
    (alone pid fds w (ls_main (name :: args))) ∧
  inevitably willing programs (λ w', w' = exited pid 0 (emit d1 (echo_line args) w)) (alone pid fds w (echo_main (name :: args))).
Proof.
  intros Hout Herr Hn. split; apply uwp_inevitably.
  - destruct args as [|a args].
    + apply uwp_bind. eapply uwp_mono; [by apply (wpu_ls willing _ _ _ (λ c H, H) _ d1 d2)|]. intros [] fds' w' [-> [fs ->]]. apply uwp_exit. by exists fs.
    + apply (wpu_ls_args willing _ _ _ (λ c H, H) _ d1 d2); [done|done|done|]. intros fs. by exists fs.
  - by apply (wpu_echo willing _ _ _ _ d1).
Qed.

(** A world with a file and a directory that lists it. *)
Definition ex_file : node := Node (Stat 1 5 T_FILE 1 3) 0 (str "hi" ++ [NL]).
Definition ex_dir : node := Node (Stat 1 1 T_DIR 1 16) 0 ([5; 0] ++ str "a" ++ repeat 0 13).
Definition ex_tree (path : list Z) : option node :=
  if bool_decide (path = str "a" ∨ path = str "./a") then Some ex_file else if bool_decide (path = str ".") then Some ex_dir else None.
Definition ex_fds : list (option handle) :=
  [None; Some (HDev 1 (Stat 1 2 T_DEVICE 1 0)); Some (HDev 2 (Stat 1 2 T_DEVICE 1 0)); None; None].
Definition ex_world : world := World [] [] [] ex_tree (λ _, []) (λ _, []) 3 [].

Lemma filters_process_files_witness : let none := λ _ _, None in
  inevitably willing none
    (ended 7 1 (results (λ _ f, ndata f) (files ex_world) [str "a"; str "b"]) 2 (λ a, str "cat: cannot open " ++ a ++ [NL]) ex_world)
    (alone 7 ex_fds ex_world (cat_main [str "cat"; str "a"; str "b"])) ∧
  results (λ _ f, ndata f) ex_tree [str "a"; str "b"] = (str "hi" ++ [NL], Some (str "b")).
Proof.
  intros none. split; [|vm_compute; reflexivity]. destruct (filters_process_files none 7 ex_fds 1 2 (str "cat") [str "a"; str "b"] ex_world) as [H _].
  - split; [by eexists|by eexists|]. by eexists.
  - repeat constructor; intros f; [intros [= <-]|]; done.
  - discriminate.
  - exact H.
Defined.

Lemma ls_and_echo_print_witness : let none := λ _ _, None in
  inevitably willing none
    (λ w', ∃ fs, w' = exited 7 0 (emits (ls_out ex_tree 1 2 <$> [str "."]) (set_ofiles fs ex_world)))
    (alone 7 ex_fds ex_world (ls_main [str "ls"])) ∧
  ls_out ex_tree 1 2 (str ".") = (1, str "a              2 5 3" ++ [NL]).
Proof.
  intros none. split; [|vm_compute; reflexivity].
  apply (ls_and_echo_print none 7 ex_fds 1 2 (str "ls") [] ex_world); [by eexists|by eexists|].
  exists O. split; [done|]. intros h. by exists 3%nat.
Defined.
