(* ===== verification/UserTree.v ===== *)
(** * Programs that change the directory tree

    rm and mkdir call the kernel for their arguments until a call fails, ln for a
    pair of names, whatever the answers are. *)

From Stdlib Require Import Ascii String.
From ITree Require Import ITree.
From S2P Require Import Prelude Machine CString Grep Printf Fs Pipe Kernel Sysfile UserSys UserProgs UserLogic UserFiles.
Local Open Scope Z_scope.
Local Open Scope list_scope.

(** The answers to the calls for [args], up to the first that is negative, and the
    argument that this one is for. *)
Inductive answered : list (list Z) → list Z → option (list Z) → Prop :=
| answered_all : answered [] [] None
| answered_ok a args r rs f : 0 ≤ r → answered args rs f → answered (a :: args) (r :: rs) f
| answered_fail a args r : r < 0 → answered (a :: args) [r] (Some a).

(** The world after the calls [c] for [args] with the answers [rs]. *)
Definition after (c : list Z → call) (args : list (list Z)) (rs : list Z) (w : world) : world :=
  foldl (λ w e, add_event e w) w (zip_with (λ a r, Called 0 (c a) r) args rs).

(** The program ended with status 0: after these calls, and with a message for the
    one that failed. *)
Definition stopped (pid d : Z) (c : list Z → call) (msg : list Z → list Z) (args : list (list Z)) (w w' : world) : Prop :=
  ∃ rs f fs, answered args rs f ∧
    w' = exited pid 0 (emit d (from_option msg [] f) (set_files fs (after c args rs w))).

Section tree.
Context (programs : list Z → list (list Z) → option (prog Empty_set)) (pid : Z).

Lemma after_files c args rs fs w : set_files fs (after c args rs w) = after c args rs (set_files fs w).
Proof. unfold after. revert w. induction (zip_with _ _ _) as [|e l IH]; intros w; [done|]. apply IH. Qed.

(** The loop of rm and mkdir. *)
Lemma wpu_each_call (loop : list (list Z) → prog Empty_set) c fmt msg d fds args w E :
  (∀ a args, loop (a :: args) = (r ← sys (Call (c a)); if r <? 0 then fprintf 2 fmt [VStr (Some a)] ;; uexit 0 else loop args)) →
  loop [] = uexit 0 → (∀ a, vprintf udigits false fmt [VStr (Some a)] = Some (msg a)) → is_dev fds 2 d →
  (∀ rs f fs, answered args rs f → E 0 (emit d (from_option msg [] f) (set_files fs (after c args rs w)))) →
  uwp (λ _, True) programs pid E (loop args) (λ _ _ _, False) fds w.
Proof.
  intros Hcons Hnil Hfmt Hd. revert w. induction args as [|a args IH]; intros w HE.
  - rewrite Hnil. apply uwp_exit. specialize (HE [] None (files w) answered_all). cbn [from_option] in HE. rewrite emit_nil in HE.
    by destruct w.
  - rewrite Hcons. apply uwp_bind. apply uwp_tree_call. intros ch _. destruct (Z.ltb_spec (ans ch) 0) as [Hr|Hr].
    + apply uwp_bind. eapply wpu_fprintf; [done|apply Hfmt|]. apply uwp_exit.
      specialize (HE [ans ch] (Some a) (tree ch) (answered_fail a args _ Hr)).
      unfold after in HE. cbn [zip_with] in HE. rewrite zip_with_nil_r in HE. exact HE.
    + apply IH. intros rs f fs Ha. rewrite after_files. specialize (HE (ans ch :: rs) f fs (answered_ok _ _ _ _ _ Hr Ha)).
      rewrite after_files in HE. exact HE.
Qed.

End tree.

(** * Claims *)

(** rm and mkdir make their call for every argument up to the first for which it
    fails; then they print a message for this one and make no further call, but end
    with status 0 all the same.  ln does so with its two names. *)
Theorem tree_programs_stop programs pid fds d name args w :
  is_dev fds 2 d → args ≠ [] →
  inevitably (λ _, True) programs (stopped pid d Unlink (λ a, str "rm: " ++ a ++ str " failed to delete" ++ [NL]) args w)
    (alone pid fds w (rm_main (name :: args))) ∧
  inevitably (λ _, True) programs (stopped pid d Mkdir (λ a, str "mkdir: " ++ a ++ str " failed to create" ++ [NL]) args w)
    (alone pid fds w (mkdir_main (name :: args))) ∧
  ∀ old new, inevitably (λ _, True) programs
    (stopped pid d (λ _, Link old new) (λ _, str "link " ++ old ++ str " " ++ new ++ str ": failed" ++ [NL]) [old] w)
    (alone pid fds w (ln_main [name; old; new])).
Proof.
  intros Hd Hne. destruct args as [|a args]; [done|]. split_and!; [| |intros old new]; apply uwp_inevitably.
  - apply (wpu_each_call _ _ rm_args Unlink (str "rm: %s failed to delete" ++ [NL]) (λ a, str "rm: " ++ a ++ str " failed to delete" ++ [NL]) d); try done.
    intros rs f fs Ha. by exists rs, f, fs.
  - apply (wpu_each_call _ _ mkdir_args Mkdir (str "mkdir: %s failed to create" ++ [NL]) (λ a, str "mkdir: " ++ a ++ str " failed to create" ++ [NL]) d); try done.
    intros rs f fs Ha. by exists rs, f, fs.
  - apply uwp_bind. apply uwp_tree_call. intros c _. apply uwp_bind. destruct (Z.ltb_spec (ans c) 0) as [Hr|Hr].
    + eapply wpu_fprintf; [done|reflexivity|]. apply uwp_exit. exists [ans c], (Some old), (tree c). split; [by constructor|done].
    + apply uwp_ret, uwp_exit. exists [ans c], None, (tree c). split; [repeat constructor; done|]. cbn [from_option]. by rewrite emit_nil.
Qed.

Lemma tree_programs_stop_witness : let none := λ _ _, None in
  inevitably (λ _, True) none (stopped 7 2 Unlink (λ a, str "rm: " ++ a ++ str " failed to delete" ++ [NL]) [str "a"; str "b"] ex_world)
    (alone 7 ex_fds ex_world (rm_main [str "rm"; str "a"; str "b"])).
Proof.
  intros none. destruct (tree_programs_stop none 7 ex_fds 2 (str "rm") [str "a"; str "b"] ex_world) as [H _]; [by eexists|discriminate|exact H].
Defined.
