(* ===== verification/UserInit.v ===== *)
(** * init keeps a shell running

    [init_main] with any program as its shell, which may fork and leave processes
    behind, in every interleaving. *)

From Stdlib Require Import Ascii String.
From ITree Require Import ITree.
From S2P Require Import Prelude Machine Grep Printf Fs Pipe Kernel File Sysfile UserSys UserProgs.
Local Open Scope Z_scope.
Local Open Scope list_scope.

(** ** Frame: what a step of process [i] does to the others *)

Record keeps (i : nat) (p : uproc) (k : nat) (q q' : uproc) : Prop := {
  kp_pid : upid q' = upid q;
  kp_child : uparent q = Some O → uparent q' = Some O;
  kp_root : uparent q = None → uparent q' = None;
  kp_gone : ustatus q = Gone → ustatus q' = Gone;
  kp_fds : k ≠ i → ufds q' = ufds q;
  kp_status : k ≠ i → ustatus q' = ustatus q ∨ uparent q = Some i ∧ is_zombie q = true;
  kp_self : k = i → ustatus q' ≠ Gone;
  kp_killed : kills p ≠ Some (upid q) → ukilled q' = ukilled q
}.

(** ** The points of init *)

(** What follows the body of a loop. *)
Definition restart (r : unit + Empty_set) : prog Empty_set :=
  match r with inl u => go (TauF (ITree.iter init_body u)) | inr r => go (RetF r) end.

Definition open_console : prog Z := sys (Open (str "console") O_RDWR).
Definition dups : prog Empty_set := sys (Dup 0) ;; sys (Dup 0) ;; init_loop.

Inductive phase : Type :=
| Opening | Making | Reopening | Dup1 | Dup2
| Printing (l : list Z)
| Waiting (pid : Z)
| Again (pid : Z)
| Restart.

#[global] Instance phase_eq_dec : EqDecision phase.
Proof. solve_decision. Defined.

Definition code_of (ph : phase) : point :=
  match ph with
  | Opening => observe init_main
  | Making => observe ((sys (Call (Mknod (str "console") CONSOLE 0)) ;; open_console ;; mret tt) ≫= λ _, dups)
  | Reopening => observe ((open_console ;; mret tt) ≫= λ _, dups)
  | Dup1 => observe dups
  | Dup2 => observe (sys (Dup 0) ;; init_loop)
  | Printing l => observe ((puts 1 l ;; init_fork) ≫= restart)
  | Waiting pid => observe ((init_wait pid ;; mret (inl tt)) ≫= restart)
  | Again pid => TauF ((init_wait pid ;; mret (inl tt)) ≫= restart)
  | Restart => TauF init_loop
  end.

(** Init waits for its shell. *)
Definition waits (ph : phase) : option Z := match ph with Waiting pid | Again pid => Some pid | _ => None end.

Lemma waiting_dec ph : (∃ pid, ph = Waiting pid) ∨ ¬ (∃ pid, ph = Waiting pid).
Proof. destruct ph; try (right; naive_solver). left. by eexists. Qed.

(** No descriptor is a pipe. *)
Definition no_pipe (fds : list (option handle)) : Prop := Forall (λ o, match o with Some (HPipeR _ | HPipeW _) => False | _ => True end) fds.

(** ** The processes that init has forked *)

Definition shells (l : list event) : list Z := omap (λ e, match e with Forked O pid => Some pid | _ => None end) l.

Definition gone (w : world) (pid : Z) : Prop := ∃ k q, procs w !! k = Some q ∧ upid q = pid ∧ ustatus q = Gone.

Record init_inv (w : world) : Prop := {
  ii_init : ∃ p ph, procs w !! O = Some p ∧ upid p = 1 ∧ uparent p = None ∧ ukilled p = false ∧ no_pipe (ufds p) ∧
    ustatus p = Runs (code_of ph) ∧
    match waits ph with
    | None => Forall (gone w) (shells (log w))
    | Some pid => ∃ old k q, shells (log w) = old ++ [pid] ∧ Forall (gone w) old ∧
        procs w !! k = Some q ∧ upid q = pid ∧ uparent q = Some O ∧ ustatus q ≠ Gone
    end;
  ii_order i j a b : (i < j)%nat → procs w !! i = Some a → procs w !! j = Some b → upid a < upid b;
  ii_next i a : procs w !! i = Some a → upid a < nextpid w
}.

(** ** Lemmas *)

Section init.
Context (programs : list Z → list (list Z) → option (prog Empty_set)).

Lemma keeps_same i p k q : ustatus q ≠ Gone ∨ k ≠ i → keeps i p k q q.
Proof. intros H. split; try done; [by left|]. intros ->. by destruct H. Qed.

Lemma is_child_parent i p : uparent p = None → is_child i p = false.
Proof. unfold is_child. intros ->. by destruct (ustatus p). Qed.

Lemma effect_keeps i p w w' k q : procs w !! i = Some p → (∃ t, ustatus p = Runs t) → effect i p w w' → procs w !! k = Some q →
  ∃ q', procs w' !! k = Some q' ∧ keeps i p k q q'.
Proof.
  intros Hp [t0 Ht] He Hk. pose proof (lookup_lt_Some _ _ _ Hp) as Hi. pose proof (lookup_lt_Some _ _ _ Hk) as Hlt.
  assert (∀ fds t, keeps i p i p (moved p fds t)) as Hself by (intros fds t; split; rewrite ?Ht; try done).
  assert (k ≠ i → keeps i p k q q) as Hother by (intros; apply keeps_same; by right).
  destruct He as [fds t E _ _|pid t t' E _ _ _|st ->|j r t Ej Hc Hz Hne E _ _|pid t Hkl E _ _].
  - rewrite E. destruct (decide (k = i)) as [->|Hki].
    + assert (q = p) as -> by congruence. rewrite list_lookup_insert_eq by done. eauto.
    + rewrite list_lookup_insert_ne by done. eauto.
  - rewrite E, lookup_app_l by (by rewrite length_insert). destruct (decide (k = i)) as [->|Hki].
    + assert (q = p) as -> by congruence. rewrite list_lookup_insert_eq by done. eauto.
    + rewrite list_lookup_insert_ne by done. eauto.
  - simpl. destruct (decide (k = i)) as [->|Hki].
    + assert (q = p) as -> by congruence. rewrite list_lookup_alter_eq, list_lookup_fmap, Hp. eexists. split; [done|].
      simpl. destruct (is_child i p) eqn:Ec; split; rewrite ?Ht; try done. intros E. by rewrite (is_child_parent i p E) in Ec.
    + rewrite list_lookup_alter_ne, list_lookup_fmap, Hk by done. eexists. split; [done|]. simpl. destruct (is_child i q) eqn:Ec; [|by auto].
      split; simpl; try done; [|by left]. intros E. by rewrite (is_child_parent i q E) in Ec.
  - rewrite E. destruct (decide (k = i)) as [->|Hki].
    + assert (q = p) as -> by congruence. rewrite list_lookup_insert_eq by (by rewrite length_insert). eauto.
    + rewrite list_lookup_insert_ne by done. destruct (decide (k = j)) as [->|Hkj].
      * assert (r = q) as -> by congruence. rewrite list_lookup_insert_eq by done. eexists. split; [done|]. split; try done. intros _. right. split; [|done].
        unfold is_child in Hc. destruct (uparent q) as [m|]; [|by destruct (ustatus q)]. destruct (ustatus q); try done; apply Nat.eqb_eq in Hc; by subst.
      * rewrite list_lookup_insert_ne by done. eauto.
  - rewrite E. destruct (decide (k = i)) as [->|Hki].
    + assert (q = p) as -> by congruence. rewrite list_lookup_insert_eq by (by rewrite length_fmap). eexists. split; [done|].
      destruct (Z.eqb_spec (upid p) pid); split; rewrite ?Ht; try done. intros []. by subst.
    + rewrite list_lookup_insert_ne, list_lookup_fmap, Hk by done. eexists. split; [done|].
      destruct (Z.eqb_spec (upid q) pid); [|by auto]. split; try done; [by left|]. intros []. by subst.
Qed.

(** A process of the new state is one of the old state or has a new id, and what is
    forked is forked by [i]. *)
Lemma effect_new i p w w' : effect i p w w' →
  nextpid w ≤ nextpid w' ∧ (i ≠ O → shells (log w') = shells (log w)) ∧
  ∀ k q, procs w' !! k = Some q → (k < length (procs w))%nat ∨ k = length (procs w) ∧ nextpid w ≤ upid q < nextpid w'.
Proof.
  assert (∀ l (k : nat) (q : uproc), l !! k = Some q → length l = length (procs w) → (k < length (procs w))%nat) as Hl.
  { intros l k q H <-. by eapply lookup_lt_Some. }
  intros [fds t E En El|pid t t' E Hle En El|st ->|j r t _ _ _ _ E En El|pid t _ E En El].
  - split; [lia|]. split.
    + intros Hi. destruct El as [->|(a & r & ->)]; [done|]. unfold shells. by rewrite omap_app, app_nil_r.
    + intros k q Hk. left. rewrite E in Hk. eapply Hl; [done|by rewrite length_insert].
  - split; [lia|]. split.
    + intros Hi. rewrite El. unfold shells. rewrite omap_app. destruct i; [done|]. by rewrite app_nil_r.
    + intros k q. rewrite E. rewrite lookup_app_Some, length_insert. intros [Hk|[Hk Hq]].
      * left. eapply Hl; [done|by rewrite length_insert].
      * right. apply list_lookup_singleton_Some in Hq as [Hk0 <-]. simpl. lia.
  - split; [done|]. split; [done|]. intros k q Hk. left. eapply Hl; [exact Hk|]. simpl. by rewrite length_alter, length_fmap.
  - split; [lia|]. split; [by rewrite El|]. intros k q Hk. left. rewrite E in Hk. eapply Hl; [done|]. by rewrite !length_insert.
  - split; [lia|]. split; [by rewrite El|]. intros k q Hk. left. rewrite E in Hk. eapply Hl; [done|]. by rewrite length_insert, length_fmap.
Qed.

(** ** The steps of init *)

Lemma no_pipe_get fds fd : no_pipe fds → match fd_get fds fd with Some (HPipeR _ | HPipeW _) => False | _ => True end.
Proof.
  intros H. unfold fd_get. destruct (fd <? 0); [done|]. destruct (fds !! Z.to_nat fd) as [o|] eqn:E; [|done]. simpl.
  by apply (Forall_lookup_1 _ _ _ _ H) in E.
Qed.

Lemma no_pipe_new h fds fd fds' : no_pipe fds → no_pipe [Some h] → fd_new h fds = Some (fd, fds') → no_pipe fds'.
Proof.
  intros Hf Hh. unfold fd_new. destruct (fd_free fds) as [n|]; [|done]. intros [= <- <-].
  apply Forall_insert; [done|]. by apply Forall_cons in Hh as [? _].
Qed.

(** A step that leaves the other processes alone. *)
Definition moves (p : uproc) (w w' : world) (ph : phase) : Prop := ∃ fds, no_pipe fds ∧
  procs w' = <[O := moved p fds (code_of ph)]> (procs w) ∧ nextpid w' = nextpid w ∧ shells (log w') = shells (log w).

Lemma moves_resume p w w1 t ph : procs w !! O = Some p → no_pipe (ufds p) → observe t = code_of ph →
  procs w1 = procs w → nextpid w1 = nextpid w → shells (log w1) = shells (log w) → moves p w (resume O t w1) ph.
Proof.
  intros Hp Hn Et E1 E2 E3. exists (ufds p). split; [done|]. split; [|done]. simpl. rewrite Et, E1. exact (alter_insert _ _ _ _ Hp).
Qed.

Lemma moves_fds p w w1 fds t ph : procs w !! O = Some p → no_pipe fds → observe t = code_of ph →
  procs w1 = procs w → nextpid w1 = nextpid w → shells (log w1) = shells (log w) → moves p w (resume O t (upd O (set_fds fds) w1)) ph.
Proof.
  intros Hp Hn Et E1 E2 E3. exists fds. split; [done|]. split; [|done].
  simpl. rewrite Et, E1, (alter_insert (procs w) O _ p Hp).
  rewrite (alter_insert _ O _ (set_fds fds p)) by (by apply list_lookup_insert_eq, (lookup_lt_Some _ _ _ Hp)).
  by rewrite list_insert_insert_eq.
Qed.

Section step.
Context (c : choice) (w w' : world) (p : uproc).
Hypothesis Hp : procs w !! O = Some p.
Hypothesis Hk : ukilled p = false.
Hypothesis Hn : no_pipe (ufds p).
Hypothesis Hstep : ustep programs c O w = Some w'.

Lemma step_call t X (e : sysE X) k : ustatus p = Runs t → t = VisF e k → do_call programs c O p w e k = Some w'.
Proof. intros Ht ->. revert Hstep. unfold ustep. rewrite Hp. simpl. by rewrite Ht, Hk. Qed.

Lemma step_open ph1 ph2 path k : ustatus p = Runs (VisF (Open path O_RDWR) k) →
  (∀ fd, observe (k fd) = code_of (if fd <? 0 then ph1 else ph2)) → moves p w w' ph1 ∨ moves p w w' ph2.
Proof.
  intros Ht Hc. pose proof (step_call _ _ _ _ Ht eq_refl) as E. cbn [do_call] in E. change (O_RDWR <? 0x200) with true in E. cbv iota zeta in E.
  assert (∀ w1, w1 = resume O (k (-1)) w → moves p w w1 ph1) as Hfail by (intros w1 ->; by apply moves_resume; [..|apply (Hc (-1))| | |]).
  destruct (files w path) as [f|]; [|injection E as <-; left; by apply Hfail].
  destruct (fd_new _ _) as [[fd fds]|] eqn:Ef; [|injection E as <-; left; by apply Hfail].
  destruct (ans c <? 0); injection E as <-; [left; by apply Hfail|].
  assert (no_pipe fds) as Hfds by (eapply no_pipe_new; [done| |done]; destruct (_ =? _); repeat constructor).
  specialize (Hc fd). destruct (fd <? 0); [left|right]; by apply moves_fds.
Qed.

Lemma step_dup ph k : ustatus p = Runs (VisF (Dup 0) k) → (∀ fd, observe (k fd) = code_of ph) → moves p w w' ph.
Proof.
  intros Ht Hc. pose proof (step_call _ _ _ _ Ht eq_refl) as E. cbn [do_call] in E.
  destruct (h ← _; _) as [[fd fds]|] eqn:Ef; injection E as <-; [|by apply moves_resume].
  apply bind_Some in Ef as (h & Eh & Ef). apply moves_fds; try done. eapply no_pipe_new; [done| |done].
  pose proof (no_pipe_get (ufds p) 0 Hn) as Hg. rewrite Eh in Hg. repeat constructor; by destruct h.
Qed.

Lemma step_write ph fd buf k : ustatus p = Runs (VisF (Write fd buf) k) → (∀ r, observe (k r) = code_of ph) → moves p w w' ph.
Proof.
  intros Ht Hc. pose proof (step_call _ _ _ _ Ht eq_refl) as E. cbn [do_call] in E.
  pose proof (no_pipe_get (ufds p) fd Hn) as Hg. destruct (fd_get (ufds p) fd) as [[o|j|j|d st]|]; try done; injection E as <-; by apply moves_resume.
Qed.

Lemma step_tree ph a k : ustatus p = Runs (VisF (Call a) k) → (∀ r, observe (k r) = code_of ph) → moves p w w' ph.
Proof.
  intros Ht Hc. pose proof (step_call _ _ _ _ Ht eq_refl) as E. injection E as <-. exists (ufds p). split; [done|].
  simpl. rewrite Hc. split; [exact (alter_insert _ _ _ _ Hp)|]. split; [done|]. unfold shells. by rewrite omap_app, app_nil_r.
Qed.

(** The phases in which init neither forks nor waits. *)
Lemma init_moves ph : ustatus p = Runs (code_of ph) → ph ≠ Printing [] → (∀ pid, ph ≠ Waiting pid) →
  ∃ ph', waits ph' = waits ph ∧ moves p w w' ph'.
Proof.
  intros Ht H1 H2. destruct ph as [| | | | |[|b l]|pid|pid|]; try done.
  - destruct (step_open Making Dup1 _ _ Ht) as [H|H]; [intros fd|by exists Making|by exists Dup1].
    change (observe ((if fd <? 0 then sys (Call (Mknod (str "console") CONSOLE 0)) ;; open_console ;; mret tt else mret tt) ≫= λ _, dups) =
      code_of (if fd <? 0 then Making else Dup1)). by destruct (fd <? 0).
  - exists Reopening. split; [done|]. eapply step_tree; [exact Ht|intros ?; reflexivity].
  - destruct (step_open Dup1 Dup1 _ _ Ht) as [H|H]; [intros fd; destruct (fd <? 0); reflexivity|by exists Dup1|by exists Dup1].
  - exists Dup2. split; [done|]. eapply step_dup; [exact Ht|intros ?; reflexivity].
  - exists (Printing (str "init: starting sh" ++ [NL])). split; [done|]. eapply step_dup; [exact Ht|intros ?; reflexivity].
  - exists (Printing l). split; [done|]. eapply step_write; [exact Ht|intros ?; reflexivity].
  - by destruct (H2 pid).
  - exists (Waiting pid). split; [done|]. revert Hstep. unfold ustep. rewrite Hp. simpl. rewrite Ht, Hk. simpl. intros [= <-]. by apply moves_resume; [..|reflexivity| | |].
  - exists (Printing (str "init: starting sh" ++ [NL])). split; [done|]. revert Hstep. unfold ustep. rewrite Hp. simpl. rewrite Ht, Hk. simpl. intros [= <-].
    by apply moves_resume; [..|reflexivity| | |].
Qed.

Lemma init_forks : ustatus p = Runs (code_of (Printing [])) → 0 ≤ ans c → 0 < nextpid w →
  ∃ pid t, nextpid w ≤ pid ∧ nextpid w' = pid + 1 ∧ log w' = log w ++ [Forked O pid] ∧
    procs w' = <[O := moved p (ufds p) (code_of (Waiting pid))]> (procs w) ++ [UProc pid (Some O) (ufds p) false (Runs t)].
Proof.
  intros Ht Hc Hnp. pose proof (step_call _ _ _ _ Ht eq_refl) as E. cbn [do_call] in E. rewrite (proj2 (Z.ltb_ge _ _) Hc) in E.
  cbv zeta in E. injection E as <-. exists (Z.max (nextpid w) (ans c)). eexists. split; [lia|]. split; [done|]. split; [done|].
  cbn [procs add_event set_nextpid set_procs resume upd]. f_equal.
  rewrite (alter_insert _ _ _ _ Hp). f_equal. unfold moved, set_status. f_equal. f_equal.
  set (pid := Z.max (nextpid w) (ans c)). assert (0 < pid) by lia.
  change (observe ((if pid <? 0 then printf (str "init: fork failed" ++ [NL]) [] ;; uexit 1
    else if pid =? 0 then sys (Exec (str "sh") [str "sh"]) ;; printf (str "init: exec sh failed" ++ [NL]) [] ;; uexit 1
    else init_wait pid ;; mret (inl tt)) ≫= restart) = code_of (Waiting pid)).
  destruct (Z.ltb_spec pid 0); [lia|]. destruct (Z.eqb_spec pid 0); [lia|]. done.
Qed.

Lemma init_reaps pid : ustatus p = Runs (code_of (Waiting pid)) → existsb (is_child O) (procs w) = true →
  (∀ k q, procs w !! k = Some q → 0 < upid q) →
  ∃ k q, procs w !! k = Some q ∧ is_zombie q = true ∧ k ≠ O ∧ nextpid w' = nextpid w ∧ log w' = log w ∧
    procs w' = <[O := moved p (ufds p) (code_of (if upid q =? pid then Restart else Again pid))]> (<[k := set_status Gone q]> (procs w)).
Proof.
  intros Ht Hex Hpos. pose proof (step_call _ _ _ _ Ht eq_refl) as E. cbn [do_call] in E. cbv zeta in E. rewrite Hex in E.
  destruct (procs w !! Z.to_nat (ans c)) as [q|] eqn:Eq; [|done].
  destruct (is_child O q && is_zombie q) eqn:Ec; [|done]. apply andb_true_iff in Ec as [_ Ez]. injection E as <-.
  assert (Z.to_nat (ans c) ≠ O) as Hne.
  { intros E. rewrite E, Hp in Eq. injection Eq as <-. unfold is_zombie in Ez. by rewrite Ht in Ez. }
  exists (Z.to_nat (ans c)), q. split_and!; try done. cbn [procs resume upd set_procs]. rewrite (alter_insert (procs w) _ _ q Eq).
  rewrite (alter_insert _ O _ p) by (by rewrite list_lookup_insert_ne). f_equal. unfold moved, set_status. f_equal. f_equal.
  specialize (Hpos _ _ Eq).
  change (observe (((((if upid q =? pid then mret (inr tt) else if upid q <? 0 then printf (str "init: wait returned an error" ++ [NL]) [] ;; uexit 1 else mret (inl tt))
    ≫= λ r : unit + unit, match r with inl u => go (TauF (ITree.iter (init_wait_body pid) u)) | inr u => go (RetF u) end) ;; mret (inl tt)) ≫= restart)) =
    code_of (if upid q =? pid then Restart else Again pid)).
  destruct (upid q =? pid); [done|]. destruct (Z.ltb_spec (upid q) 0); [lia|]. done.
Qed.

End step.

(** Init is never stuck but in [wait]. *)
Lemma init_can_step w p ph : procs w !! O = Some p → ukilled p = false → no_pipe (ufds p) → ustatus p = Runs (code_of ph) →
  (∀ pid, ph ≠ Waiting pid) → ∃ c w', ustep programs c O w = Some w'.
Proof.
  intros Hp Hk Hn Ht Hw. exists (Choice 0 (files w) [] false). unfold ustep. rewrite Hp. simpl. rewrite Ht, Hk. cbn [andb].
  assert (∀ path k, ∃ w', do_call programs (Choice 0 (files w) [] false) 0 p w (Open path O_RDWR) k = Some w') as Hopen.
  { intros path k. cbn [do_call]. change (O_RDWR <? 0x200) with true. cbv iota zeta. destruct (files w path); [|by eexists].
    destruct (fd_new _ _) as [[fd fds]|]; by eexists. }
  assert (∀ k, ∃ w', do_call programs (Choice 0 (files w) [] false) 0 p w (Dup 0) k = Some w') as Hdup.
  { intros k. cbn [do_call]. destruct (h ← _; _) as [[fd fds]|]; by eexists. }
  destruct ph as [| | | | |[|b l]|pid|pid|]; try (by eexists).
  - apply Hopen.
  - apply Hopen.
  - apply Hdup.
  - apply Hdup.
  - pose proof (no_pipe_get (ufds p) 1 Hn) as Hg.
    assert (∀ k, ∃ w', do_call programs (Choice 0 (files w) [] false) 0 p w (Write 1 [b]) k = Some w') as Hwr.
    { intros k. cbn [do_call]. destruct (fd_get (ufds p) 1) as [[o|j|j|d st]|]; try done; by eexists. }
    apply Hwr.
  - by destruct (Hw pid).
Qed.

(** The kernel does not refuse a fork of init, and nobody kills init. *)
Definition allowed (c : choice) (i : nat) (w : world) : Prop :=
  ∀ p, procs w !! i = Some p → (i = O → forks p = true → 0 ≤ ans c) ∧ kills p ≠ Some 1.

Inductive ireach (w : world) : world → Prop :=
| ireach_refl : ireach w w
| ireach_step w1 w2 c i : ireach w w1 → allowed c i w1 → ustep programs c i w1 = Some w2 → ireach w w2.

Lemma step_running c i w w' : ustep programs c i w = Some w' → ∃ p t, procs w !! i = Some p ∧ ustatus p = Runs t.
Proof.
  unfold ustep. destruct (procs w !! i) as [p|]; [|done]. simpl. destruct (ustatus p) as [t| |] eqn:E; [|done|done].
  intros _. by exists p, t.
Qed.

(** ** The invariant is kept *)

Section keep.
Context (c : choice) (i : nat) (w w' : world) (p : uproc) (t : point).
Hypothesis Hi : init_inv w.
Hypothesis Hp : procs w !! i = Some p.
Hypothesis Ht : ustatus p = Runs t.
Hypothesis Hstep : ustep programs c i w = Some w'.

Lemma keep_proc k q : procs w !! k = Some q → ∃ q', procs w' !! k = Some q' ∧ keeps i p k q q'.
Proof. apply effect_keeps; [done|by eexists|by eapply ustep_effect]. Qed.

Lemma keep_gone l : Forall (gone w) l → Forall (gone w') l.
Proof.
  intros Hl. apply (Forall_impl _ _ _ Hl). intros pid (k & q & Hk & <- & Hg). destruct (keep_proc k q Hk) as (q' & Hk' & H). exists k, q'. split_and!; [done|apply H|by apply H].
Qed.

Lemma keep_order a b x y : (a < b)%nat → procs w' !! a = Some x → procs w' !! b = Some y → upid x < upid y.
Proof.
  intros Hab Hx Hy. destruct (effect_new _ _ _ _ (ustep_effect _ _ _ _ _ _ Hp Hstep)) as (_ & _ & Hnew).
  assert (∀ k z, procs w' !! k = Some z → (k < length (procs w))%nat → ∃ z0, procs w !! k = Some z0 ∧ upid z = upid z0) as Hold.
  { intros k z Hz [z0 Hz0]%lookup_lt_is_Some. destruct (keep_proc k z0 Hz0) as (z' & Hz' & H). exists z0. split; [done|]. rewrite Hz in Hz'. injection Hz' as ->. apply H. }
  destruct (Hnew b y Hy) as [Hb|[-> [Hb _]]].
  - destruct (Hold a x Hx) as (x0 & Hx0 & ->); [lia|]. destruct (Hold b y Hy Hb) as (y0 & Hy0 & ->). by apply (ii_order _ Hi a b).
  - destruct (Hold a x Hx Hab) as (x0 & Hx0 & ->). pose proof (ii_next _ Hi a x0 Hx0). lia.
Qed.

Lemma keep_next a x : procs w' !! a = Some x → upid x < nextpid w'.
Proof.
  intros Hx. destruct (effect_new _ _ _ _ (ustep_effect _ _ _ _ _ _ Hp Hstep)) as (Hle & _ & Hnew).
  destruct (Hnew a x Hx) as [[x0 Hx0]%lookup_lt_is_Some|[_ [_ Hb]]]; [|done].
  destruct (keep_proc a x0 Hx0) as (x' & Hx' & H). rewrite Hx in Hx'. injection Hx' as ->. rewrite (kp_pid _ _ _ _ _ H).
  pose proof (ii_next _ Hi a x0 Hx0). lia.
Qed.

End keep.

Lemma init_inv_other c i w w' : init_inv w → i ≠ O → allowed c i w → ustep programs c i w = Some w' → init_inv w'.
Proof.
  intros Hi Hne Ha Hstep. destruct (step_running _ _ _ _ Hstep) as (p & t & Hp & Ht). destruct (Ha p Hp) as [_ Hkill].
  split; [|intros a b x y; by eapply keep_order|intros a x; by eapply keep_next].
  destruct (ii_init _ Hi) as (p0 & ph & H0 & E1 & E2 & E3 & E4 & E5 & Hsh).
  destruct (effect_new _ _ _ _ (ustep_effect _ _ _ _ _ _ Hp Hstep)) as (_ & Elog & _).
  pose proof (keep_gone c i w w' p t Hp Ht Hstep) as Hgone.
  destruct (keep_proc _ _ _ _ _ _ Hp Ht Hstep O p0 H0) as (q' & Hq & K). exists q', ph.
  rewrite (kp_pid _ _ _ _ _ K), (kp_root _ _ _ _ _ K E2), (kp_fds _ _ _ _ _ K), (kp_killed _ _ _ _ _ K) by congruence.
  split_and!; try done.
  - destruct (kp_status _ _ _ _ _ K) as [->|[E _]]; [done|done|congruence].
  - rewrite Elog by done. destruct (waits ph) as [pid|]; [|by apply Hgone].
    destruct Hsh as (old & k & q & Eold & Hold & Hk & Epid & Epar & Hng). destruct (keep_proc _ _ _ _ _ _ Hp Ht Hstep k q Hk) as (r & Hr & Kr).
    exists old, k, r. split_and!; [done|by apply Hgone|done|by rewrite (kp_pid _ _ _ _ _ Kr)|by apply Kr|].
    destruct (decide (k = i)) as [->|Hki]; [by apply Kr|]. destruct (kp_status _ _ _ _ _ Kr Hki) as [->|[E _]]; [done|congruence].
Qed.

(** A step of init itself that changes only its own entry and entries other than that
    of its shell. *)
Lemma init_inv_self c w w' p ph ph' fds :
  init_inv w → procs w !! O = Some p → ustatus p = Runs (code_of ph) → upid p = 1 → uparent p = None → ukilled p = false →
  ustep programs c O w = Some w' → procs w' !! O = Some (moved p fds (code_of ph')) → no_pipe fds →
  match waits ph' with
  | None => Forall (gone w') (shells (log w'))
  | Some pid => ∃ old k q, shells (log w') = old ++ [pid] ∧ Forall (gone w') old ∧
      procs w' !! k = Some q ∧ upid q = pid ∧ uparent q = Some O ∧ ustatus q ≠ Gone
  end → init_inv w'.
Proof.
  intros Hi Hp Ht Epid Epar Ek Hstep Hp' Hn Hsh.
  split; [|intros a b x y; by eapply keep_order|intros a x; by eapply keep_next].
  exists (moved p fds (code_of ph')), ph'. by split_and!.
Qed.

Lemma init_inv_init c w w' : init_inv w → allowed c O w → ustep programs c O w = Some w' → init_inv w'.
Proof.
  intros Hi Ha Hstep. destruct (ii_init _ Hi) as (p & ph & Hp & E1 & E2 & E3 & E4 & E5 & Hsh).
  destruct (Ha p Hp) as [Hf _]. specialize (Hf eq_refl). pose proof (lookup_lt_Some _ _ _ Hp) as Hlt.
  pose proof (keep_gone c O w w' p _ Hp E5 Hstep) as Hgone.
  assert (∀ k q, procs w !! k = Some q → 0 < upid q) as Hpos.
  { intros [|k] q Hq; [rewrite Hp in Hq; injection Hq as <-; lia|]. pose proof (ii_order _ Hi O (S k) p q ltac:(lia) Hp Hq). lia. }
  destruct (decide (ph = Printing [])) as [->|Hnf].
  { unfold forks in Hf. rewrite E5 in Hf. specialize (Hf eq_refl).
    destruct (init_forks c w w' p Hp E3 Hstep E5 Hf) as (pid & t & Hle & En & El & Ew); [pose proof (ii_next _ Hi _ _ Hp); lia|].
    eapply (init_inv_self c w w' p _ (Waiting pid) (ufds p)); eauto.
    - rewrite Ew, lookup_app_l by (by rewrite length_insert). by apply list_lookup_insert_eq.
    - simpl. exists (shells (log w)), (length (procs w)). eexists. rewrite El. unfold shells at 1. rewrite omap_app. split; [done|].
      split; [by apply Hgone|]. rewrite Ew, lookup_app_r, length_insert, Nat.sub_diag by (rewrite length_insert; lia). by split_and!. }
  destruct (waiting_dec ph) as [[pid ->]|Hnw].
  { simpl in Hsh. destruct Hsh as (old & k & q & Eold & Hold & Hk & Epid & Epar & Hng).
    assert (existsb (is_child O) (procs w) = true) as Hex.
    { apply existsb_exists. exists q. split; [by apply list_elem_of_In, (list_elem_of_lookup_2 _ k)|]. unfold is_child. rewrite Epar. by destruct (ustatus q). }
    destruct (init_reaps c w w' p Hp E3 Hstep pid E5 Hex Hpos) as (j & r & Hj & Hz & Hj0 & En & El & Ew).
    pose proof (lookup_lt_Some _ _ _ Hj) as Hjlt.
    eapply (init_inv_self c w w' p _ (if upid r =? pid then Restart else Again pid) (ufds p)); eauto.
    - rewrite Ew. apply list_lookup_insert_eq. by rewrite length_insert.
    - destruct (Z.eqb_spec (upid r) pid) as [Er|Er]; simpl; rewrite El, Eold.
      + apply Forall_app. split; [by apply Hgone|]. constructor; [|done]. exists j, (set_status Gone r). split; [|done].
        rewrite Ew, list_lookup_insert_ne, list_lookup_insert_eq by done. done.
      + exists old, k, q. split_and!; try done; [by apply Hgone|]. rewrite Ew. rewrite !list_lookup_insert_ne; [done|congruence|].
        intros <-. congruence. }
  destruct (init_moves c w w' p Hp E3 E4 Hstep ph E5 Hnf) as (ph' & Ewt & fds & Hn & Ew & En & El); [intros pid ->; eauto|].
  eapply (init_inv_self c w w' p _ ph' fds); eauto; [rewrite Ew; by apply list_lookup_insert_eq|].
  rewrite Ewt, El. destruct (waits ph) as [pid|]; [|by apply Hgone].
  destruct Hsh as (old & k & q & Eold & Hold & Hk & Epid & Epar & Hng). exists old, k, q. split_and!; try done; [by apply Hgone|].
  rewrite Ew, list_lookup_insert_ne; [done|]. intros <-. congruence.
Qed.

End init.

(** * Claims *)

(** C34: Init keeps a shell running.  Whatever program the shell is, whatever processes it
    leaves behind and however the processes interleave: as long as no fork of init is
    refused and nobody kills it, init never exits; every shell that it has started but
    the last is gone; and init is blocked only while the last one runs. *)
Theorem init_keeps_a_shell programs fds w0 w :
  procs w0 = [UProc 1 None fds false (Runs (observe init_main))] → no_pipe fds → 1 < nextpid w0 → log w0 = [] →
  ireach programs w0 w →
  (∃ p t, procs w !! O = Some p ∧ ustatus p = Runs t) ∧
  (∀ old pid, shells (log w) = old ++ [pid] → Forall (gone w) old) ∧
  ((∀ c, ustep programs c O w = None) →
    ∃ old pid k q t, shells (log w) = old ++ [pid] ∧ procs w !! k = Some q ∧ upid q = pid ∧ uparent q = Some O ∧ ustatus q = Runs t).
Proof.
  intros E0 Hn Hnp El Hr. assert (init_inv w) as Hi.
  { induction Hr as [|w1 w2 c i Hr IH Ha Hs].
    - split.
      + exists (UProc 1 None fds false (Runs (observe init_main))), Opening. rewrite E0, El. split_and!; try done. constructor.
      + intros i j a b Hij. rewrite E0. destruct i, j; try done; lia.
      + intros i a. rewrite E0. destruct i; [|done]. intros [= <-]. done.
    - destruct i as [|i]; [eapply init_inv_init; eauto|eapply (init_inv_other programs c (S i)); eauto]. }
  clear Hr E0 El Hnp. destruct (ii_init _ Hi) as (p & ph & Hp & E1 & E2 & E3 & E4 & E5 & Hsh). split; [by exists p, (code_of ph)|]. split.
  - intros old pid E. destruct (waits ph) as [pid'|].
    + destruct Hsh as (old' & k & q & Eold & Hold & _). rewrite Eold in E. by apply app_inj_tail in E as [-> _].
    + rewrite E in Hsh. by apply Forall_app in Hsh as [? _].
  - intros Hstuck. destruct (waiting_dec ph) as [[pid ->]|Hnw].
    2: { destruct (init_can_step programs w p ph Hp E3 E4 E5) as (c & w' & Hs); [intros pid ->; eauto|]. by rewrite Hstuck in Hs. }
    simpl in Hsh. destruct Hsh as (old & k & q & Eold & Hold & Hk & Epid & Epar & Hng). exists old, pid, k, q.
    destruct (ustatus q) as [t|st|] eqn:Eq; [by exists t| |done]. exfalso.
    set (c := Choice (Z.of_nat k) (files w) [] false). specialize (Hstuck c). revert Hstuck. unfold ustep. rewrite Hp. simpl. rewrite E5, E3. cbn [andb].
    assert (∀ cont, do_call programs c 0 p w Wait cont ≠ None) as Hw; [|apply Hw].
    intros cont. cbn [do_call]. unfold c. cbn [ans]. rewrite Nat2Z.id, Hk. unfold is_child, is_zombie. by rewrite Epar, Eq.
Qed.

(** Init alone, with a console: it starts a shell. *)
Definition ex_console : node := Node (Stat 1 2 T_DEVICE 1 0) CONSOLE [].
Definition ex_boot : world :=
  World [UProc 1 None (repeat None 16) false (Runs (observe init_main))] [] []
    (λ path, if bool_decide (path = str "console") then Some ex_console else None) (λ _, []) (λ _, []) 2 [].

(** Steps of init. *)
Fixpoint ex_run (n : nat) (w : world) : option world :=
  match n with
  | O => Some w
  | S n => w ← ex_run n w; ustep (λ _ _, None) (Choice 0 (files w) [] false) O w
  end.

Lemma ex_run_reach n w w' : ex_run n w = Some w' → (∀ m w1, (m < n)%nat → ex_run m w = Some w1 → ∀ p, procs w1 !! O = Some p → kills p = None) →
  ireach (λ _ _, None) w w'.
Proof.
  revert w'. induction n as [|n IH]; intros w' E Hk; [injection E as <-; constructor|].
  cbn [ex_run] in E. apply bind_Some in E as (w1 & E1 & E2). eapply ireach_step; [apply IH|..|exact E2]; [done|by eauto with lia|].
  intros p Hp. split; [done|]. by rewrite (Hk n w1 ltac:(lia) E1 p Hp).
Qed.

Lemma init_keeps_a_shell_witness : ∃ w, ireach (λ _ _, None) ex_boot w ∧ shells (log w) = [2] ∧ outs w CONSOLE = str "init: starting sh" ++ [NL] ∧
  ∃ p t, procs w !! O = Some p ∧ ustatus p = Runs t.
Proof.
  assert ((λ w, (shells (log w), outs w CONSOLE)) <$> ex_run 22 ex_boot = Some ([2], str "init: starting sh" ++ [NL])) as E by (vm_compute; reflexivity).
  destruct (ex_run 22 ex_boot) as [w|] eqn:Er; [|done]. injection E as E1 E2. exists w.
  assert (ireach (λ _ _, None) ex_boot w) as Hr.
  { apply (ex_run_reach 22); [exact Er|]. intros m w1 Hm E p Hp.
    assert (forallb (λ m, bool_decide ((λ w, kills <$> procs w !! O) <$> ex_run m ex_boot = Some (Some None))) (seq 0 22) = true) as Hall by (vm_compute; reflexivity).
    rewrite forallb_forall in Hall. specialize (Hall m ltac:(apply list_elem_of_In, elem_of_seq; lia)). apply bool_decide_eq_true in Hall.
    rewrite E in Hall. cbn in Hall. rewrite Hp in Hall. by injection Hall. }
  split; [exact Hr|]. split; [exact E1|]. split; [exact E2|].
  destruct (init_keeps_a_shell (λ _ _, None) (repeat None 16) ex_boot w) as (H & _); [reflexivity|repeat constructor|reflexivity|reflexivity|exact Hr|exact H].
Defined.
