(* ===== verification/UserPing.v ===== *)
(** * pingpong, in every interleaving

    [pingpong_main] as two processes that run in any order: the states that they
    reach, and what they print. *)

From Stdlib Require Import Ascii String FunctionalExtensionality.
From ITree Require Import ITree.
From S2P Require Import Prelude Machine Grep Printf Fs Pipe Kernel UserSys UserProgs UserLogic UserFiles.
Local Open Scope Z_scope.
Local Open Scope list_scope.

(** ** The lines *)

Definition ping_line (pid : Z) : list Z := decimal (s32 pid) ++ str ": received ping" ++ [NL].
Definition pong_line (pid : Z) : list Z := decimal (s32 pid) ++ str ": received pong" ++ [NL].

(** ** The points of the two processes *)

(** What is left of the parent from its [wait], its output and its [read] on. *)
Definition father_end : prog Empty_set := sys Wait ;; uexit 0.
Definition father_pid : prog Empty_set :=
  me ← sys Getpid; printf (str "%d: received pong" ++ [NL]) [VInt (s32 me)] ;; father_end.
Definition father_read : prog Empty_set :=
  r ← sys (Read 5 1);
  if negb (from_option (λ l, Z.of_nat (length l)) (-1) r =? 1) then
    fprintf 2 (str "read from son error" ++ [NL]) [] ;; sys (Close 5) ;; uexit 1
  else father_pid.
Definition father_write : prog Empty_set :=
  n ← sys (Write 4 (str "f"));
  if negb (n =? 1) then fprintf 2 (str "father write error" ++ [NL]) [] ;; sys (Close 4) ;; sys (Close 5) ;; uexit 1
  else sys (Close 4) ;; father_read.

Inductive father : Type :=
| FClose0 | FClose1 | FWrite | FClose2 | FRead | FPid
| FPrint (l : list Z)
| FExit | FDone.

Definition father_code (a : father) : point :=
  match a with
  | FClose0 => observe (pingpong_parent 3 4 5 6)
  | FClose1 => observe (sys (Close 6) ;; father_write)
  | FWrite => observe father_write
  | FClose2 => observe (sys (Close 4) ;; father_read)
  | FRead => observe father_read
  | FPid => observe father_pid
  | FPrint l => observe (puts 1 l ;; father_end)
  | FExit | FDone => observe (uexit (A := Empty_set) 0)
  end.

Definition son_write : prog Empty_set :=
  n ← sys (Write 6 (str "s"));
  if negb (n =? 1) then fprintf 2 (str "son write error" ++ [NL]) [] ;; sys (Close 6) ;; uexit 1
  else sys (Close 6) ;; uexit 0.
Definition son_pid : prog Empty_set :=
  me ← sys Getpid; printf (str "%d: received ping" ++ [NL]) [VInt (s32 me)] ;; sys (Close 3) ;; son_write.
Definition son_read : prog Empty_set :=
  r ← sys (Read 3 1);
  if negb (from_option (λ l, Z.of_nat (length l)) (-1) r =? 1) then
    fprintf 2 (str "son write error" ++ [NL]) [] ;; sys (Close 3) ;; sys (Close 6) ;; uexit 1
  else son_pid.

Inductive son : Type :=
| SClose0 | SClose1 | SRead | SPid
| SPrint (l : list Z)
| SWrite | SClose2 | SExit | SDone | SGone.

Definition son_code (b : son) : point :=
  match b with
  | SClose0 => observe (pingpong_child 3 4 5 6)
  | SClose1 => observe (sys (Close 5) ;; son_read)
  | SRead => observe son_read
  | SPid => observe son_pid
  | SPrint l => observe (puts 1 l ;; sys (Close 3) ;; son_write)
  | SWrite => observe son_write
  | SClose2 => observe (sys (Close 6) ;; uexit (A := Empty_set) 0)
  | SExit | SDone | SGone => observe (uexit (A := Empty_set) 0)
  end.

(** The order of the points. *)
Definition frank (a : father) : nat :=
  match a with
  | FClose0 => 0 | FClose1 => 1 | FWrite => 2 | FClose2 => 3 | FRead => 4 | FPid => 5 | FPrint _ => 6 | FExit => 7 | FDone => 8
  end.
Definition srank (b : son) : nat :=
  match b with
  | SClose0 => 0 | SClose1 => 1 | SRead => 2 | SPid => 3 | SPrint _ => 4 | SWrite => 5 | SClose2 => 6 | SExit => 7 | SDone => 8 | SGone => 9
  end.

(** ** The state at two points *)

Section state.
Context (programs : list Z → list (list Z) → option (prog Empty_set)).
Context (pid cpid : Z) (d0 : Z) (st0 st1 st2 : stat) (w0 : world).

(** The descriptors 0, 1 and 2 are devices, 1 the standard output. *)
Definition std : list (option handle) := [Some (HDev d0 st0); Some (HDev 1 st1); Some (HDev 2 st2)].

(** A descriptor that is open before rank [n]. *)
Definition until (r n : nat) (h : handle) : option handle := if (r <? n)%nat then Some h else None.

Definition rest_fds : list (option handle) := repeat None 9.

Definition father_fds (a : father) : list (option handle) :=
  std ++ [until (frank a) 1 (HPipeR 0); until (frank a) 4 (HPipeW 0); Some (HPipeR 1); until (frank a) 2 (HPipeW 1)] ++ rest_fds.
Definition son_fds (b : son) : list (option handle) :=
  std ++ [until (srank b) 5 (HPipeR 0); until (srank b) 1 (HPipeW 0); until (srank b) 2 (HPipeR 1); until (srank b) 7 (HPipeW 1)] ++ rest_fds.

Definition father_proc (a : father) : uproc :=
  match a with
  | FDone => UProc pid None [] false (Zombie 0)
  | _ => UProc pid None (father_fds a) false (Runs (father_code a))
  end.
Definition son_proc (b : son) : uproc :=
  match b with
  | SDone => UProc cpid (Some O) [] false (Zombie 0)
  | SGone => UProc cpid (Some O) [] false Gone
  | _ => UProc cpid (Some O) (son_fds b) false (Runs (son_code b))
  end.

(** The pipes hold the byte that is written and not read. *)
Definition pipe0 (a : father) (b : son) : list Z := if (2 <? frank a)%nat && (srank b <? 3)%nat then str "f" else [].
Definition pipe1 (a : father) (b : son) : list Z := if (5 <? srank b)%nat && (frank a <? 5)%nat then str "s" else [].

(** What has been printed; [l] is what is left at a printing point. *)
Definition son_out (b : son) : list Z :=
  match b with
  | SPrint l => take (length (ping_line cpid) - length l) (ping_line cpid)
  | _ => if (srank b <? 4)%nat then [] else ping_line cpid
  end.
Definition father_out (a : father) : list Z :=
  match a with
  | FPrint l => take (length (pong_line pid) - length l) (pong_line pid)
  | _ => if (frank a <? 6)%nat then [] else pong_line pid
  end.

Definition state (a : father) (b : son) : world :=
  World [father_proc a; son_proc b] [pipe0 a b; pipe1 a b] (ofiles w0) (files w0) (ins w0)
    (fset (outs w0) 1 (outs w0 1 ++ son_out b ++ father_out a)) (cpid + 1) [Forked O cpid].

(** The points that the two can be at together. *)
Record together (a : father) (b : son) : Prop := {
  tg_fprint l : a = FPrint l → l `suffix_of` pong_line pid;
  tg_sprint l : b = SPrint l → l `suffix_of` ping_line cpid;
  tg_ping : (3 ≤ srank b → 3 ≤ frank a)%nat;
  tg_pong : (5 ≤ frank a → 6 ≤ srank b)%nat;
  tg_wait : (7 ≤ frank a ↔ srank b = 9)%nat
}.

(** ** Lemmas *)

Lemma ping_format : vprintf udigits false (str "%d: received ping" ++ [NL]) [VInt (s32 cpid)] = Some (ping_line cpid).
Proof.
  unfold ping_line. generalize (decimal_Some cpid). generalize (decimal (s32 cpid)). generalize (s32 cpid) udigits. clear. intros a D la Ha.
  lazy -[printint]. rewrite Ha. reflexivity.
Qed.

Lemma pong_format : vprintf udigits false (str "%d: received pong" ++ [NL]) [VInt (s32 pid)] = Some (pong_line pid).
Proof.
  unfold pong_line. generalize (decimal_Some pid). generalize (decimal (s32 pid)). generalize (s32 pid) udigits. clear. intros a D la Ha.
  lazy -[printint]. rewrite Ha. reflexivity.
Qed.

Definition father_next (a : father) : father :=
  match a with
  | FClose0 => FClose1 | FClose1 => FWrite | FWrite => FClose2 | FClose2 => FRead | FRead => FPid
  | FPid => FPrint (pong_line pid)
  | FPrint (_ :: l) => FPrint l
  | FPrint [] => FExit
  | FExit | FDone => FDone
  end.

(** The father's [wait] collects the son. *)
Definition son_after (a : father) (b : son) : son := match a with FPrint [] => SGone | _ => b end.

Definition son_next (b : son) : son :=
  match b with
  | SClose0 => SClose1 | SClose1 => SRead | SRead => SPid
  | SPid => SPrint (ping_line cpid)
  | SPrint (_ :: l) => SPrint l
  | SPrint [] => SWrite
  | SWrite => SClose2 | SClose2 => SExit | SExit => SDone
  | SDone => SDone | SGone => SGone
  end.

Ltac not_together H := exfalso; destruct H as [_ _ H1 H2 H3]; simpl in H1, H2, H3; lia.

Lemma father_close0 c b : ustep programs c 0 (state FClose0 b) = Some (state FClose1 b).
Proof. unfold state. destruct b; reflexivity. Qed.

Lemma father_close1 c b : ustep programs c 0 (state FClose1 b) = Some (state FWrite b).
Proof. destruct b; reflexivity. Qed.

Lemma father_writes c b : (srank b < 3)%nat → ustep programs c 0 (state FWrite b) = Some (state FClose2 b).
Proof. destruct b; simpl; intros H; try lia; reflexivity. Qed.

Lemma father_close2 c b : ustep programs c 0 (state FClose2 b) = Some (state FRead b).
Proof. destruct b; reflexivity. Qed.

Lemma father_reads c b : ustep programs c 0 (state FRead b) = if (5 <? srank b)%nat then Some (state FPid b) else None.
Proof. destruct b; reflexivity. Qed.

Lemma fset_fset {A} (f : Z → A) k u v : fset (fset f k u) k v = fset f k v.
Proof. apply functional_extensionality. intros x. unfold fset. by destruct (x =? k). Qed.

(** One byte of a line. *)
Lemma print_one (L : list Z) x l : x :: l `suffix_of` L → take (length L - length (x :: l)) L ++ [x] = take (length L - length l) L.
Proof.
  intros [pre ->]. rewrite length_app. simpl. replace (length pre + S (length l) - S (length l))%nat with (length pre) by lia.
  replace (length pre + S (length l) - length l)%nat with (length pre + 1)%nat by lia.
  rewrite take_app_length, firstn_app_2. done.
Qed.

Lemma pong_printf : printf (str "%d: received pong" ++ [NL]) [VInt (s32 pid)] = puts 1 (pong_line pid).
Proof. unfold printf, fprintf. by rewrite pong_format. Qed.

Lemma ping_printf : printf (str "%d: received ping" ++ [NL]) [VInt (s32 cpid)] = puts 1 (ping_line cpid).
Proof. unfold printf, fprintf. by rewrite ping_format. Qed.

Lemma father_gets_pid c b : ustep programs c 0 (state FPid b) = Some (state (FPrint (pong_line pid)) b).
Proof.
  assert (state (FPrint (pong_line pid)) b = World [UProc pid None (father_fds FPid) false (Runs (observe (puts 1 (pong_line pid) ;; father_end))); son_proc b]
    [pipe0 FPid b; pipe1 FPid b] (ofiles w0) (files w0) (ins w0) (fset (outs w0) 1 (outs w0 1 ++ son_out b ++ [])) (cpid + 1) [Forked O cpid]) as ->.
  { unfold state, father_out. by rewrite Nat.sub_diag. }
  rewrite <-pong_printf. reflexivity.
Qed.

Lemma father_prints c b x l : x :: l `suffix_of` pong_line pid →
  ustep programs c 0 (state (FPrint (x :: l)) b) = Some (state (FPrint l) b).
Proof.
  intros Hs. unfold state. cbn [father_out]. rewrite <-(print_one _ x l Hs), !app_assoc.
  match goal with |- _ = Some (World ?p ?q ?o ?f ?i (fset _ 1 ((?u ++ ?v) ++ ?z)) ?n ?e) =>
    transitivity (Some (World p q o f i (fset (fset (outs w0) 1 (u ++ v)) 1 ((u ++ v) ++ z)) n e)) end; [reflexivity|].
  by rewrite fset_fset.
Qed.

Lemma father_waits c b : b ≠ SGone → ustep programs c 0 (state (FPrint []) b) =
  if (Z.to_nat (ans c) =? 1)%nat && (srank b =? 8)%nat then Some (state FExit SGone) else None.
Proof.
  intros Hb. assert (ustep programs c 0 (state (FPrint []) b) =
    do_call programs c 0 (father_proc (FPrint [])) (state (FPrint []) b) Wait (λ x, go (RetF x) ≫= λ _, uexit 0)) as -> by reflexivity.
  cbn [do_call]. cbv zeta. destruct (Z.to_nat (ans c)) as [|[|j]]; [destruct b; try done; reflexivity| |destruct b; try done; reflexivity].
  destruct b; try done; try reflexivity.
  assert (state (FPrint []) SDone = World [father_proc (FPrint []); son_proc SDone] [[]; []] (ofiles w0) (files w0) (ins w0)
    (fset (outs w0) 1 (outs w0 1 ++ ping_line cpid ++ pong_line pid)) (cpid + 1) [Forked O cpid]) as ->; [|reflexivity].
  unfold state. cbn [father_out]. by rewrite Nat.sub_0_r, firstn_all.
Qed.

Lemma father_exits c : ustep programs c 0 (state FExit SGone) = Some (state FDone SGone).
Proof. reflexivity. Qed.

Lemma father_done c b : ustep programs c 0 (state FDone b) = None.
Proof. reflexivity. Qed.

Lemma son_close0 c a : (frank a < 8)%nat → ustep programs c 1 (state a SClose0) = Some (state a SClose1).
Proof. destruct a; simpl; intros; try lia; reflexivity. Qed.

Lemma son_close1 c a : ustep programs c 1 (state a SClose1) = Some (state a SRead).
Proof. destruct a; reflexivity. Qed.

Lemma son_reads c a : ustep programs c 1 (state a SRead) = if (2 <? frank a)%nat then Some (state a SPid) else None.
Proof. destruct a; reflexivity. Qed.

Lemma son_gets_pid c a : (frank a < 5)%nat → ustep programs c 1 (state a SPid) = Some (state a (SPrint (ping_line cpid))).
Proof.
  intros Ha.
  assert (state a (SPrint (ping_line cpid)) = World [father_proc a; UProc cpid (Some O) (son_fds SPid) false (Runs (observe (puts 1 (ping_line cpid) ;; sys (Close 3) ;; son_write)))]
    [pipe0 a SPid; pipe1 a SPid] (ofiles w0) (files w0) (ins w0) (fset (outs w0) 1 (outs w0 1 ++ [] ++ father_out a)) (cpid + 1) [Forked O cpid]) as ->.
  { unfold state, son_out. by rewrite Nat.sub_diag. }
  rewrite <-ping_printf. destruct a; reflexivity.
Qed.

Lemma son_prints c a x l : (frank a < 5)%nat → x :: l `suffix_of` ping_line cpid →
  ustep programs c 1 (state a (SPrint (x :: l))) = Some (state a (SPrint l)).
Proof.
  intros Ha Hs. assert (father_out a = []) as E by (destruct a; simpl in *; try done; lia).
  unfold state. cbn [son_out]. rewrite <-(print_one _ x l Hs), E, !app_nil_r, !app_assoc.
  match goal with |- _ = Some (World ?p ?q ?o ?f ?i (fset _ 1 ((?u ++ ?v) ++ ?z)) ?n ?e) =>
    transitivity (Some (World p q o f i (fset (fset (outs w0) 1 (u ++ v)) 1 ((u ++ v) ++ z)) n e)) end; [by destruct a|].
  by rewrite fset_fset.
Qed.

Lemma son_close2 c a : ustep programs c 1 (state a (SPrint [])) = Some (state a SWrite).
Proof.
  assert (state a (SPrint []) = World [father_proc a; son_proc (SPrint [])] [pipe0 a SWrite; pipe1 a SWrite] (ofiles w0) (files w0) (ins w0)
    (fset (outs w0) 1 (outs w0 1 ++ ping_line cpid ++ father_out a)) (cpid + 1) [Forked O cpid]) as ->.
  { unfold state. cbn [son_out]. by rewrite Nat.sub_0_r, firstn_all. }
  destruct a; reflexivity.
Qed.

Lemma son_writes c a : (frank a < 5)%nat → ustep programs c 1 (state a SWrite) = Some (state a SClose2).
Proof. destruct a; simpl; intros; try lia; reflexivity. Qed.

Lemma son_close3 c a : ustep programs c 1 (state a SClose2) = Some (state a SExit).
Proof. destruct a; reflexivity. Qed.

Lemma son_exits c a : ustep programs c 1 (state a SExit) = Some (state a SDone).
Proof. destruct a; reflexivity. Qed.

(** The number of steps to a point. *)
Definition fpos (a : father) : nat :=
  let n := length (pong_line pid) in
  match a with FPrint l => 6 + (n - length l) | FExit => 7 + n | FDone => 8 + n | _ => frank a end.
Definition spos (b : son) : nat :=
  let n := length (ping_line cpid) in
  match b with
  | SPrint l => 4 + (n - length l)
  | SWrite => 5 + n | SClose2 => 6 + n | SExit => 7 + n | SDone | SGone => 8 + n
  | _ => srank b
  end.

Lemma suffix_tail x l (L : list Z) : x :: l `suffix_of` L → l `suffix_of` L.
Proof. intros [k ->]. exists (k ++ [x]). by rewrite <-app_assoc. Qed.

Lemma suffix_len x l (L : list Z) : x :: l `suffix_of` L → (S (length l) ≤ length L)%nat.
Proof. intros H. by apply suffix_length in H. Qed.

(** The points at which the father is after a step of its own. *)
Lemma father_step c a b w' : together a b → ustep programs c 0 (state a b) = Some w' →
  ∃ b', w' = state (father_next a) b' ∧ together (father_next a) b' ∧ (fpos (father_next a) + spos b' = S (fpos a + spos b))%nat.
Proof.
  intros [T1 T2 T3 T4 T5] E.
  assert (∀ a' b', ustep programs c 0 (state a b) = Some (state a' b') → w' = state a' b') as Hw by congruence.
  destruct a as [| | | | | |[|x l]| |]; simpl in T3, T4, T5.
  - exists b. split; [apply Hw, father_close0|]. split; [split; try done; simpl; lia|done].
  - exists b. split; [apply Hw, father_close1|]. split; [split; try done; simpl; lia|done].
  - exists b. split; [apply Hw, father_writes; lia|]. split; [split; try done; simpl; lia|done].
  - exists b. split; [apply Hw, father_close2|]. split; [split; try done; simpl; lia|done].
  - rewrite father_reads in E. destruct (Nat.ltb_spec 5 (srank b)); [|done]. injection E as <-.
    exists b. split; [done|]. split; [split; try done; simpl; lia|done].
  - exists b. split; [apply Hw, father_gets_pid|]. split; [split; try done; simpl; try lia; by intros l [= <-]|]. simpl. rewrite Nat.sub_diag. done.
  - assert (b ≠ SGone) as Hb by (intros ->; simpl in T5; lia). rewrite father_waits in E by done.
    destruct (Z.to_nat (ans c) =? 1)%nat; [|done]. destruct (Nat.eqb_spec (srank b) 8) as [E8|]; [|done]. injection E as <-.
    exists SGone. split; [done|]. split; [split; try done; simpl; lia|]. assert (b = SDone) as -> by (by destruct b). simpl. lia.
  - exists b. pose proof (T1 _ eq_refl) as Hs. split; [by apply Hw, father_prints|]. split.
    + split; try done; simpl; try lia. intros l' [= <-]. by eapply suffix_tail.
    + apply suffix_len in Hs. simpl. lia.
  - assert (b = SGone) as -> by (destruct b; simpl in T5; try done; lia). exists SGone. split; [apply Hw, father_exits|].
    split; [split; try done; simpl; lia|done].
  - by rewrite father_done in E.
Qed.

Lemma son_step c a b w' : together a b → ustep programs c 1 (state a b) = Some w' →
  w' = state a (son_next b) ∧ together a (son_next b) ∧ (fpos a + spos (son_next b) = S (fpos a + spos b))%nat.
Proof.
  intros [T1 T2 T3 T4 T5] E.
  assert (∀ a' b', ustep programs c 1 (state a b) = Some (state a' b') → w' = state a' b') as Hw by congruence.
  destruct b as [| | | |[|x l]| | | | |]; simpl in T3, T4, T5.
  - split; [apply Hw, son_close0; lia|]. split; [split; try done; simpl; lia|simpl; lia].
  - split; [apply Hw, son_close1|]. split; [split; try done; simpl; lia|simpl; lia].
  - rewrite son_reads in E. destruct (Nat.ltb_spec 2 (frank a)); [|done]. injection E as <-.
    split; [done|]. split; [split; try done; simpl; lia|simpl; lia].
  - split; [apply Hw, son_gets_pid; lia|]. split; [split; try done; simpl; try lia; by intros l [= <-]|]. simpl. rewrite Nat.sub_diag. lia.
  - split; [apply Hw, son_close2|]. split; [split; try done; simpl; lia|simpl; lia].
  - pose proof (T2 _ eq_refl) as Hs. split; [apply Hw, son_prints; [lia|done]|]. split.
    + split; try done; simpl; try lia. intros l' [= <-]. by eapply suffix_tail.
    + apply suffix_len in Hs. simpl. lia.
  - split; [apply Hw, son_writes; lia|]. split; [split; try done; simpl; lia|simpl; lia].
  - split; [apply Hw, son_close3|]. split; [split; try done; simpl; lia|simpl; lia].
  - split; [apply Hw, son_exits|]. split; [split; try done; simpl; lia|simpl; lia].
  - by destruct a.
  - by destruct a.
Qed.

(** Somebody can make a step until both are done. *)
Lemma state_progress a b : together a b → (a = FDone ∧ b = SGone) ∨ ∃ c i w', willing c ∧ ustep programs c i (state a b) = Some w'.
Proof.
  intros [T1 T2 T3 T4 T5]. set (c := Choice 1 (files w0) [] false).
  assert (∀ i w', ustep programs c i (state a b) = Some w' → ∃ c i w', willing c ∧ ustep programs c i (state a b) = Some w') as H.
  { intros i w' E. exists c, i, w'. split; [unfold willing, c; simpl; lia|done]. }
  destruct b as [| | | |[|y m]| | | | |]; simpl in T3, T4, T5.
  - right. eapply H, son_close0. lia.
  - right. eapply H, son_close1.
  - right. destruct a; simpl in T3, T4, T5; try lia.
    + eapply H, father_close0.
    + eapply H, father_close1.
    + eapply H, father_writes. simpl. lia.
    + eapply (H 1%nat). by rewrite son_reads.
    + eapply (H 1%nat). by rewrite son_reads.
  - right. eapply H, son_gets_pid. lia.
  - right. eapply H, son_close2.
  - right. eapply H, son_prints; [lia|]. by apply T2.
  - right. eapply H, son_writes. lia.
  - right. eapply H, son_close3.
  - right. eapply H, son_exits.
  - right. destruct a as [| | | | | |[|x l]| |]; simpl in T3, T4, T5; try lia.
    + eapply H, father_close2.
    + eapply (H O). by rewrite father_reads.
    + eapply H, father_gets_pid.
    + eapply (H O). by rewrite father_waits.
    + eapply H, father_prints. by apply T1.
  - destruct a; simpl in T3, T4, T5; try lia; [right; eapply H, father_exits|by left].
Qed.

Lemma state_step c i a b w' : together a b → ustep programs c i (state a b) = Some w' →
  ∃ a' b', w' = state a' b' ∧ together a' b' ∧ (fpos a' + spos b' = S (fpos a + spos b))%nat.
Proof.
  intros T E. destruct i as [|[|i]]; [..|done].
  - destruct (father_step c a b w' T E) as (b' & H). by exists (father_next a), b'.
  - pose proof (son_step c a b w' T E) as H. by exists a, (son_next b).
Qed.

Lemma state_out a b : together a b → son_out b ++ father_out a `prefix_of` ping_line cpid ++ pong_line pid.
Proof.
  intros [T1 T2 T3 T4 T5]. assert (father_out a `prefix_of` pong_line pid) as Hf by (destruct a; simpl; try apply prefix_take; try done; apply prefix_nil).
  assert (father_out a = [] ∨ son_out b = ping_line cpid) as [->| ->].
  { destruct (decide (5 ≤ frank a)%nat) as [H|H]; [right|left].
    - specialize (T4 H). destruct b; simpl in *; try done; lia.
    - destruct a; simpl in *; try done; lia. }
  - rewrite app_nil_r. apply prefix_app_r. destruct b; simpl; try apply prefix_take; try done; apply prefix_nil.
  - by apply prefix_app.
Qed.

Lemma state_pos a b : (fpos a + spos b ≤ 16 + length (ping_line cpid ++ pong_line pid))%nat.
Proof.
  assert (fpos a ≤ 8 + length (pong_line pid))%nat by (unfold fpos; generalize (length (pong_line pid)); intros n; destruct a; simpl; lia).
  assert (spos b ≤ 8 + length (ping_line cpid))%nat by (unfold spos; generalize (length (ping_line cpid)); intros n; destruct b; simpl; lia).
  rewrite length_app. lia.
Qed.

End state.

(** ** The start *)

Section start.
Context (programs : list Z → list (list Z) → option (prog Empty_set)).
Context (pid : Z) (d0 : Z) (st0 st1 st2 : stat) (w0 : world).

(** Before the fork. *)
Definition starting (k : nat) (fds : list (option handle)) (t : prog Empty_set) : world :=
  World [UProc pid None (std d0 st0 st1 st2 ++ fds ++ repeat None (13 - length fds)) false (Runs (observe t))] (repeat [] k) (ofiles w0) (files w0) (ins w0) (outs w0) (nextpid w0) [].

Definition start0 : world := starting 0 [] pingpong_main.
Definition start1 : world := starting 1 [Some (HPipeR 0); Some (HPipeW 0)] (pingpong_second 3 4).
Definition start2 : world := starting 2 [Some (HPipeR 0); Some (HPipeW 0); Some (HPipeR 1); Some (HPipeW 1)] (pingpong_fork 3 4 5 6).

Lemma start0_step c : willing c → ustep programs c 0 start0 = Some start1.
Proof.
  intros Hc. assert (ustep programs c 0 start0 = if ans c <? 0 then ustep programs c 0 start0 else Some start1) as ->;
    [|by rewrite (proj2 (Z.ltb_ge _ _) Hc)].
  destruct (ans c <? 0) eqn:E; [done|]. unfold start0 at 1, ustep. cbn. by rewrite E.
Qed.

Lemma start1_step c : willing c → ustep programs c 0 start1 = Some start2.
Proof.
  intros Hc. assert (ustep programs c 0 start1 = if ans c <? 0 then ustep programs c 0 start1 else Some start2) as ->;
    [|by rewrite (proj2 (Z.ltb_ge _ _) Hc)].
  destruct (ans c <? 0) eqn:E; [done|]. unfold start1 at 1, ustep. cbn. by rewrite E.
Qed.

Lemma start2_step c : willing c → 0 < nextpid w0 →
  ustep programs c 0 start2 = Some (state pid (Z.max (nextpid w0) (ans c)) d0 st0 st1 st2 w0 FClose0 SClose0).
Proof.
  intros Hc Hn. set (cpid := Z.max (nextpid w0) (ans c)). assert (0 < cpid) by lia.
  set (cont := λ x, if x <? 0 then fprintf 2 (str "fork() error!" ++ [NL]) [] ;; sys (Close 3) ;; sys (Close 4) ;; sys (Close 5) ;; sys (Close 6) ;; uexit 1
    else if negb (x =? 0) then pingpong_parent 3 4 5 6 else pingpong_child 3 4 5 6).
  assert (observe (cont cpid) = father_code FClose0) as E.
  { unfold cont. destruct (Z.ltb_spec cpid 0); [lia|]. destruct (Z.eqb_spec cpid 0); [lia|]. done. }
  assert (fset (outs w0) 1 (outs w0 1 ++ [] ++ []) = outs w0) as Eo.
  { apply functional_extensionality. intros x. unfold fset. destruct (Z.eqb_spec x 1) as [->|]; [|done]. by rewrite !app_nil_r. }
  assert (∀ p, procs start2 = [p] → ustep programs c 0 start2 = do_call programs c 0 p start2 Fork (λ x, go (RetF x) ≫= cont)) as Hs.
  { intros p [= <-]. reflexivity. }
  rewrite (Hs _ eq_refl). cbn [do_call]. rewrite (proj2 (Z.ltb_ge _ _) Hc). cbv zeta. fold cpid.
  unfold state. cbn [son_out father_out srank frank Nat.ltb Nat.leb]. rewrite Eo. unfold father_proc. rewrite <-E. reflexivity.
Qed.

End start.

(** [n] steps of a kernel that refuses nothing. *)
Inductive wsteps (programs : list Z → list (list Z) → option (prog Empty_set)) (w : world) : nat → world → Prop :=
| wsteps_O : wsteps programs w O w
| wsteps_S n w1 w2 c i : wsteps programs w n w1 → willing c → ustep programs c i w1 = Some w2 → wsteps programs w (S n) w2.

(** What is reached. *)
Inductive reached (pid d0 : Z) (st0 st1 st2 : stat) (w0 : world) : nat → world → Prop :=
| reached0 : reached pid d0 st0 st1 st2 w0 0 (start0 pid d0 st0 st1 st2 w0)
| reached1 : reached pid d0 st0 st1 st2 w0 1 (start1 pid d0 st0 st1 st2 w0)
| reached2 : reached pid d0 st0 st1 st2 w0 2 (start2 pid d0 st0 st1 st2 w0)
| reached3 cpid a b : together pid cpid a b → reached pid d0 st0 st1 st2 w0 (3 + (fpos pid a + spos cpid b)) (state pid cpid d0 st0 st1 st2 w0 a b).

Lemma reached_step programs pid d0 st0 st1 st2 w0 n w c i w' : 0 < nextpid w0 → reached pid d0 st0 st1 st2 w0 n w → willing c →
  ustep programs c i w = Some w' → reached pid d0 st0 st1 st2 w0 (S n) w'.
Proof.
  intros Hn Hr Hc E. destruct Hr as [| | |cpid a b T].
  - destruct i; [|done]. rewrite start0_step in E by done. injection E as <-. constructor.
  - destruct i; [|done]. rewrite start1_step in E by done. injection E as <-. constructor.
  - destruct i; [|done]. rewrite start2_step in E by done. injection E as <-.
    apply (reached3 pid d0 st0 st1 st2 w0 _ FClose0 SClose0). split; try done; simpl; lia.
  - destruct (state_step _ _ _ _ _ _ _ _ _ _ _ _ _ T E) as (a' & b' & -> & T' & En).
    replace (S (3 + (fpos pid a + spos cpid b))) with (3 + (fpos pid a' + spos cpid b'))%nat by lia. by constructor.
Qed.

(** * Claims *)

(** C35: pingpong prints ping before pong.  In every interleaving of the two processes,
    and if the kernel refuses nothing for lack of resources, the standard output gets
    a beginning of the line of the child followed by the line of the parent, and
    nothing else is printed; no run is longer than the calls of the two; and a run
    that cannot go on has printed both lines, the parent has exited with status 0 and
    has collected its child. *)
Theorem pingpong_ping_then_pong programs pid d0 st0 st1 st2 w0 n w :
  0 < nextpid w0 → wsteps programs (start0 pid d0 st0 st1 st2 w0) n w →
  ∃ cpid, let out := ping_line cpid ++ pong_line pid in
    (n ≤ 19 + length out)%nat ∧ outs w 1 `prefix_of` outs w0 1 ++ out ∧ (∀ d, d ≠ 1 → outs w d = outs w0 d) ∧
    ((∀ c i, willing c → ustep programs c i w = None) →
      outs w 1 = outs w0 1 ++ out ∧ procs w = [UProc pid None [] false (Zombie 0); UProc cpid (Some O) [] false Gone]).
Proof.
  intros Hn Hs. assert (reached pid d0 st0 st1 st2 w0 n w) as Hr by (induction Hs; [constructor|by eapply reached_step]).
  clear Hs. destruct Hr as [| | |cpid a b T].
  1-3: exists 0; split; [simpl; lia|]; split; [by apply prefix_app_r|]; split; [done|]; intros Hstuck;
    specialize (Hstuck (Choice 0 (files w0) [] false) O); exfalso.
  - rewrite start0_step in Hstuck by done. by specialize (Hstuck ltac:(done)).
  - rewrite start1_step in Hstuck by done. by specialize (Hstuck ltac:(done)).
  - rewrite start2_step in Hstuck by done. by specialize (Hstuck ltac:(done)).
  - exists cpid. cbv zeta. pose proof (state_pos pid cpid a b). split; [lia|]. split; [|split].
    + unfold state. cbn [outs]. rewrite fset_eq. by apply prefix_app, state_out.
    + intros d Hd. unfold state. cbn [outs]. by rewrite fset_ne.
    + intros Hstuck. destruct (state_progress programs pid cpid d0 st0 st1 st2 w0 a b T) as [[-> ->]|(c & i & w' & Hc & E)].
      * split; [|done]. unfold state. cbn [outs]. by rewrite fset_eq.
      * by rewrite Hstuck in E.
Qed.

(** A run to the end: the child goes first where it can. *)
Definition ex_c : choice := Choice 1 (λ _, None) [] false.
Definition ex_stat : stat := Stat 1 2 T_DEVICE 1 0.
Definition ex_start : world := start0 3 1 ex_stat ex_stat ex_stat (World [] [] [] (λ _, None) (λ _, []) (λ _, []) 4 []).

Fixpoint ex_drive (n : nat) (w : world) : option world :=
  match n with
  | O => Some w
  | S n =>
      w ← ex_drive n w;
      match ustep (λ _ _, None) ex_c 1 w with
      | Some w => Some w
      | None => ustep (λ _ _, None) ex_c 0 w
      end
  end.

Lemma ex_drive_steps n w w' : ex_drive n w = Some w' → wsteps (λ _ _, None) w n w'.
Proof.
  revert w'. induction n as [|n IH]; intros w' E; [injection E as <-; constructor|].
  cbn [ex_drive] in E. apply bind_Some in E as (w1 & E1 & E2). destruct (ustep _ _ 1 w1) eqn:Es.
  - injection E2 as <-. eapply wsteps_S; [by apply IH| |exact Es]. done.
  - eapply wsteps_S; [by apply IH| |exact E2]. done.
Qed.

Lemma pingpong_ping_then_pong_witness : ∃ w, wsteps (λ _ _, None) ex_start 53 w ∧
  outs w 1 = str "4: received ping" ++ [NL] ++ str "3: received pong" ++ [NL] ∧ ∀ d, d ≠ 1 → outs w d = [].
Proof.
  assert ((λ w, outs w 1) <$> ex_drive 53 ex_start = Some (str "4: received ping" ++ [NL] ++ str "3: received pong" ++ [NL])) as E by (vm_compute; reflexivity).
  destruct (ex_drive 53 ex_start) as [w|] eqn:Er; [|discriminate E]. injection E as E. exists w.
  pose proof (ex_drive_steps _ _ _ Er) as Hs. split; [exact Hs|]. split; [exact E|].
  destruct (pingpong_ping_then_pong (λ _ _, None) 3 1 ex_stat ex_stat ex_stat (World [] [] [] (λ _, None) (λ _, []) (λ _, []) 4 []) 53 w)
    as (cpid & _ & _ & H & _); [reflexivity|exact Hs|exact H].
Defined.
