(* ===== verification/UserSettle.v ===== *)
(** * Several processes in every interleaving

    [settles P w]: whichever process makes the next call, and whatever the kernel
    decides within its means, the processes of [w] come to an end in a state with
    [P].  A step that only closes a descriptor can be taken first: it commutes with
    the steps of the other processes ([settles_silent]), so that the interleavings of
    such steps need not be followed. *)

From ITree Require Import ITree.
From S2P Require Import Prelude Machine Fs Pipe Kernel UserSys UserProgs UserLogic.
Local Open Scope Z_scope.
Local Open Scope list_scope.

#[export] Instance stat_eq_dec : EqDecision stat.
Proof. solve_decision. Defined.
#[export] Instance handle_eq_dec : EqDecision handle.
Proof. solve_decision. Defined.

(** No process is killed or is about to kill. *)
Definition calm (w : world) : Prop := ∀ i p, procs w !! i = Some p → ukilled p = false ∧ kills p = None.

(** No process runs. *)
Definition dead (w : world) : Prop := ∀ i p t, procs w !! i = Some p → ustatus p ≠ Runs t.

Lemma alter_alter_ne {A} (f g : A → A) i j (l : list A) : i ≠ j → alter f i (alter g j l) = alter g j (alter f i l).
Proof.
  intros Hne. apply list_eq. intros n. destruct (decide (n = i)) as [->|Hi].
  - by rewrite list_lookup_alter_eq, !list_lookup_alter_ne, list_lookup_alter_eq by done.
  - rewrite list_lookup_alter_ne by done. destruct (decide (n = j)) as [->|Hj].
    + by rewrite !list_lookup_alter_eq, list_lookup_alter_ne by done.
    + by rewrite !list_lookup_alter_ne by done.
Qed.

Section settle.
Context (programs : list Z → list (list Z) → option (prog Empty_set)).

Definition usteps (w w' : world) : Prop := ∃ c i, willing c ∧ ustep programs c i w = Some w'.

Inductive settles (P : world → Prop) (w : world) : Prop :=
| settles_now : P w → settles P w
| settles_step : calm w → (∃ w', usteps w w') → (∀ w', usteps w w' → settles P w') → settles P w.

(** What [settles] says of the runs. *)
Lemma dead_stuck w w' : dead w → ¬ usteps w w'.
Proof.
  intros Hd (c & i & _ & E). unfold ustep in E. destruct (procs w !! i) as [p|] eqn:Ep; [|done]. simpl in E.
  destruct (ustatus p) as [t| |] eqn:Es; [|done|done]. by destruct (Hd i p t).
Qed.

Lemma settles_finite P w : (∀ w, P w → dead w) → settles P w → ∀ f : nat → world, f O = w → ¬ ∀ n, usteps (f n) (f (S n)).
Proof.
  intros HP. induction 1 as [w Hw|w _ _ _ IH]; intros f E Hf.
  - specialize (Hf O). rewrite E in Hf. by apply (dead_stuck w _ (HP w Hw)) in Hf.
  - assert (usteps w (f 1%nat)) as H1 by (rewrite <-E; apply Hf). apply (IH _ H1 (λ n, f (S n))); [done|]. intros n. apply Hf.
Qed.

Lemma settles_stuck P w w' : (∀ w, P w → dead w) → settles P w → rtc usteps w w' → (∀ w2, ¬ usteps w' w2) → P w'.
Proof.
  intros HP Hs Hr Hst. revert Hs. induction Hr as [w|w w1 w' H1 _ IH]; intros Hs.
  - destruct Hs as [|_ [w2 H2] _]; [done|]. by apply Hst in H2.
  - apply IH; [done|]. destruct Hs as [Hw|_ _ Hs]; [by apply (dead_stuck w w1 (HP w Hw)) in H1|by apply Hs].
Qed.

(** ** Silent steps *)

(** A step from [t] with descriptors [fds] that changes nothing but the process. *)
Record silent (i : nat) (fds : list (option handle)) (t : point) (fds' : list (option handle)) (t' : point) : Prop := {
  sil_step c w p : procs w !! i = Some p → ufds p = fds → ustatus p = Runs t → ukilled p = false →
    ustep programs c i w = Some (upd i (λ p, moved p fds' t') w);
  sil_kill k pid : t ≠ VisF (Kill pid) k;
  sil_fds h : Some h ∈ fds' → Some h ∈ fds
}.

(** The pipe [m] is not written by others than [i]. *)
Definition unwritten (i m : nat) (w : world) : Prop :=
  (m < length (pipes w))%nat ∧ ∀ j q, j ≠ i → procs w !! j = Some q → Some (HPipeW m) ∉ ufds q.

Definition lost (fds fds' : list (option handle)) (m : nat) : Prop := Some (HPipeR m) ∈ fds ∧ Some (HPipeR m) ∉ fds'.

Lemma handle_eqb_pipe h h' : (∃ m, h = HPipeR m ∨ h = HPipeW m) → handle_eqb h h' = true ↔ h' = h.
Proof. intros [m [->| ->]]; destruct h'; simpl; rewrite ?Nat.eqb_eq; split; congruence. Qed.

Lemma opened_spec h w : (∃ m, h = HPipeR m ∨ h = HPipeW m) → opened h w = true ↔ ∃ j q, procs w !! j = Some q ∧ Some h ∈ ufds q.
Proof.
  intros Hh. unfold opened. rewrite existsb_exists. split.
  - intros (q & Hq%list_elem_of_In & Ho). apply list_elem_of_lookup in Hq as [j Hj]. exists j, q. split; [done|].
    apply existsb_exists in Ho as ([h'|] & Hin%list_elem_of_In & E); [|done]. apply handle_eqb_pipe in E as ->; done.
  - intros (j & q & Hj & Hin). exists q. split; [by apply list_elem_of_In, list_elem_of_lookup_2 with j|].
    apply existsb_exists. exists (Some h). split; [by apply list_elem_of_In|]. by apply handle_eqb_pipe.
Qed.

(** ** They commute with the steps of others *)

Section commute.
Context (i : nat) (fds fds' : list (option handle)) (t t' : point) (Hs : silent i fds t fds' t').

Local Abbreviation M := (λ p : uproc, moved p fds' t').

Lemma upd_commute j f w : j ≠ i → upd j f (upd i M w) = upd i M (upd j f w).
Proof. intros Hne. unfold upd, set_procs. simpl. by rewrite alter_alter_ne. Qed.

Lemma lookup_other j w : j ≠ i → procs (upd i M w) !! j = procs w !! j.
Proof. intros Hne. simpl. by apply list_lookup_alter_ne. Qed.

Lemma opened_less h w p : (∃ m, h = HPipeR m ∨ h = HPipeW m) → procs w !! i = Some p → ufds p = fds →
  opened h (upd i M w) = true → opened h w = true.
Proof.
  intros Hh Hp Hf. rewrite !opened_spec by done. intros (j & q & Hj & Hin). destruct (decide (j = i)) as [->|Hne].
  - simpl in Hj. rewrite list_lookup_alter_eq, Hp in Hj. injection Hj as <-. exists i, p. split; [done|]. rewrite Hf. by apply (sil_fds _ _ _ _ _ Hs).
  - rewrite lookup_other in Hj by done. by exists j, q.
Qed.

Lemma opened_kept m w p : procs w !! i = Some p → ufds p = fds → ¬ lost fds fds' m →
  opened (HPipeR m) (upd i M w) = opened (HPipeR m) w.
Proof.
  intros Hp Hf Hl. assert (∃ n, HPipeR m = HPipeR n ∨ HPipeR m = HPipeW n) as Hh by (exists m; by left).
  apply eq_true_iff_eq. split; [by eapply opened_less|]. rewrite !opened_spec by done. intros (j & q & Hj & Hin).
  destruct (decide (j = i)) as [->|Hne].
  - rewrite Hp in Hj. injection Hj as <-. exists i, (moved p fds' t'). simpl. rewrite list_lookup_alter_eq, Hp. split; [done|]. simpl. rewrite Hf in Hin.
    destruct (decide (Some (HPipeR m) ∈ fds')); [done|]. by destruct Hl.
  - exists j, q. by rewrite lookup_other.
Qed.

Lemma children_same j w p : procs w !! i = Some p → ustatus p = Runs t →
  existsb (is_child j) (procs (upd i M w)) = existsb (is_child j) (procs w).
Proof.
  intros Hp Hst. simpl. generalize (procs w) as l, i, Hp. clear Hs. intros l. induction l as [|q l IH]; intros n Hn; [done|].
  destruct n as [|n]; simpl in *; [|f_equal; exact (IH n Hn)]. injection Hn as ->. unfold is_child. simpl. by rewrite Hst.
Qed.

Lemma exit_commute j st w p : j ≠ i → procs w !! i = Some p → ustatus p = Runs t → do_exit j st (upd i M w) = upd i M (do_exit j st w).
Proof.
  intros Hne Hp Hst. unfold do_exit.
  assert (∀ w1, set_procs ((λ p, if is_child j p then set_uparent (Some O) p else p) <$> procs (upd i M w)) (upd i M w) = w1 →
    w1 = upd i M (set_procs ((λ p, if is_child j p then set_uparent (Some O) p else p) <$> procs w) w)) as E; [|rewrite <-upd_commute by done; f_equal; by apply E].
  intros w1 <-. unfold upd, set_procs. simpl. f_equal. apply list_eq. intros n. rewrite list_lookup_fmap.
  destruct (decide (n = i)) as [->|Hn]; [|by rewrite !list_lookup_alter_ne, list_lookup_fmap].
  rewrite !list_lookup_alter_eq, list_lookup_fmap, Hp. simpl. unfold is_child. simpl. rewrite Hst. by destruct (uparent p) as [n|]; [destruct (_ =? _)%nat|].
Qed.

Lemma do_read_commute c h n w r w1 p : procs w !! i = Some p → ufds p = fds →
  do_read c h n w = Some (r, w1) → do_read c h n (upd i M w) = Some (r, upd i M w1).
Proof.
  intros Hp Hf. unfold do_read. destruct h as [[o|m|m|d st]|]; simpl; try (by intros [= <- <-]).
  - destruct (ofiles w !! o); [|done]. by intros [= <- <-].
  - destruct (pipes w !! m) as [[|b q]|]; [|by intros [= <- <-]|done]. destruct (opened (HPipeW m) w) eqn:Eo; [done|]. intros [= <- <-].
    destruct (opened (HPipeW m) (upd i M w)) eqn:Eo'; [|done]. rewrite (opened_less _ _ p) in Eo; try done. exists m. by right.
Qed.

Definition no_kill {A} (e : sysE A) : bool := match e with Kill _ => false | _ => true end.

Lemma wait_commute j c w w' k p q :
  j ≠ i → procs w !! i = Some p → ustatus p = Runs t →
  do_call programs c j q w Wait k = Some w' → do_call programs c j q (upd i M w) Wait k = Some (upd i M w').
Proof.
  intros Hne Hp Hst. cbn [do_call]. rewrite (children_same j w p) by done.
  assert (∀ r w2, Some (resume j r w2) = Some w' → Some (resume j r (upd i M w2)) = Some (upd i M w')) as Hr.
  { intros r w2 [= <-]. f_equal. by apply upd_commute. }
  destruct (decide (Z.to_nat (ans c) = i)) as [Ei|Ei].
  - rewrite Ei. simpl. rewrite list_lookup_alter_eq, Hp. simpl. unfold is_zombie. simpl. rewrite Hst, !andb_false_r.
    destruct (existsb _ _); [done|apply Hr].
  - rewrite lookup_other by done. destruct (procs w !! Z.to_nat (ans c)) as [r|]; [|destruct (existsb _ _); [done|apply Hr]].
    destruct (is_child j r && is_zombie r); [|destruct (existsb _ _); [done|apply Hr]].
    intros E. apply Hr in E. rewrite <-E. f_equal. unfold resume. by rewrite upd_commute.
Qed.

Lemma call_commute c j q w w' p {A} (e : sysE A) k :
  j ≠ i → procs w !! i = Some p → ufds p = fds → ustatus p = Runs t →
  procs w !! j = Some q → (∀ m, lost fds fds' m → unwritten i m w) → no_kill e = true →
  do_call programs c j q w e k = Some w' → do_call programs c j q (upd i M w) e k = Some (upd i M w').
Proof.
  intros Hne Hp Hf Hst Hq Hl Hk.
  assert (∀ w2 r, Some (resume j r w2) = Some w' → Some (resume j r (upd i M w2)) = Some (upd i M w')) as Hr.
  { intros w2 r [= <-]. f_equal. by apply upd_commute. }
  assert (∀ w2 fds2 r, Some (resume j r (upd j (set_fds fds2) w2)) = Some w' →
    Some (resume j r (upd j (set_fds fds2) (upd i M w2))) = Some (upd i M w')) as Hr2.
  { intros w2 fds2 r [= <-]. f_equal. unfold resume. by rewrite !upd_commute. }
  destruct e; try (by apply (wait_commute j c w w' k p q)); cbn [do_call]; try apply Hr; try done.
  - destruct (ans c <? 0); [apply Hr|]. intros [= <-]. f_equal. unfold resume. rewrite upd_commute by done. unfold upd, set_procs, add_event, set_nextpid. simpl.
    rewrite alter_app_l; [done|]. rewrite length_alter. by eapply lookup_lt_Some.
  - intros [= <-]. f_equal. by apply (exit_commute _ _ _ p).
  - destruct (fd_new _ _) as [[fd0 fds2]|]; [|apply Hr]. destruct (fd_new _ fds2) as [[fd1 fds3]|]; [|apply Hr].
    destruct (ans c <? 0); [apply Hr|apply (Hr2 (set_pipes _ w))].
  - destruct (do_read c (fd_get (ufds q) fd) n w) as [[r w1]|] eqn:Er; [|done]. rewrite (do_read_commute _ _ _ _ r w1 p) by done. cbn. apply Hr.
  - destruct (fd_get (ufds q) fd) as [[o|m|m|d st]|] eqn:Efd; try apply Hr.
    assert (opened (HPipeR m) (upd i M w) = opened (HPipeR m) w) as Eo.
      { apply (opened_kept m w p); [done|done|]. intros Hlm. destruct (Hl m Hlm) as [_ Hno]. apply (Hno j q Hne Hq).
        unfold fd_get in Efd. destruct (fd <? 0); [done|]. apply list_elem_of_lookup. exists (Z.to_nat fd).
        destruct (ufds q !! Z.to_nat fd) as [o|]; [|done]. simpl in Efd. by rewrite Efd. }
      rewrite Eo. cbn [upd set_procs pipes]. destruct (pipes w !! m) as [b|]; [|done]. destruct (negb _); [apply Hr|].
      destruct (_ <=? _)%nat; [apply (Hr (set_pipes _ w))|]. destruct (_ =? _)%nat; [done|apply (Hr (set_pipes _ w))].
  - destruct (fd_get (ufds q) fd); [apply Hr2|apply Hr].
  - destruct (h ← _; _) as [[fd' fds2]|]; [apply Hr2|apply Hr].
  - cbv zeta. set (w1 := if mode <? 0x200 then w else set_files (tree c) w).
    replace (if mode <? 0x200 then upd i M w else set_files (tree c) (upd i M w)) with (upd i M w1) by (unfold w1; by destruct (mode <? 0x200)).
    cbn [upd set_procs files ofiles]. destruct (files w1 path) as [f|]; [|apply Hr]. destruct (fd_new _ _) as [[fd fds2]|]; [|apply Hr].
    destruct (ans c <? 0); [apply Hr|apply (Hr2 (set_ofiles _ w1))].
  - destruct (programs path argv); [|apply Hr]. destruct (ans c <? 0); apply Hr.
  - intros [= <-]. f_equal. unfold resume, upd, set_procs, add_event, set_files. simpl. by rewrite alter_alter_ne.
Qed.
End commute.

(** ** Ends of pipes do not appear from nowhere *)

Definition writers_ok (j m : nat) (w w' : world) : Prop :=
  (length (pipes w) ≤ length (pipes w'))%nat ∧
  ∀ n q', procs w' !! n = Some q' → Some (HPipeW m) ∈ ufds q' →
    ∃ n' q, (n' = n ∨ n' = j) ∧ procs w !! n' = Some q ∧ Some (HPipeW m) ∈ ufds q.

Lemma writers_fds j m w w1 fds2 r q :
  procs w1 = procs w → (length (pipes w) ≤ length (pipes w1))%nat → procs w !! j = Some q →
  (Some (HPipeW m) ∈ fds2 → Some (HPipeW m) ∈ ufds q) → writers_ok j m w (resume j r (upd j (set_fds fds2) w1)).
Proof.
  intros Ep El Hq Hf. split; [done|]. intros n q' Hn Hin. simpl in Hn. rewrite Ep in Hn. destruct (decide (n = j)) as [->|Hne].
  - rewrite !list_lookup_alter_eq, Hq in Hn. injection Hn as <-. exists j, q. auto.
  - rewrite !list_lookup_alter_ne in Hn by done. exists n, q'. auto.
Qed.

Lemma writers_resume j m w w1 r : procs w1 = procs w → (length (pipes w) ≤ length (pipes w1))%nat → writers_ok j m w (resume j r w1).
Proof.
  intros Ep El. split; [done|]. intros n q' Hn Hin. simpl in Hn. rewrite Ep in Hn. destruct (decide (n = j)) as [->|Hne].
  - rewrite list_lookup_alter_eq in Hn. destruct (procs w !! j) as [q|] eqn:Hq; [|done]. injection Hn as <-. exists j, q. auto.
  - rewrite list_lookup_alter_ne in Hn by done. exists n, q'. auto.
Qed.

Lemma writers_exit j m st w : writers_ok j m w (do_exit j st w).
Proof.
  split; [done|]. intros n q' Hn Hin. unfold do_exit in Hn. simpl in Hn. destruct (decide (n = j)) as [->|Hne].
  - rewrite list_lookup_alter_eq in Hn. destruct (_ !! j); [|done]. injection Hn as <-. by apply elem_of_nil in Hin.
  - rewrite list_lookup_alter_ne, list_lookup_fmap in Hn by done. destruct (procs w !! n) as [q|] eqn:Hq; [|done]. injection Hn as <-.
    exists n, q. split_and!; [by left|done|]. by destruct (is_child j q).
Qed.

Lemma alter_ufds (f : uproc → uproc) i (l : list uproc) n q' : (∀ x, ufds (f x) = ufds x) → alter f i l !! n = Some q' → ∃ q, l !! n = Some q ∧ ufds q = ufds q'.
Proof.
  intros Hf. rewrite list_lookup_alter. case_decide as Hd; [|by eexists]. rewrite <-Hd. destruct (l !! i) as [q|]; [|done]. intros [= <-]. by exists q.
Qed.

Lemma elem_insert {A} (l : list A) n x y : y ∈ <[n := x]> l → y = x ∨ y ∈ l.
Proof.
  intros [m Hm]%list_elem_of_lookup. destruct (decide (m = n)) as [->|Hne].
  - apply list_lookup_insert_Some in Hm as [(_ & <- & _)|[? ?]]; [by left|done].
  - rewrite list_lookup_insert_ne in Hm by done. right. by eapply list_elem_of_lookup_2.
Qed.

Lemma fd_new_elem h h' fds fd fds2 : fd_new h fds = Some (fd, fds2) → Some h' ∈ fds2 → h' = h ∨ Some h' ∈ fds.
Proof. unfold fd_new. destruct (fd_free fds); [|done]. intros [= <- <-] [[= ->]|?]%elem_insert; auto. Qed.

Lemma call_writers c j q m w w' {A} (e : sysE A) k :
  procs w !! j = Some q → (m < length (pipes w))%nat → no_kill e = true → do_call programs c j q w e k = Some w' → writers_ok j m w w'.
Proof.
  intros Hq Hm Hk. assert (∀ r, Some (resume j r w) = Some w' → writers_ok j m w w') as Hr by (intros r [= <-]; by apply writers_resume).
  destruct e; cbn [do_call]; try apply Hr; try done.
  - destruct (ans c <? 0); [apply Hr|]. intros [= <-]. split; [done|]. intros n q' Hn Hin. simpl in Hn.
    apply lookup_app_Some in Hn as [Hn|[_ Hn]].
    + apply (proj2 (writers_resume j m w w (k (Z.max (nextpid w) (ans c))) eq_refl (le_n _)) n q'); done.
    + destruct (n - _)%nat; [|done]. injection Hn as <-. exists j, q. auto.
  - intros [= <-]. apply writers_exit.
  - destruct (procs w !! Z.to_nat (ans c)) as [q2|] eqn:Hq2; [|destruct (existsb _ _); [done|apply Hr]].
    destruct (_ && _); [|destruct (existsb _ _); [done|apply Hr]]. intros [= <-]. split; [done|]. intros n q' Hn Hin. simpl in Hn.
    apply alter_ufds in Hn as (q1 & Hn & E1); [|done]. apply alter_ufds in Hn as (q0 & Hn & E0); [|done].
    exists n, q0. rewrite E0, E1. auto.
  - destruct (fd_new _ _) as [[fd0 fds2]|] eqn:E1; [|apply Hr]. destruct (fd_new _ fds2) as [[fd1 fds3]|] eqn:E2; [|apply Hr].
    destruct (ans c <? 0); [apply Hr|]. intros [= <-]. apply (writers_fds _ _ _ _ _ _ q); [done| |done|]; simpl; [rewrite length_app; lia|].
    intros Hin. destruct (fd_new_elem _ _ _ _ _ E2 Hin) as [[= ?]|Hin2]; [lia|]. by destruct (fd_new_elem _ _ _ _ _ E1 Hin2).
  - destruct (do_read _ _ _ _) as [[r w1]|] eqn:Er; [|done]. cbn. intros [= <-]. apply writers_resume; unfold do_read in Er.
    + destruct (fd_get _ _) as [[o|n2|n2|d st]|]; [destruct (ofiles w !! o)|destruct (pipes w !! n2) as [[|]|]; [destruct (opened _ _)| |]| | |]; by simplify_eq.
    + destruct (fd_get _ _) as [[o|n2|n2|d st]|]; [destruct (ofiles w !! o)|destruct (pipes w !! n2) as [[|]|]; [destruct (opened _ _)| |]| | |];
        simplify_eq; try done. simpl. by rewrite length_insert.
  - destruct (fd_get _ _) as [[o|n2|n2|d st]|]; try apply Hr; try (intros [= <-]; by apply writers_resume).
    destruct (pipes w !! n2); [|done]. destruct (negb _); [apply Hr|]. destruct (_ <=? _)%nat; [|destruct (_ =? _)%nat; [done|]];
      intros [= <-]; apply writers_resume; simpl; rewrite ?length_insert; done.
  - destruct (fd_get _ _); [|apply Hr]. intros [= <-]. apply (writers_fds _ _ _ _ _ _ q); try done. by intros [|]%elem_insert.
  - destruct (h ← _; _) as [[fd' fds2]|] eqn:Ed; [|apply Hr]. intros [= <-]. apply (writers_fds _ _ _ _ _ _ q); try done. intros Hin.
    unfold fd_get in Ed. destruct (fd <? 0); [done|]. destruct (ufds q !! Z.to_nat fd) as [[h|]|] eqn:Eh; try done. simpl in Ed.
    destruct (fd_new_elem _ _ _ _ _ Ed Hin) as [->|]; [by eapply list_elem_of_lookup_2|done].
  - cbv zeta. set (w1 := if mode <? 0x200 then w else set_files (tree c) w).
    assert (procs w1 = procs w ∧ pipes w1 = pipes w) as [E1 E2] by (unfold w1; by destruct (mode <? 0x200)).
    destruct (files w1 path) as [f|]; [|intros [= <-]; apply writers_resume; [done|by rewrite E2]].
    destruct (fd_new _ _) as [[fd fds2]|] eqn:Ef; [|intros [= <-]; apply writers_resume; [done|by rewrite E2]].
    destruct (ans c <? 0); intros [= <-]; [apply writers_resume; [done|by rewrite E2]|]. apply (writers_fds _ _ _ _ _ _ q); [done|simpl; by rewrite E2|done|].
    intros Hin. destruct (fd_new_elem _ _ _ _ _ Ef Hin) as [E|]; [|done]. by destruct (_ =? T_DEVICE).
  - destruct (programs path argv); [|apply Hr]. destruct (ans c <? 0); apply Hr.
  - intros [= <-]. apply (writers_resume j m w (set_files (tree c) w)); done.
Qed.

(** ** The reduction *)

Section reduce.
Context (i : nat) (fds fds' : list (option handle)) (t t' : point) (Hs : silent i fds t fds' t').

(** Process [i] is at [t], and what it closes matters to nobody. *)
Record before (w : world) : Prop := {
  bf_calm : calm w;
  bf_proc : ∃ p, procs w !! i = Some p ∧ ufds p = fds ∧ ustatus p = Runs t;
  bf_lost m : lost fds fds' m → unwritten i m w
}.

Local Abbreviation after w := (upd i (λ p : uproc, moved p fds' t') w).

Lemma before_step c w : before w → ustep programs c i w = Some (after w).
Proof. intros [Hc (p & Hp & Hf & Hst) _]. eapply (sil_step _ _ _ _ _ Hs); try done. by destruct (Hc i p Hp). Qed.

Lemma before_other c j w w' : before w → j ≠ i → ustep programs c j w = Some w' → ustep programs c j (after w) = Some (after w').
Proof.
  intros [Hc (p & Hp & Hf & Hst) Hl] Hne E. unfold ustep in *. rewrite lookup_other by done. destruct (procs w !! j) as [q|] eqn:Hq; [|done]. simpl in *.
  destruct (Hc j q Hq) as [Hk Hkill]. destruct (ustatus q) as [u| |] eqn:Eu; [|done|done]. rewrite Hk in *. simpl in *.
  destruct u as [[]|u|X e k]; [injection E as <-; f_equal; by apply upd_commute|].
  apply (call_commute i fds fds' t t' Hs c j q w w' p); try done. unfold kills in Hkill. rewrite Eu in Hkill. by destruct e.
Qed.

Lemma before_proc c j w w' : before w → j ≠ i → ustep programs c j w = Some w' →
  ∃ p, procs w' !! i = Some p ∧ ufds p = fds ∧ ustatus p = Runs t.
Proof.
  intros [Hc (p & Hp & Hf & Hst) Hl] Hne E. destruct (procs w !! j) as [q|] eqn:Hq; [|unfold ustep in E; by rewrite Hq in E].
  destruct (Hc j q Hq) as [Hk Hkill]. pose proof (ustep_effect programs c j q w w' Hq E) as He.
  destruct He as [fds2 u Ep _ _|pid u u' Ep _ _ _|st ->|n r u Hn _ Hz Hnj Ep _ _|pid u Hkp _ _ _]; [| | | |congruence].
  - exists p. by rewrite Ep, list_lookup_insert_ne.
  - exists p. rewrite Ep, lookup_app_l, list_lookup_insert_ne by (rewrite ?length_insert; by eauto using lookup_lt_Some). done.
  - exists (if is_child j p then set_uparent (Some O) p else p). simpl. rewrite list_lookup_alter_ne, list_lookup_fmap, Hp by done.
    split; [done|]. by destruct (is_child j p).
  - exists p. assert (n ≠ i) by (intros ->; rewrite Hp in Hn; injection Hn as <-; unfold is_zombie in Hz; by rewrite Hst in Hz).
    by rewrite Ep, !list_lookup_insert_ne.
Qed.

Lemma before_stays c j w w' : before w → j ≠ i → ustep programs c j w = Some w' → calm w' → before w'.
Proof.
  intros Hb Hne E Hc'. split; [done|by eapply before_proc|]. destruct Hb as [Hc _ Hl].
  destruct (procs w !! j) as [q|] eqn:Hq; [|unfold ustep in E; by rewrite Hq in E].
  destruct (Hc j q Hq) as [Hk Hkill]. intros m Hm. destruct (Hl m Hm) as [Hlt Hno].
  assert (writers_ok j m w w') as [Hlen Hw].
  { unfold ustep in E. rewrite Hq in E. simpl in E. destruct (ustatus q) as [u| |] eqn:Eu; [|done|done]. rewrite Hk in E. simpl in E.
    destruct u as [[]|u|X e k]; [injection E as <-; by apply writers_resume|].
    apply (call_writers c j q m w w' e k); try done. unfold kills in Hkill. rewrite Eu in Hkill. by destruct e. }
  split; [lia|]. intros n q' Hn Hq' Hin. destruct (Hw n q' Hq' Hin) as (n' & q0 & Hn' & Hq0 & Hin0).
  apply (Hno n' q0); [by destruct Hn' as [->| ->]|done|done].
Qed.

Lemma before_calm w : (∃ p, procs w !! i = Some p ∧ ustatus p = Runs t) → calm (after w) → calm w.
Proof.
  intros (p & Hp & Hst) Hc n q Hq. destruct (decide (n = i)) as [->|Hne].
  - rewrite Hp in Hq. injection Hq as <-. destruct (Hc i (moved p fds' t')) as [Hk _]; [simpl; by rewrite list_lookup_alter_eq, Hp|].
    split; [done|]. unfold kills. rewrite Hst. pose proof (sil_kill _ _ _ _ _ Hs) as Hnk. destruct t as [| |X e k]; try done. destruct e; try done. by destruct (Hnk k pid).
  - apply (Hc n q). by rewrite <-Hq; apply lookup_other.
Qed.

Lemma settles_silent P w : (∀ w, P w → dead w) → before w → settles P (after w) → settles P w.
Proof.
  intros HP Hb Hw. remember (after w) as w1 eqn:E1. revert w E1 Hb.
  assert (∀ w, (∃ p, procs w !! i = Some p ∧ ufds p = fds ∧ ustatus p = Runs t) → ¬ P (after w)) as Hrun.
  { intros w (p & Hp & _) Hnow. apply (HP _ Hnow i (moved p fds' t') t'); [|done]. simpl. by rewrite list_lookup_alter_eq, Hp. }
  induction Hw as [w1 Hnow|w1 Hc1 He1 Hw1 IH]; intros w -> Hb; [by destruct (Hrun w (bf_proc w Hb))|].
  apply settles_step; [apply Hb|exists (after w); exists (Choice 0 (files w) [] false), i; split; [done|by apply before_step]|].
  intros w' (c & j & Hok & E). destruct (decide (j = i)) as [->|Hne].
  { rewrite before_step in E by done. injection E as <-. by apply settles_step. }
  assert (usteps (after w) (after w')) as Hu by (exists c, j; split; [done|by apply before_other]).
  pose proof (before_proc c j w w' Hb Hne E) as Hp'. apply (IH _ Hu w'); [done|]. eapply before_stays; try done.
  apply before_calm; [by destruct Hp' as (p & ? & _ & ?); exists p|].
  destruct (Hw1 _ Hu) as [Hnow|Hc2 _ _]; [by destruct (Hrun w' Hp')|done].
Qed.
End reduce.

Lemma silent_tau i fds u : silent i fds (TauF u) fds (observe u).
Proof.
  split; [|done|done]. intros c w p Hp Hf Hst Hk. unfold ustep. rewrite Hp. simpl. rewrite Hst, Hk. simpl. f_equal. unfold resume, upd. f_equal.
  apply list_alter_ext; [|done]. intros q Hq. rewrite Hp in Hq. injection Hq as <-. unfold set_status, moved. by rewrite Hf.
Qed.

Lemma silent_close i fds fd h k : fd_get fds fd = Some h →
  silent i fds (VisF (Close fd) k) (<[Z.to_nat fd := None]> fds) (observe (k 0)).
Proof.
  intros Hfd. split; [|done|by intros h' [|]%elem_insert].
  intros c w p Hp Hf Hst Hk. unfold ustep. rewrite Hp. simpl. rewrite Hst, Hk. simpl. rewrite Hf, Hfd. f_equal. unfold resume, upd, set_procs. simpl. f_equal.
  apply list_eq. intros n. destruct (decide (n = i)) as [->|Hne]; [by rewrite !list_lookup_alter_eq, Hp|by rewrite !list_lookup_alter_ne].
Qed.

Lemma lost_close fds fd m : lost fds (<[fd := None]> fds) m → fds !! fd = Some (Some (HPipeR m)).
Proof.
  intros [[n Hn]%list_elem_of_lookup Hno]. destruct (decide (n = fd)) as [->|Hne]; [done|]. destruct Hno.
  apply list_elem_of_lookup. exists n. by rewrite list_lookup_insert_ne.
Qed.

(** ** A process whose ancestors wait for it *)

(** A process that waits for a child and then exits. *)
Definition waiting (p : uproc) : Prop :=
  ukilled p = false ∧ ∃ k, ustatus p = Runs (VisF Wait k) ∧ ∀ x, ∃ k', observe (k x) = VisF (Exit 0) k'.

(** Every process is the child of the one before. *)
Definition chain (l : list uproc) : Prop := ∀ n p, l !! n = Some p → uparent p = match n with O => None | S n => Some n end.

Definition gone (p : uproc) : Prop := ukilled p = false ∧ ustatus p = Gone.

Lemma wait_blocked c n p k w j q :
  procs w !! n = Some p → ukilled p = false → ustatus p = Runs (VisF Wait k) →
  procs w !! j = Some q → is_child n q = true →
  (∀ j q, procs w !! j = Some q → is_child n q = true → is_zombie q = true → j ≠ Z.to_nat (ans c)) → ustep programs c n w = None.
Proof.
  intros Hp Hk Hst Hq Hc Hz. unfold ustep. rewrite Hp. simpl. rewrite Hst, Hk. simpl.
  assert (existsb (is_child n) (procs w) = true) as -> by (apply existsb_exists; exists q; split; [by apply list_elem_of_In, list_elem_of_lookup_2 with j|done]).
  destruct (procs w !! Z.to_nat (ans c)) as [r|] eqn:Hr; [|done].
  destruct (is_child n r) eqn:E1; [|done]. destruct (is_zombie r) eqn:E2; [|done]. by destruct (Hz _ r Hr E1 E2).
Qed.

Lemma chain_child l n p m : chain l → l !! n = Some p → is_child m p = true → n = S m.
Proof.
  intros Hc Hn. unfold is_child. rewrite (Hc n p Hn). destruct n; [by destruct (ustatus p)|]. destruct (ustatus p); [|..|done]; intros ->%Nat.eqb_eq; done.
Qed.

Lemma chain_prefix l1 l2 : chain (l1 ++ l2) → chain l1.
Proof. intros Hc n p Hp. apply Hc. by apply lookup_app_l_Some. Qed.

Lemma chain_last l p p' : chain (l ++ [p]) → uparent p' = uparent p → chain (l ++ [p']).
Proof.
  intros Hc E n q Hq. apply lookup_snoc_Some in Hq as [[Hn Hq]|[-> <-]]; [apply Hc; by apply lookup_app_l_Some|].
  rewrite E. apply (Hc _ p). by apply list_lookup_middle.
Qed.

(** The ancestors cannot move. *)
Lemma ancestors_blocked c n anc cur rest w :
  procs w = anc ++ cur :: rest → chain (anc ++ [cur]) → Forall waiting anc → Forall gone rest → (n < length anc)%nat →
  (is_zombie cur = true → n = (length anc - 1)%nat → Z.to_nat (ans c) ≠ length anc) → ustatus cur ≠ Gone → ustep programs c n w = None.
Proof.
  intros Ep Hch Hw Hg Hn Hz Hcur. destruct (lookup_lt_is_Some_2 anc n Hn) as [p Hp].
  destruct (Forall_lookup_1 _ _ _ _ Hw Hp) as [Hk (k & Hst & _)].
  destruct (lookup_lt_is_Some_2 (anc ++ [cur]) (S n)) as [q Hq]; [rewrite length_app; simpl; lia|].
  assert (∀ m r, procs w !! m = Some r → (anc ++ [cur]) !! m = Some r ∨ gone r) as Hcase.
  { intros m r Hr. rewrite Ep, cons_middle, app_assoc in Hr. apply lookup_app_Some in Hr as [?|[_ Hr]]; [by left|right]. by eapply Forall_lookup_1. }
  assert (∀ m r, (anc ++ [cur]) !! m = Some r → procs w !! m = Some r) as Hin.
  { intros m r Hr. rewrite Ep, cons_middle, app_assoc. by apply lookup_app_l_Some. }
  apply (wait_blocked c n p k w (S n) q).
  - apply Hin. by apply lookup_app_l_Some.
  - done.
  - done.
  - by apply Hin.
  - unfold is_child. rewrite (Hch _ _ Hq), Nat.eqb_refl. apply lookup_app_Some in Hq as [Hq|[_ Hq]].
    + destruct (Forall_lookup_1 _ _ _ _ Hw Hq) as [_ (k2 & -> & _)]. done.
    + destruct (S n - length anc)%nat; [|done]. injection Hq as <-. by destruct (ustatus cur).
  - intros j r Hr Hc Hzr. destruct (Hcase j r Hr) as [Hr'|[_ Hg']]; [|unfold is_child in Hc; rewrite Hg' in Hc; by destruct (uparent r)].
    pose proof (chain_child _ _ _ _ Hch Hr' Hc) as ->. apply lookup_app_Some in Hr' as [Hr'|[Hle Hr']].
    + destruct (Forall_lookup_1 _ _ _ _ Hw Hr') as [_ (k2 & E2 & _)]. unfold is_zombie in Hzr. by rewrite E2 in Hzr.
    + assert (S n = length anc) as En by lia. rewrite En, Nat.sub_diag in Hr'. injection Hr' as <-. specialize (Hz Hzr ltac:(lia)). lia.
Qed.

Lemma chain_calm anc cur rest w :
  procs w = anc ++ cur :: rest → Forall waiting anc → Forall gone rest → ukilled cur = false → kills cur = None → calm w.
Proof.
  intros Ep Hw Hg Hk Hkill n p Hp. rewrite Ep in Hp. apply list_elem_of_lookup_2 in Hp. apply elem_of_app in Hp as [Hp|[->|Hp]%elem_of_cons]; [|done|].
  - rewrite Forall_forall in Hw. destruct (Hw p Hp) as [? (k & E & _)]. split; [done|]. unfold kills. by rewrite E.
  - rewrite Forall_forall in Hg. destruct (Hg p Hp) as [? E]. split; [done|]. unfold kills. by rewrite E.
Qed.

(** Only the last process can move. *)
Lemma settles_solo P anc cur rest t w :
  procs w = anc ++ cur :: rest → chain (anc ++ [cur]) → Forall waiting anc → Forall gone rest → ukilled cur = false → kills cur = None →
  ustatus cur = Runs t → (∀ c, willing c → ∃ w', ustep programs c (length anc) w = Some w' ∧ settles P w') → settles P w.
Proof.
  intros Ep Hch Hw Hg Hk Hkill Hst Hs. apply settles_step; [by eapply chain_calm|..].
  - destruct (Hs (Choice 0 (files w) [] false)) as (w' & E & _); [done|]. exists w'. eexists _, _. split; [|exact E]. done.
  - intros w' (c & n & Hc & E). destruct (decide (n = length anc)) as [->|Hne].
    { destruct (Hs c Hc) as (w2 & E2 & Hw2). rewrite E in E2. by injection E2 as <-. }
    destruct (decide (n < length anc)%nat).
    { rewrite (ancestors_blocked c n anc cur rest w) in E; try done; unfold is_zombie; by rewrite Hst. }
    unfold ustep in E. destruct (procs w !! n) as [p|] eqn:Hp; [|done]. rewrite Ep, cons_middle, app_assoc in Hp.
    apply lookup_app_Some in Hp as [Hp|[_ Hp]]; [apply lookup_lt_Some in Hp; rewrite length_app in Hp; simpl in Hp; lia|].
    destruct (Forall_lookup_1 _ _ _ _ Hg Hp) as [_ Es]. simpl in E. by rewrite Es in E.
Qed.

(** The parent of a zombie collects it. *)
Lemma reap_step c anc a z rest k w :
  procs w = (anc ++ [a]) ++ z :: rest → is_child (length anc) z = true → is_zombie z = true →
  ukilled a = false → ustatus a = Runs (VisF Wait k) → Z.to_nat (ans c) = S (length anc) →
  ustep programs c (length anc) w =
    Some (set_procs (anc ++ set_status (Runs (observe (k (upid z)))) a :: set_status Gone z :: rest) w).
Proof.
  intros Ep Hcz Hz Hka Hst Hc. pose proof (length_app anc [a]) as Hlen. simpl in Hlen.
  assert (procs w !! length anc = Some a) as Ha by (rewrite Ep, <-app_assoc; by apply list_lookup_middle).
  assert (procs w !! S (length anc) = Some z) as Hzl by (rewrite Ep; apply list_lookup_middle; lia).
  unfold ustep. rewrite Ha. simpl. rewrite Hst, Hka. simpl. rewrite Hc, Hzl, Hcz, Hz. simpl. f_equal. unfold resume, upd, set_procs. simpl. f_equal.
  rewrite (alter_insert (procs w) _ _ z Hzl). rewrite (alter_insert _ _ _ a) by (by rewrite list_lookup_insert_ne by lia).
  rewrite Ep, insert_app_r_alt by lia. replace (S (length anc) - length (anc ++ [a]))%nat with O by lia. simpl.
  rewrite <-app_assoc, insert_app_r_alt by lia. by rewrite Nat.sub_diag.
Qed.

Lemma settles_reap P anc a z rest k w :
  procs w = (anc ++ [a]) ++ z :: rest → chain ((anc ++ [a]) ++ [z]) → Forall waiting (anc ++ [a]) → Forall gone rest →
  ukilled z = false → is_zombie z = true → ustatus a = Runs (VisF Wait k) →
  settles P (set_procs (anc ++ set_status (Runs (observe (k (upid z)))) a :: set_status Gone z :: rest) w) → settles P w.
Proof.
  intros Ep Hch Hw Hg Hkz Hz Hst Hs. pose proof (length_app anc [a]) as Hlen. simpl in Hlen.
  assert (is_child (length anc) z = true) as Hcz.
  { assert (((anc ++ [a]) ++ [z]) !! S (length anc) = Some z) as E by (apply list_lookup_middle; lia).
    unfold is_child. rewrite (Hch _ _ E), Nat.eqb_refl. unfold is_zombie in Hz. by destruct (ustatus z). }
  assert (ukilled a = false) as Hka by (apply Forall_app in Hw as [_ [[? _] _]%Forall_cons]; done).
  pose proof (λ c, reap_step c anc a z rest k w Ep Hcz Hz Hka Hst) as Hreap.
  apply settles_step; [eapply chain_calm; try done; unfold kills; unfold is_zombie in Hz; by destruct (ustatus z)|..].
  - eexists. exists (Choice (Z.of_nat (S (length anc))) (files w) [] false), (length anc).
    split; [unfold willing; simpl; lia|]. apply Hreap. simpl. lia.
  - intros w' (c & m & Hc & E). destruct (decide (m < length (anc ++ [a]))%nat) as [Hm|Hm].
    + destruct (decide (m = length anc ∧ Z.to_nat (ans c) = S (length anc))) as [[-> Hj]|Hj]; [rewrite Hreap in E by done; by injection E as <-|].
      rewrite (ancestors_blocked c m (anc ++ [a]) z rest w) in E; try done.
      * intros _ Hm'. rewrite Hlen in *. naive_solver lia.
      * unfold is_zombie in Hz. by destruct (ustatus z).
    + unfold ustep in E. destruct (procs w !! m) as [p|] eqn:Hp; [|done]. rewrite Ep in Hp. apply lookup_app_Some in Hp as [Hp|[_ Hp]]; [by apply lookup_lt_Some in Hp|].
      simpl in E. apply list_elem_of_lookup_2, elem_of_cons in Hp as [->|Hp]; [unfold is_zombie in Hz; by destruct (ustatus z)|].
      rewrite Forall_forall in Hg. destruct (Hg p Hp) as [_ Es]. by rewrite Es in E.
Qed.

(** [exit] in a chain. *)
Lemma exit_chain anc p rest w :
  procs w = anc ++ p :: rest → chain (anc ++ [p]) → Forall gone rest →
  do_exit (length anc) 0 w = set_procs (anc ++ set_fds [] (set_status (Zombie 0) p) :: rest) w.
Proof.
  intros Ep Hch Hg. unfold do_exit, upd, set_procs. simpl. f_equal.
  assert ((λ q, if is_child (length anc) q then set_uparent (Some O) q else q) <$> procs w = procs w) as ->.
  { apply list_eq. intros n. rewrite list_lookup_fmap. destruct (procs w !! n) as [q|] eqn:Hq; [|done]. simpl. f_equal.
    destruct (is_child (length anc) q) eqn:Ec; [|done]. exfalso. rewrite Ep, cons_middle, app_assoc in Hq. apply lookup_app_Some in Hq as [Hq|[_ Hq]].
    - pose proof (chain_child _ _ _ _ Hch Hq Ec) as ->. apply lookup_lt_Some in Hq. rewrite length_app in Hq. simpl in Hq. lia.
    - destruct (Forall_lookup_1 _ _ _ _ Hg Hq) as [_ Es]. unfold is_child in Ec. rewrite Es in Ec. by destruct (uparent q). }
  rewrite (alter_insert _ _ _ p) by (by rewrite Ep, list_lookup_middle). rewrite Ep, insert_app_r_alt by lia. by rewrite Nat.sub_diag.
Qed.

(** All exit, one after the other. *)
Lemma settles_unwind P anc p rest k w :
  procs w = anc ++ p :: rest → chain (anc ++ [p]) → Forall waiting anc → Forall gone rest → ukilled p = false → ustatus p = Runs (VisF (Exit 0) k) →
  (∀ l, Forall gone l → P (set_procs (UProc (upid (default p (head anc))) None [] false (Zombie 0) :: l) w)) → settles P w.
Proof.
  revert p rest k w. induction anc as [|a anc IH] using rev_ind; intros p rest k w Ep Hch Hw Hg Hk Hst HP.
  - apply (settles_solo P [] p rest (VisF (Exit 0) k)); try done; [unfold kills; by rewrite Hst|]. intros c _.
    exists (do_exit 0 0 w). split; [unfold ustep; rewrite Ep; simpl; by rewrite Hst, Hk|].
    rewrite (exit_chain [] p rest) by done. apply settles_now. simpl.
    replace (set_fds [] (set_status (Zombie 0) p)) with (UProc (upid p) None [] false (Zombie 0)); [by apply HP|].
    pose proof (Hch 0%nat p eq_refl) as Hpar. destruct p. simpl in *. by subst.
  - apply (settles_solo P (anc ++ [a]) p rest (VisF (Exit 0) k)); try done; [unfold kills; by rewrite Hst|]. intros c _.
    exists (do_exit (length (anc ++ [a])) 0 w). split; [unfold ustep; rewrite Ep, list_lookup_middle by done; simpl; by rewrite Hst, Hk|].
    rewrite (exit_chain (anc ++ [a]) p rest) by done.
    pose proof Hw as [Hwa [Hka (ka & Hsta & Hea)]%Forall_singleton]%Forall_app.
    apply (settles_reap P anc a (set_fds [] (set_status (Zombie 0) p)) rest ka); try done.
    { by apply (chain_last _ p). }
    destruct (Hea (upid p)) as [k' Ek]. cbn [upid set_fds set_status]. rewrite Ek. eapply (IH _ _ k'); simpl; try done.
    + apply (chain_last _ a); [|done]. by eapply chain_prefix.
    + by constructor.
    + intros l Hl. specialize (HP l Hl). by destruct anc.
Qed.

(** ** A program logic for the last process *)

Section solo.
Context (P : world → Prop) (anc : list uproc) (pid : Z) (par : option nat).

(** The last process is at [t], and its ancestors wait. *)
Definition here (fds : list (option handle)) (w : world) (t : prog Empty_set) : world :=
  set_procs (anc ++ [UProc pid par fds false (Runs (observe t))]) w.

Definition swp {A} (t : prog A) (Q : A → list (option handle) → world → Prop) (fds : list (option handle)) (w : world) : Prop :=
  ∀ C, is_ctx C → (∀ a fds' w', Q a fds' w' → settles P (here fds' w' (C (mret a)))) → settles P (here fds w (C t)).

Context (Hch : chain (anc ++ [UProc pid par [] false Gone])) (Hw : Forall waiting anc).

Lemma here_chain fds b s : chain (anc ++ [UProc pid par fds b s]).
Proof. by eapply chain_last. Qed.

Lemma here_ext fds w t t' : observe t = observe t' → here fds w t = here fds w t'.
Proof. intros E. unfold here. by rewrite E. Qed.

Lemma here_resume fds w s t : resume (length anc) t (set_procs (anc ++ [UProc pid par fds false s]) w) = here fds w t.
Proof.
  unfold resume, upd, here, set_procs. simpl. f_equal. rewrite (alter_insert _ _ _ (UProc pid par fds false s)) by (by rewrite list_lookup_middle).
  rewrite insert_app_r_alt by lia. by rewrite Nat.sub_diag.
Qed.

Lemma here_resume_fds fds fds' w s t : resume (length anc) t (upd (length anc) (set_fds fds') (set_procs (anc ++ [UProc pid par fds false s]) w)) = here fds' w t.
Proof.
  rewrite <-(here_resume fds' w s t). f_equal. unfold upd, set_procs. simpl. f_equal.
  rewrite (alter_insert _ _ _ (UProc pid par fds false s)) by (by rewrite list_lookup_middle). rewrite insert_app_r_alt by lia. by rewrite Nat.sub_diag.
Qed.

(** A step that the process makes whatever the kernel decides. *)
Lemma here_step fds w t : kills (UProc pid par fds false (Runs (observe t))) = None →
  (∀ c, willing c → ∃ w', ustep programs c (length anc) (here fds w t) = Some w' ∧ settles P w') → settles P (here fds w t).
Proof.
  intros Hk. apply (settles_solo P anc (UProc pid par fds false (Runs (observe t))) [] (observe t)); try done. apply here_chain.
Qed.

Lemma here_ustep c fds w t : ustep programs c (length anc) (here fds w t) =
  match observe t with
  | RetF r => match r : Empty_set with end
  | TauF u => Some (here fds w u)
  | VisF e k => do_call programs c (length anc) (UProc pid par fds false (Runs (observe t))) (here fds w t) e k
  end.
Proof.
  unfold ustep. change (procs (here fds w t)) with (anc ++ [UProc pid par fds false (Runs (observe t))]). rewrite list_lookup_middle by done. simpl.
  destruct (observe t) eqn:E; try done. unfold here. rewrite E. by rewrite here_resume.
Qed.

Lemma swp_ret {A} (a : A) (Q : A → _) fds w : Q a fds w → swp (mret a) Q fds w.
Proof. intros H C _ HQ. by apply HQ. Qed.

Lemma swp_bind {A B} (t : prog A) (f : A → prog B) Q fds w : swp t (λ a, swp (f a) Q) fds w → swp (t ≫= f) Q fds w.
Proof.
  intros H C HC HQ. apply (H (λ t, C (t ≫= f))); [by apply ctx_bind|].
  intros a fds' w' Ha. rewrite (here_ext _ _ _ (C (f a))) by (by apply HC). by apply Ha.
Qed.

Lemma swp_mono {A} (t : prog A) (Q Q' : A → _) fds w : swp t Q fds w → (∀ a fds' w', Q a fds' w' → Q' a fds' w') → swp t Q' fds w.
Proof. intros H HQ C HC HQ'. apply H; auto. Qed.

Lemma swp_iter {I R} (body : I → prog (I + R)) i Q fds w :
  swp (body i) (λ r, match r with inl i => swp (ITree.iter body i) Q | inr r => Q r end) fds w → swp (ITree.iter body i) Q fds w.
Proof.
  intros H C HC HQ. set (g := λ r : I + R, match r with inl i => go (TauF (ITree.iter body i)) | inr r => go (RetF r) end).
  rewrite (here_ext _ _ _ (C (body i ≫= g))) by (by apply HC).
  apply (H (λ t, C (t ≫= g))); [by apply ctx_bind|]. intros [j|r] fds' w' Hr.
  - set (u := C (mret (inl j) ≫= g)). assert (observe u = TauF (C (ITree.iter body j))) as Eu by (by apply HC).
    apply here_step; [unfold kills; simpl; by rewrite Eu|]. intros c _. exists (here fds' w' (C (ITree.iter body j))).
    split; [|by apply Hr]. by rewrite here_ustep, Eu.
  - rewrite (here_ext _ _ _ (C (mret r))) by (by apply HC). by apply HQ.
Qed.

Lemma swp_call {A} (e : sysE A) Q fds w : no_kill e = true →
  (∀ c k, willing c → ∃ a fds' w', do_call programs c (length anc) (UProc pid par fds false (Runs (VisF e k)))
      (set_procs (anc ++ [UProc pid par fds false (Runs (VisF e k))]) w) e k = Some (here fds' w' (k a)) ∧ Q a fds' w') →
  swp (sys e) Q fds w.
Proof.
  intros Hk H C HC HQ. assert (observe (C (sys e)) = VisF e (λ x, C (mret x))) as Eo by (by apply HC).
  apply here_step; [unfold kills; simpl; rewrite Eo; by destruct e|]. intros c Hc.
  destruct (H c (λ x, C (mret x)) Hc) as (a & fds' & w' & E1 & HQa).
  exists (here fds' w' (C (mret a))). split; [|by apply HQ]. rewrite here_ustep, Eo, <-E1. unfold here. by rewrite Eo.
Qed.

Lemma swp_exit {A} (Q : A → _) fds w :
  (∀ l, Forall gone l → P (set_procs (UProc (default pid (upid <$> head anc)) None [] false (Zombie 0) :: l) w)) → swp (uexit 0) Q fds w.
Proof.
  intros HP. apply swp_bind. intros C HC HQ. set (t := C (sys (Exit 0))).
  assert (observe t = VisF (Exit 0) (λ x, C (mret x))) as Eo by (by apply HC).
  eapply (settles_unwind P anc (UProc pid par fds false (Runs (observe t))) []); try done; [apply here_chain|simpl; by rewrite Eo|].
  intros l Hl. specialize (HP l Hl). by destruct anc.
Qed.

(** The first part of a program that is known. *)
Lemma settles_bind {A B} (t : prog A) (f : A → prog B) fds w C : is_ctx C →
  swp t (λ a fds' w', settles P (here fds' w' (C (f a)))) fds w → settles P (here fds w (C (t ≫= f))).
Proof.
  intros HC Ht. apply (Ht (λ t, C (t ≫= f))); [by apply ctx_bind|]. intros a fds' w' Ha.
  by rewrite (here_ext _ _ _ (C (f a))) by (by apply HC).
Qed.

(** ** Calls *)

Lemma swp_write_dev fd d buf Q fds w : is_dev fds fd d →
  Q (Z.of_nat (length buf)) fds (set_outs (fset (outs w) d (outs w d ++ buf)) w) → swp (sys (Write fd buf)) Q fds w.
Proof.
  intros [st Hfd] HQ. apply swp_call; [done|]. intros c k _. eexists _, _, _. split; [|exact HQ]. cbn [do_call ufds]. rewrite Hfd. f_equal.
  exact (here_resume fds (set_outs (fset (outs w) d (outs w d ++ buf)) w) _ _).
Qed.

Lemma swp_close fd h Q fds w : fd_get fds fd = Some h → Q 0 (<[Z.to_nat fd := None]> fds) w → swp (sys (Close fd)) Q fds w.
Proof. intros Hfd HQ. apply swp_call; [done|]. intros c k _. eexists _, _, _. split; [|exact HQ]. cbn [do_call ufds]. rewrite Hfd. f_equal. apply here_resume_fds. Qed.

Lemma swp_close_bad fd Q fds w : fd_get fds fd = None → Q (-1) fds w → swp (sys (Close fd)) Q fds w.
Proof. intros Hfd HQ. apply swp_call; [done|]. intros c k _. eexists _, _, _. split; [|exact HQ]. cbn [do_call ufds]. rewrite Hfd. f_equal. apply here_resume. Qed.

Lemma swp_pipe fd0 fd1 fds1 fds2 Q fds w :
  fd_new (HPipeR (length (pipes w))) fds = Some (fd0, fds1) → fd_new (HPipeW (length (pipes w))) fds1 = Some (fd1, fds2) →
  Q (Some (fd0, fd1)) fds2 (set_pipes (pipes w ++ [[]]) w) → swp (sys Pipe) Q fds w.
Proof.
  intros E1 E2 HQ. apply swp_call; [done|]. intros c k Hc. eexists _, _, _. split; [|exact HQ]. cbn [do_call ufds set_procs pipes]. rewrite E1, E2.
  rewrite (proj2 (Z.ltb_ge _ _) Hc). f_equal. exact (here_resume_fds fds fds2 (set_pipes (pipes w ++ [[]]) w) _ _).
Qed.

Lemma swp_read_pipe fd m n b q Q fds w : fd_get fds fd = Some (HPipeR m) → pipes w !! m = Some (b :: q) →
  Q (Some (take (Z.to_nat n) (b :: q))) fds (set_pipes (<[m := drop (Z.to_nat n) (b :: q)]> (pipes w)) w) → swp (sys (Read fd n)) Q fds w.
Proof.
  intros Hfd Hm HQ. apply swp_call; [done|]. intros c k _. eexists _, _, _. split; [|exact HQ]. cbn [do_call ufds]. rewrite Hfd. cbn [do_read set_procs pipes].
  rewrite Hm. cbn. f_equal. exact (here_resume fds (set_pipes _ w) _ _).
Qed.

Lemma swp_read_eof fd m n Q fds w : fd_get fds fd = Some (HPipeR m) → pipes w !! m = Some [] →
  Some (HPipeW m) ∉ fds → Forall (λ p, Some (HPipeW m) ∉ ufds p) anc → Q (Some []) fds w → swp (sys (Read fd n)) Q fds w.
Proof.
  intros Hfd Hm Hno Hanc HQ. apply swp_call; [done|]. intros c k _. eexists _, _, _. split; [|exact HQ]. cbn [do_call ufds]. rewrite Hfd. cbn [do_read set_procs pipes].
  rewrite Hm. match goal with |- context [opened ?h ?w] => destruct (opened h w) eqn:Eo end; [exfalso|cbn; f_equal; apply here_resume].
  apply opened_spec in Eo as (j & q & Hj & Hin); [|exists m; by right]. simpl in Hj. apply lookup_snoc_Some in Hj as [[_ Hj]|[_ <-]]; [|done].
  by apply (Forall_lookup_1 _ _ _ _ Hanc Hj).
Qed.

Lemma swp_write_pipe fd m buf q Q fds w : fd_get fds fd = Some (HPipeW m) → pipes w !! m = Some q →
  Some (HPipeR m) ∈ fds → (length q + length buf ≤ Z.to_nat PIPESIZE)%nat →
  Q (Z.of_nat (length buf)) fds (set_pipes (<[m := q ++ buf]> (pipes w)) w) → swp (sys (Write fd buf)) Q fds w.
Proof.
  intros Hfd Hm Hr Hlen HQ. apply swp_call; [done|]. intros c k _. eexists _, _, _. split; [|exact HQ]. cbn [do_call ufds]. rewrite Hfd. cbn [set_procs pipes].
  rewrite Hm. match goal with |- context [opened ?h ?w] => assert (opened h w = true) as Eo end.
  { apply opened_spec; [exists m; by left|]. eexists (length anc), _. split; [by apply list_lookup_middle|done]. }
  rewrite Eo. cbn [negb]. destruct (Nat.leb_spec (length buf) (Z.to_nat PIPESIZE - length q)); [|lia]. f_equal. exact (here_resume fds (set_pipes _ w) _ _).
Qed.

Lemma swp_puts fd d l Q fds w : is_dev fds fd d →
  (∀ w', outs w' d = outs w d ++ l → (∀ d', d' ≠ d → outs w' d' = outs w d') → pipes w' = pipes w → nextpid w' = nextpid w → Q tt fds w') →
  swp (puts fd l) Q fds w.
Proof.
  intros Hd. revert w. induction l as [|b l IH]; intros w HQ; simpl.
  - apply swp_ret, HQ; [by rewrite app_nil_r|done..].
  - apply swp_bind, (swp_write_dev fd d); [done|]. apply IH. simpl. intros w' H1 H2 H3 H4. apply HQ; [|intros d' Hd'|done|done].
    + by rewrite H1, fset_eq, <-app_assoc.
    + by rewrite H2, fset_ne.
Qed.

(** ** A parent and its new child *)

Definition pair (fdsP : list (option handle)) (tP : point) (cpid : Z) (fdsC : list (option handle)) (tC : point) (w : world) : world :=
  set_procs (anc ++ [UProc pid par fdsP false (Runs tP); UProc cpid (Some (length anc)) fdsC false (Runs tC)]) w.

Lemma settles_fork C fds w : is_ctx C →
  (∀ cpid, nextpid w ≤ cpid → settles P (pair fds (observe (C (mret cpid))) cpid fds (observe (C (mret 0)))
    (add_event (Forked (length anc) cpid) (set_nextpid (cpid + 1) w)))) →
  settles P (here fds w (C (sys Fork))).
Proof.
  intros HC Hs. assert (observe (C (sys Fork)) = VisF Fork (λ x, C (mret x))) as Eo by (by apply HC).
  apply here_step; [unfold kills; simpl; by rewrite Eo|]. intros c Hc. eexists. split; [|apply (Hs (Z.max (nextpid w) (ans c))); lia].
  rewrite here_ustep, Eo. cbn [do_call]. rewrite (proj2 (Z.ltb_ge _ _) Hc). unfold here. rewrite Eo, here_resume. unfold here, pair, set_procs, add_event, set_nextpid. simpl.
  by rewrite <-app_assoc.
Qed.

Definition kill_free (t : point) : bool := match t with VisF e _ => no_kill e | _ => true end.

Lemma kill_free_kills i par' fds t : kill_free t = true → kills (UProc i par' fds false (Runs t)) = None.
Proof. unfold kills. simpl. destruct t as [| |X e k]; try done. by destruct e. Qed.

Lemma pair_calm fdsP tP cpid fdsC tC w : kill_free tP = true → kill_free tC = true → calm (pair fdsP tP cpid fdsC tC w).
Proof.
  intros H1 H2 n p Hp. simpl in Hp. apply list_elem_of_lookup_2 in Hp. apply elem_of_app in Hp as [Hp|[->|[->|[]%elem_of_nil]%elem_of_cons]%elem_of_cons].
  - pose proof Hw as Hw'. rewrite Forall_forall in Hw'. destruct (Hw' p Hp) as [? (k & E & _)]. split; [done|]. unfold kills. by rewrite E.
  - split; [done|by apply kill_free_kills].
  - split; [done|by apply kill_free_kills].
Qed.

Lemma ctx_call {A B} (C : prog B → prog Empty_set) (e : sysE A) (f : A → prog B) :
  is_ctx C → observe (C (sys e ≫= f)) = VisF e (λ x, C (mret x ≫= f)).
Proof. intros HC. by apply HC. Qed.

Lemma pair_lookup fdsP tP cpid fdsC tC w :
  procs (pair fdsP tP cpid fdsC tC w) !! length anc = Some (UProc pid par fdsP false (Runs tP)) ∧
  procs (pair fdsP tP cpid fdsC tC w) !! S (length anc) = Some (UProc cpid (Some (length anc)) fdsC false (Runs tC)).
Proof.
  split; simpl; [by apply list_lookup_middle|]. rewrite lookup_app_r by lia. by replace (S (length anc) - length anc)%nat with 1%nat by lia.
Qed.

Lemma pair_child fdsP tP cpid fdsC tC fds' t' w : (∀ w, P w → dead w) →
  silent (S (length anc)) fdsC tC fds' t' → (∀ m, ¬ lost fdsC fds' m) → kill_free tP = true → kill_free tC = true →
  settles P (pair fdsP tP cpid fds' t' w) → settles P (pair fdsP tP cpid fdsC tC w).
Proof.
  intros HP Hsil Hl H1 H2 Hs. destruct (pair_lookup fdsP tP cpid fdsC tC w) as [_ E]. eapply (settles_silent _ _ _ _ _ Hsil); [done|split|].
  - by apply pair_calm.
  - by eexists.
  - intros m Hm. by destruct (Hl m).
  - replace (upd _ _ _) with (pair fdsP tP cpid fds' t' w); [done|]. unfold upd, pair, set_procs. simpl. f_equal.
    simpl in E. rewrite (alter_insert _ _ _ _ E), insert_app_r_alt by lia. by replace (S (length anc) - length anc)%nat with 1%nat by lia.
Qed.

Lemma pair_parent fdsP tP cpid fdsC tC fds' t' w : (∀ w, P w → dead w) →
  silent (length anc) fdsP tP fds' t' →
  (∀ m, lost fdsP fds' m → (m < length (pipes w))%nat ∧ (Some (HPipeW m) ∉ fdsC) ∧ Forall (λ p, Some (HPipeW m) ∉ ufds p) anc) →
  kill_free tP = true → kill_free tC = true →
  settles P (pair fds' t' cpid fdsC tC w) → settles P (pair fdsP tP cpid fdsC tC w).
Proof.
  intros HP Hsil Hl H1 H2 Hs. destruct (pair_lookup fdsP tP cpid fdsC tC w) as [E _]. eapply (settles_silent _ _ _ _ _ Hsil); [done|split|].
  - by apply pair_calm.
  - by eexists.
  - intros m Hm. destruct (Hl m Hm) as (Hlt & Hno & Hanc). split; [done|]. intros j q Hj Hq Hin. simpl in Hq.
    apply list_elem_of_lookup_2 in Hq as Hq'. apply lookup_app_Some in Hq as [Hq|[Hle Hq]]; [by apply (Forall_lookup_1 _ _ _ _ Hanc Hq)|].
    destruct (j - length anc)%nat as [|[|]] eqn:Ej; [lia| |done]. by injection Hq as <-.
  - replace (upd _ _ _) with (pair fds' t' cpid fdsC tC w); [done|]. unfold upd, pair, set_procs. simpl. f_equal.
    simpl in E. rewrite (alter_insert _ _ _ _ E), insert_app_r_alt by lia. by rewrite Nat.sub_diag.
Qed.

(** They close descriptors. *)
Lemma pair_child_close {B} (C : prog B → prog Empty_set) fd h f fdsP tP cpid fdsC w : (∀ w, P w → dead w) → is_ctx C →
  fd_get fdsC fd = Some h → (∀ m, h ≠ HPipeR m) → kill_free tP = true →
  settles P (pair fdsP tP cpid (<[Z.to_nat fd := None]> fdsC) (observe (C (f 0))) w) →
  settles P (pair fdsP tP cpid fdsC (observe (C (sys (Close fd) ≫= f))) w).
Proof.
  intros HP HC Hfd Hh Hk Hs. rewrite ctx_call by done. eapply pair_child; [done|by eapply silent_close| |done|done|].
  - intros m Hm%lost_close. unfold fd_get in Hfd. destruct (fd <? 0); [done|]. rewrite Hm in Hfd. simpl in Hfd. injection Hfd as <-. by eapply Hh.
  - assert (observe ((mret 0 : prog Z) ≫= f) = observe (f 0)) as Ef by done. by rewrite <-(ctx_ext _ HC _ _ Ef) in Hs.
Qed.

Lemma pair_parent_close {B} (C : prog B → prog Empty_set) fd h f fdsP cpid fdsC tC w : (∀ w, P w → dead w) → is_ctx C →
  fd_get fdsP fd = Some h →
  (∀ m, h = HPipeR m → (m < length (pipes w))%nat ∧ (Some (HPipeW m) ∉ fdsC) ∧ Forall (λ p, Some (HPipeW m) ∉ ufds p) anc) →
  kill_free tC = true →
  settles P (pair (<[Z.to_nat fd := None]> fdsP) (observe (C (f 0))) cpid fdsC tC w) →
  settles P (pair fdsP (observe (C (sys (Close fd) ≫= f))) cpid fdsC tC w).
Proof.
  intros HP HC Hfd Hh Hk Hs. rewrite ctx_call by done. eapply pair_parent; [done|by eapply silent_close| |done|done|].
  - intros m Hm%lost_close. apply Hh. unfold fd_get in Hfd. destruct (fd <? 0); [done|]. rewrite Hm in Hfd. simpl in Hfd. by injection Hfd as <-.
  - assert (observe ((mret 0 : prog Z) ≫= f) = observe (f 0)) as Ef by done. by rewrite <-(ctx_ext _ HC _ _ Ef) in Hs.
Qed.
End solo.

Lemma pair_here anc pid par fdsP tP cpid fdsC t w :
  pair anc pid par fdsP tP cpid fdsC (observe t) w = here (anc ++ [UProc pid par fdsP false (Runs tP)]) cpid (Some (length anc)) fdsC w t.
Proof. unfold pair, here. by rewrite <-app_assoc. Qed.
End settle.
