(* ===== verification/UserPrimes.v ===== *)
(** * primes, in every interleaving

    primes.c as processes over the system calls of UserSys.v: [main] fills a pipe,
    and every process of the sieve reads its left pipe to the end, forks the next
    one and waits for it.  Each keeps the read ends that it has inherited, one per
    level, so that the eleven primes below 36 need all 16 descriptors. *)

From Stdlib Require Import Ascii String Znumtheory.
From ITree Require Import ITree.
From S2P Require Import Prelude Machine Grep Printf Fs File Pipe Kernel UserSys UserProgs UserLogic UserFiles UserSettle.
Local Open Scope Z_scope.
Local Open Scope list_scope.

(** ** The sieve

    Each process takes the first number that reaches it and passes on those that it
    does not divide.  Of the numbers from 2 on, the first ones are the primes. *)

(** [d] does not divide [x]. *)
Definition coprime_to (d x : Z) : bool := negb (Z.rem x d =? 0).

(** The first numbers of the successive lists. *)
Fixpoint sieve (fuel : nat) (l : list Z) : list Z :=
  match fuel, l with
  | S fuel', first :: l' => first :: sieve fuel' (filter (λ x, coprime_to first x = true) l')
  | _, _ => []
  end.

(** No divisor of [x] from 2 up to below [a]. *)
Definition sifted (a x : Z) : bool := forallb (λ d, coprime_to d x) (seqZ 2 (a - 2)).

Lemma coprime_to_spec d x : 0 < d → coprime_to d x = true ↔ ¬ (d | x).
Proof.
  intros Hd. unfold coprime_to. rewrite negb_true_iff, Z.eqb_neq, Z.rem_divide by lia. done.
Qed.

Lemma sifted_spec a x : sifted a x = true ↔ ∀ d, 2 ≤ d < a → ¬ (d | x).
Proof.
  unfold sifted. rewrite forallb_forall. split.
  - intros Hs d Hd. apply coprime_to_spec; [lia|]. apply Hs, list_elem_of_In, elem_of_seqZ. lia.
  - intros Hs d Hd%list_elem_of_In%elem_of_seqZ. apply coprime_to_spec; [lia|]. apply Hs. lia.
Qed.

Lemma sifted_prime a : 2 ≤ a → sifted a a = true ↔ prime a.
Proof.
  intros Ha. rewrite sifted_spec. split.
  - intros Hs. apply prime_alt. split; [lia|]. intros n Hn. apply Hs. lia.
  - intros [_ Hp]%prime_alt d Hd. apply Hp. lia.
Qed.

Lemma sifted_step a x : 2 ≤ a →
  sifted (a + 1) x = true ↔ sifted a x = true ∧ coprime_to a x = true.
Proof.
  intros Ha. rewrite !sifted_spec, coprime_to_spec by lia. split.
  - intros Hs. split; [intros d Hd|]; apply Hs; lia.
  - intros [Hs Hx] d Hd. destruct (decide (d = a)) as [->|]; [done|]. apply Hs. lia.
Qed.

(** A number with a smaller divisor sifts nothing that was not sifted before. *)
Lemma sifted_skip a x : 2 ≤ a → sifted a a = false → sifted (a + 1) x = true ↔ sifted a x = true.
Proof.
  intros Ha Hf. rewrite sifted_step by done. split; [tauto|]. intros Hx. split; [done|].
  apply coprime_to_spec; [lia|]. intros Hax. apply not_true_iff_false in Hf. apply Hf, sifted_spec.
  intros d Hd Hda. apply (proj1 (sifted_spec a x) Hx d Hd). by apply (Z.divide_trans _ a).
Qed.

#[export] Instance prime_decision p : Decision (prime p) := prime_dec p.

Lemma sieve_sifted k fuel a :
  2 ≤ a → let q := filter (λ x, sifted a x = true) (seqZ a (Z.of_nat k)) in
  (length q ≤ fuel)%nat → sieve fuel q = filter prime (seqZ a (Z.of_nat k)).
Proof.
  revert fuel a. induction k as [|k IH]; intros fuel a Ha q Hfuel.
  { by destruct fuel. }
  revert Hfuel. unfold q. rewrite (seqZ_cons a) by lia.
  replace (Z.pred (Z.of_nat (S k))) with (Z.of_nat k) by lia. rewrite <-Z.add_1_r.
  destruct (sifted a a) eqn:Ea.
  - pose proof (proj1 (sifted_prime a Ha) Ea) as Hpr.
    rewrite filter_cons_True, (filter_cons_True prime) by done. cbn [length]. intros Hfuel.
    destruct fuel as [|fuel]; [lia|]. cbn [sieve]. f_equal. rewrite list_filter_filter.
    rewrite (list_filter_iff _ (λ x, sifted (a + 1) x = true)) by (intros x; rewrite sifted_step by done; tauto).
    apply IH; [lia|]. eapply Nat.le_trans; [|apply le_S_n, Hfuel].
    rewrite (list_filter_iff _ (λ x, coprime_to a x = true ∧ sifted a x = true)) by (intros x; rewrite sifted_step by done; tauto).
    rewrite <-list_filter_filter. apply length_filter.
  - rewrite filter_cons_False, (filter_cons_False prime); [|by rewrite <-sifted_prime, Ea|by rewrite Ea].
    rewrite (list_filter_iff _ (λ x, sifted (a + 1) x = true)) by (intros x; by rewrite sifted_skip).
    intros Hfuel. apply IH; [lia|done].
Qed.

Lemma sieve_primes n : sieve (Z.to_nat n) (seqZ 2 n) = filter prime (seqZ 2 n).
Proof.
  replace (seqZ 2 n) with (seqZ 2 (Z.of_nat (Z.to_nat n))).
  2: { destruct (decide (0 ≤ n)); [by rewrite Z2Nat.id by lia|]. rewrite !seqZ_nil by lia. done. }
  assert (filter (λ x, sifted 2 x = true) (seqZ 2 (Z.of_nat (Z.to_nat n))) = seqZ 2 (Z.of_nat (Z.to_nat n))) as E.
  { generalize (seqZ 2 (Z.of_nat (Z.to_nat n))). intros l. induction l as [|x l IH]; [done|]. by rewrite filter_cons_True, IH. }
  rewrite <-E at 1. apply sieve_sifted; [lia|]. rewrite E, length_seqZ. lia.
Qed.

(** ** primes.c *)

(** The [int] in the bytes that [read] stores. *)
Definition int_of (l : list Z) : Z := s32 (foldr (λ b r, b + 256 * r) 0 l).

(** [read(fd, &n, sizeof(n)) == sizeof(n)] and [write(fd, &n, sizeof(n))] *)
Definition read_int (fd : Z) : prog (option Z) :=
  r ← sys (Read fd 4);
  mret (match r with
        | Some l => if Z.of_nat (length l) =? 4 then Some (int_of l) else None
        | None => None
        end).
Definition write_int (fd n : Z) : prog Z := sys (Write fd (le_bytes 4 n)).

(** The [while] loop of [process]. *)
Definition filter_step (rd wr first : Z) (_ : unit) : prog (unit + unit) :=
  num ← read_int rd;
  match num with
  | None => mret (inr tt)
  | Some num =>
      if negb (Z.rem num first =? 0) then write_int wr num ;; mret (inl tt) else mret (inl tt)
  end.

(** What [process] does after its [fork]; the child calls [process] again, with the
    pipe that is the result. *)
Definition process_fork (lrd rrd rwr pid : Z) : prog ((Z * Z) + unit) :=
  if pid <? 0 then fprintf 2 (str "fork error" ++ [NL]) [] ;; uexit 1
  else if pid =? 0 then sys (Close rwr) ;; mret (inl (rrd, rwr))
  else sys (Close rrd) ;; sys (Close lrd) ;; sys (Close rwr) ;; sys Wait ;; mret (inr tt).

Definition process_body (lpipe : Z * Z) : prog ((Z * Z) + unit) :=
  let '(lrd, lwr) := lpipe in
  sys (Close lwr) ;;
  first ← read_int lrd;
  match first with
  | None => sys (Close lrd) ;; uexit 0
  | Some first =>
      printf (str "prime %d" ++ [NL]) [VInt first] ;;
      r ← sys UserSys.Pipe;
      match r with
      | None => fprintf 2 (str "rpipe error" ++ [NL]) [] ;; uexit 1
      | Some (rrd, rwr) =>
          ITree.iter (filter_step lrd rwr first) tt ;;
          pid ← sys Fork; process_fork lrd rrd rwr pid
      end
  end.

Definition process (lpipe : Z * Z) : prog unit := ITree.iter process_body lpipe.

(** The [for] loop of [main]. *)
Fixpoint fill (wr : Z) (l : list Z) : prog unit :=
  match l with
  | [] => mret tt
  | i :: l =>
      n ← write_int wr i;
      if negb (n =? 4) then fprintf 2 (str "lpipe write error" ++ [NL]) [] ;; uexit 1 else fill wr l
  end.

Definition primes_fork (rd wr pid : Z) : prog Empty_set :=
  if pid <? 0 then fprintf 2 (str "fork error" ++ [NL]) [] ;; uexit 1
  else if pid =? 0 then sys (Close wr) ;; process (rd, wr) ;; uexit 0
  else sys (Close rd) ;; sys (Close wr) ;; sys Wait ;; uexit 0.

Definition primes_main : prog Empty_set :=
  r ← sys UserSys.Pipe;
  match r with
  | None => fprintf 2 (str "lpipe error" ++ [NL]) [] ;; uexit 1
  | Some (rd, wr) =>
      fill wr (seqZ 2 34) ;;
      pid ← sys Fork; primes_fork rd wr pid
  end.

(** ** What it prints *)

Definition prime_line (p : Z) : list Z := str "prime " ++ decimal p ++ [NL].

(** * Lemmas *)

(** ** Numbers in pipes *)

Definition encode (l : list Z) : list Z := mjoin (le_bytes 4 <$> l).

(** A number that an [int] holds. *)
Definition is_int (n : Z) : Prop := int_of (le_bytes 4 n) = n.

Lemma le4 n : ∃ a b c d, le_bytes 4 n = [a; b; c; d].
Proof. unfold le_bytes. simpl. by eexists _, _, _, _. Qed.

Lemma length_le4 n : length (le_bytes 4 n) = 4%nat.
Proof. by destruct (le4 n) as (a & b & c & d & ->). Qed.

Lemma length_encode l : length (encode l) = (4 * length l)%nat.
Proof. induction l as [|n l IH]; [done|]. change (encode (n :: l)) with (le_bytes 4 n ++ encode l). rewrite length_app, length_le4, IH. simpl. lia. Qed.

Lemma encode_snoc l n : encode (l ++ [n]) = encode l ++ le_bytes 4 n.
Proof. unfold encode. rewrite fmap_app, join_app. by f_equal. Qed.

(** ** Descriptors *)

Section mid.
Context (l r : list (option handle)).

Lemma mid_get x : fd_get (l ++ x :: r) (Z.of_nat (length l)) = x.
Proof. unfold fd_get. destruct (Z.ltb_spec (Z.of_nat (length l)) 0); [lia|]. rewrite Nat2Z.id, list_lookup_middle by done. done. Qed.

Lemma mid_put x y : <[length l := y]> (l ++ x :: r) = l ++ y :: r.
Proof. rewrite insert_app_r_alt by done. by rewrite Nat.sub_diag. Qed.

Lemma mid_new h : Forall is_Some l → fd_new h (l ++ None :: r) = Some (Z.of_nat (length l), l ++ Some h :: r).
Proof.
  intros Hl. unfold fd_new. assert (fd_free (l ++ None :: r) = Some (length l)) as ->; [|simpl; by rewrite mid_put].
  induction Hl as [|x l' [h' ->] _ IH]; [done|]. simpl. by rewrite IH.
Qed.
End mid.

(** The same at a descriptor that is known to be the next one. *)
Lemma at_get (l r : list (option handle)) x fd : fd = Z.of_nat (length l) → fd_get (l ++ x :: r) fd = x.
Proof. intros ->. apply mid_get. Qed.

Lemma at_put (l r : list (option handle)) x y fd : fd = Z.of_nat (length l) → <[Z.to_nat fd := y]> (l ++ x :: r) = l ++ y :: r.
Proof. intros ->. rewrite Nat2Z.id. apply mid_put. Qed.

Section primes.
Context (programs : list Z → list (list Z) → option (prog Empty_set)) (pid0 d0 : Z) (st0 st1 st2 : stat) (w0 : world).

Definition std : list (option handle) := [Some (HDev d0 st0); Some (HDev 1 st1); Some (HDev 2 st2)].

(** The descriptors in use at level [k]: the read ends of the first [k] pipes. *)
Definition full (k : nat) : list (option handle) := std ++ ((λ m, Some (HPipeR m)) <$> seq 0 k).

Lemma length_full k : length (full k) = (3 + k)%nat.
Proof. unfold full. rewrite length_app, length_fmap, length_seq. done. Qed.

Lemma full_S k : full (S k) = full k ++ [Some (HPipeR k)].
Proof. unfold full. rewrite seq_S, fmap_app, app_assoc. done. Qed.

Lemma full_is_Some k : Forall is_Some (full k).
Proof. unfold full. apply Forall_app. split; [by repeat constructor|]. apply Forall_fmap, Forall_forall. by eexists. Qed.

Lemma full_no_writer k m : Some (HPipeW m) ∉ full k.
Proof.
  unfold full. intros [H|H]%elem_of_app; [unfold std in H; set_solver|]. by apply list_elem_of_fmap in H as (n & ? & _).
Qed.

Lemma full_out k r : is_dev (full k ++ r) 1 1.
Proof. by exists st1. Qed.

(** ** The parts of [process] *)

Section level.
Context (P : world → Prop) (anc : list uproc) (pid : Z) (par : option nat).
Context (Hch : chain (anc ++ [UProc pid par [] false Gone])) (Hw : Forall waiting anc).
Context (Hno : ∀ m, Forall (λ p, Some (HPipeW m) ∉ ufds p) anc).

Local Abbreviation swp := (swp programs P anc pid par).

Lemma swp_read_int fd m n l Q fds w : fd_get fds fd = Some (HPipeR m) → pipes w !! m = Some (encode (n :: l)) → is_int n →
  Q (Some n) fds (set_pipes (<[m := encode l]> (pipes w)) w) → swp (read_int fd) Q fds w.
Proof.
  intros Hfd Hm Hn HQ. unfold is_int in Hn. change (encode (n :: l)) with (le_bytes 4 n ++ encode l) in Hm.
  destruct (le4 n) as (a & b & c & d & E). rewrite E in *. apply swp_bind, (swp_read_pipe _ _ _ _ _ Hch Hw fd m 4 a ([b; c; d] ++ encode l)); [done|done|].
  apply swp_ret. change (Q (Some (int_of [a; b; c; d])) fds (set_pipes (<[m := encode l]> (pipes w)) w)). by rewrite Hn.
Qed.

Lemma swp_read_int_eof fd m Q fds w : fd_get fds fd = Some (HPipeR m) → pipes w !! m = Some [] → Some (HPipeW m) ∉ fds →
  Q None fds w → swp (read_int fd) Q fds w.
Proof. intros Hfd Hm Hf HQ. apply swp_bind, (swp_read_eof _ _ _ _ _ Hch Hw fd m); try done. by apply swp_ret. Qed.

Lemma swp_filter rd wr first m n q l Q fds w :
  fd_get fds rd = Some (HPipeR m) → fd_get fds wr = Some (HPipeW n) → Some (HPipeR n) ∈ fds → Some (HPipeW m) ∉ fds → m ≠ n →
  pipes w !! m = Some (encode l) → pipes w !! n = Some (encode q) → (4 * (length q + length l) ≤ 512)%nat → Forall is_int l →
  (∀ w', pipes w' = <[m := []]> (<[n := encode (q ++ filter (λ x, coprime_to first x = true) l)]> (pipes w)) →
    outs w' = outs w → nextpid w' = nextpid w → Q tt fds w') →
  swp (ITree.iter (filter_step rd wr first) tt) Q fds w.
Proof.
  intros Hrd Hwr Hn Hm Hne. revert q w. induction l as [|x l IH]; intros q w Em En Hlen Hint HQ; apply swp_iter; [done|done| |done|done|]; apply swp_bind.
  - apply (swp_read_int_eof rd m); [done|done|done|]. apply swp_ret. apply HQ; [|done|done]. simpl. rewrite app_nil_r.
    rewrite (list_insert_id _ n) by done. by rewrite list_insert_id.
  - apply Forall_cons in Hint as [Hx Hint]. apply (swp_read_int rd m x l); [done|done|done|].
    assert ((n < length (pipes w))%nat ∧ (m < length (pipes w))%nat) as [Ln Lm] by (by split; eapply lookup_lt_Some).
    fold (coprime_to first x). rewrite filter_cons in HQ. destruct (coprime_to first x) eqn:Ec.
    + rewrite decide_True in HQ by done. apply swp_bind, (swp_write_pipe _ _ _ _ _ Hch Hw wr n _ (encode q)); [done| |done| |].
      * simpl. by rewrite list_lookup_insert_ne.
      * rewrite length_encode, length_le4. simpl in Hlen. change (Z.to_nat PIPESIZE) with 512%nat. lia.
      * apply swp_ret. apply (IH (q ++ [x])); simpl.
        -- rewrite list_lookup_insert_ne, list_lookup_insert_eq by done. done.
        -- rewrite list_lookup_insert_eq by (by rewrite length_insert). by rewrite encode_snoc.
        -- rewrite length_app. simpl in *. lia.
        -- done.
        -- intros w' E1 E2 E3. apply HQ; [|done|done]. rewrite E1, <-app_assoc, list_insert_insert_eq.
           rewrite (list_insert_insert_ne _ n m), list_insert_insert_eq by done. done.
    + rewrite decide_False in HQ by done. apply swp_ret, (IH q); simpl.
      * by rewrite list_lookup_insert_eq.
      * by rewrite list_lookup_insert_ne.
      * simpl in *. lia.
      * done.
      * intros w' E1 E2 E3. apply HQ; [|done|done]. rewrite E1. rewrite (list_insert_insert_ne _ n m), list_insert_insert_eq by done. done.
Qed.

Lemma swp_fill wr n q l Q fds w :
  fd_get fds wr = Some (HPipeW n) → Some (HPipeR n) ∈ fds → pipes w !! n = Some (encode q) → (4 * (length q + length l) ≤ 512)%nat →
  (∀ w', pipes w' = <[n := encode (q ++ l)]> (pipes w) → outs w' = outs w → nextpid w' = nextpid w → Q tt fds w') →
  swp (fill wr l) Q fds w.
Proof.
  intros Hwr Hn. revert q w. induction l as [|x l IH]; intros q w En Hlen HQ; cbn [fill].
  - apply swp_ret, HQ; [|done|done]. rewrite app_nil_r. by rewrite list_insert_id.
  - apply swp_bind, (swp_write_pipe _ _ _ _ _ Hch Hw wr n _ (encode q)); [done|done|done| |].
    + rewrite length_encode, length_le4. simpl in Hlen. change (Z.to_nat PIPESIZE) with 512%nat. lia.
    + rewrite length_le4. cbn [Z.of_nat Z.eqb negb]. assert (n < length (pipes w))%nat as Ln by (by eapply lookup_lt_Some).
      apply (IH (q ++ [x])); simpl.
      * by rewrite list_lookup_insert_eq, encode_snoc.
      * rewrite length_app. simpl in *. lia.
      * intros w' E1 E2 E3. apply HQ; [|done|done]. by rewrite E1, list_insert_insert_eq, <-app_assoc.
Qed.

Lemma prime_format p : is_int p → vprintf udigits false (str "prime %d" ++ [NL]) [VInt p] = Some (prime_line p).
Proof.
  unfold is_int, int_of. generalize (foldr (λ b r, b + 256 * r) 0 (le_bytes 4 p)). intros z <-. unfold prime_line.
  generalize (decimal_Some z). generalize (decimal (s32 z)). generalize (s32 z) udigits. clear. intros a D la Ha.
  lazy -[printint]. rewrite Ha. reflexivity.
Qed.

Lemma swp_print p Q fds w : is_int p → is_dev fds 1 1 →
  (∀ w', outs w' 1 = outs w 1 ++ prime_line p → (∀ d, d ≠ 1 → outs w' d = outs w d) → pipes w' = pipes w → nextpid w' = nextpid w → Q tt fds w') →
  swp (printf (str "prime %d" ++ [NL]) [VInt p]) Q fds w.
Proof.
  intros Hp Hd HQ. unfold printf, fprintf. rewrite prime_format by done. by apply (swp_puts _ _ _ _ _ Hch Hw 1 1).
Qed.
End level.

(** ** The levels *)

(** All have ended, with [out] on the standard output. *)
Definition finished (out : list Z) (w : world) : Prop :=
  ∃ l, procs w = UProc pid0 None [] false (Zombie 0) :: l ∧ Forall gone l ∧ outs w 1 = out ∧ ∀ d, d ≠ 1 → outs w d = outs w0 d.

Lemma finished_dead out w : finished out w → dead w.
Proof.
  intros (l & Ep & Hl & _) i p t Hp. rewrite Ep in Hp. apply list_elem_of_lookup_2, elem_of_cons in Hp as [->|Hp]; [done|].
  rewrite Forall_forall in Hl. destruct (Hl p Hp) as [_ ->]. done.
Qed.

(** The rest of a process of the sieve around the body of [process]. *)
Definition around (t : prog ((Z * Z) + unit)) : prog Empty_set :=
  (t ≫= λ r, match r with inl x => go (TauF (ITree.iter process_body x)) | inr r => go (RetF r) end) ;; uexit 0.

Lemma around_ctx : is_ctx around.
Proof. unfold around. apply (ctx_bind (λ t, t ≫= λ _, uexit 0)). apply (ctx_bind (λ t, t)), ctx_id. Qed.

Lemma around_inl x : observe (around (mret (inl x))) = TauF (process x ;; uexit 0).
Proof. done. Qed.

Lemma around_inr (x : Z) : ∃ k, observe (around (mret x ≫= λ _, mret (inr tt))) = VisF (Exit 0) k.
Proof. eexists. unfold around. rewrite !observe_bind. cbn. reflexivity. Qed.

Lemma around_process x : observe (process x ;; uexit 0 : prog Empty_set) = observe (around (process_body x)).
Proof. unfold around. rewrite !(observe_bind _ (λ _, uexit 0)). done. Qed.

(** The ancestors of the process of level [j + 1]. *)
Record family (j : nat) (anc : list uproc) (pid : Z) : Prop := {
  fam_length : length anc = S j;
  fam_chain : chain (anc ++ [UProc pid (Some j) [] false Gone]);
  fam_wait : Forall waiting anc;
  fam_write m : Forall (λ p, Some (HPipeW m) ∉ ufds p) anc;
  fam_main : upid <$> head anc = Some pid0
}.

(** Its left pipe, with the number [j], has the numbers [l]. *)
Record numbers (j : nat) (l : list Z) (w : world) : Prop := {
  nb_pipes : length (pipes w) = S j;
  nb_data : pipes w !! j = Some (encode l);
  nb_pid : 0 < nextpid w;
  nb_int : Forall is_int l;
  nb_fits : (4 * length l ≤ 512)%nat
}.

(** Where it begins, with [n] free descriptors. *)
Definition sieving (j n : nat) (anc : list uproc) (pid : Z) (w : world) : world :=
  here anc pid (Some j) (full (S j) ++ replicate n None) w (around (process_body (Z.of_nat j + 3, Z.of_nat j + 4))).

Lemma family_child j anc pid fds t cpid : family j anc pid → (∀ m, Some (HPipeW m) ∉ fds) → waiting (UProc pid (Some j) fds false t) →
  family (S j) (anc ++ [UProc pid (Some j) fds false t]) cpid.
Proof.
  intros [Hl Hch Hw Hno Hm] Hf Ht. split.
  - rewrite length_app. simpl. lia.
  - intros n p Hp. apply lookup_snoc_Some in Hp as [[_ Hp]|[-> <-]]; [|rewrite length_app, Hl; simpl; f_equal; lia].
    eapply (chain_last _ _ (UProc pid (Some j) fds false t)) in Hch; [|done]. by apply Hch.
  - apply Forall_app. split; [done|]. by constructor.
  - intros m. apply Forall_app. split; [done|]. by constructor.
  - destruct anc; [done|]. done.
Qed.

Lemma process_fork_parent lrd rrd rwr pid : 0 < pid →
  process_fork lrd rrd rwr pid = (sys (Close rrd) ;; sys (Close lrd) ;; sys (Close rwr) ;; sys Wait ;; mret (inr tt)).
Proof. intros H. unfold process_fork. destruct (Z.ltb_spec pid 0); [lia|]. by destruct (Z.eqb_spec pid 0); [lia|]. Qed.

(** The child begins while its parent closes its descriptors. *)
Lemma generation P j n anc pid cpid w : (∀ w, P w → dead w) → family j anc pid → 0 < cpid →
  let fds := full (S j) ++ Some (HPipeR (S j)) :: Some (HPipeW (S j)) :: replicate n None in
  let t c := observe (around (process_fork (Z.of_nat j + 3) (Z.of_nat j + 4) (Z.of_nat j + 5) c)) in
  length (pipes w) = S (S j) →
  (∀ anc', family (S j) anc' cpid → settles programs P (sieving (S j) (S n) anc' cpid w)) →
  settles programs P (pair anc pid (Some j) fds (t cpid) cpid fds (t 0) w).
Proof.
  intros HP Hfam Hc fds t Hlen Hs. pose proof Hfam as [Hl Hch Hw Hno Hm].
  pose proof (length_full j) as Lj. pose proof (length_full (S j)) as Lsj. pose proof around_ctx as HC.
  set (r := replicate n None) in *.
  assert (∀ m, Some (HPipeW m) ∉ full (S (S j)) ++ None :: r) as Hnw.
  { intros m. rewrite elem_of_app, elem_of_cons. intros [H|[H|H]]; [by apply full_no_writer in H|done|]. by apply elem_of_replicate in H as [? _]. }
  assert (fds = (full (S j) ++ [Some (HPipeR (S j))]) ++ Some (HPipeW (S j)) :: r) as E1 by (unfold fds; by rewrite <-app_assoc).
  unfold t. rewrite process_fork_parent by done. unfold process_fork. cbn [Z.ltb Z.eqb Z.compare].
  eapply (pair_child_close programs P anc pid (Some j) Hw around _ (HPipeW (S j))); [done|done| |done|by rewrite ctx_call by done|].
  { rewrite E1. apply at_get. rewrite length_app, Lsj. simpl. lia. }
  rewrite E1 at 2. rewrite at_put by (rewrite length_app, Lsj; simpl; lia). rewrite <-full_S.
  rewrite around_inl. eapply (pair_child programs P anc pid (Some j) Hw); [done|apply silent_tau|by intros m [? []]|by rewrite ctx_call by done|done|].
  rewrite around_process.
  unfold fds. eapply (pair_parent_close programs P anc pid (Some j) Hw around _ (HPipeR (S j))); [done|done|by apply at_get; lia| |done|].
  { intros m [= <-]. split; [lia|]. by split. }
  rewrite at_put by lia. rewrite (full_S j), <-app_assoc. cbn [app].
  eapply (pair_parent_close programs P anc pid (Some j) Hw around _ (HPipeR j)); [done|done|by apply at_get; lia| |done|].
  { intros m [= <-]. split; [lia|]. by split. }
  rewrite at_put by lia. rewrite 2!cons_middle, !app_assoc.
  eapply (pair_parent_close programs P anc pid (Some j) Hw around _ (HPipeW (S j))); [done|done|apply at_get; rewrite !length_app, Lj; simpl; lia|done|done|].
  rewrite at_put by (rewrite !length_app, Lj; simpl; lia). rewrite pair_here, Hl.
  assert (∀ anc', family (S j) anc' cpid → settles programs P (here anc' cpid (Some (S j)) (full (S (S j)) ++ None :: r) w
    (around (process_body (Z.of_nat j + 4, Z.of_nat j + 5))))) as Hs'.
  { intros anc' Ha. specialize (Hs anc' Ha). unfold sieving in Hs. by replace (Z.of_nat (S j) + 3) with (Z.of_nat j + 4) in Hs by lia;
      replace (Z.of_nat (S j) + 4) with (Z.of_nat j + 5) in Hs by lia. }
  apply Hs'. apply family_child; [done| |].
  - intros m H. rewrite <-!app_assoc in H. apply elem_of_app in H as [H|H]; [by apply full_no_writer in H|]. simpl in H.
    repeat (apply elem_of_cons in H as [H|H]; [done|]). by apply elem_of_replicate in H as [? _].
  - split; [done|]. eexists. split; [cbn [ustatus]; by rewrite ctx_call by done|]. intros x. by apply around_inr.
Qed.

(** The last process finds its pipe empty. *)
Lemma last_level j n anc pid w :
  family j anc pid → numbers j [] w → (∀ d, d ≠ 1 → outs w d = outs w0 d) → (0 < n)%nat → settles programs (finished (outs w 1)) (sieving j n anc pid w).
Proof.
  intros [Hl Hch Hw Hno Hm] [_ Hd _ _ _] Ho Hn. destruct n as [|n]; [lia|]. unfold sieving. cbn [replicate].
  pose proof (length_full j) as Lj. pose proof (length_full (S j)) as Lsj.
  assert (fd_get (full (S j) ++ None :: replicate n None) (Z.of_nat j + 3) = Some (HPipeR j)) as Erd.
  { rewrite full_S, <-app_assoc. apply at_get. lia. }
  apply (swp_bind programs (finished (outs w 1)) anc pid (Some j) (sys (Close (Z.of_nat j + 4))) _ (λ _ _ _, False)); [|apply around_ctx|done].
  apply (swp_close_bad _ _ _ _ _ Hch Hw); [apply at_get; lia|].
  apply swp_bind, (swp_read_int_eof _ _ _ _ Hch Hw Hno _ j); [done|done| |].
  { intros H. apply elem_of_app in H as [H|H]; [by apply full_no_writer in H|]. apply elem_of_cons in H as [H|H]; [done|]. by apply elem_of_replicate in H as [? _]. }
  apply swp_bind, (swp_close _ _ _ _ _ Hch Hw _ (HPipeR j)); [done|]. apply (swp_exit _ _ _ _ _ Hch Hw).
  intros gl Hg. exists gl. split_and!; [|done|done|done]. simpl. by rewrite Hm.
Qed.

(** A process has filtered its numbers into its right pipe and forks. *)
Lemma fork_level P j n l anc pid w : (∀ w, P w → dead w) → family j anc pid → numbers (S j) l w →
  (∀ anc' cpid w', family (S j) anc' cpid → numbers (S j) l w' → outs w' = outs w → settles programs P (sieving (S j) (S n) anc' cpid w')) →
  settles programs P (here anc pid (Some j) (full (S j) ++ Some (HPipeR (S j)) :: Some (HPipeW (S j)) :: replicate n None) w
    (around (sys Fork ≫= process_fork (Z.of_nat j + 3) (Z.of_nat j + 4) (Z.of_nat j + 5)))).
Proof.
  intros HP Hfam [Hp Hd Hpid Hint Hfit] Hs. pose proof Hfam as [Hl Hch Hw Hno Hm]. pose proof around_ctx as HC.
  apply (settles_fork programs _ anc pid (Some j) Hch Hw (λ u, around (u ≫= process_fork (Z.of_nat j + 3) (Z.of_nat j + 4) (Z.of_nat j + 5)))); [by apply ctx_bind|].
  intros cpid Hc.
  assert (∀ c : Z, observe (around (mret c ≫= process_fork (Z.of_nat j + 3) (Z.of_nat j + 4) (Z.of_nat j + 5))) =
    observe (around (process_fork (Z.of_nat j + 3) (Z.of_nat j + 4) (Z.of_nat j + 5) c))) as Ef by (intros c; by apply (ctx_ext _ HC)).
  rewrite !Ef. apply (generation _ j n); [done|done|lia|done|].
  intros anc' Hfam'. apply Hs; [done| |done]. split; try done. simpl. lia.
Qed.

Lemma sieve_settles fuel j l n anc pid w out :
  family j anc pid → numbers j l w → (length l ≤ fuel)%nat → (length (sieve fuel l) < n)%nat →
  outs w 1 ++ mjoin (prime_line <$> sieve fuel l) = out → (∀ d, d ≠ 1 → outs w d = outs w0 d) →
  settles programs (finished out) (sieving j n anc pid w).
Proof.
  revert j l n anc pid w. induction fuel as [|fuel IH]; intros j l n anc pid w Hfam Hnum Hf Hn Hout Ho.
  { destruct l; [|simpl in Hf; lia]. rewrite <-Hout. simpl. rewrite app_nil_r. by eapply last_level. }
  destruct l as [|x l]; [rewrite <-Hout; simpl; rewrite app_nil_r; by eapply last_level|].
  cbn [sieve length] in Hn, Hf. destruct n as [|[|n]]; [lia|lia|].
  pose proof Hfam as [Hl Hch Hw Hno Hm]. destruct Hnum as [Hp Hd Hpid [Hx Hint]%Forall_cons Hfit].
  pose proof (length_full j) as Lj. pose proof (length_full (S j)) as Lsj. pose proof around_ctx as HC.
  unfold sieving. cbn [replicate]. set (r := replicate n None). set (fds := full (S j) ++ None :: None :: r).
  set (fds2 := full (S j) ++ Some (HPipeR (S j)) :: Some (HPipeW (S j)) :: r).
  apply settles_bind; [done|]. apply (swp_close_bad _ _ _ _ _ Hch Hw); [apply at_get; lia|].
  assert (∀ y z r', fd_get (full (S j) ++ y :: z :: r') (Z.of_nat j + 3) = Some (HPipeR j)) as Erd.
  { intros y z r'. rewrite full_S, <-app_assoc. apply at_get. lia. }
  apply settles_bind; [done|]. apply (swp_read_int _ _ _ _ Hch Hw _ j x l); [apply Erd|done|done|]. set (w1 := set_pipes _ w).
  apply settles_bind; [done|]. apply (swp_print _ _ _ _ Hch Hw); [done|apply full_out|]. intros w2 O2 O2' P2 N2.
  assert (length (pipes w2) = S j) as L2 by (rewrite P2; unfold w1; simpl; by rewrite length_insert).
  apply settles_bind; [done|]. eapply (swp_pipe _ _ _ _ _ Hch Hw); rewrite ?L2; [apply mid_new, full_is_Some| |].
  { rewrite cons_middle, app_assoc. apply mid_new. apply Forall_app. split; [apply full_is_Some|by repeat constructor]. }
  rewrite length_app, Lsj, <-app_assoc. cbn [app length]. replace (Z.of_nat (3 + S j)) with (Z.of_nat j + 4) by lia.
  replace (Z.of_nat (3 + S j + 1)) with (Z.of_nat j + 5) by lia. fold fds2. set (w3 := set_pipes _ w2).
  assert (pipes w3 = <[j := encode l]> (pipes w) ++ [[]]) as P3 by (unfold w3; simpl; by rewrite P2).
  apply settles_bind; [done|]. apply (swp_filter _ _ _ _ Hch Hw Hno _ _ _ j (S j) [] l).
  { apply Erd. }
  { unfold fds2. rewrite cons_middle, app_assoc. apply at_get. rewrite length_app, Lsj. simpl. lia. }
  { unfold fds2. rewrite elem_of_app, elem_of_cons. auto. }
  { unfold fds2. intros H. apply elem_of_app in H as [H|H]; [by apply full_no_writer in H|].
    apply elem_of_cons in H as [[=]|H]. apply elem_of_cons in H as [[= ?]|H]; [lia|]. by apply elem_of_replicate in H as [? _]. }
  { lia. }
  { rewrite P3, lookup_app_l by (rewrite length_insert; lia). rewrite list_lookup_insert_eq by lia. done. }
  { rewrite P3. apply list_lookup_middle. rewrite length_insert. lia. }
  { simpl in Hfit. simpl. lia. }
  { done. }
  intros w4 P4 O4 N4. set (l' := filter _ l) in P4. pose proof (length_filter (λ y, coprime_to x y = true) l) as Hl'. fold l' in Hl'.
  apply (fork_level _ j n l'); [apply finished_dead|done| |].
  - split; [| |rewrite N4; unfold w3; cbn [nextpid set_pipes]; by rewrite N2| |simpl in Hfit; lia].
    + rewrite P4, P3, !length_insert, length_app, length_insert. simpl. lia.
    + rewrite P4, list_lookup_insert_ne, list_lookup_insert_eq by (rewrite ?P3, ?length_app, ?length_insert; simpl; lia). done.
    + apply Forall_forall. intros y [_ Hy]%list_elem_of_filter. by apply (proj1 (Forall_forall _ _) Hint).
  - intros anc' cpid w5 Hfam' Hnum' O5. apply (IH (S j) l'); [done|done|lia|fold l' in Hn; lia| |].
    + rewrite <-Hout, O5, O4. unfold w3. cbn [outs set_pipes]. rewrite O2. unfold w1. simpl. by rewrite <-app_assoc.
    + intros d Hd'. rewrite O5, O4. unfold w3. cbn [outs set_pipes]. rewrite O2' by done. by apply Ho.
Qed.

(** ** [main] *)

(** The world in which the program starts: it has the three standard descriptors. *)
Definition primes_start : world :=
  set_pipes [] (set_procs [UProc pid0 None (std ++ replicate 13 None) false (Runs (observe primes_main))] w0).

Lemma main_family cpid fds t : (∀ m, Some (HPipeW m) ∉ fds) → waiting (UProc pid0 None fds false t) →
  family 0 [UProc pid0 None fds false t] cpid.
Proof.
  intros Hf Hw. split; [done| |by constructor|by constructor|done].
  intros n p Hp. destruct n as [|[|n]]; [by injection Hp as <-|by injection Hp as <-|done].
Qed.

Lemma main_fork P cpid w : (∀ w, P w → dead w) → 0 < cpid → length (pipes w) = 1%nat →
  let fds := std ++ Some (HPipeR 0) :: Some (HPipeW 0) :: replicate 11 None in
  (∀ anc, family 0 anc cpid → settles programs P (sieving 0 12 anc cpid w)) →
  settles programs P (pair [] pid0 None fds (observe (primes_fork 3 4 cpid)) cpid fds (observe (primes_fork 3 4 0)) w).
Proof.
  intros HP Hc Hlen fds Hs. assert (Forall waiting []) as Hw by constructor.
  assert (primes_fork 3 4 cpid = (sys (Close 3) ;; sys (Close 4) ;; sys Wait ;; uexit 0)) as ->.
  { unfold primes_fork. destruct (Z.ltb_spec cpid 0); [lia|]. by destruct (Z.eqb_spec cpid 0); [lia|]. }
  assert (∀ m, Some (HPipeW m) ∉ full 1 ++ replicate 12 None) as Hnw.
  { intros m [H|H]%elem_of_app; [by apply full_no_writer in H|]. by apply elem_of_replicate in H as [? _]. }
  apply (pair_child_close programs P [] pid0 None Hw (λ t, t) 4 (HPipeW 0)); [done|apply ctx_id|done|done|done|].
  apply (pair_parent_close programs P [] pid0 None Hw (λ t, t) 3 (HPipeR 0)); [done|apply ctx_id|done| |done|].
  { intros m [= <-]. split; [lia|]. split; [apply Hnw|constructor]. }
  apply (pair_parent_close programs P [] pid0 None Hw (λ t, t) 4 (HPipeW 0)); [done|apply ctx_id|done|done|done|].
  rewrite around_process, pair_here. apply Hs. apply main_family.
  - intros m. set_solver.
  - split; [done|]. eexists. split; [cbn [ustatus]; by rewrite (ctx_call (λ t, t)) by apply ctx_id|]. intros x. eexists. rewrite !observe_bind. cbn. reflexivity.
Qed.

Lemma primes_settles : 0 < nextpid w0 → settles programs (finished (outs w0 1 ++ mjoin (prime_line <$> filter prime (seqZ 2 34)))) primes_start.
Proof.
  intros Hpid. rewrite <-sieve_primes. assert (Forall waiting []) as Hw by constructor.
  assert (chain ([] ++ [UProc pid0 None [] false Gone])) as Hch by (intros [|n] p Hp; [by injection Hp as <-|done]).
  change primes_start with (here [] pid0 None (std ++ replicate 13 None) (set_pipes [] w0) primes_main).
  set (P := finished _). pose proof (finished_dead (outs w0 1 ++ mjoin (prime_line <$> sieve (Z.to_nat 34) (seqZ 2 34)))) as HP. fold P in HP.
  set (fds := std ++ Some (HPipeR 0) :: Some (HPipeW 0) :: replicate 11 None).
  apply (settles_bind programs P [] pid0 None _ _ _ _ (λ t, t)); [apply ctx_id|].
  apply (swp_pipe _ _ _ _ _ Hch Hw 3 4 (std ++ Some (HPipeR 0) :: None :: replicate 11 None) fds); [done|done|].
  apply (settles_bind programs P [] pid0 None _ _ _ _ (λ t, t)); [apply ctx_id|].
  apply (swp_fill _ _ _ _ Hch Hw 4 0 []); [done| |done|vm_compute; lia|].
  { unfold fds. set_solver. }
  intros w1 P1 O1 N1. rewrite app_nil_l in P1. cbn [nextpid set_pipes] in N1.
  apply (settles_fork programs P [] pid0 None Hch Hw (λ u, u ≫= primes_fork 3 4)); [apply (ctx_bind (λ t, t)), ctx_id|].
  intros cpid Hc. assert (∀ c : Z, observe (mret c ≫= primes_fork 3 4) = observe (primes_fork 3 4 c)) as Ef by (intros c; by rewrite observe_bind).
  rewrite !Ef. apply (main_fork P); [done|lia|cbn [pipes add_event set_nextpid]; by rewrite P1|].
  intros anc Hfam. apply (sieve_settles (Z.to_nat 34) 0 (seqZ 2 34)); [done| |done|vm_compute; lia|simpl; by rewrite O1|simpl; by rewrite O1].
  split; simpl; [by rewrite P1|by rewrite P1|lia| |vm_compute; lia].
  unfold is_int. apply (bool_decide_unpack (Forall (λ x, int_of (le_bytes 4 x) = x) (seqZ 2 34))). vm_compute. exact I.
Qed.
End primes.

(** * Properties *)

(** C37: primes prints the primes.  Whatever the order in which its processes run, and if
    the kernel refuses nothing for lack of resources, the processes of primes come to an
    end: no run is infinite, and when none can go on, [main] has exited with status 0, all
    other processes are collected, and what was printed is the line of each prime from 2
    to 35, in order, on the standard output.  So every process sees the end of its left
    pipe, which it does only when all others have closed their write ends, and finds two
    free descriptors for its right pipe. *)
Theorem primes_prints_primes programs pid d0 st0 st1 st2 w0 :
  0 < nextpid w0 →
  let start := primes_start pid d0 st0 st1 st2 w0 in
  (∀ f : nat → world, f O = start → ¬ ∀ n, usteps programs (f n) (f (S n))) ∧
  ∀ w, rtc (usteps programs) start w → (∀ w', ¬ usteps programs w w') →
    (∃ l, procs w = UProc pid None [] false (Zombie 0) :: l ∧ Forall (λ p, ustatus p = Gone) l) ∧
    outs w 1 = outs w0 1 ++ mjoin (prime_line <$> filter prime (seqZ 2 34)) ∧ ∀ d, d ≠ 1 → outs w d = outs w0 d.
Proof.
  intros Hpid start. pose proof (primes_settles programs pid d0 st0 st1 st2 w0 Hpid) as Hs. split.
  - apply (settles_finite _ _ _ (finished_dead _ _ _) Hs).
  - intros w Hr Hst. destruct (settles_stuck _ _ _ _ (finished_dead _ _ _) Hs Hr Hst) as (l & Ep & Hl & H1 & H2).
    split; [|done]. exists l. split; [done|]. eapply Forall_impl; [exact Hl|]. by intros p [_ ?].
Qed.

(** A run to the end: the youngest process goes first, and [wait] finds the next one. *)
Fixpoint ex_step (n : nat) (w : world) : option world :=
  match n with
  | O => None
  | S n =>
      match ustep (λ _ _, None) (Choice (Z.of_nat (S n)) (λ _, None) [] false) n w with
      | Some w' => Some w'
      | None => ex_step n w
      end
  end.

Fixpoint ex_run (fuel : nat) (w : world) : world :=
  match fuel with
  | O => w
  | S fuel => match ex_step (length (procs w)) w with Some w' => ex_run fuel w' | None => w end
  end.

Definition ex_world : world := World [] [] [] (λ _, None) (λ _, []) (λ _, []) 4 [].
Definition ex_stat : stat := Stat 1 2 T_DEVICE 1 0.
Definition ex_start : world := primes_start 3 1 ex_stat ex_stat ex_stat ex_world.

Lemma ex_step_usteps n w w' : ex_step n w = Some w' → usteps (λ _ _, None) w w'.
Proof.
  induction n as [|n IH]; [done|]. cbn [ex_step]. destruct (ustep _ _ n w) as [w1|] eqn:E; [|done]. intros [= <-].
  eexists _, n. split; [|exact E]. unfold willing. simpl. lia.
Qed.

Lemma ex_run_rtc fuel w : rtc (usteps (λ _ _, None)) w (ex_run fuel w).
Proof.
  revert w. induction fuel as [|fuel IH]; intros w; [apply rtc_refl|]. cbn [ex_run].
  destruct (ex_step _ w) as [w'|] eqn:E; [|apply rtc_refl]. eapply rtc_l; [by eapply ex_step_usteps|apply IH].
Qed.

Lemma ex_dead w : forallb (λ p, match ustatus p with Runs _ => false | _ => true end) (procs w) = true → dead w.
Proof.
  intros H i p t Hp Hst. apply list_elem_of_lookup_2, list_elem_of_In in Hp. apply (proj1 (forallb_forall _ _) H) in Hp. by rewrite Hst in Hp.
Qed.

Lemma primes_prints_primes_witness : ∃ w, rtc (usteps (λ _ _, None)) ex_start w ∧
  outs w 1 = mjoin (prime_line <$> [2; 3; 5; 7; 11; 13; 17; 19; 23; 29; 31]).
Proof.
  assert (forallb (λ p, match ustatus p with Runs _ => false | _ => true end) (procs (ex_run 2000 ex_start)) = true) as Hd by (vm_compute; reflexivity).
  assert (filter prime (seqZ 2 34) = [2; 3; 5; 7; 11; 13; 17; 19; 23; 29; 31]) as Ep by (rewrite <-sieve_primes; vm_compute; reflexivity).
  exists (ex_run 2000 ex_start). split; [apply ex_run_rtc|].
  destruct (primes_prints_primes (λ _ _, None) 3 1 ex_stat ex_stat ex_stat ex_world ltac:(reflexivity)) as [_ H].
  destruct (H (ex_run 2000 ex_start)) as (_ & Ho & _).
  - apply ex_run_rtc.
  - intros w'. apply dead_stuck, ex_dead, Hd.
  - rewrite Ho, Ep. reflexivity.
Defined.
